(* ===== verification/_CoqProject ===== *)
-Q . S2P
Prelude.v
Text.v
Float.v
Model.v
Civil.v
Lists.v
Partition.v
Timestamp.v
Typed.v
Queue.v
Files.v
Wal.v
WalRecovery.v
Spool.v
SpoolQueue.v
HecAck.v
Mask.v
Drain.v
Ring.v
SyncPolicy.v
SyncSignals.v
Tenancy.v
PartsEdge.v
Retention.v
Budget.v
Schema.v
Catalog.v
World.v
Store.v
TemplateDict.v
Merge.v
MergeState.v
MergeOnce.v
Compact.v
CompactOnce.v
Agent.v
Bits.v
Base64.v
Json.v
Jwt.v
Auth.v
AuthS3.v
Provenance.v
Dedupe.v
WalAcks.v
PeerIngest.v
PeerDurable.v
Sync.v
SyncDelivery.v
SyncFrames.v
Proto.v
Utf8.v
Otlp.v
OtlpFacts.v
OtlpJson.v
H2.v
Grpc.v
Hoare.v
GrpcFacts.v
Policy.v
PolicyFacts.v
PolicyStore.v
PolicyStoreFacts.v
PolicyImpact.v
PolicyImpactFacts.v
Glob.v
GlobFacts.v
Tail.v
TailFacts.v
Admin.v
AdminFacts.v
Httpd.v
HttpdFacts.v
HecEvent.v
HecEventFacts.v
Hec.v
HecFacts.v
Sigv4.v
S3List.v
S3Serve.v
