(* ===== verification/Prelude.v ===== *)
(** * log-less: a verification development of the agent's core

    log-less takes log records in, keeps them in a write-ahead log, merges them
    into partitioned Parquet files with a catalog, mines templates from their
    text, and sends a small, policy-driven part of them to a peer.  The Rust
    sources are under [src/crates/logless-core/src]; a name below such as
    [wal.rs] is a file there.  Definitions keep the names of the code.

    ** The path of a record, and the files that model it

    - The data.  [Model] is [model.rs] (records, attributes, severities);
      [Partition] is [partition.rs] (keys, directories, hours), on [Civil]
      (dates).  [Typed] is [typed.rs] (typed columns, promotion), on
      [Timestamp] (its canonical timestamps).  [Schema] is [schema.rs]: records
      to the batch a file holds, and back.
    - Admission.  [Queue] is [queue.rs]: what is shed, dropped and counted when
      producers run concurrently, as a step relation.  [HecAck] is
      [hec/ack.rs].  [Mask] is [mask.rs], [Drain] is [drain.rs] (templates).
    - Durability.  [Files] is a directory; [Wal] is [wal.rs], and [WalRecovery]
      what a crash leaves of it: files keep what was synced and any part of the
      rest.  [Spool] is [spool.rs], [SpoolQueue] its refinement of a queue.
    - The store.  [World] is what a merge works on, a log directory, the files,
      the catalog and the miner, with effects that may fail or be the last;
      [Catalog] is [catalog.rs], [Store] is [store.rs], [TemplateDict] is
      [template_dict.rs], [Merge] is [merge.rs], [Compact] is [compact.rs].
      [MergeState], [MergeOnce] and [CompactOnce] say what they keep.  [Agent]
      puts the writer and the merger together: a transition system of
      operations, passes, crashes and starts, and the ledger it refines.
    - Keeping within the disk.  [Tenancy] is the tenants, indexes and level
      buckets of [config.rs]; [Retention] is [retention.rs], [Budget] is
      [budget.rs] with the catalog rows a pass forgets, [PartsEdge] is
      [parts_edge.rs] (what is pinned until the peer has it).
    - What is sent.  [Ring] is [ring.rs] (the context of errors); [SyncPolicy]
      is [sync_policy.rs], verified against the class [Signals] of what a
      detector promises, of which [SyncSignals], [sync_signals.rs], is the
      instance.  [Sync] is the sender of [sync.rs], [SyncDelivery] what it
      delivers to any peer, [SyncFrames] its frames as the peer reads them.
    - The peer, [peer.rs].  [Provenance] is the journeys of records and the
      loops it refuses, [Dedupe] its window of seen ids, [WalAcks] the waiting
      for the log, [PeerIngest] the ingest of a frame; [PeerDurable] runs them
      together and says what an acknowledgement means.
    - Who may do what.  [Auth] is [auth.rs]: principals, operations, the
      admission of a batch to a tenant and its indexes; [Jwt] its broker tokens,
      on [Base64] and [Json] (a parsed value, the parser being a parameter);
      [AuthS3] its scopes and session credentials.
    - The wire formats.  [Proto] is [otlp/proto.rs], [Otlp] the decoding of
      [otlp/logs.rs] with [OtlpFacts], [OtlpJson] is [otlp/json.rs].  [H2] is
      [otlp/h2.rs] on [Bits], [Grpc] a connection of [otlp/grpc.rs], and
      [GrpcFacts] what it serves.  [Utf8] is what the standard library makes of
      bytes that are not text.
    - HTTP.  [Httpd] is [httpd.rs] and [bounded_http.rs]: one request from its
      packets to its reply, over the class [Handler]; [HttpdFacts] what it
      guarantees a handler.  [HecEvent] is [hec/event.rs] and [HecEventFacts] its
      round trips and times; [Hec] is [hec.rs], an instance of [Handler], and
      [HecFacts] what it counts, admits and acknowledges.
    - The S3 server.  [Sigv4] is [s3_sigv4.rs] (signatures, presigned
      addresses); [S3List] the keys, walk and tokens of [s3_serve.rs] and
      [S3Serve] its gate, objects, ranges, XML and start; each with its facts.
    - The runtime policy.  [Policy] is [policy.rs] (the document, its
      validation, differences and overlay), [PolicyStore] is [policy_store.rs]
      (its file and its audit log), [PolicyImpact] is [policy_impact.rs] (what a
      pass would delete), [Admin] the policy endpoints of [admin_api.rs]; each
      has its [Facts] file.
    - Files as a source.  [Glob] is the patterns of [tail.rs] and [Tail] its
      cursors, rotation and checkpoint, with [GlobFacts] and [TailFacts].

    [Prelude], [Text], [Float] and [Lists] hold what they share: machine
    integers as [Z] with their wrap-around written out, the state and error
    monad [SE], strings and numbers as text, IEEE doubles over [SpecFloat],
    sorting and list lemmas.  [Hoare] is a program logic for [SE].

    ** How state and operations correspond

    A struct is a record, its mutable state is passed: a method is a function of
    the state, or a computation of [SE] where it can return early.  A loop is
    [foldl], [each] or a [Fixpoint] on the list it walks.  Fuel is used where
    there is no such list: by the readers of a file ([Wal.replay_loop], the
    spool's readers) it is the length of the file, and each frame takes at least
    its header; by the readers of a wire format or a request it is the bytes that
    are left, of which each turn takes one ([OtlpFacts], [GrpcFacts],
    [HttpdFacts] show it enough); by [glob_loop] the product of two lengths, since
    a backtrack moves the star ([GlobFacts]: every larger fuel answers the same); by [mask_loop] it is the number of words, and more changes
    nothing ([mask_loop_fuel]); printing a number has a step for each binary
    digit ([log2_fuel]), and the digits of a float are at most the seventeen
    that tell two doubles apart.  Arithmetic that the code lets wrap or saturate does
    so here; where the code would panic the definition returns [None] or a
    [Panicked].  A [HashMap] is a [gmap]; where the code iterates over one, the
    order is fixed by the model and said so in the file.

    A crash is modelled in two places.  [Files] loses what was not synced, for
    the log and the spool.  [World] lets the process die in front of any effect,
    and any effect fail, but keeps what was renamed or committed: there the
    question is the order of effects, not the page cache.

    ** What is shown

    - Nothing is lost or repeated: from append to store, whatever happens in
      between ([Agent]); by itself the log keeps what was synced
      ([WalRecovery]), the spool is a queue ([SpoolQueue]), the acknowledgements
      say what is durable ([HecAck]), a merge moves every record to the store
      once ([MergeOnce]), a compaction keeps the rows ([CompactOnce]), the
      catalog stays true through a maintenance pass ([Budget]), retention
      deletes what it must and nothing else ([Retention]), and what was sent and
      what was counted add up ([SyncPolicy], [Queue]).
    - What crosses a connection is taken once and said truly: the sender's
      frames are read and answered ([SyncFrames], [SyncDelivery]), what the peer
      acknowledges is durable ([PeerDurable]), its window remembers the last ids
      ([Dedupe]), journeys end ([Provenance]), a gRPC call is served and a
      connection sustained ([GrpcFacts]), a request is read the same however it
      is cut into packets ([HttpdFacts]), an HEC batch is admitted whole or not at
      all, as the principal its credential names, and a poll on a channel says of
      each id given out there whether its batch is on disk ([HecFacts]); a followed
      file is delivered line by line through rotation and restarts ([TailFacts]).
    - Nobody does what they may not: a request is who its credential says and
      every refusal is counted under its reason, a record lands in its principal's
      tenant, in the index it names or the one the tenant's rule gives it ([Auth]),
      a token is accepted exactly as its fields say and its issuer signed it ([Jwt]), a scope is its tenant
      ([AuthS3]), a signature is for one request ([Sigv4]), and what lies
      outside a reader's scope never shows ([S3Serve]).
    - The policy in force is the one on disk: validated, versioned, audited,
      found again after any crash but one that cuts the audit line inside a
      character, and never applied unconfirmed where it deletes more or loses records ([PolicyFacts], [PolicyStoreFacts], [PolicyImpactFacts],
      [AdminFacts]).
    - Round trips: records through a file ([Schema]), keys through a path
      ([Partition]), instants through text ([Timestamp]), templates through the
      catalog ([Drain], [Catalog]), requests through protobuf ([OtlpFacts]),
      pairs through a query ([HecEventFacts]), cursors through a checkpoint
      ([TailFacts]), a file through ranges and its dates through headers
      ([S3Serve]).
    - Equivalences: the two encodings of a request ([OtlpJson]), the overlay and
      a merge ([PolicyFacts]), the iterative matcher and the glob relation
      ([GlobFacts]), the pages of a listing and the sorted list of what may be
      seen ([S3List]), the masking of a line and the shapes its rules name ([Mask]).
    - Bounds: the ring, the detectors, typed columns within their budgets
      ([Ring], [SyncSignals], [Typed]), a request within its limits
      ([HttpdFacts]).
    - Reads find what was written: the level buckets partition the severities
      ([Tenancy]), and a time range opens every file with a row in it
      ([MergeOnce], [Catalog]).
    - Findings, each with a theorem of a concrete run: see the theorems marked
      "Finding" in the files.

    ** Parameters

    Serde_json, Postcard, CRC-32, SHA-256, HMAC, Ed25519, HPACK and gzip are
    arguments with the laws used of them as hypotheses; so are fresh UUIDs,
    clocks, modification times, the sizes of Parquet files, what Unicode calls
    alphanumeric beyond ASCII, what the pipeline answers for a batch, and the
    answers of failing system calls.  Arrow and Parquet are not modelled: a file
    is the batch it holds and its footer; a socket is the list of what its reads
    give.

    ** Not modelled

    Threads, accepting connections and their cap, and how the bytes of a streamed
    body or reply are moved; the HTTP transport of OTLP, the Sentry proxy, forwarding;
    the parts protocol beyond what the edge pins and
    retires; the endpoints of the admin API but the policy's; scanning a store,
    migration and restore; the command line.  Most are I/O around the logic
    above; what they decide themselves is listed as not modelled rather than
    simplified. *)

From Stdlib Require Export ZArith Lia List Bool.
From Stdlib Require Export String Ascii.
From Stdlib Require Strings.Byte.
From Stdlib Require Import SpecFloat.
From stdpp Require Export base numbers option list gmap sets strings.

#[export] Set Default Goal Selector "!".
Global Open Scope Z_scope.

(** ** Tactics shared by the development *)

(** Case analysis on every boolean comparison in the goal and hypotheses,
    then linear arithmetic. *)
Ltac zbool :=
  repeat match goal with
  | H : (_ && _)%bool = true |- _ => apply andb_prop in H as [? ?]
  | H : (_ || _)%bool = false |- _ => apply orb_false_elim in H as [? ?]
  | H : negb _ = true |- _ => apply negb_true_iff in H
  | H : negb _ = false |- _ => apply negb_false_iff in H
  | H : Z.ltb _ _ = true |- _ => apply Z.ltb_lt in H
  | H : Z.ltb _ _ = false |- _ => apply Z.ltb_ge in H
  | H : Z.leb _ _ = true |- _ => apply Z.leb_le in H
  | H : Z.leb _ _ = false |- _ => apply Z.leb_gt in H
  | H : Z.eqb _ _ = true |- _ => apply Z.eqb_eq in H
  | H : Z.eqb _ _ = false |- _ => apply Z.eqb_neq in H
  | H : Z.gtb _ _ = _ |- _ => rewrite Z.gtb_ltb in H
  | H : Z.geb _ _ = _ |- _ => rewrite Z.geb_leb in H
  end.

(** [lia] with the defining equations of [/] and [mod] by constants. *)
Ltac dlia := Z.to_euclidean_division_equations; lia.

(** What a [Forall] says of a member. *)
Ltac forall_in H x := rewrite Forall_forall in H; specialize (H x ltac:(by apply list_elem_of_In)).

(** Split the scrutinee of a match or conditional of the goal. *)
Ltac case_goal :=
  match goal with
  | |- context [match ?x with _ => _ end] => destruct x eqn:?
  end.

(** Split the scrutinee of a match or conditional of hypothesis [H]. *)
Ltac case_hyp H :=
  match type of H with
  | context [match ?x with _ => _ end] => destruct x eqn:?
  end.

(** ** Machine integers: [u64], [i64] and the other widths as [Z]

    A field of an unsigned Rust type is a [Z]; [wrapN] is the value a release
    build keeps after [+] or [*] overflowed, [sat_sub] and [sat_add] are
    [saturating_sub] and [saturating_add] of [u64]. *)

Definition wrap (w : Z) (z : Z) : Z := z mod 2 ^ w.
Definition wrap8 := wrap 8.
Definition wrap16 := wrap 16.
Definition wrap32 := wrap 32.
Definition wrap64 := wrap 64.
Definition u64_max : Z := 18446744073709551615.
Definition u32_max : Z := 4294967295.
Definition i64_min : Z := -9223372036854775808.
Definition i64_max : Z := 9223372036854775807.

(** [as i64] of any integer, and what [i64] arithmetic keeps on overflow. *)
Definition wrap_i64 (z : Z) : Z := (z + 2 ^ 63) mod 2 ^ 64 - 2 ^ 63.

Definition wadd64 (a b : Z) : Z := wrap64 (a + b).
Definition wmul64 (a b : Z) : Z := wrap64 (a * b).
Definition sat_sub (a b : Z) : Z := Z.max 0 (a - b).
Definition sat_add (a b : Z) : Z := Z.min u64_max (a + b).

Definition u64_range (z : Z) : Prop := 0 <= z <= u64_max.
Definition u32_range (z : Z) : Prop := 0 <= z <= u32_max.
Definition u8_range (z : Z) : Prop := 0 <= z < 256.

#[export] Instance u64_range_dec z : Decision (u64_range z).
Proof. unfold u64_range. apply _. Defined.

Lemma wrap64_small z : u64_range z -> wrap64 z = z.
Proof. unfold u64_range, wrap64, wrap, u64_max. intros. apply Z.mod_small. lia. Qed.

Lemma wrap64_range z : u64_range (wrap64 z).
Proof.
  unfold u64_range, wrap64, wrap, u64_max.
  pose proof (Z.mod_pos_bound z (2 ^ 64)). lia.
Qed.

Lemma wrap_i64_small z : i64_min <= z <= i64_max -> wrap_i64 z = z.
Proof.
  unfold wrap_i64, i64_min, i64_max. intros.
  rewrite Z.mod_small by lia. lia.
Qed.

Lemma wadd64_small a b : u64_range (a + b) -> wadd64 a b = a + b.
Proof. apply wrap64_small. Qed.

Lemma wrap64_add_l a b : wrap64 (wrap64 a + b) = wrap64 (a + b).
Proof. unfold wrap64, wrap. apply Zplus_mod_idemp_l. Qed.

Lemma wrap64_add_r a b : wrap64 (a + wrap64 b) = wrap64 (a + b).
Proof. unfold wrap64, wrap. apply Zplus_mod_idemp_r. Qed.

Lemma wrap64_idem z : wrap64 (wrap64 z) = wrap64 z.
Proof. apply wrap64_small, wrap64_range. Qed.

(** Running a bind, as a rewriting step. *)
Lemma bind_some {A B} (f : A -> option B) (x : A) : (Some x ≫= f) = f x.
Proof. reflexivity. Qed.
Lemma bind_none {A B} (f : A -> option B) : (None ≫= f) = None.
Proof. reflexivity. Qed.

(** Invert a successful bind: name its value and the equation of its head. *)
Ltac bind_inv H x E :=
  match type of H with
  | (?o ≫= _) = Some _ =>
      destruct o as [x|] eqn:E;
      [rewrite bind_some in H; cbv beta in H | rewrite bind_none in H; discriminate H]
  end.

(** ** State and errors

    [SE S E A] is a method that reads and writes a state [S] and returns
    [Result<A, E>]; what it wrote stays written when it fails, as with
    [&mut self]. *)
Definition SE (S E A : Type) : Type := S -> (E + A) * S.

#[export] Instance SE_ret {S E} : MRet (SE S E) := fun _ a s => (inr a, s).
#[export] Instance SE_bind {S E} : MBind (SE S E) := fun _ _ k m s =>
  match m s with
  | (inl e, s') => (inl e, s')
  | (inr a, s') => k a s'
  end.

Definition fail {S E A} (e : E) : SE S E A := fun s => (inl e, s).
Definition gets {S E A} (f : S -> A) : SE S E A := fun s => (inr (f s), s).
Definition modify {S E} (f : S -> S) : SE S E unit := fun s => (inr tt, f s).
Definition when {S E} (b : bool) (m : SE S E unit) : SE S E unit := if b then m else mret tt.

Lemma SE_bind_ok {S E A B} (m : SE S E A) (k : A -> SE S E B) s b s2 :
  (m ≫= k) s = (inr b, s2) -> exists a s1, m s = (inr a, s1) /\ k a s1 = (inr b, s2).
Proof. unfold mbind, SE_bind. destruct (m s) as [[e|a] s1]; [done|]. by exists a, s1. Qed.

Lemma SE_bind_run {S E A B} (m : SE S E A) (k : A -> SE S E B) s a s1 :
  m s = (inr a, s1) -> (m ≫= k) s = k a s1.
Proof. unfold mbind, SE_bind. by intros ->. Qed.

(** Invert a successful run of a bind. *)
Ltac se_inv H x s E :=
  apply SE_bind_ok in H; destruct H as (x & s & E & H).

Create HintDb logless.
Create Rewrite HintDb logless.
#[export] Hint Resolve wrap64_range wrap64_small wadd64_small : logless.

(** ** Bytes and little/big-endian words *)

Abbreviation byte := Byte.byte.
Abbreviation bytes := (list Byte.byte).

#[export] Instance byte_eq_dec : EqDecision byte := Byte.byte_eq_dec.
#[export] Instance byte_countable : Countable byte.
Proof. refine (inj_countable Byte.to_N Byte.of_N _). intros x. apply Byte.of_to_N. Defined.

Definition byte_val (b : byte) : Z := Z.of_N (Byte.to_N b).

Definition to_byte (z : Z) : byte :=
  match Byte.of_N (Z.to_N (z mod 256)) with
  | Some b => b
  | None => Byte.x00
  end.

Lemma byte_val_range b : 0 <= byte_val b < 256.
Proof. unfold byte_val. pose proof (Byte.to_N_bounded b). lia. Qed.

Lemma to_byte_val b : to_byte (byte_val b) = b.
Proof. destruct b; reflexivity. Qed.

Lemma byte_val_to_byte z : byte_val (to_byte z) = z mod 256.
Proof.
  unfold to_byte, byte_val.
  pose proof (Z.mod_pos_bound z 256 ltac:(lia)) as Hz.
  destruct (Byte.of_N (Z.to_N (z mod 256))) as [b|] eqn:E.
  - apply Byte.to_of_N in E. rewrite E. lia.
  - apply Byte.of_N_None_iff in E. lia.
Qed.

Lemma byte_val_inj a b : byte_val a = byte_val b -> a = b.
Proof. intros H. rewrite <- (to_byte_val a), <- (to_byte_val b). congruence. Qed.

(** [n] bytes of [z], least significant first: [to_le_bytes]. *)
Fixpoint le_bytes (n : nat) (z : Z) : bytes :=
  match n with
  | O => []
  | S n' => to_byte z :: le_bytes n' (z / 256)
  end.

(** [from_le_bytes]. *)
Fixpoint le_val (bs : bytes) : Z :=
  match bs with
  | [] => 0
  | b :: bs' => byte_val b + 256 * le_val bs'
  end.

Definition be_bytes (n : nat) (z : Z) : bytes := rev (le_bytes n z).
Definition be_val (bs : bytes) : Z := le_val (rev bs).

Lemma length_le_bytes n z : List.length (le_bytes n z) = n.
Proof. revert z. induction n as [|n IH]; intros z; simpl; [done|by rewrite IH]. Qed.

Lemma le_val_le_bytes n z : le_val (le_bytes n z) = z mod 256 ^ Z.of_nat n.
Proof.
  revert z. induction n as [|n IH]; intros z; [by rewrite Z.mod_1_r|].
  cbn [le_bytes le_val]. rewrite IH, byte_val_to_byte, Nat2Z.inj_succ, Z.pow_succ_r by lia.
  rewrite (Z.rem_mul_r z 256 (256 ^ Z.of_nat n)); lia.
Qed.

Lemma le4_small z : u32_range z -> le_val (le_bytes 4 z) = z.
Proof. unfold u32_range, u32_max. intros. rewrite le_val_le_bytes. apply Z.mod_small. lia. Qed.

Lemma le_val_bound bs : 0 <= le_val bs < 256 ^ Z.of_nat (List.length bs).
Proof.
  induction bs as [|b bs IH]; [simpl; lia|].
  cbn [le_val List.length]. rewrite Nat2Z.inj_succ, Z.pow_succ_r by lia.
  pose proof (byte_val_range b). lia.
Qed.

Lemma le_bytes_le_val bs : le_bytes (List.length bs) (le_val bs) = bs.
Proof.
  induction bs as [|b bs IH]; [done|]. cbn [le_val List.length le_bytes].
  pose proof (byte_val_range b).
  assert ((byte_val b + 256 * le_val bs) / 256 = le_val bs) as ->.
  { replace (byte_val b + 256 * le_val bs) with (byte_val b + le_val bs * 256) by lia.
    rewrite Z.div_add by lia. rewrite Z.div_small; lia. }
  rewrite IH. f_equal. apply byte_val_inj. rewrite byte_val_to_byte.
  replace (byte_val b + 256 * le_val bs) with (byte_val b + le_val bs * 256) by lia.
  rewrite Z.mod_add by lia. apply Z.mod_small. lia.
Qed.

Lemma length_be_bytes n z : List.length (be_bytes n z) = n.
Proof. unfold be_bytes. by rewrite length_rev, length_le_bytes. Qed.

Lemma be_val_be_bytes n z : be_val (be_bytes n z) = z mod 256 ^ Z.of_nat n.
Proof. unfold be_val, be_bytes. rewrite rev_involutive. apply le_val_le_bytes. Qed.

Lemma be_bytes_be_val bs : be_bytes (List.length bs) (be_val bs) = bs.
Proof.
  unfold be_val, be_bytes. rewrite <- (length_rev bs), le_bytes_le_val.
  apply rev_involutive.
Qed.

#[export] Hint Rewrite @bind_some @bind_none : logless.
#[export] Hint Rewrite length_le_bytes length_be_bytes : logless.
