(* ===== verification/Text.v ===== *)
(** Text: the [str] operations of the Rust standard library the agent uses.

    A [str] is the [string] of its UTF-8 bytes: [len] is a byte length, the
    ASCII predicates look at one byte, and Unicode white space is recognised
    from its UTF-8 encoding.  Decimal printing and parsing of integers, with
    the round trips the path and timestamp codecs rest on. *)

From S2P Require Import Prelude.
Open Scope string_scope.
Open Scope Z_scope.

#[global] Arguments String.append : simpl nomatch.

(** ** Characters *)

Definition chr (c : ascii) : Z := Z.of_N (N_of_ascii c).
Definition in_range (lo hi : Z) (c : ascii) : bool := (lo <=? chr c) && (chr c <=? hi).

Definition is_digit : ascii -> bool := in_range 48 57.
Definition is_upper : ascii -> bool := in_range 65 90.
Definition is_lower : ascii -> bool := in_range 97 122.
Definition is_alpha (c : ascii) : bool := is_upper c || is_lower c.
Definition is_alnum (c : ascii) : bool := is_alpha c || is_digit c.
Definition is_hexdigit (c : ascii) : bool :=
  is_digit c || in_range 65 70 c || in_range 97 102 c.
Definition to_lower (c : ascii) : ascii :=
  if is_upper c then ascii_of_N (Z.to_N (chr c + 32)) else c.
Definition one_of (cs : string) (c : ascii) : bool :=
  existsb (Ascii.eqb c) (list_ascii_of_string cs).

(** ** Basic operations *)

Definition str_len (s : string) : Z := Z.of_nat (String.length s).

Fixpoint str_all (p : ascii -> bool) (s : string) : bool :=
  match s with
  | "" => true
  | String c s' => p c && str_all p s'
  end.

Fixpoint str_any (p : ascii -> bool) (s : string) : bool :=
  match s with
  | "" => false
  | String c s' => p c || str_any p s'
  end.

Fixpoint str_map (f : ascii -> ascii) (s : string) : string :=
  match s with
  | "" => ""
  | String c s' => String (f c) (str_map f s')
  end.

Definition str_lower : string -> string := str_map to_lower.

Fixpoint str_rev_app (s acc : string) : string :=
  match s with
  | "" => acc
  | String c s' => str_rev_app s' (String c acc)
  end.
Definition str_rev (s : string) : string := str_rev_app s "".

Fixpoint strip_prefix (p s : string) : option string :=
  match p, s with
  | "", _ => Some s
  | String a p', String b s' => if Ascii.eqb a b then strip_prefix p' s' else None
  | String _ _, "" => None
  end.
Definition starts_with (p s : string) : bool :=
  match strip_prefix p s with Some _ => true | None => false end.
Definition strip_suffix (p s : string) : option string :=
  option_map str_rev (strip_prefix (str_rev p) (str_rev s)).
Definition ends_with (p s : string) : bool :=
  match strip_suffix p s with Some _ => true | None => false end.

(** [str::contains] of a character. *)
Definition str_has (c : ascii) : string -> bool := str_any (Ascii.eqb c).

(** [split] by a character predicate: one more piece than separators. *)
Fixpoint split_on (p : ascii -> bool) (s : string) : list string :=
  match s with
  | "" => [""]
  | String c s' =>
      if p c then "" :: split_on p s'
      else match split_on p s' with
           | w :: ws => String c w :: ws
           | [] => [String c ""]
           end
  end.
Definition split_char (c : ascii) : string -> list string := split_on (Ascii.eqb c).

(** [split_once]: at the first occurrence of a character. *)
Fixpoint split_once (c : ascii) (s : string) : option (string * string) :=
  match s with
  | "" => None
  | String a s' =>
      if Ascii.eqb a c then Some ("", s')
      else match split_once c s' with
           | Some (l, r) => Some (String a l, r)
           | None => None
           end
  end.

(** [rsplit_once]: at the last occurrence. *)
Definition rsplit_once (c : ascii) (s : string) : option (string * string) :=
  match split_once c (str_rev s) with
  | Some (r, l) => Some (str_rev l, str_rev r)
  | None => None
  end.

(** [split_once] with a string pattern. *)
Fixpoint split_once_str (p s : string) : option (string * string) :=
  match strip_prefix p s with
  | Some r => Some ("", r)
  | None =>
      match s with
      | "" => None
      | String a s' =>
          match split_once_str p s' with
          | Some (l, r) => Some (String a l, r)
          | None => None
          end
      end
  end.

Fixpoint trim_start_by (p : ascii -> bool) (s : string) : string :=
  match s with
  | String c s' => if p c then trim_start_by p s' else s
  | "" => ""
  end.
Definition trim_end_by (p : ascii -> bool) (s : string) : string :=
  str_rev (trim_start_by p (str_rev s)).
Definition trim_by (p : ascii -> bool) (s : string) : string :=
  trim_end_by p (trim_start_by p s).

Fixpoint str_join (sep : string) (l : list string) : string :=
  match l with
  | [] => ""
  | [w] => w
  | w :: l' => String.append w (String.append sep (str_join sep l'))
  end.

Fixpoint str_drop (n : nat) (s : string) : string :=
  match n, s with
  | S n', String _ s' => str_drop n' s'
  | _, _ => s
  end.
Fixpoint str_take (n : nat) (s : string) : string :=
  match n, s with
  | S n', String c s' => String c (str_take n' s')
  | _, _ => ""
  end.

(** ** Unicode white space, by UTF-8 encoding

    The number of bytes of the [White_Space] character a valid UTF-8 text
    starts with, 0 when it starts with another character. *)
Definition ws_len (s : string) : nat :=
  match s with
  | "" => 0%nat
  | String a s1 =>
      if in_range 9 13 a || (chr a =? 32) then 1%nat
      else match s1 with
      | "" => 0%nat
      | String b s2 =>
          if (chr a =? 194) && ((chr b =? 133) || (chr b =? 160)) then 2%nat
          else match s2 with
          | "" => 0%nat
          | String c _ =>
              if (chr a =? 225) && (chr b =? 154) && (chr c =? 128) then 3%nat
              else if (chr a =? 226) && (chr b =? 128) &&
                      (in_range 128 138 c || (chr c =? 168) || (chr c =? 169) || (chr c =? 175))
              then 3%nat
              else if (chr a =? 226) && (chr b =? 129) && (chr c =? 159) then 3%nat
              else if (chr a =? 227) && (chr b =? 128) && (chr c =? 128) then 3%nat
              else 0%nat
          end
      end
  end.

(** [skip] bytes of a separator are still to be passed over. *)
Fixpoint ws_split (skip : nat) (s : string) : list string :=
  match s with
  | "" => [""]
  | String c s' =>
      match skip with
      | S k => ws_split k s'
      | O =>
          match ws_len s with
          | S k => "" :: ws_split k s'
          | O => match ws_split 0 s' with
                 | w :: ws => String c w :: ws
                 | [] => [String c ""]
                 end
          end
      end
  end.

(** [str::split_whitespace]. *)
Definition split_whitespace (s : string) : list string :=
  List.filter (fun w => negb (String.eqb w "")) (ws_split 0 s).

Fixpoint trim_start_aux (skip : nat) (s : string) : string :=
  match s with
  | "" => ""
  | String _ s' =>
      match skip with
      | S k => trim_start_aux k s'
      | O => match ws_len s with S k => trim_start_aux k s' | O => s end
      end
  end.
(** [str::trim_start], [str::trim_end] and [str::trim]. *)
Definition trim_start : string -> string := trim_start_aux 0.
Fixpoint trim_end (s : string) : string :=
  if String.eqb (trim_start s) "" then ""
  else match s with
       | "" => ""
       | String c s' => String c (trim_end s')
       end.
Definition trim (s : string) : string := trim_end (trim_start s).

(** ** Decimal numbers *)

Definition digit_char (d : Z) : ascii := ascii_of_N (Z.to_N (48 + d)).
Definition digit_val (c : ascii) : Z := chr c - 48.

Fixpoint show_aux (fuel : nat) (n : Z) (acc : string) : string :=
  match fuel with
  | O => acc
  | S f =>
      if n <? 10 then String (digit_char n) acc
      else show_aux f (n / 10) (String (digit_char (n mod 10)) acc)
  end.

(** [format!("{n}")] of an unsigned integer. *)
Definition show_Z (n : Z) : string := show_aux (S (Z.to_nat (Z.log2 n))) n "".

(** [format!("{n}")] of a signed integer. *)
Definition show_int (n : Z) : string :=
  if n <? 0 then String "-" (show_Z (- n)) else show_Z n.

Fixpoint zeros (k : nat) : string :=
  match k with O => "" | S k' => String "0" (zeros k') end.

(** [format!("{n:0w$}")] of an unsigned integer. *)
Definition pad0 (w : nat) (n : Z) : string :=
  String.append (zeros (w - String.length (show_Z n))) (show_Z n).

Fixpoint parse_from (a : Z) (s : string) : option Z :=
  match s with
  | "" => Some a
  | String c s' => if is_digit c then parse_from (10 * a + digit_val c) s' else None
  end.

Definition parse_digits (s : string) : option Z :=
  if String.eqb s "" then None else parse_from 0 s.

Definition within (lo hi : Z) (o : option Z) : option Z :=
  match o with
  | Some n => if (lo <=? n) && (n <=? hi) then Some n else None
  | None => None
  end.

(** [str::parse] of an unsigned type with maximum [hi]: an optional [+]. *)
Definition parse_uint (hi : Z) (s : string) : option Z :=
  within 0 hi (parse_digits (match s with String "+" r => r | _ => s end)).

(** [str::parse] of a signed type: an optional [+] or [-]. *)
Definition parse_int (lo hi : Z) (s : string) : option Z :=
  within lo hi
    (match s with
     | String "-" r => option_map Z.opp (parse_digits r)
     | String "+" r => parse_digits r
     | _ => parse_digits s
     end).

(** ** Facts about strings *)

Lemma str_app_assoc a b c :
  String.append (String.append a b) c = String.append a (String.append b c).
Proof. induction a as [|x a IH]; simpl; [done|by rewrite IH]. Qed.

Lemma str_app_nil_r a : String.append a "" = a.
Proof. induction a as [|x a IH]; simpl; [done|by rewrite IH]. Qed.

Lemma length_str_app a b :
  String.length (String.append a b) = (String.length a + String.length b)%nat.
Proof. induction a as [|x a IH]; simpl; [done|by rewrite IH]. Qed.

Lemma str_all_app p a b : str_all p (String.append a b) = str_all p a && str_all p b.
Proof. induction a as [|x a IH]; simpl; [done|]. by rewrite IH, andb_assoc. Qed.

Lemma str_all_impl (p q : ascii -> bool) s :
  (forall c, p c = true -> q c = true) -> str_all p s = true -> str_all q s = true.
Proof.
  intros Hpq. induction s as [|c s IH]; simpl; [done|].
  intros [? ?]%andb_prop. by rewrite Hpq, IH.
Qed.

Lemma strip_prefix_app p s : strip_prefix p (String.append p s) = Some s.
Proof. induction p as [|a p IH]; simpl; [done|]. by rewrite Ascii.eqb_refl. Qed.

Lemma strip_prefix_inv p s r : strip_prefix p s = Some r -> s = String.append p r.
Proof.
  revert s. induction p as [|a p IH]; intros [|b s]; simpl; intros H; simplify_eq; try done.
  destruct (Ascii.eqb_spec a b) as [<-|]; [|done]. by rewrite (IH s).
Qed.

Lemma split_on_none p s : str_all (fun c => negb (p c)) s = true -> split_on p s = [s].
Proof.
  induction s as [|c s IH]; simpl; [done|].
  intros [Hc Hs]%andb_prop. apply negb_true_iff in Hc. by rewrite Hc, IH.
Qed.

Lemma split_on_app p a c b :
  str_all (fun x => negb (p x)) a = true -> p c = true ->
  split_on p (String.append a (String c b)) = a :: split_on p b.
Proof.
  intros Ha Hc. induction a as [|x a IH]; simpl.
  - by rewrite Hc.
  - simpl in Ha. apply andb_prop in Ha as [Hx Ha]. apply negb_true_iff in Hx.
    by rewrite Hx, IH.
Qed.

Lemma split_on_nonempty p s : split_on p s <> [].
Proof. destruct s as [|c s]; cbn [split_on]; [done|]. destruct (p c); [done|]. by destruct (split_on p s). Qed.

Lemma split_once_app c a b :
  str_all (fun x => negb (Ascii.eqb x c)) a = true ->
  split_once c (String.append a (String c b)) = Some (a, b).
Proof.
  induction a as [|x a IH]; simpl; intros H.
  - by rewrite Ascii.eqb_refl.
  - apply andb_prop in H as [Hx Ha]. apply negb_true_iff in Hx. by rewrite Hx, IH.
Qed.

Lemma split_once_sound c s l r : split_once c s = Some (l, r) -> s = String.append l (String c r).
Proof.
  revert l r. induction s as [|a s IH]; intros l r; simpl; [done|].
  destruct (Ascii.eqb_spec a c) as [->|].
  - by intros [= <- <-].
  - destruct (split_once c s) as [[l' r']|]; [|done]. intros [= <- <-]. simpl. f_equal. by apply IH.
Qed.

(** ** Facts about decimal numbers *)

Lemma digit_char_spec d :
  0 <= d < 10 -> is_digit (digit_char d) = true /\ digit_val (digit_char d) = d.
Proof.
  intros Hd.
  assert (d = 0 \/ d = 1 \/ d = 2 \/ d = 3 \/ d = 4 \/ d = 5 \/ d = 6 \/ d = 7 \/ d = 8 \/ d = 9)
    as H by lia.
  repeat destruct H as [->|H]; try (by split). by subst.
Qed.

Lemma is_digit_val c : is_digit c = true -> 0 <= digit_val c < 10.
Proof. unfold is_digit, in_range, digit_val. intros. zbool. lia. Qed.

Lemma chr_inj a b : chr a = chr b -> a = b.
Proof.
  unfold chr. intros H. apply N2Z.inj in H.
  rewrite <- (ascii_N_embedding a), <- (ascii_N_embedding b). congruence.
Qed.

Lemma log2_fuel n : 0 <= n -> n < 10 ^ Z.of_nat (S (Z.to_nat (Z.log2 n))).
Proof.
  intros Hn. destruct (Z.eq_dec n 0) as [->|]; [done|].
  pose proof (Z.log2_spec n ltac:(lia)) as [_ H].
  eapply Z.lt_le_trans; [exact H|].
  rewrite Nat2Z.inj_succ, Z2Nat.id by apply Z.log2_nonneg.
  apply Z.pow_le_mono_l. lia.
Qed.

Lemma show_aux_parse fuel : forall n acc,
  0 <= n < 10 ^ Z.of_nat fuel -> (0 < fuel)%nat ->
  parse_from 0 (show_aux fuel n acc) = parse_from n acc.
Proof.
  induction fuel as [|f IH]; intros n acc Hn Hf; [lia|].
  cbn [show_aux]. destruct (n <? 10) eqn:E; zbool.
  - simpl. destruct (digit_char_spec n) as [-> ->]; [lia|]. f_equal.
  - rewrite Nat2Z.inj_succ, Z.pow_succ_r in Hn by lia.
    assert (0 < f)%nat by (destruct f; [simpl in Hn; lia|lia]).
    rewrite IH; [| |lia].
    + cbn [parse_from].
      destruct (digit_char_spec (n mod 10)) as [-> ->]; [by apply Z.mod_pos_bound|].
      f_equal. pose proof (Z.div_mod n 10). lia.
    + split; [by apply Z.div_pos; lia|]. apply Z.div_lt_upper_bound; lia.
Qed.

Lemma show_aux_digits fuel : forall n acc,
  0 <= n -> str_all is_digit acc = true -> str_all is_digit (show_aux fuel n acc) = true.
Proof.
  induction fuel as [|f IH]; intros n acc Hn Ha; [done|]. cbn [show_aux].
  destruct (n <? 10) eqn:E; zbool.
  - simpl. destruct (digit_char_spec n) as [-> _]; [lia|done].
  - apply IH; [by apply Z.div_pos; lia|]. simpl.
    destruct (digit_char_spec (n mod 10)) as [-> _]; [by apply Z.mod_pos_bound|done].
Qed.

Lemma show_aux_length fuel : forall n acc k,
  0 <= n < 10 ^ Z.of_nat k -> (0 < k)%nat ->
  (String.length (show_aux fuel n acc) <= k + String.length acc)%nat.
Proof.
  induction fuel as [|f IH]; intros n acc k Hn Hk; [simpl; lia|]. cbn [show_aux].
  destruct (n <? 10) eqn:E; zbool; [simpl; lia|].
  destruct k as [|k]; [lia|]. rewrite Nat2Z.inj_succ, Z.pow_succ_r in Hn by lia.
  assert (0 < k)%nat by (destruct k; [simpl in Hn; lia|lia]).
  etransitivity; [apply (IH _ _ k); [|lia]|simpl; lia].
  split; [by apply Z.div_pos; lia|]. apply Z.div_lt_upper_bound; lia.
Qed.

Lemma show_aux_nonempty fuel n acc : (0 < fuel)%nat -> show_aux fuel n acc <> "".
Proof.
  destruct fuel as [|f]; [lia|]. intros _. revert n acc.
  induction f as [|f IH]; intros n acc; cbn [show_aux]; destruct (n <? 10); try done.
  apply IH.
Qed.

Lemma parse_from_show a n : 0 <= n -> a = 0 -> parse_from a (show_Z n) = Some n.
Proof.
  intros Hn ->. unfold show_Z. rewrite show_aux_parse; [done| |lia].
  split; [done|by apply log2_fuel].
Qed.

Lemma show_Z_digits n : 0 <= n -> str_all is_digit (show_Z n) = true.
Proof. intros. by apply show_aux_digits. Qed.

Lemma show_Z_nonempty n : show_Z n <> "".
Proof. apply show_aux_nonempty. lia. Qed.

Lemma show_Z_length n k :
  0 <= n < 10 ^ Z.of_nat k -> (0 < k)%nat -> (String.length (show_Z n) <= k)%nat.
Proof. intros. unfold show_Z. pose proof (show_aux_length (S (Z.to_nat (Z.log2 n))) n "" k). simpl in *. lia. Qed.

Lemma parse_from_zeros k s : parse_from 0 (String.append (zeros k) s) = parse_from 0 s.
Proof. induction k as [|k IH]; [done|exact IH]. Qed.

Lemma zeros_digits k : str_all is_digit (zeros k) = true.
Proof. induction k as [|k IH]; [done|exact IH]. Qed.

Lemma length_zeros k : String.length (zeros k) = k.
Proof. induction k as [|k IH]; simpl; [done|by rewrite IH]. Qed.

Lemma pad0_digits w n : 0 <= n -> str_all is_digit (pad0 w n) = true.
Proof. intros. unfold pad0. by rewrite str_all_app, zeros_digits, show_Z_digits. Qed.

Lemma pad0_nonempty w n : pad0 w n <> "".
Proof.
  unfold pad0. pose proof (show_Z_nonempty n).
  destruct (w - String.length (show_Z n))%nat; [done|by simpl].
Qed.

Lemma length_pad0 w n :
  0 <= n < 10 ^ Z.of_nat w -> (0 < w)%nat -> String.length (pad0 w n) = w.
Proof.
  intros. unfold pad0. rewrite length_str_app, length_zeros.
  pose proof (show_Z_length n w). lia.
Qed.

Lemma parse_digits_pad0 w n : 0 <= n -> parse_digits (pad0 w n) = Some n.
Proof.
  intros Hn. unfold parse_digits. pose proof (pad0_nonempty w n).
  destruct (String.eqb_spec (pad0 w n) ""); [done|].
  unfold pad0. rewrite parse_from_zeros. by apply parse_from_show.
Qed.

Lemma parse_digits_show n : 0 <= n -> parse_digits (show_Z n) = Some n.
Proof.
  intros Hn. unfold parse_digits. pose proof (show_Z_nonempty n).
  destruct (String.eqb_spec (show_Z n) ""); [done|]. by apply parse_from_show.
Qed.

(** Digits never start with a sign. *)
Lemma parse_uint_range hi s n : parse_uint hi s = Some n -> 0 <= n <= hi.
Proof.
  unfold parse_uint, within. destruct (parse_digits _) as [m|]; [|done]. destruct (_ && _) eqn:E; [|done]. intros [= <-]. zbool. lia.
Qed.

Lemma parse_uint_digits hi s :
  str_all is_digit s = true -> parse_uint hi s = within 0 hi (parse_digits s).
Proof.
  unfold parse_uint. destruct s as [|c s]; [done|]. simpl str_all.
  intros [Hc _]%andb_prop.
  destruct c as [[] [] [] [] [] [] [] []]; done.
Qed.

Lemma parse_int_digits lo hi s :
  str_all is_digit s = true -> parse_int lo hi s = within lo hi (parse_digits s).
Proof.
  unfold parse_int. destruct s as [|c s]; [done|]. simpl str_all.
  intros [Hc _]%andb_prop.
  destruct c as [[] [] [] [] [] [] [] []]; done.
Qed.

Lemma parse_uint_pad0 hi w n : 0 <= n <= hi -> parse_uint hi (pad0 w n) = Some n.
Proof.
  intros. rewrite parse_uint_digits by (apply pad0_digits; lia).
  rewrite parse_digits_pad0 by lia. unfold within.
  destruct (0 <=? n) eqn:?, (n <=? hi) eqn:?; zbool; try done; lia.
Qed.

Lemma parse_int_pad0 lo hi w n : lo <= n <= hi -> 0 <= n -> parse_int lo hi (pad0 w n) = Some n.
Proof.
  intros. rewrite parse_int_digits by (apply pad0_digits; lia).
  rewrite parse_digits_pad0 by lia. unfold within.
  destruct (lo <=? n) eqn:?, (n <=? hi) eqn:?; zbool; try done; lia.
Qed.

(** The value of a digit string is the positional one, so two digit strings
    of one length and one value are equal. *)
Lemma parse_from_any s : forall a b,
  (exists v, parse_from a s = Some v) -> exists v, parse_from b s = Some v.
Proof.
  induction s as [|x s IH]; intros a b [v Hv]; cbn [parse_from] in *; [by exists b|].
  destruct (is_digit x); [|done]. apply (IH (10 * a + digit_val x)). by exists v.
Qed.

Lemma parse_from_split s : forall a v,
  parse_from a s = Some v ->
  str_all is_digit s = true /\
  exists r, v = a * 10 ^ Z.of_nat (String.length s) + r /\
            0 <= r < 10 ^ Z.of_nat (String.length s) /\
            parse_from 0 s = Some r.
Proof.
  induction s as [|c s IH]; intros a v H.
  - simpl in *. simplify_eq. split; [done|]. exists 0. split_and!; try done; lia.
  - cbn [parse_from str_all] in *. destruct (is_digit c) eqn:E; [|done].
    pose proof (is_digit_val c E) as Hd.
    destruct (IH _ _ H) as (-> & r & -> & Hr & _).
    split; [done|]. cbn [String.length].
    rewrite Nat2Z.inj_succ, Z.pow_succ_r by lia.
    exists (digit_val c * 10 ^ Z.of_nat (String.length s) + r).
    split; [lia|]. split; [nia|].
    assert (exists v', parse_from (10 * 0 + digit_val c) s = Some v') as [v' Hv'].
    { apply (parse_from_any s (10 * a + digit_val c)). by eexists. }
    destruct (IH _ _ Hv') as (_ & r' & -> & Hr' & Hp').
    destruct (IH _ _ H) as (_ & r2 & He & Hr2 & Hp2).
    rewrite Hv'. f_equal. simplify_eq. lia.
Qed.

Lemma parse_from_inj s t v :
  String.length s = String.length t ->
  parse_from 0 s = Some v -> parse_from 0 t = Some v -> s = t.
Proof.
  revert t v. induction s as [|c s IH]; intros [|d t] v Hl Hs Ht; try done.
  simpl in Hl. injection Hl as Hl.
  cbn [parse_from] in *. destruct (is_digit c) eqn:Ec; [|done]. destruct (is_digit d) eqn:Ed; [|done].
  destruct (parse_from_split _ _ _ Hs) as (_ & r & Hv & Hr & Hps).
  destruct (parse_from_split _ _ _ Ht) as (_ & r' & Hv' & Hr' & Hpt).
  rewrite Hl in *.
  assert (digit_val c = digit_val d) as Hcd.
  { set (P := 10 ^ Z.of_nat (String.length t)) in *. simplify_eq.
    assert ((0*10 + digit_val c) * P + r = (0*10+digit_val d) * P + r') by lia.
    assert (0 < P) by (unfold P; lia). nia. }
  assert (r = r') as <- by (subst v; rewrite Hcd in Hv'; lia).
  f_equal.
  - apply chr_inj. unfold digit_val in Hcd. lia.
  - by apply (IH t r).
Qed.

(** A digit string is the zero-padded print of its value. *)
Lemma pad0_parse s v :
  parse_digits s = Some v -> pad0 (String.length s) v = s.
Proof.
  unfold parse_digits. destruct (String.eqb_spec s "") as [->|Hne]; [done|]. intros H.
  destruct (parse_from_split _ _ _ H) as (_ & r & Hv & Hr & _). simpl in Hv. subst v.
  apply (parse_from_inj _ _ r); [|by unfold pad0; rewrite parse_from_zeros; apply parse_from_show; lia|done].
  apply length_pad0; [lia|]. destruct s; [done|simpl; lia].
Qed.

(** ** Reversal and suffixes *)

Lemma str_rev_app_app s : forall t acc,
  str_rev_app (String.append s t) acc = str_rev_app t (str_rev_app s acc).
Proof. induction s as [|c s IH]; intros t acc; simpl; [done|apply IH]. Qed.

Lemma str_rev_app_acc s : forall acc, str_rev_app s acc = String.append (str_rev_app s "") acc.
Proof.
  induction s as [|c s IH]; intros acc; simpl; [done|].
  rewrite IH, (IH (String c "")), str_app_assoc. done.
Qed.

Lemma str_rev_concat s t : str_rev (String.append s t) = String.append (str_rev t) (str_rev s).
Proof. unfold str_rev. by rewrite str_rev_app_app, str_rev_app_acc. Qed.

Lemma str_rev_rev s : str_rev (str_rev s) = s.
Proof.
  induction s as [|c s IH]; [done|]. unfold str_rev at 2. simpl.
  rewrite str_rev_app_acc, str_rev_concat. unfold str_rev at 1. simpl. f_equal. exact IH.
Qed.

Lemma str_any_none p s : str_any p s = false -> str_all (fun c => negb (p c)) s = true.
Proof. induction s as [|c s IH]; cbn; [done|]. rewrite orb_false_iff. intros [-> H]. by apply IH. Qed.

Lemma str_all_rev p s : str_all p (str_rev s) = str_all p s.
Proof.
  induction s as [|c s IH]; [done|]. change (String c s) with (String.append (String c "") s).
  rewrite str_rev_concat, !str_all_app, IH. cbn. by rewrite andb_true_r, andb_comm.
Qed.

Lemma strip_suffix_app p s : strip_suffix p (String.append s p) = Some s.
Proof. unfold strip_suffix. rewrite str_rev_concat, strip_prefix_app. simpl. by rewrite str_rev_rev. Qed.

Lemma length_str_take n s : (n <= String.length s)%nat -> String.length (str_take n s) = n.
Proof. revert s. induction n as [|n IH]; intros [|c s] H; simpl in *; try lia. rewrite IH; lia. Qed.

Lemma length_str_drop n s : String.length (str_drop n s) = (String.length s - n)%nat.
Proof. revert s. induction n as [|n IH]; intros [|c s]; simpl; try lia. apply IH. Qed.

(** ** Texts without white space *)

Definition graphic (c : ascii) : bool := (32 <? chr c) && (chr c <? 128).

Lemma ws_len_graphic c s : graphic c = true -> ws_len (String c s) = 0%nat.
Proof.
  unfold graphic. intros H. zbool. cbn [ws_len]. unfold in_range.
  replace ((9 <=? chr c) && (chr c <=? 13) || (chr c =? 32)) with false by lia.
  replace (chr c =? 194) with false by lia. replace (chr c =? 225) with false by lia.
  replace (chr c =? 226) with false by lia. replace (chr c =? 227) with false by lia.
  cbn [andb]. destruct s as [|b [|d s]]; done.
Qed.

Lemma trim_start_graphic s : str_all graphic s = true -> trim_start s = s.
Proof.
  destruct s as [|c s]; [done|]. cbn [str_all]. intros [Hc _]%andb_prop.
  unfold trim_start. cbn [trim_start_aux]. by rewrite ws_len_graphic.
Qed.

Lemma trim_graphic s : str_all graphic s = true -> trim s = s.
Proof.
  intros H. unfold trim. rewrite trim_start_graphic by done.
  induction s as [|c s IH]; [done|]. cbn [trim_end].
  rewrite trim_start_graphic by done. cbn [String.eqb].
  simpl in H. apply andb_prop in H as [_ H]. by rewrite IH.
Qed.

Lemma digits_graphic s : str_all is_digit s = true -> str_all graphic s = true.
Proof. apply str_all_impl. intros c. unfold is_digit, graphic, in_range. intros. zbool. lia. Qed.
