(* ===== verification/Float.v ===== *)
(** IEEE 754 binary64 ([f64]) on the Standard Library's [SpecFloat], a pure
    definition with the rounding of the hardware: conversions to and from the
    integer types as Rust's [as] casts make them, arithmetic, comparisons, and
    [str::parse] of a decimal number. *)

From S2P Require Import Prelude Text.
From Stdlib Require Import SpecFloat.
Open Scope string_scope.
Open Scope Z_scope.

Abbreviation f64 := spec_float.

#[export] Instance spec_float_eq_dec : EqDecision spec_float.
Proof. solve_decision. Defined.

Definition f64_zero : f64 := S754_zero false.

(** [z as f64]: rounded to nearest, ties to even. *)
Definition f64_of_Z (z : Z) : f64 := binary_normalize 53 1024 z 0 false.

Definition f64_add : f64 -> f64 -> f64 := SFadd 53 1024.
Definition f64_sub : f64 -> f64 -> f64 := SFsub 53 1024.
Definition f64_mul : f64 -> f64 -> f64 := SFmul 53 1024.
Definition f64_div : f64 -> f64 -> f64 := SFdiv 53 1024.
Definition f64_sqrt : f64 -> f64 := SFsqrt 53 1024.

(** The float nearest to [n / 10 ^ k]: a decimal literal. *)
Definition f64_dec (n : Z) (k : nat) : f64 := f64_div (f64_of_Z n) (f64_of_Z (10 ^ Z.of_nat k)).

Definition f64_lt : f64 -> f64 -> bool := SFltb.
Definition f64_le : f64 -> f64 -> bool := SFleb.
Definition f64_ge (a b : f64) : bool := SFleb b a.
Definition f64_gt (a b : f64) : bool := SFltb b a.
Definition f64_eq : f64 -> f64 -> bool := SFeqb.

Definition f64_finite (f : f64) : bool :=
  match f with S754_zero _ | S754_finite _ _ _ => true | _ => false end.

(** The integer part towards zero, and towards plus infinity. *)
Definition f64_trunc (f : f64) : Z :=
  match f with
  | S754_finite s m e =>
      let q := if 0 <=? e then Zpos m * 2 ^ e else Zpos m / 2 ^ (- e) in
      if s then - q else q
  | _ => 0
  end.
Definition f64_ceil_Z (f : f64) : Z :=
  match f with
  | S754_finite s m e =>
      if 0 <=? e then cond_Zopp s (Zpos m * 2 ^ e)
      else - (cond_Zopp (negb s) (Zpos m) / 2 ^ (- e))
  | _ => 0
  end.

(** [f as u64]: saturating, NaN to 0. *)
Definition f64_as_u64 (f : f64) : Z :=
  match f with
  | S754_nan => 0
  | S754_infinity s => if s then 0 else u64_max
  | _ => Z.max 0 (Z.min u64_max (f64_trunc f))
  end.

(** [f.ceil() as u64]. *)
Definition f64_ceil_as_u64 (f : f64) : Z :=
  match f with
  | S754_nan => 0
  | S754_infinity s => if s then 0 else u64_max
  | _ => Z.max 0 (Z.min u64_max (f64_ceil_Z f))
  end.

(** The float nearest to [n * 10 ^ e], for [str::parse]. *)
Definition f64_scaled (neg : bool) (n e : Z) : f64 :=
  match n with
  | Zpos m =>
      let f := if 0 <=? e
               then binary_normalize 53 1024 (Zpos m * 10 ^ e) 0 false
               else match 10 ^ (- e) with
                    | Zpos d => SFdiv 53 1024 (S754_finite false m 0) (S754_finite false d 0)
                    | _ => S754_nan
                    end in
      if neg then SFopp f else f
  | _ => S754_zero neg
  end.

(** [digits [. digits] [e|E [sign] digits]], at least one digit in the
    mantissa; [inf], [infinity] and [nan] in any case. *)
Definition parse_exp (s : string) : option Z :=
  match s with
  | String "-" r => option_map Z.opp (parse_digits r)
  | String "+" r => parse_digits r
  | _ => parse_digits s
  end.

Definition parse_mantissa (s : string) : option (Z * Z) :=
  match split_once "."%char s with
  | None => match parse_digits s with Some n => Some (n, 0) | None => None end
  | Some (i, f) =>
      if String.eqb i "" && String.eqb f "" then None
      else match parse_from 0 (String.append i f) with
           | Some n => Some (n, - str_len f)
           | None => None
           end
  end.

Definition parse_f64_unsigned (neg : bool) (s : string) : option f64 :=
  let l := str_lower s in
  if String.eqb l "inf" || String.eqb l "infinity" then Some (S754_infinity neg)
  else if String.eqb l "nan" then Some S754_nan
  else
    let (m, e) := match split_once "e"%char l with
                  | Some (m, e) => (m, parse_exp e)
                  | None => (l, Some 0)
                  end in
    match parse_mantissa m, e with
    | Some (n, k), Some e => Some (f64_scaled neg n (k + e))
    | _, _ => None
    end.

Definition parse_f64 (s : string) : option f64 :=
  match s with
  | String "-" r => parse_f64_unsigned true r
  | String "+" r => parse_f64_unsigned false r
  | _ => parse_f64_unsigned false s
  end.

Example parse_f64_tenth : parse_f64 "0.1" = Some (f64_dec 1 1).
Proof. reflexivity. Qed.
Example parse_f64_big : parse_f64 "18014398509481985" = Some (f64_of_Z 18014398509481984).
Proof. reflexivity. Qed.
Example parse_f64_bad : parse_f64 "1.2.3" = None.
Proof. reflexivity. Qed.

(** ** Facts *)

Lemma f64_as_u64_range f : u64_range (f64_as_u64 f).
Proof. unfold f64_as_u64, u64_range, u64_max. destruct f as [| [] | |]; lia. Qed.

Lemma f64_ceil_as_u64_range f : u64_range (f64_ceil_as_u64 f).
Proof. unfold f64_ceil_as_u64, u64_range, u64_max. destruct f as [| [] | |]; lia. Qed.

#[export] Hint Resolve f64_as_u64_range f64_ceil_as_u64_range : logless.

(** [{:.0}] of a float: the nearest integer, ties to even. *)
Definition f64_round_even (f : f64) : Z :=
  match f with
  | S754_finite s m e =>
      if 0 <=? e then Zpos m * 2 ^ e
      else
        let d := 2 ^ (- e) in
        let q := Zpos m / d in
        let r := 2 * (Zpos m mod d) in
        if r <? d then q else if d <? r then q + 1 else if Z.even q then q else q + 1
  | _ => 0
  end.
Definition fmt0 (f : f64) : string :=
  match f with
  | S754_nan => "NaN"
  | S754_infinity s => if s then "-inf" else "inf"
  | S754_zero s | S754_finite s _ _ => String.append (if s then "-" else "") (show_Z (f64_round_even f))
  end.

(** [f.to_string()]: the shortest decimal that reads back as [f], without an
    exponent.  [shortest] looks for the largest power of ten [10 ^ k] of which a
    multiple next to [f] reads back as [f], and takes the closer multiple. *)
Definition decimal_at (m e k : Z) : Z * Z :=
  (* [m * 2 ^ e / 10 ^ k] as a fraction *)
  (m * (if 0 <=? e then 2 ^ e else 1) * (if 0 <=? k then 1 else 10 ^ (- k)),
   (if 0 <=? e then 1 else 2 ^ (- e)) * (if 0 <=? k then 10 ^ k else 1)).

Fixpoint shortest (fuel : nat) (m e k : Z) (f : f64) : option (Z * Z) :=
  match fuel with
  | O => None
  | S fuel' =>
      let '(num, den) := decimal_at m e k in
      let lo := num / den in
      let lo_ok := (0 <? lo) && bool_decide (f64_scaled false lo k = f) in
      let hi_ok := bool_decide (f64_scaled false (lo + 1) k = f) in
      let lo_closer := (2 * num <? (2 * lo + 1) * den) || ((2 * num =? (2 * lo + 1) * den) && Z.even lo) in
      if lo_ok && (lo_closer || negb hi_ok) then Some (lo, k)
      else if hi_ok then Some (lo + 1, k)
      else shortest fuel' m e (k - 1) f
  end.

Definition f64_display (f : f64) : string :=
  match f with
  | S754_nan => "NaN"
  | S754_infinity s => if s then "-inf" else "inf"
  | S754_zero s => if s then "-0" else "0"
  | S754_finite s m e =>
      match shortest 40 (Zpos m) e ((Z.log2 (Zpos m) + e) * 31 / 100 + 2) (S754_finite false m e) with
      | Some (d, k) =>
          String.append (if s then "-" else "")
            (if 0 <=? k then show_Z (d * 10 ^ k)
             else String.append (show_Z (d / 10 ^ (- k)))
                    (String "." (pad0 (Z.to_nat (- k)) (d mod 10 ^ (- k)))))
      | None => ""
      end
  end.

Example f64_display_cases :
  List.map f64_display [f64_of_Z 5; f64_dec 1 1; f64_dec 12345 3; f64_of_Z (10 ^ 21); f64_dec 3 1; f64_div (f64_of_Z 1) (f64_of_Z 3)]
  = ["5"; "0.1"; "12.345"; "1000000000000000000000"; "0.3"; "0.3333333333333333"].
Proof. vm_compute. reflexivity. Qed.
