(* ===== verification/Model.v ===== *)
(** The record data model ([crates/logless-core/src/model.rs]): severities,
    level classes, attribute values and the normalised log record. *)

From S2P Require Import Prelude Text Float.
Open Scope string_scope.
Open Scope Z_scope.

(** ** Severity

    The OpenTelemetry number, a [u8]. *)

Definition Severity := Z.
Definition TRACE : Severity := 1.
Definition DEBUG : Severity := 5.
Definition INFO : Severity := 9.
Definition WARN : Severity := 13.
Definition ERROR : Severity := 17.
Definition FATAL : Severity := 21.

Inductive LevelClass := Debug | Info | WarnPlus.

#[export] Instance LevelClass_eq_dec : EqDecision LevelClass.
Proof. solve_decision. Defined.

Definition class (s : Severity) : LevelClass :=
  if s <=? 8 then Debug else if s <=? 12 then Info else WarnPlus.

Definition is_error_or_worse (s : Severity) : bool := ERROR <=? s.

Definition level_as_str (c : LevelClass) : string :=
  match c with
  | Debug => "debug"
  | Info => "info"
  | WarnPlus => "warn_plus"
  end.

Definition in_words (w : string) (l : list string) : bool := existsb (String.eqb w) l.

(** Level name to severity, after [trim] and ASCII lower-casing. *)
Definition from_text (text : string) : option Severity :=
  let t := str_lower (trim text) in
  if in_words t ["trace"; "trc"; "verbose"] then Some TRACE
  else if in_words t ["debug"; "dbg"] then Some DEBUG
  else if in_words t ["info"; "inf"; "information"; "notice"] then Some INFO
  else if in_words t ["warn"; "warning"; "wrn"] then Some WARN
  else if in_words t ["error"; "err"; "severe"] then Some ERROR
  else if in_words t ["fatal"; "critical"; "crit"; "panic"; "emergency"; "alert"] then Some FATAL
  else None.

(** ** Attributes and records *)

Inductive AttrValue :=
| AStr (s : string)
| AI64 (z : Z)
| AF64 (f : f64)
| ABool (b : bool).

Record Attr := mkAttr { attr_key : string; attr_value : AttrValue }.

Record LogRecord := mkRecord {
  event_id : bytes;                  (* Uuid, 16 bytes *)
  timestamp_unix_nano : Z;
  observed_unix_nano : Z;
  severity : Severity;
  severity_text : option string;
  body : string;
  service : option string;
  trace_id : option bytes;           (* 16 bytes *)
  span_id : option bytes;            (* 8 bytes *)
  attributes : list Attr;
  template_id : option Z
}.

(** [LogRecord::new]; the fresh UUIDv7 is an argument. *)
Definition new_record (uuid : bytes) (ts : Z) (s : Severity) (b : string) : LogRecord :=
  mkRecord uuid ts ts s None b None None None [] None.

Definition level_class (r : LogRecord) : LevelClass := class (severity r).

#[export] Instance AttrValue_eq_dec : EqDecision AttrValue.
Proof. solve_decision. Defined.
#[export] Instance Attr_eq_dec : EqDecision Attr.
Proof. solve_decision. Defined.
#[export] Instance LogRecord_eq_dec : EqDecision LogRecord.
Proof. solve_decision. Defined.

(** ** Properties *)

(** The class is monotone in the severity number. *)
Definition class_rank (c : LevelClass) : Z :=
  match c with Debug => 0 | Info => 1 | WarnPlus => 2 end.

Lemma class_mono a b : a <= b -> class_rank (class a) <= class_rank (class b).
Proof.
  unfold class. intros.
  destruct (a <=? 8) eqn:?, (b <=? 8) eqn:?, (a <=? 12) eqn:?, (b <=? 12) eqn:?;
    zbool; simpl; lia.
Qed.
