(* ===== verification/Civil.v ===== *)
(** Civil dates: Howard Hinnant's algorithms of
    [crates/logless-core/src/partition.rs], with the operator behaviour of the
    Rust integer types ([/] on [i64] truncates towards zero).

    [partition.rs] keeps the day-of-era arithmetic in [u64]; [typed.rs] has a
    copy over [i64].  Both agree with the definitions here on every date after
    year 0, so the lemmas are shared. *)

From S2P Require Import Prelude.

Definition civil_from_days (z0 : Z) : Z * Z * Z :=
  let z := z0 + 719468 in
  let era := Z.quot (if 0 <=? z then z else z - 146096) 146097 in
  let doe := wrap64 (z - era * 146097) in
  let yoe := (doe - doe / 1460 + doe / 36524 - doe / 146096) / 365 in
  let y := yoe + era * 400 in
  let doy := doe - (365 * yoe + yoe / 4 - yoe / 100) in
  let mp := (5 * doy + 2) / 153 in
  let d := wrap32 (doy - (153 * mp + 2) / 5 + 1) in
  let m := wrap32 (if mp <? 10 then mp + 3 else mp - 9) in
  (if m <=? 2 then y + 1 else y, m, d).

Definition days_from_civil (y0 m d : Z) : Z :=
  let y := if m <=? 2 then wrap_i64 (y0 - 1) else y0 in
  let era := Z.quot (if 0 <=? y then y else wrap_i64 (y - 399)) 400 in
  let yoe := wrap64 (y - era * 400) in
  let mp := if 2 <? m then m - 3 else m + 9 in
  let doy := (153 * mp + 2) / 5 + d - 1 in
  let doe := yoe * 365 + yoe / 4 - yoe / 100 + doy in
  wrap_i64 (wrap_i64 (era * 146097 + doe) - 719468).

(** ** The 400-year cycle

    One era has 146097 days, and the eras are independent.  Inside it a day is
    its March-based year and the day of that year; the years are checked by
    evaluation at their first and last day, the days of a year one by one. *)

Definition year_start (yoe : Z) : Z := yoe * 365 + yoe / 4 - yoe / 100.
Definition year_of (doe : Z) : Z :=
  (doe - doe / 1460 + doe / 36524 - doe / 146096) / 365.

(** Month and day of a day of the March-based year, and back. *)
Definition month_day (doy : Z) : Z * Z :=
  let mp := (5 * doy + 2) / 153 in
  (if mp <? 10 then mp + 3 else mp - 9, doy - (153 * mp + 2) / 5 + 1).
Definition day_of (m d : Z) : Z :=
  (153 * (if 2 <? m then m - 3 else m + 9) + 2) / 5 + d - 1.

Definition month_len (leap : bool) (m : Z) : Z :=
  if m =? 2 then (if leap then 29 else 28)
  else if (m =? 4) || (m =? 6) || (m =? 9) || (m =? 11) then 30 else 31.

Definition is_leap (y : Z) : bool :=
  ((y mod 4 =? 0) && negb (y mod 100 =? 0)) || (y mod 400 =? 0).

Definition year_len (yoe : Z) : Z := if is_leap (yoe + 1) then 366 else 365.

Fixpoint all_upto (n : nat) (p : Z -> bool) (i : Z) : bool :=
  match n with
  | O => true
  | S n' => p i && all_upto n' p (i + 1)
  end.

Lemma all_upto_spec n p : forall i k,
  all_upto n p i = true -> i <= k < i + Z.of_nat n -> p k = true.
Proof.
  induction n as [|n IH]; intros i k H Hk; [lia|].
  simpl in H. apply andb_prop in H as [H1 H2].
  destruct (Z.eq_dec k i) as [->|]; [done|]. apply (IH (i + 1)); [done|lia].
Qed.

Definition year_ok (yoe : Z) : bool :=
  (year_of (year_start yoe) =? yoe) &&
  (year_of (year_start yoe + year_len yoe - 1) =? yoe) &&
  ((year_start (yoe + 1) =? year_start yoe + year_len yoe) || (yoe =? 399)).

Lemma years_ok : all_upto 400 year_ok 0 = true.
Proof. vm_compute. reflexivity. Qed.

Definition doy_ok (doy : Z) : bool :=
  let (m, d) := month_day doy in
  (1 <=? m) && (m <=? 12) && (1 <=? d) && (d <=? month_len (365 <=? doy) m) &&
  (day_of m d =? doy) && ((2 <? m) || (306 <=? doy)) && ((m <=? 2) || (doy <? 306)).

Lemma doys_ok : all_upto 366 doy_ok 0 = true.
Proof. vm_compute. reflexivity. Qed.

Definition month_ok (m : Z) : bool :=
  all_upto (Z.to_nat (month_len true m))
    (fun d => bool_decide (month_day (day_of m d) = (m, d)) &&
              (0 <=? day_of m d) && (day_of m d <? 366) &&
              ((day_of m d <? 365) || ((m =? 2) && (d =? 29))) &&
              ((2 <? m) || (306 <=? day_of m d)) && ((m <=? 2) || (day_of m d <? 306))) 1.

Lemma months_ok : all_upto 12 month_ok 1 = true.
Proof. vm_compute. reflexivity. Qed.

Lemma month_len_range l m : 28 <= month_len l m <= 31.
Proof. unfold month_len. repeat case_goal; lia. Qed.

Lemma month_len_leap m : month_len false m <= month_len true m.
Proof. unfold month_len. repeat case_goal; lia. Qed.

Lemma year_len_range yoe : 365 <= year_len yoe <= 366.
Proof. unfold year_len. case_goal; lia. Qed.

Lemma year_facts yoe :
  0 <= yoe < 400 ->
  year_of (year_start yoe) = yoe /\
  year_of (year_start yoe + year_len yoe - 1) = yoe /\
  (yoe < 399 -> year_start (yoe + 1) = year_start yoe + year_len yoe) /\
  (yoe = 399 -> year_start yoe + year_len yoe = 146097).
Proof.
  intros H. pose proof (all_upto_spec _ _ _ yoe years_ok ltac:(simpl; lia)) as Hy.
  unfold year_ok in Hy. apply andb_prop in Hy as [[H1 H2]%andb_prop H3].
  apply orb_prop in H3. zbool. split_and!; [done|done| |].
  - intros. destruct H3 as [H3|H3]; zbool; lia.
  - intros ->. reflexivity.
Qed.

Definition year_num (doe : Z) : Z := doe - doe / 1460 + doe / 36524 - doe / 146096.

Lemma year_num_step x : 0 <= x -> year_num x <= year_num (x + 1).
Proof.
  intros Hx. unfold year_num.
  replace (x / 146096) with (x / 36524 / 4) by (by rewrite Z.div_div).
  replace ((x + 1) / 146096) with ((x + 1) / 36524 / 4) by (by rewrite Z.div_div).
  dlia.
Qed.

Lemma year_num_mono a b : 0 <= a <= b -> year_num a <= year_num b.
Proof.
  intros Hab. replace b with (a + Z.of_nat (Z.to_nat (b - a))) by lia.
  induction (Z.to_nat (b - a)) as [|n IH]; [by rewrite Z.add_0_r|].
  etransitivity; [exact IH|]. rewrite Nat2Z.inj_succ.
  replace (a + Z.succ (Z.of_nat n)) with (a + Z.of_nat n + 1) by lia.
  apply year_num_step. lia.
Qed.

(** A day of year [yoe] has that year number. *)
Lemma year_of_between yoe doe :
  0 <= yoe < 400 -> year_start yoe <= doe < year_start yoe + year_len yoe ->
  year_of doe = yoe.
Proof.
  intros Hy Hd. destruct (year_facts yoe Hy) as (H1 & H2 & _).
  assert (0 <= year_start yoe) by (unfold year_start; dlia).
  pose proof (year_num_mono (year_start yoe) doe ltac:(lia)) as M1.
  pose proof (year_num_mono doe (year_start yoe + year_len yoe - 1) ltac:(lia)) as M2.
  unfold year_of in *. fold (year_num (year_start yoe)) in H1.
  fold (year_num (year_start yoe + year_len yoe - 1)) in H2. fold (year_num doe).
  pose proof (Z.div_le_mono _ _ 365 ltac:(lia) M1).
  pose proof (Z.div_le_mono _ _ 365 ltac:(lia) M2). lia.
Qed.

Lemma year_exists doe :
  0 <= doe < 146097 ->
  exists yoe, 0 <= yoe < 400 /\ year_start yoe <= doe < year_start yoe + year_len yoe.
Proof.
  intros Hd.
  assert (forall n : nat, (n <= 399)%nat ->
            doe < year_start (Z.of_nat n) + year_len (Z.of_nat n) ->
            exists yoe, 0 <= yoe < 400 /\ year_start yoe <= doe < year_start yoe + year_len yoe) as H.
  { induction n as [|n IH]; intros Hn Hlt.
    - exists 0. split; [lia|]. split; [change (0 <= doe); lia|exact Hlt].
    - destruct (Z.lt_ge_cases doe (year_start (Z.of_nat (S n)))) as [Hl|Hg].
      + apply IH; [lia|]. destruct (year_facts (Z.of_nat n)) as (_ & _ & H3 & _); [lia|].
        rewrite Nat2Z.inj_succ in Hl. unfold Z.succ in Hl. lia.
      + exists (Z.of_nat (S n)). lia. }
  apply (H 399%nat); [lia|]. destruct (year_facts 399) as (_ & _ & _ & H4); [lia|]. 
  replace (Z.of_nat 399) with 399 by lia. lia.
Qed.

(** ** The day and month of a day, and back *)

Definition valid_date (y m d : Z) : Prop :=
  1 <= m <= 12 /\ 1 <= d <= month_len (is_leap y) m.

Lemma is_leap_era y k : is_leap (y + 400 * k) = is_leap y.
Proof.
  unfold is_leap.
  replace ((y + 400 * k) mod 4) with (y mod 4).
  2:{ replace (y + 400 * k) with (y + (100 * k) * 4) by lia. by rewrite Z.mod_add. }
  replace ((y + 400 * k) mod 100) with (y mod 100).
  2:{ replace (y + 400 * k) with (y + (4 * k) * 100) by lia. by rewrite Z.mod_add. }
  replace ((y + 400 * k) mod 400) with (y mod 400); [done|].
  replace (y + 400 * k) with (y + k * 400) by lia. by rewrite Z.mod_add.
Qed.

Lemma month_day_spec doy :
  0 <= doy <= 365 ->
  let (m, d) := month_day doy in
  1 <= m <= 12 /\ 1 <= d <= month_len (365 <=? doy) m /\ day_of m d = doy /\
  (m <= 2 <-> 306 <= doy).
Proof.
  intros H. pose proof (all_upto_spec _ _ _ doy doys_ok ltac:(simpl; lia)) as Hd.
  unfold doy_ok in Hd. destruct (month_day doy) as [m d].
  repeat (apply andb_prop in Hd as [Hd ?]). zbool.
  repeat match goal with H : _ || _ = true |- _ => apply orb_prop in H end.
  split_and!; try lia.
Qed.

Lemma day_of_spec leap m d :
  1 <= m <= 12 -> 1 <= d <= month_len leap m ->
  0 <= day_of m d < (if leap then 366 else 365) /\ month_day (day_of m d) = (m, d) /\
  (m <= 2 <-> 306 <= day_of m d).
Proof.
  intros Hm Hd.
  pose proof (all_upto_spec _ _ _ m months_ok ltac:(simpl; lia)) as Hall. unfold month_ok in Hall.
  pose proof (month_len_range true m). pose proof (month_len_leap m).
  assert (d <= month_len true m) by (destruct leap; lia).
  pose proof (all_upto_spec _ _ _ d Hall ltac:(lia)) as Hrow. cbv beta in Hrow. clear Hall.
  repeat (apply andb_prop in Hrow as [Hrow ?]).
  apply bool_decide_eq_true in Hrow. zbool.
  repeat match goal with H : _ || _ = true |- _ => apply orb_prop in H end.
  assert (day_of m d < 365 \/ m = 2 /\ d = 29) as Hlast.
  { destruct_or!; zbool; try lia. }
  split_and!; [lia| |done|].
  - destruct leap; [lia|]. destruct Hlast as [|[-> ->]]; [lia|]. by destruct Hd.
  - split; intros; destruct_or!; zbool; lia.
Qed.

(** A day counted from 0000-03-01 is an era, a year of it and a day of that. *)
Lemma era_split n :
  0 <= n ->
  let doe := n mod 146097 in
  let yoe := year_of doe in
  let doy := doe - year_start yoe in
  n = n / 146097 * 146097 + (year_start yoe + doy) /\ 0 <= n / 146097 /\
  0 <= doe < 146097 /\ 0 <= yoe < 400 /\ 0 <= doy < year_len yoe.
Proof.
  intros Hn. set (doe := n mod 146097). cbv zeta.
  assert (0 <= doe < 146097) as Hdoe by (by apply Z.mod_pos_bound).
  destruct (year_exists doe Hdoe) as (yoe & Hyoe & Hd).
  rewrite (year_of_between yoe doe Hyoe Hd).
  split_and!; try lia; [|by apply Z.div_pos].
  unfold doe. pose proof (Z.div_mod n 146097). lia.
Qed.

Definition civil_of (n : Z) : Z * Z * Z :=
  let doe := n mod 146097 in
  let yoe := year_of doe in
  let (m, d) := month_day (doe - year_start yoe) in
  (yoe + n / 146097 * 400 + (if m <=? 2 then 1 else 0), m, d).

Lemma civil_from_days_of z :
  0 <= z + 719468 < 2 ^ 62 -> civil_from_days z = civil_of (z + 719468).
Proof.
  intros Hz. unfold civil_from_days, civil_of.
  destruct (era_split (z + 719468) ltac:(lia)) as (Hn & He & Hdoe & Hyoe & Hdoy).
  set (n := z + 719468) in *. set (doe := n mod 146097) in *.
  pose proof (year_len_range (year_of doe)).
  pose proof (month_day_spec (doe - year_start (year_of doe)) ltac:(lia)) as Hmd.
  destruct (0 <=? n) eqn:E; zbool; [|lia].
  rewrite Z.quot_div_nonneg by lia.
  replace (n - n / 146097 * 146097) with doe by lia.
  rewrite wrap64_small by (unfold u64_range, u64_max; lia).
  change ((doe - doe / 1460 + doe / 36524 - doe / 146096) / 365) with (year_of doe).
  set (yoe := year_of doe) in *.
  replace (doe - (365 * yoe + yoe / 4 - yoe / 100)) with (doe - year_start yoe)
    by (unfold year_start; lia).
  set (doy := doe - year_start yoe) in *. unfold month_day in *.
  set (mp := (5 * doy + 2) / 153) in *.
  destruct Hmd as (Hm & Hdd & _ & _).
  pose proof (month_len_range (365 <=? doy) (if mp <? 10 then mp + 3 else mp - 9)).
  unfold wrap32, wrap. rewrite !Z.mod_small by lia.
  destruct (_ <=? 2); f_equal; f_equal; lia.
Qed.

(** [civil_from_days] through the era, the year of the era and the day of the
    year, for any day after the year 0. *)
Lemma civil_from_days_eq z :
  0 <= z + 719468 < 2 ^ 62 ->
  exists era yoe doy,
    z + 719468 = era * 146097 + (year_start yoe + doy) /\ 0 <= era /\
    0 <= yoe < 400 /\ 0 <= doy < year_len yoe /\
    civil_from_days z =
      (let (m, d) := month_day doy in
       (yoe + era * 400 + (if m <=? 2 then 1 else 0), m, d)).
Proof.
  intros Hz. rewrite (civil_from_days_of z Hz). unfold civil_of.
  destruct (era_split (z + 719468) ltac:(lia)) as (Hn & He & _ & Hyoe & Hdoy).
  by eexists _, _, _.
Qed.

Lemma days_from_civil_eq era yoe m d :
  0 <= era <= 2 ^ 44 -> 0 <= yoe < 400 -> 1 <= m <= 12 -> 1 <= d <= 31 ->
  days_from_civil (yoe + era * 400 + (if m <=? 2 then 1 else 0)) m d
  = era * 146097 + year_start yoe + day_of m d - 719468.
Proof.
  intros He Hy Hm Hd. unfold days_from_civil.
  assert ((if m <=? 2 then wrap_i64 (yoe + era * 400 + (if m <=? 2 then 1 else 0) - 1)
           else yoe + era * 400 + (if m <=? 2 then 1 else 0)) = yoe + era * 400) as ->.
  { case_goal; [|lia]. rewrite wrap_i64_small by (unfold i64_min, i64_max; lia). lia. }
  destruct (0 <=? yoe + era * 400) eqn:E; zbool; [|lia].
  rewrite Z.quot_div_nonneg by lia.
  assert ((yoe + era * 400) / 400 = era) as ->.
  { rewrite Z.div_add by lia. rewrite Z.div_small; lia. }
  replace (yoe + era * 400 - era * 400) with yoe by lia.
  rewrite wrap64_small by (unfold u64_range, u64_max; lia).
  fold (day_of m d).
  assert (0 <= day_of m d <= 400) by (unfold day_of; case_goal; zbool; dlia).
  assert (0 <= year_start yoe <= 150000) by (unfold year_start; dlia).
  fold (year_start yoe).
  rewrite (wrap_i64_small (era * 146097 + _)) by (unfold i64_min, i64_max; lia).
  rewrite wrap_i64_small; unfold i64_min, i64_max; lia.
Qed.

(** Every day has a real calendar date, and [days_from_civil] undoes
    [civil_from_days]. *)
Lemma days_from_civil_from_days z :
  -719468 <= z < 2 ^ 60 ->
  let '(y, m, d) := civil_from_days z in
  valid_date y m d /\ 0 <= y <= z + 719469 /\ z + 719468 < 366 * (y + 1) /\
  days_from_civil y m d = z.
Proof.
  intros Hz. destruct (civil_from_days_eq z ltac:(lia)) as (era & yoe & doy & Hn & He & Hy & Hdoy & ->).
  pose proof (year_len_range yoe).
  pose proof (month_day_spec doy ltac:(lia)) as Hmd.
  destruct (month_day doy) as [m d]. destruct Hmd as (Hm & Hd & Hday & Hm2).
  pose proof (month_len_range (365 <=? doy) m). pose proof (month_len_leap m).
  assert (0 <= year_start yoe) by (unfold year_start; dlia).
  split_and!.
  - split; [done|]. split; [lia|].
    destruct (365 <=? doy) eqn:E; zbool; [|destruct (is_leap _); lia].
    assert (m <= 2) by (apply Hm2; lia). destruct (m <=? 2) eqn:?; zbool; [|lia].
    unfold year_len in Hdoy.
    replace (yoe + era * 400 + 1) with (yoe + 1 + 400 * era) by lia. rewrite is_leap_era.
    destruct (is_leap (yoe + 1)); [lia|lia].
  - case_goal; lia.
  - assert (365 * yoe <= year_start yoe) by (unfold year_start; dlia). case_goal; zbool; lia.
  - assert (year_start yoe <= 366 * yoe) by (unfold year_start; dlia). case_goal; lia.
  - rewrite days_from_civil_eq; try lia.
Qed.

(** [civil_from_days] undoes [days_from_civil] on real dates. *)
Lemma civil_from_days_from_civil y m d :
  valid_date y m d -> 1 <= y <= 2 ^ 50 -> -719468 <= days_from_civil y m d ->
  civil_from_days (days_from_civil y m d) = (y, m, d).
Proof.
  intros [Hm Hd] Hy _. pose proof (month_len_range (is_leap y) m).
  set (y' := if m <=? 2 then y - 1 else y).
  assert (0 <= y' <= 2 ^ 50) by (unfold y'; case_goal; lia).
  set (era := y' / 400). set (yoe := y' mod 400).
  assert (y' = yoe + era * 400) as Hy' by (unfold era, yoe; pose proof (Z.div_mod y' 400); lia).
  assert (0 <= yoe < 400) by (by apply Z.mod_pos_bound).
  assert (0 <= era <= 2 ^ 44) by (unfold era; split; [by apply Z.div_pos; lia|]; apply Z.div_le_upper_bound; lia).
  assert (y = yoe + era * 400 + (if m <=? 2 then 1 else 0)) as Hyy by (unfold y' in Hy'; case_goal; lia).
  rewrite Hyy at 1. rewrite days_from_civil_eq by lia.
  destruct (day_of_spec (is_leap y) m d Hm Hd) as (Hday & Hmd & Hm2).
  assert (day_of m d < year_len yoe) as Hlt.
  { unfold year_len. destruct (Z.le_gt_cases m 2) as [Hle|Hgt].
    - assert (is_leap (yoe + 1) = is_leap y) as ->.
      { rewrite Hyy. destruct (m <=? 2) eqn:?; zbool; [|lia].
        replace (yoe + era * 400 + 1) with (yoe + 1 + 400 * era) by lia. by rewrite is_leap_era. }
      lia.
    - assert (day_of m d < 306) by lia. case_goal; lia. }
  assert (0 <= year_start yoe <= 150000) by (unfold year_start; dlia).
  pose proof (year_len_range yoe).
  set (z := era * 146097 + year_start yoe + day_of m d - 719468).
  destruct (civil_from_days_eq z ltac:(unfold z; lia)) as (era2 & yoe2 & doy2 & Hn & He2 & Hyoe2 & Hdoy2 & ->).
  assert (forall yo dy, 0 <= yo < 400 -> 0 <= dy < year_len yo -> 0 <= year_start yo + dy < 146097) as Hb.
  { intros yo dy Hyo Hdy. destruct (year_facts yo Hyo) as (_ & _ & Hnx & Hlast).
    assert (0 <= year_start yo) by (unfold year_start; dlia). split; [lia|].
    destruct (Z.eq_dec yo 399); [lia|].
    assert (year_start (yo + 1) <= 146097) by (unfold year_start; dlia). lia. }
  pose proof (Hb yoe (day_of m d) ltac:(lia) ltac:(lia)).
  pose proof (Hb yoe2 doy2 ltac:(lia) ltac:(lia)).
  assert (era2 = era) as -> by (unfold z in Hn; lia).
  assert (year_start yoe2 + doy2 = year_start yoe + day_of m d) as Hs by (unfold z in Hn; lia).
  assert (yoe2 = yoe) as ->.
  { pose proof (year_of_between yoe (year_start yoe + day_of m d) ltac:(lia) ltac:(lia)).
    pose proof (year_of_between yoe2 (year_start yoe2 + doy2) ltac:(lia) ltac:(lia)). congruence. }
  assert (doy2 = day_of m d) as -> by lia.
  rewrite Hmd. by rewrite <- Hyy.
Qed.

(** Days before March 1 of year [y]. *)
Definition days_before (y : Z) : Z := 365 * y + y / 4 - y / 100 + y / 400.

Lemma days_from_civil_closed y m d :
  1 <= y <= 2 ^ 50 -> 1 <= m <= 12 -> 1 <= d <= 31 ->
  days_from_civil y m d
  = days_before (if m <=? 2 then y - 1 else y) + day_of m d - 719468.
Proof.
  intros Hy Hm Hd. set (y' := if m <=? 2 then y - 1 else y).
  assert (0 <= y' <= 2 ^ 50) by (unfold y'; case_goal; lia).
  assert (y = y' mod 400 + y' / 400 * 400 + (if m <=? 2 then 1 else 0)) as Hyy.
  { pose proof (Z.div_mod y' 400). unfold y' in *. case_goal; lia. }
  rewrite Hyy at 1. rewrite days_from_civil_eq by dlia.
  unfold days_before, year_start.
  replace (y' / 100) with (4 * (y' / 400) + y' mod 400 / 100) by dlia.
  replace (y' / 4) with (100 * (y' / 400) + y' mod 400 / 4) by dlia.
  pose proof (Z.div_mod y' 400). lia.
Qed.

(** The year of a day, by the first days of the years around it. *)
Lemma civil_year_bounds y m d lo hi :
  valid_date y m d -> 1 <= y <= 2 ^ 50 -> 1 <= lo <= 2 ^ 49 -> hi <= 2 ^ 49 ->
  days_from_civil lo 1 1 <= days_from_civil y m d < days_from_civil (hi + 1) 1 1 ->
  1 <= hi -> lo <= y <= hi.
Proof.
  intros [Hm Hd] Hy Hlo Hhi Hr Hhi1. pose proof (month_len_range (is_leap y) m).
  rewrite !days_from_civil_closed in Hr by lia.
  destruct (day_of_spec (is_leap y) m d Hm Hd) as (Hday & _ & Hm2).
  assert (0 <= day_of m d <= 365) by (destruct (is_leap y); lia). clear Hday.
  change (1 <=? 2) with true in Hr. change (day_of 1 1) with 306 in Hr. cbv iota in Hr.
  assert (forall a b, a <= b -> days_before a + 365 * (b - a) <= days_before b) as Hmono.
  { intros a b Hab. unfold days_before.
    replace (a / 400) with (a / 100 / 4) by (by rewrite Z.div_div).
    replace (b / 400) with (b / 100 / 4) by (by rewrite Z.div_div).
    replace (a / 100) with (a / 4 / 25) by (by rewrite Z.div_div).
    replace (b / 100) with (b / 4 / 25) by (by rewrite Z.div_div). dlia. }
  destruct (m <=? 2) eqn:E; zbool.
  - assert (306 <= day_of m d) by (by apply Hm2).
    split; apply Z.le_ngt; intros Hc.
    + pose proof (Hmono (y - 1) (lo - 1 - 1) ltac:(lia)).
      pose proof (Hmono (lo - 1 - 1) (lo - 1) ltac:(lia)). lia.
    + pose proof (Hmono (hi + 1 - 1) (y - 1) ltac:(lia)). lia.
  - assert (day_of m d < 306) by lia.
    split; apply Z.le_ngt; intros Hc.
    + pose proof (Hmono y (lo - 1) ltac:(lia)). lia.
    + pose proof (Hmono (hi + 1 - 1 + 1) y ltac:(lia)).
      pose proof (Hmono (hi + 1 - 1) (hi + 1 - 1 + 1) ltac:(lia)). lia.
Qed.
