(* ===== verification/Lists.v ===== *)
(** Lists: the stable sort behind [sort_by_key] and [sort_by], [dedup],
    sums, and the facts the components share. *)

From S2P Require Import Prelude.
From stdpp Require Import sorting.
From Stdlib Require Import Permutation.
Open Scope Z_scope.

(** ** Stable sort

    [le x y] says [x] may stay before [y]; equal elements keep their order. *)
Section StableSort.
Context {A : Type} (le : A -> A -> bool).

Fixpoint insert_sorted (x : A) (l : list A) : list A :=
  match l with
  | [] => [x]
  | y :: l' => if le x y then x :: l else y :: insert_sorted x l'
  end.

Definition stable_sort (l : list A) : list A := foldr insert_sorted [] l.

Lemma insert_sorted_perm x l : Permutation (insert_sorted x l) (x :: l).
Proof.
  induction l as [|y l IH]; simpl; [done|]. destruct (le x y); [done|].
  rewrite IH. apply Permutation_swap.
Qed.

Lemma stable_sort_perm l : Permutation (stable_sort l) l.
Proof.
  induction l as [|x l IH]; simpl; [done|]. by rewrite insert_sorted_perm, IH.
Qed.

Hypothesis le_total : forall x y, le x y = true \/ le y x = true.
Hypothesis le_trans : forall x y z, le x y = true -> le y z = true -> le x z = true.

Definition sorted_by : list A -> Prop := StronglySorted (fun x y => le x y = true).

Lemma insert_sorted_sorted x l : sorted_by l -> sorted_by (insert_sorted x l).
Proof.
  induction 1 as [|y l Hs IH Hy]; simpl; [by repeat constructor|].
  destruct (le x y) eqn:E.
  - constructor; [by constructor|]. constructor; [done|].
    eapply Forall_impl; [exact Hy|]. intros z Hz. by apply le_trans with y.
  - constructor; [done|]. rewrite insert_sorted_perm. constructor; [|done].
    destruct (le_total x y); congruence.
Qed.

Lemma stable_sort_sorted l : sorted_by (stable_sort l).
Proof. induction l as [|x l IH]; simpl; [constructor|by apply insert_sorted_sorted]. Qed.
End StableSort.

(** ** Sums *)

Definition sumZ {A} (f : A -> Z) (l : list A) : Z := foldr (fun a s => f a + s) 0 l.

Lemma sumZ_app {A} (f : A -> Z) l k : sumZ f (l ++ k) = sumZ f l + sumZ f k.
Proof. induction l as [|a l IH]; simpl; lia. Qed.

Lemma sumZ_nonneg {A} (f : A -> Z) l : Forall (fun a => 0 <= f a) l -> 0 <= sumZ f l.
Proof. induction 1; simpl; lia. Qed.

Lemma sumZ_perm {A} (f : A -> Z) l k : Permutation l k -> sumZ f l = sumZ f k.
Proof. induction 1; simpl; lia. Qed.

(** Sum of the values of a finite map. *)
Definition map_sumZ `{Countable K} {A} (f : A -> Z) (m : gmap K A) : Z :=
  map_fold (fun _ a s => f a + s) 0 m.

Lemma map_sumZ_empty `{Countable K} {A} (f : A -> Z) : map_sumZ f (∅ : gmap K A) = 0.
Proof. unfold map_sumZ. by rewrite map_fold_empty. Qed.

Lemma map_sumZ_insert `{Countable K} {A} (f : A -> Z) (m : gmap K A) k a :
  m !! k = None -> map_sumZ f (<[k := a]> m) = f a + map_sumZ f m.
Proof.
  intros Hk. unfold map_sumZ. rewrite map_fold_insert_L; [done| |done].
  intros. lia.
Qed.

Lemma map_sumZ_delete `{Countable K} {A} (f : A -> Z) (m : gmap K A) k a :
  m !! k = Some a -> map_sumZ f (delete k m) = map_sumZ f m - f a.
Proof.
  intros Hk. rewrite <- (insert_delete_id m k a) at 2 by done.
  rewrite map_sumZ_insert by apply lookup_delete_eq. lia.
Qed.

Lemma map_sumZ_update `{Countable K} {A} (f : A -> Z) (m : gmap K A) k a b :
  m !! k = Some a -> map_sumZ f (<[k := b]> m) = map_sumZ f m - f a + f b.
Proof.
  intros Hk. rewrite <- insert_delete_eq.
  rewrite map_sumZ_insert by apply lookup_delete_eq.
  rewrite (map_sumZ_delete f m k a) by done. lia.
Qed.

Lemma map_sumZ_nonneg `{Countable K} {A} (f : A -> Z) (m : gmap K A) :
  (forall k a, m !! k = Some a -> 0 <= f a) -> 0 <= map_sumZ f m.
Proof.
  induction m as [|k a m Hk IH] using map_ind; intros Hf; [by rewrite map_sumZ_empty|].
  rewrite map_sumZ_insert by done.
  pose proof (Hf k a (lookup_insert_eq _ _ _)).
  assert (0 <= map_sumZ f m); [|lia].
  apply IH. intros k' a' Hk'. apply (Hf k'). rewrite lookup_insert_ne; congruence.
Qed.

(** ** [filter] with a boolean, and [position] *)

Fixpoint position {A} (p : A -> bool) (l : list A) : option nat :=
  match l with
  | [] => None
  | x :: l' => if p x then Some 0%nat else S <$> position p l'
  end.

(** [Vec::dedup_by_key]: of a run of equal neighbours, the first stays. *)
Fixpoint dedup_from {A} (same : A -> A -> bool) (x : A) (l : list A) : list A :=
  match l with
  | [] => []
  | y :: l' => if same x y then dedup_from same x l' else y :: dedup_from same y l'
  end.
Definition dedup {A} (same : A -> A -> bool) (l : list A) : list A :=
  match l with [] => [] | x :: l' => x :: dedup_from same x l' end.

Lemma Forall_foldl {A B} (P : B -> Prop) (f : B -> A -> B) l : forall b,
  P b -> (forall b a, P b -> In a l -> P (f b a)) -> P (foldl f b l).
Proof.
  induction l as [|a l IH]; intros b Hb Hf; simpl; [done|].
  apply IH; [apply Hf; [done|by left]|]. intros. apply Hf; [done|by right].
Qed.

Lemma omap_map {A B C} (g : A -> B) (f : B -> option C) l :
  omap f (List.map g l) = omap (fun x => f (g x)) l.
Proof. induction l as [|a l IH]; [done|]. cbn. destruct (f (g a)); [f_equal|]; exact IH. Qed.

Lemma omap_all {A B} (f : A -> option B) (g : A -> B) l :
  Forall (fun a => f a = Some (g a)) l -> omap f l = List.map g l.
Proof. induction 1 as [|a l Ha _ IH]; [done|]. cbn. rewrite Ha. f_equal. exact IH. Qed.

Lemma omap_none {A B} (f : A -> option B) l : Forall (fun a => f a = None) l -> omap f l = [].
Proof. induction 1 as [|a l Ha _ IH]; [done|]. cbn. rewrite Ha. exact IH. Qed.

(** ** Sublists *)

Lemma sublist_map {A B} (f : A -> B) a b : sublist a b -> sublist (List.map f a) (List.map f b).
Proof. induction 1; simpl; by constructor. Qed.

Lemma sublist_filter_bool {A} (p : A -> bool) l : sublist (List.filter p l) l.
Proof. induction l as [|a l IH]; simpl; [constructor|]. destruct (p a); by constructor. Qed.

Lemma sublist_rev {A} (a b : list A) : sublist a b -> sublist (rev a) (rev b).
Proof.
  induction 1 as [|x a b _ IH|x a b _ IH]; simpl; [constructor| |].
  - by apply sublist_app.
  - by apply sublist_inserts_r.
Qed.

(** An invariant of the steps of a fold is an invariant of the fold. *)
Lemma foldl_preserves {A B} (P : A -> Prop) (f : A -> B -> A) l :
  (forall a b, P a -> P (f a b)) -> forall a, P a -> P (foldl f a l).
Proof. intros Hf a Ha. apply Forall_foldl; auto. Qed.

Lemma size_list_to_set_le `{Countable A} (l : list A) : (size (list_to_set l : gset A) <= List.length l)%nat.
Proof.
  induction l as [|a l IH]; cbn [list_to_set List.length]; [by rewrite size_empty|].
  destruct (decide (a ∈ (list_to_set l : gset A))) as [Hin|Hn].
  - rewrite subseteq_union_1_L by set_solver. lia.
  - rewrite size_union, size_singleton by set_solver. lia.
Qed.

Lemma last_snoc_or_nil {A} (l : list A) : l = [] \/ exists l' x, l = l' ++ [x].
Proof. destruct l as [|a l] using rev_ind; [by left|right; eauto]. Qed.

(** ** Texts in order *)

Lemma str_leb_cons a s b t : String.leb (String a s) (String b t) = true <->
  (N_of_ascii a < N_of_ascii b)%N \/ (a = b /\ String.leb s t = true).
Proof.
  unfold String.leb. simpl. unfold Ascii.compare. destruct (N.compare_spec (N_of_ascii a) (N_of_ascii b)) as [He|Hl|Hg].
  - assert (a = b) as -> by (rewrite <- (ascii_N_embedding a), <- (ascii_N_embedding b); by rewrite He).
    split; [by right|]. intros [?|[_ ?]]; [lia|done].
  - split; [by left|done].
  - split; [done|]. intros [?|[-> _]]; lia.
Qed.

Lemma str_leb_trans a b c : String.leb a b = true -> String.leb b c = true -> String.leb a c = true.
Proof.
  revert b c. induction a as [|x a IH]; intros b c; [by destruct c|].
  destruct b as [|y b]; [done|]. destruct c as [|z c]; [done|]. rewrite !str_leb_cons.
  intros [H1|[-> H1]] [H2|[-> H2]]; [left; lia|by left|by left|right]. split; [done|]. by eapply IH.
Qed.

(** ** Neighbours of a sorted list *)

(** The first of two neighbours that agree, as [windows(2)] meets them. *)
Fixpoint adjacent {A} (same : A -> A -> bool) (l : list A) : option A :=
  match l with
  | a :: (b :: _) as r => if same a b then Some a else adjacent same r
  | _ => None
  end.

(** In a sorted list without equal neighbours every element is below all that
    follow. *)
Lemma adjacent_strict {A} (le same : A -> A -> bool) l :
  (forall x y z, le x y = true -> le y z = true -> le x z = true) ->
  (forall x y, le x y = true -> le y x = true -> same x y = true) ->
  sorted_by le l -> adjacent same l = None ->
  StronglySorted (fun x y => le x y = true /\ le y x = false) l.
Proof.
  intros Htr Has. induction l as [|a [|b l] IH]; intros Hs Ha; [constructor|by repeat constructor|].
  inversion Hs as [|? ? Hs' Hal]; subst. simpl in Ha. destruct (same a b) eqn:E; [done|].
  inversion Hal as [|? ? Hab _]; subst. specialize (IH Hs' Ha). constructor; [done|].
  assert (le b a = false) as Hba.
  { destruct (le b a) eqn:Eb; [|done]. by rewrite (Has a b Hab Eb) in E. }
  constructor; [done|]. inversion IH as [|? ? _ Hbl]; subst.
  inversion Hal as [|? ? _ Hal']; subst. apply Forall_forall. intros x Hx.
  rewrite Forall_forall in Hal', Hbl. split; [by apply Hal'|].
  destruct (le x a) eqn:Ex; [|done]. destruct (Hbl x Hx) as [_ Hxb].
  rewrite (Htr x a b Ex Hab) in Hxb. done.
Qed.

Lemma sublist_rest {A} (d l : list A) : sublist d l -> exists rest, Permutation l (d ++ rest).
Proof. intros H. by apply submseteq_Permutation, sublist_submseteq. Qed.

Lemma sublist_Forall {A} (P : A -> Prop) (d l : list A) : sublist d l -> Forall P l -> Forall P d.
Proof. intros [rest ->]%sublist_rest. by rewrite Forall_app; intros [? _]. Qed.

Lemma NoDup_map_inj {A B} (f : A -> B) l a b : List.NoDup (List.map f l) -> In a l -> In b l -> f a = f b -> a = b.
Proof.
  induction l as [|x l IH]; simpl; [done|]. intros Hnd Ha Hb E. inversion Hnd as [|? ? Hx Hnd']; subst.
  destruct Ha as [->|Ha], Hb as [->|Hb]; [done| | |by apply IH];
    exfalso; apply Hx; [rewrite E|rewrite <- E]; by apply in_map.
Qed.

Lemma str_leb_total a b : String.leb a b = true \/ String.leb b a = true.
Proof. destruct (String.leb_total a b); auto. Qed.

(** Sorted lists of the same elements are the same when the order is strict on them. *)
Lemma sorted_perm_unique {A} (le : A -> A -> bool) l : forall k, sorted_by le l -> sorted_by le k -> Permutation l k ->
  (forall x y, x ∈ l -> y ∈ l -> le x y = true -> le y x = true -> x = y) -> l = k.
Proof.
  induction l as [|x l IH]; intros [|y k] Hl Hk Hp Hant; [done|by apply Permutation_nil_cons in Hp|by symmetry in Hp; apply Permutation_nil_cons in Hp|].
  inversion Hl as [|? ? Hl' Hx]; subst. inversion Hk as [|? ? Hk' Hy]; subst. rewrite Forall_forall in Hx, Hy.
  assert (x = y) as <-.
  { assert (x ∈ y :: k) as Hxk by (rewrite <- Hp; by left). assert (y ∈ x :: l) as Hyl by (rewrite Hp; by left).
    apply elem_of_cons in Hxk as [->|Hxk]; [done|]. apply elem_of_cons in Hyl as [->|Hyl]; [done|].
    apply Hant; [by left|by right|by apply Hx|by apply Hy]. }
  f_equal. apply IH; [done|done|by apply Permutation_cons_inv in Hp|]. intros a b ? ?. apply Hant; by right.
Qed.

Lemma NoDup_app_maps {A B C} (f : A -> C) (g : B -> C) l k : List.NoDup (List.map f l) -> List.NoDup (List.map g k) ->
  (forall a b, In a l -> In b k -> f a <> g b) -> List.NoDup (List.map f l ++ List.map g k).
Proof.
  intros Hl Hk Hne. apply NoDup_ListNoDup, NoDup_app. split_and!; [by apply NoDup_ListNoDup| |by apply NoDup_ListNoDup].
  intros x Hx1 Hx2. apply list_elem_of_In, in_map_iff in Hx1 as (a & <- & Ha). apply list_elem_of_In, in_map_iff in Hx2 as (b & e & Hb).
  by destruct (Hne a b Ha Hb).
Qed.

Lemma filter_true {A} (p : A -> bool) l : Forall (fun x => p x = true) l -> List.filter p l = l.
Proof. induction 1 as [|x l Hx _ IH]; [done|]. cbn. by rewrite Hx, IH. Qed.
