(* ===== verification/Partition.v ===== *)
(** Partition keys and the on-disk layout
    ([crates/logless-core/src/partition.rs]).

    A path is the list of its components; [join] of a component appends it. *)

From S2P Require Import Prelude Text Civil.
Open Scope string_scope.
Open Scope Z_scope.

Abbreviation path := (list string).

Definition SECS_PER_HOUR : Z := 3600.
Definition NANOS_PER_HOUR : Z := SECS_PER_HOUR * 1000000000.
Definition DEFAULT_TENANT : string := "default".
Definition DEFAULT_INDEX : string := "default".

Definition valid_ident (s : string) : bool :=
  (1 <=? str_len s) && (str_len s <=? 64) &&
  negb (starts_with "." s) &&
  str_all (fun b => is_alnum b || one_of "._-" b) s &&
  str_any is_alpha s.

Record PartitionKey := mkKey {
  tenant : string;
  index : string;
  epoch_hour : Z;
  bucket : string;
  node : string
}.

#[export] Instance PartitionKey_eq_dec : EqDecision PartitionKey.
Proof. solve_decision. Defined.

(** ** Hours *)

(** [{n:0w}] of a signed integer: the sign counts in the width. *)
Definition pad0_int (w : nat) (n : Z) : string :=
  if n <? 0 then String "-" (pad0 (w - 1) (- n)) else pad0 w n.

Definition format_hour (epoch_hour : Z) : string :=
  let '(y, m, d) := civil_from_days (wrap_i64 (epoch_hour / 24)) in
  let h := epoch_hour mod 24 in
  String.append (pad0_int 4 y)
    (String "-" (String.append (pad0 2 m)
      (String "-" (String.append (pad0 2 d)
        (String "T" (pad0 2 h)))))).

Definition parse_hour (s : string) : option Z :=
  '(date, hour) ← split_once "T" s;
  match split_char "-" date with
  | sy :: sm :: sd :: rest =>
      y ← parse_int i64_min i64_max sy;
      m ← parse_uint u32_max sm;
      d ← parse_uint u32_max sd;
      if (match rest with [] => false | _ => true end)
         || negb ((1 <=? m) && (m <=? 12)) || negb ((1 <=? d) && (d <=? 31))
      then None
      else
        h ← parse_uint u64_max hour;
        if 23 <? h then None
        else
          let days := days_from_civil y m d in
          if days <? 0 then None
          else Some (wrap64 (days * 24 + h))
  | _ => None
  end.

(** ** Paths *)

Definition level_dir (k : PartitionKey) (store_dir : path) : path :=
  store_dir ++ [String.append "tenant=" (tenant k); String.append "index=" (index k);
                String.append "hour=" (format_hour (epoch_hour k));
                String.append "level=" (bucket k)].

Definition dir (k : PartitionKey) (store_dir : path) : path :=
  level_dir k store_dir ++ [String.append "node=" (node k)].

Definition end_unix_secs (k : PartitionKey) : Z :=
  wrap64 (wadd64 (epoch_hour k) 1 * SECS_PER_HOUR).

(** [Path::parent]: [None] at the root. *)
Definition parent (p : path) : option path :=
  match p with [] => None | _ => Some (removelast p) end.

Definition opt_filter {A} (p : A -> bool) (o : option A) : option A :=
  match o with Some a => if p a then Some a else None | None => None end.

(** The key the last five directories name. *)
Definition key_of_dirs (dirs : list string) : option PartitionKey :=
  match dirs with
  | [t; i; h; l; n] =>
      tenant ← opt_filter valid_ident (strip_prefix "tenant=" t);
      index ← opt_filter valid_ident (strip_prefix "index=" i);
      node ← opt_filter valid_ident (strip_prefix "node=" n);
      hs ← strip_prefix "hour=" h;
      epoch_hour ← parse_hour hs;
      bucket ← opt_filter (fun v => negb (String.eqb v "")) (strip_prefix "level=" l);
      Some (mkKey tenant index epoch_hour bucket node)
  | _ => None
  end.

Definition key_of_path (p : path) : option PartitionKey :=
  dp ← parent p;
  key_of_dirs (rev (firstn 5 (rev dp))).

(** [is_old_layout] over the entries of the store directory: the name of each
    and whether it is a directory; [None] when it cannot be read. *)
Definition is_old_layout (entries : option (list (string * bool))) : bool :=
  match entries with
  | None => false
  | Some es =>
      existsb (fun '(name, is_dir) =>
        is_dir && match strip_prefix "hour=" name ≫= parse_hour with
                  | Some _ => true | None => false end) es
  end.

(** ** The hour codec *)

Lemma pad0_int_pos w n : 0 <= n -> pad0_int w n = pad0 w n.
Proof. intros. unfold pad0_int. destruct (n <? 0) eqn:?; zbool; [lia|done]. Qed.

(** Digits are neither a dash nor a [T]. *)
Lemma digits_no_dash s : str_all is_digit s = true ->
  str_all (fun x => negb (Ascii.eqb "-"%char x)) s = true.
Proof.
  apply str_all_impl. intros c. unfold is_digit, in_range. intros. zbool.
  apply negb_true_iff, Ascii.eqb_neq. intros <-. change (chr "-") with 45 in *. lia.
Qed.

Lemma digits_no_T s : str_all is_digit s = true ->
  str_all (fun x => negb (Ascii.eqb x "T"%char)) s = true.
Proof.
  apply str_all_impl. intros c. unfold is_digit, in_range. intros. zbool.
  apply negb_true_iff, Ascii.eqb_neq. intros ->. change (chr "T") with 84 in *. lia.
Qed.

Lemma split_date y m d :
  str_all is_digit y = true -> str_all is_digit m = true -> str_all is_digit d = true ->
  split_char "-" (String.append y (String "-" (String.append m (String "-" d)))) = [y; m; d].
Proof.
  intros Hy Hm Hd. unfold split_char.
  rewrite split_on_app by (try apply digits_no_dash; done).
  rewrite split_on_app by (try apply digits_no_dash; done).
  by rewrite split_on_none by (by apply digits_no_dash).
Qed.

Lemma parse_hour_parts y m d h :
  0 <= y <= i64_max -> 1 <= m <= 12 -> 1 <= d <= 31 -> 0 <= h <= 23 ->
  parse_hour (String.append (pad0 4 y)
    (String "-" (String.append (pad0 2 m)
      (String "-" (String.append (pad0 2 d) (String "T" (pad0 2 h)))))))
  = (if days_from_civil y m d <? 0 then None
     else Some (wrap64 (days_from_civil y m d * 24 + h))).
Proof.
  intros Hy Hm Hd Hh. unfold parse_hour, i64_max in *.
  set (date := String.append (pad0 4 y) (String "-" (String.append (pad0 2 m) (String "-" (pad0 2 d))))).
  replace (String.append (pad0 4 y) _) with (String.append date (String "T" (pad0 2 h))).
  2:{ unfold date. rewrite !str_app_assoc. simpl. by rewrite !str_app_assoc. }
  rewrite split_once_app.
  2:{ unfold date. rewrite str_all_app. simpl. rewrite str_all_app. simpl.
      rewrite !digits_no_T; [done|apply pad0_digits; lia..]. }
  cbn [mbind option_bind]. unfold date.
  rewrite split_date by (apply pad0_digits; lia).
  rewrite parse_int_pad0 by (unfold i64_min, i64_max; lia).
  rewrite !parse_uint_pad0 by (unfold u32_max, u64_max; lia). cbn [mbind option_bind].
  destruct (1 <=? m) eqn:?, (m <=? 12) eqn:?, (1 <=? d) eqn:?, (d <=? 31) eqn:?; zbool; try lia.
  simpl negb. cbn [orb andb].
  destruct (23 <? h) eqn:?; zbool; [lia|done].
Qed.

(** A directory name [hour=...] names exactly the hour it was made from. *)
Lemma parse_format_hour e :
  u64_range e -> parse_hour (format_hour e) = Some e.
Proof.
  unfold u64_range, u64_max. intros He. unfold format_hour.
  assert (0 <= e / 24 < 2 ^ 60) as Hq by (split; [by apply Z.div_pos; lia|]; apply Z.div_lt_upper_bound; lia).
  rewrite wrap_i64_small by (unfold i64_min, i64_max; lia).
  pose proof (days_from_civil_from_days (e / 24) ltac:(lia)) as Hc.
  destruct (civil_from_days (e / 24)) as [[y m] d].
  destruct Hc as ([Hm Hd] & Hy & _ & Hdays). pose proof (month_len_range (is_leap y) m).
  pose proof (Z.mod_pos_bound e 24 ltac:(lia)).
  rewrite pad0_int_pos by lia.
  rewrite parse_hour_parts by (unfold i64_max; lia).
  rewrite Hdays. destruct (e / 24 <? 0) eqn:?; zbool; [lia|].
  f_equal. rewrite Z.mul_comm, <- Z.div_mod by lia. apply wrap64_small. unfold u64_range, u64_max. lia.
Qed.

Lemma last_five {A} (l : list A) a b c d e :
  rev (firstn 5 (rev (l ++ [a; b; c; d; e]))) = [a; b; c; d; e].
Proof. rewrite rev_app_distr. reflexivity. Qed.

Definition key_ok (k : PartitionKey) : Prop :=
  valid_ident (tenant k) = true /\ valid_ident (index k) = true /\
  valid_ident (node k) = true /\ bucket k <> "" /\ u64_range (epoch_hour k).

Lemma key_of_dirs_eq t i h l n t' i' h' l' n' e :
  strip_prefix "tenant=" t = Some t' -> strip_prefix "index=" i = Some i' ->
  strip_prefix "hour=" h = Some h' -> strip_prefix "level=" l = Some l' ->
  strip_prefix "node=" n = Some n' ->
  valid_ident t' = true -> valid_ident i' = true -> valid_ident n' = true ->
  l' <> "" -> parse_hour h' = Some e ->
  key_of_dirs [t; i; h; l; n] = Some (mkKey t' i' e l' n').
Proof.
  intros Ht Hi Hh Hl Hn Vt Vi Vn Hne He. unfold key_of_dirs.
  rewrite Ht, Hi, Hh, Hl, Hn. unfold opt_filter.
  rewrite Vt, Vi, Vn. simpl. rewrite He. simpl.
  by destruct (String.eqb_spec l' "").
Qed.

Lemma parent_snoc (p : path) f : parent (p ++ [f]) = Some p.
Proof. unfold parent. rewrite removelast_last. by destruct p. Qed.

(** The directory layout determines the key. *)
Theorem key_of_path_dir k store_dir file :
  key_ok k -> key_of_path (dir k store_dir ++ [file]) = Some k.
Proof.
  intros (Ht & Hi & Hn & Hb & Hh). unfold key_of_path. rewrite parent_snoc.
  unfold dir, level_dir. rewrite <- app_assoc. cbn [mbind option_bind app].
  rewrite last_five. destruct k as [t i e b n].
  apply (key_of_dirs_eq _ _ _ _ _ _ _ (format_hour e)); try apply strip_prefix_app; try done.
  by apply parse_format_hour.
Qed.

Lemma key_of_path_dir_witness :
  let k := mkKey "default" "main" 489504 "error" "n1" in
  key_of_path (dir k ["store"] ++ ["part-1.parquet"]) = Some k.
Proof.
  apply (key_of_path_dir (mkKey "default" "main" 489504 "error" "n1")).
  split; [reflexivity|]. split; [reflexivity|]. split; [reflexivity|]. split; [discriminate|].
  unfold u64_range, u64_max. simpl. lia.
Defined.
