(* ===== verification/Timestamp.v ===== *)
(** Canonical RFC 3339 timestamps ([crates/logless-core/src/typed.rs], second
    half): the text form a typed [timestamp] column accepts, and its printer. *)

From S2P Require Import Prelude Text Civil Partition.
Open Scope string_scope.
Open Scope Z_scope.

Definition NANOS_PER_SEC : Z := 1000000000.

Module TypedCivil.
(** [typed.rs]'s own copies of the date algorithms, over [i64]. *)
Definition days_from_civil (y0 m d : Z) : Z :=
  let y := if m <=? 2 then y0 - 1 else y0 in
  let era := Z.quot (if 0 <=? y then y else y - 399) 400 in
  let yoe := y - era * 400 in
  let mp := Z.rem (m + 9) 12 in
  let doy := Z.quot (153 * mp + 2) 5 + d - 1 in
  let doe := yoe * 365 + Z.quot yoe 4 - Z.quot yoe 100 + doy in
  era * 146097 + doe - 719468.

Definition civil_from_days (z0 : Z) : Z * Z * Z :=
  let z := z0 + 719468 in
  let era := Z.quot (if 0 <=? z then z else z - 146096) 146097 in
  let doe := z - era * 146097 in
  let yoe := Z.quot (doe - Z.quot doe 1460 + Z.quot doe 36524 - Z.quot doe 146096) 365 in
  let y := yoe + era * 400 in
  let doy := doe - (365 * yoe + Z.quot yoe 4 - Z.quot yoe 100) in
  let mp := Z.quot (5 * doy + 2) 153 in
  let d := doy - Z.quot (153 * mp + 2) 5 + 1 in
  let m := if mp <? 10 then mp + 3 else mp - 9 in
  (if m <=? 2 then y + 1 else y, m, d).

Definition days_in_month (y m : Z) : Z :=
  if (m =? 1) || (m =? 3) || (m =? 5) || (m =? 7) || (m =? 8) || (m =? 10) || (m =? 12) then 31
  else if (m =? 4) || (m =? 6) || (m =? 9) || (m =? 11) then 30
  else if ((Z.rem y 4 =? 0) && negb (Z.rem y 100 =? 0)) || (Z.rem y 400 =? 0) then 29
  else 28.
End TypedCivil.

(** ** The two copies of the date algorithms agree *)

Lemma typed_civil_from_days z :
  0 <= z + 719468 < 2 ^ 62 -> TypedCivil.civil_from_days z = Civil.civil_from_days z.
Proof.
  intros Hz. rewrite civil_from_days_of by done. unfold TypedCivil.civil_from_days, civil_of.
  destruct (era_split (z + 719468) ltac:(lia)) as (Hn & He & Hdoe & Hyoe & Hdoy).
  set (n := z + 719468) in *. set (doe := n mod 146097) in *.
  pose proof (year_len_range (year_of doe)).
  pose proof (year_num_mono 0 doe ltac:(lia)) as Hnum. change (year_num 0) with 0 in Hnum.
  pose proof (month_day_spec (doe - year_start (year_of doe)) ltac:(lia)) as Hmd.
  destruct (0 <=? n) eqn:E; zbool; [|lia].
  rewrite (Z.quot_div_nonneg n) by lia.
  replace (n - n / 146097 * 146097) with doe by lia.
  rewrite !(Z.quot_div_nonneg doe) by lia. unfold year_num in Hnum.
  rewrite (Z.quot_div_nonneg _ 365) by lia. fold (year_of doe).
  set (yoe := year_of doe) in *. rewrite !(Z.quot_div_nonneg yoe) by lia.
  replace (doe - (365 * yoe + yoe / 4 - yoe / 100)) with (doe - year_start yoe)
    by (unfold year_start; lia).
  set (doy := doe - year_start yoe) in *. unfold month_day in *.
  rewrite (Z.quot_div_nonneg _ 153) by lia.
  rewrite (Z.quot_div_nonneg _ 5) by dlia.
  case_goal; f_equal; f_equal; lia.
Qed.

Lemma typed_days_from_civil y m d :
  1 <= y <= 2 ^ 50 -> 1 <= m <= 12 -> 1 <= d <= 31 ->
  TypedCivil.days_from_civil y m d = Civil.days_from_civil y m d.
Proof.
  intros Hy Hm Hd. unfold TypedCivil.days_from_civil, Civil.days_from_civil.
  rewrite (wrap_i64_small (y - 1)) by (unfold i64_min, i64_max; lia).
  set (y' := if m <=? 2 then y - 1 else y).
  assert (0 <= y' <= 2 ^ 50) by (unfold y'; case_goal; zbool; lia).
  destruct (0 <=? y') eqn:E; zbool; [|lia].
  rewrite (Z.quot_div_nonneg y') by lia.
  assert (0 <= y' - y' / 400 * 400 < 400) by dlia.
  rewrite wrap64_small by (unfold u64_range, u64_max; lia).
  set (yoe := y' - y' / 400 * 400) in *.
  rewrite !(Z.quot_div_nonneg yoe) by lia.
  assert (Z.rem (m + 9) 12 = if 2 <? m then m - 3 else m + 9) as ->.
  { rewrite Z.rem_mod_nonneg by lia. case_goal; zbool; dlia. }
  set (mp := if 2 <? m then m - 3 else m + 9).
  assert (0 <= mp <= 11) by (unfold mp; case_goal; zbool; lia).
  rewrite (Z.quot_div_nonneg _ 5) by lia.
  assert (0 <= y' / 400 <= 2 ^ 44) by dlia.
  rewrite (wrap_i64_small (_ * 146097 + _)) by (unfold i64_min, i64_max; dlia).
  rewrite wrap_i64_small by (unfold i64_min, i64_max; dlia). lia.
Qed.

Lemma typed_days_in_month y m :
  1 <= m <= 12 -> 0 <= y -> TypedCivil.days_in_month y m = month_len (is_leap y) m.
Proof.
  intros Hm Hy. unfold TypedCivil.days_in_month, month_len, is_leap.
  rewrite !Z.rem_mod_nonneg by lia.
  generalize ((y mod 4 =? 0) && negb (y mod 100 =? 0) || (y mod 400 =? 0)). intros b.
  assert (m = 1 \/ m = 2 \/ m = 3 \/ m = 4 \/ m = 5 \/ m = 6 \/ m = 7 \/ m = 8 \/ m = 9 \/
          m = 10 \/ m = 11 \/ m = 12) as Hc by lia.
  by repeat destruct Hc as [->|Hc]; subst.
Qed.

Definition format_timestamp (nanos : Z) : string :=
  let secs := nanos / NANOS_PER_SEC in
  let frac := nanos mod NANOS_PER_SEC in
  let '(y, mo, d) := TypedCivil.civil_from_days (secs / 86400) in
  let sod := secs mod 86400 in
  let h := Z.quot sod 3600 in
  let mi := Z.quot (Z.rem sod 3600) 60 in
  let s := Z.rem sod 60 in
  let base := String.append (pad0_int 4 y) (String "-" (String.append (pad0_int 2 mo)
                (String "-" (String.append (pad0_int 2 d) (String "T" (String.append (pad0_int 2 h)
                (String ":" (String.append (pad0_int 2 mi) (String ":" (pad0_int 2 s)))))))))) in
  if frac =? 0 then String.append base "Z"
  else if Z.rem frac 1000000 =? 0 then
    String.append base (String "." (String.append (pad0_int 3 (Z.quot frac 1000000)) "Z"))
  else if Z.rem frac 1000 =? 0 then
    String.append base (String "." (String.append (pad0_int 6 (Z.quot frac 1000)) "Z"))
  else String.append base (String "." (String.append (pad0_int 9 frac) "Z")).

(** [b.get(lo..lo+len)] parsed as a number when it is all digits. *)
Definition num (s : string) (lo len : nat) : option Z :=
  let part := str_take len (str_drop lo s) in
  if str_all is_digit part then parse_int i64_min i64_max part else None.

Definition byte_at (s : string) (i : nat) : ascii :=
  match String.get i s with Some c => c | None => "000"%char end.
Definition is_at (s : string) (i : nat) (c : ascii) : bool := Ascii.eqb (byte_at s i) c.

(** [checked_mul(..)?.checked_add(..)] on [i64]. *)
Definition checked_i64 (z : Z) : option Z :=
  if (i64_min <=? z) && (z <=? i64_max) then Some z else None.

(** The fewest digits (of 0, 3, 6 and 9) that write the fraction exactly. *)
Definition minimal_digits (frac : Z) : nat :=
  if frac =? 0 then 0%nat
  else if Z.rem frac 1000000 =? 0 then 3%nat
  else if Z.rem frac 1000 =? 0 then 6%nat
  else 9%nat.

Definition parse_canonical_timestamp (s : string) : option Z :=
  let n := String.length s in
  if negb ((20 <=? Z.of_nat n) && (Z.of_nat n <=? 30)) || negb (is_at s (n - 1) "Z") then None
  else if negb (is_at s 4 "-") || negb (is_at s 7 "-") || negb (is_at s 10 "T")
          || negb (is_at s 13 ":") || negb (is_at s 16 ":") then None
  else
    y ← num s 0 4; mo ← num s 5 2; d ← num s 8 2;
    h ← num s 11 2; mi ← num s 14 2; sec ← num s 17 2;
    if negb ((1678 <=? y) && (y <=? 2261)) || negb ((1 <=? mo) && (mo <=? 12)) || (d <? 1)
       || (TypedCivil.days_in_month y mo <? d) then None
    else if (23 <? h) || (59 <? mi) || (59 <? sec) then None
    else
      frac ← (if Nat.eqb n 20 then Some 0
              else if (Nat.eqb n 24 || Nat.eqb n 27 || Nat.eqb n 30) && is_at s 19 "." then
                let digits := (n - 21)%nat in
                v ← num s 20 digits; Some (v * 10 ^ (9 - Z.of_nat digits))
              else None);
      if negb (Nat.eqb n (20 + (if Nat.eqb (minimal_digits frac) 0 then 0 else minimal_digits frac + 1)))
      then None
      else
        let secs := TypedCivil.days_from_civil y mo d * 86400 + h * 3600 + mi * 60 + sec in
        ns ← checked_i64 (secs * NANOS_PER_SEC);
        checked_i64 (ns + frac).

Example ts_1 : parse_canonical_timestamp "2026-08-04T14:03:05.250Z" = Some 1785852185250000000.
Proof. vm_compute. reflexivity. Qed.
Example ts_2 : format_timestamp 1785852185250000000 = "2026-08-04T14:03:05.250Z".
Proof. vm_compute. reflexivity. Qed.
Example ts_3 : parse_canonical_timestamp "2026-08-04T14:03:05.250000Z" = None.
Proof. vm_compute. reflexivity. Qed.
Example ts_4 : format_timestamp (-1) = "1969-12-31T23:59:59.999999999Z".
Proof. vm_compute. reflexivity. Qed.

(** ** Slices and fields *)

Ltac expose s H :=
  repeat (let c := fresh "c" in destruct s as [|c s]; [simpl in H; lia|]);
  destruct s; [|simpl in H; lia].

(** A field: all digits, parsed. *)
Definition field (part : string) : option Z :=
  if str_all is_digit part then parse_int i64_min i64_max part else None.

Lemma field_pad0 w n : 0 <= n <= i64_max -> field (pad0 w n) = Some n.
Proof.
  intros. unfold field. rewrite pad0_digits by lia. apply parse_int_pad0; unfold i64_min; lia.
Qed.

Lemma field_inv part v :
  field part = Some v ->
  part = pad0 (String.length part) v /\ 0 <= v < 10 ^ Z.of_nat (String.length part).
Proof.
  unfold field. destruct (str_all is_digit part) eqn:E; [|done].
  rewrite parse_int_digits by done. intros H.
  destruct (parse_digits part) as [v'|] eqn:Ep; [|done]. simpl in H.
  case_hyp H; [|done]. simplify_eq. split; [by rewrite (pad0_parse part v)|].
  unfold parse_digits in Ep. case_hyp Ep; [done|].
  apply parse_from_split in Ep as (_ & r & -> & ? & _). lia.
Qed.

Lemma num_field s lo len : num s lo len = field (str_take len (str_drop lo s)).
Proof. done. Qed.

Definition clock_text (sy smo sd sh smi ss tail : string) : string :=
  String.append sy (String "-" (String.append smo (String "-" (String.append sd (String "T"
    (String.append sh (String ":" (String.append smi (String ":" (String.append ss tail)))))))))).

(** The part of the parser after the fields are read. *)
Definition finish_ts (y mo d h mi sec frac : Z) (n : nat) : option Z :=
  if negb ((1678 <=? y) && (y <=? 2261)) || negb ((1 <=? mo) && (mo <=? 12)) || (d <? 1)
     || (TypedCivil.days_in_month y mo <? d) then None
  else if (23 <? h) || (59 <? mi) || (59 <? sec) then None
  else
    if negb (Nat.eqb n (20 + (if Nat.eqb (minimal_digits frac) 0 then 0 else minimal_digits frac + 1)))
    then None
    else
      let secs := TypedCivil.days_from_civil y mo d * 86400 + h * 3600 + mi * 60 + sec in
      ns ← checked_i64 (secs * NANOS_PER_SEC);
      checked_i64 (ns + frac).

Lemma str_take_app a b : str_take (String.length a) (String.append a b) = a.
Proof. induction a as [|c a IH]; simpl; [by destruct b|by rewrite IH]. Qed.

Lemma parse_clock_text sy smo sd sh smi ss k sf y mo d h mi sec frac :
  String.length sy = 4%nat -> String.length smo = 2%nat -> String.length sd = 2%nat ->
  String.length sh = 2%nat -> String.length smi = 2%nat -> String.length ss = 2%nat ->
  field sy = Some y -> field smo = Some mo -> field sd = Some d ->
  field sh = Some h -> field smi = Some mi -> field ss = Some sec ->
  (k = 0%nat /\ sf = "" /\ frac = 0 \/
   (k = 3%nat \/ k = 6%nat \/ k = 9%nat) /\ exists f v, sf = String "." f /\ String.length f = k /\
     field f = Some v /\ frac = v * 10 ^ (9 - Z.of_nat k)) ->
  parse_canonical_timestamp (clock_text sy smo sd sh smi ss (String.append sf "Z"))
  = finish_ts y mo d h mi sec frac (20 + (if Nat.eqb k 0 then 0 else k + 1)).
Proof.
  intros Ly Lmo Ld Lh Lmi Ls Fy Fmo Fd Fh Fmi Fs Hf.
  unfold parse_canonical_timestamp.
  assert (String.length (clock_text sy smo sd sh smi ss (String.append sf "Z"))
          = (20 + (if Nat.eqb k 0 then 0 else k + 1))%nat) as Hlen.
  { unfold clock_text. repeat (simpl; rewrite ?length_str_app). 
    rewrite Ly, Lmo, Ld, Lh, Lmi, Ls.
    destruct Hf as [(-> & -> & _)|(Hk & f & v & -> & Hlf & _)]; simpl; [done|].
    destruct Hk as [->|[-> | ->]]; rewrite Hlf; done. }
  rewrite Hlen. clear Hlen. rewrite !num_field.
  expose sy Ly. expose smo Lmo. expose sd Ld. expose sh Lh. expose smi Lmi. expose ss Ls.
  unfold clock_text. cbn [String.append str_take str_drop].
  rewrite Fy, Fmo, Fd, Fh, Fmi, Fs. unfold finish_ts.
  destruct Hf as [(-> & -> & ->)|(Hk & f & v & -> & Hlf & Ff & ->)].
  - simpl. repeat case_goal; try done.
  - destruct Hk as [->|[-> | ->]]; expose f Hlf; cbn [String.append str_take str_drop Nat.sub Nat.add Nat.eqb];
      rewrite Ff; simpl; repeat case_goal; done.
Qed.

(** ** Round trips *)

(** First and last nanosecond of the years the parser covers. *)
Definition ts_min : Z := TypedCivil.days_from_civil 1678 1 1 * 86400 * NANOS_PER_SEC.
Definition ts_max : Z := TypedCivil.days_from_civil 2262 1 1 * 86400 * NANOS_PER_SEC - 1.

Definition frac_text (frac : Z) : string :=
  if frac =? 0 then ""
  else if Z.rem frac 1000000 =? 0 then String "." (pad0_int 3 (Z.quot frac 1000000))
  else if Z.rem frac 1000 =? 0 then String "." (pad0_int 6 (Z.quot frac 1000))
  else String "." (pad0_int 9 frac).

Lemma format_timestamp_text nanos y mo d h mi s frac :
  TypedCivil.civil_from_days (nanos / NANOS_PER_SEC / 86400) = (y, mo, d) ->
  nanos mod NANOS_PER_SEC = frac ->
  nanos / NANOS_PER_SEC mod 86400 = h * 3600 + mi * 60 + s ->
  0 <= h -> 0 <= mi < 60 -> 0 <= s < 60 ->
  format_timestamp nanos =
  clock_text (pad0_int 4 y) (pad0_int 2 mo) (pad0_int 2 d) (pad0_int 2 h) (pad0_int 2 mi)
    (pad0_int 2 s) (String.append (frac_text frac) "Z").
Proof.
  intros Hc Hf Hs Hh Hmi Hss. unfold format_timestamp. rewrite Hc, Hf, Hs.
  assert (Z.quot (h * 3600 + mi * 60 + s) 3600 = h) as -> by dlia.
  assert (Z.quot (Z.rem (h * 3600 + mi * 60 + s) 3600) 60 = mi) as -> by dlia.
  assert (Z.rem (h * 3600 + mi * 60 + s) 60 = s) as -> by dlia.
  unfold frac_text, clock_text.
  repeat case_goal; by repeat (simpl; rewrite ?str_app_assoc).
Qed.

(** The fraction the printer chooses is the minimal one the parser asks for. *)
Lemma frac_text_cases frac :
  0 <= frac < NANOS_PER_SEC ->
  exists k : nat,
    (k = 0%nat /\ frac_text frac = "" /\ frac = 0 \/
     (k = 3%nat \/ k = 6%nat \/ k = 9%nat) /\
     exists f v, frac_text frac = String "." f /\ String.length f = k /\
       field f = Some v /\ frac = v * 10 ^ (9 - Z.of_nat k)) /\
    minimal_digits frac = k.
Proof.
  unfold NANOS_PER_SEC, frac_text, minimal_digits. intros Hf.
  destruct (frac =? 0) eqn:E0; zbool; [exists 0%nat; split; [by left|done]|].
  assert (forall w q p, 0 <= q < 10 ^ Z.of_nat w -> (0 < w <= 9)%nat -> frac = q * p ->
     p = 10 ^ (9 - Z.of_nat w) ->
     exists f v, String "." (pad0_int w q) = String "." f /\ String.length f = w /\
       field f = Some v /\ frac = v * 10 ^ (9 - Z.of_nat w)) as Hw.
  { intros w q p Hq Hw -> ->. exists (pad0 w q), q. rewrite pad0_int_pos by lia.
    split_and!; [done|by apply length_pad0; lia| |done].
    apply field_pad0. unfold i64_max. assert (10 ^ Z.of_nat w <= 10 ^ 9) by (apply Z.pow_le_mono_r; lia). lia. }
  destruct (Z.rem frac 1000000 =? 0) eqn:E1; zbool.
  { exists 3%nat. split; [right|done]. split; [by left|]. apply (Hw _ _ 1000000); [simpl; dlia|lia|dlia|done]. }
  destruct (Z.rem frac 1000 =? 0) eqn:E2; zbool.
  { exists 6%nat. split; [right|done]. split; [by right; left|]. apply (Hw _ _ 1000); [simpl; dlia|lia|dlia|done]. }
  exists 9%nat. split; [right|done]. split; [by right; right|]. apply (Hw _ _ 1); [simpl; dlia|lia|dlia|done].
Qed.

Lemma checked_i64_ok z : i64_min <= z <= i64_max -> checked_i64 z = Some z.
Proof.
  intros. unfold checked_i64.
  destruct (i64_min <=? z) eqn:?, (z <=? i64_max) eqn:?; zbool; try lia. done.
Qed.

Lemma finish_ts_ok y mo d h mi s frac k n :
  1678 <= y <= 2261 -> 1 <= mo <= 12 -> 1 <= d <= month_len (is_leap y) mo ->
  0 <= h <= 23 -> 0 <= mi <= 59 -> 0 <= s <= 59 -> minimal_digits frac = k ->
  n = ((Civil.days_from_civil y mo d * 86400 + h * 3600 + mi * 60 + s) * NANOS_PER_SEC + frac) ->
  0 <= frac -> i64_min <= n - frac -> n <= i64_max ->
  finish_ts y mo d h mi s frac (20 + (if Nat.eqb k 0 then 0 else k + 1)) = Some n.
Proof.
  intros Hy Hm Hd Hh Hmi Hs Hmin Hn Hf Hlo Hhi. unfold finish_ts.
  pose proof (month_len_range (is_leap y) mo).
  rewrite typed_days_in_month by lia. rewrite typed_days_from_civil by lia.
  rewrite Hmin, Nat.eqb_refl.
  repeat match goal with |- context [?a <=? ?b] => destruct (a <=? b) eqn:?; zbool; try lia end.
  repeat match goal with |- context [?a <? ?b] => destruct (a <? b) eqn:?; zbool; try lia end.
  cbn [negb orb andb]. rewrite checked_i64_ok by lia. rewrite bind_some.
  rewrite <- Hn. apply checked_i64_ok. lia.
Qed.

(** A nanosecond count is a day, a time of day and a fraction. *)
Lemma split_nanos n :
  exists day h mi s frac,
    n = ((day * 86400 + h * 3600 + mi * 60 + s) * NANOS_PER_SEC + frac) /\
    0 <= h <= 23 /\ 0 <= mi <= 59 /\ 0 <= s <= 59 /\ 0 <= frac < NANOS_PER_SEC.
Proof.
  set (sod := n / NANOS_PER_SEC mod 86400).
  exists (n / NANOS_PER_SEC / 86400), (sod / 3600), (sod mod 3600 / 60), (sod mod 60), (n mod NANOS_PER_SEC).
  unfold sod, NANOS_PER_SEC. split_and!; dlia.
Qed.

Lemma join_nanos day h mi s frac :
  0 <= h <= 23 -> 0 <= mi <= 59 -> 0 <= s <= 59 -> 0 <= frac < NANOS_PER_SEC ->
  let n := (day * 86400 + h * 3600 + mi * 60 + s) * NANOS_PER_SEC + frac in
  n / NANOS_PER_SEC / 86400 = day /\ n mod NANOS_PER_SEC = frac /\
  n / NANOS_PER_SEC mod 86400 = h * 3600 + mi * 60 + s.
Proof. unfold NANOS_PER_SEC. intros. cbv zeta. split_and!; dlia. Qed.

Lemma ts_bounds :
  ts_min = Civil.days_from_civil 1678 1 1 * 86400 * NANOS_PER_SEC /\
  ts_max = Civil.days_from_civil (2261 + 1) 1 1 * 86400 * NANOS_PER_SEC - 1 /\
  i64_min <= ts_min /\ ts_max <= i64_max /\
  -719468 <= Civil.days_from_civil 1678 1 1 /\ Civil.days_from_civil (2261 + 1) 1 1 < 2 ^ 49 /\
  366 - 719468 <= Civil.days_from_civil 1678 1 1.
Proof. vm_compute. intuition discriminate. Qed.

(** The calendar date of a day in the covered years. *)
Lemma covered_day day :
  Civil.days_from_civil 1678 1 1 <= day < Civil.days_from_civil (2261 + 1) 1 1 ->
  exists y mo d, TypedCivil.civil_from_days day = (y, mo, d) /\ valid_date y mo d /\
    1678 <= y <= 2261 /\ Civil.days_from_civil y mo d = day.
Proof.
  intros Hdr. destruct ts_bounds as (_ & _ & _ & _ & Hb1 & Hb2 & Hb3).
  rewrite typed_civil_from_days by lia.
  pose proof (days_from_civil_from_days day ltac:(lia)) as Hc.
  destruct (Civil.civil_from_days day) as [[y mo] d]. destruct Hc as (Hv & Hy & Hy1 & Hdays).
  exists y, mo, d.
  assert (1678 <= y <= 2261) by (apply (civil_year_bounds y mo d 1678 2261); [exact Hv|lia..]).
  split; [reflexivity|]. split; [exact Hv|]. split; assumption.
Qed.

(** [parse_canonical_timestamp] reads back what [format_timestamp] wrote. *)
Lemma parse_format_timestamp n :
  ts_min <= n <= ts_max -> parse_canonical_timestamp (format_timestamp n) = Some n.
Proof.
  intros Hn. destruct (split_nanos n) as (day & h & mi & s & frac & Hsplit & Hh & Hmi & Hs & Hf).
  destruct (join_nanos day h mi s frac Hh Hmi Hs Hf) as (Hday & Hfr & Hsod).
  rewrite <- Hsplit in *.
  destruct ts_bounds as (Hlo & Hhi & Hi1 & Hi2 & _).
  destruct (covered_day day) as (y & mo & d & Hc & [Hm Hd] & Hy & Hdays).
  { rewrite Hlo, Hhi in Hn. unfold NANOS_PER_SEC in *. lia. }
  pose proof (month_len_range (is_leap y) mo).
  rewrite (format_timestamp_text n y mo d h mi s frac); [| |done|done|lia|lia|lia]; [|by rewrite Hday].
  destruct (frac_text_cases frac Hf) as (k & Hk & Hmin).
  rewrite !pad0_int_pos by lia.
  rewrite (parse_clock_text _ _ _ _ _ _ k _ y mo d h mi s frac);
    try (apply length_pad0; [simpl; lia|lia]); try (apply field_pad0; unfold i64_max; lia); [|exact Hk].
  apply finish_ts_ok; rewrite ?Hdays; try assumption; try lia.
  all: rewrite ?Hlo in *; unfold NANOS_PER_SEC in *; lia.
Qed.

(** ** The other direction: only canonical text is accepted *)

Lemma str_slice lo len s :
  (lo + len < String.length s)%nat ->
  str_drop lo s = String.append (str_take len (str_drop lo s))
                    (String (byte_at s (lo + len)) (str_drop (lo + len + 1) s)).
Proof.
  revert lo. induction s as [|c s IH]; intros lo Hl; [simpl in Hl; lia|].
  destruct lo as [|lo].
  - simpl in Hl. destruct len as [|len]; [by destruct s|].
    specialize (IH 0%nat). simpl in *.
    destruct s as [|c' s]; [simpl in Hl; lia|]. 
    assert (forall l t, (l < String.length t)%nat ->
      t = String.append (str_take l t) (String (byte_at t l) (str_drop (l + 1) t))) as H.
    { clear. induction l as [|l IHl]; intros [|a t] Ht; simpl in *; try lia; [by destruct t|].
      f_equal. apply IHl. lia. }
    f_equal. apply (H len). simpl in *. lia.
  - simpl in Hl. simpl. apply (IH lo). lia.
Qed.

Lemma is_at_eq s i c : is_at s i c = true -> byte_at s i = c.
Proof. unfold is_at. apply Ascii.eqb_eq. Qed.

(** Text with the separators in place is the text of its fields. *)
Lemma clock_text_of s :
  (20 <= String.length s)%nat ->
  is_at s 4 "-" = true -> is_at s 7 "-" = true -> is_at s 10 "T" = true ->
  is_at s 13 ":" = true -> is_at s 16 ":" = true ->
  s = clock_text (str_take 4 (str_drop 0 s)) (str_take 2 (str_drop 5 s)) (str_take 2 (str_drop 8 s))
        (str_take 2 (str_drop 11 s)) (str_take 2 (str_drop 14 s)) (str_take 2 (str_drop 17 s))
        (str_drop 19 s).
Proof.
  intros Hl H4 H7 H10 H13 H16. unfold clock_text.
  pose proof (str_slice 0 4 s ltac:(lia)) as E0. pose proof (str_slice 5 2 s ltac:(lia)) as E1.
  pose proof (str_slice 8 2 s ltac:(lia)) as E2. pose proof (str_slice 11 2 s ltac:(lia)) as E3.
  pose proof (str_slice 14 2 s ltac:(lia)) as E4.
  simpl Nat.add in *.
  rewrite (is_at_eq _ _ _ H4) in E0. rewrite (is_at_eq _ _ _ H7) in E1.
  rewrite (is_at_eq _ _ _ H10) in E2. rewrite (is_at_eq _ _ _ H13) in E3.
  rewrite (is_at_eq _ _ _ H16) in E4.
  assert (str_drop 17 s = String.append (str_take 2 (str_drop 17 s)) (str_drop 19 s)) as E5.
  { rewrite (str_slice 17 2 s) at 1 by lia. f_equal.
    assert (forall k t, (k < String.length t)%nat -> str_drop k t = String (byte_at t k) (str_drop (k + 1) t)) as H.
    { clear. induction k as [|k IH]; intros [|a t] Ht; simpl in *; try lia; [by destruct t|]. apply IH. lia. }
    symmetry. apply (H 19%nat). lia. }
  rewrite <- E5, <- E4, <- E3, <- E2, <- E1. exact E0.
Qed.

Lemma frac_text_of frac k v f :
  (k = 3%nat \/ k = 6%nat \/ k = 9%nat) -> String.length f = k -> field f = Some v ->
  frac = v * 10 ^ (9 - Z.of_nat k) -> minimal_digits frac = k -> frac_text frac = String "." f.
Proof.
  intros Hk Hl Hf -> Hmin. apply field_inv in Hf as [Hf Hv]. rewrite Hl in Hf.
  unfold minimal_digits, frac_text in *.
  destruct Hk as [-> | [-> | ->]]; repeat case_hyp Hmin; try discriminate Hmin; f_equal.
  all: rewrite pad0_int_pos by (simpl; dlia).
  all: rewrite Hf; f_equal; simpl; dlia.
Qed.

(** What a successful parse has read. *)
Lemma parse_canonical_inv s n :
  parse_canonical_timestamp s = Some n ->
  exists k y mo d h mi sec frac,
    (20 <= String.length s)%nat /\
    is_at s 4 "-" = true /\ is_at s 7 "-" = true /\ is_at s 10 "T" = true /\
    is_at s 13 ":" = true /\ is_at s 16 ":" = true /\
    field (str_take 4 (str_drop 0 s)) = Some y /\ field (str_take 2 (str_drop 5 s)) = Some mo /\
    field (str_take 2 (str_drop 8 s)) = Some d /\ field (str_take 2 (str_drop 11 s)) = Some h /\
    field (str_take 2 (str_drop 14 s)) = Some mi /\ field (str_take 2 (str_drop 17 s)) = Some sec /\
    String.length s = (20 + (if Nat.eqb k 0 then 0 else k + 1))%nat /\ minimal_digits frac = k /\
    is_at s (String.length s - 1) "Z" = true /\
    (k = 0%nat /\ frac = 0 \/
     (k = 3%nat \/ k = 6%nat \/ k = 9%nat) /\ is_at s 19 "." = true /\
     exists v, field (str_take k (str_drop 20 s)) = Some v /\ frac = v * 10 ^ (9 - Z.of_nat k)) /\
    1678 <= y <= 2261 /\ 1 <= mo <= 12 /\ 1 <= d <= TypedCivil.days_in_month y mo /\
    h <= 23 /\ mi <= 59 /\ sec <= 59 /\
    n = (TypedCivil.days_from_civil y mo d * 86400 + h * 3600 + mi * 60 + sec) * NANOS_PER_SEC + frac.
Proof.
  unfold parse_canonical_timestamp. rewrite !num_field. intros H.
  destruct (negb _ || negb (is_at s (String.length s - 1) "Z")) eqn:E1 in H; [done|].
  destruct (negb (is_at s 4 "-") || _ || _ || _ || _) eqn:E2 in H; [done|]. zbool.
  bind_inv H y Fy. bind_inv H mo Fmo. bind_inv H d Fd.
  bind_inv H h Fh. bind_inv H mi Fmi. bind_inv H sec Fs.
  destruct (_ || _ || (d <? 1) || _) eqn:E3 in H; [done|].
  destruct ((23 <? h) || _ || _) eqn:E4 in H; [done|]. zbool.
  bind_inv H frac Ff. case_hyp H; [done|]. zbool.
  match goal with H : Nat.eqb _ _ = true |- _ => apply Nat.eqb_eq in H; rename H into Hlen end.
  bind_inv H ns Hns. unfold checked_i64 in Hns, H. repeat case_hyp H; try done.
  repeat case_hyp Hns; try done. injection Hns as <-. injection H as <-.
  exists (minimal_digits frac), y, mo, d, h, mi, sec, frac.
  split; [lia|]. do 5 (split; [assumption|]). do 6 (split; [reflexivity|]).
  split; [exact Hlen|]. split; [done|]. split; [assumption|].
  split; [|split_and!; try lia; done].
  rewrite Hlen in Ff. clear -Ff.
  unfold minimal_digits in Ff |- *. revert Ff.
  destruct (frac =? 0) eqn:E0; [intros _; left; zbool; done|].
  destruct (Z.rem frac 1000000 =? 0); [|destruct (Z.rem frac 1000 =? 0)]; simpl; intros Ff; right;
    (case_hyp Ff; [|done]);
    bind_inv Ff v Fv; injection Ff as <-; split_and!; eauto.
Qed.

Lemma str_drop_last s : (0 < String.length s)%nat ->
  str_drop (String.length s - 1) s = String (byte_at s (String.length s - 1)) "".
Proof.
  induction s as [|c s IH]; intros H; [simpl in H; lia|]. simpl. rewrite Nat.sub_0_r.
  destruct s as [|c' s]; [done|]. simpl in *. rewrite Nat.sub_0_r in *. apply IH. lia.
Qed.

Lemma frac_tail s k frac :
  String.length s = (20 + (if Nat.eqb k 0 then 0 else k + 1))%nat -> minimal_digits frac = k ->
  is_at s (String.length s - 1) "Z" = true ->
  (k = 0%nat /\ frac = 0 \/
   (k = 3%nat \/ k = 6%nat \/ k = 9%nat) /\ is_at s 19 "." = true /\
   exists v, field (str_take k (str_drop 20 s)) = Some v /\ frac = v * 10 ^ (9 - Z.of_nat k)) ->
  0 <= frac < NANOS_PER_SEC /\ str_drop 19 s = String.append (frac_text frac) "Z".
Proof.
  intros Hlen Hmin HZ Hf.
  pose proof (str_drop_last s ltac:(lia)) as Hlast. rewrite (is_at_eq _ _ _ HZ) in Hlast.
  destruct Hf as [[-> ->]|(Hk & Hdot & v & Hv & ->)].
  - rewrite Hlen in Hlast. split; [done|exact Hlast].
  - assert (Nat.eqb k 0 = false) as Hk0 by (by destruct Hk as [-> | [-> | ->]]).
    rewrite Hk0 in Hlen.
    pose proof (field_inv _ _ Hv) as [_ Hvr].
    rewrite length_str_take in Hvr by (rewrite length_str_drop; lia).
    rewrite (frac_text_of _ k v (str_take k (str_drop 20 s)) Hk); try done.
    2:{ apply length_str_take. rewrite length_str_drop. lia. }
    split; [unfold NANOS_PER_SEC; destruct Hk as [-> | [-> | ->]]; simpl in *; lia|].
    set (f := str_take k (str_drop 20 s)).
    rewrite (str_slice 19 0 s) by lia. simpl Nat.add. rewrite (is_at_eq _ _ _ Hdot).
    rewrite (str_slice 20 k s) by lia. fold f.
    replace (20 + k)%nat with (String.length s - 1)%nat by lia.
    rewrite (is_at_eq _ _ _ HZ).
    replace (str_drop (String.length s - 1 + 1) s) with "".
    2:{ symmetry. assert (forall t, str_drop (String.length t) t = "") as H by (by induction t).
        rewrite Nat.sub_add by lia. apply H. }
    replace (str_take 0 (str_drop 19 s)) with "" by (by destruct (str_drop 19 s)).
    reflexivity.
Qed.

(** Only canonical text is accepted: what is parsed prints as it was. *)
Lemma format_parse_timestamp s n :
  parse_canonical_timestamp s = Some n -> format_timestamp n = s.
Proof.
  intros (k & y & mo & d & h & mi & sec & frac & Hl & A4 & A7 & A10 & A13 & A16 & Fy & Fmo & Fd & Fh
    & Fmi & Fs & Hlen & Hmin & HZ & Hfrac & Hy & Hmo & Hd & Hh & Hmi & Hs & Hn)%parse_canonical_inv.
  rewrite (clock_text_of s) by assumption.
  rewrite typed_days_in_month in Hd by lia. pose proof (month_len_range (is_leap y) mo).
  rewrite typed_days_from_civil in Hn by lia.
  apply field_inv in Fy as [Ey Py]. apply field_inv in Fmo as [Emo Pmo]. apply field_inv in Fd as [Ed Pd].
  apply field_inv in Fh as [Eh Ph]. apply field_inv in Fmi as [Emi Pmi]. apply field_inv in Fs as [Es Ps].
  rewrite length_str_take in Ey, Emo, Ed, Eh, Emi, Es by (rewrite length_str_drop; lia).
  assert (0 <= frac < NANOS_PER_SEC /\ str_drop 19 s = String.append (frac_text frac) "Z") as [Hf Htail].
  { by apply (frac_tail s k). }
  destruct (join_nanos (Civil.days_from_civil y mo d) h mi sec frac) as (Hday & Hfr & Hsod); try lia.
  rewrite <- Hn in *.
  assert (-719468 <= Civil.days_from_civil y mo d < 2 ^ 40) as Hdb.
  { rewrite days_from_civil_closed by lia. unfold days_before, day_of. repeat case_goal; zbool; dlia. }
  rewrite (format_timestamp_text n y mo d h mi sec frac); try assumption; try lia.
  2:{ rewrite Hday, typed_civil_from_days.
      - apply civil_from_days_from_civil; [split; lia|lia|]. lia.
      - lia. }
  rewrite !pad0_int_pos by lia. rewrite <- Ey, <- Emo, <- Ed, <- Eh, <- Emi, <- Es, <- Htail. reflexivity.
Qed.

(** The timestamp codec is exact in both directions: of all texts,
    [parse_canonical_timestamp] accepts as the instant [n] exactly the one that
    [format_timestamp] writes for it. *)
Theorem timestamp_codec s n : ts_min <= n <= ts_max ->
  parse_canonical_timestamp s = Some n <-> s = format_timestamp n.
Proof.
  intros Hn. split; [intros H; symmetry; by apply format_parse_timestamp|intros ->; by apply parse_format_timestamp].
Qed.

Lemma timestamp_codec_witness :
  parse_canonical_timestamp "2024-02-29T12:30:45.5Z" = Some 1709209845500000000 <->
  "2024-02-29T12:30:45.5Z" = format_timestamp 1709209845500000000.
Proof. apply (timestamp_codec "2024-02-29T12:30:45.5Z" 1709209845500000000). vm_compute. split; discriminate. Defined.
