(* ===== verification/Typed.v ===== *)
(** Typed attribute columns ([crates/logless-core/src/typed.rs], first half):
    which attribute keys are promoted to columns, under which budgets, and
    which values a column accepts. *)

From S2P Require Import Prelude Text Float Model Lists Timestamp.
From Stdlib Require Import SpecFloat Permutation.
Open Scope string_scope.
Open Scope Z_scope.

Definition COLUMN_PREFIX : string := "attr_".
Definition MAX_KEY_BYTES : Z := 64.
Definition F64_EXACT_INT : Z := 2 ^ 53.

Inductive ColumnType := CInt64 | CFloat64 | CBool | CString | CTimestamp.

#[export] Instance ColumnType_eq_dec : EqDecision ColumnType.
Proof. solve_decision. Defined.

Definition column_type_str (t : ColumnType) : string :=
  match t with
  | CInt64 => "int64" | CFloat64 => "float64" | CBool => "bool"
  | CString => "string" | CTimestamp => "timestamp"
  end.

Definition column_type_parse (text : string) : option ColumnType :=
  if String.eqb text "int64" then Some CInt64
  else if String.eqb text "float64" then Some CFloat64
  else if String.eqb text "bool" then Some CBool
  else if String.eqb text "string" then Some CString
  else if String.eqb text "timestamp" then Some CTimestamp
  else None.

Record TypedColumn := mkColumn {
  column : string;
  key : string;
  ty : ColumnType;
  col_service : string;
  promoted_at : Z
}.

#[export] Instance TypedColumn_eq_dec : EqDecision TypedColumn.
Proof. solve_decision. Defined.

(** ** The layout: the registered columns, sorted by name, indexed by key *)

Record TypedLayout := mkLayout {
  columns : list TypedColumn;
  by_key : gmap string nat
}.

Definition str_le (a b : string) : bool := String.leb a b.

(** [collect] of [(key, index)] pairs: a later pair wins. *)
Definition index_keys (cols : list TypedColumn) : gmap string nat :=
  foldl (fun m '(i, c) => <[key c := i]> m) ∅ (imap (fun i c => (i, c)) cols).

Definition layout_new (cols : list TypedColumn) : TypedLayout :=
  let sorted := stable_sort (fun a b => str_le (column a) (column b)) cols in
  let cs := dedup (fun a b => String.eqb (column b) (column a)) sorted in
  mkLayout cs (index_keys cs).

Definition layout_len (l : TypedLayout) : Z := Z.of_nat (List.length (columns l)).
Definition index_of (l : TypedLayout) (k : string) : option nat := by_key l !! k.
Definition has_column (l : TypedLayout) (c : string) : bool :=
  existsb (fun x => String.eqb (column x) c) (columns l).
Definition charged_to (l : TypedLayout) (svc : string) : Z :=
  Z.of_nat (List.length (List.filter (fun c => String.eqb (col_service c) svc) (columns l))).
Definition layout_extend (l : TypedLayout) (new : list TypedColumn) : TypedLayout :=
  layout_new (columns l ++ new).

(** ** Thresholds and names *)

Record TypedColumnsConfig := mkTypedConfig {
  max_per_service : Z;
  max_columns : Z;
  min_rows : Z;
  min_presence : f64;
  min_type_share : f64;
  max_string_bytes : Z
}.

Definition typed_config_default : TypedColumnsConfig :=
  mkTypedConfig 16 128 200 (f64_dec 5 1) (f64_dec 95 2) 256.

Definition sanitise (b : ascii) : ascii :=
  let c := to_lower b in
  if is_lower c || is_digit c || Ascii.eqb c "_" then c else "_"%char.

Definition column_name (k : string) : option string :=
  if String.eqb k "" || (MAX_KEY_BYTES <? str_len k) || negb (str_any is_alnum k) then None
  else Some (String.append COLUMN_PREFIX (str_map sanitise k)).

(** ** Conformance *)

Inductive Cell :=
| CellInt (z : Z) | CellFloat (f : f64) | CellBool (b : bool)
| CellStr (s : string) | CellTimestamp (n : Z).

Definition conform (v : AttrValue) (t : ColumnType) : option Cell :=
  match t, v with
  | CInt64, AI64 z => Some (CellInt z)
  | CFloat64, AF64 f => Some (CellFloat f)
  | CFloat64, AI64 z => if Z.abs z <=? F64_EXACT_INT then Some (CellFloat (f64_of_Z z)) else None
  | CBool, ABool b => Some (CellBool b)
  | CString, AStr s => Some (CellStr s)
  | CTimestamp, AStr s => CellTimestamp <$> parse_canonical_timestamp s
  | _, _ => None
  end.

(** ** Statistics *)

Record KeyStats := mkKeyStats {
  present : Z; ints : Z; floats : Z; bools : Z; timestamps : Z; strings : Z; string_bytes : Z
}.
Definition key_stats0 : KeyStats := mkKeyStats 0 0 0 0 0 0 0.

Definition observe_value (k : KeyStats) (v : AttrValue) : KeyStats :=
  let p := present k + 1 in
  match v with
  | AI64 _ => mkKeyStats p (ints k + 1) (floats k) (bools k) (timestamps k) (strings k) (string_bytes k)
  | AF64 _ => mkKeyStats p (ints k) (floats k + 1) (bools k) (timestamps k) (strings k) (string_bytes k)
  | ABool _ => mkKeyStats p (ints k) (floats k) (bools k + 1) (timestamps k) (strings k) (string_bytes k)
  | AStr s =>
      mkKeyStats p (ints k) (floats k) (bools k)
        (if parse_canonical_timestamp s is Some _ then timestamps k + 1 else timestamps k)
        (strings k + 1) (string_bytes k + str_len s)
  end.

Definition stable_type (k : KeyStats) (share : f64) (max_bytes : Z) : option ColumnType :=
  let n := f64_of_Z (present k) in
  let enough count := f64_ge (f64_of_Z count) (f64_mul share n) in
  if (0 <? floats k) && enough (ints k + floats k) then Some CFloat64
  else if enough (ints k) then Some CInt64
  else if enough (bools k) then Some CBool
  else if enough (timestamps k) then Some CTimestamp
  else if enough (strings k) && (string_bytes k <=? wmul64 max_bytes (strings k)) then Some CString
  else None.

(** ** The promotion pass *)

Record ServiceStats := mkServiceStats {
  rows : Z; sampled : Z; keys : gmap string KeyStats
}.
Definition service_stats0 : ServiceStats := mkServiceStats 0 0 ∅.

Definition SAMPLE_ROWS : Z := 32 * 1024.

(** The attributes of one record: registered keys and repeats are skipped. *)
Fixpoint observe_attrs (l : TypedLayout) (seen : list string) (attrs : list Attr)
    (ks : gmap string KeyStats) : gmap string KeyStats :=
  match attrs with
  | [] => ks
  | a :: rest =>
      let ks' :=
        match index_of l (attr_key a) with
        | Some _ => ks
        | None =>
            if existsb (String.eqb (attr_key a)) seen then ks
            else <[attr_key a := observe_value (default key_stats0 (ks !! attr_key a)) (attr_value a)]> ks
        end in
      observe_attrs l (attr_key a :: seen) rest ks'
  end.

Definition observe_record (l : TypedLayout) (stride row : Z) (m : gmap string ServiceStats)
    (r : LogRecord) : gmap string ServiceStats :=
  let svc := default "" (service r) in
  let st := default service_stats0 (m !! svc) in
  let st := mkServiceStats (rows st + 1) (sampled st) (keys st) in
  let st :=
    if negb (row mod stride =? 0) then st
    else mkServiceStats (rows st) (sampled st + 1) (observe_attrs l [] (attributes r) (keys st)) in
  <[svc := st]> m.

Definition gather (l : TypedLayout) (records : list LogRecord) : gmap string ServiceStats :=
  let stride := Z.max 1 (Z.of_nat (List.length records) / SAMPLE_ROWS) in
  snd (foldl (fun '(row, m) r => (row + 1, observe_record l stride row m r)) (0, ∅) records).

(** Most present first, then by key. *)
Definition candidate_le (a b : string * KeyStats * ColumnType) : bool :=
  let '(ka, sa, _) := a in let '(kb, sb, _) := b in
  (present sb <? present sa) || ((present sa =? present sb) && str_le ka kb).

Definition candidates (config : TypedColumnsConfig) (st : ServiceStats)
    : list (string * KeyStats * ColumnType) :=
  stable_sort candidate_le
    (omap (fun '(k, s) =>
       if f64_ge (f64_of_Z (present s)) (f64_mul (min_presence config) (f64_of_Z (sampled st)))
       then (fun t => (k, s, t)) <$> stable_type s (min_type_share config) (max_string_bytes config)
       else None)
     (map_to_list (keys st))).

(** The state of the selection loop: names taken, columns promoted. *)
Record Selection := mkSelection { taken : gset string; out : list TypedColumn }.

Fixpoint select_keys (l : TypedLayout) (config : TypedColumnsConfig) (svc : string) (now : Z)
    (cands : list (string * KeyStats * ColumnType)) (budget : Z) (s : Selection) : Selection :=
  match cands with
  | [] => s
  | (k, _, t) :: rest =>
      if (budget =? 0) || (max_columns config <=? layout_len l + Z.of_nat (List.length (out s))) then s
      else match column_name k with
           | None => select_keys l config svc now rest budget s
           | Some c =>
               if decide (c ∈ taken s) then select_keys l config svc now rest budget s
               else select_keys l config svc now rest (budget - 1)
                      (mkSelection ({[c]} ∪ taken s) (out s ++ [mkColumn c k t svc now]))
           end
  end.

Definition plan_service (l : TypedLayout) (config : TypedColumnsConfig) (now : Z)
    (s : Selection) (e : string * ServiceStats) : Selection :=
  let (svc, st) := e in
  if (rows st <? min_rows config) || (sampled st =? 0) then s
  else select_keys l config svc now (candidates config st)
         (sat_sub (max_per_service config) (charged_to l svc)) s.

Definition plan (records : list LogRecord) (l : TypedLayout) (config : TypedColumnsConfig)
    (now : Z) : list TypedColumn :=
  if (max_per_service config =? 0) || (max_columns config <=? layout_len l) then []
  else
    let services := stable_sort (fun a b => str_le (fst a) (fst b)) (map_to_list (gather l records)) in
    out (foldl (plan_service l config now)
           (mkSelection (list_to_set (map column (columns l))) []) services).

(** ** Budgets *)

Definition charged_in (svc : string) (cols : list TypedColumn) : Z :=
  sumZ (fun c => if String.eqb (col_service c) svc then 1 else 0) cols.

Section Plan.
Context (l : TypedLayout) (config : TypedColumnsConfig) (now : Z).

(** What holds of the loop state: the taken names are the registered ones
    and the promoted ones, all different, and the total is within bounds. *)
Record sel_ok (s : Selection) : Prop := {
  sel_taken : taken s = list_to_set (map column (columns l)) ∪ list_to_set (map column (out s));
  sel_fresh : forall c, In c (out s) -> ~ In (column c) (map column (columns l));
  sel_nodup : List.NoDup (map column (out s));
  sel_bound : layout_len l + Z.of_nat (List.length (out s)) <= Z.max (layout_len l) (max_columns config);
  sel_named : forall c, In c (out s) -> column_name (key c) = Some (column c);
  sel_at : forall c, In c (out s) -> promoted_at c = now
}.

Lemma sel_ok_push s c k t svc :
  sel_ok s -> c ∉ taken s -> column_name k = Some c ->
  layout_len l + Z.of_nat (List.length (out s)) < max_columns config ->
  sel_ok (mkSelection ({[c]} ∪ taken s) (out s ++ [mkColumn c k t svc now])).
Proof.
  intros [Ht Hf Hn Hb Hm Ha] Hc Hk Hl.
  assert (~ In c (map column (columns l)) /\ ~ In c (map column (out s))) as [Hc1 Hc2].
  { rewrite Ht in Hc. rewrite <- !list_elem_of_In. set_solver. }
  constructor; simpl.
  - rewrite Ht, map_app. simpl. rewrite list_to_set_app_L. simpl. set_solver.
  - intros x [Hx|[<-|[]]]%in_app_or; [by apply Hf|done].
  - rewrite map_app. simpl. apply NoDup_ListNoDup, NoDup_app. 
    split_and!; [by apply NoDup_ListNoDup| |apply NoDup_singleton].
    intros x Hx ->%list_elem_of_singleton. by apply Hc2, list_elem_of_In.
  - rewrite length_app. simpl. lia.
  - intros x [Hx|[<-|[]]]%in_app_or; [by apply Hm|done].
  - intros x [Hx|[<-|[]]]%in_app_or; [by apply Ha|done].
Qed.

Lemma select_keys_spec svc cands : forall budget s,
  sel_ok s -> 0 <= budget ->
  sel_ok (select_keys l config svc now cands budget s) /\
  (forall svc', charged_in svc' (out (select_keys l config svc now cands budget s))
     <= charged_in svc' (out s) + (if String.eqb svc svc' then budget else 0)).
Proof.
  induction cands as [|[[k st] t] rest IH]; intros budget s Hs Hb; simpl.
  { split; [done|]. intros svc'. case_goal; lia. }
  destruct (_ || _) eqn:E.
  { split; [done|]. intros svc'. case_goal; lia. }
  zbool.
  destruct (column_name k) as [c|] eqn:Hk; [|by apply IH].
  case_decide as Hc; [by apply IH|].
  destruct (IH (budget - 1) (mkSelection ({[c]} ∪ taken s) (out s ++ [mkColumn c k t svc now])))
    as [Hok Hch]; [by apply sel_ok_push|lia|].
  split; [done|]. intros svc'. etransitivity; [apply Hch|]. simpl.
  unfold charged_in. rewrite sumZ_app. simpl. case_goal; lia.
Qed.

Definition service_budget (svc : string) : Z := sat_sub (max_per_service config) (charged_to l svc).

Lemma fold_plan_spec services : forall s,
  sel_ok s -> List.NoDup (map fst services) ->
  sel_ok (foldl (plan_service l config now) s services) /\
  forall svc, charged_in svc (out (foldl (plan_service l config now) s services))
    <= charged_in svc (out s) + (if existsb (fun e => String.eqb (fst e) svc) services
                                 then service_budget svc else 0).
Proof.
  induction services as [|[svc st] rest IH]; intros s Hs Hn; simpl.
  { split; [done|]. intros. lia. }
  simpl in Hn. inversion Hn as [|? ? Hnin Hn']; subst.
  assert (sel_ok (plan_service l config now s (svc, st)) /\
          forall svc', charged_in svc' (out (plan_service l config now s (svc, st)))
            <= charged_in svc' (out s) + (if String.eqb svc svc' then service_budget svc' else 0))
    as [Hok Hch].
  { unfold plan_service. case_goal.
    - split; [done|]. intros. case_goal; unfold service_budget, sat_sub; lia.
    - destruct (select_keys_spec svc (candidates config st) (service_budget svc) s Hs) as [H1 H2];
        [unfold service_budget, sat_sub; lia|].
      split; [exact H1|]. intros svc'. specialize (H2 svc').
      destruct (String.eqb_spec svc svc') as [e|]; [rewrite <- e in *|]; exact H2. }
  destruct (IH _ Hok Hn') as [H1 H2]. split; [exact H1|].
  intros svc'. etransitivity; [apply H2|]. specialize (Hch svc').
  revert Hch. destruct (String.eqb_spec svc svc') as [e|]; simpl; intros Hch; [|lia].
  rewrite <- e in *.
  destruct (existsb _ rest) eqn:E; [|lia].
  exfalso. apply Hnin. apply existsb_exists in E as ([x y] & Hin & Hx).
  apply String.eqb_eq in Hx. simpl in Hx. subst. apply in_map_iff. by exists (svc', y).
Qed.
End Plan.

Lemma charged_to_in l svc : charged_to l svc = charged_in svc (columns l).
Proof.
  unfold charged_to, charged_in. induction (columns l) as [|c cs IH]; simpl; [done|].
  destruct (String.eqb _ _); simpl; lia.
Qed.

(** The selection a promotion pass ends with. *)
Lemma plan_selection records l config now : exists s, out s = plan records l config now /\ sel_ok l config now s /\
  forall svc, charged_in svc (out s) <= service_budget l config svc.
Proof.
  unfold plan. set (s0 := mkSelection (list_to_set (map column (columns l))) []).
  assert (sel_ok l config now s0) as H0.
  { constructor; simpl; try done; [set_solver|constructor|lia]. }
  assert (forall svc, 0 <= service_budget l config svc) as Hb by (intros; unfold service_budget, sat_sub; lia).
  case_goal; [by exists s0|].
  set (services := stable_sort _ _).
  assert (List.NoDup (map fst services)) as Hn.
  { apply NoDup_ListNoDup. unfold services. 
    assert (Permutation (map fst (stable_sort (fun a b : string * ServiceStats => str_le (fst a) (fst b))
              (map_to_list (gather l records)))) (map fst (map_to_list (gather l records)))) as ->.
    { apply Permutation_map, stable_sort_perm. }
    apply NoDup_fst_map_to_list. }
  destruct (fold_plan_spec l config now services s0 H0 Hn) as [Hok Hch].
  eexists. split_and!; [reflexivity|done|]. intros svc. specialize (Hch svc). specialize (Hb svc). simpl in Hch. case_hyp Hch; lia.
Qed.

(** A promotion pass never exceeds the store's column limit or a service's
    budget, never reuses a registered or an already promoted column name, and
    names every column after its key. *)
Theorem plan_within_budgets records l config now :
  let p := plan records l config now in
  layout_len l + Z.of_nat (List.length p) <= Z.max (layout_len l) (max_columns config) /\
  (forall svc, charged_in svc (columns l) + charged_in svc p
               <= Z.max (charged_in svc (columns l)) (max_per_service config)) /\
  List.NoDup (map column p) /\
  (forall c, In c p -> ~ In (column c) (map column (columns l))) /\
  (forall c, In c p -> column_name (key c) = Some (column c)).
Proof.
  cbv zeta. destruct (plan_selection records l config now) as (s & <- & [_ Hf Hd Hb Hm _] & Hch).
  split_and!; try done. intros svc. specialize (Hch svc). unfold service_budget, sat_sub in Hch. rewrite charged_to_in in Hch. lia.
Qed.

(** ** A promotion is of a new key *)

Lemma index_keys_none cols : forall k0 (m : gmap string nat) k,
  foldl (fun (m : gmap string nat) '(i, c) => <[key c := i]> m) m (imap (fun i c => ((k0 + i)%nat, c)) cols) !! k = None ->
  m !! k = None /\ forall c, In c cols -> key c <> k.
Proof.
  induction cols as [|c cols IH]; intros k0 m k H; [by split|]. cbn in H. rewrite Nat.add_0_r in H.
  assert (imap ((fun i c => ((k0 + i)%nat, c)) ∘ S) cols = imap (fun i (c : TypedColumn) => ((S k0 + i)%nat, c)) cols) as Hi
    by (apply imap_ext; intros; simpl; f_equal; lia).
  rewrite Hi in H. apply IH in H as [Hm Hc]. apply lookup_insert_None in Hm as [Hm Hk].
  split; [done|]. intros x [<-|Hx]; [done|by apply Hc].
Qed.

Lemma index_of_none cols k : index_of (layout_new cols) k = None -> forall c, In c (columns (layout_new cols)) -> key c <> k.
Proof. intros H. exact (proj2 (index_keys_none (columns (layout_new cols)) 0 ∅ k H)). Qed.

Section NewKeys.
Context (l : TypedLayout).

Definition new_keys (ks : gmap string KeyStats) : Prop := forall k s, ks !! k = Some s -> index_of l k = None.

Lemma observe_attrs_new attrs : forall seen ks, new_keys ks -> new_keys (observe_attrs l seen attrs ks).
Proof.
  induction attrs as [|a attrs IH]; intros seen ks Hks; [done|]. cbn [observe_attrs]. apply IH.
  destruct (index_of l (attr_key a)) eqn:Ei; [done|]. destruct (existsb _ seen); [done|].
  intros k s Hs. destruct (decide (attr_key a = k)) as [<-|Hne]; [done|]. rewrite lookup_insert_ne in Hs by done. by eapply Hks.
Qed.

Lemma gather_new records svc st : gather l records !! svc = Some st -> new_keys (keys st).
Proof.
  unfold gather. set (stride := Z.max _ _). clearbody stride.
  assert (forall m row, (forall svc st, m !! svc = Some st -> new_keys (keys st)) ->
    forall svc st, snd (foldl (fun '(row, m) r => (row + 1, observe_record l stride row m r)) (row, m) records) !! svc = Some st -> new_keys (keys st)) as H.
  { induction records as [|r records IH]; intros m row Hm; [exact Hm|]. cbn [foldl]. apply IH. intros sv s Hs.
    assert (new_keys (keys (default service_stats0 (m !! default "" (service r))))) as H0.
    { destruct (m !! default "" (service r)) eqn:E; [by eapply Hm|]. intros k x. cbn. by rewrite lookup_empty. }
    unfold observe_record in Hs. destruct (decide (default "" (service r) = sv)) as [<-|Hne].
    - rewrite lookup_insert_eq in Hs. injection Hs as <-. destruct (negb _); [exact H0|]. cbn [keys]. by apply observe_attrs_new.
    - rewrite lookup_insert_ne in Hs by done. by eapply Hm. }
  apply H. intros sv s. by rewrite lookup_empty.
Qed.

Lemma select_keys_from config svc now cands : forall budget s c, In c (out (select_keys l config svc now cands budget s)) ->
  In c (out s) \/ exists st t, In (key c, st, t) cands.
Proof.
  induction cands as [|[[k st] t] rest IH]; intros budget s c Hc; cbn [select_keys] in Hc; [by left|].
  assert (In c (out s) \/ (exists st' t', In (key c, st', t') rest) -> In c (out s) \/ exists st' t', In (key c, st', t') ((k, st, t) :: rest)) as Hw.
  { intros [?|(x & y & ?)]; [by left|right; exists x, y; by right]. }
  destruct (_ || _); [by left|]. destruct (column_name k) as [n|]; [|by eapply Hw, IH].
  case_decide; [by eapply Hw, IH|]. apply IH in Hc as [Hc|(x & y & Hc)]; [|right; exists x, y; by right].
  cbn [out] in Hc. apply in_app_or in Hc as [Hc|[<-|[]]]; [by left|]. right. exists st, t. by left.
Qed.

Lemma plan_new_keys records config now c : In c (plan records l config now) -> index_of l (key c) = None.
Proof.
  unfold plan. destruct (_ || _); [done|]. set (services := stable_sort _ _).
  assert (forall e, In e services -> new_keys (keys (snd e))) as Hnew.
  { intros [svc st] Hin. apply list_elem_of_In in Hin. unfold services in Hin. rewrite stable_sort_perm in Hin.
    apply elem_of_map_to_list in Hin. by eapply gather_new. }
  revert Hnew. generalize services. clear services. intros services Hnew.
  assert (forall s, (forall c, In c (out s) -> index_of l (key c) = None) -> forall c, In c (out (foldl (plan_service l config now) s services)) -> index_of l (key c) = None) as H.
  2:{ apply H. intros x []. }
  induction services as [|[svc st] services IH]; intros s Hs; [exact Hs|]. cbn [foldl]. apply IH; [intros e He; apply Hnew; by right|].
  intros x Hx. unfold plan_service in Hx. destruct (_ || _); [by apply Hs|]. apply select_keys_from in Hx as [Hx|(ks & t & Hx)]; [by apply Hs|].
  unfold candidates in Hx. apply list_elem_of_In in Hx. rewrite stable_sort_perm in Hx. apply list_elem_of_omap in Hx as ([k s'] & Hk & Hf).
  apply elem_of_map_to_list in Hk. destruct (f64_ge _ _); [|done]. destruct (stable_type _ _ _); [|done]. injection Hf as <- <- _.
  by eapply (Hnew (svc, st)); [left|].
Qed.
End NewKeys.

(** ** Conformance loses nothing *)

(** The attribute value a typed cell replays as. *)
Definition replay (c : Cell) : AttrValue :=
  match c with
  | CellInt z => AI64 z
  | CellFloat f => AF64 f
  | CellBool b => ABool b
  | CellStr s => AStr s
  | CellTimestamp n => AStr (format_timestamp n)
  end.

(** A value stored in a typed column replays as the value that arrived,
    except that an integer in a float column replays as the float of it. *)
Theorem conform_replays v t c :
  conform v t = Some c ->
  replay c = v \/ exists z, v = AI64 z /\ t = CFloat64 /\ Z.abs z <= 2 ^ 53 /\ c = CellFloat (f64_of_Z z).
Proof.
  unfold conform, F64_EXACT_INT. intros H.
  destruct t, v; try discriminate; simplify_eq; try by left.
  - case_hyp H; [|done]. zbool. simplify_eq. right. by exists z.
  - destruct (parse_canonical_timestamp s) as [n|] eqn:E; [|done]. simpl in H. simplify_eq.
    left. simpl. f_equal. by apply format_parse_timestamp.
Qed.

Lemma conform_replays_witness :
  conform (AI64 5) CFloat64 = Some (CellFloat (f64_of_Z 5)) /\
  (replay (CellFloat (f64_of_Z 5)) = AI64 5 \/
   exists z, AI64 5 = AI64 z /\ CFloat64 = CFloat64 /\ Z.abs z <= 2 ^ 53 /\ CellFloat (f64_of_Z 5) = CellFloat (f64_of_Z z)).
Proof. split; [reflexivity|]. apply (conform_replays (AI64 5) CFloat64 (CellFloat (f64_of_Z 5))). reflexivity. Defined.
