(* ===== verification/Queue.v ===== *)
(** The bounded ingest queue with severity-ordered load shedding
    ([crates/logless-core/src/queue.rs]).

    The channel itself is [crossbeam]'s: the model takes the answer it gives
    to each call ([try_send], [send_timeout], [recv_timeout], [try_recv]) and
    no assumption about when it gives which.  Producers run concurrently, so
    [submit] is also given as a state machine whose atomic steps interleave. *)

From S2P Require Import Prelude Text Float Model.
Open Scope Z_scope.

Inductive Admission := Enqueued | Shed (c : LevelClass) | Closed.

#[export] Instance Admission_eq_dec : EqDecision Admission.
Proof. solve_decision. Defined.

Record IngestStats := mkStats {
  received : Z; enqueued : Z;
  dropped_debug : Z; dropped_info : Z; dropped_critical : Z;
  closed : Z
}.

Definition stats0 : IngestStats := mkStats 0 0 0 0 0 0.

(** ** Counters: [fetch_add(1)] wraps *)

Definition inc_received (s : IngestStats) : IngestStats :=
  mkStats (wadd64 (received s) 1) (enqueued s) (dropped_debug s) (dropped_info s) (dropped_critical s) (closed s).
Definition inc_enqueued (s : IngestStats) : IngestStats :=
  mkStats (received s) (wadd64 (enqueued s) 1) (dropped_debug s) (dropped_info s) (dropped_critical s) (closed s).
Definition inc_closed (s : IngestStats) : IngestStats :=
  mkStats (received s) (enqueued s) (dropped_debug s) (dropped_info s) (dropped_critical s) (wadd64 (closed s) 1).

Definition shed (c : LevelClass) (s : IngestStats) : IngestStats :=
  match c with
  | Debug => mkStats (received s) (enqueued s) (wadd64 (dropped_debug s) 1) (dropped_info s) (dropped_critical s) (closed s)
  | Info => mkStats (received s) (enqueued s) (dropped_debug s) (wadd64 (dropped_info s) 1) (dropped_critical s) (closed s)
  | WarnPlus => mkStats (received s) (enqueued s) (dropped_debug s) (dropped_info s) (wadd64 (dropped_critical s) 1) (closed s)
  end.

(** [StatsSnapshot::dropped] and [accounts_for_everything]. *)
Definition dropped (s : IngestStats) : Z :=
  wadd64 (wadd64 (wadd64 (dropped_debug s) (dropped_info s)) (dropped_critical s)) (closed s).
Definition accounts_for_everything (s : IngestStats) : bool :=
  received s =? wadd64 (enqueued s) (dropped s).

(** ** [submit], run without interference *)

Inductive TrySend := TryOk | TryFull | TryDisconnected.
Inductive SendTimeout := SendOk | SendTimedOut | SendDisconnected.

Definition submit (s0 : IngestStats) (r : LogRecord) (try : TrySend) (wait : SendTimeout)
    : IngestStats * Admission :=
  let s := inc_received s0 in
  let class := level_class r in
  match try with
  | TryOk => (inc_enqueued s, Enqueued)
  | TryFull =>
      if negb (bool_decide (class = WarnPlus)) then (shed class s, Shed class)
      else match wait with
           | SendOk => (inc_enqueued s, Enqueued)
           | SendTimedOut => (shed class s, Shed class)
           | SendDisconnected => (inc_closed s, Closed)
           end
  | TryDisconnected => (inc_closed s, Closed)
  end.

(** ** The consumer

    The answers of the channel are streams: the [i]-th call gets answer [i]. *)

Fixpoint drain_ready (room i : nat) (answers : nat -> option LogRecord) : list LogRecord :=
  match room with
  | O => []
  | S room' =>
      match answers i with
      | Some r => r :: drain_ready room' (S i) answers
      | None => []
      end
  end.

Definition next_batch (max : nat) (first : option LogRecord) (answers : nat -> option LogRecord)
    : list LogRecord :=
  match first with
  | None => []
  | Some r => r :: drain_ready (max - 1) 0 answers
  end.

(** One pass of the lingering loop: the answer to [try_recv], whether the
    deadline has passed, and the answer to the timed receive. *)
Inductive TryRecv := RecvReady (r : LogRecord) | RecvEmpty | RecvDisconnected.
Record Linger := mkLinger { try_answer : TryRecv; expired : bool; wait_answer : option LogRecord }.

Fixpoint linger_loop (room i : nat) (turns : nat -> Linger) : list LogRecord :=
  match room with
  | O => []
  | S room' =>
      match try_answer (turns i) with
      | RecvReady r => r :: linger_loop room' (S i) turns
      | RecvDisconnected => []
      | RecvEmpty =>
          if expired (turns i) then []
          else match wait_answer (turns i) with
               | Some r => r :: linger_loop room' (S i) turns
               | None => []
               end
      end
  end.

Definition next_batch_lingering (max : nat) (first : option LogRecord) (turns : nat -> Linger)
    : list LogRecord :=
  match first with
  | None => []
  | Some r => r :: linger_loop (max - 1) 0 turns
  end.

(** ** Concurrent producers

    Each producer is between two calls, or somewhere inside [submit]: after
    [received] was counted, while waiting for room, or with the verdict known
    and its counter not yet bumped. *)

Inductive Phase := Idle | Offered (r : LogRecord) | Waiting (r : LogRecord) | Verdict (a : Admission).

Record System := mkSystem { stats : IngestStats; producers : list Phase }.

Definition count (a : Admission) (s : IngestStats) : IngestStats :=
  match a with
  | Enqueued => inc_enqueued s
  | Shed c => shed c s
  | Closed => inc_closed s
  end.

Inductive phase_step : IngestStats * Phase -> IngestStats * Phase -> Prop :=
| step_offer s r : phase_step (s, Idle) (inc_received s, Offered r)
| step_try_ok s r : phase_step (s, Offered r) (s, Verdict Enqueued)
| step_try_shed s r : level_class r <> WarnPlus -> phase_step (s, Offered r) (s, Verdict (Shed (level_class r)))
| step_try_wait s r : level_class r = WarnPlus -> phase_step (s, Offered r) (s, Waiting r)
| step_try_closed s r : phase_step (s, Offered r) (s, Verdict Closed)
| step_wait_ok s r : phase_step (s, Waiting r) (s, Verdict Enqueued)
| step_wait_shed s r : phase_step (s, Waiting r) (s, Verdict (Shed (level_class r)))
| step_wait_closed s r : phase_step (s, Waiting r) (s, Verdict Closed)
| step_count s a : phase_step (s, Verdict a) (count a s, Idle).

Inductive sys_step : System -> System -> Prop :=
| sys_producer s s' p p' before after :
    phase_step (s, p) (s', p') ->
    sys_step (mkSystem s (before ++ p :: after)) (mkSystem s' (before ++ p' :: after)).

Inductive reachable (n : nat) : System -> Prop :=
| reach_init : reachable n (mkSystem stats0 (replicate n Idle))
| reach_step s s' : reachable n s -> sys_step s s' -> reachable n s'.

(** ** The accounting invariant *)

Definition in_flight (p : Phase) : Z := match p with Idle => 0 | _ => 1 end.
Definition flying (ps : list Phase) : Z := foldr (fun p n => in_flight p + n) 0 ps.

Lemma flying_app a b : flying (a ++ b) = flying a + flying b.
Proof. induction a as [|p a IH]; simpl; lia. Qed.

Definition stats_range (s : IngestStats) : Prop := u64_range (received s).

(** Everything counted so far, without the wrap-around of the sum. *)
Definition counted (s : IngestStats) : Z :=
  enqueued s + dropped_debug s + dropped_info s + dropped_critical s + closed s.

Definition balanced (s : System) : Prop :=
  stats_range (stats s) /\
  wrap64 (received (stats s)) = wrap64 (counted (stats s) + flying (producers s)).

Lemma accounts_iff s :
  stats_range s -> (accounts_for_everything s = true <-> wrap64 (received s) = wrap64 (counted s)).
Proof.
  intros Hr. unfold accounts_for_everything, dropped. rewrite Z.eqb_eq.
  assert (wadd64 (enqueued s)
    (wadd64 (wadd64 (wadd64 (dropped_debug s) (dropped_info s)) (dropped_critical s)) (closed s))
    = wrap64 (counted s)) as ->.
  { unfold wadd64, counted. rewrite (wrap64_add_l (dropped_debug s + _)), (wrap64_add_l (dropped_debug s + _ + _)), wrap64_add_r. f_equal. lia. }
  by rewrite (wrap64_small (received s)).
Qed.

(** Counters that are bumped together stay equal modulo [2^64]. *)
Lemma wrap64_cong a b c : wrap64 a = wrap64 b -> wrap64 (a + c) = wrap64 (b + c).
Proof. intros H. by rewrite <- (wrap64_add_l a), H, wrap64_add_l. Qed.

Lemma counted_count a s : wrap64 (counted (count a s)) = wrap64 (counted s + 1).
Proof.
  assert (forall x y, wrap64 (x + wrap64 (y + 1)) = wrap64 (x + y + 1)) as H.
  { intros x y. rewrite wrap64_add_r. f_equal. lia. }
  assert (forall v x y, v = x + y -> wrap64 (x + wrap64 (y + 1)) = wrap64 (v + 1)) as H'.
  { intros v x y ->. apply H. }
  unfold counted.
  destruct a as [|[]|]; simpl; unfold wadd64.
  - etrans; [|apply (H' _ (dropped_debug s + dropped_info s + dropped_critical s + closed s) (enqueued s)); lia]. f_equal. lia.
  - etrans; [|apply (H' _ (enqueued s + dropped_info s + dropped_critical s + closed s) (dropped_debug s)); lia]. f_equal. lia.
  - etrans; [|apply (H' _ (enqueued s + dropped_debug s + dropped_critical s + closed s) (dropped_info s)); lia]. f_equal. lia.
  - etrans; [|apply (H' _ (enqueued s + dropped_debug s + dropped_info s + closed s) (dropped_critical s)); lia]. f_equal. lia.
  - etrans; [|apply (H' _ (enqueued s + dropped_debug s + dropped_info s + dropped_critical s) (closed s)); lia]. done.
Qed.

Lemma received_count a s : received (count a s) = received s.
Proof. by destruct a as [|[]|]. Qed.

Lemma balanced_step s s' : balanced s -> sys_step s s' -> balanced s'.
Proof.
  intros [Hr Hb] Hs. inversion Hs as [s1 s2 p p' before after Hp]; subst; clear Hs.
  unfold balanced, stats_range in *; simpl in *. rewrite flying_app in *. simpl in *.
  inversion Hp; subst; simpl in *;
    try solve [split; [done|]; etrans; [exact Hb|apply f_equal; lia]].
  - split; [apply wrap64_range|]. unfold wadd64. unfold counted in *; simpl.
    rewrite wrap64_idem. etrans; [exact (wrap64_cong _ _ 1 Hb)|]. apply f_equal. lia.
  - rewrite received_count. split; [done|]. rewrite Hb.
    symmetry. etrans; [exact (wrap64_cong _ _ (flying before + (0 + flying after)) (counted_count a s1))|].
    apply f_equal. lia.
Qed.

Lemma flying_idle n : flying (replicate n Idle) = 0.
Proof. induction n; simpl; lia. Qed.

Lemma reachable_balanced n s : reachable n s -> balanced s.
Proof.
  induction 1 as [|s s' _ IH Hs]; [|by eapply balanced_step].
  split; [split; simpl; unfold u64_max; lia|]. simpl. by rewrite flying_idle.
Qed.

Lemma idle_flying ps : Forall (eq Idle) ps -> flying ps = 0.
Proof. induction 1 as [|p ps <- _ IH]; simpl; lia. Qed.

(** C38: Whatever the interleaving of any number of producers and whatever the
    channel answers, once no [submit] is under way every record received is
    either enqueued or counted in exactly one drop counter. *)
Theorem quiescent_accounts n s :
  reachable n s -> Forall (eq Idle) (producers s) -> accounts_for_everything (stats s) = true.
Proof.
  intros Hr Hi. apply reachable_balanced in Hr as [Hr Hb].
  apply accounts_iff; [done|]. rewrite Hb, (idle_flying _ Hi). f_equal. lia.
Qed.

(** A run of steps of one producer. *)
Inductive phase_steps : IngestStats * Phase -> IngestStats * Phase -> Prop :=
| steps_refl x : phase_steps x x
| steps_step x y z : phase_step x y -> phase_steps y z -> phase_steps x z.

(** [submit] is a run of one producer's steps: it returns a verdict in
    every case, the counter it bumped is that verdict's, only WARN and above
    ever consults the bounded wait, and only DEBUG and INFO are shed without
    one. *)
Theorem submit_refines s r try wait :
  (phase_steps (s, Idle) (fst (submit s r try wait), Idle) /\
   fst (submit s r try wait) = count (snd (submit s r try wait)) (inc_received s)) /\
  (level_class r <> WarnPlus -> forall wait', submit s r try wait' = submit s r try wait) /\
  (forall c, snd (submit s r try wait) = Shed c -> c = level_class r /\ try = TryFull /\
     (c = WarnPlus -> wait = SendTimedOut)).
Proof.
  assert (forall s1 p a, phase_steps (s1, p) (s1, Verdict a) ->
            phase_steps (s1, p) (count a s1, Idle)) as Hend.
  { intros s1 p a H. remember (s1, p) as x eqn:Hx. remember (s1, Verdict a) as y eqn:Hy.
    clear Hx. induction H as [x|x y z Hxy Hyz IH]; subst.
    - eapply steps_step; [apply step_count|apply steps_refl].
    - eapply steps_step; [exact Hxy|]. by apply IH. }
  split; [|split].
  - assert (fst (submit s r try wait) = count (snd (submit s r try wait)) (inc_received s)) as Hc.
    { unfold submit. destruct try; [done| |done].
      destruct (bool_decide _); simpl; [|done]. by destruct wait. }
    split; [|done]. rewrite Hc.
    eapply steps_step; [apply (step_offer s r)|]. unfold submit.
    destruct try; simpl; try (eapply steps_step; [constructor|]; eapply steps_step; [constructor|]; apply steps_refl).
    case_bool_decide as Hw; simpl.
    + eapply steps_step; [by apply step_try_wait|]. apply (Hend (inc_received s)) with (a := snd (match wait with
        | SendOk => (inc_enqueued (inc_received s), Enqueued)
        | SendTimedOut => (shed (level_class r) (inc_received s), Shed (level_class r))
        | SendDisconnected => (inc_closed (inc_received s), Closed) end)).
      destruct wait; (eapply steps_step; [constructor|apply steps_refl]).
    + eapply steps_step; [by apply step_try_shed|]. eapply steps_step; [constructor|apply steps_refl].
  - intros Hn wait'. unfold submit. destruct try; [done| |done]. by rewrite bool_decide_false.
  - intros c. unfold submit. destruct try; [done| |done]. case_bool_decide as Hw; simpl.
    + destruct wait; simpl; [done| |done]. intros [= <-]. done.
    + intros [= <-]. split; [done|]. split; [done|]. intros H. by rewrite H in Hw.
Qed.

Lemma drain_ready_length room i answers : (List.length (drain_ready room i answers) <= room)%nat.
Proof.
  revert i. induction room as [|room IH]; intros i; simpl; [lia|].
  destruct (answers i); simpl; [|lia]. specialize (IH (S i)). lia.
Qed.

Lemma linger_loop_length room i turns : (List.length (linger_loop room i turns) <= room)%nat.
Proof.
  revert i. induction room as [|room IH]; intros i; simpl; [lia|]. specialize (IH (S i)).
  destruct (try_answer (turns i)); simpl; [lia| |lia].
  destruct (expired (turns i)); simpl; [lia|]. destruct (wait_answer (turns i)); simpl; lia.
Qed.

(** Neither way of taking a batch ever exceeds its bound (a bound of zero
    still takes the first record), and both are empty only when the first wait
    timed out. *)
Theorem batch_bounded max first answers turns :
  (List.length (next_batch max first answers) <= Nat.max 1 max)%nat /\
  (List.length (next_batch_lingering max first turns) <= Nat.max 1 max)%nat /\
  (next_batch max first answers = [] <-> first = None) /\
  (next_batch_lingering max first turns = [] <-> first = None).
Proof.
  destruct first as [r|]; simpl; [|repeat split; try done; lia].
  pose proof (drain_ready_length (max - 1) 0 answers).
  pose proof (linger_loop_length (max - 1) 0 turns).
  repeat split; try done; lia.
Qed.

(** Two producers interleaved: one enqueues an error, the other sheds a debug
    line. *)
Definition example_error : LogRecord := new_record [] 0 17 "error".
Definition example_debug : LogRecord := new_record [] 0 5 "debug".
Definition example_end : System :=
  mkSystem (count (Shed (level_class example_debug)) (count Enqueued (inc_received (inc_received stats0)))) [Idle; Idle].

Lemma example_end_reachable : reachable 2 example_end.
Proof.
  unfold example_end.
  eapply reach_step; [|eapply (sys_producer _ _ (Verdict (Shed (level_class example_debug))) Idle [Idle] []); constructor].
  eapply reach_step; [|eapply (sys_producer _ _ (Verdict Enqueued) Idle [] [Verdict (Shed (level_class example_debug))]); constructor].
  eapply reach_step; [|eapply (sys_producer _ _ (Offered example_debug) (Verdict (Shed (level_class example_debug))) [Verdict Enqueued] []);
    constructor; vm_compute; discriminate].
  eapply reach_step; [|eapply (sys_producer _ _ (Offered example_error) (Verdict Enqueued) [] [Offered example_debug]); constructor].
  eapply reach_step; [|eapply (sys_producer _ _ Idle (Offered example_debug) [Offered example_error] []); constructor].
  eapply reach_step; [|eapply (sys_producer _ _ Idle (Offered example_error) [] [Idle]); constructor].
  apply reach_init.
Qed.

Lemma quiescent_accounts_witness : accounts_for_everything (stats example_end) = true.
Proof. apply (quiescent_accounts 2); [exact example_end_reachable|repeat constructor]. Defined.
