(* ===== verification/Files.v ===== *)
(** Directories of segment files, as the write-ahead log and the outbound
    spool use them: lookup, replacement and removal of a file, and reading a
    file from the front. *)

From S2P Require Import Prelude.
Open Scope Z_scope.
Open Scope list_scope.

(** A directory: file names and contents, in the order [read_dir] lists them. *)
Definition Dir := list (string * bytes).

Definition lookup_file (name : string) (d : Dir) : option bytes :=
  snd <$> List.find (fun f => String.eqb (fst f) name) d.
Definition write_file (name : string) (g : bytes -> bytes) (d : Dir) : Dir :=
  List.map (fun f => if String.eqb (fst f) name then (fst f, g (snd f)) else f) d.

(** Create or replace. *)
Definition put_file (name : string) (content : bytes) (d : Dir) : Dir :=
  match lookup_file name d with
  | Some _ => write_file name (fun _ => content) d
  | None => d ++ [(name, content)]
  end.
Definition remove_file (name : string) (d : Dir) : Dir :=
  List.filter (fun f => negb (String.eqb (fst f) name)) d.

(** [read_full]: the next [n] bytes, or [None] at the end of the file. *)
Definition read_full (n : Z) (bs : bytes) : option (bytes * bytes) :=
  if Z.of_nat (List.length bs) <? n then None
  else Some (take (Z.to_nat n) bs, drop (Z.to_nat n) bs).

(** ** Files of a directory *)

Lemma lookup_file_In d name c : NoDup (List.map fst d) ->
  In (name, c) d <-> lookup_file name d = Some c.
Proof.
  unfold lookup_file. induction d as [|[n' c'] d IH]; simpl; [done|].
  intros [Hn Hd]%NoDup_cons. destruct (String.eqb_spec n' name) as [e|Hne]; simpl.
  - rewrite e in *. split; [|intros [= ->]; by left]. intros [[= ->]|Hin]; [done|].
    destruct Hn. apply list_elem_of_In, in_map_iff. by exists (name, c).
  - rewrite <- IH by done. split; [intros [[= ]|]; done|by right].
Qed.

Lemma write_file_fst name g d : List.map fst (write_file name g d) = List.map fst d.
Proof.
  unfold write_file. rewrite map_map. apply map_ext. intros [n c]; simpl.
  by destruct (String.eqb n name).
Qed.

Lemma lookup_write_ne name name' g d : name <> name' ->
  lookup_file name' (write_file name g d) = lookup_file name' d.
Proof.
  intros Hne. unfold lookup_file, write_file.
  induction d as [|[n c] d IH]; simpl; [done|].
  destruct (String.eqb_spec n name) as [e|]; simpl.
  - rewrite e. destruct (String.eqb_spec name name'); [done|apply IH].
  - destruct (String.eqb n name'); [done|apply IH].
Qed.

Lemma write_file_notin name g d : ~ In name (List.map fst d) -> write_file name g d = d.
Proof.
  unfold write_file. induction d as [|[n c] d IH]; simpl; [done|].
  intros Hn. destruct (String.eqb_spec n name) as [e|]; [destruct Hn; by left|].
  rewrite IH; [done|]. intros ?. apply Hn. by right.
Qed.

Lemma lookup_file_none name d : ~ In name (List.map fst d) -> lookup_file name d = None.
Proof.
  unfold lookup_file. induction d as [|[n c] d IH]; simpl; [done|].
  intros Hn. destruct (String.eqb_spec n name) as [e|]; [destruct Hn; by left|].
  apply IH. intros ?. apply Hn. by right.
Qed.

Lemma lookup_file_perm d d' name : NoDup (List.map fst d) -> Permutation d d' ->
  lookup_file name d = lookup_file name d'.
Proof.
  intros Hn Hp. assert (NoDup (List.map fst d')) as Hn' by (by rewrite <- Hp).
  apply option_eq. intros c. rewrite <- !lookup_file_In by done.
  split; apply Permutation_in; [done|by symmetry].
Qed.

Lemma read_full_app n a t :
  Z.of_nat (List.length a) = n -> read_full n (a ++ t) = Some (a, t).
Proof.
  intros <-. unfold read_full. rewrite length_app.
  destruct (_ <? _) eqn:E; zbool; [lia|].
  rewrite Nat2Z.id, take_app_length, drop_app_length. done.
Qed.

Lemma read_full_some n bs a t : 0 <= n -> read_full n bs = Some (a, t) ->
  bs = a ++ t /\ Z.of_nat (List.length a) = n.
Proof.
  intros Hn. unfold read_full. destruct (_ <? _) eqn:E; [done|]. zbool. intros [= <- <-].
  rewrite take_drop. split; [done|]. rewrite length_take. lia.
Qed.

Lemma read_full_short n bs : Z.of_nat (List.length bs) < n -> read_full n bs = None.
Proof. intros H. unfold read_full. destruct (_ <? _) eqn:E; zbool; [done|lia]. Qed.

Lemma lookup_remove_ne name name' d : name <> name' ->
  lookup_file name' (remove_file name d) = lookup_file name' d.
Proof.
  intros Hne. unfold lookup_file, remove_file.
  induction d as [|[n c] d IH]; simpl; [done|].
  destruct (String.eqb_spec n name) as [e|]; simpl.
  - rewrite e. destruct (String.eqb_spec name name'); [done|apply IH].
  - destruct (String.eqb n name'); [done|apply IH].
Qed.

Lemma lookup_write_eq name g d c : lookup_file name d = Some c ->
  lookup_file name (write_file name g d) = Some (g c).
Proof.
  unfold lookup_file, write_file. induction d as [|[n c'] d IH]; simpl; [done|].
  destruct (String.eqb_spec n name) as [e|Hne]; simpl.
  - rewrite e, String.eqb_refl. simpl. by intros [= ->].
  - destruct (String.eqb_spec n name); [done|]. apply IH.
Qed.
