(* ===== verification/Wal.v ===== *)
(** The write-ahead log ([crates/logless-core/src/wal.rs]): segments of
    CRC-checked frames, group commit, rolling, torn-tail recovery, and the
    late spool beside the main log.

    A directory is the list of its files.  What a writer wrote since its last
    [fdatasync] (in the [BufWriter] or the page cache) is its [current]; a
    crash keeps any prefix of it.  File operations that the code expects to
    work are modelled as working; the counters of bytes, records and syncs, [u64]
    in the code and only ever added to, are plain integers; [postcard] and [crc32fast] are parameters. *)

From stdpp Require Import sorting.
From S2P Require Import Prelude Text Float Model Lists Files.
Open Scope Z_scope.
Open Scope list_scope.

Definition MAGIC : bytes :=
  [Byte.x4c; Byte.x47; Byte.x4c; Byte.x53; Byte.x57; Byte.x41; Byte.x4c; Byte.x02].
Definition FRAME_HEADER_BYTES : Z := 8.
Definition HEADER_BYTES : Z := 24.
Definition MAX_FRAME_BYTES : Z := 256 * 1024 * 1024.

Inductive WalError := Io (path : string) | Encode | BadMagic (path : string).

Definition segment_name (id : Z) : string := String.append (pad0 12 id) ".wal".

(** [create_new]: an existing name is an error.  The header is written and
    synced before the file is used. *)
Definition create_segment (id : Z) (uuid : bytes) (d : Dir) : WalError + (Dir * string) :=
  let path := segment_name id in
  match lookup_file path d with
  | Some _ => inl (Io path)
  | None => inr (d ++ [(path, MAGIC ++ uuid)], path)
  end.

(** [Path::extension] and [file_stem] of a name that ends in [.wal]. *)
Definition wal_stem (name : string) : option string :=
  match strip_suffix ".wal" name with
  | Some "" => None
  | o => o
  end.

Definition segment_id (name : string) : option Z := wal_stem name ≫= parse_uint u64_max.

Definition by_id (a b : Z * string) : bool := fst a <=? fst b.

Definition list_segments (d : Dir) : list (Z * string) :=
  stable_sort by_id
    (omap (fun f => (fun id => (id, fst f)) <$> segment_id (fst f)) d).

(** ** The writer *)

Record WalWriter := mkWriter {
  dir : Dir;
  segment_bytes : Z;
  fsync_interval : Z;
  fsync_bytes : Z;
  current : bytes;
  current_path : string;
  current_id : Z;
  current_uuid : bytes;
  current_len : Z;
  roll_after : option Z;
  current_started : Z;
  unsynced_bytes : Z;
  last_sync : Z;
  synced_records : Z;
  reported_records : Z;
  records_written : Z;
  bytes_written : Z;
  syncs : Z
}.

Definition set_dir (v : Dir) (w : WalWriter) : WalWriter :=
  mkWriter v (segment_bytes w) (fsync_interval w) (fsync_bytes w) (current w) (current_path w) (current_id w) (current_uuid w) (current_len w) (roll_after w) (current_started w) (unsynced_bytes w) (last_sync w) (synced_records w) (reported_records w) (records_written w) (bytes_written w) (syncs w).

Definition set_current (v : bytes) (w : WalWriter) : WalWriter :=
  mkWriter (dir w) (segment_bytes w) (fsync_interval w) (fsync_bytes w) v (current_path w) (current_id w) (current_uuid w) (current_len w) (roll_after w) (current_started w) (unsynced_bytes w) (last_sync w) (synced_records w) (reported_records w) (records_written w) (bytes_written w) (syncs w).

Definition set_current_path (v : string) (w : WalWriter) : WalWriter :=
  mkWriter (dir w) (segment_bytes w) (fsync_interval w) (fsync_bytes w) (current w) v (current_id w) (current_uuid w) (current_len w) (roll_after w) (current_started w) (unsynced_bytes w) (last_sync w) (synced_records w) (reported_records w) (records_written w) (bytes_written w) (syncs w).

Definition set_current_id (v : Z) (w : WalWriter) : WalWriter :=
  mkWriter (dir w) (segment_bytes w) (fsync_interval w) (fsync_bytes w) (current w) (current_path w) v (current_uuid w) (current_len w) (roll_after w) (current_started w) (unsynced_bytes w) (last_sync w) (synced_records w) (reported_records w) (records_written w) (bytes_written w) (syncs w).

Definition set_current_uuid (v : bytes) (w : WalWriter) : WalWriter :=
  mkWriter (dir w) (segment_bytes w) (fsync_interval w) (fsync_bytes w) (current w) (current_path w) (current_id w) v (current_len w) (roll_after w) (current_started w) (unsynced_bytes w) (last_sync w) (synced_records w) (reported_records w) (records_written w) (bytes_written w) (syncs w).

Definition set_current_len (v : Z) (w : WalWriter) : WalWriter :=
  mkWriter (dir w) (segment_bytes w) (fsync_interval w) (fsync_bytes w) (current w) (current_path w) (current_id w) (current_uuid w) v (roll_after w) (current_started w) (unsynced_bytes w) (last_sync w) (synced_records w) (reported_records w) (records_written w) (bytes_written w) (syncs w).

Definition set_roll_after (v : option Z) (w : WalWriter) : WalWriter :=
  mkWriter (dir w) (segment_bytes w) (fsync_interval w) (fsync_bytes w) (current w) (current_path w) (current_id w) (current_uuid w) (current_len w) v (current_started w) (unsynced_bytes w) (last_sync w) (synced_records w) (reported_records w) (records_written w) (bytes_written w) (syncs w).

Definition set_current_started (v : Z) (w : WalWriter) : WalWriter :=
  mkWriter (dir w) (segment_bytes w) (fsync_interval w) (fsync_bytes w) (current w) (current_path w) (current_id w) (current_uuid w) (current_len w) (roll_after w) v (unsynced_bytes w) (last_sync w) (synced_records w) (reported_records w) (records_written w) (bytes_written w) (syncs w).

Definition set_unsynced_bytes (v : Z) (w : WalWriter) : WalWriter :=
  mkWriter (dir w) (segment_bytes w) (fsync_interval w) (fsync_bytes w) (current w) (current_path w) (current_id w) (current_uuid w) (current_len w) (roll_after w) (current_started w) v (last_sync w) (synced_records w) (reported_records w) (records_written w) (bytes_written w) (syncs w).

Definition set_last_sync (v : Z) (w : WalWriter) : WalWriter :=
  mkWriter (dir w) (segment_bytes w) (fsync_interval w) (fsync_bytes w) (current w) (current_path w) (current_id w) (current_uuid w) (current_len w) (roll_after w) (current_started w) (unsynced_bytes w) v (synced_records w) (reported_records w) (records_written w) (bytes_written w) (syncs w).

Definition set_synced_records (v : Z) (w : WalWriter) : WalWriter :=
  mkWriter (dir w) (segment_bytes w) (fsync_interval w) (fsync_bytes w) (current w) (current_path w) (current_id w) (current_uuid w) (current_len w) (roll_after w) (current_started w) (unsynced_bytes w) (last_sync w) v (reported_records w) (records_written w) (bytes_written w) (syncs w).

Definition set_reported_records (v : Z) (w : WalWriter) : WalWriter :=
  mkWriter (dir w) (segment_bytes w) (fsync_interval w) (fsync_bytes w) (current w) (current_path w) (current_id w) (current_uuid w) (current_len w) (roll_after w) (current_started w) (unsynced_bytes w) (last_sync w) (synced_records w) v (records_written w) (bytes_written w) (syncs w).

Definition set_records_written (v : Z) (w : WalWriter) : WalWriter :=
  mkWriter (dir w) (segment_bytes w) (fsync_interval w) (fsync_bytes w) (current w) (current_path w) (current_id w) (current_uuid w) (current_len w) (roll_after w) (current_started w) (unsynced_bytes w) (last_sync w) (synced_records w) (reported_records w) v (bytes_written w) (syncs w).

Definition set_bytes_written (v : Z) (w : WalWriter) : WalWriter :=
  mkWriter (dir w) (segment_bytes w) (fsync_interval w) (fsync_bytes w) (current w) (current_path w) (current_id w) (current_uuid w) (current_len w) (roll_after w) (current_started w) (unsynced_bytes w) (last_sync w) (synced_records w) (reported_records w) (records_written w) v (syncs w).

Definition set_syncs (v : Z) (w : WalWriter) : WalWriter :=
  mkWriter (dir w) (segment_bytes w) (fsync_interval w) (fsync_bytes w) (current w) (current_path w) (current_id w) (current_uuid w) (current_len w) (roll_after w) (current_started w) (unsynced_bytes w) (last_sync w) (synced_records w) (reported_records w) (records_written w) (bytes_written w) v.

Section Wal.
Context (to_stdvec : list LogRecord -> option bytes).
Context (from_bytes : bytes -> option (list LogRecord)).
Context (crc32 : bytes -> Z).

Abbreviation W := (SE WalWriter WalError).

Definition open (d : Dir) (segment_bytes fsync_interval fsync_bytes now : Z) (uuid : bytes)
    : WalError + WalWriter :=
  let next_id := match last (list_segments d) with Some (id, _) => wadd64 id 1 | None => 1 end in
  match create_segment next_id uuid d with
  | inl e => inl e
  | inr (d', path) =>
      inr (mkWriter d' segment_bytes fsync_interval fsync_bytes [] path next_id uuid HEADER_BYTES
             None 0 0 now 0 0 0 0 0)
  end.

Definition with_roll_after (after : Z) (w : WalWriter) : WalWriter := set_roll_after (Some after) w.

(** [sync]: what was buffered is now in the file. *)
Definition sync (now : Z) : W unit :=
  modify (fun w =>
    let w := set_dir (write_file (current_path w) (fun c => c ++ current w) (dir w)) w in
    let w := set_current [] w in
    let w := set_unsynced_bytes 0 w in
    let w := set_last_sync now w in
    let w := set_synced_records (records_written w) w in
    set_syncs (syncs w + 1) w).

Definition roll (now : Z) (uuid : bytes) : W unit :=
  _ ← sync now;
  _ ← modify (fun w => set_current_id (wadd64 (current_id w) 1) w);
  w ← gets id;
  match create_segment (current_id w) uuid (dir w) with
  | inl e => fail e
  | inr (d, path) =>
      modify (fun w =>
        let w := set_dir d w in
        let w := set_current [] w in
        let w := set_current_path path w in
        let w := set_current_uuid uuid w in
        let w := set_current_len HEADER_BYTES w in
        set_current_started 0 w)
  end.

(** [roll_if_due]: older than the roll period since its first record. *)
Definition roll_due (now : Z) (w : WalWriter) : bool :=
  match roll_after w with
  | None => false
  | Some after =>
      negb (current_started w =? 0) && (Z.min after u64_max <=? sat_sub now (current_started w))
  end.
Definition roll_if_due (now : Z) (uuid : bytes) : W bool :=
  due ← gets (roll_due now);
  _ ← when due (roll now uuid);
  mret due.

Definition write_all (bs : bytes) : W unit := modify (fun w => set_current (current w ++ bs) w).

Definition append (batch : list LogRecord) (now : Z) (uuid : bytes) : W unit :=
  match batch with
  | [] => mret tt
  | _ =>
      match to_stdvec batch with
      | None => fail Encode
      | Some payload =>
          let len := Z.of_nat (List.length payload) in
          if u32_max <? len then fail Encode
          else
            let crc := crc32 payload in
            _ ← write_all (le_bytes 4 len);
            _ ← write_all (le_bytes 4 crc);
            _ ← write_all payload;
            let frame_bytes := FRAME_HEADER_BYTES + len in
            _ ← modify (fun w =>
                  let w := set_current_len (current_len w + frame_bytes) w in
                  let w := set_unsynced_bytes (unsynced_bytes w + frame_bytes) w in
                  let w := set_bytes_written (bytes_written w + frame_bytes) w in
                  set_records_written (records_written w + Z.of_nat (List.length batch)) w);
            full ← gets (fun w => segment_bytes w <=? current_len w);
            when full (roll now uuid)
      end
  end.

Definition append_at (batch : list LogRecord) (now : Z) (uuid1 uuid2 : bytes) : W unit :=
  match batch with
  | [] => mret tt
  | _ =>
      _ ← roll_if_due now uuid1;
      _ ← modify (fun w => if current_started w =? 0 then set_current_started (Z.max now 1) w else w);
      append batch now uuid2
  end.

Definition sync_due (now : Z) (w : WalWriter) : bool :=
  (0 <? unsynced_bytes w)
  && ((fsync_bytes w <=? unsynced_bytes w) || (fsync_interval w <=? Z.max 0 (now - last_sync w))).

Definition maybe_sync (now : Z) : W bool :=
  due ← gets (sync_due now);
  _ ← when due (sync now);
  advanced ← gets (fun w => reported_records w <? synced_records w);
  _ ← modify (fun w => set_reported_records (synced_records w) w);
  mret advanced.

(** ** The late spool *)

Record SplitConfig := mkSplitConfig {
  sc_segment_bytes : Z; sc_fsync_interval : Z; sc_fsync_bytes : Z;
  sc_late_threshold : Z; sc_late_roll : Z; sc_late_segment_bytes : Z
}.

Record SplitWal := mkSplit {
  main : WalWriter; late : WalWriter; late_threshold_nanos : Z; late_records : Z
}.

Abbreviation SW := (SE SplitWal WalError).

(** Run a method of one of the two logs. *)
Definition on_main {A} (m : W A) : SW A := fun s =>
  let '(r, w) := m (main s) in (r, mkSplit w (late s) (late_threshold_nanos s) (late_records s)).
Definition on_late {A} (m : W A) : SW A := fun s =>
  let '(r, w) := m (late s) in (r, mkSplit (main s) w (late_threshold_nanos s) (late_records s)).

Definition split_open (wal_dir late_dir : Dir) (c : SplitConfig) (now : Z) (u1 u2 : bytes)
    : WalError + SplitWal :=
  match open wal_dir (sc_segment_bytes c) (sc_fsync_interval c) (sc_fsync_bytes c) now u1 with
  | inl e => inl e
  | inr m =>
      match open late_dir (sc_late_segment_bytes c) (sc_fsync_interval c) (sc_fsync_bytes c) now u2 with
      | inl e => inl e
      | inr l =>
          inr (mkSplit m (with_roll_after (sc_late_roll c) l) (Z.min (sc_late_threshold c) u64_max) 0)
      end
  end.

Definition is_late (cutoff : Z) (r : LogRecord) : bool := timestamp_unix_nano r <? cutoff.

Definition split_append (batch : list LogRecord) (now : Z) (u1 u2 u3 : bytes) : SW unit :=
  cutoff ← gets (fun s => sat_sub now (late_threshold_nanos s));
  if negb (existsb (is_late cutoff) batch) then on_main (append batch now u1)
  else
    let '(lates, on_time) := List.partition (is_late cutoff) batch in
    _ ← modify (fun s => mkSplit (main s) (late s) (late_threshold_nanos s)
                           (late_records s + Z.of_nat (List.length lates)));
    _ ← on_main (append on_time now u1);
    on_late (append_at lates now u2 u3).

Definition split_sync (now : Z) : SW Z :=
  m ← gets (fun s => 0 <? unsynced_bytes (main s));
  _ ← when m (on_main (sync now));
  l ← gets (fun s => 0 <? unsynced_bytes (late s));
  _ ← when l (on_late (sync now));
  gets (fun s => records_written (main s) + records_written (late s)).

Definition split_maybe_sync (now : Z) (uuid : bytes) : SW (option Z) :=
  _ ← on_late (roll_if_due now uuid);
  a ← on_main (maybe_sync now);
  b ← on_late (maybe_sync now);
  if negb (a || b) then mret None
  else
    n ← split_sync now;
    mret (Some n).

Definition roll_main (now : Z) (uuid : bytes) : SW unit := on_main (roll now uuid).

(** ** Recovery *)

(** One turn of the replay loop: the batch and its payload length, and what
    is left to read; [None] where the loop breaks. *)
Definition read_frame (rest : bytes) : option (list LogRecord * Z * bytes) :=
  '(header, rest) ← read_full 8 rest;
  let len := le_val (take 4 header) in
  let crc := le_val (drop 4 header) in
  if (len =? 0) || (MAX_FRAME_BYTES <? len) then None
  else
    '(payload, rest) ← read_full len rest;
    if negb (crc32 payload =? crc) then None
    else
      batch ← from_bytes payload;
      Some (batch, len, rest).

Record SegmentOutcome := mkOutcome {
  o_batches : Z; o_records : Z; o_truncated_to : option Z; o_uuid : bytes
}.

(** The batches visited and [good_len]. *)
Fixpoint replay_loop (fuel : nat) (good_len : Z) (rest : bytes) : list (list LogRecord) * Z :=
  match fuel with
  | O => ([], good_len)
  | S fuel' =>
      match read_frame rest with
      | None => ([], good_len)
      | Some (batch, len, rest') =>
          let '(bs, g) := replay_loop fuel' (good_len + (FRAME_HEADER_BYTES + len)) rest' in
          (batch :: bs, g)
      end
  end.

Definition records_in (bs : list (list LogRecord)) : Z := sumZ (fun b => Z.of_nat (List.length b)) bs.

(** [replay_segment]: what it returns, the batches given to [visit], and the
    file as it leaves it. *)
Definition replay_segment (path : string) (truncate_damaged : bool) (file : bytes)
    : WalError + (SegmentOutcome * list (list LogRecord) * bytes) :=
  match read_full 8 file with
  | None => inl (BadMagic path)
  | Some (magic, rest) =>
      if negb (bool_decide (magic = MAGIC)) then inl (BadMagic path)
      else
        match read_full 16 rest with
        | None => inl (BadMagic path)
        | Some (uuid, rest) =>
            let '(bs, good_len) := replay_loop (List.length rest) HEADER_BYTES rest in
            let actual_len := Z.of_nat (List.length file) in
            let damaged := good_len <? actual_len in
            let file' := if damaged && truncate_damaged then take (Z.to_nat good_len) file else file in
            inr (mkOutcome (Z.of_nat (List.length bs)) (records_in bs)
                   (if damaged then Some good_len else None) uuid, bs, file')
        end
  end.

Record RecoveryReport := mkReport {
  segments_read : Z; batches : Z; records : Z; truncated : list (string * Z)
}.

Definition report0 : RecoveryReport := mkReport 0 0 0 [].

Definition recover_one (truncate_damaged : bool) (acc : RecoveryReport * list (list LogRecord) * Dir)
    (path : string) : WalError + (RecoveryReport * list (list LogRecord) * Dir) :=
  let '(report, visited, d) := acc in
  match lookup_file path d with
  | None => inl (Io path)
  | Some file =>
      match replay_segment path truncate_damaged file with
      | inl e => inl e
      | inr (o, bs, file') =>
          inr (mkReport (segments_read report + 1) (batches report + o_batches o)
                 (records report + o_records o)
                 (match o_truncated_to o with
                  | Some len => truncated report ++ [(path, len)]
                  | None => truncated report
                  end),
               visited ++ bs,
               write_file path (fun _ => file') d)
      end
  end.

Fixpoint recover_loop (truncate_damaged : bool) (paths : list string)
    (acc : RecoveryReport * list (list LogRecord) * Dir)
    : WalError + (RecoveryReport * list (list LogRecord) * Dir) :=
  match paths with
  | [] => inr acc
  | p :: paths' =>
      match recover_one truncate_damaged acc p with
      | inl e => inl e
      | inr acc' => recover_loop truncate_damaged paths' acc'
      end
  end.

Definition recover (d : Dir) (truncate_damaged : bool)
    : WalError + (RecoveryReport * list (list LogRecord) * Dir) :=
  recover_loop truncate_damaged (List.map snd (list_segments d)) (report0, [], d).

Definition is_incomplete_header (file : bytes) : bool :=
  let read := Nat.min (List.length file) 24 in
  let magic_seen := Nat.min read (List.length MAGIC) in
  Nat.ltb read 24 && bool_decide (take magic_seen file = take magic_seen MAGIC).

Definition segment_uuid (path : string) (file : bytes) : WalError + bytes :=
  match read_full 24 file with
  | None => inl (BadMagic path)
  | Some (header, _) =>
      if negb (bool_decide (take 8 header = MAGIC)) then inl (BadMagic path)
      else inr (drop 8 header)
  end.

Definition dir_bytes (d : Dir) : Z :=
  sumZ (fun s => match lookup_file (snd s) d with Some c => Z.of_nat (List.length c) | None => 0 end)
    (list_segments d).

(** ** Frames read back *)

Definition encode_frame (payload : bytes) : bytes :=
  le_bytes 4 (Z.of_nat (List.length payload)) ++ le_bytes 4 (crc32 payload) ++ payload.

(** The frame [append] writes for a batch. *)
Definition frame (batch : list LogRecord) : bytes :=
  match to_stdvec batch with Some p => encode_frame p | None => [] end.
Definition frames (bs : list (list LogRecord)) : bytes := List.concat (List.map frame bs).

(** A batch that encodes to a payload recovery will read. *)
Definition framable (batch : list LogRecord) : Prop :=
  exists p, to_stdvec batch = Some p /\ Z.of_nat (List.length p) <= MAX_FRAME_BYTES.

(** What the code relies on of [postcard] and [crc32fast]. *)
Class CodecLaws : Prop := {
  decode_encode : forall b p, to_stdvec b = Some p -> from_bytes p = Some b;
  encode_nonempty : forall b p, to_stdvec b = Some p -> p <> [];
  crc_range : forall p, u32_range (crc32 p)
}.

(** [read_frame] looks at the frame it returns and nothing after it. *)
Lemma read_frame_inv rest b len rest' :
  read_frame rest = Some (b, len, rest') ->
  exists f, rest = f ++ rest' /\ Z.of_nat (List.length f) = 8 + len /\ 0 < len /\
    forall t, read_frame (f ++ t) = Some (b, len, t).
Proof.
  unfold read_frame. intros H.
  bind_inv H x E. destruct x as [header r]. simpl in H.
  apply read_full_some in E as [-> Hh]; [|lia].
  pose proof (le_val_bound (take 4 header)).
  destruct (_ || _) eqn:Hl; [done|]. zbool.
  bind_inv H y E. destruct y as [payload r']. simpl in H.
  apply read_full_some in E as [-> Hp]; [|lia].
  destruct (negb _) eqn:Hc; [done|]. bind_inv H z E. injection H as <- <- <-.
  exists (header ++ payload). rewrite length_app.
  split; [by rewrite app_assoc|]. split; [lia|]. split; [lia|].
  intros t. rewrite <- app_assoc, read_full_app by done. rewrite bind_some.
  destruct (_ || _) eqn:Hl; [exfalso; apply orb_true_iff in Hl as [?|?]; zbool; lia|].
  rewrite read_full_app by done. rewrite bind_some, Hc, E. done.
Qed.

Lemma read_frame_nil : read_frame [] = None.
Proof. reflexivity. Qed.

Section Laws.
Context `{CodecLaws}.

Lemma frame_spec b : framable b ->
  exists p, frame b = encode_frame p /\ from_bytes p = Some b /\
    0 < Z.of_nat (List.length p) <= MAX_FRAME_BYTES.
Proof.
  intros (p & Hp & Hlen). exists p. unfold frame. rewrite Hp.
  split; [done|]. split; [by apply decode_encode|].
  pose proof (encode_nonempty b p Hp). destruct p; [done|]. simpl length in *. lia.
Qed.

Lemma max_frame_u32 z : 0 < z <= MAX_FRAME_BYTES -> u32_range z.
Proof. unfold MAX_FRAME_BYTES, u32_range, u32_max. lia. Qed.

Lemma read_frame_frame b t : framable b ->
  exists len, read_frame (frame b ++ t) = Some (b, len, t) /\
    Z.of_nat (List.length (frame b)) = 8 + len.
Proof.
  intros (p & -> & Hd & Hlen)%frame_spec. exists (Z.of_nat (List.length p)).
  assert (Z.of_nat (List.length (encode_frame p)) = 8 + Z.of_nat (List.length p)) as Hl.
  { unfold encode_frame. rewrite !length_app, !length_le_bytes. lia. }
  split; [|done]. unfold read_frame, encode_frame.
  rewrite (app_assoc (le_bytes 4 _)), <- (app_assoc _ p t).
  rewrite read_full_app by (rewrite length_app, !length_le_bytes; done).
  rewrite bind_some. cbv beta iota.
  rewrite take_app_length', drop_app_length' by by rewrite length_le_bytes.
  rewrite (le4_small (Z.of_nat _)) by by apply max_frame_u32.
  rewrite le4_small by apply crc_range.
  destruct (_ || _) eqn:E; [exfalso; apply orb_true_iff in E as [?|?]; zbool; lia|].
  rewrite read_full_app by done. rewrite bind_some, Z.eqb_refl. cbn [negb].
  by rewrite Hd, bind_some.
Qed.

(** A proper prefix of a frame is where replay stops. *)
Lemma read_frame_torn b k : framable b -> (k < List.length (frame b))%nat ->
  read_frame (take k (frame b)) = None.
Proof.
  intros (p & -> & Hd & Hlen)%frame_spec Hk. unfold read_frame.
  assert (List.length (encode_frame p) = 8 + List.length p)%nat as Hl.
  { unfold encode_frame. rewrite !length_app, !length_le_bytes. lia. }
  destruct (decide (k < 8)%nat) as [|H8].
  { rewrite read_full_short; [done|]. rewrite length_take. lia. }
  unfold encode_frame. rewrite app_assoc.
  set (hd := le_bytes 4 _ ++ le_bytes 4 _).
  assert (List.length hd = 8%nat) as Hhd by (unfold hd; by rewrite length_app, !length_le_bytes).
  rewrite take_app, (take_ge hd) by (rewrite Hhd; lia). rewrite read_full_app by (rewrite Hhd; done).
  rewrite bind_some. cbv beta iota.
  assert (le_val (take 4 hd) = Z.of_nat (List.length p)) as ->.
  { unfold hd. rewrite take_app_length' by by rewrite length_le_bytes.
    by apply le4_small, max_frame_u32. }
  destruct (_ || _) eqn:E; [done|].
  rewrite read_full_short; [done|]. rewrite length_take. rewrite Hhd. lia.
Qed.

Lemma take_frames k bs : Forall framable bs ->
  exists j t, take k (frames bs) = frames (take j bs) ++ t /\ read_frame t = None.
Proof.
  intros Hb. revert k. induction Hb as [|b bs Hfb Hbs IH]; intros k.
  { exists 0%nat, []. split; [by destruct k|apply read_frame_nil]. }
  unfold frames. cbn [List.map List.concat].
  destruct (decide (k < List.length (frame b))%nat) as [Hk|Hk].
  - exists 0%nat, (take k (frame b)). rewrite take_app_le by lia.
    split; [done|by apply read_frame_torn].
  - destruct (IH (k - List.length (frame b))%nat) as (j & t & Ht & Hn).
    exists (S j), t. rewrite take_app, take_ge by lia.
    unfold frames in Ht. rewrite Ht. cbn [take List.map List.concat].
    split; [by rewrite <- app_assoc|done].
Qed.

Lemma frame_length b : framable b -> (9 <= List.length (frame b))%nat.
Proof.
  intros (p & -> & _ & Hlen)%frame_spec. unfold encode_frame.
  rewrite !length_app, !length_le_bytes. lia.
Qed.

Lemma frames_length bs : Forall framable bs -> (List.length bs <= List.length (frames bs))%nat.
Proof.
  induction 1 as [|b bs Hb Hbs IH]; [simpl; lia|].
  unfold frames in *. simpl. rewrite length_app. pose proof (frame_length b Hb). lia.
Qed.

Lemma replay_loop_frames bs : forall fuel good t, Forall framable bs -> read_frame t = None ->
  (List.length bs <= fuel)%nat ->
  replay_loop fuel good (frames bs ++ t) = (bs, good + Z.of_nat (List.length (frames bs))).
Proof.
  induction bs as [|b bs IH]; intros fuel good t Hb Ht Hfuel.
  - simpl. destruct fuel; simpl; [by rewrite Z.add_0_r|]. rewrite Ht. by rewrite Z.add_0_r.
  - inversion Hb as [|? ? Hfb Hbs]; subst. destruct fuel as [|fuel]; [simpl in Hfuel; lia|].
    unfold frames. cbn [List.map List.concat]. rewrite <- app_assoc. cbn [replay_loop].
    destruct (read_frame_frame b (List.concat (List.map frame bs) ++ t) Hfb) as (len & -> & Hlen).
    fold (frames bs). rewrite IH; [|done|done|simpl in Hfuel; lia].
    f_equal. rewrite length_app. unfold FRAME_HEADER_BYTES. lia.
Qed.

End Laws.

(** Replay of any file ends where no frame can be read: the fuel never runs
    out first. *)
Lemma replay_loop_stops fuel : forall good rest bs g,
  (List.length rest <= fuel)%nat -> replay_loop fuel good rest = (bs, g) ->
  exists f t, rest = f ++ t /\ g = good + Z.of_nat (List.length f) /\ read_frame t = None /\
    (List.length bs <= List.length f)%nat /\
    forall fuel' u, (List.length f <= fuel')%nat -> read_frame u = None ->
      replay_loop fuel' good (f ++ u) = (bs, g).
Proof.
  induction fuel as [|fuel IH]; intros good rest bs g Hf Hr.
  - destruct rest; [|simpl in Hf; lia]. injection Hr as <- <-.
    exists [], []. repeat split; try done; [simpl; lia|].
    intros [|fuel'] u _ Hu; simpl; [done|]. by rewrite Hu.
  - simpl in Hr. destruct (read_frame rest) as [[[b len] rest']|] eqn:E.
    + apply read_frame_inv in E as (f & -> & Hlen & Hpos & Hany).
      destruct (replay_loop fuel _ rest') as [bs' g'] eqn:E'. injection Hr as <- <-.
      rewrite length_app in Hf. apply IH in E' as (f' & t & -> & -> & Ht & Hb & Hall); [|lia].
      exists (f ++ f'), t. rewrite length_app, <- app_assoc. unfold FRAME_HEADER_BYTES in *.
      repeat split; [lia|done|simpl; lia|].
      intros [|fuel'] u Hfu Hu; [lia|]. simpl. rewrite <- app_assoc, Hany.
      rewrite Hall; [done|lia|done].
    + injection Hr as <- <-. exists [], rest. repeat split; try done; [simpl; lia|].
      intros [|fuel'] u _ Hu; simpl; [done|]. by rewrite Hu.
Qed.

(** Replaying a segment is total on any bytes after a whole header, and
    truncating its damaged tail is idempotent: a second replay gives the same
    batches and finds nothing damaged. *)
Theorem replay_truncate_idempotent path file o bs file' :
  replay_segment path true file = inr (o, bs, file') ->
  replay_segment path true file' =
    inr (mkOutcome (o_batches o) (o_records o) None (o_uuid o), bs, file') /\
  (List.length file' <= List.length file)%nat /\
  (o_truncated_to o = None <-> file' = file).
Proof.
  unfold replay_segment. intros Hr.
  destruct (read_full 8 file) as [[magic rest]|] eqn:E1; [|done].
  apply read_full_some in E1 as [-> Hm]; [|lia].
  destruct (negb _) eqn:E2; [done|].
  destruct (read_full 16 rest) as [[uuid rest']|] eqn:E3; [|done].
  apply read_full_some in E3 as [-> Hu]; [|lia].
  destruct (replay_loop (List.length rest') HEADER_BYTES rest') as [bs' g] eqn:E4.
  apply replay_loop_stops in E4 as (f & t & -> & Hg & Ht & _ & Hall); [|done].
  destruct (_ <? _) eqn:E5; zbool.
  - cbn [andb] in Hr. injection Hr as <- <- <-.
    assert (take (Z.to_nat g) (magic ++ uuid ++ f ++ t) = magic ++ uuid ++ f) as ->.
    { rewrite (app_assoc uuid), (app_assoc magic).
      rewrite take_app_length'; [done|]. rewrite !length_app. unfold HEADER_BYTES in Hg. lia. }
    rewrite read_full_app, E2 by done. rewrite read_full_app by done.
    specialize (Hall (List.length f) [] ltac:(lia) read_frame_nil).
    rewrite app_nil_r in Hall. rewrite Hall.
    rewrite !length_app in *. unfold HEADER_BYTES in *.
    destruct (_ <? _) eqn:E6; zbool; [lia|]. simpl. split; [done|]. split; [lia|].
    split; [done|]. intros Heq%(f_equal length). rewrite !length_app in Heq. lia.
  - rewrite !length_app in *. unfold HEADER_BYTES in *.
    assert (t = []) as -> by (destruct t; [done|simpl in E5; lia]).
    cbn [andb] in Hr. injection Hr as <- <- <-.
    rewrite read_full_app, E2 by done. rewrite read_full_app by done.
    rewrite (Hall _ []); [|rewrite length_app; lia|apply read_frame_nil].
    rewrite !length_app in *. simpl length in *.
    destruct (_ <? _) eqn:E6; zbool; [lia|]. done.
Qed.

(** A crash while the header is being written leaves a file that
    [is_incomplete_header] recognises and that replay refuses; a file with a
    whole header is never taken for one. *)
Theorem incomplete_header_spec path uuid k t :
  List.length uuid = 16%nat ->
  ((k < 24)%nat -> is_incomplete_header (take k (MAGIC ++ uuid)) = true /\
     replay_segment path true (take k (MAGIC ++ uuid)) = inl (BadMagic path)) /\
  is_incomplete_header (MAGIC ++ uuid ++ t) = false /\
  segment_uuid path (MAGIC ++ uuid ++ t) = inr uuid.
Proof.
  intros Hu. split; [intros Hk; split|split].
  - unfold is_incomplete_header. rewrite length_take, length_app, Hu.
    change (List.length MAGIC) with 8%nat.
    replace (Nat.min (Nat.min k (8 + 16)) 24) with k by lia.
    apply andb_true_iff. split; [by apply Nat.ltb_lt|]. apply bool_decide_eq_true.
    rewrite take_take. rewrite take_app_le; [f_equal; lia|]. change (length MAGIC) with 8%nat. lia.
  - unfold replay_segment. destruct (decide (k < 8)%nat).
    + rewrite read_full_short; [done|]. rewrite length_take. lia.
    + rewrite take_app, (take_ge MAGIC) by (change (length MAGIC) with 8%nat; lia).
      rewrite read_full_app by done. rewrite bool_decide_true by done. cbn [negb].
      rewrite read_full_short; [done|]. rewrite length_take, Hu. change (length MAGIC) with 8%nat. lia.
  - unfold is_incomplete_header. rewrite !length_app, Hu. change (List.length MAGIC) with 8%nat.
    replace (Nat.min (8 + (16 + List.length t)) 24) with 24%nat by lia. done.
  - unfold segment_uuid. rewrite app_assoc, read_full_app by (rewrite length_app, Hu; done).
    rewrite take_app_length', drop_app_length' by done. by rewrite bool_decide_true.
Qed.

End Wal.
