(* ===== verification/WalRecovery.v ===== *)
(** What a crash can cost the write-ahead log: the invariant of a writer's
    directory over any sequence of its operations, and the batches recovery
    gives back ([crates/logless-core/src/wal.rs]). *)

From stdpp Require Import sorting.
From S2P Require Import Prelude Text Float Model Lists Files Wal.
Open Scope Z_scope.
Open Scope list_scope.

Lemma segment_id_name id : u64_range id -> segment_id (segment_name id) = Some id.
Proof.
  intros H. unfold segment_id, wal_stem, segment_name. rewrite strip_suffix_app.
  destruct (pad0 12 id) as [|c s] eqn:E; [by apply pad0_nonempty in E|].
  rewrite bind_some, <- E. apply parse_uint_pad0. done.
Qed.

Lemma segment_name_inj a b : u64_range a -> u64_range b -> segment_name a = segment_name b -> a = b.
Proof. intros Ha Hb H. apply segment_id_name in Ha, Hb. congruence. Qed.

(** ** Segments *)

Record Seg := mkSeg { seg_id : Z; seg_uuid : bytes; seg_batches : list (list LogRecord) }.

Section Recovery.
Context (to_stdvec : list LogRecord -> option bytes).
Context (from_bytes : bytes -> option (list LogRecord)).
Context (crc32 : bytes -> Z).
Context `{!CodecLaws to_stdvec from_bytes crc32}.

Abbreviation frame := (frame to_stdvec crc32).
Abbreviation frames := (frames to_stdvec crc32).
Abbreviation framable := (framable to_stdvec).

(** The file of a segment whose batches are all on disk. *)
Definition seg_file (s : Seg) : string * bytes :=
  (segment_name (seg_id s), MAGIC ++ seg_uuid s ++ frames (seg_batches s)).

Definition seg_ok (s : Seg) : Prop :=
  u64_range (seg_id s) /\ List.length (seg_uuid s) = 16%nat /\ Forall framable (seg_batches s).

Definition seg_lt (a b : Seg) : Prop := seg_id a < seg_id b.

(** A directory of the log: segments in order of their ids. *)
Definition log_ok (segs : list Seg) : Prop := Forall seg_ok segs /\ StronglySorted seg_lt segs.

Definition history (segs : list Seg) : list (list LogRecord) := List.concat (List.map seg_batches segs).

Lemma seg_names_fst segs : List.map fst (List.map seg_file segs) = List.map (fun s => segment_name (seg_id s)) segs.
Proof. by rewrite map_map. Qed.

Lemma log_names_fresh segs id : Forall seg_ok segs -> u64_range id ->
  Forall (fun s => seg_id s <> id) segs -> ~ In (segment_name id) (List.map fst (List.map seg_file segs)).
Proof.
  intros Hok Hid Hne Hin. rewrite seg_names_fst in Hin. apply in_map_iff in Hin as (s & Hs & Hin).
  apply list_elem_of_In in Hin. rewrite Forall_forall in Hok, Hne.
  apply (Hne s Hin), segment_name_inj; [by apply Hok|done|done].
Qed.

Lemma log_names_nodup segs : log_ok segs -> NoDup (List.map fst (List.map seg_file segs)).
Proof.
  intros [Hok Hs]. induction Hs as [|s segs Hs IH Hlt]; simpl; [constructor|].
  inversion Hok as [|? ? Hsok Hok']; subst. constructor; [|by apply IH].
  rewrite list_elem_of_In. apply log_names_fresh; [done|apply Hsok|].
  eapply Forall_impl; [exact Hlt|]. unfold seg_lt. intros. lia.
Qed.

Lemma by_id_sorted segs : StronglySorted seg_lt segs ->
  StronglySorted (fun a b => by_id a b = true) (List.map (fun s => (seg_id s, segment_name (seg_id s))) segs).
Proof.
  induction 1 as [|s segs _ IH Hlt]; simpl; constructor; [done|].
  rewrite Forall_map. eapply Forall_impl; [exact Hlt|]. unfold seg_lt, by_id. simpl. intros. lia.
Qed.

(** [list_segments] of the log's files, however [read_dir] orders them. *)
Lemma list_segments_log segs d : log_ok segs -> Permutation (List.map fst d) (List.map fst (List.map seg_file segs)) ->
  list_segments d = List.map (fun s => (seg_id s, segment_name (seg_id s))) segs.
Proof.
  intros [Hok Hs] Hp. unfold list_segments.
  set (f := fun name => (fun id => (id, name)) <$> segment_id name).
  assert (omap (fun f => (fun id => (id, fst f)) <$> segment_id (fst f)) d = omap f (List.map fst d)) as ->
    by (symmetry; apply omap_map).
  assert (omap f (List.map fst (List.map seg_file segs)) =
          List.map (fun s => (seg_id s, segment_name (seg_id s))) segs) as Ho.
  { rewrite seg_names_fst, omap_map. apply omap_all. eapply Forall_impl; [exact Hok|].
    intros s Hsok. unfold f. rewrite segment_id_name by apply Hsok. done. }
  apply (StronglySorted_unique_strong (fun a b => by_id a b = true)).
  - intros x y Hx Hy Hxy Hyx. rewrite stable_sort_perm, Hp, Ho in Hx.
    apply list_elem_of_In, in_map_iff in Hx as (s & <- & _).
    apply list_elem_of_In, in_map_iff in Hy as (s' & <- & _).
    unfold by_id in *. simpl in *. zbool. assert (seg_id s = seg_id s') as -> by lia. done.
  - apply stable_sort_sorted; unfold by_id; intros; destruct (_ <=? _) eqn:?; zbool; try lia; auto.
    all: right; apply Z.leb_le; lia.
  - by apply by_id_sorted.
  - rewrite stable_sort_perm, Hp, Ho. done.
Qed.

(** ** Recovery of a log *)

Lemma replay_seg path s t : seg_ok s -> read_frame from_bytes crc32 t = None ->
  exists o file', replay_segment from_bytes crc32 path true ((seg_file s).2 ++ t) =
    inr (o, seg_batches s, file') /\
    o_batches o = Z.of_nat (List.length (seg_batches s)) /\ o_records o = records_in (seg_batches s) /\
    (o_truncated_to o = None <-> t = []).
Proof.
  intros (_ & Hu & Hf) Ht. unfold seg_file, replay_segment. cbn [snd].
  rewrite <- !app_assoc, read_full_app by done. rewrite bool_decide_true by done. cbn [negb].
  rewrite read_full_app by (rewrite Hu; done).
  rewrite (replay_loop_frames to_stdvec from_bytes crc32) by
    (try done; rewrite length_app; pose proof (frames_length to_stdvec from_bytes crc32 (seg_batches s) Hf); lia).
  eexists _, _. split; [done|]. split; [done|]. split; [done|].
  rewrite !length_app, Hu. change (List.length MAGIC) with 8%nat. unfold HEADER_BYTES. simpl.
  destruct (_ <? _) eqn:E; zbool.
  - split; [done|]. intros ->. simpl in E. lia.
  - split; [|done]. intros _. destruct t; [done|]. simpl in E. lia.
Qed.

Lemma records_in_app a b : records_in (a ++ b) = records_in a + records_in b.
Proof. apply sumZ_app. Qed.

Lemma history_app a b : history (a ++ b) = history a ++ history b.
Proof. unfold history. by rewrite map_app, concat_app. Qed.

Lemma recover_loop_segs (tail : Z -> bytes) todo : forall d report visited,
  log_ok todo -> (forall id, read_frame from_bytes crc32 (tail id) = None) ->
  Forall (fun s => lookup_file (segment_name (seg_id s)) d = Some ((seg_file s).2 ++ tail (seg_id s))) todo ->
  exists report' d',
    recover_loop from_bytes crc32 true (List.map (fun s => segment_name (seg_id s)) todo) (report, visited, d)
      = inr (report', visited ++ history todo, d') /\
    records report' = records report + records_in (history todo) /\
    segments_read report' = segments_read report + Z.of_nat (List.length todo).
Proof.
  induction todo as [|s todo IH]; intros d report visited [Hok Hs] Ht Hl.
  { exists report, d. unfold history. simpl. rewrite app_nil_r. split; [done|]. split; [|lia].
    unfold records_in. simpl. lia. }
  inversion Hok as [|? ? Hsok Hok']; subst. inversion Hs as [|? ? Hs' Hlt]; subst.
  inversion Hl as [|? ? Hls Hl']; subst.
  destruct (replay_seg (segment_name (seg_id s)) s (tail (seg_id s)) Hsok (Ht _))
    as (o & file' & Hr & _ & Hrec & _).
  cbn [List.map recover_loop]. unfold recover_one at 1. rewrite Hls, Hr.
  edestruct (IH (write_file (segment_name (seg_id s)) (fun _ => file') d)) as (rep' & d' & Hrun & Hrr & Hsr).
  { by split. } { done. }
  { apply Forall_forall. intros s' Hin. rewrite lookup_write_ne.
    - rewrite Forall_forall in Hl'. by apply Hl'.
    - intros Hn. rewrite Forall_forall in Hlt, Hok'. apply segment_name_inj in Hn.
      + specialize (Hlt s' Hin). unfold seg_lt in Hlt. lia.
      + apply Hsok.
      + by apply Hok'. }
  exists rep', d'. split; [|split].
  - rewrite Hrun. unfold history. cbn [List.map List.concat]. by rewrite <- app_assoc.
  - rewrite Hrr. cbn [records]. rewrite Hrec. unfold history. cbn [List.map List.concat].
    rewrite records_in_app. lia.
  - rewrite Hsr. cbn [segments_read List.length]. lia.
Qed.

Lemma history_fresh segs id uuid : history (segs ++ [mkSeg id uuid []]) = history segs.
Proof. rewrite history_app. unfold history at 2. simpl. apply app_nil_r. Qed.

(** ** The writer's invariant *)

Definition extend (s : Seg) (bs : list (list LogRecord)) : Seg :=
  mkSeg (seg_id s) (seg_uuid s) (seg_batches s ++ bs).

(** The writer is in segment [cur], after the segments [segs]; the batches
    [pend] are written and not synced; [base] records were there before it. *)
Record Rep (w : WalWriter) (segs : list Seg) (cur : Seg) (pend : list (list LogRecord)) (base : Z) : Prop := {
  rep_ok : log_ok (segs ++ [cur]);
  rep_pend : Forall framable pend;
  rep_dir : dir w = List.map seg_file (segs ++ [cur]);
  rep_path : current_path w = segment_name (seg_id cur);
  rep_id : current_id w = seg_id cur;
  rep_current : current w = frames pend;
  rep_unsynced : unsynced_bytes w = Z.of_nat (List.length (current w));
  rep_written : records_written w = records_in (history (segs ++ [cur]) ++ pend) - base;
  rep_synced : synced_records w = records_in (history (segs ++ [cur])) - base
}.

Lemma frames_app a b : frames (a ++ b) = frames a ++ frames b.
Proof. unfold Wal.frames. by rewrite map_app, concat_app. Qed.

Lemma history_extend segs cur bs :
  history (segs ++ [extend cur bs]) = history (segs ++ [cur]) ++ bs.
Proof. rewrite !history_app. unfold history. simpl. by rewrite !app_nil_r, app_assoc. Qed.

Lemma StronglySorted_snoc_iff {A} (R : A -> A -> Prop) l x :
  StronglySorted R (l ++ [x]) <-> StronglySorted R l /\ Forall (fun y => R y x) l.
Proof.
  induction l as [|a l IH]; simpl.
  { split; [intros _; split; constructor|intros _; repeat constructor]. }
  split.
  - inversion 1 as [|? ? Hs Hf]; subst. apply IH in Hs as [Hs Hx].
    apply Forall_app in Hf as [Hf Ha]. inversion Ha; subst. split; constructor; done.
  - intros [Hs Hx]. inversion Hs; subst. inversion Hx; subst. constructor; [by apply IH|].
    apply Forall_app. split; [done|]. by constructor.
Qed.

Lemma log_ok_extend segs cur bs : log_ok (segs ++ [cur]) -> Forall framable bs ->
  log_ok (segs ++ [extend cur bs]).
Proof.
  intros [Hok Hs] Hb. apply StronglySorted_snoc_iff in Hs as [Hs Hlt].
  apply Forall_app in Hok as [Hok Hc]. inversion Hc as [|? ? (H1 & H2 & H3) _]; subst. split.
  - apply Forall_app. split; [done|]. constructor; [|constructor].
    split; [done|]. split; [done|]. simpl. by apply Forall_app.
  - apply StronglySorted_snoc_iff. done.
Qed.

Lemma log_ok_snoc segs cur uuid : log_ok (segs ++ [cur]) -> seg_id cur + 1 <= u64_max ->
  List.length uuid = 16%nat -> log_ok ((segs ++ [cur]) ++ [mkSeg (seg_id cur + 1) uuid []]).
Proof.
  intros [Hok Hs] Hroom Hu. pose proof Hok as Hok0.
  apply Forall_app in Hok0 as [_ Hc]. inversion Hc as [|? ? (H1 & _ & _) _]; subst.
  split.
  - apply Forall_app. split; [done|]. constructor; [|constructor].
    split; [|split; [done|constructor]]. unfold u64_range in *. simpl. lia.
  - apply StronglySorted_snoc_iff. split; [done|].
    apply StronglySorted_snoc_iff in Hs as [_ Hlt]. unfold seg_lt in *. simpl.
    apply Forall_app. split; [|constructor; [lia|constructor]].
    eapply Forall_impl; [exact Hlt|]. simpl. intros. lia.
Qed.

Lemma write_last segs cur g : log_ok (segs ++ [cur]) ->
  write_file (segment_name (seg_id cur)) g (List.map seg_file (segs ++ [cur])) =
  List.map seg_file segs ++ [(segment_name (seg_id cur), g (seg_file cur).2)].
Proof.
  intros [Hok Hs]. apply StronglySorted_snoc_iff in Hs as [_ Hlt].
  apply Forall_app in Hok as [Hok Hc]. inversion Hc as [|? ? (H1 & _ & _) _]; subst.
  rewrite map_app. unfold write_file. rewrite map_app. f_equal.
  - apply (write_file_notin _ g). apply log_names_fresh; [done|done|].
    eapply Forall_impl; [exact Hlt|]. unfold seg_lt. intros. lia.
  - simpl. by rewrite String.eqb_refl.
Qed.

Lemma sync_rep w segs cur pend base now : Rep w segs cur pend base ->
  exists w', sync now w = (inr tt, w') /\ Rep w' segs (extend cur pend) [] base /\
    current_id w' = current_id w.
Proof.
  intros H. eexists. split; [reflexivity|]. split; [|done]. destruct H.
  constructor; simpl; try done.
  - by apply log_ok_extend.
  - rewrite rep_path0, rep_dir0, write_last, map_app by done. simpl. do 2 f_equal.
    unfold seg_file. simpl. by rewrite frames_app, rep_current0, !app_assoc.
  - by rewrite rep_written0, history_extend, app_nil_r.
  - by rewrite rep_written0, history_extend.
Qed.

Lemma create_fresh segs cur uuid : log_ok (segs ++ [cur]) -> seg_id cur + 1 <= u64_max ->
  create_segment (seg_id cur + 1) uuid (List.map seg_file (segs ++ [cur])) =
  inr (List.map seg_file ((segs ++ [cur]) ++ [mkSeg (seg_id cur + 1) uuid []]), segment_name (seg_id cur + 1)).
Proof.
  intros [Hok Hs] Hroom. unfold create_segment. rewrite lookup_file_none.
  - rewrite (map_app seg_file (segs ++ [cur])). do 3 f_equal. unfold seg_file. simpl. by rewrite app_nil_r.
  - pose proof Hok as Hok0. apply Forall_app in Hok0 as [_ Hc]. inversion Hc as [|? ? (H1 & _ & _) _]; subst.
    apply log_names_fresh; [done|unfold u64_range in *; lia|].
    apply StronglySorted_snoc_iff in Hs as [_ Hlt]. apply Forall_app. unfold seg_lt in *.
    split; [|constructor; [lia|constructor]]. eapply Forall_impl; [exact Hlt|]. simpl. intros. lia.
Qed.

Lemma roll_rep w segs cur pend base now uuid : Rep w segs cur pend base ->
  current_id w + 1 <= u64_max -> List.length uuid = 16%nat ->
  exists w', roll now uuid w = (inr tt, w') /\
    Rep w' (segs ++ [extend cur pend]) (mkSeg (current_id w + 1) uuid []) [] base.
Proof.
  intros Hrep Hroom Hu. destruct (sync_rep _ _ _ _ _ now Hrep) as (w1 & Hs & H1 & Hid).
  unfold roll. rewrite (SE_bind_run _ _ _ _ _ Hs). clear Hs.
  pose proof (rep_id _ _ _ _ _ H1) as Hid1. rewrite Hid in Hid1.
  assert (0 <= current_id w) as Hpos.
  { destruct H1. destruct rep_ok0 as [Hok _]. apply Forall_app in Hok as [_ Hc].
    inversion Hc as [|? ? (Hr & _) _]; subst. unfold u64_range in Hr. lia. }
  unfold mbind at 1, SE_bind at 1, modify at 1. unfold mbind at 1, SE_bind at 1, gets at 1.
  unfold id. cbn [ current_id set_current_id dir]. rewrite Hid, wadd64_small by (unfold u64_range; lia).
  destruct H1. rewrite Hid1. rewrite rep_dir0, create_fresh by (try done; lia).
  eexists. split; [reflexivity|]. constructor; simpl; try done.
  - refine (log_ok_snoc segs (extend cur pend) uuid _ _ _); [done| |done]. simpl in *. lia.
  - by rewrite rep_unsynced0, rep_current0.
  - by rewrite rep_written0, history_fresh.
  - by rewrite rep_synced0, history_fresh.
Qed.

(** ** The abstract log

    What a writer promises: the batches appended so far, in order, and how
    many of them are on disk. *)

Record LogSpec := mkLog { appended : list (list LogRecord); durable : list (list LogRecord) }.

(** [w] implements the abstract log [a]. *)
Definition implements (base : list (list LogRecord)) (w : WalWriter) (a : LogSpec) : Prop :=
  exists segs cur pend,
    Rep w segs cur pend (records_in base) /\
    history (segs ++ [cur]) = base ++ durable a /\
    base ++ appended a = history (segs ++ [cur]) ++ pend.

(** The operations of a writer, with the clock and the fresh UUIDs each may
    use. *)
Inductive Op :=
| OpAppend (batch : list LogRecord) (now : Z) (u : bytes)
| OpAppendAt (batch : list LogRecord) (now : Z) (u1 u2 : bytes)
| OpRollIfDue (now : Z) (u : bytes)
| OpMaybeSync (now : Z)
| OpSync (now : Z)
| OpRoll (now : Z) (u : bytes).

Definition discard {A} (m : SE WalWriter WalError A) : SE WalWriter WalError unit := _ ← m; mret tt.

Definition exec (o : Op) : SE WalWriter WalError unit :=
  match o with
  | OpAppend b now u => append to_stdvec crc32 b now u
  | OpAppendAt b now u1 u2 => append_at to_stdvec crc32 b now u1 u2
  | OpRollIfDue now u => discard (roll_if_due now u)
  | OpMaybeSync now => discard (maybe_sync now)
  | OpSync now => sync now
  | OpRoll now u => roll now u
  end.

Fixpoint run (ops : list Op) : SE WalWriter WalError unit :=
  match ops with
  | [] => mret tt
  | o :: ops' => _ ← exec o; run ops'
  end.

Definition op_batches (o : Op) : list (list LogRecord) :=
  match o with
  | OpAppend b _ _ | OpAppendAt b _ _ _ => match b with [] => [] | _ => [b] end
  | _ => []
  end.

Definition uuid_ok (u : bytes) : Prop := List.length u = 16%nat.
Definition op_ok (o : Op) : Prop :=
  Forall framable (op_batches o) /\
  match o with
  | OpAppend _ _ u | OpRollIfDue _ u | OpRoll _ u => uuid_ok u
  | OpAppendAt _ _ u1 u2 => uuid_ok u1 /\ uuid_ok u2
  | _ => True
  end.

(** What one operation may do to the abstract log: append its batches, and
    make any number of batches durable, in order. *)
Definition spec_step (bs : list (list LogRecord)) (a a' : LogSpec) : Prop :=
  appended a' = appended a ++ bs /\ (exists more, durable a' = durable a ++ more) /\
  (exists rest, appended a' = durable a' ++ rest).

Lemma implements_prefix base w a : implements base w a -> exists rest, appended a = durable a ++ rest.
Proof.
  intros (segs & cur & pend & _ & Hd & Ha). exists pend. rewrite Hd, <- app_assoc in Ha.
  by apply app_inv_head in Ha.
Qed.

Lemma sync_implements base w a now : implements base w a ->
  exists w', sync now w = (inr tt, w') /\ implements base w' (mkLog (appended a) (appended a)) /\
    current_id w' = current_id w.
Proof.
  intros (segs & cur & pend & Hrep & Hd & Ha).
  destruct (sync_rep _ _ _ _ _ now Hrep) as (w' & Hs & Hrep' & Hid).
  exists w'. split; [done|]. split; [|done]. exists segs, (extend cur pend), []. split; [done|].
  rewrite history_extend, app_nil_r. simpl. by rewrite Ha.
Qed.

Lemma roll_implements base w a now u : implements base w a ->
  current_id w + 1 <= u64_max -> uuid_ok u ->
  exists w', roll now u w = (inr tt, w') /\ implements base w' (mkLog (appended a) (appended a)) /\
    current_id w' = current_id w + 1.
Proof.
  intros (segs & cur & pend & Hrep & Hd & Ha) Hroom Hu.
  destruct (roll_rep _ _ _ _ _ now u Hrep Hroom Hu) as (w' & Hs & Hrep').
  exists w'. split; [done|]. split; [|by destruct Hrep'].
  eexists _, _, []. split; [exact Hrep'|].
  rewrite history_fresh, history_extend, app_nil_r. simpl. by rewrite Ha.
Qed.

(** The state just after the frame of [b] was written. *)
Definition written (b : list LogRecord) (w : WalWriter) : WalWriter :=
  let n := Z.of_nat (List.length (frame b)) in
  set_records_written (records_written w + Z.of_nat (List.length b))
    (set_bytes_written (bytes_written w + n)
       (set_unsynced_bytes (unsynced_bytes w + n)
          (set_current_len (current_len w + n) (set_current (current w ++ frame b) w)))).

Lemma append_encoded b p now u w : b <> [] -> to_stdvec b = Some p -> Z.of_nat (List.length p) <= u32_max ->
  append to_stdvec crc32 b now u w =
  when (segment_bytes w <=? current_len (written b w)) (roll now u) (written b w).
Proof.
  intros Hne Hp Hlen. unfold append. destruct b as [|r b]; [done|].
  unfold written, Wal.frame. rewrite Hp.
  destruct (_ <? _) eqn:E; zbool; [lia|]. unfold encode_frame.
  assert (Z.of_nat (List.length (le_bytes 4 (Z.of_nat (List.length p)) ++ le_bytes 4 (crc32 p) ++ p)) =
    FRAME_HEADER_BYTES + Z.of_nat (List.length p)) as ->.
  { rewrite !length_app, !length_le_bytes. unfold FRAME_HEADER_BYTES. lia. }
  rewrite !app_assoc. reflexivity.
Qed.

Lemma append_run b now u w : b <> [] -> framable b ->
  append to_stdvec crc32 b now u w =
  when (segment_bytes w <=? current_len (written b w)) (roll now u) (written b w).
Proof.
  intros Hne (p & Hp & Hlen). apply (append_encoded b p); [done|done|].
  unfold MAX_FRAME_BYTES, u32_max in *. lia.
Qed.

Lemma written_implements base w a b : implements base w a -> framable b ->
  implements base (written b w) (mkLog (appended a ++ [b]) (durable a)).
Proof.
  intros (segs & cur & pend & [] & Hd & Ha) Hb. exists segs, cur, (pend ++ [b]).
  split; [|split; [done|]; simpl; by rewrite app_assoc, Ha, app_assoc].
  constructor; simpl; try done.
  - apply Forall_app. split; [done|]. by constructor.
  - rewrite rep_current0, frames_app. unfold Wal.frames. simpl. by rewrite app_nil_r.
  - rewrite length_app, rep_unsynced0. lia.
  - rewrite rep_written0, app_assoc, (records_in_app _ [b]). unfold records_in at 4. simpl. lia.
Qed.

Lemma append_implements base w a b now u : implements base w a -> b <> [] -> framable b ->
  current_id w + 1 <= u64_max -> uuid_ok u ->
  exists w' d, append to_stdvec crc32 b now u w = (inr tt, w') /\
    implements base w' (mkLog (appended a ++ [b]) d) /\ (exists more, d = durable a ++ more) /\
    current_id w' <= current_id w + 1.
Proof.
  intros Hi Hne Hb Hroom Hu. rewrite append_run by done.
  pose proof (written_implements _ _ _ b Hi Hb) as Hw. unfold when.
  destruct (_ <=? _).
  - destruct (roll_implements _ _ _ now u Hw Hroom Hu) as (w' & -> & Hi' & Hid).
    exists w', (appended a ++ [b]). split; [done|]. split; [done|].
    split; [|rewrite Hid; simpl; lia].
    destruct (implements_prefix _ _ _ Hi) as [rest Hrest]. exists (rest ++ [b]).
    by rewrite Hrest, app_assoc.
  - exists (written b w), (durable a). split; [done|]. split; [done|].
    split; [exists []; by rewrite app_nil_r|simpl; lia].
Qed.

Lemma implements_irrel base w w' a : implements base w a ->
  dir w' = dir w -> current w' = current w -> current_path w' = current_path w ->
  current_id w' = current_id w -> unsynced_bytes w' = unsynced_bytes w ->
  records_written w' = records_written w -> synced_records w' = synced_records w ->
  implements base w' a.
Proof.
  intros (segs & cur & pend & [] & H) H1 H2 H3 H4 H5 H6 H7. exists segs, cur, pend. split; [|done].
  constructor; congruence.
Qed.

Lemma roll_if_due_implements base w a now u : implements base w a ->
  current_id w + 1 <= u64_max -> uuid_ok u ->
  exists b w' d, roll_if_due now u w = (inr b, w') /\
    implements base w' (mkLog (appended a) d) /\ (exists more, d = durable a ++ more) /\
    current_id w' <= current_id w + 1.
Proof.
  intros Hi Hroom Hu. unfold roll_if_due. rewrite (SE_bind_run _ _ w (roll_due now w) w) by done.
  destruct (roll_due now w); unfold when.
  - destruct (roll_implements _ _ _ now u Hi Hroom Hu) as (w' & Hr & Hi' & Hid).
    exists true, w', (appended a). rewrite (SE_bind_run _ _ _ _ _ Hr).
    split; [done|]. split; [done|]. split; [by eapply implements_prefix|lia].
  - exists false, w, (durable a). split; [done|]. split; [by destruct a|].
    split; [exists []; by rewrite app_nil_r|lia].
Qed.

Lemma sync_reported now w : reported_records (sync now w).2 = reported_records w.
Proof. reflexivity. Qed.

Lemma maybe_sync_implements base w a now : implements base w a ->
  exists b w' d, maybe_sync now w = (inr b, w') /\
    implements base w' (mkLog (appended a) d) /\ (exists more, d = durable a ++ more) /\
    current_id w' = current_id w /\
    b = (reported_records w <? synced_records w') /\ reported_records w' = synced_records w'.
Proof.
  intros Hi. unfold maybe_sync. rewrite (SE_bind_run _ _ w (sync_due now w) w) by done.
  destruct (sync_due now w); unfold when.
  - destruct (sync_implements _ _ _ now Hi) as (w1 & Hr & Hi' & Hid).
    rewrite (SE_bind_run _ _ _ _ _ Hr).
    pose proof (sync_reported now w) as Hrep. rewrite Hr in Hrep. cbn [snd] in Hrep.
    rewrite <- Hrep. eexists _, _, (appended a). split; [reflexivity|].
    split; [by eapply implements_irrel|]. split; [by eapply implements_prefix|]. done.
  - eexists _, _, (durable a). split; [reflexivity|].
    split; [destruct a; by eapply implements_irrel|].
    split; [exists []; by rewrite app_nil_r|]. done.
Qed.

Lemma append_at_implements base w a b now u1 u2 : implements base w a -> b <> [] -> framable b ->
  current_id w + 2 <= u64_max -> uuid_ok u1 -> uuid_ok u2 ->
  exists w' d, append_at to_stdvec crc32 b now u1 u2 w = (inr tt, w') /\
    implements base w' (mkLog (appended a ++ [b]) d) /\ (exists more, d = durable a ++ more) /\
    current_id w' <= current_id w + 2.
Proof.
  intros Hi Hne Hb Hroom Hu1 Hu2.
  destruct (roll_if_due_implements _ _ _ now u1 Hi ltac:(lia) Hu1) as (due & w1 & d1 & Hr & Hi1 & [m1 ->] & Hid1).
  unfold append_at. destruct b as [|r b]; [done|]. rewrite (SE_bind_run _ _ _ _ _ Hr).
  set (w2 := if current_started w1 =? 0 then set_current_started (Z.max now 1) w1 else w1).
  rewrite (SE_bind_run _ _ w1 tt w2) by done.
  assert (implements base w2 (mkLog (appended a) (durable a ++ m1)) /\ current_id w2 = current_id w1) as [Hi2 Hid2].
  { unfold w2. destruct (_ =? _); [|done]. split; [by eapply implements_irrel|done]. }
  destruct (append_implements _ _ _ (r :: b) now u2 Hi2 Hne Hb ltac:(lia) Hu2) as (w' & d & Ha & Hi' & [m ->] & Hid').
  exists w', ((durable a ++ m1) ++ m). split; [done|]. split; [done|].
  split; [|lia]. exists (m1 ++ m). by rewrite app_assoc.
Qed.

(** Every operation of the writer succeeds and refines the abstract log. *)
Lemma exec_implements base w a o : implements base w a -> op_ok o -> current_id w + 2 <= u64_max ->
  exists w' a', exec o w = (inr tt, w') /\ implements base w' a' /\
    spec_step (op_batches o) a a' /\ current_id w' <= current_id w + 2.
Proof.
  intros Hi [Hf Ho] Hroom.
  assert (forall w' d bs, implements base w' (mkLog (appended a ++ bs) d) ->
            (exists more, d = durable a ++ more) -> spec_step bs a (mkLog (appended a ++ bs) d)) as Hspec.
  { intros w' d bs Hi' Hmore. split; [done|]. split; [done|].
    destruct (implements_prefix _ _ _ Hi') as [rest ?]. by exists rest. }
  assert (forall w' d, implements base w' (mkLog (appended a) d) ->
            (exists more, d = durable a ++ more) -> spec_step [] a (mkLog (appended a) d)) as Hspec0.
  { intros w' d Hi' Hmore. specialize (Hspec w' d []). rewrite app_nil_r in Hspec. by apply Hspec. }
  destruct o as [[|r b] now u|[|r b] now u1 u2|now u|now|now|now u]; simpl in Hf, Ho |- *.
  - exists w, a. split; [done|]. split; [done|]. split; [|lia].
    destruct a. apply (Hspec0 w); [done|]. exists []. by rewrite app_nil_r.
  - inversion Hf; subst.
    destruct (append_implements _ _ _ (r :: b) now u Hi ltac:(done) ltac:(done) ltac:(lia) Ho)
      as (w' & d & He & Hi' & Hm & Hid).
    exists w', (mkLog (appended a ++ [r :: b]) d). split; [done|]. split; [done|]. split; [by eapply Hspec|lia].
  - exists w, a. split; [done|]. split; [done|]. split; [|lia].
    destruct a. apply (Hspec0 w); [done|]. exists []. by rewrite app_nil_r.
  - inversion Hf; subst. destruct Ho as [Hu1 Hu2].
    destruct (append_at_implements _ _ _ (r :: b) now u1 u2 Hi ltac:(done) ltac:(done) ltac:(lia) Hu1 Hu2)
      as (w' & d & He & Hi' & Hm & Hid).
    exists w', (mkLog (appended a ++ [r :: b]) d). split; [done|]. split; [done|]. split; [by eapply Hspec|lia].
  - destruct (roll_if_due_implements _ _ _ now u Hi ltac:(lia) Ho) as (due & w' & d & He & Hi' & Hm & Hid).
    exists w', (mkLog (appended a) d). unfold discard. rewrite (SE_bind_run _ _ _ _ _ He).
    split; [done|]. split; [done|]. split; [by eapply Hspec0|lia].
  - destruct (maybe_sync_implements _ _ _ now Hi) as (b & w' & d & He & Hi' & Hm & Hid & _).
    exists w', (mkLog (appended a) d). unfold discard. rewrite (SE_bind_run _ _ _ _ _ He).
    split; [done|]. split; [done|]. split; [by eapply Hspec0|lia].
  - destruct (sync_implements _ _ _ now Hi) as (w' & He & Hi' & Hid).
    exists w', (mkLog (appended a) (appended a)). split; [done|]. split; [done|].
    split; [|lia]. eapply Hspec0; [done|]. by eapply implements_prefix.
  - destruct (roll_implements _ _ _ now u Hi ltac:(lia) Ho) as (w' & He & Hi' & Hid).
    exists w', (mkLog (appended a) (appended a)). split; [done|]. split; [done|].
    split; [|lia]. eapply Hspec0; [done|]. by eapply implements_prefix.
Qed.

Lemma run_implements base ops : forall w a, implements base w a -> Forall op_ok ops ->
  current_id w + 2 * Z.of_nat (List.length ops) <= u64_max ->
  exists w' a', run ops w = (inr tt, w') /\ implements base w' a' /\
    appended a' = appended a ++ List.concat (List.map op_batches ops).
Proof.
  induction ops as [|o ops IH]; intros w a Hi Hok Hroom.
  { exists w, a. simpl. rewrite app_nil_r. done. }
  inversion Hok; subst. simpl List.length in Hroom.
  destruct (exec_implements _ _ _ o Hi ltac:(done) ltac:(lia)) as (w1 & a1 & He & Hi1 & (Ha1 & _) & Hid).
  destruct (IH w1 a1 Hi1 ltac:(done) ltac:(lia)) as (w' & a' & Hr & Hi' & Ha').
  exists w', a'. cbn [run]. rewrite (SE_bind_run _ _ _ _ _ He). split; [done|]. split; [done|].
  simpl. by rewrite Ha', Ha1, <- app_assoc.
Qed.

(** ** Opening and crashing *)

(** The largest id of a log, and room for [n] more. *)
Definition room (segs : list Seg) (n : Z) : Prop := Forall (fun s => seg_id s + n <= u64_max) segs /\ n < u64_max.

Lemma open_implements segs sb fi fb now u n : log_ok segs -> room segs (1 + n) -> 0 <= n -> uuid_ok u ->
  exists w, open (List.map seg_file segs) sb fi fb now u = inr w /\
    implements (history segs) w (mkLog [] []) /\ current_id w + n <= u64_max.
Proof.
  intros Hlog [Hroom Hn1] Hn Hu. unfold open.
  rewrite (list_segments_log segs) by done.
  set (id := match last _ with Some (i, _) => _ | None => 1 end).
  assert (id + n <= u64_max /\ log_ok (segs ++ [mkSeg id u []]) /\ Forall (fun s => seg_id s <> id) segs) as (Hid & Hlog' & Hfresh).
  { unfold id. destruct (last_snoc_or_nil segs) as [->|(segs' & s & ->)].
    - simpl. split; [lia|]. split; [|constructor]. split; [|repeat constructor].
      constructor; [|constructor]. split; [unfold u64_range, u64_max; simpl; lia|]. split; [done|constructor].
    - rewrite map_app. simpl. rewrite last_snoc. apply Forall_app in Hroom as [_ Hr].
      inversion Hr; subst. destruct Hlog as [Hok Hs]. pose proof Hok as Hok0.
      apply Forall_app in Hok0 as [_ Hc]. inversion Hc as [|? ? (Hrange & _) _]; subst.
      unfold u64_range in Hrange. rewrite wadd64_small by (unfold u64_range; lia).
      split; [lia|]. split; [apply log_ok_snoc; [done|lia|done]|].
      apply StronglySorted_snoc_iff in Hs as [_ Hlt]. apply Forall_app. split; [|repeat constructor; lia].
      eapply Forall_impl; [exact Hlt|]. unfold seg_lt. simpl. intros. lia. }
  assert (u64_range id) as Hidr.
  { destruct Hlog' as [Hok _]. apply Forall_app in Hok as [_ Hc]. by inversion Hc as [|? ? (? & _) _]; subst. }
  unfold create_segment. rewrite lookup_file_none by (apply log_names_fresh; [apply Hlog|done|done]).
  eexists. split; [reflexivity|]. split; [|done].
  exists segs, (mkSeg id u []), []. rewrite history_fresh, !app_nil_r. split; [|done].
  constructor; simpl; try done.
  - rewrite map_app. simpl. unfold seg_file. simpl. by rewrite app_nil_r.
  - rewrite history_fresh, app_nil_r. lia.
  - rewrite history_fresh. lia.
Qed.

(** What a crash leaves: the current segment may end after any [k] of the
    bytes written since the last sync. *)
Definition crash (k : nat) (w : WalWriter) : Dir :=
  write_file (current_path w) (fun c => c ++ take k (current w)) (dir w).

Lemma crash_recovers base w a k entries : implements base w a -> Permutation entries (crash k w) ->
  exists report d' j,
    recover from_bytes crc32 entries true = inr (report, base ++ durable a ++ take j (drop (List.length (durable a)) (appended a)), d') /\
    records report = records_in (base ++ durable a ++ take j (drop (List.length (durable a)) (appended a))).
Proof.
  intros (segs & cur & pend & [] & Hd & Ha) Hp.
  assert (drop (List.length (durable a)) (appended a) = pend) as ->.
  { rewrite Hd, <- app_assoc in Ha. apply app_inv_head in Ha. rewrite Ha. by rewrite drop_app_length. }
  destruct (take_frames to_stdvec from_bytes crc32 k pend rep_pend0) as (j & t & Ht & Hn).
  set (cur' := extend cur (take j pend)).
  set (tail := fun i => if i =? seg_id cur then t else []).
  assert (log_ok (segs ++ [cur'])) as Hlog'.
  { apply log_ok_extend; [done|]. by apply Forall_take. }
  assert (crash k w = List.map (fun s => (segment_name (seg_id s), (seg_file s).2 ++ tail (seg_id s))) (segs ++ [cur'])) as Hc.
  { unfold crash. rewrite rep_path0, rep_dir0, write_last, map_app by done. f_equal.
    - apply map_ext_in. intros s Hin. unfold tail. unfold log_ok in rep_ok0. destruct rep_ok0 as [_ Hs].
      apply StronglySorted_snoc_iff in Hs as [_ Hlt]. rewrite Forall_forall in Hlt.
      specialize (Hlt s ltac:(by apply list_elem_of_In)). unfold seg_lt in Hlt.
      destruct (_ =? _) eqn:E; zbool; [lia|]. unfold seg_file. simpl. by rewrite app_nil_r.
    - simpl. unfold tail. rewrite Z.eqb_refl. rewrite rep_current0, Ht. unfold seg_file. simpl.
      by rewrite frames_app, !app_assoc. }
  assert (List.map fst (crash k w) = List.map fst (List.map seg_file (segs ++ [cur']))) as Hfst.
  { rewrite Hc, !map_map. done. }
  assert (history (segs ++ [cur']) = base ++ durable a ++ take j pend) as Hh.
  { unfold cur'. by rewrite history_extend, Hd, app_assoc. }
  destruct (recover_loop_segs tail (segs ++ [cur']) entries report0 []) as (rep & d' & Hr & Hrec & _); [done| | |].
  - intros i. unfold tail. destruct (_ =? _); [done|apply read_frame_nil].
  - apply Forall_forall. intros s Hin.
    assert (NoDup (List.map fst (crash k w))) as Hnd by (rewrite Hfst; by apply log_names_nodup).
    rewrite <- (lookup_file_perm (crash k w)) by done.
    apply lookup_file_In; [done|]. rewrite Hc. apply in_map_iff. exists s.
    split; [done|by apply list_elem_of_In].
  - exists rep, d', j. rewrite <- Hh. split; [|rewrite Hrec; simpl; lia].
    unfold recover. rewrite (list_segments_log (segs ++ [cur'])) by (try done; by rewrite Hp, Hfst).
    rewrite map_map. exact Hr.
Qed.

(** C5: crash safety.  Open the log on any directory it left, run any sequence
    of its operations, and crash: every operation succeeds, and recovery,
    whatever order the directory lists, gives back exactly a prefix of the
    batches ever appended, in order, that holds at least everything synced. *)
Theorem crash_loses_only_unsynced segs sb fi fb now u ops k :
  log_ok segs -> room segs (1 + 2 * Z.of_nat (List.length ops)) -> uuid_ok u -> Forall op_ok ops ->
  exists w0 w, open (List.map seg_file segs) sb fi fb now u = inr w0 /\ run ops w0 = (inr tt, w) /\
    forall entries, Permutation entries (crash k w) ->
      exists report d' n,
        recover from_bytes crc32 entries true =
          inr (report, take n (history segs ++ List.concat (List.map op_batches ops)), d') /\
        records report = records_in (take n (history segs ++ List.concat (List.map op_batches ops))) /\
        records_in (history segs) + synced_records w <= records report.
Proof.
  intros Hlog Hroom Hu Hok.
  destruct (open_implements segs sb fi fb now u (2 * Z.of_nat (List.length ops))) as (w0 & Ho & Hi & Hid);
    [done|done|lia|done|].
  destruct (run_implements _ ops w0 _ Hi Hok Hid) as (w & a & Hr & Hi' & Ha).
  exists w0, w. split; [done|]. split; [done|]. intros entries Hp.
  destruct (crash_recovers _ _ _ k entries Hi' Hp) as (report & d' & j & Hrec & Hn).
  destruct (implements_prefix _ _ _ Hi') as [rest Hrest].
  simpl in Ha. rewrite <- Ha. rewrite Hrest, drop_app_length in Hrec, Hn.
  exists report, d', (List.length (history segs ++ durable a) + j)%nat.
  assert (take (List.length (history segs ++ durable a) + j) (history segs ++ appended a)
          = history segs ++ durable a ++ take j rest) as ->.
  { rewrite Hrest, !app_assoc, take_app_add. done. }
  split; [done|]. split; [done|]. rewrite Hn.
  destruct Hi' as (sg & cur & pend & [] & Hd & _). rewrite rep_synced0, Hd, !records_in_app.
  assert (0 <= records_in (take j rest)); [|lia].
  apply sumZ_nonneg, Forall_forall. intros. lia.
Qed.

(** ** The two logs of a [SplitWal] *)

(** A non-empty batch, as the list of batches it adds to a log. *)
Definition batch_of (b : list LogRecord) : list (list LogRecord) := match b with [] => [] | _ => [b] end.

Lemma append_batch_implements base w a b now u : implements base w a -> Forall framable (batch_of b) ->
  current_id w + 1 <= u64_max -> uuid_ok u ->
  exists w' d, append to_stdvec crc32 b now u w = (inr tt, w') /\
    implements base w' (mkLog (appended a ++ batch_of b) d).
Proof.
  intros Hi Hb Hroom Hu. destruct b as [|r b].
  - exists w, (durable a). split; [done|]. destruct a. simpl. by rewrite app_nil_r.
  - inversion Hb; subst.
    destruct (append_implements _ _ _ (r :: b) now u Hi ltac:(done) ltac:(done) Hroom Hu) as (w' & d & He & Hi' & _).
    by exists w', d.
Qed.

Lemma append_at_batch_implements base w a b now u1 u2 : implements base w a -> Forall framable (batch_of b) ->
  current_id w + 2 <= u64_max -> uuid_ok u1 -> uuid_ok u2 ->
  exists w' d, append_at to_stdvec crc32 b now u1 u2 w = (inr tt, w') /\
    implements base w' (mkLog (appended a ++ batch_of b) d).
Proof.
  intros Hi Hb Hroom Hu1 Hu2. destruct b as [|r b].
  - exists w, (durable a). split; [done|]. destruct a. simpl. by rewrite app_nil_r.
  - inversion Hb; subst.
    destruct (append_at_implements _ _ _ (r :: b) now u1 u2 Hi ltac:(done) ltac:(done) Hroom Hu1 Hu2) as (w' & d & He & Hi' & _).
    by exists w', d.
Qed.

Lemma partition_none (f : LogRecord -> bool) l : existsb f l = false -> List.partition f l = ([], l).
Proof.
  induction l as [|x l IH]; simpl; [done|]. intros [Hx Hl]%orb_false_elim. by rewrite (IH Hl), Hx.
Qed.

(** The two logs a [SplitWal] writes, each with its own history. *)
Definition split_implements (bm bl : list (list LogRecord)) (s : SplitWal) (am al : LogSpec) : Prop :=
  implements bm (main s) am /\ implements bl (late s) al.

Definition split_room (s : SplitWal) : Prop :=
  current_id (main s) + 2 <= u64_max /\ current_id (late s) + 2 <= u64_max.

(** [SplitWal::append] puts every record in exactly one log, keeping the
    order within each: those older than the late threshold in the late spool,
    the rest in the main log, and counts the late ones. *)
Theorem split_append_routes bm bl s am al batch now u1 u2 u3 :
  split_implements bm bl s am al -> split_room s -> uuid_ok u1 -> uuid_ok u2 -> uuid_ok u3 ->
  let late_rec := is_late (sat_sub now (late_threshold_nanos s)) in
  let '(lates, on_time) := List.partition late_rec batch in
  Forall framable (batch_of lates) -> Forall framable (batch_of on_time) ->
  exists s' dm dl,
    split_append to_stdvec crc32 batch now u1 u2 u3 s = (inr tt, s') /\
    split_implements bm bl s' (mkLog (appended am ++ batch_of on_time) dm) (mkLog (appended al ++ batch_of lates) dl) /\
    late_records s' = late_records s + Z.of_nat (List.length lates).
Proof.
  intros [Hm Hl] [Hrm Hrl] Hu1 Hu2 Hu3. cbv zeta.
  unfold split_append. rewrite (SE_bind_run _ _ s (sat_sub now (late_threshold_nanos s)) s) by done.
  set (cutoff := sat_sub _ _).
  destruct (existsb (is_late cutoff) batch) eqn:Hex; cbn [negb].
  - destruct (List.partition _ batch) as [lates on_time]. intros Hfl Hfo.
    destruct (append_batch_implements _ _ _ on_time now u1 Hm Hfo ltac:(lia) Hu1) as (m' & dm & Ham & Him).
    destruct (append_at_batch_implements _ _ _ lates now u2 u3 Hl Hfl ltac:(lia) Hu2 Hu3) as (l' & dl & Hal & Hil).
    exists (mkSplit m' l' (late_threshold_nanos s) (late_records s + Z.of_nat (List.length lates))), dm, dl.
    split; [|by split]. erewrite SE_bind_run by reflexivity.
    rewrite (SE_bind_run _ _ _ tt (mkSplit m' (late s) (late_threshold_nanos s) (late_records s + Z.of_nat (List.length lates)))).
    + unfold on_late. cbn [late main late_threshold_nanos late_records]. by rewrite Hal.
    + unfold on_main. cbn [late main late_threshold_nanos late_records]. by rewrite Ham.
  - rewrite partition_none by done. intros _ Hfo.
    destruct (append_batch_implements _ _ _ batch now u1 Hm Hfo ltac:(lia) Hu1) as (m' & dm & Ham & Him).
    exists (mkSplit m' (late s) (late_threshold_nanos s) (late_records s)), dm, (durable al).
    unfold on_main. rewrite Ham. split; [done|]. split; [|simpl; lia]. split; [done|].
    destruct al. simpl. by rewrite app_nil_r.
Qed.

(** A log with nothing unsynced has everything on disk. *)
Lemma synced_all base w a : implements base w a -> unsynced_bytes w = 0 -> durable a = appended a.
Proof.
  intros (segs & cur & pend & [] & Hd & Ha) Hz.
  assert (pend = []) as ->.
  { pose proof (frames_length to_stdvec from_bytes crc32 pend rep_pend0) as Hl.
    rewrite rep_unsynced0, rep_current0 in Hz. destruct pend; [done|simpl in Hl; lia]. }
  rewrite app_nil_r, Hd in Ha. by apply app_inv_head in Ha.
Qed.

Lemma written_count base w a : implements base w a -> records_written w = records_in (appended a).
Proof.
  intros (segs & cur & pend & [] & Hd & Ha). rewrite rep_written0, <- Ha, records_in_app. lia.
Qed.

Lemma unsynced_pos base w a : implements base w a -> 0 <= unsynced_bytes w.
Proof. intros (segs & cur & pend & [] & _). rewrite rep_unsynced0. lia. Qed.

Lemma sync_if_implements base w a now : implements base w a ->
  exists w', when (0 <? unsynced_bytes w) (sync now) w = (inr tt, w') /\
    implements base w' (mkLog (appended a) (appended a)).
Proof.
  intros Hi. unfold when. destruct (_ <? _) eqn:E; zbool.
  - destruct (sync_implements _ _ _ now Hi) as (w' & Hs & Hi' & _). by exists w'.
  - exists w. split; [done|]. pose proof (unsynced_pos _ _ _ Hi).
    rewrite <- (synced_all _ _ _ Hi) at 2 by lia. by destruct a.
Qed.

Lemma when_on_main {b : bool} {m : SE WalWriter WalError unit} s r w :
  when b m (main s) = (r, w) ->
  when b (on_main m) s = (r, mkSplit w (late s) (late_threshold_nanos s) (late_records s)).
Proof.
  unfold when, on_main. destruct b; [by intros ->|]. unfold mret, SE_ret. intros [= <- <-]. by destruct s.
Qed.

Lemma when_on_late {b : bool} {m : SE WalWriter WalError unit} s r w :
  when b m (late s) = (r, w) ->
  when b (on_late m) s = (r, mkSplit (main s) w (late_threshold_nanos s) (late_records s)).
Proof.
  unfold when, on_late. destruct b; [by intros ->|]. unfold mret, SE_ret. intros [= <- <-]. by destruct s.
Qed.

Lemma split_sync_all bm bl s am al now : split_implements bm bl s am al ->
  exists s', split_sync now s = (inr (records_in (appended am) + records_in (appended al)), s') /\
    split_implements bm bl s' (mkLog (appended am) (appended am)) (mkLog (appended al) (appended al)).
Proof.
  intros [Hm Hl].
  destruct (sync_if_implements _ _ _ now Hm) as (m' & Hsm & Him).
  destruct (sync_if_implements _ _ _ now Hl) as (l' & Hsl & Hil).
  exists (mkSplit m' l' (late_threshold_nanos s) (late_records s)). split; [|by split].
  unfold split_sync. erewrite SE_bind_run by reflexivity.
  rewrite (SE_bind_run _ _ _ _ _ (when_on_main s _ _ Hsm)).
  erewrite SE_bind_run by reflexivity.
  rewrite (SE_bind_run _ _ _ _ _ (when_on_late (mkSplit m' (late s) (late_threshold_nanos s) (late_records s)) _ _ Hsl)).
  unfold gets. cbn [main late]. rewrite (written_count _ _ _ Him), (written_count _ _ _ Hil). done.
Qed.

(** The count [SplitWal::maybe_sync] publishes never covers a record still
    buffered in either log: when it reports [n], both logs are wholly on disk
    and [n] is the number of records appended to the two. *)
Theorem split_publishes_synced bm bl s am al now u :
  split_implements bm bl s am al -> split_room s -> uuid_ok u ->
  exists r s' dm dl, split_maybe_sync now u s = (inr r, s') /\
    split_implements bm bl s' (mkLog (appended am) dm) (mkLog (appended al) dl) /\
    forall n, r = Some n ->
      dm = appended am /\ dl = appended al /\ n = records_in (appended am) + records_in (appended al).
Proof.
  intros [Hm Hl] [Hrm Hrl] Hu.
  destruct (roll_if_due_implements _ _ _ now u Hl ltac:(lia) Hu) as (due & l1 & d1 & Hr1 & Hi1 & _).
  destruct (maybe_sync_implements _ _ _ now Hm) as (bm' & m2 & d2 & Hr2 & Hi2 & _).
  destruct (maybe_sync_implements _ _ _ now Hi1) as (bl' & l3 & d3 & Hr3 & Hi3 & _).
  cbn [appended] in Hi3.
  unfold split_maybe_sync.
  rewrite (SE_bind_run _ _ s due (mkSplit (main s) l1 (late_threshold_nanos s) (late_records s)))
    by (unfold on_late; by rewrite Hr1).
  rewrite (SE_bind_run _ _ _ bm' (mkSplit m2 l1 (late_threshold_nanos s) (late_records s)))
    by (unfold on_main; cbn [main late]; by rewrite Hr2).
  rewrite (SE_bind_run _ _ _ bl' (mkSplit m2 l3 (late_threshold_nanos s) (late_records s)))
    by (unfold on_late; cbn [main late]; by rewrite Hr3).
  destruct (negb (bm' || bl')).
  - eexists None, _, d2, d3. split; [reflexivity|]. split; [by split|done].
  - destruct (split_sync_all bm bl (mkSplit m2 l3 (late_threshold_nanos s) (late_records s)) _ _ now
      ltac:(split; [exact Hi2|exact Hi3])) as (s' & Hs & Hi').
    rewrite (SE_bind_run _ _ _ _ _ Hs). eexists _, s', _, _. split; [reflexivity|].
    split; [exact Hi'|]. cbn [appended]. intros n [= <-]. done.
Qed.

(** A batch whose payload is over [MAX_FRAME_BYTES] is accepted and synced,
    and recovery then stops in front of it: everything from it on in its
    segment is lost although it was reported durable. *)
Theorem oversized_batch_is_lost path uuid before b p after :
  Forall framable before -> uuid_ok uuid -> b <> [] ->
  to_stdvec b = Some p -> MAX_FRAME_BYTES < Z.of_nat (List.length p) <= u32_max ->
  (forall w now u, append to_stdvec crc32 b now u w =
     when (segment_bytes w <=? current_len (written b w)) (roll now u) (written b w)) /\
  exists o file', replay_segment from_bytes crc32 path true (MAGIC ++ uuid ++ frames before ++ frame b ++ frames after)
     = inr (o, before, file').
Proof.
  intros Hf Hu Hne Hp Hlen. split.
  - intros w now u. apply (append_encoded b p); [done|done|lia].
  - unfold replay_segment. rewrite read_full_app by done. rewrite bool_decide_true by done. cbn [negb].
    rewrite read_full_app by (rewrite Hu; done).
    rewrite (replay_loop_frames to_stdvec from_bytes crc32).
    + by do 2 eexists.
    + done.
    + unfold Wal.frame. rewrite Hp. unfold read_frame, encode_frame.
      rewrite app_assoc, <- !app_assoc, (app_assoc (le_bytes 4 _)).
      rewrite read_full_app by (rewrite length_app, !length_le_bytes; done).
      rewrite bind_some. cbv beta iota. rewrite take_app_length' by by rewrite length_le_bytes.
      rewrite le4_small by (unfold u32_range; lia).
      destruct (_ || _) eqn:E; [done|]. zbool. lia.
    + rewrite length_app. pose proof (frames_length to_stdvec from_bytes crc32 before Hf). lia.
Qed.
End Recovery.

(** ** Witnesses

    A codec for batches of one sample record, and a log of a few batches. *)

Definition sample : LogRecord := new_record [] 0 17 "body".

Definition sample_encode (b : list LogRecord) : option bytes :=
  if bool_decide (b = replicate (List.length b) sample)
  then Some (Byte.x00 :: replicate (List.length b) Byte.x01) else None.
Definition sample_decode (p : bytes) : option (list LogRecord) :=
  match p with [] => None | _ :: p' => Some (replicate (List.length p') sample) end.
Definition sample_crc (p : bytes) : Z := Z.of_nat (List.length p) mod 251.

#[export] Instance sample_codec : CodecLaws sample_encode sample_decode sample_crc.
Proof.
  constructor.
  - intros b p. unfold sample_encode. case_bool_decide as E; [|done]. intros [= <-].
    simpl. rewrite length_replicate. by rewrite <- E.
  - intros b p. unfold sample_encode. case_bool_decide; [|done]. by intros [= <-].
  - intros p. unfold sample_crc, u32_range, u32_max.
    pose proof (Z.mod_pos_bound (Z.of_nat (List.length p)) 251). lia.
Qed.

Definition uuid0 : bytes := replicate 16 Byte.x07.

Lemma sample_framable n : (n < 1000)%nat -> framable sample_encode (replicate n sample).
Proof.
  intros Hn. exists (Byte.x00 :: replicate n Byte.x01). unfold sample_encode.
  rewrite length_replicate, bool_decide_true by done. split; [done|].
  simpl. rewrite length_replicate. unfold MAX_FRAME_BYTES. lia.
Qed.

Definition sample_ops : list Op :=
  [OpAppend [sample] 5 uuid0; OpSync 6; OpAppend [sample; sample] 7 uuid0; OpRoll 8 uuid0;
   OpAppendAt [sample] 9 uuid0 uuid0].

Lemma crash_loses_only_unsynced_witness :
  exists w0 w, open (List.map (seg_file sample_encode sample_crc) []) 4096 10 100 0 uuid0 = inr w0 /\
    run sample_encode sample_crc sample_ops w0 = (inr tt, w) /\
    forall entries, Permutation entries (crash 3 w) ->
      exists report d' n,
        recover sample_decode sample_crc entries true =
          inr (report, take n (history [] ++ List.concat (List.map op_batches sample_ops)), d') /\
        records report = records_in (take n (history [] ++ List.concat (List.map op_batches sample_ops))) /\
        records_in (history []) + synced_records w <= records report.
Proof.
  apply (crash_loses_only_unsynced sample_encode sample_decode sample_crc [] 4096 10 100 0 uuid0 sample_ops 3).
  - split; constructor.
  - split; [constructor|]. vm_compute. reflexivity.
  - reflexivity.
  - repeat constructor; simpl; try reflexivity.
    + apply (sample_framable 1). lia.
    + apply (sample_framable 2). lia.
    + apply (sample_framable 1). lia.
Defined.

Definition sample_writer : WalWriter :=
  match open [] 4096 10 100 0 uuid0 with inr w => w | inl _ => mkWriter [] 0 0 0 [] "" 0 [] 0 None 0 0 0 0 0 0 0 0 end.

Lemma sample_writer_implements :
  implements sample_encode sample_crc [] sample_writer (mkLog [] []).
Proof.
  destruct (open_implements sample_encode sample_crc [] 4096 10 100 0 uuid0 0) as (w & Ho & Hi & _).
  - split; constructor.
  - split; [constructor|]. reflexivity.
  - reflexivity.
  - reflexivity.
  - unfold sample_writer. simpl List.map in Ho. by rewrite Ho.
Qed.

Definition sample_split : SplitWal := mkSplit sample_writer sample_writer 10 0.

Lemma split_append_routes_witness :
  let late_rec := is_late (sat_sub 20 (late_threshold_nanos sample_split)) in
  late_rec sample = true /\
  exists s' dm dl,
    split_append sample_encode sample_crc [sample; sample] 20 uuid0 uuid0 uuid0 sample_split = (inr tt, s') /\
    split_implements sample_encode sample_crc [] [] s' (mkLog [] dm) (mkLog [[sample; sample]] dl) /\
    late_records s' = 2.
Proof.
  cbv zeta. split; [reflexivity|].
  refine (split_append_routes sample_encode sample_crc [] [] sample_split (mkLog [] []) (mkLog [] [])
    [sample; sample] 20 uuid0 uuid0 uuid0 _ _ _ _ _ _ _).
  - split; apply sample_writer_implements.
  - vm_compute. split; discriminate.
  - reflexivity.
  - reflexivity.
  - reflexivity.
  - constructor; [apply (sample_framable 2); lia|constructor].
  - constructor.
Defined.

Lemma split_publishes_synced_witness :
  exists r s' dm dl, split_maybe_sync 20 uuid0 sample_split = (inr r, s') /\
    split_implements sample_encode sample_crc [] [] s' (mkLog [] dm) (mkLog [] dl) /\
    forall n, r = Some n -> dm = [] /\ dl = [] /\ n = records_in [] + records_in [].
Proof.
  apply (split_publishes_synced sample_encode sample_decode sample_crc [] [] sample_split (mkLog [] []) (mkLog [] []) 20 uuid0).
  - split; apply sample_writer_implements.
  - vm_compute. split; discriminate.
  - reflexivity.
Defined.

(** A codec that gives the sample batch a payload one byte over the bound. *)
Definition big_encode (n : nat) (b : list LogRecord) : option bytes :=
  if bool_decide (b = [sample]) then Some (replicate (S n) Byte.x01) else None.
Definition big_decode (p : bytes) : option (list LogRecord) := Some [sample].

#[export] Instance big_codec n : CodecLaws (big_encode n) big_decode sample_crc.
Proof.
  constructor.
  - intros b p. unfold big_encode. case_bool_decide as E; [|done]. intros _. by rewrite E.
  - intros b p. unfold big_encode. case_bool_decide; [|done]. by intros [= <-].
  - exact (@crc_range sample_encode sample_decode sample_crc sample_codec).
Qed.

Lemma oversized_batch_is_lost_witness :
  let big := big_encode (Z.to_nat MAX_FRAME_BYTES) in
  exists o file',
    replay_segment big_decode sample_crc "1.wal" true
      (MAGIC ++ uuid0 ++ frames big sample_crc [] ++ frame big sample_crc [sample] ++ frames big sample_crc [[sample]])
      = inr (o, [], file').
Proof.
  intros big.
  refine (proj2 (oversized_batch_is_lost big big_decode sample_crc "1.wal" uuid0 [] [sample]
    (replicate (S (Z.to_nat MAX_FRAME_BYTES)) Byte.x01) [[sample]] _ _ _ _ _)).
  - constructor.
  - reflexivity.
  - discriminate.
  - unfold big, big_encode. rewrite bool_decide_true; reflexivity.
  - rewrite length_replicate, Nat2Z.inj_succ, Z2Nat.id by (unfold MAX_FRAME_BYTES; lia).
    unfold MAX_FRAME_BYTES, u32_max. lia.
Defined.

Lemma replay_truncate_idempotent_witness :
  let file := MAGIC ++ uuid0 ++ frame sample_encode sample_crc [sample] ++ [Byte.x05; Byte.x00] in
  exists o bs file',
    replay_segment sample_decode sample_crc "1.wal" true file = inr (o, bs, file') /\
    replay_segment sample_decode sample_crc "1.wal" true file' =
      inr (mkOutcome (o_batches o) (o_records o) None (o_uuid o), bs, file') /\
    (List.length file' <= List.length file)%nat /\ (o_truncated_to o = None <-> file' = file).
Proof.
  intros file. eexists _, _, _.
  assert (replay_segment sample_decode sample_crc "1.wal" true file =
    inr (mkOutcome 1 1 (Some 34) uuid0, [[sample]], take 34 file)) as H by (vm_compute; reflexivity).
  split; [exact H|]. exact (replay_truncate_idempotent sample_decode sample_crc "1.wal" file _ _ _ H).
Defined.

Lemma incomplete_header_spec_witness :
  ((10 < 24)%nat -> is_incomplete_header (take 10 (MAGIC ++ uuid0)) = true /\
     replay_segment sample_decode sample_crc "1.wal" true (take 10 (MAGIC ++ uuid0)) = inl (BadMagic "1.wal")) /\
  is_incomplete_header (MAGIC ++ uuid0 ++ [Byte.x05]) = false /\
  segment_uuid "1.wal" (MAGIC ++ uuid0 ++ [Byte.x05]) = inr uuid0.
Proof. apply (incomplete_header_spec sample_decode sample_crc "1.wal" uuid0 10 [Byte.x05]). reflexivity. Defined.
