(* ===== verification/Spool.v ===== *)
(** The durable outbound spool ([crates/logless-core/src/spool.rs]): an
    append-only queue of records read from the front, with a cursor kept in a
    file of its own that is replaced by rename.

    The directory holds what the operating system has been given; [crc32fast]
    is a parameter. *)

From stdpp Require Import sorting.
From S2P Require Import Prelude Text Lists Files.
Open Scope Z_scope.
Open Scope list_scope.

Definition MAGIC : bytes :=
  [Byte.x4c; Byte.x47; Byte.x4c; Byte.x53; Byte.x53; Byte.x50; Byte.x4c; Byte.x01].
Definition HEADER_BYTES : Z := 8.
Definition FRAME_OVERHEAD : Z := 8.

Inductive SpoolError := Io (path : string) | BadMagic (path : string) | TooLarge (len limit : Z).

Record Cursor := mkCursor { segment : Z; offset : Z }.
Definition cursor_default : Cursor := mkCursor 0 0.

Record SpoolConfig := mkSpoolConfig {
  segment_bytes : Z; max_total_bytes : Z; max_record_bytes : Z
}.
Definition spool_config_default : SpoolConfig :=
  mkSpoolConfig (16 * 1024 * 1024) (512 * 1024 * 1024) (32 * 1024 * 1024).

Record Spool := mkSpool {
  dir : Dir;
  config : SpoolConfig;
  write_segment : Z;
  write_offset : Z;
  cursor : Cursor;
  dropped_full : Z
}.

Definition set_dir (v : Dir) (s : Spool) : Spool :=
  mkSpool v (config s) (write_segment s) (write_offset s) (cursor s) (dropped_full s).

Definition set_write_segment (v : Z) (s : Spool) : Spool :=
  mkSpool (dir s) (config s) v (write_offset s) (cursor s) (dropped_full s).

Definition set_write_offset (v : Z) (s : Spool) : Spool :=
  mkSpool (dir s) (config s) (write_segment s) v (cursor s) (dropped_full s).

Definition set_cursor (v : Cursor) (s : Spool) : Spool :=
  mkSpool (dir s) (config s) (write_segment s) (write_offset s) v (dropped_full s).

Definition set_dropped_full (v : Z) (s : Spool) : Spool :=
  mkSpool (dir s) (config s) (write_segment s) (write_offset s) (cursor s) v.

Definition segment_path (id : Z) : string :=
  String.append "spool-" (String.append (pad0 12 id) ".log").
Definition cursor_path : string := "cursor".

Definition segment_id (name : string) : option Z :=
  n ← strip_prefix "spool-" name;
  n ← strip_suffix ".log" n;
  parse_uint u64_max n.

Definition list_segments (d : Dir) : list Z :=
  stable_sort Z.leb (omap segment_id (List.map fst d)).

(** The file and the length it is appended at. *)
Definition open_segment_for_append (d : Dir) (id : Z) : SpoolError + (Dir * Z) :=
  let path := segment_path id in
  match lookup_file path d with
  | None => inr (d ++ [(path, MAGIC)], HEADER_BYTES)
  | Some file =>
      match read_full 8 file with
      | None => inl (Io path)
      | Some (magic, _) =>
          if negb (bool_decide (magic = MAGIC)) then inl (BadMagic path)
          else inr (d, Z.of_nat (List.length file))
      end
  end.

Definition cursor_text (c : Cursor) : string :=
  String.append (show_Z (segment c)) (String.append ":" (show_Z (offset c))).

Definition parse_cursor (text : string) : Cursor :=
  let parts := split_char ":" (trim text) in
  mkCursor (default 0 (nth_error parts 0 ≫= parse_uint u64_max))
           (default HEADER_BYTES (nth_error parts 1 ≫= parse_uint u64_max)).

Definition read_cursor (d : Dir) : Cursor :=
  match lookup_file cursor_path d with
  | None => cursor_default
  | Some file => parse_cursor (string_of_list_byte file)
  end.

(** The temporary file is renamed over the old cursor. *)
Definition write_cursor (d : Dir) (c : Cursor) : Dir :=
  put_file cursor_path (list_byte_of_string (cursor_text c)) d.

(** ** Operations *)

Section Spool.
Context (crc32 : bytes -> Z).

Definition open (d : Dir) (config : SpoolConfig) : SpoolError + Spool :=
  let segments := list_segments d in
  let cursor := read_cursor d in
  let write_segment := default 1 (last segments) in
  match open_segment_for_append d write_segment with
  | inl e => inl e
  | inr (d', write_offset) =>
      inr (mkSpool d' config write_segment write_offset
             (if segment cursor =? 0
              then mkCursor (default write_segment (head segments)) HEADER_BYTES
              else cursor) 0)
  end.

Definition file_len (d : Dir) (id : Z) : Z :=
  match lookup_file (segment_path id) d with Some c => Z.of_nat (List.length c) | None => 0 end.

Definition total_bytes (s : Spool) : Z := sumZ (file_len (dir s)) (list_segments (dir s)).
Definition pending_bytes (s : Spool) : Z := sat_sub (total_bytes s) (offset (cursor s)).

Abbreviation M := (SE Spool SpoolError).

Definition roll : M unit :=
  _ ← modify (fun s => set_write_segment (wadd64 (write_segment s) 1) s);
  s ← gets (fun s => s);
  match open_segment_for_append (dir s) (write_segment s) with
  | inl e => fail e
  | inr (d, offset) => modify (fun s => set_write_offset offset (set_dir d s))
  end.

Definition frame (payload : bytes) : bytes :=
  le_bytes 4 (Z.of_nat (List.length payload)) ++ le_bytes 4 (crc32 payload) ++ payload.

Definition push (payload : bytes) : M bool :=
  let len := Z.of_nat (List.length payload) in
  s ← gets (fun s => s);
  if max_record_bytes (config s) <? len then fail (TooLarge len (max_record_bytes (config s)))
  else if max_total_bytes (config s) <? total_bytes s + len then
    _ ← modify (fun s => set_dropped_full (dropped_full s + 1) s);
    mret false
  else
    _ ← when ((segment_bytes (config s) <? write_offset s + FRAME_OVERHEAD + len)
              && (HEADER_BYTES <? write_offset s)) roll;
    _ ← modify (fun s =>
          set_write_offset (write_offset s + Z.of_nat (List.length (frame payload)))
            (set_dir (write_file (segment_path (write_segment s)) (fun c => c ++ frame payload) (dir s)) s));
    mret true.

(** One frame, or [None] at the end of the file, at a torn tail, or where the
    checksum does not match. *)
Definition read_frame (rest : bytes) : option (bytes * bytes) :=
  '(head, rest) ← read_full 8 rest;
  let len := le_val (take 4 head) in
  let crc := le_val (drop 4 head) in
  '(payload, rest) ← read_full len rest;
  if negb (crc32 payload =? crc) then None else Some (payload, rest).

Fixpoint read_segment (room : nat) (seg off : Z) (rest : bytes) : list (Cursor * bytes) :=
  match room with
  | O => []
  | S room' =>
      match read_frame rest with
      | None => []
      | Some (payload, rest') =>
          let off' := off + (FRAME_OVERHEAD + Z.of_nat (List.length payload)) in
          (mkCursor seg off', payload) :: read_segment room' seg off' rest'
      end
  end.

Fixpoint peek_loop (d : Dir) (room : nat) (at_segment at_offset : Z) (segments : list Z)
    : list (Cursor * bytes) :=
  match segments with
  | [] => []
  | seg :: segments' =>
      let '(at_segment, at_offset) :=
        if at_segment <? seg then (seg, HEADER_BYTES) else (at_segment, at_offset) in
      match lookup_file (segment_path seg) d with
      | None => peek_loop d room at_segment at_offset segments'
      | Some file =>
          let out := read_segment room seg at_offset (drop (Z.to_nat at_offset) file) in
          if (room <=? List.length out)%nat then out
          else out ++ peek_loop d (room - List.length out) seg
                        (match last out with Some (c, _) => offset c | None => at_offset end) segments'
      end
  end.

Definition peek (s : Spool) (max : nat) : list (Cursor * bytes) :=
  let start := cursor s in
  peek_loop (dir s) max (segment start) (offset start)
    (List.filter (fun seg => segment start <=? seg) (list_segments (dir s))).

Definition is_empty (s : Spool) : bool := match peek s 1 with [] => true | _ => false end.

Fixpoint unlink_consumed (c : Cursor) (segments : list Z) : M unit :=
  match segments with
  | [] => mret tt
  | seg :: segments' =>
      s ← gets (fun s => s);
      _ ← (if (seg <? segment c) && negb (seg =? write_segment s) then
             match lookup_file (segment_path seg) (dir s) with
             | None => fail (Io (segment_path seg))
             | Some _ => modify (fun s => set_dir (remove_file (segment_path seg) (dir s)) s)
             end
           else mret tt);
      unlink_consumed c segments'
  end.

Definition commit (c : Cursor) : M unit :=
  _ ← modify (fun s => set_cursor c (set_dir (write_cursor (dir s) c) s));
  s ← gets (fun s => s);
  unlink_consumed c (list_segments (dir s)).

End Spool.
