(* ===== verification/SpoolQueue.v ===== *)
(** The spool as a first-in first-out queue: what its directory represents,
    that every operation refines the queue, and what a torn tail costs
    ([crates/logless-core/src/spool.rs]). *)

From stdpp Require Import sorting.
From S2P Require Import Prelude Text Lists Files Spool.
Open Scope Z_scope.
Open Scope list_scope.

Lemma nth_error_lookup {A} (l : list A) i : nth_error l i = l !! i.
Proof. revert i. induction l as [|a l IH]; intros [|i]; simpl; done. Qed.

(** ** Names *)

Lemma segment_id_path id : u64_range id -> segment_id (segment_path id) = Some id.
Proof.
  intros H. unfold segment_id, segment_path. rewrite strip_prefix_app, bind_some.
  rewrite strip_suffix_app, bind_some. by apply parse_uint_pad0.
Qed.

Lemma segment_path_inj a b : u64_range a -> u64_range b -> segment_path a = segment_path b -> a = b.
Proof. intros Ha Hb H. apply segment_id_path in Ha, Hb. congruence. Qed.

Lemma cursor_not_segment id : segment_path id <> cursor_path.
Proof. discriminate. Qed.

Lemma split_cursor_text c : 0 <= segment c -> 0 <= offset c ->
  split_char ":" (cursor_text c) = [show_Z (segment c); show_Z (offset c)].
Proof.
  intros Hs Ho. unfold cursor_text, split_char.
  assert (forall n, 0 <= n -> str_all (fun c => negb (Ascii.eqb ":" c)) (show_Z n) = true) as Hd.
  { intros n Hn. eapply str_all_impl; [|apply (show_Z_digits n Hn)].
    intros ch Hch. destruct (Ascii.eqb_spec ":" ch) as [e|]; [|done]. rewrite <- e in Hch. done. }
  change (String ":" (show_Z (offset c))) with (String.append ":" (show_Z (offset c))).
  simpl String.append at 2. rewrite split_on_app; [|by apply Hd|done].
  by rewrite split_on_none by by apply Hd.
Qed.

Lemma parse_cursor_text c : u64_range (segment c) -> u64_range (offset c) ->
  parse_cursor (cursor_text c) = c.
Proof.
  unfold u64_range. intros Hs Ho. unfold parse_cursor. rewrite trim_graphic.
  2:{ unfold cursor_text. rewrite !str_all_app.
      rewrite !(digits_graphic (show_Z _)) by (apply show_Z_digits; lia). done. }
  rewrite split_cursor_text by lia. cbn [nth_error]. rewrite !bind_some.
  unfold parse_uint.
  assert (forall n, 0 <= n <= u64_max ->
    within 0 u64_max (parse_digits (match show_Z n with String "+" r => r | _ => show_Z n end)) = Some n) as H.
  { intros n Hn. pose proof (parse_uint_digits u64_max (show_Z n) (show_Z_digits n ltac:(lia))) as Hp.
    unfold parse_uint in Hp. rewrite Hp, parse_digits_show by lia. unfold within.
    destruct (_ && _) eqn:E; [done|]. apply andb_false_iff in E as [?|?]; zbool; lia. }
  rewrite !H by lia. by destruct c.
Qed.

(** ** The segments of a directory *)

Record Seg := mkSeg { seg_id : Z; payloads : list bytes }.
Definition seg_lt (a b : Seg) : Prop := seg_id a < seg_id b.

Section Queue.
Context (crc32 : bytes -> Z).
Hypothesis crc_range : forall p, u32_range (crc32 p).

Abbreviation frame := (frame crc32).
Abbreviation read_frame := (read_frame crc32).

Definition frames (ps : list bytes) : bytes := List.concat (List.map frame ps).
Definition small (p : bytes) : Prop := Z.of_nat (List.length p) <= u32_max.
Definition seg_bytes (s : Seg) : bytes := MAGIC ++ frames (payloads s).
Definition seg_file (s : Seg) : string * bytes := (segment_path (seg_id s), seg_bytes s).
Definition seg_ok (s : Seg) : Prop := u64_range (seg_id s) /\ Forall small (payloads s).

(** The directory holds the segments [segs] in order, and other files that
    are not segments. *)
Record Layout (d : Dir) (segs : list Seg) (others : Dir) : Prop := {
  lay_perm : Permutation d (List.map seg_file segs ++ others);
  lay_others : Forall (fun f => segment_id (fst f) = None) others;
  lay_nodup : NoDup (List.map fst d);
  lay_ok : Forall seg_ok segs;
  lay_sorted : StronglySorted seg_lt segs
}.

Lemma layout_list d segs others : Layout d segs others -> list_segments d = List.map seg_id segs.
Proof.
  intros []. unfold list_segments.
  apply (StronglySorted_unique_strong (fun a b => (a <=? b) = true)).
  - intros x y _ _ Hxy Hyx. zbool. lia.
  - apply stable_sort_sorted; intros; destruct (_ <=? _) eqn:?; zbool; try lia; auto.
    all: right; apply Z.leb_le; lia.
  - clear -lay_sorted0. induction lay_sorted0 as [|s segs _ IH Hlt]; simpl; constructor; [done|].
    rewrite Forall_map. eapply Forall_impl; [exact Hlt|]. unfold seg_lt. simpl. intros. lia.
  - rewrite stable_sort_perm, lay_perm0, map_app.
    assert (omap segment_id (List.map fst (List.map seg_file segs)) = List.map seg_id segs) as Hs.
    { rewrite map_map, omap_map. apply omap_all. eapply Forall_impl; [exact lay_ok0|].
      intros s [Hid _]. by apply segment_id_path. }
    assert (omap segment_id (List.map fst others) = []) as Ho.
    { rewrite omap_map. by apply omap_none. }
    rewrite omap_app, Hs, Ho, app_nil_r. done.
Qed.

Lemma layout_lookup d segs others s : Layout d segs others -> s ∈ segs ->
  lookup_file (segment_path (seg_id s)) d = Some (seg_bytes s).
Proof.
  intros [] Hin. apply lookup_file_In; [done|].
  eapply Permutation_in; [by symmetry|]. apply in_app_iff. left.
  apply in_map_iff. exists s. split; [done|]. by apply list_elem_of_In.
Qed.

Lemma layout_fresh d segs others id : Layout d segs others -> u64_range id ->
  Forall (fun s => seg_id s <> id) segs -> ~ In (segment_path id) (List.map fst d).
Proof.
  intros [] Hid Hne Hin. rewrite lay_perm0, map_app, map_map in Hin.
  apply in_app_iff in Hin as [Hin|Hin].
  - apply in_map_iff in Hin as (s & Hs & Hin). apply list_elem_of_In in Hin.
    rewrite Forall_forall in lay_ok0, Hne. apply (Hne s Hin).
    apply segment_path_inj; [by apply lay_ok0|done|done].
  - apply in_map_iff in Hin as ([n c] & Hn & Hin). simpl in Hn. subst n.
    rewrite List.Forall_forall in lay_others0. specialize (lay_others0 _ Hin). simpl in lay_others0.
    by rewrite segment_id_path in lay_others0.
Qed.

Lemma others_not_segment (others : Dir) id : u64_range id ->
  Forall (fun f => segment_id (fst f) = None) others -> ~ In (segment_path id) (List.map fst others).
Proof.
  intros Hid Ho Hin. apply in_map_iff in Hin as ([n c] & Hn & Hin). simpl in Hn. subst n.
  rewrite List.Forall_forall in Ho. specialize (Ho _ Hin). simpl in Ho. by rewrite segment_id_path in Ho.
Qed.

Lemma segs_not_path segs id : Forall seg_ok segs -> u64_range id ->
  Forall (fun s => seg_id s <> id) segs -> ~ In (segment_path id) (List.map fst (List.map seg_file segs)).
Proof.
  intros Hok Hid Hne Hin. rewrite map_map in Hin. apply in_map_iff in Hin as (s & Hs & Hin).
  apply list_elem_of_In in Hin. rewrite Forall_forall in Hok, Hne. apply (Hne s Hin).
  apply segment_path_inj; [by apply Hok|done|done].
Qed.

Lemma sorted_split a s b : StronglySorted seg_lt (a ++ s :: b) ->
  Forall (fun x => seg_lt x s) a /\ Forall (fun x => seg_lt s x) b /\ StronglySorted seg_lt (a ++ b) /\
  StronglySorted seg_lt a /\ StronglySorted seg_lt b.
Proof.
  induction a as [|x a IH]; simpl.
  - inversion 1; subst. repeat split; try done; constructor.
  - inversion 1 as [|? ? Hs Hf]; subst. destruct (IH Hs) as (H1 & H2 & H3 & H4 & H5).
    apply Forall_app in Hf as [Hfa Hfb]. inversion Hfb; subst.
    repeat split; try done; constructor; try done. apply Forall_app. by split.
Qed.

Lemma write_file_app name g a b : write_file name g (a ++ b) = write_file name g a ++ write_file name g b.
Proof. apply map_app. Qed.

Lemma write_file_perm name g d d' : Permutation d d' -> Permutation (write_file name g d) (write_file name g d').
Proof. apply Permutation_map. Qed.

Lemma sorted_replace a s s' b : seg_id s' = seg_id s ->
  StronglySorted seg_lt (a ++ s :: b) -> StronglySorted seg_lt (a ++ s' :: b).
Proof.
  intros He. induction a as [|x a IH]; simpl.
  - inversion 1 as [|? ? Hs Hf]; subst. constructor; [done|].
    eapply Forall_impl; [exact Hf|]. unfold seg_lt. intros. lia.
  - inversion 1 as [|? ? Hs Hf]; subst. constructor; [by apply IH|].
    apply Forall_app in Hf as [Hfa Hfb]. inversion Hfb; subst. apply Forall_app. split; [done|].
    constructor; [unfold seg_lt in *; lia|done].
Qed.

(** Appending a frame to a segment. *)
Lemma layout_append d a s b others p : Layout d (a ++ s :: b) others -> small p ->
  Layout (write_file (segment_path (seg_id s)) (fun c => c ++ frame p) d)
    (a ++ mkSeg (seg_id s) (payloads s ++ [p]) :: b) others.
Proof.
  intros [] Hp. pose proof lay_ok0 as Hok. apply Forall_app in Hok as [Hoka Hok].
  inversion Hok as [|? ? [Hid Hsm] Hokb]; subst.
  destruct (sorted_split _ _ _ lay_sorted0) as (Hlta & Hltb & _).
  constructor.
  - rewrite (write_file_perm _ _ _ _ lay_perm0). rewrite write_file_app, !map_app, write_file_app.
    rewrite write_file_notin by (apply segs_not_path; [done|done|];
      eapply Forall_impl; [exact Hlta|]; unfold seg_lt; simpl; intros; lia).
    rewrite (write_file_notin _ _ others) by by apply others_not_segment.
    simpl. rewrite String.eqb_refl.
    rewrite (write_file_notin _ _ (List.map seg_file b)) by (apply segs_not_path; [done|done|];
      eapply Forall_impl; [exact Hltb|]; unfold seg_lt; simpl; intros; lia).
    unfold seg_file at 2 4. simpl. unfold seg_bytes. simpl. unfold frames.
    rewrite map_app, concat_app. simpl. rewrite app_nil_r, <- !app_assoc. done.
  - done.
  - by rewrite write_file_fst.
  - apply Forall_app. split; [done|]. constructor; [|done]. split; [done|]. simpl.
    apply Forall_app. split; [done|by constructor].
  - by eapply sorted_replace; [|exact lay_sorted0].
Qed.

(** A fresh segment after the others. *)
Lemma layout_new d segs others id : Layout d segs others -> u64_range id ->
  Forall (fun s => seg_id s < id) segs ->
  Layout (d ++ [(segment_path id, MAGIC)]) (segs ++ [mkSeg id []]) others.
Proof.
  intros Hl Hid Hlt. pose proof Hl as [].
  assert (~ In (segment_path id) (List.map fst d)) as Hfresh.
  { eapply layout_fresh; [done|done|]. eapply Forall_impl; [exact Hlt|]. simpl. intros. lia. }
  constructor.
  - rewrite map_app. change (List.map seg_file [mkSeg id []]) with [(segment_path id, MAGIC ++ [])].
    rewrite app_nil_r, lay_perm0, <- !app_assoc. apply Permutation_app_head, Permutation_app_comm.
  - done.
  - rewrite map_app. apply NoDup_app. split; [done|]. split; [|apply NoDup_singleton].
    intros x Hx Hx'. apply list_elem_of_singleton in Hx'. subst x. by apply list_elem_of_In in Hx.
  - apply Forall_app. split; [done|]. constructor; [|constructor]. split; [done|]. constructor.
  - clear -lay_sorted0 Hlt. induction lay_sorted0 as [|s segs Hs IH Hf]; simpl; [repeat constructor|].
    inversion Hlt; subst. constructor; [by apply IH|]. apply Forall_app. split; [done|by constructor].
Qed.

Lemma filter_notin name (d : Dir) : ~ In name (List.map fst d) -> remove_file name d = d.
Proof.
  unfold remove_file. induction d as [|[n c] d IH]; simpl; [done|]. intros Hn.
  destruct (String.eqb_spec n name) as [e|]; [destruct Hn; by left|]. simpl.
  rewrite IH; [done|]. intros ?. apply Hn. by right.
Qed.

Lemma remove_file_app name a b : remove_file name (a ++ b) = remove_file name a ++ remove_file name b.
Proof. apply List.filter_app. Qed.

Lemma remove_file_perm name d d' : Permutation d d' -> Permutation (remove_file name d) (remove_file name d').
Proof.
  unfold remove_file. induction 1 as [|[n c] l l' _ IH|[n c] [n' c'] l|]; simpl; [done| | |by etrans].
  - destruct (negb _); [by constructor|done].
  - destruct (negb (n =? name)%string), (negb (n' =? name)%string); try done. constructor.
Qed.

Lemma remove_file_nodup name (d : Dir) : NoDup (List.map fst d) -> NoDup (List.map fst (remove_file name d)).
Proof.
  unfold remove_file. induction d as [|[n c] d IH]; simpl; [done|]. intros [Hn Hd]%NoDup_cons.
  destruct (negb _); simpl; [|by apply IH]. constructor; [|by apply IH].
  intros Hin. apply Hn. apply list_elem_of_In in Hin. apply list_elem_of_In.
  apply in_map_iff in Hin as (x & Hx & Hin). apply filter_In in Hin as [Hin _].
  apply in_map_iff. by exists x.
Qed.

(** Unlinking the first segment. *)
Lemma layout_remove d s b others : Layout d (s :: b) others ->
  Layout (remove_file (segment_path (seg_id s)) d) b others.
Proof.
  intros []. inversion lay_ok0 as [|? ? [Hid Hsm] Hokb]; subst.
  inversion lay_sorted0 as [|? ? Hs Hltb]; subst. constructor; try done.
  - rewrite (remove_file_perm _ _ _ lay_perm0). rewrite remove_file_app.
    rewrite (filter_notin _ others) by by apply others_not_segment.
    cbn [List.map]. unfold remove_file at 1. cbn [List.filter seg_file fst]. rewrite String.eqb_refl. cbn [negb].
    fold (remove_file (segment_path (seg_id s)) (List.map seg_file b)).
    rewrite filter_notin; [done|]. apply segs_not_path; [done|done|].
    eapply Forall_impl; [exact Hltb|]. unfold seg_lt. simpl. intros. lia.
  - by apply remove_file_nodup.
Qed.

Lemma cursor_path_not_id : segment_id cursor_path = None.
Proof. reflexivity. Qed.

Lemma segs_not_cursor segs : ~ In cursor_path (List.map fst (List.map seg_file segs)).
Proof.
  rewrite map_map. intros Hin. apply in_map_iff in Hin as (s & Hs & _). discriminate Hs.
Qed.

(** Replacing the cursor file. *)
Lemma layout_cursor d segs others content : Layout d segs others ->
  exists others', Layout (put_file cursor_path content d) segs others' /\
    lookup_file cursor_path (put_file cursor_path content d) = Some content.
Proof.
  intros []. unfold put_file. destruct (lookup_file cursor_path d) as [c|] eqn:E.
  - exists (write_file cursor_path (fun _ => content) others). split.
    + constructor; try done.
      * rewrite (write_file_perm _ _ _ _ lay_perm0), write_file_app.
        by rewrite (write_file_notin _ _ (List.map seg_file segs)) by apply segs_not_cursor.
      * clear -lay_others0. induction lay_others0 as [|[n c] others Hf _ IH]; [constructor|]. simpl.
        constructor; [|done]. by destruct (String.eqb n cursor_path).
      * by rewrite write_file_fst.
    + by erewrite lookup_write_eq.
  - assert (~ In cursor_path (List.map fst d)) as Hn.
    { intros Hin. apply in_map_iff in Hin as ([n c] & Hn & Hin). simpl in Hn. subst n.
      apply lookup_file_In in Hin; [congruence|done]. }
    assert (NoDup (List.map fst (d ++ [(cursor_path, content)]))) as Hnd.
    { rewrite map_app. apply NoDup_app. split; [done|]. split; [|apply NoDup_singleton].
      intros x Hx Hx'. apply list_elem_of_singleton in Hx'. subst x. by apply list_elem_of_In in Hx. }
    exists (others ++ [(cursor_path, content)]). split.
    + constructor; try done.
      * by rewrite lay_perm0, app_assoc.
      * apply Forall_app. split; [done|]. by repeat constructor.
    + apply lookup_file_In; [done|]. apply in_app_iff. right. by left.
Qed.

(** ** Reading *)

Lemma spool_frame_length p : Z.of_nat (List.length (frame p)) = FRAME_OVERHEAD + Z.of_nat (List.length p).
Proof. unfold Spool.frame, FRAME_OVERHEAD. rewrite !length_app, !length_le_bytes. lia. Qed.

Lemma read_frame_head p t : small p ->
  read_frame (frame p ++ t) =
    ('(payload, rest) ← read_full (Z.of_nat (List.length p)) (p ++ t);
     if negb (crc32 payload =? crc32 p) then None else Some (payload, rest)).
Proof.
  intros Hp. unfold Spool.read_frame, Spool.frame. rewrite <- !app_assoc.
  rewrite (app_assoc (le_bytes 4 (Z.of_nat _))).
  rewrite read_full_app by (rewrite length_app, !length_le_bytes; done).
  rewrite bind_some. cbv beta iota.
  rewrite take_app_length', drop_app_length' by by rewrite length_le_bytes.
  rewrite (le4_small (Z.of_nat _)) by (unfold small in Hp; unfold u32_range; lia).
  by rewrite le4_small by apply crc_range.
Qed.

Lemma spool_read_frame_frame p t : small p -> read_frame (frame p ++ t) = Some (p, t).
Proof.
  intros Hp. rewrite read_frame_head, read_full_app by done.
  rewrite bind_some. cbv beta iota. by rewrite Z.eqb_refl.
Qed.

Lemma spool_read_frame_nil : read_frame [] = None.
Proof. reflexivity. Qed.

(** The cursors [peek] gives for the payloads [ps] of a segment from [off]. *)
Fixpoint ends (seg off : Z) (ps : list bytes) : list (Cursor * bytes) :=
  match ps with
  | [] => []
  | p :: ps' =>
      let off' := off + (FRAME_OVERHEAD + Z.of_nat (List.length p)) in
      (mkCursor seg off', p) :: ends seg off' ps'
  end.

Lemma read_segment_frames seg ps : forall room off t, Forall small ps -> read_frame t = None ->
  read_segment crc32 room seg off (frames ps ++ t) = ends seg off (take room ps).
Proof.
  induction ps as [|p ps IH]; intros room off t Hs Ht.
  - destruct room; simpl; [done|]. by rewrite Ht.
  - inversion Hs; subst. destruct room as [|room]; [done|].
    unfold frames. cbn [List.map List.concat read_segment take ends]. rewrite <- app_assoc.
    rewrite spool_read_frame_frame by done. f_equal. by apply IH.
Qed.

Lemma ends_snd seg ps : forall off, List.map snd (ends seg off ps) = ps.
Proof. induction ps as [|p ps IH]; intros off; simpl; [done|by rewrite IH]. Qed.

Lemma ends_length seg ps off : List.length (ends seg off ps) = List.length ps.
Proof. rewrite <- (ends_snd seg ps off) at 2. by rewrite length_map. Qed.

Lemma frames_cons p ps : frames (p :: ps) = frame p ++ frames ps.
Proof. done. Qed.

Lemma spool_frames_app a b : frames (a ++ b) = frames a ++ frames b.
Proof. unfold frames. by rewrite map_app, concat_app. Qed.

(** The [i]-th cursor is past the first [i + 1] frames. *)
Lemma ends_nth seg ps : forall off i c p, nth_error (ends seg off ps) i = Some (c, p) ->
  c = mkCursor seg (off + Z.of_nat (List.length (frames (take (S i) ps)))) /\ (i < List.length ps)%nat.
Proof.
  induction ps as [|q ps IH]; intros off [|i] c p; cbn [ends nth_error]; try done.
  - intros [= <- _]. change (take 1 (q :: ps)) with [q]. rewrite frames_cons.
    unfold frames. cbn [List.map List.concat]. rewrite app_nil_r, spool_frame_length. split; [done|simpl; lia].
  - intros H. apply IH in H as [-> Hi]. split; [|simpl; lia]. f_equal.
    change (take (S (S i)) (q :: ps)) with (q :: take (S i) ps).
    rewrite frames_cons, length_app, Nat2Z.inj_add, spool_frame_length. lia.
Qed.

Lemma ends_drop seg ps : forall off n,
  drop n (ends seg off ps) = ends seg (off + Z.of_nat (List.length (frames (take n ps)))) (drop n ps).
Proof.
  induction ps as [|q ps IH]; intros off [|n]; cbn [ends drop take]; try (by rewrite ?Z.add_0_r).
  rewrite IH, frames_cons, length_app, Nat2Z.inj_add, spool_frame_length. f_equal. lia.
Qed.

Lemma ends_last seg ps off : match last (ends seg off ps) with Some (c, _) => offset c | None => off end
  = off + Z.of_nat (List.length (frames ps)).
Proof.
  destruct (last_snoc_or_nil ps) as [->|(ps' & p & ->)]; [simpl; unfold frames; simpl; lia|].
  assert (nth_error (ends seg off (ps' ++ [p])) (List.length ps') = last (ends seg off (ps' ++ [p]))) as Hl.
  { rewrite last_lookup, ends_length, length_app. simpl.
    rewrite nth_error_lookup. f_equal. lia. }
  destruct (last (ends seg off (ps' ++ [p]))) as [[c q]|] eqn:E.
  - apply ends_nth in Hl as [-> _]. cbn [offset]. rewrite take_ge; [done|]. rewrite length_app. simpl. lia.
  - apply nth_error_None in Hl. rewrite ends_length, length_app in Hl. simpl in Hl. lia.
Qed.

(** What [peek] returns for a run of whole segments. *)
Fixpoint ends_all (segs : list Seg) : list (Cursor * bytes) :=
  match segs with
  | [] => []
  | s :: segs' => ends (seg_id s) HEADER_BYTES (payloads s) ++ ends_all segs'
  end.

Lemma ends_take seg ps : forall off n, ends seg off (take n ps) = take n (ends seg off ps).
Proof. induction ps as [|p ps IH]; intros off [|n]; simpl; try done. by rewrite IH. Qed.

Lemma drop_file s done_ todo : payloads s = done_ ++ todo ->
  drop (Z.to_nat (HEADER_BYTES + Z.of_nat (List.length (frames done_)))) (seg_bytes s) = frames todo.
Proof.
  intros Hp. unfold seg_bytes. rewrite Hp, spool_frames_app, app_assoc, drop_app_length'; [done|].
  rewrite length_app. unfold HEADER_BYTES. change (List.length MAGIC) with 8%nat. lia.
Qed.

Lemma peek_step d room sg done_ todo off segs' payload_file :
  off = HEADER_BYTES + Z.of_nat (List.length (frames done_)) ->
  payload_file = mkSeg sg (done_ ++ todo) ->
  Forall small todo -> lookup_file (segment_path sg) d = Some (seg_bytes payload_file) ->
  peek_loop crc32 d room sg off (sg :: segs') =
    let out := ends sg off (take room todo) in
    if (room <=? List.length out)%nat then out
    else out ++ peek_loop crc32 d (room - List.length out) sg
                  (off + Z.of_nat (List.length (frames (take room todo)))) segs'.
Proof.
  intros -> -> Hs Hl. cbn [peek_loop]. rewrite Z.ltb_irrefl, Hl.
  rewrite (drop_file _ done_ todo) by done.
  rewrite <- (app_nil_r (frames todo)), read_segment_frames by done.
  cbv zeta. by rewrite ends_last.
Qed.

Lemma peek_loop_next d room a off sg segs' : a < sg ->
  peek_loop crc32 d room a off (sg :: segs') = peek_loop crc32 d room sg HEADER_BYTES (sg :: segs').
Proof.
  intros H. cbn [peek_loop]. rewrite Z.ltb_irrefl. by replace (a <? sg) with true by lia.
Qed.

Lemma peek_loop_all d others segs : forall segs0 room a off,
  Layout d (segs0 ++ segs) others -> Forall (fun s => a < seg_id s) segs ->
  peek_loop crc32 d room a off (List.map seg_id segs) = take room (ends_all segs).
Proof.
  induction segs as [|s segs IH]; intros segs0 room a off Hl Ha; [by destruct room|].
  inversion Ha as [|? ? Has Ha']; subst. cbn [List.map ends_all].
  rewrite peek_loop_next by done.
  pose proof (lay_ok _ _ _ Hl) as Hok. apply Forall_app in Hok as [_ Hok].
  inversion Hok as [|? ? [_ Hsm] _]; subst.
  rewrite (peek_step d room (seg_id s) [] (payloads s) HEADER_BYTES _ s);
    [|done|by destruct s|done|eapply layout_lookup; [done|]; apply elem_of_app; right; left].
  cbv zeta. rewrite take_app, !ends_length, length_take, <- ends_take.
  pose proof (lay_sorted _ _ _ Hl) as Hs. apply sorted_split in Hs as (_ & Hlt & _).
  destruct (_ <=? _)%nat eqn:E.
  - apply Nat.leb_le in E. replace (room - List.length (payloads s))%nat with 0%nat by lia.
    by rewrite take_0, app_nil_r.
  - apply Nat.leb_gt in E. f_equal.
    rewrite (IH (segs0 ++ [s])); [f_equal; lia|by rewrite <- app_assoc|done].
Qed.

(** ** The queue a spool represents *)

Definition file_bytes (s : Seg) : Z := Z.of_nat (List.length (seg_bytes s)).

(** The spool reads from segment [sg], where [done_] is delivered and [todo]
    is not; [before] is delivered and [after] is not. *)
Record Shape (s : Spool) (others : Dir) (before : list Seg) (sg : Z) (done_ todo : list bytes)
    (after : list Seg) : Prop := {
  sh_layout : Layout (dir s) (before ++ mkSeg sg (done_ ++ todo) :: after) others;
  sh_cursor : cursor s = mkCursor sg (HEADER_BYTES + Z.of_nat (List.length (frames done_)));
  sh_write : exists front w, before ++ mkSeg sg (done_ ++ todo) :: after = front ++ [w] /\
    write_segment s = seg_id w /\ write_offset s = file_bytes w;
  sh_disk : (lookup_file cursor_path (dir s) = None /\ before = [] /\ done_ = []) \/
    lookup_file cursor_path (dir s) = Some (list_byte_of_string (cursor_text (cursor s)));
  sh_sizes : Forall (fun x => file_bytes x <= max_total_bytes (config s) + 16)
    (before ++ mkSeg sg (done_ ++ todo) :: after);
  sh_pos : Forall (fun x => 1 <= seg_id x) (before ++ mkSeg sg (done_ ++ todo) :: after)
}.

Definition pending (todo : list bytes) (after : list Seg) : list bytes :=
  todo ++ List.concat (List.map payloads after).

(** The spool holds the undelivered records [q], oldest first. *)
Definition represents (s : Spool) (q : list bytes) : Prop :=
  exists others before sg done_ todo after,
    Shape s others before sg done_ todo after /\ q = pending todo after.

(** What [peek] has to give: each record with the cursor past it. *)
Definition shows (s : Spool) (l : list (Cursor * bytes)) : Prop :=
  exists others before sg done_ todo after,
    Shape s others before sg done_ todo after /\ l = ends sg (offset (cursor s)) todo ++ ends_all after.

(** Limits under which lengths and offsets are exact. *)
Definition config_ok (c : SpoolConfig) : Prop :=
  0 <= max_record_bytes c <= u32_max /\ 0 <= max_total_bytes c /\ max_total_bytes c + 16 <= u64_max.

Lemma ends_all_snd segs : List.map snd (ends_all segs) = List.concat (List.map payloads segs).
Proof.
  induction segs as [|s segs IH]; [done|]. cbn [ends_all List.map List.concat].
  by rewrite map_app, ends_snd, IH.
Qed.

Lemma filter_ge_split before sg after :
  StronglySorted seg_lt (before ++ sg :: after) ->
  List.filter (fun x => seg_id sg <=? x) (List.map seg_id (before ++ sg :: after)) = List.map seg_id (sg :: after).
Proof.
  intros Hs. apply sorted_split in Hs as (Hb & Ha & _). rewrite map_app, List.filter_app.
  assert (List.filter (fun x => seg_id sg <=? x) (List.map seg_id before) = []) as ->.
  { induction Hb as [|x l Hx _ IH]; [done|]. simpl. unfold seg_lt in Hx.
    destruct (_ <=? _) eqn:E; zbool; [lia|done]. }
  simpl. rewrite Z.leb_refl. f_equal.
  induction Ha as [|x l Hx _ IH]; [done|]. simpl. unfold seg_lt in Hx.
  destruct (_ <=? _) eqn:E; zbool; [by rewrite IH|lia].
Qed.

(** [peek] in closed form. *)
Lemma peek_shape s others before sg done_ todo after n :
  Shape s others before sg done_ todo after ->
  peek crc32 s n = take n (ends sg (offset (cursor s)) todo ++ ends_all after).
Proof.
  intros []. pose proof (lay_ok _ _ _ sh_layout0) as Hok. apply Forall_app in Hok as [_ Hok].
  inversion Hok as [|? ? [_ Hsm] _]; subst. simpl in Hsm. apply Forall_app in Hsm as [_ Hsm].
  pose proof (lay_sorted _ _ _ sh_layout0) as Hs.
  unfold peek. rewrite (layout_list _ _ _ sh_layout0), sh_cursor0. cbn [segment offset].
  pose proof (filter_ge_split before (mkSeg sg (done_ ++ todo)) after Hs) as Hf. cbn [seg_id] in Hf.
  rewrite Hf. cbn [List.map seg_id].
  rewrite (peek_step _ n sg done_ todo _ _ (mkSeg sg (done_ ++ todo))); [|done|done|done|].
  2:{ apply (layout_lookup _ _ _ (mkSeg sg (done_ ++ todo)) sh_layout0).
      apply elem_of_app. right. by left. }
  cbv zeta. rewrite take_app, !ends_length, length_take, ends_take.
  apply sorted_split in Hs as (_ & Hlt & _).
  destruct (_ <=? _)%nat eqn:E.
  - apply Nat.leb_le in E. replace (n - List.length todo)%nat with 0%nat by lia.
    by rewrite take_0, app_nil_r.
  - apply Nat.leb_gt in E. f_equal.
    rewrite (peek_loop_all _ others after (before ++ [mkSeg sg (done_ ++ todo)])).
    + f_equal. lia.
    + by rewrite <- app_assoc.
    + eapply Forall_impl; [exact Hlt|]. done.
Qed.

(** [peek] gives the oldest records, in order, and consumes nothing. *)
Lemma peek_represents s q n : represents s q -> List.map snd (peek crc32 s n) = take n q.
Proof.
  intros (others & before & sg & done_ & todo & after & Hsh & ->).
  rewrite (peek_shape _ _ _ _ _ _ _ n Hsh). rewrite <- firstn_map, map_app, ends_snd, ends_all_snd. done.
Qed.

(** ** Pushing *)

Lemma total_bytes_ge s others before sg done_ todo after x :
  Shape s others before sg done_ todo after -> x ∈ before ++ mkSeg sg (done_ ++ todo) :: after ->
  file_bytes x <= total_bytes s.
Proof.
  intros [] Hx. unfold total_bytes. rewrite (layout_list _ _ _ sh_layout0).
  assert (forall segs, (forall y, y ∈ segs -> file_len (dir s) (seg_id y) = file_bytes y) ->
            x ∈ segs -> file_bytes x <= sumZ (file_len (dir s)) (List.map seg_id segs)) as H.
  { induction segs as [|y segs IH]; intros Hy Hin; [by apply not_elem_of_nil in Hin|]. simpl.
    assert (0 <= sumZ (file_len (dir s)) (List.map seg_id segs)) as Hnn.
    { apply sumZ_nonneg, Forall_forall. intros i _. unfold file_len. case_match; lia. }
    assert (0 <= file_bytes y) by (unfold file_bytes; lia).
    rewrite (Hy y) by by left. apply elem_of_cons in Hin as [->|Hin]; [lia|].
    assert (file_bytes x <= sumZ (file_len (dir s)) (List.map seg_id segs)); [|lia].
    apply IH; [|done]. intros z Hz. apply Hy. by right. }
  apply H; [|done]. intros y Hy. unfold file_len.
  by rewrite (layout_lookup _ _ _ y sh_layout0 Hy).
Qed.

Lemma lookup_new_ne name c (d : Dir) name' : name <> name' ->
  lookup_file name' (d ++ [(name, c)]) = lookup_file name' d.
Proof.
  intros Hne. unfold lookup_file. induction d as [|[n c'] d IH]; simpl.
  - destruct (String.eqb_spec name name'); done.
  - destruct (String.eqb n name'); [done|apply IH].
Qed.

(** Rolling opens an empty segment after the others. *)
Lemma roll_shape s others before sg done_ todo after :
  Shape s others before sg done_ todo after -> 0 <= max_total_bytes (config s) ->
  write_segment s + 1 <= u64_max ->
  exists s', roll s = (inr tt, s') /\ config s' = config s /\ cursor s' = cursor s /\
    dropped_full s' = dropped_full s /\ write_segment s' = write_segment s + 1 /\ write_offset s' = HEADER_BYTES /\
    Shape s' others before sg done_ todo (after ++ [mkSeg (write_segment s + 1) []]).
Proof.
  intros [] Hmax Hroom. destruct sh_write0 as (front & w & Hsegs & Hws & Hwo).
  pose proof sh_layout0 as Hl. rewrite Hsegs in Hl.
  pose proof (lay_ok _ _ _ Hl) as Hok. apply Forall_app in Hok as [_ Hok].
  inversion Hok as [|? ? [Hwid _] _]; subst.
  pose proof (lay_sorted _ _ _ Hl) as Hs. apply sorted_split in Hs as (Hlt & _).
  assert (u64_range (seg_id w + 1)) as Hid by (unfold u64_range in *; lia).
  assert (Forall (fun x => seg_id x < seg_id w + 1) (front ++ [w])) as Hall.
  { apply Forall_app. split; [|repeat constructor; lia].
    eapply Forall_impl; [exact Hlt|]. unfold seg_lt. intros. lia. }
  assert (lookup_file (segment_path (seg_id w + 1)) (dir s) = None) as Hnone.
  { apply lookup_file_none. eapply layout_fresh; [exact Hl|done|].
    eapply Forall_impl; [exact Hall|]. simpl. intros. lia. }
  unfold roll, mbind, SE_bind, modify, gets.
  cbn [write_segment set_write_segment dir].
  rewrite Hws, wadd64_small by done. unfold open_segment_for_append. rewrite Hnone.
  eexists. split; [reflexivity|]. do 5 (split; [done|]).
  pose proof (layout_new _ _ _ _ Hl Hid Hall) as Hl'. rewrite <- Hsegs, <- app_assoc in Hl'.
  constructor; simpl; try done.
  - exists (before ++ mkSeg sg (done_ ++ todo) :: after), (mkSeg (seg_id w + 1) []).
    split; [by rewrite <- app_assoc|]. done.
  - by rewrite lookup_new_ne by apply cursor_not_segment.
  - rewrite app_comm_cons, app_assoc. apply Forall_app. split; [done|].
    constructor; [|constructor]. unfold file_bytes. simpl. lia.
  - rewrite app_comm_cons, app_assoc. apply Forall_app. split; [done|].
    constructor; [|constructor]. unfold u64_range in Hwid. simpl. lia.
Qed.

(** Writing a frame at the end of the last segment. *)
Definition write_frame (p : bytes) (s : Spool) : Spool :=
  set_write_offset (write_offset s + Z.of_nat (List.length (frame p)))
    (set_dir (write_file (segment_path (write_segment s)) (fun c => c ++ frame p) (dir s)) s).

Lemma file_bytes_snoc i ps p : file_bytes (mkSeg i (ps ++ [p])) =
  file_bytes (mkSeg i ps) + (FRAME_OVERHEAD + Z.of_nat (List.length p)).
Proof.
  unfold file_bytes, seg_bytes. simpl payloads. rewrite spool_frames_app, !length_app.
  unfold frames at 2. cbn [List.map List.concat]. rewrite app_nil_r. pose proof (spool_frame_length p). lia.
Qed.

Lemma write_frame_shape s q p : represents s q -> small p ->
  write_offset s + (FRAME_OVERHEAD + Z.of_nat (List.length p)) <= max_total_bytes (config s) + 16 ->
  represents (write_frame p s) (q ++ [p]).
Proof.
  intros (others & before & sg & done_ & todo & after & [] & ->) Hp Hsize.
  destruct sh_write0 as (front & w & Hsegs & Hws & Hwo).
  assert (Hcur : lookup_file cursor_path (dir (write_frame p s)) = lookup_file cursor_path (dir s)).
  { simpl. apply lookup_write_ne, cursor_not_segment. }
  destruct (last_snoc_or_nil after) as [->|(after' & w' & ->)].
  - apply app_inj_tail in Hsegs as [<- <-]. simpl in Hws.
    exists others, before, sg, done_, (todo ++ [p]), [].
    split; [|unfold pending; simpl; by rewrite !app_nil_r].
    pose proof (layout_append _ _ _ _ _ p sh_layout0 Hp) as Hl. simpl in Hl.
    rewrite <- app_assoc in Hl. constructor; cbn [write_frame set_write_offset set_dir dir config cursor write_segment write_offset]; try done.
    + by rewrite Hws.
    + exists before, (mkSeg sg (done_ ++ todo ++ [p])). split; [done|]. split; [done|].
      rewrite app_assoc, file_bytes_snoc, Hwo, spool_frame_length. done.
    + by rewrite lookup_write_ne by apply cursor_not_segment.
    + apply Forall_app in sh_sizes0 as [Hb _]. apply Forall_app. split; [done|].
      constructor; [|constructor]. rewrite app_assoc, file_bytes_snoc. lia.
    + apply Forall_app in sh_pos0 as [Hb Hc]. apply Forall_app. split; [done|].
      inversion Hc; subst. by constructor.
  - rewrite app_comm_cons, app_assoc in Hsegs. apply app_inj_tail in Hsegs as [<- <-].
    set (w'' := mkSeg (seg_id w') (payloads w' ++ [p])).
    exists others, before, sg, done_, todo, (after' ++ [w'']).
    split; [|unfold pending; rewrite !map_app, !concat_app; simpl; by rewrite !app_nil_r, !app_assoc].
    rewrite app_comm_cons, app_assoc in sh_layout0.
    pose proof (layout_append _ _ _ _ _ p sh_layout0 Hp) as Hl.
    rewrite <- app_assoc, <- app_comm_cons in Hl.
    assert (file_bytes w'' = file_bytes w' + (FRAME_OVERHEAD + Z.of_nat (List.length p))) as Hw''.
    { unfold w''. rewrite file_bytes_snoc. by destruct w'. }
    constructor; cbn [write_frame set_write_offset set_dir dir config cursor write_segment write_offset]; try done.
    + by rewrite Hws.
    + exists (before ++ mkSeg sg (done_ ++ todo) :: after'), w''.
      split; [by rewrite <- app_assoc|]. split; [done|]. rewrite Hw'', Hwo, spool_frame_length. done.
    + by rewrite lookup_write_ne by apply cursor_not_segment.
    + rewrite app_comm_cons, app_assoc in *. apply Forall_app in sh_sizes0 as [Hb _].
      apply Forall_app. split; [done|]. constructor; [|constructor]. lia.
    + rewrite app_comm_cons, app_assoc in *. apply Forall_app in sh_pos0 as [Hb Hc].
      apply Forall_app. split; [done|]. inversion Hc; subst. by constructor.
Qed.

(** [push] on every branch. *)
Lemma push_represents s q p : represents s q -> config_ok (config s) -> write_segment s + 1 <= u64_max ->
  exists r s', push crc32 p s = (r, s') /\ config s' = config s /\ write_segment s' <= write_segment s + 1 /\
    match r with
    | inl e => max_record_bytes (config s) < Z.of_nat (List.length p) /\ s' = s /\
        e = TooLarge (Z.of_nat (List.length p)) (max_record_bytes (config s))
    | inr false => s' = set_dropped_full (dropped_full s + 1) s /\
        max_total_bytes (config s) < total_bytes s + Z.of_nat (List.length p)
    | inr true => represents s' (q ++ [p]) /\
        total_bytes s + Z.of_nat (List.length p) <= max_total_bytes (config s) /\ dropped_full s' = dropped_full s
    end.
Proof.
  intros Hrep (Hmr & Hmt0 & Hmt) Hroom. unfold push.
  rewrite (SE_bind_run _ _ s s s) by done. cbv zeta.
  destruct (_ <? _) eqn:E1; zbool.
  { exists (inl (TooLarge (Z.of_nat (List.length p)) (max_record_bytes (config s)))), s.
    split; [done|]. split; [done|]. split; [lia|done]. }
  destruct (_ <? _) eqn:E2; zbool.
  { eexists (inr false), _. split; [reflexivity|]. split; [done|]. split; [simpl; lia|]. done. }
  assert (small p) as Hp by (unfold small; lia).
  destruct Hrep as (others & before & sg & done_ & todo & after & Hsh & ->).
  assert (0 <= write_offset s <= total_bytes s) as Hwo.
  { pose proof (sh_write _ _ _ _ _ _ _ Hsh) as (front & w & Hsegs & _ & ->).
    split; [unfold file_bytes; lia|]. eapply total_bytes_ge; [exact Hsh|]. rewrite Hsegs. apply elem_of_app. right. by left. }
  assert (exists s1 after1, when ((segment_bytes (config s) <? write_offset s + FRAME_OVERHEAD + Z.of_nat (List.length p)) &&
            (HEADER_BYTES <? write_offset s)) roll s = (inr tt, s1) /\
          Shape s1 others before sg done_ todo after1 /\ pending todo after1 = pending todo after /\
          config s1 = config s /\ write_segment s1 <= write_segment s + 1 /\ dropped_full s1 = dropped_full s /\
          (write_offset s1 <= total_bytes s \/ write_offset s1 = 8)) as (s1 & after1 & Hw & Hsh1 & Hpend & Hc & Hseg & Hdrop & Hwo1).
  { unfold when. destruct (_ && _).
    - destruct (roll_shape _ _ _ _ _ _ _ Hsh Hmt0 Hroom) as (s1 & Hr & Hc & _ & Hd & Hws & Hwo1 & Hsh1).
      eexists s1, _. split; [exact Hr|]. split; [exact Hsh1|].
      split; [unfold pending; rewrite map_app, concat_app; simpl; by rewrite !app_nil_r|].
      split; [done|]. split; [lia|]. split; [done|]. by right.
    - exists s, after. split; [done|]. split; [done|]. split; [done|]. split; [done|]. split; [lia|].
      split; [done|left; lia]. }
  rewrite (SE_bind_run _ _ _ _ _ Hw). eexists (inr true), (write_frame p s1).
  split; [reflexivity|]. split; [done|]. split; [done|].
  split; [|split; [done|done]].
  rewrite <- Hpend. apply write_frame_shape; [by exists others, before, sg, done_, todo, after1|done|].
  rewrite Hc. unfold FRAME_OVERHEAD. lia.
Qed.

(** ** Delivering *)

Lemma unlink_prefix c before : forall s others cur after,
  Layout (dir s) (before ++ cur :: after) others -> segment c = seg_id cur ->
  (exists front w, cur :: after = front ++ [w] /\ write_segment s = seg_id w) ->
  exists d', unlink_consumed c (List.map seg_id (before ++ cur :: after)) s = (inr tt, set_dir d' s) /\
    Layout d' (cur :: after) others /\
    (lookup_file cursor_path d' = lookup_file cursor_path (dir s)).
Proof.
  induction before as [|b before IH]; intros s others cur after Hl Hc Hw.
  - exists (dir s). split; [|by split]. simpl app.
    assert (Forall (fun x => segment c <= seg_id x) (cur :: after)) as Hge.
    { pose proof (lay_sorted _ _ _ Hl) as Hs. inversion Hs as [|? ? _ Hf]; subst.
      constructor; [lia|]. eapply Forall_impl; [exact Hf|]. unfold seg_lt. intros. lia. }
    assert (s = set_dir (dir s) s) as Hs by by destruct s.
    rewrite <- Hs. clear -Hge. induction Hge as [|x l Hx _ IH]; [done|].
    cbn [List.map unlink_consumed]. rewrite (SE_bind_run _ _ s s s) by done.
    replace (seg_id x <? segment c) with false by lia. cbn [andb].
    rewrite (SE_bind_run _ _ s tt s) by done. exact IH.
  - pose proof (lay_sorted _ _ _ Hl) as Hs.
    simpl app in Hs. inversion Hs as [|? ? _ Hf]; subst.
    apply Forall_app in Hf as [_ Hf]. pose proof Hw as (front & w & Hfw & Hws).
    assert (Forall (fun x => seg_id b < seg_id x) (front ++ [w])) as Hlt.
    { rewrite <- Hfw. eapply Forall_impl; [exact Hf|]. done. }
    apply Forall_app in Hlt as [_ Hlt]. inversion Hlt; subst.
    cbn [app List.map unlink_consumed]. rewrite (SE_bind_run _ _ s s s) by done.
    inversion Hf as [|? ? Hbc _]; subst. unfold seg_lt in Hbc.
    replace (seg_id b <? segment c) with true by lia.
    replace (seg_id b =? write_segment s) with false by lia. cbn [andb negb].
    rewrite (layout_lookup _ _ _ b Hl) by (simpl; left).
    erewrite SE_bind_run by reflexivity.
    pose proof (layout_remove _ _ _ _ Hl) as Hl'.
    destruct (IH (set_dir (remove_file (segment_path (seg_id b)) (dir s)) s) others cur after Hl' Hc Hw)
      as (d' & Hrun & Hl2 & Hcur).
    exists d'. rewrite Hrun. split; [done|]. split; [done|].
    rewrite Hcur. simpl. apply lookup_remove_ne, cursor_not_segment.
Qed.

(** The segment a cursor of [ends_all] is in, and where in it. *)
Lemma ends_all_nth segs : forall i c p, nth_error (ends_all segs) i = Some (c, p) ->
  exists pre x suf n, segs = pre ++ x :: suf /\
    c = mkCursor (seg_id x) (HEADER_BYTES + Z.of_nat (List.length (frames (take n (payloads x))))) /\
    drop (S i) (ends_all segs) = ends (seg_id x) (offset c) (drop n (payloads x)) ++ ends_all suf.
Proof.
  induction segs as [|s segs IH]; intros i c p; cbn [ends_all]; [by destruct i|].
  intros H. destruct (decide (i < List.length (payloads s))%nat) as [Hi|Hi].
  - rewrite nth_error_app1 in H by by rewrite ends_length. apply ends_nth in H as [-> _].
    exists [], s, segs, (S i). split; [done|]. split; [done|]. cbn [offset].
    rewrite skipn_app, ends_drop, ends_length.
    by replace (S i - List.length (payloads s))%nat with 0%nat by lia.
  - rewrite nth_error_app2, ends_length in H by (rewrite ends_length; lia).
    apply IH in H as (pre & x & suf & n & -> & -> & Hd).
    exists (s :: pre), x, suf, n. split; [done|]. split; [done|]. rewrite <- Hd.
    rewrite skipn_app, skipn_all2, ends_length by (rewrite ends_length; lia). simpl. f_equal. lia.
Qed.

(** Committing the cursor of the [i]-th record leaves the ones behind it. *)
Lemma commit_shows s l i c p : shows s l -> config_ok (config s) -> nth_error l i = Some (c, p) ->
  exists s', commit c s = (inr tt, s') /\ shows s' (drop (S i) l) /\ config s' = config s /\
    write_segment s' = write_segment s /\ cursor s' = c /\ dropped_full s' = dropped_full s.
Proof.
  intros (others & before & sg & done_ & todo & after & Hsh & ->) (_ & Hmt0 & Hmt) Hi.
  pose proof Hsh as [].
  assert (exists before' x suf d1 d2, before ++ mkSeg sg (done_ ++ todo) :: after = before' ++ mkSeg x (d1 ++ d2) :: suf /\
            c = mkCursor x (HEADER_BYTES + Z.of_nat (List.length (frames d1))) /\
            drop (S i) (ends sg (offset (cursor s)) todo ++ ends_all after) = ends x (offset c) d2 ++ ends_all suf)
    as (before' & x & suf & d1 & d2 & Hsegs & -> & Hdrop).
  { destruct (decide (i < List.length todo)%nat) as [Hlt|Hge].
    - rewrite nth_error_app1 in Hi by by rewrite ends_length.
      apply ends_nth in Hi as [-> _].
      exists before, sg, after, (done_ ++ take (S i) todo), (drop (S i) todo).
      rewrite <- app_assoc, take_drop. split; [done|]. split.
      + rewrite sh_cursor0. cbn [offset]. f_equal. rewrite spool_frames_app, length_app. lia.
      + rewrite skipn_app, ends_drop, ends_length. by replace (S i - List.length todo)%nat with 0%nat by lia.
    - rewrite nth_error_app2, ends_length in Hi by (rewrite ends_length; lia).
      apply ends_all_nth in Hi as (pre & x & suf & k & -> & -> & Hd).
      exists (before ++ mkSeg sg (done_ ++ todo) :: pre), (seg_id x), suf, (take k (payloads x)), (drop k (payloads x)).
      rewrite take_drop. split; [by destruct x; rewrite <- app_assoc|]. split; [done|].
      rewrite <- Hd, skipn_app, skipn_all2, ends_length by (rewrite ends_length; lia). simpl. f_equal. lia. }
  set (c := mkCursor x _) in *.
  assert (u64_range (segment c) /\ u64_range (offset c)) as [Hc1 Hc2].
  { rewrite Hsegs in sh_layout0, sh_sizes0. split.
    - pose proof (lay_ok _ _ _ sh_layout0) as Hok. apply Forall_app in Hok as [_ Hok].
      by inversion Hok as [|? ? [? _] _]; subst.
    - apply Forall_app in sh_sizes0 as [_ Hsz]. inversion Hsz as [|? ? Hx _]; subst.
      unfold file_bytes, seg_bytes in Hx. simpl payloads in Hx. rewrite spool_frames_app, !length_app in Hx.
      change (List.length MAGIC) with 8%nat in Hx. unfold c, u64_range, HEADER_BYTES. cbn [offset]. lia. }
  set (s1 := set_cursor c (set_dir (write_cursor (dir s) c) s)).
  destruct (layout_cursor (dir s) _ others (list_byte_of_string (cursor_text c)) sh_layout0) as (others' & Hl1 & Hcur1).
  fold (write_cursor (dir s) c) in Hl1, Hcur1.
  rewrite Hsegs in Hl1.
  destruct sh_write0 as (front & w & Hfw & Hws & Hwo).
  assert (exists front', mkSeg x (d1 ++ d2) :: suf = front' ++ [w]) as [front' Hfront].
  { rewrite Hsegs in Hfw. destruct (last_snoc_or_nil suf) as [->|(suf' & y & ->)].
    - apply app_inj_tail in Hfw as [_ ->]. by exists [].
    - rewrite app_comm_cons, app_assoc in Hfw. apply app_inj_tail in Hfw as [_ ->].
      by exists (mkSeg x (d1 ++ d2) :: suf'). }
  destruct (unlink_prefix c before' s1 others' (mkSeg x (d1 ++ d2)) suf Hl1 eq_refl) as (d' & Hrun & Hl2 & Hcur2).
  { by exists front', w. }
  exists (set_dir d' s1). split; [|split; [|done]].
  - unfold commit. rewrite (SE_bind_run _ _ s tt s1) by done. rewrite (SE_bind_run _ _ s1 s1 s1) by done.
    change (dir s1) with (write_cursor (dir s) c). rewrite (layout_list _ _ _ Hl1). exact Hrun.
  - exists others', [], x, d1, d2, suf. split; [|exact Hdrop]. constructor; simpl; try done.
    + by exists front', w.
    + right. rewrite Hcur2. exact Hcur1.
    + rewrite Hsegs in sh_sizes0. by apply Forall_app in sh_sizes0 as [_ ?].
    + rewrite Hsegs in sh_pos0. by apply Forall_app in sh_pos0 as [_ ?].
Qed.

Lemma represents_shows s q : represents s q <-> exists l, shows s l /\ q = List.map snd l.
Proof.
  assert (forall off sg todo after, List.map snd (ends sg off todo ++ ends_all after) = pending todo after) as Hp.
  { intros. by rewrite map_app, ends_snd, ends_all_snd. }
  split.
  - intros (others & before & sg & done_ & todo & after & Hsh & ->). eexists. split; [by exists others, before, sg, done_, todo, after|].
    by rewrite Hp.
  - intros (l & (others & before & sg & done_ & todo & after & Hsh & ->) & ->). exists others, before, sg, done_, todo, after. by rewrite Hp.
Qed.

Lemma peek_shows s l n : shows s l -> peek crc32 s n = take n l.
Proof. intros (others & before & sg & done_ & todo & after & Hsh & ->). by apply (peek_shape _ others before sg done_ todo after). Qed.

(** Committing the cursor of the [i]-th record peeked delivers the first
    [i + 1] records. *)
Lemma commit_represents s q n i c p : represents s q -> config_ok (config s) ->
  nth_error (peek crc32 s n) i = Some (c, p) ->
  exists s', commit c s = (inr tt, s') /\ represents s' (drop (S i) q) /\ config s' = config s /\
    write_segment s' = write_segment s /\ cursor s' = c /\ dropped_full s' = dropped_full s.
Proof.
  intros (l & Hl & ->)%represents_shows Hc Hn. rewrite (peek_shows _ _ n Hl), nth_error_lookup in Hn.
  apply lookup_take_Some in Hn as [Hn _]. rewrite <- nth_error_lookup in Hn.
  destruct (commit_shows s l i c p Hl Hc Hn) as (s' & H1 & H2 & H3). exists s'. split; [done|]. split; [|done].
  apply represents_shows. exists (drop (S i) l). split; [done|]. by rewrite skipn_map.
Qed.

(** ** Restarting *)

(** A restart (a clean one, or a crash that tore nothing) resumes where the
    last commit left off: nothing delivered reappears, nothing pending is
    lost. *)
Lemma reopen_represents s q : represents s q -> config_ok (config s) ->
  exists s', open (dir s) (config s) = inr s' /\ represents s' q /\ config s' = config s /\
    write_segment s' = write_segment s.
Proof.
  intros (others & before & sg & done_ & todo & after & Hsh & ->) (_ & Hmt0 & Hmt).
  pose proof Hsh as []. destruct sh_write0 as (front & w & Hfw & Hws & Hwo).
  unfold open. rewrite (layout_list _ _ _ sh_layout0).
  assert (last (List.map seg_id (before ++ mkSeg sg (done_ ++ todo) :: after)) = Some (seg_id w)) as ->.
  { rewrite Hfw, map_app. apply last_snoc. }
  change (default 1 (Some (seg_id w))) with (seg_id w). unfold open_segment_for_append.
  rewrite (layout_lookup _ _ _ w sh_layout0) by (rewrite Hfw; apply elem_of_app; right; left).
  unfold seg_bytes at 1. rewrite read_full_app by done. rewrite bool_decide_true by done. cbn [negb].
  assert ((if segment (read_cursor (dir s)) =? 0
           then mkCursor (default (seg_id w) (head (List.map seg_id (before ++ mkSeg sg (done_ ++ todo) :: after)))) HEADER_BYTES
           else read_cursor (dir s)) = cursor s) as Hcur.
  { unfold read_cursor. destruct sh_disk0 as [(-> & -> & ->)|Hd].
    - rewrite sh_cursor0. simpl. unfold frames. simpl. done.
    - rewrite Hd, string_of_list_byte_of_string.
      assert (u64_range (segment (cursor s)) /\ u64_range (offset (cursor s))) as [Hc1 Hc2].
      { rewrite sh_cursor0. split.
        - pose proof (lay_ok _ _ _ sh_layout0) as Hok. apply Forall_app in Hok as [_ Hok].
          by inversion Hok as [|? ? [? _] _]; subst.
        - apply Forall_app in sh_sizes0 as [_ Hsz]. inversion Hsz as [|? ? Hx _]; subst.
          unfold file_bytes, seg_bytes in Hx. simpl payloads in Hx. rewrite spool_frames_app, !length_app in Hx.
          change (List.length MAGIC) with 8%nat in Hx. unfold u64_range, HEADER_BYTES. cbn [offset]. lia. }
      rewrite parse_cursor_text by done. destruct (segment (cursor s) =? 0) eqn:E; zbool; [|done].
      exfalso. rewrite sh_cursor0 in E. cbn [segment] in E.
      apply Forall_app in sh_pos0 as [_ Hp]. inversion Hp; subst. simpl in *. lia. }
  rewrite Hcur. eexists. split; [reflexivity|]. split; [|done].
  exists others, before, sg, done_, todo, after. split; [|done]. constructor; simpl; try done.
  by exists front, w.
Qed.

(** ** Exactly-once, in order *)

Lemma open_fresh config : config_ok config ->
  exists s, open [] config = inr s /\ represents s [] /\ Spool.config s = config /\ write_segment s = 1.
Proof.
  intros (_ & Hmt0 & Hmt). eexists. split; [reflexivity|]. split; [|done].
  exists [], [], 1, [], [], []. split; [|done]. constructor; simpl; try done.
  - constructor; simpl; try done; repeat constructor; try done.
    apply not_elem_of_nil.
  - exists [], (mkSeg 1 []). done.
  - by left.
  - constructor; [|constructor]. unfold file_bytes. simpl. lia.
  - constructor; [simpl; lia|constructor].
Qed.

(** What a caller does with a spool: push a record, deliver the first [i + 1]
    of [n] records peeked and commit, or restart. *)
Inductive SpoolOp := Push (p : bytes) | Deliver (n i : nat) | Reopen.

(** The spool after one operation, the records accepted and the records
    delivered; [None] on an I/O error. *)
Definition exec (o : SpoolOp) (s : Spool) : option (Spool * list bytes * list bytes) :=
  match o with
  | Push p =>
      match push crc32 p s with
      | (inr true, s') => Some (s', [p], [])
      | (inr false, s') => Some (s', [], [])
      | (inl (TooLarge _ _), s') => Some (s', [], [])
      | (inl _, _) => None
      end
  | Deliver n i =>
      let batch := peek crc32 s n in
      match nth_error batch i with
      | None => Some (s, [], [])
      | Some (c, _) =>
          match commit c s with
          | (inr _, s') => Some (s', [], List.map snd (take (S i) batch))
          | (inl _, _) => None
          end
      end
  | Reopen =>
      match open (dir s) (config s) with
      | inr s' => Some (s', [], [])
      | inl _ => None
      end
  end.

Fixpoint run (ops : list SpoolOp) (s : Spool) : option (Spool * list bytes * list bytes) :=
  match ops with
  | [] => Some (s, [], [])
  | o :: ops' =>
      '(s1, acc1, del1) ← exec o s;
      '(s2, acc2, del2) ← run ops' s1;
      Some (s2, acc1 ++ acc2, del1 ++ del2)
  end.

(** One operation of the spool is one operation of the queue. *)
Lemma exec_represents o s q : represents s q -> config_ok (config s) -> write_segment s + 1 <= u64_max ->
  exists s' acc del q', exec o s = Some (s', acc, del) /\ represents s' q' /\ q ++ acc = del ++ q' /\
    config s' = config s /\ write_segment s' <= write_segment s + 1.
Proof.
  intros Hrep Hc Hroom. destruct o as [p|n i|]; simpl.
  - destruct (push_represents s q p Hrep Hc Hroom) as ([e|[]] & s' & -> & Hcfg & Hws & H).
    + destruct H as (_ & -> & ->). exists s, [], [], q. rewrite app_nil_r. done.
    + destruct H as (Hrep' & _). exists s', [p], [], (q ++ [p]). done.
    + destruct H as (-> & _). eexists _, [], [], q. split; [reflexivity|]. rewrite app_nil_r.
      split; [|done]. destruct Hrep as (others & before & sg & done_ & todo & after & [] & ->).
      exists others, before, sg, done_, todo, after. split; [|done]. by constructor.
  - destruct (nth_error (peek crc32 s n) i) as [[c p]|] eqn:E.
    + destruct (commit_represents s q n i c p Hrep Hc E) as (s' & -> & Hrep' & Hcfg & Hws & _).
      exists s', [], (List.map snd (take (S i) (peek crc32 s n))), (drop (S i) q).
      split; [done|]. split; [done|]. split; [|split; [done|lia]].
      rewrite app_nil_r. rewrite <- firstn_map, (peek_represents s q n Hrep).
      assert (S i <= n)%nat.
      { assert (i < List.length (peek crc32 s n))%nat as Hl by (apply nth_error_Some; congruence).
        rewrite <- (length_map snd), (peek_represents s q n Hrep), length_take in Hl. lia. }
      rewrite take_take, Nat.min_l by lia. by rewrite take_drop.
    + exists s, [], [], q. rewrite app_nil_r. split; [done|]. split; [done|]. split; [done|]. split; [done|lia].
  - destruct (reopen_represents s q Hrep Hc) as (s' & -> & Hrep' & Hcfg & Hws).
    exists s', [], [], q. rewrite app_nil_r. split; [done|]. split; [done|]. split; [done|]. split; [done|lia].
Qed.

Lemma run_represents ops : forall s q, represents s q -> config_ok (config s) ->
  write_segment s + Z.of_nat (List.length ops) <= u64_max ->
  exists s' acc del q', run ops s = Some (s', acc, del) /\ represents s' q' /\ q ++ acc = del ++ q'.
Proof.
  induction ops as [|o ops IH]; intros s q Hrep Hc Hroom.
  - exists s, [], [], q. rewrite app_nil_r. done.
  - simpl List.length in Hroom.
    destruct (exec_represents o s q Hrep Hc ltac:(lia)) as (s1 & a1 & d1 & q1 & He & Hrep1 & Hq1 & Hc1 & Hw1).
    destruct (IH s1 q1 Hrep1 ltac:(by rewrite Hc1) ltac:(lia)) as (s2 & a2 & d2 & q2 & Hr & Hrep2 & Hq2).
    cbn [run]. rewrite He, bind_some. rewrite Hr, bind_some.
    exists s2, (a1 ++ a2), (d1 ++ d2), q2. split; [done|]. split; [done|].
    by rewrite app_assoc, Hq1, <- app_assoc, Hq2, app_assoc.
Qed.

(** C6: The spool refines a first-in first-out queue.  From an empty directory,
    whatever is pushed, delivered and committed, and however often the process
    restarts, no operation fails for want of a file, the records delivered are
    a prefix of the records accepted, in order and each once, and [peek] shows
    exactly the rest. *)
Theorem spool_refines_queue c ops : config_ok c -> Z.of_nat (List.length ops) < u64_max ->
  exists s0 s accepted delivered, open [] c = inr s0 /\ run ops s0 = Some (s, accepted, delivered) /\
    exists left_, accepted = delivered ++ left_ /\ forall n, List.map snd (peek crc32 s n) = take n left_.
Proof.
  intros Hc Hroom. destruct (open_fresh c Hc) as (s0 & Ho & Hrep & Hcfg & Hws).
  destruct (run_represents ops s0 [] Hrep ltac:(by rewrite Hcfg) ltac:(lia)) as (s & acc & del & q & Hr & Hrep' & Hq).
  exists s0, s, acc, del. split; [done|]. split; [done|]. exists q. split; [done|].
  intros n. by apply peek_represents.
Qed.

(** A push on every branch: accepted within the size limit, dropped by the
    policy and counted, or refused with nothing written. *)
Theorem push_bounded s q p : represents s q -> config_ok (config s) -> write_segment s + 1 <= u64_max ->
  match push crc32 p s with
  | (inl e, s') => s' = s /\ max_record_bytes (config s) < Z.of_nat (List.length p)
  | (inr false, s') => dir s' = dir s /\ dropped_full s' = dropped_full s + 1 /\
      max_total_bytes (config s) < total_bytes s + Z.of_nat (List.length p)
  | (inr true, s') => represents s' (q ++ [p]) /\
      total_bytes s + Z.of_nat (List.length p) <= max_total_bytes (config s)
  end.
Proof.
  intros Hrep Hc Hroom.
  destruct (push_represents s q p Hrep Hc Hroom) as ([e|[]] & s' & -> & _ & _ & H).
  - destruct H as (H1 & -> & _). done.
  - destruct H as (H1 & H2 & _). done.
  - destruct H as (-> & H). done.
Qed.

(** ** A torn tail *)

(** A crash in the middle of writing the frame of [lost] leaves the file of
    segment [id] with the first [k] bytes of it. *)
Definition torn_dir (id : Z) (ps : list bytes) (lost : bytes) (k : nat) : Dir :=
  [(segment_path id, MAGIC ++ frames ps ++ take k (frame lost))].

Lemma spool_read_frame_torn lost k t : small lost -> (8 <= k)%nat ->
  (k + List.length t < List.length (frame lost))%nat ->
  read_frame (take k (frame lost) ++ t) = None.
Proof.
  intros Hs Hk Ht. unfold Spool.read_frame.
  set (hd := le_bytes 4 (Z.of_nat (List.length lost)) ++ le_bytes 4 (crc32 lost)).
  assert (List.length hd = 8%nat) as Hhd by (unfold hd; by rewrite length_app, !length_le_bytes).
  assert (frame lost = hd ++ lost) as Hf by (unfold hd, Spool.frame; by rewrite <- app_assoc).
  rewrite Hf in *. rewrite take_app, (take_ge hd) by lia. rewrite <- app_assoc, read_full_app by (rewrite Hhd; done).
  rewrite bind_some. cbv beta iota.
  assert (le_val (take 4 hd) = Z.of_nat (List.length lost)) as ->.
  { unfold hd. rewrite take_app_length' by by rewrite length_le_bytes.
    apply le4_small. unfold small in Hs. unfold u32_range. lia. }
  rewrite read_full_short; [done|]. rewrite length_app in Ht. rewrite length_app, length_take. lia.
Qed.

(** After a crash that tears the last frame of a segment past its header,
    a record pushed into that segment is accepted and never delivered: the
    reader still stops at the torn frame. *)
Theorem torn_tail_swallows_pushes id ps lost k p c s0 s1 n :
  1 <= id <= u64_max -> Forall small ps -> small lost -> (8 <= k)%nat ->
  (k + (8 + List.length p) < List.length (frame lost))%nat ->
  open (torn_dir id ps lost k) c = inr s0 ->
  write_offset s0 + FRAME_OVERHEAD + Z.of_nat (List.length p) <= segment_bytes c ->
  push crc32 p s0 = (inr true, s1) ->
  List.map snd (peek crc32 s1 n) = take n ps /\ peek crc32 s1 n = peek crc32 s0 n.
Proof.
  intros Hid Hs Hl Hk Hlen Ho Hseg Hp.
  assert (u64_range id) as Hidr by (unfold u64_range; lia).
  assert (forall t, list_segments [(segment_path id, t)] = [id]) as Hlist.
  { intros t. unfold list_segments. cbn [List.map fst]. change (omap segment_id [segment_path id]) with
      (match segment_id (segment_path id) with Some y => [y] | None => [] end).
    by rewrite segment_id_path. }
  assert (forall t, lookup_file (segment_path id) [(segment_path id, t)] = Some t) as Hlook.
  { intros t. unfold lookup_file. simpl. by rewrite String.eqb_refl. }
  assert (forall s t, dir s = [(segment_path id, MAGIC ++ frames ps ++ t)] ->
    cursor s = mkCursor id HEADER_BYTES -> read_frame t = None -> peek crc32 s n = ends id HEADER_BYTES (take n ps)) as Hpeek.
  { intros s t Hd Hcur Ht. unfold peek. rewrite Hd, Hlist, Hcur. cbn [segment offset List.filter].
    rewrite Z.leb_refl. cbn [peek_loop]. rewrite Z.ltb_irrefl, Hlook.
    change (Z.to_nat HEADER_BYTES) with (List.length MAGIC). rewrite drop_app_length.
    rewrite read_segment_frames by done. destruct (_ <=? _)%nat; [done|]. by rewrite app_nil_r. }
  assert (s0 = mkSpool (torn_dir id ps lost k) c id (Z.of_nat (List.length (MAGIC ++ frames ps ++ take k (frame lost))))
                 (mkCursor id HEADER_BYTES) 0) as ->.
  { revert Ho. unfold open, torn_dir. rewrite Hlist.
    change (default 1 (last [id])) with id. change (default id (head [id])) with id.
    unfold open_segment_for_append. rewrite Hlook, read_full_app by done.
    rewrite bool_decide_true by done. cbn [negb]. unfold read_cursor.
    rewrite lookup_file_none by (intros [H|[]]; by apply cursor_not_segment in H).
    change (segment cursor_default =? 0) with true. cbv iota. by intros [= <-]. }
  unfold push, when, mbind, SE_bind, gets, modify, fail, mret, SE_ret in Hp. cbv zeta in Hp.
  cbn [config] in Hp.
  destruct (max_record_bytes c <? _) eqn:E1 in Hp; [done|].
  destruct (max_total_bytes c <? _) eqn:E2 in Hp; [done|].
  cbn [config write_offset] in Hp, Hseg.
  replace (segment_bytes c <? _) with false in Hp by (symmetry; apply Z.ltb_ge; lia).
  cbn [andb] in Hp. injection Hp as <-.
  rewrite (Hpeek (mkSpool (torn_dir id ps lost k) _ _ _ _ _) (take k (frame lost))); [|done|done|].
  2:{ rewrite <- (app_nil_r (take k _)). apply spool_read_frame_torn; [done|done|cbn [List.length]; lia]. }
  erewrite (Hpeek _ (take k (frame lost) ++ frame p)); [|cbn [dir set_dir set_write_offset]|done|].
  - split; [apply ends_snd|done].
  - cbn [write_segment]. unfold torn_dir, write_file. cbn [List.map fst snd]. rewrite String.eqb_refl.
    by rewrite <- !app_assoc.
  - apply spool_read_frame_torn; [done|done|]. pose proof (spool_frame_length p). unfold FRAME_OVERHEAD in *. lia.
Qed.
End Queue.

(** ** Witnesses *)

Definition len_crc (p : bytes) : Z := Z.of_nat (List.length p) mod 251.

Lemma len_crc_range p : u32_range (len_crc p).
Proof.
  unfold len_crc, u32_range, u32_max. pose proof (Z.mod_pos_bound (Z.of_nat (List.length p)) 251). lia.
Qed.

Definition small_config : SpoolConfig := mkSpoolConfig 64 200 100.

Lemma small_config_ok : config_ok small_config.
Proof. unfold config_ok, u32_max, u64_max. simpl. lia. Qed.

Definition rec_of (n : nat) : bytes := replicate n Byte.x2a.

Lemma spool_refines_queue_witness :
  exists s0 s accepted delivered, open [] small_config = inr s0 /\
    run len_crc [Push (rec_of 40); Push (rec_of 30); Deliver 5 0; Reopen; Push (rec_of 3); Deliver 9 1] s0
      = Some (s, accepted, delivered) /\
    exists left_, accepted = delivered ++ left_ /\ forall n, List.map snd (peek len_crc s n) = take n left_.
Proof.
  apply (spool_refines_queue len_crc len_crc_range small_config); [apply small_config_ok|].
  unfold u64_max. simpl. lia.
Defined.

Definition fresh_spool : Spool :=
  match open [] small_config with inr s => s | inl _ => mkSpool [] small_config 0 0 cursor_default 0 end.

Lemma fresh_represents : represents len_crc fresh_spool [].
Proof.
  destruct (open_fresh len_crc small_config small_config_ok) as (s & Ho & Hrep & _).
  unfold fresh_spool. by rewrite Ho.
Qed.

Lemma push_bounded_witness :
  match push len_crc (rec_of 20) fresh_spool with
  | (inl e, s') => s' = fresh_spool /\ 100 < 20
  | (inr false, s') => dir s' = dir fresh_spool /\ dropped_full s' = 0 + 1 /\ 200 < total_bytes fresh_spool + 20
  | (inr true, s') => represents len_crc s' ([] ++ [rec_of 20]) /\ total_bytes fresh_spool + 20 <= 200
  end.
Proof.
  exact (push_bounded len_crc fresh_spool [] (rec_of 20) fresh_represents small_config_ok
    ltac:(vm_compute; discriminate)).
Defined.

(** One record, then a torn frame of 60 bytes of which 12 were written, then a
    push of 5 bytes after the restart. *)
Definition torn_spool : Spool :=
  match open (torn_dir len_crc 1 [rec_of 4] (rec_of 60) 12) spool_config_default with
  | inr s => s | inl _ => fresh_spool end.

Lemma torn_tail_swallows_pushes_witness :
  exists s1, push len_crc (rec_of 5) torn_spool = (inr true, s1) /\
    List.map snd (peek len_crc s1 10) = take 10 [rec_of 4] /\ peek len_crc s1 10 = peek len_crc torn_spool 10.
Proof.
  eexists. split; [vm_compute; reflexivity|].
  refine (torn_tail_swallows_pushes len_crc len_crc_range 1 [rec_of 4] (rec_of 60) 12 (rec_of 5)
    spool_config_default torn_spool _ 10 _ _ _ _ _ _ _ _).
  - unfold u64_max. lia.
  - repeat constructor. unfold small, u32_max. simpl. lia.
  - unfold small, u32_max. simpl. lia.
  - lia.
  - vm_compute. lia.
  - vm_compute. reflexivity.
  - vm_compute. discriminate.
  - vm_compute. reflexivity.
Defined.
