(* ===== verification/HecAck.v ===== *)
(** HEC indexer acknowledgement ([crates/logless-core/src/hec/ack.rs]): an
    ack id answers [true] exactly when the batch it stands for is on disk. *)

From S2P Require Import Prelude Text Lists.
Open Scope Z_scope.

Definition MAX_OUTSTANDING_PER_CHANNEL : Z := 8192.

Record Channel := mkChannel {
  next_id : Z;
  durable_floor : Z;
  pending : gmap Z Z
}.
Definition channel0 : Channel := mkChannel 0 0 ∅.

(** [Inner], with the two cells beside the mutex. *)
Record AckTable := mkTable {
  channels : gmap string Channel;
  watermarks : gmap Z Z;
  next_batch : Z;
  synced_records : Z
}.

Definition new_table : AckTable := mkTable ∅ ∅ 1 0.

(** The watermark of [seq] is known and reached. *)
Definition reached (wm : gmap Z Z) (synced seq : Z) : bool :=
  match wm !! seq with Some w => w <=? synced | None => false end.

(** The [while] loop: at most [next_id - durable_floor] turns. *)
Fixpoint retire_loop (turns : nat) (synced : Z) (c : Channel) (wm : gmap Z Z) : Channel * gmap Z Z :=
  match turns with
  | O => (c, wm)
  | S turns' =>
      if durable_floor c <? next_id c then
        match pending c !! durable_floor c with
        | Some seq =>
            if reached wm synced seq then
              retire_loop turns' synced
                (mkChannel (next_id c) (durable_floor c + 1) (delete (durable_floor c) (pending c)))
                (delete seq wm)
            else (c, wm)
        | None => retire_loop turns' synced (mkChannel (next_id c) (durable_floor c + 1) (pending c)) wm
        end
      else (c, wm)
  end.

Definition retire_durable_prefix (c : Channel) (wm : gmap Z Z) (synced : Z) : Channel * gmap Z Z :=
  retire_loop (Z.to_nat (next_id c - durable_floor c)) synced c wm.

Definition next_batch_seq (t : AckTable) : Z * AckTable :=
  (next_batch t, mkTable (channels t) (watermarks t) (wadd64 (next_batch t) 1) (synced_records t)).

Definition issue (channel : string) (batch_seq : Z) (t : AckTable) : Z * AckTable :=
  let synced := synced_records t in
  let entry := default channel0 (channels t !! channel) in
  let id := next_id entry in
  let entry := mkChannel (id + 1) (durable_floor entry) (<[id := batch_seq]> (pending entry)) in
  let '(entry, wm) := retire_durable_prefix entry (watermarks t) synced in
  (id, mkTable (<[channel := entry]> (channels t)) wm (next_batch t) synced).

Definition has_capacity (channel : string) (t : AckTable) : bool :=
  match channels t !! channel with
  | None => true
  | Some c => Z.of_nat (size (pending c)) <? MAX_OUTSTANDING_PER_CHANNEL
  end.

Definition bind (batch_seq total : Z) (t : AckTable) : AckTable :=
  mkTable (channels t) (<[batch_seq := total]> (watermarks t)) (next_batch t) (synced_records t).

(** The WAL writer publishes its synced record count. *)
Definition publish (n : Z) (t : AckTable) : AckTable :=
  mkTable (channels t) (watermarks t) (next_batch t) n.

Definition query_one (entry : Channel) (t : AckTable) (id : Z) : bool :=
  if id <? durable_floor entry then true
  else match pending entry !! id with
       | Some seq => reached (watermarks t) (synced_records t) seq
       | None => false
       end.

Definition query (channel : string) (ids : list Z) (t : AckTable) : list (Z * bool) :=
  match channels t !! channel with
  | None => List.map (fun id => (id, false)) ids
  | Some entry => List.map (fun id => (id, query_one entry t id)) ids
  end.

Definition outstanding (t : AckTable) : Z := map_sumZ (fun c => Z.of_nat (size (pending c))) (channels t).

(** ** What really happened

    Which batch each ack id stands for, and the record count each batch is
    durable at: never forgotten, unlike the table. *)

Record History := mkHistory { issued : gmap (string * Z) Z; bound : gmap Z Z }.

(** The batch behind an ack id is on disk. *)
Definition durable (h : History) (synced : Z) (channel : string) (id : Z) : bool :=
  match issued h !! (channel, id) with
  | Some seq => reached (bound h) synced seq
  | None => false
  end.

(** Any interleaving of the receivers, the record path and the WAL writer:
    every batch has its own sequence number, is bound once, and the synced
    count only grows. *)
Inductive reach : AckTable -> History -> Prop :=
| reach_new : reach new_table (mkHistory ∅ ∅)
| reach_seq t h : reach t h -> reach (snd (next_batch_seq t)) h
| reach_issue t h ch seq : reach t h -> (forall k s, issued h !! k = Some s -> s <> seq) ->
    reach (snd (issue ch seq t)) (mkHistory (<[(ch, fst (issue ch seq t)) := seq]> (issued h)) (bound h))
| reach_bind t h seq w : reach t h -> bound h !! seq = None ->
    reach (bind seq w t) (mkHistory (issued h) (<[seq := w]> (bound h)))
| reach_publish t h n : reach t h -> synced_records t <= n -> reach (publish n t) h.

(** ** The invariant *)

(** One channel, against the batches [iss] of its ids. *)
Record ChannelInv (iss : Z -> option Z) (bd : gmap Z Z) (synced : Z) (c : Channel) : Prop := {
  ci_floor : 0 <= durable_floor c <= next_id c;
  ci_issued : forall id, is_Some (iss id) <-> 0 <= id < next_id c;
  ci_pending : forall id, pending c !! id = if durable_floor c <=? id then iss id else None;
  ci_retired : forall id, 0 <= id < durable_floor c -> exists seq, iss id = Some seq /\ reached bd synced seq = true
}.

Lemma retire_inv iss bd synced turns : forall c wm c' wm',
  ChannelInv iss bd synced c ->
  (forall a b s, iss a = Some s -> iss b = Some s -> a = b) ->
  (forall id seq, pending c !! id = Some seq -> wm !! seq = bd !! seq) ->
  retire_loop turns synced c wm = (c', wm') ->
  ChannelInv iss bd synced c' /\ next_id c' = next_id c /\ durable_floor c <= durable_floor c' /\
  (forall seq, wm' !! seq = wm !! seq \/
     exists id, durable_floor c <= id < durable_floor c' /\ iss id = Some seq).
Proof.
  induction turns as [|turns IH]; intros c wm c' wm' Hc Hinj Hwm Hr; cbn [retire_loop] in Hr.
  { injection Hr as <- <-. split; [done|]. split; [done|]. split; [lia|]. by left. }
  destruct (_ <? _) eqn:E; zbool.
  2:{ injection Hr as <- <-. split; [done|]. split; [done|]. split; [lia|]. by left. }
  destruct (pending c !! durable_floor c) as [seq|] eqn:Ep.
  - destruct (reached wm synced seq) eqn:Er.
    2:{ injection Hr as <- <-. split; [done|]. split; [done|]. split; [lia|]. by left. }
    pose proof Ep as Ei. rewrite (ci_pending _ _ _ _ Hc), Z.leb_refl in Ei.
    apply IH in Hr as (H1 & H2 & H3 & H4); simpl in *.
    + split; [done|]. split; [done|]. split; [lia|].
      intros s. destruct (H4 s) as [Hs|(id & Hid & Hs)].
      * destruct (decide (s = seq)) as [->|Hne].
        -- right. exists (durable_floor c). split; [lia|done].
        -- left. by rewrite Hs, lookup_delete_ne.
      * right. exists id. split; [lia|done].
    + constructor; simpl.
      * pose proof (ci_floor _ _ _ _ Hc). lia.
      * apply Hc.
      * intros id. destruct (decide (id = durable_floor c)) as [->|Hne].
        -- rewrite lookup_delete_eq. by destruct (_ <=? _) eqn:E'; zbool; [lia|].
        -- rewrite lookup_delete_ne by done. rewrite (ci_pending _ _ _ _ Hc).
           destruct (durable_floor c <=? id) eqn:E1, (durable_floor c + 1 <=? id) eqn:E2; zbool; done || lia.
      * intros id Hid. destruct (decide (id = durable_floor c)) as [->|Hne].
        -- exists seq. split; [done|]. unfold reached in *. by rewrite <- (Hwm _ _ Ep).
        -- apply (ci_retired _ _ _ _ Hc). lia.
    + done.
    + intros id s Hs. apply lookup_delete_Some in Hs as [Hne Hs].
      rewrite lookup_delete_ne; [by eapply Hwm|]. intros ->.
      rewrite (ci_pending _ _ _ _ Hc) in Hs. destruct (_ <=? _); [|done].
      apply Hne. by eapply Hinj.
  - exfalso. rewrite (ci_pending _ _ _ _ Hc), Z.leb_refl in Ep.
    destruct (proj2 (ci_issued _ _ _ _ Hc (durable_floor c))) as [s Hs]; [|congruence].
    pose proof (ci_floor _ _ _ _ Hc). lia.
Qed.

(** The ids of one channel. *)
Definition ids_of (h : History) (ch : string) (id : Z) : option Z := issued h !! (ch, id).

Record Inv (t : AckTable) (h : History) : Prop := {
  inv_channel : forall ch c, channels t !! ch = Some c -> ChannelInv (ids_of h ch) (bound h) (synced_records t) c;
  inv_absent : forall ch id, channels t !! ch = None -> ids_of h ch id = None;
  inv_inj : forall k k' s, issued h !! k = Some s -> issued h !! k' = Some s -> k = k';
  inv_wm : forall ch c id seq, channels t !! ch = Some c -> pending c !! id = Some seq ->
    watermarks t !! seq = bound h !! seq;
  inv_unissued : forall seq, (forall k, issued h !! k <> Some seq) -> watermarks t !! seq = bound h !! seq
}.

Lemma reached_mono bd a b seq : a <= b -> reached bd a seq = true -> reached bd b seq = true.
Proof. unfold reached. intros. destruct (bd !! seq); [|done]. zbool. apply Z.leb_le. lia. Qed.

Lemma channel_mono iss bd bd' a b c : a <= b ->
  (forall seq w, bd !! seq = Some w -> bd' !! seq = Some w) ->
  ChannelInv iss bd a c -> ChannelInv iss bd' b c.
Proof.
  intros Hab Hbd []. constructor; try done. intros id Hid.
  destruct (ci_retired0 id Hid) as (seq & Hs & Hr). exists seq. split; [done|].
  apply (reached_mono _ a); [done|]. unfold reached in *.
  destruct (bd !! seq) as [w|] eqn:E; [|done]. by rewrite (Hbd _ _ E).
Qed.

Lemma channel_ext iss iss' bd synced c : (forall id, iss id = iss' id) ->
  ChannelInv iss bd synced c -> ChannelInv iss' bd synced c.
Proof.
  intros He []. constructor; [done| | |]; intros; rewrite <- He; auto.
Qed.

Lemma ids_insert_ne h ch ch' id seq i : ch <> ch' ->
  ids_of (mkHistory (<[(ch, id) := seq]> (issued h)) (bound h)) ch' i = ids_of h ch' i.
Proof. intros Hne. apply lookup_insert_ne. congruence. Qed.

Lemma issue_inv t h ch seq : Inv t h -> (forall k s, issued h !! k = Some s -> s <> seq) ->
  Inv (snd (issue ch seq t)) (mkHistory (<[(ch, fst (issue ch seq t)) := seq]> (issued h)) (bound h)).
Proof.
  intros Hinv Hfresh. pose proof Hinv as [].
  unfold issue. set (c0 := default channel0 (channels t !! ch)).
  set (c1 := mkChannel (next_id c0 + 1) (durable_floor c0) (<[next_id c0 := seq]> (pending c0))).
  destruct (retire_durable_prefix c1 (watermarks t) (synced_records t)) as [c2 wm2] eqn:Er. simpl.
  set (h' := mkHistory _ _).
  assert (ChannelInv (ids_of h ch) (bound h) (synced_records t) c0) as Hc0.
  { unfold c0. destruct (channels t !! ch) as [c|] eqn:E; [by apply inv_channel0|]. simpl.
    constructor; simpl; [lia| | |intros; lia].
    - intros id. rewrite inv_absent0 by done. split; [by intros []|lia].
    - intros id. rewrite inv_absent0, lookup_empty by done. by destruct (_ <=? _). }
  assert (ids_of h ch (next_id c0) = None) as Hnone.
  { destruct (ids_of h ch (next_id c0)) eqn:E; [|done].
    assert (0 <= next_id c0 < next_id c0); [|lia]. apply (ci_issued _ _ _ _ Hc0). by rewrite E. }
  assert (forall id, ids_of h' ch id = if decide (id = next_id c0) then Some seq else ids_of h ch id) as Hids.
  { intros id. unfold ids_of, h'. simpl. case_decide as E; [by rewrite E, lookup_insert_eq|].
    apply lookup_insert_ne. congruence. }
  assert (ChannelInv (ids_of h' ch) (bound h) (synced_records t) c1) as Hc1.
  { pose proof (ci_floor _ _ _ _ Hc0). constructor; simpl; [lia| | |].
    - intros id. rewrite Hids. case_decide as E; [split; [lia|done]|].
      rewrite (ci_issued _ _ _ _ Hc0). lia.
    - intros id. rewrite Hids. case_decide as E.
      + rewrite E, lookup_insert_eq. destruct (_ <=? _) eqn:E'; zbool; [done|lia].
      + rewrite lookup_insert_ne by done. apply (ci_pending _ _ _ _ Hc0).
    - intros id Hid. rewrite Hids. case_decide as E; [lia|]. by apply (ci_retired _ _ _ _ Hc0). }
  assert (forall k k' s, issued h' !! k = Some s -> issued h' !! k' = Some s -> k = k') as Hinj'.
  { intros k k' s Hk Hk'. unfold h' in *. simpl in *.
    apply lookup_insert_Some in Hk as [[<- <-]|[Hne Hk]], Hk' as [[<- Hs]|[Hne' Hk']]; try done.
    - by destruct (Hfresh _ _ Hk').
    - subst s. by destruct (Hfresh _ _ Hk).
    - by eapply inv_inj0. }
  assert (watermarks t !! seq = bound h !! seq) as Hwseq.
  { apply inv_unissued0. intros k Hk. by destruct (Hfresh _ _ Hk). }
  destruct (retire_inv (ids_of h' ch) (bound h) (synced_records t) (Z.to_nat (next_id c1 - durable_floor c1)) c1 (watermarks t) c2 wm2 Hc1) as (Hr1 & Hr2 & Hr3 & Hr4).
  { intros x y s Hx Hy. specialize (Hinj' _ _ _ Hx Hy). congruence. }
  { simpl. intros id s Hs. apply lookup_insert_Some in Hs as [[<- <-]|[Hne Hs]]; [done|].
    unfold c0 in Hs. destruct (channels t !! ch) as [c|] eqn:E; [by eapply inv_wm0|].
    simpl in Hs. by rewrite lookup_empty in Hs. }
  { exact Er. }
  constructor; simpl.
  - intros ch' c' Hc'. apply lookup_insert_Some in Hc' as [[<- <-]|[Hne Hc']]; [done|].
    eapply channel_ext; [|by apply inv_channel0]. intros id. symmetry. by apply ids_insert_ne.
  - intros ch' id Hc'. apply lookup_insert_None in Hc' as [Hc' Hne].
    unfold h'. rewrite ids_insert_ne by done. by apply inv_absent0.
  - exact Hinj'.
  - intros ch' c' id s Hc' Hp.
    assert (ids_of h' ch' id = Some s) as Hs'.
    { apply lookup_insert_Some in Hc' as [[<- <-]|[Hne Hc']].
      - rewrite (ci_pending _ _ _ _ Hr1) in Hp. by destruct (_ <=? _).
      - unfold h'. rewrite ids_insert_ne by done.
        rewrite (ci_pending _ _ _ _ (inv_channel0 _ _ Hc')) in Hp. by destruct (_ <=? _). }
    destruct (Hr4 s) as [Hs|(i & Hi & Hs)].
    + rewrite Hs. apply lookup_insert_Some in Hc' as [[<- <-]|[Hne Hc']]; [|by eapply inv_wm0].
      rewrite (ci_pending _ _ _ _ Hr1) in Hp. destruct (_ <=? _) eqn:Efl; [|done]. zbool.
      rewrite Hids in Hp. case_decide as E; [by injection Hp as <-|].
      simpl in Hr3. unfold c0 in *. destruct (channels t !! ch) as [c|] eqn:Ech.
      * apply (inv_wm0 ch c id s Ech). rewrite (ci_pending _ _ _ _ Hc0). simpl in *.
        by destruct (_ <=? _) eqn:?; zbool; [|lia].
      * by rewrite (inv_absent0 ch id Ech) in Hp.
    + exfalso. assert ((ch, i) = (ch', id)) as Heq by (by eapply Hinj').
      injection Heq as -> ->. rewrite lookup_insert_eq in Hc'. injection Hc' as <-.
      rewrite (ci_pending _ _ _ _ Hr1) in Hp. destruct (_ <=? _) eqn:E; zbool; [lia|done].
  - intros s Hs. destruct (Hr4 s) as [->|(i & _ & Hi)]; [|by destruct (Hs (ch, i))].
    apply inv_unissued0. intros k Hk. apply (Hs k). rewrite lookup_insert_ne; [done|].
    intros <-. unfold ids_of in Hnone. congruence.
Qed.

Lemma bind_inv_table t h seq w : Inv t h -> bound h !! seq = None ->
  Inv (bind seq w t) (mkHistory (issued h) (<[seq := w]> (bound h))).
Proof.
  intros [] Hn. constructor; simpl; try done.
  - intros ch c Hc. eapply channel_mono; [reflexivity| |by apply inv_channel0].
    intros s v Hs. rewrite lookup_insert_ne; [done|]. intros <-. congruence.
  - intros ch c id s Hc Hp. destruct (decide (s = seq)) as [->|Hne]; [by rewrite !lookup_insert_eq|].
    rewrite !lookup_insert_ne by done. by eapply inv_wm0.
  - intros s Hs. destruct (decide (s = seq)) as [->|Hne]; [by rewrite !lookup_insert_eq|].
    rewrite !lookup_insert_ne by done. by apply inv_unissued0.
Qed.

Lemma reach_inv t h : reach t h -> Inv t h.
Proof.
  induction 1 as [|t h _ IH|t h ch seq _ IH Hf|t h seq w _ IH Hn|t h n _ IH Hn].
  - constructor; simpl; try done.
  - destruct IH. by constructor.
  - by apply issue_inv.
  - by apply bind_inv_table.
  - destruct IH. constructor; simpl; try done.
    intros ch c Hc. eapply channel_mono; [exact Hn|done|by apply inv_channel0].
Qed.

(** What a poll reads, against what really happened. *)
Lemma query_exact t h ch ids : reach t h -> Forall (fun id => 0 <= id) ids ->
  query ch ids t = List.map (fun id => (id, durable h (synced_records t) ch id)) ids.
Proof.
  intros Hr Hids. apply reach_inv in Hr as []. unfold query.
  destruct (channels t !! ch) as [c|] eqn:E; apply map_ext_in; intros id Hin; f_equal;
    (apply list_elem_of_In in Hin; rewrite Forall_forall in Hids; specialize (Hids _ Hin)); unfold durable;
    change (issued h !! (ch, id)) with (ids_of h ch id).
  - pose proof (inv_channel0 _ _ E) as []. unfold query_one.
    destruct (_ <? _) eqn:Ef; zbool.
    + destruct (ci_retired0 id ltac:(lia)) as (seq & -> & Hr). done.
    + destruct (pending c !! id) as [seq|] eqn:Ep.
      * pose proof Ep as Ei. rewrite ci_pending0 in Ei. destruct (_ <=? _); [|done]. rewrite Ei.
        unfold reached. by rewrite (inv_wm0 _ _ _ _ E Ep).
      * rewrite ci_pending0 in Ep. destruct (_ <=? _) eqn:?; zbool; [by rewrite Ep|lia].
  - by rewrite inv_absent0.
Qed.

(** The ack endpoint never lies, in either direction.  However receivers,
    record path and WAL writer interleave, a poll answers [true] for an id
    exactly when the batch it was issued for has been bound to a record count
    that is synced, whether or not its entry was retired since, and [false]
    for every id never issued on that channel. *)
Theorem query_is_durability t h ch ids : reach t h -> Forall (fun id => 0 <= id) ids ->
  query ch ids t = List.map (fun id => (id, durable h (synced_records t) ch id)) ids.
Proof. apply query_exact. Qed.

(** A [true] is never taken back: whatever happens next, an id that was
    answered [true] answers [true]. *)
Lemma durable_stays t h t' h' ch id : durable h (synced_records t) ch id = true ->
  synced_records t <= synced_records t' ->
  (forall k s, issued h !! k = Some s -> issued h' !! k = Some s) ->
  (forall s w, bound h !! s = Some w -> bound h' !! s = Some w) ->
  durable h' (synced_records t') ch id = true.
Proof.
  unfold durable. intros Hd Hs Hi Hb.
  destruct (issued h !! (ch, id)) as [seq|] eqn:E; [|done]. rewrite (Hi _ _ E).
  apply (reached_mono _ (synced_records t)); [done|]. unfold reached in *.
  destruct (bound h !! seq) as [w|] eqn:Ew; [|done]. by rewrite (Hb _ _ Ew).
Qed.

(** A run in which one batch is acked, bound, synced and retired by the next
    issue. *)
Definition table1 : AckTable := snd (issue "ch" 1 new_table).
Definition history1 : History := mkHistory (<[("ch", fst (issue "ch" 1 new_table)) := 1]> ∅) ∅.
Definition table2 : AckTable := publish 10 (bind 1 7 table1).
Definition history2 : History := mkHistory (issued history1) (<[1 := 7]> ∅).
Definition sample_table : AckTable := snd (issue "ch" 2 table2).
Definition sample_history : History :=
  mkHistory (<[("ch", fst (issue "ch" 2 table2)) := 2]> (issued history2)) (bound history2).

Lemma sample_reach : reach sample_table sample_history.
Proof.
  apply (reach_issue table2 history2 "ch" 2).
  - apply (reach_publish (bind 1 7 table1)); [|vm_compute; discriminate].
    apply (reach_bind table1 history1); [|done].
    apply (reach_issue new_table (mkHistory ∅ ∅) "ch" 1); [constructor|]. intros k s Hs. cbn [issued] in Hs. by rewrite lookup_empty in Hs.
  - intros k s Hs. unfold history2, history1 in Hs. cbn [issued] in Hs.
    apply lookup_insert_Some in Hs as [[_ <-]|[_ Hs]]; [done|]. by rewrite lookup_empty in Hs.
Qed.

Lemma query_is_durability_witness :
  query "ch" [0; 1; 5] sample_table = [(0, true); (1, false); (5, false)] /\
  query "ch" [0; 1; 5] sample_table =
    List.map (fun id => (id, durable sample_history (synced_records sample_table) "ch" id)) [0; 1; 5].
Proof.
  split; [vm_compute; reflexivity|].
  apply (query_is_durability sample_table sample_history "ch" [0; 1; 5] sample_reach).
  repeat constructor; lia.
Defined.
