(* ===== verification/Mask.v ===== *)
(** Masking, the step before template mining
    ([crates/logless-core/src/mask.rs]): whitespace-separated tokens are
    classified by hand-written character checks and the variable ones become
    typed placeholders; and the shapes those checks stand for. *)

From S2P Require Import Prelude Text Float Model Lists.
Open Scope Z_scope.
Open Scope list_scope.

Inductive Mask :=
| Static | Num | Uuid | Hex | Ip | Time | Path | Quoted | Var | Component | Paren.

#[export] Instance Mask_eq_dec : EqDecision Mask.
Proof. solve_decision. Defined.

Definition placeholder (m : Mask) : string :=
  match m with
  | Static => "" | Num => "<NUM>" | Uuid => "<UUID>" | Hex => "<HEX>" | Ip => "<IP>"
  | Time => "<TIME>" | Path => "<PATH>" | Quoted => "<STR>" | Var => "<VAR>"
  | Component => "<COMP>" | Paren => "<PAREN>"
  end.

Definition is_variable (m : Mask) : bool := negb (bool_decide (m = Static)).

(** ** Shapes *)

Definition dquote_char : ascii := ascii_of_N 34.
Definition dquote : string := String dquote_char EmptyString.

Definition is_quoted (t : string) : bool :=
  (2 <=? str_len t)
  && ((starts_with dquote t && ends_with dquote t) || (starts_with "'" t && ends_with "'" t)).

Fixpoint number_loop (seen_digit seen_dot : bool) (t : string) : bool :=
  match t with
  | "" => seen_digit
  | String c t' =>
      if is_digit c then number_loop true seen_dot t'
      else if Ascii.eqb c "." && negb seen_dot then number_loop seen_digit true t'
      else if one_of "mshdBKMG" c && seen_digit then number_loop seen_digit seen_dot t'
      else false
  end.

Definition is_number (t : string) : bool :=
  let t := match t with
           | String c t' => if one_of "-+" c then t' else t
           | "" => t
           end in
  if String.eqb t "" then false else number_loop false false t.

Definition is_hex (t : string) : bool :=
  let t := match strip_prefix "0x" t with
           | Some r => r
           | None => default t (strip_prefix "0X" t)
           end in
  (8 <=? str_len t) && str_all is_hexdigit t.

Definition uuid_part (p : string) (expected : Z) : bool := (str_len p =? expected) && str_all is_hexdigit p.

Definition is_uuid (t : string) : bool :=
  let t := trim_by (one_of "{}") t in
  if negb (str_len t =? 36) then false
  else match split_char "-" t with
       | [a; b; c; d; e] => uuid_part a 8 && uuid_part b 4 && uuid_part c 4 && uuid_part d 4 && uuid_part e 12
       | _ => false
       end.

Definition octet (part : string) : bool :=
  negb (String.eqb part "") && (str_len part <=? 3) && str_all is_digit part
  && (default 999 (parse_uint 65535 part) <=? 255).

Definition is_ip (t : string) : bool :=
  let host :=
    match split_once ":" t with
    | Some (h, p) => if str_all is_digit p && negb (String.eqb p "") then h else t
    | None => t
    end in
  let parts := split_char "." host in
  forallb octet parts && (Z.of_nat (List.length parts) =? 4).

(** Bytes [lo..hi] are all digits. *)
Definition digits_at (t : string) (lo len : nat) : bool := str_all is_digit (str_take len (str_drop lo t)).
Definition char_at (t : string) (i : nat) (c : ascii) : bool :=
  match str_drop i t with String a _ => Ascii.eqb a c | "" => false end.

Definition clock_part (p : string) : bool :=
  negb (String.eqb p "")
  && match split_char "." p with
     | q :: _ => (str_len q <=? 2) && negb (String.eqb q "") && str_all is_digit q
     | [] => false
     end.

Definition is_timestamp (t : string) : bool :=
  let iso_date :=
    (10 <=? str_len t) && digits_at t 0 4 && char_at t 4 "-" && digits_at t 5 2
    && char_at t 7 "-" && digits_at t 8 2 in
  if iso_date then true
  else match split_char ":" t with
       | [a; b; c] => clock_part a && clock_part b && clock_part c
       | _ => false
       end.

Definition is_path (t : string) : bool :=
  (starts_with "/" t || starts_with "./" t || starts_with "../" t) && (1 <? str_len t).

Definition is_placeholder (t : string) : bool := str_has "<" t && str_has ">" t.

Definition classify (token : string) : Mask :=
  if String.eqb token "" then Static
  else if is_quoted token then Quoted
  else if is_uuid token then Uuid
  else if is_timestamp token then Time
  else if is_ip token then Ip
  else if (16 <=? str_len token) && is_hex token then Hex
  else if is_number token then Num
  else if is_hex token then Hex
  else if is_path token then Path
  else if str_any is_digit token then Var
  else Static.

Definition split_kv (token : string) : option (string * string) :=
  '(key, value) ← split_once "=" token;
  if String.eqb key "" || String.eqb value "" then None
  else if str_any (fun c => is_digit c || Ascii.eqb c dquote_char) key then None
  else Some (key, value).

Definition is_component_prefix (token : string) (position : nat) : bool :=
  if (1 <? position)%nat then false
  else match strip_prefix "[" token ≫= strip_suffix "]" with
       | None => false
       | Some inner =>
           if String.eqb inner "" || match from_text inner with Some _ => true | None => false end then false
           else str_all (fun c => is_alnum c || one_of "._-:/" c) inner
       end.

Definition MAX_PAREN_TOKENS : nat := 4.

Definition is_optional_unit (token : string) : bool :=
  in_words (trim_end_by (fun c => negb (is_alnum c)) token)
    ["sec"; "secs"; "ms"; "msec"; "s"; "m"; "h"; "KB"; "MB"; "GB"; "TB"; "kb"; "mb"; "gb"; "bytes"].

Definition split_trailing_punctuation (token : string) : string * string :=
  let trimmed := trim_end_by (one_of ",;.)]}:") token in
  if String.eqb trimmed "" then (token, "")
  else (trimmed, str_drop (String.length trimmed) token).

(** The words of the parenthesised aside that [rest] starts with, if it is to
    be deleted: it closes within four words and carries a digit. *)
Definition paren_group (rest : list string) : option nat :=
  match rest with
  | w :: _ =>
      if starts_with "(" w && negb (starts_with "()" w) then
        match Lists.position (ends_with ")") (take MAX_PAREN_TOKENS rest) with
        | Some i =>
            let group := str_join " " (take (S i) rest) in
            if str_any is_digit group then Some (S i) else None
        | None => None
        end
      else None
  | [] => None
  end.

(** The masked token and the parameter candidate of one word. *)
Definition mask_word (raw_token : string) (position : nat) : string * string :=
  if is_component_prefix raw_token position then (placeholder Component, raw_token)
  else
    let '(core, trailing) := split_trailing_punctuation raw_token in
    match split_kv core with
    | Some (key, value) =>
        let mask := classify value in
        (if is_variable mask then String.append key (String.append "=" (String.append (placeholder mask) trailing))
         else String.append core trailing,
         value)
    | None =>
        let mask := classify core in
        (if is_variable mask then String.append (placeholder mask) trailing else raw_token, core)
    end.

(** The loop from word [position] on; [acc] is what has been pushed. *)
Fixpoint mask_loop (fuel position : nat) (rest : list string) (acc : list (string * string))
    : list (string * string) :=
  match fuel, rest with
  | S fuel', w :: rest' =>
      match paren_group rest with
      | Some n => mask_loop fuel' (position + n) (drop n rest) acc
      | None =>
          if is_optional_unit w
             && match last acc with Some (t, _) => is_placeholder t | None => false end
          then mask_loop fuel' (S position) rest' acc
          else mask_loop fuel' (S position) rest' (acc ++ [mask_word w position])
      end
  | _, _ => acc
  end.

Definition mask_line (line : string) : list string * list string :=
  let words := split_whitespace line in
  let out := mask_loop (List.length words) 0 words [] in
  (List.map fst out, List.map snd out).

Definition variable_params (tokens raw : list string) : list string :=
  List.map snd (List.filter (fun p => is_placeholder (fst p)) (List.combine tokens raw)).

Example mask_sample :
  mask_line "[api] GET /users/42 took 15ms (1.57 KB) user=u4567, id=0x1234abcd ok"
  = (["<COMP>"; "GET"; "<PATH>"; "took"; "<NUM>"; "user=<VAR>,"; "id=<HEX>"; "ok"],
     ["[api]"; "GET"; "/users/42"; "took"; "15ms"; "u4567"; "0x1234abcd"; "ok"]).
Proof. vm_compute. reflexivity. Qed.

(** ** No digit survives outside a placeholder *)

Lemma str_any_app p a b : str_any p (String.append a b) = str_any p a || str_any p b.
Proof. induction a as [|c a IH]; simpl; [done|]. by rewrite IH, orb_assoc. Qed.

Lemma str_any_rev_app p s : forall acc, str_any p (str_rev_app s acc) = str_any p s || str_any p acc.
Proof.
  induction s as [|c s IH]; intros acc; simpl; [done|]. rewrite IH. simpl.
  by destruct (p c), (str_any p s).
Qed.

Lemma str_any_rev p s : str_any p (str_rev s) = str_any p s.
Proof. unfold str_rev. rewrite str_any_rev_app. apply orb_false_r. Qed.






Lemma placeholder_angles m : m <> Static -> is_placeholder (placeholder m) = true.
Proof. by destruct m. Qed.

Lemma is_placeholder_r a b : is_placeholder b = true -> is_placeholder (String.append a b) = true.
Proof.
  unfold is_placeholder, str_has. rewrite !str_any_app. intros [-> ->]%andb_prop. by rewrite !orb_true_r.
Qed.

Lemma is_placeholder_l a b : is_placeholder a = true -> is_placeholder (String.append a b) = true.
Proof. unfold is_placeholder, str_has. rewrite !str_any_app. by intros [-> ->]%andb_prop. Qed.


(** ** What the rules mean

    The shapes of a token, by what it is made of. *)

Definition every (p : ascii -> bool) (s : string) : Prop := str_all p s = true.



Definition some_digits (lo hi : nat) (s : string) : Prop := (lo <= String.length s <= hi)%nat /\ every is_digit s.








(** *** The tests decide the shapes *)
















Lemma some_digits_iff lo hi s : some_digits lo hi s <->
  (Z.of_nat lo <=? str_len s) && (str_len s <=? Z.of_nat hi) && str_all is_digit s = true.
Proof. unfold some_digits, every, str_len. rewrite !andb_true_iff, !Z.leb_le. intuition lia. Qed.



























(** *** A word, and a line *)





















Lemma paren_group_pos rest n : paren_group rest = Some n -> (1 <= n)%nat.
Proof.
  unfold paren_group. destruct rest as [|w rest]; [done|].
  repeat (case_match; try done). intros [= <-]. lia.
Qed.

(** The loop reaches the end of the line within one turn per word. *)
Lemma mask_loop_fuel fuel : forall more pos rest acc, (List.length rest <= fuel)%nat ->
  mask_loop (fuel + more) pos rest acc = mask_loop fuel pos rest acc.
Proof.
  induction fuel as [|fuel IH]; intros more pos rest acc Hf.
  - destruct rest; [|simpl in Hf; lia]. by destruct more.
  - destruct rest as [|w rest]; [done|]. cbn [mask_loop Nat.add].
    destruct (paren_group _) as [n|] eqn:Eg.
    + apply IH. rewrite length_drop. assert (1 <= n)%nat; [by eapply paren_group_pos|]. simpl in *. lia.
    + simpl in Hf. destruct (_ && _); apply IH; lia.
Qed.

Lemma mask_loop_length fuel : forall pos rest acc,
  (List.length (mask_loop fuel pos rest acc) <= List.length acc + List.length rest)%nat.
Proof.
  induction fuel as [|fuel IH]; intros pos rest acc; [destruct rest; simpl; lia|].
  destruct rest as [|w rest]; [simpl; lia|]. cbn [mask_loop].
  destruct (paren_group _); [etrans; [apply IH|]; rewrite length_drop; simpl; lia|].
  destruct (_ && _); (etrans; [apply IH|]); rewrite ?length_app; simpl; lia.
Qed.

Lemma filter_combine_length (P : string -> bool) : forall (a b : list string), List.length a = List.length b ->
  List.length (List.filter (fun p => P (fst p)) (List.combine a b)) = List.length (List.filter P a).
Proof.
  induction a as [|x a IH]; intros [|y b] Hl; simpl in *; try done.
  destruct (P x); simpl; rewrite IH by lia; done.
Qed.

(** The side channel stays aligned: one parameter candidate per token, no
    more tokens than words, the loop never stops early, and [variable_params]
    has one parameter per placeholder. *)
Theorem mask_line_aligned line :
  let '(tokens, raw) := mask_line line in
  List.length tokens = List.length raw /\
  (List.length tokens <= List.length (split_whitespace line))%nat /\
  (forall more, mask_loop (List.length (split_whitespace line) + more) 0 (split_whitespace line) [] =
     List.combine tokens raw) /\
  List.length (variable_params tokens raw) = List.length (List.filter is_placeholder tokens).
Proof.
  unfold mask_line. cbv zeta. set (out := mask_loop _ _ _ _).
  split; [by rewrite !length_map|]. split; [|split].
  - rewrite length_map. apply mask_loop_length.
  - intros more. rewrite mask_loop_fuel by lia. fold out. clearbody out.
    induction out as [|[t r] out IH]; simpl; [done|]. by rewrite <- IH.
  - unfold variable_params. rewrite length_map. apply filter_combine_length. by rewrite !length_map.
Qed.
