(* ===== verification/Drain.v ===== *)
(** Online log template mining ([crates/logless-core/src/drain.rs]): the
    fixed-depth parse tree, similarity, widening, and the ids that leave the
    miner.  Its counters and ids, [u64] in the code and only ever added to, are plain
    integers. *)

From S2P Require Import Prelude Text Float Lists Mask.
Open Scope Z_scope.
Open Scope list_scope.

Definition WILDCARD : string := "<*>".

Record DrainConfig := mkDrainConfig {
  depth : Z; max_children : Z; similarity_threshold : f64; max_templates : Z
}.
Definition drain_config_default : DrainConfig := mkDrainConfig 4 100 (f64_dec 9 1) 10000.

Record Template := mkTemplate {
  t_id : Z; tokens : list string; count : Z;
  first_seen_unix_secs : Z; last_seen_unix_secs : Z; lineage_id : Z
}.

Definition text_of (tokens : list string) : string := str_join " " tokens.
Definition text (t : Template) : string := text_of (tokens t).

(** FNV-1a. *)
Fixpoint fnv (hash : Z) (s : string) : Z :=
  match s with
  | "" => hash
  | String c s' => fnv (wmul64 (Z.lxor hash (chr c)) 1099511628211) s'
  end.
Definition fingerprint_of (template_text : string) : Z := fnv 14695981039346656037 template_text.
Definition fingerprint (t : Template) : Z := fingerprint_of (text t).

Record Match := mkMatch { template_id : Z; shape_id : Z; params : list string; is_new : bool }.
Record Shape := mkShape { sh_lineage_id : Z; sh_text : string }.

(** A node of the parse tree; its [HashMap] of children as an association
    list. *)
Inductive Node := mkNode (children : list (string * Node)) (at_leaf : list Z).
Definition node0 : Node := mkNode [] [].

Fixpoint child (key : string) (cs : list (string * Node)) : option Node :=
  match cs with
  | [] => None
  | (k, n) :: cs' => if String.eqb k key then Some n else child key cs'
  end.
Fixpoint set_child (key : string) (n : Node) (cs : list (string * Node)) : list (string * Node) :=
  match cs with
  | [] => [(key, n)]
  | (k, m) :: cs' => if String.eqb k key then (k, n) :: cs' else (k, m) :: set_child key n cs'
  end.

Record Drain := mkDrain {
  config : DrainConfig;
  roots : gmap nat Node;
  templates : gmap Z Template;
  shape_ids : gmap Z Z;
  shapes : gmap Z Shape;
  lineages : gset Z;
  next_id : Z;
  untemplated : Z;
  lines_seen : Z
}.

Definition new (c : DrainConfig) : Drain := mkDrain c ∅ ∅ ∅ ∅ ∅ 1 0 0.

Definition token_levels (c : DrainConfig) : nat := Z.to_nat (Z.max (sat_sub (depth c) 2) 1).

Definition tree_key (token : string) : string := if is_placeholder token then WILDCARD else token.

(** ** The tree *)

Fixpoint leaf_node (keys : list string) (n : Node) : list Z :=
  let '(mkNode cs here) := n in
  match keys with
  | [] => here
  | k :: keys' =>
      match child k cs with
      | Some m => leaf_node keys' m
      | None => match child WILDCARD cs with
                | Some m => leaf_node keys' m
                | None => here
                end
      end
  end.

Definition leaf_templates (d : Drain) (toks : list string) : list Z :=
  match roots d !! List.length toks with
  | None => []
  | Some n => leaf_node (List.map tree_key (take (token_levels (config d)) toks)) n
  end.

Fixpoint insert_node (max : Z) (keys : list string) (id : Z) (n : Node) : Node :=
  let '(mkNode cs here) := n in
  match keys with
  | [] => mkNode cs (here ++ [id])
  | k :: keys' =>
      let key := match child k cs with
                 | None => if max <=? Z.of_nat (List.length cs) then WILDCARD else k
                 | Some _ => k
                 end in
      mkNode (set_child key (insert_node max keys' id (default node0 (child key cs))) cs) here
  end.

Definition insert_into_tree (toks : list string) (id : Z) (d : Drain) : Drain :=
  let n := default node0 (roots d !! List.length toks) in
  let keys := List.map tree_key (take (token_levels (config d)) toks) in
  mkDrain (config d) (<[List.length toks := insert_node (max_children (config d)) keys id n]> (roots d))
    (templates d) (shape_ids d) (shapes d) (lineages d) (next_id d) (untemplated d) (lines_seen d).

(** ** Scoring and widening *)

Definition comparable (t l : string) : bool :=
  negb (String.eqb t WILDCARD || is_placeholder t || is_placeholder l).

Fixpoint tally (template toks : list string) : Z * Z :=
  match template, toks with
  | t :: template', l :: toks' =>
      let '(c, m) := tally template' toks' in
      if comparable t l then (c + 1, if String.eqb t l then m + 1 else m) else (c, m)
  | _, _ => (0, 0)
  end.

Definition similarity (template toks : list string) : f64 :=
  if negb (Nat.eqb (List.length template) (List.length toks)) then f64_of_Z 0
  else if Nat.eqb (List.length template) 0 then f64_of_Z 1
  else let '(c, m) := tally template toks in
       if c =? 0 then f64_of_Z 1 else f64_div (f64_of_Z m) (f64_of_Z c).

Fixpoint merge_into (template toks : list string) : list string * bool :=
  match template, toks with
  | slot :: template', token :: toks' =>
      let '(rest, w) := merge_into template' toks' in
      if negb (String.eqb slot token) && negb (String.eqb slot WILDCARD) then (WILDCARD :: rest, true)
      else (slot :: rest, w)
  | _, _ => (template, false)
  end.

(** [enumerate], with [masked.get(i)] and [raw.get(i)]. *)
Fixpoint params_from (i : nat) (template masked raw : list string) : list string :=
  match template with
  | [] => []
  | t :: template' =>
      let rest := params_from (S i) template' masked raw in
      if String.eqb t WILDCARD || match nth_error masked i with Some m => is_placeholder m | None => false end
      then match nth_error raw i with Some r => r :: rest | None => rest end
      else rest
  end.
Definition params_for : list string -> list string -> list string -> list string := params_from 0.

(** [max_by] keeps the last of equal elements. *)
Fixpoint best_of (best : option (Z * f64)) (l : list (Z * f64)) : option (Z * f64) :=
  match l with
  | [] => best
  | x :: l' =>
      best_of (match best with
               | Some b => if f64_le (snd b) (snd x) then Some x else Some b
               | None => Some x
               end) l'
  end.

Definition best_match (d : Drain) (masked : list string) : option (Z * f64) :=
  best_of None
    (List.filter (fun p => f64_ge (snd p) (similarity_threshold (config d)))
       (omap (fun id => (fun t => (id, similarity (tokens t) masked)) <$> templates d !! id)
          (leaf_templates d masked))).

(** ** Adding a line *)

Definition note_shape (t : Template) (d : Drain) : Z * Drain :=
  let hash := fingerprint t in
  (hash, mkDrain (config d) (roots d) (templates d) (<[t_id t := hash]> (shape_ids d))
           (match shapes d !! hash with
            | Some _ => shapes d
            | None => <[hash := mkShape (lineage_id t) (text t)]> (shapes d)
            end)
           (lineages d) (next_id d) (untemplated d) (lines_seen d)).

Definition put_template (t : Template) (d : Drain) : Drain :=
  mkDrain (config d) (roots d) (<[t_id t := t]> (templates d)) (shape_ids d) (shapes d) (lineages d)
    (next_id d) (untemplated d) (lines_seen d).

Definition add_lineage (l : Z) (d : Drain) : Drain :=
  mkDrain (config d) (roots d) (templates d) (shape_ids d) (shapes d) ({[l]} ∪ lineages d)
    (next_id d) (untemplated d) (lines_seen d).

(** [Panicked] is the index [shape_ids[&id]] or the [expect] failing. *)
Inductive Added := Hit (m : Match) | Miss | Panicked.

Definition join_template (id : Z) (masked raw : list string) (now : Z) (d : Drain) : Added * Drain :=
  match templates d !! id with
  | None => (Panicked, d)
  | Some t =>
      let '(toks, widened) := merge_into (tokens t) masked in
      let t := mkTemplate (t_id t) toks (count t + 1) (first_seen_unix_secs t) now (lineage_id t) in
      let d := mkDrain (config d) (roots d) (<[id := t]> (templates d)) (shape_ids d) (shapes d)
                 (lineages d) (next_id d) (untemplated d) (lines_seen d) in
      let ps := params_for toks masked raw in
      if widened then
        let '(shape, d) := note_shape t d in (Hit (mkMatch id shape ps false), d)
      else
        match shape_ids d !! id with
        | Some shape => (Hit (mkMatch id shape ps false), d)
        | None => (Panicked, d)
        end
  end.

(** The text a re-minted shape's lineage is salted with. *)
Definition unit_separator : string := String (ascii_of_N 31) EmptyString.

Definition mint_template (masked raw : list string) (now : Z) (d : Drain) : Added * Drain :=
  let id := next_id d in
  let d := mkDrain (config d) (roots d) (templates d) (shape_ids d) (shapes d) (lineages d) (id + 1)
             (untemplated d) (lines_seen d) in
  let ps := params_for masked masked raw in
  let d := insert_into_tree masked id d in
  let txt := text_of masked in
  let hash := fingerprint_of txt in
  let lineage :=
    if decide (hash ∈ lineages d)
    then fingerprint_of (String.append txt (String.append unit_separator (show_Z id)))
    else hash in
  let d := add_lineage lineage d in
  let t := mkTemplate id masked 1 now now lineage in
  let '(shape, d) := note_shape t d in
  (Hit (mkMatch id shape ps true), put_template t d).

Definition match_masked (masked raw : list string) (now : Z) (d : Drain) : Added * Drain :=
  match masked with
  | [] => (Miss, d)
  | _ =>
      match best_match d masked with
      | Some (id, _) => join_template id masked raw now d
      | None =>
          if max_templates (config d) <=? Z.of_nat (size (templates d)) then
            (Miss, mkDrain (config d) (roots d) (templates d) (shape_ids d) (shapes d) (lineages d)
                     (next_id d) (untemplated d + 1) (lines_seen d))
          else mint_template masked raw now d
      end
  end.

Definition add_line (line : string) (now : Z) (d : Drain) : Added * Drain :=
  let d := mkDrain (config d) (roots d) (templates d) (shape_ids d) (shapes d) (lineages d) (next_id d)
             (untemplated d) (lines_seen d + 1) in
  let '(masked, raw) := mask_line line in
  match_masked masked raw now d.

Definition restore_one (d : Drain) (t : Template) : Drain :=
  let d := mkDrain (config d) (roots d) (templates d) (shape_ids d) (shapes d) (lineages d)
             (Z.max (next_id d) (t_id t + 1)) (untemplated d) (lines_seen d) in
  let d := insert_into_tree (tokens t) (t_id t) d in
  let d := add_lineage (lineage_id t) d in
  let '(_, d) := note_shape t d in
  put_template t d.

Definition restore (c : DrainConfig) (ts : list Template) : Drain := foldl restore_one (new c) ts.

(** ** What every line preserves *)

Definition widens (a b : list string) : Prop := Forall2 (fun x y => y = x \/ y = WILDCARD) a b.

(** The template's text matches the masked line at every position. *)
Definition covers (template masked : list string) : Prop :=
  forall i t l, template !! i = Some t -> masked !! i = Some l -> t = l \/ t = WILDCARD.

Lemma widens_refl a : widens a a.
Proof. induction a; constructor; [by left|done]. Qed.

Lemma widens_trans a b c : widens a b -> widens b c -> widens a c.
Proof.
  intros H. revert c. induction H as [|x y a b Hxy _ IH]; intros c Hbc; inversion Hbc; subst; constructor; [|by apply IH].
  destruct Hxy as [->| ->]; [done|]. by right; destruct H1.
Qed.

Lemma merge_into_spec a b toks w : merge_into a b = (toks, w) ->
  widens a toks /\ covers toks b /\ (w = false -> toks = a).
Proof.
  revert b toks w. induction a as [|x a IH]; intros [|y b] toks w; simpl.
  - intros [= <- <-]. split; [constructor|]. split; [intros [|i]; done|done].
  - intros [= <- <-]. split; [constructor|]. split; [intros [|i]; done|done].
  - intros [= <- <-]. split; [apply widens_refl|]. split; [intros [|i]; done|done].
  - destruct (merge_into a b) as [rest w'] eqn:E. destruct (IH _ _ _ E) as (H1 & H2 & H3).
    destruct (String.eqb_spec x y) as [e|Hne], (String.eqb_spec x WILDCARD) as [e'|Hne']; simpl;
      intros [= <- <-].
    all: split; [constructor; [auto|done]|]; split; [|intros H; try discriminate H; by rewrite H3].
    all: intros [|i] t l; simpl; [intros [= <-] [= <-]; auto|apply H2].
Qed.

Record Inv (d : Drain) : Prop := {
  inv_template : forall id t, templates d !! id = Some t ->
    t_id t = id /\ id < next_id d /\ shape_ids d !! id = Some (fingerprint t) /\
    is_Some (shapes d !! fingerprint t);
  inv_shape : forall h s, shapes d !! h = Some s -> fingerprint_of (sh_text s) = h
}.

Lemma new_inv c : Inv (new c).
Proof. constructor; simpl; intros ??; by rewrite lookup_empty. Qed.

(** What one line does to the catalogue. *)
Record Step (masked : list string) (d : Drain) (a : Added) (d' : Drain) : Prop := {
  st_config : config d' = config d;
  st_no_panic : a <> Panicked;
  st_kept : forall id t, templates d !! id = Some t -> exists t', templates d' !! id = Some t' /\
    widens (tokens t) (tokens t') /\ lineage_id t' = lineage_id t /\
    first_seen_unix_secs t' = first_seen_unix_secs t /\ count t <= count t';
  st_hit : forall m, a = Hit m -> exists t, templates d' !! template_id m = Some t /\
    shape_id m = fingerprint t /\ covers (tokens t) masked /\
    (is_new m = true <-> templates d !! template_id m = None);
  st_size : Z.of_nat (size (templates d')) <= Z.max (Z.of_nat (size (templates d))) (max_templates (config d))
}.

Lemma note_shape_inv t d h d' : note_shape t d = (h, d') ->
  (forall hh s, shapes d !! hh = Some s -> fingerprint_of (sh_text s) = hh) ->
  h = fingerprint t /\ config d' = config d /\ templates d' = templates d /\ next_id d' = next_id d /\
  shape_ids d' = <[t_id t := h]> (shape_ids d) /\ is_Some (shapes d' !! h) /\
  (forall hh s, shapes d !! hh = Some s -> shapes d' !! hh = Some s) /\
  (forall hh s, shapes d' !! hh = Some s -> fingerprint_of (sh_text s) = hh).
Proof.
  unfold note_shape. intros [= <- <-] Hs. simpl. do 5 (split; [done|]).
  destruct (shapes d !! fingerprint t) as [s|] eqn:E.
  - split; [by rewrite E|]. done.
  - split; [by rewrite lookup_insert_eq|]. split.
    + intros hh s Hh. rewrite lookup_insert_ne; [done|]. intros <-. congruence.
    + intros hh s Hh. apply lookup_insert_Some in Hh as [[<- <-]|[_ Hh]]; [done|by apply Hs].
Qed.

Lemma join_step id masked raw now d a d' : Inv d -> is_Some (templates d !! id) ->
  join_template id masked raw now d = (a, d') -> Step masked d a d' /\ Inv d'.
Proof.
  intros Hinv [t Ht] Hj. unfold join_template in Hj. rewrite Ht in Hj.
  destruct (inv_template _ Hinv id t Ht) as (Hid & Hlt & Hsh & Hss).
  destruct (merge_into (tokens t) masked) as [toks w] eqn:Em.
  apply merge_into_spec in Em as (Hw & Hcov & Hsame).
  set (t' := mkTemplate (t_id t) toks (count t + 1) (first_seen_unix_secs t) now (lineage_id t)) in *.
  set (d1 := mkDrain (config d) (roots d) (<[id := t']> (templates d)) (shape_ids d) (shapes d)
               (lineages d) (next_id d) (untemplated d) (lines_seen d)) in *.
  assert (exists h d2, (a, d2) = (Hit (mkMatch id h (params_for toks masked raw) false), d') /\
    h = fingerprint t' /\ config d2 = config d /\ templates d2 = <[id := t']> (templates d) /\ next_id d2 = next_id d /\
    shape_ids d2 !! id = Some h /\ (forall i, i <> id -> shape_ids d2 !! i = shape_ids d !! i) /\
    is_Some (shapes d2 !! h) /\ (forall hh s, shapes d !! hh = Some s -> shapes d2 !! hh = Some s) /\
    (forall hh s, shapes d2 !! hh = Some s -> fingerprint_of (sh_text s) = hh)) as
    (h & d2 & Heq & Hh & Hc & Hts & Hn & Hi & Hio & Hsm & Hmono & Hok).
  { destruct w.
    - destruct (note_shape t' d1) as [h d2] eqn:En.
      apply note_shape_inv in En as (-> & H1 & H2 & H3 & H4 & H5 & H6 & H7); [|apply Hinv].
      injection Hj as <- <-. exists (fingerprint t'), d2. rewrite H4. cbn [t_id t'].
      rewrite Hid. split; [done|]. do 4 (split; [done|]). split; [by rewrite lookup_insert_eq|].
      split; [intros i Hi; by rewrite lookup_insert_ne|]. done.
    - cbn [shape_ids d1] in Hj. rewrite Hsh in Hj. injection Hj as <- <-.
      assert (fingerprint t' = fingerprint t) as Hf by (unfold fingerprint, text; simpl; by rewrite Hsame).
      exists (fingerprint t), d1. rewrite Hf. do 5 (split; [done|]). split; [done|]. split; [done|].
      split; [done|]. split; [done|apply Hinv]. }
  injection Heq as -> <-. split.
  - constructor; [done|done| | |].
    + intros i u Hu. rewrite Hts. destruct (decide (i = id)) as [->|Hne].
      * rewrite lookup_insert_eq. exists t'. rewrite Ht in Hu. injection Hu as <-. simpl. split; [done|].
        split; [done|]. split; [done|]. split; [done|lia].
      * rewrite lookup_insert_ne by done. exists u. split; [done|]. split; [apply widens_refl|]. split; [done|].
        split; [done|lia].
    + intros m [= <-]. simpl. exists t'. rewrite Hts, lookup_insert_eq. split; [done|]. split; [done|].
      split; [done|]. by rewrite Ht.
    + rewrite Hts, map_size_insert_Some by by eexists. lia.
  - constructor; [|done]. intros i u. rewrite Hts, Hn. intros Hu.
    apply lookup_insert_Some in Hu as [[<- <-]|[Hne Hu]].
    + simpl. rewrite Hi, <- Hh. done.
    + destruct (inv_template _ Hinv i u Hu) as (H1 & H2 & H3 & H4).
      rewrite Hio by done. split; [done|]. split; [done|]. split; [done|].
      destruct H4 as [s Hs]. exists s. by apply Hmono.
Qed.

Lemma covers_refl masked : covers masked masked.
Proof. intros i t l H1 H2. left. congruence. Qed.

Lemma mint_step masked raw now d a d' : Inv d ->
  Z.of_nat (size (templates d)) < max_templates (config d) ->
  mint_template masked raw now d = (a, d') -> Step masked d a d' /\ Inv d'.
Proof.
  intros Hinv Hroom Hm. unfold mint_template in Hm.
  set (lin := if decide _ then _ else _) in Hm.
  set (t := mkTemplate (next_id d) masked 1 now now lin) in Hm.
  set (d1 := add_lineage lin _) in Hm.
  destruct (note_shape t d1) as [h d2] eqn:En. injection Hm as <- <-.
  apply note_shape_inv in En as (-> & H1 & H2 & H3 & H4 & H5 & H6 & H7); [|apply Hinv].
  assert (templates d !! next_id d = None) as Hfresh.
  { destruct (templates d !! next_id d) as [u|] eqn:E; [|done].
    destruct (inv_template _ Hinv _ _ E) as (_ & ? & _). lia. }
  change (templates d1) with (templates d) in H2. change (next_id d1) with (next_id d + 1) in H3.
  change (shape_ids d1) with (shape_ids d) in H4. change (t_id t) with (next_id d) in H4.
  split.
  - constructor; [done|done| | |]; cbn [put_template templates]; rewrite H2; change (t_id t) with (next_id d).
    + intros i u Hu. exists u. rewrite lookup_insert_ne by congruence.
      split; [done|]. split; [apply widens_refl|]. split; [done|]. split; [done|lia].
    + intros m [= <-]. simpl. exists t. rewrite lookup_insert_eq. split; [done|]. split; [done|].
      split; [apply covers_refl|done].
    + rewrite map_size_insert_None by done. lia.
  - constructor; cbn [put_template templates shape_ids shapes next_id]; [|exact H7].
    rewrite H2, H3, H4. change (t_id t) with (next_id d). intros i u Hu.
    apply lookup_insert_Some in Hu as [[<- <-]|[Hne Hu]].
    + rewrite lookup_insert_eq. split; [done|]. split; [lia|]. done.
    + destruct (inv_template _ Hinv i u Hu) as (Ha & Hb & Hc & [s Hs]).
      rewrite lookup_insert_ne by done. split; [done|]. split; [lia|]. split; [done|].
      exists s. by apply H6.
Qed.

Lemma best_of_in l : forall best r, best_of best l = Some r -> best = Some r \/ In r l.
Proof.
  induction l as [|x l IH]; intros best r; simpl; [by left|]. intros H.
  apply IH in H as [H|H]; [|by right; right]. destruct best as [b|].
  - destruct (f64_le _ _); injection H as <-; [by right; left|by left].
  - injection H as <-. by right; left.
Qed.

Lemma best_match_known d masked id s : best_match d masked = Some (id, s) ->
  is_Some (templates d !! id) /\ f64_ge s (similarity_threshold (config d)) = true.
Proof.
  unfold best_match. intros H. apply best_of_in in H as [H|H]; [done|].
  apply filter_In in H as [H Hs]. split; [|done].
  apply list_elem_of_In, list_elem_of_omap in H as (i & _ & Hi).
  destruct (templates d !! i) as [t|] eqn:E; [|done]. injection Hi as -> _. by exists t.
Qed.

Lemma add_line_step line now d a d' : Inv d -> add_line line now d = (a, d') ->
  Step (fst (mask_line line)) d a d' /\ Inv d'.
Proof.
  intros Hinv. unfold add_line. destruct (mask_line line) as [masked raw]. cbn [fst].
  set (d1 := mkDrain _ _ _ _ _ _ _ _ _).
  assert (Inv d1) as Hinv1 by (by destruct Hinv; constructor).
  assert (forall a d', Step masked d1 a d' -> Step masked d a d') as Hst by (by intros ?? []; constructor).
  assert (Step masked d1 Miss d1) as Hmiss.
  { constructor; [done|done| |done|lia]. intros i t Ht. exists t.
    split; [done|]. split; [apply widens_refl|]. split; [done|]. split; [done|lia]. }
  intros H. assert (Step masked d1 a d' /\ Inv d') as [? ?]; [|by auto].
  unfold match_masked in H. destruct masked as [|w masked]; [by injection H as <- <-|].
  destruct (best_match d1 (w :: masked)) as [[id s]|] eqn:Eb.
  - apply best_match_known in Eb as [Hk _]. by apply join_step in H.
  - destruct (_ <=? _) eqn:E; zbool.
    + injection H as <- <-. split; [|by destruct Hinv1; constructor]. by destruct Hmiss; constructor.
    + by apply mint_step in H.
Qed.

Fixpoint add_lines (lines : list (string * Z)) (d : Drain) : Drain :=
  match lines with
  | [] => d
  | (l, now) :: lines' => add_lines lines' (snd (add_line l now d))
  end.

Lemma add_lines_kept lines : forall d id t, Inv d -> templates d !! id = Some t ->
  Inv (add_lines lines d) /\
  exists t', templates (add_lines lines d) !! id = Some t' /\ widens (tokens t) (tokens t') /\
    lineage_id t' = lineage_id t /\ first_seen_unix_secs t' = first_seen_unix_secs t /\ count t <= count t'.
Proof.
  induction lines as [|[l now] lines IH]; intros d id t Hinv Ht.
  { split; [done|]. exists t. split; [done|]. split; [apply widens_refl|]. split; [done|]. split; [done|lia]. }
  simpl. destruct (add_line l now d) as [a d1] eqn:E. simpl.
  apply add_line_step in E as [[] Hinv1]; [|done].
  destruct (st_kept0 id t Ht) as (t1 & Ht1 & Hw & Hl & Hf & Hc).
  destruct (IH d1 id t1 Hinv1 Ht1) as (Hinv' & t' & Ht' & Hw' & Hl' & Hf' & Hc').
  split; [done|]. exists t'. split; [done|]. split; [by eapply widens_trans|].
  split; [by rewrite Hl'|]. split; [by rewrite Hf'|lia].
Qed.

Lemma add_lines_inv lines : forall d, Inv d -> Inv (add_lines lines d).
Proof.
  induction lines as [|[l now] lines IH]; intros d Hinv; [done|]. simpl. apply IH.
  destruct (add_line l now d) as [a d1] eqn:E. by apply add_line_step in E as [_ ?].
Qed.

(** Adding a line, after any lines before it, never panics; the id it
    returns names a template whose text covers the masked line, with that
    template's content hash; and the catalogue never outgrows its cap. *)
Theorem add_line_spec c lines line now :
  let d := add_lines lines (new c) in
  let '(a, d') := add_line line now d in
  a <> Panicked /\
  (forall m, a = Hit m -> exists t, templates d' !! template_id m = Some t /\
     shape_id m = fingerprint t /\ covers (tokens t) (fst (mask_line line)) /\
     (is_new m = true <-> templates d !! template_id m = None)) /\
  Z.of_nat (size (templates d')) <= Z.max (Z.of_nat (size (templates d))) (max_templates (config d)).
Proof.
  cbv zeta. destruct (add_line _ _ _) as [a d'] eqn:E.
  apply add_line_step in E as [[] _]; [done|]. apply add_lines_inv, new_inv.
Qed.

(** C37: A template id is permanent: whatever lines follow, the id still names
    a template of the same lineage whose tokens are the old ones, some of them
    widened to the wildcard, and whose count has not gone down. *)
Theorem template_ids_permanent c lines more id t :
  templates (add_lines lines (new c)) !! id = Some t ->
  exists t', templates (add_lines more (add_lines lines (new c))) !! id = Some t' /\
    widens (tokens t) (tokens t') /\ lineage_id t' = lineage_id t /\
    first_seen_unix_secs t' = first_seen_unix_secs t /\ count t <= count t'.
Proof. intros Ht. by apply add_lines_kept; [apply add_lines_inv, new_inv|]. Qed.

(** ** Restoring *)

Lemma restore_loop ts : forall d, Inv d -> NoDup (List.map t_id ts) ->
  (forall t, In t ts -> templates d !! t_id t = None) ->
  let d' := foldl restore_one d ts in
  Inv d' /\ config d' = config d /\ next_id d <= next_id d' /\
  (forall id, templates d' !! id = match List.find (fun t => t_id t =? id) ts with
                                    | Some t => Some t | None => templates d !! id end).
Proof.
  induction ts as [|t ts IH]; intros d Hinv Hnd Hfresh; simpl.
  { split; [done|]. split; [done|]. split; [lia|done]. }
  apply NoDup_cons in Hnd as [Hn Hnd].
  assert (Inv (restore_one d t) /\ config (restore_one d t) = config d /\ next_id d <= next_id (restore_one d t) /\
    templates (restore_one d t) = <[t_id t := t]> (templates d)) as (Hinv1 & Hc1 & Hn1 & Ht1).
  { unfold restore_one. set (d1 := add_lineage (lineage_id t) _).
    destruct (note_shape t d1) as [h d2] eqn:En.
    apply note_shape_inv in En as (-> & H1 & H2 & H3 & H4 & H5 & H6 & H7); [|apply Hinv].
    change (templates d1) with (templates d) in H2. change (shape_ids d1) with (shape_ids d) in H4.
    change (next_id d1) with (Z.max (next_id d) (t_id t + 1)) in H3.
    cbn [put_template templates config next_id]. rewrite H2, H3. split; [|split; [done|split; [lia|done]]].
    constructor; cbn [put_template templates shape_ids shapes next_id]; [|exact H7].
    rewrite H2, H3, H4. intros i u Hu. apply lookup_insert_Some in Hu as [[<- <-]|[Hne Hu]].
    - rewrite lookup_insert_eq. split; [done|]. split; [lia|]. done.
    - destruct (inv_template _ Hinv i u Hu) as (Ha & Hb & Hc & [s Hs]).
      rewrite lookup_insert_ne by done. split; [done|]. split; [lia|]. split; [done|]. exists s. by apply H6. }
  destruct (IH (restore_one d t) Hinv1 Hnd) as (Hi & Hc & Hnx & Hl).
  { intros u Hu. rewrite Ht1, lookup_insert_ne; [by apply Hfresh; right|].
    intros He. apply Hn. rewrite He. apply list_elem_of_In, in_map_iff. by exists u. }
  split; [done|]. split; [congruence|]. split; [lia|].
  intros id. rewrite Hl, Ht1. destruct (t_id t =? id) eqn:E; zbool.
  - destruct (List.find _ ts) as [u|] eqn:Ef.
    + apply find_some in Ef as [Hin Hu]. zbool. exfalso. apply Hn.
      rewrite E, <- Hu. apply list_elem_of_In, in_map_iff. by exists u.
    + by rewrite E, lookup_insert_eq.
  - by rewrite lookup_insert_ne.
Qed.

(** Restoring persisted templates preserves their ids, and lines added
    afterwards cannot disturb them: the id of every persisted template still
    names it, widened at most. *)
Theorem restore_preserves_ids c ts lines t :
  NoDup (List.map t_id ts) -> In t ts ->
  templates (restore c ts) !! t_id t = Some t /\
  exists t', templates (add_lines lines (restore c ts)) !! t_id t = Some t' /\
    widens (tokens t) (tokens t') /\ lineage_id t' = lineage_id t.
Proof.
  intros Hnd Hin. destruct (restore_loop ts (new c) (new_inv c) Hnd) as (Hinv & _ & _ & Hl).
  { intros u _. apply lookup_empty. }
  assert (templates (restore c ts) !! t_id t = Some t) as Ht.
  { unfold restore. rewrite Hl. clear -Hnd Hin. induction ts as [|u ts IH]; [done|]. simpl.
    apply NoDup_cons in Hnd as [Hn Hnd]. destruct Hin as [->|Hin]; [by rewrite Z.eqb_refl|].
    destruct (_ =? _) eqn:E; zbool; [|by apply IH]. exfalso. apply Hn. rewrite E.
    apply list_elem_of_In, in_map_iff. by exists t. }
  split; [done|]. destruct (add_lines_kept lines _ _ _ Hinv Ht) as (_ & t' & H1 & H2 & H3 & _).
  by exists t'.
Qed.

(** ** The same line, two ids *)

Definition line_a : string := "aa bb cc dd ee ff gg hh ii jj kk".
Definition line_b : string := "aa bb cc dd ee ff gg hh ii xx yy".
Definition line_b1 : string := "aa bb cc dd ee ff gg hh ii zz yy".
Definition line_b2 : string := "aa bb cc dd ee ff gg hh ii xx ww".

Definition hit_id (a : Added) : option Z := match a with Hit m => Some (template_id m) | _ => None end.

(** A line does not always land on the same id.  With the default
    configuration, a line that minted template 1 is labelled 2 once another
    template has been widened far enough to score as high: of equal scores the
    later template wins. *)
Theorem same_line_can_change_id :
  exists lines line now,
    hit_id (fst (add_line line now (add_lines lines (new drain_config_default)))) = Some 2 /\
    exists before after, lines = before ++ (line, now) :: after /\
      hit_id (fst (add_line line now (add_lines before (new drain_config_default)))) = Some 1.
Proof.
  exists [(line_a, 0); (line_b, 0); (line_b1, 0); (line_b2, 0)], line_a, 0.
  split; [vm_compute; reflexivity|].
  exists [], [(line_b, 0); (line_b1, 0); (line_b2, 0)].
  split; [reflexivity|vm_compute; reflexivity].
Qed.

Definition sample_lines : list (string * Z) := [(line_a, 1); (line_b, 2); (line_b1, 3)].
Definition sample_template : Template :=
  match templates (add_lines sample_lines (new drain_config_default)) !! 2 with
  | Some t => t | None => mkTemplate 0 [] 0 0 0 0 end.

Lemma template_ids_permanent_witness :
  exists t', templates (add_lines [(line_b2, 4)] (add_lines sample_lines (new drain_config_default))) !! 2 = Some t' /\
    widens (tokens sample_template) (tokens t') /\ lineage_id t' = lineage_id sample_template /\
    first_seen_unix_secs t' = first_seen_unix_secs sample_template /\ count sample_template <= count t'.
Proof.
  refine (template_ids_permanent drain_config_default sample_lines [(line_b2, 4)] 2 sample_template _).
  vm_compute. reflexivity.
Defined.

Lemma restore_preserves_ids_witness :
  templates (restore drain_config_default [sample_template]) !! t_id sample_template = Some sample_template /\
  exists t', templates (add_lines sample_lines (restore drain_config_default [sample_template])) !! t_id sample_template = Some t' /\
    widens (tokens sample_template) (tokens t') /\ lineage_id t' = lineage_id sample_template.
Proof.
  apply (restore_preserves_ids drain_config_default [sample_template] sample_lines sample_template).
  - repeat constructor. apply not_elem_of_nil.
  - by left.
Defined.
