(* ===== verification/Ring.v ===== *)
(** Smart pushdown ([crates/logless-core/src/ring.rs]): the in-memory ring of
    recent lines by correlation key, and the context window captured for an
    error, rate limited and deduplicated.

    [DefaultHasher] is a parameter: one function for correlation keys, one
    for template sequences. *)

From S2P Require Import Prelude Text Float Model Lists.
Open Scope Z_scope.
Open Scope list_scope.

Inductive KeyTier := Trace | Request | Thread | Service.

#[export] Instance KeyTier_eq_dec : EqDecision KeyTier.
Proof. solve_decision. Defined.
#[export] Instance KeyTier_countable : Countable KeyTier.
Proof.
  refine (inj_countable' (fun t => match t with Trace => 0%nat | Request => 1%nat | Thread => 2%nat | Service => 3%nat end)
    (fun n => match n with 0%nat => Trace | 1%nat => Request | 2%nat => Thread | _ => Service end) _).
  by intros [].
Defined.

Definition key_tier_str (t : KeyTier) : string :=
  match t with Trace => "trace" | Request => "request" | Thread => "thread" | Service => "service" end.

Record CorrelationKey := mkCorrelationKey { tier : KeyTier; value : string }.

#[export] Instance CorrelationKey_eq_dec : EqDecision CorrelationKey.
Proof. solve_decision. Defined.
#[export] Instance CorrelationKey_countable : Countable CorrelationKey.
Proof.
  refine (inj_countable' (fun k => (tier k, value k)) (fun p => mkCorrelationKey (fst p) (snd p)) _).
  by intros [].
Defined.

Definition hex_digit (n : Z) : string :=
  String (ascii_of_N (Z.to_N (if n <? 10 then 48 + n else 87 + n))) EmptyString.
Definition hex_byte (b : byte) : string :=
  String.append (hex_digit (byte_val b / 16)) (hex_digit (byte_val b mod 16)).
Definition hex16 (bs : bytes) : string := foldr (fun b s => String.append (hex_byte b) s) "" bs.

(** The closure [attr]: the first attribute of that name that is text or an
    integer. *)
Fixpoint find_attr (name : string) (attrs : list Attr) : option string :=
  match attrs with
  | [] => None
  | a :: attrs' =>
      if String.eqb (attr_key a) name then
        match attr_value a with
        | AStr s => Some s
        | AI64 i => Some (show_int i)
        | _ => find_attr name attrs'
        end
      else find_attr name attrs'
  end.

Fixpoint first_attr (names : list string) (attrs : list Attr) : option string :=
  match names with
  | [] => None
  | n :: names' => match find_attr n attrs with Some v => Some v | None => first_attr names' attrs end
  end.

Definition slash (a b : string) : string := String.append a (String.append "/" b).

Definition correlation_key (record : LogRecord) : CorrelationKey :=
  match trace_id record with
  | Some trace => mkCorrelationKey Trace (hex16 trace)
  | None =>
      let attr name := find_attr name (attributes record) in
      let svc := default "" (service record) in
      match first_attr ["request_id"; "req_id"; "session_id"; "correlation_id"] (attributes record) with
      | Some id => mkCorrelationKey Request (slash svc id)
      | None =>
          let host := default "" (attr "host") in
          match attr "pid", attr "thread" with
          | Some pid, Some thread => mkCorrelationKey Thread (slash host (slash pid thread))
          | _, _ => mkCorrelationKey Service (slash host svc)
          end
      end
  end.

(** Durations are in nanoseconds. *)
Record RingConfig := mkRingConfig {
  shards_n : Z; max_bytes : Z; max_lines_per_key : Z; context_age : Z; max_context_lines : Z;
  windows_per_minute : Z; max_windows_per_minute : Z; dedupe_window : Z
}.
Definition SEC : Z := 1000000000.
Definition ring_config_default : RingConfig :=
  mkRingConfig 16 (64 * 1024 * 1024) 2000 (30 * SEC) 200 3 30 (60 * SEC).

Record ContextLine := mkLine {
  l_timestamp : Z; l_severity : Z; l_template_id : option Z; l_body : string
}.
Record ContextWindow := mkWindow {
  error : ContextLine; context : list ContextLine; key_tier : KeyTier; w_flow_hash : Z;
  error_template_id : option Z; error_template_fingerprint : option Z;
  w_service : option string; suppressed : Z
}.
Inductive Suppressed := DuplicateFlow | RateLimited | NoContext.
Inductive Capture :=
| Window (w : ContextWindow)
| ContextSuppressed (reason : Suppressed) (flow_hash : option Z).

Record RingStats := mkRingStats {
  lines_buffered : Z; lines_evicted : Z; windows_emitted : Z; windows_deduped : Z;
  windows_rate_limited : Z; st_bytes_held : Z
}.

Record Entry := mkEntry { e_timestamp : Z; e_severity : Z; e_template_id : option Z; e_body : string }.
Definition entry_bytes (e : Entry) : Z := str_len (e_body e) + 96.

Record Shard := mkShard {
  keys : gmap CorrelationKey (list Entry); order : list CorrelationKey; s_bytes : Z
}.
Definition shard0 : Shard := mkShard ∅ [] 0.

Record Ring := mkRing {
  config : RingConfig;
  shards : list Shard;
  budgets : gmap (string * Z) (Z * Z);
  global_budget : Z * Z;
  recent_flows : gmap Z (Z * Z);
  stats : RingStats
}.

Definition new (c : RingConfig) : Ring :=
  mkRing c (replicate (Z.to_nat (Z.max (shards_n c) 1)) shard0) ∅ (0, 0) ∅ (mkRingStats 0 0 0 0 0 0).

Definition shard_budget (r : Ring) : Z := max_bytes (config r) / Z.max (Z.of_nat (List.length (shards r))) 1.
Definition bytes_held (r : Ring) : Z := sumZ s_bytes (shards r).
Definition keys_held (r : Ring) : Z := sumZ (fun s => Z.of_nat (size (keys s))) (shards r).

(** ** Observing *)

(** The per-key cap: pop from the front while over it. *)
Fixpoint trim_queue (max : Z) (q : list Entry) (bytes evicted : Z) : list Entry * Z * Z :=
  match q with
  | old :: q' =>
      if max <? Z.of_nat (List.length q) then trim_queue max q' (sat_sub bytes (entry_bytes old)) (evicted + 1)
      else (q, bytes, evicted)
  | [] => ([], bytes, evicted)
  end.

(** The shard budget: drop whole keys, oldest first. *)
Fixpoint evict_keys (budget : Z) (ord : list CorrelationKey) (ks : gmap CorrelationKey (list Entry))
    (bytes evicted : Z) : Shard * Z :=
  match ord with
  | [] => (mkShard ks [] bytes, evicted)
  | oldest :: ord' =>
      if budget <? bytes then
        match ks !! oldest with
        | Some q =>
            evict_keys budget ord' (delete oldest ks)
              (foldl (fun b e => sat_sub b (entry_bytes e)) bytes q)
              (evicted + Z.of_nat (List.length q))
        | None => evict_keys budget ord' ks bytes evicted
        end
      else (mkShard ks ord bytes, evicted)
  end.

Definition entry_of (record : LogRecord) : Entry :=
  mkEntry (observed_unix_nano record) (severity record) (template_id record) (body record).

Definition observe_shard (budget max_lines : Z) (key : CorrelationKey) (entry : Entry) (s : Shard) : Shard * Z :=
  let '(queue, ord) :=
    match keys s !! key with
    | Some q => (q, order s)
    | None => ([], order s ++ [key])
    end in
  let '(queue, bytes, evicted) := trim_queue max_lines (queue ++ [entry]) (s_bytes s + entry_bytes entry) 0 in
  evict_keys budget ord (<[key := queue]> (keys s)) bytes evicted.

(** ** One shard *)

Definition queue_bytes (q : list Entry) : Z := sumZ entry_bytes q.

Lemma entry_bytes_pos e : 0 <= entry_bytes e.
Proof. unfold entry_bytes, str_len. lia. Qed.

Lemma queue_bytes_nonneg q : 0 <= queue_bytes q.
Proof. apply sumZ_nonneg, Forall_forall. intros. apply entry_bytes_pos. Qed.

(** Exact accounting: the keys in order are the keys held, and [s_bytes] is
    the bytes of every entry. *)
Record Exact (max_lines : Z) (ks : gmap CorrelationKey (list Entry)) (ord : list CorrelationKey) (bytes : Z) : Prop := {
  ex_nodup : NoDup ord;
  ex_keys : forall k, k ∈ ord <-> is_Some (ks !! k);
  ex_bytes : bytes = map_sumZ queue_bytes ks;
  ex_lines : forall k q, ks !! k = Some q -> Z.of_nat (List.length q) <= max_lines
}.

Lemma trim_queue_spec max q : forall bytes evicted q' bytes' evicted',
  0 <= max -> queue_bytes q <= bytes -> trim_queue max q bytes evicted = (q', bytes', evicted') ->
  bytes' = bytes - queue_bytes q + queue_bytes q' /\ Z.of_nat (List.length q') <= max /\
  (exists front, q = front ++ q' /\ evicted' = evicted + Z.of_nat (List.length front)).
Proof.
  induction q as [|e q IH]; intros bytes evicted q' bytes' evicted' Hmax Hb Ht.
  - injection Ht as <- <- <-. split; [lia|]. split; [simpl; lia|]. exists []. split; [done|simpl; lia].
  - cbn [trim_queue] in Ht. destruct (_ <? _) eqn:E; zbool.
    + unfold queue_bytes in Hb. simpl in Hb. pose proof (queue_bytes_nonneg q) as Hq. pose proof (entry_bytes_pos e).
      unfold queue_bytes in Hq. apply IH in Ht as (H1 & H2 & front & -> & ->); [|done|].
      * split; [|split; [done|exists (e :: front); split; [done|simpl; lia]]].
        unfold queue_bytes in *. simpl. unfold sat_sub in H1. lia.
      * unfold sat_sub, queue_bytes. lia.
    + injection Ht as <- <- <-. split; [lia|]. split; [done|]. exists []. split; [done|simpl; lia].
Qed.

Lemma foldl_sat_sub q : forall b, queue_bytes q <= b ->
  foldl (fun b e => sat_sub b (entry_bytes e)) b q = b - queue_bytes q.
Proof.
  induction q as [|e q IH]; intros b Hb; [unfold queue_bytes; simpl; lia|].
  unfold queue_bytes in Hb. simpl in Hb |- *. pose proof (queue_bytes_nonneg q) as Hq. pose proof (entry_bytes_pos e).
  unfold queue_bytes in *. unfold sat_sub at 2. rewrite IH by lia. simpl. lia.
Qed.

Lemma evict_keys_spec budget max_lines ord : forall ks bytes evicted s' ev',
  0 <= budget -> Exact max_lines ks ord bytes -> evict_keys budget ord ks bytes evicted = (s', ev') ->
  Exact max_lines (keys s') (order s') (s_bytes s') /\ s_bytes s' <= budget /\
  (forall k q, keys s' !! k = Some q -> ks !! k = Some q).
Proof.
  induction ord as [|k0 ord IH]; intros ks bytes evicted s' ev' Hb Hx He; cbn [evict_keys] in He.
  - injection He as <- <-. split; [done|]. split; [|done]. simpl.
    assert (ks = ∅) as Hks.
    { apply map_eq. intros k. rewrite lookup_empty. destruct (ks !! k) eqn:E; [|done].
      assert (k ∈ []) as Hin by (apply (ex_keys _ _ _ _ Hx); by rewrite E). by apply not_elem_of_nil in Hin. }
    rewrite (ex_bytes _ _ _ _ Hx), Hks, map_sumZ_empty. done.
  - destruct (_ <? _) eqn:E; zbool.
    2:{ injection He as <- <-. split; [done|]. by split. }
    destruct (proj1 (ex_keys _ _ _ _ Hx k0) ltac:(left)) as [q Hq]. rewrite Hq in He.
    pose proof (ex_nodup _ _ _ _ Hx) as Hnd. apply NoDup_cons in Hnd as [Hn Hnd].
    assert (queue_bytes q <= bytes) as Hle.
    { rewrite (ex_bytes _ _ _ _ Hx). rewrite <- (insert_delete_id ks k0 q Hq).
      rewrite map_sumZ_insert by apply lookup_delete_eq.
      assert (0 <= map_sumZ queue_bytes (delete k0 ks)); [|lia].
      apply map_sumZ_nonneg. intros. apply queue_bytes_nonneg. }
    rewrite foldl_sat_sub in He by done.
    apply IH in He as (H1 & H2 & H3); [|done|].
    + split; [done|]. split; [done|]. intros k q' Hk. apply H3 in Hk. by apply lookup_delete_Some in Hk as [_ ?].
    + constructor; [done| | |].
      * intros k. destruct (decide (k = k0)) as [->|Hne].
        -- rewrite lookup_delete_eq. split; [done|by intros []].
        -- rewrite lookup_delete_ne, <- (ex_keys _ _ _ _ Hx) by done. rewrite elem_of_cons. naive_solver.
      * rewrite (map_sumZ_delete _ _ _ _ Hq), (ex_bytes _ _ _ _ Hx). done.
      * intros k q' Hk. apply lookup_delete_Some in Hk as [_ Hk]. by apply (ex_lines _ _ _ _ Hx) in Hk.
Qed.

Definition shard_ok (budget max_lines : Z) (s : Shard) : Prop :=
  Exact max_lines (keys s) (order s) (s_bytes s) /\ s_bytes s <= budget.

Lemma shard0_ok budget max_lines : 0 <= budget -> shard_ok budget max_lines shard0.
Proof.
  intros Hb. split; [|done]. constructor; simpl.
  - constructor.
  - intros k. rewrite lookup_empty. split; [by intros ?%not_elem_of_nil|by intros []].
  - by rewrite map_sumZ_empty.
  - intros k q. by rewrite lookup_empty.
Qed.

Lemma observe_shard_ok budget max_lines key entry s s' ev :
  0 <= budget -> 0 <= max_lines -> shard_ok budget max_lines s ->
  observe_shard budget max_lines key entry s = (s', ev) -> shard_ok budget max_lines s'.
Proof.
  intros Hb Hm [Hx _] Ho. unfold observe_shard in Ho.
  assert (exists q0 ord, match keys s !! key with Some q => (q, order s) | None => ([], order s ++ [key]) end = (q0, ord) /\
    NoDup ord /\ (forall k, k ∈ ord <-> k = key \/ is_Some (keys s !! k)) /\
    queue_bytes q0 = match keys s !! key with Some q => queue_bytes q | None => 0 end) as (q0 & ord & Hq0 & Hnd & Hord & Hqb).
  { destruct (keys s !! key) as [q|] eqn:E.
    - exists q, (order s). split; [done|]. split; [apply Hx|]. split; [|done].
      intros k. rewrite (ex_keys _ _ _ _ Hx). split; [by right|]. intros [->|?]; [by rewrite E|done].
    - exists [], (order s ++ [key]). split; [done|].
      assert (key ∉ order s) as Hn by (rewrite (ex_keys _ _ _ _ Hx), E; by intros []).
      split; [|split; [|done]].
      + apply NoDup_app. split; [apply Hx|]. split; [|apply NoDup_singleton].
        intros k Hk Hk'. apply list_elem_of_singleton in Hk'. by subst.
      + intros k. rewrite elem_of_app, list_elem_of_singleton, (ex_keys _ _ _ _ Hx). naive_solver. }
  rewrite Hq0 in Ho.
  assert (s_bytes s = (match keys s !! key with Some q => queue_bytes q | None => 0 end) +
            map_sumZ queue_bytes (delete key (keys s))) as Hsum.
  { rewrite (ex_bytes _ _ _ _ Hx). destruct (keys s !! key) as [q|] eqn:E.
    - rewrite (map_sumZ_delete _ _ _ _ E). lia.
    - by rewrite delete_id. }
  assert (0 <= map_sumZ queue_bytes (delete key (keys s))) as Hnn by (apply map_sumZ_nonneg; intros; apply queue_bytes_nonneg).
  assert (queue_bytes (q0 ++ [entry]) = queue_bytes q0 + entry_bytes entry) as Happ.
  { unfold queue_bytes. rewrite sumZ_app. simpl. lia. }
  destruct (trim_queue max_lines (q0 ++ [entry]) (s_bytes s + entry_bytes entry) 0) as [[q1 b1] e1] eqn:Et.
  apply trim_queue_spec in Et as (Hb1 & Hl1 & _); [|done|lia].
  eapply evict_keys_spec in Ho as (H1 & H2 & _); [by split|done|].
  constructor; [done| | |].
  - intros k. rewrite Hord. destruct (decide (k = key)) as [->|Hne].
    + rewrite lookup_insert_eq. split; [by eexists|by left].
    + rewrite lookup_insert_ne by done. split; [by intros [?|?]|by right].
  - rewrite <- insert_delete_eq, map_sumZ_insert by apply lookup_delete_eq. lia.
  - intros k q Hk. apply lookup_insert_Some in Hk as [[<- <-]|[_ Hk]]; [done|]. by apply (ex_lines _ _ _ _ Hx) in Hk.
Qed.

Section Ring.
Context (hash_key : CorrelationKey -> Z).
Context (hash_flow : list (option Z) -> option Z -> Z).

Definition shard_for (r : Ring) (key : CorrelationKey) : nat :=
  Z.to_nat (hash_key key mod Z.of_nat (List.length (shards r))).

Definition flow_hash (ctx : list ContextLine) (error_template : option Z) : Z :=
  hash_flow (List.map l_template_id ctx) error_template.

Definition observe (record : LogRecord) (r : Ring) : Ring :=
  let key := correlation_key record in
  let idx := shard_for r key in
  match shards r !! idx with
  | None => r
  | Some s =>
      let '(s', evicted) := observe_shard (shard_budget r) (max_lines_per_key (config r)) key (entry_of record) s in
      let shards' := <[idx := s']> (shards r) in
      let st := stats r in
      mkRing (config r) shards' (budgets r) (global_budget r) (recent_flows r)
        (mkRingStats (lines_buffered st + 1) (lines_evicted st + evicted) (windows_emitted st)
           (windows_deduped st) (windows_rate_limited st) (sumZ s_bytes shards'))
  end.

(** ** Capturing *)

Definition line_of (e : Entry) : ContextLine :=
  mkLine (e_timestamp e) (e_severity e) (e_template_id e) (e_body e).

Definition context_of (c : RingConfig) (err : LogRecord) (queue : list Entry) : list ContextLine :=
  let cutoff := sat_sub (observed_unix_nano err) (wrap64 (context_age c)) in
  rev (List.map line_of
    (take (Z.to_nat (max_context_lines c))
       (rev (List.filter (fun e => negb (String.eqb (e_body e) (body err)) || negb (e_timestamp e =? observed_unix_nano err))
               (List.filter (fun e => cutoff <=? e_timestamp e) queue))))).

Definition prune_flows (c : RingConfig) (now : Z) (flows : gmap Z (Z * Z)) : gmap Z (Z * Z) :=
  if Z.of_nat (size flows) <? 10000 then flows
  else
    let kept := filter (fun p => sat_sub now (fst (snd p)) < wrap64 (dedupe_window c)) flows in
    if 10000 <=? Z.of_nat (size kept) then ∅ else kept.

Definition minute_ns : Z := 60 * SEC.

Definition bump_deduped (st : RingStats) : RingStats :=
  mkRingStats (lines_buffered st) (lines_evicted st) (windows_emitted st) (windows_deduped st + 1)
    (windows_rate_limited st) (st_bytes_held st).
Definition bump_limited (st : RingStats) : RingStats :=
  mkRingStats (lines_buffered st) (lines_evicted st) (windows_emitted st) (windows_deduped st)
    (windows_rate_limited st + 1) (st_bytes_held st).
Definition bump_emitted (st : RingStats) : RingStats :=
  mkRingStats (lines_buffered st) (lines_evicted st) (windows_emitted st + 1) (windows_deduped st)
    (windows_rate_limited st) (st_bytes_held st).

(** The minute budgets, once the flow was not a duplicate. *)
Definition spend (err : LogRecord) (w : Z -> ContextWindow) (h since : Z) (r : Ring) : Capture * Ring :=
  let c := config r in
  let now := observed_unix_nano err in
  let g := if minute_ns <=? sat_sub now (fst (global_budget r)) then (now, 0) else global_budget r in
  if max_windows_per_minute c <=? snd g then
    (ContextSuppressed RateLimited (Some h),
     mkRing c (shards r) (budgets r) g (recent_flows r) (bump_limited (stats r)))
  else
    let bk := (default "" (service err), default 0 (template_id err)) in
    let b := default (now, 0) (budgets r !! bk) in
    let b := if minute_ns <=? sat_sub now (fst b) then (now, 0) else b in
    if windows_per_minute c <=? snd b then
      (ContextSuppressed RateLimited (Some h),
       mkRing c (shards r) (<[bk := b]> (budgets r)) g (recent_flows r) (bump_limited (stats r)))
    else
      (Window (w since),
       mkRing c (shards r) (<[bk := (fst b, snd b + 1)]> (budgets r)) (fst g, snd g + 1)
         (recent_flows r) (bump_emitted (stats r))).

Definition with_flows (f : gmap Z (Z * Z)) (r : Ring) : Ring :=
  mkRing (config r) (shards r) (budgets r) (global_budget r) f (stats r).

Definition capture (err : LogRecord) (r : Ring) : Capture * Ring :=
  let c := config r in
  let key := correlation_key err in
  match shards r !! shard_for r key ≫= fun s => keys s !! key with
  | None => (ContextSuppressed NoContext None, r)
  | Some queue =>
      let ctx := context_of c err queue in
      match ctx with
      | [] => (ContextSuppressed NoContext None, r)
      | _ =>
          let h := flow_hash ctx (template_id err) in
          let now := observed_unix_nano err in
          let window since :=
            mkWindow (line_of (entry_of err)) ctx (tier key) h (template_id err) None (service err) since in
          match recent_flows r !! h with
          | Some (last, cnt) =>
              if sat_sub now last <? wrap64 (dedupe_window c) then
                (ContextSuppressed DuplicateFlow (Some h),
                 mkRing c (shards r) (budgets r) (global_budget r) (<[h := (last, cnt + 1)]> (recent_flows r))
                   (bump_deduped (stats r)))
              else spend err window h cnt (with_flows (<[h := (now, 0)]> (recent_flows r)) r)
          | None =>
              spend err window h 0 (with_flows (<[h := (now, 0)]> (prune_flows c now (recent_flows r))) r)
          end
      end
  end.

(** ** Memory *)

Inductive Event := Observe (record : LogRecord) | Captured (err : LogRecord).

Definition step (e : Event) (r : Ring) : list Capture * Ring :=
  match e with
  | Observe rec => ([], observe rec r)
  | Captured err => let '(c, r') := capture err r in ([c], r')
  end.

Fixpoint run (es : list Event) (r : Ring) : list Capture * Ring :=
  match es with
  | [] => ([], r)
  | e :: es' =>
      let '(c1, r1) := step e r in
      let '(c2, r2) := run es' r1 in
      (c1 ++ c2, r2)
  end.

Lemma capture_frame err r c r' : capture err r = (c, r') -> config r' = config r /\ shards r' = shards r.
Proof.
  unfold capture, spend. intros H.
  repeat (case_match; simplify_eq/=; try done).
Qed.

Definition ring_ok (r : Ring) : Prop :=
  Forall (shard_ok (shard_budget r) (max_lines_per_key (config r))) (shards r).

Lemma observe_ok rec r : 0 <= max_bytes (config r) -> 0 <= max_lines_per_key (config r) ->
  ring_ok r -> ring_ok (observe rec r) /\ config (observe rec r) = config r /\
  List.length (shards (observe rec r)) = List.length (shards r).
Proof.
  intros Hb Hm Hok. unfold observe. destruct (shards r !! _) as [s|] eqn:Es; [|done].
  destruct (observe_shard _ _ _ _ _) as [s' ev] eqn:Eo.
  assert (0 <= shard_budget r) as Hbud by (unfold shard_budget; apply Z.div_pos; lia).
  unfold ring_ok, shard_budget in *. cbn [config shards]. rewrite length_insert. split; [|done].
  apply Forall_insert; [done|]. eapply observe_shard_ok; [exact Hbud|exact Hm| |exact Eo].
  rewrite Forall_lookup in Hok. by eapply Hok.
Qed.

Lemma run_ok es : forall r, 0 <= max_bytes (config r) -> 0 <= max_lines_per_key (config r) -> ring_ok r ->
  let '(_, r') := run es r in ring_ok r' /\ config r' = config r /\ List.length (shards r') = List.length (shards r).
Proof.
  induction es as [|e es IH]; intros r Hb Hm Hok; [done|]. cbn [run].
  destruct (step e r) as [c1 r1] eqn:E1. destruct (run es r1) as [c2 r2] eqn:E2.
  assert (ring_ok r1 /\ config r1 = config r /\ List.length (shards r1) = List.length (shards r)) as (H1 & H2 & H3).
  { destruct e as [rec|err]; simpl in E1.
    - injection E1 as <- <-. by apply observe_ok.
    - destruct (capture err r) as [c r'] eqn:Ec. injection E1 as <- <-.
      apply capture_frame in Ec as [Hc Hs]. unfold ring_ok, shard_budget. by rewrite Hc, Hs. }
  specialize (IH r1). rewrite E2, H2 in IH. destruct IH as (H4 & H5 & H6); [done|done|done|].
  split; [done|]. split; [done|]. congruence.
Qed.

Lemma sum_bounded budget max_lines ss : Forall (shard_ok budget max_lines) ss ->
  sumZ s_bytes ss <= Z.of_nat (List.length ss) * budget.
Proof. induction 1 as [|s ss [_ Hs] _ IH]; simpl; lia. Qed.

(** C22: The memory bound holds under any storm.  After any sequence of lines
    observed and errors captured, the ring holds at most [max_bytes], counts
    them exactly, and no correlation key holds more than its cap. *)
Theorem ring_memory_bounded c es :
  0 <= max_bytes c -> 0 <= max_lines_per_key c ->
  let '(_, r) := run es (new c) in
  bytes_held r <= max_bytes c /\
  bytes_held r = sumZ (fun s => map_sumZ queue_bytes (keys s)) (shards r) /\
  Forall (fun s => forall k q, keys s !! k = Some q -> Z.of_nat (List.length q) <= max_lines_per_key c) (shards r).
Proof.
  intros Hb Hm. pose proof (run_ok es (new c)) as H. destruct (run es (new c)) as [cs r].
  destruct H as (Hok & Hc & Hl); [done|done| |].
  { unfold ring_ok, new. cbn [shards config]. apply Forall_replicate, shard0_ok.
    unfold shard_budget. apply Z.div_pos; [done|lia]. }
  unfold ring_ok in Hok. rewrite Hc in Hok. cbn [config new] in Hok. split; [|split].
  - unfold bytes_held. etrans; [by eapply sum_bounded|]. unfold shard_budget. rewrite Hc.
    change (config (new c)) with c.
    set (n := Z.of_nat (List.length (shards r))). assert (0 <= n) by lia.
    pose proof (Z.mul_div_le (max_bytes c) (Z.max n 1)).
    assert (0 <= max_bytes c / Z.max n 1) by (apply Z.div_pos; lia). nia.
  - unfold bytes_held. clear Hl. induction Hok as [|s ss [Hx _] _ IH]; [done|].
    simpl. rewrite IH. by rewrite (ex_bytes _ _ _ _ Hx).
  - eapply Forall_impl; [exact Hok|]. intros s [Hx _]. apply Hx.
Qed.

(** ** The window *)

(** What a window holds.  Its context is not empty and not longer than
    [max_context_lines]; it is the most recent part of the lines of the
    error's own correlation key, in order, none older than [context_age] and
    none the error itself; and it is described by the error's own template and
    service. *)
Theorem captured_window_spec err r w r' : capture err r = (Window w, r') ->
  0 <= max_context_lines (config r) ->
  exists s q,
    shards r !! shard_for r (correlation_key err) = Some s /\ keys s !! correlation_key err = Some q /\
    context w <> [] /\ Z.of_nat (List.length (context w)) <= max_context_lines (config r) /\
    sublist (context w) (List.map line_of q) /\
    Forall (fun l => sat_sub (observed_unix_nano err) (wrap64 (context_age (config r))) <= l_timestamp l /\
                     (l_body l <> body err \/ l_timestamp l <> observed_unix_nano err)) (context w) /\
    key_tier w = tier (correlation_key err) /\ w_service w = service err /\
    w_flow_hash w = flow_hash (context w) (template_id err).
Proof.
  unfold capture. intros H Hmax.
  destruct (shards r !! _) as [s|] eqn:Es; [|done]. simpl in H.
  destruct (keys s !! _) as [q|] eqn:Eq; [|done].
  exists s, q. split; [done|]. split; [done|].
  set (ctx := context_of (config r) err q) in H.
  assert (ctx <> [] /\ context w = ctx /\ key_tier w = tier (correlation_key err) /\ w_service w = service err /\
    w_flow_hash w = flow_hash ctx (template_id err)) as (Hne & -> & Hk & Hs & Hh).
  { destruct ctx as [|l ctx]; [done|]. unfold spend in H.
    repeat (case_match; simplify_eq/=; try done). }
  split; [done|].
  set (f1 := fun e : Entry => sat_sub (observed_unix_nano err) (wrap64 (context_age (config r))) <=? e_timestamp e) in *.
  set (f2 := fun e : Entry => negb (String.eqb (e_body e) (body err)) || negb (e_timestamp e =? observed_unix_nano err)) in *.
  assert (ctx = List.map line_of (rev (take (Z.to_nat (max_context_lines (config r))) (rev (List.filter f2 (List.filter f1 q)))))) as Hctx.
  { unfold ctx, context_of. by rewrite map_rev. }
  split; [|split; [|split; [|done]]].
  - rewrite Hctx, length_map, length_rev, length_take. lia.
  - rewrite Hctx. apply sublist_map. etrans; [|etrans; [apply (sublist_filter_bool f2)|apply sublist_filter_bool]].
    rewrite <- (rev_involutive (List.filter f2 _)) at 2. apply sublist_rev, sublist_take.
  - rewrite Hctx, Forall_map. apply Forall_forall. intros e He.
    apply list_elem_of_In, in_rev, list_elem_of_In in He.
    assert (In e (List.filter f2 (List.filter f1 q))) as Hin.
    { apply in_rev, list_elem_of_In. by eapply elem_of_sublist; [|apply sublist_take]. }
    apply filter_In in Hin as [Hin H2]. apply filter_In in Hin as [_ H1]. unfold f1, f2 in *. zbool.
    split; [simpl; lia|]. apply orb_prop in H2 as [H2|H2]; zbool; [left|right; done].
    simpl. intros He'. rewrite He', String.eqb_refl in H2. done.
Qed.

(** ** Egress *)

Definition is_window (c : Capture) : bool := match c with Window _ => true | _ => false end.
Definition windows_in (cs : list Capture) : Z := Z.of_nat (List.length (List.filter is_window cs)).

(** The event happens within the minute that started at [start]. *)
Definition within_minute (start : Z) (e : Event) : Prop :=
  match e with Observe _ => True | Captured err => sat_sub (observed_unix_nano err) start < minute_ns end.

Lemma spend_global err w h since r c r' : spend err w h since r = (c, r') ->
  sat_sub (observed_unix_nano err) (fst (global_budget r)) < minute_ns ->
  fst (global_budget r') = fst (global_budget r) /\
  snd (global_budget r') = snd (global_budget r) + (if is_window c then 1 else 0) /\
  (is_window c = true -> snd (global_budget r') <= max_windows_per_minute (config r)).
Proof.
  unfold spend. intros H Hm. destruct (minute_ns <=? sat_sub _ (fst (global_budget r))) eqn:E; zbool; [lia|].
  destruct (_ <=? snd (global_budget r)) eqn:E1; [injection H as <- <-; simpl; split; [done|split; [lia|done]]|].
  destruct (windows_per_minute _ <=? _) eqn:E2; injection H as <- <-; simpl; zbool; (split; [done|]); split; try lia; done.
Qed.

Lemma capture_global err r c r' : capture err r = (c, r') ->
  sat_sub (observed_unix_nano err) (fst (global_budget r)) < minute_ns ->
  fst (global_budget r') = fst (global_budget r) /\
  snd (global_budget r') = snd (global_budget r) + (if is_window c then 1 else 0) /\
  (is_window c = true -> snd (global_budget r') <= max_windows_per_minute (config r)).
Proof.
  unfold capture. intros H Hm.
  destruct (shards r !! _ ≫= _) as [q|]; [|injection H as <- <-; simpl; split; [done|split; [lia|done]]].
  destruct (context_of _ _ _) as [|l ctx]; [injection H as <- <-; simpl; split; [done|split; [lia|done]]|].
  destruct (recent_flows r !! _) as [[last cnt]|].
  - destruct (_ <? _); [injection H as <- <-; simpl; split; [done|split; [lia|done]]|].
    by apply spend_global in H.
  - by apply spend_global in H.
Qed.

Lemma windows_app a b : windows_in (a ++ b) = windows_in a + windows_in b.
Proof. unfold windows_in. rewrite List.filter_app, length_app. lia. Qed.

(** Egress is bounded across all shapes: within one minute of the ring's
    global budget, however many errors of however many shapes are captured, at
    most [max_windows_per_minute] windows go out. *)
Theorem windows_per_minute_bounded es r :
  Forall (within_minute (fst (global_budget r))) es ->
  0 <= snd (global_budget r) <= max_windows_per_minute (config r) ->
  let '(cs, r') := run es r in
  snd (global_budget r) + windows_in cs <= max_windows_per_minute (config r).
Proof.
  intros He Hn. assert (forall es r, Forall (within_minute (fst (global_budget r))) es ->
    0 <= snd (global_budget r) <= max_windows_per_minute (config r) ->
    let '(cs, r') := run es r in
    fst (global_budget r') = fst (global_budget r) /\
    snd (global_budget r') = snd (global_budget r) + windows_in cs /\
    snd (global_budget r') <= max_windows_per_minute (config r)) as H.
  { clear. induction es as [|e es IH]; intros r He Hn; cbn [run].
    { unfold windows_in. simpl. split; [done|]. lia. }
    destruct (step e r) as [c1 r1] eqn:E1. destruct (run es r1) as [c2 r2] eqn:E2.
    inversion He as [|? ? Hw He']; subst.
    assert (fst (global_budget r1) = fst (global_budget r) /\
      snd (global_budget r1) = snd (global_budget r) + windows_in c1 /\
      snd (global_budget r1) <= max_windows_per_minute (config r) /\ config r1 = config r) as (H1 & H2 & H3 & H4).
    { destruct e as [rec|err]; simpl in E1.
      - injection E1 as <- <-. unfold observe, windows_in. simpl.
        destruct (shards r !! _) as [s|]; [|simpl; split; [done|split; [lia|split; [lia|done]]]].
        destruct (observe_shard _ _ _ _ _). simpl. split; [done|]. split; [lia|]. split; [lia|done].
      - destruct (capture err r) as [c r'] eqn:Ec. injection E1 as <- <-.
        pose proof (capture_frame _ _ _ _ Ec) as [Hc _].
        apply capture_global in Ec as (H1 & H2 & H3); [|done].
        unfold windows_in. simpl. destruct (is_window c) eqn:Ew; simpl; split; try done; split; try lia; split; try done.
        + by apply H3.
        + lia. }
    specialize (IH r1). rewrite E2, H1, H4 in IH. destruct IH as (H5 & H6 & H7); [done| |].
    - assert (0 <= windows_in c1) by (unfold windows_in; lia). lia.
    - split; [congruence|]. split; [rewrite windows_app; lia|lia]. }
  specialize (H es r He Hn). destruct (run es r) as [cs r']. lia.
Qed.

(** A window withheld by the rate limit still marks its flow as sent: the
    same error captured again within the dedupe window is answered
    [DuplicateFlow], pointing at a window that never went out. *)
Theorem rate_limited_flow_counts_as_sent err r h r' :
  capture err r = (ContextSuppressed RateLimited (Some h), r') ->
  0 < wrap64 (dedupe_window (config r)) ->
  fst (capture err r') = ContextSuppressed DuplicateFlow (Some h).
Proof.
  intros H Hd. pose proof (capture_frame _ _ _ _ H) as [Hc Hs].
  unfold capture in *. unfold shard_for in *. rewrite Hs, Hc.
  destruct (shards r !! _ ≫= _) as [q|]; [|done].
  destruct (context_of (config r) err q) as [|l ctx]; [done|].
  set (hh := flow_hash (l :: ctx) (template_id err)) in *.
  assert (forall r0 w since, spend err w hh since r0 = (ContextSuppressed RateLimited (Some h), r') ->
            h = hh /\ recent_flows r' = recent_flows r0) as Hsp.
  { intros r0 w since Hsp. unfold spend in Hsp. repeat (case_match; simplify_eq/=; try done). }
  assert (h = hh /\ recent_flows r' !! hh = Some (observed_unix_nano err, 0)) as [-> Hf].
  { destruct (recent_flows r !! hh) as [[last cnt]|].
    - destruct (_ <? _); [done|]. apply Hsp in H as [-> ->]. split; [done|]. apply lookup_insert_eq.
    - apply Hsp in H as [-> ->]. split; [done|]. apply lookup_insert_eq. }
  rewrite Hf. unfold sat_sub. rewrite Z.sub_diag, Z.max_id.
  by destruct (0 <? _) eqn:E; zbool; [|lia].
Qed.
End Ring.

(** ** Witnesses *)

Definition tiny_config : RingConfig := mkRingConfig 2 1000 3 (30 * SEC) 5 3 0 (60 * SEC).

Lemma ring_memory_bounded_witness :
  let '(_, r) := run (fun _ => 1) (fun _ _ => 7) [Observe (new_record [] 5 9 "a"); Observe (new_record [] 6 9 "b");
     Captured (new_record [] 7 17 "boom")] (new tiny_config) in
  bytes_held r <= max_bytes tiny_config /\
  bytes_held r = sumZ (fun s => map_sumZ queue_bytes (keys s)) (shards r) /\
  Forall (fun s => forall k q, keys s !! k = Some q -> Z.of_nat (List.length q) <= max_lines_per_key tiny_config) (shards r).
Proof. apply ring_memory_bounded; vm_compute; discriminate. Defined.

(** One line observed, then an error, under a budget of no windows at all and
    under the default one. *)
Definition sample_event (sev t : Z) (b : string) : LogRecord := new_record [] t sev b.
Definition ring_with (c : RingConfig) : Ring :=
  snd (run (fun _ => 1) (fun _ _ => 7) [Observe (sample_event 9 (70 * SEC) "context")] (new c)).
Definition boom : LogRecord := sample_event 17 (71 * SEC) "boom".

Lemma rate_limited_flow_counts_as_sent_witness :
  exists h r', capture (fun _ => 1) (fun _ _ => 7) boom (ring_with tiny_config) =
      (ContextSuppressed RateLimited (Some h), r') /\
    fst (capture (fun _ => 1) (fun _ _ => 7) boom r') = ContextSuppressed DuplicateFlow (Some h).
Proof.
  eexists _, _. split; [vm_compute; reflexivity|].
  apply (rate_limited_flow_counts_as_sent (fun _ => 1) (fun _ _ => 7) boom (ring_with tiny_config)).
  - vm_compute. reflexivity.
  - vm_compute. reflexivity.
Defined.

Lemma captured_window_spec_witness :
  exists w r', capture (fun _ => 1) (fun _ _ => 7) boom (ring_with ring_config_default) = (Window w, r') /\
    exists s q,
      shards (ring_with ring_config_default) !! shard_for (fun _ => 1) (ring_with ring_config_default) (correlation_key boom) = Some s /\
      keys s !! correlation_key boom = Some q /\
      context w <> [] /\ Z.of_nat (List.length (context w)) <= max_context_lines (config (ring_with ring_config_default)) /\
      sublist (context w) (List.map line_of q) /\
      Forall (fun l => sat_sub (observed_unix_nano boom) (wrap64 (context_age (config (ring_with ring_config_default)))) <= l_timestamp l /\
                       (l_body l <> body boom \/ l_timestamp l <> observed_unix_nano boom)) (context w) /\
      key_tier w = tier (correlation_key boom) /\ w_service w = service boom /\
      w_flow_hash w = flow_hash (fun _ _ => 7) (context w) (template_id boom).
Proof.
  eexists _, _. split; [vm_compute; reflexivity|].
  eapply (captured_window_spec (fun _ => 1) (fun _ _ => 7) boom (ring_with ring_config_default)).
  - vm_compute. reflexivity.
  - vm_compute. discriminate.
Defined.

Lemma windows_per_minute_bounded_witness :
  let r := ring_with ring_config_default in
  let '(cs, r') := run (fun _ => 1) (fun _ _ => 7) [Captured (sample_event 17 (59 * SEC) "boom")] r in
  snd (global_budget r) + windows_in cs <= max_windows_per_minute (config r).
Proof.
  apply (windows_per_minute_bounded (fun _ => 1) (fun _ _ => 7) [Captured (sample_event 17 (59 * SEC) "boom")]
    (ring_with ring_config_default)).
  - repeat constructor; vm_compute; reflexivity.
  - vm_compute. split; discriminate.
Defined.
