(* ===== verification/SyncPolicy.v ===== *)
(** How much of what the agent accepted is sent to a peer
    ([crates/logless-core/src/sync_policy.rs]): the fidelity dial, the rollups
    that count what it leaves out, and the boosts an anomaly starts.

    The detectors of [sync_signals.rs] are behind the class [Signals]: the
    planner is verified for every implementation of it.  SHA-256 and the
    fresh UUIDs of marker records are parameters.  The iteration order of a
    [HashSet] is unspecified; the model fixes one. *)

From S2P Require Import Prelude Text Float Model Lists.
Open Scope Z_scope.
Open Scope list_scope.

Definition FULL_FROM : Z := 17.
Definition WARN_SEVERITY : Z := 13.
Definition ATTR_SUPPLEMENT : string := "logless.supplement".
Definition BOOST_MS : Z := 5 * 60000.
Definition LOOKBACK_MS : Z := 60000.
Definition RING_MAX : Z := 20000.
Definition RATE_BUCKET_MS : Z := 10000.
Definition RATE_WARMUP_BUCKETS : Z := 6.
Definition RATE_MIN_COUNT : Z := 20.
Definition NOVELTY_WARMUP_MS : Z := 60000.
Definition SEEN_MAX : Z := 200000.
Definition ANOMALY_LOG : Z := 20.
Definition ANOMALY_QUIET_MS : Z := 30000.
Definition ROLLUP_WINDOW_MS : Z := 60000.
Definition ROLLUP_GRACE_MS : Z := 5000.

(** FNV-1a of the low eight bytes of the id. *)
Definition fnv_byte (h : Z) (b : byte) : Z := wmul64 (Z.lxor h (byte_val b)) 1099511628211.
Definition id_hash (event_id : bytes) : Z :=
  foldl fnv_byte 14695981039346656037 (take 8 (drop 8 event_id)).

Definition select (event_id : bytes) (fidelity : Z) : bool :=
  if 100 <=? fidelity then true
  else if fidelity =? 0 then false
  else id_hash event_id mod 100 <? fidelity.

Record PlannerConfig := mkPlannerConfig { fidelity : Z; min_severity : Z; anomaly_boost : bool }.
Definition planner_config_default : PlannerConfig := mkPlannerConfig 100 0 true.

Record Anomaly := mkAnomaly {
  at_ms : Z; an_service : option string; an_kind : string; an_detail : string; lookback_records : Z
}.
Record PlannerStats := mkPlannerStats {
  sampled_out : Z; rollups_emitted : Z; lookback_sent : Z; boosts_started : Z
}.

Record RollupKey := mkRollupKey {
  minute_start_ms : Z; rk_service : option string; rk_template_id : Z; rk_class : string
}.
#[export] Instance RollupKey_eq_dec : EqDecision RollupKey.
Proof. solve_decision. Defined.
#[export] Instance RollupKey_countable : Countable RollupKey.
Proof.
  refine (inj_countable' (fun k => (minute_start_ms k, rk_service k, rk_template_id k, rk_class k))
    (fun p => mkRollupKey (fst (fst (fst p))) (snd (fst (fst p))) (snd (fst p)) (snd p)) _).
  by intros [].
Defined.

Record RollupAcc := mkRollupAcc { acc_count : Z; first_ns : Z; last_ns : Z; max_severity : Z }.

Record Rates := mkRates {
  bucket_start_ms : Z;
  counts : gmap (option string) Z;
  baselines : gmap (option string) (f64 * f64 * Z)
}.

(** ** The detectors, as the planner sees them ([sync_signals.rs]) *)

Record Finding := mkFinding { f_service : option string; f_kind : string; f_detail : string; f_boost : bool }.

Class Signals (Sg : Type) := {
  sig_new : Z -> list (option string * Z) -> Sg;
  sig_observe : Z -> LogRecord -> bool -> Sg -> list Finding * Sg;
  sig_close_buckets : Z -> Sg -> list Finding * Sg
}.

Section Planner.
Context {Sg : Type} `{Signals Sg}.
Context (sha256 : bytes -> bytes) (now_v7 : Z -> bytes).

(** [minted] numbers the UUIDs drawn so far. *)
Record Planner := mkPlanner {
  instance : string;
  cfg : PlannerConfig;
  boosts : gmap (option string) Z;
  ring : list (Z * LogRecord);
  rollups : gmap RollupKey RollupAcc;
  seen : gset Z;
  learn_until_ms : Z;
  rates : Rates;
  signals : Sg;
  anomalies : list Anomaly;
  last_anomaly : gmap (option string * string) Z;
  stats : PlannerStats;
  minted : Z
}.

Definition set_cfg (v : PlannerConfig) (p : Planner) : Planner :=
  mkPlanner (instance p) v (boosts p) (ring p) (rollups p) (seen p) (learn_until_ms p) (rates p) (signals p) (anomalies p) (last_anomaly p) (stats p) (minted p).
Definition set_boosts (v : gmap (option string) Z) (p : Planner) : Planner :=
  mkPlanner (instance p) (cfg p) v (ring p) (rollups p) (seen p) (learn_until_ms p) (rates p) (signals p) (anomalies p) (last_anomaly p) (stats p) (minted p).
Definition set_ring (v : list (Z * LogRecord)) (p : Planner) : Planner :=
  mkPlanner (instance p) (cfg p) (boosts p) v (rollups p) (seen p) (learn_until_ms p) (rates p) (signals p) (anomalies p) (last_anomaly p) (stats p) (minted p).
Definition set_rollups (v : gmap RollupKey RollupAcc) (p : Planner) : Planner :=
  mkPlanner (instance p) (cfg p) (boosts p) (ring p) v (seen p) (learn_until_ms p) (rates p) (signals p) (anomalies p) (last_anomaly p) (stats p) (minted p).
Definition set_seen (v : gset Z) (p : Planner) : Planner :=
  mkPlanner (instance p) (cfg p) (boosts p) (ring p) (rollups p) v (learn_until_ms p) (rates p) (signals p) (anomalies p) (last_anomaly p) (stats p) (minted p).
Definition set_rates (v : Rates) (p : Planner) : Planner :=
  mkPlanner (instance p) (cfg p) (boosts p) (ring p) (rollups p) (seen p) (learn_until_ms p) v (signals p) (anomalies p) (last_anomaly p) (stats p) (minted p).
Definition set_signals (v : Sg) (p : Planner) : Planner :=
  mkPlanner (instance p) (cfg p) (boosts p) (ring p) (rollups p) (seen p) (learn_until_ms p) (rates p) v (anomalies p) (last_anomaly p) (stats p) (minted p).
Definition set_anomalies (v : list Anomaly) (p : Planner) : Planner :=
  mkPlanner (instance p) (cfg p) (boosts p) (ring p) (rollups p) (seen p) (learn_until_ms p) (rates p) (signals p) v (last_anomaly p) (stats p) (minted p).
Definition set_last_anomaly (v : gmap (option string * string) Z) (p : Planner) : Planner :=
  mkPlanner (instance p) (cfg p) (boosts p) (ring p) (rollups p) (seen p) (learn_until_ms p) (rates p) (signals p) (anomalies p) v (stats p) (minted p).
Definition set_stats (v : PlannerStats) (p : Planner) : Planner :=
  mkPlanner (instance p) (cfg p) (boosts p) (ring p) (rollups p) (seen p) (learn_until_ms p) (rates p) (signals p) (anomalies p) (last_anomaly p) v (minted p).
Definition set_minted (v : Z) (p : Planner) : Planner :=
  mkPlanner (instance p) (cfg p) (boosts p) (ring p) (rollups p) (seen p) (learn_until_ms p) (rates p) (signals p) (anomalies p) (last_anomaly p) (stats p) v.

Definition new (inst : string) (c : PlannerConfig) (now_ms : Z) (known_templates : list Z) : Planner :=
  let seen := list_to_set (take (Z.to_nat SEEN_MAX) known_templates) in
  let learn_until := if decide (seen = ∅) then now_ms + NOVELTY_WARMUP_MS else now_ms in
  mkPlanner inst c ∅ [] ∅ seen learn_until (mkRates (now_ms - now_ms mod RATE_BUCKET_MS) ∅ ∅)
    (sig_new now_ms []) [] ∅ (mkPlannerStats 0 0 0 0) 0.

Definition with_known_pairs (now_ms : Z) (pairs : list (option string * Z)) (p : Planner) : Planner :=
  set_signals (sig_new now_ms pairs) p.

Definition set_config (c : PlannerConfig) (p : Planner) : Planner := set_cfg c p.

Definition anomalies_newest_first (p : Planner) : list Anomaly := List.rev (anomalies p).

Definition boosted (now_ms : Z) (p : Planner) : list string :=
  stable_sort String.leb
    (List.map (fun e => default "(no service)" (fst e))
       (List.filter (fun e => now_ms <? snd e) (map_to_list (boosts p)))).

Definition sent_live (p : Planner) (record : LogRecord) : bool :=
  (FULL_FROM <=? severity record) || select (event_id record) (fidelity (cfg p)).

(** ** Leaving out *)

Definition rollup_key (record : LogRecord) : RollupKey :=
  mkRollupKey (observed_unix_nano record / 1000000 / ROLLUP_WINDOW_MS * ROLLUP_WINDOW_MS)
    (service record) (default 0 (template_id record)) (level_as_str (class (severity record))).

Definition fold_in (record : LogRecord) (a : RollupAcc) : RollupAcc :=
  mkRollupAcc (acc_count a + 1) (Z.min (first_ns a) (observed_unix_nano record))
    (Z.max (last_ns a) (observed_unix_nano record)) (Z.max (max_severity a) (severity record)).

(** [pop_front] while over [RING_MAX]. *)
Definition cap_front {A} (max : Z) (l : list A) : list A :=
  drop (Z.to_nat (Z.of_nat (List.length l) - max)) l.

Definition leave_out (record : LogRecord) (now_ms : Z) (p : Planner) : Planner :=
  let st := stats p in
  let p := set_stats (mkPlannerStats (sampled_out st + 1) (rollups_emitted st) (lookback_sent st) (boosts_started st)) p in
  let key := rollup_key record in
  let acc := default (mkRollupAcc 0 (observed_unix_nano record) (observed_unix_nano record) (severity record))
               (rollups p !! key) in
  let p := set_rollups (<[key := fold_in record acc]> (rollups p)) p in
  if anomaly_boost (cfg p) then set_ring (cap_front RING_MAX (ring p ++ [(now_ms, record)])) p else p.

Fixpoint drop_old (now_ms : Z) (r : list (Z * LogRecord)) : list (Z * LogRecord) :=
  match r with
  | (at_, _) :: r' => if LOOKBACK_MS <? sat_sub now_ms at_ then drop_old now_ms r' else r
  | [] => []
  end.
Definition prune_ring (now_ms : Z) (p : Planner) : Planner := set_ring (drop_old now_ms (ring p)) p.

(** ** Anomalies *)

Definition as_lookback (kind : string) (r : LogRecord) : LogRecord :=
  mkRecord (event_id r) (timestamp_unix_nano r) (observed_unix_nano r) (severity r) (severity_text r) (body r)
    (service r) (trace_id r) (span_id r)
    (attributes r ++ [mkAttr ATTR_SUPPLEMENT (AStr (String.append "lookback:" kind))]) (template_id r).

Definition marker (uuid : bytes) (svc : option string) (kind detail : string) (now_ms lookback : Z) : LogRecord :=
  let ts := wmul64 now_ms 1000000 in
  mkRecord uuid ts ts WARN (Some "anomaly")
    (String.append "anomaly (" (String.append kind (String.append "): " detail)))
    svc None None
    [mkAttr "logless.anomaly" (ABool true); mkAttr "logless.anomaly.kind" (AStr kind);
     mkAttr "logless.anomaly.lookback" (AI64 (wrap_i64 lookback))] None.

(** The ring split into the service's left-out records and the rest. *)
Definition lead_up (boost : bool) (svc : option string) (r : list (Z * LogRecord)) : list (Z * LogRecord) * list (Z * LogRecord) :=
  List.partition (fun e => boost && bool_decide (service (snd e) = svc)) r.

Definition trigger (svc : option string) (kind detail : string) (boost : bool) (now_ms : Z)
    (acc : Planner * list LogRecord) : Planner * list LogRecord :=
  let '(p, out) := acc in
  let entry := default 0 (boosts p !! svc) in
  let newly_boosted := boost && (entry <=? now_ms) in
  let p := if boost then set_boosts (<[svc := Z.max entry (now_ms + BOOST_MS)]> (boosts p)) p else p in
  let quiet := match last_anomaly p !! (svc, kind) with
               | Some at_ => sat_sub now_ms at_ <? ANOMALY_QUIET_MS
               | None => false
               end in
  if quiet && negb newly_boosted then (p, out)
  else
    let p := prune_ring now_ms (set_last_anomaly (<[(svc, kind) := now_ms]> (last_anomaly p)) p) in
    let '(lead, keep) := lead_up boost svc (ring p) in
    let lead := List.map (fun e => as_lookback kind (snd e)) lead in
    let n := Z.of_nat (List.length lead) in
    let st := stats p in
    let p := set_ring keep p in
    let p := set_stats (mkPlannerStats (sampled_out st) (rollups_emitted st) (lookback_sent st + n)
                          (if newly_boosted then boosts_started st + 1 else boosts_started st)) p in
    let m := marker (now_v7 (minted p)) svc kind detail now_ms n in
    let p := set_minted (minted p + 1) p in
    let p := set_anomalies (cap_front ANOMALY_LOG (anomalies p ++ [mkAnomaly now_ms svc kind detail n])) p in
    (p, (out ++ [m]) ++ lead).

Definition finding (now_ms : Z) (acc : Planner * list LogRecord) (f : Finding) : Planner * list LogRecord :=
  trigger (f_service f) (f_kind f) (f_detail f) (f_boost f) now_ms acc.

(** ** Processing a batch *)

Definition novel_detail (template : Z) : string :=
  String.append "a log shape never seen before (template " (String.append (show_Z template) ")").

(** A template never seen before; the boolean is [first_ever]. *)
Definition novelty (now_ms : Z) (record : LogRecord) (acc : Planner * list LogRecord)
    : bool * (Planner * list LogRecord) :=
  match template_id record with
  | Some template =>
      if decide (template ∈ seen (fst acc)) then (false, acc)
      else
        let p := if Z.of_nat (size (seen (fst acc))) <? SEEN_MAX
                 then set_seen ({[template]} ∪ seen (fst acc)) (fst acc) else fst acc in
        (true, if learn_until_ms p <=? now_ms
               then trigger (service record) "novel" (novel_detail template) true now_ms (p, snd acc)
               else (p, snd acc))
  | None => (false, acc)
  end.

(** The anomaly half of one record. *)
Definition watch (now_ms : Z) (record : LogRecord) (acc : Planner * list LogRecord) : Planner * list LogRecord :=
  let '(first_ever, acc) := novelty now_ms record acc in
  let '(found, sg) := sig_observe now_ms record first_ever (signals (fst acc)) in
  let '(p, out) := foldl (finding now_ms) (set_signals sg (fst acc), snd acc) found in
  let p :=
    if WARN_SEVERITY <=? severity record then
      let r := rates p in
      set_rates (mkRates (bucket_start_ms r)
                   (<[service record := default 0 (counts r !! service record) + 1]> (counts r)) (baselines r)) p
    else p in
  (p, out).

Definition boosted_service (p : Planner) (svc : option string) (now_ms : Z) : bool :=
  match boosts p !! svc with Some until => now_ms <? until | None => false end.

Definition process_one (now_ms : Z) (acc : Planner * list LogRecord) (record : LogRecord) : Planner * list LogRecord :=
  if severity record <? min_severity (cfg (fst acc)) then acc
  else
    let '(p, out) := if anomaly_boost (cfg (fst acc)) then watch now_ms record acc else acc in
    if sent_live p record || boosted_service p (service record) now_ms then (p, out ++ [record])
    else (leave_out record now_ms p, out).

Definition process (now_ms : Z) (batch : list LogRecord) (p : Planner) : list LogRecord * Planner :=
  let '(p, out) := foldl (process_one now_ms) (p, []) batch in (out, p).

(** ** Closing buckets and minutes *)



(** One service at the end of a rate bucket: whether it spiked, and its new
    baseline. *)
Definition close_rate (count : Z) (base : f64 * f64 * Z) : bool * (f64 * f64 * Z) :=
  let '(mean, var, n) := base in
  let x := f64_of_Z count in
  let spike :=
    (RATE_WARMUP_BUCKETS <=? n) && f64_ge x (f64_of_Z RATE_MIN_COUNT)
    && f64_gt x (f64_add (f64_add mean (f64_mul (f64_of_Z 4) (f64_sqrt var))) (f64_of_Z 10))
    && f64_ge x (f64_mul (f64_of_Z 3) mean) in
  let alpha := if f64_gt x (f64_mul mean (f64_of_Z 3)) && (RATE_WARMUP_BUCKETS <=? n) then f64_dec 2 2 else f64_dec 2 1 in
  let d := f64_sub x mean in
  let mean' := if n =? 0 then x else f64_add mean (f64_mul alpha d) in
  let var' := if n =? 0 then f64_zero
              else f64_mul (f64_sub (f64_of_Z 1) alpha) (f64_add var (f64_mul (f64_mul alpha d) d)) in
  (spike, (mean', var', n + 1)).

Definition close_rate_bucket (r : Rates) : list (option string * Z * f64) * Rates :=
  let services := elements (dom (counts r) ∪ dom (baselines r) : gset (option string)) in
  let '(spikes, bases) :=
    foldl (fun '(sp, bs) svc =>
      let count := default 0 (counts r !! svc) in
      let base := default (f64_zero, f64_zero, 0) (bs !! svc) in
      let '(spike, base') := close_rate count base in
      (if spike then sp ++ [(svc, count, fst (fst base))] else sp, <[svc := base']> bs))
      ([], baselines r) services in
  (spikes, mkRates (bucket_start_ms r + RATE_BUCKET_MS) ∅ bases).

(** The [while] loop: one turn per finished bucket. *)
Fixpoint close_rate_loop (turns : nat) (now_ms : Z) (r : Rates) : list (option string * Z * f64) * Rates :=
  match turns with
  | O => ([], r)
  | S turns' =>
      if bucket_start_ms r + RATE_BUCKET_MS <=? now_ms then
        let '(s1, r1) := close_rate_bucket r in
        let '(s2, r2) := close_rate_loop turns' now_ms r1 in
        (s1 ++ s2, r2)
      else ([], r)
  end.
Definition close_rate_buckets (now_ms : Z) (r : Rates) : list (option string * Z * f64) * Rates :=
  close_rate_loop (Z.to_nat ((now_ms - bucket_start_ms r) / RATE_BUCKET_MS)) now_ms r.

Definition rate_detail (count : Z) (mean : f64) : string :=
  String.append (show_Z count)
    (String.append " warnings or worse in 10 s, against about "
       (String.append (fmt0 mean) " for a bucket this long")).

Definition str_bytes (s : string) : bytes := list_byte_of_string s.

Definition rollup_id (inst : string) (k : RollupKey) : bytes :=
  take 16 (sha256 (str_bytes inst ++ le_bytes 8 (minute_start_ms k) ++ str_bytes (default "" (rk_service k))
                    ++ le_bytes 8 (rk_template_id k) ++ str_bytes (rk_class k))).

Definition int_attr (k : string) (v : Z) : Attr := mkAttr k (AI64 (Z.min v i64_max)).

Definition rollup_record (inst : string) (k : RollupKey) (a : RollupAcc) : LogRecord :=
  let ns := wmul64 (minute_start_ms k) 1000000 in
  mkRecord (rollup_id inst k) ns ns (max_severity a) (Some "rollup")
    (String.append (show_Z (acc_count a))
       (String.append " similar records were left out of sync (" (String.append (rk_class k) ")")))
    (rk_service k) None None
    [mkAttr "logless.rollup" (ABool true); int_attr "logless.rollup.count" (acc_count a);
     int_attr "logless.rollup.window_ms" ROLLUP_WINDOW_MS; mkAttr "logless.rollup.class" (AStr (rk_class k));
     int_attr "logless.rollup.first_ns" (first_ns a); int_attr "logless.rollup.last_ns" (last_ns a)]
    (if rk_template_id k =? 0 then None else Some (rk_template_id k)).

(** The order of [BTreeMap] keys: the derived [Ord]. *)
Definition option_str_le (a b : option string) : bool :=
  match a, b with
  | None, _ => true
  | Some _, None => false
  | Some x, Some y => String.leb x y
  end.
Definition key_le (a b : RollupKey) : bool :=
  if minute_start_ms a =? minute_start_ms b then
    if bool_decide (rk_service a = rk_service b) then
      if rk_template_id a =? rk_template_id b then String.leb (rk_class a) (rk_class b)
      else rk_template_id a <? rk_template_id b
    else option_str_le (rk_service a) (rk_service b)
  else minute_start_ms a <? minute_start_ms b.

Definition is_due (now_ms : Z) (force : bool) (k : RollupKey) : bool :=
  force || (minute_start_ms k + ROLLUP_WINDOW_MS + ROLLUP_GRACE_MS <=? now_ms).

Definition emit_rollup (acc : Planner * list LogRecord) (k : RollupKey) : Planner * list LogRecord :=
  let '(p, out) := acc in
  match rollups p !! k with
  | Some a =>
      let st := stats p in
      (set_stats (mkPlannerStats (sampled_out st) (rollups_emitted st + 1) (lookback_sent st) (boosts_started st))
         (set_rollups (delete k (rollups p)) p),
       out ++ [rollup_record (instance p) k a])
  | None => (p, out)
  end.

Definition due_keys (now_ms : Z) (force : bool) (p : Planner) : list RollupKey :=
  List.filter (is_due now_ms force) (stable_sort key_le (List.map fst (map_to_list (rollups p)))).

Definition spike (now_ms : Z) (acc : Planner * list LogRecord) (x : option string * Z * f64)
    : Planner * list LogRecord :=
  trigger (fst (fst x)) "rate" (rate_detail (snd (fst x)) (snd x)) true now_ms acc.

(** The anomaly half of a tick. *)
Definition close_buckets (now_ms : Z) (p : Planner) : Planner * list LogRecord :=
  if anomaly_boost (cfg p) then
    let '(spikes, r) := close_rate_buckets now_ms (rates p) in
    let acc := foldl (spike now_ms) (set_rates r p, []) spikes in
    let '(found, sg) := sig_close_buckets now_ms (signals (fst acc)) in
    foldl (finding now_ms) (set_signals sg (fst acc), snd acc) found
  else (p, []).

Definition tick (now_ms : Z) (force : bool) (p : Planner) : list LogRecord * Planner :=
  let '(p, out) := close_buckets now_ms p in
  let p := prune_ring now_ms p in
  let '(p, out) := foldl emit_rollup (p, out) (due_keys now_ms force p) in
  (out, p).

(** ** The dial *)

(** The dial is a stable, nested choice: it never depends on anything but
    the event id, everything sent at one fidelity is sent at every higher one,
    100 sends everything and 0 nothing, and errors are sent whatever it says. *)
Theorem select_nested id f g : 0 <= f <= g ->
  (select id f = true -> select id g = true) /\ select id 100 = true /\ select id 0 = false /\
  forall p record, FULL_FROM <= severity record -> sent_live p record = true.
Proof.
  intros Hfg. split; [|split; [done|split; [done|]]].
  - unfold select. destruct (100 <=? f) eqn:E1, (100 <=? g) eqn:E2; zbool; try lia; try done.
    destruct (f =? 0) eqn:E3; [done|]. destruct (g =? 0) eqn:E4; zbool; [lia|].
    intros H1. zbool. apply Z.ltb_lt. lia.
  - intros p record Hs. unfold sent_live. replace (FULL_FROM <=? severity record) with true by lia. done.
Qed.

(** ** Accounting *)

(** What is counted under one key and not sent yet. *)
Definition pending (p : Planner) (k : RollupKey) : Z :=
  match rollups p !! k with Some a => acc_count a | None => 0 end.

Definition counted (k : RollupKey) (left_ : list LogRecord) : Z :=
  sumZ (fun r => if bool_decide (rollup_key r = k) then 1 else 0) left_.

Definition emitted (k : RollupKey) (rolls : list (RollupKey * RollupAcc)) : Z :=
  sumZ (fun x => if bool_decide (fst x = k) then acc_count (snd x) else 0) rolls.

Definition rollup_records (inst : string) (rolls : list (RollupKey * RollupAcc)) : list LogRecord :=
  List.map (fun x => rollup_record inst (fst x) (snd x)) rolls.

(** A marker, or a record sent only as an anomaly's lead-up. *)
Definition is_extra (r : LogRecord) : bool :=
  existsb (fun a => String.eqb (attr_key a) "logless.anomaly" || String.eqb (attr_key a) ATTR_SUPPLEMENT) (attributes r).

(** What an anomaly leaves alone. *)
Definition undisturbed (p p' : Planner) : Prop :=
  rollups p' = rollups p /\ sampled_out (stats p') = sampled_out (stats p) /\
  rollups_emitted (stats p') = rollups_emitted (stats p) /\ cfg p' = cfg p /\ instance p' = instance p.

Lemma undisturbed_trans a b c : undisturbed a b -> undisturbed b c -> undisturbed a c.
Proof. unfold undisturbed. intros (?&?&?&?&?) (?&?&?&?&?). repeat split; congruence. Qed.

(** [acc'] is [acc] with only extra records added to its output. *)
Definition only_extra (acc acc' : Planner * list LogRecord) : Prop :=
  undisturbed (fst acc) (fst acc') /\
  exists extra, snd acc' = snd acc ++ extra /\ Forall (fun r => is_extra r = true) extra.

Lemma only_extra_refl acc : only_extra acc acc.
Proof. split; [done|]. exists []. by rewrite app_nil_r. Qed.

Lemma only_extra_trans a b c : only_extra a b -> only_extra b c -> only_extra a c.
Proof.
  intros [H1 (e1 & He1 & Hx1)] [H2 (e2 & He2 & Hx2)]. split; [by eapply undisturbed_trans|].
  exists (e1 ++ e2). rewrite He2, He1, app_assoc. split; [done|]. by apply Forall_app.
Qed.

Lemma lookback_extra kind r : is_extra (as_lookback kind r) = true.
Proof. unfold is_extra, as_lookback. cbn [attributes]. rewrite existsb_app. simpl. by rewrite orb_true_r. Qed.

Lemma trigger_extra svc kind detail boost now_ms acc : only_extra acc (trigger svc kind detail boost now_ms acc).
Proof.
  destruct acc as [p out]. unfold trigger.
  set (p1 := if boost then _ else p).
  assert (undisturbed p p1) as H1 by (unfold p1; by destruct boost).
  destruct (_ && negb _).
  { split; [exact H1|]. exists []. by rewrite app_nil_r. }
  destruct (lead_up _ _ _) as [lead keep].
  split; [destruct H1 as (?&?&?&?&?); done|].
  eexists. cbn [snd]. rewrite <- app_assoc. split; [reflexivity|].
  constructor; [done|]. rewrite Forall_map. apply Forall_forall. intros e _. apply lookback_extra.
Qed.

Lemma findings_extra now_ms fs : forall acc, only_extra acc (foldl (finding now_ms) acc fs).
Proof.
  induction fs as [|f fs IH]; intros acc; simpl; [apply only_extra_refl|].
  eapply only_extra_trans; [apply trigger_extra|apply IH].
Qed.

Lemma novelty_extra now_ms record acc : only_extra acc (snd (novelty now_ms record acc)).
Proof.
  unfold novelty. destruct (template_id record) as [t|]; [|apply only_extra_refl].
  destruct (decide _); [apply only_extra_refl|]. cbv zeta. cbn [snd]. set (p1 := if _ <? _ then _ else _).
  assert (only_extra acc (p1, snd acc)) as Hp1.
  { split; [unfold p1; by destruct (_ <? _)|]. exists []. by rewrite app_nil_r. }
  destruct (_ <=? _); [|done]. eapply only_extra_trans; [exact Hp1|apply trigger_extra].
Qed.

Lemma watch_extra now_ms record acc : only_extra acc (watch now_ms record acc).
Proof.
  unfold watch. pose proof (novelty_extra now_ms record acc) as H1.
  destruct (novelty _ _ _) as [fe acc1]. cbn [snd] in H1.
  destruct (sig_observe _ _ _ _) as [found sg].
  pose proof (findings_extra now_ms found (set_signals sg (fst acc1), snd acc1)) as H2.
  destruct (foldl _ _ found) as [p out].
  eapply only_extra_trans; [exact H1|]. eapply only_extra_trans; [|eapply only_extra_trans; [exact H2|]].
  - split; [done|]. exists []. by rewrite app_nil_r.
  - split; [by destruct (_ <=? _)|]. exists []. by rewrite app_nil_r.
Qed.

Lemma leave_out_spec record now_ms p :
  let p' := leave_out record now_ms p in
  (forall k, pending p' k = pending p k + counted k [record]) /\
  sampled_out (stats p') = sampled_out (stats p) + 1 /\ cfg p' = cfg p /\ instance p' = instance p.
Proof.
  unfold leave_out. cbv zeta. set (q := set_rollups _ _).
  assert ((forall k, pending q k = pending p k + counted k [record]) /\
    sampled_out (stats q) = sampled_out (stats p) + 1 /\ cfg q = cfg p /\ instance q = instance p) as Hq.
  { split; [|done]. intros k. unfold q, pending, counted, sumZ. cbn [rollups set_rollups set_stats foldr].
    destruct (decide (rollup_key record = k)) as [<-|Hk].
    - rewrite lookup_insert_eq, bool_decide_eq_true_2 by done. simpl.
      destruct (rollups p !! _); simpl; lia.
    - rewrite lookup_insert_ne, bool_decide_eq_false_2 by done. lia. }
  by destruct (anomaly_boost _).
Qed.

Definition accepted (p : Planner) (batch : list LogRecord) : list LogRecord :=
  List.filter (fun r => min_severity (cfg p) <=? severity r) batch.

(** A record the dial may leave out. *)
Definition below_dial (fid : Z) (r : LogRecord) : Prop :=
  severity r < FULL_FROM /\ select (event_id r) fid = false.

Lemma process_fold now_ms batch : forall p out p' out',
  foldl (process_one now_ms) (p, out) batch = (p', out') ->
  cfg p' = cfg p /\ instance p' = instance p /\
  exists sent left_ new extra,
    Permutation (accepted p batch) (sent ++ left_) /\ out' = out ++ new /\
    Permutation new (sent ++ extra) /\ sublist sent new /\ sublist sent batch /\
    Forall (fun r => is_extra r = true) extra /\ Forall (below_dial (fidelity (cfg p))) left_ /\
    (forall k, pending p' k = pending p k + counted k left_) /\
    sampled_out (stats p') = sampled_out (stats p) + Z.of_nat (List.length left_).
Proof.
  induction batch as [|r batch IH]; intros p out p' out' Hf.
  { injection Hf as <- <-. split; [done|]. split; [done|]. exists [], [], [], [].
    repeat (split; [first [done|by rewrite app_nil_r|by constructor|simpl; lia]|]). simpl. by rewrite Z.add_0_r. }
  simpl in Hf. unfold process_one at 2 in Hf. cbn [fst] in Hf.
  destruct (severity r <? min_severity (cfg p)) eqn:Em; zbool.
  { apply IH in Hf as (H1 & H2 & sent & left_ & new & extra & Ha & Ho & Hn & Hs & Hsb & Hx & Hl & Hp & Hso).
    split; [done|]. split; [done|]. exists sent, left_, new, extra.
    unfold accepted in *. simpl. replace (min_severity (cfg p) <=? severity r) with false by lia.
    repeat (split; [done|]). split; [by constructor|done]. }
  assert (exists q o1 e1, (if anomaly_boost (cfg p) then watch now_ms r (p, out) else (p, out)) = (q, o1) /\
            undisturbed p q /\ o1 = out ++ e1 /\ Forall (fun r => is_extra r = true) e1) as (q & o1 & e1 & Hq & Hu & -> & He1).
  { destruct (anomaly_boost (cfg p)); [|exists p, out, []; by rewrite app_nil_r].
    pose proof (watch_extra now_ms r (p, out)) as [Hu (e & He & Hx)].
    destruct (watch now_ms r (p, out)) as [q o1]. by exists q, o1, e. }
  rewrite Hq in Hf. destruct Hu as (Hu1 & Hu2 & _ & Hu4 & Hu5).
  assert (forall k, pending q k = pending p k) as Hpq by (intros k; unfold pending; by rewrite Hu1).
  unfold accepted in IH |- *. simpl. replace (min_severity (cfg p) <=? severity r) with true by lia.
  destruct (sent_live q r || boosted_service q (service r) now_ms) eqn:Es.
  - apply IH in Hf as (H1 & H2 & sent & left_ & new & extra & Ha & Ho & Hn & Hs & Hsb & Hx & Hl & Hp & Hso).
    rewrite Hu4 in Ha, Hl, H1. rewrite Hu5 in H2. split; [done|]. split; [done|].
    exists (r :: sent), left_, (e1 ++ r :: new), (e1 ++ extra).
    split; [by rewrite Ha|]. split; [by rewrite Ho, <- !app_assoc|]. split.
    { rewrite Hn. simpl. rewrite <- Permutation_middle, !app_assoc. constructor.
      apply Permutation_app_tail, Permutation_app_comm. }
    split; [apply sublist_inserts_l; by constructor|]. split; [by constructor|].
    split; [by apply Forall_app|]. split; [done|]. split; [intros k; by rewrite Hp, Hpq|lia].
  - destruct (leave_out_spec r now_ms q) as (Hl1 & Hl2 & Hl3 & Hl4).
    apply IH in Hf as (H1 & H2 & sent & left_ & new & extra & Ha & Ho & Hn & Hs & Hsb & Hx & Hl & Hp & Hso).
    rewrite Hl3, Hu4 in Ha, Hl, H1. rewrite Hl4, Hu5 in H2. split; [done|]. split; [done|].
    exists sent, (r :: left_), (e1 ++ new), (e1 ++ extra).
    split; [rewrite Ha; by apply Permutation_middle|]. split; [by rewrite Ho, <- !app_assoc|]. split.
    { rewrite Hn, !app_assoc. apply Permutation_app_tail, Permutation_app_comm. }
    split; [by apply sublist_inserts_l|]. split; [by constructor|].
    split; [by apply Forall_app|]. split; [|split; [|simpl List.length; lia]].
    2:{ intros k. specialize (Hp k). specialize (Hl1 k). specialize (Hpq k). revert Hl1. unfold counted in *. simpl. lia. }
    constructor; [|done]. apply orb_false_elim in Es as [Es _]. unfold sent_live in Es.
    apply orb_false_elim in Es as [Es1 Es2]. zbool. rewrite Hu4 in Es2. by split.
Qed.

Lemma emit_fold keys : forall p out p' out', foldl emit_rollup (p, out) keys = (p', out') ->
  cfg p' = cfg p /\ instance p' = instance p /\ sampled_out (stats p') = sampled_out (stats p) /\
  (forall k, rollups p !! k = None \/ k ∈ keys -> rollups p' !! k = None) /\
  exists rolls, out' = out ++ rollup_records (instance p) rolls /\
    forall k, pending p' k + emitted k rolls = pending p k.
Proof.
  induction keys as [|k keys IH]; intros p out p' out' Hf.
  { injection Hf as <- <-. do 3 (split; [done|]). split; [intros k [?|Hk]; [done|by apply not_elem_of_nil in Hk]|].
    exists []. rewrite app_nil_r. split; [done|]. intros k. unfold emitted, sumZ. simpl. lia. }
  simpl in Hf. destruct (rollups p !! k) as [a|] eqn:E.
  - apply IH in Hf as (H1 & H2 & H3 & H4 & rolls & Ho & Hp).
    split; [done|]. split; [done|]. split; [done|]. split.
    + intros k' Hk'. apply H4. cbn [rollups set_stats set_rollups].
      destruct (decide (k' = k)) as [->|Hne]; [left; apply lookup_delete_eq|].
      rewrite lookup_delete_ne by done. destruct Hk' as [?|Hk']; [by left|right].
      apply elem_of_cons in Hk' as [?|?]; done.
    + exists ((k, a) :: rolls). split; [rewrite Ho; simpl; by rewrite <- app_assoc|].
      intros k'. specialize (Hp k'). revert Hp. unfold pending, emitted, sumZ.
      cbn [rollups set_stats set_rollups foldr fst snd]. destruct (decide (k = k')) as [<-|Hne].
      * rewrite lookup_delete_eq, E, bool_decide_eq_true_2 by done. lia.
      * rewrite lookup_delete_ne, (bool_decide_eq_false_2 (k = k')) by done. lia.
  - apply IH in Hf as (H1 & H2 & H3 & H4 & rolls & Ho & Hp).
    split; [done|]. split; [done|]. split; [done|]. split; [|by exists rolls].
    intros k' Hk'. apply H4. destruct Hk' as [?|Hk']; [by left|].
    apply elem_of_cons in Hk' as [->|?]; [by left|by right].
Qed.

Lemma due_keys_all now_ms p k : is_Some (rollups p !! k) -> k ∈ due_keys now_ms true p.
Proof.
  intros [a Ha]. unfold due_keys. apply list_elem_of_In, filter_In. split; [|done].
  apply list_elem_of_In. rewrite stable_sort_perm. apply list_elem_of_In, in_map_iff. exists (k, a).
  split; [done|]. apply list_elem_of_In, elem_of_map_to_list. done.
Qed.

Lemma spikes_extra now_ms xs : forall acc, only_extra acc (foldl (spike now_ms) acc xs).
Proof.
  induction xs as [|x xs IH]; intros acc; [apply only_extra_refl|].
  eapply only_extra_trans; [|apply IH]. apply trigger_extra.
Qed.

Lemma close_buckets_extra now_ms p : only_extra (p, []) (close_buckets now_ms p).
Proof.
  unfold close_buckets. destruct (anomaly_boost (cfg p)); [|apply only_extra_refl].
  destruct (close_rate_buckets now_ms (rates p)) as [xs r].
  pose proof (spikes_extra now_ms xs (set_rates r p, [])) as Hsp.
  destruct (foldl (spike now_ms) (set_rates r p, []) xs) as [p1 o1]. cbn [fst snd].
  destruct (sig_close_buckets _ _) as [found sg].
  eapply only_extra_trans; [exact Hsp|]. eapply only_extra_trans; [|apply findings_extra].
  split; [done|]. exists []. by rewrite app_nil_r.
Qed.

Lemma tick_spec now_ms force p out p' : tick now_ms force p = (out, p') ->
  cfg p' = cfg p /\ instance p' = instance p /\ sampled_out (stats p') = sampled_out (stats p) /\
  (force = true -> rollups p' = ∅) /\
  exists extra rolls, out = extra ++ rollup_records (instance p) rolls /\
    Forall (fun r => is_extra r = true) extra /\
    forall k, pending p' k + emitted k rolls = pending p k.
Proof.
  unfold tick. intros Ht.
  pose proof (close_buckets_extra now_ms p) as [(Hu1 & Hu2 & _ & Hu4 & Hu5) (extra & He & Hx)].
  destruct (close_buckets now_ms p) as [q o]. cbn [fst snd app] in *. subst o.
  destruct (foldl emit_rollup _ _) as [p2 out2] eqn:Ef. injection Ht as <- <-.
  apply emit_fold in Ef as (H1 & H2 & H3 & H4 & rolls & Ho & Hp).
  cbn [cfg instance stats prune_ring set_ring] in *.
  split; [congruence|]. split; [congruence|]. split; [congruence|]. split.
  - intros ->. apply map_eq. intros k. rewrite lookup_empty. apply H4. cbn [rollups prune_ring set_ring].
    destruct (rollups q !! k) eqn:E; [right|by left]. apply due_keys_all. cbn [rollups prune_ring set_ring]. by rewrite E.
  - exists extra, rolls. rewrite Ho, Hu5. split; [done|]. split; [done|].
    intros k. specialize (Hp k). unfold pending in *. cbn [rollups prune_ring set_ring] in Hp. by rewrite <- Hu1.
Qed.

(** ** Exact totals over a run *)

Inductive Step :=
  | Process (now_ms : Z) (batch : list LogRecord)
  | Tick (now_ms : Z) (force : bool)
  | Configure (c : PlannerConfig).

Definition step (s : Step) (p : Planner) : list LogRecord * Planner :=
  match s with
  | Process now_ms batch => process now_ms batch p
  | Tick now_ms force => tick now_ms force p
  | Configure c => ([], set_config c p)
  end.

Fixpoint run (steps : list Step) (p : Planner) : list LogRecord * Planner :=
  match steps with
  | [] => ([], p)
  | s :: rest =>
      let '(o1, p1) := step s p in
      let '(o2, p2) := run rest p1 in
      (o1 ++ o2, p2)
  end.

(** What the steps offer at or above the severity floor of the moment. *)
Fixpoint offered (steps : list Step) (c : PlannerConfig) : list LogRecord :=
  match steps with
  | [] => []
  | Process _ batch :: rest => List.filter (fun r => min_severity c <=? severity r) batch ++ offered rest c
  | Tick _ _ :: rest => offered rest c
  | Configure c' :: rest => offered rest c'
  end.

(** The books of a run: every record offered is sent or left out, each one left
    out is counted under its key, and nothing but rollups and extras is added. *)
Definition balanced (steps : list Step) (p : Planner) (out : list LogRecord) (p' : Planner) : Prop :=
  exists sent left_ extra rolls,
    Permutation (offered steps (cfg p)) (sent ++ left_) /\
    Permutation out (sent ++ rollup_records (instance p) rolls ++ extra) /\
    Forall (fun r => is_extra r = true) extra /\ Forall (fun r => severity r < FULL_FROM) left_ /\
    sampled_out (stats p') = sampled_out (stats p) + Z.of_nat (List.length left_) /\
    forall k, emitted k rolls + pending p' k = pending p k + counted k left_.

Lemma counted_app k a b : counted k (a ++ b) = counted k a + counted k b.
Proof. apply sumZ_app. Qed.
Lemma emitted_app k a b : emitted k (a ++ b) = emitted k a + emitted k b.
Proof. apply sumZ_app. Qed.
Lemma rollup_records_app inst a b : rollup_records inst (a ++ b) = rollup_records inst a ++ rollup_records inst b.
Proof. apply List.map_app. Qed.

Lemma process_balanced now_ms batch p out p' : process now_ms batch p = (out, p') ->
  instance p' = instance p /\ cfg p' = cfg p /\ balanced [Process now_ms batch] p out p'.
Proof.
  unfold process. intros Hf. destruct (foldl _ _ _) as [q o] eqn:E. injection Hf as <- <-.
  apply process_fold in E as (H1 & H2 & sent & left_ & new & extra & Ha & -> & Hn & _ & _ & Hx & Hl & Hp & Hs).
  split; [done|]. split; [done|]. exists sent, left_, extra, []. simpl offered. rewrite app_nil_r.
  repeat (split; [done|]). split; [|split; [done|]].
  - eapply Forall_impl; [exact Hl|]. by intros r [].
  - intros k. rewrite Hp. unfold emitted, sumZ. simpl. lia.
Qed.

Lemma tick_balanced now_ms force p out p' : tick now_ms force p = (out, p') ->
  instance p' = instance p /\ cfg p' = cfg p /\ balanced [Tick now_ms force] p out p'.
Proof.
  intros Ht. apply tick_spec in Ht as (H1 & H2 & H3 & _ & extra & rolls & -> & Hx & Hp).
  split; [done|]. split; [done|]. exists [], [], extra, rolls. split; [done|].
  split; [simpl; apply Permutation_app_comm|]. split; [done|]. split; [constructor|].
  split; [simpl; by rewrite Z.add_0_r|].
  intros k. specialize (Hp k). unfold counted, sumZ. simpl. lia.
Qed.

Lemma configure_balanced c p : balanced [Configure c] p [] (set_config c p).
Proof.
  exists [], [], [], []. repeat split; try constructor; simpl; [lia|].
  intros k. unfold counted, emitted, sumZ, pending. simpl. lia.
Qed.

Lemma run_balanced steps : forall p out p', run steps p = (out, p') -> instance p' = instance p /\ balanced steps p out p'.
Proof.
  induction steps as [|s steps IH]; intros p out p' Hr.
  { injection Hr as <- <-. split; [done|]. exists [], [], [], []. repeat split; try constructor; simpl; [lia|].
    intros k. unfold counted, emitted, sumZ. simpl. lia. }
  simpl in Hr. destruct (step s p) as [o1 p1] eqn:E1. destruct (run steps p1) as [o2 p2] eqn:E2.
  injection Hr as <- <-. apply IH in E2 as [Hi2 Hb2].
  assert (instance p1 = instance p /\ balanced [s] p o1 p1 /\ offered (s :: steps) (cfg p) = offered [s] (cfg p) ++ offered steps (cfg p1))
    as (Hi1 & Hb1 & Ho).
  { destruct s as [now_ms batch|now_ms force|c]; simpl in E1.
    - destruct (process_balanced _ _ _ _ _ E1) as (? & Hc & ?). split; [done|]. split; [done|].
      simpl. by rewrite app_nil_r, Hc.
    - destruct (tick_balanced _ _ _ _ _ E1) as (? & Hc & ?). split; [done|]. split; [done|]. simpl. by rewrite Hc.
    - injection E1 as <- <-. split; [done|]. split; [apply configure_balanced|]. done. }
  split; [congruence|].
  destruct Hb1 as (s1 & l1 & x1 & r1 & A1 & B1 & C1 & D1 & S1 & K1), Hb2 as (s2 & l2 & x2 & r2 & A2 & B2 & C2 & D2 & S2 & K2).
  exists (s1 ++ s2), (l1 ++ l2), (x1 ++ x2), (r1 ++ r2). rewrite Ho, A1, A2, B1, B2, Hi1, rollup_records_app.
  split; [solve_Permutation|]. split; [solve_Permutation|].
  split; [by apply Forall_app|]. split; [by apply Forall_app|].
  rewrite S2, S1, length_app. split; [lia|]. intros k. specialize (K1 k). specialize (K2 k).
  rewrite emitted_app, counted_app. lia.
Qed.

Lemma run_app a b p : run (a ++ b) p =
  let '(o1, p1) := run a p in let '(o2, p2) := run b p1 in (o1 ++ o2, p2).
Proof.
  revert p. induction a as [|s a IH]; intros p; simpl; [by destruct (run b p)|].
  destruct (step s p) as [o p1]. rewrite IH. destruct (run a p1) as [o1 p2]. destruct (run b p2) as [o2 p3].
  by rewrite app_assoc.
Qed.

Lemma offered_tick steps now_ms force c : offered (steps ++ [Tick now_ms force]) c = offered steps c.
Proof. revert c. induction steps as [|[t b|t b|c'] steps IH]; intros c; simpl; [done| |done|done]. by rewrite IH. Qed.

(** C21: Exact totals.  Whatever is processed, however the dial is turned and
    whenever the minutes are closed, once the last minute has been flushed every
    record offered at or above the severity floor was either sent or left out;
    beside those sent, the output holds only rollups and the markers and
    lead-ups of anomalies; nothing left out is an error; and for every minute,
    service, template and class the rollups sent count exactly the records left
    out there. *)
Theorem exact_totals steps now_ms inst c t0 known out p' :
  run (steps ++ [Tick now_ms true]) (new inst c t0 known) = (out, p') ->
  exists sent left_ extra rolls,
    Permutation (offered steps c) (sent ++ left_) /\
    Permutation out (sent ++ rollup_records inst rolls ++ extra) /\
    Forall (fun r => is_extra r = true) extra /\ Forall (fun r => severity r < FULL_FROM) left_ /\
    sampled_out (stats p') = Z.of_nat (List.length left_) /\
    forall k, emitted k rolls = counted k left_.
Proof.
  intros Hr. pose proof (run_balanced _ _ _ _ Hr) as [_ (sent & left_ & extra & rolls & A & B & C & D & S & K)].
  exists sent, left_, extra, rolls. rewrite offered_tick in A. do 5 (split; [done|]).
  intros k. specialize (K k). rewrite run_app in Hr. destruct (run steps _) as [o1 p1]. simpl in Hr.
  destruct (tick now_ms true p1) as [o2 p2] eqn:Et. injection Hr as <- <-.
  apply tick_spec in Et as (_ & _ & _ & Hall & _).
  revert K. unfold pending at 1. rewrite (Hall eq_refl), lookup_empty. unfold pending. cbn [rollups new].
  rewrite lookup_empty. lia.
Qed.

(** With anomaly boosting off, what [process] sends is exactly the records
    at or above the floor that the dial (or a boost still running) lets
    through, in the order given. *)
Theorem process_without_boost now_ms batch p : anomaly_boost (cfg p) = false ->
  fst (process now_ms batch p) =
    List.filter (fun r => (min_severity (cfg p) <=? severity r) &&
                          (sent_live p r || boosted_service p (service r) now_ms)) batch.
Proof.
  intros Hb. unfold process.
  cut (forall q out, cfg q = cfg p -> boosts q = boosts p ->
    snd (foldl (process_one now_ms) (q, out) batch) = out ++ List.filter (fun r => (min_severity (cfg p) <=? severity r) &&
                          (sent_live p r || boosted_service p (service r) now_ms)) batch).
  { intros Hc. specialize (Hc p [] eq_refl eq_refl). by destruct (foldl _ _ _). }
  induction batch as [|r batch IH]; intros q out Hc Hq; simpl; [by rewrite app_nil_r|].
  unfold process_one at 2. cbn [fst]. rewrite Hc, Hb.
  replace (sent_live q r) with (sent_live p r) by (unfold sent_live; by rewrite Hc).
  replace (boosted_service q (service r) now_ms) with (boosted_service p (service r) now_ms)
    by (unfold boosted_service; by rewrite Hq).
  destruct (severity r <? min_severity (cfg p)) eqn:Em; zbool.
  - replace (min_severity (cfg p) <=? severity r) with false by lia. by apply IH.
  - replace (min_severity (cfg p) <=? severity r) with true by lia. simpl.
    destruct (_ || _); rewrite IH; try done.
    + by rewrite <- app_assoc.
    + unfold leave_out. cbv zeta. cbn [cfg boosts set_rollups set_stats]. destruct (anomaly_boost (cfg q)); exact Hc.
    + unfold leave_out. cbv zeta. cbn [cfg boosts set_rollups set_stats]. destruct (anomaly_boost (cfg q)); exact Hq.
Qed.

(** (finding) the id of a rollup is a hash of its key alone.  When a record of
    a minute arrives after that minute's rollup was sent, the minute gets a
    second rollup under the same id; each counts one record, and a receiver that
    keeps one record per id, as the peer does, counts one of the two left out. *)
Theorem late_rollups_share_an_id inst known r1 r2 t0 t1 t2 t3 :
  let c := mkPlannerConfig 0 0 false in
  rollup_key r2 = rollup_key r1 -> 0 <= severity r1 < FULL_FROM -> 0 <= severity r2 < FULL_FROM ->
  is_due t1 false (rollup_key r1) = true -> t1 <= t3 ->
  exists a b, fst (run [Process t0 [r1]; Tick t1 false; Process t2 [r2]; Tick t3 false] (new inst c t0 known)) = [a; b] /\
    event_id a = event_id b /\
    forall x, x ∈ [a; b] -> In (int_attr "logless.rollup.count" 1) (attributes x).
Proof.
  intros c Hk H1 H2 Hd Ht.
  assert (is_due t3 false (rollup_key r1) = true) as Hd3 by (revert Hd; unfold is_due; simpl; intros; zbool; apply Z.leb_le; lia).
  set (key := rollup_key r1) in *.
  assert (forall t r p, cfg p = c -> boosts p = ∅ -> rollups p = ∅ -> 0 <= severity r < FULL_FROM -> rollup_key r = key ->
    process t [r] p = ([], leave_out r t p) /\ cfg (leave_out r t p) = c /\ boosts (leave_out r t p) = ∅ /\
    instance (leave_out r t p) = instance p /\
    exists a, rollups (leave_out r t p) = {[ key := a ]} /\ acc_count a = 1) as Hp.
  { intros t r p Hc Hbo Hro Hs Hkr. split; [|unfold leave_out; cbv zeta; cbn [cfg set_rollups set_stats]; rewrite Hc; simpl].
    - unfold process. simpl. unfold process_one. cbn [fst]. rewrite Hc. simpl anomaly_boost. cbv iota.
      replace (severity r <? min_severity c) with false by (simpl; lia).
      unfold sent_live, boosted_service. rewrite Hc, Hbo, lookup_empty.
      replace (FULL_FROM <=? severity r) with false by lia. done.
    - rewrite Hro, Hkr, lookup_empty. repeat (split; [done|]). eexists. split; [reflexivity|done]. }
  assert (forall t p a, cfg p = c -> rollups p = {[ key := a ]} -> is_due t false key = true ->
    exists p', tick t false p = ([rollup_record (instance p) key a], p') /\ cfg p' = c /\ boosts p' = boosts p /\
      rollups p' = ∅ /\ instance p' = instance p) as Htk.
  { intros t p a Hc Hro Hdue. unfold tick, close_buckets. rewrite Hc. simpl anomaly_boost. cbv iota.
    replace (due_keys t false (prune_ring t p)) with [key].
    2:{ unfold due_keys. cbn [rollups prune_ring set_ring]. rewrite Hro, map_to_list_singleton. cbn [List.map fst].
        change (stable_sort key_le [key]) with [key]. cbn [List.filter]. by rewrite Hdue. }
    simpl. rewrite Hro, lookup_singleton_eq. eexists. split; [done|]. split; [exact Hc|]. split; [done|]. split; [apply delete_singleton_eq|done]. }
  destruct (Hp t0 r1 (new inst c t0 known)) as (E1 & C1 & B1 & I1 & a & R1 & A1); [done..|].
  destruct (Htk t1 _ a C1 R1 Hd) as (p2 & E2 & C2 & B2 & R2 & I2).
  destruct (Hp t2 r2 p2) as (E3 & C3 & B3 & I3 & b & R3 & A3); [done|by rewrite B2|done..|].
  destruct (Htk t3 _ b C3 R3 Hd3) as (p4 & E4 & _ & _ & _ & I4).
  exists (rollup_record inst key a), (rollup_record inst key b).
  split. { cbn [run step]. rewrite E1, E2, E3, E4. simpl. by rewrite I3, I2, I1. }
  split; [done|]. intros x Hx. apply elem_of_cons in Hx as [->|Hx]; [|apply list_elem_of_singleton in Hx as ->];
    cbn [attributes rollup_record]; rewrite ?A1, ?A3; simpl; auto.
Qed.

(** ** Memory *)

Definition bounded (p : Planner) : Prop :=
  Z.of_nat (List.length (ring p)) <= RING_MAX /\ Z.of_nat (List.length (anomalies p)) <= ANOMALY_LOG /\
  Z.of_nat (size (seen p)) <= SEEN_MAX.

Lemma cap_front_length {A} max (l : list A) : 0 <= max -> Z.of_nat (List.length (cap_front max l)) <= max.
Proof. intros Hm. unfold cap_front. rewrite length_drop. lia. Qed.

Lemma drop_old_length now_ms r : (List.length (drop_old now_ms r) <= List.length r)%nat.
Proof. induction r as [|[a x] r IH]; simpl; [lia|]. destruct (_ <? _); simpl; lia. Qed.

Lemma keep_length boost svc r : (List.length (snd (lead_up boost svc r)) <= List.length r)%nat.
Proof.
  unfold lead_up. destruct (List.partition _ r) as [a b] eqn:E. apply List.partition_length in E. simpl. lia.
Qed.

Lemma trigger_bounded svc kind detail boost now_ms acc :
  bounded (fst acc) -> bounded (fst (trigger svc kind detail boost now_ms acc)).
Proof.
  destruct acc as [p out]. cbn [fst]. intros Hb. unfold trigger.
  set (p1 := if boost then _ else p).
  assert (bounded p1) as (H1 & H2 & H3) by (unfold p1; by destruct boost).
  destruct (_ && negb _); [done|].
  pose proof (keep_length boost svc (drop_old now_ms (ring p1))) as Hk.
  pose proof (drop_old_length now_ms (ring p1)) as Hd. cbn [ring prune_ring set_ring set_last_anomaly].
  destruct (lead_up _ _ _) as [lead keep]. cbn [fst snd] in *.
  split; [cbn; lia|]. split; [|exact H3]. cbn [anomalies set_anomalies]. by apply cap_front_length.
Qed.

Lemma findings_bounded now_ms fs acc : bounded (fst acc) -> bounded (fst (foldl (finding now_ms) acc fs)).
Proof. apply (foldl_preserves (fun acc => bounded (fst acc))). intros a f. apply trigger_bounded. Qed.

Lemma novelty_bounded now_ms record acc : bounded (fst acc) -> bounded (fst (snd (novelty now_ms record acc))).
Proof.
  intros Hb. unfold novelty. destruct (template_id record) as [t|]; [|done].
  destruct (decide _) as [|Hn]; [done|]. cbv zeta. cbn [snd].
  set (p1 := if _ <? _ then _ else _).
  assert (bounded p1) as Hp1.
  { unfold p1. destruct (_ <? _) eqn:E; [|done]. zbool. destruct Hb as (H1 & H2 & H3). split; [done|]. split; [done|].
    cbn [seen set_seen]. rewrite size_union by set_solver. rewrite size_singleton. lia. }
  destruct (_ <=? _); [by apply trigger_bounded|done].
Qed.

Lemma process_one_bounded now_ms acc record : bounded (fst acc) -> bounded (fst (process_one now_ms acc record)).
Proof.
  intros Hb. unfold process_one. destruct (_ <? _); [done|].
  assert (bounded (fst (if anomaly_boost (cfg (fst acc)) then watch now_ms record acc else acc))) as Hw.
  { destruct (anomaly_boost _); [|done]. unfold watch. pose proof (novelty_bounded now_ms record acc Hb) as Hn.
    destruct (novelty _ _ _) as [fe acc1]. cbn [snd] in Hn. destruct (sig_observe _ _ _ _) as [found sg].
    pose proof (findings_bounded now_ms found (set_signals sg (fst acc1), snd acc1) Hn) as Hf.
    destruct (foldl _ _ _) as [p out]. by destruct (_ <=? _). }
  destruct (if anomaly_boost _ then _ else _) as [p out]. destruct (_ || _); [done|]. cbn [fst] in *.
  destruct Hw as (H1 & H2 & H3). unfold leave_out. cbv zeta. destruct (anomaly_boost _); [|done].
  split; [|done]. cbn [ring set_ring]. by apply cap_front_length.
Qed.

Lemma tick_bounded now_ms force p : bounded p -> bounded (snd (tick now_ms force p)).
Proof.
  intros Hb. unfold tick.
  assert (bounded (fst (close_buckets now_ms p))) as Hc.
  { unfold close_buckets. destruct (anomaly_boost _); [|done].
    destruct (close_rate_buckets _ _) as [xs r].
    assert (bounded (fst (foldl (spike now_ms) (set_rates r p, []) xs))) as Hs.
    { apply (foldl_preserves (fun acc => bounded (fst acc))); [|done]. intros a x. apply trigger_bounded. }
    destruct (sig_close_buckets _ _) as [found sg]. by apply findings_bounded. }
  destruct (close_buckets now_ms p) as [q out]. cbn [fst] in Hc.
  assert (bounded (prune_ring now_ms q)) as Hq.
  { destruct Hc as (H1 & H2 & H3). split; [|done]. cbn [ring prune_ring set_ring].
    pose proof (drop_old_length now_ms (ring q)). lia. }
  pose proof (foldl_preserves (fun acc => bounded (fst acc)) emit_rollup (due_keys now_ms force (prune_ring now_ms q))
    (fun a k => ltac:(intros Ha; unfold emit_rollup; destruct a as [p' o]; by destruct (rollups p' !! k)))
    (prune_ring now_ms q, out) Hq) as He.
  by destruct (foldl emit_rollup _ _).
Qed.

(** The planner's memory is bounded: whatever it processes, the lead-up ring
    holds at most [RING_MAX] records, the anomaly log [ANOMALY_LOG] entries and
    the novelty set [SEEN_MAX] templates. *)
Theorem planner_memory_bounded steps inst c t0 known :
  bounded (snd (run steps (new inst c t0 known))).
Proof.
  assert (bounded (new inst c t0 known)) as H0.
  { split; [done|]. split; [done|]. cbn [seen new]. etrans; [apply inj_le, size_list_to_set_le|].
    rewrite length_take. unfold SEEN_MAX. lia. }
  revert H0. generalize (new inst c t0 known). induction steps as [|s steps IH]; intros p Hp; [done|].
  simpl. assert (bounded (snd (step s p))) as Hs.
  { destruct s as [now_ms batch|now_ms force|c']; [|by apply tick_bounded|done]. simpl. unfold process.
    pose proof (foldl_preserves (fun acc => bounded (fst acc)) (process_one now_ms) batch
      (process_one_bounded now_ms) (p, []) Hp) as Hf. by destruct (foldl _ _ _). }
  destruct (step s p) as [o1 p1]. cbn [snd] in Hs. specialize (IH p1 Hs). by destruct (run steps p1).
Qed.
End Planner.

(** The turns given to the [while] loop of [close_rate_buckets] are enough:
    when it returns, no finished bucket is left. *)
Lemma close_rate_loop_done now_ms turns : forall r,
  (Z.to_nat ((now_ms - bucket_start_ms r) / RATE_BUCKET_MS) <= turns)%nat ->
  now_ms < bucket_start_ms (snd (close_rate_loop turns now_ms r)) + RATE_BUCKET_MS.
Proof.
  unfold RATE_BUCKET_MS. induction turns as [|turns IH]; intros r Ht.
  - simpl. pose proof (Z.div_mod (now_ms - bucket_start_ms r) 10000). pose proof (Z.mod_pos_bound (now_ms - bucket_start_ms r) 10000).
    lia.
  - simpl. unfold RATE_BUCKET_MS. destruct (_ <=? _) eqn:E; zbool; [|simpl; lia].
    unfold close_rate_bucket. destruct (foldl _ _ _) as [sp bs].
    match goal with |- context [close_rate_loop turns now_ms ?x] => specialize (IH x) end.
    destruct (close_rate_loop _ _ _) as [s2 r2]. apply IH. cbn [bucket_start_ms]. unfold RATE_BUCKET_MS.
    replace (now_ms - (bucket_start_ms r + 10000)) with (now_ms - bucket_start_ms r + -1 * 10000) by lia.
    rewrite Z.div_add by lia.
    assert (1 <= (now_ms - bucket_start_ms r) / 10000) by (apply Z.div_le_lower_bound; lia). lia.
Qed.

(** A tick leaves no finished rate bucket open. *)
Theorem close_rate_buckets_complete now_ms r :
  now_ms < bucket_start_ms (snd (close_rate_buckets now_ms r)) + RATE_BUCKET_MS.
Proof. by apply close_rate_loop_done. Qed.

(** ** Witnesses *)

#[local] Instance no_signals : Signals unit :=
  {| sig_new _ _ := tt; sig_observe _ _ _ s := ([], s); sig_close_buckets _ s := ([], s) |}.

Definition example_record (lo sev obs : Z) : LogRecord :=
  mkRecord (le_bytes 8 0 ++ le_bytes 8 lo) obs obs sev None "ok" (Some "api") None None [] (Some 7).

Definition example_config : PlannerConfig := mkPlannerConfig 50 5 true.
Definition example_steps : list Step :=
  [Process 120000 [example_record 1 9 120000000000; example_record 2 9 120000000000; example_record 3 1 120000000000];
   Tick 130000 false; Process 140000 [example_record 4 17 140000000000; example_record 5 9 140000000000]].

Lemma select_nested_witness :
  0 <= 20 <= 60 /\ (select (event_id (example_record 1 9 0)) 20 = true -> select (event_id (example_record 1 9 0)) 60 = true).
Proof.
  split; [lia|]. apply (@select_nested unit (event_id (example_record 1 9 0)) 20 60). lia.
Defined.

Lemma exact_totals_witness :
  let r := run id (fun _ => []) (example_steps ++ [Tick 200000 true]) (new "agent" example_config 0 [7]) in
  exists sent left_ extra rolls,
    Permutation (offered example_steps example_config) (sent ++ left_) /\
    Permutation (fst r) (sent ++ rollup_records id "agent" rolls ++ extra) /\
    Forall (fun r => is_extra r = true) extra /\ Forall (fun r => severity r < FULL_FROM) left_ /\
    sampled_out (stats (snd r)) = Z.of_nat (List.length left_) /\
    forall k, emitted k rolls = counted k left_.
Proof. intros r. apply (exact_totals id (fun _ => []) example_steps 200000 "agent" example_config 0 [7]). apply surjective_pairing. Defined.

Lemma process_without_boost_witness :
  let p := new "agent" (mkPlannerConfig 50 5 false) 0 [7] in
  let batch := [example_record 1 9 0; example_record 2 9 0; example_record 3 1 0; example_record 4 17 0] in
  fst (process (fun _ => []) 0 batch p) =
    List.filter (fun r => (5 <=? severity r) && (sent_live p r || boosted_service p (service r) 0)) batch.
Proof. intros p batch. apply (process_without_boost (fun _ => []) 0 batch p). reflexivity. Defined.

Lemma late_rollups_share_an_id_witness :
  exists a b, fst (run id (fun _ => [])
      [Process 125000 [example_record 1 9 120000000000]; Tick 186000 false;
       Process 187000 [example_record 2 9 121000000000]; Tick 190000 false]
      (new "agent" (mkPlannerConfig 0 0 false) 0 [])) = [a; b] /\
    event_id a = event_id b /\ forall x, x ∈ [a; b] -> In (int_attr "logless.rollup.count" 1) (attributes x).
Proof.
  pose proof (late_rollups_share_an_id id (fun _ => []) "agent" [] (example_record 1 9 120000000000)
           (example_record 2 9 121000000000) 125000 186000 187000 190000) as Hf.
  cbv zeta in Hf. apply Hf; first [reflexivity | cbn; unfold FULL_FROM; lia].
Defined.
