(* ===== verification/SyncSignals.v ===== *)
(** What else the sender watches for: the detectors of
    [crates/logless-core/src/sync_signals.rs], each with a baseline learned from
    the instance's own traffic.  They implement the class [Signals] that the
    planner of [SyncPolicy] is verified against.  The iteration order of a
    [HashMap] is unspecified; the model fixes one ([map_to_list]), and no
    theorem depends on it. *)

From S2P Require Import Prelude Text Float Model Lists SyncPolicy.
From Stdlib Require Import SpecFloat.
Open Scope Z_scope.
Open Scope list_scope.

Definition BUCKET_MS : Z := 10000.
Definition WARMUP_BUCKETS : Z := 6.
Definition DRIFT_WARMUP_BUCKETS : Z := 12.
Definition MAX_KEYS : Z := 10000.
Definition MAX_PER_BUCKET : Z := 20000.
Definition MAX_TRACES : Z := 20000.
Definition MAX_SET : Z := 200000.
Definition LEARN_MS : Z := 60000.
Definition TEMPLATE_RATE_MIN : f64 := f64_of_Z 30.
Definition SILENCE_MIN_MEAN : f64 := f64_of_Z 3.
Definition SERVICE_SILENCE_MIN_MEAN : f64 := f64_of_Z 5.
Definition SILENCE_BUCKETS : Z := 6.
Definition SHARE_MIN_TOTAL : Z := 20.
Definition SHARE_MIN_ERRORS : Z := 5.
Definition DRIFT_MIN_VALUES : Z := 10.
Definition DRIFT_SLOTS : nat := 3.
Definition FORGET_AFTER_QUIET : Z := 360.
Definition ERROR_SEVERITY : Z := 17.

Abbreviation Key := (option string * Z)%type.
Abbreviation NumKey := (option string * Z * Z)%type.

(** ** Baselines *)

Record Baseline := mkBaseline { mean : f64; var : f64; n : Z }.
Definition baseline_default : Baseline := mkBaseline f64_zero f64_zero 0.
Definition sd (b : Baseline) : f64 := f64_sqrt (var b).

Definition update (x : f64) (slow : bool) (b : Baseline) : Baseline :=
  let alpha := if slow && (WARMUP_BUCKETS <=? n b) then f64_dec 2 2 else f64_dec 2 1 in
  if n b =? 0 then mkBaseline x f64_zero (n b + 1)
  else
    let d := f64_sub x (mean b) in
    mkBaseline (f64_add (mean b) (f64_mul alpha d))
      (f64_mul (f64_sub (f64_of_Z 1) alpha) (f64_add (var b) (f64_mul (f64_mul alpha d) d))) (n b + 1).

Record Tracked := mkTracked { base : Baseline; quiet : Z; flagged : bool }.
Definition tracked_default : Tracked := mkTracked baseline_default 0 false.

Record Bucket := mkBucket {
  template : gmap Key Z;
  template_severity : gmap Key Z;
  service_total : gmap (option string) Z;
  service_errors : gmap (option string) Z;
  numbers_seen : gmap NumKey (f64 * Z)
}.
Definition bucket_default : Bucket := mkBucket ∅ ∅ ∅ ∅ ∅.

Record Signals := mkSignals {
  bucket_start_ms : Z;
  bucket : Bucket;
  templates : gmap Key Tracked;
  services : gmap (option string) Tracked;
  share : gmap (option string) Baseline;
  drift : gmap NumKey Baseline;
  pairs : gset Key;
  pairs_learn_until_ms : Z;
  bigrams : gset (option string * Z * Z);
  bigrams_learn_until_ms : Z;
  traces : gmap bytes Z;
  trace_order : list bytes
}.

Definition set_bucket_start_ms (v : Z) (s : Signals) : Signals :=
  mkSignals v (bucket s) (templates s) (services s) (share s) (drift s) (pairs s) (pairs_learn_until_ms s) (bigrams s) (bigrams_learn_until_ms s) (traces s) (trace_order s).
Definition set_bucket (v : Bucket) (s : Signals) : Signals :=
  mkSignals (bucket_start_ms s) v (templates s) (services s) (share s) (drift s) (pairs s) (pairs_learn_until_ms s) (bigrams s) (bigrams_learn_until_ms s) (traces s) (trace_order s).
Definition set_templates (v : gmap Key Tracked) (s : Signals) : Signals :=
  mkSignals (bucket_start_ms s) (bucket s) v (services s) (share s) (drift s) (pairs s) (pairs_learn_until_ms s) (bigrams s) (bigrams_learn_until_ms s) (traces s) (trace_order s).
Definition set_services (v : gmap (option string) Tracked) (s : Signals) : Signals :=
  mkSignals (bucket_start_ms s) (bucket s) (templates s) v (share s) (drift s) (pairs s) (pairs_learn_until_ms s) (bigrams s) (bigrams_learn_until_ms s) (traces s) (trace_order s).
Definition set_share (v : gmap (option string) Baseline) (s : Signals) : Signals :=
  mkSignals (bucket_start_ms s) (bucket s) (templates s) (services s) v (drift s) (pairs s) (pairs_learn_until_ms s) (bigrams s) (bigrams_learn_until_ms s) (traces s) (trace_order s).
Definition set_drift (v : gmap NumKey Baseline) (s : Signals) : Signals :=
  mkSignals (bucket_start_ms s) (bucket s) (templates s) (services s) (share s) v (pairs s) (pairs_learn_until_ms s) (bigrams s) (bigrams_learn_until_ms s) (traces s) (trace_order s).
Definition set_pairs (v : gset Key) (s : Signals) : Signals :=
  mkSignals (bucket_start_ms s) (bucket s) (templates s) (services s) (share s) (drift s) v (pairs_learn_until_ms s) (bigrams s) (bigrams_learn_until_ms s) (traces s) (trace_order s).
Definition set_bigrams (v : gset (option string * Z * Z)) (s : Signals) : Signals :=
  mkSignals (bucket_start_ms s) (bucket s) (templates s) (services s) (share s) (drift s) (pairs s) (pairs_learn_until_ms s) v (bigrams_learn_until_ms s) (traces s) (trace_order s).
Definition set_traces (t : gmap bytes Z) (o : list bytes) (s : Signals) : Signals :=
  mkSignals (bucket_start_ms s) (bucket s) (templates s) (services s) (share s) (drift s) (pairs s)
    (pairs_learn_until_ms s) (bigrams s) (bigrams_learn_until_ms s) t o.

(** [Signals::new] from the set its iterator collects to. *)
Definition new_from (now_ms : Z) (pairs : gset Key) : Signals :=
  mkSignals (now_ms - now_ms mod BUCKET_MS) bucket_default ∅ ∅ ∅ ∅ pairs
    (if decide (pairs = ∅) then now_ms + LEARN_MS else now_ms) ∅ (now_ms + LEARN_MS) ∅ [].
Definition new (now_ms : Z) (known_pairs : list Key) : Signals :=
  new_from now_ms (list_to_set (take (Z.to_nat MAX_SET) known_pairs)).

(** ** Texts *)

Definition name (service : option string) : string := default "(no service)" service.

(** The numbers in a log line. *)
Definition dquote : ascii := ascii_of_N 34.
Definition opening (c : ascii) : bool := one_of "(['" c || Ascii.eqb c dquote.
Definition closing (c : ascii) : bool := one_of ")],;.'" c || Ascii.eqb c dquote.
Definition number_of (token : string) : option f64 :=
  let value := match rsplit_once "="%char token with Some (_, v) => v | None => token end in
  let value := trim_end_by closing (trim_start_by opening value) in
  let digits := trim_end_by (fun c => is_alpha c || Ascii.eqb c "%"%char) value in
  match digits with
  | EmptyString => None
  | String c _ =>
      if is_digit c || Ascii.eqb c "-"%char then
        match parse_f64 digits with
        | Some v => if f64_finite v then Some v else None
        | None => None
        end
      else None
  end.
Definition numbers (body : string) : list f64 := omap number_of (take 64 (split_whitespace body)).

Example numbers_units : numbers "took 120ms size=4096 (code 05)" = [f64_of_Z 120; f64_of_Z 4096; f64_of_Z 5].
Proof. vm_compute. reflexivity. Qed.
Example numbers_not : numbers "/var/log 12:30:45 a1b2 -" = [].
Proof. vm_compute. reflexivity. Qed.

(** [{:.2}] and [{:.1}]: the exact value rounded to even at [k] decimals. *)
Definition fmt_fixed (k : nat) (f : f64) : string :=
  match f with
  | S754_nan => "NaN"
  | S754_infinity s => if s then "-inf" else "inf"
  | S754_zero s | S754_finite s _ _ =>
      let scaled := match f with
                    | S754_finite _ m e => S754_finite false (m * Z.to_pos (10 ^ Z.of_nat k)) e
                    | _ => f
                    end in
      let q := f64_round_even scaled in
      String.append (if s then "-" else "")
        (String.append (show_Z (q / 10 ^ Z.of_nat k)) (String "." (pad0 k (q mod 10 ^ Z.of_nat k))))
  end.
Example fmt_fixed_half : fmt_fixed 2 (f64_dec 12345 3) = "12.35" /\ fmt_fixed 1 (f64_dec 5 2) = "0.1".
Proof. vm_compute. done. Qed.

Definition f64_abs (f : f64) : f64 := SFabs f.
Definition short (v : f64) : string :=
  if f64_ge (f64_abs v) (f64_of_Z 100) || f64_eq (f64_sub v (f64_of_Z (f64_trunc v))) f64_zero then fmt0 v
  else fmt_fixed 2 v.

Fixpoint cat (l : list string) : string :=
  match l with [] => "" | s :: r => String.append s (cat r) end.

(** ** Observing a record *)

Definition finding_of (svc : option string) (kind detail : string) (boost : bool) : Finding :=
  mkFinding svc kind detail boost.

Definition count_service (svc : option string) (sev : Z) (b : Bucket) : Bucket :=
  if (Z.of_nat (size (service_total b)) <? MAX_PER_BUCKET) || bool_decide (is_Some (service_total b !! svc)) then
    mkBucket (template b) (template_severity b)
      (<[svc := default 0 (service_total b !! svc) + 1]> (service_total b))
      (if ERROR_SEVERITY <=? sev then <[svc := default 0 (service_errors b !! svc) + 1]> (service_errors b)
       else service_errors b)
      (numbers_seen b)
  else b.

Definition add_number (svc : option string) (t : Z) (m : gmap NumKey (f64 * Z)) (x : Z * f64) : gmap NumKey (f64 * Z) :=
  let '(slot, value) := x in
  let '(sum, count) := default (f64_zero, 0) (m !! (svc, t, slot)) in
  <[(svc, t, slot) := (f64_add sum value, count + 1)]> m.

Definition count_template (svc : option string) (t sev : Z) (body : string) (b : Bucket) : Bucket :=
  let key := (svc, t) in
  if (Z.of_nat (size (template b)) <? MAX_PER_BUCKET) || bool_decide (is_Some (template b !! key)) then
    let slots := take DRIFT_SLOTS (imap (fun i v => (Z.of_nat i, v)) (numbers body)) in
    mkBucket (<[key := default 0 (template b !! key) + 1]> (template b))
      (<[key := Z.max (default 0 (template_severity b !! key)) sev]> (template_severity b))
      (service_total b) (service_errors b)
      (foldl (add_number svc t) (numbers_seen b) slots)
  else b.

Definition new_pair_finding (svc : option string) (t : Z) : Finding :=
  finding_of svc "new_pair" (cat ["template "; show_Z t; " appeared in "; name svc; " for the first time"]) true.
Definition flow_finding (svc : option string) (prev t : Z) : Finding :=
  finding_of svc "flow"
    (cat ["a call sequence never seen before in "; name svc; ": template "; show_Z prev; " then template "; show_Z t]) true.

Definition insert_below {A} `{Countable A} (max : Z) (a : A) (X : gset A) : gset A :=
  if Z.of_nat (size X) <? max then {[a]} ∪ X else X.

Definition observe_pair (now_ms : Z) (svc : option string) (t : Z) (first_ever : bool) (s : Signals) : list Finding * Signals :=
  if decide ((svc, t) ∈ pairs s) then ([], s)
  else
    (if negb first_ever && (pairs_learn_until_ms s <=? now_ms) then [new_pair_finding svc t] else [],
     set_pairs (insert_below MAX_SET (svc, t) (pairs s)) s).

(** The last template of each trace, with the oldest trace forgotten over the cap. *)
Definition note_trace (trace : bytes) (t : Z) (s : Signals) : option Z * Signals :=
  let previous := traces s !! trace in
  let m := <[trace := t]> (traces s) in
  match previous with
  | Some p => (Some p, set_traces m (trace_order s) s)
  | None =>
      let order := trace_order s ++ [trace] in
      if MAX_TRACES <? Z.of_nat (List.length order) then
        match order with
        | old :: order' => (None, set_traces (delete old m) order' s)
        | [] => (None, set_traces m order s)
        end
      else (None, set_traces m order s)
  end.

Definition observe_trace (now_ms : Z) (svc : option string) (t : Z) (first_ever : bool) (trace : bytes) (s : Signals)
    : list Finding * Signals :=
  let '(previous, s) := note_trace trace t s in
  match previous with
  | Some prev =>
      if prev =? t then ([], s)
      else if decide ((svc, prev, t) ∈ bigrams s) then ([], s)
      else
        (if negb first_ever && (bigrams_learn_until_ms s <=? now_ms) then [flow_finding svc prev t] else [],
         set_bigrams (insert_below MAX_SET (svc, prev, t) (bigrams s)) s)
  | None => ([], s)
  end.

Definition observe (now_ms : Z) (record : LogRecord) (first_ever : bool) (s : Signals) : list Finding * Signals :=
  let svc := service record in
  let s := set_bucket (count_service svc (severity record) (bucket s)) s in
  match template_id record with
  | None => ([], s)
  | Some t =>
      let s := set_bucket (count_template svc t (severity record) (body record) (bucket s)) s in
      let '(f1, s) := observe_pair now_ms svc t first_ever s in
      match trace_id record with
      | Some trace =>
          let '(f2, s) := observe_trace now_ms svc t first_ever trace s in
          (f1 ++ f2, s)
      | None => (f1, s)
      end
  end.

(** ** Closing a bucket *)

(** An entry that may be made only under the cap: [continue] otherwise. *)
Definition room {K A} `{Countable K} (k : K) (m : gmap K A) : bool :=
  bool_decide (is_Some (m !! k)) || (Z.of_nat (size m) <? MAX_KEYS).

Definition appeared_service (acc : gmap (option string) Tracked) (x : option string * Z) : gmap (option string) Tracked :=
  let '(svc, count) := x in
  if room svc acc then
    let t := default tracked_default (acc !! svc) in
    <[svc := mkTracked (update (f64_of_Z count) false (base t)) 0 false]> acc
  else acc.

Definition service_silence (svc : option string) (q : Z) (m : f64) : Finding :=
  finding_of svc "silence"
    (cat [name svc; " has sent nothing for "; show_Z (q * BUCKET_MS / 1000); " s; it normally sends about "; fmt0 m;
          " records every "; show_Z (BUCKET_MS / 1000); " s"]) false.

(** One quiet bucket of something tracked: its new state, and whether it has
    just fallen silent. *)
Definition quiet_step (min_mean : f64) (muted : bool) (t : Tracked) : Tracked * bool :=
  let q := quiet t + 1 in
  let b := if f64_lt (mean (base t)) min_mean then update f64_zero false (base t) else base t in
  let silent := f64_ge (mean b) min_mean && (SILENCE_BUCKETS <=? q) && negb (flagged t) && negb muted in
  (mkTracked b q (flagged t || silent), silent).

Definition quiet_service (total : gmap (option string) Z) (acc : gmap (option string) Tracked * list Finding)
    (x : option string * Tracked) : gmap (option string) Tracked * list Finding :=
  let '(svc, t) := x in
  if decide (is_Some (total !! svc)) then acc
  else
    let '(t', silent) := quiet_step SERVICE_SILENCE_MIN_MEAN false t in
    (<[svc := t']> (fst acc),
     if silent then snd acc ++ [service_silence svc (quiet t') (mean (base t'))] else snd acc).

Definition forgettable (min_mean : f64) (t : Tracked) : bool :=
  (FORGET_AFTER_QUIET <=? quiet t) && f64_lt (mean (base t)) min_mean.

Definition close_services (b : Bucket) (s : Signals) : list Finding * Signals :=
  let m := foldl appeared_service (services s) (map_to_list (service_total b)) in
  let '(m, found) := foldl (quiet_service (service_total b)) (m, []) (map_to_list m) in
  (found, set_services (filter (fun e => forgettable SERVICE_SILENCE_MIN_MEAN (snd e) = false) m) s).

Definition template_rate (key : Key) (count : Z) (m : f64) (boost : bool) : Finding :=
  finding_of (fst key) "template_rate"
    (cat ["template "; show_Z (snd key); " in "; name (fst key); ": "; show_Z count; " in "; show_Z (BUCKET_MS / 1000);
          " s, against about "; fmt0 m; " for a bucket this long"]) boost.

Definition rate_spiked (x : f64) (b : Baseline) : bool :=
  (WARMUP_BUCKETS <=? n b) && f64_ge x TEMPLATE_RATE_MIN
  && f64_gt x (f64_add (f64_add (mean b) (f64_mul (f64_of_Z 4) (sd b))) (f64_of_Z 10))
  && f64_ge x (f64_mul (f64_of_Z 4) (mean b)).

Definition appeared_template (severities : gmap Key Z) (acc : gmap Key Tracked * list Finding) (e : Key * Z)
    : gmap Key Tracked * list Finding :=
  let '(key, count) := e in
  if room key (fst acc) then
    let x := f64_of_Z count in
    let b := base (default tracked_default (fst acc !! key)) in
    let spiked := rate_spiked x b in
    (<[key := mkTracked (update x spiked b) 0 false]> (fst acc),
     if spiked
     then snd acc ++ [template_rate key count (mean b) (WARN_SEVERITY <=? default 0 (severities !! key))]
     else snd acc)
  else acc.

Definition template_silence (key : Key) (q : Z) (m : f64) : Finding :=
  finding_of (fst key) "silence"
    (cat ["template "; show_Z (snd key); " in "; name (fst key); " has not appeared for "; show_Z (q * BUCKET_MS / 1000);
          " s; it normally appears about "; fmt0 m; " times every "; show_Z (BUCKET_MS / 1000); " s"]) false.

Definition quiet_template (seen : gmap Key Z) (silent_services : gset (option string))
    (acc : gmap Key Tracked * list Finding) (x : Key * Tracked) : gmap Key Tracked * list Finding :=
  let '(key, t) := x in
  if decide (is_Some (seen !! key)) then acc
  else
    let '(t', silent) := quiet_step SILENCE_MIN_MEAN (bool_decide (fst key ∈ silent_services)) t in
    (<[key := t']> (fst acc),
     if silent then snd acc ++ [template_silence key (quiet t') (mean (base t'))] else snd acc).

Definition silent_services (s : Signals) : gset (option string) :=
  dom (filter (fun e => flagged (snd e) = true) (services s)).

(** The quiet templates to forget are removed after the loop that finds them. *)
Definition close_templates (b : Bucket) (s : Signals) : list Finding * Signals :=
  let silent := silent_services s in
  let '(m, found) := foldl (appeared_template (template_severity b)) (templates s, []) (map_to_list (template b)) in
  let '(m, found) := foldl (quiet_template (template b) silent) (m, found) (map_to_list m) in
  (found, set_templates
     (filter (fun e => negb (bool_decide (is_Some (template b !! fst e))) && forgettable SILENCE_MIN_MEAN (snd e) = false) m) s).

Definition error_share (svc : option string) (errors total : Z) (x m : f64) : Finding :=
  finding_of svc "error_share"
    (cat [show_Z errors; " of "; show_Z total; " records in "; show_Z (BUCKET_MS / 1000); " s were errors (";
          fmt0 (f64_mul x (f64_of_Z 100)); "%), against about "; fmt_fixed 1 (f64_mul m (f64_of_Z 100)); "% normally"]) true.

Definition close_share_one (errs : gmap (option string) Z) (acc : gmap (option string) Baseline * list Finding)
    (e : option string * Z) : gmap (option string) Baseline * list Finding :=
  let '(svc, total) := e in
  if total <? SHARE_MIN_TOTAL then acc
  else if negb (room svc (fst acc)) then acc
  else
    let errors := default 0 (errs !! svc) in
    let x := f64_div (f64_of_Z errors) (f64_of_Z total) in
    let b := default baseline_default (fst acc !! svc) in
    let spiked := (WARMUP_BUCKETS <=? n b) && (SHARE_MIN_ERRORS <=? errors)
                  && f64_gt x (f64_add (f64_add (mean b) (f64_mul (f64_of_Z 4) (sd b))) (f64_dec 5 2))
                  && f64_ge x (f64_mul (f64_of_Z 3) (mean b)) in
    (<[svc := update x spiked b]> (fst acc),
     if spiked then snd acc ++ [error_share svc errors total x (mean b)] else snd acc).

Definition close_share (b : Bucket) (s : Signals) : list Finding * Signals :=
  let '(m, found) := foldl (close_share_one (service_errors b)) (share s, []) (map_to_list (service_total b)) in
  (found, set_share m s).

Definition param_drift (key : NumKey) (x m : f64) : Finding :=
  let '(svc, t, slot) := key in
  finding_of svc "param_drift"
    (cat ["a number in template "; show_Z t; " in "; name svc; " (value "; show_Z (slot + 1); " of the line) averaged ";
          short x; " over "; show_Z (BUCKET_MS / 1000); " s, against about "; short m; " normally"]) true.

Definition close_drift_one (acc : gmap NumKey Baseline * list Finding) (e : NumKey * (f64 * Z))
    : gmap NumKey Baseline * list Finding :=
  let '(key, (sum, count)) := e in
  if count <? DRIFT_MIN_VALUES then acc
  else if negb (room key (fst acc)) then acc
  else
    let x := f64_div sum (f64_of_Z count) in
    let b := default baseline_default (fst acc !! key) in
    let shift := f64_abs (f64_sub x (mean b)) in
    let drifted := (DRIFT_WARMUP_BUCKETS <=? n b) && f64_gt shift (f64_mul (f64_of_Z 5) (sd b))
                   && f64_ge shift (f64_mul (f64_dec 5 1) (f64_abs (mean b))) && f64_ge shift (f64_of_Z 1) in
    (<[key := update x drifted b]> (fst acc),
     if drifted then snd acc ++ [param_drift key x (mean b)] else snd acc).

Definition close_drift (b : Bucket) (s : Signals) : list Finding * Signals :=
  let '(m, found) := foldl close_drift_one (drift s, []) (map_to_list (numbers_seen b)) in
  (found, set_drift m s).

(** One turn of the [while] loop. *)
Definition close_bucket (s : Signals) : list Finding * Signals :=
  let b := bucket s in
  let s := set_bucket bucket_default s in
  let '(f1, s) := close_services b s in
  let '(f2, s) := close_templates b s in
  let '(f3, s) := close_share b s in
  let '(f4, s) := close_drift b s in
  (f1 ++ f2 ++ f3 ++ f4, set_bucket_start_ms (bucket_start_ms s + BUCKET_MS) s).

Fixpoint close_loop (turns : nat) (now_ms : Z) (s : Signals) : list Finding * Signals :=
  match turns with
  | O => ([], s)
  | S turns' =>
      if bucket_start_ms s + BUCKET_MS <=? now_ms then
        let '(f1, s) := close_bucket s in
        let '(f2, s) := close_loop turns' now_ms s in
        (f1 ++ f2, s)
      else ([], s)
  end.

(** After a stall the detectors start again; otherwise at most
    [FORGET_AFTER_QUIET] buckets are closed. *)
Definition close_buckets (now_ms : Z) (s : Signals) : list Finding * Signals :=
  if FORGET_AFTER_QUIET * BUCKET_MS <? sat_sub now_ms (bucket_start_ms s) then ([], new_from now_ms (pairs s))
  else close_loop (Z.to_nat FORGET_AFTER_QUIET) now_ms s.

#[export] Instance signals : SyncPolicy.Signals Signals := {|
  sig_new := new;
  sig_observe now_ms record first_ever s := observe now_ms record first_ever s;
  sig_close_buckets := close_buckets
|}.

(** ** Steps *)

Inductive Step :=
  | Observe (now_ms : Z) (record : LogRecord) (first_ever : bool)
  | Close (now_ms : Z).

Definition step (x : Step) (s : Signals) : list Finding * Signals :=
  match x with
  | Observe now_ms record first_ever => observe now_ms record first_ever s
  | Close now_ms => close_buckets now_ms s
  end.

Fixpoint run (xs : list Step) (s : Signals) : list Finding * Signals :=
  match xs with
  | [] => ([], s)
  | x :: xs =>
      let '(f1, s1) := step x s in
      let '(f2, s2) := run xs s1 in
      (f1 ++ f2, s2)
  end.

(** An invariant of the steps holds after any run. *)
Lemma run_invariant (P : Signals -> Prop) :
  (forall x s, P s -> P (snd (step x s))) -> forall xs s, P s -> P (snd (run xs s)).
Proof.
  intros Hstep xs. induction xs as [|x xs IH]; intros s Hs; [done|]. simpl.
  pose proof (Hstep x s Hs) as H1. destruct (step x s) as [f1 s1]. specialize (IH s1 H1). by destruct (run xs s1).
Qed.

Lemma close_loop_invariant (P : Signals -> Prop) now_ms :
  (forall s, P s -> P (snd (close_bucket s))) -> forall turns s, P s -> P (snd (close_loop turns now_ms s)).
Proof.
  intros Hc turns. induction turns as [|turns IH]; intros s Hs; [done|]. simpl. destruct (_ <=? _); [|done].
  pose proof (Hc s Hs) as H1. destruct (close_bucket s) as [f1 s1]. specialize (IH s1 H1). by destruct (close_loop _ _ s1).
Qed.

(** ** Bounds *)

Lemma insert_capped `{Countable K} {A} max (m : gmap K A) k v :
  Z.of_nat (size m) < max \/ is_Some (m !! k) -> Z.of_nat (size m) <= max -> Z.of_nat (size (<[k := v]> m)) <= max.
Proof.
  intros Hg Hm. destruct (m !! k) as [a|] eqn:E.
  - by rewrite map_size_insert_Some by eauto.
  - rewrite map_size_insert_None by done. destruct Hg as [?|[? ?]]; [lia|done].
Qed.

Lemma room_capped `{Countable K} {A} (m : gmap K A) k v :
  room k m = true -> Z.of_nat (size m) <= MAX_KEYS -> Z.of_nat (size (<[k := v]> m)) <= MAX_KEYS.
Proof.
  intros Hr. apply insert_capped. unfold room in Hr. apply orb_true_iff in Hr as [Hr|Hr].
  - right. by apply bool_decide_eq_true in Hr.
  - left. lia.
Qed.

Lemma insert_below_capped `{Countable A} max (a : A) (X : gset A) :
  Z.of_nat (size X) <= max -> Z.of_nat (size (insert_below max a X)) <= max.
Proof.
  intros HX. unfold insert_below. destruct (_ <? _) eqn:E; [|done]. zbool.
  destruct (decide (a ∈ X)); [rewrite subseteq_union_1_L by set_solver; lia|].
  rewrite size_union, size_singleton by set_solver. lia.
Qed.

Lemma filter_size `{Countable K} {A} (P : K * A -> Prop) `{forall x, Decision (P x)} (m : gmap K A) :
  (size (filter P m) <= size m)%nat.
Proof. apply map_subseteq_size, map_filter_subseteq. Qed.

Lemma in_map_to_list_dom `{Countable K} {A} (m : gmap K A) k a : In (k, a) (map_to_list m) -> k ∈ dom m.
Proof. intros Hin. apply list_elem_of_In, elem_of_map_to_list in Hin. by apply elem_of_dom_2 in Hin. Qed.

Lemma size_of_dom `{Countable K} {A B} (m : gmap K A) (m' : gmap K B) : dom m' = dom m -> size m' = size m.
Proof. intros Hd. rewrite <- !size_dom. by rewrite Hd. Qed.

(** A pass over a map that only updates its own keys keeps its domain. *)
Lemma fold_dom `{Countable K} {A B} (f : gmap K A * B -> K * A -> gmap K A * B) (m : gmap K A) acc :
  (forall acc k a, k ∈ dom (fst acc) -> dom (fst (f acc (k, a))) = dom (fst acc)) ->
  fst acc = m -> dom (fst (foldl f acc (map_to_list m))) = dom m.
Proof.
  intros Hf Hacc. apply (Forall_foldl (fun a => dom (fst a) = dom m)); [by rewrite Hacc|].
  intros a [k v] Ha Hin. rewrite Hf; [done|]. rewrite Ha. by eapply in_map_to_list_dom.
Qed.

Lemma dom_update `{Countable K} {A} (m : gmap K A) k a : k ∈ dom m -> dom (<[k := a]> m) = dom m.
Proof. intros Hk. rewrite dom_insert_L. set_solver. Qed.

Lemma quiet_service_dom total acc svc t :
  svc ∈ dom (fst acc) -> dom (fst (quiet_service total acc (svc, t))) = dom (fst acc).
Proof.
  intros Hs. unfold quiet_service. destruct (decide _); [done|]. destruct (quiet_step _ _ _) as [t' sil].
  by apply dom_update.
Qed.

Lemma quiet_template_dom seen sil acc key t :
  key ∈ dom (fst acc) -> dom (fst (quiet_template seen sil acc (key, t))) = dom (fst acc).
Proof.
  intros Hs. unfold quiet_template. destruct (decide _); [done|]. destruct (quiet_step _ _ _) as [t' si].
  by apply dom_update.
Qed.

Definition bucket_capped (b : Bucket) : Prop :=
  Z.of_nat (size (service_total b)) <= MAX_PER_BUCKET /\ dom (service_errors b) ⊆ dom (service_total b) /\
  Z.of_nat (size (template b)) <= MAX_PER_BUCKET /\ dom (template_severity b) = dom (template b) /\
  forall svc t slot, is_Some (numbers_seen b !! (svc, t, slot)) -> (svc, t) ∈ dom (template b) /\ 0 <= slot < 3.

Definition traces_capped (s : Signals) : Prop :=
  NoDup (trace_order s) /\ dom (traces s) = list_to_set (trace_order s) /\
  Z.of_nat (List.length (trace_order s)) <= MAX_TRACES.

Definition capped (s : Signals) : Prop :=
  bucket_capped (bucket s) /\ Z.of_nat (size (templates s)) <= MAX_KEYS /\ Z.of_nat (size (services s)) <= MAX_KEYS /\
  Z.of_nat (size (share s)) <= MAX_KEYS /\ Z.of_nat (size (drift s)) <= MAX_KEYS /\
  Z.of_nat (size (pairs s)) <= MAX_SET /\ Z.of_nat (size (bigrams s)) <= MAX_SET /\ traces_capped s.

Lemma count_service_capped svc sev b : bucket_capped b -> bucket_capped (count_service svc sev b).
Proof.
  intros Hb. pose proof Hb as (H1 & H2 & H3 & H4 & H5). unfold count_service. destruct (_ || _) eqn:E; [|exact Hb].
  apply orb_true_iff in E. split; [|split; [|by split]].
  - apply insert_capped; [|done]. destruct E as [E|E]; [left; lia|right; by apply bool_decide_eq_true in E].
  - cbn [service_errors service_total]. destruct (_ <=? _); rewrite !dom_insert_L; set_solver.
Qed.

Lemma add_number_slots svc t (P : NumKey -> Prop) m slot v :
  P (svc, t, slot) -> (forall k, is_Some (m !! k) -> P k) -> forall k, is_Some (add_number svc t m (slot, v) !! k) -> P k.
Proof.
  intros HP Hm k. unfold add_number. destruct (default _ _) as [sum count].
  destruct (decide ((svc, t, slot) = k)) as [<-|Hk]; [done|]. rewrite lookup_insert_ne by done. apply Hm.
Qed.

Lemma count_template_capped svc t sev body b : bucket_capped b -> bucket_capped (count_template svc t sev body b).
Proof.
  intros Hb. pose proof Hb as (H1 & H2 & H3 & H4 & H5). unfold count_template. destruct (_ || _) eqn:E; [|exact Hb].
  apply orb_true_iff in E. split; [done|]. split; [done|]. split; [|split].
  - apply insert_capped; [|done]. destruct E as [E|E]; [left; lia|right; by apply bool_decide_eq_true in E].
  - cbn [template template_severity]. by rewrite !dom_insert_L, H4.
  - cbn [template numbers_seen]. intros sv tt slot. revert sv tt slot.
    set (P := fun k : NumKey => k.1 ∈ dom (<[(svc, t) := default 0 (template b !! (svc, t)) + 1]> (template b)) /\ 0 <= k.2 < 3).
    enough (forall k, is_Some (foldl (add_number svc t) (numbers_seen b)
      (take DRIFT_SLOTS (imap (fun i v => (Z.of_nat i, v)) (numbers body))) !! k) -> P k) as HP.
    { intros sv tt slot Hs. by apply (HP (sv, tt, slot)). }
    apply (Forall_foldl (fun m => forall k, is_Some (m !! k) -> P k)).
    + intros [[sv tt] slot] Hs. apply H5 in Hs as [Hs1 Hs2]. split; [|done]. cbn [fst]. rewrite dom_insert_L. set_solver.
    + intros m [slot v] Hm Hin. apply add_number_slots; [|done]. split; cbn [fst snd]; [rewrite dom_insert_L; set_solver|].
      apply list_elem_of_In, elem_of_take in Hin as (i & Hi & Hlt). rewrite list_lookup_imap in Hi.
      destruct (numbers body !! i); [|done]. injection Hi as <- <-. unfold DRIFT_SLOTS in Hlt. lia.
Qed.

Lemma note_trace_capped trace t s : traces_capped s -> traces_capped (snd (note_trace trace t s)).
Proof.
  intros (H1 & H2 & H3). unfold note_trace. destruct (traces s !! trace) as [p|] eqn:E; cbn [snd].
  - split; [done|]. split; [|done]. cbn [traces trace_order set_traces]. rewrite dom_update; [done|]. by eapply elem_of_dom_2.
  - assert (trace ∉ trace_order s) as Hn.
    { intros Hin. apply not_elem_of_dom in E. rewrite H2 in E. set_solver. }
    assert (NoDup (trace_order s ++ [trace])) as Hnd.
    { apply NoDup_app. split; [done|]. split; [set_solver|apply NoDup_singleton]. }
    assert (dom (<[trace := t]> (traces s)) = list_to_set (trace_order s ++ [trace])) as Hd.
    { rewrite dom_insert_L, H2, list_to_set_app_L. set_solver. }
    destruct (_ <? _) eqn:El; zbool; [|by repeat split].
    destruct (trace_order s ++ [trace]) as [|old order] eqn:Eo; [by destruct (trace_order s)|]. cbn [snd].
    apply NoDup_cons in Hnd as [Hno Hnd]. split; [done|]. cbn [traces trace_order set_traces]. split.
    + rewrite dom_delete_L, Hd. cbn [list_to_set]. set_solver.
    + assert (List.length (old :: order) = List.length (trace_order s) + 1)%nat as Hl by (rewrite <- Eo, length_app; done).
      simpl in Hl. lia.
Qed.

Lemma observe_capped now_ms record first_ever s : capped s -> capped (snd (observe now_ms record first_ever s)).
Proof.
  intros (Hb & H1 & H2 & H3 & H4 & H5 & H6 & H7). unfold observe.
  pose proof (count_service_capped (service record) (severity record) _ Hb) as Hb1.
  destruct (template_id record) as [t|]; [|by repeat (split; [done|])].
  pose proof (count_template_capped (service record) t (severity record) (body record) _ Hb1) as Hb2.
  cbn [bucket set_bucket].
  set (s2 := set_bucket _ _).
  assert (capped s2) as Hs2 by (by repeat (split; [done|])).
  assert (capped (snd (observe_pair now_ms (service record) t first_ever s2))) as Hs3.
  { unfold observe_pair. destruct (decide _); [done|]. destruct Hs2 as (K0 & K1 & K2 & K3 & K4 & K5 & K6 & K7).
    do 5 (split; [done|]). split; [by apply insert_below_capped|done]. }
  destruct (observe_pair _ _ _ _ _) as [f1 s3]. cbn [snd] in Hs3.
  destruct (trace_id record) as [tr|]; [|done].
  assert (capped (snd (note_trace tr t s3))) as Hs4.
  { destruct Hs3 as (K0 & K1 & K2 & K3 & K4 & K5 & K6 & K7). pose proof (note_trace_capped tr t s3 K7) as K7'.
    revert K7'. unfold note_trace. destruct (traces s3 !! tr); [by intros; repeat (split; [done|])|].
    destruct (_ <? _); [|by intros; repeat (split; [done|])]. destruct (trace_order s3 ++ [tr]); by intros; repeat (split; [done|]). }
  unfold observe_trace. destruct (note_trace tr t s3) as [prev s4]. cbn [snd] in Hs4.
  destruct prev as [prev|]; [|done]. destruct (prev =? t); [done|]. destruct (decide _); [done|].
  destruct Hs4 as (K0 & K1 & K2 & K3 & K4 & K5 & K6 & K7). do 6 (split; [done|]). split; [by apply insert_below_capped|done].
Qed.

Lemma bucket_default_capped : bucket_capped bucket_default.
Proof.
  split; [done|]. split; [done|]. split; [done|]. split; [done|]. intros svc t slot [x Hx].
  cbn [numbers_seen bucket_default] in Hx. by rewrite lookup_empty in Hx.
Qed.

Lemma close_services_size b s : Z.of_nat (size (services s)) <= MAX_KEYS ->
  Z.of_nat (size (services (snd (close_services b s)))) <= MAX_KEYS.
Proof.
  intros Hs. unfold close_services.
  set (m := foldl appeared_service _ _).
  assert (Z.of_nat (size m) <= MAX_KEYS) as Hm.
  { unfold m. apply (Forall_foldl (fun m => Z.of_nat (size m) <= MAX_KEYS)); [done|].
    intros acc [svc c] Ha _. unfold appeared_service. destruct (room svc acc) eqn:E; [by apply room_capped|done]. }
  pose proof (fold_dom (quiet_service (service_total b)) m (m, []) (quiet_service_dom _) eq_refl) as Hd.
  destruct (foldl (quiet_service _) _ _) as [m' found]. cbn [fst snd services set_services] in *.
  pose proof (filter_size (fun e => forgettable SERVICE_SILENCE_MIN_MEAN (snd e) = false) m') as Hf.
  rewrite (size_of_dom m m' Hd) in Hf. lia.
Qed.

Lemma close_templates_size b s : Z.of_nat (size (templates s)) <= MAX_KEYS ->
  Z.of_nat (size (templates (snd (close_templates b s)))) <= MAX_KEYS.
Proof.
  intros Hs. unfold close_templates.
  pose proof (Forall_foldl (fun a => Z.of_nat (size (fst a)) <= MAX_KEYS) (appeared_template (template_severity b))
    (map_to_list (template b)) (templates s, []) Hs) as Hm.
  destruct (foldl (appeared_template _) _ _) as [m f1].
  assert (Z.of_nat (size m) <= MAX_KEYS) as Hm'.
  { apply Hm. intros acc [key c] Ha _. unfold appeared_template. destruct (room key (fst acc)) eqn:E; [by apply room_capped|done]. }
  pose proof (fold_dom (quiet_template (template b) (silent_services s)) m (m, f1) (quiet_template_dom _ _) eq_refl) as Hd.
  destruct (foldl (quiet_template _ _) _ _) as [m' found]. cbn [fst snd templates set_templates] in *.
  pose proof (filter_size (fun e => negb (bool_decide (is_Some (template b !! fst e))) && forgettable SILENCE_MIN_MEAN (snd e) = false) m') as Hf.
  rewrite (size_of_dom m m' Hd) in Hf. lia.
Qed.

Lemma close_share_size b s : Z.of_nat (size (share s)) <= MAX_KEYS ->
  Z.of_nat (size (share (snd (close_share b s)))) <= MAX_KEYS.
Proof.
  intros Hs. unfold close_share.
  pose proof (Forall_foldl (fun a => Z.of_nat (size (fst a)) <= MAX_KEYS) (close_share_one (service_errors b))
    (map_to_list (service_total b)) (share s, []) Hs) as Hm.
  destruct (foldl _ _ _) as [m f]. apply Hm. intros acc [svc c] Ha _. unfold close_share_one.
  destruct (_ <? _); [done|]. destruct (room svc (fst acc)) eqn:E; [by apply room_capped|done].
Qed.

Lemma close_drift_size b s : Z.of_nat (size (drift s)) <= MAX_KEYS ->
  Z.of_nat (size (drift (snd (close_drift b s)))) <= MAX_KEYS.
Proof.
  intros Hs. unfold close_drift.
  pose proof (Forall_foldl (fun a => Z.of_nat (size (fst a)) <= MAX_KEYS) close_drift_one
    (map_to_list (numbers_seen b)) (drift s, []) Hs) as Hm.
  destruct (foldl _ _ _) as [m f]. apply Hm. intros acc [key [sum c]] Ha _. unfold close_drift_one.
  destruct (_ <? _); [done|]. destruct (room key (fst acc)) eqn:E; [by apply room_capped|done].
Qed.

(** What closing a bucket does to each part of the state. *)
Lemma close_bucket_parts s :
  let s1 := set_bucket bucket_default s in
  let b := bucket s in
  let s2 := snd (close_services b s1) in let s3 := snd (close_templates b s2) in
  let s4 := snd (close_share b s3) in let s5 := snd (close_drift b s4) in
  snd (close_bucket s) = set_bucket_start_ms (bucket_start_ms s5 + BUCKET_MS) s5 /\
  fst (close_bucket s) = fst (close_services b s1) ++ fst (close_templates b s2) ++ fst (close_share b s3) ++ fst (close_drift b s4).
Proof.
  cbv zeta. unfold close_bucket. destruct (close_services _ _) as [f1 s2]. cbn [fst snd].
  destruct (close_templates _ s2) as [f2 s3]. cbn [fst snd].
  destruct (close_share _ s3) as [f3 s4]. cbn [fst snd]. by destruct (close_drift _ s4) as [f4 s5].
Qed.

Lemma close_services_frame b s : let s' := snd (close_services b s) in s' = set_services (services s') s.
Proof. unfold close_services. by destruct (foldl (quiet_service _) _ _). Qed.
Lemma close_templates_frame b s : let s' := snd (close_templates b s) in s' = set_templates (templates s') s.
Proof. unfold close_templates. destruct (foldl (appeared_template _) _ _). by destruct (foldl (quiet_template _ _) _ _). Qed.
Lemma close_share_frame b s : let s' := snd (close_share b s) in s' = set_share (share s') s.
Proof. unfold close_share. by destruct (foldl _ _ _). Qed.
Lemma close_drift_frame b s : let s' := snd (close_drift b s) in s' = set_drift (drift s') s.
Proof. unfold close_drift. by destruct (foldl _ _ _). Qed.

Lemma close_bucket_capped s : capped s -> capped (snd (close_bucket s)).
Proof.
  intros (Hb & H1 & H2 & H3 & H4 & H5 & H6 & H7). destruct (close_bucket_parts s) as [-> _].
  set (s1 := set_bucket bucket_default s). cbv zeta.
  pose proof (close_services_size (bucket s) s1 H2) as K2. pose proof (close_services_frame (bucket s) s1) as F2.
  set (s2 := snd (close_services _ _)) in *.
  assert (Z.of_nat (size (templates s2)) <= MAX_KEYS) as T2 by (by rewrite F2).
  pose proof (close_templates_size (bucket s) s2 T2) as K1. pose proof (close_templates_frame (bucket s) s2) as F3.
  set (s3 := snd (close_templates _ _)) in *.
  assert (Z.of_nat (size (share s3)) <= MAX_KEYS) as T3 by (by rewrite F3, F2).
  pose proof (close_share_size (bucket s) s3 T3) as K3. pose proof (close_share_frame (bucket s) s3) as F4.
  set (s4 := snd (close_share _ _)) in *.
  assert (Z.of_nat (size (drift s4)) <= MAX_KEYS) as T4 by (by rewrite F4, F3, F2).
  pose proof (close_drift_size (bucket s) s4 T4) as K4. pose proof (close_drift_frame (bucket s) s4) as F5.
  set (s5 := snd (close_drift _ _)) in *. unfold capped.
  rewrite F5, F4, F3, F2. unfold s1.
  split; [apply bucket_default_capped|]. by repeat (split; [assumption|]).
Qed.

Lemma new_from_capped now_ms ps : Z.of_nat (size ps) <= MAX_SET -> capped (new_from now_ms ps).
Proof.
  intros Hp. split; [apply bucket_default_capped|]. do 4 (split; [done|]). split; [done|]. split; [done|].
  split; [apply NoDup_nil_2|]. split; [|done]. cbn [traces trace_order new_from]. by rewrite dom_empty_L.
Qed.

Lemma step_capped x s : capped s -> capped (snd (step x s)).
Proof.
  intros Hs. destruct x as [now_ms record fe|now_ms]; [by apply observe_capped|]. simpl. unfold close_buckets.
  destruct (_ <? _); [apply new_from_capped; apply Hs|]. apply close_loop_invariant; [apply close_bucket_capped|done].
Qed.

(** The detectors' memory is bounded, whatever they are shown: every map and
    set stays under its cap, the numbers of a bucket belong to its templates and
    to at most [DRIFT_SLOTS] places of a line, and the traces remembered are
    exactly the (distinct) ones in the eviction queue. *)
Theorem signals_bounded xs now_ms known : capped (snd (run xs (new now_ms known))).
Proof.
  apply run_invariant; [apply step_capped|]. apply new_from_capped.
  etrans; [apply inj_le, size_list_to_set_le|]. rewrite length_take. unfold MAX_SET. lia.
Qed.

(** ** Termination of the bucket loop *)

Lemma close_bucket_start s : bucket_start_ms (snd (close_bucket s)) = bucket_start_ms s + BUCKET_MS.
Proof.
  destruct (close_bucket_parts s) as [-> _]. cbv zeta. cbn [bucket_start_ms set_bucket_start_ms].
  by rewrite close_drift_frame, close_share_frame, close_templates_frame, close_services_frame.
Qed.

Lemma close_loop_done now_ms turns : forall s,
  (Z.to_nat ((now_ms - bucket_start_ms s) / BUCKET_MS) <= turns)%nat ->
  now_ms < bucket_start_ms (snd (close_loop turns now_ms s)) + BUCKET_MS.
Proof.
  unfold BUCKET_MS. induction turns as [|turns IH]; intros s Ht.
  - simpl. pose proof (Z.div_mod (now_ms - bucket_start_ms s) 10000).
    pose proof (Z.mod_pos_bound (now_ms - bucket_start_ms s) 10000). lia.
  - simpl. unfold BUCKET_MS. destruct (_ <=? _) eqn:E; zbool; [|simpl; lia].
    pose proof (close_bucket_start s) as Hb. destruct (close_bucket s) as [f1 s1]. cbn [snd] in Hb.
    specialize (IH s1). destruct (close_loop turns now_ms s1) as [f2 s2]. apply IH. rewrite Hb. unfold BUCKET_MS.
    replace (now_ms - (bucket_start_ms s + 10000)) with (now_ms - bucket_start_ms s + -1 * 10000) by lia.
    rewrite Z.div_add by lia.
    assert (1 <= (now_ms - bucket_start_ms s) / 10000) by (apply Z.div_le_lower_bound; lia). lia.
Qed.

(** Closing buckets always ends, after at most [FORGET_AFTER_QUIET] turns
    however long the process was stopped, and leaves no finished bucket open. *)
Theorem close_buckets_complete now_ms s : 0 <= now_ms ->
  now_ms < bucket_start_ms (snd (close_buckets now_ms s)) + BUCKET_MS.
Proof.
  intros Hn. unfold close_buckets. destruct (_ <? _) eqn:E; zbool.
  - cbn [snd bucket_start_ms new_from]. unfold BUCKET_MS. pose proof (Z.mod_pos_bound now_ms 10000). lia.
  - apply close_loop_done. revert E. unfold sat_sub, FORGET_AFTER_QUIET, BUCKET_MS. intros E.
    assert ((now_ms - bucket_start_ms s) / 10000 <= 360); [|lia].
    apply Z.lt_succ_r, Z.div_lt_upper_bound; lia.
Qed.

(** ** What a finding does *)

(** The table at the head of [sync_signals.rs]: the kinds, and which boost. *)
Definition in_table (f : Finding) : Prop :=
  match f_kind f with
  | "silence" => f_boost f = false
  | "new_pair" | "error_share" | "param_drift" | "flow" => f_boost f = true
  | "template_rate" => True
  | _ => False
  end%string.

Lemma fold_findings {A B} (P : Finding -> Prop) (f : A * list Finding -> B -> A * list Finding) l acc :
  (forall acc b, exists new, snd (f acc b) = snd acc ++ new /\ Forall P new) ->
  Forall P (snd acc) -> Forall P (snd (foldl f acc l)).
Proof.
  intros Hf Ha. apply (foldl_preserves (fun a => Forall P (snd a))); [|done].
  intros a b Hb. destruct (Hf a b) as (new & -> & Hn). by apply Forall_app.
Qed.

Lemma if_findings {A} (P : Finding -> Prop) (b : bool) (m : A) l f :
  P f -> exists new, snd (m, if b then l ++ [f] else l) = l ++ new /\ Forall P new.
Proof.
  intros Hf. destruct b; [exists [f]; split; [done|by constructor]|exists []; by rewrite app_nil_r].
Qed.

Lemma no_findings {A} (P : Finding -> Prop) (acc : A * list Finding) :
  exists new, snd acc = snd acc ++ new /\ Forall P new.
Proof. exists []. by rewrite app_nil_r. Qed.

Lemma close_services_table b s : Forall in_table (fst (close_services b s)).
Proof.
  unfold close_services. set (m := foldl appeared_service _ _).
  pose proof (fold_findings in_table (quiet_service (service_total b)) (map_to_list m) (m, [])) as Hf.
  destruct (foldl (quiet_service _) _ _) as [m' found]. apply Hf; [|constructor].
  intros acc [svc t]. unfold quiet_service. destruct (decide _); [apply no_findings|].
  destruct (quiet_step _ _ _) as [t' sil]. by apply if_findings.
Qed.

Lemma close_templates_table b s : Forall in_table (fst (close_templates b s)).
Proof.
  unfold close_templates.
  pose proof (fold_findings in_table (appeared_template (template_severity b)) (map_to_list (template b)) (templates s, [])) as H1.
  destruct (foldl (appeared_template _) _ _) as [m f1].
  pose proof (fold_findings in_table (quiet_template (template b) (silent_services s)) (map_to_list m) (m, f1)) as H2.
  destruct (foldl (quiet_template _ _) _ _) as [m' found]. apply H2; [|apply H1; [|constructor]].
  - intros acc [key t]. unfold quiet_template. destruct (decide _); [apply no_findings|].
    destruct (quiet_step _ _ _) as [t' sil]. by apply if_findings.
  - intros acc [key c]. unfold appeared_template. destruct (room _ _); [|apply no_findings]. by apply if_findings.
Qed.

Lemma close_share_table b s : Forall in_table (fst (close_share b s)).
Proof.
  unfold close_share.
  pose proof (fold_findings in_table (close_share_one (service_errors b)) (map_to_list (service_total b)) (share s, [])) as H1.
  destruct (foldl _ _ _) as [m f]. apply H1; [|constructor]. intros acc [svc c]. unfold close_share_one.
  destruct (_ <? _); [apply no_findings|]. destruct (room _ _); [|apply no_findings]. by apply if_findings.
Qed.

Lemma close_drift_table b s : Forall in_table (fst (close_drift b s)).
Proof.
  unfold close_drift.
  pose proof (fold_findings in_table close_drift_one (map_to_list (numbers_seen b)) (drift s, [])) as H1.
  destruct (foldl _ _ _) as [m f]. apply H1; [|constructor]. intros acc [[[svc t] slot] [sum c]]. unfold close_drift_one.
  destruct (_ <? _); [apply no_findings|]. destruct (room _ _); [|apply no_findings]. by apply if_findings.
Qed.

Lemma close_bucket_table s : Forall in_table (fst (close_bucket s)).
Proof.
  destruct (close_bucket_parts s) as [_ ->]. cbv zeta.
  repeat (apply Forall_app; split); [apply close_services_table|apply close_templates_table|apply close_share_table|apply close_drift_table].
Qed.

Lemma close_loop_table turns now_ms : forall s, Forall in_table (fst (close_loop turns now_ms s)).
Proof.
  induction turns as [|turns IH]; intros s; simpl; [constructor|]. destruct (_ <=? _); [|constructor].
  pose proof (close_bucket_table s) as H1. destruct (close_bucket s) as [f1 s1]. specialize (IH s1).
  destruct (close_loop turns now_ms s1). by apply Forall_app.
Qed.

Lemma observe_pair_findings now_ms svc t fe s f : In f (fst (observe_pair now_ms svc t fe s)) ->
  f = new_pair_finding svc t /\ fe = false /\ pairs_learn_until_ms s <= now_ms /\ (svc, t) ∉ pairs s.
Proof.
  unfold observe_pair. destruct (decide _); [done|]. cbn [fst]. destruct fe; [done|]. simpl.
  destruct (_ <=? _) eqn:E; [|done]. zbool. intros [<-|[]]. done.
Qed.

Lemma note_trace_frame tr t s : let s' := snd (note_trace tr t s) in s' = set_traces (traces s') (trace_order s') s.
Proof.
  unfold note_trace. destruct (traces s !! tr); [done|]. destruct (_ <? _); [|done]. by destruct (trace_order s ++ [tr]).
Qed.

Lemma observe_trace_findings now_ms svc t fe tr s f : In f (fst (observe_trace now_ms svc t fe tr s)) ->
  exists prev, f = flow_finding svc prev t /\ prev <> t /\ fe = false /\ bigrams_learn_until_ms s <= now_ms.
Proof.
  unfold observe_trace. pose proof (note_trace_frame tr t s) as Hf. destruct (note_trace tr t s) as [prev s'].
  cbn [snd] in Hf. destruct prev as [prev|]; [|done]. destruct (prev =? t) eqn:Ep; [done|]. destruct (decide _); [done|].
  cbn [fst]. destruct fe; [done|]. simpl. destruct (_ <=? _) eqn:E; [|done]. zbool. intros [<-|[]].
  exists prev. rewrite Hf in E. cbn in E. done.
Qed.

(** Everything [observe] can say. *)
Lemma observe_findings now_ms record fe s f : In f (fst (observe now_ms record fe s)) ->
  fe = false /\ exists t, template_id record = Some t /\
    ((f = new_pair_finding (service record) t /\ pairs_learn_until_ms s <= now_ms /\ (service record, t) ∉ pairs s) \/
     exists prev, f = flow_finding (service record) prev t /\ prev <> t /\ bigrams_learn_until_ms s <= now_ms).
Proof.
  unfold observe. destruct (template_id record) as [t|]; [|done].
  set (s2 := set_bucket _ _).
  pose proof (observe_pair_findings now_ms (service record) t fe s2 f) as Hp.
  assert (bigrams_learn_until_ms (snd (observe_pair now_ms (service record) t fe s2)) = bigrams_learn_until_ms s) as Hb.
  { unfold observe_pair. by destruct (decide _). }
  destruct (observe_pair _ _ _ _ _) as [f1 s3]. cbn [fst snd] in *.
  destruct (trace_id record) as [tr|].
  - pose proof (observe_trace_findings now_ms (service record) t fe tr s3 f) as Ht.
    destruct (observe_trace _ _ _ _ _ s3) as [f2 s4]. cbn [fst] in *. intros Hin. apply in_app_or in Hin as [Hin|Hin].
    + destruct (Hp Hin) as (-> & -> & ? & ?). split; [done|]. exists t. split; [done|]. by left.
    + destruct (Ht Hin) as (prev & -> & ? & -> & ?). split; [done|]. exists t. split; [done|]. right. exists prev.
      by rewrite <- Hb.
  - cbn [fst]. intros Hin. destruct (Hp Hin) as (-> & -> & ? & ?). split; [done|]. exists t. split; [done|]. by left.
Qed.

(** Every finding a run reports is of a kind of the table, and boosts as the
    table says: a silence never does. *)
Theorem findings_in_table xs : forall s, Forall in_table (fst (run xs s)).
Proof.
  induction xs as [|x xs IH]; intros s; [constructor|]. simpl.
  assert (Forall in_table (fst (step x s))) as H1.
  { destruct x as [now_ms record fe|now_ms]; simpl.
    - apply Forall_forall. intros f Hf. apply list_elem_of_In, observe_findings in Hf as (_ & t & _ & [[-> _]|(prev & -> & _)]); done.
    - unfold close_buckets. destruct (_ <? _); [constructor|apply close_loop_table]. }
  destruct (step x s) as [f1 s1]. specialize (IH s1). destruct (run xs s1). by apply Forall_app.
Qed.

(** ** New pairs *)

Lemma insert_below_mono `{Countable A} max (a : A) X : X ⊆ insert_below max a X.
Proof. unfold insert_below. destruct (_ <? _); set_solver. Qed.

Lemma observe_pairs now_ms record fe s : pairs s ⊆ pairs (snd (observe now_ms record fe s)) /\
  forall t, template_id record = Some t -> Z.of_nat (size (pairs s)) < MAX_SET ->
    (service record, t) ∈ pairs (snd (observe now_ms record fe s)).
Proof.
  unfold observe. destruct (template_id record) as [t|]; [|done].
  set (s2 := set_bucket _ _). change (pairs s) with (pairs s2).
  assert (pairs s2 ⊆ pairs (snd (observe_pair now_ms (service record) t fe s2)) /\
    (Z.of_nat (size (pairs s2)) < MAX_SET -> (service record, t) ∈ pairs (snd (observe_pair now_ms (service record) t fe s2)))) as [H1 H2].
  { unfold observe_pair. destruct (decide _); [done|]. cbn [snd pairs set_pairs]. split; [apply insert_below_mono|].
    intros Hs. unfold insert_below. replace (_ <? _) with true by lia. set_solver. }
  destruct (observe_pair _ _ _ _ _) as [f1 s3]. cbn [snd] in *.
  assert (pairs (snd (match trace_id record with
      | Some trace => let '(f2, s) := observe_trace now_ms (service record) t fe trace s3 in (f1 ++ f2, s)
      | None => (f1, s3) end)) = pairs s3) as ->.
  { destruct (trace_id record) as [tr|]; [|done]. unfold observe_trace. pose proof (note_trace_frame tr t s3) as Hf.
    destruct (note_trace tr t s3) as [prev s4]. cbn [snd] in Hf.
    assert (pairs s4 = pairs s3) as <- by (by rewrite Hf). destruct prev as [prev|]; [|done].
    destruct (_ =? _); [done|]. by destruct (decide _). }
  split; [done|]. intros t' Ht. injection Ht as <-. done.
Qed.

Lemma close_bucket_pairs s : pairs (snd (close_bucket s)) = pairs s.
Proof.
  destruct (close_bucket_parts s) as [-> _]. cbv zeta. cbn [pairs set_bucket_start_ms].
  by rewrite close_drift_frame, close_share_frame, close_templates_frame, close_services_frame.
Qed.

Lemma step_pairs x s : pairs s ⊆ pairs (snd (step x s)).
Proof.
  destruct x as [now_ms record fe|now_ms]; simpl; [apply observe_pairs|]. unfold close_buckets.
  destruct (_ <? _); [done|].
  apply (close_loop_invariant (fun s' => pairs s ⊆ pairs s')); [|done]. intros s' Hs. by rewrite close_bucket_pairs.
Qed.

(** A pair is new once.  After a record of a service and template has been
    observed (and the pair set was not full), no later record of that service
    and template is ever reported as [new_pair], through any number of records,
    closed buckets and stalls. *)
Theorem new_pair_once now1 r1 fe1 xs now2 r2 fe2 s :
  Z.of_nat (size (pairs s)) < MAX_SET ->
  service r2 = service r1 -> template_id r2 = template_id r1 -> is_Some (template_id r1) ->
  Forall (fun f => f_kind f <> "new_pair"%string)
    (fst (observe now2 r2 fe2 (snd (run xs (snd (observe now1 r1 fe1 s)))))).
Proof.
  intros Hs Hsv Ht [t Ht1]. destruct (observe_pairs now1 r1 fe1 s) as [_ Hin]. specialize (Hin t Ht1 Hs).
  set (s1 := snd (observe now1 r1 fe1 s)) in *.
  assert ((service r1, t) ∈ pairs (snd (run xs s1))) as Hr.
  { apply (run_invariant (fun s' => (service r1, t) ∈ pairs s')); [|done]. intros x s' Hx. by apply step_pairs. }
  apply Forall_forall. intros f Hf. apply list_elem_of_In, observe_findings in Hf as (_ & t' & Ht' & [(-> & _ & Hno)|(prev & -> & _)]); [|done].
  exfalso. apply Hno. rewrite Hsv. assert (t' = t) as -> by congruence. done.
Qed.

(** ** The first minute *)

(** Nothing tracked is older than [k] buckets. *)
Definition young_tracked (k : Z) (t : Tracked) : Prop := n (base t) <= k /\ quiet t < k.
Definition young (k : Z) (s : Signals) : Prop :=
  map_Forall (fun _ t => young_tracked k t) (templates s) /\ map_Forall (fun _ t => young_tracked k t) (services s) /\
  map_Forall (fun _ b => n b <= k) (share s) /\ map_Forall (fun _ b => n b <= k) (drift s).

Lemma update_n x slow b : n (update x slow b) = n b + 1.
Proof. unfold update. by destruct (n b =? 0). Qed.

Lemma young_mono k (t : Tracked) : young_tracked k t -> young_tracked (k + 1) t.
Proof. intros []. split; lia. Qed.

Lemma quiet_step_young k mm muted t t' sil : k < 6 -> young_tracked k t -> quiet_step mm muted t = (t', sil) ->
  young_tracked (k + 1) t' /\ sil = false.
Proof.
  intros Hk [H1 H2] Hq. unfold quiet_step in Hq. injection Hq as <- <-. split.
  - split; [|simpl; lia]. cbn [base]. destruct (f64_lt _ _); [rewrite update_n|]; lia.
  - replace (SILENCE_BUCKETS <=? quiet t + 1) with false by (unfold SILENCE_BUCKETS; lia). by rewrite andb_false_r.
Qed.

(** A pass that updates each key at most once: the entries it visits go from
    [P] to [Q], the others stay [P]. *)
Lemma fold_keys {K} `{Countable K} {A V Acc} (P Q : A -> Prop) (R : Acc -> Prop) (D : K -> Prop)
    (g : Acc -> gmap K A) (f : Acc -> K * V -> Acc) l :
  (forall a, P a -> Q a) ->
  (forall acc k v, R acc -> (forall a, g acc !! k = Some a -> P a) ->
     R (f acc (k, v)) /\ (g (f acc (k, v)) = g acc \/ exists a, Q a /\ g (f acc (k, v)) = <[k := a]> (g acc))) ->
  NoDup l.*1 -> (forall i, D i -> i ∉ l.*1) ->
  forall acc, R acc -> (forall i a, g acc !! i = Some a -> Q a /\ (D i \/ i ∈ l.*1 -> P a)) ->
  R (foldl f acc l) /\ forall i a, g (foldl f acc l) !! i = Some a -> Q a /\ (D i -> P a).
Proof.
  intros HPQ Hf. induction l as [|[k v] l IH]; intros Hnd HD acc HR Hacc; simpl.
  - split; [done|]. intros i a Ha. destruct (Hacc i a Ha) as [? HP]. split; [done|]. intros Hi. apply HP. by left.
  - apply NoDup_cons in Hnd as [Hk Hnd].
    destruct (Hf acc k v HR) as [HR' Hg].
    { intros a Ha. apply (Hacc k a Ha). right. cbn. set_solver. }
    apply IH; [done| |done|].
    + intros i Hi. specialize (HD i Hi). cbn in HD. set_solver.
    + intros i a Ha. destruct Hg as [Hg|(a0 & HQ & Hg)]; rewrite Hg in Ha.
      * destruct (Hacc i a Ha) as [? HP]. split; [done|]. intros [Hi|Hi]; apply HP; [by left|right; cbn; set_solver].
      * destruct (decide (k = i)) as [<-|Hne].
        -- rewrite lookup_insert_eq in Ha. injection Ha as <-. split; [done|]. intros [Hi|Hi]; [|done].
           exfalso. apply (HD k Hi). cbn. set_solver.
        -- rewrite lookup_insert_ne in Ha by done. destruct (Hacc i a Ha) as [? HP]. split; [done|].
           intros [Hi|Hi]; apply HP; [by left|right; cbn; set_solver].
Qed.

Lemma elem_of_keys `{Countable K} {A} (m : gmap K A) k : k ∈ (map_to_list m).*1 <-> is_Some (m !! k).
Proof.
  rewrite <- elem_of_dom. rewrite list_elem_of_fmap. split.
  - intros ([k' a] & -> & Hin). apply elem_of_map_to_list in Hin. by apply elem_of_dom_2 in Hin.
  - intros Hk. apply elem_of_dom in Hk as [a Ha]. exists (k, a). split; [done|]. by apply elem_of_map_to_list.
Qed.

Lemma close_services_young k b s : 0 <= k < 6 -> map_Forall (fun _ t => young_tracked k t) (services s) ->
  fst (close_services b s) = [] /\ map_Forall (fun _ t => young_tracked (k + 1) t) (services (snd (close_services b s))).
Proof.
  intros Hk Hs. unfold close_services. set (m := foldl appeared_service _ _).
  assert (forall i a, m !! i = Some a -> young_tracked (k + 1) a /\ (service_total b !! i = None -> young_tracked k a)) as Hm.
  { apply (fold_keys (young_tracked k) (young_tracked (k + 1)) (fun _ => True) (fun i => service_total b !! i = None) (fun m => m));
      [apply young_mono| |apply NoDup_fst_map_to_list| |done|].
    - intros acc i c _ Ha. split; [done|]. unfold appeared_service. destruct (room _ _); [right|by left].
      eexists. split; [|done]. split; [|simpl; lia]. cbn [base]. rewrite update_n.
      destruct (acc !! i) as [t|]; simpl; [destruct (Ha t eq_refl)|]; lia.
    - intros i Hi Hin. apply elem_of_keys in Hin as [? ?]. congruence.
    - intros i a Ha. specialize (Hs i a Ha). split; [by apply young_mono|done]. }
  pose proof (Forall_foldl (fun acc => snd acc = [] /\ map_Forall (fun _ t => young_tracked (k + 1) t) (fst acc))
    (quiet_service (service_total b)) (map_to_list m) (m, [])) as Hf.
  destruct (foldl (quiet_service _) _ _) as [m' found]. cbn [fst snd services set_services] in *.
  destruct Hf as [-> Hm'].
  - split; [done|]. intros i a Ha. apply (Hm i a Ha).
  - intros acc [svc t] [Ha1 Ha2] Hin. unfold quiet_service. destruct (decide _) as [|Hno]; [done|].
    apply eq_None_not_Some in Hno. apply list_elem_of_In, elem_of_map_to_list in Hin.
    destruct (quiet_step _ _ _) as [t' sil] eqn:Eq.
    destruct (quiet_step_young k _ _ t t' sil ltac:(lia) (proj2 (Hm svc t Hin) Hno) Eq) as [Ht ->].
    split; [done|]. cbn [fst]. by apply map_Forall_insert_2.
  - split; [done|]. intros i a Ha. apply map_lookup_filter_Some in Ha as [Ha _]. by apply (Hm' i).
Qed.

Lemma close_templates_young k b s : 0 <= k < 6 -> map_Forall (fun _ t => young_tracked k t) (templates s) ->
  fst (close_templates b s) = [] /\ map_Forall (fun _ t => young_tracked (k + 1) t) (templates (snd (close_templates b s))).
Proof.
  intros Hk Hs. unfold close_templates.
  pose proof (fold_keys (young_tracked k) (young_tracked (k + 1)) (fun acc => snd acc = []) (fun i => template b !! i = None)
    fst (appeared_template (template_severity b)) (map_to_list (template b))) as Hm.
  specialize (Hm (young_mono k)). destruct Hm with (acc := (templates s, @nil Finding)) as [Hf Hm'];
    [|apply NoDup_fst_map_to_list| |done| |].
  - intros acc i c Hacc Ha. unfold appeared_template. destruct (room _ _); [|by split; [|left]].
    assert (n (base (default tracked_default (acc.1 !! i))) <= k) as Hn.
    { destruct (acc.1 !! i) as [t|]; simpl; [destruct (Ha t eq_refl)|]; lia. }
    replace (rate_spiked _ _) with false; cbn [fst snd].
    + split; [done|]. right. eexists. split; [|done]. split; [|simpl; lia]. cbn [base]. rewrite update_n. lia.
    + unfold rate_spiked. replace (WARMUP_BUCKETS <=? _) with false by (unfold WARMUP_BUCKETS; lia). done.
  - intros i Hi Hin. apply elem_of_keys in Hin as [? ?]. congruence.
  - intros i a Ha. specialize (Hs i a Ha). split; [by apply young_mono|done].
  - destruct (foldl (appeared_template _) _ _) as [m f1]. cbn [fst snd] in *. subst f1.
    pose proof (Forall_foldl (fun acc => snd acc = [] /\ map_Forall (fun _ t => young_tracked (k + 1) t) (fst acc))
      (quiet_template (template b) (silent_services s)) (map_to_list m) (m, [])) as Hf.
    destruct (foldl (quiet_template _ _) _ _) as [m' found]. cbn [fst snd templates set_templates] in *.
    destruct Hf as [-> Hm2].
    + split; [done|]. intros i a Ha. apply (Hm' i a Ha).
    + intros acc [key t] [Ha1 Ha2] Hin. unfold quiet_template. destruct (decide _) as [|Hno]; [done|].
      apply eq_None_not_Some in Hno. apply list_elem_of_In, elem_of_map_to_list in Hin.
      destruct (quiet_step _ _ _) as [t' sil] eqn:Eq.
      destruct (quiet_step_young k _ _ t t' sil ltac:(lia) (proj2 (Hm' key t Hin) Hno) Eq) as [Ht ->].
      split; [done|]. cbn [fst]. by apply map_Forall_insert_2.
    + split; [done|]. intros i a Ha. apply map_lookup_filter_Some in Ha as [Ha _]. by apply (Hm2 i).
Qed.

Lemma close_share_young k b s : 0 <= k < 6 -> map_Forall (fun _ b => n b <= k) (share s) ->
  fst (close_share b s) = [] /\ map_Forall (fun _ b => n b <= k + 1) (share (snd (close_share b s))).
Proof.
  intros Hk Hs. unfold close_share.
  destruct (fold_keys (fun b => n b <= k) (fun b => n b <= k + 1) (fun acc => snd acc = []) (fun _ => False)
    fst (close_share_one (service_errors b)) (map_to_list (service_total b))) with (acc := (share s, @nil Finding)) as [Hf Hm];
    [intros; lia| |apply NoDup_fst_map_to_list|done|done| |].
  - intros acc i c Hacc Ha. unfold close_share_one. destruct (_ <? _); [by split; [|left]|].
    destruct (room _ _); [|by split; [|left]]. cbn [negb].
    assert (n (default baseline_default (acc.1 !! i)) <= k) as Hn.
    { destruct (acc.1 !! i) as [t|]; simpl; [specialize (Ha t eq_refl)|]; lia. }
    replace (WARMUP_BUCKETS <=? _) with false by (unfold WARMUP_BUCKETS; lia). simpl.
    split; [done|]. right. eexists. split; [|done]. rewrite update_n. lia.
  - intros i a Ha. specialize (Hs i a Ha). simpl in Hs. split; [lia|done].
  - destruct (foldl _ _ _) as [m found]. cbn [fst snd share set_share] in *. split; [done|]. intros i a Ha. by apply (Hm i).
Qed.

Lemma close_drift_young k b s : 0 <= k < 6 -> map_Forall (fun _ b => n b <= k) (drift s) ->
  fst (close_drift b s) = [] /\ map_Forall (fun _ b => n b <= k + 1) (drift (snd (close_drift b s))).
Proof.
  intros Hk Hs. unfold close_drift.
  destruct (fold_keys (fun b => n b <= k) (fun b => n b <= k + 1) (fun acc => snd acc = []) (fun _ => False)
    fst close_drift_one (map_to_list (numbers_seen b))) with (acc := (drift s, @nil Finding)) as [Hf Hm];
    [intros; lia| |apply NoDup_fst_map_to_list|done|done| |].
  - intros acc i [sum c] Hacc Ha. unfold close_drift_one. destruct (_ <? _); [by split; [|left]|].
    destruct (room _ _); [|by split; [|left]]. cbn [negb].
    assert (n (default baseline_default (acc.1 !! i)) <= k) as Hn.
    { destruct (acc.1 !! i) as [t|]; simpl; [specialize (Ha t eq_refl)|]; lia. }
    replace (DRIFT_WARMUP_BUCKETS <=? _) with false by (unfold DRIFT_WARMUP_BUCKETS; lia). simpl.
    split; [done|]. right. eexists. split; [|done]. rewrite update_n. lia.
  - intros i a Ha. specialize (Hs i a Ha). simpl in Hs. split; [lia|done].
  - destruct (foldl _ _ _) as [m found]. cbn [fst snd drift set_drift] in *. split; [done|]. intros i a Ha. by apply (Hm i).
Qed.

Lemma close_bucket_young k s : 0 <= k < 6 -> young k s ->
  fst (close_bucket s) = [] /\ young (k + 1) (snd (close_bucket s)).
Proof.
  intros Hk (H1 & H2 & H3 & H4). destruct (close_bucket_parts s) as [-> ->].
  set (s1 := set_bucket bucket_default s). cbv zeta.
  destruct (close_services_young k (bucket s) s1 Hk H2) as [-> K2]. pose proof (close_services_frame (bucket s) s1) as F2.
  set (s2 := snd (close_services _ _)) in *.
  assert (map_Forall (fun _ t => young_tracked k t) (templates s2)) as T2 by (by rewrite F2).
  destruct (close_templates_young k (bucket s) s2 Hk T2) as [-> K1]. pose proof (close_templates_frame (bucket s) s2) as F3.
  set (s3 := snd (close_templates _ _)) in *.
  assert (map_Forall (fun _ b => n b <= k) (share s3)) as T3 by (by rewrite F3, F2).
  destruct (close_share_young k (bucket s) s3 Hk T3) as [-> K3]. pose proof (close_share_frame (bucket s) s3) as F4.
  set (s4 := snd (close_share _ _)) in *.
  assert (map_Forall (fun _ b => n b <= k) (drift s4)) as T4 by (by rewrite F4, F3, F2).
  destruct (close_drift_young k (bucket s) s4 Hk T4) as [-> K4]. pose proof (close_drift_frame (bucket s) s4) as F5.
  set (s5 := snd (close_drift _ _)) in *. split; [done|]. unfold young.
  rewrite F5, F4, F3, F2. by repeat (split; [assumption|]).
Qed.

(** The state [k] buckets after a start at [t0] with nothing known. *)
Definition learning (t0 k : Z) (s : Signals) : Prop :=
  0 <= k /\ young k s /\ bucket_start_ms s = t0 - t0 mod BUCKET_MS + k * BUCKET_MS /\
  pairs_learn_until_ms s = t0 + LEARN_MS /\ bigrams_learn_until_ms s = t0 + LEARN_MS.

Lemma learning_close t0 k s : k < 6 -> learning t0 k s ->
  fst (close_bucket s) = [] /\ learning t0 (k + 1) (snd (close_bucket s)).
Proof.
  intros Hk (H0 & H1 & H2 & H3 & H4). destruct (close_bucket_young k s) as [-> Hy]; [lia|done|]. split; [done|].
  split; [lia|]. split; [done|]. split; [rewrite close_bucket_start, H2; lia|].
  destruct (close_bucket_parts s) as [-> _]. cbv zeta. cbn [pairs_learn_until_ms bigrams_learn_until_ms set_bucket_start_ms].
  by rewrite close_drift_frame, close_share_frame, close_templates_frame, close_services_frame.
Qed.

Lemma learning_loop t0 now_ms turns : now_ms < t0 + LEARN_MS -> forall k s, learning t0 k s ->
  fst (close_loop turns now_ms s) = [] /\ exists k', learning t0 k' (snd (close_loop turns now_ms s)).
Proof.
  intros Hn. induction turns as [|turns IH]; intros k s Hs; simpl; [split; [done|by exists k]|].
  destruct (_ <=? _) eqn:E; zbool; [|split; [done|by exists k]].
  assert (k < 6) as Hk.
  { destruct Hs as (_ & _ & Hb & _). revert Hn E. rewrite Hb. unfold LEARN_MS, BUCKET_MS.
    pose proof (Z.mod_pos_bound t0 10000). lia. }
  destruct (learning_close t0 k s Hk Hs) as [H1 H2]. destruct (close_bucket s) as [f1 s1]. cbn [fst snd] in *. subst f1.
  destruct (IH (k + 1) s1 H2) as [H3 H4]. by destruct (close_loop turns now_ms s1).
Qed.

Lemma learning_observe t0 k now_ms record fe s : now_ms < t0 + LEARN_MS -> learning t0 k s ->
  fst (observe now_ms record fe s) = [] /\ learning t0 k (snd (observe now_ms record fe s)).
Proof.
  intros Hn Hs. split.
  - destruct (fst (observe now_ms record fe s)) as [|f fs] eqn:E; [done|exfalso].
    assert (In f (fst (observe now_ms record fe s))) as Hin by (rewrite E; by left).
    destruct Hs as (_ & _ & _ & Hp & Hb).
    destruct (observe_findings _ _ _ _ _ Hin) as (_ & t & _ & [(_ & ? & _)|(prev & _ & _ & ?)]); lia.
  - unfold observe. destruct (template_id record) as [t|]; [|exact Hs].
    set (s2 := set_bucket _ _). assert (learning t0 k s2) as Hs2 by exact Hs.
    assert (learning t0 k (snd (observe_pair now_ms (service record) t fe s2))) as H3.
    { unfold observe_pair. by destruct (decide _). }
    destruct (observe_pair _ _ _ _ _) as [f1 s3]. cbn [snd] in H3. destruct (trace_id record) as [tr|]; [|done].
    unfold observe_trace. pose proof (note_trace_frame tr t s3) as Hf. destruct (note_trace tr t s3) as [prev s4].
    cbn [snd] in Hf. assert (learning t0 k s4) as H4 by (by rewrite Hf).
    destruct prev as [prev|]; [|done]. destruct (_ =? _); [done|]. by destruct (decide _).
Qed.

Definition step_time (x : Step) : Z := match x with Observe now_ms _ _ | Close now_ms => now_ms end.

(** A restart is not a wave of alarms: for the whole first minute after a
    start with nothing known, no detector reports anything, whatever it is
    shown and however often its buckets are closed. *)
Theorem first_minute_quiet t0 xs : 0 <= t0 -> Forall (fun x => step_time x < t0 + LEARN_MS) xs ->
  fst (run xs (new t0 [])) = [].
Proof.
  intros Ht. assert (exists k, learning t0 k (new t0 [])) as [k Hk].
  { exists 0. split; [done|]. split; [by repeat split; apply map_Forall_empty|]. split; [simpl; lia|done]. }
  revert k Hk. generalize (new t0 []). induction xs as [|x xs IH]; intros s k Hs Hx; [done|].
  apply Forall_cons in Hx as [Hx Hxs]. simpl.
  assert (fst (step x s) = [] /\ exists k', learning t0 k' (snd (step x s))) as [H1 [k' H2]].
  { destruct x as [now_ms record fe|now_ms]; simpl in Hx |- *.
    - destruct (learning_observe t0 k now_ms record fe s Hx Hs) as [? ?]. split; [done|]. by exists k.
    - unfold close_buckets. replace (_ <? _) with false; [by eapply learning_loop|]. symmetry. apply Z.ltb_ge.
      destruct Hs as (Hk0 & _ & -> & _). revert Hx. unfold sat_sub, FORGET_AFTER_QUIET, BUCKET_MS, LEARN_MS.
      pose proof (Z.mod_pos_bound t0 10000). lia. }
  destruct (step x s) as [f1 s1]. cbn [fst snd] in *. subst f1. specialize (IH s1 k' H2 Hxs). by destruct (run xs s1).
Qed.

(** ** Baselines that are never dropped *)

Definition no_stall (x : Step) (s : Signals) : Prop :=
  match x with
  | Observe _ _ _ => True
  | Close now_ms => sat_sub now_ms (bucket_start_ms s) <= FORGET_AFTER_QUIET * BUCKET_MS
  end.

Lemma fold_dom_grows {K} `{Countable K} {A B V} (f : gmap K A * B -> V -> gmap K A * B) l acc :
  (forall acc v, dom (fst acc) ⊆ dom (fst (f acc v))) -> dom (fst acc) ⊆ dom (fst (foldl f acc l)).
Proof.
  intros Hf. apply (foldl_preserves (fun a => dom (fst acc) ⊆ dom (fst a))); [|done].
  intros a v Ha. etrans; [exact Ha|apply Hf].
Qed.

Lemma close_share_dom b s : dom (share s) ⊆ dom (share (snd (close_share b s))).
Proof.
  unfold close_share.
  pose proof (fold_dom_grows (close_share_one (service_errors b)) (map_to_list (service_total b)) (share s, [])) as Hf.
  destruct (foldl _ _ _) as [m f]. apply Hf. intros acc [svc c]. unfold close_share_one.
  destruct (_ <? _); [done|]. destruct (room _ _); [|done]. cbn [negb fst]. rewrite dom_insert_L. set_solver.
Qed.

Lemma close_drift_dom b s : dom (drift s) ⊆ dom (drift (snd (close_drift b s))).
Proof.
  unfold close_drift.
  pose proof (fold_dom_grows close_drift_one (map_to_list (numbers_seen b)) (drift s, [])) as Hf.
  destruct (foldl _ _ _) as [m f]. apply Hf. intros acc [key [sum c]]. unfold close_drift_one.
  destruct (_ <? _); [done|]. destruct (room _ _); [|done]. cbn [negb fst]. rewrite dom_insert_L. set_solver.
Qed.

Lemma close_bucket_doms s :
  dom (share s) ⊆ dom (share (snd (close_bucket s))) /\ dom (drift s) ⊆ dom (drift (snd (close_bucket s))).
Proof.
  destruct (close_bucket_parts s) as [-> _].
  set (s1 := set_bucket bucket_default s). cbv zeta.
  pose proof (close_services_frame (bucket s) s1) as F2. set (s2 := snd (close_services _ _)) in *.
  pose proof (close_templates_frame (bucket s) s2) as F3. set (s3 := snd (close_templates _ _)) in *.
  pose proof (close_share_frame (bucket s) s3) as F4. pose proof (close_share_dom (bucket s) s3) as D4.
  set (s4 := snd (close_share _ _)) in *.
  pose proof (close_drift_frame (bucket s) s4) as F5. pose proof (close_drift_dom (bucket s) s4) as D5.
  set (s5 := snd (close_drift _ _)) in *.
  cbn [share drift set_bucket_start_ms]. split.
  - assert (share s3 = share s) as E by (by rewrite F3, F2). rewrite E in D4. by rewrite F5.
  - assert (drift s4 = drift s) as E by (by rewrite F4, F3, F2). by rewrite E in D5.
Qed.

Lemma observe_doms now_ms record fe s :
  share (snd (observe now_ms record fe s)) = share s /\ drift (snd (observe now_ms record fe s)) = drift s.
Proof.
  unfold observe. destruct (template_id record) as [t|]; [|done]. set (s2 := set_bucket _ _).
  assert (share (snd (observe_pair now_ms (service record) t fe s2)) = share s /\
          drift (snd (observe_pair now_ms (service record) t fe s2)) = drift s) as H3.
  { unfold observe_pair. by destruct (decide _). }
  destruct (observe_pair _ _ _ _ _) as [f1 s3]. cbn [snd] in H3. destruct (trace_id record) as [tr|]; [|done].
  unfold observe_trace. pose proof (note_trace_frame tr t s3) as Hf. destruct (note_trace tr t s3) as [prev s4].
  cbn [snd] in Hf. assert (share s4 = share s /\ drift s4 = drift s) as H4 by (by rewrite Hf).
  destruct prev as [prev|]; [|done]. destruct (_ =? _); [done|]. by destruct (decide _).
Qed.

(** (finding) the head of [sync_signals.rs] says a baseline quiet for a long
    time at a low rate is dropped.  Those of the error-share and drift detectors
    never are: short of a stall no step removes one, so once [MAX_KEYS] drift
    baselines exist, no template logged later is ever watched for drift. *)
Theorem drift_never_forgotten x s : capped s -> no_stall x s ->
  dom (share s) ⊆ dom (share (snd (step x s))) /\ dom (drift s) ⊆ dom (drift (snd (step x s))) /\
  (Z.of_nat (size (drift s)) = MAX_KEYS -> dom (drift (snd (step x s))) = dom (drift s)).
Proof.
  intros Hc Hns.
  assert (dom (share s) ⊆ dom (share (snd (step x s))) /\ dom (drift s) ⊆ dom (drift (snd (step x s)))) as [H1 H2].
  { destruct x as [now_ms record fe|now_ms]; simpl in *.
    - by destruct (observe_doms now_ms record fe s) as [-> ->].
    - unfold close_buckets. replace (_ <? _) with false by lia.
      apply (close_loop_invariant (fun s' => dom (share s) ⊆ dom (share s') /\ dom (drift s) ⊆ dom (drift s'))); [|done].
      intros s' [? ?]. destruct (close_bucket_doms s'). split; by etrans. }
  split; [done|]. split; [done|]. intros Hfull. pose proof (step_capped x s Hc) as (_ & _ & _ & _ & Hd & _).
  symmetry. apply set_eq. intros k. split; [apply H2|]. intros Hk.
  destruct (decide (k ∈ dom (drift s))) as [|Hn]; [done|exfalso].
  assert ({[k]} ∪ dom (drift s) ⊆ dom (drift (snd (step x s)))) as Hsub by set_solver.
  apply subseteq_size in Hsub. rewrite size_union, size_singleton, !size_dom in Hsub by set_solver. lia.
Qed.

(** ** Witnesses *)

Definition example_line (svc : string) (t : Z) (obs : Z) : LogRecord :=
  mkRecord (le_bytes 16 t) obs obs 9 None "took 120ms" (Some svc) (Some (le_bytes 16 1)) None [] (Some t).

Lemma close_buckets_complete_witness :
  0 <= 25000 /\ 25000 < bucket_start_ms (snd (close_buckets 25000 (new 5000 []))) + BUCKET_MS.
Proof. split; [lia|]. apply close_buckets_complete. lia. Defined.

Lemma new_pair_once_witness :
  Forall (fun f => f_kind f <> "new_pair"%string)
    (fst (observe 90000 (example_line "api" 7 90) false
       (snd (run [Close 80000] (snd (observe 70000 (example_line "api" 7 70) false (new 0 []))))))).
Proof.
  apply (new_pair_once 70000 (example_line "api" 7 70) false [Close 80000] 90000 (example_line "api" 7 90) false (new 0 []));
    [vm_compute; reflexivity|reflexivity|reflexivity|by eexists].
Defined.

Lemma first_minute_quiet_witness :
  fst (run [Observe 1000 (example_line "api" 7 1) false; Observe 2000 (example_line "api" 8 2) false; Close 59000] (new 500 [])) = [].
Proof.
  apply (first_minute_quiet 500 [Observe 1000 (example_line "api" 7 1) false; Observe 2000 (example_line "api" 8 2) false; Close 59000]).
  - lia.
  - repeat constructor.
Defined.

Lemma drift_never_forgotten_witness :
  dom (drift (new 0 [])) ⊆ dom (drift (snd (step (Close 10000) (new 0 [])))).
Proof.
  apply (drift_never_forgotten (Close 10000) (new 0 [])).
  - apply new_from_capped. vm_compute. discriminate.
  - vm_compute. discriminate.
Defined.
