(* ===== verification/Tenancy.v ===== *)
(** Tenants, indexes and level buckets ([crates/logless-core/src/config.rs]):
    which partition a record goes to and how long it is kept.

    Names are compared after [to_lowercase]; every name that gets that far is
    ASCII, so the ASCII mapping is the Unicode one.  A [Duration] is its
    nanoseconds. *)

From stdpp Require Import sorting.
From S2P Require Import Prelude Text Float Model Lists Partition.
Open Scope string_scope.
Open Scope Z_scope.
Open Scope list_scope.

(** ** Level buckets *)

Record LevelBucket := mkLevelBucket { lb_name : string; lb_min_severity : Z; lb_retention : Z }.
Definition LevelBuckets := list LevelBucket.

Definition as_secs (duration : Z) : Z := duration / 1000000000.
Definition DAY : Z := 24 * 3600 * 1000000000.

Definition level_buckets_default : LevelBuckets :=
  [mkLevelBucket "debug" 0 DAY; mkLevelBucket "info" INFO (7 * DAY); mkLevelBucket "warn_plus" WARN (30 * DAY)].

Inductive ConfigError :=
  | NoBuckets
  | UncoveredSeverity (s : Z)
  | DuplicateMinSeverity (s : Z)
  | DuplicateBucketName
  | BadBucketName (name : string)
  | ZeroRetention (name : string)
  | NoTenants
  | NoIndexes (tenant : string)
  | BadIdent (what value : string)
  | DuplicateIdent (what value : string).

Definition to_upper (c : ascii) : ascii := if is_lower c then ascii_of_N (N_of_ascii c - 32) else c.

Definition bucket_name_problem (name : string) : option string :=
  if String.eqb name "" || (64 <? str_len name) then Some "must be 1 to 64 characters"
  else if negb (str_all (fun c => is_alnum c || one_of "_-+" c) name) then
    Some "may contain only ASCII letters, digits, _ - and + (it is a directory name on disk)"
  else
    let upper := str_map to_upper name in
    let device := in_words upper ["CON"; "PRN"; "AUX"; "NUL"]
      || ((starts_with "COM" upper || starts_with "LPT" upper) && (str_len upper =? 4)
          && match String.get 3 upper with
             | Some c => is_digit c && negb (Ascii.eqb c "0"%char)
             | None => false
             end) in
    if device then Some "is a reserved device name on Windows filesystems" else None.

Definition bucket_le (a b : LevelBucket) : bool := lb_min_severity a <=? lb_min_severity b.

(** The first bucket with a bad name or no retention. *)
Fixpoint check_buckets (l : list LevelBucket) : option ConfigError :=
  match l with
  | [] => None
  | b :: r =>
      if bool_decide (is_Some (bucket_name_problem (lb_name b))) then Some (BadBucketName (lb_name b))
      else if lb_retention b =? 0 then Some (ZeroRetention (lb_name b))
      else check_buckets r
  end.

(** [LevelBuckets::new]. *)
Definition level_buckets_new (buckets : list LevelBucket) : ConfigError + LevelBuckets :=
  match buckets with
  | [] => inl NoBuckets
  | _ =>
      let buckets := stable_sort bucket_le buckets in
      match buckets with
      | first :: _ =>
          if negb (lb_min_severity first =? 0) then inl (UncoveredSeverity 0)
          else
            match adjacent (fun a b => lb_min_severity a =? lb_min_severity b) buckets with
            | Some b => inl (DuplicateMinSeverity (lb_min_severity b))
            | None =>
                match check_buckets buckets with
                | Some e => inl e
                | None =>
                    let names := stable_sort String.leb (List.map (fun b => str_lower (lb_name b)) buckets) in
                    match adjacent String.eqb names with
                    | Some _ => inl DuplicateBucketName
                    | None => inr buckets
                    end
                end
            end
      | [] => inl NoBuckets
      end
  end.

(** [slice::partition_point]: a binary search in a slice the predicate splits,
    which a validated cover is; the length of the prefix where it holds. *)
Fixpoint partition_point {A} (p : A -> bool) (l : list A) : nat :=
  match l with
  | a :: r => if p a then S (partition_point p r) else O
  | [] => O
  end.

Definition bucket_index (bs : LevelBuckets) (severity : Z) : nat :=
  Nat.pred (partition_point (fun b => lb_min_severity b <=? severity) bs).

(** [&self.buckets[idx]]: [None] is the panic of an empty cover. *)
Definition bucket_for (bs : LevelBuckets) (severity : Z) : option LevelBucket :=
  nth_error bs (bucket_index bs severity).

Definition by_name (bs : LevelBuckets) (name : string) : option LevelBucket :=
  List.find (fun b => String.eqb (lb_name b) name) bs.

Definition names_from (bs : LevelBuckets) (severity : Z) : list string :=
  List.map lb_name (skipn (bucket_index bs severity) bs).

Definition max_retention (bs : LevelBuckets) : Z := foldl Z.max 0 (List.map lb_retention bs).

(** ** Tenants *)

Inductive UnknownIndex := RefuseIndex | DefaultIndex.
#[export] Instance UnknownIndex_eq_dec : EqDecision UnknownIndex.
Proof. solve_decision. Defined.

Record IndexConfig := mkIndex { ix_name : string; retention : LevelBuckets }.
Record TenantConfig := mkTenant { tn_id : string; tn_unknown_index : UnknownIndex; indexes : list IndexConfig }.

Definition default_indexes : list IndexConfig := [mkIndex DEFAULT_INDEX level_buckets_default].
Definition default_tenants : list TenantConfig := [mkTenant DEFAULT_TENANT DefaultIndex default_indexes].

Definition ATTR_INDEX : string := "logless.index".
Definition ATTR_TENANT : string := "logless.tenant".

Inductive Route := Known (index : string) | Defaulted (index : string) | Refused.

Record Tenancy := mkTenancy { tenants : list TenantConfig; tc_node : string }.

Fixpoint check_indexes (names : list string) (l : list IndexConfig) : option ConfigError :=
  match l with
  | [] => None
  | i :: r =>
      if negb (valid_ident (ix_name i)) then Some (BadIdent "index name" (ix_name i))
      else if in_words (str_lower (ix_name i)) names then Some (DuplicateIdent "index name" (ix_name i))
      else
        match level_buckets_new (retention i) with
        | inl e => Some e
        | inr _ => check_indexes (names ++ [str_lower (ix_name i)]) r
        end
  end.

Fixpoint check_tenants (seen : list string) (l : list TenantConfig) : option ConfigError :=
  match l with
  | [] => None
  | t :: r =>
      if negb (valid_ident (tn_id t)) then Some (BadIdent "tenant id" (tn_id t))
      else if in_words (str_lower (tn_id t)) seen then Some (DuplicateIdent "tenant id" (tn_id t))
      else
        match indexes t with
        | [] => Some (NoIndexes (tn_id t))
        | ixs =>
            match check_indexes [] ixs with
            | Some e => Some e
            | None => check_tenants (seen ++ [str_lower (tn_id t)]) r
            end
        end
  end.

(** [Tenancy::new]. *)
Definition tenancy_new (ts : list TenantConfig) (node : string) : ConfigError + Tenancy :=
  if negb (valid_ident node) then inl (BadIdent "node id" node)
  else
    match ts with
    | [] => inl NoTenants
    | _ => match check_tenants [] ts with Some e => inl e | None => inr (mkTenancy ts node) end
    end.

Definition single (buckets : LevelBuckets) : Tenancy :=
  mkTenancy [mkTenant DEFAULT_TENANT DefaultIndex [mkIndex DEFAULT_INDEX buckets]] "node-a".

(** [&self.tenants[0]]; [None] is the panic of an empty list. *)
Definition own (t : Tenancy) : option TenantConfig := head (tenants t).
Definition own_tenant (t : Tenancy) : option string := tn_id <$> own t.

(** The position of the index named [default], or 0. *)
Fixpoint position {A} (p : A -> bool) (l : list A) : option nat :=
  match l with
  | [] => None
  | a :: r => if p a then Some O else option_map S (position p r)
  end.
Definition default_at (t : TenantConfig) : nat :=
  default O (position (fun i => String.eqb (ix_name i) DEFAULT_INDEX) (indexes t)).
Definition default_index_in (t : TenantConfig) : option string := ix_name <$> nth_error (indexes t) (default_at t).

Definition default_index (t : Tenancy) : option string := own t ≫= default_index_in.

Definition configured (t : Tenancy) (tenant : string) : option TenantConfig :=
  List.find (fun c => String.eqb (tn_id c) tenant) (tenants t).
Definition has_tenant (t : Tenancy) (tenant : string) : bool := bool_decide (is_Some (configured t tenant)).

Definition find_index (c : TenantConfig) (index : string) : option IndexConfig :=
  List.find (fun i => String.eqb (ix_name i) index) (indexes c).

Definition buckets (t : Tenancy) (tenant index : string) : option LevelBuckets :=
  c ← configured t tenant; i ← find_index c index; Some (retention i).

Definition default_buckets (t : Tenancy) : option LevelBuckets :=
  tn ← own_tenant t; ix ← default_index t; buckets t tn ix.

Fixpoint update_index (name : string) (b : LevelBuckets) (l : list IndexConfig) : list IndexConfig :=
  match l with
  | [] => []
  | i :: r => if String.eqb (ix_name i) name then mkIndex (ix_name i) b :: r else i :: update_index name b r
  end.
Definition set_default_buckets (b : LevelBuckets) (t : Tenancy) : option Tenancy :=
  name ← default_index t;
  match tenants t with
  | c :: r => Some (mkTenancy (mkTenant (tn_id c) (tn_unknown_index c) (update_index name b (indexes c)) :: r) (tc_node t))
  | [] => None
  end.

Definition all_indexes (t : Tenancy) : list (string * string * LevelBuckets) :=
  List.concat (List.map (fun c => List.map (fun i => (tn_id c, ix_name i, retention i)) (indexes c)) (tenants t)).

Definition default_index_of (t : Tenancy) (tenant : string) : option string :=
  configured t tenant ≫= default_index_in.
Definition unknown_index (t : Tenancy) (tenant : string) : option UnknownIndex :=
  tn_unknown_index <$> configured t tenant.
Definition index_of (t : Tenancy) (tenant index : string) : option string :=
  c ← configured t tenant; ix_name <$> find_index c index.

Definition route_in (t : Tenancy) (tenant : string) (requested : option string) : Route :=
  match configured t tenant, default_index_of t tenant with
  | Some c, Some dflt =>
      match requested with
      | None => Known dflt
      | Some r =>
          match find_index c r with
          | Some i => Known (ix_name i)
          | None => if decide (tn_unknown_index c = DefaultIndex) then Defaulted dflt else Refused
          end
      end
  | _, _ => Refused
  end.

Definition route (t : Tenancy) (requested : option string) : option Route :=
  tn ← own_tenant t; Some (route_in t tn requested).

(** ** Routing a record *)

Definition find_attr_by (p : string -> bool) (l : list Attr) : option AttrValue :=
  attr_value <$> List.find (fun a => p (attr_key a)) l.

Definition show_bool (b : bool) : string := if b then "true" else "false".
Definition attr_text (v : AttrValue) : string :=
  match v with
  | AStr s => s
  | AI64 z => show_int z
  | AF64 f => f64_display f
  | ABool b => show_bool b
  end.

Definition set_attributes (l : list Attr) (r : LogRecord) : LogRecord :=
  mkRecord (event_id r) (timestamp_unix_nano r) (observed_unix_nano r) (severity r) (severity_text r) (body r)
    (service r) (trace_id r) (span_id r) l (template_id r).

Definition is_index_key (key k : string) : bool := String.eqb k key || String.eqb k ATTR_INDEX.

Definition tenant_of (t : Tenancy) (record : LogRecord) : option string :=
  match find_attr_by (String.eqb ATTR_TENANT) (attributes record) with
  | Some (AStr s) => Some s
  | Some _ => None
  | None => own_tenant t
  end.

Definition requested_index (key : string) (record : LogRecord) : option string :=
  attr_text <$> find_attr_by (is_index_key key) (attributes record).

(** The record with its index attribute rewritten to the one chosen. *)
Definition rewrite_index (t : Tenancy) (tenant key chosen : string) (record : LogRecord) : LogRecord :=
  let kept := List.filter (fun a => negb (is_index_key key (attr_key a))) (attributes record) in
  set_attributes
    (if bool_decide (Some chosen = default_index_of t tenant) then kept
     else kept ++ [mkAttr ATTR_INDEX (AStr chosen)]) record.

Definition route_record (t : Tenancy) (key : string) (record : LogRecord) : Route * LogRecord :=
  match tenant_of t record with
  | None => (Refused, record)
  | Some tenant =>
      match route_in t tenant (requested_index key record) with
      | Known i => (Known i, rewrite_index t tenant key i record)
      | Defaulted i => (Defaulted i, rewrite_index t tenant key i record)
      | Refused => (Refused, record)
      end
  end.

Example route_sample :
  let t := mkTenancy [mkTenant "acme" DefaultIndex [mkIndex "audit" level_buckets_default; mkIndex "default" level_buckets_default]] "n1" in
  List.map (route_in t "acme") [None; Some "audit"; Some "nope"] = [Known "default"; Known "audit"; Defaulted "default"]
  /\ route_in t "other" None = Refused.
Proof. vm_compute. done. Qed.

(** ** A validated cover *)

Definition cover (bs : LevelBuckets) : Prop :=
  (exists b r, bs = b :: r /\ lb_min_severity b = 0) /\
  StronglySorted (fun a b => lb_min_severity a < lb_min_severity b) bs /\
  List.NoDup (List.map lb_name bs) /\
  Forall (fun b => bucket_name_problem (lb_name b) = None /\ lb_retention b <> 0) bs.

Lemma check_buckets_ok l : check_buckets l = None ->
  Forall (fun b => bucket_name_problem (lb_name b) = None /\ lb_retention b <> 0) l.
Proof.
  induction l as [|b l IH]; simpl; intros H; [constructor|].
  case_bool_decide as E; [done|]. destruct (lb_retention b =? 0) eqn:Er; [done|]. zbool.
  constructor; [|by apply IH]. split; [by apply eq_None_not_Some|done].
Qed.

Lemma strict_NoDup (l : list string) :
  StronglySorted (fun x y => String.leb x y = true /\ String.leb y x = false) l -> List.NoDup l.
Proof.
  induction 1 as [|a l Hs IH Ha]; constructor; [|done]. intros Hin. rewrite Forall_forall in Ha.
  destruct (Ha a) as [H1 H2]; [by apply list_elem_of_In|]. congruence.
Qed.

Lemma level_buckets_new_cover bs lb : level_buckets_new bs = inr lb -> Permutation lb bs /\ cover lb.
Proof.
  unfold level_buckets_new. intros H. destruct bs as [|b0 bs0]; [done|].
  pose proof (stable_sort_perm bucket_le (b0 :: bs0)) as Hp.
  assert (sorted_by bucket_le (stable_sort bucket_le (b0 :: bs0))) as Hs.
  { apply stable_sort_sorted; unfold bucket_le; intros; zbool; [|apply Z.leb_le; lia].
    destruct (lb_min_severity x <=? lb_min_severity y) eqn:?; [by left|right]. zbool. lia. }
  destruct (stable_sort bucket_le (b0 :: bs0)) as [|b r]; [done|].
  destruct (negb _) eqn:E0; [done|]. destruct (adjacent _ (b :: r)) eqn:Ea; [done|].
  destruct (check_buckets _) eqn:Ec; [done|].
  destruct (adjacent String.eqb _) eqn:En; [done|]. injection H as <-.
  split; [done|]. zbool. split; [by exists b, r|]. split; [|split; [|by apply check_buckets_ok]].
  - assert (StronglySorted (fun x y => bucket_le x y = true /\ bucket_le y x = false) (b :: r)) as Hst.
    { eapply (adjacent_strict bucket_le); [| |exact Hs|exact Ea]; unfold bucket_le; intros; zbool;
        [apply Z.leb_le; lia|apply Z.eqb_eq; lia]. }
    clear -Hst. induction Hst as [|a l Hs IH Ha]; constructor; [done|].
    eapply Forall_impl; [exact Ha|]. unfold bucket_le. intros x [? ?]. zbool. lia.
  - assert (List.NoDup (List.map (fun b => str_lower (lb_name b)) (b :: r))) as Hn.
    { rewrite <- (stable_sort_perm String.leb).
      apply strict_NoDup. eapply (adjacent_strict String.leb); [apply str_leb_trans| | |exact En].
      - intros x y ? ?. apply String.eqb_eq. by apply String.leb_antisym.
      - apply stable_sort_sorted; [apply String.leb_total|apply str_leb_trans]. }
    rewrite <- (List.map_map lb_name str_lower) in Hn. by apply NoDup_map_inv in Hn.
Qed.

Lemma find_unique {A} (f : A -> string) l b : List.NoDup (List.map f l) -> In b l ->
  List.find (fun x => String.eqb (f x) (f b)) l = Some b.
Proof.
  induction l as [|a l IH]; simpl; intros Hn; [done|]. inversion Hn as [|? ? Hna Hn']; subst.
  intros [->|Hin]; [by rewrite String.eqb_refl|].
  destruct (String.eqb_spec (f a) (f b)) as [E|_]; [|by apply IH].
  exfalso. apply Hna. rewrite E. by apply in_map.
Qed.

(** Where the cover splits at a severity. *)
Lemma partition_point_split bs s : StronglySorted (fun a b => lb_min_severity a < lb_min_severity b) bs ->
  exists lo hi, bs = lo ++ hi /\ partition_point (fun b => lb_min_severity b <=? s) bs = List.length lo /\
    Forall (fun b => lb_min_severity b <= s) lo /\ Forall (fun b => s < lb_min_severity b) hi.
Proof.
  induction 1 as [|b r Hs IH Hb]; [by exists [], []|]. simpl.
  destruct (lb_min_severity b <=? s) eqn:E; zbool.
  - destruct IH as (lo & hi & -> & Hp & Hlo & Hhi). exists (b :: lo), hi. simpl. rewrite Hp.
    split; [done|]. split; [done|]. split; [by constructor|done].
  - exists [], (b :: r). split; [done|]. split; [done|]. split; [constructor|]. constructor; [lia|].
    eapply Forall_impl; [exact Hb|]. intros x Hx. simpl in Hx. lia.
Qed.

(** The bucket of a severity, as a split of the cover. *)
Lemma bucket_for_split bs s : cover bs -> 0 <= s ->
  exists lo b hi, bs = lo ++ b :: hi /\ bucket_index bs s = List.length lo /\ bucket_for bs s = Some b /\
    lb_min_severity b <= s /\ Forall (fun x => lb_min_severity x < lb_min_severity b) lo /\
    Forall (fun x => s < lb_min_severity x) hi.
Proof.
  intros ((b0 & r0 & Hbs & H0) & Hs & _) Hpos.
  destruct (partition_point_split bs s Hs) as (lo & hi & Hsp & Hp & Hlo & Hhi).
  destruct (last_snoc_or_nil lo) as [->|(lo' & b & ->)].
  - exfalso. simpl in Hsp. subst hi. rewrite Hbs in Hhi. inversion Hhi; subst. lia.
  - exists lo', b, hi. rewrite <- app_assoc in Hsp. split; [done|].
    assert (bucket_index bs s = List.length lo') as Hi.
    { unfold bucket_index. rewrite Hp, length_app. simpl. lia. }
    split; [done|]. split; [|split; [|split; [|done]]].
    + unfold bucket_for. rewrite Hi, Hsp, nth_error_app2 by done. by rewrite Nat.sub_diag.
    + apply Forall_app in Hlo as [_ Hlo]. by inversion Hlo.
    + rewrite Hsp in Hs. apply Forall_forall. intros x Hx. clear -Hs Hx.
      induction lo' as [|a lo' IH]; [by apply not_elem_of_nil in Hx|].
      simpl in Hs. inversion Hs as [|? ? Hs' Ha]; subst. apply elem_of_cons in Hx as [->|Hx]; [|by apply IH].
      rewrite Forall_app in Ha. destruct Ha as [_ Ha]. by inversion Ha.
Qed.

Lemma names_from_spec bs lb s : level_buckets_new bs = inr lb -> 0 <= s -> forall name,
  In name (names_from lb s) <-> exists s' b', s <= s' /\ bucket_for lb s' = Some b' /\ lb_name b' = name.
Proof.
  intros Hn Hs name. destruct (level_buckets_new_cover bs lb Hn) as [_ Hc].
  destruct (bucket_for_split lb s Hc Hs) as (lo & b & hi & Hsp & Hi & Hb & Hle & Hlo & Hhi).
  unfold names_from. rewrite Hi, Hsp, skipn_app, skipn_all, Nat.sub_diag. simpl.
  split.
  + intros Hin. assert (exists x, lb_name x = name /\ In x (b :: hi)) as (x & <- & Hx).
    { destruct Hin as [<-|Hin]; [exists b; by split; [|left]|]. apply in_map_iff in Hin as (x & <- & Hx).
      exists x. by split; [|right]. }
    (* a later bucket is the bucket of its own minimum *)
    destruct Hx as [->|Hx]; [exists s, x; split; [lia|by rewrite <- Hsp]|].
    rewrite Forall_forall in Hhi. pose proof (Hhi x ltac:(by apply list_elem_of_In)) as Hsx.
    destruct (bucket_for_split lb (lb_min_severity x) Hc ltac:(lia)) as (lo2 & b2 & hi2 & Hsp2 & _ & Hb2 & Hle2 & Hlo2 & Hhi2).
    exists (lb_min_severity x), x. split; [lia|]. split; [|done]. rewrite <- Hsp, Hb2.
    assert (In x lb) as Hxl by (rewrite Hsp; apply in_or_app; right; by right).
    rewrite Hsp2 in Hxl. apply in_app_or in Hxl as [Hxl|[->|Hxl]]; [|done|].
    * forall_in Hlo2 x. lia.
    * forall_in Hhi2 x. lia.
  + intros (s' & b' & Hss & Hb' & <-). rewrite <- Hsp in Hb'.
    destruct (bucket_for_split lb s' Hc ltac:(lia)) as (lo2 & b2 & hi2 & Hsp2 & _ & Hb2 & Hle2 & Hlo2 & Hhi2).
    assert (b2 = b') as -> by congruence.
    assert (In b' lb) as Hin by (rewrite Hsp2; apply in_elt).
    rewrite Hsp in Hin. apply in_app_or in Hin as [Hin|[->|Hin]]; [exfalso|by left|right; by apply in_map].
    forall_in Hlo b'.
    assert (In b lb) as Hbl by (rewrite Hsp; apply in_elt). rewrite Hsp2 in Hbl.
    apply in_app_or in Hbl as [Hbl|[Hbl|Hbl]]; [|subst; lia|].
    * forall_in Hlo2 b. lia.
    * forall_in Hhi2 b. lia.
Qed.

(** A validated set of level buckets is a partition of the severities: it
    holds exactly the buckets given, every severity has a bucket, the one with
    the greatest minimum not above it, that bucket is found again by its
    (directory) name, and a read of "this severity and up" opens exactly the
    buckets that can hold such a record. *)
Theorem level_buckets_partition bs lb s : level_buckets_new bs = inr lb -> 0 <= s ->
  Permutation lb bs /\
  exists b, bucket_for lb s = Some b /\ In b lb /\ lb_min_severity b <= s /\
    (forall b', In b' lb -> lb_min_severity b' <= s -> lb_min_severity b' <= lb_min_severity b) /\
    by_name lb (lb_name b) = Some b /\
    (forall name, In name (names_from lb s) <->
       exists s' b', s <= s' /\ bucket_for lb s' = Some b' /\ lb_name b' = name).
Proof.
  intros Hn Hs. destruct (level_buckets_new_cover bs lb Hn) as [Hp Hc]. split; [done|].
  destruct (bucket_for_split lb s Hc Hs) as (lo & b & hi & Hsp & Hi & Hb & Hle & Hlo & Hhi).
  pose proof Hc as (_ & Hst & Hnd & _).
  exists b. split; [done|]. split; [rewrite Hsp; apply in_elt|]. split; [done|].
  split; [|split; [apply find_unique; [done|rewrite Hsp; apply in_elt]|]].
  - intros b' Hin Hle'. rewrite Hsp in Hin. apply in_app_or in Hin as [Hin|[<-|Hin]]; [|lia|].
    + forall_in Hlo b'. lia.
    + forall_in Hhi b'. lia.
  - by apply (names_from_spec bs).
Qed.

(** ** A validated tenancy *)

Lemma in_words_spec w l : in_words w l = true <-> In w l.
Proof.
  unfold in_words. rewrite existsb_exists. split.
  - intros (x & Hx & E). by apply String.eqb_eq in E as ->.
  - intros Hx. exists w. split; [done|apply String.eqb_refl].
Qed.

Definition index_ok (i : IndexConfig) : Prop :=
  valid_ident (ix_name i) = true /\ exists lb, level_buckets_new (retention i) = inr lb.

Lemma check_indexes_ok l : forall names, check_indexes names l = None ->
  Forall index_ok l /\ List.NoDup (List.map ix_name l) /\
  forall i, In i l -> ~ In (str_lower (ix_name i)) names.
Proof.
  induction l as [|i l IH]; simpl; intros names H; [by repeat constructor|].
  destruct (valid_ident (ix_name i)) eqn:Ev; [simpl in H|done].
  destruct (in_words _ names) eqn:Ew; [done|]. destruct (level_buckets_new (retention i)) as [e|lb] eqn:El; [done|].
  destruct (IH _ H) as (H1 & H2 & H3).
  assert (~ In (str_lower (ix_name i)) names) as Hn by (intros Hin; apply in_words_spec in Hin; congruence).
  split; [constructor; [by split; [|exists lb]|done]|]. split.
  - constructor; [|done]. intros Hin. apply in_map_iff in Hin as (j & Hj & Hin).
    apply (H3 j Hin). rewrite Hj. apply in_or_app. right. by left.
  - intros j [<-|Hin]; [done|]. intros Hc. apply (H3 j Hin). apply in_or_app. by left.
Qed.

Definition tenant_ok (t : TenantConfig) : Prop :=
  valid_ident (tn_id t) = true /\ indexes t <> [] /\ Forall index_ok (indexes t) /\
  List.NoDup (List.map ix_name (indexes t)).

Lemma check_tenants_ok l : forall seen, check_tenants seen l = None ->
  Forall tenant_ok l /\ List.NoDup (List.map tn_id l) /\ forall t, In t l -> ~ In (str_lower (tn_id t)) seen.
Proof.
  induction l as [|t l IH]; simpl; intros seen H; [by repeat constructor|].
  destruct (valid_ident (tn_id t)) eqn:Ev; [simpl in H|done].
  destruct (in_words _ seen) eqn:Ew; [done|]. destruct (indexes t) as [|i ixs] eqn:Ei; [done|].
  change (match check_indexes [] (i :: ixs) with Some e => Some e | None => check_tenants (seen ++ [str_lower (tn_id t)]) l end = None) in H.
  destruct (check_indexes [] (i :: ixs)) eqn:Ec; [done|].
  destruct (check_indexes_ok _ _ Ec) as (C1 & C2 & _). destruct (IH _ H) as (H1 & H2 & H3).
  assert (~ In (str_lower (tn_id t)) seen) as Hn by (intros Hin; apply in_words_spec in Hin; congruence).
  split; [constructor; [|done]; unfold tenant_ok; rewrite Ei; by split_and!|]. split.
  - constructor; [|done]. intros Hin. apply in_map_iff in Hin as (j & Hj & Hin).
    apply (H3 j Hin). rewrite Hj. apply in_or_app. right. by left.
  - intros j [<-|Hin]; [done|]. intros Hc. apply (H3 j Hin). apply in_or_app. by left.
Qed.

Definition tenancy_ok (t : Tenancy) : Prop :=
  tenants t <> [] /\ valid_ident (tc_node t) = true /\ Forall tenant_ok (tenants t) /\
  List.NoDup (List.map tn_id (tenants t)).

Lemma tenancy_new_ok ts node t : tenancy_new ts node = inr t ->
  t = mkTenancy ts node /\ tenancy_ok t.
Proof.
  unfold tenancy_new. intros H. destruct (valid_ident node) eqn:Ev; [simpl in H|done].
  destruct ts as [|a r]; [done|]. destruct (check_tenants [] (a :: r)) eqn:E; [done|]. injection H as <-.
  destruct (check_tenants_ok _ _ E) as (H1 & H2 & _). by repeat split.
Qed.

Lemma configured_in t c : tenancy_ok t -> In c (tenants t) -> configured t (tn_id c) = Some c.
Proof. intros (_ & _ & _ & Hn) Hin. by apply (find_unique tn_id). Qed.

Lemma position_bound {A} (p : A -> bool) l n : position p l = Some n -> (n < List.length l)%nat.
Proof.
  revert n. induction l as [|a l IH]; simpl; intros n H; [done|]. destruct (p a); [injection H as <-; lia|].
  destruct (position p l) as [m|]; [|done]. injection H as <-. specialize (IH m eq_refl). lia.
Qed.

Lemma default_index_in_ok c : tenant_ok c -> exists i, default_index_in c = Some (ix_name i) /\ In i (indexes c).
Proof.
  intros (_ & Hne & _). unfold default_index_in.
  destruct (nth_error (indexes c) (default_at c)) as [i|] eqn:E; [exists i; split; [done|by eapply nth_error_In]|].
  exfalso. apply nth_error_None in E. unfold default_at in E.
  destruct (position _ (indexes c)) as [n|] eqn:Ep; simpl in E.
  - apply position_bound in Ep. lia.
  - destruct (indexes c); [done|simpl in E; lia].
Qed.

Lemma find_some_in {A} (f : A -> string) l k i : List.find (fun x => String.eqb (f x) k) l = Some i -> In i l /\ f i = k.
Proof. intros H. apply find_some in H as [Hin He]. by apply String.eqb_eq in He. Qed.

(** Where [route_in] sends a record is an index the tenant has. *)
Lemma route_in_spec t tenant requested : tenancy_ok t ->
  match route_in t tenant requested with
  | Known i => index_of t tenant i = Some i /\ requested = Some i \/ requested = None /\ default_index_of t tenant = Some i /\ index_of t tenant i = Some i
  | Defaulted i => default_index_of t tenant = Some i /\ index_of t tenant i = Some i
  | Refused => True
  end.
Proof.
  intros Ht. pose proof Ht as (_ & _ & Hall & _). unfold route_in, index_of, default_index_of.
  destruct (configured t tenant) as [c|] eqn:Ec; [|done]. cbn [mbind option_bind].
  apply (find_some_in tn_id) in Ec as [Hc _]. forall_in Hall c. pose proof Hall as (_ & _ & _ & Hnd).
  destruct (default_index_in_ok c Hall) as (d & -> & Hd).
  assert (find_index c (ix_name d) = Some d) as Hfd by by apply (find_unique ix_name).
  destruct requested as [r|]; [|right; by rewrite Hfd].
  destruct (find_index c r) as [i|] eqn:Ei.
  - apply (find_some_in ix_name) in Ei as [Hi <-]. left.
    assert (find_index c (ix_name i) = Some i) as -> by by apply (find_unique ix_name). done.
  - destruct (decide _); [|done]. by rewrite Hfd.
Qed.

Lemma find_filter_none {A} (p : A -> bool) l : List.find p (List.filter (fun a => negb (p a)) l) = None.
Proof. induction l as [|a l IH]; simpl; [done|]. destruct (p a) eqn:E; simpl; [done|]. by rewrite E. Qed.

Lemma filter_filter_same {A} (p : A -> bool) l : List.filter p (List.filter p l) = List.filter p l.
Proof. induction l as [|a l IH]; simpl; [done|]. destruct (p a) eqn:E; simpl; [by rewrite E, IH|done]. Qed.

Lemma find_app {A} (p : A -> bool) l k :
  List.find p (l ++ k) = match List.find p l with Some a => Some a | None => List.find p k end.
Proof. induction l as [|a l IH]; simpl; [done|]. by destruct (p a). Qed.

Lemma find_filter_other {A} (p q : A -> bool) l : (forall a, p a = true -> q a = true) ->
  List.find p (List.filter q l) = List.find p l.
Proof.
  intros Hpq. induction l as [|a l IH]; simpl; [done|]. destruct (q a) eqn:Eq; simpl; [by rewrite IH|].
  destruct (p a) eqn:Ep; [|done]. rewrite (Hpq a Ep) in Eq. done.
Qed.

Lemma rewrite_index_attrs t tenant key i r :
  find_attr_by (is_index_key key) (attributes (rewrite_index t tenant key i r)) =
    (if bool_decide (Some i = default_index_of t tenant) then None else Some (AStr i)) /\
  (key <> ATTR_TENANT -> tenant_of t (rewrite_index t tenant key i r) = tenant_of t r) /\
  rewrite_index t tenant key i (rewrite_index t tenant key i r) = rewrite_index t tenant key i r.
Proof.
  unfold rewrite_index, find_attr_by. cbn [attributes set_attributes].
  assert (forall k, is_index_key key k = true -> key <> ATTR_TENANT -> String.eqb ATTR_TENANT k = false) as Hk.
  { unfold is_index_key. intros k H Hne. apply String.eqb_neq. intros <-.
    apply orb_true_iff in H as [H|H]; [|done]. apply String.eqb_eq in H. congruence. }
  pose proof (find_filter_none (fun a => is_index_key key (attr_key a)) (attributes r)) as Hnone.
  assert (is_index_key key ATTR_INDEX = true) as HA.
  { unfold is_index_key. by rewrite String.eqb_refl, orb_true_r. }
  split; [|split].
  - case_bool_decide; cbn [fmap option_fmap option_map]; [by rewrite Hnone|].
    rewrite find_app, Hnone. simpl. by rewrite HA.
  - intros Hne. unfold tenant_of, find_attr_by. cbn [attributes set_attributes].
    assert (List.find (fun a => String.eqb ATTR_TENANT (attr_key a))
        (List.filter (fun a => negb (is_index_key key (attr_key a))) (attributes r)) =
      List.find (fun a => String.eqb ATTR_TENANT (attr_key a)) (attributes r)) as Hf.
    { apply find_filter_other. intros a Ha. apply negb_true_iff. apply String.eqb_eq in Ha.
      destruct (is_index_key key (attr_key a)) eqn:E; [|done].
      specialize (Hk _ E Hne). rewrite <- Ha, String.eqb_refl in Hk. done. }
    case_bool_decide; [by rewrite Hf|]. rewrite find_app, Hf. destruct (List.find _ (attributes r)); [done|].
    cbn [List.find attr_key]. by rewrite (Hk ATTR_INDEX).
  - match goal with |- set_attributes ?a (set_attributes _ ?x) = set_attributes ?c ?x =>
      change (set_attributes a x = set_attributes c x) end. f_equal. case_bool_decide; [by rewrite filter_filter_same|].
    rewrite List.filter_app, filter_filter_same. cbn [List.filter attr_key]. rewrite HA. simpl. by rewrite app_nil_r.
Qed.

(** Routing a record is sound and stable.  It never sends a record to an
    index its tenant does not have, a refused record is untouched, and the record
    it rewrote routes to the same index again, as one that was asked for, with
    nothing left to rewrite. *)
Theorem route_record_stable ts node t key r route r' : tenancy_new ts node = inr t -> key <> ATTR_TENANT ->
  route_record t key r = (route, r') ->
  match route with
  | Refused => r' = r
  | Known i | Defaulted i =>
      exists tenant, tenant_of t r = Some tenant /\ index_of t tenant i = Some i /\ is_Some (buckets t tenant i) /\
        route_record t key r' = (Known i, r')
  end.
Proof.
  intros Hnew Hkey Hr. destruct (tenancy_new_ok _ _ _ Hnew) as [_ Ht]. unfold route_record in Hr.
  destruct (tenant_of t r) as [tenant|] eqn:Etn; [|injection Hr as <- <-; done].
  pose proof (route_in_spec t tenant (requested_index key r) Ht) as Hs.
  assert (forall i, index_of t tenant i = Some i -> default_index_of t tenant <> None ->
    is_Some (buckets t tenant i) /\
    route_record t key (rewrite_index t tenant key i r) = (Known i, rewrite_index t tenant key i r)) as Hgo.
  { intros i Hi Hd. destruct (rewrite_index_attrs t tenant key i r) as (Ha & Htn & Hid).
    unfold index_of in Hi. destruct (configured t tenant) as [c|] eqn:Ec; [|done]. cbn [mbind option_bind] in Hi.
    destruct (find_index c i) as [ic|] eqn:Ei; [|done].
    split; [unfold buckets; rewrite Ec; cbn [mbind option_bind]; rewrite Ei; by eexists|].
    unfold route_record. rewrite (Htn Hkey), Etn. unfold requested_index. rewrite Ha.
    unfold route_in. rewrite Ec. destruct (default_index_of t tenant) as [d|] eqn:Ed; [|done].
    case_bool_decide as Eb; cbn [fmap option_fmap option_map].
    - injection Eb as ->. by rewrite Hid.
    - cbn [attr_text]. rewrite Ei. apply (find_some_in ix_name) in Ei as [_ ->]. by rewrite Hid. }
  unfold route_in in Hr, Hs. destruct (configured t tenant) as [c|] eqn:Ec; [|injection Hr as <- <-; done].
  destruct (default_index_of t tenant) as [d|] eqn:Ed; [|injection Hr as <- <-; done].
  destruct (match requested_index key r with None => _ | Some _ => _ end) as [i|i|]; injection Hr as <- <-.
  - exists tenant. split; [done|]. assert (index_of t tenant i = Some i) as Hi by (by destruct Hs as [[? _]|(_ & _ & ?)]).
    split; [done|]. by apply Hgo.
  - exists tenant. split; [done|]. destruct Hs as [_ Hi]. split; [done|]. by apply Hgo.
  - done.
Qed.

(** Every index a tenancy lists is found again under its tenant and name,
    and only those are; its own default index always exists. *)
Theorem tenancy_lookup ts node t tn ix b : tenancy_new ts node = inr t ->
  (In (tn, ix, b) (all_indexes t) <-> buckets t tn ix = Some b) /\ is_Some (default_buckets t).
Proof.
  intros Hnew. destruct (tenancy_new_ok _ _ _ Hnew) as [_ Ht]. pose proof Ht as (Hne & _ & Hall & Hnd). split; [split|].
  - unfold all_indexes. intros Hin. apply in_concat in Hin as (l & Hl & Hin). apply in_map_iff in Hl as (c & <- & Hc).
    apply in_map_iff in Hin as (i & Heq & Hi). injection Heq as <- <- <-. unfold buckets.
    rewrite (configured_in t c Ht Hc). cbn [mbind option_bind]. forall_in Hall c. destruct Hall as (_ & _ & _ & Hn).
    assert (find_index c (ix_name i) = Some i) as -> by by apply (find_unique ix_name). done.
  - unfold buckets. intros Hb. destruct (configured t tn) as [c|] eqn:Ec; [|done]. cbn [mbind option_bind] in Hb.
    destruct (find_index c ix) as [i|] eqn:Ei; [|done]. injection Hb as <-.
    apply (find_some_in tn_id) in Ec as [Hc <-]. apply (find_some_in ix_name) in Ei as [Hi <-].
    unfold all_indexes. apply in_concat. exists (List.map (fun i => (tn_id c, ix_name i, retention i)) (indexes c)).
    split; [by apply (in_map (fun c => List.map (fun i => (tn_id c, ix_name i, retention i)) (indexes c)))|]. by apply (in_map (fun i => (tn_id c, ix_name i, retention i))).
  - unfold default_buckets, own_tenant, default_index, own. destruct (tenants t) as [|c r] eqn:E; [done|].
    cbn [head fmap option_fmap option_map mbind option_bind].
    assert (In c (tenants t)) as Hc by (rewrite E; by left).
    rewrite <- E in *. pose proof Hall as Hallc. forall_in Hallc c.
    destruct (default_index_in_ok c Hallc) as (i & -> & Hi). cbn [mbind option_bind].
    unfold buckets. rewrite (configured_in t c Ht Hc). cbn [mbind option_bind]. destruct Hallc as (_ & _ & _ & Hn).
    assert (find_index c (ix_name i) = Some i) as -> by by apply (find_unique ix_name). by eexists.
Qed.

(** ** Witnesses *)

Definition example_tenants : list TenantConfig :=
  [mkTenant "acme" DefaultIndex [mkIndex "audit" level_buckets_default; mkIndex "default" level_buckets_default]].
Definition example_tenancy : Tenancy := mkTenancy example_tenants "n1".
Definition example_record : LogRecord :=
  set_attributes [mkAttr "index" (AStr "audit"); mkAttr "k" (AI64 1)] (new_record [] 0 9 "line").

Lemma level_buckets_partition_witness :
  exists b, bucket_for level_buckets_default 14 = Some b /\ In b level_buckets_default /\ lb_min_severity b <= 14.
Proof.
  destruct (level_buckets_partition level_buckets_default level_buckets_default 14) as [_ (b & H1 & H2 & H3 & _)];
    [reflexivity|lia|by exists b].
Defined.

Lemma route_record_stable_witness :
  exists tenant, tenant_of example_tenancy example_record = Some tenant /\ index_of example_tenancy tenant "audit" = Some "audit".
Proof.
  destruct (route_record_stable example_tenants "n1" example_tenancy "index" example_record (Known "audit")
    (snd (route_record example_tenancy "index" example_record))) as (tenant & H1 & H2 & _);
    [reflexivity|discriminate|reflexivity|by exists tenant].
Defined.

Lemma tenancy_lookup_witness :
  (In ("acme", "audit", level_buckets_default) (all_indexes example_tenancy) <->
   buckets example_tenancy "acme" "audit" = Some level_buckets_default) /\ is_Some (default_buckets example_tenancy).
Proof. apply (tenancy_lookup example_tenants "n1" example_tenancy). reflexivity. Defined.
