(* ===== verification/PartsEdge.v ===== *)
(** The edge's side of the part lifecycle
    ([crates/logless-core/src/parts_edge.rs]): pinning the files central has not
    confirmed, the upload timer, and telling central about files that are gone.

    The upload state file ([parts.rs], [load_state_lines] and [drop_state]) is
    the list of its lines; the answers of central, of the job launcher and of the
    file system are arguments.  A [Duration] is its nanoseconds. *)

From stdpp Require Import sorting.
From S2P Require Import Prelude Text Lists Partition.
Open Scope string_scope.
Open Scope Z_scope.
Open Scope list_scope.

Definition ALL_TIME_END_MS : Z := 9000000000000.
Definition MIN_INTERVAL : Z := 10 * 1000000000.
Definition MAX_PIN_SHARE : Z := 4.
Definition MAX_RETIRE_BACKOFF_MS : Z := 300000.
Definition BACKLOG_EVERY_MS : Z := 5000.
Definition RETIRE_EVERY_MS : Z := 10000.

Definition as_millis (duration : Z) : Z := duration / 1000000.
Definition as_secs (duration : Z) : Z := duration / 1000000000.

Record EdgePartsConfig := mkEdgeParts { interval : Z; pin_bytes : Z; pin_age : Z }.
Definition edge_parts_default : EdgePartsConfig := mkEdgeParts 0 (1024 * 1024 * 1024) (7 * 24 * 3600 * 1000000000).

Definition timer_on (c : EdgePartsConfig) : bool := negb (interval c =? 0).
Definition check (c : EdgePartsConfig) : option string :=
  if timer_on c && (interval c <? MIN_INTERVAL) then Some "must be 0s (off) or at least 10s" else None.

Record EdgePartsStatus := mkEdgeStatus {
  interval_secs : Z;
  last_run_ms : option Z;
  last_run_state : option string;
  last_run_uploaded : Z;
  last_run_error : option string;
  next_run_ms : option Z;
  runs : Z;
  skipped_busy : Z;
  backlog_parts : Z;
  backlog_bytes : Z;
  pin_enabled : bool;
  pin_limit_bytes : Z;
  pin_age_secs : Z;
  pinned_parts : Z;
  pinned_bytes : Z;
  unpinned_parts : Z;
  unpinned_bytes : Z;
  gave_up_parts : Z;
  gave_up_rows : Z;
  gave_up_bytes : Z;
  retire_pending : Z;
  retired : Z;
  retire_error : option string
}.
Definition edge_status_default : EdgePartsStatus :=
  mkEdgeStatus 0 None None 0 None None 0 0 0 0 false 0 0 0 0 0 0 0 0 0 0 0 None.

Definition set_interval_secs (v : Z) (s : EdgePartsStatus) : EdgePartsStatus :=
  mkEdgeStatus v (last_run_ms s) (last_run_state s) (last_run_uploaded s) (last_run_error s) (next_run_ms s) (runs s) (skipped_busy s) (backlog_parts s) (backlog_bytes s) (pin_enabled s) (pin_limit_bytes s) (pin_age_secs s) (pinned_parts s) (pinned_bytes s) (unpinned_parts s) (unpinned_bytes s) (gave_up_parts s) (gave_up_rows s) (gave_up_bytes s) (retire_pending s) (retired s) (retire_error s).
Definition set_last_run_ms (v : option Z) (s : EdgePartsStatus) : EdgePartsStatus :=
  mkEdgeStatus (interval_secs s) v (last_run_state s) (last_run_uploaded s) (last_run_error s) (next_run_ms s) (runs s) (skipped_busy s) (backlog_parts s) (backlog_bytes s) (pin_enabled s) (pin_limit_bytes s) (pin_age_secs s) (pinned_parts s) (pinned_bytes s) (unpinned_parts s) (unpinned_bytes s) (gave_up_parts s) (gave_up_rows s) (gave_up_bytes s) (retire_pending s) (retired s) (retire_error s).
Definition set_last_run_state (v : option string) (s : EdgePartsStatus) : EdgePartsStatus :=
  mkEdgeStatus (interval_secs s) (last_run_ms s) v (last_run_uploaded s) (last_run_error s) (next_run_ms s) (runs s) (skipped_busy s) (backlog_parts s) (backlog_bytes s) (pin_enabled s) (pin_limit_bytes s) (pin_age_secs s) (pinned_parts s) (pinned_bytes s) (unpinned_parts s) (unpinned_bytes s) (gave_up_parts s) (gave_up_rows s) (gave_up_bytes s) (retire_pending s) (retired s) (retire_error s).
Definition set_last_run_uploaded (v : Z) (s : EdgePartsStatus) : EdgePartsStatus :=
  mkEdgeStatus (interval_secs s) (last_run_ms s) (last_run_state s) v (last_run_error s) (next_run_ms s) (runs s) (skipped_busy s) (backlog_parts s) (backlog_bytes s) (pin_enabled s) (pin_limit_bytes s) (pin_age_secs s) (pinned_parts s) (pinned_bytes s) (unpinned_parts s) (unpinned_bytes s) (gave_up_parts s) (gave_up_rows s) (gave_up_bytes s) (retire_pending s) (retired s) (retire_error s).
Definition set_last_run_error (v : option string) (s : EdgePartsStatus) : EdgePartsStatus :=
  mkEdgeStatus (interval_secs s) (last_run_ms s) (last_run_state s) (last_run_uploaded s) v (next_run_ms s) (runs s) (skipped_busy s) (backlog_parts s) (backlog_bytes s) (pin_enabled s) (pin_limit_bytes s) (pin_age_secs s) (pinned_parts s) (pinned_bytes s) (unpinned_parts s) (unpinned_bytes s) (gave_up_parts s) (gave_up_rows s) (gave_up_bytes s) (retire_pending s) (retired s) (retire_error s).
Definition set_next_run_ms (v : option Z) (s : EdgePartsStatus) : EdgePartsStatus :=
  mkEdgeStatus (interval_secs s) (last_run_ms s) (last_run_state s) (last_run_uploaded s) (last_run_error s) v (runs s) (skipped_busy s) (backlog_parts s) (backlog_bytes s) (pin_enabled s) (pin_limit_bytes s) (pin_age_secs s) (pinned_parts s) (pinned_bytes s) (unpinned_parts s) (unpinned_bytes s) (gave_up_parts s) (gave_up_rows s) (gave_up_bytes s) (retire_pending s) (retired s) (retire_error s).
Definition set_runs (v : Z) (s : EdgePartsStatus) : EdgePartsStatus :=
  mkEdgeStatus (interval_secs s) (last_run_ms s) (last_run_state s) (last_run_uploaded s) (last_run_error s) (next_run_ms s) v (skipped_busy s) (backlog_parts s) (backlog_bytes s) (pin_enabled s) (pin_limit_bytes s) (pin_age_secs s) (pinned_parts s) (pinned_bytes s) (unpinned_parts s) (unpinned_bytes s) (gave_up_parts s) (gave_up_rows s) (gave_up_bytes s) (retire_pending s) (retired s) (retire_error s).
Definition set_skipped_busy (v : Z) (s : EdgePartsStatus) : EdgePartsStatus :=
  mkEdgeStatus (interval_secs s) (last_run_ms s) (last_run_state s) (last_run_uploaded s) (last_run_error s) (next_run_ms s) (runs s) v (backlog_parts s) (backlog_bytes s) (pin_enabled s) (pin_limit_bytes s) (pin_age_secs s) (pinned_parts s) (pinned_bytes s) (unpinned_parts s) (unpinned_bytes s) (gave_up_parts s) (gave_up_rows s) (gave_up_bytes s) (retire_pending s) (retired s) (retire_error s).
Definition set_backlog_parts (v : Z) (s : EdgePartsStatus) : EdgePartsStatus :=
  mkEdgeStatus (interval_secs s) (last_run_ms s) (last_run_state s) (last_run_uploaded s) (last_run_error s) (next_run_ms s) (runs s) (skipped_busy s) v (backlog_bytes s) (pin_enabled s) (pin_limit_bytes s) (pin_age_secs s) (pinned_parts s) (pinned_bytes s) (unpinned_parts s) (unpinned_bytes s) (gave_up_parts s) (gave_up_rows s) (gave_up_bytes s) (retire_pending s) (retired s) (retire_error s).
Definition set_backlog_bytes (v : Z) (s : EdgePartsStatus) : EdgePartsStatus :=
  mkEdgeStatus (interval_secs s) (last_run_ms s) (last_run_state s) (last_run_uploaded s) (last_run_error s) (next_run_ms s) (runs s) (skipped_busy s) (backlog_parts s) v (pin_enabled s) (pin_limit_bytes s) (pin_age_secs s) (pinned_parts s) (pinned_bytes s) (unpinned_parts s) (unpinned_bytes s) (gave_up_parts s) (gave_up_rows s) (gave_up_bytes s) (retire_pending s) (retired s) (retire_error s).
Definition set_pin_enabled (v : bool) (s : EdgePartsStatus) : EdgePartsStatus :=
  mkEdgeStatus (interval_secs s) (last_run_ms s) (last_run_state s) (last_run_uploaded s) (last_run_error s) (next_run_ms s) (runs s) (skipped_busy s) (backlog_parts s) (backlog_bytes s) v (pin_limit_bytes s) (pin_age_secs s) (pinned_parts s) (pinned_bytes s) (unpinned_parts s) (unpinned_bytes s) (gave_up_parts s) (gave_up_rows s) (gave_up_bytes s) (retire_pending s) (retired s) (retire_error s).
Definition set_pin_limit_bytes (v : Z) (s : EdgePartsStatus) : EdgePartsStatus :=
  mkEdgeStatus (interval_secs s) (last_run_ms s) (last_run_state s) (last_run_uploaded s) (last_run_error s) (next_run_ms s) (runs s) (skipped_busy s) (backlog_parts s) (backlog_bytes s) (pin_enabled s) v (pin_age_secs s) (pinned_parts s) (pinned_bytes s) (unpinned_parts s) (unpinned_bytes s) (gave_up_parts s) (gave_up_rows s) (gave_up_bytes s) (retire_pending s) (retired s) (retire_error s).
Definition set_pin_age_secs (v : Z) (s : EdgePartsStatus) : EdgePartsStatus :=
  mkEdgeStatus (interval_secs s) (last_run_ms s) (last_run_state s) (last_run_uploaded s) (last_run_error s) (next_run_ms s) (runs s) (skipped_busy s) (backlog_parts s) (backlog_bytes s) (pin_enabled s) (pin_limit_bytes s) v (pinned_parts s) (pinned_bytes s) (unpinned_parts s) (unpinned_bytes s) (gave_up_parts s) (gave_up_rows s) (gave_up_bytes s) (retire_pending s) (retired s) (retire_error s).
Definition set_pinned_parts (v : Z) (s : EdgePartsStatus) : EdgePartsStatus :=
  mkEdgeStatus (interval_secs s) (last_run_ms s) (last_run_state s) (last_run_uploaded s) (last_run_error s) (next_run_ms s) (runs s) (skipped_busy s) (backlog_parts s) (backlog_bytes s) (pin_enabled s) (pin_limit_bytes s) (pin_age_secs s) v (pinned_bytes s) (unpinned_parts s) (unpinned_bytes s) (gave_up_parts s) (gave_up_rows s) (gave_up_bytes s) (retire_pending s) (retired s) (retire_error s).
Definition set_pinned_bytes (v : Z) (s : EdgePartsStatus) : EdgePartsStatus :=
  mkEdgeStatus (interval_secs s) (last_run_ms s) (last_run_state s) (last_run_uploaded s) (last_run_error s) (next_run_ms s) (runs s) (skipped_busy s) (backlog_parts s) (backlog_bytes s) (pin_enabled s) (pin_limit_bytes s) (pin_age_secs s) (pinned_parts s) v (unpinned_parts s) (unpinned_bytes s) (gave_up_parts s) (gave_up_rows s) (gave_up_bytes s) (retire_pending s) (retired s) (retire_error s).
Definition set_unpinned_parts (v : Z) (s : EdgePartsStatus) : EdgePartsStatus :=
  mkEdgeStatus (interval_secs s) (last_run_ms s) (last_run_state s) (last_run_uploaded s) (last_run_error s) (next_run_ms s) (runs s) (skipped_busy s) (backlog_parts s) (backlog_bytes s) (pin_enabled s) (pin_limit_bytes s) (pin_age_secs s) (pinned_parts s) (pinned_bytes s) v (unpinned_bytes s) (gave_up_parts s) (gave_up_rows s) (gave_up_bytes s) (retire_pending s) (retired s) (retire_error s).
Definition set_unpinned_bytes (v : Z) (s : EdgePartsStatus) : EdgePartsStatus :=
  mkEdgeStatus (interval_secs s) (last_run_ms s) (last_run_state s) (last_run_uploaded s) (last_run_error s) (next_run_ms s) (runs s) (skipped_busy s) (backlog_parts s) (backlog_bytes s) (pin_enabled s) (pin_limit_bytes s) (pin_age_secs s) (pinned_parts s) (pinned_bytes s) (unpinned_parts s) v (gave_up_parts s) (gave_up_rows s) (gave_up_bytes s) (retire_pending s) (retired s) (retire_error s).
Definition set_gave_up_parts (v : Z) (s : EdgePartsStatus) : EdgePartsStatus :=
  mkEdgeStatus (interval_secs s) (last_run_ms s) (last_run_state s) (last_run_uploaded s) (last_run_error s) (next_run_ms s) (runs s) (skipped_busy s) (backlog_parts s) (backlog_bytes s) (pin_enabled s) (pin_limit_bytes s) (pin_age_secs s) (pinned_parts s) (pinned_bytes s) (unpinned_parts s) (unpinned_bytes s) v (gave_up_rows s) (gave_up_bytes s) (retire_pending s) (retired s) (retire_error s).
Definition set_gave_up_rows (v : Z) (s : EdgePartsStatus) : EdgePartsStatus :=
  mkEdgeStatus (interval_secs s) (last_run_ms s) (last_run_state s) (last_run_uploaded s) (last_run_error s) (next_run_ms s) (runs s) (skipped_busy s) (backlog_parts s) (backlog_bytes s) (pin_enabled s) (pin_limit_bytes s) (pin_age_secs s) (pinned_parts s) (pinned_bytes s) (unpinned_parts s) (unpinned_bytes s) (gave_up_parts s) v (gave_up_bytes s) (retire_pending s) (retired s) (retire_error s).
Definition set_gave_up_bytes (v : Z) (s : EdgePartsStatus) : EdgePartsStatus :=
  mkEdgeStatus (interval_secs s) (last_run_ms s) (last_run_state s) (last_run_uploaded s) (last_run_error s) (next_run_ms s) (runs s) (skipped_busy s) (backlog_parts s) (backlog_bytes s) (pin_enabled s) (pin_limit_bytes s) (pin_age_secs s) (pinned_parts s) (pinned_bytes s) (unpinned_parts s) (unpinned_bytes s) (gave_up_parts s) (gave_up_rows s) v (retire_pending s) (retired s) (retire_error s).
Definition set_retire_pending (v : Z) (s : EdgePartsStatus) : EdgePartsStatus :=
  mkEdgeStatus (interval_secs s) (last_run_ms s) (last_run_state s) (last_run_uploaded s) (last_run_error s) (next_run_ms s) (runs s) (skipped_busy s) (backlog_parts s) (backlog_bytes s) (pin_enabled s) (pin_limit_bytes s) (pin_age_secs s) (pinned_parts s) (pinned_bytes s) (unpinned_parts s) (unpinned_bytes s) (gave_up_parts s) (gave_up_rows s) (gave_up_bytes s) v (retired s) (retire_error s).
Definition set_retired (v : Z) (s : EdgePartsStatus) : EdgePartsStatus :=
  mkEdgeStatus (interval_secs s) (last_run_ms s) (last_run_state s) (last_run_uploaded s) (last_run_error s) (next_run_ms s) (runs s) (skipped_busy s) (backlog_parts s) (backlog_bytes s) (pin_enabled s) (pin_limit_bytes s) (pin_age_secs s) (pinned_parts s) (pinned_bytes s) (unpinned_parts s) (unpinned_bytes s) (gave_up_parts s) (gave_up_rows s) (gave_up_bytes s) (retire_pending s) v (retire_error s).
Definition set_retire_error (v : option string) (s : EdgePartsStatus) : EdgePartsStatus :=
  mkEdgeStatus (interval_secs s) (last_run_ms s) (last_run_state s) (last_run_uploaded s) (last_run_error s) (next_run_ms s) (runs s) (skipped_busy s) (backlog_parts s) (backlog_bytes s) (pin_enabled s) (pin_limit_bytes s) (pin_age_secs s) (pinned_parts s) (pinned_bytes s) (unpinned_parts s) (unpinned_bytes s) (gave_up_parts s) (gave_up_rows s) (gave_up_bytes s) (retire_pending s) (retired s) v.

Record GaveUp := mkGaveUp { parts : Z; rows : Z; bytes_ : Z }.
Definition gave_up_default : GaveUp := mkGaveUp 0 0 0.

Record PinSet := mkPins { pinned : gset path; unconfirmed_set : gset path }.
Definition pins_default : PinSet := mkPins ∅ ∅.
Definition contains (p : PinSet) (f : path) : bool := bool_decide (f ∈ pinned p).
Definition pins_is_empty (p : PinSet) : bool := bool_decide (pinned p = ∅).

(** ** Unconfirmed files *)

Record Unconfirmed := mkUnconfirmed { u_path : path; u_bytes : Z; u_age_ms : Z }.

Record StateLine := mkLine { l_path : string; l_size : Z; l_name : string }.

(** [load_state]: later lines win, as when a map is collected. *)
Definition load_state (lines : list StateLine) : gmap string Z :=
  foldl (fun m l => <[l_path l := l_size l]> m) ∅ lines.
Definition drop_state (paths : list string) (lines : list StateLine) : list StateLine :=
  List.filter (fun l => negb (existsb (String.eqb (l_path l)) paths)) lines.

(** A file of the store: its path below the store directory, its size and when
    it was written; [None] where the file system cannot say. *)
Record FileInfo := mkFile { f_rel : path; f_len : Z; f_written_ms : option Z }.

Definition rel_text (p : path) : string := str_join "/" p.

Fixpoint path_leb (a b : path) : bool :=
  match a, b with
  | [], _ => true
  | _ :: _, [] => false
  | x :: a', y :: b' => if String.eqb x y then path_leb a' b' else String.leb x y
  end.

Definition newest_first (a b : Unconfirmed) : bool :=
  if u_age_ms a =? u_age_ms b then path_leb (u_path a) (u_path b) else u_age_ms a <? u_age_ms b.

Definition unconfirmed_one (store_dir : path) (done_ : gmap string Z) (now_ms : Z) (f : FileInfo) : option Unconfirmed :=
  if decide (done_ !! rel_text (f_rel f) = Some (f_len f)) then None
  else
    match f_written_ms f with
    | Some w => Some (mkUnconfirmed (store_dir ++ f_rel f) (f_len f) (sat_sub now_ms w))
    | None => None
    end.

Definition unconfirmed (store_dir : path) (files : list FileInfo) (lines : list StateLine) (now_ms : Z) : list Unconfirmed :=
  stable_sort newest_first (omap (unconfirmed_one store_dir (load_state lines) now_ms) files).

(** ** Pins *)

(** The loop state: the sets, the counters and whether the run has ended. *)
Definition plan_step (limit max_age_ms : Z) (acc : PinSet * EdgePartsStatus * bool) (f : Unconfirmed)
    : PinSet * EdgePartsStatus * bool :=
  let '(set, st, full) := acc in
  let unc := {[u_path f]} ∪ unconfirmed_set set in
  if negb full && (u_age_ms f <=? max_age_ms) && (wadd64 (pinned_bytes st) (u_bytes f) <=? limit) then
    (mkPins ({[u_path f]} ∪ pinned set) unc,
     set_pinned_bytes (wadd64 (pinned_bytes st) (u_bytes f)) (set_pinned_parts (pinned_parts st + 1) st), false)
  else
    (mkPins (pinned set) unc,
     set_unpinned_bytes (wadd64 (unpinned_bytes st) (u_bytes f)) (set_unpinned_parts (unpinned_parts st + 1) st), true).

Definition pin_limit (c : EdgePartsConfig) (disk_budget_bytes : Z) : Z :=
  if disk_budget_bytes =? 0 then pin_bytes c else Z.min (pin_bytes c) (disk_budget_bytes / MAX_PIN_SHARE).

Definition plan (files : list Unconfirmed) (c : EdgePartsConfig) (disk_budget_bytes : Z) : PinSet * EdgePartsStatus :=
  let limit := pin_limit c disk_budget_bytes in
  let st := set_pin_age_secs (as_secs (pin_age c)) (set_pin_limit_bytes limit (set_pin_enabled true edge_status_default)) in
  fst (foldl (plan_step limit (as_millis (pin_age c))) (pins_default, st, false) files).

Definition pins_for_pass (active : bool) (c : EdgePartsConfig) (files : list Unconfirmed) (disk_budget_bytes : Z)
    (st : EdgePartsStatus) : PinSet * EdgePartsStatus :=
  if negb (timer_on c) || negb active then
    (pins_default,
     set_unpinned_bytes 0 (set_unpinned_parts 0 (set_pinned_bytes 0 (set_pinned_parts 0 (set_pin_enabled false st)))))
  else
    let '(set, planned) := plan files c disk_budget_bytes in
    (set,
     set_unpinned_bytes (unpinned_bytes planned) (set_unpinned_parts (unpinned_parts planned)
       (set_pinned_bytes (pinned_bytes planned) (set_pinned_parts (pinned_parts planned)
          (set_pin_age_secs (pin_age_secs planned) (set_pin_limit_bytes (pin_limit_bytes planned)
             (set_pin_enabled true st))))))).

(** ** What was given up *)

Definition note_gave_up (g : GaveUp) (log : list GaveUp) (write_ok : bool) (st : EdgePartsStatus) : list GaveUp * EdgePartsStatus :=
  if parts g =? 0 then (log, st)
  else
    (if write_ok then log ++ [g] else log,
     set_gave_up_bytes (wadd64 (gave_up_bytes st) (bytes_ g)) (set_gave_up_rows (wadd64 (gave_up_rows st) (rows g))
       (set_gave_up_parts (wadd64 (gave_up_parts st) (parts g)) st))).

Definition load_gave_up (log : list GaveUp) : GaveUp :=
  foldl (fun a g => mkGaveUp (wadd64 (parts a) (parts g)) (wadd64 (rows a) (rows g)) (wadd64 (bytes_ a) (bytes_ g)))
    gave_up_default log.

(** ** Retiring *)

Record PendingRetire := mkPending { p_path : string; p_name : string; tell_central : bool }.

Definition pending_retires (store_is_dir : bool) (present : string -> bool) (lines : list StateLine) : list PendingRetire :=
  if negb store_is_dir then []
  else
    let live := List.map l_name (List.filter (fun l => present (l_path l)) lines) in
    List.map (fun l => mkPending (l_path l) (l_name l) (negb (existsb (String.eqb (l_name l)) live)))
      (List.filter (fun l => negb (present (l_path l))) lines).

Record RetireBackoff := mkBackoff { fails : Z; next_ms : Z }.
Definition backoff_default : RetireBackoff := mkBackoff 0 0.

(** The loop: central's answer to the [i]-th call; what to forget, how many
    were retired, and the failure that ended it. *)
Fixpoint retire_loop (answer : nat -> option string) (i : nat) (pending : list PendingRetire) (forget : list string) (retired_ : Z)
    : list string * Z * option string :=
  match pending with
  | [] => (forget, retired_, None)
  | p :: rest =>
      if tell_central p then
        match answer i with
        | Some m => (forget, retired_, Some m)
        | None => retire_loop answer (S i) rest (forget ++ [p_path p]) (retired_ + 1)
        end
      else retire_loop answer i rest (forget ++ [p_path p]) retired_
  end.

Definition next_backoff (failure : option string) (now_ms : Z) (b : RetireBackoff) : RetireBackoff :=
  match failure with
  | Some _ =>
      let f := Z.min (fails b + 1) 20 in
      mkBackoff f (wadd64 now_ms (Z.min (Z.shiftl 1000 (Z.min f 9)) MAX_RETIRE_BACKOFF_MS))
  | None => backoff_default
  end.

(** The world of one pass: whether a target is set, what the store holds,
    central's answers, and whether the state file could be rewritten. *)
Record RetireWorld := mkWorld {
  has_target : bool; store_is_dir : bool; present : string -> bool; central : nat -> option string; rewrite_ok : bool
}.

Definition retire_pass (w : RetireWorld) (now_ms : Z) (lines : list StateLine) (b : RetireBackoff) (st : EdgePartsStatus)
    : Z * list StateLine * RetireBackoff * EdgePartsStatus :=
  let pending := pending_retires (store_is_dir w) (present w) lines in
  let st := set_retire_pending (Z.of_nat (List.length pending)) st in
  if negb (has_target w) then (0, lines, b, st)
  else if bool_decide (pending = []) || (now_ms <? next_ms b) then (0, lines, b, st)
  else
    let '(forget, n, failure) := retire_loop (central w) 0 pending [] 0 in
    let lines' := if rewrite_ok w then drop_state forget lines else lines in
    let left_ := Z.of_nat (List.length pending - List.length forget) in
    (n, lines', next_backoff failure now_ms b,
     set_retire_error failure (set_retire_pending left_ (set_retired (wadd64 (retired st) n) st))).

(** ** The driver *)

Record Driver := mkDriver {
  config : EdgePartsConfig;
  status : EdgePartsStatus;
  started : bool;
  in_flight : bool;
  next_start_ms : Z;
  next_backlog_ms : Z;
  next_retire_ms : Z;
  backoff : RetireBackoff;
  state_lines : list StateLine
}.
Definition set_config (v : EdgePartsConfig) (d : Driver) : Driver :=
  mkDriver v (status d) (started d) (in_flight d) (next_start_ms d) (next_backlog_ms d) (next_retire_ms d) (backoff d) (state_lines d).
Definition set_status (v : EdgePartsStatus) (d : Driver) : Driver :=
  mkDriver (config d) v (started d) (in_flight d) (next_start_ms d) (next_backlog_ms d) (next_retire_ms d) (backoff d) (state_lines d).
Definition set_started (v : bool) (d : Driver) : Driver :=
  mkDriver (config d) (status d) v (in_flight d) (next_start_ms d) (next_backlog_ms d) (next_retire_ms d) (backoff d) (state_lines d).
Definition set_in_flight (v : bool) (d : Driver) : Driver :=
  mkDriver (config d) (status d) (started d) v (next_start_ms d) (next_backlog_ms d) (next_retire_ms d) (backoff d) (state_lines d).
Definition set_next_start_ms (v : Z) (d : Driver) : Driver :=
  mkDriver (config d) (status d) (started d) (in_flight d) v (next_backlog_ms d) (next_retire_ms d) (backoff d) (state_lines d).
Definition set_next_backlog_ms (v : Z) (d : Driver) : Driver :=
  mkDriver (config d) (status d) (started d) (in_flight d) (next_start_ms d) v (next_retire_ms d) (backoff d) (state_lines d).
Definition set_next_retire_ms (v : Z) (d : Driver) : Driver :=
  mkDriver (config d) (status d) (started d) (in_flight d) (next_start_ms d) (next_backlog_ms d) v (backoff d) (state_lines d).
Definition set_backoff (v : RetireBackoff) (d : Driver) : Driver :=
  mkDriver (config d) (status d) (started d) (in_flight d) (next_start_ms d) (next_backlog_ms d) (next_retire_ms d) v (state_lines d).
Definition set_state_lines (v : list StateLine) (d : Driver) : Driver :=
  mkDriver (config d) (status d) (started d) (in_flight d) (next_start_ms d) (next_backlog_ms d) (next_retire_ms d) (backoff d) v.

Definition driver_new (c : EdgePartsConfig) (log : list GaveUp) (lines : list StateLine) (st : EdgePartsStatus) : Driver :=
  let g := load_gave_up log in
  mkDriver c (set_gave_up_bytes (bytes_ g) (set_gave_up_rows (rows g) (set_gave_up_parts (parts g)
    (set_interval_secs (as_secs (interval c)) st)))) false false 0 0 0 backoff_default lines.

(** What one look at the clock finds: the job's status ([None] while it runs or
    when there is none), whether a peer is set, the launcher's answer, the
    unconfirmed files, and the world of the retire pass. *)
Record JobDone := mkJob { j_state : string; j_uploaded : Z; j_already_present : Z; j_error : option string }.
Record Look := mkLook {
  job : option JobDone; active : bool; launch : option string; backlog : list Unconfirmed; world : RetireWorld
}.

Definition collect_job (w : Look) (d : Driver) : Driver :=
  if in_flight d then
    match job w with
    | Some j =>
        set_status (set_last_run_error (j_error j) (set_last_run_uploaded (wadd64 (j_uploaded j) (j_already_present j))
          (set_last_run_state (Some (j_state j)) (status d)))) (set_in_flight false d)
    | None => d
    end
  else d.

(** The timer; the boolean says that a job was started. *)
Definition timer (now_ms : Z) (w : Look) (d : Driver) : Driver * bool :=
  if negb (active w) then (set_status (set_next_run_ms None (status d)) d, false)
  else if timer_on (config d) && negb (in_flight d) then
    let d := if started d then d else set_next_start_ms now_ms (set_started true d) in
    if next_start_ms d <=? now_ms then
      let next := wadd64 now_ms (as_millis (interval (config d))) in
      let d := set_next_start_ms next d in
      match launch w with
      | None =>
          (set_status (set_next_run_ms (Some next) (set_last_run_error None (set_last_run_state (Some "running")
             (set_last_run_ms (Some now_ms) (set_runs (runs (status d) + 1) (status d)))))) (set_in_flight true d), true)
      | Some m =>
          (set_status (set_next_run_ms (Some next) (set_last_run_error (Some m)
             (set_skipped_busy (skipped_busy (status d) + 1) (status d)))) d, false)
      end
    else (d, false)
  else (d, false).

Definition refresh_backlog (now_ms : Z) (w : Look) (d : Driver) : Driver :=
  if timer_on (config d) && (next_backlog_ms d <=? now_ms) then
    set_status (set_backlog_bytes (foldl wadd64 0 (List.map u_bytes (backlog w)))
      (set_backlog_parts (Z.of_nat (List.length (backlog w))) (status d)))
      (set_next_backlog_ms (wadd64 now_ms BACKLOG_EVERY_MS) d)
  else d.

Definition retire_due (now_ms : Z) (w : Look) (d : Driver) : Driver :=
  if next_retire_ms d <=? now_ms then
    let d := set_next_retire_ms (wadd64 now_ms RETIRE_EVERY_MS) d in
    let '(_, lines, b, st) := retire_pass (world w) now_ms (state_lines d) (backoff d) (status d) in
    set_status st (set_backoff b (set_state_lines lines d))
  else d.

(** [Driver::step]. *)
Definition step (now_ms : Z) (w : Look) (d : Driver) : Driver * bool :=
  let '(d, ran) := timer now_ms w (collect_job w d) in
  (retire_due now_ms w (refresh_backlog now_ms w d), ran).

Definition due_now (d : Driver) : Driver := set_backoff backoff_default (set_next_retire_ms 0 (set_next_backlog_ms 0 d)).

(** ** What is pinned *)

Definition sizes (l : list Unconfirmed) : Z := sumZ u_bytes l.

(** The loop has pinned [n] files of [seen]. *)
Record planned (limit max_age_ms : Z) (seen : list Unconfirmed) (n : nat) (acc : PinSet * EdgePartsStatus * bool) : Prop := {
  pl_le : (n <= List.length seen)%nat;
  pl_pinned : pinned (fst (fst acc)) = list_to_set (List.map u_path (take n seen));
  pl_all : unconfirmed_set (fst (fst acc)) = list_to_set (List.map u_path seen);
  pl_parts : pinned_parts (snd (fst acc)) = Z.of_nat n;
  pl_bytes : pinned_bytes (snd (fst acc)) = sizes (take n seen);
  pl_unparts : unpinned_parts (snd (fst acc)) = Z.of_nat (List.length seen) - Z.of_nat n;
  pl_unbytes : unpinned_bytes (snd (fst acc)) = sizes (drop n seen);
  pl_fit : n = 0%nat \/ sizes (take n seen) <= limit;
  pl_young : Forall (fun f => u_age_ms f <= max_age_ms) (take n seen);
  pl_full : if snd acc
            then exists f, seen !! n = Some f /\ (max_age_ms < u_age_ms f \/ limit < sizes (take n seen) + u_bytes f)
            else n = List.length seen
}.

Lemma sizes_app a b : sizes (a ++ b) = sizes a + sizes b.
Proof. apply sumZ_app. Qed.
Lemma sizes_nonneg l : Forall (fun f => 0 <= u_bytes f) l -> 0 <= sizes l.
Proof. apply sumZ_nonneg. Qed.

Lemma list_to_set_map_snoc (l : list Unconfirmed) f :
  (list_to_set (List.map u_path (l ++ [f])) : gset path) = {[u_path f]} ∪ list_to_set (List.map u_path l).
Proof. rewrite List.map_app, list_to_set_app_L. simpl. set_solver. Qed.

Lemma plan_step_planned limit max_age seen n acc f :
  Forall (fun f => 0 <= u_bytes f) (seen ++ [f]) -> sizes (seen ++ [f]) <= u64_max ->
  planned limit max_age seen n acc -> exists n', planned limit max_age (seen ++ [f]) n' (plan_step limit max_age acc f).
Proof.
  intros Hnn Hmax [Hle Hp Ha Hpp Hpb Hup Hub Hfit Hyoung Hfull]. destruct acc as [[set st] full]. cbn [fst snd] in *.
  pose proof Hnn as [Hnn1 Hnn2]%Forall_app. inversion Hnn2 as [|? ? Hf _]; subst.
  rewrite sizes_app in Hmax. assert (sizes [f] = u_bytes f) as Hsf by (unfold sizes, sumZ; simpl; lia).
  pose proof (sizes_nonneg _ Hnn1) as Hs0.
  assert (sizes (take n seen) + sizes (drop n seen) = sizes seen) as Hsplit by (rewrite <- sizes_app, take_drop; done).
  assert (0 <= sizes (take n seen) /\ 0 <= sizes (drop n seen)) as [Ht0 Hd0].
  { split; apply sizes_nonneg; [by apply Forall_take|by apply Forall_drop]. }
  unfold plan_step. rewrite (wadd64_small (pinned_bytes st)) by (rewrite Hpb; unfold u64_range; lia).
  destruct (negb full && _ && _) eqn:E.
  - zbool. destruct full; [done|]. subst n. rewrite take_ge in * by lia. exists (S (List.length seen)).
    assert (take (S (List.length seen)) (seen ++ [f]) = seen ++ [f]) as Htk by (apply take_ge; rewrite length_app; simpl; lia).
    constructor; cbn [fst snd pinned unconfirmed_set pinned_parts pinned_bytes unpinned_parts unpinned_bytes set_pinned_bytes set_pinned_parts];
      rewrite ?Htk, ?list_to_set_map_snoc, ?Hp, ?Ha, ?Hpp, ?Hpb, ?Hup, ?length_app, ?sizes_app; try done; try (simpl; lia).
    + rewrite Hub, !drop_ge by (rewrite ?length_app; simpl; lia). done.
    + apply Forall_app. split; [done|]. by constructor.
  - exists n. assert (take n (seen ++ [f]) = take n seen) as Htk by (rewrite take_app_le by done; done).
    constructor; cbn [fst snd pinned unconfirmed_set pinned_parts pinned_bytes unpinned_parts unpinned_bytes set_unpinned_bytes set_unpinned_parts];
      rewrite ?Htk, ?list_to_set_map_snoc, ?Hp, ?Ha, ?Hpp, ?Hpb, ?Hup, ?Hub, ?length_app, ?sizes_app; try done; try (simpl; lia).
    + rewrite wadd64_small by (unfold u64_range; lia).
      rewrite drop_app_le, sizes_app by done. lia.
    + destruct full.
      * destruct Hfull as (g & Hg & Hwhy). exists g. split; [by rewrite lookup_app_l by (by apply lookup_lt_Some in Hg)|done].
      * subst n. exists f. rewrite lookup_app_r, Nat.sub_diag by done. split; [done|].
        rewrite take_ge in * by done. apply andb_false_iff in E as [E|E]; [left|right]; zbool; [|lia].
        simpl in E. zbool. lia.
Qed.

Lemma plan_fold limit max_age files : forall seen n acc,
  Forall (fun f => 0 <= u_bytes f) (seen ++ files) -> sizes (seen ++ files) <= u64_max ->
  planned limit max_age seen n acc ->
  exists n', planned limit max_age (seen ++ files) n' (foldl (plan_step limit max_age) acc files).
Proof.
  induction files as [|f files IH]; intros seen n acc Hnn Hmax Hpl; simpl; [rewrite app_nil_r; by exists n|].
  replace (seen ++ f :: files) with ((seen ++ [f]) ++ files) in * by (by rewrite <- app_assoc).
  pose proof Hnn as [Hnn1 Hnn2]%Forall_app. rewrite sizes_app in Hmax. pose proof (sizes_nonneg _ Hnn2).
  destruct (plan_step_planned limit max_age seen n acc f) as [n' Hn']; [done|lia|done|].
  eapply IH; [done|rewrite sizes_app; lia|exact Hn'].
Qed.

(** The pinned set is always the newest files, never a scattering: the
    longest run of young files, newest first, that fits the limit, which is never
    more than a quarter of the disk budget; the counters of the status are exact. *)
Theorem plan_newest_run files c budget :
  Forall (fun f => 0 <= u_bytes f) files -> sizes files <= u64_max ->
  let limit := pin_limit c budget in
  let p := plan files c budget in
  (budget <> 0 -> limit <= budget / 4) /\
  exists n, (n <= List.length files)%nat /\
    pinned (fst p) = list_to_set (List.map u_path (take n files)) /\
    unconfirmed_set (fst p) = list_to_set (List.map u_path files) /\
    (n = 0%nat \/ sizes (take n files) <= limit) /\
    Forall (fun f => u_age_ms f <= as_millis (pin_age c)) (take n files) /\
    (forall f, files !! n = Some f -> as_millis (pin_age c) < u_age_ms f \/ limit < sizes (take n files) + u_bytes f) /\
    pinned_parts (snd p) = Z.of_nat n /\ pinned_bytes (snd p) = sizes (take n files) /\
    unpinned_parts (snd p) = Z.of_nat (List.length (drop n files)) /\ unpinned_bytes (snd p) = sizes (drop n files).
Proof.
  intros Hnn Hmax limit p. split.
  { unfold limit, pin_limit, MAX_PIN_SHARE. destruct (budget =? 0) eqn:E; zbool; [done|]. lia. }
  set (st := set_pin_age_secs (as_secs (pin_age c)) (set_pin_limit_bytes limit (set_pin_enabled true edge_status_default))).
  destruct (plan_fold limit (as_millis (pin_age c)) files [] 0 (pins_default, st, false) Hnn Hmax) as [n [H1 H2 H3 H4 H5 H6 H7 H8 H9 H10]].
  { constructor; try done; by left. }
  unfold p, plan. fold limit. fold st. destruct (foldl _ _ _) as [[set st'] full]. cbn [fst snd] in *.
  exists n. repeat (split; [done|]). split; [|split; [done|split; [done|split; [|done]]]].
  - intros f Hf. destruct full; [|subst n; apply lookup_lt_Some in Hf; simpl in Hf; lia].
    destruct H10 as (g & Hg & Hwhy). simpl in Hg. assert (g = f) as -> by congruence. done.
  - rewrite H6, length_drop. simpl in *. lia.
Qed.

(** ** Retiring *)

(** How many of the pending entries central is told about. *)
Definition told (l : list PendingRetire) : nat := List.length (List.filter tell_central l).

Lemma retire_loop_spec answer pending : forall i forget n fg m failure,
  retire_loop answer i pending forget n = (fg, m, failure) ->
  exists k, (k <= List.length pending)%nat /\ fg = forget ++ List.map p_path (take k pending) /\
    m = n + Z.of_nat (told (take k pending)) /\
    (forall j, (i <= j < i + told (take k pending))%nat -> answer j = None) /\
    match failure with
    | None => k = List.length pending
    | Some e => exists p, pending !! k = Some p /\ tell_central p = true /\ answer (i + told (take k pending))%nat = Some e
    end.
Proof.
  induction pending as [|p pending IH]; intros i forget n fg m failure H; simpl in H.
  { injection H as <- <- <-. exists 0%nat. unfold told. simpl. rewrite app_nil_r.
    split_and!; [lia|done|lia|intros; lia|done]. }
  destruct (tell_central p) eqn:Ep.
  - destruct (answer i) as [e|] eqn:Ea.
    + injection H as <- <- <-. exists 0%nat. unfold told. simpl. rewrite app_nil_r.
      split_and!; [lia|done|lia|intros; lia|].
      exists p. by rewrite Nat.add_0_r.
    + apply IH in H as (k & Hk & -> & -> & Hans & Hfail). exists (S k). unfold told in *. simpl. rewrite Ep. simpl.
      split_and!; [lia|by rewrite <- app_assoc|lia| |].
      * intros j Hj. destruct (decide (j = i)) as [->|]; [done|]. apply Hans. lia.
      * destruct failure as [e|]; [|lia]. destruct Hfail as (q & Hq & Hq2 & Hq3). exists q.
        split; [done|]. split; [done|]. by rewrite Nat.add_succ_r.
  - apply IH in H as (k & Hk & -> & -> & Hans & Hfail). exists (S k). unfold told in *. simpl. rewrite Ep.
    split_and!; [lia|by rewrite <- app_assoc|lia|done|].
    destruct failure as [e|]; [done|lia].
Qed.

Lemma pending_absent b present lines p : In p (pending_retires b present lines) ->
  present (p_path p) = false /\
  (forall l, List.NoDup (List.map l_path lines) -> In l lines -> p_path p = l_path l -> p_name p = l_name l) /\
  (tell_central p = false -> exists l, In l lines /\ present (l_path l) = true /\ l_name l = p_name p).
Proof.
  unfold pending_retires. destruct b; [|done]. cbn [negb]. intros Hin. apply in_map_iff in Hin as (l & <- & Hl).
  apply filter_In in Hl as [Hl Hp]. apply negb_true_iff in Hp. split; [done|]. cbn [tell_central p_name p_path]. split.
  - intros l' Hnd Hl' Heq. by rewrite (NoDup_map_inj l_path lines l l' Hnd Hl Hl' Heq).
  - intros Ht. apply negb_false_iff, existsb_exists in Ht as (nm & Hnm & He). apply String.eqb_eq in He.
    apply in_map_iff in Hnm as (l' & <- & Hl'). apply filter_In in Hl' as [? ?]. by exists l'.
Qed.

Lemma told_before pending i k p : pending !! i = Some p -> (i < k)%nat -> tell_central p = true ->
  (told (take i pending) < told (take k pending))%nat.
Proof.
  intros Hi Hik Ht. unfold told. rewrite <- (take_drop i (take k pending)), take_take, Nat.min_l by lia.
  rewrite (drop_S (take k pending) p i) by (by apply lookup_take_Some). rewrite List.filter_app, length_app. simpl. rewrite Ht. simpl. lia.
Qed.

(** Retiring never forgets a part too early.  A line of the upload state is
    dropped only when its file is gone and either another uploaded file of the
    same content is still there or central accepted, in this pass, the retire of
    the part pending at its path (its own part, where no path is listed twice);
    the pass goes through the pending parts in order and stops at the first refusal,
    which it reports and after which it waits between 2 s and 5 min. *)
Theorem retire_pass_safe w now_ms lines b st n lines' b' st' :
  retire_pass w now_ms lines b st = (n, lines', b', st') -> 0 <= fails b -> 0 <= now_ms <= u64_max - MAX_RETIRE_BACKOFF_MS ->
  let pending := pending_retires (store_is_dir w) (present w) lines in
  (forall l, In l lines -> In l lines' \/
     exists k p, pending !! k = Some p /\ p_path p = l_path l /\ present w (p_path p) = false /\
       (List.NoDup (List.map l_path lines) -> p_name p = l_name l) /\
       if tell_central p then central w (told (take k pending)) = None
       else exists l', In l' lines /\ present w (l_path l') = true /\ l_name l' = p_name p) /\
  (forall l, In l lines' -> In l lines) /\
  (b' = b \/ b' = backoff_default \/
   exists e k p, retire_error st' = Some e /\ pending !! k = Some p /\ tell_central p = true /\
     (forall l, In l lines -> ~ In (l_path l) (List.map p_path (take k pending)) -> In l lines') /\
     now_ms + 2000 <= next_ms b' <= now_ms + MAX_RETIRE_BACKOFF_MS).
Proof.
  intros Hr Hfl Hnow pending. unfold retire_pass in Hr. fold pending in Hr.
  destruct (has_target w); cbn [negb] in Hr; [|injection Hr as _ <- <- _; split; [by left|]; split; [done|by left]].
  destruct (_ || _) eqn:Eq; [injection Hr as _ <- <- _; split; [by left|]; split; [done|by left]|].
  destruct (retire_loop _ _ _ _ _) as [[forget m] failure] eqn:El. injection Hr as _ <- <- <-.
  apply retire_loop_spec in El as (k & Hk & -> & _ & Hans & Hfail). simpl app in *.
  assert (forall l, In l lines -> ~ In (l_path l) (List.map p_path (take k pending)) ->
    In l (if rewrite_ok w then drop_state (List.map p_path (take k pending)) lines else lines)) as Hkeep.
  { intros l Hl Hni. destruct (rewrite_ok w); [|done]. apply filter_In. split; [done|]. apply negb_true_iff.
    apply not_true_iff_false. intros He. apply existsb_exists in He as (x & Hx & He). apply String.eqb_eq in He. by subst. }
  split; [|split].
  - intros l Hl. destruct (in_dec string_dec (l_path l) (List.map p_path (take k pending))) as [Hin|Hni]; [right|left; by apply Hkeep].
    apply in_map_iff in Hin as (p & Hpp & Hin).
    apply list_elem_of_In, list_elem_of_lookup in Hin as [i Hi]. apply lookup_take_Some in Hi as [Hi Hik].
    assert (In p pending) as Hp by (by eapply list_elem_of_In, list_elem_of_lookup_2).
    destruct (pending_absent _ _ _ _ Hp) as (Ha & Hname & Hlive).
    exists i, p. split; [done|]. split; [done|]. split; [done|]. split; [by intros Hnd; apply Hname|].
    destruct (tell_central p) eqn:Et; [|by apply Hlive].
    apply Hans. pose proof (told_before pending i k p Hi Hik Et). lia.
  - intros l. destruct (rewrite_ok w); [|done]. unfold drop_state. by intros [? _]%filter_In.
  - destruct failure as [e|]; [|right; by left]. right. right. destruct Hfail as (p & Hp & Ht & _).
    exists e, k, p. split; [done|]. split; [done|]. split; [done|]. split; [exact Hkeep|].
    cbn [next_backoff next_ms]. unfold MAX_RETIRE_BACKOFF_MS in *.
    assert (2000 <= Z.shiftl 1000 (Z.min (Z.min (fails b + 1) 20) 9)) as Hsh.
    { rewrite Z.shiftl_mul_pow2 by lia. assert (2 ^ 1 <= 2 ^ Z.min (Z.min (fails b + 1) 20) 9) by (apply Z.pow_le_mono_r; lia). lia. }
    rewrite wadd64_small by (unfold u64_range, u64_max in *; lia). lia.
Qed.

(** (finding) lines are forgotten by path.  When a path was uploaded twice with
    different contents and is gone, central accepting the first part and
    refusing the second drops both lines: the second part is reported as failed
    and is never retired, since nothing is pending any more. *)
Theorem relisted_path_drops_unretired e :
  let lines := [mkLine "a" 10 "first"; mkLine "a" 20 "second"] in
  let w := mkWorld true true (fun _ => false) (fun i => if Nat.eqb i 0 then None else Some e) true in
  let '(n, lines', _, st') := retire_pass w 0 lines backoff_default edge_status_default in
  List.map p_name (pending_retires true (fun _ => false) lines) = ["first"; "second"] /\
  n = 1 /\ retire_error st' = Some e /\ lines' = [] /\ pending_retires true (fun _ => false) lines' = [].
Proof. vm_compute. by split_and!. Qed.

(** (finding) the comment on [RetireBackoff] promises a first wait of one
    second; the counter is raised before the shift, so it is two. *)
Theorem first_backoff_is_two_seconds e now_ms : 0 <= now_ms <= u64_max - MAX_RETIRE_BACKOFF_MS ->
  next_ms (next_backoff (Some e) now_ms backoff_default) = now_ms + 2000.
Proof. intros Hn. cbn. apply wadd64_small. unfold u64_range, u64_max, MAX_RETIRE_BACKOFF_MS in *. lia. Qed.

(** ** The timer *)

Fixpoint run (looks : list (Z * Look)) (d : Driver) : Driver * list Z :=
  match looks with
  | [] => (d, [])
  | (now_ms, w) :: rest =>
      let '(d1, ran) := step now_ms w d in
      let '(d2, starts) := run rest d1 in
      (d2, if ran then now_ms :: starts else starts)
  end.

Lemma retire_due_frame now_ms w d : let d' := retire_due now_ms w d in
  config d' = config d /\ started d' = started d /\ in_flight d' = in_flight d /\ next_start_ms d' = next_start_ms d.
Proof.
  unfold retire_due. destruct (_ <=? _); [|done]. by destruct (retire_pass _ _ _ _ _) as [[[n l] b] st].
Qed.

Lemma refresh_backlog_frame now_ms w d : let d' := refresh_backlog now_ms w d in
  config d' = config d /\ started d' = started d /\ in_flight d' = in_flight d /\ next_start_ms d' = next_start_ms d.
Proof. unfold refresh_backlog. by destruct (_ && _). Qed.

Lemma collect_job_frame w d : let d' := collect_job w d in
  config d' = config d /\ started d' = started d /\ next_start_ms d' = next_start_ms d /\
  (in_flight d = true -> job w = None -> in_flight d' = true).
Proof. unfold collect_job. destruct (in_flight d) eqn:E; [|done]. by destruct (job w). Qed.

Lemma timer_spec now_ms w d : let r := timer now_ms w d in
  config (fst r) = config d /\ (started d = true -> started (fst r) = true) /\
  (in_flight d = true -> snd r = false /\ in_flight (fst r) = true /\ next_start_ms (fst r) = next_start_ms d) /\
  (snd r = true -> in_flight d = false /\ in_flight (fst r) = true /\ started (fst r) = true /\
     (started d = true -> next_start_ms d <= now_ms) /\
     next_start_ms (fst r) = wadd64 now_ms (as_millis (interval (config d)))) /\
  (started d = true -> next_start_ms (fst r) = next_start_ms d \/
     next_start_ms d <= now_ms /\ next_start_ms (fst r) = wadd64 now_ms (as_millis (interval (config d)))).
Proof.
  unfold timer. destruct (active w); cbn [negb]; [|split_and!; [done|done|done|done|by left]].
  destruct (in_flight d) eqn:Ef; [rewrite andb_false_r; split_and!; [done|done|done|done|by left]|].
  destruct (timer_on (config d)); cbn [negb andb]; [|split_and!; [done|done|done|done|by left]].
  destruct (started d) eqn:Es; cbn [next_start_ms set_next_start_ms set_started config].
  - destruct (next_start_ms d <=? now_ms) eqn:E; zbool; [|split_and!; [done|done|done|done|by left]].
    destruct (launch w); cbn; split_and!; try done; intros; by right.
  - rewrite Z.leb_refl. destruct (launch w); cbn; split_and!; done.
Qed.

(** Upload jobs never overlap and never start early.  While a job the timer
    started has not been collected no other is started; and any two starts of a
    run are at least one interval apart, whatever the clock, the peer and the
    launcher do. *)
Theorem timer_starts_spaced looks c log lines st :
  Forall (fun x => 0 <= fst x /\ fst x + as_millis (interval c) <= u64_max) looks -> 0 <= interval c ->
  StronglySorted (fun a b => a + as_millis (interval c) <= b) (snd (run looks (driver_new c log lines st))) /\
  forall now_ms w d, in_flight d = true -> job w = None ->
    snd (step now_ms w d) = false /\ in_flight (fst (step now_ms w d)) = true.
Proof.
  intros Hl Hi. assert (0 <= as_millis (interval c)) as Hms by (apply Z.div_pos; lia). split.
  - enough (forall d, config d = c ->
      StronglySorted (fun a b => a + as_millis (interval c) <= b) (snd (run looks d)) /\
      (started d = true -> Forall (fun t => next_start_ms d <= t) (snd (run looks d)))) as Hgo by (by apply Hgo).
    induction Hl as [|[now_ms w] looks [Hn1 Hn2] _ IH]; intros d Hc; simpl; [by repeat constructor|]. simpl in Hn1, Hn2.
    unfold step. pose proof (collect_job_frame w d) as (C1 & C2 & C3 & _).
    pose proof (timer_spec now_ms w (collect_job w d)) as (T1 & T2 & _ & T4 & T5).
    destruct (timer now_ms w (collect_job w d)) as [d1 ran]. cbn [fst snd] in *.
    pose proof (refresh_backlog_frame now_ms w d1) as (R1 & R2 & _ & R3).
    pose proof (retire_due_frame now_ms w (refresh_backlog now_ms w d1)) as (Q1 & Q2 & _ & Q3).
    set (d2 := retire_due _ _ _) in *. rewrite R1, T1, C1, Hc in Q1. rewrite R2 in Q2. rewrite R3 in Q3.
    destruct (IH d2 Q1) as [I1 I2]. destruct (run looks d2) as [d3 starts]. cbn [snd] in *.
    rewrite C1, C2, C3, Hc in *. rewrite wadd64_small in T4, T5 by (unfold u64_range; lia). destruct ran.
    + destruct (T4 eq_refl) as (_ & _ & Hst & Hge & Hnx). rewrite Q2, Hst, Q3, Hnx in I2. specialize (I2 eq_refl).
      split; [by constructor|]. intros Hs. constructor; [by apply Hge|]. specialize (Hge Hs).
      eapply Forall_impl; [exact I2|]. intros t Ht. simpl in Ht. lia.
    + split; [done|]. intros Hs. rewrite Q2, (T2 Hs), Q3 in I2. specialize (I2 eq_refl).
      eapply Forall_impl; [exact I2|]. intros t Ht. simpl in Ht. destruct (T5 Hs) as [Heq|[? Heq]]; lia.
  - intros now_ms w d Hf Hj. unfold step. pose proof (collect_job_frame w d) as (_ & _ & _ & C4).
    pose proof (timer_spec now_ms w (collect_job w d)) as (_ & _ & T3 & _).
    destruct (timer now_ms w (collect_job w d)) as [d1 ran]. cbn [fst snd] in *.
    destruct (T3 (C4 Hf Hj)) as (-> & T3' & _). split; [done|].
    pose proof (refresh_backlog_frame now_ms w d1) as (_ & _ & R3 & _).
    pose proof (retire_due_frame now_ms w (refresh_backlog now_ms w d1)) as (_ & _ & Q3 & _). congruence.
Qed.

(** ** Witnesses *)

Definition example_files : list Unconfirmed :=
  [mkUnconfirmed ["store"; "c.parquet"] 40 10; mkUnconfirmed ["store"; "b.parquet"] 50 20; mkUnconfirmed ["store"; "a.parquet"] 30 30].
Definition example_edge : EdgePartsConfig := mkEdgeParts (60 * 1000000000) 100 (3600 * 1000000000).
Definition example_lines : list StateLine := [mkLine "a.parquet" 30 "h1"; mkLine "b.parquet" 50 "h2"; mkLine "c.parquet" 40 "h1"].
Definition example_world : RetireWorld :=
  mkWorld true true (String.eqb "c.parquet") (fun i => if Nat.eqb i 0 then Some "unreachable" else None) true.

Lemma plan_newest_run_witness :
  exists n, (n <= 3)%nat /\ pinned (fst (plan example_files example_edge 1000)) = list_to_set (List.map u_path (take n example_files)).
Proof.
  destruct (plan_newest_run example_files example_edge 1000) as [_ (n & H1 & H2 & _)].
  - repeat (constructor; [simpl; lia|]). constructor.
  - vm_compute. discriminate.
  - by exists n.
Defined.

Lemma retire_pass_safe_witness :
  let r := retire_pass example_world 5000 example_lines backoff_default edge_status_default in
  Forall (fun l => In l (snd (fst (fst r))) \/ present example_world (l_path l) = false) example_lines.
Proof.
  intros r. apply List.Forall_forall. intros l Hl.
  destruct (retire_pass_safe example_world 5000 example_lines backoff_default edge_status_default
    (fst (fst (fst r))) (snd (fst (fst r))) (snd (fst r)) (snd r)) as [H _].
  - reflexivity.
  - simpl. lia.
  - vm_compute. split; discriminate.
  - destruct (H l Hl) as [?|(k & p & _ & Hp & Ha & _)]; [by left|right]. by rewrite <- Hp.
Defined.

Lemma first_backoff_is_two_seconds_witness : next_ms (next_backoff (Some "unreachable") 5000 backoff_default) = 7000.
Proof. apply (first_backoff_is_two_seconds "unreachable" 5000). vm_compute. split; discriminate. Defined.

Lemma timer_starts_spaced_witness :
  let w := mkLook (Some (mkJob "done" 1 0 None)) true None [] example_world in
  StronglySorted (fun a b => a + 60000 <= b)
    (snd (run [(0, w); (30000, w); (60000, w)] (driver_new example_edge [] [] edge_status_default))).
Proof.
  intros w. apply (timer_starts_spaced [(0, w); (30000, w); (60000, w)] example_edge [] [] edge_status_default).
  - repeat constructor; vm_compute; discriminate.
  - simpl. lia.
Defined.
