(* ===== verification/Retention.v ===== *)
(** Retention ([crates/logless-core/src/retention.rs]): deleting the partitions
    past their bucket's retention from the store directory.

    The store is a tree of directories and files.  What a failing system call
    says and leaves behind is an argument: [rm_tree] is [remove_dir_all], [rm_file]
    is [remove_file], [rm_dir] is [remove_dir] of an empty directory.  The
    tree holds directories and regular files only; symbolic links are not
    modelled. *)

From stdpp Require Import sorting.
From S2P Require Import Prelude Text Lists Civil Model Partition Tenancy PartsEdge.
Open Scope string_scope.
Open Scope Z_scope.
Open Scope list_scope.

(** ** A directory tree *)

Inductive Node :=
  | File (size : Z)
  | Dir (entries : list (string * Node)).

Fixpoint find_entry (name : string) (es : list (string * Node)) : option Node :=
  match es with
  | [] => None
  | (n, x) :: r => if String.eqb n name then Some x else find_entry name r
  end.

(** The entry replaced, or taken out. *)
Fixpoint put_entry (name : string) (v : option Node) (es : list (string * Node)) : list (string * Node) :=
  match es with
  | [] => []
  | (n, x) :: r =>
      if String.eqb n name then match v with Some y => (n, y) :: r | None => r end
      else (n, x) :: put_entry name v r
  end.

(** The file at a path below a node. *)
Fixpoint file_at (x : Node) (p : path) : option Z :=
  match x, p with
  | File size, [] => Some size
  | Dir es, n :: p' => match find_entry n es with Some y => file_at y p' | None => None end
  | _, _ => None
  end.

(** What is at a path. *)
Fixpoint node_at (x : Node) (p : path) : option Node :=
  match p with
  | [] => Some x
  | n :: q => match x with Dir es => find_entry n es ≫= (fun y => node_at y q) | File _ => None end
  end.

Definition is_dir (x : Node) : bool := match x with Dir _ => true | File _ => false end.

(** ** The report *)

Record ExpiredPartition := mkExpired { e_key : PartitionKey; e_path : path; e_bytes : Z }.
#[export] Instance ExpiredPartition_eq_dec : EqDecision ExpiredPartition.
Proof. solve_decision. Defined.

Record RetentionReport := mkReport {
  expired : list ExpiredPartition;
  bytes_reclaimed : Z;
  orphan_buckets : list PartitionKey;
  errors : list (path * string);
  pinned_kept : Z
}.
Definition report_default : RetentionReport := mkReport [] 0 [] [] 0.

Definition add_error (p : path) (e : string) (r : RetentionReport) : RetentionReport :=
  mkReport (expired r) (bytes_reclaimed r) (orphan_buckets r) (errors r ++ [(p, e)]) (pinned_kept r).
Definition add_orphan (k : PartitionKey) (r : RetentionReport) : RetentionReport :=
  mkReport (expired r) (bytes_reclaimed r) (orphan_buckets r ++ [k]) (errors r) (pinned_kept r).
Definition add_kept (n : Z) (r : RetentionReport) : RetentionReport :=
  mkReport (expired r) (bytes_reclaimed r) (orphan_buckets r) (errors r) (pinned_kept r + n).
Definition add_expired (e : ExpiredPartition) (r : RetentionReport) : RetentionReport :=
  mkReport (expired r ++ [e]) (wadd64 (bytes_reclaimed r) (e_bytes e)) (orphan_buckets r) (errors r) (pinned_kept r).

(** ** Enforcing *)

Section Enforce.
Context (rm_tree : path -> Node -> option (string * Node)).
Context (rm_file : path -> option string).
Context (rm_dir : path -> bool).
Context (tenancy : Tenancy) (now_unix_secs : Z) (dry_run : bool) (pins : PinSet).

(** The sub-directories named [<prefix><value>], sorted. *)
Definition child (prefix : string) (e : string * Node) : option (string * string) :=
  if is_dir (snd e) then match strip_prefix prefix (fst e) with Some v => Some (fst e, v) | None => None end else None.
Definition children (prefix : string) (es : list (string * Node)) : list (string * string) :=
  stable_sort (fun a b => String.leb (fst a) (fst b)) (omap (child prefix) es).

Fixpoint dir_size (x : Node) : Z :=
  match x with
  | File size => size
  | Dir es => foldl wadd64 0 (List.map (fun e => dir_size (snd e)) es)
  end.

(** What the recursion of [remove_unpinned] returns: bytes freed, files kept,
    errors, and the directory as it is left. *)
Record Removal := mkRemoval { freed : Z; kept : Z; errs : list (path * string); left_ : list (string * Node) }.

Definition remove_one (p : path) (name : string) (size : Z) (acc : Removal) : Removal :=
  if contains pins p then mkRemoval (freed acc) (kept acc + 1) (errs acc) (left_ acc ++ [(name, File size)])
  else if dry_run then mkRemoval (wadd64 (freed acc) size) (kept acc) (errs acc) (left_ acc ++ [(name, File size)])
  else
    match rm_file p with
    | Some e => mkRemoval (freed acc) (kept acc) (errs acc ++ [(p, e)]) (left_ acc ++ [(name, File size)])
    | None => mkRemoval (wadd64 (freed acc) size) (kept acc) (errs acc) (left_ acc)
    end.

Definition remove_sub (p : path) (name : string) (sub : Removal) (acc : Removal) : Removal :=
  let gone := (kept sub =? 0) && negb dry_run && bool_decide (left_ sub = []) && rm_dir p in
  mkRemoval (wadd64 (freed acc) (freed sub)) (kept acc + kept sub) (errs acc ++ errs sub)
    (if gone then left_ acc else left_ acc ++ [(name, Dir (left_ sub))]).

Fixpoint remove_unpinned (p : path) (x : Node) : Removal :=
  match x with
  | File _ => mkRemoval 0 0 [] []
  | Dir es =>
      foldl (fun acc e =>
        match snd e with
        | Dir _ => remove_sub (p ++ [fst e]) (fst e) (remove_unpinned (p ++ [fst e]) (snd e)) acc
        | File size => remove_one (p ++ [fst e]) (fst e) size acc
        end) (mkRemoval 0 0 [] []) es
  end.

Definition is_prefix (p q : path) : bool := bool_decide (take (List.length p) q = p).

(** One [level=] directory: the report, and what is left of it. *)
Definition level_step (tn ix : string) (epoch_hour : Z) (dir_ : path) (level : string) (x : Node) (r : RetentionReport)
    : RetentionReport * option Node :=
  if String.eqb level "" then (r, Some x)
  else
    let key := mkKey tn ix epoch_hour level "" in
    match buckets tenancy tn ix ≫= (fun b => by_name b level) with
    | None => (add_orphan key r, Some x)
    | Some bucket =>
        if now_unix_secs <? sat_add (end_unix_secs key) (as_secs (lb_retention bucket)) then (r, Some x)
        else
          let bytes := dir_size x in
          if bool_decide (set_Exists (fun p => is_prefix dir_ p = true) (pinned pins)) then
            let rem := remove_unpinned dir_ x in
            let r := mkReport (expired r) (bytes_reclaimed r) (orphan_buckets r) (errors r ++ errs rem) (pinned_kept r + kept rem) in
            let x := Some (Dir (left_ rem)) in
            if freed rem =? 0 then (r, x) else (add_expired (mkExpired key dir_ (freed rem)) r, x)
          else if dry_run then (add_expired (mkExpired key dir_ bytes) r, Some x)
          else
            match rm_tree dir_ x with
            | Some (e, remains) => (add_error dir_ e r, Some remains)
            | None => (add_expired (mkExpired key dir_ bytes) r, None)
            end
    end.

(** The loop over one directory's children: [f] gives the new report and what
    becomes of the child. *)
Definition each_child (prefix : string) (dir_ : path)
    (f : path -> string -> Node -> RetentionReport -> RetentionReport * option Node)
    (es : list (string * Node)) (r : RetentionReport) : RetentionReport * list (string * Node) :=
  foldl (fun acc c =>
    let '(r, es) := acc in
    let '(name, value) := c in
    match find_entry name es with
    | Some x => let '(r', x') := f (dir_ ++ [name]) value x r in (r', put_entry name x' es)
    | None => (r, es)
    end) (r, es) (children prefix es).

Definition entries (x : Node) : list (string * Node) := match x with Dir es => es | File _ => [] end.

Definition hour_step (tn ix : string) (dir_ : path) (hour : string) (x : Node) (r : RetentionReport)
    : RetentionReport * option Node :=
  match parse_hour hour with
  | None => (r, Some x)
  | Some epoch_hour =>
      let '(r, es) := each_child "level=" dir_ (level_step tn ix epoch_hour) (entries x) r in
      (r, if negb dry_run && bool_decide (es = []) && rm_dir dir_ then None else Some (Dir es))
  end.

Definition index_step (tn : string) (dir_ : path) (ix : string) (x : Node) (r : RetentionReport)
    : RetentionReport * option Node :=
  if negb (valid_ident ix) then (r, Some x)
  else let '(r, es) := each_child "hour=" dir_ (hour_step tn ix) (entries x) r in (r, Some (Dir es)).

Definition tenant_step (dir_ : path) (tn : string) (x : Node) (r : RetentionReport) : RetentionReport * option Node :=
  if negb (valid_ident tn) then (r, Some x)
  else let '(r, es) := each_child "index=" dir_ (index_step tn) (entries x) r in (r, Some (Dir es)).

Definition key_leb (a b : PartitionKey) : bool :=
  path_leb [tenant a; index a] [tenant b; index b] &&
  (if bool_decide ([tenant a; index a] = [tenant b; index b]) then
     if epoch_hour a =? epoch_hour b then path_leb [bucket a; node a] [bucket b; node b] else epoch_hour a <? epoch_hour b
   else true).

(** [enforce_pinned] on a store that is there; a store that is not a directory
    is an error of [read_dir]. *)
Definition enforce_pinned (not_a_directory : string) (store_dir : path) (store : option Node) : RetentionReport * option Node :=
  match store with
  | None => (report_default, None)
  | Some (File n) => (add_error store_dir not_a_directory report_default, Some (File n))
  | Some (Dir es) =>
      let '(r, es) := each_child "tenant=" store_dir tenant_step es report_default in
      (mkReport (stable_sort (fun a b => key_leb (e_key a) (e_key b)) (expired r)) (bytes_reclaimed r) (orphan_buckets r)
         (errors r) (pinned_kept r), Some (Dir es))
  end.

End Enforce.

(** ** Trees *)

Lemma Node_ind' (P : Node -> Prop) :
  (forall size, P (File size)) -> (forall es, Forall (fun e => P (snd e)) es -> P (Dir es)) -> forall x, P x.
Proof.
  intros Hf Hd. fix IH 1. intros [size|es]; [apply Hf|]. apply Hd.
  induction es as [|e es IHes]; constructor; [apply IH|exact IHes].
Qed.

(** Sizes are not negative and names are unique in every directory. *)
Inductive wf : Node -> Prop :=
  | wf_file size : 0 <= size -> wf (File size)
  | wf_dir es : NoDup es.*1 -> Forall (fun e => wf (snd e)) es -> wf (Dir es).

Definition file_opt (x : option Node) (p : path) : option Z := match x with Some y => file_at y p | None => None end.

Lemma find_entry_in n es x : NoDup es.*1 -> find_entry n es = Some x <-> (n, x) ∈ es.
Proof.
  induction es as [|[m y] es IH]; simpl; intros Hnd; [split; [done|by intros ?%not_elem_of_nil]|].
  apply NoDup_cons in Hnd as [Hm Hnd]. rewrite elem_of_cons. destruct (String.eqb_spec m n) as [->|Hne].
  - split; [intros [= ->]; by left|]. intros [[= <-]|Hin]; [done|]. exfalso. apply Hm.
    apply list_elem_of_fmap. by exists (n, x).
  - rewrite IH by done. split; [by right|]. by intros [[= <- <-]|?].
Qed.

Lemma find_entry_none n es : find_entry n es = None <-> n ∉ es.*1.
Proof.
  induction es as [|[m y] es IH]; simpl; [split; [intros _; apply not_elem_of_nil|done]|].
  rewrite not_elem_of_cons. destruct (String.eqb_spec m n) as [->|Hne]; [split; [done|by intros [? _]]|].
  rewrite IH. split; [by intros|by intros [_ ?]].
Qed.

Lemma put_entry_names n v es : (put_entry n v es).*1 `sublist_of` es.*1.
Proof.
  induction es as [|[m y] es IH]; simpl; [constructor|]. destruct (String.eqb m n); [|by constructor].
  destruct v; by constructor.
Qed.

Lemma find_put n m v es : NoDup es.*1 -> is_Some (find_entry m es) ->
  find_entry n (put_entry m v es) = if String.eqb n m then v else find_entry n es.
Proof.
  induction es as [|[k y] es IH]; simpl; intros Hnd Hm; [by destruct Hm|].
  apply NoDup_cons in Hnd as [Hk Hnd]. destruct (String.eqb_spec k m) as [->|Hkm].
  - destruct (String.eqb_spec n m) as [->|Hnm].
    + destruct v; simpl; [by rewrite String.eqb_refl|]. by apply find_entry_none.
    + destruct (String.eqb_spec m n); [congruence|]. destruct v; simpl; [|done].
      by destruct (String.eqb_spec m n).
  - simpl. destruct (String.eqb_spec k n) as [->|Hkn].
    + by destruct (String.eqb_spec n m).
    + by apply IH.
Qed.

Lemma put_same n x es : find_entry n es = Some x -> put_entry n (Some x) es = es.
Proof.
  induction es as [|[m y] es IH]; simpl; [done|]. destruct (String.eqb_spec m n) as [->|]; [by intros [= ->]|].
  intros H. by rewrite IH.
Qed.

(** ** One loop over the children *)

Section Children.
Context (prefix : string) (dir_ : path) (f : path -> string -> Node -> RetentionReport -> RetentionReport * option Node).

Definition child_step (acc : RetentionReport * list (string * Node)) (c : string * string) : RetentionReport * list (string * Node) :=
  let '(r, es) := acc in
  let '(name, value) := c in
  match find_entry name es with
  | Some x => let '(r', x') := f (dir_ ++ [name]) value x r in (r', put_entry name x' es)
  | None => (r, es)
  end.

Lemma children_in es n v : NoDup es.*1 ->
  (n, v) ∈ children prefix es <-> exists x, find_entry n es = Some x /\ is_dir x = true /\ strip_prefix prefix n = Some v.
Proof.
  intros Hnd. unfold children. rewrite stable_sort_perm, list_elem_of_omap. split.
  - intros ([m x] & Hin & Hc). unfold child in Hc. cbn [fst snd] in Hc. destruct (is_dir x) eqn:Ed; [|done].
    destruct (strip_prefix prefix m) as [w|] eqn:Es; [|done]. injection Hc as <- <-.
    exists x. by rewrite find_entry_in.
  - intros (x & Hx & Hd & Hs). exists (n, x). rewrite find_entry_in in Hx by done. split; [done|].
    unfold child. cbn [fst snd]. by rewrite Hd, Hs.
Qed.

Lemma children_nodup es : NoDup es.*1 -> NoDup (children prefix es).*1.
Proof.
  intros Hnd. assert (NoDup (omap (child prefix) es).*1) as H.
  { induction es as [|[m x] es IH]; simpl; [constructor|]. apply NoDup_cons in Hnd as [Hm Hnd].
    unfold child at 1. cbn [fst snd]. destruct (is_dir x); [|by apply IH].
    destruct (strip_prefix prefix m); [|by apply IH]. simpl. constructor; [|by apply IH].
    intros Hin. apply Hm. apply list_elem_of_fmap in Hin as ([k w] & -> & Hin).
    apply list_elem_of_omap in Hin as ([k' x'] & Hin & Hc). unfold child in Hc. cbn [fst snd] in Hc.
    destruct (is_dir x'); [|done]. destruct (strip_prefix prefix k'); [|done]. injection Hc as <- _.
    apply list_elem_of_fmap. by exists (k', x'). }
  eapply NoDup_Permutation_proper; [|exact H]. apply fmap_Permutation, stable_sort_perm.
Qed.

Lemma child_steps l : forall r es, NoDup l.*1 -> NoDup es.*1 ->
  let '(r', es') := foldl child_step (r, es) l in
  NoDup es'.*1 /\ forall n,
    match find_entry n es with
    | None => find_entry n es' = None
    | Some x =>
        (n ∉ l.*1 -> find_entry n es' = Some x) /\
        (forall v, (n, v) ∈ l -> exists r0, find_entry n es' = snd (f (dir_ ++ [n]) v x r0))
    end.
Proof.
  induction l as [|[m w] l IH]; intros r es Hl Hes; simpl.
  - split; [done|]. intros n. destruct (find_entry n es); [|done]. split; [done|]. by intros v ?%not_elem_of_nil.
  - apply NoDup_cons in Hl as [Hm Hl]. destruct (find_entry m es) as [y|] eqn:Em.
    + destruct (f (dir_ ++ [m]) w y r) as [r1 y1] eqn:Ef.
      assert (NoDup (put_entry m y1 es).*1) as Hes1 by (eapply sublist_NoDup; [exact Hes|apply put_entry_names]).
      specialize (IH r1 (put_entry m y1 es) Hl Hes1). destruct (foldl child_step _ l) as [r' es'].
      destruct IH as [Hnd IH]. split; [done|]. intros n. specialize (IH n).
      rewrite (find_put n m y1 es Hes) in IH by eauto. destruct (String.eqb_spec n m) as [e|Hnm].
      * subst n. rewrite Em. split; [intros Hn; exfalso; apply Hn; by left|]. intros v Hv.
        apply elem_of_cons in Hv as [Hv|Hv].
        -- injection Hv as ->. exists r. rewrite Ef. cbn [snd]. destruct y1 as [y1|]; [by destruct IH as [IH _]; apply IH|done].
        -- exfalso. apply Hm. apply list_elem_of_fmap. by exists (m, v).
      * destruct (find_entry n es) as [x|]; [|done]. destruct IH as [IH1 IH2]. split.
        -- intros Hn. apply IH1. intros Hin. apply Hn. by right.
        -- intros v Hv. apply IH2. apply elem_of_cons in Hv as [Hv|?]; [congruence|done].
    + specialize (IH r es Hl Hes). destruct (foldl child_step _ l) as [r' es']. destruct IH as [Hnd IH].
      split; [done|]. intros n. specialize (IH n). destruct (find_entry n es) as [x|] eqn:En; [|done].
      destruct IH as [IH1 IH2]. split.
      * intros Hn. apply IH1. intros Hin. apply Hn. by right.
      * intros v Hv. apply elem_of_cons in Hv as [Hv|?]; [congruence|by apply IH2].
Qed.

(** What the loop leaves of every entry. *)
Lemma each_child_find es r : NoDup es.*1 ->
  let '(r', es') := each_child prefix dir_ f es r in
  NoDup es'.*1 /\ forall n,
    match find_entry n es with
    | None => find_entry n es' = None
    | Some x =>
        match (if is_dir x then strip_prefix prefix n else None) with
        | None => find_entry n es' = Some x
        | Some v => exists r0, find_entry n es' = snd (f (dir_ ++ [n]) v x r0)
        end
    end.
Proof.
  intros Hes. pose proof (child_steps (children prefix es) r es (children_nodup es Hes) Hes) as H.
  change (each_child prefix dir_ f es r) with (foldl child_step (r, es) (children prefix es)).
  destruct (foldl child_step _ _) as [r' es']. destruct H as [Hnd H]. split; [done|]. intros n. specialize (H n).
  destruct (find_entry n es) as [x|] eqn:En; [|done]. destruct H as [H1 H2].
  destruct (if is_dir x then strip_prefix prefix n else None) as [v|] eqn:Ev.
  - apply H2. apply children_in; [done|]. exists x. destruct (is_dir x); [done|done].
  - apply H1. intros Hin. apply list_elem_of_fmap in Hin as ([k v] & -> & Hin).
    apply children_in in Hin as (y & Hy & Hd & Hs); [|done]. cbn [fst] in *. assert (y = x) as -> by congruence.
    by rewrite Hd, Hs in Ev.
Qed.
End Children.


(** ** What a pass removes *)

(** What may happen to the files below a node: those [D] names may go, and go
    when no removal fails; every other one stays. *)
Definition pruned (ok : Prop) (D : path -> bool) (x : Node) (x' : option Node) : Prop :=
  forall p, if D p then (ok -> file_opt x' p = None) /\ (file_opt x' p = file_at x p \/ file_opt x' p = None)
            else file_opt x' p = file_at x p.

Lemma pruned_none ok D x : (forall p, D p = false) -> pruned ok D x (Some x).
Proof. intros H p. by rewrite H. Qed.

Lemma pruned_ext ok D D' x x' : (forall p, file_at x p <> None -> D p = D' p) -> pruned ok D x x' -> pruned ok D' x x'.
Proof.
  intros HD H p. specialize (H p). destruct (file_at x p) as [n|] eqn:Ef; [by rewrite <-(HD p ltac:(congruence))|].
  assert (file_opt x' p = None) as ->; [|by destruct (D' p); auto]. destruct (D p); [by destruct H as [_ [H|H]]|done].
Qed.

(** The children of a directory, each pruned on its own. *)
Lemma each_child_pruned ok prefix dir_ f D es r : wf (Dir es) ->
  (forall n v x r0, wf x -> is_dir x = true -> pruned ok (D n v) x (snd (f (dir_ ++ [n]) v x r0))) ->
  pruned ok (fun p => match p with
                      | n :: q => match strip_prefix prefix n with Some v => D n v q | None => false end
                      | [] => false
                      end && negb (bool_decide (tail p = []))) (Dir es) (Some (Dir (snd (each_child prefix dir_ f es r)))).
Proof.
  intros Hwf Hf. inversion Hwf as [|? Hnd Hall]; subst. pose proof (each_child_find prefix dir_ f es r Hnd) as H.
  destruct (each_child prefix dir_ f es r) as [r' es']. destruct H as [_ H]. cbn [snd]. intros [|n q]; [done|].
  specialize (H n). cbn [file_opt file_at tail]. destruct (find_entry n es) as [x|] eqn:En.
  2:{ rewrite H. destruct (_ && _); [split; [done|by left]|done]. }
  assert (wf x) as Hx. { apply find_entry_in in En; [|done]. rewrite Forall_forall in Hall. by apply (Hall (n, x)). }
  destruct (strip_prefix prefix n) as [v|] eqn:Ev.
  2:{ replace (if is_dir x then None else None) with (@None string) in H by (by destruct (is_dir x)). by rewrite H. }
  destruct (is_dir x) eqn:Ed.
  - destruct H as [r0 ->]. specialize (Hf n v x r0 Hx Ed q). change (match snd (f (dir_ ++ [n]) v x r0) with
      | Some y => file_at y q | None => None end) with (file_opt (snd (f (dir_ ++ [n]) v x r0)) q).
    destruct q as [|a q]; cbn [bool_decide negb tail]; [|by rewrite andb_true_r].
    rewrite andb_false_r. destruct x; [done|]. cbn [file_at] in *. destruct (D n v []); [by destruct Hf as [_ [?|?]]|done].
  - rewrite H. destruct x as [sz|]; [|done]. destruct q; cbn; [by rewrite andb_false_r|].
    destruct (_ && _); [split; [done|by left]|done].
Qed.

Section Prune.
Context (rm_tree : path -> Node -> option (string * Node)).
Context (rm_file : path -> option string).
Context (rm_dir : path -> bool).
Context (tenancy : Tenancy) (now : Z) (pins : PinSet).

(** [remove_dir_all] takes nothing but files away, and leaves only files that were there. *)
Hypothesis rm_tree_part : forall d x e x', rm_tree d x = Some (e, x') -> forall p, file_at x' p = file_at x p \/ file_at x' p = None.

Definition no_failure : Prop := (forall d x, rm_tree d x = None) /\ (forall p, rm_file p = None).

(** *** Below a partition that holds pinned files *)

Lemma remove_fold_left dir_ es : forall acc n, NoDup es.*1 -> (forall m, m ∈ (left_ acc).*1 -> m ∉ es.*1) -> NoDup (left_ acc).*1 ->
  let step := fun acc e => match snd e with
        | Dir _ => remove_sub rm_dir false (dir_ ++ [fst e]) (fst e) (remove_unpinned rm_file rm_dir false pins (dir_ ++ [fst e]) (snd e)) acc
        | File size => remove_one rm_file false pins (dir_ ++ [fst e]) (fst e) size acc
        end in
  let out := foldl step acc es in
  find_entry n (left_ out) =
    match find_entry n es with
    | None => find_entry n (left_ acc)
    | Some (File size) => if contains pins (dir_ ++ [n]) || bool_decide (is_Some (rm_file (dir_ ++ [n]))) then Some (File size) else None
    | Some (Dir sub) =>
        let s := remove_unpinned rm_file rm_dir false pins (dir_ ++ [n]) (Dir sub) in
        if (kept s =? 0) && bool_decide (left_ s = []) && rm_dir (dir_ ++ [n]) then None else Some (Dir (left_ s))
    end.
Proof.
  assert (forall n m x l, find_entry n (l ++ [(m, x)]) = match find_entry n l with Some y => Some y | None => if String.eqb m n then Some x else None end) as Hsnoc.
  { intros n m x l. induction l as [|[k y] l IH]; simpl; [done|]. by destruct (String.eqb k n). }
  induction es as [|[m x] es IH]; intros acc n Hnd Hdis Hacc; cbv zeta; [done|]. cbn [foldl fst snd].
  apply NoDup_cons in Hnd as [Hm Hnd].
  set (acc1 := match x with File size => _ | Dir _ => _ end).
  assert (exists o, (left_ acc1 = left_ acc ++ match o with Some y => [(m, y)] | None => [] end) /\
            o = match x with
                | File size => if contains pins (dir_ ++ [m]) || bool_decide (is_Some (rm_file (dir_ ++ [m]))) then Some (File size) else None
                | Dir sub =>
                    let s := remove_unpinned rm_file rm_dir false pins (dir_ ++ [m]) (Dir sub) in
                    if (kept s =? 0) && bool_decide (left_ s = []) && rm_dir (dir_ ++ [m]) then None else Some (Dir (left_ s))
                end) as (o & Hl & Ho).
  { subst acc1. destruct x as [size|sub].
    - eexists. split; [|reflexivity]. unfold remove_one. destruct (contains pins _); cbn; [done|].
      destruct (rm_file _); cbn; [done|by rewrite app_nil_r].
    - eexists. split; [|reflexivity]. unfold remove_sub. set (s := remove_unpinned _ _ _ _ _ _). cbn [left_ negb andb].
      rewrite andb_true_r. destruct (_ && _); [by rewrite app_nil_r|done]. }
  assert (find_entry m (left_ acc) = None) as Hfresh.
  { apply find_entry_none. intros Hin. apply (Hdis m Hin). by left. }
  assert (forall k, k ∈ (left_ acc1).*1 -> k ∈ (left_ acc).*1 \/ k = m) as Hk1.
  { intros k. rewrite Hl, fmap_app. destruct o; cbn; rewrite elem_of_app; [|by rewrite elem_of_nil; naive_solver].
    intros [?|[= ->]%list_elem_of_singleton]; auto. }
  rewrite (IH acc1 n Hnd).
  - cbn [find_entry]. destruct (String.eqb_spec m n) as [->|Hmn].
    + cbn [fst] in Hm. rewrite (proj2 (find_entry_none _ es) Hm), Hl. destruct o as [y|].
      * rewrite Hsnoc, Hfresh, String.eqb_refl. exact Ho.
      * rewrite app_nil_r, Hfresh. exact Ho.
    + destruct (find_entry n es); [done|]. rewrite Hl. destruct o as [y|]; [|by rewrite app_nil_r].
      rewrite Hsnoc. destruct (find_entry n (left_ acc)); [done|]. by destruct (String.eqb_spec m n).
  - intros k Hk Hin. apply Hk1 in Hk as [Hk| ->]; [|done]. apply (Hdis k Hk). by right.
  - rewrite Hl, fmap_app. destruct o; cbn; [|by rewrite app_nil_r].
    apply NoDup_app. split; [done|]. split; [|apply NoDup_singleton].
    intros k Hk ->%list_elem_of_singleton. apply (Hdis m Hk). by left.
Qed.

Lemma remove_unpinned_find dir_ es n : NoDup es.*1 ->
  find_entry n (left_ (remove_unpinned rm_file rm_dir false pins dir_ (Dir es))) =
    match find_entry n es with
    | None => None
    | Some (File size) => if contains pins (dir_ ++ [n]) || bool_decide (is_Some (rm_file (dir_ ++ [n]))) then Some (File size) else None
    | Some (Dir sub) =>
        let s := remove_unpinned rm_file rm_dir false pins (dir_ ++ [n]) (Dir sub) in
        if (kept s =? 0) && bool_decide (left_ s = []) && rm_dir (dir_ ++ [n]) then None else Some (Dir (left_ s))
    end.
Proof.
  intros Hnd. apply (remove_fold_left dir_ es (mkRemoval 0 0 [] []) n Hnd).
  - by intros m ?%not_elem_of_nil.
  - constructor.
Qed.

Lemma remove_unpinned_pruned x : forall dir_, wf x -> is_dir x = true ->
  pruned no_failure (fun p => negb (contains pins (dir_ ++ p))) x
    (Some (Dir (left_ (remove_unpinned rm_file rm_dir false pins dir_ x)))).
Proof.
  induction x as [size|es IH] using Node_ind'; intros dir_ Hwf Hd; [done|]. inversion Hwf as [|? Hnd Hall]; subst.
  intros [|n q]; cbn [file_opt file_at]; [by destruct (negb _); auto|].
  rewrite (remove_unpinned_find dir_ es n Hnd). destruct (find_entry n es) as [[size|sub]|] eqn:En.
  - destruct (contains pins (dir_ ++ [n])) eqn:Ec; cbn [orb].
    + destruct q as [|a q]; [by rewrite Ec|]. by destruct (negb _); auto.
    + destruct q as [|a q].
      * rewrite Ec. cbn [negb]. split; [|by case_bool_decide; auto].
        intros [_ Hrm]. rewrite Hrm. by rewrite bool_decide_eq_false_2 by (by intros [? ?]).
      * case_bool_decide; cbn; by destruct (negb _); auto.
  - apply find_entry_in in En; [|done]. rewrite Forall_forall in IH, Hall.
    specialize (IH _ En (dir_ ++ [n]) (Hall _ En) eq_refl q). cbn [snd file_opt] in IH.
    rewrite <-app_assoc in IH. cbn [app] in IH. cbv zeta. set (s := remove_unpinned _ _ _ _ _ _) in *.
    destruct (_ && _) eqn:Eg; [|done]. apply andb_prop in Eg as [Eg _]. apply andb_prop in Eg as [_ Eg].
    apply bool_decide_eq_true in Eg. rewrite Eg in IH.
    assert (file_at (Dir []) q = None) as Hq by (by destruct q). rewrite Hq in IH.
    by destruct (negb _); [|by rewrite IH].
  - by destruct (negb _); auto.
Qed.

(** *** One directory after another *)

(** The partition's hour is over and its bucket's retention has passed since. *)
Definition overdue (tn ix : string) (hour : Z) (level : string) : bool :=
  match buckets tenancy tn ix ≫= (fun b => by_name b level) with
  | Some b => sat_add (end_unix_secs (mkKey tn ix hour level "")) (as_secs (lb_retention b)) <=? now
  | None => false
  end.

Definition free (dir_ q : path) : bool := negb (contains pins (dir_ ++ q)).

Lemma is_prefix_app p q : is_prefix p (p ++ q) = true.
Proof. apply bool_decide_eq_true. by rewrite take_app_length. Qed.

Lemma level_step_pruned tn ix hour dir_ level x r : wf x -> is_dir x = true ->
  pruned no_failure (fun q => negb (String.eqb level "") && overdue tn ix hour level && free dir_ q) x
    (snd (level_step rm_tree rm_file rm_dir tenancy now false pins tn ix hour dir_ level x r)).
Proof.
  intros Hwf Hd. unfold level_step, overdue. destruct (String.eqb level ""); [by apply pruned_none|].
  destruct (_ ≫= _) as [b|]; [|by apply pruned_none]. cbn [negb andb].
  rewrite Z.ltb_antisym. destruct (_ <=? now); cbn [negb]; [|by apply pruned_none]. cbn [andb].
  case_bool_decide as Hp.
  - match goal with |- context [if freed ?y =? 0 then _ else _] => set (rem := y) end.
    match goal with |- pruned _ _ _ (snd ?z) => replace (snd z) with (Some (Dir (left_ rem))) by (by destruct (freed rem =? 0)) end.
    by apply remove_unpinned_pruned.
  - assert (forall q, free dir_ q = true) as Hfree.
    { intros q. apply negb_true_iff, bool_decide_eq_false. intros Hin. apply Hp. exists (dir_ ++ q). split; [done|apply is_prefix_app]. }
    intros q. rewrite Hfree. destruct (rm_tree dir_ x) as [[e x']|] eqn:Er; cbn [snd file_opt]; [|by auto].
    split; [intros [Ht _]; congruence|]. by apply (rm_tree_part dir_ x e x').
Qed.

(** The same, directory by directory: what the loop over one directory's
    children may delete. *)
Definition doomed_below (prefix : string) (D : path -> string -> path -> bool) (dir_ p : path) : bool :=
  match p with
  | n :: q => match strip_prefix prefix n with Some v => D (dir_ ++ [n]) v q | None => false end && negb (bool_decide (q = []))
  | [] => false
  end.
Definition doomed_hour (tn ix : string) (dir_ : path) (hour : string) (p : path) : bool :=
  match parse_hour hour with
  | Some h => doomed_below "level=" (fun d level q => negb (String.eqb level "") && overdue tn ix h level && free d q) dir_ p
  | None => false
  end.
Definition doomed_index (tn : string) (dir_ : path) (ix : string) (p : path) : bool :=
  valid_ident ix && doomed_below "hour=" (doomed_hour tn ix) dir_ p.
Definition doomed_tenant (dir_ : path) (tn : string) (p : path) : bool :=
  valid_ident tn && doomed_below "index=" (doomed_index tn) dir_ p.

(** What a pass deletes: the files of the partitions of this shape whose names
    are ours, whose bucket is configured and overdue, and which are not pinned. *)
Definition doomed (store_dir p : path) : bool :=
  match p with
  | a :: b :: c :: d :: _ :: _ =>
      match strip_prefix "tenant=" a, strip_prefix "index=" b, strip_prefix "hour=" c ≫= parse_hour, strip_prefix "level=" d with
      | Some tn, Some ix, Some h, Some level =>
          valid_ident tn && valid_ident ix && negb (String.eqb level "") && overdue tn ix h level &&
          negb (contains pins (store_dir ++ p))
      | _, _, _, _ => false
      end
  | _ => false
  end.

Lemma below_cons prefix D dir_ n q : q <> [] ->
  doomed_below prefix D dir_ (n :: q) = match strip_prefix prefix n with Some v => D (dir_ ++ [n]) v q | None => false end.
Proof. intros Hq. unfold doomed_below. rewrite (bool_decide_eq_false_2 (q = [])) by done. by rewrite andb_true_r. Qed.
Lemma below_leaf prefix D dir_ n : doomed_below prefix D dir_ [n] = false.
Proof. apply andb_false_r. Qed.
Ltac below pre :=
  first [rewrite below_leaf | rewrite below_cons by done]; cbv beta; rewrite ?andb_false_r; try done;
  match goal with |- context [strip_prefix pre ?b] => destruct (strip_prefix pre b); cbn [mbind option_bind]; rewrite ?andb_false_r; try done end.

Lemma doomed_layers store_dir p : doomed store_dir p = doomed_below "tenant=" doomed_tenant store_dir p.
Proof.
  destruct p as [|a [|b [|c [|d [|e q]]]]]; [done|symmetry; apply below_leaf| | | |];
    unfold doomed, doomed_tenant, doomed_index, doomed_hour; below "tenant="; below "index=".
  - below "hour=".
  - below "hour=". destruct (parse_hour _); [rewrite below_leaf|]; by rewrite !andb_false_r.
  - below "hour=". destruct (parse_hour _); [|by rewrite !andb_false_r].
    below "level=". unfold free. rewrite <-!app_assoc. by rewrite !andb_assoc.
Qed.

Lemma below_pruned prefix D dir_ f x r : wf x -> is_dir x = true ->
  (forall d v y r0, wf y -> is_dir y = true -> pruned no_failure (D d v) y (snd (f d v y r0))) ->
  pruned no_failure (doomed_below prefix D dir_) x (Some (Dir (snd (each_child prefix dir_ f (entries x) r)))).
Proof.
  intros Hwf Hd Hf. destruct x as [|es]; [done|]. cbn [entries].
  eapply pruned_ext; [|apply (each_child_pruned no_failure prefix dir_ f (fun n v => D (dir_ ++ [n]) v)); [done|]].
  - intros [|n q] _; [by rewrite andb_false_r|]. done.
  - intros n v y r0. apply Hf.
Qed.

Lemma hour_step_pruned tn ix dir_ hour x r : wf x -> is_dir x = true ->
  pruned no_failure (doomed_hour tn ix dir_ hour) x
    (snd (hour_step rm_tree rm_file rm_dir tenancy now false pins tn ix dir_ hour x r)).
Proof.
  intros Hwf Hd. unfold hour_step, doomed_hour. destruct (parse_hour hour) as [h|]; [|by apply pruned_none].
  pose proof (below_pruned "level=" (fun d level q => negb (String.eqb level "") && overdue tn ix h level && free d q) dir_
    (level_step rm_tree rm_file rm_dir tenancy now false pins tn ix h) x r Hwf Hd) as H.
  destruct (each_child _ _ _ _ _) as [r' es']. cbn [snd] in *. specialize (H ltac:(intros; by apply level_step_pruned)).
  destruct (_ && rm_dir dir_) eqn:Eg; [|done]. apply andb_prop in Eg as [Eg _]. apply andb_prop in Eg as [_ Eg].
  apply bool_decide_eq_true in Eg as ->. intros p. specialize (H p).
  assert (file_opt (Some (Dir [])) p = None) as Hn by (by destruct p). by rewrite Hn in H.
Qed.

Lemma index_step_pruned tn dir_ ix x r : wf x -> is_dir x = true ->
  pruned no_failure (doomed_index tn dir_ ix) x
    (snd (index_step rm_tree rm_file rm_dir tenancy now false pins tn dir_ ix x r)).
Proof.
  intros Hwf Hd. unfold index_step, doomed_index. destruct (valid_ident ix); cbn [negb andb]; [|by apply pruned_none].
  pose proof (below_pruned "hour=" (doomed_hour tn ix) dir_ (hour_step rm_tree rm_file rm_dir tenancy now false pins tn ix) x r
    Hwf Hd ltac:(intros; by apply hour_step_pruned)) as H. by destruct (each_child _ _ _ _ _).
Qed.

Lemma tenant_step_pruned dir_ tn x r : wf x -> is_dir x = true ->
  pruned no_failure (doomed_tenant dir_ tn) x
    (snd (tenant_step rm_tree rm_file rm_dir tenancy now false pins dir_ tn x r)).
Proof.
  intros Hwf Hd. unfold tenant_step, doomed_tenant. destruct (valid_ident tn); cbn [negb andb]; [|by apply pruned_none].
  pose proof (below_pruned "index=" (doomed_index tn) dir_ (index_step rm_tree rm_file rm_dir tenancy now false pins tn) x r
    Hwf Hd ltac:(intros; by apply index_step_pruned)) as H. by destruct (each_child _ _ _ _ _).
Qed.

Lemma enforce_exact msg store_dir store : wf store ->
  let store' := snd (enforce_pinned rm_tree rm_file rm_dir tenancy now false pins msg store_dir (Some store)) in
  (forall p, doomed store_dir p = false -> file_opt store' p = file_at store p) /\
  (forall p, file_opt store' p <> None -> file_opt store' p = file_at store p) /\
  (no_failure -> is_dir store = true -> forall p, doomed store_dir p = true -> file_opt store' p = None).
Proof.
  intros Hwf store'. assert (is_dir store = true -> pruned no_failure (doomed store_dir) store store') as H.
  { intros Hd. eapply pruned_ext; [intros p _; symmetry; apply doomed_layers|]. subst store'. destruct store as [|es]; [done|]. cbn [enforce_pinned].
    pose proof (below_pruned "tenant=" doomed_tenant store_dir (tenant_step rm_tree rm_file rm_dir tenancy now false pins) (Dir es)
      report_default Hwf eq_refl ltac:(intros; by apply tenant_step_pruned)) as H. cbn [entries] in H.
    by destruct (each_child _ _ _ _ _). }
  destruct (is_dir store) eqn:Ed.
  - specialize (H eq_refl). split_and!; intros; specialize (H p).
    + by rewrite H0 in H.
    + destruct (doomed store_dir p); [by destruct H as [_ [?|?]]|done].
    + rewrite H2 in H. by apply H.
  - subst store'. by destruct store.
Qed.

(** C20: retention deletes exactly the files it should.  A file is [doomed] when
    its path has the shape [tenant=/index=/hour=/level=/...] with names of ours
    and an hour that reads, its bucket is in the configuration now, its hour
    and then its bucket's retention have passed, and it is not pinned: a pass
    leaves every other file of the store as it was (whatever system calls
    fail), and removes every doomed file when no removal fails. *)
Theorem enforce_deletes_exactly msg store_dir store : wf store ->
  let store' := snd (enforce_pinned rm_tree rm_file rm_dir tenancy now false pins msg store_dir (Some store)) in
  (forall p, doomed store_dir p = false -> file_opt store' p = file_at store p) /\
  (forall p, file_opt store' p <> None -> file_opt store' p = file_at store p) /\
  (no_failure -> is_dir store = true -> forall p, doomed store_dir p = true -> file_opt store' p = None).
Proof. apply enforce_exact. Qed.

End Prune.

(** ** A dry run *)

Section Loops.
Context (prefix : string) (dir_ : path).
Implicit Types f g : path -> string -> Node -> RetentionReport -> RetentionReport * option Node.

Lemma each_child_report f es0 l : forall r es, NoDup l.*1 -> NoDup es.*1 -> (forall c, c ∈ l -> find_entry c.1 es = find_entry c.1 es0) ->
  fst (foldl (child_step dir_ f) (r, es) l) =
  foldl (fun r c => match find_entry c.1 es0 with Some x => fst (f (dir_ ++ [c.1]) c.2 x r) | None => r end) r l.
Proof.
  induction l as [|[m v] l IH]; intros r es Hl Hes Heq; [done|]. apply NoDup_cons in Hl as [Hm Hl]. cbn [foldl fst snd].
  assert (find_entry m es = find_entry m es0) as Hme by (apply (Heq (m, v)); by left).
  unfold child_step at 2. rewrite Hme. cbn [fst] in *. destruct (find_entry m es0) as [x|] eqn:Ex.
  - destruct (f (dir_ ++ [m]) v x r) as [r1 x1]. cbn [fst]. apply IH; [done|eapply sublist_NoDup; [exact Hes|apply put_entry_names]|].
    intros [k w] Hk. cbn [fst]. rewrite find_put; [|done|rewrite Hme; eauto].
    destruct (String.eqb_spec k m) as [e|]; [|apply (Heq (k, w)); by right].
    exfalso. apply Hm. rewrite <-e. apply list_elem_of_fmap. by exists (k, w).
  - apply IH; [done|done|]. intros c Hc. apply Heq. by right.
Qed.

Lemma child_at es c : NoDup es.*1 -> wf (Dir es) -> c ∈ children prefix es ->
  exists x, find_entry c.1 es = Some x /\ is_dir x = true /\ wf x.
Proof.
  destruct c as [n v]. intros Hnd Hwf (x & Hx & Hd & _)%children_in; [|done]. exists x. split_and!; [done|done|].
  inversion Hwf as [|? _ Hall]; subst. apply find_entry_in in Hx; [|done]. rewrite Forall_forall in Hall. by apply (Hall _ Hx).
Qed.

(** Two steps that report the same make loops that report the same. *)
Lemma each_child_same f g es r : wf (Dir es) ->
  (forall d v x r0, wf x -> is_dir x = true -> fst (f d v x r0) = fst (g d v x r0)) ->
  fst (each_child prefix dir_ f es r) = fst (each_child prefix dir_ g es r).
Proof.
  intros Hwf Hfg. inversion Hwf as [|? Hnd _]; subst.
  change (fst (foldl (child_step dir_ f) (r, es) (children prefix es)) = fst (foldl (child_step dir_ g) (r, es) (children prefix es))).
  rewrite !(each_child_report _ es) by (try apply children_nodup; done).
  assert (forall c, c ∈ children prefix es -> exists x, find_entry c.1 es = Some x /\ is_dir x = true /\ wf x) as Hc
    by (intros c; by apply child_at).
  induction (children prefix es) as [|c l IH] in r, Hc |- *; [done|]. cbn [foldl].
  destruct (Hc c ltac:(by left)) as (x & -> & Hd & Hx). rewrite (Hfg _ _ x r Hx Hd). apply IH. intros c' ?. apply Hc. by right.
Qed.

(** A step that leaves the child as it is makes a loop that leaves them all. *)
Lemma each_child_keep f es r : wf (Dir es) ->
  (forall d v x r0, wf x -> is_dir x = true -> snd (f d v x r0) = Some x) -> snd (each_child prefix dir_ f es r) = es.
Proof.
  intros Hwf Hf. inversion Hwf as [|? Hnd _]; subst.
  change (snd (foldl (child_step dir_ f) (r, es) (children prefix es)) = es).
  assert (forall c, c ∈ children prefix es -> exists x, find_entry c.1 es = Some x /\ is_dir x = true /\ wf x) as Hc
    by (intros c; by apply child_at).
  induction (children prefix es) as [|[n v] l IH] in r, Hc |- *; [done|]. cbn [foldl]. unfold child_step at 2.
  destruct (Hc (n, v) ltac:(by left)) as (x & Hx & Hd & Hw). cbn [fst] in Hx. rewrite Hx. specialize (Hf (dir_ ++ [n]) v x r Hw Hd).
  destruct (f (dir_ ++ [n]) v x r) as [r1 x1]. cbn [snd] in Hf. subst x1. rewrite put_same by done. apply IH. intros c' ?. apply Hc. by right.
Qed.
End Loops.

Section DryRun.
Context (rm_tree : path -> Node -> option (string * Node)).
Context (rm_file : path -> option string).
Context (rm_dir : path -> bool).
Context (tenancy : Tenancy) (now : Z) (pins : PinSet).

Lemma remove_unpinned_dry x : forall dir_, left_ (remove_unpinned rm_file rm_dir true pins dir_ x) = entries x.
Proof.
  induction x as [size|es IH] using Node_ind'; intros dir_; [done|]. cbn [remove_unpinned entries].
  assert (forall acc, left_ (foldl (fun acc e => match snd e with
        | Dir _ => remove_sub rm_dir true (dir_ ++ [fst e]) (fst e) (remove_unpinned rm_file rm_dir true pins (dir_ ++ [fst e]) (snd e)) acc
        | File size => remove_one rm_file true pins (dir_ ++ [fst e]) (fst e) size acc
        end) acc es) = left_ acc ++ es) as H; [|by rewrite H].
  induction IH as [|[n x] es Hx _ IHes]; intros acc; cbn [foldl]; [by rewrite app_nil_r|]. rewrite IHes. cbn [fst snd] in *.
  destruct x as [size|sub].
  - unfold remove_one. destruct (contains pins _); cbn [left_]; by rewrite <-app_assoc.
  - unfold remove_sub. cbn [left_ negb andb]. rewrite andb_false_r. cbn [andb]. rewrite Hx. by rewrite <-app_assoc.
Qed.

Definition counts (a : Removal) : Z * Z * list (path * string) := (freed a, kept a, errs a).

Lemma remove_unpinned_counts x : (forall p, rm_file p = None) -> forall dir_,
  counts (remove_unpinned rm_file rm_dir false pins dir_ x) = counts (remove_unpinned rm_file rm_dir true pins dir_ x).
Proof.
  intros Hrm. induction x as [size|es IH] using Node_ind'; intros dir_; [done|]. cbn [remove_unpinned].
  generalize (eq_refl (counts (mkRemoval 0 0 [] []))). generalize (mkRemoval 0 0 [] []) at 1 3. generalize (mkRemoval 0 0 [] []).
  induction IH as [|[n x] es Hx _ IHes]; intros a b Hab; cbn [foldl]; [done|]. apply IHes. clear IHes. cbn [fst snd] in *.
  unfold counts in Hab. injection Hab as Hf Hk He. destruct x as [size|sub].
  - unfold remove_one. rewrite Hrm. destruct (contains pins _); unfold counts; cbn [freed kept errs]; by rewrite Hf, Hk, He.
  - specialize (Hx (dir_ ++ [n])). destruct (remove_unpinned _ _ false _ _ _), (remove_unpinned _ _ true _ _ _).
    unfold counts, remove_sub in *. cbn [freed kept errs] in *. injection Hx as -> -> ->. by rewrite Hf, Hk, He.
Qed.

Lemma level_step_dry tn ix hour d level x r : is_dir x = true ->
  snd (level_step rm_tree rm_file rm_dir tenancy now true pins tn ix hour d level x r) = Some x.
Proof.
  intros Hd. destruct x as [|es]; [done|]. unfold level_step. destruct (String.eqb level ""); [done|].
  destruct (_ ≫= _); [|done]. destruct (_ <? _); [done|]. destruct (bool_decide _); [|done].
  cbv zeta. rewrite remove_unpinned_dry. by destruct (_ =? 0).
Qed.

Lemma level_step_report tn ix hour d level x r : no_failure rm_tree rm_file ->
  fst (level_step rm_tree rm_file rm_dir tenancy now false pins tn ix hour d level x r) =
  fst (level_step rm_tree rm_file rm_dir tenancy now true pins tn ix hour d level x r).
Proof.
  intros [Ht Hf]. unfold level_step. destruct (String.eqb level ""); [done|].
  destruct (_ ≫= _); [|done]. destruct (_ <? _); [done|]. destruct (bool_decide _).
  - cbv zeta. pose proof (remove_unpinned_counts x Hf d) as H. destruct (remove_unpinned _ _ false _ _ _), (remove_unpinned _ _ true _ _ _).
    unfold counts in H. cbn [freed kept errs] in *. injection H as -> -> ->. by destruct (_ =? 0).
  - by rewrite Ht.
Qed.

(** One directory further up. *)
Lemma dir_step_dry prefix d f es r (wrap : RetentionReport * list (string * Node) -> RetentionReport * option Node) :
  wf (Dir es) -> (forall d v x r0, wf x -> is_dir x = true -> snd (f d v x r0) = Some x) ->
  (forall r es, snd (wrap (r, es)) = Some (Dir es)) -> snd (wrap (each_child prefix d f es r)) = Some (Dir es).
Proof.
  intros Hwf Hf Hw. pose proof (each_child_keep prefix d f es r Hwf Hf) as H.
  destruct (each_child _ _ _ _ _). cbn in H. by rewrite Hw, H.
Qed.

Lemma dir_step_report prefix d f g es r (wf_ wg : RetentionReport * list (string * Node) -> RetentionReport * option Node) :
  wf (Dir es) -> (forall d v x r0, wf x -> is_dir x = true -> fst (f d v x r0) = fst (g d v x r0)) ->
  (forall r es, fst (wf_ (r, es)) = r) -> (forall r es, fst (wg (r, es)) = r) ->
  fst (wf_ (each_child prefix d f es r)) = fst (wg (each_child prefix d g es r)).
Proof.
  intros Hwf Hf H1 H2. pose proof (each_child_same prefix d f g es r Hwf Hf) as H.
  destruct (each_child _ _ f _ _), (each_child _ _ g _ _). cbn in H. by rewrite H1, H2.
Qed.

Lemma hour_step_dry tn ix d hour x r : wf x -> is_dir x = true ->
  snd (hour_step rm_tree rm_file rm_dir tenancy now true pins tn ix d hour x r) = Some x.
Proof.
  intros Hwf Hd. destruct x as [|es]; [done|]. unfold hour_step. destruct (parse_hour hour) as [h|]; [|done].
  apply (dir_step_dry "level=" d _ es r (fun '(r, es) => (r, Some (Dir es)))); [done|intros; by apply level_step_dry|done].
Qed.

Lemma index_step_dry tn d ix x r : wf x -> is_dir x = true ->
  snd (index_step rm_tree rm_file rm_dir tenancy now true pins tn d ix x r) = Some x.
Proof.
  intros Hwf Hd. destruct x as [|es]; [done|]. unfold index_step. destruct (negb _); [done|].
  apply (dir_step_dry "hour=" d _ es r (fun '(r, es) => (r, Some (Dir es)))); [done|intros; by apply hour_step_dry|done].
Qed.

Lemma tenant_step_dry d tn x r : wf x -> is_dir x = true ->
  snd (tenant_step rm_tree rm_file rm_dir tenancy now true pins d tn x r) = Some x.
Proof.
  intros Hwf Hd. destruct x as [|es]; [done|]. unfold tenant_step. destruct (negb _); [done|].
  apply (dir_step_dry "index=" d _ es r (fun '(r, es) => (r, Some (Dir es)))); [done|intros; by apply index_step_dry|done].
Qed.

Context (ok : no_failure rm_tree rm_file).

Lemma hour_step_report tn ix d hour x r : wf x -> is_dir x = true ->
  fst (hour_step rm_tree rm_file rm_dir tenancy now false pins tn ix d hour x r) =
  fst (hour_step rm_tree rm_file rm_dir tenancy now true pins tn ix d hour x r).
Proof.
  intros Hwf Hd. destruct x as [|es]; [done|]. unfold hour_step. destruct (parse_hour hour) as [h|]; [|done].
  apply (dir_step_report "level=" d _ _ es r
    (fun '(r, es) => (r, if negb false && bool_decide (es = []) && rm_dir d then None else Some (Dir es)))
    (fun '(r, es) => (r, if negb true && bool_decide (es = []) && rm_dir d then None else Some (Dir es))));
    [done|intros; by apply level_step_report|done|done].
Qed.

Lemma index_step_report tn d ix x r : wf x -> is_dir x = true ->
  fst (index_step rm_tree rm_file rm_dir tenancy now false pins tn d ix x r) =
  fst (index_step rm_tree rm_file rm_dir tenancy now true pins tn d ix x r).
Proof.
  intros Hwf Hd. destruct x as [|es]; [done|]. unfold index_step. destruct (negb _); [done|].
  apply (dir_step_report "hour=" d _ _ es r (fun '(r, es) => (r, Some (Dir es))) (fun '(r, es) => (r, Some (Dir es))));
    [done|intros; by apply hour_step_report|done|done].
Qed.

Lemma tenant_step_report d tn x r : wf x -> is_dir x = true ->
  fst (tenant_step rm_tree rm_file rm_dir tenancy now false pins d tn x r) =
  fst (tenant_step rm_tree rm_file rm_dir tenancy now true pins d tn x r).
Proof.
  intros Hwf Hd. destruct x as [|es]; [done|]. unfold tenant_step. destruct (negb _); [done|].
  apply (dir_step_report "index=" d _ _ es r (fun '(r, es) => (r, Some (Dir es))) (fun '(r, es) => (r, Some (Dir es))));
    [done|intros; by apply index_step_report|done|done].
Qed.

End DryRun.

Section Preview.
Context (rm_tree : path -> Node -> option (string * Node)).
Context (rm_file : path -> option string).
Context (rm_dir : path -> bool).
Context (tenancy : Tenancy) (now : Z) (pins : PinSet).

(** A dry run of retention touches nothing and says what a pass would do: the
    store is left as it is, and the report is the one a real pass makes when
    no removal fails. *)
Theorem dry_run_previews msg store_dir store : wf store ->
  snd (enforce_pinned rm_tree rm_file rm_dir tenancy now true pins msg store_dir (Some store)) = Some store /\
  (no_failure rm_tree rm_file ->
   fst (enforce_pinned rm_tree rm_file rm_dir tenancy now true pins msg store_dir (Some store)) =
   fst (enforce_pinned rm_tree rm_file rm_dir tenancy now false pins msg store_dir (Some store))).
Proof.
  intros Hwf. destruct store as [|es]; [done|]. unfold enforce_pinned. split.
  - pose proof (each_child_keep "tenant=" store_dir (tenant_step rm_tree rm_file rm_dir tenancy now true pins) es report_default Hwf) as H.
    specialize (H ltac:(intros; by apply tenant_step_dry)). destruct (each_child _ _ _ _ _). by cbn in *; subst.
  - intros Hok. pose proof (each_child_same "tenant=" store_dir (tenant_step rm_tree rm_file rm_dir tenancy now false pins)
      (tenant_step rm_tree rm_file rm_dir tenancy now true pins) es report_default Hwf) as H.
    specialize (H ltac:(intros; by apply tenant_step_report)).
    destruct (each_child _ _ (tenant_step _ _ _ _ _ false _) _ _), (each_child _ _ _ _ _). cbn [fst] in *. by subst.
Qed.
End Preview.

(** ** What the report names *)

Definition node_opt (x : option Node) (p : path) : option Node := x ≫= (fun y => node_at y p).

Section Covers.
Context (prefix : string) (dir_ : path) (f : path -> string -> Node -> RetentionReport -> RetentionReport * option Node).
Context (Q : RetentionReport -> Prop).
Hypothesis f_keeps : forall d v x r, Q r -> Q (fst (f d v x r)).

Lemma children_keep es0 l : forall r, Q r ->
  Q (foldl (fun r c => match find_entry c.1 es0 with Some x => fst (f (dir_ ++ [c.1]) c.2 x r) | None => r end) r l).
Proof.
  induction l as [|c l IH]; intros r Hr; [done|]. cbn [foldl]. apply IH. destruct (find_entry c.1 es0); [by apply f_keeps|done].
Qed.

Lemma each_child_keeps es r : Q r -> Q (fst (each_child prefix dir_ f es r)).
Proof.
  intros Hr. change (Q (fst (foldl (child_step dir_ f) (r, es) (children prefix es)))). generalize (children prefix es) as l.
  intros l. apply (foldl_preserves (fun acc => Q (fst acc))); [|done].
  intros [r0 es0] [m v] H. unfold child_step. destruct (find_entry m es0) as [x|]; [|done].
  pose proof (f_keeps (dir_ ++ [m]) v x r0 H) as Hf. by destruct (f _ v x r0).
Qed.

(** A child whose step establishes [Q] makes the loop establish it. *)
Lemma each_child_covers es r n v x : NoDup es.*1 -> find_entry n es = Some x -> is_dir x = true -> strip_prefix prefix n = Some v ->
  (forall r0, Q (fst (f (dir_ ++ [n]) v x r0))) -> Q (fst (each_child prefix dir_ f es r)).
Proof.
  intros Hnd Hx Hd Hs Hf. change (Q (fst (foldl (child_step dir_ f) (r, es) (children prefix es)))).
  rewrite (each_child_report _ _ es) by (try apply children_nodup; done).
  assert ((n, v) ∈ children prefix es) as Hin by (apply children_in; [done|by exists x]).
  apply list_elem_of_split in Hin as (l1 & l2 & ->). rewrite foldl_app. cbn [foldl fst snd]. rewrite Hx. apply children_keep, Hf.
Qed.
End Covers.

(** A step that keeps [Q] at the directories the loop goes into keeps it. *)
Lemma each_child_at prefix dir_ f (Q : RetentionReport -> Prop) es r :
  (forall m v x r0, strip_prefix prefix m = Some v -> Q r0 -> Q (fst (f (dir_ ++ [m]) v x r0))) ->
  Q r -> Q (fst (each_child prefix dir_ f es r)).
Proof.
  intros Hf Hr. change (Q (fst (foldl (child_step dir_ f) (r, es) (children prefix es)))).
  assert (Forall (fun c => strip_prefix prefix (fst c) = Some (snd c)) (children prefix es)) as Hc.
  { apply Forall_forall. intros [m v] Hin. unfold children in Hin. rewrite stable_sort_perm in Hin.
    apply list_elem_of_omap in Hin as ([n y] & _ & Hy). unfold child in Hy. cbn [fst snd] in *.
    destruct (is_dir y); [|done]. by destruct (strip_prefix prefix n) eqn:E; [injection Hy as <- <-|]. }
  revert Hc Hr. generalize (children prefix es) as l. intros l. revert r es.
  induction l as [|[m v] l IH]; intros r es Hc Hr; [done|]. apply Forall_cons in Hc as [Hm Hc]. cbn [foldl fst snd] in *.
  unfold child_step at 2. cbn [fst snd]. destruct (find_entry m es) as [x|]; [|by apply IH].
  pose proof (Hf m v x r Hm Hr) as H. destruct (f _ v x r) as [r' x']. by apply IH.
Qed.

Definition reports (k : PartitionKey) (p : path) (r : RetentionReport) : Prop := exists e, e ∈ expired r /\ e_key e = k /\ e_path e = p.

Lemma reports_add k p e r : reports k p r -> reports k p (add_expired e r).
Proof. intros (e' & ? & ?). exists e'. split; [|done]. apply elem_of_app. by left. Qed.
Lemma reports_added e r : reports (e_key e) (e_path e) (add_expired e r).
Proof. exists e. split; [|done]. apply elem_of_app. right. by left. Qed.

(** The exact size of the files below a node, and of those not pinned. *)
Fixpoint tree_bytes (keep : path -> bool) (p : path) (x : Node) : Z :=
  match x with
  | File size => if keep p then size else 0
  | Dir es => sumZ (fun e => tree_bytes keep (p ++ [fst e]) (snd e)) es
  end.

Lemma tree_bytes_nonneg keep x : forall p, wf x -> 0 <= tree_bytes keep p x.
Proof.
  induction x as [size|es IH] using Node_ind'; intros p Hwf; inversion Hwf as [|? _ Hall]; subst; simpl; [by destruct (keep p)|].
  apply sumZ_nonneg. rewrite Forall_forall in IH, Hall |- *. intros e He. by apply IH, Hall.
Qed.

Lemma tree_bytes_at keep x q n : forall p, wf x -> file_at x q = Some n -> keep (p ++ q) = true -> n <= tree_bytes keep p x.
Proof.
  revert x. induction q as [|m q IH]; intros x p Hwf Hf Hk; destruct x as [size|es]; try done; simpl in *.
  - injection Hf as ->. rewrite app_nil_r in Hk. by rewrite Hk.
  - inversion Hwf as [|? Hnd Hall]; subst. destruct (find_entry m es) as [y|] eqn:Em; [|done].
    apply find_entry_in in Em; [|done]. rewrite Forall_forall in Hall.
    apply list_elem_of_split in Em as Hes. destruct Hes as (l1 & l2 & ->). rewrite sumZ_app. simpl.
    specialize (IH y (p ++ [m]) (Hall _ Em) Hf ltac:(by rewrite <-app_assoc)).
    assert (0 <= sumZ (fun e => tree_bytes keep (p ++ [fst e]) (snd e)) l1 /\ 0 <= sumZ (fun e => tree_bytes keep (p ++ [fst e]) (snd e)) l2) as [? ?].
    { split; apply sumZ_nonneg, Forall_forall; intros e He; apply tree_bytes_nonneg, Hall; apply elem_of_app; [by left|right; by right]. }
    lia.
Qed.

Lemma tree_bytes_le keep x : forall p, wf x -> tree_bytes keep p x <= tree_bytes (fun _ => true) p x.
Proof.
  induction x as [size|es IH] using Node_ind'; intros p Hwf; inversion Hwf as [|? _ Hall]; subst; simpl; [by destruct (keep p)|].
  clear Hwf. induction IH as [|e es He _ IHes]; simpl; [done|]. apply Forall_cons in Hall as [H1 H2].
  specialize (He (p ++ [fst e]) H1). specialize (IHes H2). lia.
Qed.

Section Report.
Context (rm_tree : path -> Node -> option (string * Node)).
Context (rm_file : path -> option string).
Context (rm_dir : path -> bool).
Context (tenancy : Tenancy) (now : Z) (dry_run : bool) (pins : PinSet).

Lemma remove_unpinned_freed x : (forall p, rm_file p = None) -> forall dir_, is_dir x = true ->
  freed (remove_unpinned rm_file rm_dir dry_run pins dir_ x) = wrap64 (tree_bytes (fun p => negb (contains pins p)) dir_ x).
Proof.
  intros Hrm. induction x as [size|es IH] using Node_ind'; intros dir_ Hd; [done|].
  cbn [remove_unpinned tree_bytes].
  enough (forall acc, wrap64 (freed acc) = freed acc -> freed (foldl (fun acc e => match snd e with
        | Dir _ => remove_sub rm_dir dry_run (dir_ ++ [fst e]) (fst e) (remove_unpinned rm_file rm_dir dry_run pins (dir_ ++ [fst e]) (snd e)) acc
        | File size => remove_one rm_file dry_run pins (dir_ ++ [fst e]) (fst e) size acc
        end) acc es) = wrap64 (freed acc +
          sumZ (fun e => tree_bytes (fun p => negb (contains pins p)) (dir_ ++ [fst e]) (snd e)) es)) as H by by rewrite H.
  induction IH as [|[n x] es Hx _ IHes]; intros acc Hacc; cbn [foldl]; [simpl; by rewrite Z.add_0_r|]. cbn [fst snd] in *.
  match goal with |- freed (foldl _ ?a es) = _ => set (acc1 := a) end.
  assert (freed acc1 = wrap64 (freed acc + tree_bytes (fun p => negb (contains pins p)) (dir_ ++ [n]) x)) as H1.
  { subst acc1. destruct x as [size|sub].
    - unfold remove_one. rewrite Hrm. cbn [tree_bytes]. destruct (contains pins _); cbn [negb]; [by rewrite Z.add_0_r|].
      by destruct dry_run.
    - unfold remove_sub. cbn [freed]. rewrite (Hx (dir_ ++ [n]) eq_refl). unfold wadd64. by rewrite wrap64_add_r. }
  clearbody acc1. rewrite (IHes eq_refl acc1) by (rewrite H1; apply wrap64_idem). rewrite H1, wrap64_add_l. f_equal. by rewrite <-Z.add_assoc.
Qed.

Lemma level_step_reports tn ix hour d level x r q n : (forall d x, rm_tree d x = None) -> (forall p, rm_file p = None) ->
  wf x -> is_dir x = true -> tree_bytes (fun _ => true) d x < 2 ^ 64 -> file_at x q = Some n -> 0 < n ->
  negb (String.eqb level "") && overdue tenancy now tn ix hour level && free pins d q = true ->
  reports (mkKey tn ix hour level "") d (fst (level_step rm_tree rm_file rm_dir tenancy now dry_run pins tn ix hour d level x r)).
Proof.
  intros Ht Hf Hwf Hd Hsmall Hq Hn. unfold overdue, level_step. destruct (String.eqb level ""); [done|].
  destruct (_ ≫= _) as [b|]; [|done]. cbn [negb andb]. rewrite Z.ltb_antisym. destruct (_ <=? now); [|done]. cbn [negb andb].
  intros Hfree. destruct (bool_decide _).
  - rewrite (remove_unpinned_freed x Hf d Hd).
    pose proof (tree_bytes_at (fun p => negb (contains pins p)) x q n d Hwf Hq Hfree) as H1.
    pose proof (tree_bytes_le (fun p => negb (contains pins p)) x d Hwf) as H2.
    rewrite wrap64_small by (unfold u64_range, u64_max; lia). destruct (Z.eqb_spec (tree_bytes (fun p => negb (contains pins p)) d x) 0); [lia|].
    apply (reports_added (mkExpired _ _ _)).
  - rewrite Ht. destruct dry_run; apply (reports_added (mkExpired _ _ _)).
Qed.

Lemma level_step_keeps k p0 tn ix hour d level x r : reports k p0 r ->
  reports k p0 (fst (level_step rm_tree rm_file rm_dir tenancy now dry_run pins tn ix hour d level x r)).
Proof.
  intros Hk. unfold level_step. destruct (String.eqb level ""); [done|]. destruct (_ ≫= _); [|by destruct Hk as (e & ? & ? & ?); exists e].
  destruct (_ <? _); [done|]. destruct (bool_decide _).
  - match goal with |- context [if ?c then _ else _] => destruct c end; [done|]. by apply reports_add.
  - destruct dry_run; [by apply reports_add|]. destruct (rm_tree d x) as [[]|]; [done|by apply reports_add].
Qed.

Lemma hour_step_keeps k p0 tn ix d hour x r : reports k p0 r ->
  reports k p0 (fst (hour_step rm_tree rm_file rm_dir tenancy now dry_run pins tn ix d hour x r)).
Proof.
  intros Hk. unfold hour_step. destruct (parse_hour hour); [|done].
  pose proof (each_child_keeps "level=" d _ (reports k p0) (fun d v x r => level_step_keeps k p0 tn ix z d v x r) (entries x) r Hk) as H.
  by destruct (each_child _ _ _ _ _).
Qed.

Lemma index_step_keeps k p0 tn d ix x r : reports k p0 r ->
  reports k p0 (fst (index_step rm_tree rm_file rm_dir tenancy now dry_run pins tn d ix x r)).
Proof.
  intros Hk. unfold index_step. destruct (negb _); [done|].
  pose proof (each_child_keeps "hour=" d _ (reports k p0) (fun d v x r => hour_step_keeps k p0 tn ix d v x r) (entries x) r Hk) as H.
  by destruct (each_child _ _ _ _ _).
Qed.

Lemma tenant_step_keeps k p0 d tn x r : reports k p0 r ->
  reports k p0 (fst (tenant_step rm_tree rm_file rm_dir tenancy now dry_run pins d tn x r)).
Proof.
  intros Hk. unfold tenant_step. destruct (negb _); [done|].
  pose proof (each_child_keeps "index=" d _ (reports k p0) (fun d v x r => index_step_keeps k p0 tn d v x r) (entries x) r Hk) as H.
  by destruct (each_child _ _ _ _ _).
Qed.

(** *** Down to the partition of a file that goes *)

Context (ok : no_failure rm_tree rm_file).

(** A file below a directory is below one of its entries, itself a directory if
    there is more of the path. *)
Lemma file_below x m e q p n : wf x -> is_dir x = true -> file_at x (m :: e :: q) = Some n ->
  exists y, find_entry m (entries x) = Some y /\ wf y /\ is_dir y = true /\ file_at y (e :: q) = Some n /\ NoDup (entries x).*1 /\
    tree_bytes (fun _ => true) (p ++ [m]) y <= tree_bytes (fun _ => true) p x.
Proof.
  intros Hwf Hd Hf. destruct x as [|es]; [done|]. inversion Hwf as [|? Hnd Hall]; subst. cbn [file_at entries] in *.
  destruct (find_entry m es) as [y|] eqn:Em; [|done]. exists y. apply find_entry_in in Em as Hin; [|done].
  assert (wf y) as Hy by (rewrite Forall_forall in Hall; by apply (Hall _ Hin)).
  split_and!; try done; [by destruct y|].
  apply list_elem_of_split in Hin as (l1 & l2 & ->). cbn [tree_bytes]. rewrite sumZ_app. cbn [sumZ foldr fst snd].
  apply Forall_app in Hall as [Hl1 [_ Hl2]%Forall_cons].
  assert (forall l, Forall (fun e => wf (snd e)) l -> 0 <= sumZ (fun e => tree_bytes (fun _ => true) (p ++ [fst e]) (snd e)) l) as Hnn.
  { intros l Hl. apply sumZ_nonneg. eapply Forall_impl; [exact Hl|]. intros c Hc. by apply tree_bytes_nonneg. }
  pose proof (Hnn l1 Hl1). pose proof (Hnn l2 Hl2). unfold sumZ in *. lia.
Qed.

Lemma hour_step_reports tn ix d hs h x r lm level e q n : wf x -> is_dir x = true -> tree_bytes (fun _ => true) d x < 2 ^ 64 ->
  file_at x (lm :: e :: q) = Some n -> 0 < n -> strip_prefix "level=" lm = Some level -> parse_hour hs = Some h ->
  negb (String.eqb level "") && overdue tenancy now tn ix h level && free pins (d ++ [lm]) (e :: q) = true ->
  reports (mkKey tn ix h level "") (d ++ [lm]) (fst (hour_step rm_tree rm_file rm_dir tenancy now dry_run pins tn ix d hs x r)).
Proof.
  intros Hwf Hd Hsmall Hf Hn Hs Hh Hdoom. unfold hour_step. rewrite Hh.
  destruct (file_below x lm e q d n Hwf Hd Hf) as (y & Hy & Hwy & Hdy & Hfy & Hnd & Hle).
  pose proof (each_child_covers "level=" d (level_step rm_tree rm_file rm_dir tenancy now dry_run pins tn ix h)
    (reports (mkKey tn ix h level "") (d ++ [lm])) ltac:(intros; by apply level_step_keeps) (entries x) r lm level y Hnd Hy Hdy Hs) as H.
  destruct ok as [Hrt Hrf]. specialize (H ltac:(intros r0; apply (level_step_reports _ _ _ _ _ _ _ (e :: q) n); try done; lia)).
  by destruct (each_child _ _ _ _ _).
Qed.

Lemma index_step_reports tn d ix x r hm hs h lm level e q n : wf x -> is_dir x = true -> tree_bytes (fun _ => true) d x < 2 ^ 64 ->
  file_at x (hm :: lm :: e :: q) = Some n -> 0 < n -> strip_prefix "hour=" hm = Some hs -> strip_prefix "level=" lm = Some level ->
  parse_hour hs = Some h -> valid_ident ix = true ->
  negb (String.eqb level "") && overdue tenancy now tn ix h level && free pins ((d ++ [hm]) ++ [lm]) (e :: q) = true ->
  reports (mkKey tn ix h level "") ((d ++ [hm]) ++ [lm]) (fst (index_step rm_tree rm_file rm_dir tenancy now dry_run pins tn d ix x r)).
Proof.
  intros Hwf Hd Hsmall Hf Hn Hs1 Hs2 Hh Hix Hdoom. unfold index_step. rewrite Hix. cbn [negb].
  destruct (file_below x hm lm (e :: q) d n Hwf Hd Hf) as (y & Hy & Hwy & Hdy & Hfy & Hnd & Hle).
  pose proof (each_child_covers "hour=" d (hour_step rm_tree rm_file rm_dir tenancy now dry_run pins tn ix)
    (reports (mkKey tn ix h level "") ((d ++ [hm]) ++ [lm])) ltac:(intros; by apply hour_step_keeps) (entries x) r hm hs y Hnd Hy Hdy Hs1) as H.
  specialize (H ltac:(intros r0; apply (hour_step_reports _ _ _ _ _ _ _ lm level e q n); try done; lia)).
  by destruct (each_child _ _ _ _ _).
Qed.

Lemma tenant_step_reports d tn x r im ix hm hs h lm level e q n : wf x -> is_dir x = true -> tree_bytes (fun _ => true) d x < 2 ^ 64 ->
  file_at x (im :: hm :: lm :: e :: q) = Some n -> 0 < n -> strip_prefix "index=" im = Some ix ->
  strip_prefix "hour=" hm = Some hs -> strip_prefix "level=" lm = Some level ->
  parse_hour hs = Some h -> valid_ident tn = true -> valid_ident ix = true ->
  negb (String.eqb level "") && overdue tenancy now tn ix h level && free pins (((d ++ [im]) ++ [hm]) ++ [lm]) (e :: q) = true ->
  reports (mkKey tn ix h level "") (((d ++ [im]) ++ [hm]) ++ [lm]) (fst (tenant_step rm_tree rm_file rm_dir tenancy now dry_run pins d tn x r)).
Proof.
  intros Hwf Hd Hsmall Hf Hn Hs0 Hs1 Hs2 Hh Htn Hix Hdoom. unfold tenant_step. rewrite Htn. cbn [negb].
  destruct (file_below x im hm (lm :: e :: q) d n Hwf Hd Hf) as (y & Hy & Hwy & Hdy & Hfy & Hnd & Hle).
  pose proof (each_child_covers "index=" d (index_step rm_tree rm_file rm_dir tenancy now dry_run pins tn)
    (reports (mkKey tn ix h level "") (((d ++ [im]) ++ [hm]) ++ [lm])) ltac:(intros; by apply index_step_keeps) (entries x) r im ix y Hnd Hy Hdy Hs0) as H.
  specialize (H ltac:(intros r0; apply (index_step_reports _ _ _ _ _ hm hs h lm level e q n); try done; lia)).
  by destruct (each_child _ _ _ _ _).
Qed.

(** The report of a pass names the partition of every doomed file. *)
Lemma enforce_reports msg store_dir store p n : wf store -> tree_bytes (fun _ => true) store_dir store < 2 ^ 64 ->
  file_at store p = Some n -> 0 < n -> doomed tenancy now pins store_dir p = true ->
  exists tm tn im ix hm hs h lm level e q,
    p = tm :: im :: hm :: lm :: e :: q /\ strip_prefix "tenant=" tm = Some tn /\ strip_prefix "index=" im = Some ix /\
    strip_prefix "hour=" hm = Some hs /\ parse_hour hs = Some h /\ strip_prefix "level=" lm = Some level /\
    reports (mkKey tn ix h level "") ((((store_dir ++ [tm]) ++ [im]) ++ [hm]) ++ [lm])
      (fst (enforce_pinned rm_tree rm_file rm_dir tenancy now dry_run pins msg store_dir (Some store))).
Proof.
  intros Hwf Hsmall Hf Hn Hdoom. destruct p as [|tm [|im [|hm [|lm [|e q]]]]]; try done. unfold doomed in Hdoom.
  destruct (strip_prefix "tenant=" tm) as [tn|] eqn:E1; [|done]. destruct (strip_prefix "index=" im) as [ix|] eqn:E2; [|done].
  destruct (strip_prefix "hour=" hm) as [hs|] eqn:E3; [|done]. cbn [mbind option_bind] in Hdoom.
  destruct (parse_hour hs) as [h|] eqn:E4; [|done]. destruct (strip_prefix "level=" lm) as [level|] eqn:E5; [|done].
  exists tm, tn, im, ix, hm, hs, h, lm, level, e, q. split_and!; try done.
  destruct store as [|es]; [done|]. rewrite <-!andb_assoc in Hdoom. apply andb_prop in Hdoom as [Htn Hdoom]. apply andb_prop in Hdoom as [Hix Hdoom].
  destruct (file_below (Dir es) tm im (hm :: lm :: e :: q) store_dir n Hwf eq_refl Hf) as (y & Hy & Hwy & Hdy & Hfy & Hnd & Hle).
  unfold enforce_pinned.
  pose proof (each_child_covers "tenant=" store_dir (tenant_step rm_tree rm_file rm_dir tenancy now dry_run pins)
    (reports (mkKey tn ix h level "") ((((store_dir ++ [tm]) ++ [im]) ++ [hm]) ++ [lm])) ltac:(intros; by apply tenant_step_keeps) es report_default tm tn y Hnd Hy Hdy E1) as H.
  specialize (H ltac:(intros r0; apply (tenant_step_reports _ _ _ _ im ix hm hs h lm level e q n); try done; [lia|];
    unfold free; rewrite <-!app_assoc; rewrite <-andb_assoc; exact Hdoom)).
  destruct (each_child _ _ _ _ _) as [r' es']. destruct H as (e0 & Hin & He0 & Hp0). exists e0. split; [|done]. cbn [fst expired] in *.
  by rewrite stable_sort_perm.
Qed.
End Report.

(** *** Nothing else is named *)

Section Sound.
Context (rm_tree : path -> Node -> option (string * Node)).
Context (rm_file : path -> option string).
Context (rm_dir : path -> bool).
Context (tenancy : Tenancy) (now : Z) (dry_run : bool) (pins : PinSet) (store_dir : path).

(** An entry of the report is a directory of this shape, and is overdue. *)
Definition rightly (e : ExpiredPartition) : Prop :=
  exists tm tn im ix hm hs h lm level,
    e_path e = (((store_dir ++ [tm]) ++ [im]) ++ [hm]) ++ [lm] /\ strip_prefix "tenant=" tm = Some tn /\ strip_prefix "index=" im = Some ix /\
    strip_prefix "hour=" hm = Some hs /\ parse_hour hs = Some h /\ strip_prefix "level=" lm = Some level /\
    valid_ident tn = true /\ valid_ident ix = true /\ level <> "" /\ overdue tenancy now tn ix h level = true.
Abbreviation all_rightly := (fun r => Forall rightly (expired r)).

Lemma level_step_sound tn ix h d level x r :
  (level <> "" -> overdue tenancy now tn ix h level = true -> forall b, rightly (mkExpired (mkKey tn ix h level "") d b)) ->
  all_rightly r -> all_rightly (fst (level_step rm_tree rm_file rm_dir tenancy now dry_run pins tn ix h d level x r)).
Proof.
  intros Hd Hr. unfold level_step. unfold overdue in Hd. destruct (String.eqb_spec level "") as [|Hl]; [done|].
  destruct (_ ≫= _) as [b|]; [|done]. rewrite Z.ltb_antisym. destruct (_ <=? now); [|done]. cbn [negb andb] in *.
  assert (forall n, all_rightly (add_expired (mkExpired (mkKey tn ix h level "") d n) r)) as Ha.
  { intros n. apply Forall_app. split; [done|]. constructor; [by apply Hd|constructor]. }
  destruct (bool_decide _); [destruct (freed _ =? 0); [done|]; apply Forall_app; split; [done|]; constructor; [by apply Hd|constructor]|].
  destruct dry_run; [apply Ha|]. destruct (rm_tree d x) as [[]|]; [done|apply Ha].
Qed.

Lemma enforce_sound msg store :
  all_rightly (fst (enforce_pinned rm_tree rm_file rm_dir tenancy now dry_run pins msg store_dir store)).
Proof.
  destruct store as [[n|es]|]; [constructor| |constructor]. unfold enforce_pinned.
  pose proof (each_child_at "tenant=" store_dir (tenant_step rm_tree rm_file rm_dir tenancy now dry_run pins) all_rightly es report_default) as H.
  destruct (each_child _ _ _ _ _) as [r' es']. cbn [fst expired] in *.
  assert (Forall rightly (expired r')) as Hr; [|clear H; rewrite Forall_forall in *; intros e He; rewrite stable_sort_perm in He; by apply Hr].
  apply H; [|constructor]. clear. intros tm tn x r Htm Hr. unfold tenant_step. destruct (valid_ident tn) eqn:Htn; [|done]. cbn [negb].
  pose proof (each_child_at "index=" (store_dir ++ [tm]) (index_step rm_tree rm_file rm_dir tenancy now dry_run pins tn) all_rightly (entries x) r) as H.
  destruct (each_child _ _ _ _ _) as [r1 es1]. cbn [fst] in *. apply H; [|done]. clear -Htm Htn. intros im ix x r Him Hr.
  unfold index_step. destruct (valid_ident ix) eqn:Hix; [|done]. cbn [negb].
  pose proof (each_child_at "hour=" ((store_dir ++ [tm]) ++ [im]) (hour_step rm_tree rm_file rm_dir tenancy now dry_run pins tn ix) all_rightly (entries x) r) as H.
  destruct (each_child _ _ _ _ _) as [r1 es1]. cbn [fst] in *. apply H; [|done]. clear -Htm Htn Him Hix. intros hm hs x r Hhm Hr.
  unfold hour_step. destruct (parse_hour hs) as [h|] eqn:Hh; [|done].
  pose proof (each_child_at "level=" (((store_dir ++ [tm]) ++ [im]) ++ [hm]) (level_step rm_tree rm_file rm_dir tenancy now dry_run pins tn ix h) all_rightly (entries x) r) as H.
  destruct (each_child _ _ _ _ _) as [r1 es1]. cbn [fst] in *. apply H; [|done]. intros lm level y r2 Hlm Hr2.
  apply level_step_sound; [|done]. intros Hl Ho b. by exists tm, tn, im, ix, hm, hs, h, lm, level.
Qed.
End Sound.

(** ** A pass leaves a part of the tree *)

Definition part (x' : option Node) (x : Node) : Prop :=
  forall p y', node_opt x' p = Some y' -> exists y, node_at x p = Some y /\ is_dir y = is_dir y'.

Lemma part_self x : part (Some x) x.
Proof. intros p y' H. by exists y'. Qed.

Lemma part_dir es es' : (forall n y', find_entry n es' = Some y' -> exists y, find_entry n es = Some y /\ part (Some y') y) ->
  part (Some (Dir es')) (Dir es).
Proof.
  intros H [|n q] y' Hy; cbn in *; [injection Hy as <-; by exists (Dir es)|].
  destruct (find_entry n es') as [z'|] eqn:E; [|done]. destruct (H n z' E) as (z & -> & Hz). by apply Hz.
Qed.

Lemma file_node x p n : file_at x p = Some n <-> node_at x p = Some (File n).
Proof.
  revert x. induction p as [|m p IH]; intros [size|es]; simpl; [by split; intros [= ->]|done|done|].
  destruct (find_entry m es); [apply IH|done].
Qed.

Lemma each_child_part prefix dir_ f es r : wf (Dir es) ->
  (forall d v x r0, wf x -> is_dir x = true -> part (snd (f d v x r0)) x) -> part (Some (Dir (snd (each_child prefix dir_ f es r)))) (Dir es).
Proof.
  intros Hwf Hf. inversion Hwf as [|? Hnd Hall]; subst. pose proof (each_child_find prefix dir_ f es r Hnd) as H.
  destruct (each_child _ _ _ _ _) as [r' es']. destruct H as [_ H]. cbn [snd]. apply part_dir. intros n y' Hy. specialize (H n).
  destruct (find_entry n es) as [x|] eqn:En; [|congruence]. exists x. split; [done|].
  apply find_entry_in in En; [|done]. rewrite Forall_forall in Hall. pose proof (Hall _ En) as Hx. cbn [snd] in *.
  destruct (is_dir x) eqn:Ed; [destruct (strip_prefix prefix n) as [v|]|].
  - destruct H as [r0 H]. rewrite <-Hy, H. by apply Hf.
  - assert (y' = x) as -> by (simpl in H; congruence). apply part_self.
  - assert (y' = x) as -> by (simpl in H; congruence). apply part_self.
Qed.

Section Parts.
Context (rm_tree : path -> Node -> option (string * Node)).
Context (rm_file : path -> option string).
Context (rm_dir : path -> bool).
Context (tenancy : Tenancy) (now : Z) (pins : PinSet).
Hypothesis rm_tree_ok : forall d x, rm_tree d x = None.

Lemma remove_unpinned_part x : forall dir_, wf x -> is_dir x = true ->
  part (Some (Dir (left_ (remove_unpinned rm_file rm_dir false pins dir_ x)))) x.
Proof.
  induction x as [size|es IH] using Node_ind'; intros dir_ Hwf Hd; [done|]. inversion Hwf as [|? Hnd Hall]; subst.
  apply part_dir. intros n y' Hy. rewrite (remove_unpinned_find rm_file rm_dir pins dir_ es n Hnd) in Hy.
  destruct (find_entry n es) as [[size|sub]|] eqn:En; [| |done].
  - destruct (_ || _); [|done]. injection Hy as <-. eexists. split; [done|apply part_self].
  - exists (Dir sub). split; [done|]. cbv zeta in Hy. destruct (_ && _); [done|]. injection Hy as <-.
    apply find_entry_in in En; [|done]. rewrite Forall_forall in IH, Hall. by apply (IH _ En (dir_ ++ [n]) (Hall _ En)).
Qed.

Lemma level_step_part tn ix hour d level x r : wf x -> is_dir x = true ->
  part (snd (level_step rm_tree rm_file rm_dir tenancy now false pins tn ix hour d level x r)) x.
Proof.
  intros Hwf Hd. unfold level_step. destruct (String.eqb level ""); [apply part_self|].
  destruct (_ ≫= _); [|apply part_self]. destruct (_ <? _); [apply part_self|]. destruct (bool_decide _).
  - match goal with |- part (snd (if ?c then _ else _)) _ => destruct c end; by apply remove_unpinned_part.
  - rewrite rm_tree_ok. by intros p y'.
Qed.

(** One directory further up. *)
Lemma dir_step_part prefix d f es r (wrap : RetentionReport * list (string * Node) -> RetentionReport * option Node) :
  wf (Dir es) -> (forall d v x r0, wf x -> is_dir x = true -> part (snd (f d v x r0)) x) ->
  (forall r es, snd (wrap (r, es)) = Some (Dir es) \/ snd (wrap (r, es)) = None) ->
  part (snd (wrap (each_child prefix d f es r))) (Dir es).
Proof.
  intros Hwf Hf Hw. pose proof (each_child_part prefix d f es r Hwf Hf) as H.
  destruct (each_child _ _ _ _ _) as [r' es']. destruct (Hw r' es') as [-> | ->]; [done|by intros p y'].
Qed.

Lemma hour_step_part tn ix d hour x r : wf x -> is_dir x = true ->
  part (snd (hour_step rm_tree rm_file rm_dir tenancy now false pins tn ix d hour x r)) x.
Proof.
  intros Hwf Hd. destruct x as [|es]; [done|]. unfold hour_step. destruct (parse_hour hour); [|apply part_self].
  apply (dir_step_part "level=" d _ es r (fun '(r, es) => (r, if negb false && bool_decide (es = []) && rm_dir d then None else Some (Dir es))));
    [done|intros; by apply level_step_part|]. intros r' es'. cbn [snd]. destruct (_ && rm_dir d); auto.
Qed.

Lemma index_step_part tn d ix x r : wf x -> is_dir x = true ->
  part (snd (index_step rm_tree rm_file rm_dir tenancy now false pins tn d ix x r)) x.
Proof.
  intros Hwf Hd. destruct x as [|es]; [done|]. unfold index_step. destruct (negb _); [apply part_self|].
  apply (dir_step_part "hour=" d _ es r (fun '(r, es) => (r, Some (Dir es)))); [done|intros; by apply hour_step_part|by left].
Qed.

Lemma tenant_step_part d tn x r : wf x -> is_dir x = true ->
  part (snd (tenant_step rm_tree rm_file rm_dir tenancy now false pins d tn x r)) x.
Proof.
  intros Hwf Hd. destruct x as [|es]; [done|]. unfold tenant_step. destruct (negb _); [apply part_self|].
  apply (dir_step_part "index=" d _ es r (fun '(r, es) => (r, Some (Dir es)))); [done|intros; by apply index_step_part|by left].
Qed.

Lemma enforce_part msg store_dir store : wf store ->
  part (snd (enforce_pinned rm_tree rm_file rm_dir tenancy now false pins msg store_dir (Some store))) store.
Proof.
  intros Hwf. destruct store as [|es]; [apply part_self|]. unfold enforce_pinned.
  pose proof (each_child_part "tenant=" store_dir (tenant_step rm_tree rm_file rm_dir tenancy now false pins) es report_default Hwf) as H.
  specialize (H ltac:(intros; by apply tenant_step_part)). by destruct (each_child _ _ _ _ _).
Qed.
End Parts.

(** ** Witnesses *)

(** A store with a debug partition of hour 100 with two writers, one of the
    files pinned, a warning partition of the same hour and a directory that is
    not ours. *)
Definition store1 : Node :=
  Dir [("tenant=default", Dir [("index=default", Dir [("hour=1970-01-05T04", Dir [
          ("level=debug", Dir [("node=a", Dir [("1.parquet", File 10)]); ("node=b", Dir [("2.parquet", File 7)])]);
          ("level=warn_plus", Dir [("node=a", Dir [("3.parquet", File 30)])])])])]);
       ("notes", Dir [])].
Definition pins1 : PinSet :=
  mkPins {[ ["s"; "tenant=default"; "index=default"; "hour=1970-01-05T04"; "level=debug"; "node=b"; "2.parquet"] ]} ∅.

Lemma store1_wf : wf store1.
Proof.
  repeat match goal with
    | |- NoDup _ => apply (bool_decide_eq_true_1 _); vm_compute; reflexivity
    | |- _ <= _ => lia
    | |- wf _ => constructor
    | |- Forall _ _ => constructor
    | _ => progress cbn [snd]
    end.
Qed.

Definition no_error_tree (d : path) (x : Node) : option (string * Node) := None.
Definition no_error_file (p : path) : option string := None.

(** Two days on, one file goes: its partition holds a pinned one. *)
Lemma enforce_deletes_exactly_witness :
  let run := enforce_pinned no_error_tree no_error_file (fun _ => true) (single level_buckets_default) (101 * 3600 + 2 * 86400) false pins1 "" ["s"] in
  file_opt (snd (run (Some store1))) ["tenant=default"; "index=default"; "hour=1970-01-05T04"; "level=debug"; "node=a"; "1.parquet"] = None /\
  file_opt (snd (run (Some store1))) ["tenant=default"; "index=default"; "hour=1970-01-05T04"; "level=debug"; "node=b"; "2.parquet"] = Some 7.
Proof.
  intros run.
  assert (forall d x e x', no_error_tree d x = Some (e, x') -> forall p, file_at x' p = file_at x p \/ file_at x' p = None) as Hrm by done.
  pose proof (enforce_deletes_exactly no_error_tree no_error_file (fun _ => true) (single level_buckets_default) (101 * 3600 + 2 * 86400) pins1
    Hrm "" ["s"] store1 store1_wf) as H. cbv zeta in H. destruct H as (H1 & _ & H3). split.
  - apply H3; [done|done|vm_compute; reflexivity].
  - unfold run. rewrite H1; vm_compute; reflexivity.
Defined.

Lemma dry_run_previews_witness :
  exists r, enforce_pinned no_error_tree no_error_file (fun _ => true) (single level_buckets_default) (101 * 3600 + 2 * 86400) true pins1 "" ["s"] (Some store1) = (r, Some store1) /\
    bytes_reclaimed r = 10 /\ pinned_kept r = 1 /\
    fst (enforce_pinned no_error_tree no_error_file (fun _ => true) (single level_buckets_default) (101 * 3600 + 2 * 86400) false pins1 "" ["s"] (Some store1)) = r.
Proof.
  destruct (dry_run_previews no_error_tree no_error_file (fun _ => true) (single level_buckets_default) (101 * 3600 + 2 * 86400) pins1 "" ["s"]
    store1 store1_wf) as [H1 H2]. eexists. split; [rewrite (surjective_pairing (enforce_pinned _ _ _ _ _ _ _ _ _ _)), H1; reflexivity|].
  split; [vm_compute; reflexivity|]. split; [vm_compute; reflexivity|]. symmetry. apply H2. by split.
Defined.
