(* ===== verification/Budget.v ===== *)
(** The disk budget ([crates/logless-core/src/budget.rs]) and the catalog rows it
    works on ([catalog.rs], [store.rs]: the file list and its statements).

    The catalog is the list of its rows.  Whether a statement of the database
    fails, whether the file system removes a file, and what is outside the
    store directory are arguments. *)

From stdpp Require Import sorting.
From S2P Require Import Prelude Text Float Lists Civil Model Partition Tenancy PartsEdge Retention.
Open Scope string_scope.
Open Scope Z_scope.
Open Scope list_scope.

(** ** Pressure *)

Record Watermarks := mkWatermarks { high : f64; critical : f64; reclaim_target : f64 }.
Definition watermarks_default : Watermarks := mkWatermarks (f64_dec 80 2) (f64_dec 95 2) (f64_dec 70 2).

Inductive Pressure := NormalP | HighP | CriticalP.
#[export] Instance Pressure_eq_dec : EqDecision Pressure.
Proof. solve_decision. Defined.

Definition admits_debug (p : Pressure) : bool := match p with CriticalP => false | _ => true end.

Record DiskUsage := mkUsage { wal_bytes : Z; store_bytes : Z; budget_bytes : Z }.

Definition used (u : DiskUsage) : Z := wadd64 (wal_bytes u) (store_bytes u).

Definition fraction (u : DiskUsage) : f64 :=
  if budget_bytes u =? 0 then f64_zero else f64_div (f64_of_Z (used u)) (f64_of_Z (budget_bytes u)).

Definition pressure (u : DiskUsage) (wm : Watermarks) : Pressure :=
  let f := fraction u in
  if f64_ge f (critical wm) then CriticalP else if f64_ge f (high wm) then HighP else NormalP.

(** ** Catalog rows *)

Record FileStats := mkStats {
  st_rows : Z;
  st_bytes : Z;
  min_ts_nanos : Z;
  max_ts_nanos : Z;
  min_observed_nanos : Z;
  max_observed_nanos : Z
}.
Record FileEntry := mkEntry { f_path : path; f_key : PartitionKey; f_stats : FileStats }.
#[export] Instance FileStats_eq_dec : EqDecision FileStats.
Proof. solve_decision. Defined.
#[export] Instance FileEntry_eq_dec : EqDecision FileEntry.
Proof. solve_decision. Defined.

Definition Catalog := list FileEntry.

(** [ORDER BY tenant, idx, event_hour, bucket, path]. *)
Definition row_leb (a b : FileEntry) : bool :=
  let ka := f_key a in
  let kb := f_key b in
  if negb (String.eqb (tenant ka) (tenant kb)) then String.leb (tenant ka) (tenant kb)
  else if negb (String.eqb (index ka) (index kb)) then String.leb (index ka) (index kb)
  else if negb (epoch_hour ka =? epoch_hour kb) then epoch_hour ka <? epoch_hour kb
  else if negb (String.eqb (bucket ka) (bucket kb)) then String.leb (bucket ka) (bucket kb)
  else path_leb (f_path a) (f_path b).
Definition list_files (c : Catalog) : list FileEntry := stable_sort row_leb c.

Definition same_partition (k : PartitionKey) (f : FileEntry) : bool :=
  String.eqb (tenant (f_key f)) (tenant k) && String.eqb (index (f_key f)) (index k) &&
  (epoch_hour (f_key f) =? epoch_hour k) && String.eqb (bucket (f_key f)) (bucket k).
Definition files_in_partition (k : PartitionKey) (c : Catalog) : list FileEntry :=
  stable_sort row_leb (List.filter (same_partition k) c).

Definition forget_files (paths : list path) (c : Catalog) : Catalog :=
  List.filter (fun f => negb (bool_decide (f_path f ∈ paths))) c.

Definition forget_missing_in (exists_ : path -> bool) (partitions : list PartitionKey) (c : Catalog) : Catalog :=
  forget_files
    (flat_map (fun k => List.map f_path (List.filter (fun e => negb (exists_ (f_path e))) (files_in_partition k c))) partitions) c.

(** [SUM] of the two columns: an error past the range of an [i64]. *)
Definition totals (c : Catalog) : option (Z * Z) :=
  let rows := sumZ (fun f => st_rows (f_stats f)) c in
  let bytes := sumZ (fun f => st_bytes (f_stats f)) c in
  if (i64_max <? rows) || (i64_max <? bytes) then None else Some (rows, bytes).

(** ** Reclaiming *)

Record ReclaimReport := mkReclaim {
  files_dropped : list path;
  partitions_touched : list PartitionKey;
  rc_bytes : Z;
  rows_lost : Z;
  exhausted : bool;
  rc_pinned_kept : Z
}.
Definition reclaim_default : ReclaimReport := mkReclaim [] [] 0 0 false 0.

Definition retention_of (tenancy : Tenancy) (f : FileEntry) : Z :=
  match buckets tenancy (tenant (f_key f)) (index (f_key f)) ≫= (fun b => by_name b (bucket (f_key f))) with
  | Some b => as_secs (lb_retention b)
  | None => u64_max
  end.

Definition cost_leb (tenancy : Tenancy) (a b : FileEntry) : bool :=
  if negb (retention_of tenancy a =? retention_of tenancy b) then retention_of tenancy a <? retention_of tenancy b
  else if negb (min_ts_nanos (f_stats a) =? min_ts_nanos (f_stats b)) then min_ts_nanos (f_stats a) <? min_ts_nanos (f_stats b)
  else path_leb (f_path a) (f_path b).

(** [Path::starts_with], by component. *)
Definition starts_with_path (dir p : path) : bool := is_prefix dir p.

Definition insert_key (k : PartitionKey) (l : list PartitionKey) : list PartitionKey :=
  if bool_decide (k ∈ l) then l else k :: l.

Section Reclaim.
Context {W : Type} (delete : path -> W -> bool * W) (store_dir : path) (target : Z).

(** What the loop of [reclaim_files] carries. *)
Record Loop := mkLoop { lp_used : Z; lp_bytes : Z; lp_rows : Z; lp_dropped : list FileEntry; lp_world : W }.

Fixpoint reclaim_loop (files : list FileEntry) (s : Loop) : Loop :=
  match files with
  | [] => s
  | f :: r =>
      if lp_used s <=? target then s
      else if negb (starts_with_path store_dir (f_path f)) then reclaim_loop r s
      else
        let '(ok, w) := delete (f_path f) (lp_world s) in
        if negb ok then reclaim_loop r (mkLoop (lp_used s) (lp_bytes s) (lp_rows s) (lp_dropped s) w)
        else
          reclaim_loop r
            (mkLoop (sat_sub (lp_used s) (st_bytes (f_stats f))) (wadd64 (lp_bytes s) (st_bytes (f_stats f)))
               (wadd64 (lp_rows s) (st_rows (f_stats f))) (lp_dropped s ++ [f]) w)
  end.
End Reclaim.

Definition target_bytes (u : DiskUsage) (wm : Watermarks) : Z :=
  f64_as_u64 (f64_mul (f64_of_Z (budget_bytes u)) (reclaim_target wm)).

Definition reclaim_files {W} (delete : path -> W -> bool * W) (files : list FileEntry) (store_dir : path)
    (tenancy : Tenancy) (usage : DiskUsage) (wm : Watermarks) (w : W) : ReclaimReport * W :=
  let target := target_bytes usage wm in
  if used usage <=? target then (reclaim_default, w)
  else
    let s := reclaim_loop delete store_dir target (stable_sort (cost_leb tenancy) files) (mkLoop (used usage) 0 0 [] w) in
    (mkReclaim (List.map f_path (lp_dropped s))
       (stable_sort key_leb (foldr insert_key [] (List.map f_key (lp_dropped s))))
       (lp_bytes s) (lp_rows s) (target <? lp_used s) 0, lp_world s).

(** ** The store on disk *)

Definition strip_dir (store_dir p : path) : option path :=
  if is_prefix store_dir p && bool_decide (".." ∉ p) then Some (drop (List.length store_dir) p) else None.

Fixpoint remove_at (p : path) (x : Node) : Node :=
  match p, x with
  | n :: q, Dir es =>
      Dir (omap (fun e =>
        if String.eqb (fst e) n then
          match q with
          | [] => None
          | _ => Some (fst e, remove_at q (snd e))
          end
        else Some e) es)
  | _, _ => x
  end.

(** Which statement failed. *)
Inductive DbCall := ListUnconfirmed | ForgetMissing | Totals | ListForReclaim | ForgetDropped.

Record PassOutcome := mkOutcome {
  expiry : RetentionReport;
  usage : DiskUsage;
  o_pressure : Pressure;
  reclaim : option (string + ReclaimReport);
  gave_up : GaveUp
}.

Section Pass.
Context (rm_tree : path -> Node -> option (string * Node)).
Context (rm_file : path -> option string).
Context (rm_dir : path -> bool).
Context (db : DbCall -> option string).
Context (elsewhere : path -> bool).
Context (not_a_directory : string) (store_dir : path) (tenancy : Tenancy) (wm : Watermarks) (pins : PinSet).

(** [Path::exists]. *)
Definition path_exists (store : option Node) (p : path) : bool :=
  match strip_dir store_dir p with
  | Some q => match store with Some x => bool_decide (is_Some (node_at x q)) | None => false end
  | None => elsewhere p
  end.

(** [remove_file(path).is_ok()]. *)
Definition remove_file (p : path) (store : option Node) : bool * option Node :=
  match strip_dir store_dir p with
  | Some q =>
      match store with
      | Some x => match file_at x q, rm_file p with Some _, None => (true, match q with [] => None | _ => Some (remove_at q x) end) | _, _ => (false, store) end
      | None => (false, store)
      end
  | None => (match rm_file p with None => elsewhere p | Some _ => false end, store)
  end.

Definition set_pinned_kept (n : Z) (r : ReclaimReport) : ReclaimReport :=
  mkReclaim (files_dropped r) (partitions_touched r) (rc_bytes r) (rows_lost r) (exhausted r) n.

Definition reclaim_pinned (u : DiskUsage) (dry_run : bool) (c : Catalog) (store : option Node)
    : (string + ReclaimReport) * Catalog * option Node :=
  match db ListForReclaim with
  | Some e => (inl e, c, store)
  | None =>
      let all := list_files c in
      let pinned := List.filter (fun f => contains pins (f_path f)) all in
      let files := List.filter (fun f => negb (contains pins (f_path f))) all in
      let '(r, store) := reclaim_files (fun p w => if dry_run then (true, w) else remove_file p w) files store_dir tenancy u wm store in
      let r := set_pinned_kept (Z.of_nat (List.length pinned)) r in
      if negb dry_run && negb (bool_decide (files_dropped r = [])) then
        match db ForgetDropped with
        | Some e => (inl e, c, store)
        | None => (inr r, forget_files (files_dropped r) c, store)
        end
      else (inr r, c, store)
  end.

Definition measure (wal_dir_bytes late_dir_bytes budget : Z) (c : Catalog) : DiskUsage :=
  let bytes := match db Totals, totals c with None, Some (_, b) => b | _, _ => 0 end in
  mkUsage (wadd64 wal_dir_bytes late_dir_bytes) bytes budget.

Definition gave_up_of (store : option Node) (before : list FileEntry) : GaveUp :=
  foldl (fun g f => mkGaveUp (wadd64 (parts g) 1) (wadd64 (rows g) (st_rows (f_stats f))) (wadd64 (bytes_ g) (st_bytes (f_stats f))))
    gave_up_default (List.filter (fun f => negb (path_exists store (f_path f))) before).

(** Only the partitions that expired are re-checked. *)
Definition forget_expired (expiry : RetentionReport) (c : Catalog) (store : option Node) : Catalog :=
  if bool_decide (expired expiry = []) then c
  else match db ForgetMissing with
       | Some _ => c
       | None => forget_missing_in (path_exists store) (List.map e_key (expired expiry)) c
       end.

Definition relieve (u : DiskUsage) (c : Catalog) (store : option Node) : option (string + ReclaimReport) * Catalog * option Node :=
  match pressure u wm with
  | NormalP => (None, c, store)
  | _ => let '(r, c, store) := reclaim_pinned u false c store in (Some r, c, store)
  end.

Definition expire_and_relieve (wal_dir_bytes late_dir_bytes budget now_unix_secs : Z) (c : Catalog) (store : option Node)
    : PassOutcome * Catalog * option Node :=
  let unconfirmed :=
    if bool_decide (unconfirmed_set pins = ∅) then []
    else match db ListUnconfirmed with
         | Some _ => []
         | None => List.filter (fun f => bool_decide (f_path f ∈ unconfirmed_set pins)) (list_files c)
         end in
  let '(expiry, store) := enforce_pinned rm_tree rm_file rm_dir tenancy now_unix_secs false pins not_a_directory store_dir store in
  let c := forget_expired expiry c store in
  let u := measure wal_dir_bytes late_dir_bytes budget c in
  let '(reclaim, c, store) := relieve u c store in
  (mkOutcome expiry u (pressure u wm) reclaim (gave_up_of store unconfirmed), c, store).

End Pass.

(** ** Orders *)

Lemma path_leb_total a : forall b, path_leb a b = true \/ path_leb b a = true.
Proof.
  induction a as [|x a IH]; intros [|y b]; simpl; auto. rewrite (String.eqb_sym y x).
  destruct (String.eqb_spec x y); [apply IH|apply str_leb_total].
Qed.

Lemma path_leb_trans a : forall b c, path_leb a b = true -> path_leb b c = true -> path_leb a c = true.
Proof.
  induction a as [|x a IH]; intros [|y b] [|z c]; simpl; try done.
  destruct (String.eqb_spec x y) as [->|Hxy], (String.eqb_spec y z) as [->|Hyz]; try done.
  - apply IH.
  - by destruct (String.eqb_spec x z).
  - intros H1 H2. destruct (String.eqb_spec x z) as [->|]; [|by apply str_leb_trans with y].
    exfalso. apply Hxy. by apply String.leb_antisym.
Qed.

Section Cost.
Context (tenancy : Tenancy).

Lemma cost_leb_spec a b : cost_leb tenancy a b = true <->
  retention_of tenancy a < retention_of tenancy b \/ retention_of tenancy a = retention_of tenancy b /\
  (min_ts_nanos (f_stats a) < min_ts_nanos (f_stats b) \/ min_ts_nanos (f_stats a) = min_ts_nanos (f_stats b) /\
   path_leb (f_path a) (f_path b) = true).
Proof.
  unfold cost_leb. destruct (Z.eqb_spec (retention_of tenancy a) (retention_of tenancy b)) as [Hr|Hr]; simpl.
  2:{ rewrite Z.ltb_lt. split; [by left|by intros [?|[? _]]]. }
  destruct (Z.eqb_spec (min_ts_nanos (f_stats a)) (min_ts_nanos (f_stats b))) as [Ht|Ht]; simpl.
  - split; [by auto|]. by intros [?|[_ [?|[_ ?]]]]; [exfalso; lia|exfalso; lia|].
  - rewrite Z.ltb_lt. split; [by auto|]. by intros [?|[_ [?|[? _]]]]; [lia| |].
Qed.

Lemma cost_leb_total a b : cost_leb tenancy a b = true \/ cost_leb tenancy b a = true.
Proof. 
  rewrite !cost_leb_spec. destruct (path_leb_total (f_path a) (f_path b)),
    (Z.lt_total (retention_of tenancy a) (retention_of tenancy b)) as [?|[?|?]],
    (Z.lt_total (min_ts_nanos (f_stats a)) (min_ts_nanos (f_stats b))) as [?|[?|?]]; naive_solver. Qed.

Lemma cost_leb_trans a b c : cost_leb tenancy a b = true -> cost_leb tenancy b c = true -> cost_leb tenancy a c = true.
Proof. rewrite !cost_leb_spec. pose proof (path_leb_trans (f_path a) (f_path b) (f_path c)). intuition lia. Qed.

Lemma by_cost_sorted files : sorted_by (cost_leb tenancy) (stable_sort (cost_leb tenancy) files).
Proof. apply stable_sort_sorted; [apply cost_leb_total|apply cost_leb_trans]. Qed.
End Cost.

(** ** The loop *)

Abbreviation f_bytes := (fun f => st_bytes (f_stats f)).
Abbreviation f_rows := (fun f => st_rows (f_stats f)).

Definition sound_stats (f : FileEntry) : Prop := 0 <= st_bytes (f_stats f) /\ 0 <= st_rows (f_stats f).

Section LoopFacts.
Context {W : Type} (delete : path -> W -> bool * W) (store_dir : path) (target : Z) (le : FileEntry -> FileEntry -> bool).
Hypothesis target_nonneg : 0 <= target.

(** What the loop has dropped: only files of the store, counted exactly, none
    after the target was reached; and what it kept. *)
Record took (files : list FileEntry) (s s' : @Loop W) (d : list FileEntry) : Prop := {
  took_dropped : lp_dropped s' = lp_dropped s ++ d;
  took_sub : d `sublist_of` files;
  took_inside : Forall (fun f => starts_with_path store_dir (f_path f) = true) d;
  took_used : lp_used s' = sat_sub (lp_used s) (sumZ f_bytes d);
  took_bytes : lp_bytes s' = wrap64 (lp_bytes s + sumZ f_bytes d);
  took_rows : lp_rows s' = wrap64 (lp_rows s + sumZ f_rows d);
  took_needed : forall pre suf, d = pre ++ suf -> suf <> [] -> target < lp_used s - sumZ f_bytes pre;
  took_kept : forall f, f ∈ files -> starts_with_path store_dir (f_path f) = true ->
    f ∈ d \/ (exists w, fst (delete (f_path f) w) = false) \/ lp_used s' <= target /\ Forall (fun x => le x f = true) d
}.

Lemma reclaim_loop_took files : forall s, sorted_by le files -> Forall sound_stats files -> 0 <= lp_used s ->
  u64_range (lp_bytes s) -> u64_range (lp_rows s) ->
  exists d, took files s (reclaim_loop delete store_dir target files s) d.
Proof.
  induction files as [|f files IH]; intros s Hso Hst Hu Hb Hr; simpl.
  - exists []. split; try done; simpl; [by rewrite app_nil_r|unfold sat_sub; lia|rewrite Z.add_0_r; by rewrite wrap64_small
      |rewrite Z.add_0_r; by rewrite wrap64_small|by intros [|] [|]|by intros f ?%not_elem_of_nil].
  - inversion Hso as [|? ? Hso' Hle]; subst. inversion Hst as [|? ? [Hfb Hfr] Hst']; subst.
    destruct (Z.leb_spec (lp_used s) target) as [Hdone|Hmore].
    + exists []. split; try done; simpl; [by rewrite app_nil_r|apply sublist_nil_l|unfold sat_sub; lia
        |rewrite Z.add_0_r; by rewrite wrap64_small|rewrite Z.add_0_r; by rewrite wrap64_small|by intros [|] [|]|].
      intros g _ _. right. right. by split.
    + destruct (starts_with_path store_dir (f_path f)) eqn:Hin; simpl.
      2:{ destruct (IH s Hso' Hst' Hu Hb Hr) as [d Hd]. exists d. destruct Hd. split; try done; [by constructor|].
          intros g [->|Hg]%elem_of_cons Hg'; [congruence|by apply took_kept0]. }
      destruct (delete (f_path f) (lp_world s)) as [ok w] eqn:Ed. destruct ok; simpl.
      * match goal with |- context [reclaim_loop _ _ _ files ?x] => set (s1 := x) end.
        destruct (IH s1 Hso' Hst' ltac:(unfold s1, sat_sub; simpl; lia) (wrap64_range _) (wrap64_range _)) as [d Hd].
        exists (f :: d). destruct Hd. unfold s1 in *. simpl in *. split; simpl.
        -- rewrite took_dropped0, <-app_assoc. done.
        -- by constructor.
        -- by constructor.
        -- rewrite took_used0. assert (0 <= sumZ f_bytes d) as ?.
           { apply sumZ_nonneg. assert (Forall sound_stats d) as Hd by (by eapply sublist_Forall). eapply Forall_impl; [exact Hd|by intros x [? _]]. }
           unfold sat_sub. lia.
        -- rewrite took_bytes0. unfold wadd64. rewrite wrap64_add_l. f_equal. lia.
        -- rewrite took_rows0. unfold wadd64. rewrite wrap64_add_l. f_equal. lia.
        -- intros [|x pre] suf E Hs; simpl; [lia|]. injection E as -> E. specialize (took_needed0 pre suf E Hs).
           pose proof (sublist_Forall _ _ _ took_sub0 Hst') as Hd. rewrite E, Forall_app in Hd. destruct Hd as [Hd _].
           assert (0 <= sumZ f_bytes pre) by (apply sumZ_nonneg; eapply Forall_impl; [exact Hd|by intros ? [? _]]). unfold sat_sub in *. lia.
        -- intros g [->|Hg]%elem_of_cons Hg'; [left; by left|].
           destruct (took_kept0 g Hg Hg') as [?|[?|[? ?]]]; [left; by right|by right; left|]. right. right. split; [done|].
           constructor; [|done]. rewrite Forall_forall in Hle. by apply Hle.
      * match goal with |- context [reclaim_loop _ _ _ files ?x] => set (s1 := x) end.
        destruct (IH s1 Hso' Hst' Hu Hb Hr) as [d Hd]. exists d. destruct Hd. unfold s1 in *. split; try done; [by constructor|].
        intros g [->|Hg]%elem_of_cons Hg'; [|by apply took_kept0]. right. left. exists (lp_world s). by rewrite Ed.
Qed.
End LoopFacts.

Lemma insert_keys_in l k : k ∈ foldr insert_key [] l <-> k ∈ l.
Proof.
  induction l as [|a l IH]; simpl; [done|]. unfold insert_key at 1. case_bool_decide as Ha; rewrite !elem_of_cons, ?IH; [|done].
  split; [by right|]. intros [->|?]; [by apply IH|done].
Qed.

(** Relief takes the minimum, cheapest first.  When usage is over the reclaim
    target, the files dropped are files of the store directory, counted
    exactly; had any of the last of them been kept, usage would still be over
    the target; a file kept although it lies in the store either could not be
    deleted, or costs at least as much (longer retention, then newer, then
    path) as every file dropped, and usage is under the target; and the report
    says exhausted exactly when usage is still over it. *)
Theorem reclaim_takes_the_minimum {W} (delete : path -> W -> bool * W) files store_dir tenancy u wm w :
  Forall sound_stats files -> sumZ f_bytes files <= u64_max -> sumZ f_rows files <= u64_max ->
  target_bytes u wm < used u ->
  let r := fst (reclaim_files delete files store_dir tenancy u wm w) in
  exists d,
    files_dropped r = List.map f_path d /\ rc_bytes r = sumZ f_bytes d /\ rows_lost r = sumZ f_rows d /\
    (forall k, k ∈ partitions_touched r <-> exists f, f ∈ d /\ f_key f = k) /\
    (exists rest, Permutation (d ++ rest) files) /\ sorted_by (cost_leb tenancy) d /\
    (forall f, f ∈ d -> starts_with_path store_dir (f_path f) = true) /\
    (forall pre suf, d = pre ++ suf -> suf <> [] -> target_bytes u wm < used u - sumZ f_bytes pre) /\
    (exhausted r = true <-> target_bytes u wm < used u - sumZ f_bytes d) /\
    (forall f, f ∈ files -> starts_with_path store_dir (f_path f) = true ->
      f ∈ d \/ (exists w, fst (delete (f_path f) w) = false) \/
      exhausted r = false /\ Forall (fun x => cost_leb tenancy x f = true) d).
Proof.
  intros Hst Hsb Hsr Hu. unfold reclaim_files. cbv zeta. destruct (Z.leb_spec (used u) (target_bytes u wm)) as [|_]; [lia|].
  pose proof (f64_as_u64_range (f64_mul (f64_of_Z (budget_bytes u)) (reclaim_target wm))) as [Ht _]. fold (target_bytes u wm) in Ht.
  pose proof (stable_sort_perm (cost_leb tenancy) files) as Hp. pose proof (by_cost_sorted tenancy files) as Hso.
  set (fs := stable_sort (cost_leb tenancy) files) in *. set (s0 := mkLoop (used u) 0 0 [] w).
  destruct (reclaim_loop_took delete store_dir (target_bytes u wm) (cost_leb tenancy) Ht fs s0 Hso ltac:(by rewrite Hp)
    ltac:(simpl; lia) ltac:(done) ltac:(done)) as [d []].
  set (s' := reclaim_loop _ _ _ fs s0) in *. unfold s0 in *. simpl in *.
  assert (Forall sound_stats fs) as Hfs by (by rewrite Hp).
  assert (forall g : FileEntry -> Z, (forall f, sound_stats f -> 0 <= g f) -> 0 <= sumZ g d <= sumZ g files) as Hsum.
  { intros g Hg. destruct (sublist_rest _ _ took_sub0) as [rest Hrest].
    rewrite <-(sumZ_perm g _ _ Hp), (sumZ_perm g _ _ Hrest), sumZ_app. rewrite Hrest, Forall_app in Hfs. destruct Hfs as [H1 H2].
    split; [|enough (0 <= sumZ g rest) by lia]; apply sumZ_nonneg; (eapply Forall_impl; [eassumption|done]). }
  pose proof (Hsum f_bytes ltac:(by intros f [? _])) as Hdb. pose proof (Hsum f_rows ltac:(by intros f [_ ?])) as Hdr.
  exists d. rewrite took_dropped0. split_and!.
  - done.
  - rewrite took_bytes0. apply wrap64_small. unfold u64_range. lia.
  - rewrite took_rows0. apply wrap64_small. unfold u64_range. lia.
  - intros k. rewrite stable_sort_perm, insert_keys_in, list_elem_of_fmap. split; intros (f & ? & ?); exists f; auto.
  - destruct (sublist_rest _ _ took_sub0) as [rest Hrest]. exists rest. by rewrite <-Hrest.
  - clear -took_sub0 Hso. induction took_sub0 as [|x d fs Hs IH|x d fs Hs IH]; inversion Hso; subst; [constructor| |by apply IH].
    constructor; [by apply IH|by eapply sublist_Forall].
  - by apply Forall_forall.
  - done.
  - rewrite Z.ltb_lt, took_used0. unfold sat_sub. lia.
  - intros f Hf Hin. destruct (took_kept0 f ltac:(by rewrite Hp) Hin) as [?|[?|[? ?]]]; [by left|by right; left|].
    right. right. split; [apply Z.ltb_ge; lia|done].
Qed.

(** ** The catalog follows the store *)

Lemma find_omap_removed a m q es : find_entry a (omap (fun e : string * Node =>
      if String.eqb (fst e) m then match q with [] => None | _ => Some (fst e, remove_at q (snd e)) end else Some e) es) =
    if String.eqb a m then match q with [] => None | _ => remove_at q <$> find_entry a es end else find_entry a es.
Proof.
  set (g := fun e : string * Node => _). induction es as [|[k y] es IH]; [destruct (String.eqb a m); by destruct q|].
  change (omap g ((k, y) :: es)) with (match g (k, y) with Some z => z :: omap g es | None => omap g es end).
  unfold g at 1. cbn [fst snd find_entry]. destruct (String.eqb_spec k m) as [->|Hkm].
  - destruct q as [|b q]; cbn [find_entry]; rewrite IH; destruct (String.eqb_spec a m) as [->|Ham];
      rewrite ?String.eqb_refl; try done; by destruct (String.eqb_spec m a).
  - cbn [find_entry]. rewrite IH. destruct (String.eqb_spec k a) as [->|Hka]; [|done]. by destruct (String.eqb_spec a m).
Qed.

Lemma remove_at_file q : q <> [] -> forall x p n, file_at x q = Some n ->
  file_at (remove_at q x) p = if bool_decide (p = q) then None else file_at x p.
Proof.
  induction q as [|m q IH]; intros Hq [size|es] p n Hf; try done. cbn [remove_at].
  destruct p as [|a p]; [done|]. cbn [file_at] in *. rewrite find_omap_removed. destruct (String.eqb_spec a m) as [->|Ham].
  - destruct (find_entry m es) as [y|]; [|done]. destruct q as [|b q].
    + destruct y; [|done]. destruct p; [by rewrite bool_decide_eq_true_2|]. by rewrite bool_decide_eq_false_2.
    + cbn [fmap option_fmap option_map]. rewrite (IH ltac:(done) y p n Hf). do 2 case_bool_decide; congruence.
  - rewrite bool_decide_eq_false_2 by congruence. done.
Qed.

Lemma remove_at_node q : forall x p y', node_at (remove_at q x) p = Some y' -> exists y, node_at x p = Some y /\ is_dir y = is_dir y'.
Proof.
  induction q as [|m q IH]; intros [size|es] p y' Hy; try (by exists y'). cbn [remove_at] in Hy.
  destruct p as [|a p]; [injection Hy as <-; by exists (Dir es)|]. cbn [node_at] in *. rewrite find_omap_removed in Hy.
  destruct (String.eqb_spec a m) as [->|Ham]; [|by exists y'].
  destruct q as [|b q]; [done|]. destruct (find_entry m es) as [z|]; [|done]. cbn [fmap option_fmap option_map mbind option_bind] in *.
  by apply IH in Hy.
Qed.

(** What a state of the loop implies of the world is kept by every deletion. *)
Lemma reclaim_loop_world {W} (delete : path -> W -> bool * W) store_dir target (P : list FileEntry -> W -> Prop) files : forall s,
  (forall d w f, f ∈ files -> P d w -> let '(ok, w') := delete (f_path f) w in P (if ok then d ++ [f] else d) w') ->
  P (lp_dropped s) (lp_world s) ->
  let s' := reclaim_loop delete store_dir target files s in P (lp_dropped s') (lp_world s').
Proof.
  induction files as [|f files IH]; intros s Hd Hs; cbn [reclaim_loop]; [done|].
  destruct (_ <=? _); [done|]. destruct (negb _).
  - apply IH; [|done]. intros d w g Hg. apply Hd. by right.
  - pose proof (Hd (lp_dropped s) (lp_world s) f ltac:(by left) Hs) as Hf. destruct (delete (f_path f) (lp_world s)) as [ok w'].
    destruct ok; cbn [negb]; (apply IH; [intros d w g Hg; apply Hd; by right|done]).
Qed.

Lemma cons_inv {A} (a b : A) l k : a :: l = b :: k -> a = b /\ l = k.
Proof. intros H. by injection H. Qed.

Section PassFacts.
Context (rm_tree : path -> Node -> option (string * Node)).
Context (rm_file : path -> option string).
Context (rm_dir : path -> bool).
Context (elsewhere : path -> bool).
Context (db : DbCall -> option string) (msg : string) (store_dir : path) (tenancy : Tenancy) (wm : Watermarks) (pins : PinSet) (now : Z).

(** A row describes a file of the store: its path is below the directory of
    its partition. *)
Definition row_placed (f : FileEntry) : Prop :=
  let k := f_key f in
  exists hs name rest,
    f_path f = store_dir ++ [String.append "tenant=" (tenant k); String.append "index=" (index k);
                             String.append "hour=" hs; String.append "level=" (bucket k); name] ++ rest /\
    parse_hour hs = Some (epoch_hour k) /\ ".." ∉ f_path f.

Definition rel (p : path) : path := drop (List.length store_dir) p.

(** The file a row names is there, and is not empty. *)
Definition row_backed (store : Node) (f : FileEntry) : Prop := exists n, 0 < n /\ file_at store (rel (f_path f)) = Some n.

Lemma strip_dir_rel p q : strip_dir store_dir p = Some q -> q = rel p /\ p = store_dir ++ q.
Proof.
  unfold strip_dir. destruct (is_prefix store_dir p) eqn:E; [|done]. destruct (bool_decide _); [|done]. intros [= <-].
  split; [done|]. apply bool_decide_eq_true in E. rewrite <-E at 1. by rewrite take_drop.
Qed.

Lemma placed_strip f : row_placed f -> strip_dir store_dir (f_path f) = Some (rel (f_path f)).
Proof.
  intros (hs & name & rest & E & _ & Hd). unfold strip_dir. rewrite E at 1. rewrite is_prefix_app.
  by rewrite bool_decide_eq_true_2.
Qed.

Lemma placed_path f : row_placed f -> f_path f = store_dir ++ rel (f_path f).
Proof. intros H. by apply placed_strip, strip_dir_rel in H as [_ ?]. Qed.

Lemma exists_file store store' f n : part store' store -> row_placed f -> file_at store (rel (f_path f)) = Some n ->
  path_exists elsewhere store_dir store' (f_path f) = bool_decide (file_opt store' (rel (f_path f)) <> None).
Proof.
  intros Hp Hf Hn. unfold path_exists. rewrite (placed_strip f Hf). destruct store' as [x'|]; [|done]. cbn [file_opt].
  apply bool_decide_ext. split.
  - intros [y' Hy]. destruct (Hp (rel (f_path f)) y' Hy) as (y & Hy0 & Hd). apply file_node in Hn. rewrite Hn in Hy0. injection Hy0 as <-.
    destruct y' as [m|]; [|done]. apply file_node in Hy. congruence.
  - intros H. destruct (file_at x' (rel (f_path f))) as [m|] eqn:E; [|done]. apply file_node in E. by exists (File m).
Qed.

(** *** After retention *)

Lemma pinned_not_doomed q : contains pins (store_dir ++ q) = true -> doomed tenancy now pins store_dir q = false.
Proof.
  intros Hq. unfold doomed. destruct q as [|a [|b [|h [|l [|e q]]]]]; try done.
  destruct (strip_prefix "tenant=" a), (strip_prefix "index=" b), (strip_prefix "hour=" h ≫= parse_hour), (strip_prefix "level=" l); try done.
  rewrite Hq. apply andb_false_r.
Qed.

Section Expire.
Context (store : Node) (c : Catalog).
Hypothesis ok : no_failure rm_tree rm_file.
Hypothesis db_ok : forall call, db call = None.
Hypothesis store_wf : wf store.
Hypothesis store_dir_ : is_dir store = true.
Hypothesis store_small : tree_bytes (fun _ => true) store_dir store < 2 ^ 64.
Hypothesis placed : Forall row_placed c.
Hypothesis backed : Forall (row_backed store) c.

Let run := enforce_pinned rm_tree rm_file rm_dir tenancy now false pins msg store_dir (Some store).

Lemma expire_part : part (snd run) store.
Proof. destruct ok. by apply enforce_part. Qed.

Lemma rm_part d x e x' : rm_tree d x = Some (e, x') -> forall p, file_at x' p = file_at x p \/ file_at x' p = None.
Proof. destruct ok as [H _]. by rewrite H. Qed.

(** A row whose file retention took is in a partition the report names. *)
Lemma expire_row f : f ∈ c ->
  file_opt (snd run) (rel (f_path f)) = file_at store (rel (f_path f)) \/
  file_opt (snd run) (rel (f_path f)) = None /\ exists k, k ∈ List.map e_key (expired (fst run)) /\ same_partition k f = true.
Proof.
  intros Hf. rewrite Forall_forall in placed, backed. destruct (placed f Hf) as (hs & name & rest & Hp & Hh & _).
  destruct (backed f Hf) as (n & Hn & Hat).
  destruct (enforce_exact rm_tree rm_file rm_dir tenancy now pins rm_part msg store_dir store store_wf) as (Hkeep & Hsame & Hgone).
  destruct (doomed tenancy now pins store_dir (rel (f_path f))) eqn:Ed; [right|left; by apply Hkeep].
  split; [by apply Hgone|].
  destruct (enforce_reports rm_tree rm_file rm_dir tenancy now false pins ok msg store_dir store _ n store_wf store_small Hat Hn Ed)
    as (tm & tn & im & ix & hm & hs' & h & lm & level & e & q & Hq & E1 & E2 & E3 & E4 & E5 & (ex & Hin & Hk & _)).
  exists (e_key ex). split; [by apply list_elem_of_fmap_2|]. rewrite Hk. unfold rel in Hq. rewrite Hp in Hq.
  rewrite drop_app_length in Hq. cbn [app] in Hq.
  do 4 (apply cons_inv in Hq as [<- Hq]).
  rewrite strip_prefix_app in E1, E2, E3, E5. unfold same_partition. cbn [tenant index epoch_hour bucket].
  injection E1 as <-. injection E2 as <-. injection E3 as <-. injection E5 as <-. rewrite Hh in E4. injection E4 as <-.
  by rewrite !String.eqb_refl, Z.eqb_refl.
Qed.

Lemma file_gone f store' : f ∈ c -> part store' store ->
  path_exists elsewhere store_dir store' (f_path f) = true <-> file_opt store' (rel (f_path f)) <> None.
Proof.
  intros Hf Hp. rewrite Forall_forall in placed, backed. destruct (backed f Hf) as (n & _ & Hat).
  rewrite (exists_file store store' f n Hp (placed f Hf) Hat). apply bool_decide_eq_true.
Qed.

Lemma forget_files_in ps cat f : f ∈ forget_files ps cat <-> f ∈ cat /\ f_path f ∉ ps.
Proof. 
  unfold forget_files. rewrite !list_elem_of_In. rewrite filter_In, negb_true_iff, bool_decide_eq_false. by rewrite list_elem_of_In. Qed.

(** After retention the rows left are those of the files left. *)
Lemma forget_expired_in f : f ∈ forget_expired db elsewhere store_dir (fst run) c (snd run) <-> f ∈ c /\ path_exists elsewhere store_dir (snd run) (f_path f) = true.
Proof.
  assert (f ∈ c -> path_exists elsewhere store_dir (snd run) (f_path f) = true \/
     exists k, k ∈ List.map e_key (expired (fst run)) /\ same_partition k f = true) as Hrow.
  { intros Hf. destruct (expire_row f Hf) as [Hsame|[_ Hk]]; [left|by right]. apply file_gone; [done|apply expire_part|].
    rewrite Hsame. rewrite Forall_forall in backed. destruct (backed f Hf) as (n & _ & ->). done. }
  unfold forget_expired. rewrite db_ok. case_bool_decide as Hk.
  - split; [|by intros [? _]]. intros Hf. split; [done|]. destruct (Hrow Hf) as [?|(k & Hin & _)]; [done|].
    rewrite Hk in Hin. by apply not_elem_of_nil in Hin.
  - unfold forget_missing_in. rewrite forget_files_in. set (ex := path_exists elsewhere store_dir (snd run)) in *.
    set (keys := List.map e_key (expired (fst run))) in *.
    assert (forall p, p ∈ flat_map (fun k => List.map f_path (List.filter (fun e => negb (ex (f_path e))) (files_in_partition k c))) keys <->
      exists k g, k ∈ keys /\ g ∈ c /\ same_partition k g = true /\ ex (f_path g) = false /\ f_path g = p) as Hin.
    { intros p. rewrite list_elem_of_In, in_flat_map. split.
      - intros (k & Hk1 & (g & Hg & Hin)%in_map_iff). apply filter_In in Hin as [Hin He]. unfold files_in_partition in Hin.
        rewrite <-list_elem_of_In, stable_sort_perm, list_elem_of_In in Hin. apply filter_In in Hin as [Hin Hs].
        exists k, g. rewrite !list_elem_of_In. apply negb_true_iff in He. done.
      - intros (k & g & Hk1 & Hg & Hs & He & Hp). exists k. rewrite <-list_elem_of_In. split; [done|]. apply in_map_iff.
        exists g. split; [done|]. apply filter_In. rewrite He. split; [|done]. unfold files_in_partition.
        rewrite <-list_elem_of_In, stable_sort_perm, list_elem_of_In. apply filter_In. by rewrite <-list_elem_of_In. }
    rewrite Hin. split.
    + intros [Hf Hno]. split; [done|]. destruct (ex (f_path f)) eqn:E; [done|]. exfalso. apply Hno.
      destruct (Hrow Hf) as [?|(k & Hk1 & Hk2)]; [done|]. by exists k, f.
    + intros [Hf He]. split; [done|]. intros (k & g & _ & _ & _ & Hg & Heq). congruence.
Qed.

(** *** After relief *)

(** Relief's deletions: the dropped files are gone and every other one stays. *)
Definition relieved (before : option Node) (d : list FileEntry) (after : option Node) : Prop :=
  (forall q, file_opt after q = if bool_decide (store_dir ++ q ∈ List.map f_path d) then None else file_opt before q) /\
  part after store.

Lemma remove_file_relieved before d w f : row_placed f -> relieved before d w ->
  let '(ok, w') := remove_file rm_file elsewhere store_dir (f_path f) w in relieved before (if ok then d ++ [f] else d) w'.
Proof.
  intros Hf [Hw Hpart]. unfold remove_file. rewrite (placed_strip f Hf). destruct w as [x|]; [|done].
  destruct (file_at x (rel (f_path f))) as [n|] eqn:Ex; [|done]. destruct ok as [_ ->]. split.
  - intros q. rewrite map_app. specialize (Hw q). cbn [file_opt] in Hw.
    assert (store_dir ++ q ∈ List.map f_path d ++ [f_path f] <-> store_dir ++ q ∈ List.map f_path d \/ q = rel (f_path f)) as Hin.
    { rewrite elem_of_app, list_elem_of_singleton. rewrite (placed_path f Hf) at 1. split; (intros [?|He]; [by left|right]).
      - by apply app_inv_head in He.
      - by rewrite He. }
    rewrite (bool_decide_ext _ _ Hin). cbn [map]. destruct (rel (f_path f)) as [|a p] eqn:Er.
    + destruct x as [m|]; [|done]. cbn [file_opt]. destruct q as [|b q]; [by rewrite bool_decide_eq_true_2 by (by right)|].
      cbn [file_at] in Hw.
      destruct (decide (store_dir ++ b :: q ∈ List.map f_path d)) as [H1|H1]; [by rewrite bool_decide_eq_true_2 by (by left)|].
      rewrite bool_decide_eq_false_2 in Hw by done. rewrite bool_decide_eq_false_2 by naive_solver. exact Hw.
    + cbn [file_opt]. rewrite (remove_at_file (a :: p) ltac:(done) x q n Ex), Hw. repeat case_bool_decide; naive_solver.
  - destruct (rel (f_path f)) as [|a p]; [by intros q y'|]. intros q y' Hy. apply remove_at_node in Hy as (y & Hy & Hd).
    destruct (Hpart q y Hy) as (z & Hz & Hdz). exists z. by rewrite Hdz.
Qed.

Lemma reclaim_relieves u before c1 w : Forall row_placed c1 -> relieved before [] w ->
  exists d, relieved before d (snd (reclaim_files (remove_file rm_file elsewhere store_dir) c1 store_dir tenancy u wm w)) /\
    files_dropped (fst (reclaim_files (remove_file rm_file elsewhere store_dir) c1 store_dir tenancy u wm w)) = List.map f_path d /\
    Forall (fun f => f ∈ c1) d.
Proof.
  intros Hp Hw. unfold reclaim_files. destruct (_ <=? _); [by exists []|]. cbn [fst snd files_dropped].
  set (fs := stable_sort (cost_leb tenancy) c1). set (s0 := mkLoop _ _ _ _ _).
  exists (lp_dropped (reclaim_loop (remove_file rm_file elsewhere store_dir) store_dir (target_bytes u wm) fs s0)).
  pose proof (reclaim_loop_world (remove_file rm_file elsewhere store_dir) store_dir (target_bytes u wm)
    (fun d w => relieved before d w /\ Forall (fun f => f ∈ c1) d) fs s0) as H. cbv zeta in H. destruct H as [? ?]; [|by split|done].
  intros d w' f Hf [Hr Hd]. unfold fs in Hf. rewrite stable_sort_perm in Hf. rewrite Forall_forall in Hp.
  pose proof (remove_file_relieved before d w' f (Hp f Hf) Hr) as H. destruct (remove_file _ _ _ _ _) as [[] w2]; [|done].
  split; [done|]. apply Forall_app. split; [done|by constructor].
Qed.

(** What relief's deletions mean for rows and pins. *)
Lemma relieved_rows (x1 : option Node) (c1 d : list FileEntry) (x2 : option Node) (c2 : list FileEntry) :
  (forall f, f ∈ c1 <-> f ∈ c /\ path_exists elsewhere store_dir x1 (f_path f) = true) -> part x1 store ->
  (forall q, contains pins (store_dir ++ q) = true -> file_opt x1 q = file_at store q) ->
  relieved x1 d x2 -> (forall f, f ∈ c2 <-> f ∈ c1 /\ f_path f ∉ List.map f_path d) ->
  Forall (fun f => contains pins (f_path f) = false) d ->
  (forall f, f ∈ c2 <-> f ∈ c /\ path_exists elsewhere store_dir x2 (f_path f) = true) /\
  (forall q, contains pins (store_dir ++ q) = true -> file_opt x2 q = file_at store q).
Proof.
  intros Hc1 Hpart Hpin [Hx2 Hpart2] Hc2 Hd. split.
  - intros f. rewrite Hc2, Hc1. split.
    + intros [[Hf He] Hn]. split; [done|]. apply file_gone; [done|done|]. apply file_gone in He; [|done|done].
      rewrite Hx2, bool_decide_eq_false_2; [done|]. rewrite <-placed_path; [done|]. rewrite Forall_forall in placed. by apply placed.
    + intros [Hf He]. apply file_gone in He; [|done|done]. rewrite Hx2 in He.
      rewrite <-placed_path in He by (rewrite Forall_forall in placed; by apply placed). case_bool_decide as Hin; [done|].
      split; [split; [done|]|done]. by apply file_gone.
  - intros q Hq. rewrite Hx2, bool_decide_eq_false_2; [by apply Hpin|]. intros Hin. apply list_elem_of_fmap in Hin as (f & Heq & Hf).
    rewrite Forall_forall in Hd. rewrite Heq, (Hd f Hf) in Hq. done.
Qed.
Lemma relieve_true u x1 c1 :
  (forall f, f ∈ c1 <-> f ∈ c /\ path_exists elsewhere store_dir x1 (f_path f) = true) -> part x1 store ->
  (forall q, contains pins (store_dir ++ q) = true -> file_opt x1 q = file_at store q) ->
  let '(_, c2, x2) := relieve rm_file db elsewhere store_dir tenancy wm pins u c1 x1 in
  (forall f, f ∈ c2 <-> f ∈ c /\ path_exists elsewhere store_dir x2 (f_path f) = true) /\
  (forall q, contains pins (store_dir ++ q) = true -> file_opt x2 q = file_at store q).
Proof.
  intros Hc1 Hpart Hpin.
  assert (relieved x1 [] x1) as Hx1.
  { split; [|done]. intros q. rewrite bool_decide_eq_false_2; [done|]. apply not_elem_of_nil. }
  assert (forall r : option (string + ReclaimReport), let '(_, c2, x2) := reclaim_pinned rm_file db elsewhere store_dir tenancy wm pins u false c1 x1 in
    (forall f, f ∈ c2 <-> f ∈ c /\ path_exists elsewhere store_dir x2 (f_path f) = true) /\
    (forall q, contains pins (store_dir ++ q) = true -> file_opt x2 q = file_at store q)) as Hrelief.
  { intros _. unfold reclaim_pinned. rewrite !db_ok. cbv zeta. set (files := List.filter (fun f => negb _) (list_files c1)).
    assert (Forall (fun f => f ∈ c1 /\ contains pins (f_path f) = false) files) as Hfiles.
    { apply Forall_forall. intros f Hf. unfold files in Hf. rewrite list_elem_of_In, filter_In, <-list_elem_of_In in Hf.
      unfold list_files in Hf. rewrite stable_sort_perm, negb_true_iff in Hf. done. }
    assert (Forall row_placed files) as Hpl.
    { eapply Forall_impl; [exact Hfiles|]. intros f [Hf _]. rewrite Forall_forall in placed. by apply placed, Hc1. }
    destruct (reclaim_relieves u x1 files x1 Hpl Hx1) as (d & Hrel & Hdrop & Hdin).
    change (fun p w => remove_file rm_file elsewhere store_dir p w) with (remove_file rm_file elsewhere store_dir).
    destruct (reclaim_files _ files store_dir tenancy u wm x1) as [r x2]. cbn [fst snd] in *.
    assert (Forall (fun f => contains pins (f_path f) = false) d) as Hdp.
    { eapply Forall_impl; [exact Hdin|]. intros f Hf. rewrite Forall_forall in Hfiles. by apply Hfiles. }
    cbn [files_dropped set_pinned_kept negb andb]. rewrite Hdrop. case_bool_decide as Hnil; cbn [negb].
    - apply (relieved_rows x1 c1 d x2 c1); try done. intros f. rewrite Hnil. split; [|by intros [? _]].
      intros ?. split; [done|]. apply not_elem_of_nil.
    - apply (relieved_rows x1 c1 d x2 _); try done. intros f. apply forget_files_in. }
  unfold relieve. specialize (Hrelief None). destruct (pressure u wm); [by split| |];
    by destruct (reclaim_pinned _ _ _ _ _ _ _ _ _ _ _) as [[]].
Qed.
End Expire.

(** C19: a maintenance pass keeps the catalog true to the store, and pinned files on
    disk.  Let every catalog row name a file that is there, in its partition's
    directory, and let the system calls and the statements of the pass succeed:
    whatever retention expires and relief drops, the rows left after the pass
    are exactly those whose file is still there; and a pinned file is left
    however old it is and however full the disk. *)
Theorem pass_keeps_catalog_true store c wal late budget :
  no_failure rm_tree rm_file -> (forall call, db call = None) ->
  wf store -> is_dir store = true -> tree_bytes (fun _ => true) store_dir store < 2 ^ 64 ->
  Forall row_placed c -> Forall (row_backed store) c ->
  let '(_, c', store') := expire_and_relieve rm_tree rm_file rm_dir db elsewhere msg store_dir tenancy wm pins wal late budget now c (Some store) in
  (forall f, f ∈ c' <-> f ∈ c /\ path_exists elsewhere store_dir store' (f_path f) = true) /\
  (forall q, contains pins (store_dir ++ q) = true -> file_opt store' q = file_at store q).
Proof.
  intros ok Hdb Hwf Hd Hsmall Hp Hb. unfold expire_and_relieve.
  pose proof (forget_expired_in store c ok Hdb Hwf Hd Hsmall Hp Hb) as Hin.
  pose proof (expire_part store ok Hwf) as Hpart.
  pose proof (enforce_exact rm_tree rm_file rm_dir tenancy now pins (rm_part ok) msg store_dir store Hwf) as (Hkeep & _ & _).
  destruct (enforce_pinned _ _ _ _ _ _ _ _ _ _) as [expiry x1]. cbn [fst snd] in *.
  match goal with |- context [relieve _ _ _ _ _ _ _ ?v ?c1 x1] =>
    pose proof (relieve_true store c ok Hdb Hp Hb v x1 c1 Hin Hpart
      ltac:(intros q Hq; by apply Hkeep, pinned_not_doomed)) as H;
    by destruct (relieve _ _ _ _ _ _ _ v c1 x1) as [[]] end.
Qed.
End PassFacts.

(** ** The containment guard *)

(** What the file system makes of [..] in a path, where no link is involved. *)
Definition resolve (p : path) : path :=
  foldl (fun acc c => if String.eqb c ".." then removelast acc else acc ++ [c]) [] p.

Definition row_at (p : path) (hour : Z) (level : string) (bytes : Z) : FileEntry :=
  mkEntry p (mkKey "default" "default" hour level "a") (mkStats 5 bytes (hour * NANOS_PER_HOUR) (hour * NANOS_PER_HOUR) 0 0).

(** The guard that keeps relief inside the store compares path components and
    does not resolve [..]: a catalog row whose path leaves the store through
    [..] passes it, and its file is deleted. *)
Theorem guard_lets_dotdot_through :
  exists f, is_prefix ["data"; "store"] (resolve (f_path f)) = false /\
    let '(r, deleted) := reclaim_files (fun p w => (true, w ++ [p])) [f] ["data"; "store"] (single level_buckets_default)
      (mkUsage 0 1000 1000) watermarks_default [] in
    files_dropped r = [f_path f] /\ deleted = [f_path f].
Proof. exists (row_at ["data"; "store"; ".."; "wal"; "1.log"] 100 "debug" 1000). vm_compute. by split_and!. Qed.

(** ** Witnesses *)

Definition budget_rows : list FileEntry :=
  [row_at ["s"; "e"] 100 "warn_plus" 100; row_at ["s"; "d2"] 101 "debug" 300; row_at ["s"; "d1"] 100 "debug" 300; row_at ["x"] 1 "debug" 300].

Lemma reclaim_takes_the_minimum_witness :
  exists d, List.map f_path d = [["s"; "d1"]] /\ sorted_by (cost_leb (single level_buckets_default)) d /\
    files_dropped (fst (reclaim_files (fun _ w => (true, w)) budget_rows ["s"] (single level_buckets_default)
      (mkUsage 0 1000 1000) watermarks_default tt)) = List.map f_path d.
Proof.
  destruct (reclaim_takes_the_minimum (fun _ w => (true, w)) budget_rows ["s"] (single level_buckets_default)
    (mkUsage 0 1000 1000) watermarks_default tt) as (d & Hd & _ & _ & _ & _ & Hs & _).
  - repeat constructor; unfold sound_stats; simpl; lia.
  - vm_compute. discriminate.
  - vm_compute. discriminate.
  - vm_compute. reflexivity.
  - exists d. split; [|by split]. rewrite <-Hd. vm_compute. reflexivity.
Defined.

Definition store_row (level node name : string) (bytes : Z) : FileEntry :=
  row_at ["s"; "tenant=default"; "index=default"; "hour=1970-01-05T04"; String.append "level=" level; String.append "node=" node; name] 100 level bytes.
Definition store1_rows : list FileEntry :=
  [store_row "debug" "a" "1.parquet" 10; store_row "debug" "b" "2.parquet" 7; store_row "warn_plus" "a" "3.parquet" 30].

(** Two days on and over the budget: the debug file expires and the warnings
    are dropped, the pinned file stays. *)
Lemma pass_keeps_catalog_true_witness :
  exists o c' store',
    expire_and_relieve no_error_tree no_error_file (fun _ => true) (fun _ => None) (fun _ => false) "" ["s"] (single level_buckets_default)
      watermarks_default pins1 0 0 20 (101 * 3600 + 2 * 86400) store1_rows (Some store1) = (o, c', store') /\
    List.map (fun f => last (f_path f)) c' = [Some "2.parquet"] /\
    (forall f, f ∈ c' <-> f ∈ store1_rows /\ path_exists (fun _ => false) ["s"] store' (f_path f) = true).
Proof.
  assert (Forall (row_placed ["s"]) store1_rows) as Hp.
  { repeat constructor; exists "1970-01-05T04"; eexists _, [_]; (split; [reflexivity|split; [vm_compute; reflexivity|]]);
      apply (bool_decide_eq_true_1 _); vm_compute; reflexivity. }
  assert (Forall (row_backed ["s"] store1) store1_rows) as Hb.
  { repeat constructor; eexists; (split; [|vm_compute; reflexivity]); reflexivity. }
  pose proof (pass_keeps_catalog_true no_error_tree no_error_file (fun _ => true) (fun _ => false) (fun _ => None) "" ["s"]
    (single level_buckets_default) watermarks_default pins1 (101 * 3600 + 2 * 86400) store1 store1_rows 0 0 20
    (conj (fun _ _ => eq_refl) (fun _ => eq_refl)) (fun _ => eq_refl) store1_wf eq_refl ltac:(vm_compute; reflexivity) Hp Hb) as H.
  destruct (expire_and_relieve _ _ _ _ _ _ _ _ _ _ _ _ _ _ _ _) as [[o c'] store'] eqn:E. exists o, c', store'.
  split; [done|]. split; [|apply H].
  assert (c' = snd (fst (o, c', store'))) as -> by done. rewrite <-E. vm_compute. reflexivity.
Defined.
