(* ===== verification/Schema.v ===== *)
(** The columns of a store file ([crates/logless-core/src/schema.rs]): records to
    a batch, a batch to records, and the sort of a file.

    An Arrow array is the list of its values, a nullable one of options; the
    base columns are kept row by row.  [serde_json] is a parameter: the text it
    makes of an attribute list and what it reads back. *)

From stdpp Require Import sorting.
From Stdlib Require Import SpecFloat.
From S2P Require Import Prelude Text Float Model Lists Timestamp Typed.
Open Scope string_scope.
Open Scope Z_scope.
Open Scope list_scope.

Definition ATTR_ORIGIN : string := "logless.origin".

(** ** Sorting a file *)

Fixpoint bytes_leb (a b : bytes) : bool :=
  match a, b with
  | [], _ => true
  | _ :: _, [] => false
  | x :: a', y :: b' => if byte_val x =? byte_val y then bytes_leb a' b' else byte_val x <? byte_val y
  end.

(** [Option]'s order: [None] first. *)
Definition opt_leb {A} (le : A -> A -> bool) (a b : option A) : bool :=
  match a, b with
  | None, _ => true
  | Some _, None => false
  | Some x, Some y => le x y
  end.

Definition record_leb (a b : LogRecord) : bool :=
  if negb (bool_decide (service a = service b)) then opt_leb String.leb (service a) (service b)
  else if negb (bool_decide (trace_id a = trace_id b)) then opt_leb bytes_leb (trace_id a) (trace_id b)
  else if negb (timestamp_unix_nano a =? timestamp_unix_nano b) then timestamp_unix_nano a <? timestamp_unix_nano b
  else bytes_leb (event_id a) (event_id b).

Definition sort_records (records : list LogRecord) : list LogRecord := stable_sort record_leb records.

(** ** Batches *)

Record BaseRow := mkRow {
  b_event_id : bytes;
  b_timestamp : Z;                   (* i64 *)
  b_observed : Z;                    (* i64 *)
  b_severity : Severity;
  b_severity_text : option string;
  b_body : string;
  b_service : option string;
  b_trace_id : option bytes;
  b_span_id : option bytes;
  b_template_id : option Z;
  b_attributes : option string;      (* JSON *)
  b_origin : option string
}.

(** A typed field: its name and the metadata that says its key and type. *)
Record TypedField := mkField { tf_name : string; tf_key : string; tf_type : string }.

Record Batch := mkBatch { base_rows : list BaseRow; typed_fields : list (TypedField * list (option Cell)) }.

Definition typed_field (c : TypedColumn) : TypedField := mkField (column c) (key c) (column_type_str (ty c)).

(** Is the cell one of the builder's type? *)
Definition cell_fits (t : ColumnType) (c : Cell) : bool :=
  match t, c with
  | CInt64, CellInt _ | CFloat64, CellFloat _ | CBool, CellBool _ | CString, CellStr _ | CTimestamp, CellTimestamp _ => true
  | _, _ => false
  end.

(** [build_typed]: nulls for the rows without a value. *)
Fixpoint fill_typed (t : ColumnType) (n next : nat) (cells : list (nat * Cell)) : list (option Cell) :=
  match cells with
  | [] => replicate (n - next) None
  | (row, c) :: r => replicate (row - next) None ++ (if cell_fits t c then Some c else None) :: fill_typed t n (S row) r
  end.
Definition build_typed (t : ColumnType) (n : nat) (cells : list (nat * Cell)) : list (option Cell) := fill_typed t n 0 cells.

(** One record's attributes: those bound for a column, with its index, and the
    rest. *)
Fixpoint split_attrs (l : TypedLayout) (used : list nat) (attrs : list Attr) : list (nat * Cell) * list Attr :=
  match attrs with
  | [] => ([], [])
  | a :: r =>
      let cell :=
        match index_of l (attr_key a) with
        | Some i =>
            if bool_decide (i ∈ used) then None
            else match columns l !! i with
                 | Some c => (fun cell => (i, cell)) <$> conform (attr_value a) (ty c)
                 | None => None
                 end
        | None => None
        end in
      match cell with
      | Some (i, cell) => let '(cells, rest) := split_attrs l (used ++ [i]) r in ((i, cell) :: cells, rest)
      | None => let '(cells, rest) := split_attrs l used r in (cells, a :: rest)
      end
  end.

Definition relayed_origin (r : LogRecord) : option string :=
  head (omap (fun a => if String.eqb (attr_key a) ATTR_ORIGIN then
                         match attr_value a with AStr s => if String.eqb s "" then None else Some s | _ => None end
                       else None) (attributes r)).

Section Codec.
Context (to_json : list Attr -> string) (from_json : string -> option (list Attr)).

Definition base_row (node : option string) (r : LogRecord) (rest : list Attr) : BaseRow :=
  mkRow (event_id r) (wrap_i64 (timestamp_unix_nano r)) (wrap_i64 (observed_unix_nano r)) (severity r) (severity_text r)
    (body r) (service r) (trace_id r) (span_id r) (template_id r)
    (match rest with [] => None | _ => Some (to_json rest) end)
    (match relayed_origin r with Some o => Some o | None => node end).

(** The values for column [i], with their rows. *)
Fixpoint sparse (row : nat) (splits : list (list (nat * Cell) * list Attr)) (i : nat) : list (nat * Cell) :=
  match splits with
  | [] => []
  | s :: r => omap (fun ic => if Nat.eqb (fst ic) i then Some (row, snd ic) else None) (fst s) ++ sparse (S row) r i
  end.

Definition to_record_batch_from (records : list LogRecord) (l : TypedLayout) (node : option string) : Batch :=
  let n := List.length records in
  let splits := List.map (fun r => split_attrs l [] (attributes r)) records in
  mkBatch (zip_with (fun r s => base_row node r (snd s)) records splits)
    (omap (fun ic => let '(i, c) := ic in
             match sparse 0 splits i with
             | [] => None
             | cells => Some (typed_field c, build_typed (ty c) n cells)
             end) (imap (fun i c => (i, c)) (columns l))).

Definition to_record_batch (records : list LogRecord) (l : TypedLayout) : Batch := to_record_batch_from records l None.

(** A typed value as an attribute value; a value of another type is not read. *)
Definition typed_value (t : ColumnType) (c : Cell) : option AttrValue :=
  if cell_fits t c then Some (replay c) else None.

(** The typed columns of a batch, by their metadata, with their values. *)
Definition typed_columns_of (b : Batch) : list (string * ColumnType * list (option Cell)) :=
  omap (fun f => (fun t => (tf_key (fst f), t, snd f)) <$> column_type_parse (tf_type (fst f))) (typed_fields b).

Definition read_typed (row : nat) (c : string * ColumnType * list (option Cell)) : option Attr :=
  let '(k, t, values) := c in
  match values !! row with
  | Some (Some v) => mkAttr k <$> typed_value t v
  | _ => None
  end.

(** [fresh] is the id [LogRecord::new] draws, for a row whose id is not 16 bytes. *)
Definition read_row (fresh : bytes) (typed_columns : list (string * ColumnType * list (option Cell))) (row : nat) (b : BaseRow) : LogRecord :=
  let typed_attrs := omap (read_typed row) typed_columns in
  let rest := match b_attributes b ≫= from_json with Some l => l | None => [] end in
  mkRecord (if Nat.eqb (List.length (b_event_id b)) 16 then b_event_id b else fresh)
    (Z.max 0 (b_timestamp b)) (Z.max 0 (b_observed b)) (b_severity b) (b_severity_text b) (b_body b) (b_service b)
    (b_trace_id b ≫= fun t => if Nat.eqb (List.length t) 16 then Some t else None)
    (b_span_id b ≫= fun t => if Nat.eqb (List.length t) 8 then Some t else None)
    (typed_attrs ++ rest) (b_template_id b).

Definition from_record_batch (fresh : bytes) (b : Batch) : list LogRecord :=
  imap (read_row fresh (typed_columns_of b)) (base_rows b).

End Codec.

(** ** A batch read back *)

(** The value record [s] has for column [i]. *)
Definition cell_at (i : nat) (cells : list (nat * Cell)) : option Cell :=
  snd <$> List.find (fun ic => Nat.eqb (fst ic) i) cells.

(** A layout's index names a column of the key. *)
Definition layout_ok (l : TypedLayout) : Prop :=
  forall k i, index_of l k = Some i -> exists c, columns l !! i = Some c /\ key c = k.

Lemma index_keys_step cols : forall k0 m k i,
  foldl (fun (m : gmap string nat) '(i, c) => <[key c := i]> m) m (imap (fun i c => ((k0 + i)%nat, c)) cols) !! k = Some i ->
  m !! k = Some i \/ exists c, (k0 <= i)%nat /\ cols !! (i - k0)%nat = Some c /\ key c = k.
Proof.
  induction cols as [|c cols IH]; intros k0 m k i H; cbn in H; [by left|].
  rewrite Nat.add_0_r in H.
  assert (imap ((fun i c => ((k0 + i)%nat, c)) ∘ S) cols = imap (fun i (c : TypedColumn) => ((S k0 + i)%nat, c)) cols) as Hi
    by (apply imap_ext; intros; simpl; f_equal; lia).
  rewrite Hi in H. apply IH in H as [H|(c' & Hle & Hc & Hk)].
  - destruct (decide (key c = k)) as [Hck|Hck].
    + rewrite Hck, lookup_insert_eq in H. injection H as <-. right. exists c. split_and!; [lia| |done]. by rewrite Nat.sub_diag.
    + rewrite lookup_insert_ne in H by done. by left.
  - right. exists c'. split; [lia|]. split; [|done]. by replace (i - k0)%nat with (S (i - S k0)) by lia.
Qed.

Lemma layout_new_ok cols : layout_ok (layout_new cols).
Proof.
  intros k i H. unfold index_of, layout_new in *. cbn [by_key columns] in *. set (cs := dedup _ _) in *. clearbody cs.
  unfold index_keys in H. destruct (index_keys_step cs 0 ∅ k i H) as [H0|(c & _ & Hc & Hk)]; [done|].
  rewrite Nat.sub_0_r in Hc. by exists c.
Qed.

(** *** One record's split *)

Lemma conform_fits v t c : conform v t = Some c -> cell_fits t c = true.
Proof.
  unfold conform. intros H. destruct t, v; try discriminate; simplify_eq; try done.
  - case_hyp H; [|done]. by simplify_eq.
  - destruct (parse_canonical_timestamp s); [|done]. simpl in H. by simplify_eq.
Qed.

Lemma split_attrs_spec l attrs : layout_ok l -> forall used, let '(cells, rest) := split_attrs l used attrs in
  NoDup cells.*1 /\ (forall i, i ∈ cells.*1 -> i ∉ used) /\
  (forall i cell, (i, cell) ∈ cells -> exists c, columns l !! i = Some c /\ cell_fits (ty c) cell = true) /\
  exists vs, Permutation (List.map (fun ic => mkAttr (default "" (key <$> columns l !! (fst ic))) (replay (snd ic))) cells ++ rest) vs /\
    Forall2 (fun a b => attr_key b = attr_key a /\
      (attr_value b = attr_value a \/ exists z, attr_value a = AI64 z /\ Z.abs z <= 2 ^ 53 /\ attr_value b = AF64 (f64_of_Z z))) attrs vs.
Proof.
  intros Hl. induction attrs as [|a attrs IH]; intros used; cbn [split_attrs].
  { split_and!; [constructor|by intros i ?%not_elem_of_nil|by intros i c ?%not_elem_of_nil|]. exists []. by split. }
  set (cell := match index_of l (attr_key a) with Some i => _ | None => _ end).
  assert (match cell with
          | Some (i, c) => i ∉ used /\ exists col, columns l !! i = Some col /\ key col = attr_key a /\ conform (attr_value a) (ty col) = Some c
          | None => True end) as Hcell.
  { subst cell. destruct (index_of l (attr_key a)) as [i|] eqn:Ei; [|done]. case_bool_decide; [done|].
    destruct (Hl _ _ Ei) as (col & Hcol & Hk). rewrite Hcol. destruct (conform _ _) eqn:Ec; [|done]. simpl. split; [done|]. by exists col. }
  destruct cell as [[i c]|].
  - specialize (IH (used ++ [i])). destruct (split_attrs l (used ++ [i]) attrs) as [cells rest].
    destruct IH as (Hnd & Hu & Hfit & vs & Hp & Hvs). destruct Hcell as (Hiu & col & Hcol & Hk & Hconf). split_and!.
    + constructor; [|done]. intros Hin. apply (Hu i Hin). apply elem_of_app. right. by left.
    + intros j [->|Hj]%elem_of_cons; [done|]. intros Hju. apply (Hu j Hj). apply elem_of_app. by left.
    + intros j cell [[= -> ->]|Hj]%elem_of_cons; [|by apply Hfit]. exists col. split; [done|].
      by eapply conform_fits.
    + exists (mkAttr (attr_key a) (replay c) :: vs). split; [|constructor; [|done]].
      * cbn [List.map fst snd app]. rewrite Hcol. cbn. rewrite Hk. by constructor.
      * split; [done|]. cbn [attr_value]. destruct (conform_replays _ _ _ Hconf) as [?|(z & Hz & _ & Hr & Hc)]; [by left|right].
        exists z. rewrite Hc. by split_and!.
  - specialize (IH used). destruct (split_attrs l used attrs) as [cells rest]. destruct IH as (Hnd & Hu & Hfit & vs & Hp & Hvs).
    split_and!; [done|done|done|]. exists (a :: vs). split; [|constructor; [|done]; split; [done|by left]].
    rewrite <-Permutation_middle. by constructor.
Qed.

(** *** One column *)

Lemma fill_skip t n next cells : (next < n)%nat -> Forall (fun rc => S next <= rc.1)%nat cells ->
  fill_typed t n next cells = None :: fill_typed t n (S next) cells.
Proof.
  intros Hn Hc. destruct cells as [|[row c] cells]; cbn [fill_typed].
  - by replace (n - next)%nat with (S (n - S next)) by lia.
  - apply Forall_cons in Hc as [Hr _]. cbn in Hr. by replace (row - next)%nat with (S (row - S next)) by lia.
Qed.

Lemma sparse_rows splits i : forall next, Forall (fun rc => next <= rc.1)%nat (sparse next splits i).
Proof.
  induction splits as [|s splits IH]; intros next; cbn [sparse]; [constructor|]. apply Forall_app. split.
  - apply Forall_forall. intros [row c] Hin. apply list_elem_of_omap in Hin as ([j c'] & _ & Hj). cbn in Hj.
    destruct (Nat.eqb j i); [|done]. injection Hj as <- _. done.
  - eapply Forall_impl; [apply IH|]. cbn. intros [row c] ?. cbn in *. lia.
Qed.

Lemma pick_cell (row i : nat) (cells : list (nat * Cell)) : NoDup cells.*1 ->
  omap (fun ic : nat * Cell => if Nat.eqb (fst ic) i then Some (row, snd ic) else None) cells =
  match cell_at i cells with Some c => [(row, c)] | None => [] end :> list (nat * Cell).
Proof.
  unfold cell_at. induction cells as [|[j c] cells IH]; intros Hnd; [done|]. apply NoDup_cons in Hnd as [Hj Hnd].
  cbn. destruct (Nat.eqb_spec j i) as [->|Hji]; [|by apply IH]. cbn. f_equal. rewrite IH by done.
  destruct (List.find _ cells) as [[k c']|] eqn:Ef; [|done]. apply find_some in Ef as [Hin Hk]. cbn in Hk. apply Nat.eqb_eq in Hk as ->.
  exfalso. apply Hj. apply list_elem_of_fmap. exists (i, c'). split; [done|]. by apply list_elem_of_In.
Qed.

(** The built column holds, row by row, the value of each split. *)
Lemma build_sparse t n splits i : forall next, n = (next + List.length splits)%nat ->
  Forall (fun s : list (nat * Cell) * list Attr => NoDup (fst s).*1 /\ forall c, cell_at i (fst s) = Some c -> cell_fits t c = true) splits ->
  fill_typed t n next (sparse next splits i) = List.map (fun s => cell_at i (fst s)) splits.
Proof.
  induction splits as [|s splits IH]; intros next Hn Hs; cbn [sparse List.map].
  - simpl in Hn. cbn. by replace (n - next)%nat with 0%nat by lia.
  - simpl in Hn. apply Forall_cons in Hs as [[Hnd Hfit] Hs]. rewrite (pick_cell next i (fst s) Hnd).
    destruct (cell_at i (fst s)) as [c|] eqn:Ec; cbn [app].
    + cbn [fill_typed]. rewrite Nat.sub_diag, (Hfit c eq_refl). cbn [replicate app]. f_equal. apply IH; [lia|done].
    + rewrite fill_skip; [|lia|apply sparse_rows]. f_equal. apply IH; [lia|done].
Qed.

Lemma sparse_none splits i : forall next row s, sparse next splits i = [] -> splits !! row = Some s -> cell_at i (fst s) = None.
Proof.
  induction splits as [|s0 splits IH]; intros next row s H Hs; [done|]. cbn [sparse] in H. apply app_eq_nil in H as [H1 H2].
  destruct row as [|row]; [|by apply (IH (S next) row)]. injection Hs as ->. unfold cell_at.
  destruct (List.find _ (fst s)) as [[j c]|] eqn:Ef; [|done]. apply find_some in Ef as [Hin Hj]. exfalso.
  assert ((next, c) ∈ omap (fun ic : nat * Cell => if Nat.eqb (fst ic) i then Some (next, snd ic) else None) (fst s)) as Hm.
  { apply list_elem_of_omap. exists (j, c). split; [by apply list_elem_of_In|]. cbn in *. by rewrite Hj. }
  rewrite H1 in Hm. by apply not_elem_of_nil in Hm.
Qed.

Lemma column_type_roundtrip t : column_type_parse (column_type_str t) = Some t.
Proof. by destruct t. Qed.

Lemma omap_omap {A B C} (f : A -> option B) (g : B -> option C) (l : list A) : omap g (omap f l) = omap (fun a => f a ≫= g) l.
Proof.
  induction l as [|a l IH]; [done|]. cbn. destruct (f a) as [b|]; cbn; [|exact IH]. destruct (g b); cbn; by rewrite <-IH.
Qed.
Lemma omap_ext_in {A B} (f g : A -> option B) (l : list A) : (forall a, a ∈ l -> f a = g a) -> omap f l = omap g l.
Proof.
  induction l as [|a l IH]; intros H; [done|]. cbn. rewrite (H a) by (by left). assert (omap f l = omap g l) as E by (apply IH; intros c ?; apply H; by right).
  cbn in E. by rewrite E.
Qed.

Lemma NoDup_omap_inj {A B} (f : A -> option B) (l : list A) : NoDup l ->
  (forall a b y, a ∈ l -> b ∈ l -> f a = Some y -> f b = Some y -> a = b) -> NoDup (omap f l).
Proof.
  induction l as [|a l IH]; intros Hnd Hf; [constructor|]. apply NoDup_cons in Hnd as [Ha Hnd].
  assert (NoDup (omap f l)) as H by (apply IH; [done|]; intros b c y ? ?; apply Hf; by right).
  cbn in *. destruct (f a) as [y|] eqn:Ey; [|exact H]. constructor; [|exact H].
  change (y ∉ omap f l). intros Hy. apply list_elem_of_omap in Hy as (b & Hb & Hy).
  apply Ha. rewrite (Hf a b y); [done|by left|by right|done|done].
Qed.

Lemma cell_at_in cells i x : NoDup cells.*1 -> (i, x) ∈ cells -> cell_at i cells = Some x.
Proof.
  unfold cell_at. induction cells as [|[j y] cells IH]; intros Hnd Hin; [by apply not_elem_of_nil in Hin|].
  apply NoDup_cons in Hnd as [Hj Hnd]. cbn. destruct (Nat.eqb_spec j i) as [->|Hji].
  - apply elem_of_cons in Hin as [[= ->]|Hin]; [done|]. exfalso. apply Hj. apply list_elem_of_fmap. by exists (i, x).
  - apply elem_of_cons in Hin as [[= -> ->]|Hin]; [done|by apply IH].
Qed.

(** ** Reading back *)

Section Reread.
Context (to_json : list Attr -> string) (from_json : string -> option (list Attr)).
Context (json_safe : Attr -> Prop).
Hypothesis json_reads_back : forall l, Forall json_safe l -> from_json (to_json l) = Some l.

(** What a record is after a trip through a file. *)
Definition reread (l : TypedLayout) (r : LogRecord) : LogRecord :=
  let '(cells, rest) := split_attrs l [] (attributes r) in
  mkRecord (event_id r) (timestamp_unix_nano r) (observed_unix_nano r) (severity r) (severity_text r) (body r) (service r)
    (trace_id r) (span_id r)
    (omap (fun ic => (fun c => mkAttr (key (snd ic)) (replay c)) <$> cell_at (fst ic) cells) (imap (fun i c => (i, c)) (columns l)) ++ rest)
    (template_id r).

(** Ids have their width and the times are below [2 ^ 63] ns (the year 2262). *)
Definition storable (r : LogRecord) : Prop :=
  List.length (event_id r) = 16%nat /\ 0 <= timestamp_unix_nano r < 2 ^ 63 /\ 0 <= observed_unix_nano r < 2 ^ 63 /\
  (forall t, trace_id r = Some t -> List.length t = 16%nat) /\ (forall t, span_id r = Some t -> List.length t = 8%nat).

Lemma reread_typed l records node row r : layout_ok l -> records !! row = Some r ->
  omap (read_typed row) (typed_columns_of (to_record_batch_from to_json records l node)) =
  omap (fun ic => (fun c => mkAttr (key (snd ic)) (replay c)) <$> cell_at (fst ic) (fst (split_attrs l [] (attributes r))))
    (imap (fun i c => (i, c)) (columns l)).
Proof.
  intros Hl Hr. unfold typed_columns_of, to_record_batch_from. cbn [typed_fields]. rewrite !omap_omap.
  set (splits := List.map _ records). assert (splits !! row = Some (split_attrs l [] (attributes r))) as Hs.
  { unfold splits. rewrite list_lookup_fmap. by rewrite Hr. }
  apply omap_ext_in. intros [i c] Hic. apply elem_of_lookup_imap in Hic as (j & c' & Heq & Hc). injection Heq as <- <-. cbn [fst snd].
  assert (forall s, s ∈ splits -> NoDup (fst s).*1 /\ forall x, cell_at i (fst s) = Some x -> cell_fits (ty c) x = true) as Hok.
  { intros s Hin. apply list_elem_of_fmap in Hin as (r0 & -> & _). pose proof (split_attrs_spec l (attributes r0) Hl []) as H.
    destruct (split_attrs l [] (attributes r0)) as [cells rest]. destruct H as (Hnd & _ & Hfit & _). split; [done|].
    intros x Hx. unfold cell_at in Hx. cbn [fst] in Hx. destruct (List.find _ cells) as [[j x']|] eqn:Ef; [|done]. injection Hx as ->.
    apply find_some in Ef as [Hin Hj]. cbn in Hj. apply Nat.eqb_eq in Hj as ->. apply list_elem_of_In in Hin.
    destruct (Hfit _ _ Hin) as (c' & Hc' & ?). congruence. }
  destruct (sparse 0 splits i) as [|rc cells] eqn:Esp.
  - cbn. by rewrite (sparse_none splits i 0 row _ Esp Hs).
  - rewrite <-Esp. cbn [mbind option_bind typed_field tf_key tf_type fst snd]. rewrite column_type_roundtrip.
    cbn [fmap option_fmap option_map mbind option_bind read_typed]. unfold build_typed.
    rewrite (build_sparse (ty c) _ splits i 0); [|unfold splits; by rewrite length_map|by apply Forall_forall].
    rewrite list_lookup_fmap, Hs. cbn [fmap option_fmap option_map].
    destruct (cell_at i _) as [x|] eqn:Ex; [|done]. unfold typed_value.
    destruct (Hok _ (list_elem_of_lookup_2 _ _ _ Hs)) as [_ Hfit]. by rewrite (Hfit x Ex).
Qed.

(** The typed attributes are the split's cells, in another order. *)
Lemma typed_perm cols cells : NoDup cells.*1 -> (forall i x, (i, x) ∈ cells -> is_Some (cols !! i)) ->
  Permutation (omap (fun ic => (fun c => mkAttr (key (snd ic)) (replay c)) <$> cell_at (fst ic) cells) (imap (fun i c => (i, c)) cols))
    (List.map (fun ic => mkAttr (default "" (key <$> cols !! (fst ic))) (replay (snd ic))) cells).
Proof.
  intros Hnd Hin. set (at_ := fun ix : nat * Cell => mkAttr (default "" (key <$> cols !! (fst ix))) (replay (snd ix))).
  assert (omap (fun ic : nat * TypedColumn => (fun c => mkAttr (key (snd ic)) (replay c)) <$> cell_at (fst ic) cells) (imap (fun i c => (i, c)) cols) =
    List.map at_ (omap (fun ic : nat * TypedColumn => (fun x => (fst ic, x)) <$> cell_at (fst ic) cells) (imap (fun i c => (i, c)) cols))) as ->.
  { change (List.map at_) with (fmap (M := list) at_). rewrite list_fmap_omap. apply omap_ext_in. intros [i c] Hic.
    apply elem_of_lookup_imap in Hic as (j & c' & Heq & Hc). injection Heq as <- <-. cbn [fst snd].
    destruct (cell_at i cells); [|done]. cbn. unfold at_. cbn [fst snd]. by rewrite Hc. }
  apply Permutation_map. apply NoDup_Permutation.
  - apply NoDup_omap_inj.
    + apply NoDup_alt. intros i j [k c] Hi Hj. rewrite list_lookup_imap in Hi, Hj.
      destruct (cols !! i); [|done]. destruct (cols !! j); [|done]. cbn in *. congruence.
    + intros [i c] [j d] [k y] Hi Hj Hx Hy. cbn in Hx, Hy. destruct (cell_at i cells); [|done]. destruct (cell_at j cells); [|done].
      cbn in *. simplify_eq. apply elem_of_lookup_imap in Hi as (i' & c' & Ei & Hi). apply elem_of_lookup_imap in Hj as (j' & d' & Ej & Hj).
      congruence.
  - by apply (NoDup_fmap_1 fst).
  - intros [i x]. rewrite list_elem_of_omap. split.
    + intros ([j c] & Hjc & Hx). cbn in Hx. destruct (cell_at j cells) as [y|] eqn:Ey; [|done]. injection Hx as <- <-.
      unfold cell_at in Ey. destruct (List.find _ cells) as [[k y']|] eqn:Ef; [|done]. injection Ey as ->.
      apply find_some in Ef as [Hk He]. apply Nat.eqb_eq in He as <-. by apply list_elem_of_In.
    + intros Hx. destruct (Hin i x Hx) as [c Hc]. exists (i, c). split; [apply elem_of_lookup_imap; by exists i, c|]. cbn.
      by rewrite (cell_at_in cells i x Hnd Hx).
Qed.

Definition same_attr (a b : Attr) : Prop :=
  attr_key b = attr_key a /\
  (attr_value b = attr_value a \/ exists z, attr_value a = AI64 z /\ Z.abs z <= 2 ^ 53 /\ attr_value b = AF64 (f64_of_Z z)).

(** The same record but for the order of its attributes, and integers that
    became the equal float. *)
Definition same_record (r r' : LogRecord) : Prop :=
  r' = mkRecord (event_id r) (timestamp_unix_nano r) (observed_unix_nano r) (severity r) (severity_text r) (body r) (service r)
         (trace_id r) (span_id r) (attributes r') (template_id r) /\
  exists vs, Permutation (attributes r') vs /\ Forall2 same_attr (attributes r) vs.

Lemma reread_same l r : layout_ok l -> same_record r (reread l r).
Proof.
  intros Hl. unfold reread. pose proof (split_attrs_spec l (attributes r) Hl []) as H.
  destruct (split_attrs l [] (attributes r)) as [cells rest]. destruct H as (Hnd & _ & Hfit & vs & Hp & Hvs).
  split; [done|]. exists vs. split; [|exact Hvs]. cbn [attributes]. rewrite typed_perm; [exact Hp|done|].
  intros i x Hx. destruct (Hfit i x Hx) as (c & -> & _). done.
Qed.

Lemma split_rest_in l attrs : forall used a, a ∈ snd (split_attrs l used attrs) -> a ∈ attrs.
Proof.
  induction attrs as [|b attrs IH]; intros used a Ha; [done|]. cbn [split_attrs] in Ha.
  destruct (match index_of l (attr_key b) with Some i => _ | None => None end) as [[i c]|].
  - specialize (IH (used ++ [i]) a). destruct (split_attrs l (used ++ [i]) attrs) as [cells rest]. right. by apply IH.
  - specialize (IH used a). destruct (split_attrs l used attrs) as [cells rest]. cbn [snd] in *.
    apply elem_of_cons in Ha as [->|Ha]; [by left|right; by apply IH].
Qed.

Lemma read_back fresh l records node : layout_ok l -> Forall storable records ->
  Forall (fun r => Forall json_safe (attributes r)) records ->
  from_record_batch from_json fresh (to_record_batch_from to_json records l node) = List.map (reread l) records.
Proof.
  intros Hl Hst Hjs. apply list_eq. intros row. unfold from_record_batch. rewrite list_lookup_imap.
  change (List.map (reread l) records) with (reread l <$> records). rewrite list_lookup_fmap.
  unfold to_record_batch_from at 2. cbn [base_rows]. rewrite lookup_zip_with.
  destruct (records !! row) as [r|] eqn:Er; [|done]. cbn [mbind option_bind].
  change (List.map (fun r => split_attrs l [] (attributes r)) records) with ((fun r => split_attrs l [] (attributes r)) <$> records).
  rewrite list_lookup_fmap, Er. cbn [fmap option_fmap option_map mbind option_bind]. f_equal.
  rewrite Forall_forall in Hst, Hjs. assert (r ∈ records) as Hin by by eapply list_elem_of_lookup_2.
  destruct (Hst r Hin) as (Hid & Hts & Hob & Htr & Hsp). unfold read_row. rewrite (reread_typed l records node row r Hl Er).
  pose proof (split_rest_in l (attributes r) []) as Hrest. unfold reread. specialize (Hjs r Hin).
  destruct (split_attrs l [] (attributes r)) as [cells rest]. cbn [fst snd] in *.
  cbn [base_row b_event_id b_timestamp b_observed b_severity b_severity_text b_body b_service b_trace_id b_span_id b_template_id b_attributes].
  rewrite Hid. cbn [Nat.eqb]. rewrite !wrap_i64_small by (unfold i64_min, i64_max; lia). rewrite !Z.max_r by lia. f_equal.
  - destruct (trace_id r) as [t|] eqn:Et; [|done]. cbn [mbind option_bind]. by rewrite (Htr t eq_refl).
  - destruct (span_id r) as [t|] eqn:Et; [|done]. cbn [mbind option_bind]. by rewrite (Hsp t eq_refl).
  - f_equal. destruct rest as [|a rest]; [done|]. cbn [mbind option_bind]. rewrite json_reads_back; [done|].
    rewrite Forall_forall in Hjs |- *. intros b Hb. by apply Hjs, Hrest.
Qed.

(** C39: a store file gives its records back.  Written with any layout of typed
    columns and read by its own metadata, a batch yields the records in order,
    with every field as it was and every attribute there; only their order
    changes (typed ones first), and an integer of at most [2 ^ 53] in a float
    column comes back as that float. *)
Theorem batch_roundtrip fresh l records node : layout_ok l -> Forall storable records ->
  Forall (fun r => Forall json_safe (attributes r)) records ->
  Forall2 same_record records (from_record_batch from_json fresh (to_record_batch_from to_json records l node)).
Proof.
  intros Hl Hst Hjs. rewrite (read_back fresh l records node Hl Hst Hjs).
  clear Hst Hjs. induction records as [|r records IH]; constructor; [by apply reread_same|done].
Qed.
End Reread.

(** ** Sorting *)

Lemma bytes_leb_total a : forall b, bytes_leb a b = true \/ bytes_leb b a = true.
Proof.
  induction a as [|x a IH]; intros [|y b]; simpl; auto. rewrite (Z.eqb_sym (byte_val y)).
  destruct (Z.eqb_spec (byte_val x) (byte_val y)); [apply IH|]. rewrite !Z.ltb_lt. lia.
Qed.
Lemma bytes_leb_trans a : forall b c, bytes_leb a b = true -> bytes_leb b c = true -> bytes_leb a c = true.
Proof.
  induction a as [|x a IH]; intros [|y b] [|z c]; simpl; try done.
  destruct (Z.eqb_spec (byte_val x) (byte_val y)), (Z.eqb_spec (byte_val y) (byte_val z)), (Z.eqb_spec (byte_val x) (byte_val z));
    rewrite ?Z.ltb_lt; try (intros; lia). apply IH.
Qed.
Lemma bytes_leb_antisym a : forall b, bytes_leb a b = true -> bytes_leb b a = true -> a = b.
Proof.
  induction a as [|x a IH]; intros [|y b]; simpl; try done. rewrite (Z.eqb_sym (byte_val y)).
  destruct (Z.eqb_spec (byte_val x) (byte_val y)) as [E|]; [|rewrite !Z.ltb_lt; intros; exfalso; lia].
  intros. f_equal; [by apply byte_val_inj|by apply IH].
Qed.

Section OptOrder.
Context {A : Type} (le : A -> A -> bool).
Lemma opt_leb_total : (forall x y, le x y = true \/ le y x = true) -> forall a b, opt_leb le a b = true \/ opt_leb le b a = true.
Proof. intros H [x|] [y|]; simpl; auto. Qed.
Lemma opt_leb_trans : (forall x y z, le x y = true -> le y z = true -> le x z = true) ->
  forall a b c, opt_leb le a b = true -> opt_leb le b c = true -> opt_leb le a c = true.
Proof. intros H [x|] [y|] [z|]; simpl; try done. apply H. Qed.
Lemma opt_leb_antisym : (forall x y, le x y = true -> le y x = true -> x = y) ->
  forall a b, opt_leb le a b = true -> opt_leb le b a = true -> a = b.
Proof. intros H [x|] [y|]; simpl; try done. intros. f_equal. by apply H. Qed.
End OptOrder.

(** A lexicographic order of two keys. *)
Section Lex.
Context {A K : Type} `{EqDecision K} (k : A -> K) (le : K -> K -> bool) (rest : A -> A -> bool).
Definition lex (a b : A) : bool := if negb (bool_decide (k a = k b)) then le (k a) (k b) else rest a b.
Hypothesis le_total : forall x y, le x y = true \/ le y x = true.
Hypothesis le_trans : forall x y z, le x y = true -> le y z = true -> le x z = true.
Hypothesis le_antisym : forall x y, le x y = true -> le y x = true -> x = y.
Lemma lex_total : (forall a b, rest a b = true \/ rest b a = true) -> forall a b, lex a b = true \/ lex b a = true.
Proof.
  intros H a b. unfold lex. destruct (decide (k a = k b)) as [e|e].
  - rewrite !bool_decide_eq_true_2 by done. apply H.
  - rewrite !bool_decide_eq_false_2 by congruence. apply le_total.
Qed.
Lemma lex_trans : (forall a b c, rest a b = true -> rest b c = true -> rest a c = true) ->
  forall a b c, lex a b = true -> lex b c = true -> lex a c = true.
Proof.
  intros H a b c. unfold lex. destruct (decide (k a = k b)) as [e1|e1], (decide (k b = k c)) as [e2|e2];
    rewrite ?(bool_decide_eq_true_2 _ e1), ?(bool_decide_eq_false_2 _ e1), ?(bool_decide_eq_true_2 _ e2), ?(bool_decide_eq_false_2 _ e2); cbn [negb].
  - rewrite bool_decide_eq_true_2 by congruence. apply H.
  - rewrite bool_decide_eq_false_2 by congruence. cbn. by rewrite e1.
  - rewrite bool_decide_eq_false_2 by congruence. cbn. by rewrite <-e2.
  - intros H1 H2. rewrite bool_decide_eq_false_2; [by eapply le_trans|]. intros e. rewrite e in H1. by apply e2, le_antisym.
Qed.
Lemma lex_antisym a b : lex a b = true -> lex b a = true -> k a = k b /\ rest a b = true /\ rest b a = true.
Proof.
  unfold lex. destruct (decide (k a = k b)) as [e|e].
  - by rewrite !bool_decide_eq_true_2.
  - rewrite !bool_decide_eq_false_2 by congruence. cbn. intros. by destruct (e (le_antisym _ _ H H0)).
Qed.
End Lex.

Lemma record_leb_lex a b : record_leb a b =
  lex service (opt_leb String.leb) (lex trace_id (opt_leb bytes_leb)
    (lex timestamp_unix_nano Z.leb (fun a b => bytes_leb (event_id a) (event_id b)))) a b.
Proof.
  unfold record_leb, lex. destruct (negb _); [done|]. destruct (negb _); [done|].
  destruct (Z.eqb_spec (timestamp_unix_nano a) (timestamp_unix_nano b)) as [e|e];
    [by rewrite bool_decide_eq_true_2|rewrite bool_decide_eq_false_2 by done]. cbn.
  destruct (Z.ltb_spec (timestamp_unix_nano a) (timestamp_unix_nano b)), (Z.leb_spec (timestamp_unix_nano a) (timestamp_unix_nano b)); lia || done.
Qed.

Lemma record_leb_total a b : record_leb a b = true \/ record_leb b a = true.
Proof.
  rewrite !record_leb_lex. apply lex_total; [apply opt_leb_total, str_leb_total|].
  apply lex_total; [apply opt_leb_total, bytes_leb_total|]. apply lex_total; [intros x y; rewrite !Z.leb_le; lia|]. intros. apply bytes_leb_total.
Qed.
Lemma record_leb_trans a b c : record_leb a b = true -> record_leb b c = true -> record_leb a c = true.
Proof.
  rewrite !record_leb_lex. apply lex_trans; [apply opt_leb_trans, str_leb_trans|apply opt_leb_antisym, String.leb_antisym|].
  apply lex_trans; [apply opt_leb_trans, bytes_leb_trans|apply opt_leb_antisym, bytes_leb_antisym|].
  apply lex_trans; [intros x y z; rewrite !Z.leb_le; lia|intros x y; rewrite !Z.leb_le; lia|]. intros. by eapply bytes_leb_trans.
Qed.
Lemma record_leb_antisym a b : record_leb a b = true -> record_leb b a = true -> event_id a = event_id b.
Proof.
  rewrite !record_leb_lex. intros H1 H2.
  destruct (lex_antisym _ _ _ (opt_leb_antisym _ String.leb_antisym) _ _ H1 H2) as (_ & H3 & H4).
  destruct (lex_antisym _ _ _ (opt_leb_antisym _ bytes_leb_antisym) _ _ H3 H4) as (_ & H5 & H6).
  destruct (lex_antisym timestamp_unix_nano Z.leb _ ltac:(intros x y; rewrite !Z.leb_le; lia) _ _ H5 H6) as (_ & H7 & H8). by apply bytes_leb_antisym.
Qed.

(** The order of a file does not depend on the order its records arrived in. *)
Lemma sort_reproducible a b : Permutation a b -> List.NoDup (List.map event_id a) -> sort_records a = sort_records b.
Proof.
  intros Hp Hnd. unfold sort_records.
  apply (sorted_perm_unique record_leb).
  - apply stable_sort_sorted; [apply record_leb_total|apply record_leb_trans].
  - apply stable_sort_sorted; [apply record_leb_total|apply record_leb_trans].
  - by rewrite !stable_sort_perm.
  - intros x y Hx Hy H1 H2. rewrite stable_sort_perm in Hx, Hy.
    apply (NoDup_map_inj event_id a); [done|by apply list_elem_of_In|by apply list_elem_of_In|by apply record_leb_antisym].
Qed.

(** ** What a float that is not finite costs *)

Section NonFinite.
Context (to_json : list Attr -> string) (from_json : string -> option (list Attr)).
(** [serde_json] writes a float that is not finite as [null], and reads no float from [null]. *)
Hypothesis json_nonfinite : forall l a f, a ∈ l -> attr_value a = AF64 f -> f64_finite f = false -> from_json (to_json l) = None.

(** (finding) one attribute that is not a finite float, which OTLP can send,
    costs a row all its JSON attributes: the text it is written as cannot be
    read back, and a reader (a query, a replay, the next compaction, which then
    writes the loss down) gets the record without any of them. *)
Theorem nan_attribute_loses_the_rest fresh r node a f : storable r -> a ∈ attributes r ->
  attr_value a = AF64 f -> f64_finite f = false ->
  from_record_batch from_json fresh (to_record_batch_from to_json [r] (layout_new []) node) =
    [mkRecord (event_id r) (timestamp_unix_nano r) (observed_unix_nano r) (severity r) (severity_text r) (body r) (service r)
       (trace_id r) (span_id r) [] (template_id r)].
Proof.
  intros (Hid & Hts & Hob & Htr & Hsp) Hin Hv Hf.
  assert (forall used attrs, split_attrs (layout_new []) used attrs = ([], attrs)) as Hsplit.
  { intros used attrs. induction attrs as [|b attrs IH]; [done|]. cbn [split_attrs]. change (index_of (layout_new []) (attr_key b)) with (@None nat).
    by rewrite IH. }
  unfold from_record_batch, to_record_batch_from. cbn [List.map zip_with base_rows imap]. rewrite Hsplit. cbn [snd].
  unfold read_row, base_row. cbn [b_event_id b_timestamp b_observed b_severity b_severity_text b_body b_service b_trace_id b_span_id b_template_id b_attributes].
  rewrite Hid. cbn [Nat.eqb]. rewrite !wrap_i64_small by (unfold i64_min, i64_max; lia). rewrite !Z.max_r by lia. f_equal. f_equal.
  - destruct (trace_id r) as [t|] eqn:Et; [|done]. cbn [mbind option_bind]. by rewrite (Htr t eq_refl).
  - destruct (span_id r) as [t|] eqn:Et; [|done]. cbn [mbind option_bind]. by rewrite (Hsp t eq_refl).
  - destruct (attributes r) as [|b l] eqn:Ea; [by apply not_elem_of_nil in Hin|]. cbn [mbind option_bind].
    by rewrite (json_nonfinite (b :: l) a f Hin Hv Hf).
Qed.
End NonFinite.

(** ** Witnesses *)

(** A codec for lists of two attributes, a letter each. *)
Definition one_attr : Attr := mkAttr "k" (AStr "v").
Definition int_attr : Attr := mkAttr "n" (AI64 7).
Definition toy_letter (a : Attr) : ascii :=
  match attr_value a with
  | AF64 f => if f64_finite f then "x"%char else "0"%char
  | AI64 _ => "y"%char
  | _ => "x"%char
  end.
Definition toy_attr (c : ascii) : Attr := if Ascii.eqb c "y" then int_attr else one_attr.
Definition toy_to_json (l : list Attr) : string := string_of_list_ascii (List.map toy_letter l).
Definition toy_from_json (s : string) : option (list Attr) :=
  let cs := list_ascii_of_string s in
  if existsb (Ascii.eqb "0") cs then None else Some (List.map toy_attr cs).

Lemma toy_reads_back l : Forall (fun a => a = one_attr \/ a = int_attr) l -> toy_from_json (toy_to_json l) = Some l.
Proof.
  unfold toy_from_json, toy_to_json. rewrite list_ascii_of_string_of_list_ascii. intros Hl.
  assert (existsb (Ascii.eqb "0") (List.map toy_letter l) = false /\ List.map toy_attr (List.map toy_letter l) = l) as [-> ->]; [|done].
  induction Hl as [|a l [->| ->] _ [IH1 IH2]]; [done| |]; cbn; rewrite IH1, IH2; done.
Qed.

Lemma toy_nonfinite l a f : a ∈ l -> attr_value a = AF64 f -> f64_finite f = false -> toy_from_json (toy_to_json l) = None.
Proof.
  unfold toy_from_json, toy_to_json. rewrite list_ascii_of_string_of_list_ascii. intros Ha Hv Hf.
  replace (existsb (Ascii.eqb "0") (List.map toy_letter l)) with true; [done|]. symmetry. apply existsb_exists. exists "0"%char.
  split; [|done]. apply in_map_iff. exists a. split; [|by apply list_elem_of_In]. unfold toy_letter. by rewrite Hv, Hf.
Qed.

Definition schema_record (attrs : list Attr) : LogRecord :=
  mkRecord (List.repeat Byte.x01 16) 1700000000000000000 1700000000000000001 ERROR None "boom" (Some "api")
    None (Some (List.repeat Byte.x02 8)) attrs None.
Definition schema_layout : TypedLayout := layout_new [mkColumn "attr_n" "n" CFloat64 "api" 1].

Lemma schema_record_storable attrs : storable (schema_record attrs).
Proof. split_and!; try done. intros t [= <-]. done. Qed.

Lemma batch_roundtrip_witness :
  Forall2 same_record [schema_record [one_attr; int_attr; one_attr]]
    (from_record_batch toy_from_json [] (to_record_batch_from toy_to_json [schema_record [one_attr; int_attr; one_attr]] schema_layout (Some "node-a"))) /\
  List.map attributes (from_record_batch toy_from_json []
    (to_record_batch_from toy_to_json [schema_record [one_attr; int_attr; one_attr]] schema_layout (Some "node-a"))) =
  [[mkAttr "n" (AF64 (f64_of_Z 7)); one_attr; one_attr]].
Proof.
  split; [|vm_compute; reflexivity].
  apply (batch_roundtrip toy_to_json toy_from_json (fun a => a = one_attr \/ a = int_attr) toy_reads_back).
  - apply layout_new_ok.
  - repeat constructor; apply schema_record_storable.
  - constructor; [|constructor]. cbn. constructor; [by left|]. constructor; [by right|]. constructor; [by left|constructor].
Defined.

Lemma nan_attribute_loses_the_rest_witness :
  List.map attributes (from_record_batch toy_from_json []
    (to_record_batch_from toy_to_json [schema_record [one_attr; mkAttr "ratio" (AF64 S754_nan)]] (layout_new []) (Some "node-a"))) = [[]].
Proof.
  rewrite (nan_attribute_loses_the_rest toy_to_json toy_from_json toy_nonfinite [] _ _ (mkAttr "ratio" (AF64 S754_nan)) S754_nan); try done.
  - apply schema_record_storable.
  - right. by left.
Defined.
