(* ===== verification/Catalog.v ===== *)
(** The catalog ([crates/logless-core/src/catalog.rs]): its tables and the
    statements the merger, the compactor and a reader run on them.

    A table is a map from its primary key or a list of its rows, a transaction
    a function; which statement fails is the caller's world ([Store]).  A [u64]
    is stored as the [i64] of the same bits, as the casts of the source do;
    sums stay below [2 ^ 63], past which SQLite leaves the integers. *)

From stdpp Require Import sorting.
From S2P Require Import Prelude Text Float Lists Civil Model Partition Typed Schema.
From S2P Require Drain.
From S2P Require Import Tenancy PartsEdge Retention Budget.
Open Scope string_scope.
Open Scope Z_scope.
Open Scope list_scope.

(** ** Tables *)

Record TemplateSighting := mkSighting {
  ts_tenant : string;
  ts_index : string;
  ts_template_id : Z;
  ts_service : option string;
  ts_rows : Z;
  ts_first : Z;
  ts_last : Z
}.
Record ShapeRow := mkShapeRow { sr_template_id : Z; sr_lineage_id : Z; sr_text : string }.

(** The key of [template_services]: tenant, index, template id as [i64], and
    [(has_service, service)] as an option. *)
Abbreviation SightKey := (string * string * Z * option string)%type.
Record Sighted := mkSighted { sg_rows : Z; sg_first : Z; sg_last : Z }.

Record TemplateRow := mkTemplateRow {
  tr_text : string;
  tr_tokens : string;                (* tab-joined *)
  tr_count : Z;
  tr_first_seen : Z;
  tr_last_seen : Z;
  tr_lineage : option Z              (* NULL before the column was added *)
}.
Record TypedRow := mkTypedRow { ty_column : string; ty_key : string; ty_type : string; ty_service : string; ty_promoted_at : Z }.

Record Db := mkDb {
  files : Budget.Catalog;
  merged_segments : gmap bytes (Z * Z);
  template_services : gmap SightKey Sighted;
  template_shapes : gmap Z (Z * string);
  template_hash_collisions : Z;
  shapes_seeded : bool;
  templates_table : gmap Z TemplateRow;
  typed_table : list TypedRow
}.
Definition db0 : Db := mkDb [] ∅ ∅ ∅ 0 false ∅ [].

Definition set_files (v : Budget.Catalog) (d : Db) : Db :=
  mkDb v (merged_segments d) (template_services d) (template_shapes d) (template_hash_collisions d) (shapes_seeded d) (templates_table d) (typed_table d).
Definition set_merged (v : gmap bytes (Z * Z)) (d : Db) : Db :=
  mkDb (files d) v (template_services d) (template_shapes d) (template_hash_collisions d) (shapes_seeded d) (templates_table d) (typed_table d).
Definition set_services (v : gmap SightKey Sighted) (d : Db) : Db :=
  mkDb (files d) (merged_segments d) v (template_shapes d) (template_hash_collisions d) (shapes_seeded d) (templates_table d) (typed_table d).
Definition set_shapes (v : gmap Z (Z * string)) (d : Db) : Db :=
  mkDb (files d) (merged_segments d) (template_services d) v (template_hash_collisions d) (shapes_seeded d) (templates_table d) (typed_table d).
Definition add_collisions (n : Z) (d : Db) : Db :=
  mkDb (files d) (merged_segments d) (template_services d) (template_shapes d) (template_hash_collisions d + n) (shapes_seeded d) (templates_table d) (typed_table d).
Definition set_seeded (d : Db) : Db :=
  mkDb (files d) (merged_segments d) (template_services d) (template_shapes d) (template_hash_collisions d) true (templates_table d) (typed_table d).
Definition set_templates (v : gmap Z TemplateRow) (d : Db) : Db :=
  mkDb (files d) (merged_segments d) (template_services d) (template_shapes d) (template_hash_collisions d) (shapes_seeded d) v (typed_table d).
Definition set_typed (v : list TypedRow) (d : Db) : Db :=
  mkDb (files d) (merged_segments d) (template_services d) (template_shapes d) (template_hash_collisions d) (shapes_seeded d) (templates_table d) v.

(** ** File rows *)

(** The row already at the path keeps its key and takes the new numbers. *)
Fixpoint upsert_row (f : FileEntry) (rows : Budget.Catalog) : Budget.Catalog :=
  match rows with
  | [] => [f]
  | g :: r => if bool_decide (f_path g = f_path f) then mkEntry (f_path g) (f_key g) (f_stats f) :: r else g :: upsert_row f r
  end.
Definition upsert_file (d : Db) (f : FileEntry) : Db := set_files (upsert_row f (files d)) d.

(** A path as the text it is stored as. *)
Definition path_text (p : path) : string := str_join "/" p.

(** [ORDER BY min_ts, path]. *)
Definition time_leb (a b : FileEntry) : bool :=
  let ta := min_ts_nanos (f_stats a) in
  let tb := min_ts_nanos (f_stats b) in
  if ta =? tb then String.leb (path_text (f_path a)) (path_text (f_path b)) else ta <? tb.

Definition overlaps (tn ix : string) (from_nanos to_nanos : Z) (buckets : option (list string)) (f : FileEntry) : bool :=
  String.eqb (tenant (f_key f)) tn && String.eqb (index (f_key f)) ix &&
  (from_nanos <=? max_ts_nanos (f_stats f)) && (min_ts_nanos (f_stats f) <=? to_nanos) &&
  match buckets with Some l => bool_decide (bucket (f_key f) ∈ l) | None => true end.
Definition files_overlapping (tn ix : string) (from_nanos to_nanos : Z) (buckets : option (list string)) (d : Db) : list FileEntry :=
  stable_sort time_leb (List.filter (overlaps tn ix from_nanos to_nanos buckets) (files d)).

(** ** Merges and compactions *)

Definition upsert_sighting (d : Db) (s : TemplateSighting) : Db :=
  let k : SightKey := (ts_tenant s, ts_index s, wrap_i64 (ts_template_id s), ts_service s) in
  set_services
    (<[k := match template_services d !! k with
            | Some o => mkSighted (sg_rows o + wrap_i64 (ts_rows s)) (Z.min (sg_first o) (ts_first s)) (Z.max (sg_last o) (ts_last s))
            | None => mkSighted (wrap_i64 (ts_rows s)) (ts_first s) (ts_last s)
            end]> (template_services d)) d.

Definition commit_merge (segment_id : Z) (segment_uuid : bytes) (entries : list FileEntry) (sightings : list TemplateSighting)
    (now_unix_secs : Z) (d : Db) : Db :=
  let d := foldl upsert_sighting d sightings in
  let d := foldl upsert_file d entries in
  set_merged (<[segment_uuid := (wrap_i64 segment_id, wrap_i64 now_unix_secs)]> (merged_segments d)) d.

Definition is_segment_merged (segment_uuid : bytes) (d : Db) : bool := bool_decide (is_Some (merged_segments d !! segment_uuid)).

Definition record_compaction (output : FileEntry) (replaced : list path) (d : Db) : Db :=
  let d := upsert_file d output in
  set_files (foldl (fun rows old => List.filter (fun f => negb (bool_decide (f_path f = old))) rows) (files d) replaced) d.

(** ** Shapes *)

Definition register_shape (acc : Db * Z) (s : ShapeRow) : Db * Z :=
  let '(d, collisions) := acc in
  match template_shapes d !! wrap_i64 (sr_template_id s) with
  | None => (set_shapes (<[wrap_i64 (sr_template_id s) := (wrap_i64 (sr_lineage_id s), sr_text s)]> (template_shapes d)) d, collisions)
  | Some (_, text) => if String.eqb text (sr_text s) then (d, collisions) else (d, collisions + 1)
  end.
Definition register_shapes (shapes : list ShapeRow) (d : Db) : Z * Db :=
  let '(d, collisions) := foldl register_shape (d, 0) shapes in
  (collisions, if 0 <? collisions then add_collisions collisions d else d).

Definition knows_shape (template_id : Z) (d : Db) : bool := bool_decide (is_Some (template_shapes d !! wrap_i64 template_id)).

(** Rows in the order of their [i64] key. *)
Definition by_id {A} (a b : Z * A) : bool := fst a <=? fst b.
Definition ordered {A} (m : gmap Z A) : list (Z * A) := stable_sort by_id (map_to_list m).

Definition seed_shapes (d : Db) : Db :=
  if shapes_seeded d then d
  else
    let insert m (row : Z * TemplateRow) :=
      let hash := wrap_i64 (Drain.fingerprint_of (tr_text (snd row))) in
      match m !! hash with
      | Some _ => m
      | None => <[hash := (default 0 (tr_lineage (snd row)), tr_text (snd row))]> m
      end in
    set_seeded (set_shapes (foldl insert (template_shapes d) (ordered (templates_table d))) d).

(** ** Templates *)

Definition set_lineage (l : Z) (t : TemplateRow) : TemplateRow :=
  mkTemplateRow (tr_text t) (tr_tokens t) (tr_count t) (tr_first_seen t) (tr_last_seen t) (Some l).

Definition migrate_one (acc : gmap Z TemplateRow * gset Z) (row : Z * TemplateRow) : gmap Z TemplateRow * gset Z :=
  let '(m, used) := acc in
  let '(id, t) := row in
  let lineage := wrap_i64 (Drain.fingerprint_of (tr_text t)) in
  let lineage :=
    if bool_decide (lineage ∈ used)
    then wrap_i64 (Drain.fingerprint_of (String.append (tr_text t) (String.append Drain.unit_separator (show_Z id))))
    else lineage in
  (<[id := set_lineage lineage t]> m, {[lineage]} ∪ used).

Definition migrate_lineage (d : Db) : Db :=
  let missing := List.filter (fun row => bool_decide (tr_lineage (snd row) = None)) (ordered (templates_table d)) in
  let used := list_to_set (omap (fun row => tr_lineage (snd row)) (map_to_list (templates_table d))) in
  set_templates (fst (foldl migrate_one (templates_table d, used) missing)) d.

Definition tab : string := String (ascii_of_N 9) EmptyString.

Definition save_template (d : Db) (t : Drain.Template) : Db :=
  let id := wrap_i64 (Drain.t_id t) in
  let row := mkTemplateRow (Drain.text t) (str_join tab (Drain.tokens t)) (wrap_i64 (Drain.count t))
               (wrap_i64 (Drain.first_seen_unix_secs t)) (wrap_i64 (Drain.last_seen_unix_secs t)) (Some (wrap_i64 (Drain.lineage_id t))) in
  set_templates
    (<[id := match templates_table d !! id with
             | Some old => mkTemplateRow (tr_text row) (tr_tokens row) (tr_count row) (tr_first_seen old) (tr_last_seen row) (tr_lineage old)
             | None => row
             end]> (templates_table d)) d.
Definition save_templates (ts : list Drain.Template) (d : Db) : Db := foldl save_template d ts.

(** A NULL lineage is a type error of the row. *)
Definition load_template (row : Z * TemplateRow) : option Drain.Template :=
  lineage ← tr_lineage (snd row);
  Some (Drain.mkTemplate (wrap64 (fst row)) (split_char (ascii_of_N 9) (tr_tokens (snd row))) (wrap64 (tr_count (snd row)))
          (wrap64 (tr_first_seen (snd row))) (wrap64 (tr_last_seen (snd row))) (wrap64 lineage)).
Definition load_templates (d : Db) : option (list Drain.Template) := mapM load_template (ordered (templates_table d)).

(** ** Typed columns *)

Definition typed_layout (d : Db) : TypedLayout :=
  layout_new (omap (fun r => (fun t => mkColumn (ty_column r) (ty_key r) t (ty_service r) (Z.max 0 (ty_promoted_at r))) <$> column_type_parse (ty_type r))
                (typed_table d)).

Definition register_typed_column (d : Db) (c : TypedColumn) : Db :=
  if existsb (fun r => String.eqb (ty_column r) (column c) || String.eqb (ty_key r) (key c)) (typed_table d) then d
  else set_typed (typed_table d ++ [mkTypedRow (column c) (key c) (column_type_str (ty c)) (col_service c) (wrap_i64 (promoted_at c))]) d.
Definition register_typed_columns (cs : list TypedColumn) (d : Db) : Db := foldl register_typed_column d cs.

(** ** The dictionary *)

Record DictionaryEntry := mkDictEntry {
  de_tenant : string;
  de_index : string;
  de_template_id : Z;
  de_service : option string;
  de_text : string;
  de_lineage_id : Z;
  de_rows : Z;
  de_first : Z;
  de_last : Z
}.

Definition sight_leb (a b : SightKey * Sighted) : bool :=
  let '((ta, ia, na, sa), _) := a in
  let '((tb, ib, nb, sb), _) := b in
  if negb (String.eqb ta tb) then String.leb ta tb
  else if negb (String.eqb ia ib) then String.leb ia ib
  else if negb (na =? nb) then na <? nb
  else opt_leb String.leb sa sb.

Definition sightings_of (d : Db) : list (SightKey * Sighted) := stable_sort sight_leb (map_to_list (template_services d)).

(** The join: a sighting whose hash has no text is left out. *)
Definition dict_entry (d : Db) (row : SightKey * Sighted) : option DictionaryEntry :=
  let '((tn, ix, id, svc), s) := row in
  '(lineage, text) ← template_shapes d !! id;
  Some (mkDictEntry tn ix (wrap64 id) svc text (wrap64 lineage) (wrap64 (sg_rows s)) (sg_first s) (sg_last s)).
Definition template_dictionary (d : Db) : list DictionaryEntry := omap (dict_entry d) (sightings_of d).

Definition same_scope (a b : string * string) : bool := String.eqb (fst a) (fst b) && String.eqb (snd a) (snd b).
Definition dictionary_scopes (d : Db) : list (string * string) :=
  dedup same_scope (List.map (fun e => (de_tenant e, de_index e)) (template_dictionary d)).

Record ShapeHistoryEntry := mkHistory {
  he_tenant : string;
  he_index : string;
  he_lineage_id : Z;
  he_template_id : Z;
  he_text : string;
  he_rows : Z;
  he_first : Z;
  he_last : Z
}.

(** [GROUP BY tenant, idx, template_id]; the rows come sorted by the three. *)
Definition same_shape (a b : SightKey * Sighted) : bool :=
  let '((ta, ia, na, _), _) := a in
  let '((tb, ib, nb, _), _) := b in
  String.eqb ta tb && String.eqb ia ib && (na =? nb).
Definition add_sighted (a b : Sighted) : Sighted :=
  mkSighted (sg_rows a + sg_rows b) (Z.min (sg_first a) (sg_first b)) (Z.max (sg_last a) (sg_last b)).
Fixpoint group_shapes (rows : list (SightKey * Sighted)) : list (SightKey * Sighted) :=
  match rows with
  | [] => []
  | a :: r =>
      match group_shapes r with
      | b :: g => if same_shape a b then (fst a, add_sighted (snd a) (snd b)) :: g else a :: b :: g
      | [] => [a]
      end
  end.

Definition history_leb (a b : Z * ShapeHistoryEntry) : bool :=
  let '(na, x) := a in
  let '(nb, y) := b in
  if negb (String.eqb (he_tenant x) (he_tenant y)) then String.leb (he_tenant x) (he_tenant y)
  else if negb (String.eqb (he_index x) (he_index y)) then String.leb (he_index x) (he_index y)
  else if negb (wrap_i64 (he_lineage_id x) =? wrap_i64 (he_lineage_id y)) then wrap_i64 (he_lineage_id x) <? wrap_i64 (he_lineage_id y)
  else if negb (he_first x =? he_first y) then he_first x <? he_first y
  else na <=? nb.
Definition history_entry (d : Db) (row : SightKey * Sighted) : option (Z * ShapeHistoryEntry) :=
  let '((tn, ix, id, _), s) := row in
  '(lineage, text) ← template_shapes d !! id;
  Some (id, mkHistory tn ix (wrap64 lineage) (wrap64 id) text (wrap64 (sg_rows s)) (sg_first s) (sg_last s)).
Definition shape_history (d : Db) : list ShapeHistoryEntry :=
  List.map snd (stable_sort history_leb (omap (history_entry d) (group_shapes (sightings_of d)))).

Definition replace_sightings (sightings : list TemplateSighting) (d : Db) : Db := foldl upsert_sighting (set_services ∅ d) sightings.

(** [sort_by] the count, most seen first, then [truncate]. *)
Definition top_templates (limit : nat) (d : Db) : option (list Drain.Template) :=
  (fun all => take limit (stable_sort (fun a b => Drain.count b <=? Drain.count a) all)) <$> load_templates d.

Definition counter_to_hash (d : Db) : gmap Z Z :=
  list_to_map (List.map (fun row => (wrap64 (fst row), Drain.fingerprint_of (tr_text (snd row)))) (map_to_list (templates_table d))).

(** ** Reading a time range *)

(** The row's numbers cover the record: its instant is within the file's span
    and the file is in the record's partition. *)
Record holds (lb : LevelBuckets) (f : FileEntry) (r : LogRecord) : Prop := {
  h_after : min_ts_nanos (f_stats f) <= timestamp_unix_nano r;
  h_before : timestamp_unix_nano r <= max_ts_nanos (f_stats f);
  h_bucket : lb_name <$> bucket_for lb (severity r) = Some (bucket (f_key f))
}.

Lemma time_leb_spec a b : time_leb a b = true <->
  min_ts_nanos (f_stats a) < min_ts_nanos (f_stats b) \/
  min_ts_nanos (f_stats a) = min_ts_nanos (f_stats b) /\ String.leb (path_text (f_path a)) (path_text (f_path b)) = true.
Proof.
  unfold time_leb. destruct (Z.eqb_spec (min_ts_nanos (f_stats a)) (min_ts_nanos (f_stats b))) as [e|e].
  - split; [by right|]. intros [?|[_ ?]]; [exfalso; lia|done].
  - rewrite Z.ltb_lt. split; [by left|]. intros [?|[? _]]; [done|exfalso; lia].
Qed.
Lemma time_leb_total a b : time_leb a b = true \/ time_leb b a = true.
Proof.
  rewrite !time_leb_spec. destruct (str_leb_total (path_text (f_path a)) (path_text (f_path b))),
    (Z.lt_total (min_ts_nanos (f_stats a)) (min_ts_nanos (f_stats b))) as [?|[?|?]]; auto.
Qed.
Lemma time_leb_trans a b c : time_leb a b = true -> time_leb b c = true -> time_leb a c = true.
Proof.
  rewrite !time_leb_spec. pose proof (str_leb_trans (path_text (f_path a)) (path_text (f_path b)) (path_text (f_path c))).
  intuition lia.
Qed.

Lemma overlapping_elem tn ix from_nanos to_nanos bucket_names d f :
  f ∈ files_overlapping tn ix from_nanos to_nanos bucket_names d <-> f ∈ files d /\ overlaps tn ix from_nanos to_nanos bucket_names f = true.
Proof. unfold files_overlapping. rewrite stable_sort_perm, !list_elem_of_In. apply filter_In. Qed.

Lemma range_read_opens bs lb tn ix from_nanos to_nanos s d f r : level_buckets_new bs = inr lb -> 0 <= s ->
  f ∈ files d -> tenant (f_key f) = tn -> index (f_key f) = ix -> holds lb f r ->
  from_nanos <= timestamp_unix_nano r <= to_nanos -> s <= severity r ->
  f ∈ files_overlapping tn ix from_nanos to_nanos (Some (names_from lb s)) d.
Proof.
  intros Hlb Hs Hf Ht Hi [Ha Hb Hk] Hr Hsev. apply overlapping_elem. split; [done|]. unfold overlaps.
  rewrite Ht, Hi, !String.eqb_refl. cbn [andb]. destruct (bucket_for lb (severity r)) as [b|] eqn:Eb; [|done]. injection Hk as Hk.
  rewrite (proj2 (Z.leb_le _ _)), (proj2 (Z.leb_le _ _)) by lia. cbn [andb]. apply bool_decide_eq_true.
  rewrite list_elem_of_In. apply (names_from_spec bs lb s Hlb Hs). exists (severity r), b. by split_and!.
Qed.

(** A read of [from..to] at a severity and up plans exactly the files it
    needs: every file that holds a record of the tenant and index in that range
    and severity is in the plan, everything in the plan overlaps the range in a
    bucket such a record can be in, each file is there once, oldest data first. *)
Theorem range_reads_complete bs lb tn ix from_nanos to_nanos s d :
  level_buckets_new bs = inr lb -> 0 <= s ->
  let plan := files_overlapping tn ix from_nanos to_nanos (Some (names_from lb s)) d in
  (forall f r, f ∈ files d -> tenant (f_key f) = tn -> index (f_key f) = ix -> holds lb f r ->
     from_nanos <= timestamp_unix_nano r <= to_nanos -> s <= severity r -> f ∈ plan) /\
  (forall f, f ∈ plan -> f ∈ files d /\ from_nanos <= max_ts_nanos (f_stats f) /\ min_ts_nanos (f_stats f) <= to_nanos /\
     exists s' b, s <= s' /\ bucket_for lb s' = Some b /\ lb_name b = bucket (f_key f)) /\
  (List.NoDup (files d) -> List.NoDup plan) /\ sorted_by time_leb plan.
Proof.
  intros Hlb Hs plan. pose proof (names_from_spec bs lb s Hlb Hs) as Hnames.
  split_and!.
  - intros f r ? ? ? ? ? ?. by apply (range_read_opens bs lb _ _ _ _ s d f r).
  - intros f [Hf Ho]%overlapping_elem. unfold overlaps in Ho. apply andb_true_iff in Ho as [Ho Hb]. apply andb_true_iff in Ho as [Ho H2].
    apply andb_true_iff in Ho as [_ H1]. rewrite Z.leb_le in H1, H2. apply bool_decide_eq_true in Hb.
    rewrite list_elem_of_In in Hb. apply Hnames in Hb as (s' & b & ? & ? & ?). split_and!; try done. by exists s', b.
  - intros Hnd. unfold plan, files_overlapping. rewrite stable_sort_perm. by apply List.NoDup_filter.
  - apply stable_sort_sorted; [apply time_leb_total|apply time_leb_trans].
Qed.

(** ** Templates written and read *)

Lemma wrap64_i64 z : u64_range z -> wrap64 (wrap_i64 z) = z.
Proof.
  unfold u64_range, wrap64, wrap, wrap_i64, u64_max. intros Hz.
  rewrite <-Zminus_mod_idemp_l, Zmod_mod, Zminus_mod_idemp_l. replace (z + 2 ^ 63 - 2 ^ 63) with z by lia.
  apply Z.mod_small. lia.
Qed.

Lemma wrap_i64_inj a b : u64_range a -> u64_range b -> wrap_i64 a = wrap_i64 b -> a = b.
Proof. intros Ha Hb He. rewrite <-(wrap64_i64 a Ha), <-(wrap64_i64 b Hb). by rewrite He. Qed.

(** Words of a masked line: at least one, none with a tab. *)
Definition no_tab (s : string) : bool := str_all (fun c => negb (Ascii.eqb (ascii_of_N 9) c)) s.
Record template_ok (t : Drain.Template) : Prop := {
  to_id : u64_range (Drain.t_id t);
  to_count : u64_range (Drain.count t);
  to_first : u64_range (Drain.first_seen_unix_secs t);
  to_last : u64_range (Drain.last_seen_unix_secs t);
  to_lineage : u64_range (Drain.lineage_id t);
  to_words : Drain.tokens t <> [];
  to_no_tab : Forall (fun w => no_tab w = true) (Drain.tokens t)
}.

Lemma split_join ws : ws <> [] -> Forall (fun w => no_tab w = true) ws -> split_char (ascii_of_N 9) (str_join tab ws) = ws.
Proof.
  induction ws as [|w ws IH]; intros Hne Hws; [done|]. apply Forall_cons in Hws as [Hw Hws].
  destruct ws as [|w' ws]; cbn [str_join].
  - by apply split_on_none.
  - unfold split_char, tab in *. cbn [String.append]. rewrite split_on_app; [|exact Hw|done]. f_equal. by apply IH.
Qed.

Definition row_of (t : Drain.Template) : Z * TemplateRow :=
  (wrap_i64 (Drain.t_id t),
   mkTemplateRow (Drain.text t) (str_join tab (Drain.tokens t)) (wrap_i64 (Drain.count t))
     (wrap_i64 (Drain.first_seen_unix_secs t)) (wrap_i64 (Drain.last_seen_unix_secs t)) (Some (wrap_i64 (Drain.lineage_id t)))).

Lemma load_row t : template_ok t -> load_template (row_of t) = Some t.
Proof.
  intros [? ? ? ? ? ? ?]. unfold load_template, row_of. cbn [snd tr_lineage tr_tokens tr_count tr_first_seen tr_last_seen mbind option_bind fst].
  rewrite split_join by done. rewrite !wrap64_i64 by done. by destruct t.
Qed.

(** The table's row of a template this process has saved before, or none. *)
Definition known_as (m : gmap Z TemplateRow) (t : Drain.Template) : Prop :=
  forall old, m !! wrap_i64 (Drain.t_id t) = Some old ->
    tr_first_seen old = wrap_i64 (Drain.first_seen_unix_secs t) /\ tr_lineage old = Some (wrap_i64 (Drain.lineage_id t)).

Lemma save_template_row d t : known_as (templates_table d) t ->
  templates_table (save_template d t) = <[fst (row_of t) := snd (row_of t)]> (templates_table d).
Proof.
  intros Hk. unfold save_template, row_of. cbn [templates_table set_templates fst snd]. f_equal.
  destruct (templates_table d !! wrap_i64 (Drain.t_id t)) as [old|] eqn:Eo; [|done]. destruct (Hk old Eo) as [-> ->]. done.
Qed.

Lemma save_templates_lookup ts : forall d, Forall template_ok ts -> List.NoDup (List.map Drain.t_id ts) ->
  Forall (known_as (templates_table d)) ts -> forall k,
  templates_table (save_templates ts d) !! k =
    match List.find (fun t => wrap_i64 (Drain.t_id t) =? k) ts with
    | Some t => Some (snd (row_of t))
    | None => templates_table d !! k
    end.
Proof.
  induction ts as [|t ts IH]; intros d Hok Hnd Hk k; [done|]. cbn [save_templates foldl List.find].
  apply Forall_cons in Hok as [Ht Hok]. apply Forall_cons in Hk as [Hkt Hk]. cbn [List.map] in Hnd. inversion Hnd as [|? ? Hnin Hnd']; subst.
  assert (forall u, In u ts -> wrap_i64 (Drain.t_id u) <> wrap_i64 (Drain.t_id t)) as Hne.
  { intros u Hu He. apply Hnin. apply wrap_i64_inj in He; [rewrite <-He; by apply in_map| |apply Ht].
    rewrite Forall_forall in Hok. apply Hok. by apply list_elem_of_In. }
  rewrite (IH (save_template d t) Hok Hnd').
  - rewrite (save_template_row d t Hkt). unfold row_of. cbn [fst snd]. destruct (Z.eqb_spec (wrap_i64 (Drain.t_id t)) k) as [He|He].
    + destruct (List.find _ ts) as [u|] eqn:Ef; [|by rewrite <-He, lookup_insert_eq].
      apply find_some in Ef as [Hu Huk]. apply Z.eqb_eq in Huk. exfalso. apply (Hne u Hu). congruence.
    + destruct (List.find _ ts); [done|]. by rewrite lookup_insert_ne.
  - rewrite Forall_forall in Hk |- *. intros u Hu old. rewrite (save_template_row d t Hkt). unfold row_of. cbn [fst snd].
    rewrite lookup_insert_ne; [by apply Hk|]. intros He. apply (Hne u); [by apply list_elem_of_In|done].
Qed.

Lemma ordered_elem {A} (m : gmap Z A) k a : (k, a) ∈ ordered m <-> m !! k = Some a.
Proof. unfold ordered. rewrite stable_sort_perm. apply elem_of_map_to_list. Qed.

(** The miner's templates survive the catalog: after [save_templates],
    [load_templates] succeeds and returns exactly the templates saved, as they
    were, and the rows of the table that were not saved over. *)
Theorem saved_templates_load ts d : Forall template_ok ts -> List.NoDup (List.map Drain.t_id ts) ->
  Forall (known_as (templates_table d)) ts -> (forall k row, templates_table d !! k = Some row -> tr_lineage row <> None) ->
  exists loaded, load_templates (save_templates ts d) = Some loaded /\
    forall t, t ∈ loaded <-> t ∈ ts \/ exists k row, templates_table d !! k = Some row /\
                                (forall u, u ∈ ts -> wrap_i64 (Drain.t_id u) <> k) /\ load_template (k, row) = Some t.
Proof.
  intros Hok Hnd Hk Hlin. pose proof (save_templates_lookup ts d Hok Hnd Hk) as Hl. set (m := templates_table (save_templates ts d)) in *.
  assert (Forall (fun row => is_Some (load_template row)) (ordered m)) as Hall.
  { apply Forall_forall. intros [k row] Hin%ordered_elem. rewrite Hl in Hin. unfold load_template. cbn [snd].
    destruct (List.find _ ts) as [t|]; [injection Hin as <-; by eexists|].
    specialize (Hlin _ _ Hin). destruct (tr_lineage row); [by eexists|done]. }
  apply mapM_is_Some_2 in Hall as [loaded Hloaded]. exists loaded. split; [done|].
  apply mapM_Some_1 in Hloaded as Hf.
  assert (forall t, t ∈ loaded <-> exists k row, m !! k = Some row /\ load_template (k, row) = Some t) as Hin.
  { intros t. split.
    - intros Ht. apply list_elem_of_lookup in Ht as [i Hi]. destruct (Forall2_lookup_r _ _ _ _ _ Hf Hi) as ([k row] & Hr & Hload).
      exists k, row. split; [|done]. apply ordered_elem. by eapply list_elem_of_lookup_2.
    - intros (k & row & Hm & Hload). apply ordered_elem, list_elem_of_lookup in Hm as [i Hi].
      destruct (Forall2_lookup_l _ _ _ _ _ Hf Hi) as (t' & Ht' & Hload'). simplify_eq. by eapply list_elem_of_lookup_2. }
  intros t. rewrite Hin. split.
    + intros (k & row & Hm & Hload). rewrite Hl in Hm. destruct (List.find _ ts) as [u|] eqn:Ef.
      * apply find_some in Ef as [Hu Huk]. apply Z.eqb_eq in Huk as <-. assert (row = snd (row_of u)) as -> by congruence.
        change (wrap_i64 (Drain.t_id u), snd (row_of u)) with (row_of u) in Hload. rewrite load_row in Hload.
        -- injection Hload as ->. left. by apply list_elem_of_In.
        -- rewrite Forall_forall in Hok. apply Hok. by apply list_elem_of_In.
      * right. exists k, row. split_and!; [done| |done]. intros u Hu He. pose proof (find_none _ _ Ef u) as Hn.
        rewrite Z.eqb_neq in Hn. apply Hn; [by apply list_elem_of_In|done].
    + intros [Ht|(k & row & Hm & Hne & Hload)].
      * exists (wrap_i64 (Drain.t_id t)), (snd (row_of t)). rewrite Hl. split.
        -- destruct (List.find _ ts) as [u|] eqn:Ef.
           ++ apply find_some in Ef as [Hu Huk]. apply Z.eqb_eq in Huk. f_equal. f_equal. f_equal.
              apply (NoDup_map_inj Drain.t_id ts); [done|done|by apply list_elem_of_In|]. rewrite Forall_forall in Hok.
              apply wrap_i64_inj; [apply Hok; by apply list_elem_of_In|by apply Hok|done].
           ++ exfalso. pose proof (find_none _ _ Ef t) as Hn. rewrite Z.eqb_neq in Hn. apply Hn; [by apply list_elem_of_In|done].
        -- change (wrap_i64 (Drain.t_id t), snd (row_of t)) with (row_of t). apply load_row. rewrite Forall_forall in Hok. by apply Hok.
      * exists k, row. split; [|done]. rewrite Hl. destruct (List.find _ ts) as [u|] eqn:Ef; [|done].
        apply find_some in Ef as [Hu Huk]. apply Z.eqb_eq in Huk. exfalso. by apply (Hne u); [apply list_elem_of_In|].
Qed.

(** ** The registry of typed columns *)

Record registry_ok (d : Db) : Prop := {
  ro_names : List.NoDup (List.map ty_column (typed_table d));
  ro_keys : List.NoDup (List.map ty_key (typed_table d));
  ro_types : Forall (fun r => is_Some (column_type_parse (ty_type r))) (typed_table d)
}.

Definition column_of (r : TypedRow) : option TypedColumn :=
  (fun t => mkColumn (ty_column r) (ty_key r) t (ty_service r) (Z.max 0 (ty_promoted_at r))) <$> column_type_parse (ty_type r).

Definition name_leb (a b : TypedColumn) : bool := str_le (column a) (column b).

Lemma dedup_distinct {A B} (f : A -> B) (same : A -> A -> bool) l :
  (forall a b, same a b = true -> f a = f b) -> List.NoDup (List.map f l) -> dedup same l = l.
Proof.
  intros Hs. destruct l as [|a l]; [done|]. cbn [List.map dedup]. intros Hnd. f_equal. revert a Hnd.
  induction l as [|b l IH]; intros a Hnd; [done|]. cbn [dedup_from List.map] in *. inversion Hnd as [|? ? Ha Hnd']; subst.
  destruct (same a b) eqn:E; [exfalso; apply Ha; left; symmetry; by apply Hs|]. f_equal. by apply IH.
Qed.

(** The layout of distinct names is those columns, whatever their order. *)
Lemma layout_new_distinct cols : List.NoDup (List.map column cols) -> columns (layout_new cols) = stable_sort name_leb cols.
Proof.
  intros Hnd. unfold layout_new. cbn [columns]. apply (dedup_distinct column).
  - intros a b E. by apply String.eqb_eq in E.
  - eapply Permutation_NoDup; [|exact Hnd]. apply Permutation_map. by rewrite stable_sort_perm.
Qed.

Lemma layout_new_perm a b : List.NoDup (List.map column a) -> Permutation a b -> layout_new a = layout_new b.
Proof.
  intros Hnd Hp. assert (columns (layout_new a) = columns (layout_new b)) as He.
  { assert (List.NoDup (List.map column b)) as Hnd' by (eapply Permutation_NoDup; [|exact Hnd]; by apply Permutation_map).
    rewrite !layout_new_distinct by done.
    assert (forall x y, name_leb x y = true \/ name_leb y x = true) as Ht by (intros; apply str_leb_total).
    assert (forall x y z, name_leb x y = true -> name_leb y z = true -> name_leb x z = true) as Htr by (intros ? ? ?; apply str_leb_trans).
    apply (sorted_perm_unique name_leb); [by apply stable_sort_sorted|by apply stable_sort_sorted|by rewrite !stable_sort_perm|].
    intros x y Hx Hy H1 H2. rewrite stable_sort_perm in Hx, Hy. apply (NoDup_map_inj column a); [done|by apply list_elem_of_In|by apply list_elem_of_In|].
    by apply String.leb_antisym. }
  unfold layout_new in *. cbn [columns] in He. f_equal; [exact He|by rewrite He].
Qed.

Lemma register_new p : forall d,
  (forall c r, In c p -> In r (typed_table d) -> ty_column r <> column c /\ ty_key r <> key c) ->
  List.NoDup (List.map column p) -> List.NoDup (List.map key p) ->
  typed_table (register_typed_columns p d) =
    typed_table d ++ List.map (fun c => mkTypedRow (column c) (key c) (column_type_str (ty c)) (col_service c) (wrap_i64 (promoted_at c))) p.
Proof.
  induction p as [|c p IH]; intros d Hnew Hc Hk; [by rewrite app_nil_r|]. cbn [List.map] in *.
  inversion Hc as [|? ? Hcn Hc']; subst. inversion Hk as [|? ? Hkn Hk']; subst. cbn [register_typed_columns foldl].
  unfold register_typed_column at 2. destruct (existsb _ _) eqn:E.
  { apply existsb_exists in E as (r & Hr & E). destruct (Hnew c r ltac:(by left) Hr). apply orb_true_iff in E as [E|E]; by apply String.eqb_eq in E. }
  change (foldl register_typed_column ?x p) with (register_typed_columns p x). rewrite IH; [cbn [typed_table set_typed]; by rewrite <-app_assoc| |done|done].
  cbn [typed_table set_typed]. intros x r Hx [Hr|[<-|[]]]%in_app_or; [apply Hnew; [by right|done]|]. cbn. split; intros e.
  - apply Hcn. rewrite e. by apply in_map.
  - apply Hkn. rewrite e. by apply in_map.
Qed.

Lemma columns_of_table rows : Forall (fun r => is_Some (column_type_parse (ty_type r))) rows ->
  List.map column (omap column_of rows) = List.map ty_column rows /\ List.map key (omap column_of rows) = List.map ty_key rows.
Proof.
  induction 1 as [|r rows [t Hr] _ [IH1 IH2]]; [done|].
  assert (omap column_of (r :: rows) = mkColumn (ty_column r) (ty_key r) t (ty_service r) (Z.max 0 (ty_promoted_at r)) :: omap column_of rows) as ->
    by (cbn; unfold column_of at 1; by rewrite Hr). cbn [List.map column key]. by rewrite IH1, IH2.
Qed.

(** What a promotion adds to the registry is what the merger adds to the
    layout it writes files with: after [register_typed_columns] of a plan the
    registry still has one row per column and per key, every earlier row is
    where it was, and reading the registry back gives the extended layout. *)
Theorem promotion_registers records config now d : registry_ok d -> 0 <= now < 2 ^ 63 ->
  let p := Typed.plan records (typed_layout d) config now in
  registry_ok (register_typed_columns p d) /\
  typed_layout (register_typed_columns p d) = layout_extend (typed_layout d) p /\
  exists added, typed_table (register_typed_columns p d) = typed_table d ++ added /\ List.length added = List.length p.
Proof.
  intros [Hn Hk Ht] Hnow p. destruct (plan_selection records (typed_layout d) config now) as (s & Hs & [_ Hf Hd _ Hm Hat] & _).
  rewrite Hs in *. fold p in Hf, Hd, Hm, Hat. set (cols := omap column_of (typed_table d)).
  assert (List.map column cols = List.map ty_column (typed_table d) /\ List.map key cols = List.map ty_key (typed_table d)) as [Hcols Hckeys].
  { by apply columns_of_table. }
  assert (List.NoDup (List.map column cols)) as Hcnd by by rewrite Hcols.
  assert (forall c, In c (columns (typed_layout d)) <-> In c cols) as Hin.
  { intros c. change (typed_layout d) with (layout_new cols). rewrite layout_new_distinct by done. rewrite <-!list_elem_of_In. by rewrite stable_sort_perm. }
  assert (forall c r, In c p -> In r (typed_table d) -> ty_column r <> column c /\ ty_key r <> key c) as Hnew.
  { intros c r Hc Hr. split; intros e.
    - apply (Hf c Hc). rewrite <-e. assert (In (ty_column r) (List.map column cols)) as (x & <- & Hx)%in_map_iff.
      { rewrite Hcols. by apply in_map. } apply in_map. by apply Hin.
    - assert (In (ty_key r) (List.map key cols)) as (x & Hx & Hxc)%in_map_iff by (rewrite Hckeys; by apply in_map).
      apply (index_of_none cols (key c)) with x; [exact (plan_new_keys _ _ _ _ _ Hc)|by apply Hin|congruence]. }
  assert (List.NoDup (List.map key p)) as Hkp.
  { clear -Hd Hm. induction p as [|c p IH]; cbn in *; [constructor|]. inversion Hd as [|? ? Hc Hd']; subst. constructor; [|apply IH; [done|]; intros; apply Hm; by right].
    intros (x & Hx & Hxp)%in_map_iff. apply Hc. pose proof (Hm c (or_introl eq_refl)) as Ec. pose proof (Hm x (or_intror Hxp)) as Ex.
    rewrite Hx, Ec in Ex. injection Ex as ->. by apply in_map. }
  pose proof (register_new p d Hnew Hd Hkp) as Hreg. set (added := List.map _ p) in Hreg.
  assert (omap column_of added = p) as Hadd.
  { unfold added. rewrite omap_map, (omap_all _ id); [apply map_id|]. apply Forall_forall. intros c Hc. apply list_elem_of_In in Hc.
    unfold column_of. cbn. rewrite column_type_roundtrip. cbn. rewrite (Hat c Hc). rewrite wrap_i64_small by (unfold i64_min, i64_max; lia).
    rewrite Z.max_r by lia. pose proof (Hat c Hc). destruct c; cbn in *. by subst. }
  assert (List.map ty_column added = List.map column p /\ List.map ty_key added = List.map key p) as [Han Hak] by (unfold added; rewrite !map_map; done).
  split_and!.
  - constructor; rewrite Hreg, ?map_app.
    + rewrite Han. apply NoDup_app_maps; [done|done|]. intros r c Hr Hc. by apply Hnew.
    + rewrite Hak. apply NoDup_app_maps; [done|done|]. intros r c Hr Hc. by apply Hnew.
    + apply Forall_app. split; [done|]. apply Forall_forall. intros r Hr. apply list_elem_of_In, in_map_iff in Hr as (c & <- & _).
      cbn. rewrite column_type_roundtrip. by eexists.
  - unfold typed_layout at 1. rewrite Hreg. fold column_of. change (omap (fun r => _) ?x) with (omap column_of x). rewrite omap_app, Hadd. fold cols.
    unfold layout_extend. apply layout_new_perm.
    + rewrite map_app, Hcols. apply NoDup_app_maps; [done|done|]. intros r c Hr Hc. by apply Hnew.
    + apply Permutation_app_tail. change (typed_layout d) with (layout_new cols). rewrite layout_new_distinct by done. by rewrite stable_sort_perm.
  - exists added. split; [done|]. unfold added. by rewrite length_map.
Qed.

(** ** Witnesses *)

Definition catalog_file (bucket_ : string) (lo hi : Z) : FileEntry :=
  mkEntry ["store"; bucket_; show_Z lo] (mkKey "default" "default" 3 bucket_ "n1") (mkStats 2 100 lo hi lo hi).
Definition catalog_db : Db := set_files [catalog_file "info" 5 9; catalog_file "warn_plus" 1 6; catalog_file "warn_plus" 20 30] db0.
Definition catalog_record : LogRecord := mkRecord [] 6 6 17 None "boom" None None None [] None.

Lemma range_reads_complete_witness :
  let plan := files_overlapping "default" "default" 4 8 (Some (names_from level_buckets_default 17)) catalog_db in
  plan = [catalog_file "warn_plus" 1 6] /\ catalog_file "warn_plus" 1 6 ∈ plan.
Proof.
  split; [vm_compute; reflexivity|].
  pose proof (range_reads_complete level_buckets_default level_buckets_default "default" "default" 4 8 17 catalog_db
    ltac:(vm_compute; reflexivity) ltac:(lia)) as H. cbv zeta in H. destruct H as [H _].
  apply (H _ catalog_record); [right; by left|done|done| |cbn; lia|cbn; lia].
  constructor; [cbn; lia|cbn; lia|vm_compute; reflexivity].
Defined.

Definition catalog_template (id : Z) (ws : list string) : Drain.Template := Drain.mkTemplate id ws 3 100 (100 + id) 7.

Lemma saved_templates_load_witness :
  load_templates (save_templates [catalog_template 2 ["login"; "<NUM>"]; catalog_template 1 ["boom"]] db0) =
    Some [catalog_template 1 ["boom"]; catalog_template 2 ["login"; "<NUM>"]] /\
  exists loaded, load_templates (save_templates [catalog_template 2 ["login"; "<NUM>"]] db0) = Some loaded /\ catalog_template 2 ["login"; "<NUM>"] ∈ loaded.
Proof.
  split; [vm_compute; reflexivity|].
  destruct (saved_templates_load [catalog_template 2 ["login"; "<NUM>"]] db0) as (l & Hl & Hin).
  - constructor; [|constructor]. constructor; try (cbn; unfold u64_range, u64_max; lia); [done|]. repeat constructor.
  - repeat constructor. intros [].
  - constructor; [|constructor]. intros old Ho. discriminate Ho.
  - intros k row Hr. change (templates_table db0) with (∅ : gmap Z TemplateRow) in Hr. by rewrite lookup_empty in Hr.
  - exists l. split; [exact Hl|]. apply Hin. left. by left.
Defined.

Definition catalog_promotion : list LogRecord :=
  List.repeat (mkRecord [] 1 1 9 None "x" (Some "api") None None [mkAttr "latency" (AI64 7)] None) 3.

Lemma promotion_registers_witness :
  let p := Typed.plan catalog_promotion (typed_layout db0) (mkTypedConfig 8 64 2 (f64_dec 5 1) (f64_dec 5 1) 64) 50 in
  List.map column p = ["attr_latency"] /\ columns (typed_layout (register_typed_columns p db0)) = p.
Proof.
  split; [vm_compute; reflexivity|].
  pose proof (promotion_registers catalog_promotion (mkTypedConfig 8 64 2 (f64_dec 5 1) (f64_dec 5 1) 64) 50 db0) as H. cbv zeta in H.
  destruct H as (_ & -> & _); [constructor; constructor|lia|]. vm_compute. reflexivity.
Defined.
