(* ===== verification/World.v ===== *)
(** What the merger and the compactor work on: a log directory, the store's
    files, the catalog and the template miner; and what may happen to each of
    their effects.

    An effect (a file created, renamed, removed, a transaction committed, a file
    read) is done, fails with nothing changed, or the process dies in front of
    it.  The world holds the outcomes to come; once they are used up everything
    is done.  A file that was renamed into place and a transaction that was
    committed stay: a lost page cache is not modelled here ([Wal] does that for
    the log). *)

From S2P Require Import Prelude Lists Partition Typed Schema Files.
From S2P Require Wal Drain.
From S2P Require Import Budget Catalog.
Open Scope Z_scope.
Open Scope list_scope.

(** ** The store's files *)

(** A Parquet file: its rows and typed columns, the tenant, index and node of
    its footer, and the typed columns the footer declares. *)
Record Parquet := mkParquet { p_batch : Batch; p_scope : option (string * string * string); p_typed : list TypedColumn }.

(** Rows of the exported dictionary and shape history ([template_dict.rs]). *)
Record DictRow := mkDictRow {
  dr_template_id : Z;
  dr_service : option string;
  dr_text : string;
  dr_count : Z;
  dr_first_micros : Z;
  dr_last_micros : Z;
  dr_lineage_id : Z
}.
Record HistoryRow := mkHistoryRow {
  hr_lineage_id : Z;
  hr_template_id : Z;
  hr_text : string;
  hr_count : Z;
  hr_first_micros : Z;
  hr_last_micros : Z
}.
Inductive MetaFile := DictFile (rows : list DictRow) | HistoryFile (rows : list HistoryRow).

Record Disk := mkDisk {
  parquet : gmap path Parquet;       (* the [.parquet] files *)
  meta : gmap path MetaFile;         (* the [.pq] files *)
  temps : gset path                  (* the [.tmp] files *)
}.

(** ** Outcomes *)

Inductive Outcome := Done | Fails | Dies.
#[export] Instance Outcome_eq_dec : EqDecision Outcome.
Proof. solve_decision. Defined.

Inductive Err := WalErr (e : Wal.WalError) | StoreErr (p : path) | CatalogErr | DictErr (p : path).
(** Why a pass ends before its end: an error, a death, a panic. *)
Inductive Stop := Failed (e : Err) | Died | Panics.

Record World := mkWorld { w_wal : Dir; w_disk : Disk; w_db : Db; w_miner : Drain.Drain }.
Definition set_wal (v : Dir) (w : World) : World := mkWorld v (w_disk w) (w_db w) (w_miner w).
Definition set_disk (v : Disk) (w : World) : World := mkWorld (w_wal w) v (w_db w) (w_miner w).
Definition set_db (v : Db) (w : World) : World := mkWorld (w_wal w) (w_disk w) v (w_miner w).
Definition set_miner (v : Drain.Drain) (w : World) : World := mkWorld (w_wal w) (w_disk w) (w_db w) v.

(** A computation over the world and the outcomes to come. *)
Definition M (A : Type) : Type := SE (World * list Outcome) Stop A.

Definition look {A} (f : World -> A) : M A := gets (fun s => f (fst s)).
Definition update (f : World -> World) : M unit := modify (fun s => (f (fst s), snd s)).
Definition take_outcome : M Outcome := fun s =>
  match snd s with
  | [] => (inr Done, s)
  | o :: r => (inr o, (fst s, r))
  end.

(** An effect whose error is returned. *)
Definition effect (e : Err) (f : World -> World) : M unit :=
  o ← take_outcome;
  match o with
  | Done => update f
  | Fails => fail (Failed e)
  | Dies => fail Died
  end.

(** An effect whose error is only noticed: [.is_ok()]. *)
Definition attempt (f : World -> World) : M bool :=
  o ← take_outcome;
  match o with
  | Done => _ ← update f; mret true
  | Fails => mret false
  | Dies => fail Died
  end.

(** The value of a call that may have failed. *)
Definition catch {A} (m : M A) : M (Err + A) := fun s =>
  match m s with
  | (inl (Failed e), s') => (inr (inl e), s')
  | (inl x, s') => (inl x, s')
  | (inr a, s') => (inr (inr a), s')
  end.

Fixpoint each {A B} (f : B -> A -> M B) (l : list A) (acc : B) : M B :=
  match l with
  | [] => mret acc
  | a :: r => acc ← f acc a; each f r acc
  end.

Definition or_stop {A} (e : Stop) (o : option A) : M A := match o with Some a => mret a | None => fail e end.

(** ** Triples

    [P] before, [Q] after a return, [X] after a stop.  [C] may say that no effect
    fails: then a computation only stops for a reason in [ok]. *)

Definition quiet (os : list Outcome) : Prop := Forall (eq Done) os.

Definition triple {A} (C : Prop) (ok : Stop -> Prop) (P : World -> Prop) (m : M A) (Q : A -> World -> Prop) (X : World -> Prop) : Prop :=
  forall w os, (C -> quiet os) -> P w ->
    match m (w, os) with
    | (inr a, (w', os')) => Q a w' /\ (C -> quiet os')
    | (inl e, (w', os')) => X w' /\ (C -> ok e)
    end.

Section Rules.
Context (C : Prop) (ok : Stop -> Prop) (X : World -> Prop).

Lemma triple_ret {A} (a : A) (Q : A -> World -> Prop) : triple C ok (Q a) (mret a) Q X.
Proof. by intros w os Hc Hw. Qed.

(** A value computed from values already there. *)
Lemma triple_value {A} (a : A) (P : World -> Prop) (Q : A -> World -> Prop) : (forall w, P w -> Q a w) -> triple C ok P (mret a) Q X.
Proof. intros H w os Hc Hw. cbn. auto. Qed.

Lemma triple_bind {A B} P (m : M A) (k : A -> M B) R Q :
  triple C ok P m R X -> (forall a, triple C ok (R a) (k a) Q X) -> triple C ok P (m ≫= k) Q X.
Proof.
  intros Hm Hk w os Hc Hw. specialize (Hm w os Hc Hw). unfold mbind, SE_bind.
  destruct (m (w, os)) as [[e|a] [w' os']]; [done|]. destruct Hm as [HR Hq]. exact (Hk a w' os' Hq HR).
Qed.

Lemma triple_weaken {A} (P P' : World -> Prop) (m : M A) (Q Q' : A -> World -> Prop) (X' : World -> Prop) :
  triple C ok P' m Q' X' -> (forall w, P w -> P' w) -> (forall a w, Q' a w -> Q a w) -> (forall w, X' w -> X w) -> triple C ok P m Q X.
Proof.
  intros Hm HP HQ HX w os Hc Hw. specialize (Hm w os Hc (HP w Hw)).
  destruct (m (w, os)) as [[e|a] [w' os']]; destruct Hm; auto.
Qed.

Lemma triple_look {A} P (f : World -> A) : triple C ok P (look f) (fun a w => P w /\ a = f w) X.
Proof. by intros w os Hc Hw. Qed.

Lemma triple_update (P Q : World -> Prop) (f : World -> World) : (forall w, P w -> Q (f w)) -> triple C ok P (update f) (fun _ => Q) X.
Proof. intros H w os Hc Hw. cbn. auto. Qed.

Lemma not_quiet o os : (C -> quiet (o :: os)) -> o <> Done -> ~ C.
Proof. intros Hq Ho Hc. specialize (Hq Hc). inversion Hq; congruence. Qed.
Lemma quiet_tail o os : (C -> quiet (o :: os)) -> C -> quiet os.
Proof. intros Hq Hc. specialize (Hq Hc). by inversion Hq. Qed.

Lemma triple_effect (P Q : World -> Prop) e f : (forall w, P w -> Q (f w)) -> (forall w, P w -> X w) -> triple C ok P (effect e f) (fun _ => Q) X.
Proof.
  intros HQ HX w os Hc Hw. unfold effect, mbind, SE_bind, take_outcome. cbn [fst snd]. destruct os as [|[] os]; cbn.
  - auto.
  - split; [auto|by apply (quiet_tail Done)].
  - split; [auto|]. intros HC. by destruct (not_quiet _ _ Hc ltac:(done)).
  - split; [auto|]. intros HC. by destruct (not_quiet _ _ Hc ltac:(done)).
Qed.

Lemma triple_attempt (P : World -> Prop) (Q : bool -> World -> Prop) f :
  (forall w, P w -> Q true (f w)) -> (forall w, P w -> ~ C -> Q false w) -> (forall w, P w -> X w) -> triple C ok P (attempt f) Q X.
Proof.
  intros HQ HQ' HX w os Hc Hw. unfold attempt, mbind, SE_bind, take_outcome. cbn [fst snd]. destruct os as [|[] os]; cbn.
  - auto.
  - split; [auto|by apply (quiet_tail Done)].
  - split; [apply HQ'; [done|by apply (not_quiet _ _ Hc)]|by apply (quiet_tail Fails)].
  - split; [auto|]. intros HC. by destruct (not_quiet _ _ Hc ltac:(done)).
Qed.

Lemma triple_stop {A} P e (o : option A) : (forall w, P w -> o = None -> X w /\ ok e) ->
  triple C ok P (or_stop e o) (fun a w => P w /\ o = Some a) X.
Proof. intros HX w os Hc Hw. unfold or_stop. destruct o; [done|]. cbn. destruct (HX w Hw eq_refl). auto. Qed.

(** The invariant may say what is left to do. *)
Lemma triple_each {A B} (I : list A -> B -> World -> Prop) (f : B -> A -> M B) l : forall acc,
  (forall a r b, triple C ok (I (a :: r) b) (f b a) (I r) X) -> triple C ok (I l acc) (each f l acc) (I []) X.
Proof.
  induction l as [|a l IH]; intros acc Hf; cbn [each]; [by apply (triple_ret acc)|].
  eapply triple_bind; [apply Hf|]. intros b. by apply IH.
Qed.
End Rules.

(** A call whose errors are only noticed leaves what it did before its error. *)
Lemma triple_catch {A} (C : Prop) (ok : Stop -> Prop) P (m : M A) Q (X : World -> Prop) :
  triple C (fun e => match e with Failed _ => False | _ => ok e end) P m Q X ->
  triple C ok P (catch m) (fun r w => match r with inr a => Q a w | inl _ => X w end) X.
Proof.
  intros Hm w os Hc Hw. specialize (Hm w os Hc Hw). unfold catch. destruct (m (w, os)) as [[[e| |]|a] [w' os']]; destruct Hm as [? Hq]; auto.
  split; [done|]. intros HC. by destruct (Hq HC).
Qed.
