(* ===== verification/Store.v ===== *)
(** The store's files ([crates/logless-core/src/store.rs]): their names, what
    their footers say, how one is written, and the listings; and the catalog
    rebuilt from them ([catalog.rs]).

    A Parquet file is its batch and footer; how many bytes it takes is a
    parameter, and the statistics the writer keeps of an integer column are the
    least and the greatest value of the column. *)

From stdpp Require Import sorting.
From S2P Require Import Prelude Text Lists Partition Model Typed Schema Files.
From S2P Require Wal Drain.
From S2P Require Import PartsEdge Budget Catalog World.
Open Scope string_scope.
Open Scope Z_scope.
Open Scope list_scope.

(** [Uuid::simple]: two lower-case digits per byte. *)
Definition hex_digit (n : Z) : ascii := ascii_of_N (Z.to_N (if n <? 10 then 48 + n else 87 + n)).
Fixpoint simple (uuid : bytes) : string :=
  match uuid with
  | [] => ""
  | b :: r => String (hex_digit (byte_val b / 16)) (String (hex_digit (byte_val b mod 16)) (simple r))
  end.

Definition file_name_for_segment (segment_id : Z) (segment_uuid : bytes) : string :=
  String "s" (String.append (pad0 12 segment_id) (String "-" (String.append (str_take 12 (simple segment_uuid)) ".parquet"))).

(** ** Footers *)

Definition base_columns : list string :=
  ["event_id"; "timestamp"; "observed"; "severity"; "severity_text"; "body"; "service"; "trace_id"; "span_id"; "template_id"; "attributes"; "origin"].

Definition has_field (b : Batch) (name : string) : bool :=
  bool_decide (name ∈ base_columns ++ List.map (fun f => tf_name (fst f)) (typed_fields b)).

Fixpoint least (z : Z) (l : list Z) : Z := match l with [] => z | x :: r => least (Z.min z x) r end.
Fixpoint greatest (z : Z) (l : list Z) : Z := match l with [] => z | x :: r => greatest (Z.max z x) r end.

(** The range over a column, [(0, 0)] for no rows. *)
Definition column_range (l : list Z) : Z * Z :=
  match l with [] => (0, 0) | _ => (least i64_max l, greatest i64_min l) end.

Section Store.
Context (to_json : list Attr -> string) (parquet_size : Parquet -> Z).

Definition stats_of (f : Parquet) : FileStats :=
  let rows := base_rows (p_batch f) in
  let '(lo, hi) := column_range (List.map b_timestamp rows) in
  let '(olo, ohi) := column_range (List.map b_observed rows) in
  mkStats (Z.of_nat (List.length rows)) (parquet_size f) lo hi olo ohi.

(** The file [write_partition_file_sized] makes of records at a path. *)
Definition parquet_file (p : path) (records : list LogRecord) (l : TypedLayout) : Parquet :=
  let key := key_of_path p in
  let batch := to_record_batch_from to_json records l (node <$> key) in
  mkParquet batch ((fun k => (tenant k, index k, node k)) <$> key) (List.filter (fun c => has_field batch (column c)) (columns l)).

(** [with_extension("parquet.tmp")] of a [.parquet] path. *)
Definition tmp_path (p : path) : path := removelast p ++ [String.append (List.last p "") ".tmp"].

Definition add_temp (p : path) (w : World) : World :=
  set_disk (mkDisk (parquet (w_disk w)) (meta (w_disk w)) ({[tmp_path p]} ∪ temps (w_disk w))) w.
Definition rename_parquet (p : path) (f : Parquet) (w : World) : World :=
  set_disk (mkDisk (<[p := f]> (parquet (w_disk w))) (meta (w_disk w)) (temps (w_disk w) ∖ {[tmp_path p]})) w.

(** The footer of the file at the path; a file that is not there is an error. *)
Definition read_file_stats (p : path) : M FileStats :=
  _ ← effect (StoreErr p) id;
  f ← look (fun w => parquet (w_disk w) !! p);
  f ← or_stop (Failed (StoreErr p)) f;
  mret (stats_of f).

Definition read_typed_columns (p : path) : M (list TypedColumn) :=
  _ ← effect (StoreErr p) id;
  f ← look (fun w => parquet (w_disk w) !! p);
  f ← or_stop (Failed (StoreErr p)) f;
  mret (p_typed f).

(** The temporary file is created, written and synced, renamed; then the footer
    of the new file is read. *)
Definition write_partition_file_with (p : path) (records : list LogRecord) (l : TypedLayout) : M FileStats :=
  _ ← effect (StoreErr p) (add_temp p);
  _ ← effect (StoreErr p) id;
  _ ← effect (StoreErr p) (rename_parquet p (parquet_file p records l));
  read_file_stats p.

(** ** Listings *)

Definition list_parquet_files (d : Disk) : list path := stable_sort path_leb (List.map fst (map_to_list (parquet d))).

Definition drop_temp (p : path) (w : World) : World :=
  set_disk (mkDisk (parquet (w_disk w)) (meta (w_disk w)) (temps (w_disk w) ∖ {[p]})) w.

(** How many temporary files could be removed. *)
Definition clean_temp_files : M Z :=
  ps ← look (fun w => elements (temps (w_disk w)));
  each (fun n p => ok ← attempt (drop_temp p); mret (if (ok : bool) then n + 1 else n)) ps 0.

(** ** The catalog from the files *)

Definition rebuild_one (acc : list FileEntry * list TypedColumn) (p : path) : M (list FileEntry * list TypedColumn) :=
  match key_of_path p with
  | None => mret acc
  | Some key =>
      stats ← read_file_stats p;
      typed ← read_typed_columns p;
      mret (fst acc ++ [mkEntry p key stats], snd acc ++ typed)
  end.

Definition change_db (f : Db -> Db) (w : World) : World := set_db (f (w_db w)) w.

Definition rebuild : M Z :=
  ps ← look (fun w => list_parquet_files (w_disk w));
  acc ← each rebuild_one ps ([], []);
  _ ← effect CatalogErr (change_db (register_typed_columns (snd acc)));
  _ ← effect CatalogErr (change_db (fun d => foldl upsert_file (set_files [] d) (fst acc)));
  mret (Z.of_nat (List.length (fst acc))).

(** Writing a file of the store. *)
Lemma write_file_triple (C : Prop) (ok : Stop -> Prop) (X P Q : World -> Prop) p records l :
  (forall w, P w -> P (add_temp p w)) ->
  (forall w, P w -> Q (rename_parquet p (parquet_file p records l) w)) ->
  (forall w, Q w -> parquet (w_disk w) !! p = Some (parquet_file p records l)) ->
  (forall w, P w -> X w) -> (forall w, Q w -> X w) ->
  triple C ok P (write_partition_file_with p records l) (fun st w => Q w /\ st = stats_of (parquet_file p records l)) X.
Proof.
  intros Ht Hr Hin HP HQ. unfold write_partition_file_with, read_file_stats.
  eapply triple_bind; [apply (triple_effect C ok X P P); eauto|]. intros []. cbv beta.
  eapply triple_bind; [apply (triple_effect C ok X P P); eauto|]. intros []. cbv beta.
  eapply triple_bind; [apply (triple_effect C ok X P Q); eauto|]. intros []. cbv beta.
  eapply triple_bind; [apply (triple_effect C ok X Q Q); eauto|]. intros []. cbv beta.
  eapply triple_bind; [apply (triple_look C ok X)|]. intros f. cbv beta.
  eapply triple_bind; [apply (triple_stop C ok X)|].
  - intros w [Hw ->] Hn. rewrite Hin in Hn by done. done.
  - intros x w os Hquiet [[Hw ->] Hx]. cbn. rewrite Hin in Hx by done. injection Hx as <-. done.
Qed.

End Store.
