(* ===== verification/TemplateDict.v ===== *)
(** The exported template dictionary and shape history
    ([crates/logless-core/src/template_dict.rs]): one file of each per tenant,
    index and writer, rewritten whole from the catalog. *)

From stdpp Require Import sorting.
From S2P Require Import Prelude Lists Partition Files.
From S2P Require Import Budget Catalog World Store.
Open Scope string_scope.
Open Scope Z_scope.
Open Scope list_scope.

Definition META_DIR : string := "_meta".
Definition DICT_DIR : string := "templates".
Definition HISTORY_DIR : string := "shape_history".

Definition meta_dir (store_dir : path) (tenant index : string) : path :=
  store_dir ++ [String.append "tenant=" tenant; String.append "index=" index; META_DIR].
Definition writer_file (node : string) : string := String.append "writer=" (String.append node ".pq").
Definition dict_path (store_dir : path) (tenant index node : string) : path :=
  meta_dir store_dir tenant index ++ [DICT_DIR; writer_file node].
Definition history_path (store_dir : path) (tenant index node : string) : path :=
  meta_dir store_dir tenant index ++ [HISTORY_DIR; writer_file node].

(** ** Rows *)

Definition scope : Type := string * string.

(** [div_euclid] by 1000. *)
Definition micros (nanos : Z) : Z := nanos / 1000.

Definition rows_from_catalog (d : Db) : list (scope * DictRow) :=
  List.map (fun e => ((de_tenant e, de_index e),
    mkDictRow (de_template_id e) (de_service e) (de_text e) (de_rows e) (micros (de_first e)) (micros (de_last e)) (de_lineage_id e)))
    (template_dictionary d).
Definition history_from_catalog (d : Db) : list (scope * HistoryRow) :=
  List.map (fun e => ((he_tenant e, he_index e),
    mkHistoryRow (he_lineage_id e) (he_template_id e) (he_text e) (he_rows e) (micros (he_first e)) (micros (he_last e))))
    (shape_history d).

(** The [BTreeMap] of scopes: sorted, each once. *)
Definition scope_leb (a b : scope) : bool :=
  if String.eqb (fst a) (fst b) then String.leb (snd a) (snd b) else String.leb (fst a) (fst b).
Definition scopes {A B} (rows : list (scope * A)) (history : list (scope * B)) : list scope :=
  dedup same_scope (stable_sort scope_leb (List.map fst rows ++ List.map fst history)).
Definition of_scope {A} (s : scope) (rows : list (scope * A)) : list A :=
  omap (fun r => if same_scope (fst r) s then Some (snd r) else None) rows.

(** ** Writing *)

Record ExportReport := mkExport { ex_rows : Z; ex_history_rows : Z; ex_files : Z; ex_bytes : Z }.

Section Exporting.
Context (meta_size : MetaFile -> Z) (store_dir : path) (node : string).

(** [.<name>.tmp] next to the file. *)
Definition hidden_path (p : path) : path := removelast p ++ [String "." (String.append (List.last p "writer.pq") ".tmp")].

Definition add_hidden (p : path) (w : World) : World :=
  set_disk (mkDisk (parquet (w_disk w)) (meta (w_disk w)) ({[hidden_path p]} ∪ temps (w_disk w))) w.
Definition rename_meta (p : path) (f : MetaFile) (w : World) : World :=
  set_disk (mkDisk (parquet (w_disk w)) (<[p := f]> (meta (w_disk w))) (temps (w_disk w) ∖ {[hidden_path p]})) w.

Definition write_meta (p : path) (f : MetaFile) : M Z :=
  _ ← effect (DictErr p) (add_hidden p);
  _ ← effect (DictErr p) id;
  _ ← effect (DictErr p) (rename_meta p f);
  _ ← effect (DictErr p) id;
  mret (meta_size f).

Definition write_scope (rows : list (scope * DictRow)) (history : list (scope * HistoryRow)) (r : ExportReport) (s : scope) : M ExportReport :=
  let ds := of_scope s rows in
  let hs := of_scope s history in
  b1 ← write_meta (dict_path store_dir (fst s) (snd s) node) (DictFile ds);
  b2 ← write_meta (history_path store_dir (fst s) (snd s) node) (HistoryFile hs);
  mret (mkExport (ex_rows r + Z.of_nat (List.length ds)) (ex_history_rows r + Z.of_nat (List.length hs)) (ex_files r + 1) (ex_bytes r + b1 + b2)).

Definition write_all (rows : list (scope * DictRow)) (history : list (scope * HistoryRow)) : M ExportReport :=
  each (write_scope rows history) (scopes rows history) (mkExport 0 0 0 0).

Definition export : M ExportReport :=
  _ ← effect CatalogErr id;
  rows ← look (fun w => rows_from_catalog (w_db w));
  _ ← effect CatalogErr id;
  history ← look (fun w => history_from_catalog (w_db w));
  write_all rows history.

(** Some scope of the catalog's dictionary has no file. *)
Definition missing : M bool :=
  _ ← effect CatalogErr id;
  look (fun w => existsb (fun s => bool_decide (meta (w_disk w) !! dict_path store_dir (fst s) (snd s) node = None)) (dictionary_scopes (w_db w))).

End Exporting.
