(* ===== verification/Merge.v ===== *)
(** The merge of log segments into the store
    ([crates/logless-core/src/merge.rs]). *)

From stdpp Require Import sorting.
From S2P Require Import Prelude Text Lists Partition Model Typed Schema Files.
From S2P Require Wal Drain.
From S2P Require Import Tenancy PartsEdge Retention Budget Catalog World Store TemplateDict.
Open Scope string_scope.
Open Scope Z_scope.
Open Scope list_scope.

Record MergeReport := mkMerge {
  segments_merged : Z;
  segments_skipped : Z;
  mg_records : Z;
  files_written : Z;
  mg_bytes_written : Z;
  wal_bytes_freed : Z;
  mg_truncated : Z;
  temp_files_cleaned : Z;
  templated : Z;
  mg_untemplated : Z;
  new_templates : Z;
  dictionary_rows : option Z;
  dictionary_error : option Err;
  columns_promoted : Z;
  index_rerouted : Z
}.
Definition merge_default : MergeReport := mkMerge 0 0 0 0 0 0 0 0 0 0 0 None None 0 0.

Definition add_segments_merged (n : Z) (r : MergeReport) : MergeReport :=
  mkMerge (segments_merged r + n) (segments_skipped r) (mg_records r) (files_written r) (mg_bytes_written r) (wal_bytes_freed r) (mg_truncated r) (temp_files_cleaned r) (templated r) (mg_untemplated r) (new_templates r) (dictionary_rows r) (dictionary_error r) (columns_promoted r) (index_rerouted r).
Definition add_segments_skipped (n : Z) (r : MergeReport) : MergeReport :=
  mkMerge (segments_merged r) (segments_skipped r + n) (mg_records r) (files_written r) (mg_bytes_written r) (wal_bytes_freed r) (mg_truncated r) (temp_files_cleaned r) (templated r) (mg_untemplated r) (new_templates r) (dictionary_rows r) (dictionary_error r) (columns_promoted r) (index_rerouted r).
Definition add_mg_records (n : Z) (r : MergeReport) : MergeReport :=
  mkMerge (segments_merged r) (segments_skipped r) (mg_records r + n) (files_written r) (mg_bytes_written r) (wal_bytes_freed r) (mg_truncated r) (temp_files_cleaned r) (templated r) (mg_untemplated r) (new_templates r) (dictionary_rows r) (dictionary_error r) (columns_promoted r) (index_rerouted r).
Definition add_files_written (n : Z) (r : MergeReport) : MergeReport :=
  mkMerge (segments_merged r) (segments_skipped r) (mg_records r) (files_written r + n) (mg_bytes_written r) (wal_bytes_freed r) (mg_truncated r) (temp_files_cleaned r) (templated r) (mg_untemplated r) (new_templates r) (dictionary_rows r) (dictionary_error r) (columns_promoted r) (index_rerouted r).
Definition add_mg_bytes_written (n : Z) (r : MergeReport) : MergeReport :=
  mkMerge (segments_merged r) (segments_skipped r) (mg_records r) (files_written r) (mg_bytes_written r + n) (wal_bytes_freed r) (mg_truncated r) (temp_files_cleaned r) (templated r) (mg_untemplated r) (new_templates r) (dictionary_rows r) (dictionary_error r) (columns_promoted r) (index_rerouted r).
Definition add_wal_bytes_freed (n : Z) (r : MergeReport) : MergeReport :=
  mkMerge (segments_merged r) (segments_skipped r) (mg_records r) (files_written r) (mg_bytes_written r) (wal_bytes_freed r + n) (mg_truncated r) (temp_files_cleaned r) (templated r) (mg_untemplated r) (new_templates r) (dictionary_rows r) (dictionary_error r) (columns_promoted r) (index_rerouted r).
Definition add_mg_truncated (n : Z) (r : MergeReport) : MergeReport :=
  mkMerge (segments_merged r) (segments_skipped r) (mg_records r) (files_written r) (mg_bytes_written r) (wal_bytes_freed r) (mg_truncated r + n) (temp_files_cleaned r) (templated r) (mg_untemplated r) (new_templates r) (dictionary_rows r) (dictionary_error r) (columns_promoted r) (index_rerouted r).
Definition add_templated (n : Z) (r : MergeReport) : MergeReport :=
  mkMerge (segments_merged r) (segments_skipped r) (mg_records r) (files_written r) (mg_bytes_written r) (wal_bytes_freed r) (mg_truncated r) (temp_files_cleaned r) (templated r + n) (mg_untemplated r) (new_templates r) (dictionary_rows r) (dictionary_error r) (columns_promoted r) (index_rerouted r).
Definition add_mg_untemplated (n : Z) (r : MergeReport) : MergeReport :=
  mkMerge (segments_merged r) (segments_skipped r) (mg_records r) (files_written r) (mg_bytes_written r) (wal_bytes_freed r) (mg_truncated r) (temp_files_cleaned r) (templated r) (mg_untemplated r + n) (new_templates r) (dictionary_rows r) (dictionary_error r) (columns_promoted r) (index_rerouted r).
Definition add_new_templates (n : Z) (r : MergeReport) : MergeReport :=
  mkMerge (segments_merged r) (segments_skipped r) (mg_records r) (files_written r) (mg_bytes_written r) (wal_bytes_freed r) (mg_truncated r) (temp_files_cleaned r) (templated r) (mg_untemplated r) (new_templates r + n) (dictionary_rows r) (dictionary_error r) (columns_promoted r) (index_rerouted r).
Definition add_columns_promoted (n : Z) (r : MergeReport) : MergeReport :=
  mkMerge (segments_merged r) (segments_skipped r) (mg_records r) (files_written r) (mg_bytes_written r) (wal_bytes_freed r) (mg_truncated r) (temp_files_cleaned r) (templated r) (mg_untemplated r) (new_templates r) (dictionary_rows r) (dictionary_error r) (columns_promoted r + n) (index_rerouted r).
Definition add_index_rerouted (n : Z) (r : MergeReport) : MergeReport :=
  mkMerge (segments_merged r) (segments_skipped r) (mg_records r) (files_written r) (mg_bytes_written r) (wal_bytes_freed r) (mg_truncated r) (temp_files_cleaned r) (templated r) (mg_untemplated r) (new_templates r) (dictionary_rows r) (dictionary_error r) (columns_promoted r) (index_rerouted r + n).
Definition set_temp_files_cleaned (n : Z) (r : MergeReport) : MergeReport :=
  mkMerge (segments_merged r) (segments_skipped r) (mg_records r) (files_written r) (mg_bytes_written r) (wal_bytes_freed r) (mg_truncated r) n (templated r) (mg_untemplated r) (new_templates r) (dictionary_rows r) (dictionary_error r) (columns_promoted r) (index_rerouted r).
Definition set_dictionary_rows (v : option Z) (r : MergeReport) : MergeReport :=
  mkMerge (segments_merged r) (segments_skipped r) (mg_records r) (files_written r) (mg_bytes_written r) (wal_bytes_freed r) (mg_truncated r) (temp_files_cleaned r) (templated r) (mg_untemplated r) (new_templates r) v (dictionary_error r) (columns_promoted r) (index_rerouted r).
Definition set_dictionary_error (v : option Err) (r : MergeReport) : MergeReport :=
  mkMerge (segments_merged r) (segments_skipped r) (mg_records r) (files_written r) (mg_bytes_written r) (wal_bytes_freed r) (mg_truncated r) (temp_files_cleaned r) (templated r) (mg_untemplated r) (new_templates r) (dictionary_rows r) v (columns_promoted r) (index_rerouted r).

(** [self.absorb(other)]. *)
Definition absorb (a b : MergeReport) : MergeReport :=
  mkMerge (segments_merged a + segments_merged b) (segments_skipped a + segments_skipped b) (mg_records a + mg_records b) (files_written a + files_written b) (mg_bytes_written a + mg_bytes_written b) (wal_bytes_freed a + wal_bytes_freed b) (mg_truncated a + mg_truncated b) (temp_files_cleaned a + temp_files_cleaned b) (templated a + templated b) (mg_untemplated a + mg_untemplated b) (new_templates a + new_templates b) (match dictionary_rows b with Some x => Some x | None => dictionary_rows a end) (match dictionary_error b with Some x => Some x | None => dictionary_error a end) (columns_promoted a + columns_promoted b) (index_rerouted a + index_rerouted b).

(** ** Where a record goes *)

(** The first attribute of the key, taken off the list. *)
Fixpoint take_attr (k : string) (attrs : list Attr) : option AttrValue * list Attr :=
  match attrs with
  | [] => (None, [])
  | a :: r => if String.eqb (attr_key a) k then (Some (attr_value a), r) else let '(v, r) := take_attr k r in (v, a :: r)
  end.

(** The partition of a record, the record without its routing attributes, and
    whether it was sent to an index it did not ask for; [None] is a panic: a
    configuration without tenants or a bucket for the severity. *)
Definition place (tenancy : Tenancy) (record : LogRecord) : option (PartitionKey * LogRecord * bool) :=
  let '(asked, attrs) := take_attr ATTR_INDEX (attributes record) in
  let asked := match asked with Some (AStr s) => Some s | _ => None end in
  let '(named, attrs) := take_attr ATTR_TENANT attrs in
  tn ← match named with
       | Some (AStr t) => if valid_ident t then Some t else own_tenant tenancy
       | _ => own_tenant tenancy
       end;
  let '(ix, rerouted) :=
    match route_in tenancy tn asked with
    | Known ix => (ix, false)
    | Defaulted ix => (ix, true)
    | Refused => (default DEFAULT_INDEX (default_index_of tenancy tn), true)
    end in
  bs ← match buckets tenancy tn ix with Some bs => Some bs | None => default_buckets tenancy end;
  b ← bucket_for bs (severity record);
  Some (mkKey tn ix (timestamp_unix_nano record / NANOS_PER_HOUR) (lb_name b) (tc_node tenancy), set_attributes attrs record, rerouted).

(** The [BTreeMap] of partitions: keys in order, each with its records in the
    order they came. *)
Definition Partitions : Type := list (PartitionKey * list LogRecord).
Definition push_under (k : PartitionKey) (r : LogRecord) (m : Partitions) : Partitions :=
  if bool_decide (k ∈ List.map fst m)
  then List.map (fun e => if bool_decide (fst e = k) then (fst e, snd e ++ [r]) else e) m
  else insert_sorted (fun a b => key_leb (fst a) (fst b)) (k, [r]) m.

Fixpoint group (tenancy : Tenancy) (records : list LogRecord) (acc : Partitions * Z) : option (Partitions * Z) :=
  match records with
  | [] => Some acc
  | r :: rs =>
      '(k, r, rerouted) ← place tenancy r;
      group tenancy rs (push_under k r (fst acc), if (rerouted : bool) then snd acc + 1 else snd acc)
  end.

(** ** A segment *)

(** What the loop over partitions carries. *)
Record Merging := mkMerging {
  m_report : MergeReport;
  m_layout : TypedLayout;
  m_entries : list FileEntry;
  m_sightings : gmap SightKey Sighted
}.

Definition set_template_id (id : Z) (r : LogRecord) : LogRecord :=
  mkRecord (event_id r) (timestamp_unix_nano r) (observed_unix_nano r) (severity r) (severity_text r) (body r) (service r)
    (trace_id r) (span_id r) (attributes r) (Some id).

Definition template_one (now : Z) (acc : MergeReport * list LogRecord) (record : LogRecord) : M (MergeReport * list LogRecord) :=
  let '(r, done) := acc in
  match template_id record with
  | Some _ => mret (add_templated 1 r, done ++ [record])
  | None =>
      a ← look (fun w => Drain.add_line (body record) now (w_miner w));
      _ ← update (set_miner (snd a));
      match fst a with
      | Drain.Hit m =>
          let r := add_templated 1 r in
          mret (if Drain.is_new m then add_new_templates 1 r else r, done ++ [set_template_id (Drain.shape_id m) record])
      | Drain.Miss => mret (add_mg_untemplated 1 r, done ++ [record])
      | Drain.Panicked => fail Panics
      end
  end.

Definition sight (key : PartitionKey) (m : gmap SightKey Sighted) (record : LogRecord) : gmap SightKey Sighted :=
  match template_id record with
  | None => m
  | Some id =>
      let t := wrap_i64 (observed_unix_nano record) in
      let k : SightKey := (tenant key, index key, id, service record) in
      <[k := match m !! k with
             | Some s => mkSighted (sg_rows s + 1) (Z.min (sg_first s) t) (Z.max (sg_last s) t)
             | None => mkSighted 1 t t
             end]> m
  end.

(** The sightings in the order of the [BTreeMap]. *)
Definition sighting_rows (m : gmap SightKey Sighted) : list TemplateSighting :=
  List.map (fun e => let '((tn, ix, id, svc), s) := e in mkSighting tn ix id svc (sg_rows s) (sg_first s) (sg_last s))
    (stable_sort sight_leb (map_to_list m)).

(** The shapes of the sighted ids that the miner knows, by id. *)
Definition shape_rows (miner : Drain.Drain) (m : gmap SightKey Sighted) : list ShapeRow :=
  let ids := List.map (fun e => let '((_, _, id, _), _) := e in id) (map_to_list m) in
  omap (fun id => (fun s => mkShapeRow id (Drain.sh_lineage_id s) (Drain.sh_text s)) <$> Drain.shapes miner !! id)
    (stable_sort Z.leb (elements (list_to_set ids : gset Z))).

Section Merge.
Context (to_json : list Attr -> string) (from_bytes : bytes -> option (list LogRecord)) (crc32 : bytes -> Z).
Context (parquet_size : Parquet -> Z) (meta_size : MetaFile -> Z) (store_dir : path).
Context (tenancy : Tenancy) (typed_config : TypedColumnsConfig) (active_segment : option Z) (now : Z).

Definition merge_partition (segment_id : Z) (segment_uuid : bytes) (m : Merging) (p : PartitionKey * list LogRecord) : M Merging :=
  let '(key, records) := p in
  acc ← each (template_one now) records (m_report m, []);
  let '(r, records) := acc in
  let sightings := foldl (sight key) (m_sightings m) records in
  let records := sort_records records in
  let promoted := Typed.plan records (m_layout m) typed_config now in
  _ ← (if bool_decide (promoted = []) then mret tt else effect CatalogErr (change_db (register_typed_columns promoted)));
  let r := add_columns_promoted (Z.of_nat (List.length promoted)) r in
  let layout := if bool_decide (promoted = []) then m_layout m else layout_extend (m_layout m) promoted in
  let file_path := dir key store_dir ++ [file_name_for_segment segment_id segment_uuid] in
  stats ← write_partition_file_with to_json parquet_size file_path records layout;
  mret (mkMerging (add_mg_bytes_written (st_bytes stats) r) layout (m_entries m ++ [mkEntry file_path key stats]) sightings).

Definition remove_segment (name : string) (w : World) : World := set_wal (Files.remove_file name (w_wal w)) w.

(** [replay_segment] with its effects: the read, and the truncation of a
    damaged tail. *)
Definition replay (name : string) : M (Wal.SegmentOutcome * list (list LogRecord)) :=
  _ ← effect (WalErr (Wal.Io name)) id;
  file ← look (fun w => lookup_file name (w_wal w));
  file ← or_stop (Failed (WalErr (Wal.Io name))) file;
  match Wal.replay_segment from_bytes crc32 name true file with
  | inl e => fail (Failed (WalErr e))
  | inr (o, batches, file') =>
      match Wal.o_truncated_to o with
      | None => mret (o, batches)
      | Some _ =>
          _ ← effect (WalErr (Wal.Io name)) (fun w => set_wal (write_file name (fun _ => file') (w_wal w)) w);
          _ ← effect (WalErr (Wal.Io name)) id;
          mret (o, batches)
      end
  end.

(** A segment that is whole and not merged yet. *)
Definition merge_new (segment_id : Z) (name : string) (segment_uuid : bytes) (segment_bytes : Z) (acc : MergeReport * TypedLayout)
    : M (MergeReport * TypedLayout) :=
  let '(r, layout) := acc in
  ob ← replay name;
  let '(outcome, batches) := ob in
  pr ← or_stop Panics (group tenancy (List.concat batches) ([], 0));
  let '(partitions, rerouted) := pr in
  let r := add_index_rerouted rerouted r in
  let r := if bool_decide (Wal.o_truncated_to outcome = None) then r else add_mg_truncated 1 r in
  let r := add_mg_records (Wal.o_records outcome) r in
  m ← each (merge_partition segment_id segment_uuid) partitions (mkMerging r layout [] ∅);
  let r := add_files_written (Z.of_nat (List.length (m_entries m))) (m_report m) in
  shapes ← look (fun w => shape_rows (w_miner w) (m_sightings m));
  _ ← effect CatalogErr (change_db (fun d => snd (register_shapes shapes d)));
  _ ← effect CatalogErr (change_db (commit_merge segment_id segment_uuid (m_entries m) (sighting_rows (m_sightings m)) now));
  templates ← look (fun w => List.map snd (map_to_list (Drain.templates (w_miner w))));
  _ ← effect CatalogErr (change_db (save_templates templates));
  removed ← attempt (remove_segment name);
  let r := if (removed : bool) then add_wal_bytes_freed segment_bytes r else r in
  mret (add_segments_merged 1 r, m_layout m).

Definition merge_segment (acc : MergeReport * TypedLayout) (seg : Z * string) : M (MergeReport * TypedLayout) :=
  let '(segment_id, name) := seg in
  let '(r, layout) := acc in
  if match active_segment with Some active => active <=? segment_id | None => false end then mret acc
  else
    file ← look (fun w => default [] (lookup_file name (w_wal w)));
    let segment_bytes := Z.of_nat (List.length file) in
    _ ← effect (WalErr (Wal.Io name)) id;
    if Wal.is_incomplete_header file then
      removed ← attempt (remove_segment name);
      mret (if (removed : bool) then add_segments_skipped 1 r else r, layout)
    else
      _ ← effect (WalErr (Wal.Io name)) id;
      match Wal.segment_uuid name file with
      | inl e => fail (Failed (WalErr e))
      | inr segment_uuid =>
          _ ← effect CatalogErr id;
          merged ← look (fun w => is_segment_merged segment_uuid (w_db w));
          if (merged : bool) then
            removed ← attempt (remove_segment name);
            mret (add_segments_skipped 1 (if (removed : bool) then add_wal_bytes_freed segment_bytes r else r), layout)
          else merge_new segment_id name segment_uuid segment_bytes acc
      end.

(** The dictionary is rewritten after a merge, or when a file of it is gone; an
    error of it is reported and fails nothing. *)
Definition export_dictionary (r : MergeReport) : M MergeReport :=
  let node := tc_node tenancy in
  gone ← (if 0 <? segments_merged r then mret (inr true) else catch (missing store_dir node));
  match gone with
  | inr true =>
      written ← catch (export meta_size store_dir node);
      mret (match written with
            | inr x => set_dictionary_rows (if 0 <? ex_files x then Some (ex_rows x) else None) r
            | inl e => set_dictionary_error (Some e) r
            end)
  | _ => mret r
  end.

Definition merge_all : M MergeReport :=
  cleaned ← clean_temp_files;
  let r := set_temp_files_cleaned cleaned merge_default in
  _ ← effect CatalogErr id;
  layout ← look (fun w => typed_layout (w_db w));
  _ ← effect (WalErr (Wal.Io "")) id;
  segments ← look (fun w => Wal.list_segments (w_wal w));
  acc ← each merge_segment segments (r, layout);
  export_dictionary (fst acc).

End Merge.
