(* ===== verification/MergeState.v ===== *)
(** The states of a merge: the records of the catalogued files and of the
    segments still to merge, and the steps that keep them
    ([crates/logless-core/src/merge.rs]). *)

From stdpp Require Import sorting.
From Stdlib Require Import Permutation.
From S2P Require Import Prelude Text Lists Partition Model Typed Schema Files.
From S2P Require Wal Drain.
From S2P Require Import Tenancy PartsEdge Retention Budget Catalog World Store TemplateDict Merge.
Open Scope string_scope.
Open Scope Z_scope.
Open Scope list_scope.

(** ** Rows and records

    What a merge must keep of a record: all but the template id it may add, the
    attributes, which it takes the routing from, and the origin. *)

Definition Core : Type := bytes * Z * Z * Severity * option string * string * option string * option bytes * option bytes.
Definition core_row (b : BaseRow) : Core :=
  (b_event_id b, b_timestamp b, b_observed b, b_severity b, b_severity_text b, b_body b, b_service b, b_trace_id b, b_span_id b).
Definition core (r : LogRecord) : Core :=
  (event_id r, wrap_i64 (timestamp_unix_nano r), wrap_i64 (observed_unix_nano r), severity r, severity_text r, body r, service r, trace_id r, span_id r).

Definition rows_of (f : Parquet) : list Core := List.map core_row (base_rows (p_batch f)).

Lemma batch_core to_json records l node :
  List.map core_row (base_rows (to_record_batch_from to_json records l node)) = List.map core records.
Proof.
  unfold to_record_batch_from. cbn [base_rows]. induction records as [|r records IH]; [done|]. cbn [List.map zip_with]. by rewrite IH.
Qed.

Lemma place_core tenancy r k r' b : place tenancy r = Some (k, r', b) -> core r' = core r.
Proof.
  unfold place. destruct (take_attr ATTR_INDEX (attributes r)) as [asked attrs]. destruct (take_attr ATTR_TENANT attrs) as [named attrs'].
  intros H. bind_inv H tn E1. destruct (match route_in _ _ _ with Known ix => _ | Defaulted ix => _ | Refused => _ end) as [ix rr].
  bind_inv H bs E2. bind_inv H bk E3. by injection H as <- <- <-.
Qed.

(** ** Partitions *)

Definition cores (m : Partitions) : list Core := flat_map (fun e => List.map core (snd e)) m.

Lemma push_under_keys k r m : List.NoDup (List.map fst m) -> List.NoDup (List.map fst (push_under k r m)).
Proof.
  intros Hnd. unfold push_under. case_bool_decide as Hk.
  - rewrite map_map. erewrite map_ext; [exact Hnd|]. intros [k' rs]. cbn. by case_bool_decide.
  - eapply Permutation_NoDup; [apply Permutation_map; symmetry; apply insert_sorted_perm|]. cbn. constructor; [|done].
    by rewrite <-list_elem_of_In.
Qed.

Lemma push_under_in k r m k' : In k' (List.map fst (push_under k r m)) <-> k' = k \/ In k' (List.map fst m).
Proof.
  unfold push_under. case_bool_decide as Hk.
  - rewrite map_map. erewrite (map_ext _ fst); [|intros [? ?]; cbn; by case_bool_decide].
    split; [by right|]. intros [->|?]; [by apply list_elem_of_In|done].
  - rewrite <-!list_elem_of_In. 
    assert (Permutation (List.map fst (insert_sorted (fun a b => key_leb a.1 b.1) (k, [r]) m)) (k :: List.map fst m)) as ->.
    { change (k :: List.map fst m) with (List.map fst ((k, [r]) :: m)). apply Permutation_map, insert_sorted_perm. }
    apply elem_of_cons.
Qed.

Lemma push_under_cores k r m : List.NoDup (List.map fst m) -> Permutation (cores (push_under k r m)) (core r :: cores m).
Proof.
  intros Hnd. unfold push_under. case_bool_decide as Hk.
  - apply list_elem_of_In in Hk. unfold cores. induction m as [|[k' rs] m IH]; [done|]. cbn in Hnd. inversion Hnd as [|? ? Hk' Hnd']; subst.
    cbn [List.map flat_map fst snd]. case_bool_decide as E.
    + subst k'. cbn [snd]. rewrite map_app. cbn [List.map].
      assert (flat_map (fun e => List.map core e.2) (List.map (fun e => if bool_decide (e.1 = k) then (e.1, e.2 ++ [r]) else e) m) =
              flat_map (fun e => List.map core e.2) m) as ->.
      { f_equal. rewrite <-(map_id m) at 2. apply map_ext_in. intros [k2 r2] Hin. cbn. case_bool_decide; [|done]. subst k2.
        exfalso. apply Hk'. apply in_map_iff. by exists (k, r2). }
      rewrite <-app_assoc. symmetry. apply Permutation_middle.
    + destruct Hk as [Hk|Hk]; [done|]. cbn [snd]. rewrite IH by done. symmetry. apply Permutation_middle.
  - unfold cores. assert (Permutation (insert_sorted (fun a b => key_leb a.1 b.1) (k, [r]) m) ((k, [r]) :: m)) as -> by apply insert_sorted_perm.
    done.
Qed.

(** An hour that fits. *)
Definition key_fits (k : PartitionKey) : Prop := u64_range (epoch_hour k).

Lemma group_spec tenancy records : forall acc acc', group tenancy records acc = Some acc' ->
  List.NoDup (List.map fst (fst acc)) ->
  List.NoDup (List.map fst (fst acc')) /\ Permutation (cores (fst acc')) (cores (fst acc) ++ List.map core records).
Proof.
  induction records as [|r records IH]; intros acc acc' H Hnd; cbn [group] in H.
  - injection H as <-. rewrite app_nil_r. done.
  - bind_inv H x E. destruct x as [[k r'] rr]. apply IH in H as [H1 H2]; [|by apply push_under_keys]. split; [done|]. cbn [fst] in H2.
    rewrite H2, push_under_cores by done. cbn [List.map]. rewrite (place_core _ _ _ _ _ E). rewrite <-Permutation_middle. done.
Qed.

Lemma place_key tenancy r k r' b : place tenancy r = Some (k, r', b) -> epoch_hour k = timestamp_unix_nano r / NANOS_PER_HOUR.
Proof.
  unfold place. destruct (take_attr ATTR_INDEX (attributes r)) as [asked attrs]. destruct (take_attr ATTR_TENANT attrs) as [named attrs'].
  intros H. bind_inv H tn E1. destruct (match route_in _ _ _ with Known ix => _ | Defaulted ix => _ | Refused => _ end) as [ix rr].
  bind_inv H bs E2. bind_inv H bk E3. by injection H as <- <- <-.
Qed.

Lemma group_fits tenancy records : forall acc acc', group tenancy records acc = Some acc' ->
  Forall (fun r => u64_range (timestamp_unix_nano r)) records ->
  (forall k, In k (List.map fst (fst acc)) -> key_fits k) -> forall k, In k (List.map fst (fst acc')) -> key_fits k.
Proof.
  induction records as [|r records IH]; intros acc acc' H Ht Hacc k Hk; cbn [group] in H.
  - injection H as <-. by apply Hacc.
  - bind_inv H x E. destruct x as [[k0 r'] rr]. apply Forall_cons in Ht as [Hr Ht]. eapply IH; [exact H|exact Ht| |exact Hk].
    intros k' [->|Hin]%push_under_in; [|by apply Hacc]. unfold key_fits. rewrite (place_key _ _ _ _ _ E).
    unfold u64_range, NANOS_PER_HOUR, SECS_PER_HOUR, u64_max in *. split; [apply Z.div_pos; lia|]. apply Z.div_le_upper_bound; lia.
Qed.

(** Under a key are records that were placed there. *)
Definition from_place (tenancy : Tenancy) (e : PartitionKey * list LogRecord) : Prop :=
  forall r', In r' (snd e) -> exists r b, u64_range (timestamp_unix_nano r) /\ place tenancy r = Some (fst e, r', b).

Lemma push_under_placed tenancy k r' m : Forall (from_place tenancy) m -> from_place tenancy (k, [r']) -> Forall (from_place tenancy) (push_under k r' m).
Proof.
  intros Hm Hr. unfold push_under. case_bool_decide.
  - apply Forall_forall. intros e He. apply list_elem_of_In, in_map_iff in He as (e0 & <- & He0). apply list_elem_of_In in He0.
    rewrite Forall_forall in Hm. specialize (Hm e0 He0). case_bool_decide as E; [|done]. intros x Hx. cbn [fst snd] in *.
    apply in_app_or in Hx as [Hx|[<-|[]]]; [by apply Hm|]. rewrite E. apply Hr. by left.
  - assert (Permutation (insert_sorted (fun a b => key_leb a.1 b.1) (k, [r']) m) ((k, [r']) :: m)) as -> by apply insert_sorted_perm.
    by constructor.
Qed.

Lemma group_placed tenancy records : forall acc acc', group tenancy records acc = Some acc' ->
  Forall (fun r => u64_range (timestamp_unix_nano r)) records ->
  Forall (from_place tenancy) (fst acc) -> Forall (from_place tenancy) (fst acc').
Proof.
  induction records as [|r records IH]; intros acc acc' H Ht Hacc; cbn [group] in H; [by injection H as <-|].
  bind_inv H x E. destruct x as [[k r'] rr]. apply Forall_cons in Ht as [Hr Ht]. eapply IH; [exact H|exact Ht|].
  apply push_under_placed; [done|]. intros y [<-|[]]. by exists r, rr.
Qed.

(** Two partitions are two directories. *)
Lemma dir_inj a b store_dir : key_fits a -> key_fits b -> dir a store_dir = dir b store_dir -> a = b.
Proof.
  intros Ha Hb H. unfold dir, level_dir in H. rewrite <-!app_assoc in H. apply app_inv_head in H. cbn [app] in H.
  assert (forall p x y, String.append p x = String.append p y -> x = y) as Hi.
  { intros p x y. induction p as [|c p IH]; [done|]. cbn. intros [= ?]. by apply IH. }
  apply cons_inv in H as [H1 H]. apply cons_inv in H as [H2 H]. apply cons_inv in H as [H3 H]. apply cons_inv in H as [H4 H]. apply cons_inv in H as [H5 _].
  apply Hi in H1, H2, H3, H4, H5. apply (f_equal parse_hour) in H3. rewrite !parse_format_hour in H3 by done. injection H3 as H3.
  destruct a, b. cbn in *. by subst.
Qed.

(** ** What is catalogued and what is waiting *)

Definition visible (w : World) : list Core :=
  flat_map (fun f => match parquet (w_disk w) !! f_path f with Some x => rows_of x | None => [] end) (files (w_db w)).

Section Waiting.
Context (from_bytes : bytes -> option (list LogRecord)) (crc32 : bytes -> Z).
Abbreviation replay_segment := (Wal.replay_segment from_bytes crc32).

(** The id and uuid of a segment that has its header. *)
Definition headed (f : string * bytes) : option (Z * bytes) :=
  id ← Wal.segment_id (fst f);
  if Wal.is_incomplete_header (snd f) then None
  else match Wal.segment_uuid (fst f) (snd f) with inr u => Some (id, u) | inl _ => None end.

Definition batches_of (f : string * bytes) : list (list LogRecord) :=
  match replay_segment (fst f) true (snd f) with inr (_, bs, _) => bs | inl _ => [] end.

(** The records of a segment that is not merged yet. *)
Definition unmerged (merged : gmap bytes (Z * Z)) (f : string * bytes) : list Core :=
  match headed f with
  | Some (_, u) => match merged !! u with None => List.map core (List.concat (batches_of f)) | Some _ => [] end
  | None => []
  end.

Definition waiting (w : World) : list Core := flat_map (unmerged (merged_segments (w_db w))) (w_wal w).

Definition pending (w : World) (f : string * bytes) (id : Z) (u : bytes) : Prop :=
  In f (w_wal w) /\ headed f = Some (id, u) /\ merged_segments (w_db w) !! u = None.

(** The log's files have different names, uuids and output names, no output
    name is taken by a catalogued file, and no path is catalogued twice. *)
Record merge_inv (w : World) : Prop := {
  mi_names : List.NoDup (List.map fst (w_wal w));
  mi_rows : List.NoDup (List.map f_path (files (w_db w)));
  mi_uuid : forall f g id id' u, pending w f id u -> pending w g id' u -> f = g;
  mi_out : forall f g id id' u u', pending w f id u -> pending w g id' u' ->
    file_name_for_segment id u = file_name_for_segment id' u' -> f = g;
  mi_fresh : forall f id u e, pending w f id u -> In e (files (w_db w)) -> List.last (f_path e) "" <> file_name_for_segment id u
}.

(** The files catalogued since the start satisfy [Good]; the others are as they
    were. *)
Context (Good : FileEntry -> Parquet -> Prop).
Definition placed (w0 w : World) : Prop := forall e, In e (files (w_db w)) ->
  In e (files (w_db w0)) /\ parquet (w_disk w) !! f_path e = parquet (w_disk w0) !! f_path e \/
  exists x, parquet (w_disk w) !! f_path e = Some x /\ Good e x.

(** The same records as at the start, each as often. *)
Definition conserved (w0 w : World) : Prop :=
  merge_inv w /\ Permutation (visible w ++ waiting w) (visible w0 ++ waiting w0) /\ placed w0 w.

(** *** Steps that change nothing of it *)

(** Only new paths of the store, the miner, the temporary files and the tables
    beside [files] and [merged_segments] differ. *)
Definition same_records (w w' : World) : Prop :=
  w_wal w' = w_wal w /\ files (w_db w') = files (w_db w) /\ merged_segments (w_db w') = merged_segments (w_db w) /\
  forall e, In e (files (w_db w)) -> parquet (w_disk w') !! f_path e = parquet (w_disk w) !! f_path e.

Lemma same_pending w w' f id u : same_records w w' -> pending w' f id u <-> pending w f id u.
Proof. intros (H1 & H2 & H3 & _). unfold pending. by rewrite H1, H3. Qed.

Lemma same_visible w w' : same_records w w' -> visible w' = visible w.
Proof.
  intros (_ & H2 & _ & H4). unfold visible. rewrite H2. rewrite !flat_map_concat_map. f_equal. apply map_ext_in.
  intros e He. by rewrite H4.
Qed.

Lemma same_conserved w0 w w' : conserved w0 w -> same_records w w' -> conserved w0 w'.
Proof.
  intros ([I1 I2 I3 I4 I5] & Hp & Hpl) Hs. pose proof Hs as (H1 & H2 & H3 & H4). split; [|split].
  - constructor; rewrite ?H1, ?H2; try done.
    + intros f g id id' u Hf Hg. rewrite same_pending in Hf, Hg by done. by eapply I3.
    + intros f g id id' u u' Hf Hg. rewrite same_pending in Hf, Hg by done. by eapply I4.
    + intros f id u e Hf. rewrite same_pending in Hf by done. by eapply I5.
  - rewrite (same_visible w w' Hs). unfold waiting. rewrite H1, H3. exact Hp.
  - intros e He. rewrite H2 in He. rewrite H4 by done. by apply Hpl.
Qed.

Lemma same_refl w : same_records w w.
Proof. done. Qed.
Lemma same_trans a b c : same_records a b -> same_records b c -> same_records a c.
Proof.
  intros (A1 & A2 & A3 & A4) (B1 & B2 & B3 & B4). repeat split; try congruence. intros e He. rewrite B4 by (by rewrite A2). by apply A4.
Qed.

(** *** A segment file removed or truncated *)

Lemma remove_conserved w0 w name : conserved w0 w ->
  (forall c, In (name, c) (w_wal w) -> unmerged (merged_segments (w_db w)) (name, c) = []) ->
  conserved w0 (remove_segment name w).
Proof.
  intros ([I1 I2 I3 I4 I5] & Hp & Hpl) Hu.
  assert (forall f id u, pending (remove_segment name w) f id u -> pending w f id u) as Hsub.
  { intros f id u (Hin & ? & ?). split; [|done]. cbn in Hin. unfold Files.remove_file in Hin. by apply filter_In in Hin as [? _]. }
  split; [|split; [|exact Hpl]].
  - constructor; eauto. cbn. unfold Files.remove_file. clear -I1. induction (w_wal w) as [|f l IH]; [constructor|].
    cbn in *. inversion I1 as [|? ? Hf Hl]; subst. destruct (negb _); [|by apply IH]. cbn. constructor; [|by apply IH].
    intros (g & Hg & Hin)%in_map_iff. apply filter_In in Hin as [Hin _]. apply Hf. rewrite <-Hg. by apply in_map.
  - rewrite <-Hp. apply Permutation_app_head. unfold waiting. cbn. unfold Files.remove_file. clear -Hu.
    induction (w_wal w) as [|[n c] l IH]; [done|]. cbn [List.filter fst]. destruct (String.eqb_spec n name) as [e|]; cbn [negb flat_map].
    + subst n. rewrite Hu by (by left). apply IH. intros c' Hc'. apply Hu. by right.
    + apply Permutation_app_head, IH. intros c' Hc'. apply Hu. by right.
Qed.

(** Truncating a damaged tail leaves the header and the batches. *)
Lemma replay_again name file o bs file' : replay_segment name true file = inr (o, bs, file') ->
  headed (name, file') = headed (name, file) /\ batches_of (name, file') = bs /\ batches_of (name, file) = bs.
Proof.
  intros Hr. destruct (Wal.replay_truncate_idempotent from_bytes crc32 name file o bs file' Hr) as (Hr' & _).
  unfold batches_of. cbn [fst snd]. rewrite Hr, Hr'. split; [|done].
  assert (take 24 file' = take 24 file /\ (24 <= List.length file')%nat /\ (24 <= List.length file)%nat) as (Ht & Hl' & Hl).
  { clear Hr'. unfold Wal.replay_segment in Hr. destruct (read_full 8 file) as [[magic rest]|] eqn:E1; [|done].
    apply read_full_some in E1 as [-> Hm]; [|lia]. destruct (negb _); [done|].
    destruct (read_full 16 rest) as [[u rest']|] eqn:E2; [|done]. apply read_full_some in E2 as [-> Hu]; [|lia].
    destruct (Wal.replay_loop _ _ _ _ rest') as [bs' g] eqn:E3.
    apply Wal.replay_loop_stops in E3 as (f & t & -> & Hg & _); [|done]. unfold Wal.HEADER_BYTES in Hg.
    destruct (_ && true); injection Hr as _ _ <-; rewrite ?length_take, ?length_app in *; [|split; [done|lia]].
    split; [rewrite take_take; f_equal; lia|lia]. }
  assert (forall x : bytes, (24 <= List.length x)%nat -> headed (name, x) =
    id ← Wal.segment_id name; if negb (bool_decide (take 8 (take 24 x) = Wal.MAGIC)) then None else Some (id, drop 8 (take 24 x))) as Hh.
  { intros x Hx. unfold headed. cbn [fst snd]. destruct (Wal.segment_id name) as [id|]; [cbn|done].
    unfold Wal.is_incomplete_header. replace (Nat.min (List.length x) 24) with 24%nat by lia. cbn [Nat.ltb Nat.leb andb].
    unfold Wal.segment_uuid, read_full. destruct (Z.ltb_spec (Z.of_nat (List.length x)) 24); [lia|].
    change (Z.to_nat 24) with 24%nat. by destruct (negb _). }
  by rewrite !Hh, Ht.
Qed.

Lemma unmerged_truncated merged name file o bs file' : replay_segment name true file = inr (o, bs, file') ->
  unmerged merged (name, file') = unmerged merged (name, file).
Proof. intros H. destruct (replay_again name file o bs file' H) as (H1 & H2 & H3). unfold unmerged. by rewrite H1, H2, H3. Qed.

Definition truncate (name : string) (file' : bytes) (w : World) : World := set_wal (write_file name (fun _ => file') (w_wal w)) w.

Lemma In_lookup w name file : List.NoDup (List.map fst (w_wal w)) -> In (name, file) (w_wal w) <-> lookup_file name (w_wal w) = Some file.
Proof. intros Hnd. apply lookup_file_In. by apply NoDup_ListNoDup. Qed.

Lemma truncate_in w name file file' f : List.NoDup (List.map fst (w_wal w)) -> In (name, file) (w_wal w) ->
  In f (w_wal (truncate name file' w)) -> f = (name, file') \/ In f (w_wal w) /\ fst f <> name.
Proof.
  intros Hnd Hin Hf. cbn in Hf. unfold write_file in Hf. apply in_map_iff in Hf as ([n c] & <- & Hf). cbn [fst snd].
  destruct (String.eqb_spec n name) as [->|]; [by left|by right].
Qed.

Lemma truncate_conserved w0 w name file o bs file' : conserved w0 w -> In (name, file) (w_wal w) ->
  replay_segment name true file = inr (o, bs, file') -> conserved w0 (truncate name file' w).
Proof.
  intros ([I1 I2 I3 I4 I5] & Hp & Hpl) Hin Hr. pose proof (replay_again name file o bs file' Hr) as (Hh & _ & _).
  set (back := fun f : string * bytes => if String.eqb (fst f) name then (name, file) else f).
  assert (forall f id u, pending (truncate name file' w) f id u -> pending w (back f) id u /\ (fst f = name -> f = (name, file'))) as Hback.
  { intros f id u (Hf & Hhd & Hm). apply (truncate_in w name file file' f I1 Hin) in Hf as [->|[Hf Hne]]; unfold back.
    - cbn [fst]. rewrite String.eqb_refl. rewrite Hh in Hhd. split; [by split_and!|done].
    - destruct (String.eqb_spec (fst f) name); [done|]. split; [by split_and!|done]. }
  assert (forall f g, (fst f = name -> f = (name, file')) -> (fst g = name -> g = (name, file')) -> back f = back g -> f = g) as Hinj.
  { intros f g Hf Hg. unfold back. destruct (String.eqb_spec (fst f) name) as [e|], (String.eqb_spec (fst g) name) as [e'|]; intros E.
    - by rewrite Hf, Hg.
    - subst g. done.
    - subst f. done.
    - done. }
  split; [|split; [|exact Hpl]].
  - constructor; cbn.
    + by rewrite write_file_fst.
    + done.
    + intros f g id id' u [Hf Hf']%Hback [Hg Hg']%Hback. apply Hinj; [done|done|]. by eapply I3.
    + intros f g id id' u u' [Hf Hf']%Hback [Hg Hg']%Hback He. apply Hinj; [done|done|]. by eapply I4.
    + intros f id u e [Hf _]%Hback. by eapply I5.
  - rewrite <-Hp. apply Permutation_app_head. unfold waiting. match goal with |- Permutation ?a ?b => assert (a = b) as ->; [|done] end.
    change (w_wal (truncate name file' w)) with (write_file name (fun _ => file') (w_wal w)). unfold write_file.
    rewrite !flat_map_concat_map, map_map. f_equal. apply map_ext_in.
    intros [n c] Hnc. cbn [fst snd]. destruct (String.eqb_spec n name) as [->|]; [|done].
    rewrite (In_lookup w name file I1) in Hin. rewrite (In_lookup w name c I1) in Hnc. assert (c = file) as -> by congruence.
    by apply (unmerged_truncated _ _ _ _ _ _ Hr).
Qed.

End Waiting.

(** *** The commit *)

Definition rows_at (d : Disk) (e : FileEntry) : list Core :=
  match parquet d !! f_path e with Some x => rows_of x | None => [] end.

Lemma upsert_new f rows : (forall g, In g rows -> f_path g <> f_path f) -> upsert_row f rows = rows ++ [f].
Proof.
  induction rows as [|g rows IH]; intros H; [done|]. cbn [upsert_row]. rewrite bool_decide_eq_false_2 by (apply H; by left).
  rewrite IH; [done|]. intros x Hx. apply H. by right.
Qed.

Lemma upserts_new entries : forall d, List.NoDup (List.map f_path (files d) ++ List.map f_path entries) ->
  files (foldl upsert_file d entries) = files d ++ entries /\
  merged_segments (foldl upsert_file d entries) = merged_segments d.
Proof.
  induction entries as [|e entries IH]; intros d Hnd; cbn [foldl]; [by rewrite app_nil_r|].
  assert (files (upsert_file d e) = files d ++ [e]) as He.
  { cbn. apply upsert_new. intros g Hg Heq. apply NoDup_ListNoDup, NoDup_app in Hnd as (_ & Hd & _).
    apply (Hd (f_path g)); [apply list_elem_of_In; by apply in_map|]. rewrite Heq. by left. }
  destruct (IH (upsert_file d e)) as [H1 H2].
  - rewrite He, map_app, <-app_assoc. exact Hnd.
  - rewrite H1, H2, He, <-app_assoc. done.
Qed.

Lemma sightings_keep ss : forall d, files (foldl upsert_sighting d ss) = files d /\
  merged_segments (foldl upsert_sighting d ss) = merged_segments d.
Proof. induction ss as [|s ss IH]; intros d; [done|]. cbn [foldl]. destruct (IH (upsert_sighting d s)) as [-> ->]. done. Qed.

Lemma commit_tables id u entries ss now d : List.NoDup (List.map f_path (files d) ++ List.map f_path entries) ->
  files (commit_merge id u entries ss now d) = files d ++ entries /\
  merged_segments (commit_merge id u entries ss now d) = <[u := (wrap_i64 id, wrap_i64 now)]> (merged_segments d).
Proof.
  intros Hnd. unfold commit_merge. destruct (sightings_keep ss d) as [Hf Hm].
  destruct (upserts_new entries (foldl upsert_sighting d ss)) as [H1 H2]; [by rewrite Hf|].
  cbn [files merged_segments set_merged]. by rewrite H1, H2, Hf, Hm.
Qed.

Section Commit.
Context (from_bytes : bytes -> option (list LogRecord)) (crc32 : bytes -> Z) (Good : FileEntry -> Parquet -> Prop).
Abbreviation conserved := (conserved from_bytes crc32 Good).
Abbreviation unmerged := (unmerged from_bytes crc32).

Definition committed (id : Z) (u : bytes) (entries : list FileEntry) (ss : list TemplateSighting) (now : Z) (w : World) : World :=
  change_db (commit_merge id u entries ss now) w.

(** A segment that is merged has nothing waiting; the others are as before. *)
Lemma unmerged_commit w f id u g at_ : merge_inv w -> pending w f id u -> In g (w_wal w) ->
  unmerged (<[u := at_]> (merged_segments (w_db w))) g = if bool_decide (g = f) then [] else unmerged (merged_segments (w_db w)) g.
Proof.
  intros Hi Hf Hg. destruct Hf as (Hfi & Hfh & Hfm). unfold unmerged. case_bool_decide as E.
  - subst g. rewrite Hfh. by rewrite lookup_insert_eq.
  - destruct (headed g) as [[id' u']|] eqn:Eg; [|done]. destruct (decide (u' = u)) as [->|Hu].
    + exfalso. apply E. apply (mi_uuid _ Hi g f id' id u); by split_and!.
    + by rewrite lookup_insert_ne.
Qed.

Lemma flat_map_drop {A B} `{EqDecision A} (h : A -> list B) (l : list A) a : List.NoDup l -> In a l ->
  Permutation (flat_map h l) (h a ++ flat_map (fun x => if bool_decide (x = a) then [] else h x) l).
Proof.
  induction l as [|x l IH]; intros Hnd Hin; [done|]. inversion Hnd as [|? ? Hx Hnd']; subst. cbn [flat_map]. case_bool_decide as E.
  - subst x. apply Permutation_app_head. rewrite !flat_map_concat_map. cbn [app].
    assert (List.map h l = List.map (fun x => if bool_decide (x = a) then [] else h x) l) as ->; [|done].
    apply map_ext_in. intros y Hy. by rewrite bool_decide_eq_false_2 by congruence.
  - destruct Hin as [|Hin]; [done|]. rewrite IH by done. rewrite !app_assoc. apply Permutation_app_tail, Permutation_app_comm.
Qed.

Lemma commit_conserved w0 w f id u entries ss now : conserved w0 w -> pending w f id u ->
  List.NoDup (List.map f_path entries) ->
  (forall e, In e entries -> List.last (f_path e) "" = file_name_for_segment id u) ->
  Permutation (flat_map (rows_at (w_disk w)) entries) (List.map core (List.concat (batches_of from_bytes crc32 f))) ->
  (forall e, In e entries -> exists x, parquet (w_disk w) !! f_path e = Some x /\ Good e x) ->
  conserved w0 (committed id u entries ss now w).
Proof.
  intros (Hi & Hp & Hpl) Hf Hnd Hlast Hrows Hgood. pose proof Hi as [I1 I2 I3 I4 I5]. pose proof Hf as (Hfi & Hfh & Hfm).
  assert (List.NoDup (List.map f_path (files (w_db w)) ++ List.map f_path entries)) as Hall.
  { apply NoDup_app_maps; [done|done|]. intros a b Ha Hb E. apply (I5 f id u a Hf Ha). rewrite E. by apply Hlast. }
  destruct (commit_tables id u entries ss now (w_db w) Hall) as [Hfiles Hmerged].
  set (w' := committed id u entries ss now w).
  assert (files (w_db w') = files (w_db w) ++ entries) as Ff by exact Hfiles.
  assert (merged_segments (w_db w') = <[u := (wrap_i64 id, wrap_i64 now)]> (merged_segments (w_db w))) as Fm by exact Hmerged.
  assert (w_wal w' = w_wal w /\ w_disk w' = w_disk w) as [Fw Fd] by done. clearbody w'. clear Hfiles Hmerged.
  assert (forall g id' u', pending w' g id' u' -> pending w g id' u' /\ u' <> u) as Hpend.
  { intros g id' u' (Hg & Hh & Hm). rewrite Fm in Hm. rewrite Fw in Hg. apply lookup_insert_None in Hm as [Hm Hne]. by split_and!. }
  split; [|split].
  - constructor; rewrite ?Fw, ?Ff.
    + done.
    + by rewrite map_app.
    + intros g g' id1 id2 u' [Hg _]%Hpend [Hg' _]%Hpend. by eapply I3.
    + intros g g' id1 id2 u1 u2 [Hg _]%Hpend [Hg' _]%Hpend. by eapply I4.
    + intros g id' u' e [Hg Hne]%Hpend [He|He]%in_app_or; [by eapply I5|]. rewrite (Hlast e He). intros E.
      assert (f = g) as -> by (eapply I4; [exact Hf|exact Hg|done]). destruct Hg as (_ & Hgh & _). congruence.
  - rewrite <-Hp. unfold visible, waiting. rewrite Ff, Fw, Fm, Fd, flat_map_app, <-app_assoc. apply Permutation_app_head.
    change (flat_map (fun e => match parquet (w_disk w) !! f_path e with Some x => rows_of x | None => [] end) entries) with (flat_map (rows_at (w_disk w)) entries).
    rewrite Hrows.
    assert (List.map core (List.concat (batches_of from_bytes crc32 f)) = unmerged (merged_segments (w_db w)) f) as ->.
    { unfold unmerged. by rewrite Hfh, Hfm. }
    rewrite (flat_map_drop (unmerged (merged_segments (w_db w))) (w_wal w) f) by (done || by apply (NoDup_map_inv fst)).
    apply Permutation_app_head. rewrite !flat_map_concat_map.
    match goal with |- Permutation (List.concat ?a) (List.concat ?b) => assert (a = b) as ->; [|done] end.
    apply map_ext_in. intros g Hg. by apply (unmerged_commit w f id u g).
  - intros e He. rewrite Ff in He. rewrite Fd. apply in_app_or in He as [He|He]; [by apply Hpl|right; by apply Hgood].
Qed.

(** *** Decoded records *)

Hypothesis decoded : forall p b, from_bytes p = Some b -> Forall (fun r => u64_range (timestamp_unix_nano r) /\ 0 <= severity r) b.

Lemma replay_decoded fuel : forall good rest, Forall (Forall (fun r => u64_range (timestamp_unix_nano r) /\ 0 <= severity r))
  (fst (Wal.replay_loop from_bytes crc32 fuel good rest)).
Proof.
  induction fuel as [|fuel IH]; intros good rest; [constructor|]. cbn [Wal.replay_loop].
  destruct (Wal.read_frame from_bytes crc32 rest) as [[[b len] rest']|] eqn:E; [|constructor].
  specialize (IH (good + (Wal.FRAME_HEADER_BYTES + len)) rest').
  destruct (Wal.replay_loop _ _ fuel _ rest') as [bs g]. cbn. constructor; [|exact IH].
  unfold Wal.read_frame in E. bind_inv E x E1. destruct x as [h r1]. cbv zeta in E. destruct (_ || _); [done|].
  bind_inv E y E2. destruct y as [p r2]. destruct (negb _); [done|]. bind_inv E z E3. injection E as <- <- <-. by eapply decoded.
Qed.

Lemma batches_decoded f : Forall (fun r => u64_range (timestamp_unix_nano r) /\ 0 <= severity r) (List.concat (batches_of from_bytes crc32 f)).
Proof.
  unfold batches_of, Wal.replay_segment. destruct (read_full 8 (snd f)) as [[magic rest]|]; [|constructor]. destruct (negb _); [constructor|].
  destruct (read_full 16 rest) as [[u rest']|]; [|constructor].
  pose proof (replay_decoded (List.length rest') Wal.HEADER_BYTES rest') as H. destruct (Wal.replay_loop _ _ _ _ rest') as [bs g]. cbn in *.
  by apply Forall_concat.
Qed.

End Commit.

(** ** Statements about other tables *)

Definition keeps (g : Db -> Db) : Prop := forall d, files (g d) = files d /\ merged_segments (g d) = merged_segments d.

Lemma same_db g w : keeps g -> same_records w (change_db g w).
Proof. intros Hg. destruct (Hg (w_db w)) as [H1 H2]. by repeat split. Qed.

Lemma keeps_fold {A} (g : Db -> A -> Db) l : (forall a, keeps (fun d => g d a)) -> keeps (fun d => foldl g d l).
Proof. intros Hg. induction l as [|a l IH]; intros d; [done|]. cbn [foldl]. destruct (IH (g d a)) as [-> ->]. apply (Hg a d). Qed.

Lemma register_keeps cs : keeps (register_typed_columns cs).
Proof. apply keeps_fold. intros c d. unfold register_typed_column. by destruct (existsb _ _). Qed.
Lemma save_keeps ts : keeps (save_templates ts).
Proof. apply keeps_fold. by intros t d. Qed.
Lemma shapes_keep shapes : keeps (fun d => snd (register_shapes shapes d)).
Proof.
  assert (forall acc, files (fst (foldl register_shape acc shapes)) = files (fst acc) /\
    merged_segments (fst (foldl register_shape acc shapes)) = merged_segments (fst acc)) as H.
  { induction shapes as [|s ss IH]; intros [d n]; [done|]. cbn [foldl]. destruct (IH (register_shape (d, n) s)) as [-> ->].
    unfold register_shape. destruct (template_shapes d !! _) as [[l t]|]; [|done]. by destruct (String.eqb t _). }
  intros d. unfold register_shapes. specialize (H (d, 0)). destruct (foldl register_shape (d, 0) shapes) as [d' n]. cbn in H |- *.
  by destruct (0 <? n).
Qed.
