(* ===== verification/MergeOnce.v ===== *)
(** What a merge can lose or repeat: nothing, whatever effect of a pass fails
    and wherever it dies ([crates/logless-core/src/merge.rs]). *)

From stdpp Require Import sorting.
From Stdlib Require Import Permutation.
From S2P Require Import Prelude Text Lists Partition Model Typed Schema Files.
From S2P Require Wal Drain.
From S2P Require Import Tenancy PartsEdge Retention Budget Catalog World Store TemplateDict Merge MergeState.
Open Scope string_scope.
Open Scope Z_scope.
Open Scope list_scope.

(** ** Placing never panics *)

(** A validated configuration whose indexes hold validated buckets. *)
Definition placeable (t : Tenancy) : Prop :=
  tenancy_ok t /\ forall c i, In c (tenants t) -> In i (indexes c) -> cover (retention i).

Lemma place_bucket t r k r' b lb : place t r = Some (k, r', b) -> buckets t (tenant k) (index k) = Some lb ->
  lb_name <$> bucket_for lb (severity r) = Some (bucket k).
Proof.
  unfold place. destruct (take_attr ATTR_INDEX (attributes r)) as [asked attrs]. destruct (take_attr ATTR_TENANT attrs) as [named attrs'].
  intros H Hlb. bind_inv H tn E1. destruct (match route_in _ _ _ with Known ix => _ | Defaulted ix => _ | Refused => _ end) as [ix rr].
  bind_inv H bs E2. bind_inv H bk E3. injection H as <- <- <-. cbn in Hlb |- *. rewrite Hlb in E2. injection E2 as ->. by rewrite E3.
Qed.

Lemma find_some_In {A} (p : A -> bool) l x : List.find p l = Some x -> In x l.
Proof. intros H. by apply find_some in H as [? _]. Qed.

Lemma default_buckets_ok t c cs : tenancy_ok t -> tenants t = c :: cs -> exists i, In i (indexes c) /\ default_buckets t = Some (retention i).
Proof.
  intros Hok Et. pose proof Hok as (_ & _ & Hall & _). assert (In c (tenants t)) as Hc by (rewrite Et; by left).
  assert (tenant_ok c) as Htc by (rewrite Forall_forall in Hall; apply Hall; by apply list_elem_of_In).
  destruct (default_index_in_ok c Htc) as (i & Hi & Hin). exists i. split; [done|].
  unfold default_buckets, own_tenant, default_index, own. rewrite Et. cbn. rewrite Hi. cbn. unfold buckets.
  rewrite (configured_in t c Hok Hc). cbn. unfold find_index.
  assert (List.find (fun x => String.eqb (ix_name x) (ix_name i)) (indexes c) = Some i) as -> by (apply (find_unique ix_name); [apply Htc|done]). done.
Qed.

Lemma place_total t r : placeable t -> 0 <= severity r -> is_Some (place t r).
Proof.
  intros [Hok Hcov] Hs. pose proof Hok as (Hne & _ & Hall & _).
  destruct (tenants t) as [|c cs] eqn:Et; [done|].
  assert (own_tenant t = Some (tn_id c)) as Hown by (unfold own_tenant, own; by rewrite Et).
  assert (forall bs, cover bs -> is_Some (bucket_for bs (severity r))) as Hb.
  { intros bs Hc. destruct (bucket_for_split bs (severity r) Hc Hs) as (? & b & ? & _ & _ & -> & _). by eexists. }
  assert (exists bs, default_buckets t = Some bs /\ cover bs) as (dbs & Hdb & Hdc).
  { destruct (default_buckets_ok t c cs Hok Et) as (i & Hi & ->). exists (retention i). split; [done|]. apply (Hcov c i); [by left|done]. }
  unfold place. destruct (take_attr ATTR_INDEX (attributes r)) as [asked attrs]. destruct (take_attr ATTR_TENANT attrs) as [named attrs'].
  set (tn := match named with Some (AStr s) => _ | _ => _ end).
  assert (is_Some tn) as [tn' Htn]. { unfold tn. rewrite Hown. destruct named as [[]|]; try by eexists. destruct (valid_ident s); by eexists. }
  rewrite Htn. rewrite bind_some. destruct (match route_in _ _ _ with Known ix => _ | Defaulted ix => _ | Refused => _ end) as [ix rr].
  assert (exists bs, match buckets t tn' ix with Some bs => Some bs | None => default_buckets t end = Some bs /\ cover bs) as (bs & -> & Hc).
  { destruct (buckets t tn' ix) as [bs|] eqn:Eb; [|by exists dbs]. exists bs. split; [done|]. unfold buckets in Eb.
    bind_inv Eb c' E1. destruct (find_index c' ix) as [i|] eqn:E2; [|done]. injection Eb as <-.
    apply (Hcov c' i); [rewrite <-Et; by apply find_some_In in E1|by apply find_some_In in E2]. }
  rewrite bind_some. destruct (Hb bs Hc) as [b ->]. rewrite bind_some. by eexists.
Qed.

(** ** A pass *)

Section Pass.
Context (to_json : list Attr -> string) (from_bytes : bytes -> option (list LogRecord)) (crc32 : bytes -> Z).
Context (parquet_size : Parquet -> Z) (meta_size : MetaFile -> Z) (store_dir : path).
Context (tenancy : Tenancy) (typed_config : TypedColumnsConfig) (active_segment : option Z) (now : Z).
Hypothesis decoded : forall p b, from_bytes p = Some b -> Forall (fun r => u64_range (timestamp_unix_nano r) /\ 0 <= severity r) b.
Context (w0 : World) (Good : FileEntry -> Parquet -> Prop).
Hypothesis good_written : forall p k records recs' l, from_place tenancy (k, records) -> List.map core recs' = List.map core records ->
  Good (mkEntry p k (stats_of parquet_size (parquet_file to_json p (sort_records recs') l))) (parquet_file to_json p (sort_records recs') l).

Abbreviation conserved := (conserved from_bytes crc32 Good).
Abbreviation unmerged := (unmerged from_bytes crc32).
Abbreviation batches_of := (batches_of from_bytes crc32).

(** The configuration is sound, and so are the headers of the log's files. *)
Definition sound_log (w : World) : Prop :=
  forall f, In f (w_wal w) -> is_Some (Wal.segment_id (fst f)) -> Wal.is_incomplete_header (snd f) = true \/ is_Some (headed f).
Context (C Fit : Prop).
Hypothesis fit_place : Fit -> placeable tenancy.

(** The segments a pass may touch: those below the active one. *)
Definition eligible_name (name : string) : Prop :=
  match Wal.segment_id name, active_segment with Some id, Some active => id < active | _, _ => True end.
Definition eligible (f : string * bytes) : Prop := eligible_name (fst f).

(** No segment out of reach becomes merged. *)
Definition unspoiled (w : World) : Prop := forall f id u, pending w0 f id u -> ~ eligible f -> merged_segments (w_db w) !! u = None.
(** Files are removed or rewritten, and only those in reach. *)
Definition kept (w : World) : Prop :=
  (forall f, In f (w_wal w0) -> ~ eligible f -> In f (w_wal w)) /\
  (forall f, In f (w_wal w) -> In (fst f) (List.map fst (w_wal w0))) /\ unspoiled w.
Definition fit (w : World) : Prop := (Fit -> Drain.Inv (w_miner w) /\ sound_log w) /\ kept w.
Definition excuse : Stop -> Prop := fun _ => ~ Fit.

Lemma fit_same w w' : same_records w w' -> w_miner w' = w_miner w -> fit w -> fit w'.
Proof. intros (Hw & _ & Hm & _) Hd. unfold fit, sound_log, kept, unspoiled. by rewrite Hw, Hm, Hd. Qed.

(** At any stop. *)
Definition safe (w : World) : Prop := conserved w0 w /\ fit w.

Abbreviation Triple := (triple C excuse).

(** An assertion about everything but the miner. *)
Definition steady (P : World -> Prop) : Prop := forall d w, P w -> P (set_miner d w).

Lemma template_records (P : World -> Prop) r records : steady P -> (forall w, P w -> conserved w0 w) ->
  Triple (fun w => P w /\ fit w) (each (template_one now) records (r, []))
    (fun acc w => (P w /\ fit w) /\ List.map core (snd acc) = List.map core records) safe.
Proof.
  intros Hst HP. eapply triple_weaken.
  - apply (triple_each C excuse safe (fun rest acc w => (P w /\ fit w) /\ List.map core (snd acc) ++ List.map core rest = List.map core records)).
    intros record rest [r1 done_]. unfold template_one. cbn [snd List.map]. destruct (template_id record) as [id|].
    + intros w os Hquiet [Hw E]. cbn. split; [|done]. split; [done|]. rewrite map_app, <-app_assoc. exact E.
    + intros w os Hquiet [[Hw Hf] E]. unfold mbind, SE_bind, look, gets, update, modify. cbn [fst snd].
      destruct (Drain.add_line (body record) now (w_miner w)) as [a d] eqn:Ea. cbn [fst snd].
      assert (Fit -> Drain.Inv (w_miner w) /\ a <> Drain.Panicked /\ Drain.Inv d) as Hd.
      { intros HF. destruct (proj1 Hf HF) as [Hi _]. destruct (Drain.add_line_step _ _ _ _ _ Hi Ea) as [Hs ?]. split_and!; [done|apply Hs|done]. }
      assert (fit (set_miner d w)) as Hf'. { split; [|apply Hf]. intros HF. split; [by apply Hd|]. by destruct (proj1 Hf HF). }
      destruct a as [m| |]; cbn.
      * split; [|done]. split; [by split; [apply Hst|]|]. rewrite map_app, <-app_assoc. destruct (Drain.is_new m); exact E.
      * split; [|done]. split; [by split; [apply Hst|]|]. rewrite map_app, <-app_assoc. exact E.
      * split; [by split; [apply HP, Hst|]|]. intros _ HF. by destruct (Hd HF) as (_ & ? & _).
  - intros w Hw. split; [exact Hw|done].
  - intros acc w [Hw E]. cbn in E. rewrite app_nil_r in E. done.
  - done.
Qed.

(** *** The files of a segment *)

Section Segment.
Context (id : Z) (name : string) (u : bytes) (bs : list (list LogRecord)).
Context (Extra : World -> Prop).
Hypothesis extra_same : forall w w', same_records w w' -> Extra w -> Extra w'.

Definition out_path (k : PartitionKey) : path := dir k store_dir ++ [file_name_for_segment id u].

(** Part of the segment's partitions are written, [rest] is to come. *)
Record writing (rest : Partitions) (entries : list FileEntry) (w : World) : Prop := {
  wr_conserved : conserved w0 w;
  wr_extra : Extra w;
  wr_pending : exists f, pending w f id u /\ fst f = name /\ batches_of f = bs;
  wr_paths : List.map f_path entries = List.map out_path (List.map f_key entries);
  wr_keys : List.NoDup (List.map f_key entries ++ List.map fst rest);
  wr_from : Forall (from_place tenancy) rest;
  wr_good : forall e, In e entries -> exists x, parquet (w_disk w) !! f_path e = Some x /\ Good e x;
  wr_fit : Forall key_fits (List.map f_key entries ++ List.map fst rest);
  wr_rows : Permutation (flat_map (rows_at (w_disk w)) entries ++ cores rest) (List.map core (List.concat bs))
}.

Lemma writing_same rest entries w w' : writing rest entries w -> same_records w w' ->
  (forall e, In e entries -> parquet (w_disk w') !! f_path e = parquet (w_disk w) !! f_path e) -> writing rest entries w'.
Proof.
  intros [H1 H2 (f & Hf & Hn & Hb) H3 H4 Hfr Hgo H5 H6] Hs He. constructor; try done.
  - by eapply same_conserved.
  - by eapply extra_same.
  - exists f. split; [by apply (same_pending w)|done].
  - intros e Hin. rewrite He by done. by apply Hgo.
  - rewrite <-H6. apply Permutation_app_tail. rewrite !flat_map_concat_map.
    match goal with |- Permutation (List.concat ?a) (List.concat ?b) => assert (a = b) as ->; [|done] end.
    apply map_ext_in. intros e Hin. unfold rows_at. by rewrite He.
Qed.

Lemma last_snoc {A} (l : list A) x d : List.last (l ++ [x]) d = x.
Proof. apply last_last. Qed.

(** The path of a partition of an unmerged segment is new to the catalog and
    to what the segment wrote. *)
Lemma out_path_new k records rest entries w : writing ((k, records) :: rest) entries w ->
  (forall e, In e (files (w_db w)) -> f_path e <> out_path k) /\ (forall e, In e entries -> f_path e <> out_path k).
Proof.
  intros [[Hi _] _ (f & Hf & _) H3 H4 _ _ H5 _]. split; intros e He Ep.
  - apply (mi_fresh _ Hi f id u e Hf He). rewrite Ep. apply last_snoc.
  - assert (In (f_path e) (List.map out_path (List.map f_key entries))) as Hin by (rewrite <-H3; by apply in_map).
    apply in_map_iff in Hin as (k' & Hk' & Hin). rewrite Ep in Hk'. unfold out_path in Hk'. apply app_inj_tail in Hk' as [Hd _].
    rewrite Forall_forall in H5. apply dir_inj in Hd as <-.
    + apply NoDup_ListNoDup, NoDup_app in H4 as (_ & Hd & _). apply (Hd k'); [by apply list_elem_of_In|by left].
    + apply H5, list_elem_of_In, in_or_app. by left.
    + apply H5, list_elem_of_In, in_or_app. right. by left.
Qed.

Lemma writing_next k records rest entries w w1 recs' l : writing ((k, records) :: rest) entries w ->
  w1 = rename_parquet (out_path k) (parquet_file to_json (out_path k) (sort_records recs') l) w ->
  List.map core recs' = List.map core records -> writing rest (entries ++ [mkEntry (out_path k) k (stats_of parquet_size (parquet_file to_json (out_path k) (sort_records recs') l))]) w1.
Proof.
  intros Hw -> Hcore. destruct (out_path_new k records rest entries w Hw) as [Hnf Hne].
  pose proof Hw as [H1 H2 (f & Hf & Hn & Hb) H3 H4 Hfr Hgo H5 H6]. apply Forall_cons in Hfr as [Hfk Hfr]. set (file := parquet_file _ _ _ _).
  assert (same_records w (rename_parquet (out_path k) file w)) as Hs.
  { repeat split. intros e He. cbn. rewrite lookup_insert_ne; [done|]. intros E. by apply (Hnf e He). }
  constructor.
  - by eapply same_conserved.
  - by eapply extra_same.
  - exists f. split; [by apply (same_pending w)|done].
  - rewrite !map_app. cbn. by rewrite H3.
  - rewrite map_app, <-app_assoc. exact H4.
  - done.
  - intros e He. cbn. apply in_app_or in He as [He|[<-|[]]].
    + rewrite lookup_insert_ne by (intros E; by apply (Hne e He)). by apply Hgo.
    + exists file. cbn. rewrite lookup_insert_eq. split; [done|]. by eapply good_written.
  - rewrite map_app, <-app_assoc. exact H5.
  - rewrite <-H6, flat_map_app, <-app_assoc. apply Permutation_app.
    + rewrite !flat_map_concat_map. match goal with |- Permutation (List.concat ?a) (List.concat ?b) => assert (a = b) as ->; [|done] end.
      apply map_ext_in. intros e He. unfold rows_at. cbn. rewrite lookup_insert_ne; [done|]. intros E. by apply (Hne e He).
    + cbn [flat_map app cores]. apply Permutation_app_tail. unfold rows_at. cbn. rewrite lookup_insert_eq.
      unfold rows_of, file, parquet_file. cbn [p_batch]. rewrite batch_core, <-Hcore, app_nil_r. apply Permutation_map. unfold sort_records. apply stable_sort_perm.
Qed.

Lemma writing_steady rest entries : steady (writing rest entries).
Proof. intros d w Hw. by eapply writing_same. Qed.

Lemma merge_partition_triple p rest m :
  Triple (fun w => writing (p :: rest) (m_entries m) w /\ fit w)
    (merge_partition to_json parquet_size store_dir typed_config now id u m p)
    (fun m' w => writing rest (m_entries m') w /\ fit w) safe.
Proof.
  destruct p as [k records]. unfold merge_partition.
  assert (forall P Q : Prop, P /\ Q -> P) as Hleft by by intros P Q [? _].
  eapply triple_bind; [apply template_records; [apply writing_steady|by intros w [? _ _ _ _ _ _ _ _]]|].
  intros [r recs']. cbv beta zeta. cbn [snd].
  set (promoted := Typed.plan _ _ _ _).
  set (P := fun w => (writing ((k, records) :: rest) (m_entries m) w /\ fit w) /\ List.map core recs' = List.map core records).
  assert (forall w, P w -> safe w) as HPs by (intros w [[[? _ _ _ _ _ _ _ _] ?] _]; by split).
  eapply triple_bind with (R := fun _ => P).
  { case_bool_decide; [by intros w os Hquiet Hw|]. apply triple_effect; [|exact HPs]. intros w [[Hw Hf] E]. split; [|done].
    pose proof (same_db _ w (register_keeps promoted)) as Hs. split; [by eapply writing_same|by eapply fit_same]. }
  intros []. cbv beta. set (layout := if bool_decide _ then _ else _).
  set (file := parquet_file to_json (out_path k) (sort_records recs') layout).
  eapply triple_bind with (R := fun st w => st = stats_of parquet_size file /\ exists w1, P w1 /\ w = rename_parquet (out_path k) file w1 /\ fit w).
  - eapply triple_weaken.
    + apply (write_file_triple to_json parquet_size C excuse safe P (fun w => exists w1, P w1 /\ w = rename_parquet (out_path k) (parquet_file to_json (out_path k) (sort_records recs') layout) w1 /\ fit w)).
      * intros w [[Hw Hf] E]. split; [|done]. split; [|done]. eapply writing_same; [exact Hw| |done]. done.
      * intros w Hw. exists w. split_and!; [done|done|]. apply Hw.
      * intros w (w1 & _ & -> & _). cbn. by rewrite lookup_insert_eq.
      * exact HPs.
      * intros w (w1 & [[Hw _] E] & Hw1 & Hf). split; [|done]. by destruct (writing_next _ _ _ _ _ w _ _ Hw Hw1 E).
    + done.
    + by intros st w [? ?].
    + done.
  - intros st w os Hquiet (-> & w1 & [[Hw _] E] & Hw1 & Hf). cbn. split; [|done]. split; [|done]. by eapply writing_next.
Qed.

End Segment.

(** *** The log's part *)

(** Every eligible segment that has records is still to come. *)
Definition todo (rest : list (Z * string)) (w : World) : Prop :=
  forall f, In f (w_wal w) -> unmerged (merged_segments (w_db w)) f <> [] -> eligible f -> In (fst f) (List.map snd rest).

Lemma todo_same rest w w' : same_records w w' -> todo rest w -> todo rest w'.
Proof. intros (H1 & _ & H3 & _) H. unfold todo. by rewrite H1, H3. Qed.

Lemma headed_replays f id u : headed f = Some (id, u) ->
  exists o bs f', Wal.replay_segment from_bytes crc32 (fst f) true (snd f) = inr (o, bs, f').
Proof.
  destruct f as [name file]. unfold headed. cbn [fst snd]. destruct (Wal.segment_id name); [cbn|done].
  unfold Wal.is_incomplete_header, Wal.segment_uuid. destruct (read_full 24 file) as [[header rest]|] eqn:E; [|by destruct (_ && _)].
  apply read_full_some in E as [-> Hl]; [|lia]. destruct (negb _) eqn:Em; [by destruct (_ && _)|]. intros _.
  assert (List.length (take 8 header) = 8%nat /\ List.length (drop 8 header) = 16%nat) as [H8 H16] by (rewrite length_take, length_drop; lia).
  unfold Wal.replay_segment. rewrite <-(take_drop 8 header), <-app_assoc. rewrite read_full_app by lia. rewrite Em.
  rewrite read_full_app by lia. destruct (Wal.replay_loop _ _ _ _ rest) as [bs g]. cbv zeta. by eexists _, _, _.
Qed.

(** A segment being merged: its file is there, unmerged. *)
Definition at_segment (id : Z) (name : string) (u : bytes) (rest : list (Z * string)) (w : World) : Prop :=
  eligible_name name /\ safe w /\ todo ((id, name) :: rest) w /\ exists f, pending w f id u /\ fst f = name.

Lemma replay_triple id name u rest : Triple (at_segment id name u rest) (replay from_bytes crc32 name)
  (fun r w => at_segment id name u rest w /\ exists f, pending w f id u /\ fst f = name /\ batches_of f = snd r) safe.
Proof.
  set (P := at_segment id name u rest). assert (forall w, P w -> safe w) as HP by by intros w (_ & ? & _).
  unfold replay. eapply triple_bind; [apply (triple_effect C excuse safe P P); auto|]. intros []. cbv beta.
  eapply triple_bind; [apply (triple_look C excuse safe)|]. intros found. cbv beta.
  eapply triple_bind; [apply (triple_stop C excuse safe)|].
  { intros w [Hw ->] Hn. destruct Hw as (_ & [[Hi _] _] & _ & [n file] & (Hin & _) & Hfn). cbn in Hfn. subst n.
    apply (In_lookup w name file (mi_names _ Hi)) in Hin. congruence. }
  intros file w os Hquiet [[Hw ->] Hl]. destruct Hw as (Helig & Hsafe & Htodo & [n file'] & Hpend & Hfn). cbn in Hfn. subst n.
  pose proof Hpend as (Hin & Hh & Hm). pose proof (mi_names _ (proj1 (proj1 Hsafe))) as Hnd.
  pose proof (proj1 (In_lookup w name file' Hnd) Hin) as Hl'. assert (file' = file) as -> by congruence. clear Hl'.
  destruct (headed_replays _ _ _ Hh) as (o & bs & f' & Hr). cbn [fst snd] in Hr. rewrite Hr.
  pose proof (replay_again from_bytes crc32 name file o bs f' Hr) as (Hh' & Hb' & Hb).
  destruct (Wal.o_truncated_to o) as [len|].
  2:{ cbn. split; [|done]. split; [split; [done|split; [done|split; [done|]]]|]; exists (name, file); by split_and!. }
  set (Q := fun w => at_segment id name u rest w /\ exists f, pending w f id u /\ fst f = name /\ batches_of f = bs).
  assert (Q (truncate name f' w)) as HQ.
  { assert (pending (truncate name f' w) (name, f') id u) as Hp'.
    { split_and!; [|by rewrite Hh'|done]. cbn. unfold write_file. apply in_map_iff. exists (name, file). cbn. by rewrite String.eqb_refl. }
    split; [|by exists (name, f')]. split; [done|]. split; [|split; [|by exists (name, f')]].
    - split; [by eapply truncate_conserved; [apply Hsafe|exact Hin|exact Hr]|]. destruct (proj2 Hsafe) as [Hfit Hkept]. split.
      + intros HF. destruct (Hfit HF) as [Hd Hs]. split; [done|].
        intros f Hf Hid. apply (truncate_in w name file f' f Hnd Hin) in Hf as [->|[Hf _]]; [|by apply Hs]. right. rewrite Hh', Hh. by eexists.
      + destruct Hkept as (Hk1 & Hk2 & Hk3). split; [|split; [|exact Hk3]].
        * intros f Hf Hne. specialize (Hk1 f Hf Hne). cbn. unfold write_file. apply in_map_iff. exists f. split; [|done].
          destruct (String.eqb_spec (fst f) name) as [e|]; [|done]. exfalso. apply Hne. unfold eligible. by rewrite e.
        * intros f Hf. apply (truncate_in w name file f' f Hnd Hin) in Hf as [->|[Hf _]]; [by apply (Hk2 (name, file))|by apply Hk2].
    - intros f Hf Hne He. apply (truncate_in w name file f' f Hnd Hin) in Hf as [->|[Hf _]]; [by left|]. by apply Htodo. }
  assert (Triple (fun w1 => w1 = w) (_ ← effect (WalErr (Wal.Io name)) (truncate name f');
    _ ← effect (WalErr (Wal.Io name)) (fun w => w); mret (o, bs)) (fun r => fun w => at_segment id name u rest w /\ exists f, pending w f id u /\ fst f = name /\ batches_of f = snd r) safe) as Ht.
  { eapply triple_bind; [apply (triple_effect C excuse safe _ Q); by intros w1 ->|]. intros []. cbv beta.
    eapply triple_bind; [apply (triple_effect C excuse safe Q Q); [done|by intros w1 [(_ & ? & _) _]]|]. intros []. cbv beta. intros w1 os1 Hquiet1 Hw1. by cbn. }
  exact (Ht w os Hquiet eq_refl).
Qed.

Lemma at_same id name u rest w w' : same_records w w' -> w_miner w' = w_miner w -> at_segment id name u rest w -> at_segment id name u rest w'.
Proof.
  intros Hs Hmi (He & [Hc Hf] & Ht & f & Hp & Hn). split; [done|]. split; [|split].
  - split; [by eapply same_conserved|]. by eapply fit_same.
  - by eapply todo_same.
  - exists f. split; [by apply (same_pending w)|done].
Qed.

(** Once merged, or removed, a segment is no longer to come. *)
Lemma todo_commit id name u rest f entries ss w : conserved w0 w -> pending w f id u -> fst f = name ->
  List.NoDup (List.map f_path (files (w_db w)) ++ List.map f_path entries) ->
  todo ((id, name) :: rest) w -> todo rest (committed id u entries ss now w).
Proof.
  intros [Hi _] Hp Hn Hnd Ht g Hg Hne He. destruct (commit_tables id u entries ss now (w_db w) Hnd) as [_ Hm].
  cbn [committed change_db w_db set_db w_wal] in Hg, Hne. rewrite Hm in Hne.
  rewrite (unmerged_commit from_bytes crc32 w f id u g _ Hi Hp Hg) in Hne. case_bool_decide as E; [done|].
  destruct (Ht g Hg Hne He) as [Hgn|Hin]; [|done]. exfalso. apply E. cbn in Hgn.
  destruct f as [n c], g as [n' c']. cbn in *. subst. f_equal. destruct Hp as (Hf & _).
  apply (In_lookup w) in Hf, Hg; [congruence|apply Hi|apply Hi].
Qed.

Lemma safe_miner w w' : conserved w0 w' -> fit w -> w_wal w' = w_wal w -> w_miner w' = w_miner w -> unspoiled w' -> safe w'.
Proof. intros Hc (Hf & H1 & H2 & _) Hw Hm Hu. split; [done|]. unfold fit, sound_log, kept. by rewrite Hw, Hm. Qed.

Lemma fit_remove name w : eligible_name name -> fit w -> fit (remove_segment name w).
Proof.
  intros He [Hf Hk]. split.
  - intros HF. destruct (Hf HF) as [Hd Hs]. split; [done|]. intros f Hin. apply Hs. cbn in Hin. unfold Files.remove_file in Hin.
    by apply filter_In in Hin as [? _].
  - destruct Hk as (Hk1 & Hk2 & Hk3). split; [|split; [|exact Hk3]].
    + intros f Hin Hne. specialize (Hk1 f Hin Hne). cbn. unfold Files.remove_file. apply filter_In. split; [done|].
      destruct (String.eqb_spec (fst f) name) as [e|]; [|done]. exfalso. apply Hne. unfold eligible. by rewrite e.
    + intros f Hfi. cbn in Hfi. unfold Files.remove_file in Hfi. apply filter_In in Hfi as [Hfi _]. by apply Hk2.
Qed.

Lemma todo_remove rest name w : todo rest w -> todo rest (remove_segment name w).
Proof. intros Ht f Hf Hne He. apply Ht; [|done|done]. cbn in Hf. unfold Files.remove_file in Hf. by apply filter_In in Hf as [? _]. Qed.

(** A segment with nothing left of it may go. *)
Lemma remove_triple (rest : list (Z * string)) name : eligible_name name ->
  Triple (fun w => (safe w /\ todo rest w) /\ forall c, In (name, c) (w_wal w) -> unmerged (merged_segments (w_db w)) (name, c) = [])
    (attempt (remove_segment name)) (fun _ w => safe w /\ todo rest w) safe.
Proof.
  intros He. apply triple_attempt.
  - intros w [[[Hc Hf] Ht] Hu]. split; [|by apply todo_remove]. split; [by apply remove_conserved|by apply fit_remove].
  - by intros w [? _].
  - by intros w [[? _] _].
Qed.

Lemma merge_new_triple id name u bytes_ rest acc :
  Triple (at_segment id name u rest)
    (merge_new to_json from_bytes crc32 parquet_size store_dir tenancy typed_config now id name u bytes_ acc)
    (fun _ w => safe w /\ todo rest w) safe.
Proof.
  destruct acc as [r layout].
  intros w1 os1 Hq1 Hw1. assert (eligible_name name) as Helig by apply Hw1. revert w1 os1 Hq1 Hw1.
  unfold merge_new. eapply triple_bind; [apply replay_triple|]. intros [outcome bs]. cbv beta. cbn [snd].
  set (A := fun w => at_segment id name u rest w /\ exists f, pending w f id u /\ fst f = name /\ batches_of f = bs).
  eapply triple_bind with (R := fun pr w => A w /\ group tenancy (List.concat bs) ([], 0) = Some pr).
  { apply triple_stop. intros w [(_ & Hs & _) (f & _ & _ & Hb)] Hn. split; [done|]. intros HF.
    pose proof (batches_decoded from_bytes crc32 decoded f) as Hd. rewrite Hb in Hd.
    assert (forall rs acc, Forall (fun r => u64_range (timestamp_unix_nano r) /\ 0 <= severity r) rs -> group tenancy rs acc <> None) as Hg; [|by eapply Hg].
    clear -HF fit_place. induction rs as [|x rs IH]; intros acc Hrs; [done|]. apply Forall_cons in Hrs as [[_ Hx] Hrs]. cbn [group].
    destruct (place_total tenancy x (fit_place HF) Hx) as [[[k y] rr] ->]. rewrite bind_some. by apply IH. }
  intros [parts rerouted]. cbv beta zeta. set (r0 := if bool_decide _ then _ else _). clearbody r0.
  set (Extra := todo ((id, name) :: rest)).
  assert (forall w w', same_records w w' -> Extra w -> Extra w') as Hextra by by intros w w'; apply todo_same.
  eapply triple_bind with (R := fun m w => writing id name u bs Extra [] (m_entries m) w /\ fit w).
  { eapply triple_weaken.
    - apply (triple_each C excuse safe (fun rest m w => writing id name u bs Extra rest (m_entries m) w /\ fit w)).
      intros p rest' m. by apply merge_partition_triple.
    - intros w [[(_ & Hs & Ht & _) (f & Hp & Hn & Hb)] Hg]. split; [|apply Hs]. cbn [m_entries].
      destruct (group_spec tenancy (List.concat bs) ([], 0) (parts, rerouted) Hg ltac:(constructor)) as [Hnd Hperm]. cbn in Hnd, Hperm.
      assert (Forall (fun r => u64_range (timestamp_unix_nano r)) (List.concat bs)) as Hu64.
      { rewrite <-Hb. eapply Forall_impl; [apply batches_decoded; exact decoded|]. by intros x [? _]. }
      constructor; cbn; try done; [apply Hs|by exists f| |].
      { by apply (group_placed tenancy (List.concat bs) ([], 0) (parts, rerouted) Hg). }
      apply Forall_forall. intros k Hk. apply list_elem_of_In in Hk.
      eapply (group_fits tenancy (List.concat bs) ([], 0) (parts, rerouted) Hg); [done|done|exact Hk].
    - by intros m w Hw.
    - done. }
  intros m. cbv beta. set (r1 := add_files_written _ _). clearbody r1.
  set (W := fun w => writing id name u bs Extra [] (m_entries m) w /\ fit w).
  assert (forall w, W w -> safe w) as HW by (intros w [[? _ _ _ _ _ _ _ _] ?]; by split).
  eapply triple_bind; [apply (triple_look C excuse safe W)|]. intros shapes. cbv beta.
  eapply triple_bind; [apply (triple_effect C excuse safe _ W)|].
  { intros w [[Hw Hf] _]. pose proof (same_db _ w (shapes_keep shapes)) as Hs. split; [by eapply writing_same|by eapply fit_same]. }
  { by intros w [? _]; apply HW. }
  intros []. cbv beta.
  set (D := fun w => (safe w /\ todo rest w) /\ forall c, In (name, c) (w_wal w) -> unmerged (merged_segments (w_db w)) (name, c) = []).
  eapply triple_bind; [apply (triple_effect C excuse safe W D); [|exact HW]|].
  { intros w [[H1 H2 (f & Hp & Hn & Hb) H3 H4 _ Hgo H5 H6] Hf].
    rewrite app_nil_r in *. rewrite <-Hb in H6.
    assert (List.NoDup (List.map f_path (m_entries m))) as Hnd.
    { rewrite H3. rewrite Forall_forall in H5. revert H4 H5. generalize (List.map f_key (m_entries m)) as ks. clear.
      induction ks as [|k ks IH]; intros Hnd Hfit; [constructor|]. inversion Hnd as [|? ? Hk Hnd']; subst. cbn. constructor; [|apply IH; [done|]; intros x Hx; apply Hfit; by right].
      intros (k' & E & Hin)%in_map_iff. apply app_inj_tail in E as [E _]. apply dir_inj in E as ->; [done| |apply Hfit; by left].
      apply Hfit. right. by apply list_elem_of_In. }
    assert (forall e, In e (m_entries m) -> List.last (f_path e) "" = file_name_for_segment id u) as Hlast.
    { intros e He. assert (In (f_path e) (List.map (out_path id u) (List.map f_key (m_entries m)))) as (k & <- & _)%in_map_iff by (rewrite <-H3; by apply in_map).
      apply last_snoc. }
    assert (conserved w0 (committed id u (m_entries m) (sighting_rows (m_sightings m)) now w)) as Hc.
    { apply (commit_conserved from_bytes crc32 Good w0 w f); try done. }
    assert (List.NoDup (List.map f_path (files (w_db w)) ++ List.map f_path (m_entries m))) as Hall.
    { apply NoDup_app_maps; [apply H1|done|]. intros a b Ha Hbb E. apply (mi_fresh _ (proj1 H1) f id u a Hp Ha). rewrite E. by apply Hlast. }
    split; [split; [|by eapply todo_commit]|].
    { apply (safe_miner w); try done. intros g id' u' Hg Hne. destruct Hf as (_ & Hk1 & _ & Hk3).
      cbn [committed change_db w_db set_db]. destruct (commit_tables id u (m_entries m) (sighting_rows (m_sightings m)) now (w_db w) Hall) as [_ Hm].
      rewrite Hm. rewrite lookup_insert_ne; [by apply (Hk3 g id')|]. intros <-. apply Hne.
      assert (f = g) as <-; [|unfold eligible; by rewrite Hn]. apply (mi_uuid _ (proj1 H1) f g id id' u Hp). split_and!; [|apply Hg|by apply (Hk3 g id')].
      apply Hk1; [apply Hg|done]. }
    intros c Hin. cbn [committed change_db w_db set_db w_wal] in Hin |- *.
    destruct (commit_tables id u (m_entries m) (sighting_rows (m_sightings m)) now (w_db w) Hall) as [_ Hm]. rewrite Hm.
    rewrite (unmerged_commit from_bytes crc32 w f id u (name, c) _ (proj1 H1) Hp Hin). rewrite bool_decide_eq_true_2; [done|].
    destruct f as [n c']. cbn in Hn. subst n. f_equal. destruct Hp as (Hfi & _).
    apply (In_lookup w) in Hin, Hfi; [congruence|apply (proj1 H1)|apply (proj1 H1)]. }
  intros []. cbv beta. eapply triple_bind; [apply (triple_look C excuse safe D)|]. intros templates. cbv beta.
  eapply triple_bind; [apply (triple_effect C excuse safe _ D)|].
  { intros w [[[[Hc Hf] Ht] Hu] _]. pose proof (same_db _ w (save_keeps templates)) as Hs. split; [split|].
    - apply (safe_miner w); [by eapply same_conserved|done|done|done|]. destruct Hs as (_ & _ & Hm & _). unfold unspoiled. rewrite Hm. apply Hf.
    - by eapply todo_same.
    - destruct Hs as (_ & _ & Hm & _). rewrite Hm. exact Hu. }
  { by intros w [[[? _] _] _]. }
  intros []. cbv beta. eapply triple_bind; [by apply remove_triple|]. intros removed. cbv beta.
  intros w os Hquiet Hw. by cbn.
Qed.

Definition seg_listed (seg : Z * string) : Prop := Wal.segment_id (snd seg) = Some (fst seg).

Lemma merge_segment_triple seg rest acc : seg_listed seg ->
  Triple (fun w => safe w /\ todo (seg :: rest) w)
    (merge_segment to_json from_bytes crc32 parquet_size store_dir tenancy typed_config active_segment now acc seg)
    (fun _ w => safe w /\ todo rest w) safe.
Proof.
  destruct seg as [id name], acc as [r layout]. unfold seg_listed. cbn [fst snd]. intros Hid. unfold merge_segment.
  destruct (match active_segment with Some active => active <=? id | None => false end) eqn:Eact.
  { intros w os Hquiet [Hs Ht]. cbn. split; [|done]. split; [done|]. intros f Hf Hne He. destruct (Ht f Hf Hne He) as [Hn|]; [|done]. exfalso.
    cbn in Hn. unfold eligible, eligible_name in He. rewrite <-Hn, Hid in He. destruct active_segment; [|done]. apply Z.leb_le in Eact. lia. }
  assert (eligible_name name) as Helig.
  { unfold eligible_name. rewrite Hid. destruct active_segment; [|done]. apply Z.leb_gt in Eact. lia. }
  set (P := fun w => safe w /\ todo ((id, name) :: rest) w).
  assert (forall w, P w -> safe w) as HP by by intros w [? _].
  eapply triple_bind; [apply (triple_look C excuse safe P)|]. intros file. cbv beta zeta.
  set (F := fun w => P w /\ file = default [] (lookup_file name (w_wal w))).
  assert (forall w, F w -> safe w) as HF by (intros w [? _]; by apply HP).
  eapply triple_bind; [apply (triple_effect C excuse safe F F); [done|done]|]. intros []. cbv beta.
  assert (forall w c, F w -> In (name, c) (w_wal w) -> c = file) as Hfile.
  { intros w c [[[[Hi _] _] _] ->] Hin. apply (In_lookup w) in Hin; [|apply Hi]. by rewrite Hin. }
  assert (forall w, F w -> (forall c, In (name, c) (w_wal w) -> unmerged (merged_segments (w_db w)) (name, c) = []) ->
    (safe w /\ todo rest w) /\ forall c, In (name, c) (w_wal w) -> unmerged (merged_segments (w_db w)) (name, c) = []) as Hdone.
  { intros w [[Hs Ht] _] Hu. split; [|done]. split; [done|]. intros [n c] Hg Hne He. destruct (Ht _ Hg Hne He) as [Hn|]; [|done].
    cbn in Hn. subst n. by destruct (Hne (Hu c Hg)). }
  destruct (Wal.is_incomplete_header file) eqn:Einc.
  { eapply triple_bind with (R := fun _ w => safe w /\ todo rest w); [|by intros removed w os Hquiet Hw; cbn].
    eapply triple_weaken; [by apply (remove_triple rest name)| |done|done].
    intros w Hw. apply Hdone; [done|]. intros c Hc. rewrite (Hfile w c Hw Hc). unfold unmerged, headed. cbn [fst snd]. rewrite Hid. cbn. by rewrite Einc. }
  eapply triple_bind; [apply (triple_effect C excuse safe F F); [done|done]|]. intros []. cbv beta.
  destruct (Wal.segment_uuid name file) as [e|u] eqn:Eu.
  { intros w os Hquiet Hw. cbn. split; [by apply HF|]. intros _ HFit. destruct Hw as [[[Hc [Hf _]] _] Hfi]. destruct (Hf HFit) as [_ Hsound].
    destruct (lookup_file name (w_wal w)) as [c|] eqn:El; [|by subst file]. cbn in Hfi. subst c.
    destruct (Hsound (name, file)) as [Hs|Hs]; [apply (In_lookup w); [apply Hc|done]|by eexists|cbn in Hs; congruence|].
    unfold headed in Hs. cbn [fst snd] in Hs. rewrite Hid, Einc, Eu in Hs. cbn in Hs. by destruct Hs. }
  assert (headed (name, file) = Some (id, u)) as Hh by (unfold headed; cbn [fst snd]; rewrite Hid, Einc, Eu; done).
  eapply triple_bind; [apply (triple_effect C excuse safe F F); [done|done]|]. intros []. cbv beta.
  eapply triple_bind; [apply (triple_look C excuse safe F)|]. intros merged. cbv beta. destruct merged.
  - eapply triple_bind with (R := fun _ w => safe w /\ todo rest w); [|by intros removed w os Hquiet Hw; cbn].
    eapply triple_weaken; [by apply (remove_triple rest name)| |done|done].
    intros w [Hw Hm]. apply Hdone; [done|]. intros c Hc. rewrite (Hfile w c Hw Hc). unfold unmerged. rewrite Hh.
    symmetry in Hm. apply bool_decide_eq_true in Hm as [x ->]. done.
  - eapply triple_weaken; [apply (merge_new_triple id name u _ rest)| |done|done].
    intros w [Hw Hm]. pose proof Hw as [[Hs Ht] Hfi]. split; [done|]. split; [done|]. split; [done|]. exists (name, file). split; [|done].
    symmetry in Hm. apply bool_decide_eq_false in Hm. split_and!; [|done|by apply eq_None_not_Some].
    destruct (lookup_file name (w_wal w)) as [c|] eqn:El; [|by subst file].
    cbn in Hfi. subst c. apply (In_lookup w); [apply Hs|done].
Qed.

Lemma clean_triple : Triple safe clean_temp_files (fun _ => safe) safe.
Proof.
  unfold clean_temp_files. eapply triple_bind; [apply (triple_look C excuse safe safe)|]. intros ps. cbv beta.
  eapply triple_weaken; [apply (triple_each C excuse safe (fun _ _ => safe))| |done|done]; [|by intros w [? _]].
  intros p rest n. eapply triple_bind; [apply (triple_attempt C excuse safe safe (fun _ => safe)); [|done|done]|by intros b w os Hquiet Hw].
  intros w [Hc Hf]. apply (safe_miner w); [|done|done|done|apply Hf]. by eapply same_conserved.
Qed.

Lemma meta_safe d w : safe w -> parquet d = parquet (w_disk w) -> safe (set_disk d w).
Proof.
  intros [Hc Hf] Hp. apply (safe_miner w); [|done|done|done|apply Hf]. eapply same_conserved; [exact Hc|]. repeat split.
  intros e _. cbn. by rewrite Hp.
Qed.

Lemma export_triple r (T : World -> Prop) : (forall d w, T w -> T (set_disk d w)) ->
  Triple (fun w => safe w /\ T w) (export_dictionary meta_size store_dir tenancy r) (fun _ w => safe w /\ T w) safe.
Proof.
  intros HT. set (P := fun w => safe w /\ T w). assert (forall w, P w -> safe w) as HP by by intros w [? _].
  unfold export_dictionary. eapply triple_bind with (R := fun _ => P).
  { destruct (0 <? segments_merged r); [apply (triple_ret C excuse safe (inr true) (fun _ => P))|].
    eapply triple_weaken; [apply (triple_catch C excuse P _ (fun _ => P) P)|done|by intros [e|a] w Hw|exact HP].
    unfold missing. eapply triple_bind; [apply (triple_effect C _ P P P); [done|done]|]. intros []. cbv beta.
    eapply triple_weaken; [apply (triple_look C _ P P)|done|by intros a w [? _]|done]. }
  intros [e|[|]]; cbv beta iota; [apply (triple_ret C excuse safe r (fun _ => P))| |apply (triple_ret C excuse safe r (fun _ => P))].
  eapply triple_bind with (R := fun _ => P).
  2:{ intros written w os Hquiet Hw. cbn. by destruct written. }
  eapply triple_weaken; [apply (triple_catch C excuse P _ (fun _ => P) P)|done|by intros [e|a] w Hw|exact HP].
  set (ok := fun e => match e with Failed _ => False | _ => excuse e end).
  unfold export. eapply triple_bind; [apply (triple_effect C ok P P P); [done|done]|]. intros []. cbv beta.
  eapply triple_bind; [apply (triple_look C ok P P)|]. intros rows. cbv beta.
  eapply triple_bind; [apply (triple_effect C ok P _ P); [by intros w [? _]|by intros w [? _]]|]. intros []. cbv beta.
  eapply triple_bind; [apply (triple_look C ok P P)|]. intros history. cbv beta. unfold write_all.
  eapply triple_weaken; [apply (triple_each C ok P (fun _ _ => P))|by intros w [? _]|done|done].
  assert (forall p f, triple C ok P (write_meta meta_size p f) (fun _ => P) P) as Hw.
  { intros p f. assert (forall g, (forall w, exists d, g w = set_disk d w /\ parquet d = parquet (w_disk w)) -> forall w, P w -> P (g w)) as Hg.
    { intros g Hg w [Hs Ht]. destruct (Hg w) as (d & -> & Hd). split; [by apply meta_safe|by apply HT]. }
    unfold write_meta.
    eapply triple_bind; [apply (triple_effect C ok P P P); [|done]|]. { apply Hg. intros w. by eexists. } intros []. cbv beta.
    eapply triple_bind; [apply (triple_effect C ok P P P); [done|done]|]. intros []. cbv beta.
    eapply triple_bind; [apply (triple_effect C ok P P P); [|done]|]. { apply Hg. intros w. by eexists. } intros []. cbv beta.
    eapply triple_bind; [apply (triple_effect C ok P P P); [done|done]|]. intros []. cbv beta. apply (triple_ret C ok P _ (fun _ => P)). }
  intros s rest rep. unfold write_scope. eapply triple_bind; [apply Hw|]. intros b1. cbv beta.
  eapply triple_bind; [apply Hw|]. intros b2. cbv beta. by intros w os Hquiet Hw'.
Qed.

Lemma merge_all_triple : Triple safe
  (merge_all to_json from_bytes crc32 parquet_size meta_size store_dir tenancy typed_config active_segment now)
  (fun _ w => safe w /\ todo [] w) safe.
Proof.
  unfold merge_all. eapply triple_bind; [apply clean_triple|].
  intros cleaned. cbv beta zeta. eapply triple_bind; [apply (triple_effect C excuse safe safe safe); done|]. intros []. cbv beta.
  eapply triple_bind; [apply (triple_look C excuse safe safe)|]. intros layout. cbv beta.
  eapply triple_bind; [apply (triple_effect C excuse safe _ safe); by intros w [? _]|]. intros []. cbv beta.
  eapply triple_bind; [apply (triple_look C excuse safe safe)|]. intros segments. cbv beta.
  eapply triple_bind with (R := fun acc w => safe w /\ todo [] w).
  - eapply triple_weaken.
    + apply (triple_each C excuse safe (fun rest _ w => (safe w /\ todo rest w) /\ Forall seg_listed rest)).
      intros seg rest acc w os Hquiet [Hw Hl]. apply Forall_cons in Hl as [Hs Hl].
      pose proof (merge_segment_triple seg rest acc Hs w os Hquiet Hw) as H.
      destruct (merge_segment _ _ _ _ _ _ _ _ _ acc seg (w, os)) as [[e|a] [w' os']]; [done|]. by destruct H.
    + intros w [Hw ->]. split; [split; [done|]|].
      * intros f Hf Hne _. unfold unmerged, headed in Hne. destruct (Wal.segment_id (fst f)) as [id|] eqn:Ei; [|done].
        apply in_map_iff. exists (id, fst f). split; [done|]. apply list_elem_of_In. unfold Wal.list_segments. rewrite stable_sort_perm.
        apply list_elem_of_omap. exists f. split; [by apply list_elem_of_In|]. by rewrite Ei.
      * apply Forall_forall. intros s Hs. unfold Wal.list_segments in Hs. rewrite stable_sort_perm in Hs.
        apply list_elem_of_omap in Hs as (f & _ & Hf). unfold seg_listed. destruct (Wal.segment_id (fst f)) eqn:Ei; [|done]. by injection Hf as <-.
    + by intros acc w [? _].
    + done.
  - intros acc. apply export_triple. done.
Qed.
End Pass.

(** ** Any number of passes *)

(** A pass: its configuration, the miner the process has, and what happens to
    its effects. *)
Record Pass := mkPass {
  ps_tenancy : Tenancy;
  ps_typed : TypedColumnsConfig;
  ps_active : option Z;
  ps_now : Z;
  ps_miner : Drain.Drain;
  ps_script : list Outcome
}.
Definition pass_ok (p : Pass) : Prop := placeable (ps_tenancy p) /\ Drain.Inv (ps_miner p).

Section Passes.
Context (to_json : list Attr -> string) (from_bytes : bytes -> option (list LogRecord)) (crc32 : bytes -> Z).
Context (parquet_size : Parquet -> Z) (meta_size : MetaFile -> Z) (store_dir : path).
Hypothesis decoded : forall p b, from_bytes p = Some b -> Forall (fun r => u64_range (timestamp_unix_nano r) /\ 0 <= severity r) b.

Definition run_pass (p : Pass) (w : World) : (Stop + MergeReport) * (World * list Outcome) :=
  merge_all to_json from_bytes crc32 parquet_size meta_size store_dir (ps_tenancy p) (ps_typed p) (ps_active p) (ps_now p)
    (set_miner (ps_miner p) w, ps_script p).
Definition after (w : World) (p : Pass) : World := fst (snd (run_pass p w)).

(** A catalogued file whose numbers are its footer's and whose rows were placed
    there. *)
Definition right_file (tenancy : Tenancy) (e : FileEntry) (x : Parquet) : Prop :=
  f_stats e = stats_of parquet_size x /\
  forall row, In row (base_rows (p_batch x)) -> exists r r' b,
    u64_range (timestamp_unix_nano r) /\ place tenancy r = Some (f_key e, r', b) /\ core r' = core_row row.

Lemma right_written tenancy p k records recs' l : from_place tenancy (k, records) -> List.map core recs' = List.map core records ->
  right_file tenancy (mkEntry p k (stats_of parquet_size (parquet_file to_json p (sort_records recs') l))) (parquet_file to_json p (sort_records recs') l).
Proof.
  intros Hk Hc. split; [done|]. intros row Hrow. apply (in_map core_row) in Hrow. unfold parquet_file in Hrow. cbn [p_batch] in Hrow.
  rewrite batch_core in Hrow. assert (In (core_row row) (List.map core records)) as (r' & Hr & Hin)%in_map_iff.
  { rewrite <-Hc. eapply Permutation_in; [apply Permutation_map, stable_sort_perm|exact Hrow]. }
  destruct (Hk r' Hin) as (r & b & Ht & Hp). by exists r, r', b.
Qed.

Lemma set_miner_conserved Good d w : merge_inv w -> conserved from_bytes crc32 Good w (set_miner d w).
Proof.
  intros Hi. apply (same_conserved from_bytes crc32 Good w w); [|by repeat split]. split; [done|]. split; [done|]. intros e He. by left.
Qed.

(** What holds after a pass, whatever becomes of it. *)
Lemma pass_safe (Fit : Prop) p w : merge_inv w -> (Fit -> pass_ok p /\ sound_log w) ->
  safe from_bytes crc32 (ps_active p) w (right_file (ps_tenancy p)) Fit (after w p) /\
  (quiet (ps_script p) -> Fit -> exists r os, run_pass p w = (inr r, (after w p, os)) /\
     todo from_bytes crc32 (ps_active p) [] (after w p)).
Proof.
  intros Hi HF.
  pose proof (merge_all_triple to_json from_bytes crc32 parquet_size meta_size store_dir (ps_tenancy p) (ps_typed p) (ps_active p) (ps_now p)
    decoded w (right_file (ps_tenancy p)) (right_written (ps_tenancy p)) (quiet (ps_script p)) Fit (fun H => proj1 (proj1 (HF H))) (set_miner (ps_miner p) w) (ps_script p)) as H.
  assert (safe from_bytes crc32 (ps_active p) w (right_file (ps_tenancy p)) Fit (set_miner (ps_miner p) w)) as Hs.
  { split; [by apply set_miner_conserved|]. split; [|split; [by intros f Hf _|split; [by intros f Hf; apply in_map|by intros f id u (_ & _ & ?) _]]]. intros F. destruct (HF F) as [[_ Hd] Hl]. by split. }
  specialize (H (fun q => q) Hs). unfold after, run_pass.
  destruct (merge_all _ _ _ _ _ _ _ _ _ _ _) as [[e|r] [w' os']]; cbn [fst snd].
  - destruct H as [H He]. split; [done|]. intros Hq F. by destruct (He Hq).
  - destruct H as [[H Ht] _]. split; [done|]. intros _ _. by exists r, os'.
Qed.

Lemma flat_map_nil {A B} (g : A -> list B) l : (forall a, In a l -> g a = []) -> flat_map g l = [].
Proof. induction l as [|a l IH]; intros H; [done|]. cbn [flat_map]. rewrite H by (by left). apply IH. intros x ?. apply H. by right. Qed.

(** C3: a merge neither loses nor repeats a record.  Whatever effect of the pass
    fails and wherever the process dies, the rows of the catalogued files
    together with the records of the segments still to merge are the same
    multiset as before; the segment the writer holds and every newer one are
    left as they are; and what the argument needs of the directory holds again,
    so the next pass may start there. *)
Theorem merge_conserves p w : merge_inv w ->
  merge_inv (after w p) /\
  Permutation (visible (after w p) ++ waiting from_bytes crc32 (after w p)) (visible w ++ waiting from_bytes crc32 w) /\
  forall f id active, In f (w_wal w) -> Wal.segment_id (fst f) = Some id -> ps_active p = Some active -> active <= id -> In f (w_wal (after w p)).
Proof.
  intros Hi. destruct (pass_safe False p w Hi ltac:(done)) as [[(Hi' & Hp & _) [_ [Hk _]]] _]. split; [done|]. split; [done|].
  intros f id active Hf Hid Ha Hle. apply Hk; [done|]. unfold eligible, eligible_name. rewrite Hid, Ha. lia.
Qed.

Lemma after_sound p w : merge_inv w -> pass_ok p -> sound_log w ->
  merge_inv (after w p) /\ sound_log (after w p) /\
  Permutation (visible (after w p) ++ waiting from_bytes crc32 (after w p)) (visible w ++ waiting from_bytes crc32 w).
Proof.
  intros Hi Hp Hl. destruct (pass_safe True p w Hi ltac:(done)) as [[(Hi' & Hpe & _) [Hf _]] _]. split_and!; [done| |done].
  by apply Hf.
Qed.

(** A pass that nothing disturbs, without a writer, leaves nothing to merge. *)
Lemma quiet_pass_drains p w : merge_inv w -> sound_log w -> pass_ok p -> quiet (ps_script p) -> ps_active p = None ->
  exists report os, run_pass p w = (inr report, (after w p, os)) /\ waiting from_bytes crc32 (after w p) = [].
Proof.
  intros Hi Hl Hp Hq Ha. destruct (pass_safe True p w Hi ltac:(done)) as [_ Hret]. destruct (Hret Hq I) as (r & os & Hrun & Htodo).
  exists r, os. split; [done|]. unfold waiting. apply flat_map_nil. intros f Hf.
  destruct (unmerged _ _ _ f) as [|c cs] eqn:E; [done|]. exfalso. apply (Htodo f Hf); [by rewrite E|].
  unfold eligible, eligible_name. rewrite Ha. by destruct (Wal.segment_id _).
Qed.

(** C2: every record is merged exactly once.  After any number of passes that
    failed or died anywhere, one pass whose effects are done, without a writer,
    returns: nothing waits any more, and the catalogued rows are those of the
    start and the records that waited then, each as often. *)
Theorem merged_exactly_once passes p w : merge_inv w -> sound_log w -> Forall pass_ok passes ->
  pass_ok p -> quiet (ps_script p) -> ps_active p = None ->
  let w1 := foldl after w passes in
  exists report os, run_pass p w1 = (inr report, (after w1 p, os)) /\ waiting from_bytes crc32 (after w1 p) = [] /\
    Permutation (visible (after w1 p)) (visible w ++ waiting from_bytes crc32 w).
Proof.
  intros Hi Hl Hall Hp Hq Ha.
  assert (merge_inv (foldl after w passes) /\ sound_log (foldl after w passes) /\
    Permutation (visible (foldl after w passes) ++ waiting from_bytes crc32 (foldl after w passes)) (visible w ++ waiting from_bytes crc32 w)) as (Hi1 & Hl1 & Hp1).
  { clear Hp Hq Ha p. revert w Hi Hl. induction Hall as [|q passes Hq _ IH]; intros w Hi Hl; [done|]. cbn [foldl].
    destruct (after_sound q w Hi Hq Hl) as (Hi' & Hl' & Hp'). destruct (IH (after w q) Hi' Hl') as (H1 & H2 & H3). split_and!; [done|done|].
    by rewrite H3. }
  cbv zeta. set (w1 := foldl after w passes) in *.
  destruct (pass_safe True p w1 Hi1 ltac:(done)) as [[(_ & Hpe & _) _] _].
  destruct (quiet_pass_drains p w1 Hi1 Hl1 Hp Hq Ha) as (r & os & Hrun & Hw).
  exists r, os. split_and!; [done|done|]. rewrite <-Hp1, <-Hpe, Hw, app_nil_r. done.
Qed.

(** ** Rows found again *)

(** Every catalogued file is there, with its numbers and its rows in place. *)
Definition catalog_right (tenancy : Tenancy) (w : World) : Prop :=
  forall e, In e (files (w_db w)) -> exists x, parquet (w_disk w) !! f_path e = Some x /\ right_file tenancy e x.

Lemma least_le l : forall z, least z l <= z /\ forall x, In x l -> least z l <= x.
Proof.
  induction l as [|y l IH]; intros z; cbn [least]; [split; [lia|done]|]. destruct (IH (Z.min z y)) as [H1 H2].
  split; [lia|]. intros x [<-|Hx]; [lia|by apply H2].
Qed.
Lemma greatest_ge l : forall z, z <= greatest z l /\ forall x, In x l -> x <= greatest z l.
Proof.
  induction l as [|y l IH]; intros z; cbn [greatest]; [split; [lia|done]|]. destruct (IH (Z.max z y)) as [H1 H2].
  split; [lia|]. intros x [<-|Hx]; [lia|by apply H2].
Qed.

Lemma stats_cover x row : In row (base_rows (p_batch x)) ->
  min_ts_nanos (stats_of parquet_size x) <= b_timestamp row <= max_ts_nanos (stats_of parquet_size x).
Proof.
  intros Hrow. unfold stats_of. assert (In (b_timestamp row) (List.map b_timestamp (base_rows (p_batch x)))) as Hin by by apply in_map.
  unfold column_range. destruct (List.map b_timestamp (base_rows (p_batch x))) as [|t ts] eqn:E; [done|].
  destruct (match List.map b_observed _ with [] => _ | _ => _ end) as [olo ohi]. cbn [min_ts_nanos max_ts_nanos]. rewrite <-E in *.
  split; [by apply least_le|by apply greatest_ge].
Qed.

(** What was merged is found.  A pass, whatever becomes of it, leaves a
    catalog that is right about its files; and in such a catalog a read of a
    time range at a severity and up opens the file of every row of its tenant
    and index whose time and severity are in the range. *)
Theorem merged_rows_are_found p w : merge_inv w -> catalog_right (ps_tenancy p) w ->
  let w' := after w p in
  catalog_right (ps_tenancy p) w' /\
  forall e x row lb bs from_nanos to_nanos s,
    In e (files (w_db w')) -> parquet (w_disk w') !! f_path e = Some x -> In row (base_rows (p_batch x)) ->
    buckets (ps_tenancy p) (tenant (f_key e)) (index (f_key e)) = Some lb -> level_buckets_new bs = inr lb ->
    from_nanos <= b_timestamp row <= to_nanos -> 0 <= s <= b_severity row ->
    In e (files_overlapping (tenant (f_key e)) (index (f_key e)) from_nanos to_nanos (Some (names_from lb s)) (w_db w')).
Proof.
  intros Hi Hr w'. destruct (pass_safe False p w Hi ltac:(done)) as [[(_ & _ & Hpl) _] _]. fold w' in Hpl.
  assert (catalog_right (ps_tenancy p) w') as Hr'.
  { intros e He. destruct (Hpl e He) as [[He0 Hsame]|Hx]; [|done]. destruct (Hr e He0) as (x & Hx & ?). exists x. by rewrite Hsame. }
  split; [done|]. intros e x row lb bs from_nanos to_nanos s He Hx Hrow Hb Hlb Ht Hs.
  destruct (Hr' e He) as (x' & Hx' & Hst & Hrows). assert (x' = x) as -> by congruence.
  destruct (Hrows row Hrow) as (r & r' & b & _ & Hp & Hc). pose proof (stats_cover x row Hrow) as Hcov. rewrite <-Hst in Hcov.
  apply list_elem_of_In. eapply (range_read_opens bs lb _ _ _ _ s _ e
    (mkRecord [] (b_timestamp row) 0 (b_severity row) None "" None None None [] None)); [done|lia|by apply list_elem_of_In|done|done| |cbn; lia|cbn; lia].
  constructor; cbn; [lia|lia|].
  assert (severity r = b_severity row) as <- by (pose proof (place_core _ _ _ _ _ Hp); unfold core, core_row in *; congruence).
  by eapply place_bucket.
Qed.
End Passes.

(** ** Witnesses

    A log of one segment with a torn tail; a pass that dies after its first file
    is renamed, and one that is let finish. *)

Definition once_uuid : bytes := List.repeat Byte.x07 16.
Definition once_record : LogRecord := new_record (List.repeat Byte.x01 16) 7200000000001 17 "boom 7".
Definition once_encode (b : list LogRecord) : option bytes :=
  if bool_decide (b = replicate (List.length b) once_record) then Some (Byte.x00 :: replicate (List.length b) Byte.x01) else None.
Definition once_decode (p : bytes) : option (list LogRecord) :=
  match p with [] => None | _ :: p' => Some (replicate (List.length p') once_record) end.
Definition once_crc (p : bytes) : Z := Z.of_nat (List.length p) mod 251.
Definition once_segment (n : nat) : bytes := Wal.MAGIC ++ once_uuid ++ Wal.frame once_encode once_crc (replicate n once_record) ++ [Byte.x05; Byte.x00].
Definition once_world : World :=
  mkWorld [(Wal.segment_name 1, once_segment 3); ("notes.txt", [])] (mkDisk ∅ ∅ ∅) db0 (Drain.new Drain.drain_config_default).
Definition once_pass (script : list Outcome) : Pass :=
  mkPass (single level_buckets_default) typed_config_default None 1700000000 (Drain.new Drain.drain_config_default) script.
(** Twelve effects up to the rename, and the read of the footer. *)
Definition once_death : list Outcome := replicate 13 Done ++ [Dies].
Definition once_run : Pass -> World -> (Stop + MergeReport) * (World * list Outcome) :=
  run_pass (fun _ => "[]") once_decode once_crc (fun _ => 100) (fun _ => 10) ["store"].
Definition once_after : World -> Pass -> World := after (fun _ => "[]") once_decode once_crc (fun _ => 100) (fun _ => 10) ["store"].

Lemma once_decoded p b : once_decode p = Some b -> Forall (fun r => u64_range (timestamp_unix_nano r) /\ 0 <= severity r) b.
Proof.
  destruct p as [|x p]; [done|]. intros [= <-]. apply Forall_forall. intros r [-> _]%elem_of_replicate. cbn. unfold u64_range, u64_max. lia.
Qed.

Lemma once_headed f id u : In f (w_wal once_world) -> headed f = Some (id, u) -> f = (Wal.segment_name 1, once_segment 3).
Proof. intros [<-|[<-|[]]]; [done|]. vm_compute. discriminate. Qed.

Lemma once_inv : merge_inv once_world.
Proof.
  constructor.
  - vm_compute. repeat constructor; [|intros []]. intros [H|[]]. discriminate.
  - constructor.
  - intros f g id id' u (Hf & Hh & _) (Hg & Hh' & _). by rewrite (once_headed f id u Hf Hh), (once_headed g id' u Hg Hh').
  - intros f g id id' u u' (Hf & Hh & _) (Hg & Hh' & _) _. by rewrite (once_headed f id u Hf Hh), (once_headed g id' u' Hg Hh').
  - intros f id u e _ [].
Qed.

Lemma once_sound : sound_log once_world.
Proof. intros f [<-|[<-|[]]]; cbn [fst snd]; [right; vm_compute; by eexists|]. intros [x H]. vm_compute in H. discriminate. Qed.

Lemma once_pass_ok script : pass_ok (once_pass script).
Proof.
  assert (level_buckets_new level_buckets_default = inr level_buckets_default) as Hb by (vm_compute; reflexivity).
  assert (cover level_buckets_default) as Hc by (by apply (level_buckets_new_cover level_buckets_default)).
  split; [split|apply Drain.new_inv].
  - unfold single. cbn. split_and!; [done|vm_compute; reflexivity| |repeat constructor; intros []].
    constructor; [|constructor]. split_and!; [vm_compute; reflexivity|done| |repeat constructor; intros []].
    constructor; [|constructor]. split; [vm_compute; reflexivity|]. by exists level_buckets_default.
  - intros c i [<-|[]] [<-|[]]. exact Hc.
Qed.

Lemma merge_conserves_witness :
  let w := once_after once_world (once_pass once_death) in
  List.length (map_to_list (parquet (w_disk w))) = 1%nat /\ files (w_db w) = [] /\
  Permutation (visible w ++ waiting once_decode once_crc w) (visible once_world ++ waiting once_decode once_crc once_world).
Proof.
  cbv zeta. split; [vm_compute; reflexivity|]. split; [vm_compute; reflexivity|].
  apply (merge_conserves (fun _ => "[]") once_decode once_crc (fun _ => 100) (fun _ => 10) ["store"] once_decoded _ once_world once_inv).
Defined.

Lemma merged_exactly_once_witness :
  let w1 := foldl once_after once_world [once_pass once_death] in
  exists report os, once_run (once_pass []) w1 = (inr report, (once_after w1 (once_pass []), os)) /\
    waiting once_decode once_crc (once_after w1 (once_pass [])) = [] /\
    Permutation (visible (once_after w1 (once_pass []))) (replicate 3 (core once_record)).
Proof.
  apply (merged_exactly_once (fun _ => "[]") once_decode once_crc (fun _ => 100) (fun _ => 10) ["store"] once_decoded
    [once_pass once_death] (once_pass []) once_world once_inv once_sound).
  - constructor; [apply once_pass_ok|constructor].
  - apply once_pass_ok.
  - constructor.
  - reflexivity.
Defined.

Lemma once_catalog_right : catalog_right (fun _ => 100) (single level_buckets_default) once_world.
Proof. intros e []. Qed.

Lemma merged_rows_are_found_witness :
  let w := once_after once_world (once_pass []) in
  exists e, files (w_db w) = [e] /\ tenant (f_key e) = "default" /\ index (f_key e) = "default" /\ st_rows (f_stats e) = 3 /\
    In e (files_overlapping (tenant (f_key e)) (index (f_key e)) 7200000000000 7200000000002 (Some (names_from level_buckets_default 17)) (w_db w)).
Proof.
  pose proof (merged_rows_are_found (fun _ => "[]") once_decode once_crc (fun _ => 100) (fun _ => 10) ["store"] once_decoded
    (once_pass []) once_world once_inv once_catalog_right) as [_ H].
  destruct (files (w_db (once_after once_world (once_pass [])))) as [|e l] eqn:E; [vm_compute in E; discriminate|].
  pose proof E as E'. vm_compute in E'. injection E' as Ee El. subst l. exists e.
  split; [exact E|]. subst e. split; [reflexivity|]. split; [reflexivity|]. split; [reflexivity|].
  match goal with |- In ?e0 _ => eapply (H e0 _ _ level_buckets_default level_buckets_default) end.
  - vm_compute. left. reflexivity.
  - vm_compute. reflexivity.
  - left. reflexivity.
  - vm_compute. reflexivity.
  - vm_compute. reflexivity.
  - vm_compute. split; discriminate.
  - vm_compute. split; discriminate.
Defined.

(** ** Two segments of one millisecond

    A file's name holds the segment's id and the first six bytes of its UUID,
    which are the milliseconds of a version 7 UUID. *)

Lemma simple_take n : forall u u', List.firstn n u = List.firstn n u' -> str_take (2 * n) (simple u) = str_take (2 * n) (simple u').
Proof.
  induction n as [|n IH]; intros u u' H; [done|]. replace (2 * S n)%nat with (S (S (2 * n))) by lia.
  destruct u as [|b u], u' as [|b' u']; cbn in H; try done. injection H as <- H. cbn [simple]. cbn [str_take].
  by rewrite (IH u u' H).
Qed.

(** Two segments with one id and one millisecond have the same file in every
    partition. *)
Lemma same_millisecond_same_name id u u' : List.firstn 6 u = List.firstn 6 u' -> file_name_for_segment id u = file_name_for_segment id u'.
Proof. intros H. unfold file_name_for_segment. change 12%nat with (2 * 6)%nat. by rewrite (simple_take 6 u u' H). Qed.

Definition twin_uuid (b : byte) : bytes := List.repeat Byte.x07 6 ++ List.repeat b 10.
Definition twin_record (b : byte) : LogRecord := new_record (List.repeat b 16) 7200000000001 17 "boom".
Definition twin_encode (b : list LogRecord) : option bytes := Some (Byte.x00 :: List.map (fun r => List.hd Byte.x00 (event_id r)) b).
Definition twin_decode (p : bytes) : option (list LogRecord) :=
  match p with [] => None | _ :: p' => Some (List.map twin_record p') end.
(** The first segment of a log, with one record. *)
Definition twin_log (uuid record : byte) : list (string * bytes) :=
  [(Wal.segment_name 1, Wal.MAGIC ++ twin_uuid uuid ++ Wal.frame twin_encode once_crc [twin_record record])].
Definition twin_after : World -> Pass -> World := after (fun _ => "[]") twin_decode once_crc (fun _ => 100) (fun _ => 10) ["store"].

(** The log and the late log, opened in one millisecond, write one file.  Both
    first segments have id 1, and a file's name has only the milliseconds of the
    segment's UUID; so the pass over the late log renames its file onto the one
    the pass over the main log wrote, and the record merged first is gone though
    its segment is merged. *)
Theorem twin_segments_overwrite :
  let w1 := twin_after (mkWorld (twin_log Byte.x01 Byte.x0a) (mkDisk ∅ ∅ ∅) db0 (Drain.new Drain.drain_config_default)) (once_pass []) in
  let w2 := twin_after (set_wal (twin_log Byte.x02 Byte.x0b) w1) (once_pass []) in
  visible w1 = [core (twin_record Byte.x0a)] /\ w_wal w1 = [] /\
  visible w2 = [core (twin_record Byte.x0b)] /\ w_wal w2 = [] /\
  is_segment_merged (twin_uuid Byte.x01) (w_db w2) = true /\ is_segment_merged (twin_uuid Byte.x02) (w_db w2) = true.
Proof. vm_compute. repeat split. Qed.
