(* ===== verification/Compact.v ===== *)
(** Compaction of the store's small files
    ([crates/logless-core/src/compact.rs]).

    Modification times, the fresh UUIDs, and the id [LogRecord::new] draws for a
    row whose id cannot be read are arguments. *)

From stdpp Require Import sorting.
From Stdlib Require Import Permutation.
From S2P Require Import Prelude Text Float Lists Partition Model Typed Schema Files.
From S2P Require Wal Drain.
From S2P Require Import Tenancy PartsEdge Retention Budget Catalog World Store TemplateDict Merge MergeState.
Open Scope string_scope.
Open Scope Z_scope.
Open Scope list_scope.

Record CompactConfig := mkCompactConfig {
  cc_typed : TypedColumnsConfig;
  min_files : Z;
  cc_target_bytes : Z;
  keep_above_bytes : Z;
  max_partitions : Z;
  quiet_secs : Z                     (* of the [Duration] *)
}.
Definition compact_config_default (quiet : Z) : CompactConfig :=
  mkCompactConfig typed_config_default 4 (128 * 1024 * 1024) (32 * 1024 * 1024) 4 quiet.

Record CompactReport := mkCompact {
  partitions_compacted : Z;
  files_replaced : Z;
  cp_files_written : Z;
  cp_rows : Z;
  bytes_before : Z;
  bytes_after : Z;
  cp_columns_promoted : Z
}.
Definition compact_default : CompactReport := mkCompact 0 0 0 0 0 0 0.

Definition saved_fraction (r : CompactReport) : f64 :=
  if bytes_before r =? 0 then f64_zero
  else f64_sub (f64_of_Z 1) (f64_div (f64_of_Z (bytes_after r)) (f64_of_Z (bytes_before r))).

(** Oldest hour first. *)
Definition age_leb (a b : PartitionKey * list path) : bool :=
  if epoch_hour (fst a) =? epoch_hour (fst b) then key_leb (fst a) (fst b) else epoch_hour (fst a) <? epoch_hour (fst b).

(** The map of partitions to their files. *)
Fixpoint file_path_under (k : PartitionKey) (p : path) (m : list (PartitionKey * list path)) : list (PartitionKey * list path) :=
  match m with
  | [] => [(k, [p])]
  | (k', ps) :: m' => if bool_decide (k' = k) then (k', ps ++ [p]) :: m' else (k', ps) :: file_path_under k p m'
  end.
Definition by_partition (ps : list path) : list (PartitionKey * list path) :=
  foldl (fun m p => match key_of_path p with Some k => file_path_under k p m | None => m end) [] ps.

Section Compact.
Context (to_json : list Attr -> string) (from_json : string -> option (list Attr)).
Context (fresh_id : bytes) (parquet_size : Parquet -> Z) (store_dir : path).
Context (written_unix_secs : path -> option Z) (config : CompactConfig) (now_unix_secs : option Z) (now : Z).

(** [metadata(p).len()]; [None] when the file is gone. *)
Definition file_size (d : Disk) (p : path) : option Z := parquet_size <$> parquet d !! p.

Definition small (d : Disk) (p : path) : bool :=
  match file_size d p with Some n => n <? keep_above_bytes config | None => false end.

(** Written to too lately. *)
Definition unsettled (files : list path) : bool :=
  match now_unix_secs with
  | None => false
  | Some at_ => let newest := foldl Z.max 0 (omap written_unix_secs files) in sat_sub at_ newest <? quiet_secs config
  end.

(** The rows of a file as records. *)
Definition read_all (p : path) : M (list LogRecord) :=
  _ ← effect (StoreErr p) id;
  f ← look (fun w => parquet (w_disk w) !! p);
  f ← or_stop (Failed (StoreErr p)) f;
  mret (from_record_batch from_json fresh_id (p_batch f)).

(** The inputs: candidates in order until the output would be over the target,
    at least one. *)
Fixpoint take_inputs (candidates : list path) (acc : list LogRecord * list path * Z) : M (list LogRecord * list path * Z) :=
  match candidates with
  | [] => mret acc
  | p :: r =>
      let '(records, consumed, bytes) := acc in
      size ← look (fun w => default 0 (file_size (w_disk w) p));
      if (cc_target_bytes config <? bytes + size) && negb (bool_decide (consumed = [])) then mret acc
      else
        rs ← read_all p;
        take_inputs r (records ++ rs, consumed ++ [p], bytes + size)
  end.

Definition unlink_parquet (p : path) (w : World) : World :=
  set_disk (mkDisk (delete p (parquet (w_disk w))) (meta (w_disk w)) (temps (w_disk w))) w.

Definition compact_inputs (uuid : bytes) (key : PartitionKey) (r : CompactReport) (inputs : list LogRecord * list path * Z) : M CompactReport :=
  let '(records, consumed, before) := inputs in
  let records := sort_records records in
  _ ← effect CatalogErr id;
  layout ← look (fun w => typed_layout (w_db w));
  let promoted := Typed.plan records layout (cc_typed config) now in
  _ ← (if bool_decide (promoted = []) then mret tt else effect CatalogErr (change_db (register_typed_columns promoted)));
  let layout := if bool_decide (promoted = []) then layout else layout_extend layout promoted in
  let dir_ := dir key store_dir in
  _ ← effect (StoreErr dir_) id;
  let out_path := dir_ ++ [file_name_for_segment 0 uuid] in
  stats ← write_partition_file_with to_json parquet_size out_path records layout;
  _ ← effect CatalogErr (change_db (record_compaction (mkEntry out_path key stats) consumed));
  _ ← each (fun _ p => attempt (unlink_parquet p)) consumed true;
  mret (mkCompact (partitions_compacted r + 1) (files_replaced r + Z.of_nat (List.length consumed)) (cp_files_written r + 1)
          (cp_rows r + Z.of_nat (List.length records)) (bytes_before r + before) (bytes_after r + st_bytes stats)
          (cp_columns_promoted r + Z.of_nat (List.length promoted))).

Definition compact_partition (uuid : bytes) (key : PartitionKey) (files : list path) (r : CompactReport) : M CompactReport :=
  if Z.of_nat (List.length files) <? min_files config then mret r
  else if unsettled files then mret r
  else
    candidates ← look (fun w => List.filter (small (w_disk w)) (stable_sort path_leb files));
    if Z.of_nat (List.length candidates) <? min_files config then mret r
    else
      inputs ← take_inputs candidates ([], [], 0);
      if Z.of_nat (List.length (snd (fst inputs))) <? min_files config then mret r
      else compact_inputs uuid key r inputs.

(** [uuids]: the ids drawn for the outputs, one per partition of the list. *)
Fixpoint compact_partitions (uuids : nat -> bytes) (ps : list (PartitionKey * list path)) (r : CompactReport) : M CompactReport :=
  match ps with
  | [] => mret r
  | (key, files) :: rest =>
      if max_partitions config <=? partitions_compacted r then mret r
      else
        r ← compact_partition (uuids (List.length rest)) key files r;
        compact_partitions uuids rest r
  end.

Definition compact (uuids : nat -> bytes) : M CompactReport :=
  ps ← look (fun w => list_parquet_files (w_disk w));
  compact_partitions uuids (stable_sort age_leb (by_partition ps)) compact_default.

End Compact.
