(* ===== verification/CompactOnce.v ===== *)
(** What a compaction does to the rows of the catalog: nothing, whatever fails;
    and what it leaves on disk ([crates/logless-core/src/compact.rs]). *)

From stdpp Require Import sorting.
From Stdlib Require Import Permutation.
From S2P Require Import Prelude Text Float Lists Partition Model Typed Schema Files.
From S2P Require Wal Drain.
From S2P Require Import Tenancy PartsEdge Retention Budget Catalog World Store TemplateDict Merge MergeState Compact.
Open Scope string_scope.
Open Scope Z_scope.
Open Scope list_scope.

(** ** Reading a file back *)

(** Ids of their width, instants from 1970 to 2262. *)
Definition sane (c : Core) : Prop :=
  let '(id, t, o, _, _, _, _, tr, sp) := c in
  List.length id = 16%nat /\ 0 <= t <= i64_max /\ 0 <= o <= i64_max /\
  (forall x, tr = Some x -> List.length x = 16%nat) /\ (forall x, sp = Some x -> List.length x = 8%nat).

Lemma read_row_core from_json fresh cols i b : sane (core_row b) -> core (read_row from_json fresh cols i b) = core_row b.
Proof.
  intros (Hid & Ht & Ho & Htr & Hsp). unfold core, core_row, read_row. cbn [event_id timestamp_unix_nano observed_unix_nano severity severity_text body service trace_id span_id].
  rewrite Hid. cbn [Nat.eqb]. rewrite !Z.max_r by lia. rewrite !wrap_i64_small by (unfold i64_min; lia). f_equal; [f_equal|].
  - destruct (b_trace_id b) as [t|]; [|done]. cbn. by rewrite (Htr t eq_refl).
  - destruct (b_span_id b) as [t|]; [|done]. cbn. by rewrite (Hsp t eq_refl).
Qed.

Lemma map_imap {A B D} (g : B -> D) (h : A -> D) (l : list A) : forall f : nat -> A -> B,
  (forall i a, In a l -> g (f i a) = h a) -> List.map g (imap f l) = List.map h l.
Proof.
  induction l as [|a l IH]; intros f H; [done|]. cbn [imap List.map]. rewrite H by (by left). f_equal. apply IH. intros i x Hx. apply (H (S i)). by right.
Qed.

Lemma read_core from_json fresh x : Forall sane (rows_of x) -> List.map core (from_record_batch from_json fresh (p_batch x)) = rows_of x.
Proof.
  intros Hs. unfold from_record_batch, rows_of. apply map_imap. intros i b Hb. apply read_row_core.
  rewrite Forall_forall in Hs. apply Hs. unfold rows_of. by apply list_elem_of_In, in_map.
Qed.

(** ** The partitions of a listing *)

Lemma under_paths k p m : Permutation (List.concat (List.map snd (file_path_under k p m))) (p :: List.concat (List.map snd m)).
Proof.
  induction m as [|[k' ps] m IH]; [done|]. cbn [file_path_under]. case_bool_decide; cbn [List.map List.concat snd].
  - rewrite <-app_assoc. symmetry. apply Permutation_middle.
  - rewrite IH. symmetry. apply Permutation_middle.
Qed.

Lemma under_keys k p m k' : In k' (List.map fst (file_path_under k p m)) <-> k' = k \/ In k' (List.map fst m).
Proof.
  induction m as [|[k0 ps] m IH]; cbn [file_path_under List.map In fst]; [by firstorder|]. case_bool_decide as E; cbn [List.map In fst].
  - subst k0. naive_solver.
  - rewrite IH. naive_solver.
Qed.

Lemma under_nodup k p m : List.NoDup (List.map fst m) -> List.NoDup (List.map fst (file_path_under k p m)).
Proof.
  induction m as [|[k0 ps] m IH]; cbn [file_path_under List.map fst]; [repeat constructor; intros []|]. intros Hnd. inversion Hnd as [|? ? Hk Hnd']; subst.
  case_bool_decide as E; cbn [List.map fst]; constructor; [done|done| |by apply IH]. rewrite under_keys. naive_solver.
Qed.

Definition keyed (e : PartitionKey * list path) : Prop := snd e <> [] /\ forall p, In p (snd e) -> key_of_path p = Some (fst e).

Lemma under_keyed k p m : Forall keyed m -> key_of_path p = Some k -> Forall keyed (file_path_under k p m).
Proof.
  intros Hm Hp. induction Hm as [|[k0 ps] m Hk Hm' IH]; cbn [file_path_under].
  - constructor; [|constructor]. split; [done|]. intros q [<-|[]]. exact Hp.
  - case_bool_decide as E; (constructor; [|done]); [|done]. split; [by destruct ps|].
    intros q [Hq|[<-|[]]]%in_app_or; [by apply Hk|]. cbn. by rewrite E.
Qed.

Lemma by_partition_spec ps : 
  (forall p, In p (List.concat (List.map snd (by_partition ps))) -> In p ps) /\
  (List.NoDup ps -> List.NoDup (List.concat (List.map snd (by_partition ps)))) /\
  List.NoDup (List.map fst (by_partition ps)) /\ Forall keyed (by_partition ps).
Proof.
  unfold by_partition.
  assert (forall m, List.NoDup (List.map fst m) -> Forall keyed m ->
    let m' := foldl (fun m p => match key_of_path p with Some k => file_path_under k p m | None => m end) m ps in
    (exists l, Permutation (List.concat (List.map snd m')) (List.concat (List.map snd m) ++ l) /\ sublist l ps) /\
    List.NoDup (List.map fst m') /\ Forall keyed m') as H.
  { induction ps as [|p ps IH]; intros m Hn Hk; cbn [foldl]; [split; [exists []; by rewrite app_nil_r|done]|].
    destruct (key_of_path p) as [k|] eqn:E.
    - destruct (IH (file_path_under k p m)) as [(l & Hl & Hsub) H]; [by apply under_nodup|by apply under_keyed|]. split; [|done].
      exists (p :: l). split; [|by constructor]. rewrite Hl, under_paths. cbn [app]. apply Permutation_middle.
    - destruct (IH m Hn Hk) as [(l & Hl & Hsub) H]. split; [|done]. exists l. split; [done|by constructor]. }
  destruct (H [] ltac:(constructor) ltac:(constructor)) as [(l & Hl & Hsub) [Hn Hk]]. cbn in Hl.
  split_and!; [| |done|done].
  - intros p Hp. apply (Permutation_in _ Hl) in Hp. apply list_elem_of_In. apply list_elem_of_In in Hp. by eapply elem_of_sublist.
  - intros Hnd. eapply Permutation_NoDup; [by symmetry|]. apply sublist_rest in Hsub as [r Hr]. 
    apply NoDup_ListNoDup. apply (Permutation_NoDup Hr) in Hnd. apply NoDup_ListNoDup, NoDup_app in Hnd. by destruct Hnd.
Qed.

Lemma key_of_path_fits p k : key_of_path p = Some k -> key_fits k.
Proof.
  unfold key_of_path, key_of_dirs. intros H. bind_inv H dp E. destruct (rev (firstn 5 (rev dp))) as [|t [|i [|h [|l [|n [|]]]]]]; try done.
  bind_inv H tn E1. bind_inv H ix E2. bind_inv H nd E3. bind_inv H hs E4. bind_inv H eh E5. bind_inv H bk E6. injection H as <-.
  unfold key_fits. cbn. unfold parse_hour in E5. bind_inv E5 x E7. destruct x as [date hour].
  destruct (split_char "-" date) as [|sy [|sm [|sd rest]]]; try done. bind_inv E5 y Ey. bind_inv E5 m Em. bind_inv E5 d Ed.
  destruct (_ || _); [done|]. bind_inv E5 hr Eh. destruct (23 <? hr); [done|]. cbv zeta in E5. destruct (_ <? 0); [done|]. injection E5 as <-.
  apply wrap64_range.
Qed.

(** ** Rows by path *)

Definition path_rows (d : Disk) (p : path) : list Core := match parquet d !! p with Some x => rows_of x | None => [] end.

Lemma filter_split {A} (g : A -> bool) l : Permutation l (List.filter g l ++ List.filter (fun x => negb (g x)) l).
Proof.
  induction l as [|x l IH]; [done|]. cbn [List.filter]. destruct (g x); cbn [negb app]; [by constructor|]. rewrite <-Permutation_middle. by constructor.
Qed.

Definition inb (ps : list path) (e : FileEntry) : bool := bool_decide (f_path e ∈ ps).

(** The rows of the catalogued files at some paths are the rows at the paths. *)
Lemma rows_at_paths d entries ps : List.NoDup (List.map f_path entries) -> List.NoDup ps ->
  (forall p, In p ps -> In p (List.map f_path entries)) ->
  Permutation (flat_map (rows_at d) (List.filter (inb ps) entries)) (flat_map (path_rows d) ps).
Proof.
  intros Hn Hps Hin.
  assert (flat_map (rows_at d) (List.filter (inb ps) entries) = flat_map (path_rows d) (List.map f_path (List.filter (inb ps) entries))) as ->.
  { rewrite !flat_map_concat_map, map_map. done. }
  apply Permutation_flat_map. apply NoDup_Permutation.
  - apply NoDup_ListNoDup. clear -Hn. induction entries as [|e l IH]; [constructor|]. cbn in *. inversion Hn as [|? ? He Hl]; subst.
    destruct (inb ps e); [|by apply IH]. cbn. constructor; [|by apply IH]. intros (y & Hy & Hin)%in_map_iff. apply filter_In in Hin as [Hin _].
    apply He. rewrite <-Hy. by apply in_map.
  - by apply NoDup_ListNoDup.
  - intros p. rewrite !list_elem_of_In, in_map_iff. split.
    + intros (e & <- & He). apply filter_In in He as [_ He]. unfold inb in He. apply bool_decide_eq_true in He. by apply list_elem_of_In.
    + intros Hp. destruct (proj1 (in_map_iff _ _ _) (Hin p Hp)) as (e & He & Hein). exists e. split; [done|]. apply filter_In. split; [done|].
      unfold inb. apply bool_decide_eq_true. rewrite He. by apply list_elem_of_In.
Qed.

Lemma filters_negb {A} (g : A -> path) rows ps :
  foldl (fun rows old => List.filter (fun f : A => negb (bool_decide (g f = old))) rows) rows ps =
  List.filter (fun f => negb (bool_decide (g f ∈ ps))) rows.
Proof.
  revert rows. induction ps as [|p ps IH]; intros rows; cbn [foldl].
  - induction rows as [|r rows IHr]; [done|]. cbn [List.filter]. rewrite bool_decide_eq_false_2 by apply not_elem_of_nil. cbn. by f_equal.
  - rewrite IH. induction rows as [|r rows IHr]; [done|]. cbn [List.filter].
    destruct (decide (g r = p)) as [E|E].
    + rewrite (bool_decide_eq_true_2 _ E), (bool_decide_eq_true_2 (g r ∈ p :: ps)) by (rewrite E; by left). exact IHr.
    + rewrite (bool_decide_eq_false_2 _ E). cbn [negb List.filter]. 
      destruct (decide (g r ∈ ps)) as [E2|E2].
      * rewrite !bool_decide_eq_true_2 by (done || by right). exact IHr.
      * rewrite !bool_decide_eq_false_2 by (done || by rewrite elem_of_cons; intros [?|?]). cbn. by f_equal.
Qed.

Lemma Permutation_flat_map_ext {A B} (g h : A -> list B) l : (forall a, In a l -> g a = h a) -> Permutation (flat_map h l) (flat_map g l).
Proof. intros H. rewrite !flat_map_concat_map. erewrite map_ext_in; [done|]. intros a Ha. by rewrite H. Qed.

(** ** A pass *)

Section Pass.
Context (to_json : list Attr -> string) (from_json : string -> option (list Attr)).
Context (fresh_id : bytes) (parquet_size : Parquet -> Z) (store_dir : path).
Context (written_unix_secs : path -> option Z) (config : CompactConfig) (now_unix_secs : option Z) (now : Z) (uuids : nat -> bytes).
Context (C : Prop) (w0 : World).

(** The files of a store in order: every catalogued path once, its file there,
    rows that can be read back. *)
Record stored (w : World) : Prop := {
  so_rows : List.NoDup (List.map f_path (files (w_db w)));
  so_there : forall e, In e (files (w_db w)) -> is_Some (parquet (w_disk w) !! f_path e);
  so_sane : forall p x, parquet (w_disk w) !! p = Some x -> Forall sane (rows_of x)
}.

(** No file of the tree is without its row, but for some paths. *)
Definition listed_but (ps : list path) (w : World) : Prop :=
  forall p, is_Some (parquet (w_disk w) !! p) -> is_Some (key_of_path p) -> In p (List.map f_path (files (w_db w))) \/ In p ps.

Definition same_rows (w : World) : Prop := stored w /\ Permutation (visible w) (visible w0).

Definition out_path (k : PartitionKey) (n : nat) : path := dir k store_dir ++ [file_name_for_segment 0 (uuids n)].

(** What is to come: partitions of files that are catalogued, and output paths
    that are free; [ex] are the files of the tree that have no row. *)
Record compacting (ex : list path) (ps : list (PartitionKey * list path)) (w : World) : Prop := {
  cg_same : same_rows w;
  cg_listed : C -> listed_but ex w;
  cg_in : forall k fs p, In (k, fs) ps -> In p fs -> In p (List.map f_path (files (w_db w)));
  cg_nodup : List.NoDup (List.concat (List.map snd ps));
  cg_keys : List.NoDup (List.map fst ps);
  cg_fits : Forall key_fits (List.map fst ps);
  cg_free : forall k n, In k (List.map fst ps) -> parquet (w_disk w) !! out_path k n = None
}.

Abbreviation Triple := (triple C (fun _ => False)).

Lemma compacting_tail ex e ps w : compacting ex (e :: ps) w -> compacting ex ps w.
Proof.
  intros [H1 H2 H3 H4 H5 H6 H7]. cbn in *. constructor; try done.
  - intros k fs p Hin. apply (H3 k fs). by right.
  - apply NoDup_ListNoDup, NoDup_app in H4 as (_ & _ & H4). by apply NoDup_ListNoDup.
  - by inversion H5.
  - by inversion H6.
  - intros k n Hk. apply H7. by right.
Qed.

(** Inputs are read in order, as long as they fit. *)
Lemma inputs_triple P candidates : (forall w, P w -> same_rows w) -> (forall w p, P w -> In p candidates -> is_Some (parquet (w_disk w) !! p)) ->
  forall todo consumed records n, candidates = consumed ++ todo ->
  Triple (fun w => P w /\ List.map core records = flat_map (path_rows (w_disk w)) consumed)
    (take_inputs from_json fresh_id parquet_size config todo (records, consumed, n))
    (fun r w => P w /\ List.map core (fst (fst r)) = flat_map (path_rows (w_disk w)) (snd (fst r)) /\ exists rest, candidates = snd (fst r) ++ rest) same_rows.
Proof.
  intros HP Hin. induction todo as [|p todo IH]; intros consumed records n Hc; cbn [take_inputs].
  { apply triple_value. intros w [Hw E]. split_and!; [done|done|by exists []]. }
  eapply triple_bind; [apply (triple_look C _ same_rows)|]. intros size. cbv beta.
  destruct (_ && _).
  { apply triple_value. intros w [[Hw E] _]. split_and!; [done|done|by exists (p :: todo)]. }
  set (P' := fun w => P w /\ List.map core records = flat_map (path_rows (w_disk w)) consumed).
  eapply triple_bind with (R := fun rs w => P' w /\ List.map core rs = path_rows (w_disk w) p).
  - unfold read_all. eapply triple_bind; [apply (triple_effect C _ same_rows _ P'); [by intros w [? _]|intros w [[? _] _]; by apply HP]|].
    intros []. cbv beta. eapply triple_bind; [apply (triple_look C _ same_rows)|]. intros f. cbv beta.
    eapply triple_bind; [apply (triple_stop C _ same_rows)|].
    { intros w [[Hw _] ->] Hn. destruct (Hin w p Hw) as [x Hx]; [rewrite Hc; apply in_or_app; right; by left|]. congruence. }
    intros x. apply triple_value. intros w [[Hw ->] Hx]. split; [done|]. unfold path_rows. rewrite Hx. apply read_core.
    by apply (so_sane w (proj1 (HP w (proj1 Hw))) p).
  - intros rs. cbv beta. eapply triple_weaken; [apply (IH (consumed ++ [p]) (records ++ rs)); by rewrite <-app_assoc| |done|done].
    intros w [[Hw E] Er]. split; [done|]. rewrite map_app, flat_map_app, E, Er. cbn. by rewrite app_nil_r.
Qed.
(** The output is written, not catalogued yet. *)
Record renamed (out : path) (file : Parquet) (consumed : list path) (ps : list (PartitionKey * list path)) (w : World) : Prop := {
  rn_rest : compacting [out] ps w;
  rn_in : forall p, In p consumed -> In p (List.map f_path (files (w_db w)));
  rn_nodup : List.NoDup consumed;
  rn_apart : forall p, In p consumed -> ~ In p (List.concat (List.map snd ps));
  rn_file : parquet (w_disk w) !! out = Some file;
  rn_new : ~ In out (List.map f_path (files (w_db w)));
  rn_rows : Permutation (rows_of file) (flat_map (path_rows (w_disk w)) consumed)
}.

(** What [take_inputs] says of its inputs. *)
Definition inputs_ok (key : PartitionKey) (fs : list path) (ps : list (PartitionKey * list path)) (records : list LogRecord) (consumed : list path) (w : World) : Prop :=
  compacting [] ((key, fs) :: ps) w /\ List.map core records = flat_map (path_rows (w_disk w)) consumed /\
  List.NoDup consumed /\ forall p, In p consumed -> In p fs.

Lemma compacting_keeps g ex ps w : keeps g -> compacting ex ps w -> compacting ex ps (change_db g w).
Proof.
  intros Hg [[[H1 H2 H3] Hv] H4 H5 H6 H7 H8 H9]. destruct (Hg (w_db w)) as [Hf _].
  constructor; try done.
  - split; [constructor; cbn; rewrite ?Hf; done|]. rewrite <-Hv. unfold visible. cbn. by rewrite Hf.
  - intros HC p Hp Hk. cbn. rewrite Hf. by apply H4.
  - intros k fs p. cbn. rewrite Hf. by apply H5.
Qed.

Lemma renamed_next key fs ps records consumed w n l file :
  file = parquet_file to_json (out_path key n) (sort_records records) l ->
  inputs_ok key fs ps records consumed w ->
  renamed (out_path key n) file consumed ps (rename_parquet (out_path key n) file w).
Proof.
  intros Hfile (Hc & Hcore & Hnd & Hsub). set (out := out_path key n) in *. set (w' := rename_parquet out file w).
  pose proof Hc as [[[S1 S2 S3] Hv] Hl Hin Hcn Hk Hft Hfree]. cbn [List.map List.concat fst snd] in *.
  assert (parquet (w_disk w) !! out = None) as Hnone by (apply Hfree; by left).
  assert (forall p, is_Some (parquet (w_disk w) !! p) -> parquet (w_disk w') !! p = parquet (w_disk w) !! p) as Hold.
  { intros p [x Hx]. cbn. rewrite lookup_insert_ne; [done|]. intros <-. congruence. }
  assert (~ In out (List.map f_path (files (w_db w)))) as Hnew.
  { intros (e & He & Hein)%in_map_iff. destruct (S2 e Hein) as [x Hx]. rewrite He in Hx. congruence. }
  assert (forall p, In p consumed -> In p (List.map f_path (files (w_db w)))) as Hcat by (intros p Hp; apply (Hin key fs); [by left|by apply Hsub]).
  assert (forall p, In p consumed -> parquet (w_disk w') !! p = parquet (w_disk w) !! p) as Hcold.
  { intros p Hp. apply Hold. apply Hcat, in_map_iff in Hp as (e & <- & He). by apply S2. }
  assert (Permutation (rows_of file) (flat_map (path_rows (w_disk w)) consumed)) as Hrows.
  { rewrite <-Hcore, Hfile. unfold rows_of, parquet_file. cbn [p_batch]. rewrite batch_core. apply Permutation_map. apply stable_sort_perm. }
  constructor; try done.
  - constructor.
    + split.
      * constructor; [done| |].
        -- intros e He. rewrite Hold by by apply S2. by apply S2.
        -- intros p x Hx. cbn in Hx. apply lookup_insert_Some in Hx as [[<- <-]|[_ Hx]]; [|by apply (S3 p)].
           rewrite Hrows. apply Forall_flat_map, Forall_forall. intros p Hp. unfold path_rows. destruct (parquet (w_disk w) !! p) eqn:E; [by apply (S3 p)|constructor].
      * rewrite <-Hv. unfold visible. rewrite !flat_map_concat_map.
        match goal with |- Permutation (List.concat ?a) (List.concat ?b) => assert (a = b) as ->; [|done] end.
        apply map_ext_in. intros e He. by rewrite Hold by by apply S2.
    + intros HC p [x Hx] Hpk. cbn in Hx. apply lookup_insert_Some in Hx as [[<- _]|[_ Hx]]; [right; by left|].
      destruct (Hl HC p) as [?|[]]; [by eexists|done|by left].
    + intros k fs' p Hkf. apply (Hin k fs'). by right.
    + apply NoDup_ListNoDup, NoDup_app in Hcn as (_ & _ & Hcn). by apply NoDup_ListNoDup.
    + by inversion Hk.
    + by inversion Hft.
    + intros k m Hkm. cbn. rewrite lookup_insert_ne; [apply Hfree; by right|]. intros E. unfold out, out_path in E. apply app_inj_tail in E as [E _].
      inversion Hk as [|? ? Hnin _]; subst. inversion Hft as [|? ? Hkf Hfts]; subst. apply dir_inj in E as <-; [done|done|].
      rewrite Forall_forall in Hfts. apply Hfts. by apply list_elem_of_In.
  - intros p Hp Hps. apply NoDup_ListNoDup, NoDup_app in Hcn as (_ & Hd & _). apply (Hd p); apply list_elem_of_In; [by apply Hsub|done].
  - cbn. by rewrite lookup_insert_eq.
  - rewrite Hrows. apply Permutation_flat_map_ext. intros p Hp. unfold path_rows. by rewrite Hcold.
Qed.

(** The transaction: the output in, the inputs out. *)
Lemma committed_next out file consumed ps w key st : renamed out file consumed ps w ->
  compacting consumed ps (change_db (record_compaction (mkEntry out key st) consumed) w) /\
  forall p, In p consumed -> ~ In p (List.map f_path (files (record_compaction (mkEntry out key st) consumed (w_db w)))).
Proof.
  intros [[[[S1 S2 S3] Hv] Hl Hin Hcn Hk Hft Hfree] Hcat Hnd Hap Hfile Hnew Hrows].
  set (rows' := List.filter (fun f => negb (inb consumed f)) (files (w_db w))).
  assert (~ In out consumed) as Hout by (intros Ho; by apply Hnew, Hcat).
  assert (files (record_compaction (mkEntry out key st) consumed (w_db w)) = rows' ++ [mkEntry out key st]) as Hf.
  { unfold record_compaction. cbn [files set_files]. rewrite (filters_negb f_path). unfold upsert_file. cbn [files set_files].
    rewrite upsert_new by (intros g Hg E; cbn in E; apply Hnew; rewrite <-E; by apply in_map). unfold rows', inb. rewrite List.filter_app. cbn [List.filter f_path].
    rewrite (bool_decide_eq_false_2 (out ∈ consumed)); [done|]. by rewrite list_elem_of_In. }
  assert (forall e, In e rows' <-> In e (files (w_db w)) /\ ~ In (f_path e) consumed) as Hrows'.
  { intros e. unfold rows'. rewrite filter_In. unfold inb. rewrite negb_true_iff, bool_decide_eq_false, list_elem_of_In. done. }
  split.
  2:{ intros p Hp. rewrite Hf, map_app. intros [(e & <- & He)%in_map_iff|[<-|[]]]%in_app_or; [|done]. by apply Hrows' in He as [_ He]. }
  set (w' := change_db _ w). assert (files (w_db w') = rows' ++ [mkEntry out key st]) as Ff by exact Hf.
  assert (w_disk w' = w_disk w) as Fd by done. clearbody w'. clear Hf.
  constructor; rewrite ?Fd; try done.
  - split; [constructor|].
    + rewrite Ff, map_app. apply NoDup_app_maps.
      * clear -S1. unfold rows'. induction (files (w_db w)) as [|e l IH]; [constructor|]. cbn in *. inversion S1 as [|? ? He Hl]; subst.
        destruct (negb _); [|by apply IH]. cbn. constructor; [|by apply IH]. intros (y & Hy & Hin)%in_map_iff. apply filter_In in Hin as [Hin _].
        apply He. rewrite <-Hy. by apply in_map.
      * repeat constructor. intros [].
      * intros a b Ha [<-|[]] E. apply Hnew. apply Hrows' in Ha as [Ha _]. cbn in E. rewrite <-E. by apply in_map.
    + rewrite Ff, Fd. intros e [He|[<-|[]]]%in_app_or; [by apply S2, Hrows'|]. cbn. rewrite Hfile. by eexists.
    + rewrite Fd. exact S3.
    + rewrite <-Hv. unfold visible. rewrite Ff, Fd, flat_map_app. cbn [flat_map f_path]. rewrite Hfile, app_nil_r, Hrows.
      fold (rows_at (w_disk w)). change (flat_map (fun f => match parquet (w_disk w) !! f_path f with Some x => rows_of x | None => [] end) ?l) with (flat_map (rows_at (w_disk w)) l).
      rewrite (Permutation_flat_map (rows_at (w_disk w)) (filter_split (inb consumed) (files (w_db w)))), flat_map_app.
      rewrite (rows_at_paths _ _ consumed) by done. apply Permutation_app_comm.
  - intros HC p Hp Hpk. rewrite Fd in Hp. rewrite Ff, map_app. destruct (decide (p ∈ consumed)) as [?|Hpc]; [right; by apply list_elem_of_In|]. rewrite list_elem_of_In in Hpc. left. apply in_or_app.
    destruct (Hl HC p Hp Hpk) as [(e & <- & He)%in_map_iff|[<-|[]]]; [left|right; by left]. apply in_map. by apply Hrows'.
  - intros k fs p Hkf Hp. rewrite Ff, map_app. apply in_or_app. left. destruct (proj1 (in_map_iff _ _ _) (Hin k fs p Hkf Hp)) as (e & <- & He).
    apply in_map. apply Hrows'. split; [done|]. intros Hc. apply (Hap _ Hc). apply in_concat. exists fs. split; [|done].
    apply in_map_iff. by exists (k, fs).
Qed.

(** One input unlinked. *)
Lemma unlinked_next p ex ps w : compacting (p :: ex) ps w -> ~ In p (List.map f_path (files (w_db w))) -> compacting ex ps (unlink_parquet p w).
Proof.
  intros [[[S1 S2 S3] Hv] Hl Hin Hcn Hk Hft Hfree] Hp.
  assert (forall e, In e (files (w_db w)) -> parquet (w_disk (unlink_parquet p w)) !! f_path e = parquet (w_disk w) !! f_path e) as Hold.
  { intros e He. cbn. rewrite lookup_delete_ne; [done|]. intros ->. apply Hp. by apply in_map. }
  constructor; try done.
  - split; [constructor; [done| |]|].
    + intros e He. rewrite Hold by done. by apply S2.
    + intros q x Hx. cbn in Hx. apply lookup_delete_Some in Hx as [_ Hx]. by apply (S3 q).
    + rewrite <-Hv. unfold visible. rewrite !flat_map_concat_map.
      match goal with |- Permutation (List.concat ?a) (List.concat ?b) => assert (a = b) as ->; [|done] end.
      apply map_ext_in. intros e He. by rewrite Hold.
  - intros HC q [x Hx] Hqk. cbn in Hx. apply lookup_delete_Some in Hx as [Hne Hx].
    destruct (Hl HC q) as [?|[?|?]]; [by eexists|done|by left|done|by right].
  - intros k n Hkn. cbn. rewrite lookup_delete_None. right. by apply Hfree.
Qed.

Lemma compacting_quit ex ex' ps w : ~ C -> compacting ex ps w -> compacting ex' ps w.
Proof. intros HC [H1 H2 H3 H4 H5 H6 H7]. by constructor. Qed.

Lemma compacting_disk ex ps w w' : w_db w' = w_db w -> parquet (w_disk w') = parquet (w_disk w) -> compacting ex ps w -> compacting ex ps w'.
Proof.
  intros Hd Hp [[[S1 S2 S3] Hv] H2 H3 H4 H5 H6 H7].
  assert (visible w' = visible w) as Ev by (unfold visible; by rewrite Hd, Hp).
  constructor; rewrite ?Hd, ?Hp; try done.
  - split; [constructor; rewrite ?Hd, ?Hp; done|]. by rewrite Ev.
  - intros HC p. rewrite ?Hd, ?Hp. by apply H2.
Qed.

Lemma compact_inputs_triple key fs ps records consumed before n r :
  Triple (inputs_ok key fs ps records consumed)
    (compact_inputs to_json parquet_size store_dir config now (uuids n) key r (records, consumed, before))
    (fun _ w => compacting [] ps w) same_rows.
Proof.
  set (P := inputs_ok key fs ps records consumed).
  assert (forall w, P w -> same_rows w) as HP by by intros w [[? _ _ _ _ _ _] _].
  unfold compact_inputs. eapply triple_bind; [apply (triple_effect C _ same_rows P P); [done|exact HP]|]. intros []. cbv beta.
  eapply triple_bind; [apply (triple_look C _ same_rows)|]. intros layout. cbv beta zeta.
  set (promoted := Typed.plan _ _ _ _).
  eapply triple_bind with (R := fun _ => P).
  { case_bool_decide; [apply triple_value; by intros w [? _]|].
    apply (triple_effect C _ same_rows _ P); [|intros w [? _]; by apply HP]. intros w [(Hc & Hrows & Hnd & Hsub) _].
    split; [apply compacting_keeps; [apply register_keeps|done]|]. by split. }
  intros []. cbv beta. generalize (if bool_decide (promoted = []) then layout else layout_extend layout promoted) as l. intros l.
  eapply triple_bind; [apply (triple_effect C _ same_rows P P); [done|exact HP]|]. intros []. cbv beta.
  change (dir key store_dir ++ [file_name_for_segment 0 (uuids n)]) with (out_path key n).
  set (file := parquet_file to_json (out_path key n) (sort_records records) l).
  set (Q := renamed (out_path key n) file consumed ps).
  assert (forall w, Q w -> same_rows w) as HQ by by intros w [[? _ _ _ _ _ _] _ _ _ _ _ _].
  eapply triple_bind; [apply (write_file_triple to_json parquet_size C _ same_rows P Q)|].
  - intros w (Hc & Hrest). split; [by apply (compacting_disk _ _ w)|exact Hrest].
  - intros w Hw. by apply (renamed_next key fs ps records consumed w n l).
  - by intros w [_ _ _ _ ? _ _].
  - exact HP.
  - exact HQ.
  - intros st. cbv beta.
    set (I := fun (todo : list path) (_ : bool) w => compacting todo ps w /\ forall p, In p todo -> ~ In p (List.map f_path (files (w_db w)))).
    eapply triple_bind with (R := fun _ => I consumed true).
    { apply triple_effect; [|intros w [? _]; by apply HQ]. intros w [Hw _]. exact (committed_next _ _ _ _ _ key st Hw). }
    intros []. cbv beta. eapply triple_bind.
    + apply (triple_each C _ same_rows I). intros p todo b. apply triple_attempt.
      * intros w [Hw Hp]. split; [apply unlinked_next; [done|apply Hp; by left]|]. intros q Hq. apply Hp. by right.
      * intros w [Hw Hp] HC. split; [by apply (compacting_quit (p :: todo))|]. intros q Hq. apply Hp. by right.
      * by intros w [[? _ _ _ _ _ _] _].
    + intros b. cbv beta. apply triple_value. by intros w [? _].
Qed.

Lemma compact_partition_triple key fs ps n r :
  Triple (compacting [] ((key, fs) :: ps))
    (compact_partition to_json from_json fresh_id parquet_size store_dir written_unix_secs config now_unix_secs now (uuids n) key fs r)
    (fun _ w => compacting [] ps w) same_rows.
Proof.
  unfold compact_partition. set (P := compacting [] ((key, fs) :: ps)).
  assert (forall r : CompactReport, Triple P (mret r) (fun _ w => compacting [] ps w) same_rows) as Hskip
    by (intros r'; apply triple_value; apply compacting_tail).
  destruct (_ <? _); [apply Hskip|]. destruct (unsettled _ _ _ _); [apply Hskip|].
  intros w os Hq Hw. revert w os Hq Hw.
  eapply triple_bind with (R := fun cs w => P w /\ exists d, cs = List.filter (small parquet_size config d) (stable_sort path_leb fs)).
  { eapply triple_weaken; [apply (triple_look C _ same_rows P)|done| |done]. intros cs w [Hw ->]. split; [done|]. by eexists. }
  intros cs. cbv beta. destruct (_ <? _).
  { eapply triple_weaken; [apply (Hskip r)|by intros w [? _]|done|done]. }
  intros w os Hq [Hw [d Hd]].
  assert (forall p, In p cs -> In p fs) as Hsub.
  { intros p Hp. rewrite Hd in Hp. apply filter_In in Hp as [Hp _]. eapply Permutation_in; [apply stable_sort_perm|exact Hp]. }
  assert (List.NoDup fs) as Hfs.
  { destruct Hw as [_ _ _ Hn _ _ _]. cbn in Hn. apply NoDup_ListNoDup, NoDup_app in Hn as (Hn & _). by apply NoDup_ListNoDup. }
  assert (List.NoDup cs) as Hcs.
  { rewrite Hd. apply List.NoDup_filter. eapply Permutation_NoDup; [symmetry; apply stable_sort_perm|exact Hfs]. }
  clear Hd d. revert w os Hq Hw.
  eapply triple_bind.
  - eapply triple_weaken; [apply (inputs_triple P cs) with (consumed := []) (records := [])|by intros w Hw|intros a w Haw; exact Haw|done].
    + by intros w [? _ _ _ _ _ _].
    + intros w p [[[_ Ht _] _] _ Hin _ _ _ _] Hp. destruct (proj1 (in_map_iff _ _ _) (Hin key fs p (or_introl eq_refl) (Hsub p Hp))) as (e & <- & He). by apply Ht.
    + done.
  - intros [[records consumed] before]. cbn [fst snd]. cbv beta.
    destruct (_ <? _).
    + eapply triple_weaken; [apply (Hskip r)|by intros w [? _]|done|done].
    + eapply triple_weaken; [apply (compact_inputs_triple key fs ps records consumed before n r)| |done|done].
      intros w (Hw & Hrows & rest & Hrest). split; [done|]. split; [done|]. rewrite Hrest in Hcs, Hsub. split.
      * apply NoDup_ListNoDup in Hcs. apply NoDup_app in Hcs as (Hcs & _). by apply NoDup_ListNoDup.
      * intros p Hp. apply Hsub, in_or_app. by left.
Qed.

Lemma compact_partitions_triple ps : forall r,
  Triple (compacting [] ps)
    (compact_partitions to_json from_json fresh_id parquet_size store_dir written_unix_secs config now_unix_secs now uuids ps r)
    (fun _ w => same_rows w /\ (C -> listed_but [] w)) same_rows.
Proof.
  induction ps as [|[key fs] ps IH]; intros r; cbn [compact_partitions].
  - apply triple_value. by intros w [? ? _ _ _ _ _].
  - destruct (_ <=? _); [apply triple_value; by intros w [? ? _ _ _ _ _]|].
    eapply triple_bind; [apply compact_partition_triple|]. intros r'. cbv beta. apply IH.
Qed.

End Pass.

(** ** A compaction *)

Section Compaction.
Context (to_json : list Attr -> string) (from_json : string -> option (list Attr)).
Context (fresh_id : bytes) (parquet_size : Parquet -> Z) (store_dir : path).
Context (written_unix_secs : path -> option Z) (config : CompactConfig) (now_unix_secs : option Z) (now : Z) (uuids : nat -> bytes).

Abbreviation run_compact := (compact to_json from_json fresh_id parquet_size store_dir written_unix_secs config now_unix_secs now uuids).

(** The UUIDs drawn for the outputs are not those of files there. *)
Definition outputs_free (w : World) : Prop :=
  forall p k n, is_Some (parquet (w_disk w) !! p) -> key_of_path p = Some k -> parquet (w_disk w) !! out_path store_dir uuids k n = None.

Lemma listed_in d p : In p (list_parquet_files d) <-> is_Some (parquet d !! p).
Proof.
  rewrite <-list_elem_of_In. unfold list_parquet_files. rewrite stable_sort_perm, list_elem_of_fmap. split.
  - intros ([q x] & -> & Hin). apply elem_of_map_to_list in Hin. by exists x.
  - intros [x Hx]. exists (p, x). split; [done|]. by apply elem_of_map_to_list.
Qed.

Lemma listed_nodup d : List.NoDup (list_parquet_files d).
Proof.
  apply NoDup_ListNoDup. unfold list_parquet_files. rewrite stable_sort_perm. apply NoDup_fst_map_to_list.
Qed.

Lemma compact_start w : stored w -> listed_but [] w -> outputs_free w ->
  compacting store_dir uuids True w [] (stable_sort age_leb (by_partition (list_parquet_files (w_disk w)))) w.
Proof.
  intros Hs Hl Hf. set (ps := list_parquet_files (w_disk w)). destruct (by_partition_spec ps) as (Hin & Hnd & Hkn & Hkeyed).
  assert (forall e, In e (stable_sort age_leb (by_partition ps)) <-> In e (by_partition ps)) as Hsort.
  { intros e. split; apply Permutation_in; [apply stable_sort_perm|symmetry; apply stable_sort_perm]. }
  assert (Permutation (List.map fst (stable_sort age_leb (by_partition ps))) (List.map fst (by_partition ps))) as Hfst
    by apply Permutation_map, stable_sort_perm.
  assert (Permutation (List.concat (List.map snd (stable_sort age_leb (by_partition ps)))) (List.concat (List.map snd (by_partition ps)))) as Hsnd
    by (rewrite <-!flat_map_concat_map; apply Permutation_flat_map, stable_sort_perm).
  assert (forall k fs p, In (k, fs) (by_partition ps) -> In p fs -> is_Some (parquet (w_disk w) !! p) /\ key_of_path p = Some k) as Hpk.
  { intros k fs p Hk Hp. split.
    - apply listed_in, Hin. apply in_concat. exists fs. split; [|done]. apply in_map_iff. by exists (k, fs).
    - rewrite Forall_forall in Hkeyed. destruct (Hkeyed (k, fs)) as [_ Hk2]; [by apply list_elem_of_In|by apply Hk2]. }
  assert (forall k, In k (List.map fst (by_partition ps)) -> exists p, is_Some (parquet (w_disk w) !! p) /\ key_of_path p = Some k) as Hkey.
  { intros k ([k' fs] & <- & Hk)%in_map_iff. cbn. rewrite Forall_forall in Hkeyed. destruct (Hkeyed (k', fs)) as [Hne _]; [by apply list_elem_of_In|].
    destruct fs as [|p fs]; [done|]. exists p. apply (Hpk k' (p :: fs)); [done|by left]. }
  constructor.
  - by split.
  - by intros _.
  - intros k fs p Hk Hp. apply Hsort in Hk. destruct (Hpk k fs p Hk Hp) as [Hex Hkp]. by destruct (Hl p Hex ltac:(by exists k)).
  - eapply Permutation_NoDup; [symmetry; exact Hsnd|]. apply Hnd, listed_nodup.
  - by eapply Permutation_NoDup; [symmetry; exact Hfst|].
  - apply Forall_forall. intros k Hk. apply list_elem_of_In, (Permutation_in _ Hfst), Hkey in Hk as (p & _ & Hp). by eapply key_of_path_fits.
  - intros k n Hk. apply (Permutation_in _ Hfst), Hkey in Hk as (p & Hex & Hp). by apply (Hf p).
Qed.

Lemma compact_triple C w0 : stored w0 -> listed_but [] w0 -> outputs_free w0 ->
  triple C (fun _ => False) (eq w0) run_compact (fun _ w => same_rows w0 w /\ (C -> listed_but [] w)) (same_rows w0).
Proof.
  intros Hs Hl Hf. unfold compact. eapply triple_bind; [apply (triple_look C _ (same_rows w0))|]. intros ps. cbv beta.
  eapply triple_weaken; [apply (compact_partitions_triple to_json from_json fresh_id parquet_size store_dir written_unix_secs config now_unix_secs now uuids C w0)| |by intros r w Hw|done].
  intros w [<- ->]. destruct (compact_start w0 Hs Hl Hf) as [H1 H2 H3 H4 H5 H6 H7]. by constructor; try done; intros _; apply H2.
Qed.

(** C4: compaction keeps every row once.  From a store whose catalog names
    exactly the files of the tree, whatever fails or wherever the process dies,
    every catalogued path is there afterwards and is catalogued once, and the
    rows of the catalogued files are the same multiset.  When nothing fails the
    compaction returns, and the catalog names exactly the files again. *)
Theorem compact_keeps_rows w os : stored w -> listed_but [] w -> outputs_free w ->
  let after := fst (snd (run_compact (w, os))) in
  stored after /\ Permutation (visible after) (visible w) /\
  (quiet os -> listed_but [] after /\ exists report os', run_compact (w, os) = (inr report, (after, os'))).
Proof.
  intros Hs Hl Hf. cbv zeta.
  pose proof (compact_triple False w Hs Hl Hf w os ltac:(done) eq_refl) as H0.
  pose proof (compact_triple (quiet os) w Hs Hl Hf w os ltac:(done) eq_refl) as H1.
  destruct (run_compact (w, os)) as [[e|r] [w' os']]; cbn [fst snd].
  - destruct H0 as [[H0 Hv] _]. split; [done|]. split; [done|]. intros Hq. by destruct (proj2 H1 Hq).
  - destruct H0 as [[[H0 Hv] _] _]. split; [done|]. split; [done|]. intros Hq. split; [by apply H1|by eexists _, _].
Qed.
End Compaction.

(** ** Witnesses

    Four files of one partition, a row each. *)

Definition four_key : PartitionKey := mkKey "default" "default" 2 "warn_plus" "node-a".
Definition four_path (i : Z) : path := dir four_key ["store"] ++ [file_name_for_segment i (List.repeat Byte.x05 16)].
Definition four_record (i : Z) : LogRecord := new_record (List.repeat Byte.x01 16) (7200000000000 + i) 17 "boom".
Definition four_file (i : Z) : Parquet := parquet_file (fun _ => "[]") (four_path i) [four_record i] (mkLayout [] ∅).
Definition four_world : World :=
  let d := list_to_map (List.map (fun i => (four_path i, four_file i)) [1; 2; 3; 4]) in
  mkWorld [] (mkDisk d ∅ ∅)
    (foldl upsert_file db0 (List.map (fun i => mkEntry (four_path i) four_key (stats_of (fun _ => 100) (four_file i))) [1; 2; 3; 4]))
    (Drain.new Drain.drain_config_default).
Definition four_compact (id : byte) (w : World) (os : list Outcome) : (Stop + CompactReport) * (World * list Outcome) :=
  compact (fun _ => "[]") (fun _ => Some []) (List.repeat Byte.x00 16) (fun _ => 100) ["store"] (fun _ => Some 0)
    (compact_config_default 0) (Some 10) 1700000000 (fun _ => List.repeat id 16) (w, os).

Lemma four_compact_ok :
  let after := fst (snd (four_compact Byte.x09 four_world [])) in
  List.length (files (w_db after)) = 1%nat /\ List.length (visible after) = 4%nat.
Proof. vm_compute. split; reflexivity. Qed.

Lemma four_paths p : is_Some (parquet (w_disk four_world) !! p) -> In p (List.map four_path [1; 2; 3; 4]).
Proof.
  intros [x Hx]. unfold four_world in Hx. cbn [w_disk parquet] in Hx. apply elem_of_list_to_map_2 in Hx.
  apply list_elem_of_In in Hx. apply in_map_iff in Hx as (i & [= <- _] & Hi). by apply in_map.
Qed.

Lemma four_keys p : In p (List.map four_path [1; 2; 3; 4]) -> key_of_path p = Some four_key.
Proof.
  assert (List.map key_of_path (List.map four_path [1; 2; 3; 4]) = replicate 4 (Some four_key)) as E by (vm_compute; reflexivity).
  intros Hp. apply (in_map key_of_path) in Hp. rewrite E in Hp. by apply list_elem_of_In, elem_of_replicate in Hp as [-> _].
Qed.

Lemma four_stored : stored four_world.
Proof.
  constructor.
  - match goal with |- List.NoDup ?l => apply NoDup_ListNoDup, (bool_decide_eq_true_1 (base.NoDup l)) end. vm_compute. reflexivity.
  - intros e He. vm_compute in He. repeat destruct He as [<-|He]; first [by destruct He|vm_compute; by eexists].
  - intros p x Hx. unfold four_world in Hx. cbn [w_disk parquet] in Hx. apply elem_of_list_to_map_2 in Hx.
    apply list_elem_of_In in Hx. apply in_map_iff in Hx as (i & [= _ <-] & Hi).
    assert (1 <= i <= 4) by (cbn in Hi; lia). unfold rows_of, four_file, parquet_file. cbn [p_batch]. rewrite batch_core.
    constructor; [|constructor]. cbn. rewrite wrap_i64_small by (unfold i64_min, i64_max; lia). unfold i64_max. by split_and!; try lia.
Qed.

Lemma compact_keeps_rows_witness :
  let after := fst (snd (four_compact Byte.x09 four_world [])) in
  List.length (files (w_db after)) = 1%nat /\ Permutation (visible after) (visible four_world) /\ listed_but [] after.
Proof.
  pose proof (compact_keeps_rows (fun _ => "[]") (fun _ => Some []) (List.repeat Byte.x00 16) (fun _ => 100) ["store"] (fun _ => Some 0)
    (compact_config_default 0) (Some 10) 1700000000 (fun _ => List.repeat Byte.x09 16) four_world []) as H. cbv zeta in H.
  destruct H as (_ & Hv & Hq).
  - exact four_stored.
  - intros p Hp _. left. apply four_paths in Hp. exact Hp.
  - intros p k n Hp Hk. apply four_paths in Hp. rewrite (four_keys p Hp) in Hk. injection Hk as <-.
    vm_compute. reflexivity.
  - split; [vm_compute; reflexivity|]. split; [exact Hv|]. apply Hq. constructor.
Defined.

(** ** Inputs left behind *)

Definition rows_four (l : list Z) : list Core := List.map core (List.map four_record l).

(** The duplicates of an interrupted compaction stay.  The process dies
    between the transaction and the first unlink; the inputs are on disk and not
    in the catalog.  The next compaction lists the files, not the catalog, and
    merges them with the output: every row is catalogued twice from then on.  A
    rebuild of the catalog before it does not help: it takes in every file. *)
Theorem interrupted_compaction_doubles :
  let died := four_compact Byte.x09 four_world (replicate 11 Done ++ [Dies]) in
  let next := fst (snd (four_compact Byte.x0a (fst (snd died)) [])) in
  let rebuilt := fst (snd (rebuild (fun _ => 100) (fst (snd died), []))) in
  fst died = inl Died /\
  visible (fst (snd died)) = rows_four [1; 2; 3; 4] /\
  List.length (files (w_db next)) = 1%nat /\ visible next = rows_four [1; 1; 2; 2; 3; 3; 4; 4] /\
  visible rebuilt = rows_four [1; 2; 3; 4; 1; 2; 3; 4].
Proof. vm_compute. repeat split. Qed.
