(* ===== verification/Agent.v ===== *)
(** The log, the writer and the merger together: records appended, segments
    merged behind the writer, crashes and restarts in between
    ([wal.rs], [merge.rs] in [crates/logless-core/src]).

    The writer and the merger share the log directory; a pass is told the
    segment the writer is in.  What a crash keeps of the unsynced bytes is any
    prefix ([WalRecovery]); a pass may fail or die at any effect ([World]). *)

From stdpp Require Import sorting.
From Stdlib Require Import Permutation.
From S2P Require Import Prelude Text Lists Partition Model Typed Schema Files.
From S2P Require Wal WalRecovery Drain.
From S2P Require Import Tenancy PartsEdge Retention Budget Catalog World Store TemplateDict Merge MergeState MergeOnce.
Open Scope string_scope.
Open Scope Z_scope.
Open Scope list_scope.

(** ** One file of a directory *)

Lemma split_at (name : string) (c : bytes) (d : Files.Dir) : List.NoDup (List.map fst d) -> In (name, c) d ->
  exists l1 l2, d = l1 ++ (name, c) :: l2 /\ forall g, write_file name g d = l1 ++ (name, g c) :: l2.
Proof.
  intros Hn Hin. apply in_split in Hin as (l1 & l2 & ->). exists l1, l2. split; [done|]. intros g.
  rewrite map_app in Hn. cbn in Hn. pose proof (NoDup_remove_2 _ _ _ Hn) as Hno. rewrite in_app_iff in Hno.
  pose proof (write_file_notin name g l1) as E1. pose proof (write_file_notin name g l2) as E2. unfold write_file in *.
  rewrite map_app. cbn. rewrite String.eqb_refl, E1, E2 by auto. done.
Qed.

(** The ids and UUIDs of the whole headers of a directory. *)
Definition heads (d : Files.Dir) : list (Z * bytes) := omap headed d.

Lemma in_heads d x : In x (heads d) <-> exists f, In f d /\ headed f = Some x.
Proof. unfold heads. rewrite <-list_elem_of_In, list_elem_of_omap. by setoid_rewrite list_elem_of_In. Qed.

Lemma heads_mid l1 l2 f g : headed f = headed g -> heads (l1 ++ f :: l2) = heads (l1 ++ g :: l2).
Proof. intros H. unfold heads. rewrite !omap_app. f_equal. cbn. by rewrite H. Qed.

Section Agent.
Context (to_stdvec : list LogRecord -> option bytes) (from_bytes : bytes -> option (list LogRecord)) (crc32 : bytes -> Z).
Context `{!Wal.CodecLaws to_stdvec from_bytes crc32}.

Abbreviation frames := (Wal.frames to_stdvec crc32).
Abbreviation framable := (Wal.framable to_stdvec).
Abbreviation seg_file := (WalRecovery.seg_file to_stdvec crc32).
Abbreviation seg_ok := (WalRecovery.seg_ok to_stdvec).
Abbreviation read_frame := (Wal.read_frame from_bytes crc32).
Abbreviation waiting := (waiting from_bytes crc32).
Abbreviation unmerged := (unmerged from_bytes crc32).

(** What the merger makes of a batch. *)
Definition cores_of (bs : list (list LogRecord)) : list Core := List.map core (List.concat bs).

Lemma cores_of_app a b : cores_of (a ++ b) = cores_of a ++ cores_of b.
Proof. unfold cores_of. by rewrite concat_app, map_app. Qed.

(** ** A segment file, and bytes after it *)

Definition with_tail (s : WalRecovery.Seg) (t : bytes) : string * bytes := (fst (seg_file s), snd (seg_file s) ++ t).

Lemma headed_seg s t : seg_ok s -> headed (with_tail s t) = Some (WalRecovery.seg_id s, WalRecovery.seg_uuid s).
Proof.
  intros (Hid & Hu & _). unfold headed, with_tail, WalRecovery.seg_file. cbn [fst snd]. rewrite WalRecovery.segment_id_name by done. cbn [mbind option_bind].
  rewrite <-!app_assoc. rewrite (app_assoc Wal.MAGIC). set (h := Wal.MAGIC ++ WalRecovery.seg_uuid s).
  assert (List.length h = 24%nat) as Hh by (unfold h; by rewrite length_app, Hu).
  unfold Wal.is_incomplete_header. rewrite length_app, Hh. replace (Nat.min _ 24) with 24%nat by lia. cbn [Nat.ltb Nat.leb andb].
  unfold Wal.segment_uuid. rewrite read_full_app by (by rewrite Hh). unfold h. rewrite (take_app_length' Wal.MAGIC), (drop_app_length' Wal.MAGIC) by done.
  by rewrite bool_decide_eq_true_2.
Qed.

Lemma unmerged_seg merged s t : seg_ok s -> read_frame t = None -> merged !! WalRecovery.seg_uuid s = None ->
  unmerged merged (with_tail s t) = cores_of (WalRecovery.seg_batches s).
Proof.
  intros Hok Ht Hm. unfold MergeState.unmerged. rewrite headed_seg, Hm by done. unfold batches_of, with_tail. cbn [fst snd].
  destruct (WalRecovery.replay_seg to_stdvec from_bytes crc32 (fst (seg_file s)) s t Hok Ht) as (o & file' & -> & _). done.
Qed.

Lemma seg_no_tail s : seg_file s = with_tail s [].
Proof. unfold with_tail. rewrite app_nil_r. by destruct (seg_file s). Qed.

(** ** The store beside a directory *)

Lemma same_inv w w' : merge_inv w -> same_records w w' -> merge_inv w'.
Proof.
  intros [I1 I2 I3 I4 I5] Hs. pose proof Hs as (H1 & H2 & H3 & H4). constructor; rewrite ?H1, ?H2; try done.
  - intros f g id id' u Hf Hg. rewrite (same_pending w) in Hf, Hg by done. by eapply I3.
  - intros f g id id' u u' Hf Hg. rewrite (same_pending w) in Hf, Hg by done. by eapply I4.
  - intros f id u e Hf. rewrite (same_pending w) in Hf by done. by eapply I5.
Qed.

(** A file rewritten behind its header. *)
Lemma rewrite_inv w0 l1 l2 name c c' : merge_inv (set_wal (l1 ++ (name, c) :: l2) w0) -> headed (name, c') = headed (name, c) ->
  merge_inv (set_wal (l1 ++ (name, c') :: l2) w0).
Proof.
  set (w := set_wal (l1 ++ (name, c) :: l2) w0). set (w' := set_wal (l1 ++ (name, c') :: l2) w0).
  intros [I1 I2 I3 I4 I5] Hh.
  set (back := fun f : string * bytes => if String.eqb (fst f) name then (name, c) else f).
  assert (forall f, In f (l1 ++ (name, c') :: l2) -> fst f = name -> f = (name, c')) as Hone.
  { cbn in I1. rewrite map_app in I1. cbn in I1. pose proof (NoDup_remove_2 _ _ _ I1) as Hno. rewrite in_app_iff in Hno.
    intros f [Hf|[<-|Hf]]%in_app_or E; [exfalso; apply Hno; left; rewrite <-E; by apply in_map|done|].
    exfalso. apply Hno. right. rewrite <-E. by apply in_map. }
  assert (forall f id u, pending w' f id u -> pending w (back f) id u /\ In f (l1 ++ (name, c') :: l2)) as Hback.
  { intros f id u (Hf & Hhd & Hm). split; [|done]. unfold back. destruct (String.eqb_spec (fst f) name) as [E|E].
    - rewrite (Hone f Hf E), Hh in Hhd. split_and!; [|done|done]. cbn. apply in_or_app. right. by left.
    - split_and!; [|done|done]. cbn in Hf |- *. apply in_app_or in Hf as [Hf|[<-|Hf]]; [apply in_or_app; by left|done|apply in_or_app; right; by right]. }
  assert (forall f g, In f (l1 ++ (name, c') :: l2) -> In g (l1 ++ (name, c') :: l2) -> back f = back g -> f = g) as Hinj.
  { intros f g Hf Hg. unfold back. destruct (String.eqb_spec (fst f) name) as [e|], (String.eqb_spec (fst g) name) as [e'|]; intros E.
    - by rewrite (Hone f Hf e), (Hone g Hg e').
    - subst g. done.
    - subst f. done.
    - done. }
  constructor.
  - cbn in I1 |- *. rewrite map_app in *. exact I1.
  - exact I2.
  - intros f g id id' u [Hf Hf']%Hback [Hg Hg']%Hback. apply Hinj; [done|done|]. by eapply I3.
  - intros f g id id' u u' [Hf Hf']%Hback [Hg Hg']%Hback He. apply Hinj; [done|done|]. by eapply I4.
  - intros f id u e [Hf _]%Hback. by eapply I5.
Qed.

(** A UUID of its own: not of a merged segment nor of one in the log, and its
    file names neither catalogued nor to come. *)
Record fresh (w0 : World) (d : Files.Dir) (u : bytes) : Prop := {
  fr_length : List.length u = 16%nat;
  fr_merged : merged_segments (w_db w0) !! u = None;
  fr_heads : forall id, ~ In (id, u) (heads d);
  fr_names : forall id id' u', In (id', u') (heads d) -> file_name_for_segment id u <> file_name_for_segment id' u';
  fr_files : forall id e, In e (files (w_db w0)) -> List.last (f_path e) "" <> file_name_for_segment id u
}.

Lemma create_inv w0 d id u : merge_inv (set_wal d w0) -> ~ In (Wal.segment_name id) (List.map fst d) -> u64_range id -> fresh w0 d u ->
  merge_inv (set_wal (d ++ [seg_file (WalRecovery.mkSeg id u [])]) w0).
Proof.
  intros [I1 I2 I3 I4 I5] Hname Hid [F1 F2 F3 F4 F5].
  assert (headed (seg_file (WalRecovery.mkSeg id u [])) = Some (id, u)) as Hh.
  { rewrite seg_no_tail. apply (headed_seg (WalRecovery.mkSeg id u [])). split; [done|]. split; [done|constructor]. }
  set (new := seg_file (WalRecovery.mkSeg id u [])) in *. set (w' := set_wal (d ++ [new]) w0).
  assert (forall f id' u', pending w' f id' u' -> pending (set_wal d w0) f id' u' \/ f = new /\ id' = id /\ u' = u) as Hp.
  { intros f id' u' (Hf & Hhd & Hm). cbn in Hf. apply in_app_or in Hf as [Hf|[<-|[]]]; [left; by split_and!|right]. rewrite Hh in Hhd. by injection Hhd as <- <-. }
  assert (forall f id' u', pending (set_wal d w0) f id' u' -> In (id', u') (heads d)) as Hin.
  { intros f id' u' (Hf & Hhd & _). apply in_heads. by exists f. }
  constructor.
  - cbn [w' set_wal w_wal]. rewrite map_app. apply NoDup_app_maps; [done|repeat constructor; intros []|]. intros a b Ha [<-|[]] E. apply Hname. change (Wal.segment_name id) with (fst new). rewrite <-E. by apply in_map.
  - exact I2.
  - intros f g i i' v [Hf|(-> & -> & ->)]%Hp [Hg|(-> & -> & E)]%Hp; [by eapply I3| | |done].
    + subst v. by apply Hin, F3 in Hf.
    + by apply Hin, F3 in Hg.
  - intros f g i i' v v' [Hf|(-> & -> & ->)]%Hp [Hg|(-> & -> & ->)]%Hp E; [by eapply I4| | |done].
    + symmetry in E. by apply (F4 id) in E; [|eapply Hin].
    + by apply (F4 id) in E; [|eapply Hin].
  - intros f i v e [Hf|(-> & -> & ->)]%Hp He; [by eapply I5|by apply F5].
Qed.

Lemma create_heads d id u : u64_range id -> List.length u = 16%nat -> heads (d ++ [seg_file (WalRecovery.mkSeg id u [])]) = heads d ++ [(id, u)].
Proof.
  intros Hid Hu. unfold heads. rewrite omap_app. f_equal. cbn. rewrite (seg_no_tail (WalRecovery.mkSeg id u [])).
  rewrite (headed_seg (WalRecovery.mkSeg id u [])); [done|]. split; [done|]. split; [done|constructor].
Qed.

(** ** The writer among other files *)

(** The writer is in the segment [cur], with [pend] not synced; the other files
    of the log are older. *)
Record at_work (cur : WalRecovery.Seg) (pend : list (list LogRecord)) (w : Wal.WalWriter) : Prop := {
  aw_in : In (seg_file cur) (Wal.dir w);
  aw_below : forall name id, In name (List.map fst (Wal.dir w)) -> Wal.segment_id name = Some id ->
    name = Wal.segment_name (WalRecovery.seg_id cur) \/ id < WalRecovery.seg_id cur;
  aw_ok : seg_ok cur;
  aw_pend : Forall framable pend;
  aw_path : Wal.current_path w = Wal.segment_name (WalRecovery.seg_id cur);
  aw_id : Wal.current_id w = WalRecovery.seg_id cur;
  aw_current : Wal.current w = frames pend
}.

(** What is catalogued and what waits in a directory are some batches. *)
Record holding (w0 : World) (d : Files.Dir) (kept_ : list (list LogRecord)) : Prop := {
  ho_inv : merge_inv (set_wal d w0);
  ho_sound : sound_log (set_wal d w0);
  ho_rows : Permutation (visible w0 ++ waiting (set_wal d w0)) (cores_of kept_)
}.

(** The writer, the log and the store hold the abstract log [a]: what is durable
    of it is catalogued or waits in a segment, each batch once. *)
Definition working (w0 : World) (a : WalRecovery.LogSpec) (w : Wal.WalWriter) : Prop :=
  exists cur pend, at_work cur pend w /\ holding w0 (Wal.dir w) (WalRecovery.durable a) /\
    merged_segments (w_db w0) !! WalRecovery.seg_uuid cur = None /\ WalRecovery.appended a = WalRecovery.durable a ++ pend.

Lemma working_irrel w0 a w w' : working w0 a w -> Wal.dir w' = Wal.dir w -> Wal.current w' = Wal.current w ->
  Wal.current_path w' = Wal.current_path w -> Wal.current_id w' = Wal.current_id w -> working w0 a w'.
Proof.
  intros (cur & pend & [] & Hh & Hm & Ha) H1 H2 H3 H4. exists cur, pend. rewrite H1. split; [|done]. constructor; rewrite ?H1, ?H2, ?H3, ?H4; done.
Qed.

(** Bytes added to the segment the writer is in. *)
Lemma holding_extend w0 d cur more t kept_ : holding w0 d kept_ -> In (seg_file cur) d -> seg_ok cur -> Forall framable more ->
  read_frame t = None -> merged_segments (w_db w0) !! WalRecovery.seg_uuid cur = None ->
  let d' := write_file (Wal.segment_name (WalRecovery.seg_id cur)) (fun c => c ++ frames more ++ t) d in
  holding w0 d' (kept_ ++ more) /\ heads d' = heads d /\ List.map fst d' = List.map fst d /\
  In (with_tail (WalRecovery.extend cur more) t) d'.
Proof.
  intros [Hi Hs Hr] Hin Hok Hmore Ht Hm d'. pose proof (mi_names _ Hi) as Hnd. cbn in Hnd.
  assert (seg_ok (WalRecovery.extend cur more)) as Hok'.
  { destruct Hok as (H1 & H2 & H3). split; [done|]. split; [done|]. cbn. by apply Forall_app. }
  destruct (split_at (Wal.segment_name (WalRecovery.seg_id cur)) (snd (seg_file cur)) d Hnd) as (l1 & l2 & Ed & Hw).
  { exact Hin. }
  assert (d' = l1 ++ with_tail (WalRecovery.extend cur more) t :: l2) as Ed'.
  { unfold d'. rewrite Hw. do 2 f_equal. unfold with_tail, WalRecovery.seg_file. cbn [fst snd]. f_equal.
    change (WalRecovery.seg_batches (WalRecovery.extend cur more)) with (WalRecovery.seg_batches cur ++ more).
    change (WalRecovery.seg_uuid (WalRecovery.extend cur more)) with (WalRecovery.seg_uuid cur).
    by rewrite WalRecovery.frames_app, !app_assoc. }
  assert (headed (Wal.segment_name (WalRecovery.seg_id cur), snd (with_tail (WalRecovery.extend cur more) t)) =
    headed (Wal.segment_name (WalRecovery.seg_id cur), snd (seg_file cur))) as Hh.
  { change (headed (with_tail (WalRecovery.extend cur more) t) = headed (seg_file cur)). rewrite seg_no_tail, !headed_seg by done. done. }
  assert (unmerged (merged_segments (w_db w0)) (with_tail (WalRecovery.extend cur more) t) =
    unmerged (merged_segments (w_db w0)) (seg_file cur) ++ cores_of more) as Hu.
  { rewrite (seg_no_tail cur), !unmerged_seg by (try done; apply Wal.read_frame_nil). by rewrite <-cores_of_app. }
  rewrite Ed'. split; [|split; [|split]].
  - constructor.
    + apply (rewrite_inv w0 l1 l2 (Wal.segment_name (WalRecovery.seg_id cur)) (snd (seg_file cur))); [|done]. rewrite Ed in Hi. exact Hi.
    + intros f Hf Hid. cbn in Hf. apply in_app_or in Hf as [Hf|[<-|Hf]].
      * apply Hs; [|done]. cbn. rewrite Ed. apply in_or_app. by left.
      * right. rewrite headed_seg by done. by eexists.
      * apply Hs; [|done]. cbn. rewrite Ed. apply in_or_app. right. by right.
    + rewrite cores_of_app, <-Hr. unfold MergeState.waiting. cbn [set_wal w_wal w_db]. rewrite Ed, !flat_map_app. cbn [flat_map].
      change (Wal.segment_name (WalRecovery.seg_id cur), snd (seg_file cur)) with (seg_file cur). rewrite Hu. clear.
      rewrite <-!app_assoc. do 3 apply Permutation_app_head. apply Permutation_app_comm.
  - rewrite Ed. apply heads_mid. exact Hh.
  - rewrite Ed, !map_app. done.
  - apply in_or_app. right. by left.
Qed.

Lemma fresh_heads w0 d d' u : heads d' = heads d -> fresh w0 d u -> fresh w0 d' u.
Proof. intros E [F1 F2 F3 F4 F5]. constructor; try done; intros id; rewrite E; auto. Qed.

Lemma sync_working w0 a w now : working w0 a w ->
  exists w', Wal.sync now w = (inr tt, w') /\ working w0 (WalRecovery.mkLog (WalRecovery.appended a) (WalRecovery.appended a)) w' /\
    heads (Wal.dir w') = heads (Wal.dir w) /\ Wal.current_id w' = Wal.current_id w.
Proof.
  intros (cur & pend & [W1 W2 W3 W4 W5 W6 W7] & Hh & Hm & Ha). eexists. split; [reflexivity|]. cbn [Wal.sync modify Wal.dir Wal.set_dir].
  destruct (holding_extend w0 (Wal.dir w) cur pend [] _ Hh W1 W3 W4 (Wal.read_frame_nil from_bytes crc32) Hm) as (H1 & H2 & H3 & H4).
  match type of H1 with holding _ ?d _ => set (d' := d) in * end.
  assert (write_file (Wal.current_path w) (fun c => c ++ Wal.current w) (Wal.dir w) = d') as E.
  { unfold d'. rewrite W5, W7. unfold write_file. apply map_ext. intros f. by rewrite app_nil_r. }
  split; [|split; [cbn; by rewrite E|done]].
  exists (WalRecovery.extend cur pend), []. cbn. rewrite E. split; [|split; [by rewrite Ha|split; [done|by rewrite app_nil_r]]].
  constructor; cbn; rewrite ?E; try done.
  - by rewrite seg_no_tail.
  - intros name id. rewrite H3. by apply W2.
  - destruct W3 as (? & ? & ?). split; [done|]. split; [done|]. cbn. by apply Forall_app.
Qed.

(** A new segment, empty. *)
Lemma holding_create w0 d id u kept_ : holding w0 d kept_ -> ~ In (Wal.segment_name id) (List.map fst d) -> u64_range id -> fresh w0 d u ->
  holding w0 (d ++ [seg_file (WalRecovery.mkSeg id u [])]) kept_.
Proof.
  intros [Hi Hs Hr] Hn Hid Hf. assert (seg_ok (WalRecovery.mkSeg id u [])) as Hok by (split; [done|split; [apply Hf|constructor]]). constructor.
  - by apply create_inv.
  - intros f Hin Hsid. cbn in Hin. apply in_app_or in Hin as [Hin|[<-|[]]]; [by apply Hs|]. right.
    change (is_Some (headed (seg_file (WalRecovery.mkSeg id u [])))). rewrite seg_no_tail, headed_seg by done. by eexists.
  - rewrite <-Hr. unfold MergeState.waiting. cbn [set_wal w_wal w_db]. rewrite flat_map_app. cbn [flat_map].
    rewrite (seg_no_tail (WalRecovery.mkSeg id u [])), unmerged_seg; [|done|apply Wal.read_frame_nil|apply Hf]. cbn. by rewrite !app_nil_r.
Qed.

Lemma roll_working w0 a w now u : working w0 a w -> fresh w0 (Wal.dir w) u -> Wal.current_id w + 1 <= u64_max ->
  exists w', Wal.roll now u w = (inr tt, w') /\ working w0 (WalRecovery.mkLog (WalRecovery.appended a) (WalRecovery.appended a)) w' /\
    heads (Wal.dir w') = heads (Wal.dir w) ++ [(Wal.current_id w + 1, u)] /\ Wal.current_id w' = Wal.current_id w + 1.
Proof.
  intros Hw Hf Hroom. destruct (sync_working w0 a w now Hw) as (w1 & Hs & (cur & pend & [W1 W2 W3 W4 W5 W6 W7] & Hh & Hm & Ha) & Hheads & Hid).
  apply (fresh_heads w0 _ (Wal.dir w1)) in Hf; [|done]. pose proof W3 as ((Hpos & _) & _).
  assert (u64_range (Wal.current_id w + 1)) as Hr by (unfold u64_range; rewrite <-Hid, W6 in *; lia).
  assert (~ In (Wal.segment_name (Wal.current_id w + 1)) (List.map fst (Wal.dir w1))) as Hn.
  { intros Hin. destruct (W2 _ _ Hin (WalRecovery.segment_id_name _ Hr)) as [E|E]; [|lia].
    apply WalRecovery.segment_name_inj in E; [lia|done|apply W3]. }
  unfold Wal.roll. rewrite (SE_bind_run _ _ _ _ _ Hs).
  unfold mbind at 1, SE_bind at 1, modify at 1. unfold mbind at 1, SE_bind at 1, gets at 1. unfold id.
  cbn [Wal.current_id Wal.set_current_id Wal.dir]. rewrite Hid, wadd64_small by done.
  unfold Wal.create_segment. rewrite lookup_file_none by done.
  assert ((Wal.segment_name (Wal.current_id w + 1), Wal.MAGIC ++ u) = seg_file (WalRecovery.mkSeg (Wal.current_id w + 1) u [])) as Eseg
    by (unfold WalRecovery.seg_file; cbn; by rewrite app_nil_r).
  rewrite Eseg. eexists. split; [reflexivity|]. cbn [Wal.dir Wal.set_dir Wal.set_current Wal.set_current_path Wal.set_current_uuid Wal.set_current_len Wal.set_current_started].
  split; [|split; [|done]].
  2:{ cbn. rewrite create_heads by (try done; apply Hf). by rewrite Hheads. }
  exists (WalRecovery.mkSeg (Wal.current_id w + 1) u []), []. split; [|split; [|split; [apply Hf|by rewrite app_nil_r]]].
  - constructor; cbn; try done.
    + apply in_or_app. right. by left.
    + intros name i. rewrite map_app. intros [Hin|[<-|[]]]%in_app_or Hi; [|by left]. right. destruct (W2 name i Hin Hi) as [->|?]; [|lia].
      rewrite WalRecovery.segment_id_name in Hi by apply W3. injection Hi as <-. lia.
    + split; [done|]. split; [apply Hf|constructor].
  - cbn. by apply holding_create.
Qed.

(** *** The writer's operations *)

Definition apart (u u' : bytes) : Prop := u <> u' /\ forall id id', file_name_for_segment id u <> file_name_for_segment id' u'.

Lemma fresh_after w0 d d' id u u' : heads d' = heads d ++ [(id, u)] -> fresh w0 d u' -> apart u' u -> fresh w0 d' u'.
Proof.
  intros E [F1 F2 F3 F4 F5] [Hne Hn]. constructor; try done.
  - intros i Hin. rewrite E in Hin. apply in_app_or in Hin as [Hin|[Heq|[]]]; [by eapply F3|]. by injection Heq as _ <-.
  - intros i i' v Hin. rewrite E in Hin. apply in_app_or in Hin as [Hin|[Heq|[]]]; [by eapply F4|]. injection Heq as _ <-. apply Hn.
Qed.

Abbreviation LogSpec := WalRecovery.LogSpec.
Abbreviation mkLog := WalRecovery.mkLog.
Abbreviation appended := WalRecovery.appended.
Abbreviation durable := WalRecovery.durable.

Lemma working_prefix w0 a w : working w0 a w -> exists rest, appended a = durable a ++ rest.
Proof. intros (cur & pend & _ & _ & _ & Ha). by exists pend. Qed.

Lemma written_working w0 a w b : working w0 a w -> framable b -> working w0 (mkLog (appended a ++ [b]) (durable a)) (WalRecovery.written to_stdvec crc32 b w).
Proof.
  intros (cur & pend & [] & Hh & Hm & Ha) Hb. exists cur, (pend ++ [b]). split; [|split; [done|split; [done|]]].
  - constructor; cbn; try done.
    + apply Forall_app. split; [done|]. by constructor.
    + rewrite aw_current0, WalRecovery.frames_app. f_equal. unfold Wal.frames. cbn. by rewrite app_nil_r.
  - cbn. by rewrite Ha, app_assoc.
Qed.

(** The batches appended, the part made durable, the ids used. *)
Definition progress (w0 : World) (bs : list (list LogRecord)) (n : Z) (a : LogSpec) (w : Wal.WalWriter) (a' : LogSpec) (w' : Wal.WalWriter) : Prop :=
  working w0 a' w' /\ WalRecovery.spec_step bs a a' /\ Wal.current_id w' <= Wal.current_id w + n.

Lemma spec_step_of bs a a' w0 w' more : working w0 a' w' -> appended a' = appended a ++ bs -> durable a' = durable a ++ more -> WalRecovery.spec_step bs a a'.
Proof. intros Hw H1 H2. split; [done|]. split; [by exists more|]. by eapply working_prefix. Qed.

Lemma append_working w0 a w b now u : working w0 a w -> b <> [] -> framable b -> fresh w0 (Wal.dir w) u -> Wal.current_id w + 1 <= u64_max ->
  exists w' a', Wal.append to_stdvec crc32 b now u w = (inr tt, w') /\ progress w0 [b] 1 a w a' w'.
Proof.
  intros Hw Hne Hb Hf Hroom. rewrite WalRecovery.append_run by done. pose proof (written_working _ _ _ b Hw Hb) as H1. unfold when.
  destruct (_ <=? _).
  - destruct (roll_working _ _ _ now u H1 Hf Hroom) as (w' & -> & Hw' & _ & Hid). eexists w', _. split; [done|]. split; [exact Hw'|].
    destruct (working_prefix _ _ _ Hw) as [rest Hr]. split; [eapply (spec_step_of _ _ _ w0 w' (rest ++ [b])); [done|done|]|rewrite Hid; cbn; lia].
    cbn. by rewrite Hr, <-app_assoc.
  - eexists _, _. split; [done|]. split; [exact H1|]. split; [|cbn; lia]. eapply (spec_step_of _ _ _ w0 _ []); [exact H1|done|]. cbn. by rewrite app_nil_r.
Qed.

Lemma roll_if_due_working w0 a w now u : working w0 a w -> fresh w0 (Wal.dir w) u -> Wal.current_id w + 1 <= u64_max ->
  exists b w' a', Wal.roll_if_due now u w = (inr b, w') /\ progress w0 [] 1 a w a' w' /\ appended a' = appended a /\
    (w' = w \/ heads (Wal.dir w') = heads (Wal.dir w) ++ [(Wal.current_id w + 1, u)]).
Proof.
  intros Hw Hf Hroom. unfold Wal.roll_if_due. rewrite (SE_bind_run _ _ w (Wal.roll_due now w) w) by done. destruct (Wal.roll_due now w); unfold when.
  - destruct (roll_working _ _ _ now u Hw Hf Hroom) as (w' & Hr & Hw' & Hh & Hid). exists true, w', (mkLog (appended a) (appended a)). rewrite (SE_bind_run _ _ _ _ _ Hr).
    split; [done|]. split; [|split; [done|by right]]. split; [exact Hw'|]. destruct (working_prefix _ _ _ Hw) as [rest Hrest].
    split; [|lia]. eapply (spec_step_of _ _ _ w0 w' rest); [done|by rewrite app_nil_r|done].
  - exists false, w, a. split; [done|]. split; [|split; [done|by left]]. split; [done|]. split; [|lia]. eapply (spec_step_of _ _ _ w0 w []); [done|by rewrite app_nil_r|by rewrite app_nil_r].
Qed.

Lemma maybe_sync_working w0 a w now : working w0 a w ->
  exists b w' a', Wal.maybe_sync now w = (inr b, w') /\ progress w0 [] 0 a w a' w'.
Proof.
  intros Hw. unfold Wal.maybe_sync. rewrite (SE_bind_run _ _ w (Wal.sync_due now w) w) by done. destruct (Wal.sync_due now w); unfold when.
  - destruct (sync_working _ _ _ now Hw) as (w1 & Hr & Hw' & _ & Hid). rewrite (SE_bind_run _ _ _ _ _ Hr).
    eexists _, _, _. split; [reflexivity|]. split; [eapply working_irrel; [exact Hw'|done|done|done|done]|].
    destruct (working_prefix _ _ _ Hw) as [rest Hrest]. split; [|cbn; lia]. eapply (spec_step_of _ _ _ w0 w1 rest); [done|by rewrite app_nil_r|done].
  - eexists _, _, a. split; [reflexivity|]. split; [eapply working_irrel; [exact Hw|done|done|done|done]|]. split; [|cbn; lia].
    eapply (spec_step_of _ _ _ w0 w []); [done|by rewrite app_nil_r|by rewrite app_nil_r].
Qed.

Lemma append_at_working w0 a w b now u1 u2 : working w0 a w -> b <> [] -> framable b ->
  fresh w0 (Wal.dir w) u1 -> fresh w0 (Wal.dir w) u2 -> apart u2 u1 -> Wal.current_id w + 2 <= u64_max ->
  exists w' a', Wal.append_at to_stdvec crc32 b now u1 u2 w = (inr tt, w') /\ progress w0 [b] 2 a w a' w'.
Proof.
  intros Hw Hne Hb Hf1 Hf2 Hap Hroom.
  destruct (roll_if_due_working _ _ _ now u1 Hw Hf1 ltac:(lia)) as (due & w1 & a1 & Hr & (Hw1 & (_ & [m1 Hm1] & _) & Hid1) & Ha1 & Hh).
  unfold Wal.append_at. destruct b as [|r b]; [done|]. rewrite (SE_bind_run _ _ _ _ _ Hr).
  set (w2 := if Wal.current_started w1 =? 0 then Wal.set_current_started (Z.max now 1) w1 else w1).
  rewrite (SE_bind_run _ _ w1 tt w2) by done.
  assert (working w0 a1 w2 /\ Wal.current_id w2 = Wal.current_id w1 /\ Wal.dir w2 = Wal.dir w1) as (Hw2 & Hid2 & Hd2).
  { unfold w2. destruct (_ =? _); [|done]. split; [by eapply working_irrel|done]. }
  assert (fresh w0 (Wal.dir w2) u2) as Hf2'.
  { rewrite Hd2. destruct Hh as [->|Hh]; [done|]. by eapply fresh_after. }
  destruct (append_working _ _ _ (r :: b) now u2 Hw2 Hne Hb Hf2' ltac:(lia)) as (w' & a' & He & Hw' & (H1 & [m2 H2] & _) & Hid').
  exists w', a'. split; [done|]. split; [done|]. split; [|lia]. eapply (spec_step_of _ _ _ w0 w' (m1 ++ m2)); [done|by rewrite H1, Ha1|].
  by rewrite H2, Hm1, app_assoc.
Qed.

(** The UUIDs an operation may use are new. *)
Definition op_fresh (w0 : World) (w : Wal.WalWriter) (o : WalRecovery.Op) : Prop :=
  Forall framable (WalRecovery.op_batches o) /\
  match o with
  | WalRecovery.OpAppend _ _ u | WalRecovery.OpRollIfDue _ u | WalRecovery.OpRoll _ u => fresh w0 (Wal.dir w) u
  | WalRecovery.OpAppendAt _ _ u1 u2 => fresh w0 (Wal.dir w) u1 /\ fresh w0 (Wal.dir w) u2 /\ apart u2 u1
  | _ => True
  end.

(** The operations after which nothing is unsynced. *)
Definition settles (o : WalRecovery.Op) : bool := match o with WalRecovery.OpSync _ | WalRecovery.OpRoll _ _ => true | _ => false end.

Lemma exec_working w0 a w o : working w0 a w -> op_fresh w0 w o -> Wal.current_id w + 2 <= u64_max ->
  exists w' a', WalRecovery.exec to_stdvec crc32 o w = (inr tt, w') /\ working w0 a' w' /\
    WalRecovery.spec_step (WalRecovery.op_batches o) a a' /\ (settles o = true -> durable a' = appended a').
Proof.
  intros Hw [Hf Ho] Hroom. destruct (working_prefix _ _ _ Hw) as [rest Hrest].
  assert (WalRecovery.spec_step [] a a) as Hstay by (eapply (spec_step_of _ _ _ w0 w []); [done|by rewrite app_nil_r|by rewrite app_nil_r]).
  destruct o as [[|r b] now u|[|r b] now u1 u2|now u|now|now|now u]; cbn [WalRecovery.exec WalRecovery.op_batches settles].
  - exists w, a. by split_and!.
  - apply Forall_cons in Hf as [Hb _]. destruct (append_working _ _ _ (r :: b) now u Hw ltac:(done) Hb Ho ltac:(lia)) as (w' & a' & He & Hw' & Hs & _).
    exists w', a'. by split.
  - exists w, a. by split_and!.
  - apply Forall_cons in Hf as [Hb _]. destruct Ho as (Ho1 & Ho2 & Hap).
    destruct (append_at_working _ _ _ (r :: b) now u1 u2 Hw ltac:(done) Hb Ho1 Ho2 Hap ltac:(lia)) as (w' & a' & He & Hw' & Hs & _). exists w', a'. by split.
  - destruct (roll_if_due_working _ _ _ now u Hw Ho ltac:(lia)) as (due & w' & a' & He & (Hw' & Hs & _) & _). exists w', a'.
    unfold WalRecovery.discard. rewrite (SE_bind_run _ _ _ _ _ He). by split.
  - destruct (maybe_sync_working _ _ _ now Hw) as (b & w' & a' & He & Hw' & Hs & _). exists w', a'.
    unfold WalRecovery.discard. rewrite (SE_bind_run _ _ _ _ _ He). by split.
  - destruct (sync_working _ _ _ now Hw) as (w' & He & Hw' & _ & Hid). eexists w', _. split; [exact He|]. split; [exact Hw'|]. split; [|done].
    eapply (spec_step_of _ _ _ w0 w' rest); [done|by rewrite app_nil_r|done].
  - destruct (roll_working _ _ _ now u Hw Ho ltac:(lia)) as (w' & He & Hw' & _ & Hid). eexists w', _. split; [exact He|]. split; [exact Hw'|]. split; [|done].
    eapply (spec_step_of _ _ _ w0 w' rest); [done|by rewrite app_nil_r|done].
Qed.

(** ** The agent *)

Context (to_json : list Attr -> string) (parquet_size : Parquet -> Z) (meta_size : MetaFile -> Z) (store_dir : path).
Hypothesis decoded : forall p b, from_bytes p = Some b -> Forall (fun r => u64_range (timestamp_unix_nano r) /\ 0 <= severity r) b.

Abbreviation after := (after to_json from_bytes crc32 parquet_size meta_size store_dir).
Abbreviation run_pass := (run_pass to_json from_bytes crc32 parquet_size meta_size store_dir).

(** The writer, when one runs, and the world with the log directory in it. *)
Record System := mkSystem { writer : option Wal.WalWriter; store : World }.

Inductive Label := LWrite (o : WalRecovery.Op) | LMerge | LCrash | LStart.

(** An operation of the writer; a pass beside it, or without it, that may fail
    or die at any effect; a crash, which keeps any [k] of the unsynced bytes; a
    start. *)
Inductive step : System -> Label -> System -> Prop :=
| step_write w st o w' : op_fresh st w o -> Wal.current_id w + 2 <= u64_max ->
    WalRecovery.exec to_stdvec crc32 o w = (inr tt, w') ->
    step (mkSystem (Some w) st) (LWrite o) (mkSystem (Some w') (set_wal (Wal.dir w') st))
| step_merge w st p : pass_ok p -> ps_active p = Some (Wal.current_id w) ->
    step (mkSystem (Some w) st) LMerge (mkSystem (Some (Wal.set_dir (w_wal (after st p)) w)) (after st p))
| step_merge_alone st p : pass_ok p -> step (mkSystem None st) LMerge (mkSystem None (after st p))
| step_crash w st k : step (mkSystem (Some w) st) LCrash (mkSystem None (set_wal (WalRecovery.crash k w) st))
| step_start st sb fi fb now u w : fresh st (w_wal st) u ->
    (forall name id, In name (List.map fst (w_wal st)) -> Wal.segment_id name = Some id -> id < u64_max) ->
    Wal.open (w_wal st) sb fi fb now u = inr w ->
    step (mkSystem None st) LStart (mkSystem (Some w) (set_wal (Wal.dir w) st)).

(** ** The ledger it refines

    The batches appended and the durable prefix of them.  A merge changes
    nothing; a crash makes any number of the other batches durable and forgets
    the rest. *)
Definition ledger_step (l : Label) (a a' : LogSpec) : Prop :=
  match l with
  | LWrite o => WalRecovery.spec_step (WalRecovery.op_batches o) a a' /\ (settles o = true -> durable a' = appended a')
  | LMerge | LStart => a' = a
  | LCrash => exists j, let kept_ := durable a ++ take j (drop (List.length (durable a)) (appended a)) in a' = mkLog kept_ kept_
  end.

Definition related (s : System) (a : LogSpec) : Prop :=
  match writer s with
  | Some w => w_wal (store s) = Wal.dir w /\ working (store s) a w
  | None => holding (store s) (w_wal (store s)) (durable a) /\ appended a = durable a
  end.

Lemma set_wal_same w : set_wal (w_wal w) w = w.
Proof. by destruct w. Qed.

Lemma holding_pass st p kept_ : holding st (w_wal st) kept_ -> pass_ok p -> holding (after st p) (w_wal (after st p)) kept_.
Proof.
  intros [Hi Hs Hr] Hp. rewrite set_wal_same in *.
  destruct (pass_safe to_json from_bytes crc32 parquet_size meta_size store_dir decoded True p st Hi ltac:(done)) as [[(Hi' & Hpe & _) [Hf _]] _].
  constructor; rewrite set_wal_same; [done|by apply Hf|]. by rewrite Hpe.
Qed.

(** The segment the writer is in stays as it is. *)
Lemma working_pass st w a p : w_wal st = Wal.dir w -> working st a w -> pass_ok p -> ps_active p = Some (Wal.current_id w) ->
  working (after st p) a (Wal.set_dir (w_wal (after st p)) w).
Proof.
  intros Hd (cur & pend & [W1 W2 W3 W4 W5 W6 W7] & Hh & Hm & Ha) Hp Hact. rewrite <-Hd in *.
  pose proof Hh as [Hi Hs _]. rewrite set_wal_same in *.
  destruct (pass_safe to_json from_bytes crc32 parquet_size meta_size store_dir decoded True p st Hi ltac:(done)) as [[_ [_ (Hk1 & Hk2 & Hk3)]] _].
  assert (~ eligible (ps_active p) (seg_file cur)) as Hne.
  { unfold eligible, eligible_name. cbn [fst WalRecovery.seg_file]. rewrite WalRecovery.segment_id_name by apply W3. rewrite Hact, W6. lia. }
  exists cur, pend. split; [|split; [by apply holding_pass|split; [|done]]].
  - constructor; cbn; try done; [by apply Hk1|]. intros name id Hin. apply in_map_iff in Hin as (f & <- & Hf). apply W2. by apply Hk2.
  - apply (Hk3 (seg_file cur) (WalRecovery.seg_id cur)); [|done]. split_and!; [done|by rewrite seg_no_tail, headed_seg|done].
Qed.

Lemma crash_working st a w k : working st a w -> exists j,
  let kept_ := durable a ++ take j (drop (List.length (durable a)) (appended a)) in
  holding st (WalRecovery.crash k w) kept_.
Proof.
  intros (cur & pend & [W1 W2 W3 W4 W5 W6 W7] & Hh & Hm & Ha).
  destruct (Wal.take_frames to_stdvec from_bytes crc32 k pend W4) as (j & t & Ht & Hn). exists j. cbv zeta.
  rewrite Ha, drop_app_length.
  destruct (holding_extend st (Wal.dir w) cur (take j pend) t _ Hh W1 W3 ltac:(by apply Forall_take) Hn Hm) as (H1 & _).
  unfold WalRecovery.crash. rewrite W5, W7, Ht. exact H1.
Qed.

Lemma last_largest (l : list (Z * string)) x : StronglySorted (fun a b => Wal.by_id a b = true) l -> last l = Some x ->
  forall y, In y l -> fst y <= fst x.
Proof.
  intros Hs. induction Hs as [|z l Hs IH Hz]; [done|]. intros Hl y Hy. destruct l as [|z' l].
  - injection Hl as ->. destruct Hy as [<-|[]]. lia.
  - assert (last (z' :: l) = Some x) as Hl' by done. destruct Hy as [<-|Hy]; [|by apply IH].
    rewrite Forall_forall in Hz. specialize (Hz z' ltac:(by left)). unfold Wal.by_id in Hz. apply Z.leb_le in Hz.
    specialize (IH Hl' z' ltac:(by left)). lia.
Qed.

Lemma start_working st sb fi fb now u w kept_ : holding st (w_wal st) kept_ -> fresh st (w_wal st) u ->
  (forall name id, In name (List.map fst (w_wal st)) -> Wal.segment_id name = Some id -> id < u64_max) ->
  Wal.open (w_wal st) sb fi fb now u = inr w -> working st (mkLog kept_ kept_) w.
Proof.
  intros Hh Hf Hroom. unfold Wal.open.
  set (n := match last (Wal.list_segments (w_wal st)) with Some (id, _) => wadd64 id 1 | None => 1 end).
  assert (forall name id, In name (List.map fst (w_wal st)) -> Wal.segment_id name = Some id -> In (id, name) (Wal.list_segments (w_wal st))) as Hlist.
  { intros name id Hin Hid. apply in_map_iff in Hin as (f & <- & Hin). unfold Wal.list_segments. apply list_elem_of_In. rewrite stable_sort_perm.
    apply list_elem_of_omap. exists f. split; [by apply list_elem_of_In|]. by rewrite Hid. }
  assert (u64_range n /\ forall name id, In name (List.map fst (w_wal st)) -> Wal.segment_id name = Some id -> id < n) as [Hn Hbelow].
  { unfold n. destruct (last (Wal.list_segments (w_wal st))) as [[i name]|] eqn:El.
    - assert (In (i, name) (Wal.list_segments (w_wal st))) as Hi by (apply list_elem_of_In; by apply last_Some_elem_of).
      assert (0 <= i < u64_max) as Hr.
      { unfold Wal.list_segments in Hi. apply list_elem_of_In in Hi. rewrite stable_sort_perm in Hi. apply list_elem_of_omap in Hi as ([nm c] & Hin & E).
        cbn in E. destruct (Wal.segment_id nm) as [i'|] eqn:Ei; [|done]. injection E as -> ->. split.
        - unfold Wal.segment_id in Ei. destruct (Wal.wal_stem name); [|done]. cbn in Ei. apply parse_uint_range in Ei. lia.
        - apply (Hroom name i); [|done]. apply in_map_iff. exists (name, c). split; [done|]. by apply list_elem_of_In. }
      rewrite wadd64_small by (unfold u64_range; lia). split; [unfold u64_range; lia|]. intros nm id Hin Hid.
      assert (id <= i); [|lia]. change i with (fst (i, name)). change id with (fst (id, nm)).
      eapply last_largest; [|exact El|by apply Hlist].
      apply stable_sort_sorted; unfold Wal.by_id; intros; rewrite !Z.leb_le in *; lia.
    - split; [unfold u64_range, u64_max; lia|]. intros nm id Hin Hid. exfalso. apply last_None in El. specialize (Hlist nm id Hin Hid). by rewrite El in Hlist. }
  assert (~ In (Wal.segment_name n) (List.map fst (w_wal st))) as Hname.
  { intros Hin. specialize (Hbelow _ n Hin (WalRecovery.segment_id_name _ Hn)). lia. }
  unfold Wal.create_segment. rewrite lookup_file_none by done.
  assert ((Wal.segment_name n, Wal.MAGIC ++ u) = seg_file (WalRecovery.mkSeg n u [])) as Eseg by (unfold WalRecovery.seg_file; cbn; by rewrite app_nil_r).
  rewrite Eseg. clearbody n. intros Ho. injection Ho as <-. exists (WalRecovery.mkSeg n u []), []. split; [|split; [|split; [apply Hf|by rewrite app_nil_r]]].
  - constructor; cbn; try done.
    + apply in_or_app. right. by left.
    + intros name i. rewrite map_app. intros [Hin|[<-|[]]]%in_app_or Hi; [right; by apply (Hbelow name)|by left].
    + split; [done|]. split; [apply Hf|constructor].
  - by apply holding_create.
Qed.

Lemma holding_irrel st st' d kept_ : w_db st' = w_db st -> w_disk st' = w_disk st -> holding st d kept_ -> holding st' d kept_.
Proof.
  intros Hdb Hdisk [Hi Hs Hr].
  assert (visible st' = visible st) as Hv by (unfold visible; by rewrite Hdb, Hdisk).
  constructor.
  - apply (same_inv (set_wal d st)); [done|]. split; [done|]. cbn. rewrite Hdb, Hdisk. by split_and!.
  - exact Hs.
  - rewrite Hv, <-Hr. unfold MergeState.waiting. cbn. by rewrite Hdb.
Qed.

Lemma working_irrel_store st st' a w : w_db st' = w_db st -> w_disk st' = w_disk st -> working st a w -> working st' a w.
Proof.
  intros Hdb Hdisk (cur & pend & H1 & H2 & H3 & H4). exists cur, pend. rewrite Hdb. split; [done|]. split; [by apply (holding_irrel st)|done].
Qed.

Lemma step_refines s l s' a : related s a -> step s l s' -> exists a', ledger_step l a a' /\ related s' a'.
Proof.
  intros Hrel Hstep. destruct Hstep as [w st o w' Hf Hroom He|w st p Hp Hact|st p Hp|w st k|st sb fi fb now u w Hf Hroom Ho]; cbn in Hrel.
  - destruct Hrel as [_ Hw]. destruct (exec_working _ _ _ _ Hw Hf Hroom) as (w1 & a' & He' & Hw' & Hs). rewrite He in He'. injection He' as <-.
    exists a'. split; [done|]. split; [done|]. by apply (working_irrel_store st).
  - exists a. split; [done|]. destruct Hrel as [Hd Hw]. split; [done|]. cbn. by apply working_pass.
  - exists a. split; [done|]. destruct Hrel as [Hh Ha]. split; [|done]. cbn. by apply holding_pass.
  - destruct Hrel as [_ Hw]. destruct (crash_working _ _ _ k Hw) as [j Hh]. cbv zeta in Hh. eexists. split; [by exists j|]. split; [|done].
    cbn. by apply (holding_irrel st).
  - exists a. split; [done|]. destruct Hrel as [Hh Ha]. split; [done|]. cbn. apply (working_irrel_store st); [done|done|].
    destruct a as [ap du]. cbn in Ha. rewrite Ha in *. by eapply start_working.
Qed.

Inductive run : list Label -> System -> System -> Prop :=
| run_nil s : run [] s s
| run_snoc ls l s0 s s' : run ls s0 s -> step s l s' -> run (ls ++ [l]) s0 s'.

Inductive ledger : list Label -> LogSpec -> Prop :=
| ledger_nil : ledger [] (mkLog [] [])
| ledger_snoc ls l a a' : ledger ls a -> ledger_step l a a' -> ledger (ls ++ [l]) a'.

Lemma empty_holding st : w_wal st = [] -> files (w_db st) = [] -> holding st (w_wal st) [].
Proof.
  intros Hd Hf. rewrite Hd. constructor.
  - constructor; cbn.
    + constructor.
    + rewrite Hf. constructor.
    + by intros f g id id' u [[] _].
    + by intros f g id id' u u' [[] _].
    + by intros f id u e [[] _].
  - by intros f [].
  - unfold visible. rewrite Hf. done.
Qed.

Lemma run_refines ls s0 s : run ls s0 s -> s0 = mkSystem None (store s0) -> w_wal (store s0) = [] -> files (w_db (store s0)) = [] ->
  exists a, ledger ls a /\ related s a.
Proof.
  intros Hrun Hs Hd Hf. induction Hrun as [s|ls l s0 s s' Hrun IH Hstep].
  - exists (mkLog [] []). split; [constructor|]. rewrite Hs. split; [|done]. by apply empty_holding.
  - destruct (IH Hs Hd Hf) as (a & Hl & Hr). destruct (step_refines _ _ _ _ Hr Hstep) as (a' & Hl' & Hr'). exists a'. split; [by econstructor|done].
Qed.

Lemma related_holding s a : related s a -> holding (store s) (w_wal (store s)) (durable a).
Proof.
  unfold related. destruct (writer s); [|by intros [? _]]. intros [-> (cur & pend & _ & ? & _)]. done.
Qed.

(** C1: from append to store.  Start with an empty log and store; let the writer
    append, roll and sync, merge passes run beside it that fail or die anywhere,
    the process crash and start again, in any order.  At any moment the rows of
    the catalogued files and the records waiting in the log are, each once, the
    durable batches of the ledger: everything that was synced, and of the rest a
    prefix at each crash.  And one pass that nothing disturbs, with no writer,
    returns and leaves all of it catalogued. *)
Theorem appended_records_are_stored_once ls st s : run ls (mkSystem None st) s -> w_wal st = [] -> files (w_db st) = [] ->
  exists a, ledger ls a /\ Permutation (visible (store s) ++ waiting (store s)) (cores_of (durable a)) /\
    forall p, writer s = None -> pass_ok p -> quiet (ps_script p) -> ps_active p = None ->
      exists report os, run_pass p (store s) = (inr report, (after (store s) p, os)) /\
        waiting (after (store s) p) = [] /\ Permutation (visible (after (store s) p)) (cores_of (durable a)).
Proof.
  intros Hrun Hd Hf. destruct (run_refines _ _ _ Hrun eq_refl Hd Hf) as (a & Hl & Hr). exists a. split; [done|].
  pose proof (related_holding _ _ Hr) as Hh. pose proof Hh as [Hi Hs Hrows]. rewrite set_wal_same in *. split; [done|]. intros p _ Hp Hq Ha.
  destruct (quiet_pass_drains to_json from_bytes crc32 parquet_size meta_size store_dir decoded p (store s) Hi Hs Hp Hq Ha) as (r & os & Hrun' & Hw).
  exists r, os. split; [done|]. split; [done|]. destruct (holding_pass _ p _ Hh Hp) as [_ _ Hrows']. rewrite set_wal_same, Hw, app_nil_r in Hrows'. done.
Qed.
End Agent.

(** ** Witness *)

#[local] Existing Instance WalRecovery.sample_codec.

Lemma append_suffix_inj a : forall a' b b', String.length b = String.length b' -> String.append a b = String.append a' b' -> b = b'.
Proof.
  induction a as [|c a IH]; intros [|c' a'] b b' Hl E; cbn in E; [done| | |].
  - subst b. cbn in Hl. rewrite length_str_app in Hl. lia.
  - subst b'. cbn in Hl. rewrite length_str_app in Hl. lia.
  - injection E as _ E. by apply (IH a').
Qed.
Lemma append_prefix_inj a : forall a' b b', String.length a = String.length a' -> String.append a b = String.append a' b' -> a = a'.
Proof.
  induction a as [|c a IH]; intros [|c' a'] b b' Hl E; cbn in *; try done. injection E as -> E. f_equal. apply (IH a' b b'); [lia|done].
Qed.

Lemma length_first_digits n s : (n <= String.length s)%nat -> String.length (str_take n s) = n.
Proof. revert s. induction n as [|n IH]; intros [|c s] H; cbn in *; try done; [lia|]. f_equal. apply IH. lia. Qed.
Lemma length_simple u : String.length (simple u) = (2 * List.length u)%nat.
Proof. induction u as [|b u IH]; [done|]. cbn [simple String.length List.length]. lia. Qed.

(** A file's name tells the first twelve digits of its UUID. *)
Lemma name_digits id id' u u' : List.length u = 16%nat -> List.length u' = 16%nat -> file_name_for_segment id u = file_name_for_segment id' u' ->
  str_take 12 (simple u) = str_take 12 (simple u').
Proof.
  intros Hu Hu'.
  assert (String.length (str_take 12 (simple u)) = 12%nat /\ String.length (str_take 12 (simple u')) = 12%nat) as [H1 H2]
    by (rewrite !length_first_digits by (rewrite length_simple; lia); done).
  unfold file_name_for_segment. revert H1 H2. generalize (str_take 12 (simple u)), (str_take 12 (simple u')). intros a a' H1 H2 E. injection E as E.
  apply append_suffix_inj in E; [|cbn [String.length]; by rewrite !length_str_app, H1, H2]. injection E as E. apply append_prefix_inj in E; [done|by rewrite H1, H2].
Qed.

Definition uuid_digits (u : bytes) : string := str_take 12 (simple u).

Lemma fresh_empty st d u hs : heads d = hs -> List.length u = 16%nat -> merged_segments (w_db st) = ∅ -> files (w_db st) = [] ->
  Forall (fun h => List.length (snd h) = 16%nat /\ uuid_digits (snd h) <> uuid_digits u) hs -> fresh st d u.
Proof.
  intros <- Hu Hm Hf Hall. rewrite Forall_forall in Hall. constructor.
  - done.
  - rewrite Hm. apply lookup_empty.
  - intros id Hin. apply list_elem_of_In in Hin. by destruct (Hall _ Hin) as [_ []].
  - intros id id' u' Hin E. apply list_elem_of_In in Hin. destruct (Hall _ Hin) as [Hl Hne]. apply Hne. symmetry. by eapply name_digits.
  - intros id e. by rewrite Hf.
Qed.

(** Start, append, roll, a pass that dies between writing the file and
    committing it, append, crash with a torn frame. *)
Abbreviation sample := WalRecovery.sample.
Definition run_uuid (b : byte) : bytes := List.repeat b 16.
Definition run_exec (o : WalRecovery.Op) (w : Wal.WalWriter) : Wal.WalWriter :=
  snd (WalRecovery.exec WalRecovery.sample_encode WalRecovery.sample_crc o w).
Definition run_after : World -> Pass -> World :=
  after (fun _ => "[]") WalRecovery.sample_decode WalRecovery.sample_crc (fun _ => 100) (fun _ => 10) ["store"].

Definition run_ops : list WalRecovery.Op :=
  [WalRecovery.OpAppend [sample] 5 (run_uuid Byte.x02); WalRecovery.OpRoll 6 (run_uuid Byte.x03);
   WalRecovery.OpAppend [sample; sample] 7 (run_uuid Byte.x04)].
Definition op (n : nat) : WalRecovery.Op := nth n run_ops (WalRecovery.OpSync 0).

Definition st0 : World := mkWorld [] (mkDisk ∅ ∅ ∅) db0 (Drain.new Drain.drain_config_default).
Definition w1 : Wal.WalWriter :=
  match Wal.open [] 4096 10 100 0 (run_uuid Byte.x01) with inr w => w | inl _ => WalRecovery.sample_writer end.
Definition w2 : Wal.WalWriter := run_exec (op 0) w1.
Definition w3 : Wal.WalWriter := run_exec (op 1) w2.
Definition run_pass1 : Pass :=
  mkPass (single level_buckets_default) typed_config_default (Some 2) 1700000000 (Drain.new Drain.drain_config_default) (replicate 10 Done ++ [Dies]).

Definition run_labels : list Label := [LStart; LWrite (op 0); LWrite (op 1); LMerge; LWrite (op 2); LCrash].

Abbreviation run_step := (step WalRecovery.sample_encode WalRecovery.sample_decode WalRecovery.sample_crc (fun _ => "[]") (fun _ => 100) (fun _ => 10) ["store"]).
Abbreviation run_run := (run WalRecovery.sample_encode WalRecovery.sample_decode WalRecovery.sample_crc (fun _ => "[]") (fun _ => 100) (fun _ => 10) ["store"]).


Ltac fresh_here := eapply fresh_empty; [vm_compute; reflexivity|reflexivity|vm_compute; reflexivity|vm_compute; reflexivity|];
  repeat (apply Forall_nil_2 || (apply Forall_cons_2; [split; [reflexivity|vm_compute; discriminate]|])).

Definition s1 : System := mkSystem (Some w1) (set_wal (Wal.dir w1) st0).
Definition s2 : System := mkSystem (Some w2) (set_wal (Wal.dir w2) (store s1)).
Definition s3 : System := mkSystem (Some w3) (set_wal (Wal.dir w3) (store s2)).
Definition s4 : System := mkSystem (Some (Wal.set_dir (w_wal (run_after (store s3) run_pass1)) w3)) (run_after (store s3) run_pass1).
Definition w4 : Wal.WalWriter := run_exec (op 2) (Wal.set_dir (w_wal (run_after (store s3) run_pass1)) w3).
Definition s5 : System := mkSystem (Some w4) (set_wal (Wal.dir w4) (store s4)).
Definition s6 : System := mkSystem None (set_wal (WalRecovery.crash 10 w4) (store s5)).

Example run_died : List.length (map_to_list (parquet (w_disk (store s6)))) = 1%nat /\ files (w_db (store s6)) = [] /\ List.length (w_wal (store s6)) = 2%nat.
Proof. vm_compute. by split_and!. Qed.

Lemma exec_ok o w : fst (WalRecovery.exec WalRecovery.sample_encode WalRecovery.sample_crc o w) = inr tt ->
  WalRecovery.exec WalRecovery.sample_encode WalRecovery.sample_crc o w = (inr tt, run_exec o w).
Proof. unfold run_exec. destruct (WalRecovery.exec _ _ o w) as [r w']. by intros [= ->]. Qed.

Lemma step1 : run_step (mkSystem None st0) LStart s1.
Proof.
  refine (step_start _ _ _ _ _ _ _ st0 4096 10 100 0 (run_uuid Byte.x01) w1 _ _ _); [fresh_here|by intros name id []|reflexivity].
Qed.
Lemma step2 : run_step s1 (LWrite (op 0)) s2.
Proof.
  refine (step_write _ _ _ _ _ _ _ w1 (store s1) (op 0) w2 _ _ _); [split; [apply Forall_cons_2; [apply (WalRecovery.sample_framable 1); lia|apply Forall_nil_2]|cbn; fresh_here]|vm_compute; discriminate|].
  apply exec_ok. vm_compute. reflexivity.
Qed.
Lemma step3 : run_step s2 (LWrite (op 1)) s3.
Proof.
  refine (step_write _ _ _ _ _ _ _ w2 (store s2) (op 1) w3 _ _ _); [split; [apply Forall_nil_2|cbn; fresh_here]|vm_compute; discriminate|].
  apply exec_ok. vm_compute. reflexivity.
Qed.
Lemma step4 : run_step s3 LMerge s4.
Proof. refine (step_merge _ _ _ _ _ _ _ w3 (store s3) run_pass1 _ _); [apply (once_pass_ok [])|vm_compute; reflexivity]. Qed.
Lemma step5 : run_step s4 (LWrite (op 2)) s5.
Proof.
  refine (step_write _ _ _ _ _ _ _ _ (store s4) (op 2) w4 _ _ _); [split; [apply Forall_cons_2; [apply (WalRecovery.sample_framable 2); lia|apply Forall_nil_2]|cbn; fresh_here]|vm_compute; discriminate|].
  apply exec_ok. vm_compute. reflexivity.
Qed.

Lemma run_happens : run_run run_labels (mkSystem None st0) s6.
Proof.
  change run_labels with ((((((([] ++ [LStart]) ++ [LWrite (op 0)]) ++ [LWrite (op 1)]) ++ [LMerge]) ++ [LWrite (op 2)]) ++ [LCrash])).
  eapply run_snoc; [eapply run_snoc; [eapply run_snoc; [eapply run_snoc; [eapply run_snoc; [eapply run_snoc; [apply run_nil|exact step1]|exact step2]|exact step3]|exact step4]|exact step5]|].
  exact (step_crash _ _ _ _ _ _ _ w4 (store s5) 10).
Qed.

Lemma sample_decoded p b : WalRecovery.sample_decode p = Some b -> Forall (fun r => u64_range (timestamp_unix_nano r) /\ 0 <= severity r) b.
Proof.
  destruct p as [|x p]; [done|]. intros [= <-]. apply Forall_forall. intros r [-> _]%elem_of_replicate. cbn. unfold u64_range, u64_max. lia.
Qed.

Lemma appended_records_are_stored_once_witness :
  let w := run_after (store s6) (once_pass []) in
  exists a, ledger run_labels a /\ Permutation (visible w) (cores_of (WalRecovery.durable a)) /\ visible w = [core sample].
Proof.
  destruct (appended_records_are_stored_once WalRecovery.sample_encode WalRecovery.sample_decode WalRecovery.sample_crc
    (fun _ => "[]") (fun _ => 100) (fun _ => 10) ["store"] sample_decoded run_labels st0 s6 run_happens eq_refl eq_refl) as (a & Hl & _ & Hp).
  destruct (Hp (once_pass []) eq_refl (once_pass_ok []) (Forall_nil_2 _) eq_refl) as (r & os & _ & _ & Hv).
  exists a. split; [exact Hl|]. split; [exact Hv|]. vm_compute. reflexivity.
Defined.
