(* ===== verification/Bits.v ===== *)
(** Shifts, masks and unions of disjoint bits as arithmetic, for the codecs
    that work on registers. *)

From S2P Require Import Prelude.
Open Scope Z_scope.

Lemma lor_shift a k v : 0 <= k -> 0 <= v < 2 ^ k -> Z.lor (Z.shiftl a k) v = a * 2 ^ k + v.
Proof.
  intros Hk Hv. pose proof (Z.add_lor_land (Z.shiftl a k) v) as H.
  assert (Z.land (Z.shiftl a k) v = 0) as E.
  { apply Z.bits_inj'; intros n Hn; rewrite Z.land_spec, Z.bits_0.
    destruct (Z_lt_dec n k); [by rewrite Z.shiftl_spec_low|].
    destruct (decide (v = 0)) as [->|]; [by rewrite Z.bits_0, andb_false_r|].
    rewrite (Z.bits_above_log2 v); [by rewrite andb_false_r|lia|]. assert (Z.log2 v < k); [apply Z.log2_lt_pow2; lia|lia]. }
  rewrite E in H. rewrite Z.shiftl_mul_pow2 in * by lia. lia.
Qed.

Lemma land_low a k : 0 <= k -> Z.land a (Z.shiftl 1 k - 1) = a mod 2 ^ k.
Proof.
  intros Hk. rewrite Z.shiftl_mul_pow2, Z.mul_1_l by lia.
  replace (2 ^ k - 1) with (Z.ones k) by (rewrite Z.ones_equiv; lia). by apply Z.land_ones.
Qed.

Lemma land_mask a k m : 0 <= k -> m = 2 ^ k - 1 -> Z.land a m = a mod 2 ^ k.
Proof. intros Hk ->. rewrite <- land_low, Z.shiftl_mul_pow2, Z.mul_1_l by lia. done. Qed.

Lemma shiftr_div a k : 0 <= k -> Z.shiftr a k = a / 2 ^ k.
Proof. apply Z.shiftr_div_pow2. Qed.

(** The low bits of a union of disjoint bits, and the union put together from the top. *)
Lemma lor_low a k v : 0 <= k -> 0 <= a < 2 ^ k -> Z.lor a (Z.shiftl v k) = v * 2 ^ k + a.
Proof. intros Hk Ha. rewrite Z.lor_comm. by apply lor_shift. Qed.
