(* ===== verification/Base64.v ===== *)
(** Unpadded base64url and hexadecimal, as tokens and session credentials are
    written ([crates/logless-core/src/auth.rs]: [b64url], [unhex32];
    [auth/s3.rs]: [b64], [hex]). *)

From S2P Require Import Prelude Text Bits.
Open Scope string_scope.
Open Scope Z_scope.
Open Scope list_scope.

(** ** base64url *)

Definition alphabet : string := "ABCDEFGHIJKLMNOPQRSTUVWXYZabcdefghijklmnopqrstuvwxyz0123456789-_".

(** [ALPHABET[n] as char]. *)
Definition b64_char (n : Z) : ascii :=
  match String.get (Z.to_nat n) alphabet with Some c => c | None => "A" end.

(** The value of one character. *)
Definition b64_digit (c : ascii) : option Z :=
  if is_upper c then Some (chr c - 65)
  else if is_lower c then Some (chr c - 97 + 26)
  else if is_digit c then Some (chr c - 48 + 52)
  else if Ascii.eqb c "-" then Some 62
  else if Ascii.eqb c "_" then Some 63
  else None.

(** The decoder's loop: [acc] and [bits] are its two registers. *)
Fixpoint b64_loop (acc bits : Z) (out : bytes) (s : string) : option bytes :=
  match s with
  | EmptyString => if acc =? 0 then Some out else None
  | String c rest =>
      v ← b64_digit c;
      let acc := Z.lor (wrap32 (Z.shiftl acc 6)) v in
      let bits := bits + 6 in
      if 8 <=? bits then
        let bits := bits - 8 in
        b64_loop (Z.land acc (Z.shiftl 1 bits - 1)) bits (out ++ [to_byte (Z.shiftr acc bits)]) rest
      else b64_loop acc bits out rest
  end.

Definition b64url (s : string) : option bytes :=
  if str_len s mod 4 =? 1 then None else b64_loop 0 0 [] s.

(** One chunk of one to three bytes: a character more than bytes. *)
Definition b64_chunk (chunk : bytes) : string :=
  let len := Z.of_nat (List.length chunk) in
  let n := Z.shiftl (foldl (fun acc b => Z.lor (Z.shiftl acc 8) (byte_val b)) 0 chunk) (8 * (3 - len)) in
  string_of_list_ascii
    (List.map (fun i => b64_char (Z.land (Z.shiftr n (18 - 6 * Z.of_nat i)) 63)) (seq 0 (S (List.length chunk)))).

Fixpoint b64 (bs : bytes) : string :=
  match bs with
  | a :: b :: c :: rest => String.append (b64_chunk [a; b; c]) (b64 rest)
  | [] => ""
  | chunk => b64_chunk chunk
  end.

(** ** Hexadecimal *)

Definition hex_char (d : Z) : ascii := ascii_of_N (Z.to_N (if d <? 10 then 48 + d else 87 + d)).
Definition hex_byte (b : byte) : string :=
  String (hex_char (byte_val b / 16)) (String (hex_char (byte_val b mod 16)) "").
Definition hex (bs : bytes) : string := foldr (fun b s => String.append (hex_byte b) s) "" bs.

Definition hex_digit (c : ascii) : option Z :=
  if is_digit c then Some (chr c - 48)
  else if in_range 97 102 c then Some (chr c - 87)
  else if in_range 65 70 c then Some (chr c - 55)
  else None.

(** [u8::from_str_radix] of two characters: a leading [+] is a sign. *)
Definition hex_pair (a b : ascii) : option byte :=
  if Ascii.eqb a "+" then to_byte <$> hex_digit b
  else x ← hex_digit a; y ← hex_digit b; Some (to_byte (x * 16 + y)).

Fixpoint unhex_loop (s : string) : option bytes :=
  match s with
  | String a (String b rest) => v ← hex_pair a b; bs ← unhex_loop rest; Some (v :: bs)
  | _ => Some []
  end.

Definition unhex32 (s : string) : option bytes :=
  let s := trim s in
  if negb (str_len s =? 64) then None else unhex_loop s.

Example b64_samples :
  b64 [to_byte 251; to_byte 255; to_byte 0; to_byte 7] = "-_8ABw" /\
  b64url "-_8ABw" = Some [to_byte 251; to_byte 255; to_byte 0; to_byte 7] /\
  b64url "-_8ABx" = None /\ b64url "AAAAA" = None /\ b64url "AA==" = None.
Proof. vm_compute. done. Qed.

(** ** Registers as arithmetic *)

(** One turn of the decoder in the four states it can be in. *)
Lemma b64_step acc bits out c v rest : b64_digit c = Some v -> 0 <= v < 64 -> 0 <= acc < 2 ^ 26 -> 0 <= bits ->
  b64_loop acc bits out (String c rest) =
  if 8 <=? bits + 6 then
    b64_loop ((acc * 64 + v) mod 2 ^ (bits - 2)) (bits - 2) (out ++ [to_byte ((acc * 64 + v) / 2 ^ (bits - 2))]) rest
  else b64_loop (acc * 64 + v) (bits + 6) out rest.
Proof.
  intros Hd Hv Ha Hb. cbn [b64_loop]. rewrite Hd, bind_some.
  assert (Z.lor (wrap32 (Z.shiftl acc 6)) v = acc * 64 + v) as ->.
  { unfold wrap32, wrap. rewrite Z.mod_small; [by apply (lor_shift acc 6 v)|].
    rewrite Z.shiftl_mul_pow2 by lia. lia. }
  destruct (8 <=? bits + 6) eqn:E; zbool; [|done].
  replace (bits + 6 - 8) with (bits - 2) by lia. rewrite land_low, shiftr_div by lia. done.
Qed.

Lemma b64_digit_char n : 0 <= n < 64 -> b64_digit (b64_char n) = Some n.
Proof.
  intros Hn. assert (List.forallb (fun i => bool_decide (b64_digit (b64_char (Z.of_nat i)) = Some (Z.of_nat i))) (seq 0 64) = true)
    as H by (vm_compute; reflexivity).
  rewrite List.forallb_forall in H. specialize (H (Z.to_nat n)). rewrite in_seq, bool_decide_eq_true, Z2Nat.id in H by lia.
  apply H. lia.
Qed.

Lemma b64_digit_spec c v : b64_digit c = Some v -> 0 <= v < 64 /\ b64_char v = c.
Proof. destruct c as [[] [] [] [] [] [] [] []]; vm_compute; intros H; try discriminate; injection H as <-; split; (done || (split; done)). Qed.

Lemma b64_loop_out acc bits out s : b64_loop acc bits out s = (fun t => out ++ t) <$> b64_loop acc bits [] s.
Proof.
  revert acc bits out. induction s as [|c s IH]; intros acc bits out.
  { cbn [b64_loop]. destruct (acc =? 0); [|done]. cbn [fmap option_fmap option_map]. by rewrite app_nil_r. }
  cbn [b64_loop]. destruct (b64_digit c) as [v|]; [|done]. rewrite !bind_some. cbv zeta.
  destruct (8 <=? bits + 6); [|apply IH]. rewrite IH, (IH _ _ ([] ++ _)).
  destruct (b64_loop _ _ [] s); [|done]. cbn [fmap option_fmap option_map]. by rewrite <- app_assoc.
Qed.

(** The bytes of four, three and two digits. *)
Definition first_byte (v0 v1 : Z) : byte := to_byte (v0 * 4 + v1 / 16).
Definition second_byte (v1 v2 : Z) : byte := to_byte (v1 mod 16 * 16 + v2 / 4).
Definition third_byte (v2 v3 : Z) : byte := to_byte (v2 mod 4 * 64 + v3).

Ltac b64_turn H := rewrite (b64_step _ _ _ _ _ _ (proj1 H)) by (try apply H; dlia).

Lemma b64_two c0 c1 v0 v1 rest :
  b64_digit c0 = Some v0 /\ 0 <= v0 < 64 -> b64_digit c1 = Some v1 /\ 0 <= v1 < 64 ->
  b64_loop 0 0 [] (String c0 (String c1 rest)) = b64_loop (v1 mod 16) 4 [first_byte v0 v1] rest.
Proof.
  intros H0 H1. b64_turn H0. change (8 <=? 0 + 6) with false. cbv iota.
  b64_turn H1. change (8 <=? 0 + 6 + 6) with true. cbv iota. f_equal; [dlia|].
  unfold first_byte. cbn [app]. do 2 f_equal. change (2 ^ (0 + 6 - 2)) with 16. dlia.
Qed.

Lemma b64_three c0 c1 c2 v0 v1 v2 rest :
  b64_digit c0 = Some v0 /\ 0 <= v0 < 64 -> b64_digit c1 = Some v1 /\ 0 <= v1 < 64 ->
  b64_digit c2 = Some v2 /\ 0 <= v2 < 64 ->
  b64_loop 0 0 [] (String c0 (String c1 (String c2 rest))) =
  b64_loop (v2 mod 4) 2 [first_byte v0 v1; second_byte v1 v2] rest.
Proof.
  intros H0 H1 H2. rewrite (b64_two _ _ v0 v1) by done. b64_turn H2.
  change (8 <=? 4 + 6) with true. cbv iota. f_equal; [dlia|].
  unfold second_byte. cbn [app]. do 3 f_equal. change (2 ^ (4 - 2)) with 4. dlia.
Qed.

Lemma b64_four c0 c1 c2 c3 v0 v1 v2 v3 rest :
  b64_digit c0 = Some v0 /\ 0 <= v0 < 64 -> b64_digit c1 = Some v1 /\ 0 <= v1 < 64 ->
  b64_digit c2 = Some v2 /\ 0 <= v2 < 64 -> b64_digit c3 = Some v3 /\ 0 <= v3 < 64 ->
  b64_loop 0 0 [] (String c0 (String c1 (String c2 (String c3 rest)))) =
  (fun t => first_byte v0 v1 :: second_byte v1 v2 :: third_byte v2 v3 :: t) <$> b64_loop 0 0 [] rest.
Proof.
  intros H0 H1 H2 H3. rewrite (b64_three _ _ _ v0 v1 v2) by done. b64_turn H3.
  change (8 <=? 2 + 6) with true. cbv iota. change (2 ^ (2 - 2)) with 1. rewrite Z.mod_1_r, Z.div_1_r.
  rewrite b64_loop_out. unfold third_byte. done.
Qed.

Lemma chunk_chars (n : Z) k : 0 <= n ->
  List.map (fun i => b64_char (Z.land (Z.shiftr n (18 - 6 * Z.of_nat i)) 63)) (seq 0 k) =
  List.map (fun i => b64_char (n / 2 ^ (18 - 6 * Z.of_nat i) mod 64)) (seq 0 k) \/ (4 < k)%nat.
Proof.
  intros Hn. destruct (decide (k <= 4)%nat) as [Hk|]; [left|right; lia].
  apply map_ext_in. intros i Hi%in_seq. f_equal. rewrite (land_mask _ 6), shiftr_div by (done || lia). done.
Qed.

Ltac chunk_done :=
  cbn [List.map seq]; f_equal; simpl Z.of_nat; cbn [Z.mul Pos.mul Z.sub Z.add Z.opp Z.pos_sub Pos.pred_double Pos.sub];
  repeat (f_equal; try (simpl Z.pow; dlia)).

Lemma chunk_three a b c :
  b64_chunk [a; b; c] = string_of_list_ascii
    [b64_char (byte_val a / 4); b64_char (byte_val a mod 4 * 16 + byte_val b / 16);
     b64_char (byte_val b mod 16 * 4 + byte_val c / 64); b64_char (byte_val c mod 64)].
Proof.
  unfold b64_chunk. pose proof (byte_val_range a). pose proof (byte_val_range b). pose proof (byte_val_range c).
  cbn [foldl List.length]. change (8 * (3 - Z.of_nat 3)) with 0. rewrite Z.shiftl_0_r, Z.shiftl_0_l, Z.lor_0_l.
  rewrite !(lor_shift _ 8) by dlia. change (2 ^ 8) with 256.
  destruct (chunk_chars ((byte_val a * 256 + byte_val b) * 256 + byte_val c) 4) as [->|]; [lia| |lia].
  chunk_done.
Qed.

Lemma chunk_two a b :
  b64_chunk [a; b] = string_of_list_ascii
    [b64_char (byte_val a / 4); b64_char (byte_val a mod 4 * 16 + byte_val b / 16);
     b64_char (byte_val b mod 16 * 4)].
Proof.
  unfold b64_chunk. pose proof (byte_val_range a). pose proof (byte_val_range b).
  cbn [foldl List.length]. change (8 * (3 - Z.of_nat 2)) with 8. rewrite Z.shiftl_0_l, Z.lor_0_l.
  rewrite !(lor_shift _ 8), Z.shiftl_mul_pow2 by dlia. change (2 ^ 8) with 256.
  destruct (chunk_chars ((byte_val a * 256 + byte_val b) * 256) 3) as [->|]; [lia| |lia].
  chunk_done.
Qed.

Lemma chunk_one a :
  b64_chunk [a] = string_of_list_ascii [b64_char (byte_val a / 4); b64_char (byte_val a mod 4 * 16)].
Proof.
  unfold b64_chunk. pose proof (byte_val_range a).
  cbn [foldl List.length]. change (8 * (3 - Z.of_nat 1)) with 16. rewrite Z.shiftl_0_l, Z.lor_0_l.
  rewrite Z.shiftl_mul_pow2 by lia. change (2 ^ 16) with 65536.
  destruct (chunk_chars (byte_val a * 65536) 2) as [->|]; [lia| |lia].
  chunk_done.
Qed.

Lemma bytes_by_three (P : bytes -> Prop) : P [] -> (forall a, P [a]) -> (forall a b, P [a; b]) ->
  (forall a b c r, P r -> P (a :: b :: c :: r)) -> forall l, P l.
Proof.
  intros H0 H1 H2 H3. fix F 1. intros [|a [|b [|c r]]]; [done|done|done|]. apply H3, F.
Qed.

Lemma string_by_four (P : string -> Prop) : P "" -> (forall a, P (String a "")) -> (forall a b, P (String a (String b ""))) ->
  (forall a b c, P (String a (String b (String c "")))) ->
  (forall a b c d r, P r -> P (String a (String b (String c (String d r))))) -> forall l, P l.
Proof.
  intros H0 H1 H2 H3 H4. fix F 1. intros [|a [|b [|c [|d r]]]]; [done|done|done|done|]. apply H4, F.
Qed.

Ltac digit_of v := assert (b64_digit (b64_char v) = Some v /\ 0 <= v < 64) by (split; [apply b64_digit_char|]; dlia).

Lemma byte_of b v : v = byte_val b -> to_byte v = b.
Proof. intros ->. apply to_byte_val. Qed.

Lemma b64_loop_b64 bs : b64_loop 0 0 [] (b64 bs) = Some bs /\ str_len (b64 bs) mod 4 <> 1.
Proof.
  induction bs as [|a|a b|a b c r [IH Hl]] using bytes_by_three; [done|..].
  - cbn [b64]. rewrite chunk_one. cbn [string_of_list_ascii]. split; [|done].
    pose proof (byte_val_range a). digit_of (byte_val a / 4). digit_of (byte_val a mod 4 * 16).
    rewrite (b64_two _ _ (byte_val a / 4) (byte_val a mod 4 * 16)) by done. cbn [b64_loop].
    replace (byte_val a mod 4 * 16 mod 16) with 0 by dlia. cbn. unfold first_byte. do 2 f_equal. apply byte_of. dlia.
  - cbn [b64]. rewrite chunk_two. cbn [string_of_list_ascii]. split; [|done].
    pose proof (byte_val_range a). pose proof (byte_val_range b). digit_of (byte_val a / 4).
    digit_of (byte_val a mod 4 * 16 + byte_val b / 16). digit_of (byte_val b mod 16 * 4).
    rewrite (b64_three _ _ _ (byte_val a / 4) (byte_val a mod 4 * 16 + byte_val b / 16) (byte_val b mod 16 * 4)) by done.
    cbn [b64_loop]. replace (byte_val b mod 16 * 4 mod 4) with 0 by dlia. cbn. unfold first_byte, second_byte.
    do 2 f_equal; [|f_equal]; apply byte_of; dlia.
  - cbn [b64]. rewrite chunk_three. cbn [string_of_list_ascii String.append].
    pose proof (byte_val_range a). pose proof (byte_val_range b). pose proof (byte_val_range c). split.
    + digit_of (byte_val a / 4). digit_of (byte_val a mod 4 * 16 + byte_val b / 16).
      digit_of (byte_val b mod 16 * 4 + byte_val c / 64). digit_of (byte_val c mod 64).
      rewrite (b64_four _ _ _ _ (byte_val a / 4) (byte_val a mod 4 * 16 + byte_val b / 16)
        (byte_val b mod 16 * 4 + byte_val c / 64) (byte_val c mod 64)), IH by done.
      cbn [fmap option_fmap option_map]. unfold first_byte, second_byte, third_byte.
      f_equal. f_equal; [|f_equal; [|f_equal]]; apply byte_of; dlia.
    + unfold str_len in *. cbn [String.length]. dlia.
Qed.

(** A four-character group is the encoding of its three bytes. *)
Lemma chunk_of_digits v0 v1 v2 v3 : 0 <= v0 < 64 -> 0 <= v1 < 64 -> 0 <= v2 < 64 -> 0 <= v3 < 64 ->
  b64_chunk [first_byte v0 v1; second_byte v1 v2; third_byte v2 v3] =
  string_of_list_ascii [b64_char v0; b64_char v1; b64_char v2; b64_char v3].
Proof.
  intros. rewrite chunk_three. unfold first_byte, second_byte, third_byte. rewrite !byte_val_to_byte.
  repeat (f_equal; try dlia).
Qed.

Lemma b64_loop_canonical s : forall bs, b64_loop 0 0 [] s = Some bs -> str_len s mod 4 <> 1 -> s = b64 bs.
Proof.
  induction s as [|c0|c0 c1|c0 c1 c2|c0 c1 c2 c3 r IH] using string_by_four; intros bs H Hl.
  - by injection H as <-.
  - done.
  - destruct (b64_digit c0) as [v0|] eqn:E0; [|cbn [b64_loop] in H; by rewrite E0 in H].
    destruct (b64_digit c1) as [v1|] eqn:E1; [|cbn [b64_loop] in H; by rewrite E0, E1 in H].
    pose proof (b64_digit_spec _ _ E0) as [R0 C0]. pose proof (b64_digit_spec _ _ E1) as [R1 C1].
    rewrite (b64_two _ _ v0 v1) in H by done. cbn [b64_loop] in H. destruct (v1 mod 16 =? 0) eqn:E; [|done]. zbool.
    injection H as <-. cbn [b64]. rewrite chunk_one. unfold first_byte. rewrite byte_val_to_byte. cbn [string_of_list_ascii].
    repeat (f_equal; try (rewrite <- C0 || rewrite <- C1; f_equal; dlia)).
  - destruct (b64_digit c0) as [v0|] eqn:E0; [|cbn [b64_loop] in H; by rewrite E0 in H].
    destruct (b64_digit c1) as [v1|] eqn:E1; [|cbn [b64_loop] in H; by rewrite E0, E1 in H].
    pose proof (b64_digit_spec _ _ E0) as [R0 C0]. pose proof (b64_digit_spec _ _ E1) as [R1 C1].
    destruct (b64_digit c2) as [v2|] eqn:E2.
    2:{ rewrite (b64_two _ _ v0 v1) in H by done. cbn [b64_loop] in H. by rewrite E2 in H. }
    pose proof (b64_digit_spec _ _ E2) as [R2 C2].
    rewrite (b64_three _ _ _ v0 v1 v2) in H by done. cbn [b64_loop] in H. destruct (v2 mod 4 =? 0) eqn:E; [|done]. zbool.
    injection H as <-. cbn [b64]. rewrite chunk_two. unfold first_byte, second_byte. rewrite !byte_val_to_byte. cbn [string_of_list_ascii].
    f_equal; [rewrite <- C0; f_equal; dlia|]. f_equal; [rewrite <- C1; f_equal; dlia|]. f_equal. rewrite <- C2. f_equal. dlia.
  - destruct (b64_digit c0) as [v0|] eqn:E0; [|cbn [b64_loop] in H; by rewrite E0 in H].
    destruct (b64_digit c1) as [v1|] eqn:E1; [|cbn [b64_loop] in H; by rewrite E0, E1 in H].
    pose proof (b64_digit_spec _ _ E0) as [R0 C0]. pose proof (b64_digit_spec _ _ E1) as [R1 C1].
    destruct (b64_digit c2) as [v2|] eqn:E2.
    2:{ rewrite (b64_two _ _ v0 v1) in H by done. cbn [b64_loop] in H. by rewrite E2 in H. }
    pose proof (b64_digit_spec _ _ E2) as [R2 C2].
    destruct (b64_digit c3) as [v3|] eqn:E3.
    2:{ rewrite (b64_three _ _ _ v0 v1 v2) in H by done. cbn [b64_loop] in H. by rewrite E3 in H. }
    pose proof (b64_digit_spec _ _ E3) as [R3 C3].
    rewrite (b64_four _ _ _ _ v0 v1 v2 v3) in H by done.
    destruct (b64_loop 0 0 [] r) as [t|] eqn:Et; [|done]. injection H as <-.
    cbn [b64]. rewrite chunk_of_digits by done. rewrite C0, C1, C2, C3. cbn [string_of_list_ascii String.append].
    do 4 f_equal. apply IH; [done|]. unfold str_len in *. cbn [String.length] in Hl. dlia.
Qed.

(** Base64url is strict: a value decodes exactly when it is the encoding
    of the bytes it decodes to, so no two values carry the same bytes and
    nothing can be added to, padded or altered in a token without its bytes
    changing. *)
Theorem b64url_canonical s bs : b64url s = Some bs <-> s = b64 bs.
Proof.
  unfold b64url. split.
  - destruct (_ =? _) eqn:E; [done|]. zbool. intros H. by apply b64_loop_canonical.
  - intros ->. destruct (b64_loop_b64 bs) as [H Hl]. destruct (_ =? _) eqn:E; zbool; [done|exact H].
Qed.

(** ** The session key file *)

Lemma hex_pair_byte b : hex_pair (hex_char (byte_val b / 16)) (hex_char (byte_val b mod 16)) = Some b.
Proof. destruct b; vm_compute; reflexivity. Qed.

Lemma unhex_hex bs : unhex_loop (hex bs) = Some bs.
Proof.
  induction bs as [|b bs IH]; [done|]. change (hex (b :: bs)) with (String.append (hex_byte b) (hex bs)).
  cbn [hex_byte String.append unhex_loop]. by rewrite hex_pair_byte, bind_some, IH.
Qed.

Lemma hex_graphic bs : str_all graphic (hex bs) = true.
Proof.
  induction bs as [|b bs IH]; [done|]. cbn [hex foldr]. rewrite str_all_app.
  apply andb_true_iff. split; [by destruct b; vm_compute|exact IH].
Qed.

Lemma hex_length bs : str_len (hex bs) = 2 * Z.of_nat (List.length bs).
Proof. 
  induction bs as [|b bs IH]; [done|]. change (hex (b :: bs)) with (String.append (hex_byte b) (hex bs)).
  unfold str_len in *. cbn [hex_byte String.append String.length List.length]. lia.
Qed.

(** A key of 32 bytes is read back from the file it was written to. *)
Theorem unhex32_hex bs : List.length bs = 32%nat -> unhex32 (hex bs) = Some bs.
Proof.
  intros Hl. unfold unhex32. rewrite trim_graphic by apply hex_graphic. rewrite hex_length, Hl. apply unhex_hex.
Qed.

(** Sixty-four characters are not all that is accepted: [from_str_radix]
    takes a sign, so a digest may be written in a second way. *)
Example unhex32_takes_signs :
  unhex32 "+f+f+f+f+f+f+f+f+f+f+f+f+f+f+f+f+f+f+f+f+f+f+f+f+f+f+f+f+f+f+f+f" =
  unhex32 "0f0f0f0f0f0f0f0f0f0f0f0f0f0f0f0f0f0f0f0f0f0f0f0f0f0f0f0f0f0f0f0f".
Proof. reflexivity. Qed.
