(* ===== verification/Json.v ===== *)
(** JSON values as the program reads them (the accessors of
    [serde_json::Value] it uses).  Parsing and printing belong to
    [serde_json] and are parameters of the files that use them. *)

From S2P Require Import Prelude Text Float Partition.
Open Scope string_scope.
Open Scope Z_scope.

Inductive Json :=
| JNull
| JBool (b : bool)
| JInt (z : Z)
| JFloat (f : f64)
| JStr (s : string)
| JArr (items : list Json)
| JObj (fields : list (string * Json)).

Definition as_object (j : Json) : option (list (string * Json)) :=
  match j with JObj fields => Some fields | _ => None end.
Definition as_array (j : Json) : option (list Json) :=
  match j with JArr items => Some items | _ => None end.
Definition as_str (j : Json) : option string :=
  match j with JStr s => Some s | _ => None end.
Definition as_u64 (j : Json) : option Z :=
  match j with JInt z => within 0 u64_max (Some z) | _ => None end.
Definition as_f64 (j : Json) : option f64 :=
  match j with JInt z => Some (f64_of_Z z) | JFloat f => Some f | _ => None end.

Definition field (name : string) (fields : list (string * Json)) : option Json :=
  snd <$> List.find (fun kv => String.eqb (fst kv) name) fields.
Definition get (name : string) (j : Json) : option Json := as_object j ≫= field name.

(** Every item as a string, or nothing. *)
Fixpoint all_strings (items : list Json) : option (list string) :=
  match items with
  | [] => Some []
  | j :: rest => s ← as_str j; l ← all_strings rest; Some (s :: l)
  end.

Definition non_empty (s : string) : bool := negb (String.eqb s "").

Lemma opt_filter_some {A} (p : A -> bool) o a : opt_filter p o = Some a -> o = Some a /\ p a = true.
Proof. destruct o as [x|]; simpl; [|done]. destruct (p x) eqn:E; [|done]. by intros [= <-]. Qed.

Lemma all_strings_map l : all_strings (List.map JStr l) = Some l.
Proof. induction l as [|s l IH]; [done|]. simpl. by rewrite IH. Qed.
