(* ===== verification/Jwt.v ===== *)
(** Broker tokens ([crates/logless-core/src/auth.rs], [Jwt]): the order in
    which a token is judged, the claims it must carry, and the key set it is
    judged with, which no failed refresh can take away.

    Ed25519 and [serde_json] are parameters; what the key source answers to a
    fetch is an argument of the call that makes it. *)

From S2P Require Import Prelude Text Float Lists Partition Json Base64.
Open Scope string_scope.
Open Scope Z_scope.
Open Scope list_scope.

Definition MAX_TOKEN_LEN : Z := 8 * 1024.
Definition UNKNOWN_KID_REFRESH_SECS : Z := 60.

(** ** Kinds of principal, and what each may do *)

Inductive Kind := KIngest | KNode | KReplica | KReader | KAdmin | KUser.
Inductive Op := OpIngest | OpParts | OpReplica | OpAdmin | OpRead | OpS3Credentials.

#[export] Instance Kind_eq_dec : EqDecision Kind.
Proof. solve_decision. Defined.
#[export] Instance Op_eq_dec : EqDecision Op.
Proof. solve_decision. Defined.

Definition kind_as_str (k : Kind) : string :=
  match k with
  | KIngest => "ingest" | KNode => "node" | KReplica => "replica"
  | KReader => "reader" | KAdmin => "admin" | KUser => "user"
  end.

Definition kind_parse (s : string) : option Kind :=
  if String.eqb s "ingest" then Some KIngest
  else if String.eqb s "node" then Some KNode
  else if String.eqb s "replica" then Some KReplica
  else if String.eqb s "reader" then Some KReader
  else if String.eqb s "admin" then Some KAdmin
  else if String.eqb s "user" then Some KUser
  else None.

Definition may (k : Kind) (op : Op) : bool :=
  match k, op with
  | (KIngest | KNode), OpIngest => true
  | KNode, OpParts => true
  | KReplica, OpReplica => true
  | KAdmin, OpAdmin => true
  | KReader, OpRead => true
  | (KUser | KReader), OpS3Credentials => true
  | _, _ => false
  end.

Inductive Indexes := AllIndexes | Only (list_ : list string).

Definition allows (i : Indexes) (index : string) : bool :=
  match i with AllIndexes => true | Only l => existsb (String.eqb index) l end.
Definition from_list (l : list string) : Indexes :=
  if existsb (String.eqb "*") l then AllIndexes else Only l.

Inductive Refusal :=
| Missing | UnknownKey | Malformed | Alg | UnknownKid | Signature | BadClaims | Issuer | Audience | Expired
| NotYetValid | UnknownTenant | WrongKind | NodeMismatch | WrongTenant | OutOfScope.

#[export] Instance Refusal_eq_dec : EqDecision Refusal.
Proof. solve_decision. Defined.

Definition is_token_failure (r : Refusal) : bool :=
  match r with Missing | UnknownKey => false | _ => true end.

Definition slot (r : Refusal) : nat :=
  match r with
  | Missing => 0 | UnknownKey => 1 | Malformed => 2 | Alg => 3 | UnknownKid => 4 | Signature => 5
  | BadClaims => 6 | Issuer => 7 | Audience => 8 | Expired => 9 | NotYetValid => 10 | UnknownTenant => 11
  | WrongKind => 12 | NodeMismatch => 13 | WrongTenant => 14 | OutOfScope => 15
  end.

(** ** The key set *)

Record Claims := mkClaims {
  cl_sub : string; cl_name : option string; cl_tenant : string; cl_kind : Kind;
  cl_indexes : Indexes; cl_scopes : list string; cl_roles : list string; cl_exp : Z
}.

Inductive KeySource := SourceUrl (url : string) | SourceFile (file : string).
Record KeySet := mkKeySet { ks_keys : gmap string string; fetched_unix_secs : Z; etag : option string; ks_issuer : string }.

Inductive RefreshError := FetchFailed (why : string) | NotJson | NoKeysArray | NoEd25519Key.
Record RefreshState := mkRefresh {
  last_attempt_unix_secs : Z; last_error : option RefreshError; last_error_unix_secs : Z;
  refreshes : Z; failures : Z
}.

(** [cache] is what the cache file holds, when there is one to keep. *)
Record Jwt := mkJwt {
  issuer : string; audience : string; skew : Z; key_set : KeySet; source : option KeySource;
  has_cache : bool; cache : option KeySet; state : RefreshState
}.

Definition set_keys (k : KeySet) (j : Jwt) : Jwt :=
  mkJwt (issuer j) (audience j) (skew j) k (source j) (has_cache j) (cache j) (state j).
Definition set_cache (c : option KeySet) (j : Jwt) : Jwt :=
  mkJwt (issuer j) (audience j) (skew j) (key_set j) (source j) (has_cache j) c (state j).
Definition set_state (s : RefreshState) (j : Jwt) : Jwt :=
  mkJwt (issuer j) (audience j) (skew j) (key_set j) (source j) (has_cache j) (cache j) s.

Definition jwt_new (iss aud : string) (skew_ : Z) (src : option KeySource) (file : option (option KeySet)) : Jwt :=
  mkJwt iss aud skew_ (mkKeySet ∅ 0 None iss) src (bool_decide (is_Some file)) (default None file)
    (mkRefresh 0 None 0 0 0).

Definition load_cache (j : Jwt) : Jwt :=
  match cache j with
  | Some set_ =>
      if String.eqb (ks_issuer set_) (issuer j) && negb (bool_decide (ks_keys set_ = ∅)) then set_keys set_ j else j
  | None => j
  end.

Section Tokens.
Variable from_slice : bytes -> option Json.
Variable ed25519 : bytes -> bytes -> bytes -> bool.   (* key, message, signature *)

(** The Ed25519 keys of a JWKS document. *)
Definition jwks_key (acc : gmap string string) (key : Json) : gmap string string :=
  let fld name := get name key ≫= as_str in
  if negb (bool_decide (fld "kty" = Some "OKP")) || negb (bool_decide (fld "crv" = Some "Ed25519")) then acc
  else match fld "kid", fld "x" with
       | Some kid, Some x =>
           match b64url x with
           | Some raw => if (List.length raw =? 32)%nat then <[kid := x]> acc else acc
           | None => acc
           end
       | _, _ => acc
       end.

Definition parse_jwks (bs : bytes) : RefreshError + gmap string string :=
  match from_slice bs with
  | None => inl NotJson
  | Some doc =>
      match get "keys" doc ≫= as_array with
      | None => inl NoKeysArray
      | Some keys =>
          let out := foldl jwks_key ∅ keys in
          if bool_decide (out = ∅) then inl NoEd25519Key else inr out
      end
  end.

Inductive Fetched := NotModified | Body (content : bytes) (tag : option string).

(** [refresh]: what the source answered, and whether the cache could be
    written. *)
Definition refresh (fetched : string + Fetched) (saved : bool) (now : Z) (j : Jwt) : bool * Jwt :=
  match source j with
  | None => (false, j)
  | Some _ =>
      let outcome :=
        match fetched with
        | inl why => inl (FetchFailed why)
        | inr NotModified => inr None
        | inr (Body content tag) =>
            match parse_jwks content with inl e => inl e | inr keys => inr (Some (keys, tag)) end
        end in
      let st := state j in
      match outcome with
      | inr new =>
          let set_ := key_set j in
          let set_ := match new with Some (keys, tag) => mkKeySet keys now tag (ks_issuer set_)
                                   | None => mkKeySet (ks_keys set_) now (etag set_) (ks_issuer set_) end in
          let j := set_state (mkRefresh (Z.max now 1) None (last_error_unix_secs st) (wadd64 (refreshes st) 1) (failures st))
                     (set_keys set_ j) in
          (true, if has_cache j && saved then set_cache (Some set_) j else j)
      | inl e =>
          (false, set_state (mkRefresh (Z.max now 1) (Some e) now (refreshes st) (wadd64 (failures st) 1)) j)
      end
  end.

Definition refresh_for_unknown_kid (fetched : string + Fetched) (saved : bool) (now : Z) (j : Jwt) : bool * Jwt :=
  match source j with
  | None => (false, j)
  | Some _ =>
      let st := state j in
      if negb (last_attempt_unix_secs st =? 0) && (sat_sub now (last_attempt_unix_secs st) <? UNKNOWN_KID_REFRESH_SECS)
      then (false, j)
      else refresh fetched saved now
             (set_state (mkRefresh (Z.max now 1) (last_error st) (last_error_unix_secs st) (refreshes st) (failures st)) j)
  end.

Definition key (kid : string) (j : Jwt) : option bytes := ks_keys (key_set j) !! kid ≫= b64url.

(** ** A token *)

(** 1. The header: the key id it asks for. *)
Definition check_header (head : string) : Refusal + string :=
  match (b64url head ≫= from_slice) ≫= as_object with
  | None => inl Malformed
  | Some header =>
      if negb (bool_decide (field "alg" header ≫= as_str = Some "EdDSA")) then inl Alg
      else if negb (match field "typ" header with None => true | Some t => bool_decide (as_str t = Some "JWT") end)
              || bool_decide (is_Some (field "crit" header)) then inl Malformed
      else match opt_filter non_empty (field "kid" header ≫= as_str) with
           | Some kid => inr kid
           | None => inl Malformed
           end
  end.

(** 4. The claims, as read from the payload. *)
Definition seconds (v : Json) : option Z :=
  match as_u64 v with
  | Some n => Some n
  | None => f64_as_u64 <$> opt_filter (fun f => f64_finite f && f64_ge f f64_zero) (as_f64 v)
  end.

Definition claim_list (name : string) (claims : list (string * Json)) : option (list string) :=
  match field name claims with
  | None => Some []
  | Some (JArr items) => all_strings items
  | Some _ => None
  end.

Definition check_claims (j : Jwt) (now : Z) (payload : string) : Refusal + Claims :=
  match (b64url payload ≫= from_slice) ≫= as_object with
  | None => inl BadClaims
  | Some claims =>
      let text name := opt_filter non_empty (field name claims ≫= as_str) in
      if negb (bool_decide (is_Some (field "aud" claims))) then inl BadClaims
      else match text "iss", text "sub", field "exp" claims ≫= seconds, field "iat" claims ≫= seconds,
                 text "jti", text "tenant", text "kind" with
           | Some iss, Some sub, Some exp, Some iat, Some _, Some tenant, Some kind =>
               if negb (String.eqb iss (issuer j)) then inl Issuer
               else if negb (bool_decide (field "aud" claims ≫= as_str = Some (audience j))) then inl Audience
               else if exp <=? sat_sub now (skew j) then inl Expired
               else if sat_add now (skew j) <? iat then inl NotYetValid
               else match kind_parse kind with
                    | None => inl BadClaims
                    | Some kind =>
                        if negb (valid_ident tenant) then inl BadClaims
                        else match claim_list "indexes" claims, claim_list "scopes" claims, claim_list "roles" claims with
                             | Some indexes, Some scopes, Some roles =>
                                 inr (mkClaims sub (text "name") tenant kind (from_list indexes) scopes roles exp)
                             | _, _, _ => inl BadClaims
                             end
                    end
           | _, _, _, _, _, _, _ => inl BadClaims
           end
  end.

Definition str_bytes (s : string) : bytes := list_byte_of_string s.

(** 2. The key, with one refresh if it is new to us. *)
Definition find_key (kid : string) (fetched : string + Fetched) (saved : bool) (now : Z) (j : Jwt) : option bytes * Jwt :=
  match key kid j with
  | Some k => (Some k, j)
  | None =>
      let '(ok, j) := refresh_for_unknown_kid fetched saved now j in
      (if ok then key kid j else None, j)
  end.

Definition jwt_verify_at (token : string) (now : Z) (fetched : string + Fetched) (saved : bool) (j : Jwt)
    : (Refusal + Claims) * Jwt :=
  match split_char "." token with
  | [head; payload; sig] =>
      match check_header head with
      | inl r => (inl r, j)
      | inr kid =>
          let '(found, j) := find_key kid fetched saved now j in
          match found with
          | None => (inl UnknownKid, j)
          | Some k =>
              match b64url sig with
              | None => (inl Signature, j)
              | Some s =>
                  if negb (ed25519 k (str_bytes (String.append head (String "." payload))) s) then (inl Signature, j)
                  else (check_claims j now payload, j)
              end
          end
      end
  | _ => (inl Malformed, j)
  end.

Definition looks_like_jwt (value : string) : bool :=
  (str_len value <=? MAX_TOKEN_LEN) && starts_with "eyJ" value && (List.length (split_char "." value) =? 3)%nat.
End Tokens.

(** ** What an accepted token is *)

Section Facts.
Variable from_slice : bytes -> option Json.
Variable ed25519 : bytes -> bytes -> bytes -> bool.

(** A text field that is there and not empty. *)
Definition says (name : string) (fields : list (string * Json)) (s : string) : Prop :=
  field name fields ≫= as_str = Some s /\ s <> "".

(** A list of texts: the field's items, or none when it is not there. *)
Definition says_list (name : string) (fields : list (string * Json)) (l : list string) : Prop :=
  field name fields = Some (JArr (List.map JStr l)) \/ field name fields = None /\ l = [].

(** What the first part of a token must be. *)
Definition header_says (head kid : string) : Prop :=
  exists header, (b64url head ≫= from_slice) ≫= as_object = Some header /\
    field "alg" header ≫= as_str = Some "EdDSA" /\
    (field "typ" header = None \/ field "typ" header = Some (JStr "JWT")) /\
    field "crit" header = None /\ says "kid" header kid.

(** What the second part must say, and the claims it is read as. *)
Definition claims_say (j : Jwt) (now : Z) (payload : string) (c : Claims) : Prop :=
  exists claims, (b64url payload ≫= from_slice) ≫= as_object = Some claims /\
    says "iss" claims (issuer j) /\ field "aud" claims ≫= as_str = Some (audience j) /\
    says "sub" claims (cl_sub c) /\ (exists jti, says "jti" claims jti) /\
    says "tenant" claims (cl_tenant c) /\ valid_ident (cl_tenant c) = true /\
    says "kind" claims (kind_as_str (cl_kind c)) /\
    (field "exp" claims ≫= seconds = Some (cl_exp c) /\ sat_sub now (skew j) < cl_exp c) /\
    (exists iat, field "iat" claims ≫= seconds = Some iat /\ iat <= sat_add now (skew j)) /\
    (exists l, says_list "indexes" claims l /\ cl_indexes c = if decide ("*" ∈ l) then AllIndexes else Only l) /\
    says_list "scopes" claims (cl_scopes c) /\ says_list "roles" claims (cl_roles c) /\
    (forall name, cl_name c = Some name <-> says "name" claims name).

Lemma filter_says name fields s : opt_filter non_empty (field name fields ≫= as_str) = Some s <-> says name fields s.
Proof.
  unfold says, non_empty, opt_filter. destruct (field name fields ≫= as_str) as [t|]; [|naive_solver].
  destruct (String.eqb t "") eqn:E; cbn [negb];
    [apply String.eqb_eq in E|apply String.eqb_neq in E]; naive_solver.
Qed.

Lemma all_strings_iff items l : all_strings items = Some l <-> items = List.map JStr l.
Proof.
  split; [|intros ->; apply all_strings_map]. revert l.
  induction items as [|i items IH]; intros l; cbn [all_strings]; [by intros [= <-]|].
  destruct i; try done. cbn. destruct (all_strings items) as [l'|]; [|done]. intros [= <-]. cbn. by rewrite (IH l').
Qed.

Lemma claim_list_iff name claims l : claim_list name claims = Some l <-> says_list name claims l.
Proof.
  unfold claim_list, says_list. destruct (field name claims) as [v|]; [|naive_solver].
  destruct v; try naive_solver. rewrite all_strings_iff. naive_solver.
Qed.

Lemma from_list_iff l : from_list l = if decide ("*" ∈ l) then AllIndexes else Only l.
Proof.
  unfold from_list. destruct (existsb (String.eqb "*") l) eqn:E; case_decide as H; try done; exfalso.
  - apply existsb_exists in E as (x & Hx & <-%String.eqb_eq). by apply H, list_elem_of_In.
  - apply not_true_iff_false in E. apply E, existsb_exists. exists "*". by rewrite <- list_elem_of_In.
Qed.

Lemma kind_parse_iff s k : kind_parse s = Some k <-> s = kind_as_str k.
Proof.
  split; [|intros ->; by destruct k]. unfold kind_parse.
  repeat (destruct (String.eqb s _) eqn:?E; [apply String.eqb_eq in E as ->; by intros [= <-]|clear E]). done.
Qed.

(** The header's test is what it says. *)
Lemma check_header_iff head kid : check_header from_slice head = inr kid <-> header_says head kid.
Proof.
  unfold check_header, header_says. destruct ((b64url head ≫= from_slice) ≫= as_object) as [h|]; [|naive_solver].
  transitivity (field "alg" h ≫= as_str = Some "EdDSA" /\
    (field "typ" h = None \/ field "typ" h = Some (JStr "JWT")) /\ field "crit" h = None /\ says "kid" h kid);
    [|naive_solver].
  rewrite <- filter_says. case_bool_decide as Ea; cbn [negb]; [|naive_solver].
  assert ((match field "typ" h with None => true | Some t => bool_decide (as_str t = Some "JWT") end) = true <->
          (field "typ" h = None \/ field "typ" h = Some (JStr "JWT"))) as Ht.
  { destruct (field "typ" h) as [t|]; [|naive_solver]. rewrite bool_decide_eq_true.
    destruct t; cbn; naive_solver. }
  rewrite <- Ht. clear Ht. destruct (match field "typ" h with None => _ | _ => _ end); cbn [negb orb]; [|naive_solver].
  case_bool_decide as Ec; [destruct Ec as [? Ec]; naive_solver|]. apply eq_None_not_Some in Ec.
  destruct (opt_filter non_empty (field "kid" h ≫= as_str)); naive_solver.
Qed.

(** What both sides of the claims' test are first reduced to. *)
Lemma says_det name fields s t : says name fields s -> says name fields t -> s = t.
Proof. unfold says. naive_solver congruence. Qed.

Lemma check_claims_sound j now payload c : check_claims from_slice j now payload = inr c -> claims_say j now payload c.
Proof.
  unfold check_claims, claims_say. destruct (_ ≫= as_object) as [m|]; [|done]. cbv zeta beta.
  destruct (negb _); [done|].
  destruct (opt_filter non_empty (field "iss" m ≫= as_str)) as [iss|] eqn:Ei; [|done].
  destruct (opt_filter non_empty (field "sub" m ≫= as_str)) as [sub|] eqn:Es; [|done].
  destruct (field "exp" m ≫= seconds) as [exp|] eqn:Ex; [|done].
  destruct (field "iat" m ≫= seconds) as [iat|] eqn:Eiat; [|done].
  destruct (opt_filter non_empty (field "jti" m ≫= as_str)) as [jti|] eqn:Ej; [|done].
  destruct (opt_filter non_empty (field "tenant" m ≫= as_str)) as [tenant|] eqn:Et; [|done].
  destruct (opt_filter non_empty (field "kind" m ≫= as_str)) as [kind|] eqn:Ek; [|done].
  destruct (String.eqb_spec iss (issuer j)) as [->|]; [cbn [negb]|done].
  case_bool_decide as Ea; [cbn [negb]|done]. destruct (exp <=? _) eqn:E3; [done|]. destruct (_ <? iat) eqn:E4; [done|].
  destruct (kind_parse kind) as [kd|] eqn:E5; [|done]. destruct (valid_ident tenant) eqn:E6; [cbn [negb]|done].
  destruct (claim_list "indexes" m) as [ix|] eqn:E7; [|done]. destruct (claim_list "scopes" m) as [sc|] eqn:E8; [|done].
  destruct (claim_list "roles" m) as [ro|] eqn:E9; [|done]. intros [= <-].
  apply filter_says in Ei, Es, Ej, Et, Ek. apply kind_parse_iff in E5 as ->. apply claim_list_iff in E7, E8, E9. zbool.
  exists m. cbn. do 4 (split; [done|]). split; [by exists jti|]. do 3 (split; [done|]). split; [split; [done|lia]|]. split; [exists iat; split; [done|lia]|].
  split; [exists ix; split; [done|apply from_list_iff]|]. split; [done|]. split; [done|]. intros name. apply filter_says.
Qed.

Lemma check_claims_complete j now payload c : claims_say j now payload c -> check_claims from_slice j now payload = inr c.
Proof.
  intros (m & Hm & Hi & Ha & Hs & (jti & Hj) & Ht & Hv & Hk & (Hx & Hlt) & (iat & Hiat & Hle) & (l & Hl & Hix) & Hsc & Hro & Hn).
  unfold check_claims. rewrite Hm. cbv zeta beta.
  rewrite (bool_decide_eq_true_2 (is_Some (field "aud" m)));
    [|destruct (field "aud" m); [by eexists|discriminate Ha]]. cbn [negb].
  apply filter_says in Hi, Hs, Hj, Ht, Hk. apply claim_list_iff in Hl, Hsc, Hro.
  rewrite Hi, Hs, Hx, Hiat, Hj, Ht, Hk, String.eqb_refl, (bool_decide_eq_true_2 _ Ha). cbn [negb].
  rewrite (proj2 (Z.leb_gt _ _) Hlt), (proj2 (Z.ltb_ge _ _) Hle), (proj2 (kind_parse_iff _ (cl_kind c)) eq_refl), Hv.
  cbn [negb]. rewrite Hl, Hsc, Hro. f_equal. rewrite from_list_iff, <- Hix.
  assert (opt_filter non_empty (field "name" m ≫= as_str) = cl_name c) as ->; [|by destruct c].
  destruct (cl_name c) as [n|]; [by apply filter_says, Hn|].
  destruct (opt_filter non_empty (field "name" m ≫= as_str)) as [n|] eqn:E; [|done].
  apply filter_says, Hn in E. done.
Qed.

Lemma check_claims_iff j now payload c : check_claims from_slice j now payload = inr c <-> claims_say j now payload c.
Proof. split; [apply check_claims_sound|apply check_claims_complete]. Qed.

(** What a refresh can change. *)
Definition same_rules (a b : Jwt) : Prop :=
  issuer a = issuer b /\ audience a = audience b /\ skew a = skew b /\ source a = source b.

Lemma refresh_rules fetched saved now j : same_rules j (snd (refresh from_slice fetched saved now j)).
Proof.
  unfold refresh. destruct (source j) eqn:E; [|done].
  destruct fetched as [why|[|content tag]]; [done| |destruct (parse_jwks _ _); [done|]].
  all: unfold same_rules; cbn [snd]; destruct (_ && saved); split_and!; reflexivity.
Qed.

Lemma unknown_kid_rules fetched saved now j : same_rules j (snd (refresh_for_unknown_kid from_slice fetched saved now j)).
Proof.
  unfold refresh_for_unknown_kid. destruct (source j) eqn:E; [|done]. destruct (_ && _); [done|].
  set (j1 := set_state _ j). pose proof (refresh_rules fetched saved now j1) as H. exact H.
Qed.

Lemma find_key_rules kid fetched saved now j : same_rules j (snd (find_key from_slice kid fetched saved now j)).
Proof.
  unfold find_key. destruct (key kid j); [done|]. pose proof (unknown_kid_rules fetched saved now j) as H.
  by destruct (refresh_for_unknown_kid from_slice fetched saved now j).
Qed.

(** Where a key comes from: it is held already, or the source is asked for
    it, at most once a minute, and what it answered holds the key. *)
Definition key_for (kid : string) (fetched : string + Fetched) (saved : bool) (now : Z) (j : Jwt) (k : bytes) (j' : Jwt) : Prop :=
  key kid j' = Some k /\
  (j' = j \/
   key kid j = None /\ source j <> None /\
   (last_attempt_unix_secs (state j) = 0 \/
    UNKNOWN_KID_REFRESH_SECS <= sat_sub now (last_attempt_unix_secs (state j))) /\
   let st := state j in
   refresh from_slice fetched saved now
     (set_state (mkRefresh (Z.max now 1) (last_error st) (last_error_unix_secs st) (refreshes st) (failures st)) j) =
   (true, j')).

Lemma find_key_iff kid fetched saved now j k j' :
  find_key from_slice kid fetched saved now j = (Some k, j') <-> key_for kid fetched saved now j k j'.
Proof.
  unfold find_key, key_for. destruct (key kid j) as [k0|] eqn:E.
  { split; [intros [= <- <-]; eauto|]. intros [Hk [->|[? _]]]; congruence. }
  unfold refresh_for_unknown_kid. destruct (source j) as [src|]; cbn zeta.
  2: { split; [done|]. intros [Hk [->|(_ & ? & _)]]; congruence. }
  destruct (negb (last_attempt_unix_secs (state j) =? 0) && _) eqn:Et.
  - split; [done|]. intros [Hk [->|(_ & _ & Hd & _)]]; [congruence|]. zbool. destruct Hd; lia.
  - destruct (refresh _ _ _ _ _) as [[] j1].
    + split; [intros [= Hk <-]; split; [done|right]|].
      * split; [done|]. split; [done|]. split; [|done].
        apply andb_false_iff in Et as [Et|Et]; zbool; [left|right]; lia.
      * intros [Hk [->|(_ & _ & _ & [= <-])]]; [congruence|by rewrite Hk].
    + split; [done|]. intros [Hk [->|(_ & _ & _ & H)]]; congruence.
Qed.

Lemma claims_say_rules j j' now payload c : same_rules j j' -> claims_say j now payload c <-> claims_say j' now payload c.
Proof. intros (E1 & E2 & E3 & _). unfold claims_say. by rewrite E1, E2, E3. Qed.

(** C27: A token is accepted exactly if it has three parts; its header is JSON that says
    EdDSA, JWT or no type, nothing critical and a key id; that key is in the set, or in the
    set fetched for it at most once a minute; the signature verifies over the bytes
    received; the payload's issuer and audience are ours, its expiry and issue times are
    within the skew of now, and it names a subject, an id, a valid tenant and a kind. The
    claims are those fields of the payload, each of them. *)
Theorem accepted_token token now fetched saved j c j' :
  jwt_verify_at from_slice ed25519 token now fetched saved j = (inr c, j') <->
  exists head payload sig kid k s,
    split_char "." token = [head; payload; sig] /\
    header_says head kid /\ key_for kid fetched saved now j k j' /\
    b64url sig = Some s /\ ed25519 k (str_bytes (String.append head (String "." payload))) s = true /\
    claims_say j now payload c.
Proof.
  unfold jwt_verify_at. split.
  - destruct (split_char "." token) as [|head [|payload [|sig [|? ?]]]]; try done.
    destruct (check_header from_slice head) as [r|kid] eqn:Eh; [done|]. apply check_header_iff in Eh.
    pose proof (find_key_rules kid fetched saved now j) as R.
    destruct (find_key from_slice kid fetched saved now j) as [[k|] j1] eqn:Ef; [|done]. apply find_key_iff in Ef.
    destruct (b64url sig) as [s|] eqn:Es; [|done]. destruct (ed25519 k _ s) eqn:Ev; [cbn [negb]|done].
    intros [= Hc <-]. apply check_claims_iff, (claims_say_rules _ _ _ _ _ R) in Hc.
    by exists head, payload, sig, kid, k, s.
  - intros (head & payload & sig & kid & k & s & -> & Hh & Hf & Hs & Hv & Hc).
    apply check_header_iff in Hh as ->. pose proof (find_key_rules kid fetched saved now j) as R.
    apply find_key_iff in Hf. rewrite Hf in R |- *. cbn [snd] in R. rewrite Hs, Hv. cbn [negb].
    by apply (claims_say_rules _ _ _ _ _ R), check_claims_iff in Hc as ->.
Qed.

(** ** Keys are never lost *)

Definition ed25519_keys (m : gmap string string) : Prop :=
  forall kid x, m !! kid = Some x -> exists raw, b64url x = Some raw /\ List.length raw = 32%nat.

Lemma jwks_key_ok acc k : ed25519_keys acc -> ed25519_keys (jwks_key acc k).
Proof.
  unfold jwks_key. intros Ha. destruct (_ || _); [done|].
  destruct (get "kid" k ≫= as_str) as [kid|]; [|done]. destruct (get "x" k ≫= as_str) as [x|]; [|done].
  destruct (b64url x) as [raw|] eqn:E; [|done]. destruct (_ =? _)%nat eqn:El; [|done]. apply Nat.eqb_eq in El.
  intros kid' x' [[<- <-]|[_ H]]%lookup_insert_Some; [by exists raw|by eapply Ha].
Qed.

Lemma parse_jwks_ok bs keys : parse_jwks from_slice bs = inr keys -> keys <> ∅ /\ ed25519_keys keys.
Proof.
  unfold parse_jwks. destruct (from_slice bs) as [doc|]; [|done].
  destruct (get "keys" doc ≫= as_array) as [l|]; [|done]. case_bool_decide as E; [done|]. intros [= <-].
  split; [done|]. apply foldl_preserves; [apply jwks_key_ok|]. intros kid x H. by rewrite lookup_empty in H.
Qed.

(** Everything that can happen to the key set while the process runs. *)
Inductive KeyEvent :=
| Judge (token : string) (now : Z) (fetched : string + Fetched) (saved : bool)
| Timer (now : Z) (fetched : string + Fetched) (saved : bool).

Definition key_event (j : Jwt) (e : KeyEvent) : Jwt :=
  match e with
  | Judge token now fetched saved => snd (jwt_verify_at from_slice ed25519 token now fetched saved j)
  | Timer now fetched saved => snd (refresh from_slice fetched saved now j)
  end.

(** What the source said in that event. *)
Definition answer (e : KeyEvent) : string + Fetched :=
  match e with Judge _ _ f _ | Timer _ f _ => f end.

Definition keys_of (j : Jwt) : gmap string string := ks_keys (key_set j).

(** An event leaves the keys, or replaces them by those of the document its
    source answered with. *)
Definition keys_follow (fetched : string + Fetched) (j j' : Jwt) : Prop :=
  keys_of j' = keys_of j \/
  exists content tag, fetched = inr (Body content tag) /\ parse_jwks from_slice content = inr (keys_of j').

Lemma refresh_keys fetched saved now j : keys_follow fetched j (snd (refresh from_slice fetched saved now j)).
Proof.
  unfold refresh, keys_follow. destruct (source j); [|by left].
  destruct fetched as [why|[|content tag]]; [by left| |].
  - left. cbn [snd]. by destruct (_ && saved).
  - destruct (parse_jwks from_slice content) as [e|keys] eqn:E; [by left|]. right. exists content, tag.
    split; [done|]. cbn [snd]. by destruct (_ && saved).
Qed.

Lemma unknown_kid_keys fetched saved now j :
  keys_follow fetched j (snd (refresh_for_unknown_kid from_slice fetched saved now j)).
Proof.
  unfold refresh_for_unknown_kid. destruct (source j); [|by left]. destruct (_ && _); [by left|].
  apply (refresh_keys fetched saved now (set_state _ j)).
Qed.

Lemma find_key_keys kid fetched saved now j :
  keys_follow fetched j (snd (find_key from_slice kid fetched saved now j)).
Proof.
  unfold find_key. destruct (key kid j); [by left|]. pose proof (unknown_kid_keys fetched saved now j) as H.
  by destruct (refresh_for_unknown_kid from_slice fetched saved now j).
Qed.

Lemma event_keys j e : keys_follow (answer e) j (key_event j e).
Proof.
  destruct e as [token now fetched saved|now fetched saved]; [|apply refresh_keys].
  cbn [answer key_event]. unfold jwt_verify_at.
  destruct (split_char "." token) as [|head [|payload [|sig [|? ?]]]]; try by left.
  destruct (check_header from_slice head) as [r|kid]; [by left|].
  pose proof (find_key_keys kid fetched saved now j) as H.
  destruct (find_key from_slice kid fetched saved now j) as [[k|] j1]; [|done].
  destruct (b64url sig); [|done]. by destruct (negb _).
Qed.

(** A key set once held is never lost: whatever tokens come and whatever
    the source answers, or fails to, the instance keeps a set of usable
    Ed25519 keys, and it is the set it started with or one its source
    published. *)
Theorem keys_survive events j : keys_of j <> ∅ -> ed25519_keys (keys_of j) ->
  let j' := foldl key_event j events in
  keys_of j' <> ∅ /\ ed25519_keys (keys_of j') /\
  (keys_of j' = keys_of j \/
   exists e content tag, In e events /\ answer e = inr (Body content tag) /\
     parse_jwks from_slice content = inr (keys_of j')).
Proof.
  revert j. induction events as [|e events IH]; intros j Hne Hok; cbn [foldl]; [by split; [|split; [|left]]|].
  assert (keys_of (key_event j e) <> ∅ /\ ed25519_keys (keys_of (key_event j e))) as [Hne1 Hok1].
  { destruct (event_keys j e) as [->|(content & tag & _ & Hp)]; [done|]. by eapply parse_jwks_ok. }
  destruct (IH _ Hne1 Hok1) as (H1 & H2 & H3). split; [done|]. split; [done|].
  destruct H3 as [H3|(e' & content & tag & Hin & Ha & Hp)].
  - rewrite H3. destruct (event_keys j e) as [->|(content & tag & Ha & Hp)]; [by left|].
    right. exists e, content, tag. split; [by left|done].
  - right. exists e', content, tag. split; [by right|done].
Qed.

(** A flood of unknown key ids costs one fetch a minute: inside the minute
    nothing is asked and nothing changes. *)
Theorem unknown_kid_is_throttled kid fetched saved now j :
  key kid j = None -> last_attempt_unix_secs (state j) <> 0 -> last_attempt_unix_secs (state j) <= now ->
  now < last_attempt_unix_secs (state j) + UNKNOWN_KID_REFRESH_SECS ->
  find_key from_slice kid fetched saved now j = (None, j).
Proof.
  intros Hk H0 Hle Hlt. unfold find_key. rewrite Hk. unfold refresh_for_unknown_kid.
  destruct (source j); [|done].
  replace (negb (last_attempt_unix_secs (state j) =? 0) &&
    (sat_sub now (last_attempt_unix_secs (state j)) <? UNKNOWN_KID_REFRESH_SECS)) with true; [done|].
  symmetry. apply andb_true_iff. split; [apply negb_true_iff, Z.eqb_neq; lia|].
  apply Z.ltb_lt. unfold sat_sub, UNKNOWN_KID_REFRESH_SECS in *. lia.
Qed.
End Facts.

(** ** Witnesses: a set of one key, a signature of one byte *)

Definition sample_key : string := "AAAAAAAAAAAAAAAAAAAAAAAAAAAAAAAAAAAAAAAAAAA".
Definition sample_header : Json := JObj [("alg", JStr "EdDSA"); ("kid", JStr "k1")].
Definition sample_payload : Json :=
  JObj [("iss", JStr "broker"); ("aud", JStr "logless"); ("sub", JStr "u1"); ("exp", JInt 2000); ("iat", JInt 1000);
        ("jti", JStr "t1"); ("tenant", JStr "acme"); ("kind", JStr "user"); ("indexes", JArr [JStr "*"])].
Definition sample_slice (bs : bytes) : option Json :=
  if bool_decide (bs = [to_byte 1]) then Some sample_header
  else if bool_decide (bs = [to_byte 2]) then Some sample_payload
  else if bool_decide (bs = [to_byte 3])
  then Some (JObj [("keys", JArr [JObj [("kty", JStr "OKP"); ("crv", JStr "Ed25519"); ("kid", JStr "k2"); ("x", JStr sample_key)]])])
  else None.
Definition sample_ed25519 (k m s : bytes) : bool := bool_decide (s = [to_byte 9]).
Definition sample_jwt : Jwt :=
  set_keys (mkKeySet {["k1" := sample_key]} 5 None "broker")
    (jwt_new "broker" "logless" 300 (Some (SourceUrl "http://b/jwks.json")) None).
Definition sample_token : string := "AQ.Ag.CQ".

Lemma accepted_token_witness :
  exists c, fst (jwt_verify_at sample_slice sample_ed25519 sample_token 2100 (inl "down") false sample_jwt) = inr c /\
    cl_tenant c = "acme" /\ sat_sub 2100 (skew sample_jwt) < cl_exp c /\
    exists kid, header_says sample_slice "AQ" kid.
Proof.
  destruct (jwt_verify_at sample_slice sample_ed25519 sample_token 2100 (inl "down") false sample_jwt) as [[r|c] j'] eqn:E;
    [vm_compute in E; discriminate|].
  exists c. split; [reflexivity|].
  destruct (proj1 (accepted_token sample_slice sample_ed25519 sample_token 2100 (inl "down") false sample_jwt c j') E)
    as (head & payload & sig & kid & k & s & H1 & H2 & H3 & H4 & H5 & m & H6 & H7 & H8 & H9 & H10 & H11 & H12 & H13 & (H14 & H15) & _).
  split; [vm_compute in E; by injection E as <- _|]. split; [exact H15|].
  exists kid. vm_compute in H1. injection H1 as <- <- <-. exact H2.
Defined.

Definition sample_events : list KeyEvent :=
  [Judge sample_token 2100 (inl "down") false; Timer 2200 (inr (Body [to_byte 7] None)) true;
   Timer 2300 (inr (Body [to_byte 3] (Some "e"))) true].

Lemma keys_survive_witness :
  let j' := foldl (key_event sample_slice sample_ed25519) sample_jwt sample_events in
  keys_of j' <> ∅ /\ ed25519_keys (keys_of j').
Proof.
  destruct (keys_survive sample_slice sample_ed25519 sample_events sample_jwt) as (H1 & H2 & _).
  - discriminate.
  - intros kid x H. change (({["k1" := sample_key]} : gmap string string) !! kid = Some x) in H.
    apply lookup_singleton_Some in H as [_ <-]. eexists. split; reflexivity.
  - split; [exact H1|exact H2].
Defined.

Lemma unknown_kid_is_throttled_witness :
  find_key sample_slice "k9" (inr (Body [to_byte 3] None)) true 2130
    (snd (find_key sample_slice "k9" (inl "down") true 2100 sample_jwt)) =
  (None, snd (find_key sample_slice "k9" (inl "down") true 2100 sample_jwt)).
Proof. apply unknown_kid_is_throttled; vm_compute; (reflexivity || discriminate). Defined.
