(* ===== verification/Auth.v ===== *)
(** Principals ([crates/logless-core/src/auth.rs]): who a credential is, what
    it may do at which listener, and the tenant and index a batch is stored
    under.  SHA-256 is a parameter; a broker token is judged by [Jwt]. *)

From S2P Require Import Prelude Text Float Model Lists Partition Tenancy Json Base64 Jwt.
Open Scope string_scope.
Open Scope Z_scope.
Open Scope list_scope.

Definition MIN_KEY_LEN : Z := 24.
Definition EVERY_TENANT : string := "*".
Definition TEMP_KEY_PREFIX : string := "LLTMP".
Definition MAX_COUNTED_PRINCIPALS : nat := 1024.
Definition MAX_S3_CREDENTIALS_TTL_SECS : Z := 12 * 3600.

Inductive Listener := AtPeer | AtHec | AtOtlp | AtSentry | AtAdmin | AtS3.
Inductive Source := Static | Token | Anonymous | Session.

#[export] Instance Listener_eq_dec : EqDecision Listener.
Proof. solve_decision. Defined.
#[export] Instance Source_eq_dec : EqDecision Source.
Proof. solve_decision. Defined.
#[export] Instance Indexes_eq_dec : EqDecision Indexes.
Proof. solve_decision. Defined.

Definition source_as_str (s : Source) : string :=
  match s with Static => "static" | Token => "token" | Anonymous => "anonymous" | Session => "s3-session" end.

Record Principal := mkPrincipal {
  p_id : string; p_kind : Kind; p_tenant : string; p_indexes : Indexes;
  p_scopes : list string; p_roles : list string; p_source : Source;
  p_expires : option Z; only_at : option Listener
}.

#[export] Instance Principal_eq_dec : EqDecision Principal.
Proof. solve_decision. Defined.

Definition counter_key (p : Principal) : string := String.append (p_tenant p) (String "/" (p_id p)).

(** The first element that maps to something. *)
Fixpoint find_map {A B} (f : A -> option B) (l : list A) : option B :=
  match l with
  | [] => None
  | a :: rest => match f a with Some b => Some b | None => find_map f rest end
  end.

Definition principal_default_index (p : Principal) (tenancy : Tenancy) : option string :=
  dflt ← default_index_of tenancy (p_tenant p);
  if allows (p_indexes p) dflt then Some dflt
  else match p_indexes p with
       | AllIndexes => Some dflt
       | Only l => find_map (index_of tenancy (p_tenant p)) l
       end.

Record PrincipalConfig := mkPrincipalConfig {
  pc_id : string; pc_kind : Kind; pc_tenant : option string; pc_indexes : option (list string);
  pc_key : option string; pc_key_sha256 : option string
}.

Inductive PrincipalProblem :=
| BadId | IdTwice | UserKey | NoSuchTenant | EveryTenantIndexes | NoSuchIndex (index : string)
| ShortKey | BadDigest | OneKeyPlease | SameKey | ReaderId | ReaderNeedsKey.

(** The comparison of two digests reads all of both. *)
Definition ct_eq (a b : bytes) : bool :=
  foldl (fun diff xy => Z.lor diff (Z.lxor (byte_val (fst xy)) (byte_val (snd xy)))) 0 (combine a b) =? 0.

Record PrincipalCounters := mkCounters {
  c_kind : string; c_source : string; c_requests : Z; c_records : Z;
  c_index_defaulted : Z; c_index_refused : Z; c_refused : Z; c_last_seen : Z
}.
Definition counters0 : PrincipalCounters := mkCounters "" "" 0 0 0 0 0 0.

Record Verifier := mkVerifier {
  tenancy : Tenancy; statics : gmap bytes (list Principal); readers : list (Principal * string);
  anonymous : Principal; jwt : option Jwt; routes_defaulted : Z; routes_refused : Z;
  route_indexes : bool; refused : list Z; refusal_logged : list Z;
  by_principal : gmap string PrincipalCounters
}.

Definition set_jwt (j : option Jwt) (v : Verifier) : Verifier :=
  mkVerifier (tenancy v) (statics v) (readers v) (anonymous v) j (routes_defaulted v) (routes_refused v)
    (route_indexes v) (refused v) (refusal_logged v) (by_principal v).
Definition set_routes (d r : Z) (v : Verifier) : Verifier :=
  mkVerifier (tenancy v) (statics v) (readers v) (anonymous v) (jwt v) d r
    (route_indexes v) (refused v) (refusal_logged v) (by_principal v).
Definition set_refused (l g : list Z) (v : Verifier) : Verifier :=
  mkVerifier (tenancy v) (statics v) (readers v) (anonymous v) (jwt v) (routes_defaulted v) (routes_refused v)
    (route_indexes v) l g (by_principal v).
Definition set_by_principal (m : gmap string PrincipalCounters) (v : Verifier) : Verifier :=
  mkVerifier (tenancy v) (statics v) (readers v) (anonymous v) (jwt v) (routes_defaulted v) (routes_refused v)
    (route_indexes v) (refused v) (refusal_logged v) m.

Definition anonymous_of (t : Tenancy) : Principal :=
  mkPrincipal "anonymous" KIngest (default "" (own_tenant t)) AllIndexes [] [] Anonymous None None.

(** [Builder]: the verifier being put together. *)
Definition builder_new (t : Tenancy) : Verifier :=
  mkVerifier t ∅ [] (anonymous_of t) None 0 0 true (repeat 0 16) (repeat 0 16) ∅.
Definition standalone (t : Tenancy) : Verifier :=
  mkVerifier t ∅ [] (anonymous_of t) None 0 0 false (repeat 0 16) (repeat 0 16) ∅.

Definition set_statics (m : gmap bytes (list Principal)) (v : Verifier) : Verifier :=
  mkVerifier (tenancy v) m (readers v) (anonymous v) (jwt v) (routes_defaulted v) (routes_refused v)
    (route_indexes v) (refused v) (refusal_logged v) (by_principal v).
Definition set_readers (l : list (Principal * string)) (v : Verifier) : Verifier :=
  mkVerifier (tenancy v) (statics v) l (anonymous v) (jwt v) (routes_defaulted v) (routes_refused v)
    (route_indexes v) (refused v) (refusal_logged v) (by_principal v).

Section WithSha256.
Variable sha256 : bytes -> bytes.

Definition digest (s : string) : bytes := sha256 (str_bytes s).

Definition own_principal (id : string) (kind : Kind) (at_ : Listener) (v : Verifier) : Principal :=
  mkPrincipal id kind (default "" (own_tenant (tenancy v))) AllIndexes [] [] Static None (Some at_).

Definition add (key_digest : bytes) (p : Principal) (v : Verifier) : Verifier :=
  set_statics (<[key_digest := default [] (statics v !! key_digest) ++ [p]]> (statics v)) v.

(** One listener's older credentials; an empty key is not a key, and its
    place in the list still counts in the names. *)
Fixpoint legacy_from (n : Z) (at_ : Listener) (kind : Kind) (label : string) (keys : list string) (v : Verifier) : Verifier :=
  match keys with
  | [] => v
  | k :: rest =>
      legacy_from (n + 1) at_ kind label rest
        (if String.eqb k "" then v
         else add (digest k) (own_principal (String.append label (String "-" (show_Z (n + 1)))) kind at_ v) v)
  end.
Definition legacy := legacy_from 0.

(** [[peer]]: tokens, nodes with their own tokens, replication tokens. *)
Definition add_node (v : Verifier) (node : string * string) : Verifier :=
  if String.eqb (snd node) "" then v
  else add (digest (snd node)) (own_principal (fst node) KNode AtPeer v) v.
Definition builder_peer (tokens : list string) (nodes : list (string * string)) (replication : list string) (v : Verifier) : Verifier :=
  legacy AtPeer KReplica "replica-token" replication
    (foldl add_node (legacy AtPeer KIngest "peer-token" tokens v) nodes).
Definition builder_hec (tokens : list string) : Verifier -> Verifier := legacy AtHec KIngest "hec-token" tokens.
Definition builder_sentry (keys : list string) : Verifier -> Verifier := legacy AtSentry KIngest "sentry-key" keys.
Definition builder_admin (token : option string) : Verifier -> Verifier :=
  legacy AtAdmin KAdmin "admin-token" (match token with Some t => [t] | None => [] end).
Definition builder_s3 (access_key secret_key : string) (v : Verifier) : Verifier :=
  let p := own_principal access_key KReader AtS3 v in
  let p := mkPrincipal (p_id p) (p_kind p) EVERY_TENANT (p_indexes p) (p_scopes p) (p_roles p) (p_source p) (p_expires p) (only_at p) in
  set_readers (readers v ++ [(p, secret_key)]) v.

(** One [[principals]] entry. *)
Definition add_principal (c : PrincipalConfig) (seen : list string) (v : Verifier)
    : PrincipalProblem + (list string * Verifier) :=
  if negb (valid_ident (pc_id c)) then inl BadId
  else if existsb (String.eqb (str_lower (pc_id c))) seen then inl IdTwice
  else
    let seen := seen ++ [str_lower (pc_id c)] in
    if bool_decide (pc_kind c = KUser) then inl UserKey
    else
      let tenant := match pc_tenant c with Some t => t | None => default "" (own_tenant (tenancy v)) end in
      let every_tenant := bool_decide (pc_kind c = KReader) && String.eqb tenant EVERY_TENANT in
      if negb every_tenant && negb (has_tenant (tenancy v) tenant) then inl NoSuchTenant
      else
        let indexes :=
          match pc_indexes c with
          | None => inr AllIndexes
          | Some l =>
              if every_tenant then inl EveryTenantIndexes
              else match List.find (fun i => negb (String.eqb i "*") && bool_decide (index_of (tenancy v) tenant i = None)) l with
                   | Some missing => inl (NoSuchIndex missing)
                   | None => inr (from_list l)
                   end
          end in
        match indexes with
        | inl e => inl e
        | inr indexes =>
            let key_digest :=
              match pc_key c, pc_key_sha256 c with
              | Some k, None => if MIN_KEY_LEN <=? str_len k then inr (digest k) else inl ShortKey
              | None, Some h => match unhex32 h with Some d => inr d | None => inl BadDigest end
              | _, _ => inl OneKeyPlease
              end in
            match key_digest with
            | inl e => inl e
            | inr d =>
                if bool_decide (is_Some (statics v !! d)) || existsb (fun r => bool_decide (digest (snd r) = d)) (readers v)
                then inl SameKey
                else if bool_decide (pc_kind c = KReader) &&
                        (existsb (fun r => String.eqb (p_id (fst r)) (pc_id c)) (readers v) || starts_with TEMP_KEY_PREFIX (pc_id c))
                then inl ReaderId
                else
                  let p := mkPrincipal (pc_id c) (pc_kind c) tenant indexes [] [] Static None None in
                  if bool_decide (pc_kind c = KReader)
                  then match pc_key c with
                       | Some k => inr (seen, set_readers (readers v ++ [(p, k)]) v)
                       | None => inl ReaderNeedsKey
                       end
                  else inr (seen, add d p v)
            end
        end.

Fixpoint principals_from (seen : list string) (l : list PrincipalConfig) (v : Verifier) : PrincipalProblem + Verifier :=
  match l with
  | [] => inr v
  | c :: rest => match add_principal c seen v with
                 | inl e => inl e
                 | inr (seen, v) => principals_from seen rest v
                 end
  end.
Definition principals (l : list PrincipalConfig) (v : Verifier) : PrincipalProblem + Verifier := principals_from [] l v.
End WithSha256.

(** ** Counting *)

Definition count (now : Z) (p : Principal) (update : PrincipalCounters -> PrincipalCounters) (v : Verifier) : Verifier :=
  let m := by_principal v in
  let k := if (MAX_COUNTED_PRINCIPALS <=? size m)%nat && negb (bool_decide (is_Some (m !! counter_key p)))
           then "(others)" else counter_key p in
  let e := default counters0 (m !! k) in
  let e := mkCounters (kind_as_str (p_kind p)) (source_as_str (p_source p)) (c_requests e) (c_records e)
             (c_index_defaulted e) (c_index_refused e) (c_refused e) now in
  set_by_principal (<[k := update e]> m) v.

Definition add_refused (e : PrincipalCounters) : PrincipalCounters :=
  mkCounters (c_kind e) (c_source e) (c_requests e) (c_records e) (c_index_defaulted e) (c_index_refused e)
    (wadd64 (c_refused e) 1) (c_last_seen e).
Definition add_index_refused (n : Z) (e : PrincipalCounters) : PrincipalCounters :=
  mkCounters (c_kind e) (c_source e) (c_requests e) (c_records e) (c_index_defaulted e)
    (wadd64 (c_index_refused e) n) (c_refused e) (c_last_seen e).
Definition add_batch (stored dflt refused_ : Z) (e : PrincipalCounters) : PrincipalCounters :=
  mkCounters (c_kind e) (c_source e) (wadd64 (c_requests e) 1) (wadd64 (c_records e) stored)
    (wadd64 (c_index_defaulted e) dflt) (wadd64 (c_index_refused e) refused_) (c_refused e) (c_last_seen e).

(** [refuse]: counted always, logged at most once a minute per reason. *)
Definition refuse (now : Z) (reason : Refusal) (v : Verifier) : Verifier :=
  let s := slot reason in
  let total := wadd64 (nth s (refused v) 0) 1 in
  let last := nth s (refusal_logged v) 0 in
  set_refused (<[s := total]> (refused v))
    (if 60 <=? sat_sub now last then <[s := now]> (refusal_logged v) else refusal_logged v) v.
Definition refuse_principal (now : Z) (p : Principal) (reason : Refusal) (v : Verifier) : Verifier :=
  refuse now reason (count now p add_refused v).

(** ** Who a credential is *)

Definition can_authenticate (at_ : Listener) (op : Op) (v : Verifier) : bool :=
  if bool_decide (op = OpRead) then negb (bool_decide (readers v = []))
  else bool_decide (is_Some (jwt v)) ||
       existsb (fun p => may (p_kind p) op && match only_at p with None => true | Some l => bool_decide (l = at_) end)
         (List.concat (List.map snd (map_to_list (statics v)))).

Definition s3_reader (access_key_id : string) (v : Verifier) : option (Principal * string) :=
  List.find (fun r => String.eqb (p_id (fst r)) access_key_id) (readers v).

Definition good_at (at_ : Listener) (p : Principal) : bool :=
  match only_at p with None => true | Some l => bool_decide (l = at_) end.

Definition token_principal (c : Claims) : Principal :=
  mkPrincipal (default (cl_sub c) (cl_name c)) (cl_kind c) (cl_tenant c) (cl_indexes c) (cl_scopes c) (cl_roles c)
    Token (Some (cl_exp c)) None.

Section Deciding.
Variable sha256 : bytes -> bytes.
Variable from_slice : bytes -> option Json.
Variable ed25519 : bytes -> bytes -> bytes -> bool.

Definition static_principal (at_ : Listener) (presented : string) (v : Verifier) : option Principal :=
  found ← statics v !! digest sha256 presented;
  opt_filter (fun _ => ct_eq (digest sha256 presented) (digest sha256 presented)) (List.find (good_at at_) found).

Definition verify_at (at_ : Listener) (presented : string) (now : Z) (fetched : string + Fetched) (saved : bool)
    (v : Verifier) : (Refusal + Principal) * Verifier :=
  match static_principal at_ presented v with
  | Some p => (inr p, v)
  | None =>
      match opt_filter (fun _ => looks_like_jwt presented) (jwt v) with
      | None => (inl UnknownKey, v)
      | Some j =>
          let '(answer, j) := jwt_verify_at from_slice ed25519 presented now fetched saved j in
          let v := set_jwt (Some j) v in
          match answer with
          | inl r => (inl r, v)
          | inr c => if has_tenant (tenancy v) (cl_tenant c) then (inr (token_principal c), v) else (inl UnknownTenant, v)
          end
      end
  end.

Definition authorize (at_ : Listener) (op : Op) (closed : bool) (presented : option string) (now : Z)
    (fetched : string + Fetched) (saved : bool) (v : Verifier) : (Refusal + Principal) * Verifier :=
  let '(who, v) :=
    match presented with
    | None => (if closed then inl Missing else inr (anonymous v), v)
    | Some value =>
        if MAX_TOKEN_LEN <? str_len value then (inl UnknownKey, v)
        else match verify_at at_ value now fetched saved v with
             | (inl reason, v) =>
                 (if negb closed && negb (is_token_failure reason) then inr (anonymous v) else inl reason, v)
             | other => other
             end
    end in
  let '(who, v) :=
    match who with
    | inr p => if may (p_kind p) op then (inr p, v) else (inl WrongKind, count now p add_refused v)
    | inl r => (inl r, v)
    end in
  match who with
  | inl reason => (inl reason, refuse now reason v)
  | inr p => (inr p, v)
  end.
End Deciding.

(** ** What a batch is stored under *)

Inductive NotAdmitted := OtherTenant | IndexRefused.
Record BatchAdmission := mkAdmitted { a_defaulted : Z; a_refused : Z }.

(** One record: [None] if it names another tenant, else the index it asks
    for. *)
Fixpoint scan_attrs (tenant key : string) (attrs : list Attr) (requested : option string) : option (option string) :=
  match attrs with
  | [] => Some requested
  | a :: rest =>
      if String.eqb (attr_key a) ATTR_TENANT then
        if bool_decide (attr_value a = AStr tenant) then scan_attrs tenant key rest requested else None
      else if negb (bool_decide (is_Some requested)) && is_index_key key (attr_key a)
      then scan_attrs tenant key rest (Some (attr_text (attr_value a)))
      else scan_attrs tenant key rest requested
  end.

(** The index it goes to, if any, and whether that is the default for want of
    the one asked for. *)
Definition choose_index (v : Verifier) (p : Principal) (requested : option string) : option string * bool :=
  let dflt := principal_default_index p (tenancy v) in
  let unknown := default RefuseIndex (unknown_index (tenancy v) (p_tenant p)) in
  if negb (route_indexes v) then (Some "", false)
  else match requested with
       | None => (dflt, false)
       | Some r =>
           match opt_filter (allows (p_indexes p)) (index_of (tenancy v) (p_tenant p) r) with
           | Some i => (Some i, false)
           | None => match unknown, dflt with
                     | DefaultIndex, Some _ => (dflt, true)
                     | _, _ => (None, false)
                     end
           end
       end.

Fixpoint choose (v : Verifier) (p : Principal) (key : string) (records : list LogRecord)
    : option (list (option string) * BatchAdmission) :=
  match records with
  | [] => Some ([], mkAdmitted 0 0)
  | r :: rest =>
      requested ← scan_attrs (p_tenant p) key (attributes r) None;
      let '(index, defaulted) := choose_index v p requested in
      '(chosen, out) ← choose v p key rest;
      Some (index :: chosen,
            mkAdmitted (a_defaulted out + if defaulted then 1 else 0)
                       (a_refused out + if index then 0 else 1))
  end.

Definition bind_record (v : Verifier) (p : Principal) (key index : string) (r : LogRecord) : LogRecord :=
  if negb (route_indexes v) then
    set_attributes (List.filter (fun a => negb (String.eqb (attr_key a) ATTR_TENANT)) (attributes r)) r
  else
    let kept := List.filter (fun a => negb (is_index_key key (attr_key a)) && negb (String.eqb (attr_key a) ATTR_TENANT)) (attributes r) in
    let with_index := if bool_decide (Some index = default_index_of (tenancy v) (p_tenant p)) then kept
                      else kept ++ [mkAttr ATTR_INDEX (AStr index)] in
    set_attributes
      (if bool_decide (Some (p_tenant p) = own_tenant (tenancy v)) then with_index
       else with_index ++ [mkAttr ATTR_TENANT (AStr (p_tenant p))]) r.

Fixpoint retain_bound (v : Verifier) (p : Principal) (key : string) (chosen : list (option string))
    (records : list LogRecord) : list LogRecord :=
  match chosen, records with
  | Some index :: chosen, r :: records => bind_record v p key index r :: retain_bound v p key chosen records
  | None :: chosen, _ :: records => retain_bound v p key chosen records
  | _, _ => []
  end.

Definition admit_batch (now : Z) (p : Principal) (records : list LogRecord) (key : string) (whole : bool) (v : Verifier)
    : (NotAdmitted + BatchAdmission * list LogRecord) * Verifier :=
  match choose v p key records with
  | None => (inl OtherTenant, count now p add_refused v)
  | Some (chosen, out) =>
      let v1 := set_routes (wadd64 (routes_defaulted v) (a_defaulted out)) (wadd64 (routes_refused v) (a_refused out)) v in
      if whole && (0 <? a_refused out) then (inl IndexRefused, count now p (add_index_refused (a_refused out)) v1)
      else
        let kept := retain_bound v p key chosen records in
        (inr (out, kept), count now p (add_batch (Z.of_nat (List.length kept)) (a_defaulted out) (a_refused out)) v1)
  end.

(** ** Facts: scanning and choosing *)

Definition names_other_tenant (tenant : string) (r : LogRecord) : bool :=
  existsb (fun a => String.eqb (attr_key a) ATTR_TENANT && negb (bool_decide (attr_value a = AStr tenant))) (attributes r).

Lemma scan_attrs_spec tenant key attrs : forall requested,
  scan_attrs tenant key attrs requested =
    if existsb (fun a => String.eqb (attr_key a) ATTR_TENANT && negb (bool_decide (attr_value a = AStr tenant))) attrs
    then None
    else Some (match requested with
               | Some r => Some r
               | None => attr_text <$> (attr_value <$> List.find (fun a => negb (String.eqb (attr_key a) ATTR_TENANT) && is_index_key key (attr_key a)) attrs)
               end).
Proof.
  induction attrs as [|a attrs IH]; intros requested; [by destruct requested|]. cbn [scan_attrs existsb List.find].
  destruct (String.eqb (attr_key a) ATTR_TENANT); cbn [negb andb orb].
  - case_bool_decide; cbn [negb andb orb]; [apply IH|done].
  - destruct requested as [r|]; cbn [is_Some negb andb].
    + rewrite bool_decide_eq_true_2 by by eexists. cbn [negb andb]. by rewrite IH.
    + rewrite bool_decide_eq_false_2 by by intros []. cbn [negb andb].
      destruct (is_index_key key (attr_key a)); rewrite IH; [|done]. by destruct (existsb _ attrs).
Qed.

Lemma index_of_same t tenant r i : index_of t tenant r = Some i -> i = r /\ is_Some (configured t tenant).
Proof.
  unfold index_of. destruct (configured t tenant) as [c|]; [|done]. cbn [mbind option_bind].
  destruct (find_index c r) as [ic|] eqn:E; [|done]. intros [= <-].
  apply (find_some_in ix_name) in E as [_ ->]. by split.
Qed.

Lemma default_index_exists t tenant d : tenancy_ok t -> default_index_of t tenant = Some d -> index_of t tenant d = Some d.
Proof.
  intros Ht Hd. pose proof (route_in_spec t tenant None Ht) as H. unfold route_in in H. rewrite Hd in H.
  unfold default_index_of in Hd. destruct (configured t tenant); [|done].
  destruct H as [[_ ?]|(_ & _ & ?)]; done.
Qed.

Lemma existsb_eqb s l : existsb (String.eqb s) l = true <-> In s l.
Proof.
  rewrite existsb_exists. split.
  - intros (x & Hin & He). apply String.eqb_eq in He. by subst.
  - intros Hin. exists s. by rewrite String.eqb_refl.
Qed.

Lemma find_map_some {A B} (f : A -> option B) l b : find_map f l = Some b -> exists a, In a l /\ f a = Some b.
Proof.
  induction l as [|a l IH]; [done|]. cbn [find_map]. destruct (f a) as [x|] eqn:E.
  - intros [= <-]. exists a. split; [by left|done].
  - intros H. apply IH in H as (a' & Hin & Ha). exists a'. split; [by right|done].
Qed.

Lemma principal_default_ok p t i : tenancy_ok t -> principal_default_index p t = Some i ->
  allows (p_indexes p) i = true /\ index_of t (p_tenant p) i = Some i.
Proof.
  intros Ht. unfold principal_default_index. destruct (default_index_of t (p_tenant p)) as [d|] eqn:Ed; [|done].
  rewrite bind_some. destruct (allows (p_indexes p) d) eqn:Ea.
  { intros [= <-]. split; [done|by apply default_index_exists]. }
  destruct (p_indexes p) as [|l] eqn:Ei; [done|]. intros H. apply find_map_some in H as (x & Hin & Hx).
  pose proof (index_of_same _ _ _ _ Hx) as [-> _]. split; [|done]. cbn [allows]. by apply existsb_eqb.
Qed.

Lemma choose_index_ok v p requested i d : tenancy_ok (tenancy v) -> route_indexes v = true ->
  choose_index v p requested = (Some i, d) ->
  allows (p_indexes p) i = true /\ index_of (tenancy v) (p_tenant p) i = Some i.
Proof.
  intros Ht Hr. unfold choose_index. rewrite Hr. cbn [negb].
  destruct requested as [r|]; [|intros [= H _]; by apply principal_default_ok].
  destruct (opt_filter _ _) as [x|] eqn:E.
  - intros [= -> _]. apply opt_filter_some in E as [E Ha]. pose proof (index_of_same _ _ _ _ E) as [-> _]. done.
  - destruct (default RefuseIndex _); [done|]. destruct (principal_default_index _ _) as [x|] eqn:Ed; [|done].
    intros [= <- _]. by apply principal_default_ok.
Qed.

(** ** Facts: the record as it is stored *)

Definition routing_attr (key : string) (a : Attr) : bool :=
  is_index_key key (attr_key a) || String.eqb (attr_key a) ATTR_TENANT.
Definition others (key : string) (r : LogRecord) : LogRecord :=
  set_attributes (List.filter (fun a => negb (routing_attr key a)) (attributes r)) r.

(** The attributes [bind_record] puts at the end. *)
Definition routing_attrs (v : Verifier) (p : Principal) (index : string) : list Attr :=
  (if bool_decide (Some index = default_index_of (tenancy v) (p_tenant p)) then [] else [mkAttr ATTR_INDEX (AStr index)]) ++
  (if bool_decide (Some (p_tenant p) = own_tenant (tenancy v)) then [] else [mkAttr ATTR_TENANT (AStr (p_tenant p))]).

Lemma bind_record_attrs v p key index r : route_indexes v = true ->
  attributes (bind_record v p key index r) = attributes (others key r) ++ routing_attrs v p index.
Proof.
  intros Hr. unfold bind_record, others, routing_attrs. rewrite Hr. cbn [negb attributes set_attributes].
  assert (List.filter (fun a => negb (is_index_key key (attr_key a)) && negb (String.eqb (attr_key a) ATTR_TENANT)) (attributes r) =
    List.filter (fun a => negb (routing_attr key a)) (attributes r)) as ->.
  { apply filter_ext. intros a. unfold routing_attr. by rewrite negb_orb. }
  do 2 case_bool_decide; cbn [app]; rewrite ?app_nil_r, <- ?app_assoc; done.
Qed.

Lemma bind_record_others v p key index r : route_indexes v = true ->
  others key (bind_record v p key index r) = others key r.
Proof.
  intros Hr. unfold others at 1. rewrite bind_record_attrs by done. rewrite List.filter_app.
  assert (List.filter (fun a => negb (routing_attr key a)) (routing_attrs v p index) = []) as ->.
  { unfold routing_attrs, routing_attr, is_index_key. do 2 case_bool_decide; cbn [app List.filter attr_key];
      rewrite ?String.eqb_refl, ?orb_true_r; done. }
  rewrite app_nil_r. unfold others at 1. cbn [attributes set_attributes]. rewrite filter_filter_same.
  unfold bind_record, others. rewrite Hr. done.
Qed.

Lemma find_in_others (q : string -> bool) key l k : (forall a, q (attr_key a) = true -> routing_attr key a = true) ->
  find_attr_by q (List.filter (fun a => negb (routing_attr key a)) l ++ k) = find_attr_by q k.
Proof.
  intros Hq. unfold find_attr_by. rewrite find_app.
  replace (List.find (fun a => q (attr_key a)) (List.filter (fun a => negb (routing_attr key a)) l)) with (@None Attr); [done|].
  symmetry. induction l as [|a l IH]; [done|]. cbn [List.filter]. destruct (routing_attr key a) eqn:E; cbn [negb]; [done|].
  cbn [List.find]. destruct (q (attr_key a)) eqn:Eq; [|done]. rewrite (Hq a Eq) in E. done.
Qed.

Lemma bound_record_routes v p key i r : tenancy_ok (tenancy v) -> route_indexes v = true ->
  index_of (tenancy v) (p_tenant p) i = Some i ->
  tenant_of (tenancy v) (bind_record v p key i r) = Some (p_tenant p) /\
  fst (route_record (tenancy v) ATTR_INDEX (bind_record v p key i r)) = Known i.
Proof.
  intros Ht Hr Hi.
  assert (tenant_of (tenancy v) (bind_record v p key i r) = Some (p_tenant p)) as Htn.
  { unfold tenant_of. rewrite bind_record_attrs by done. cbn [others attributes set_attributes].
    rewrite find_in_others.
    2:{ intros a Ha. unfold routing_attr. rewrite String.eqb_sym, Ha. apply orb_true_r. }
    unfold routing_attrs, find_attr_by. do 2 case_bool_decide; done. }
  split; [done|]. unfold route_record. rewrite Htn.
  assert (requested_index ATTR_INDEX (bind_record v p key i r) =
    if bool_decide (Some i = default_index_of (tenancy v) (p_tenant p)) then None else Some i) as ->.
  { unfold requested_index. rewrite bind_record_attrs by done. cbn [others attributes set_attributes].
    rewrite find_in_others.
    2:{ intros a Ha. unfold is_index_key in Ha. rewrite orb_diag in Ha. unfold routing_attr, is_index_key. by rewrite Ha, orb_true_r. }
    unfold routing_attrs, find_attr_by. do 2 case_bool_decide; done. }
  pose proof (index_of_same _ _ _ _ Hi) as [_ [c Hc]]. unfold index_of in Hi. rewrite Hc in Hi. cbn [mbind option_bind] in Hi.
  destruct (find_index c i) as [ic|] eqn:Ef; [|done]. injection Hi as Hi.
  unfold route_in. rewrite Hc.
  assert (is_Some (default_index_of (tenancy v) (p_tenant p))) as [d Hd].
  { unfold default_index_of. rewrite Hc. cbn [mbind option_bind]. destruct Ht as (_ & _ & Hall & _). apply (find_some_in tn_id) in Hc as [Hin _]. forall_in Hall c.
    destruct (default_index_in_ok c Hall) as (x & -> & _). by eexists. }
  rewrite Hd. case_bool_decide as E.
  - injection E as <-. done.
  - rewrite Ef, Hi. done.
Qed.

Lemma choose_retain v p key records : tenancy_ok (tenancy v) -> route_indexes v = true -> forall chosen out,
  choose v p key records = Some (chosen, out) ->
  let kept := retain_bound v p key chosen records in
  sublist (List.map (others key) kept) (List.map (others key) records) /\
  Z.of_nat (List.length kept) + a_refused out = Z.of_nat (List.length records) /\
  Forall (fun r => tenant_of (tenancy v) r = Some (p_tenant p) /\
    exists i, allows (p_indexes p) i = true /\ index_of (tenancy v) (p_tenant p) i = Some i /\
      fst (route_record (tenancy v) ATTR_INDEX r) = Known i) kept /\
  Forall (fun r => names_other_tenant (p_tenant p) r = false) records.
Proof.
  intros Ht Hr. induction records as [|r records IH]; intros chosen out H; cbn [choose] in H.
  { injection H as <- <-. cbn. split; [done|]. split; [done|]. by split. }
  bind_inv H requested Es. destruct (choose_index v p requested) as [index d] eqn:Ec.
  bind_inv H rest Er. destruct rest as [chosen' out']. injection H as <- <-.
  specialize (IH _ _ eq_refl) as (H1 & H2 & H3 & H4). cbv zeta in H1, H2, H3.
  assert (names_other_tenant (p_tenant p) r = false) as Hn.
  { rewrite scan_attrs_spec in Es. unfold names_other_tenant. by destruct (existsb _ _). }
  cbv zeta. cbn [a_refused]. destruct index as [i|]; cbn [retain_bound].
  - destruct (choose_index_ok _ _ _ _ _ Ht Hr Ec) as [Ha Hi].
    destruct (bound_record_routes v p key i r Ht Hr Hi) as [Hb1 Hb2].
    split; [cbn [List.map]; rewrite bind_record_others by done; by apply sublist_skip|].
    split; [cbn [List.length]; lia|]. split; [|by apply Forall_cons_2].
    apply Forall_cons_2; [|done]. split; [done|]. by exists i.
  - split; [by apply sublist_cons|]. split; [cbn [List.length]; lia|]. split; [done|by apply Forall_cons_2].
Qed.

(** *** Every record's place, and the counts *)

(** The index a record names: the text of its first index attribute. *)
Definition asked (key : string) (r : LogRecord) : option string :=
  attr_text <$> (attr_value <$> List.find (fun a => negb (String.eqb (attr_key a) ATTR_TENANT) && is_index_key key (attr_key a))
                                 (attributes r)).

(** An index of the tenant the principal may write. *)
Definition writable (v : Verifier) (p : Principal) (i : string) : Prop :=
  index_of (tenancy v) (p_tenant p) i = Some i /\ allows (p_indexes p) i = true.

(** Where a record that names [asked] goes, and whether it was moved. *)
Inductive lands (v : Verifier) (p : Principal) : option string -> option string -> bool -> Prop :=
| lands_unasked : lands v p None (principal_default_index p (tenancy v)) false
| lands_asked i : writable v p i -> lands v p (Some i) (Some i) false
| lands_moved i d : ~ writable v p i -> unknown_index (tenancy v) (p_tenant p) = Some DefaultIndex ->
    principal_default_index p (tenancy v) = Some d -> lands v p (Some i) (Some d) true
| lands_nowhere i : ~ writable v p i ->
    unknown_index (tenancy v) (p_tenant p) <> Some DefaultIndex \/ principal_default_index p (tenancy v) = None ->
    lands v p (Some i) None false.

Lemma choose_index_lands v p requested : route_indexes v = true ->
  lands v p requested (fst (choose_index v p requested)) (snd (choose_index v p requested)).
Proof.
  intros Hr. unfold choose_index. rewrite Hr. cbn [negb]. destruct requested as [r|]; [|apply lands_unasked].
  destruct (opt_filter _ _) as [i|] eqn:E.
  { apply opt_filter_some in E as [E Ha]. pose proof (index_of_same _ _ _ _ E) as [-> _]. by apply lands_asked. }
  assert (~ writable v p r) as Hn by (intros [E1 E2]; rewrite E1 in E; cbn in E; by rewrite E2 in E).
  destruct (unknown_index _ _) as [[]|] eqn:Eu; cbn [default];
    try (apply lands_nowhere; [done|left; congruence]).
  destruct (principal_default_index p (tenancy v)) as [d|] eqn:Ed; [by apply lands_moved|].
  apply lands_nowhere; [done|by right].
Qed.

Definition number {A} (f : A -> bool) (l : list A) : Z := Z.of_nat (List.length (List.filter f l)).

Lemma choose_marks v p key records : route_indexes v = true -> forall chosen out,
  choose v p key records = Some (chosen, out) ->
  exists marks, chosen = List.map fst marks /\
    Forall2 (fun r m => lands v p (asked key r) (fst m) (snd m)) records marks /\
    a_defaulted out = number snd marks /\ a_refused out = number (fun m => bool_decide (fst m = None)) marks.
Proof.
  intros Hr. induction records as [|r records IH]; intros chosen out H; cbn [choose] in H.
  { injection H as <- <-. exists []. by split_and!. }
  bind_inv H requested Es. pose proof (choose_index_lands v p requested Hr) as Hl.
  destruct (choose_index v p requested) as [index d]. cbn [fst snd] in Hl.
  bind_inv H rest Er. destruct rest as [chosen' out']. injection H as <- <-.
  destruct (IH _ _ eq_refl) as (marks & -> & Hm & Hd & Hf). exists ((index, d) :: marks). split; [done|].
  rewrite scan_attrs_spec in Es. destruct (existsb _ _); [done|]. injection Es as Es.
  split; [constructor; [by rewrite <- Es in Hl|done]|]. cbn [a_defaulted a_refused]. unfold number in *. cbn [List.filter fst snd].
  rewrite Hd, Hf. split; [destruct d; cbn [List.length]; lia|].
  destruct index; [rewrite bool_decide_eq_false_2 by done|rewrite bool_decide_eq_true_2 by done]; cbn [List.length]; lia.
Qed.

(** The records that have a place, each with it. *)
Definition placed (records : list LogRecord) (marks : list (option string * bool)) : list (LogRecord * string) :=
  omap (fun '(r, m) => (fun i => (r, i)) <$> fst m) (zip records marks).

(** A record as stored in index [i]. *)
Definition stored_as (v : Verifier) (p : Principal) (key : string) (from : LogRecord * string) (r : LogRecord) : Prop :=
  others key r = others key (fst from) /\ tenant_of (tenancy v) r = Some (p_tenant p) /\ writable v p (snd from) /\
  fst (route_record (tenancy v) ATTR_INDEX r) = Known (snd from).

Lemma lands_writable v p a i d : tenancy_ok (tenancy v) -> lands v p a (Some i) d -> writable v p i.
Proof.
  intros Ht H. inversion H as [Hd| |? ? ? ? Hd|]; subst; [|done|].
  all: first [apply eq_sym in Hd|idtac]; by destruct (principal_default_ok p _ i Ht) as [? ?].
Qed.

Lemma retain_stored v p key : tenancy_ok (tenancy v) -> route_indexes v = true -> forall records marks,
  Forall2 (fun r m => lands v p (asked key r) (fst m) (snd m)) records marks ->
  Forall2 (stored_as v p key) (placed records marks) (retain_bound v p key (List.map fst marks) records).
Proof.
  intros Ht Hr records marks H. induction H as [|r [[i|] d] records marks Hl _ IH]; [constructor| |exact IH].
  cbn [List.map fst retain_bound]. change (placed (r :: records) ((Some i, d) :: marks)) with ((r, i) :: placed records marks).
  constructor; [|exact IH]. apply (lands_writable _ _ _ _ _ Ht) in Hl. destruct Hl as [Hi Ha].
  destruct (bound_record_routes v p key i r Ht Hr Hi) as [H1 H2].
  split; [by apply bind_record_others|]. by split_and!.
Qed.

(** A principal's counter [f] grew by [n]; past the limit on counted
    principals a new one is counted with the others. *)
Definition tallied (p : Principal) (f : PrincipalCounters -> Z) (n : Z) (v v' : Verifier) : Prop :=
  let k := if decide ((size (by_principal v) < MAX_COUNTED_PRINCIPALS)%nat \/ is_Some (by_principal v !! counter_key p))
           then counter_key p else "(others)" in
  exists e, by_principal v' !! k = Some e /\ f e = wadd64 (f (default counters0 (by_principal v !! k))) n.

Lemma count_tallied now p update f n v :
  (forall e, f (update e) = wadd64 (f e) n) ->
  (forall k s e, f (mkCounters k s (c_requests e) (c_records e) (c_index_defaulted e) (c_index_refused e) (c_refused e) now) = f e) ->
  tallied p f n v (count now p update v).
Proof.
  intros Hu Hf. unfold tallied, count. cbn [by_principal set_by_principal]. cbv zeta.
  destruct ((MAX_COUNTED_PRINCIPALS <=? size (by_principal v))%nat && negb (bool_decide (is_Some (by_principal v !! counter_key p)))) eqn:E.
  - apply andb_true_iff in E as [E1 E2]. apply Nat.leb_le in E1. apply negb_true_iff, bool_decide_eq_false in E2.
    rewrite decide_False by (intros [?|?]; [lia|done]). rewrite lookup_insert_eq. eexists. split; [done|]. by rewrite Hu, Hf.
  - rewrite decide_True.
    2: { apply andb_false_iff in E as [E|E]; [left; apply Nat.leb_gt in E; exact E|right].
         by apply negb_false_iff, bool_decide_eq_true in E. }
    rewrite lookup_insert_eq. eexists. split; [done|]. by rewrite Hu, Hf.
Qed.

(** C25: Whatever a batch claims, where indexes are routed over a validated tenancy,
    admit either refuses it, or stores every record it keeps with the principal's tenant, in
    the index it named if the principal may write it, else in the principal's default one
    where the tenant's rule says so, its other attributes untouched and in order. A record
    without a place is left out (none when the batch goes whole). The number moved to the
    default and the number left out are exactly those of the records, and are what the
    listener's and the principal's counters grow by. *)
Theorem admit_binds now p records key whole v out kept v' :
  tenancy_ok (tenancy v) -> route_indexes v = true ->
  admit_batch now p records key whole v = (inr (out, kept), v') ->
  sublist (List.map (others key) kept) (List.map (others key) records) /\
  Z.of_nat (List.length kept) + a_refused out = Z.of_nat (List.length records) /\
  Forall (fun r => tenant_of (tenancy v) r = Some (p_tenant p) /\
    exists i, allows (p_indexes p) i = true /\ index_of (tenancy v) (p_tenant p) i = Some i /\
      fst (route_record (tenancy v) ATTR_INDEX r) = Known i) kept /\
  Forall (fun r => names_other_tenant (p_tenant p) r = false) records /\
  (exists marks,
    Forall2 (fun r m => lands v p (asked key r) (fst m) (snd m)) records marks /\
    Forall2 (stored_as v p key) (placed records marks) kept /\
    a_defaulted out = number snd marks /\
    a_refused out = number (fun m => bool_decide (fst m = None)) marks) /\
  (whole = true -> a_refused out = 0) /\
  routes_defaulted v' = wadd64 (routes_defaulted v) (a_defaulted out) /\
  routes_refused v' = wadd64 (routes_refused v) (a_refused out) /\
  tallied p c_requests 1 v v' /\ tallied p c_records (Z.of_nat (List.length kept)) v v' /\
  tallied p c_index_defaulted (a_defaulted out) v v' /\ tallied p c_index_refused (a_refused out) v v'.
Proof.
  intros Ht Hr. unfold admit_batch. destruct (choose v p key records) as [[chosen o]|] eqn:E; [|done].
  destruct (whole && _) eqn:Ew; [done|]. intros [= <- <- <-].
  pose proof (choose_retain _ _ _ _ Ht Hr _ _ E) as (H1 & H2 & H3 & H4).
  apply (choose_marks _ _ _ _ Hr) in E as (marks & -> & Hm & Hd & Hf).
  do 4 (split; [done|]). split; [exists marks; split_and!; [done|by apply retain_stored|done|done]|].
  split; [intros ->; cbn [andb] in Ew; apply Z.ltb_ge in Ew; rewrite Hf in *; unfold number in *; lia|].
  do 2 (split; [done|]).
  split_and!; refine (count_tallied now p _ _ _ (set_routes _ _ v) _ _); intros; reflexivity.
Qed.

(** A batch is turned away for its tenant exactly when some record in it
    names another one. *)
Lemma choose_none v p key records : choose v p key records = None <->
  existsb (names_other_tenant (p_tenant p)) records = true.
Proof.
  induction records as [|r records IH]; [done|]. cbn [choose existsb]. rewrite scan_attrs_spec.
  unfold names_other_tenant at 1. destruct (existsb _ (attributes r)); [done|]. rewrite bind_some.
  destruct (choose_index v p _) as [i d]. cbn [orb]. rewrite <- IH.
  destruct (choose v p key records) as [[chosen out]|]; [|done]. by rewrite bind_some.
Qed.

(** ** Facts: deciding *)

Section DecidingFacts.
Variable sha256 : bytes -> bytes.
Variable from_slice : bytes -> option Json.
Variable ed25519 : bytes -> bytes -> bytes -> bool.

Lemma ct_eq_refl d : ct_eq d d = true.
Proof.
  unfold ct_eq. apply Z.eqb_eq. assert (forall a, foldl (fun diff xy => Z.lor diff (Z.lxor (byte_val (fst xy)) (byte_val (snd xy)))) a
    (combine d d) = a) as H; [|apply H].
  induction d as [|b d IH]; intros a; [done|]. cbn [combine foldl fst snd]. rewrite Z.lxor_nilpotent, Z.lor_0_r. apply IH.
Qed.

Lemma static_principal_spec at_ presented v p : static_principal sha256 at_ presented v = Some p <->
  exists found, statics v !! digest sha256 presented = Some found /\ List.find (good_at at_) found = Some p.
Proof.
  unfold static_principal. destruct (statics v !! digest sha256 presented) as [found|]; [|split; [done|by intros (? & ? & _)]].
  rewrite bind_some. unfold opt_filter. rewrite ct_eq_refl. split.
  - intros H. exists found. split; [done|]. by destruct (List.find _ found).
  - intros (f & [= <-] & ->). done.
Qed.

(** The key's holder at a listener: the first of the principals with that
    key who is good there. *)
Definition holds_key (at_ : Listener) (v : Verifier) (value : string) (p : Principal) : Prop :=
  exists before after, statics v !! digest sha256 value = Some (before ++ p :: after) /\
    good_at at_ p = true /\ Forall (fun q => good_at at_ q = false) before.

(** A broker token to this instance, as far as its shape says, with what the
    token's verification said of it. *)
Definition token_says (now : Z) (fetched : string + Fetched) (saved : bool) (v : Verifier) (value : string)
    (answer : Refusal + Claims) : Prop :=
  looks_like_jwt value = true /\
  exists j, jwt v = Some j /\ fst (jwt_verify_at from_slice ed25519 value now fetched saved j) = answer.

(** Who a request is: every way it can come out, and nothing else. *)
Inductive judged (at_ : Listener) (closed : bool) (now : Z) (fetched : string + Fetched) (saved : bool) (v : Verifier)
    : option string -> Refusal + Principal -> Prop :=
| judged_missing : closed = true -> judged at_ closed now fetched saved v None (inl Missing)
| judged_nobody : closed = false -> judged at_ closed now fetched saved v None (inr (anonymous v))
| judged_long value : MAX_TOKEN_LEN < str_len value ->
    judged at_ closed now fetched saved v (Some value) (inl UnknownKey)
| judged_key value p : str_len value <= MAX_TOKEN_LEN -> holds_key at_ v value p ->
    judged at_ closed now fetched saved v (Some value) (inr p)
| judged_unknown value : str_len value <= MAX_TOKEN_LEN -> (forall p, ~ holds_key at_ v value p) ->
    (jwt v = None \/ looks_like_jwt value = false) ->
    judged at_ closed now fetched saved v (Some value) (if closed then inl UnknownKey else inr (anonymous v))
| judged_bad_token value r : str_len value <= MAX_TOKEN_LEN -> (forall p, ~ holds_key at_ v value p) ->
    token_says now fetched saved v value (inl r) ->
    judged at_ closed now fetched saved v (Some value) (inl r)
| judged_no_tenant value c : str_len value <= MAX_TOKEN_LEN -> (forall p, ~ holds_key at_ v value p) ->
    token_says now fetched saved v value (inr c) -> has_tenant (tenancy v) (cl_tenant c) = false ->
    judged at_ closed now fetched saved v (Some value) (inl UnknownTenant)
| judged_token value c : str_len value <= MAX_TOKEN_LEN -> (forall p, ~ holds_key at_ v value p) ->
    token_says now fetched saved v value (inr c) -> has_tenant (tenancy v) (cl_tenant c) = true ->
    judged at_ closed now fetched saved v (Some value)
      (inr (mkPrincipal (match cl_name c with Some n => n | None => cl_sub c end) (cl_kind c) (cl_tenant c) (cl_indexes c)
              (cl_scopes c) (cl_roles c) Token (Some (cl_exp c)) None)).

Lemma find_split {A} (q : A -> bool) l x : List.find q l = Some x <->
  exists before after, l = before ++ x :: after /\ q x = true /\ Forall (fun y => q y = false) before.
Proof.
  induction l as [|a l IH]; cbn [List.find].
  { split; [done|]. by intros ([] & after & H & _). }
  destruct (q a) eqn:E.
  - split; [intros [= ->]; by exists [], l|]. intros ([|b before] & after & H & Hx & Hb); [cbn in H; congruence|].
    apply Forall_cons_1 in Hb as [Hb _]. injection H as -> _. congruence.
  - rewrite IH. split.
    + intros (before & after & -> & Hx & Hb). exists (a :: before), after. split; [done|]. split; [done|by constructor].
    + intros ([|b before] & after & H & Hx & Hb); [cbn in H; congruence|]. injection H as <- ->.
      apply Forall_cons_1 in Hb as [_ Hb]. by exists before, after.
Qed.

Lemma static_principal_holds at_ value v p : static_principal sha256 at_ value v = Some p <-> holds_key at_ v value p.
Proof.
  rewrite static_principal_spec. unfold holds_key. setoid_rewrite find_split. split.
  - intros (found & Hf & before & after & -> & H). by exists before, after.
  - intros (before & after & Hf & H). eexists. split; [exact Hf|]. by exists before, after.
Qed.

(** No token's fault is taken for an unknown key. *)
Lemma check_header_fault head r : check_header from_slice head = inl r -> is_token_failure r = true.
Proof.
  unfold check_header. repeat (case_match; try done); by intros [= <-].
Qed.
Lemma check_claims_fault j now payload r : check_claims from_slice j now payload = inl r -> is_token_failure r = true.
Proof.
  unfold check_claims. cbv zeta. repeat (case_match; try done); by intros [= <-].
Qed.
Lemma jwt_verify_fault value now fetched saved j r :
  fst (jwt_verify_at from_slice ed25519 value now fetched saved j) = inl r -> is_token_failure r = true.
Proof.
  unfold jwt_verify_at. destruct (split_char "." value) as [|head [|payload [|sig [|? ?]]]]; try by intros [= <-].
  destruct (check_header from_slice head) as [r'|kid] eqn:Eh; [intros [= <-]; by eapply check_header_fault|].
  destruct (find_key _ _ _ _ _ _) as [[k|] j']; [|by intros [= <-]]. destruct (b64url sig); [|by intros [= <-]].
  destruct (negb _); [by intros [= <-]|]. apply check_claims_fault.
Qed.

(** The credential alone, before the listener's openness is looked at. *)
Lemma verify_at_judged at_ closed value now fetched saved v : str_len value <= MAX_TOKEN_LEN ->
  judged at_ closed now fetched saved v (Some value)
    match fst (verify_at sha256 from_slice ed25519 at_ value now fetched saved v) with
    | inl r => if negb closed && negb (is_token_failure r) then inr (anonymous v) else inl r
    | inr p => inr p
    end.
Proof.
  intros Hlen. unfold verify_at. destruct (static_principal sha256 at_ value v) as [q|] eqn:Es.
  { apply static_principal_holds in Es. by apply judged_key. }
  assert (forall p, ~ holds_key at_ v value p) as Hn by (intros p H%static_principal_holds; congruence).
  destruct (opt_filter _ (jwt v)) as [j|] eqn:Ej.
  2: { assert (jwt v = None \/ looks_like_jwt value = false) as Hu.
       { destruct (jwt v); [|by left]. cbn in Ej. right. by destruct (looks_like_jwt value). }
       pose proof (judged_unknown at_ closed now fetched saved v value Hlen Hn Hu) as H. by destruct closed. }
  apply opt_filter_some in Ej as [Ej Hl].
  assert (token_says now fetched saved v value (fst (jwt_verify_at from_slice ed25519 value now fetched saved j))) as Hs
    by (split; [done|by exists j]).
  pose proof (jwt_verify_fault value now fetched saved j) as Hf.
  destruct (jwt_verify_at _ _ _ _ _ _ j) as [[r|c] j']; cbn [fst tenancy set_jwt] in *.
  - rewrite (Hf r eq_refl), andb_false_r. by apply judged_bad_token.
  - destruct (has_tenant _ _) eqn:Et; cbn [fst]; [by apply (judged_token _ _ _ _ _ _ _ c)|].
    cbn [is_token_failure negb]. rewrite andb_false_r. by apply (judged_no_tenant _ _ _ _ _ _ _ c).
Qed.

(** What judging a credential leaves alone. *)
Definition same_counts (a b : Verifier) : Prop :=
  refused a = refused b /\ by_principal a = by_principal b /\ anonymous a = anonymous b.

Lemma verify_at_counts at_ value now fetched saved v :
  same_counts (snd (verify_at sha256 from_slice ed25519 at_ value now fetched saved v)) v.
Proof.
  unfold verify_at. destruct (static_principal _ _ _ _); [done|]. destruct (opt_filter _ (jwt v)) as [j|]; [|done].
  destruct (jwt_verify_at _ _ _ _ _ _ _) as [[r|c] j']; [done|]. by destruct (has_tenant _ _).
Qed.

(** A decision: who was let through, or the reason, counted. *)
Definition decided (at_ : Listener) (op : Op) (closed : bool) (presented : option string) (now : Z)
    (fetched : string + Fetched) (saved : bool) (v : Verifier) (who : Refusal + Principal) (v' : Verifier) : Prop :=
  match who with
  | inr p => judged at_ closed now fetched saved v presented (inr p) /\ may (p_kind p) op = true /\
      refused v' = refused v /\ by_principal v' = by_principal v
  | inl r =>
      refused v' = <[slot r := wadd64 (nth (slot r) (refused v) 0) 1]> (refused v) /\
      (judged at_ closed now fetched saved v presented (inl r) /\ by_principal v' = by_principal v \/
       r = WrongKind /\ exists p, judged at_ closed now fetched saved v presented (inr p) /\
         may (p_kind p) op = false /\ tallied p c_refused 1 v v')
  end.

(** What [authorize] does once it knows who the request is. *)
Lemma judged_decided at_ op closed presented now fetched saved v first v1 :
  judged at_ closed now fetched saved v presented first -> same_counts v1 v ->
  let '(who, v2) :=
    match first with
    | inr p => if may (p_kind p) op then (inr p, v1) else (inl WrongKind, count now p add_refused v1)
    | inl r => (inl r, v1)
    end in
  decided at_ op closed presented now fetched saved v who (match who with inl r => refuse now r v2 | inr _ => v2 end).
Proof.
  intros Hj (E1 & E2 & _). destruct first as [r|p]; [|destruct (may (p_kind p) op) eqn:Em].
  - split; [cbn; by rewrite E1|left]. by split.
  - by split_and!.
  - split; [cbn; by rewrite E1|right]. split; [done|]. exists p. split; [done|]. split; [done|].
    pose proof (count_tallied now p add_refused c_refused 1 v1 (fun _ => eq_refl) (fun _ _ _ => eq_refl)) as H.
    unfold tallied in *. by rewrite E2 in H.
Qed.

Lemma authorize_decided at_ op closed presented now fetched saved v :
  decided at_ op closed presented now fetched saved v
    (fst (authorize sha256 from_slice ed25519 at_ op closed presented now fetched saved v))
    (snd (authorize sha256 from_slice ed25519 at_ op closed presented now fetched saved v)).
Proof.
  unfold authorize. set (first := match presented with Some _ => _ | None => _ end).
  assert (judged at_ closed now fetched saved v presented (fst first) /\ same_counts (snd first) v) as [Hj Hc].
  { unfold first. destruct presented as [value|].
    - destruct (MAX_TOKEN_LEN <? str_len value) eqn:El; zbool; [split; [by apply judged_long|done]|].
      pose proof (verify_at_judged at_ closed value now fetched saved v ltac:(lia)) as Hj.
      pose proof (verify_at_counts at_ value now fetched saved v) as Hc.
      destruct (verify_at _ _ _ _ _ _ _ _ v) as [[r|q] v1]; cbn [fst snd] in *; [|done].
      by rewrite (proj2 (proj2 Hc)).
    - split; [|done]. destruct closed; [by apply judged_missing|by apply judged_nobody]. }
  destruct first as [who v1]. cbn [fst snd] in Hj, Hc.
  pose proof (judged_decided at_ op closed presented now fetched saved v who v1 Hj Hc) as H.
  destruct who as [r|p]; [exact H|]. by destruct (may (p_kind p) op).
Qed.

Lemma slot_inj a b : slot a = slot b -> a = b.
Proof. by destruct a, b. Qed.

(** C26: A request is exactly who its credential says: the first holder of that key good
    at this listener; or else, for a token, who the verified token names; or, on an open
    listener only, the anonymous principal when nothing was presented or what was is neither
    a key nor a token. A token's own failure is never taken for anonymous, on an open
    listener either. Whoever is let through has a kind that may do the operation; every
    refusal is counted once under its reason, and no other reason's count moves; a kind
    refused is counted at its principal too. *)
Theorem authorize_sound at_ op closed presented now fetched saved v who v' :
  List.length (refused v) = 16%nat ->
  authorize sha256 from_slice ed25519 at_ op closed presented now fetched saved v = (who, v') ->
  match who with
  | inr p => judged at_ closed now fetched saved v presented (inr p) /\ may (p_kind p) op = true
  | inl r => judged at_ closed now fetched saved v presented (inl r) \/
      r = WrongKind /\ exists p, judged at_ closed now fetched saved v presented (inr p) /\
        may (p_kind p) op = false /\ tallied p c_refused 1 v v'
  end /\
  forall r, nth (slot r) (refused v') 0 =
    if decide (who = inl r) then wadd64 (nth (slot r) (refused v) 0) 1 else nth (slot r) (refused v) 0.
Proof.
  intros Hlen E. pose proof (authorize_decided at_ op closed presented now fetched saved v) as H. rewrite E in H.
  cbn [fst snd] in H. destruct who as [r|p].
  - destruct H as [Hr Hd]. split; [naive_solver|]. intros r'. rewrite Hr, !nth_lookup. case_decide as Er.
    + injection Er as <-. rewrite list_lookup_insert_eq; [done|]. rewrite Hlen. destruct r; cbn; lia.
    + rewrite list_lookup_insert_ne; [done|]. intros Hs%slot_inj. congruence.
  - destruct H as (Hj & Hm & Hr & _). split; [done|]. intros r. rewrite decide_False by done. by rewrite Hr.
Qed.

(** ** Facts: the keys of the configuration *)

(** Every key of the map is held by at least one principal. *)
Lemma add_lookup d p v d' : statics (add d p v) !! d' =
  if decide (d = d') then Some (default [] (statics v !! d) ++ [p]) else statics v !! d'.
Proof.
  unfold add. cbn [statics set_statics]. case_decide as E; [by rewrite E, lookup_insert_eq|by apply lookup_insert_ne].
Qed.

Lemma add_principal_keeps c seen v seen' v' d found : add_principal sha256 c seen v = inr (seen', v') ->
  statics v !! d = Some found -> statics v' !! d = Some found /\ tenancy v' = tenancy v.
Proof.
  unfold add_principal. destruct (negb (valid_ident _)); [done|]. destruct (existsb _ seen); [done|].
  case_bool_decide; [done|]. cbv zeta. destruct (negb _ && negb _); [done|].
  destruct (match pc_indexes c with Some _ => _ | None => _ end) as [e|ix]; [done|].
  destruct (match pc_key c with Some _ => _ | None => _ end) as [e|kd]; [done|].
  destruct (bool_decide (is_Some (statics v !! kd)) || _) eqn:E; [done|]. apply orb_false_iff in E as [E _].
  apply bool_decide_eq_false in E. destruct (_ && _); [done|].
  case_bool_decide; [destruct (pc_key c); [|done]|]; intros [= <- <-] Hd; [done|].
  split; [|done]. rewrite add_lookup. case_decide as Ed; [|done]. subst d. destruct E. by eexists.
Qed.

Lemma principals_keep l : forall seen v v' d found, principals_from sha256 seen l v = inr v' ->
  statics v !! d = Some found -> statics v' !! d = Some found.
Proof.
  induction l as [|c l IH]; intros seen v v' d found H Hd; cbn [principals_from] in H; [by injection H as <-|].
  destruct (add_principal sha256 c seen v) as [e|[seen1 v1]] eqn:E; [done|].
  eapply IH; [exact H|]. by eapply add_principal_keeps in E as [? _].
Qed.

Lemma add_principal_key c seen v seen' v' k : add_principal sha256 c seen v = inr (seen', v') ->
  pc_kind c <> KReader -> pc_key c = Some k ->
  exists p, statics v' !! digest sha256 k = Some [p] /\ p_id p = pc_id c /\ p_kind p = pc_kind c /\
    p_tenant p = match pc_tenant c with Some t => t | None => default "" (own_tenant (tenancy v)) end /\
    has_tenant (tenancy v) (p_tenant p) = true /\ only_at p = None.
Proof.
  unfold add_principal. intros H Hk Hkey. destruct (negb (valid_ident _)); [done|]. destruct (existsb _ seen); [done|].
  case_bool_decide; [done|]. cbv zeta in H. rewrite (bool_decide_eq_false_2 (pc_kind c = KReader)) in H by done.
  cbn [andb negb] in H. destruct (has_tenant _ _) eqn:Et; [|done]. cbn [negb] in H.
  destruct (match pc_indexes c with Some _ => _ | None => _ end) as [e|ix]; [done|].
  rewrite Hkey in H. destruct (pc_key_sha256 c); [done|]. destruct (MIN_KEY_LEN <=? str_len k); [|done].
  destruct (bool_decide (is_Some (statics v !! _)) || _) eqn:E; [done|]. apply orb_false_iff in E as [E _].
  apply bool_decide_eq_false, eq_None_not_Some in E. injection H as <- <-. rewrite add_lookup, decide_True, E by done.
  eexists. split; [reflexivity|]. cbn [p_id p_kind p_tenant only_at]. done.
Qed.

Lemma add_principal_tenancy c seen v seen' v' : add_principal sha256 c seen v = inr (seen', v') -> tenancy v' = tenancy v.
Proof.
  unfold add_principal. destruct (negb (valid_ident _)); [done|]. destruct (existsb _ seen); [done|].
  case_bool_decide; [done|]. cbv zeta. destruct (negb _ && negb _); [done|].
  destruct (match pc_indexes c with Some _ => _ | None => _ end) as [e|ix]; [done|].
  destruct (match pc_key c with Some _ => _ | None => _ end) as [e|kd]; [done|].
  destruct (_ || _); [done|]. destruct (_ && _); [done|].
  case_bool_decide; [destruct (pc_key c); [|done]|]; by intros [= <- <-].
Qed.

(** A configured key is its principal: once a configuration is accepted,
    presenting the key of any of its entries, at any listener, is being that
    entry, of the tenant it names, and nobody else. *)
Theorem configured_key_is_its_principal l : forall seen v v' c k at_,
  principals_from sha256 seen l v = inr v' -> In c l -> pc_kind c <> KReader -> pc_key c = Some k ->
  exists p, static_principal sha256 at_ k v' = Some p /\ p_id p = pc_id c /\ p_kind p = pc_kind c /\
    p_tenant p = match pc_tenant c with Some t => t | None => default "" (own_tenant (tenancy v)) end /\
    has_tenant (tenancy v) (p_tenant p) = true.
Proof.
  induction l as [|c' l IH]; intros seen v v' c k at_ H Hin Hk Hkey; [done|]. cbn [principals_from] in H.
  destruct (add_principal sha256 c' seen v) as [e|[seen1 v1]] eqn:E; [done|].
  destruct Hin as [->|Hin].
  - pose proof (add_principal_key _ _ _ _ _ _ E Hk Hkey) as (p & Hp & H1 & H2 & H3 & H4 & H5).
    exists p. split; [|done]. apply static_principal_spec. exists [p].
    split; [by eapply principals_keep|]. cbn [List.find]. unfold good_at. by rewrite H5.
  - rewrite <- (add_principal_tenancy _ _ _ _ _ E). by eapply IH.
Qed.
End DecidingFacts.

(** ** Witnesses *)

Definition two_tenants : Tenancy :=
  mkTenancy [mkTenant "acme" DefaultIndex [mkIndex "default" level_buckets_default];
             mkTenant "beta" DefaultIndex [mkIndex "audit" level_buckets_default; mkIndex "default" level_buckets_default]] "n1".
Lemma two_tenants_ok : tenancy_ok two_tenants.
Proof. apply (tenancy_new_ok (tenants two_tenants) "n1"). vm_compute. reflexivity. Qed.

Definition beta_entry : PrincipalConfig :=
  mkPrincipalConfig "edge-1" KNode (Some "beta") (Some ["audit"]) (Some "0123456789abcdef01234567") None.
Definition beta_edge : Principal := mkPrincipal "edge-1" KNode "beta" (Only ["audit"]) [] [] Static None None.
Definition sample_verifier : Verifier :=
  match principals (fun b => b) [beta_entry] (builder_new two_tenants) with inr v => v | inl _ => builder_new two_tenants end.
Definition sample_batch : list LogRecord :=
  [set_attributes [mkAttr "index" (AStr "default"); mkAttr "k" (AI64 1)] (new_record [] 0 9 "one");
   set_attributes [mkAttr ATTR_TENANT (AStr "beta"); mkAttr ATTR_INDEX (AStr "audit")] (new_record [] 0 9 "two")].

Lemma pair_fst {A B} (x : A * B) a : fst x = a -> x = (a, snd x).
Proof. destruct x. simpl. by intros ->. Qed.

Definition sample_kept : list LogRecord :=
  match fst (admit_batch 5 beta_edge sample_batch "index" false sample_verifier) with inr (_, kept) => kept | inl _ => [] end.

Lemma sample_admitted : fst (admit_batch 5 beta_edge sample_batch "index" false sample_verifier) = inr (mkAdmitted 1 0, sample_kept).
Proof. vm_compute. reflexivity. Qed.

Lemma admit_binds_witness :
  Z.of_nat (List.length sample_kept) + 0 = 2 /\
  Forall (fun r => tenant_of (tenancy sample_verifier) r = Some "beta" /\
    exists i, allows (Only ["audit"]) i = true /\ index_of (tenancy sample_verifier) "beta" i = Some i /\
      fst (route_record (tenancy sample_verifier) ATTR_INDEX r) = Known i) sample_kept.
Proof.
  destruct (admit_binds 5 beta_edge sample_batch "index" false sample_verifier (mkAdmitted 1 0) sample_kept
    (snd (admit_batch 5 beta_edge sample_batch "index" false sample_verifier))) as (_ & H2 & H3 & _ & (marks & H4 & H5 & H6 & _) & _);
    [exact two_tenants_ok|reflexivity|exact (pair_fst _ _ sample_admitted)|].
  split; [exact H2|exact H3].
Defined.

Definition sample_request : (Refusal + Principal) * Verifier :=
  authorize (fun b => b) sample_slice sample_ed25519 AtPeer OpParts true (Some "0123456789abcdef01234567") 5
    (inl "down") false sample_verifier.

Lemma sample_authorized : fst sample_request = inr beta_edge.
Proof. vm_compute. reflexivity. Qed.

Lemma authorize_sound_witness : may (p_kind beta_edge) OpParts = true /\
  judged (fun b => b) sample_slice sample_ed25519 AtPeer true 5 (inl "down") false sample_verifier
    (Some "0123456789abcdef01234567") (inr beta_edge).
Proof.
  destruct (authorize_sound (fun b => b) sample_slice sample_ed25519 AtPeer OpParts true
    (Some "0123456789abcdef01234567") 5 (inl "down") false sample_verifier (inr beta_edge) (snd sample_request)
    ltac:(vm_compute; reflexivity) (pair_fst _ _ sample_authorized)) as [[H1 H2] _].
  split; [exact H2|exact H1].
Defined.

Lemma sample_configured : principals (fun b => b) [beta_entry] (builder_new two_tenants) = inr sample_verifier.
Proof. unfold sample_verifier. vm_compute. reflexivity. Qed.

Lemma configured_key_is_its_principal_witness :
  exists p, static_principal (fun b => b) AtHec "0123456789abcdef01234567" sample_verifier = Some p /\
    p_id p = "edge-1" /\ p_tenant p = "beta".
Proof.
  destruct (configured_key_is_its_principal (fun b => b) [beta_entry] [] (builder_new two_tenants) sample_verifier beta_entry
    "0123456789abcdef01234567" AtHec) as (p & H1 & H2 & _ & H4 & _); [exact sample_configured|by left|discriminate|reflexivity|].
  exists p. split; [exact H1|]. split; [exact H2|exact H4].
Defined.
