(* ===== verification/AuthS3.v ===== *)
(** The reading side of a principal ([crates/logless-core/src/auth/s3.rs]):
    the part of the store it may read, and temporary S3 credentials that carry
    their scope and their end in a signed token.

    HMAC-SHA-256 and [serde_json] are parameters. *)

From S2P Require Import Prelude Text Lists Partition Tenancy Json Base64 Jwt Auth.
Open Scope string_scope.
Open Scope Z_scope.
Open Scope list_scope.

Definition MAX_SESSION_TOKEN_LEN : Z := 4 * 1024.
Definition VERSION : string := "v1".

(** ** What part of the store *)

(** [""] is the whole store. *)
Definition ReadScope := list string.
Definition whole : ReadScope := [""].

Definition index_root (tenant_root index : string) : string :=
  String.append tenant_root (String.append "index=" (String.append index "/")).

Definition scope_of (p : Principal) : ReadScope :=
  if String.eqb (p_tenant p) EVERY_TENANT then whole
  else if negb (valid_ident (p_tenant p)) then []
  else
    let root := String.append "tenant=" (String.append (p_tenant p) "/") in
    match p_indexes p with
    | AllIndexes => [root]
    | Only l => List.map (index_root root) (List.filter valid_ident l)
    end.

Definition is_whole (s : ReadScope) : bool := existsb (String.eqb "") s.
Definition scope_allows (s : ReadScope) (key : string) : bool := existsb (fun root => starts_with root key) s.
Definition reaches (s : ReadScope) (dir_key : string) : bool :=
  existsb (fun root => starts_with root dir_key || starts_with dir_key root) s.

(** ** Temporary credentials *)

Record S3Credentials := mkS3Credentials {
  access_key_id : string; secret_access_key : string; session_token : string; expires_unix_secs : Z
}.
Record Sessions := mkSessions { session_key : bytes; persisted : bool }.

(** [Sessions::load_or_create]: what reading the key file gave, a fresh key,
    and whether it could be written; [None] is the instance running on a key
    held in memory. *)
Inductive KeyFile := KeyText (text : string) | KeyAbsent | KeyUnreadable.
Definition sessions_open (file : KeyFile) (fresh in_memory : bytes) (written : bool) : Sessions :=
  let made := if written then mkSessions fresh true else mkSessions in_memory false in
  match file with
  | KeyText text => match unhex32 text with Some k => mkSessions k true | None => made end
  | KeyAbsent => made
  | KeyUnreadable => mkSessions in_memory false
  end.

Definition to_upper_ascii (c : ascii) : ascii := to_upper c.
Definition newline : string := String (ascii_of_N 10) "".

Definition indexes_json (i : Indexes) : Json :=
  match i with AllIndexes => JArr [JStr "*"] | Only l => JArr (List.map JStr l) end.

Section Credentials.
Variable hmac_sha256 : bytes -> bytes -> bytes.     (* key, message *)
Variable to_string : Json -> string.
Variable from_slice : bytes -> option Json.

Definition hmac (key : bytes) (label data : string) : bytes :=
  hmac_sha256 key (str_bytes (String.append label (String.append newline data))).

Definition derive (s : Sessions) (payload : string) : string * string * string :=
  let access_key_id := String.append TEMP_KEY_PREFIX
        (str_map to_upper_ascii (hex (firstn 8 (hmac (session_key s) "logless-s3-access-key-v1" payload)))) in
  let secret := hex (hmac (session_key s) "logless-s3-secret-v1" payload) in
  let mac := b64 (hmac (session_key s) "logless-s3-session-v1" payload) in
  (access_key_id, secret, mac).

Definition session_claims (p : Principal) (expires : Z) : Json :=
  JObj [("sub", JStr (p_id p)); ("kind", JStr (kind_as_str (p_kind p))); ("tenant", JStr (p_tenant p));
        ("indexes", indexes_json (p_indexes p)); ("exp", JInt expires)].

Definition dotted (a b : string) : string := String.append a (String "." b).

Definition session_issue (s : Sessions) (p : Principal) (expires : Z) : S3Credentials :=
  let payload := b64 (str_bytes (to_string (session_claims p expires))) in
  let '(access, secret, mac) := derive s payload in
  mkS3Credentials access secret (dotted VERSION (dotted payload mac)) expires.

Definition session_verify (s : Sessions) (token : string) (now : Z) : Refusal + (Principal * (string * string)) :=
  if MAX_SESSION_TOKEN_LEN <? str_len token then inl Malformed
  else match split_char "." token with
  | [v; payload; mac] =>
      if negb (String.eqb v VERSION) then inl Malformed
      else match b64url mac with
      | None => inl Malformed
      | Some presented =>
          if negb (bool_decide (presented = hmac (session_key s) "logless-s3-session-v1" payload)) then inl Signature
          else match b64url payload ≫= from_slice with
          | None => inl BadClaims
          | Some claims =>
              let text name := opt_filter non_empty (get name claims ≫= as_str) in
              match text "sub", text "kind" ≫= kind_parse, text "tenant", get "exp" claims ≫= as_u64 with
              | Some sub, Some kind, Some tenant, Some exp =>
                  match (get "indexes" claims ≫= as_array) ≫= all_strings with
                  | None => inl BadClaims
                  | Some indexes =>
                      if exp <=? now then inl Expired
                      else
                        let '(access, secret, _) := derive s payload in
                        inr (mkPrincipal sub kind tenant (from_list indexes) [] [] Session (Some exp) (Some AtS3),
                             (access, secret))
                  end
              | _, _, _, _ => inl BadClaims
              end
          end
      end
  | _ => inl Malformed
  end.

(** [Verifier::issue_s3_credentials]: what the verifier keeps for it is its
    sessions and how long a credential lasts. *)
Definition issue_s3_credentials (sessions : option (Sessions * Z)) (p : Principal) (now : Z) : Refusal + S3Credentials :=
  match opt_filter (fun _ => bool_decide (p_source p = Token)) sessions with
  | None => inl UnknownKey
  | Some (s, ttl) =>
      let expires := Z.min (default u64_max (p_expires p)) (sat_add now ttl) in
      if expires <=? now then inl Expired else inr (session_issue s p expires)
  end.

Definition s3_session (sessions : option (Sessions * Z)) (token : string) (now : Z)
    : Refusal + (Principal * (string * string)) :=
  match sessions with Some (s, _) => session_verify s token now | None => inl UnknownKey end.

(** ** Facts *)

Definition no_dot (c : ascii) : bool := negb (Ascii.eqb "." c).

Lemma b64_no_dot bs : str_all no_dot (b64 bs) = true.
Proof.
  assert (forall s, forallb no_dot s = true -> str_all no_dot (string_of_list_ascii s) = true) as Hs.
  { induction s as [|c s IH]; [done|]. cbn [forallb string_of_list_ascii str_all].
    intros [Hc Hr]%andb_true_iff. by rewrite Hc, IH. }
  assert (forall n, no_dot (b64_char n) = true) as Hc.
  { intros n. unfold b64_char. destruct (String.get (Z.to_nat n) alphabet) as [c|] eqn:E; [|done].
    assert (forall s k c, str_all no_dot s = true -> String.get k s = Some c -> no_dot c = true) as Hg.
    { induction s as [|a s IHs]; intros [|k] x H Hx; cbn in *; try done.
      - injection Hx as <-. by apply andb_true_iff in H as [? _].
      - apply andb_true_iff in H as [_ H]. by eapply IHs. }
    by apply (Hg alphabet (Z.to_nat n)). }
  assert (forall chunk, str_all no_dot (b64_chunk chunk) = true) as Hk.
  { intros chunk. apply Hs. apply forallb_forall. intros c Hin. apply in_map_iff in Hin as (i & <- & _). apply Hc. }
  induction bs as [|a|a b|a b c r IH] using bytes_by_three; [done|apply Hk|apply Hk|].
  cbn [b64]. by rewrite str_all_app, Hk, IH.
Qed.

Lemma join_split_char c s : str_join (String c "") (split_char c s) = s.
Proof.
  unfold split_char. induction s as [|a s IH]; [done|]. cbn [split_on].
  assert (split_on (Ascii.eqb c) s <> []) as Hne.
  { destruct s as [|b s]; [done|]. cbn [split_on]. destruct (Ascii.eqb c b); [done|]. by destruct (split_on _ s). }
  destruct (split_on (Ascii.eqb c) s) as [|w l] eqn:El; [done|]. destruct (Ascii.eqb c a) eqn:E.
  - apply Ascii.eqb_eq in E as <-. cbn [str_join String.append] in *. by rewrite IH.
  - destruct l as [|w' l]; cbn [str_join String.append] in *; by rewrite IH.
Qed.

Lemma split_dotted a b : str_all no_dot a = true -> split_char "." (dotted a b) = a :: split_char "." b.
Proof. intros H. unfold split_char, dotted. by apply split_on_app. Qed.

Lemma split_three payload mac : str_all no_dot payload = true -> str_all no_dot mac = true ->
  split_char "." (dotted VERSION (dotted payload mac)) = [VERSION; payload; mac].
Proof. intros Hp Hm. rewrite !split_dotted by done. unfold split_char. by rewrite split_on_none. Qed.

Lemma from_list_json i : (forall l, i = Only l -> ~ In "*" l) ->
  from_list <$> (as_array (indexes_json i) ≫= all_strings) = Some i.
Proof.
  destruct i as [|l]; [done|]. intros H. cbn [indexes_json as_array]. rewrite bind_some, all_strings_map.
  cbn [fmap option_fmap option_map]. unfold from_list. destruct (existsb _ l) eqn:E; [|done].
  apply existsb_eqb in E. by destruct (H l eq_refl).
Qed.

Lemma non_empty_true s : s <> "" -> non_empty s = true.
Proof. intros H. unfold non_empty. by apply negb_true_iff, String.eqb_neq. Qed.

Lemma kind_text k : opt_filter non_empty (Some (kind_as_str k)) ≫= kind_parse = Some k.
Proof. by destruct k. Qed.

(** A temporary S3 credential is its principal's scope until it ends.
    Until then its session token is accepted, by the same key, for exactly the
    id, kind, tenant and indexes it was issued for and with the key pair it
    was issued with; from then on it is refused; and the credential ends no
    later than the broker token it was traded for and the configured life. *)
Theorem session_credentials s p ttl now c t :
  (forall e, u64_range e -> from_slice (str_bytes (to_string (session_claims p e))) = Some (session_claims p e)) ->
  p_id p <> "" -> p_tenant p <> "" -> (forall l, p_indexes p = Only l -> ~ In "*" l) ->
  0 <= now -> 0 <= ttl -> (forall e, p_expires p = Some e -> u64_range e) ->
  issue_s3_credentials (Some (s, ttl)) p now = inr c -> str_len (session_token c) <= MAX_SESSION_TOKEN_LEN ->
  now < expires_unix_secs c <= now + ttl /\
  (forall e, p_expires p = Some e -> expires_unix_secs c <= e) /\
  s3_session (Some (s, ttl)) (session_token c) t =
    if expires_unix_secs c <=? t then inl Expired
    else inr (mkPrincipal (p_id p) (p_kind p) (p_tenant p) (p_indexes p) [] [] Session
                (Some (expires_unix_secs c)) (Some AtS3),
              (access_key_id c, secret_access_key c)).
Proof.
  intros reread Hid Htn Hix Hnow Httl Hexp. unfold issue_s3_credentials.
  destruct (opt_filter _ _) as [[s' ttl']|] eqn:Es; [|done].
  assert ((s', ttl') = (s, ttl)) as [= -> ->].
  { unfold opt_filter in Es. destruct (bool_decide _); [|done]. congruence. }
  set (e := Z.min _ _). destruct (e <=? now) eqn:El; [done|]. zbool. intros [= <-] Hlen.
  assert (u64_range e) as He.
  { unfold e, sat_add, u64_range, u64_max in *. destruct (p_expires p) as [x|]; simpl in *; [specialize (Hexp x eq_refl)|]; lia. }
  set (payload := b64 (str_bytes (to_string (session_claims p e)))) in *.
  assert (session_issue s p e = let '(a, sec, mac) := derive s payload in
    mkS3Credentials a sec (dotted VERSION (dotted payload mac)) e) as Hi by done.
  rewrite Hi in Hlen |- *. clear Hi. unfold derive in Hlen |- *.
  cbn [access_key_id secret_access_key session_token expires_unix_secs] in Hlen |- *.
  split; [unfold e, sat_add in *; lia|]. split; [intros x Hx; unfold e; rewrite Hx; simpl; lia|].
  cbn [s3_session]. unfold session_verify. destruct (_ <? _) eqn:Eb; zbool; [lia|]. clear Eb.
  rewrite split_three by apply b64_no_dot. cbn [String.eqb Ascii.eqb Bool.eqb negb VERSION].
  rewrite (proj2 (b64url_canonical _ _) eq_refl), bool_decide_eq_true_2 by done. cbn [negb].
  assert (b64url payload ≫= from_slice = Some (session_claims p e)) as ->.
  { unfold payload. rewrite (proj2 (b64url_canonical _ _) eq_refl), bind_some. by apply reread. }
  unfold session_claims, get. cbn [as_object]. rewrite !bind_some. unfold field.
  cbn [List.find fst snd String.eqb Ascii.eqb Bool.eqb fmap option_fmap option_map].
  rewrite !bind_some. cbn [as_str as_u64]. unfold within.
  replace ((0 <=? e) && (e <=? u64_max)) with true by (symmetry; apply andb_true_iff; unfold u64_range in He; split; apply Z.leb_le; lia).
  rewrite kind_text. unfold opt_filter. rewrite !non_empty_true by done.
  pose proof (from_list_json (p_indexes p) Hix) as Hl.
  destruct (as_array (indexes_json (p_indexes p)) ≫= all_strings) as [l|]; [|done].
  cbn [fmap option_fmap option_map] in Hl. injection Hl as ->. by destruct (e <=? t).
Qed.

(** A token is its payload: the version and the signature are determined by
    it, so an accepted token was made with this key. *)
Theorem session_token_unique s token now p keys : session_verify s token now = inr (p, keys) ->
  exists payload, token = dotted VERSION (dotted payload (snd (derive s payload))) /\
    keys = fst (derive s payload) /\ exists exp, p_expires p = Some exp /\ now < exp.
Proof.
  unfold session_verify. destruct (_ <? _); [done|]. destruct (split_char "." token) as [|v [|payload [|mac [|? ?]]]] eqn:Es; try done.
  destruct (negb _) eqn:Ev; [done|]. apply negb_false_iff, String.eqb_eq in Ev.
  destruct (b64url mac) as [presented|] eqn:Em; [|done]. destruct (negb _) eqn:Eh; [done|].
  apply negb_false_iff, bool_decide_eq_true in Eh. apply b64url_canonical in Em.
  destruct (b64url payload ≫= from_slice) as [claims|]; [|done]. cbv zeta beta.
  destruct (opt_filter non_empty (get "sub" claims ≫= as_str)); [|done].
  destruct (opt_filter non_empty (get "kind" claims ≫= as_str) ≫= kind_parse); [|done].
  destruct (opt_filter non_empty (get "tenant" claims ≫= as_str)); [|done].
  destruct (get "exp" claims ≫= as_u64) as [exp|]; [|done].
  destruct ((get "indexes" claims ≫= as_array) ≫= all_strings); [|done].
  destruct (exp <=? now) eqn:Ex; [done|]. zbool. destruct (derive s payload) as [[a sec] m] eqn:Ed.
  intros [= <- <-]. exists payload. rewrite Ed. cbn [fst snd p_expires]. split; [|split; [done|by exists exp]].
  unfold derive in Ed. injection Ed as _ _ <-. rewrite <- Eh, <- Em, <- Ev.
  rewrite <- (join_split_char "." token), Es. done.
Qed.
End Credentials.

(** ** The scope is the tenant's part of the store *)

Definition no_slash (c : ascii) : bool := negb (Ascii.eqb "/" c).

Lemma ident_no_slash t : valid_ident t = true -> str_all no_slash t = true.
Proof.
  unfold valid_ident. intros H. apply andb_true_iff in H as [H _]. apply andb_true_iff in H as [_ H].
  eapply str_all_impl; [|exact H]. intros c. unfold no_slash. destruct c as [[] [] [] [] [] [] [] []]; vm_compute; done.
Qed.

Lemma starts_with_segment a b x y : str_all no_slash a = true -> str_all no_slash b = true ->
  starts_with (String.append a (String "/" x)) (String.append b (String "/" y)) = true <->
  a = b /\ starts_with x y = true.
Proof.
  unfold starts_with. revert b. induction a as [|c a IH]; intros [|d b] Ha Hb; cbn [String.append strip_prefix str_all] in *.
  - rewrite Ascii.eqb_refl. split; [done|by intros [_ ?]].
  - apply andb_true_iff in Hb as [Hd _]. unfold no_slash in Hd. apply negb_true_iff in Hd. rewrite Hd. split; [done|by intros [? _]].
  - apply andb_true_iff in Ha as [Hc _]. unfold no_slash in Hc. apply negb_true_iff in Hc.
    rewrite Ascii.eqb_sym, Hc. split; [done|by intros [? _]].
  - apply andb_true_iff in Ha as [_ Ha]. apply andb_true_iff in Hb as [_ Hb].
    destruct (Ascii.eqb_spec c d) as [->|Hne].
    + rewrite IH by done. split; [intros [-> ?]; done|intros [[= ->] ?]; done].
    + split; [done|]. intros [[= -> _] _]. done.
Qed.

Lemma starts_with_self p s : starts_with p (String.append p s) = true.
Proof. unfold starts_with. by rewrite strip_prefix_app. Qed.

Lemma starts_with_prefix p a b : starts_with (String.append p a) (String.append p b) = starts_with a b.
Proof. unfold starts_with. induction p as [|c p IH]; [done|]. cbn [String.append strip_prefix]. by rewrite Ascii.eqb_refl. Qed.

Lemma starts_with_nil s : starts_with "" s = true.
Proof. by destruct s. Qed.

(** The key of an object: the directories of its partition and its name. *)
Definition object_key (k : PartitionKey) (file : string) : string := str_join "/" (dir k [] ++ [file]).

Lemma object_key_eq k file : exists rest, object_key k file =
  String.append "tenant=" (String.append (tenant k) (String "/" (String.append "index=" (String.append (index k) (String "/" rest))))).
Proof.
  unfold object_key, dir, level_dir. cbn [app str_join]. eexists.
  rewrite !str_app_assoc. reflexivity.
Qed.

(** What a principal may read over S3 is its own tenant, and within it the
    indexes on its list: an object of a partition is in its scope exactly when
    the partition is of that tenant and of such an index, however names begin
    alike.  Only a reader of every tenant reads more. *)
Theorem scope_is_the_tenant p k file : key_ok k ->
  scope_allows (scope_of p) (object_key k file) = true <->
  p_tenant p = EVERY_TENANT \/ (p_tenant p = tenant k /\ allows (p_indexes p) (index k) = true).
Proof.
  intros (Ht & Hi & _). destruct (object_key_eq k file) as [rest ->]. unfold scope_of, scope_allows.
  assert (tenant k <> EVERY_TENANT) as Hne by (intros E; rewrite E in Ht; by vm_compute in Ht).
  destruct (String.eqb_spec (p_tenant p) EVERY_TENANT) as [E|E].
  { cbn [existsb whole]. rewrite starts_with_nil. split; [by left|done]. }
  destruct (valid_ident (p_tenant p)) eqn:Ev; cbn [negb].
  2:{ cbn [existsb]. split; [done|]. intros [?|[Heq _]]; [done|]. rewrite Heq, Ht in Ev. done. }
  set (tail := String.append "index=" _).
  assert (forall x, starts_with (String.append "tenant=" (String.append (p_tenant p) (String "/" x)))
    (String.append "tenant=" (String.append (tenant k) (String "/" tail))) = true <->
    p_tenant p = tenant k /\ starts_with x tail = true) as Hroot.
  { intros x. rewrite starts_with_prefix. by apply starts_with_segment; apply ident_no_slash. }
  destruct (p_indexes p) as [|l]; cbn [allows].
  - cbn [existsb]. rewrite orb_false_r, (Hroot ""), starts_with_nil. tauto.
  - rewrite existsb_exists, existsb_eqb. split.
    + intros (root & Hin & Hs). apply in_map_iff in Hin as (i & <- & Hin). apply filter_In in Hin as [Hin Hvi].
      unfold index_root in Hs. rewrite !str_app_assoc in Hs. cbn [String.append] in Hs.
      apply (Hroot (String.append "index=" (String.append i "/"))) in Hs as [Heq Hs]. right. split; [done|].
      unfold tail in Hs. rewrite starts_with_prefix in Hs.
      apply starts_with_segment in Hs as [-> _]; [done|by apply ident_no_slash..].
    + intros [?|[Heq Hin]]; [done|]. eexists. split.
      * apply in_map_iff. exists (index k). split; [reflexivity|]. by apply filter_In.
      * unfold index_root. rewrite !str_app_assoc. cbn [String.append].
        apply (Hroot (String.append "index=" (String.append (index k) "/"))). split; [done|].
        unfold tail. rewrite starts_with_prefix. apply starts_with_segment; [by apply ident_no_slash..|]. done.
Qed.

(** ** Witnesses *)

Definition sample_partition : PartitionKey := mkKey "beta" "audit" 489504 "error" "n1".

Lemma scope_is_the_tenant_witness :
  scope_allows (scope_of beta_edge) (object_key sample_partition "part-1.parquet") = true <->
  p_tenant beta_edge = EVERY_TENANT \/ (p_tenant beta_edge = "beta" /\ allows (p_indexes beta_edge) "audit" = true).
Proof.
  apply (scope_is_the_tenant beta_edge sample_partition). split; [reflexivity|]. split; [reflexivity|].
  split; [reflexivity|]. split; [discriminate|]. unfold u64_range, u64_max. simpl. lia.
Defined.

Definition sample_sessions : Sessions := mkSessions (repeat (to_byte 7) 32) true.
Definition sample_user : Principal :=
  mkPrincipal "u1" KUser "beta" (Only ["audit"]) [] [] Token (Some 2000) None.
(** A printer that writes the one number that varies in this user's
    documents, and its reader. *)
Definition sample_print (j : Json) : string :=
  match get "exp" j with Some (JInt e) => show_Z e | _ => "" end.
Definition sample_read (bs : bytes) : option Json :=
  session_claims sample_user <$> parse_digits (string_of_list_byte bs).
Definition sample_hmac (key message : bytes) : bytes := firstn 4 (rev message).

Lemma sample_reread e : u64_range e ->
  sample_read (str_bytes (sample_print (session_claims sample_user e))) = Some (session_claims sample_user e).
Proof.
  intros He. change (sample_print (session_claims sample_user e)) with (show_Z e).
  unfold sample_read, str_bytes. rewrite string_of_list_byte_of_string, parse_digits_show; [done|].
  unfold u64_range in He. lia.
Qed.

Definition sample_issued : S3Credentials :=
  session_issue sample_hmac sample_print sample_sessions sample_user 2000.

Lemma session_credentials_witness :
  1000 < expires_unix_secs sample_issued <= 1000 + 3600 /\
  s3_session sample_hmac sample_read (Some (sample_sessions, 3600)) (session_token sample_issued) 1500 =
    inr (mkPrincipal "u1" KUser "beta" (Only ["audit"]) [] [] Session (Some 2000) (Some AtS3),
         (access_key_id sample_issued, secret_access_key sample_issued)).
Proof.
  destruct (session_credentials sample_hmac sample_print sample_read sample_sessions sample_user 3600 1000 sample_issued 1500)
    as (H1 & _ & H3).
  - exact sample_reread.
  - discriminate.
  - discriminate.
  - intros l H. injection H as <-. intros [H|[]]. discriminate.
  - lia.
  - lia.
  - intros e H. injection H as <-. unfold u64_range, u64_max. lia.
  - vm_compute. reflexivity.
  - vm_compute. discriminate.
  - split; [exact H1|exact H3].
Defined.

Lemma session_token_unique_witness :
  exists payload, session_token sample_issued =
    dotted VERSION (dotted payload (snd (derive sample_hmac sample_sessions payload))).
Proof.
  destruct (session_token_unique sample_hmac sample_read sample_sessions (session_token sample_issued) 1500
    (mkPrincipal "u1" KUser "beta" (Only ["audit"]) [] [] Session (Some 2000) (Some AtS3))
    (access_key_id sample_issued, secret_access_key sample_issued)) as (payload & H & _).
  - vm_compute. reflexivity.
  - exists payload. exact H.
Defined.
