(* ===== verification/Provenance.v ===== *)
(** Where a record comes from and how far it has travelled
    ([crates/logless-core/src/peer.rs]: [provenance], [is_loop],
    [stamp_for_send]), and that no wiring of instances can make one travel
    for ever. *)

From S2P Require Import Prelude Text Model.
Open Scope string_scope.
Open Scope Z_scope.
Open Scope list_scope.

Definition MAX_HOPS : Z := 8.
Definition ATTR_ORIGIN : string := "logless.origin".
Definition ATTR_HOPS : string := "logless.hops".

(** A hops value: a whole number from 0 up, as an integer or in decimal. *)
Definition hops_value (v : AttrValue) : option Z :=
  match v with
  | AI64 n => within 0 u32_max (Some n)
  | AStr s => if negb (String.eqb s "") && str_all is_digit s then parse_uint u32_max s else None
  | _ => None
  end.

Fixpoint provenance_loop (attrs : list Attr) (origin : option string) (hops : option Z)
    : option (option string * Z) :=
  match attrs with
  | [] => Some (origin, default 0 hops)
  | a :: rest =>
      if String.eqb (attr_key a) ATTR_ORIGIN then
        match attr_value a with
        | AStr v =>
            if String.eqb v "" || bool_decide (is_Some origin) then None
            else provenance_loop rest (Some v) hops
        | _ => None
        end
      else if String.eqb (attr_key a) ATTR_HOPS then
        n ← hops_value (attr_value a);
        if bool_decide (is_Some hops) then None else provenance_loop rest origin (Some n)
      else provenance_loop rest origin hops
  end.

Definition provenance (record : LogRecord) : option (option string * Z) :=
  provenance_loop (attributes record) None None.

Definition is_loop (record : LogRecord) (own_instance : string) : bool :=
  match provenance record with
  | Some (origin, hops) => bool_decide (origin = Some own_instance) || (MAX_HOPS <=? hops)
  | None => true
  end.

Definition with_attributes (l : list Attr) (r : LogRecord) : LogRecord :=
  mkRecord (event_id r) (timestamp_unix_nano r) (observed_unix_nano r) (severity r) (severity_text r)
    (body r) (service r) (trace_id r) (span_id r) l (template_id r).

(** The origin and the hops a record is sent with. *)
Definition next_provenance (record : LogRecord) (own_instance : string) : string * Z :=
  match provenance record with
  | Some (origin, hops) => (default own_instance origin, Z.min (Z.min u32_max (hops + 1)) MAX_HOPS)
  | None => (own_instance, MAX_HOPS)
  end.

Definition is_provenance (a : Attr) : bool :=
  String.eqb (attr_key a) ATTR_HOPS || String.eqb (attr_key a) ATTR_ORIGIN.

Definition stamp_for_send (own_instance : string) (record : LogRecord) : LogRecord :=
  let '(origin, hops) := next_provenance record own_instance in
  with_attributes
    (List.filter (fun a => negb (is_provenance a)) (attributes record) ++
     [mkAttr ATTR_ORIGIN (AStr origin); mkAttr ATTR_HOPS (AI64 hops)]) record.

(** ** Reading *)

Lemma hops_value_range v n : hops_value v = Some n -> 0 <= n <= u32_max.
Proof.
  unfold hops_value. destruct v as [s|z|f|b]; try done.
  - case_match; [|done]. apply parse_uint_range.
  - unfold within. case_match eqn:E; [|done]. intros [= <-]. zbool. lia.
Qed.

Lemma provenance_loop_spec attrs : forall o h origin hops,
  (forall v, o = Some v -> v <> "") -> (forall n, h = Some n -> 0 <= n <= u32_max) ->
  provenance_loop attrs o h = Some (origin, hops) ->
  0 <= hops <= u32_max /\ (forall v, origin = Some v -> v <> "") /\ (forall v, o = Some v -> origin = Some v).
Proof.
  induction attrs as [|a attrs IH]; intros o h origin hops Ho Hh; cbn [provenance_loop].
  { intros [= <- <-]. split; [|done]. destruct h as [n|]; [by apply Hh|unfold u32_max; simpl; lia]. }
  destruct (String.eqb (attr_key a) ATTR_ORIGIN).
  { destruct (attr_value a) as [v| | |]; try done. case_match eqn:E; [done|].
    apply orb_false_iff in E as [Ev Eo]. apply bool_decide_eq_false in Eo.
    intros H. apply IH in H as (H1 & H2 & H3); [|intros ? [= <-]; by apply String.eqb_neq|done].
    split; [done|]. split; [done|]. intros ? ->. by destruct Eo. }
  destruct (String.eqb (attr_key a) ATTR_HOPS); [|by apply IH].
  destruct (hops_value (attr_value a)) as [n|] eqn:En; [|done]. rewrite bind_some. case_match; [done|].
  apply IH; [done|]. intros ? [= <-]. by eapply hops_value_range.
Qed.

Lemma provenance_spec r origin hops : provenance r = Some (origin, hops) ->
  0 <= hops <= u32_max /\ (forall v, origin = Some v -> v <> "").
Proof. intros H. by apply provenance_loop_spec in H as (? & ? & _). Qed.

Lemma provenance_loop_other attrs rest o h : Forall (fun a => is_provenance a = false) attrs ->
  provenance_loop (attrs ++ rest) o h = provenance_loop rest o h.
Proof.
  induction 1 as [|a attrs Ha _ IH]; [done|]. cbn [app provenance_loop].
  unfold is_provenance in Ha. apply orb_false_iff in Ha as [-> ->]. done.
Qed.

(** What the rest of the pipeline does to the other attributes is no concern
    of provenance. *)
Lemma provenance_loop_filter attrs : forall o h,
  provenance_loop (List.filter is_provenance attrs) o h = provenance_loop attrs o h.
Proof.
  induction attrs as [|a attrs IH]; intros o h; [done|]. cbn [List.filter].
  destruct (is_provenance a) eqn:E; unfold is_provenance in E; cbn [provenance_loop].
  - destruct (String.eqb (attr_key a) ATTR_ORIGIN).
    { destruct (attr_value a) as [v| | |]; try done. destruct (String.eqb v "" || _); [done|apply IH]. }
    destruct (String.eqb _ _); [|apply IH].
    destruct (hops_value _) as [n|]; [|done]. rewrite !bind_some. destruct (bool_decide _); [done|apply IH].
  - apply orb_false_iff in E as [-> ->]. apply IH.
Qed.

Lemma provenance_same_attrs r r' :
  List.filter is_provenance (attributes r) = List.filter is_provenance (attributes r') ->
  provenance r = provenance r'.
Proof.
  intros H. unfold provenance. rewrite <- (provenance_loop_filter (attributes r)), H.
  apply provenance_loop_filter.
Qed.

Lemma next_provenance_range r own : 1 <= snd (next_provenance r own) <= MAX_HOPS.
Proof.
  unfold next_provenance. destruct (provenance r) as [[o h]|] eqn:E; [|simpl; unfold MAX_HOPS; lia].
  apply provenance_spec in E as [? _]. simpl. unfold MAX_HOPS, u32_max in *. lia.
Qed.

(** What is stamped is read back, whatever the record carried before. *)
Lemma provenance_stamp own r : own <> "" ->
  provenance (stamp_for_send own r) = Some (Some (fst (next_provenance r own)), snd (next_provenance r own)).
Proof.
  intros Hown. pose proof (next_provenance_range r own) as Hr. unfold stamp_for_send.
  assert (fst (next_provenance r own) <> "") as Ho.
  { unfold next_provenance. destruct (provenance r) as [[[o|] h]|] eqn:E; try done.
    apply provenance_spec in E as [_ E]. by apply E. }
  destruct (next_provenance r own) as [o h]. simpl in *. unfold provenance. cbn [attributes with_attributes].
  rewrite provenance_loop_other.
  - simpl. rewrite (proj2 (String.eqb_neq o "")) by done. simpl.
    unfold within. replace ((0 <=? h) && (h <=? u32_max)) with true; [done|].
    symmetry. unfold MAX_HOPS, u32_max in *. apply andb_true_iff. split; apply Z.leb_le; lia.
  - apply List.Forall_forall. intros a [_ Ha]%filter_In. by destruct (is_provenance a).
Qed.

Lemma stamp_others own r :
  List.filter (fun a => negb (is_provenance a)) (attributes (stamp_for_send own r)) =
  List.filter (fun a => negb (is_provenance a)) (attributes r).
Proof.
  unfold stamp_for_send. destruct (next_provenance r own) as [o h]. cbn [attributes with_attributes].
  rewrite List.filter_app. simpl. rewrite app_nil_r.
  induction (attributes r) as [|a l IH]; [done|]. simpl.
  destruct (is_provenance a) eqn:E; simpl; [done|]. by rewrite E, IH.
Qed.

(** ** Journeys

    Instances pass a record on: the sender leaves out what is a loop to it and
    stamps the rest, the receiver leaves out what is a loop to it.  What an
    instance does with a record between the two ([work]) may be anything that
    keeps the provenance. *)

Section Journey.
Variable work : string -> LogRecord -> LogRecord.
Hypothesis work_provenance : forall own r, provenance (work own r) = provenance r.

Definition pass (from to : string) (r : LogRecord) : option LogRecord :=
  if is_loop r from then None
  else let r' := stamp_for_send from r in
       if is_loop r' to then None else Some (work to r').

Fixpoint travel (from : string) (r : LogRecord) (path : list string) : option LogRecord :=
  match path with
  | [] => Some r
  | to :: rest => r' ← pass from to r; travel to r' rest
  end.

Lemma pass_provenance from to r r' : from <> "" -> pass from to r = Some r' ->
  exists origin hops, provenance r = Some (origin, hops) /\ origin <> Some from /\ hops + 1 < MAX_HOPS /\
    0 <= hops /\ provenance r' = Some (Some (default from origin), hops + 1) /\ default from origin <> to.
Proof.
  intros Hf. unfold pass. destruct (is_loop r from) eqn:El; [done|].
  destruct (is_loop (stamp_for_send from r) to) eqn:Er; [done|]. intros [= <-].
  unfold is_loop in El. destruct (provenance r) as [[origin hops]|] eqn:E; [|done].
  pose proof (provenance_spec _ _ _ E) as [Hh _].
  apply orb_false_iff in El as [Ho Hm]. apply bool_decide_eq_false in Ho. zbool.
  unfold is_loop in Er. rewrite provenance_stamp in Er by done. rewrite work_provenance, provenance_stamp by done.
  unfold next_provenance in *. rewrite E in *. simpl in *.
  apply orb_false_iff in Er as [Ho' Hm']. apply bool_decide_eq_false in Ho'. zbool.
  assert (Z.min (Z.min u32_max (hops + 1)) MAX_HOPS = hops + 1) as Hn by (unfold MAX_HOPS, u32_max in *; lia).
  rewrite Hn in *. exists origin, hops. split; [done|]. split; [done|]. split; [lia|]. split; [lia|].
  split; [done|]. congruence.
Qed.

(** C28: No wiring of instances makes a record travel for ever: whatever path
    it takes and whatever provenance it started with, it is accepted fewer
    than [MAX_HOPS] times, never by the instance it first came from, and
    arrives with that instance's name and the exact number of its hops. *)
Theorem journeys_end path : forall from r r',
  from <> "" -> Forall (fun n => n <> "") path -> path <> [] -> travel from r path = Some r' ->
  exists origin hops, provenance r = Some (origin, hops) /\
    hops + Z.of_nat (List.length path) < MAX_HOPS /\
    ~ In (default from origin) path /\
    provenance r' = Some (Some (default from origin), hops + Z.of_nat (List.length path)).
Proof.
  induction path as [|to path IH]; intros from r r' Hf Hp Hne Ht; [done|].
  apply Forall_cons in Hp as [Hto Hp]. cbn [travel] in Ht. bind_inv Ht r1 E.
  apply pass_provenance in E as (origin & hops & E & Ho & Hh & H0 & Er & Hne'); [|done].
  exists origin, hops. split; [done|]. destruct path as [|to' path'].
  { injection Ht as <-. simpl. split; [lia|]. split; [by intros [?|[]]|]. by rewrite Er. }
  apply IH in Ht as (o & h & E1 & Hlt & Hin & Hr'); [|done..].
  rewrite Er in E1. injection E1 as <- <-. change (default to (Some (default from origin))) with (default from origin) in *.
  cbn [List.length] in *. split; [lia|]. split; [intros [?|?]; congruence|].
  rewrite Hr'. do 2 f_equal. lia.
Qed.

(** A record whose provenance does not parse goes nowhere. *)
Lemma forged_goes_nowhere from to r rest : provenance r = None -> travel from r (to :: rest) = None.
Proof. intros H. cbn [travel]. unfold pass, is_loop. by rewrite H. Qed.
End Journey.

Definition travelled : LogRecord :=
  with_attributes [mkAttr "k" (AStr "v"); mkAttr ATTR_HOPS (AStr "3")] (new_record [] 1 9 "x").

Lemma journeys_end_witness :
  exists r', travel (fun _ r => r) "a" travelled ["b"; "c"; "b"; "d"] = Some r' /\
    exists origin hops, provenance travelled = Some (origin, hops) /\
      hops + 4 < MAX_HOPS /\ ~ In (default "a" origin) ["b"; "c"; "b"; "d"] /\
      provenance r' = Some (Some (default "a" origin), hops + 4).
Proof.
  destruct (travel (fun _ r => r) "a" travelled ["b"; "c"; "b"; "d"]) as [r'|] eqn:E; [|vm_compute in E; discriminate].
  exists r'. split; [reflexivity|].
  apply (journeys_end (fun _ r => r) (fun _ r => eq_refl) ["b"; "c"; "b"; "d"] "a" travelled r'); [done| |done|exact E].
  repeat (apply Forall_cons_2; [done|]). apply Forall_nil_2.
Defined.

Example ring_stops : travel (fun _ r => r) "a" (new_record [] 1 9 "x") ["b"; "c"; "a"] = None.
Proof. reflexivity. Qed.
Example eighth_hop_refused :
  travel (fun _ r => r) "a" (new_record [] 1 9 "x") ["b"; "c"; "b"; "c"; "b"; "c"; "b"; "c"] = None.
Proof. reflexivity. Qed.
