(* ===== verification/Dedupe.v ===== *)
(** The receiver's window of recently accepted event ids and the log that
    carries it over a restart ([crates/logless-core/src/peer.rs],
    [DedupeWindow]).

    The log is one file of 16-byte ids.  A file is the bytes a power loss
    keeps and the ones it may cut ([durable], [unsynced]); the calls that can
    fail say how they ended. *)

From S2P Require Import Prelude.
Open Scope nat_scope.
Open Scope list_scope.

Abbreviation Id := bytes.
Definition id_ok (i : Id) : Prop := List.length i = 16.

Record IdLog := mkLog { log_ids : nat; detached : bool }.

(** [DedupeWindow] and [WindowState]. *)
Record Window := mkWindow {
  capacity : nat; members : gset Id; order : list Id; log : option IdLog
}.

Record File := mkFile { durable : bytes; unsynced : bytes }.
Definition content (f : File) : bytes := durable f ++ unsynced f.

Definition window_new (cap : nat) : Window := mkWindow (Nat.max cap 1) ∅ [] None.

(** The [while] loop at the end of [remember]. *)
Fixpoint forget_old (cap : nat) (s : gset Id) (l : list Id) : gset Id * list Id :=
  match l with
  | [] => (s, [])
  | old :: rest => if cap <? List.length l then forget_old cap (s ∖ {[old]}) rest else (s, l)
  end.

Definition remember (id : Id) (w : Window) : bool * Window :=
  if bool_decide (id ∈ members w) then (false, w)
  else
    let '(s, l) := forget_old (capacity w) ({[id]} ∪ members w) (order w ++ [id]) in
    (true, mkWindow (capacity w) s l (log w)).

Definition contains (id : Id) (w : Window) : bool := bool_decide (id ∈ members w).
Definition window_len (w : Window) : nat := List.length (order w).

(** [chunks_exact(16)]. *)
Fixpoint chunks (n : nat) (bs : bytes) : list Id :=
  match n with
  | O => []
  | S n' => firstn 16 bs :: chunks n' (skipn 16 bs)
  end.

Definition set_log (l : option IdLog) (w : Window) : Window := mkWindow (capacity w) (members w) (order w) l.

(** [open]: the torn tail is cut off the file. *)
Definition window_open (cap : nat) (bs : bytes) : Window * File :=
  let w := window_new cap in
  let ids := List.length bs / 16 in
  let whole := firstn (ids * 16) bs in
  let w := foldl (fun w id => snd (remember id w)) w (skipn (ids - capacity w) (chunks ids whole)) in
  (set_log (Some (mkLog ids false)) w, mkFile whole []).

(** How the calls of one [insert_all] ended: [write_all] may stop after some
    bytes, [sync_data] may fail, and so may the rewriting of the log, before
    the rename or at the reopening after it. *)
Inductive WriteEnd := Written | WrittenShort (n : nat).
Inductive CompactEnd := Compacted | CompactFailed | ReopenFailed.
Record Ends := mkEnds { write_end : WriteEnd; synced_end : bool; compact_end : CompactEnd }.
Definition all_well : Ends := mkEnds Written true Compacted.

(** The ids that are new, in order, and the window that has them. *)
Fixpoint remember_all (ids : list Id) (w : Window) : list Id * Window :=
  match ids with
  | [] => ([], w)
  | id :: rest =>
      let '(new, w) := remember id w in
      let '(fresh, w) := remember_all rest w in
      (if new then id :: fresh else fresh, w)
  end.

Definition compact (e : CompactEnd) (l : IdLog) (w : Window) (f : File) : bool * Window * File :=
  match e with
  | CompactFailed => (false, w, f)
  | ReopenFailed => (false, set_log (Some (mkLog (log_ids l) true)) w, mkFile (List.concat (order w)) [])
  | Compacted => (true, set_log (Some (mkLog (List.length (order w)) false)) w, mkFile (List.concat (order w)) [])
  end.

Definition append_to (l : IdLog) (bs : bytes) (f : File) : File :=
  if detached l then f else mkFile (durable f) (unsynced f ++ bs).
Definition sync_file (l : IdLog) (f : File) : File :=
  if detached l then f else mkFile (content f) [].

(** [insert_all]: whether it returned [Ok], the window and the file after. *)
Definition insert_all (ids : list Id) (e : Ends) (w : Window) (f : File) : bool * Window * File :=
  let '(fresh, w) := remember_all ids w in
  match log w with
  | None => (true, w, f)
  | Some l =>
      let bs := List.concat fresh in
      match fresh with
      | [] => (true, w, f)
      | _ =>
          match write_end e with
          | WrittenShort n => (false, w, append_to l (firstn n bs) f)
          | Written =>
              let f := append_to l bs f in
              if negb (synced_end e) then (false, w, f)
              else
                let f := sync_file l f in
                let l := mkLog (log_ids l + List.length bs / 16) (detached l) in
                let w := set_log (Some l) w in
                if capacity w * 2 <? log_ids l then compact (compact_end e) l w f else (true, w, f)
          end
      end
  end.

(** A power loss keeps a prefix of what was not synced. *)
Definition power_loss (keep : nat) (f : File) : bytes := durable f ++ firstn keep (unsynced f).

(** ** The window in memory *)

Definition lastn {A} (n : nat) (l : list A) : list A := skipn (List.length l - n) l.

Lemma lastn_length {A} n (l : list A) : List.length (lastn n l) = Nat.min n (List.length l).
Proof. unfold lastn. rewrite length_skipn. lia. Qed.

Lemma lastn_all {A} n (l : list A) : List.length l <= n -> lastn n l = l.
Proof. intros H. unfold lastn. by replace (List.length l - n) with 0 by lia. Qed.

Lemma lastn_snoc {A} n (l : list A) x : 1 <= n -> lastn n (lastn n l ++ [x]) = lastn n (l ++ [x]).
Proof.
  intros Hn. unfold lastn. rewrite !length_app, length_skipn. cbn [List.length].
  destruct (decide (List.length l <= n)) as [H|H].
  - replace (List.length l - n) with 0 by lia. rewrite skipn_O. do 2 f_equal. lia.
  - rewrite !skipn_app, skipn_skipn, length_skipn. f_equal; [f_equal; lia|]. f_equal; lia.
Qed.

Lemma lastn_lastn {A} n (l : list A) : lastn n (lastn n l) = lastn n l.
Proof. apply lastn_all. rewrite lastn_length. lia. Qed.

Record WInv (w : Window) : Prop := {
  wi_cap : 1 <= capacity w;
  wi_nodup : base.NoDup (order w);
  wi_set : members w = list_to_set (order w);
  wi_len : List.length (order w) <= capacity w
}.

Lemma window_new_inv cap : WInv (window_new cap).
Proof. constructor; simpl; [lia|constructor|done|lia]. Qed.

Lemma forget_old_spec cap l : base.NoDup l -> forget_old cap (list_to_set l) l = (list_to_set (lastn cap l), lastn cap l).
Proof.
  induction l as [|old rest IH]; intros Hd; [done|]. cbn [forget_old].
  destruct (Nat.ltb_spec cap (List.length (old :: rest))) as [H|H].
  - apply NoDup_cons in Hd as [Ho Hd]. replace (list_to_set (old :: rest) ∖ {[old]} : gset Id) with (list_to_set rest : gset Id).
    + rewrite IH by done. unfold lastn. cbn [List.length] in *.
      replace (S (List.length rest) - cap) with (S (List.length rest - cap)) by lia. done.
    + apply set_eq. intros x. rewrite elem_of_difference, !elem_of_list_to_set, elem_of_singleton, elem_of_cons.
      split; [|tauto]. intros Hx. split; [by right|]. intros ->. done.
  - by rewrite lastn_all.
Qed.

Lemma NoDup_lastn {A} n (l : list A) : base.NoDup l -> base.NoDup (lastn n l).
Proof. unfold lastn. intros H. rewrite <- (firstn_skipn (List.length l - n) l) in H. by apply NoDup_app in H as (_ & _ & ?). Qed.

(** Remembering is keeping the last [capacity] distinct ids. *)
Lemma remember_spec id w : WInv w ->
  remember id w = if bool_decide (id ∈ order w) then (false, w)
    else (true, mkWindow (capacity w) (list_to_set (lastn (capacity w) (order w ++ [id])))
                  (lastn (capacity w) (order w ++ [id])) (log w)).
Proof.
  intros [Hc Hd Hs Hl]. unfold remember. rewrite Hs.
  destruct (decide (id ∈ order w)) as [Hin|Hin].
  - rewrite !bool_decide_eq_true_2; [done|done|by apply elem_of_list_to_set].
  - rewrite !bool_decide_eq_false_2; [|done|by rewrite elem_of_list_to_set].
    replace ({[id]} ∪ list_to_set (order w) : gset Id) with (list_to_set (order w ++ [id]) : gset Id)
      by (rewrite list_to_set_app_L; simpl; set_solver).
    rewrite forget_old_spec; [done|]. apply NoDup_app. split; [done|]. split; [|apply NoDup_singleton].
    intros x Hx Hx'. apply list_elem_of_singleton in Hx' as ->. done.
Qed.

Lemma remember_inv id w : WInv w -> WInv (snd (remember id w)).
Proof.
  intros H. rewrite remember_spec by done. case_bool_decide as E; [done|]. cbn [snd]. destruct H as [Hc Hd Hs Hl].
  constructor; cbn [capacity order members]; [done| |done|rewrite lastn_length; lia].
  apply NoDup_lastn, NoDup_app. split; [done|]. split; [|apply NoDup_singleton].
  intros x Hx Hx'. apply list_elem_of_singleton in Hx' as ->. done.
Qed.

(** ** The abstract window: the last [cap] distinct ids *)

Definition keep_id (cap : nat) (l : list Id) (id : Id) : list Id :=
  if bool_decide (id ∈ l) then l else lastn cap (l ++ [id]).
Definition keep_ids (cap : nat) (ids : list Id) (l : list Id) : list Id := foldl (keep_id cap) l ids.

Lemma remember_all_spec ids : forall w fresh w', WInv w -> remember_all ids w = (fresh, w') ->
  WInv w' /\ capacity w' = capacity w /\ log w' = log w /\ order w' = keep_ids (capacity w) ids (order w) /\
  order w' = lastn (capacity w) (order w ++ fresh) /\ (forall id, id ∈ fresh -> id ∈ ids) /\
  (forall n, exists m, lastn (capacity w) (order w ++ firstn n fresh) = keep_ids (capacity w) (firstn m ids) (order w)).
Proof.
  induction ids as [|id ids IH]; intros w fresh w' Hw H; cbn [remember_all] in H.
  { injection H as <- <-. split; [done|]. split; [done|]. split; [done|]. split; [done|]. split; [|split; [done|]].
    - rewrite app_nil_r, lastn_all; [done|apply Hw].
    - intros n. exists 0. rewrite firstn_nil, app_nil_r, lastn_all; [done|apply Hw]. }
  pose proof (remember_inv id w Hw) as Hw1. rewrite remember_spec in H, Hw1 by done.
  case_bool_decide as Hin; cbn [snd] in Hw1; destruct (remember_all ids _) as [fr w2] eqn:E; injection H as <- <-.
  - apply IH in E as (H1 & H2 & H3 & H4 & H5 & H6 & H7); [|done].
    split; [done|]. split; [done|]. split; [done|]. unfold keep_ids in *. cbn [foldl]. unfold keep_id at 2.
    rewrite bool_decide_eq_true_2 by done. split; [done|]. split; [done|]. split; [intros x Hx; apply list_elem_of_further; by apply H6|].
    intros n. destruct (H7 n) as [m Hm]. exists (S m). cbn [firstn foldl]. unfold keep_id at 2.
    by rewrite bool_decide_eq_true_2 by done.
  - apply IH in E as (H1 & H2 & H3 & H4 & H5 & H6 & H7); [|done]. cbn [capacity order log] in *.
    split; [done|]. split; [done|]. split; [done|]. unfold keep_ids in *. cbn [foldl]. unfold keep_id at 2.
    rewrite bool_decide_eq_false_2 by done. pose proof (wi_cap _ Hw) as Hc.
    assert (forall l, lastn (capacity w) (lastn (capacity w) (order w ++ [id]) ++ l) = lastn (capacity w) (order w ++ id :: l)) as Hl.
    { intros l. change (id :: l) with ([id] ++ l). rewrite app_assoc. generalize (order w ++ [id]). intros k.
      unfold lastn. rewrite !length_app, !skipn_app, !length_skipn, skipn_skipn. f_equal; f_equal; lia. }
    split; [done|]. split; [by rewrite H5, Hl|]. split.
    { intros x. rewrite !elem_of_cons. intros [->|Hx]; [by left|right; by apply H6]. }
    intros [|n].
    + exists 0. cbn [firstn foldl]. rewrite app_nil_r, lastn_all; [done|apply Hw].
    + destruct (H7 n) as [m Hm]. exists (S m). cbn [firstn foldl]. unfold keep_id at 2.
      rewrite bool_decide_eq_false_2, <- Hm by done. by rewrite Hl.
Qed.

(** ** Reading the log back *)

Lemma concat_ids_length (l : list Id) : Forall id_ok l -> List.length (List.concat l) = 16 * List.length l.
Proof. induction 1 as [|i l Hi _ IH]; [done|]. cbn [List.concat List.length]. rewrite length_app, IH, Hi. lia. Qed.

Lemma chunks_concat l rest : Forall id_ok l -> chunks (List.length l) (List.concat l ++ rest) = l.
Proof.
  induction 1 as [|i l Hi _ IH]; [done|]. cbn [List.concat List.length chunks]. rewrite <- app_assoc.
  rewrite firstn_app, skipn_app, Hi. cbn [Nat.sub]. rewrite firstn_O, skipn_O, app_nil_r.
  rewrite firstn_all2, skipn_all2 by (rewrite Hi; lia). cbn [app]. by rewrite IH.
Qed.

Lemma fold_remember l : forall w, WInv w -> base.NoDup (order w ++ l) -> List.length (order w ++ l) <= capacity w ->
  let w' := foldl (fun w id => snd (remember id w)) w l in
  WInv w' /\ order w' = order w ++ l /\ capacity w' = capacity w /\ log w' = log w.
Proof.
  induction l as [|id l IH]; intros w Hw Hd Hlen; cbn [foldl]; [by rewrite app_nil_r|].
  pose proof (remember_inv id w Hw) as Hw1. rewrite remember_spec in Hw1 |- * by done.
  assert (id ∉ order w) as Hn.
  { apply NoDup_app in Hd as (_ & Hd & _). intros Hin. apply (Hd id Hin). by left. }
  rewrite bool_decide_eq_false_2 in Hw1 |- * by done. cbn [snd] in *.
  assert (lastn (capacity w) (order w ++ [id]) = order w ++ [id]) as El.
  { apply lastn_all. rewrite length_app in *. cbn [List.length] in *. lia. }
  rewrite El in Hw1 |- *. destruct (IH _ Hw1) as (H1 & H2 & H3 & H4); cbn [order capacity log] in *.
  - by rewrite <- app_assoc.
  - by rewrite <- app_assoc.
  - by rewrite H2, <- app_assoc.
Qed.

(** A log of whole ids and a torn tail is its last [cap] ids. *)
Lemma open_spec cap l tail : 1 <= cap -> Forall id_ok l -> List.length tail < 16 -> base.NoDup (lastn cap l) ->
  exists w, window_open cap (List.concat l ++ tail) = (w, mkFile (List.concat l) []) /\
    WInv w /\ order w = lastn cap l /\ capacity w = cap /\ log w = Some (mkLog (List.length l) false).
Proof.
  intros Hc Hl Ht Hd. unfold window_open. rewrite length_app, concat_ids_length by done.
  replace ((16 * List.length l + List.length tail) / 16) with (List.length l).
  2:{ apply (Nat.div_unique _ _ _ (List.length tail)); lia. }
  assert (firstn (List.length l * 16) (List.concat l ++ tail) = List.concat l) as ->.
  { rewrite firstn_app, concat_ids_length by done. replace (List.length l * 16 - 16 * List.length l) with 0 by lia.
    rewrite firstn_O, app_nil_r, firstn_all2; [done|]. rewrite concat_ids_length by done. lia. }
  pose proof (chunks_concat l [] Hl) as Hch. rewrite app_nil_r in Hch. rewrite Hch.
  assert (capacity (window_new cap) = cap) as Hcap by (simpl; lia). rewrite Hcap.
  change (skipn (List.length l - cap) l) with (lastn cap l).
  destruct (fold_remember (lastn cap l) (window_new cap)) as (H1 & H2 & H3 & H4);
    [apply window_new_inv|done|simpl; rewrite lastn_length; lia|].
  eexists. split; [reflexivity|]. split; [by constructor; destruct H1|]. cbn [order capacity log set_log].
  split; [done|]. split; [by rewrite H3|done].
Qed.

(** ** The log holds the window *)

Record Holds (w : Window) (f : File) (l : list Id) : Prop := {
  ho_inv : WInv w;
  ho_file : f = mkFile (List.concat l) [];
  ho_ids : Forall id_ok l;
  ho_order : order w = lastn (capacity w) l;
  ho_log : log w = Some (mkLog (List.length l) false)
}.

Lemma keep_ids_firstn_ok cap w : 1 <= cap -> WInv w -> capacity w = cap -> forall ids,
  base.NoDup (keep_ids cap ids (order w)) /\ List.length (keep_ids cap ids (order w)) <= cap.
Proof.
  intros Hc Hw Hcap ids. destruct (remember_all ids w) as [fr w'] eqn:E.
  apply remember_all_spec in E as (H1 & H2 & _ & H4 & _); [|done]. rewrite <- Hcap, <- H4.
  split; [apply H1|]. rewrite <- H2. apply H1.
Qed.

(** An end that loses nothing: written and synced; the rewriting may have
    failed before its rename. *)
Definition gentle (e : Ends) : bool :=
  match write_end e, compact_end e with
  | Written, (Compacted | CompactFailed) => synced_end e
  | _, _ => false
  end.

Lemma insert_holds ids e w f l ok w' f' : Holds w f l -> Forall id_ok ids -> gentle e = true ->
  insert_all ids e w f = (ok, w', f') ->
  capacity w' = capacity w /\ order w' = keep_ids (capacity w) ids (order w) /\ exists l', Holds w' f' l' /\
    (compact_end e = Compacted -> List.length l <= capacity w * 2 -> List.length l' <= capacity w * 2).
Proof.
  intros [Hw Hf Hids Ho Hlog] Hok He. unfold insert_all.
  destruct (remember_all ids w) as [fresh w1] eqn:E.
  apply remember_all_spec in E as (H1 & H2 & H3 & H4 & H5 & H6 & _); [|done]. rewrite H3, Hlog.
  assert (Forall id_ok fresh) as Hfr.
  { apply Forall_forall. intros x Hx. rewrite Forall_forall in Hok. by apply Hok, H6. }
  assert (forall d, Holds (set_log (Some (mkLog (List.length (l ++ fresh)) d)) w1) (mkFile (List.concat (l ++ fresh)) []) (l ++ fresh) \/ d = true) as Hnew.
  { intros [|]; [by right|left]. constructor; cbn [order capacity log set_log].
    - constructor; apply H1.
    - done.
    - by apply Forall_app_2.
    - rewrite H2, H5, Ho. unfold lastn. rewrite !length_app, !skipn_app, !length_skipn, skipn_skipn. f_equal; f_equal; lia.
    - done. }
  destruct fresh as [|i0 fresh0] eqn:Efr.
  { intros [= <- <- <-]. split; [done|]. split; [done|]. exists l. split; [|done].
    rewrite app_nil_r in H5. constructor; [done|done|done| |by rewrite H3].
    by rewrite H2, H5, lastn_all by apply Hw. }
  rewrite <- Efr in *. clear Efr i0 fresh0. unfold gentle in He.
  destruct (write_end e); [|done]. destruct (compact_end e) eqn:Ec; try done.
  all: rewrite He; cbn [negb]; unfold append_to, sync_file, content; cbn [detached durable unsynced log_ids];
    rewrite Hf; cbn [durable unsynced app]; rewrite <- concat_app, concat_ids_length by done;
    replace (16 * List.length fresh / 16) with (List.length fresh) by (rewrite Nat.mul_comm, Nat.div_mul; lia);
    rewrite <- length_app; cbn [capacity set_log]; rewrite H2.
  all: destruct (Hnew false) as [Hn|]; [|done].
  all: destruct (Nat.ltb_spec (capacity w * 2) (List.length (l ++ fresh))) as [Hb|Hb].
  - intros [= <- <- <-]. split; [done|]. split; [done|]. exists (order w1). split.
    + constructor; cbn [order capacity log set_log]; [by constructor; apply H1|done| | |done].
      * destruct Hn as [_ _ Hn1 Hn2 _]. cbn [order capacity set_log] in Hn2. rewrite Hn2. unfold lastn. by apply Forall_drop.
      * rewrite lastn_all; [done|apply H1].
    + intros _ _. pose proof (wi_len _ H1). lia.
  - intros [= <- <- <-]. split; [done|]. split; [done|]. by exists (l ++ fresh).
  - intros [= <- <- <-]. split; [done|]. split; [done|]. by exists (l ++ fresh).
  - intros [= <- <- <-]. split; [done|]. split; [done|]. by exists (l ++ fresh).
Qed.

(** ** Runs: saves, restarts, and power losses in the middle of a save *)

Inductive Event := Save (ids : list Id) (e : Ends) | Restart | CutSave (ids : list Id) (keep : nat).

Definition event (s : Window * File) (v : Event) : Window * File :=
  let '(w, f) := s in
  match v with
  | Save ids e => let '(_, w, f) := insert_all ids e w f in (w, f)
  | Restart => window_open (capacity w) (content f)
  | CutSave ids keep =>
      let bs := List.concat (fst (remember_all ids w)) in
      window_open (capacity w) (power_loss keep (mkFile (durable f) (unsynced f ++ bs)))
  end.

(** What an event means for the abstract window. *)
Definition meaning (cap : nat) (v : Event) (a b : list Id) : Prop :=
  match v with
  | Save ids _ => b = keep_ids cap ids a
  | Restart => b = a
  | CutSave ids _ => exists n, b = keep_ids cap (firstn n ids) a
  end.

Inductive means (cap : nat) : list Event -> list Id -> list Id -> Prop :=
| means_nil a : means cap [] a a
| means_cons v vs a b c : meaning cap v a b -> means cap vs b c -> means cap (v :: vs) a c.

Definition event_ok (v : Event) : Prop :=
  match v with
  | Save ids e => Forall id_ok ids /\ gentle e = true
  | Restart => True
  | CutSave ids _ => Forall id_ok ids
  end.

Lemma cut_concat keep (l : list Id) : Forall id_ok l -> exists n tail,
  firstn keep (List.concat l) = List.concat (firstn n l) ++ tail /\ List.length tail < 16.
Proof.
  intros Hl. revert keep. induction Hl as [|i l Hi _ IH]; intros keep.
  { exists 0, []. rewrite firstn_nil. split; [done|simpl; lia]. }
  cbn [List.concat]. rewrite firstn_app, Hi. destruct (decide (keep < 16)) as [H|H].
  - exists 0, (firstn keep i). replace (keep - 16) with 0 by lia. rewrite firstn_O, app_nil_r. split; [done|].
    rewrite length_firstn. lia.
  - destruct (IH (keep - 16)) as (n & tail & E & Ht). exists (S n), tail. rewrite E. cbn [firstn List.concat].
    rewrite firstn_all2 by (rewrite Hi; lia). by rewrite app_assoc.
Qed.

Lemma event_holds cap w f l v w' f' : Holds w f l -> capacity w = cap -> event_ok v -> event (w, f) v = (w', f') ->
  capacity w' = cap /\ meaning cap v (order w) (order w') /\ exists l', Holds w' f' l'.
Proof.
  intros Hh Hcap Hv. pose proof Hh as [Hw Hf Hids Ho Hlog]. pose proof (wi_cap _ Hw) as Hc1. rewrite Hcap in Hc1.
  destruct v as [ids e| |ids keep]; cbn [event event_ok meaning] in *.
  - destruct Hv as [Hi He]. destruct (insert_all ids e w f) as [[ok w1] f1] eqn:E. intros [= <- <-].
    eapply insert_holds in E as (H1 & H2 & l' & H3 & _); [|done..]. rewrite Hcap in *.
    split; [done|]. split; [done|by exists l'].
  - rewrite Hcap, Hf. unfold content. cbn [durable unsynced].
    destruct (open_spec cap l []) as (w1 & E & H1 & H2 & H3 & H4); [done|done|simpl; lia| |].
    { rewrite <- Hcap, <- Ho. apply Hw. }
    rewrite E. intros [= <- <-]. split; [done|]. rewrite H2, Ho, Hcap. split; [done|]. exists l.
    constructor; [done|done|done|by rewrite H3|done].
  - destruct (remember_all ids w) as [fresh w1] eqn:E. cbn [fst].
    apply remember_all_spec in E as (H1 & H2 & _ & _ & _ & H6 & H7); [|done].
    assert (Forall id_ok fresh) as Hfr.
    { apply Forall_forall. intros x Hx. rewrite Forall_forall in Hv. by apply Hv, H6. }
    unfold power_loss. rewrite Hf. cbn [durable unsynced app].
    destruct (cut_concat keep fresh Hfr) as (n & tail & Ec & Ht). rewrite Ec, app_assoc, <- concat_app, Hcap.
    destruct (H7 n) as [m Hm]. rewrite Hcap in Hm.
    assert (lastn cap (l ++ firstn n fresh) = keep_ids cap (firstn m ids) (order w)) as Hl.
    { rewrite <- Hm, Ho, Hcap. unfold lastn. rewrite !length_app, !skipn_app, !length_skipn, skipn_skipn. f_equal; f_equal; lia. }
    destruct (open_spec cap (l ++ firstn n fresh) tail) as (w2 & E & G1 & G2 & G3 & G4).
    { done. } { apply Forall_app_2; [done|]. by apply Forall_take. } { done. }
    { rewrite Hl. by apply keep_ids_firstn_ok. }
    rewrite E. intros [= <- <-]. split; [done|]. rewrite G2, Hl. split; [by exists m|]. exists (l ++ firstn n fresh).
    constructor; [done|done|apply Forall_app_2; [done|by apply Forall_take]|by rewrite G3, Hl, G2|done].
Qed.

(** C29: The window refines "the last [capacity] distinct ids accepted".  Over
    any run of saves, restarts and power losses that cut a save at any byte,
    from an empty log, the ids it recognises are exactly those: a restart is
    invisible, and a cut save counts up to some id of its batch. *)
Theorem window_refines_last_ids cap vs w f : 1 <= cap -> Forall event_ok vs ->
  foldl event (window_open cap []) vs = (w, f) ->
  exists l, means cap vs [] l /\ order w = l /\ base.NoDup l /\ List.length l <= cap /\
    forall id, contains id w = bool_decide (id ∈ l).
Proof.
  intros Hc Hvs. destruct (open_spec cap [] []) as (w0 & E & H1 & H2 & H3 & H4); [done|done|simpl; lia|constructor|].
  cbn [List.concat app] in E. rewrite E.
  assert (Holds w0 (mkFile [] []) []) as Hh by (constructor; [done|done|done|by rewrite H2, H3|done]).
  assert (order w0 = []) as Ho by done. clear E H1 H2 H4.
  assert (forall a w0 f0 l0, Holds w0 f0 l0 -> capacity w0 = cap -> order w0 = a -> foldl event (w0, f0) vs = (w, f) ->
    exists l, means cap vs a l /\ order w = l /\ WInv w /\ capacity w = cap) as Hgo.
  { clear - Hvs. induction Hvs as [|v vs Hv _ IH]; intros a w0 f0 l0 Hh Hcap Ha E; cbn [foldl] in E.
    - injection E as <- <-. exists a. split; [constructor|]. split; [done|]. split; [apply Hh|done].
    - destruct (event (w0, f0) v) as [w1 f1] eqn:Ev. eapply event_holds in Ev as (G1 & G2 & l1 & G3); [|done..].
      destruct (IH (order w1) w1 f1 l1 G3 G1 eq_refl E) as (l & Hm & Hr). exists l. split; [|done].
      subst a. by econstructor. }
  intros Hrun. destruct (Hgo _ _ _ _ Hh H3 Ho Hrun) as (l & Hm & Hl & Hw & Hcap). exists l.
  split; [done|]. split; [done|]. rewrite <- Hl. split; [apply Hw|]. split; [rewrite <- Hcap; apply Hw|].
  intros id. unfold contains. rewrite (wi_set _ Hw). apply bool_decide_ext. apply elem_of_list_to_set.
Qed.

Definition quiet (v : Event) : bool :=
  match v with
  | Save _ e => match write_end e, compact_end e with Written, Compacted => synced_end e | _, _ => false end
  | Restart => true
  | CutSave _ _ => false
  end.

(** The log never holds more than twice the window while its calls succeed. *)
Theorem log_stays_small cap vs w f : 1 <= cap -> Forall event_ok vs -> forallb quiet vs = true ->
  foldl event (window_open cap []) vs = (w, f) -> List.length (content f) <= 16 * (cap * 2).
Proof.
  intros Hc Hvs Hq. destruct (open_spec cap [] []) as (w0 & E & H1 & H2 & H3 & H4); [done|done|simpl; lia|constructor|].
  cbn [List.concat app] in E. rewrite E.
  assert (Holds w0 (mkFile [] []) []) as Hh by (constructor; [done|done|done|by rewrite H2, H3|done]).
  assert (List.length (@nil Id) <= cap * 2) as Hlen by (simpl; lia). clear E H1 H2 H4. revert Hh H3 Hlen.
  generalize (mkFile [] []). generalize (@nil Id). revert w0.
  induction Hvs as [|v vs Hv _ IH]; intros w0 l0 f0 Hh Hcap Hlen E; cbn [foldl forallb] in *.
  { injection E as <- <-. destruct Hh as [_ -> Hi _ _]. unfold content. cbn [durable unsynced].
    rewrite app_nil_r, concat_ids_length by done. lia. }
  apply andb_true_iff in Hq as [Hqv Hq]. destruct (event (w0, f0) v) as [w1 f1] eqn:Ev.
  destruct v as [ids e| |ids keep]; [|clear Hv|done].
  - cbn [event quiet event_ok] in *. destruct Hv as [Hi He].
    destruct (insert_all ids e w0 f0) as [[ok w2] f2] eqn:Ei. injection Ev as <- <-.
    eapply insert_holds in Ei as (G1 & _ & l' & G3 & G4); [|done..]. rewrite Hcap in *.
    eapply (IH Hq w2 l' f2); [done|done| |done]. apply G4; [|done]. by destruct (write_end e), (compact_end e).
  - cbn [event] in Ev. destruct Hh as [Hw Hf Hids Ho Hlog].
    destruct (open_spec cap l0 []) as (w2 & E2 & G1 & G2 & G3 & G4); [done|done|simpl; lia| |].
    { rewrite <- Hcap, <- Ho. apply Hw. }
    rewrite Hcap, Hf in Ev. unfold content in Ev. cbn [durable unsynced] in Ev. rewrite E2 in Ev. injection Ev as <- <-.
    eapply (IH Hq w2 l0 (mkFile (List.concat l0) [])); [|done|done|done].
    constructor; [done|done|done|by rewrite G3|done].
Qed.

(** ** A write that stops short *)

Definition id_of (n : Z) : Id := repeat (to_byte n) 16.

Definition short_write_run : bool * bool * Window :=
  let '(w, f) := window_open 8 [] in
  let '(_, w, f) := insert_all [id_of 1] all_well w f in
  let '(ok1, w, f) := insert_all [id_of 2] (mkEnds (WrittenShort 5) true Compacted) w f in
  let '(ok2, w, f) := insert_all [id_of 3] all_well w f in
  (ok1, ok2, fst (window_open (capacity w) (content f))).

(** Finding: a write that stops short (a full disk) leaves part of an id
    in the log and nothing takes it off again, so every id saved after it is
    at the wrong offset: the next save reports success, and after a restart
    its id is not recognised. *)
Theorem short_write_scrambles_the_log :
  fst short_write_run = (false, true) /\ contains (id_of 1) (snd short_write_run) = true /\
  contains (id_of 3) (snd short_write_run) = false.
Proof. split; [|split]; vm_compute; reflexivity. Qed.

(** ** Witnesses *)

Definition sample_run : list Event :=
  [Save [id_of 1; id_of 2; id_of 1] all_well; Restart; Save [id_of 3] all_well; Save [id_of 4; id_of 5] all_well;
   CutSave [id_of 6; id_of 7] 20; Save [id_of 1] (mkEnds Written true CompactFailed); Restart].

Lemma id_of_ok n : id_ok (id_of n).
Proof. reflexivity. Qed.

Ltac ids_ok := repeat (apply Forall_cons_2; [apply id_of_ok|]); apply Forall_nil_2.
Ltac event_ok := cbn [event_ok]; lazymatch goal with
  | |- True => exact I | |- _ /\ _ => split; [ids_ok|reflexivity] | |- _ => ids_ok end.
Ltac events_ok := repeat (apply Forall_cons_2; [event_ok|]); apply Forall_nil_2.

Lemma sample_run_ok : Forall event_ok sample_run.
Proof. events_ok. Qed.

Lemma window_refines_last_ids_witness :
  exists l, means 2 sample_run [] l /\ order (fst (foldl event (window_open 2 []) sample_run)) = l /\
    contains (id_of 6) (fst (foldl event (window_open 2 []) sample_run)) = bool_decide (id_of 6 ∈ l).
Proof.
  destruct (foldl event (window_open 2 []) sample_run) as [w f] eqn:E.
  destruct (window_refines_last_ids 2 sample_run w f) as (l & H1 & H2 & _ & _ & H3); [lia|exact sample_run_ok|exact E|].
  exists l. split; [exact H1|]. split; [exact H2|exact (H3 (id_of 6))].
Defined.

Definition quiet_run : list Event :=
  [Save [id_of 1; id_of 2] all_well; Restart; Save [id_of 3; id_of 4; id_of 5] all_well; Save [id_of 6] all_well].

Lemma log_stays_small_witness :
  List.length (content (snd (foldl event (window_open 2 []) quiet_run))) <= 16 * (2 * 2).
Proof.
  destruct (foldl event (window_open 2 []) quiet_run) as [w f] eqn:E.
  refine (log_stays_small 2 quiet_run w f _ _ _ E); [lia|events_ok|reflexivity].
Defined.
