(* ===== verification/WalAcks.v ===== *)
(** How a peer's request learns that the write-ahead log has its batch
    ([crates/logless-core/src/peer.rs], [WalAcks]).

    Every method holds the lock, so each is one atomic step.  [wait] blocks: it
    is given as one turn of its loop, told whether its deadline has passed. *)

From S2P Require Import Prelude Lists Dedupe.
Open Scope Z_scope.
Open Scope list_scope.

Definition MAX_ABANDONED : nat := 1024.

Record TicketState := mkTicket { watermark : option Z; abandoned : option (list Id) }.

Record Acks := mkAcks {
  synced : Z; next : Z; tickets : gmap Z TicketState; given_up : list Z; is_closed : bool
}.

Definition acks_new : Acks := mkAcks 0 1 ∅ [] false.

Definition set_tickets (m : gmap Z TicketState) (a : Acks) : Acks := mkAcks (synced a) (next a) m (given_up a) (is_closed a).

Definition issue (a : Acks) : Z * Acks :=
  (next a, mkAcks (synced a) (wadd64 (next a) 1) (<[next a := mkTicket None None]> (tickets a)) (given_up a) (is_closed a)).

Definition forget (seq : Z) (a : Acks) : Acks := set_tickets (delete seq (tickets a)) a.

Definition bind (seq records_submitted_total : Z) (a : Acks) : Acks :=
  match tickets a !! seq with
  | Some t => set_tickets (<[seq := mkTicket (Some records_submitted_total) (abandoned t)]> (tickets a)) a
  | None => a
  end.

Definition publish (synced_records : Z) (a : Acks) : Acks :=
  mkAcks synced_records (next a) (tickets a) (given_up a) (is_closed a).
Definition close (a : Acks) : Acks := mkAcks (synced a) (next a) (tickets a) (given_up a) true.

Definition durable (synced : Z) (t : TicketState) : bool :=
  match watermark t with Some w => w <=? synced | None => false end.

Inductive WalWait := Synced | TimedOut | Closed.

(** One turn of [wait]; [None] goes back to sleep. *)
Definition wait (seq : Z) (expired : bool) (a : Acks) : option WalWait * Acks :=
  if is_closed a then (Some Closed, forget seq a)
  else if match tickets a !! seq with Some t => durable (synced a) t | None => false end then (Some Synced, forget seq a)
  else (if expired then Some TimedOut else None, a).

Fixpoint evict (l : list Z) (m : gmap Z TicketState) : list Z * gmap Z TicketState :=
  match l with
  | [] => ([], m)
  | old :: rest => if (MAX_ABANDONED <? List.length l)%nat then evict rest (delete old m) else (l, m)
  end.

Definition abandon (seq : Z) (ids : list Id) (a : Acks) : Acks :=
  match tickets a !! seq with
  | None => a
  | Some t =>
      let '(l, m) := evict (given_up a ++ [seq]) (<[seq := mkTicket (watermark t) (Some ids)]> (tickets a)) in
      mkAcks (synced a) (next a) m l (is_closed a)
  end.

(** The [retain] of [settle]: what stays given up, the tickets left, the ids
    to save. *)
Fixpoint settle_loop (synced : Z) (m : gmap Z TicketState) (l : list Z) : list Z * gmap Z TicketState * list Id :=
  match l with
  | [] => ([], m, [])
  | seq :: rest =>
      match m !! seq with
      | Some t =>
          if durable synced t then
            let '(kept, m, ids) := settle_loop synced (delete seq m) rest in
            (kept, m, default [] (abandoned t) ++ ids)
          else let '(kept, m, ids) := settle_loop synced m rest in (seq :: kept, m, ids)
      | None => let '(kept, m, ids) := settle_loop synced m rest in (seq :: kept, m, ids)
      end
  end.

Definition settle (a : Acks) : list Id * Acks :=
  match given_up a with
  | [] => ([], a)
  | l => let '(kept, m, ids) := settle_loop (synced a) (tickets a) l in
         (ids, mkAcks (synced a) (next a) m kept (is_closed a))
  end.

Definition outstanding (a : Acks) : nat := size (tickets a).

(** ** What the table holds

    [waiting] is the set of tickets whose requests have not been answered. *)

Record Table (a : Acks) (waiting : gset Z) : Prop := {
  ta_keys : dom (tickets a) = waiting ∪ list_to_set (given_up a);
  ta_apart : waiting ## list_to_set (given_up a);
  ta_nodup : base.NoDup (given_up a);
  ta_old : forall s, s ∈ dom (tickets a) -> 0 < s < next a;
  ta_few : (List.length (given_up a) <= MAX_ABANDONED)%nat;
  ta_next : 0 < next a <= u64_max;
  ta_given : forall s t, tickets a !! s = Some t -> is_Some (abandoned t) <-> s ∈ given_up a
}.

Lemma acks_new_table : Table acks_new ∅.
Proof.
  constructor; cbn [tickets given_up next acks_new]; [set_solver|set_solver|apply NoDup_nil_2|set_solver|cbn; lia|unfold u64_max; lia|].
  intros s t H. by rewrite lookup_empty in H.
Qed.

Lemma issue_table a W seq a' : Table a W -> next a < u64_max -> issue a = (seq, a') ->
  Table a' ({[seq]} ∪ W) /\ seq ∉ W /\ seq ∉ dom (tickets a) /\ next a' = next a + 1.
Proof.
  intros [Hk Ha Hn Ho Hf Hx Hg] Hlt. unfold issue. intros [= <- <-].
  assert (next a ∉ dom (tickets a)) as Hnew by (intros H%Ho; lia).
  rewrite wadd64_small by (unfold u64_range; lia).
  split; [|split; [by set_solver|by split]]. constructor; cbn [tickets given_up next]; [by set_solver|by set_solver|done| |done|lia|].
  - intros s. rewrite dom_insert_L, elem_of_union, elem_of_singleton. intros [->|H%Ho]; lia.
  - intros s t. rewrite lookup_insert_Some. intros [[<- <-]|[_ H]]; [|by eapply Hg]. cbn [abandoned].
    split; [by intros [? ?]|]. intros H. destruct Hnew. rewrite Hk. apply elem_of_union_r. by apply elem_of_list_to_set.
Qed.

Lemma forget_table a W seq : Table a W -> seq ∈ W -> Table (forget seq a) (W ∖ {[seq]}).
Proof.
  intros [Hk Ha Hn Ho Hf Hx Hg] Hin. constructor; cbn [tickets given_up next forget set_tickets]; [|by set_solver|done| |done|done|].
  - rewrite dom_delete_L, Hk. set_solver.
  - intros s. rewrite dom_delete_L. intros H. apply Ho. set_solver.
  - intros s t [_ H]%lookup_delete_Some. by eapply Hg.
Qed.

Lemma dom_insert_in {A} (m : gmap Z A) k x y : m !! k = Some x -> dom (<[k := y]> m) = dom m.
Proof. intros H. rewrite dom_insert_L. assert (k ∈ dom m) by (apply elem_of_dom; by exists x). set_solver. Qed.

Lemma bind_table a W seq n : Table a W -> Table (bind seq n a) W.
Proof.
  intros [Hk Ha Hn Ho Hf Hx Hg]. unfold bind. destruct (tickets a !! seq) as [t|] eqn:E; [|done].
  constructor; cbn [tickets given_up next set_tickets]; [by erewrite dom_insert_in|done|done|by erewrite dom_insert_in|done|done|].
  intros s t'. rewrite lookup_insert_Some. intros [[<- <-]|[_ H]]; [|by eapply Hg]. cbn [abandoned]. by eapply Hg.
Qed.

Lemma publish_table a W n : Table a W -> Table (publish n a) W.
Proof. by intros [Hk Ha Hn Ho Hf Hx Hg]; constructor. Qed.
Lemma close_table a W : Table a W -> Table (close a) W.
Proof. by intros [Hk Ha Hn Ho Hf Hx Hg]; constructor. Qed.

(** Taking the oldest out of a list without repetitions until it is short
    enough leaves the newest, and their tickets. *)
Lemma evict_spec l : forall m, base.NoDup l -> exists gone, l = gone ++ fst (evict l m) /\
  (List.length (fst (evict l m)) <= MAX_ABANDONED)%nat /\
  (List.length l <= S MAX_ABANDONED -> List.length gone <= 1)%nat /\
  snd (evict l m) = foldr delete m gone.
Proof.
  induction l as [|x l IH]; intros m Hd; cbn [evict].
  { exists []. split; [done|]. split; [cbn [fst List.length]; lia|]. split; [cbn [List.length]; lia|done]. }
  destruct (Nat.ltb_spec MAX_ABANDONED (List.length (x :: l))) as [H|H].
  - apply NoDup_cons in Hd as [Hx Hd]. destruct (IH (delete x m) Hd) as (gone & Hl & Hle & Hone & Hm).
    exists (x :: gone). cbn [app foldr]. rewrite <- Hl. split; [done|]. split; [done|].
    assert (forall k, foldr delete (delete x m) k = delete x (foldr delete m k)) as Hcomm.
    { clear. induction k as [|y k IH]; [done|]. cbn [foldr]. by rewrite IH, delete_delete. }
    rewrite Hm, Hcomm. split; [|done]. cbn [List.length]. intros Hs.
    assert (List.length l <= MAX_ABANDONED)%nat as Hs' by lia. clear -Hl Hs' Hm.
    destruct l as [|y l]; [destruct gone; [simpl; lia|done]|]. cbn [evict] in Hl.
    destruct (Nat.ltb_spec MAX_ABANDONED (List.length (y :: l))) as [H|H]; [lia|]. cbn [fst] in Hl.
    destruct gone as [|g gone]; [simpl; lia|]. apply (f_equal (@List.length Z)) in Hl. rewrite length_app in Hl. simpl in Hl. lia.
  - exists []. split; [done|]. split; [exact H|]. split; [cbn [List.length]; lia|done].
Qed.

Lemma foldr_delete_lookup {A} (m : gmap Z A) gone k : foldr delete m gone !! k = if bool_decide (k ∈ gone) then None else m !! k.
Proof.
  induction gone as [|g gone IH]; [done|]. cbn [foldr]. destruct (decide (k = g)) as [->|Hne].
  - rewrite lookup_delete_eq, bool_decide_eq_true_2; [done|by left].
  - rewrite lookup_delete_ne by done. rewrite IH. apply (f_equal (fun b : bool => if b then None else m !! k)).
    apply bool_decide_ext. rewrite elem_of_cons. naive_solver.
Qed.
Lemma foldr_delete_dom {A} (m : gmap Z A) gone : dom (foldr delete m gone) = dom m ∖ list_to_set gone.
Proof. induction gone as [|g gone IH]; cbn [foldr list_to_set]; [set_solver|]. rewrite dom_delete_L, IH. set_solver. Qed.

Lemma abandon_table a W seq ids : Table a W -> seq ∈ W -> Table (abandon seq ids a) (W ∖ {[seq]}).
Proof.
  intros [Hk Ha Hn Ho Hf Hx Hg] Hin. unfold abandon.
  assert (is_Some (tickets a !! seq)) as [t Et] by (apply elem_of_dom; set_solver). rewrite Et.
  assert (seq ∉ given_up a) as Hnew by (intros H; apply (Ha seq); [done|by apply elem_of_list_to_set]).
  assert (base.NoDup (given_up a ++ [seq])) as Hd.
  { apply NoDup_app. split; [done|]. split; [|apply NoDup_singleton]. intros x H1 H2%list_elem_of_singleton. by subst. }
  destruct (evict_spec (given_up a ++ [seq]) (<[seq := mkTicket (watermark t) (Some ids)]> (tickets a)) Hd) as (gone & Hl & Hle & _ & Hm).
  destruct (evict _ _) as [l m]. cbn [fst snd] in *. subst m.
  assert (base.NoDup l /\ (forall x, x ∈ gone -> x ∉ l)) as [Hdl Hgl].
  { rewrite Hl in Hd. apply NoDup_app in Hd as (_ & H1 & H2). done. }
  assert (forall x, x ∈ gone ∨ x ∈ l <-> x ∈ given_up a ∨ x = seq) as Hall.
  { intros x. rewrite <- elem_of_app, <- Hl, elem_of_app, list_elem_of_singleton. done. }
  assert (dom (foldr delete (<[seq:=mkTicket (watermark t) (Some ids)]> (tickets a)) gone) = W ∖ {[seq]} ∪ list_to_set l) as Hdom.
  { rewrite foldr_delete_dom, (dom_insert_in _ _ _ _ Et), Hk. apply set_eq. intros x. specialize (Hall x). specialize (Hgl x).
    specialize (Ha x). rewrite !elem_of_difference, !elem_of_union, elem_of_difference, !elem_of_list_to_set, elem_of_singleton in *.
    destruct (decide (x = seq)) as [->|Hne]; naive_solver. }
  constructor; cbn [tickets given_up next]; [done| |done| |done|done|].
  - intros x Hw Hxl. specialize (Ha x). rewrite elem_of_list_to_set in Ha, Hxl. specialize (Hall x). set_solver.
  - intros s. rewrite foldr_delete_dom, (dom_insert_in _ _ _ _ Et). intros H. apply Ho. set_solver.
  - intros s t'. rewrite foldr_delete_lookup. case_bool_decide as Hs; [done|]. specialize (Hall s). specialize (Hgl s).
    rewrite lookup_insert_Some. intros [[<- <-]|[Hne H]]; cbn [abandoned]; [naive_solver|]. rewrite (Hg s t' H). naive_solver.
Qed.

(** ** What [settle] hands back *)

Definition settles (a : Acks) (s : Z) : bool :=
  match tickets a !! s with Some t => durable (synced a) t | None => false end.
Definition late_ids (a : Acks) (s : Z) : list Id := default [] (tickets a !! s ≫= abandoned).

Lemma settle_loop_spec n l : forall m, base.NoDup l ->
  settle_loop n m l =
    (List.filter (fun s => negb (match m !! s with Some t => durable n t | None => false end)) l,
     foldr delete m (List.filter (fun s => match m !! s with Some t => durable n t | None => false end) l),
     List.flat_map (fun s => default [] (m !! s ≫= abandoned)) (List.filter (fun s => match m !! s with Some t => durable n t | None => false end) l)).
Proof.
  induction l as [|s l IH]; intros m Hd; [done|]. apply NoDup_cons in Hd as [Hs Hd]. cbn [settle_loop List.filter].
  destruct (m !! s) as [t|] eqn:E; [destruct (durable n t) eqn:En|]; cbn [negb].
  - rewrite IH by done.
    assert (forall x, x ∈ l -> delete s m !! x = m !! x) as Hsame by (intros x Hx; apply lookup_delete_ne; by intros <-).
    assert (forall (f : option TicketState -> bool), List.filter (fun x => f (delete s m !! x)) l = List.filter (fun x => f (m !! x)) l) as Hfil.
    { intros f. clear -Hsame. induction l as [|x l IH]; [done|]. cbn [List.filter]. rewrite Hsame by (by left).
      rewrite IH; [done|]. intros y Hy. apply Hsame. by right. }
    rewrite (Hfil (fun o => negb (match o with Some t => durable n t | None => false end))).
    rewrite (Hfil (fun o => match o with Some t => durable n t | None => false end)).
    cbn [List.flat_map foldr]. rewrite E, bind_some. f_equal; [f_equal|f_equal].
    + generalize (List.filter (fun x => match m !! x with Some t => durable n t | None => false end) l) as k. clear.
      induction k as [|y k IH]; [done|]. cbn [foldr]. by rewrite IH, delete_delete.
    + clear -Hsame. induction l as [|x l IH]; [done|]. cbn [List.filter].
      assert (forall y, y ∈ l -> delete s m !! y = m !! y) as Hsame' by (intros y Hy; apply Hsame; by right).
      destruct (match m !! x with Some t => durable n t | None => false end); [|by apply IH].
      cbn [List.flat_map]. rewrite Hsame by (by left). f_equal. by apply IH.
  - by rewrite IH.
  - by rewrite IH.
Qed.

Lemma settle_spec a W ids a' : Table a W -> settle a = (ids, a') ->
  ids = List.flat_map (late_ids a) (List.filter (settles a) (given_up a)) /\
  given_up a' = List.filter (fun s => negb (settles a s)) (given_up a) /\
  tickets a' = foldr delete (tickets a) (List.filter (settles a) (given_up a)) /\
  synced a' = synced a /\ next a' = next a /\ is_closed a' = is_closed a.
Proof.
  intros Ht. unfold settle. destruct (given_up a) as [|s l] eqn:E; [intros [= <- <-]; by rewrite E|].
  rewrite <- E. rewrite settle_loop_spec by apply Ht. by intros [= <- <-].
Qed.

Lemma settle_table a W ids a' : Table a W -> settle a = (ids, a') -> Table a' W.
Proof.
  intros Ht E. pose proof (settle_spec _ _ _ _ Ht E) as (_ & Hg' & Ht' & Hs' & Hn' & Hc'). destruct Ht as [Hk Ha Hn Ho Hf Hx Hg].
  assert (forall x, x ∈ given_up a' <-> x ∈ given_up a /\ settles a x = false) as Hin.
  { intros x. rewrite Hg', !list_elem_of_In, filter_In, negb_true_iff. done. }
  assert (forall x, x ∈ List.filter (settles a) (given_up a) <-> x ∈ given_up a /\ settles a x = true) as Hout.
  { intros x. by rewrite !list_elem_of_In, filter_In. }
  constructor.
  - rewrite Ht', foldr_delete_dom, Hk. apply set_eq. intros x. specialize (Ha x).
    rewrite elem_of_difference, !elem_of_union, !elem_of_list_to_set, Hin, Hout in *. destruct (settles a x); naive_solver.
  - intros x H1 H2. apply (Ha x H1). apply elem_of_list_to_set. apply elem_of_list_to_set in H2. by apply Hin in H2 as [? _].
  - rewrite Hg'. clear -Hn. apply NoDup_ListNoDup in Hn. apply NoDup_ListNoDup. by apply List.NoDup_filter.
  - intros x. rewrite Ht', foldr_delete_dom, Hn'. intros H. apply Ho. set_solver.
  - rewrite Hg'. etrans; [apply filter_length_le|done].
  - by rewrite Hn'.
  - intros s t. rewrite Ht', foldr_delete_lookup. case_bool_decide as Hs; [done|]. intros H. rewrite (Hg s t H), Hin.
    rewrite Hout in Hs. split; [|by intros [? _]]. intros H'. split; [done|]. destruct (settles a s); [by destruct Hs|done].
Qed.
