(* ===== verification/PeerIngest.v ===== *)
(** The peer endpoint's ingest handler ([crates/logless-core/src/peer.rs],
    [PeerHandler::ingest]) and what the agent does with a batch it takes
    ([crates/logless-cli/src/main.rs]: the sink, the record path, the writer's
    published count).

    A request is two steps: up to its wait for the write-ahead log, and the
    turn of the wait that answers it.  The channel to the record path, the
    ingest queue, what the log has written and what of that is on disk are
    lists in order.  [serde_json] is a parameter. *)

From S2P Require Import Prelude Text Lists Model Tenancy Json Jwt Auth Provenance Dedupe WalAcks.
From S2P Require Queue.
Open Scope string_scope.
Open Scope Z_scope.
Open Scope list_scope.

(** ** Counters *)

Inductive Stat :=
| StRequests | StRecords | StAccepted | StDuplicates | StLoops | StBusy | StUnauthorized | StBadRequest
| StDedupeUnsaved | StWalWaits | StWalWaitUsTotal | StWalWaitUsMax | StWalTimeouts | StWalClosed | StSettledLate.

#[export] Instance Stat_eq_dec : EqDecision Stat.
Proof. solve_decision. Defined.

(** [PeerStats], field by field. *)
Definition PeerStats := Stat -> Z.
Definition peer_stats0 : PeerStats := fun _ => 0.
Definition set_stat (f : Stat) (n : Z) (s : PeerStats) : PeerStats := fun g => if decide (f = g) then n else s g.
Definition bump (f : Stat) (n : Z) (s : PeerStats) : PeerStats := set_stat f (wadd64 (s f) n) s.

Definition waited (us : Z) (s : PeerStats) : PeerStats :=
  let s := bump StWalWaitUsTotal us (bump StWalWaits 1 s) in
  set_stat StWalWaitUsMax (Z.max (s StWalWaitUsMax) us) s.

(** ** Replies *)

Inductive Reply :=
| Taken (accepted duplicates loops : Z)
| LoopDetected (loops : Z)
| BadRecord (line : Z)
| ErrorReply (status : Z) (code : string) (retry_after : option Z).

(** The sender forgets the batch on these: 200, and 508, where nothing but
    loops was sent. *)
Definition acknowledges (r : Reply) : bool :=
  match r with Taken _ _ _ | LoopDetected _ => true | _ => false end.

Record Peer := mkPeer {
  instance : string; ack_wait_secs : Z; dedupe : Window; id_file : File; peer_stats : PeerStats;
  verifier : Verifier; open_listener : bool
}.

Definition set_peer_stats (s : PeerStats) (p : Peer) : Peer :=
  mkPeer (instance p) (ack_wait_secs p) (dedupe p) (id_file p) s (verifier p) (open_listener p).
Definition set_dedupe (w : Window) (f : File) (p : Peer) : Peer :=
  mkPeer (instance p) (ack_wait_secs p) w f (peer_stats p) (verifier p) (open_listener p).
Definition set_verifier (v : Verifier) (p : Peer) : Peer :=
  mkPeer (instance p) (ack_wait_secs p) (dedupe p) (id_file p) (peer_stats p) v (open_listener p).
Definition tally (f : Stat) (n : Z) (p : Peer) : Peer := set_peer_stats (bump f n (peer_stats p)) p.

(** What a request presents: its bearer token and the time, and how the key
    source answers should the token's key be unknown. *)
Record Credential := mkCredential { presented : option string; at_secs : Z; fetched : string + Fetched; cache_saved : bool }.

(** The [Authorization] headers of a request: more than one is ambiguous. *)
Definition bearer (authorization : list string) : option string :=
  match authorization with
  | [v] => trim <$> (match strip_prefix "Bearer " v with Some t => Some t | None => strip_prefix "bearer " v end)
  | _ => None
  end.

Definition retry_after (secs : Z) : Z := Z.max 1 (Z.min 5 secs).

(** ** The handler *)

Section Handler.
Variable sha256 : bytes -> bytes.
Variable from_slice : bytes -> option Json.
Variable ed25519 : bytes -> bytes -> bytes -> bool.
Variable record_from_slice : bytes -> option LogRecord.   (* serde_json::from_slice::<LogRecord> *)

Definition authenticated (c : Credential) (op : Jwt.Op) (p : Peer) : (Reply + Principal) * Peer :=
  let closed := match op with OpReplica | OpS3Credentials => true | _ => negb (open_listener p) end in
  match authorize sha256 from_slice ed25519 AtPeer op closed (presented c) (at_secs c) (fetched c) (cache_saved c) (verifier p) with
  | (inr who, v) => (inr who, set_verifier v p)
  | (inl reason, v) =>
      let p := tally StUnauthorized 1 (set_verifier v p) in
      (inl (match reason with
            | Missing => ErrorReply 401 "unauthorized" None
            | WrongKind => if bool_decide (op = OpParts) then ErrorReply 403 "no_node" None else ErrorReply 403 "forbidden" None
            | _ => ErrorReply 403 "forbidden" None
            end), p)
  end.

Definition is_ascii_whitespace (b : byte) : bool :=
  match Byte.to_N b with 9%N | 10%N | 12%N | 13%N | 32%N => true | _ => false end.

(** [body.split(|b| *b == b'\n')]. *)
Fixpoint body_lines (body : bytes) : list bytes :=
  match body with
  | [] => [[]]
  | b :: rest =>
      if N.eqb (Byte.to_N b) 10 then [] :: body_lines rest
      else match body_lines rest with
           | line :: lines => (b :: line) :: lines
           | [] => [[b]]
           end
  end.

(** The records of the lines, or the number of the first line that is none. *)
Fixpoint parse_lines (index : Z) (lines : list bytes) : Z + list LogRecord :=
  match lines with
  | [] => inr []
  | line :: rest =>
      if forallb is_ascii_whitespace line then parse_lines (index + 1) rest
      else match record_from_slice line with
           | Some r => match parse_lines (index + 1) rest with inr l => inr (r :: l) | inl n => inl n end
           | None => inl (index + 1)
           end
  end.

(** What is kept, in order, and the duplicates and loops that are not. *)
Fixpoint sift (instance : string) (w : Window) (seen_in_batch : gset Id) (records : list LogRecord) : list LogRecord * Z * Z :=
  match records with
  | [] => ([], 0, 0)
  | r :: rest =>
      if is_loop r instance then
        let '(keep, d, l) := sift instance w seen_in_batch rest in (keep, d, l + 1)
      else if Dedupe.contains (event_id r) w || bool_decide (event_id r ∈ seen_in_batch) then
        let '(keep, d, l) := sift instance w seen_in_batch rest in (keep, d + 1, l)
      else
        let '(keep, d, l) := sift instance w ({[event_id r]} ∪ seen_in_batch) rest in (r :: keep, d, l)
  end.

Definition save_ids (ids : list Id) (e : Ends) (p : Peer) : Peer :=
  let '(ok, w, f) := insert_all ids e (dedupe p) (id_file p) in
  let p := set_dedupe w f p in
  if ok then p else tally StDedupeUnsaved 1 p.

(** Batches that timed out and synced since are saved before the new one is
    looked at. *)
Definition settle_late (e : Ends) (acks : option Acks) (p : Peer) : option Acks * Peer :=
  match acks with
  | None => (None, p)
  | Some a =>
      let '(late, a) := settle a in
      (Some a, match late with
               | [] => p
               | _ => save_ids late e (tally StSettledLate (Z.of_nat (List.length late)) p)
               end)
  end.

(** [ingest], up to the sink: a reply, or what the principal may store and
    what of it is to be kept. *)
Record Sifted := mkSifted { sf_records : list LogRecord; sf_keep : list LogRecord; sf_duplicates : Z; sf_loops : Z }.

Definition ingest_before (c : Credential) (body : bytes) (settle_ends : Ends) (acks : option Acks) (p : Peer)
    : (Reply + Sifted) * option Acks * Peer :=
  let p := tally StRequests 1 p in
  match authenticated c OpIngest p with
  | (inl denied, p) => (inl denied, acks, p)
  | (inr who, p) =>
      match parse_lines 0 (body_lines body) with
      | inl line => (inl (BadRecord line), acks, tally StBadRequest 1 p)
      | inr records =>
          let p := tally StRecords (Z.of_nat (List.length records)) p in
          match admit_batch (at_secs c) who records ATTR_INDEX false (verifier p) with
          | (inl _, v) =>
              let p := tally StUnauthorized 1 (set_verifier v p) in
              (inl (ErrorReply 403 "forbidden" None), acks, set_verifier (refuse (at_secs c) WrongTenant (verifier p)) p)
          | (inr (_, records), v) =>
              let '(acks, p) := settle_late settle_ends acks (set_verifier v p) in
              let '(keep, d, l) := sift (instance p) (dedupe p) ∅ records in
              (inr (mkSifted records keep d l), acks, tally StLoops l (tally StDuplicates d p))
          end
      end
  end.

(** [ingest], from where the batch is durable. *)
Definition ingest_done (accepted duplicates loops : Z) (p : Peer) : Reply * Peer :=
  let p := tally StAccepted accepted p in
  (if (0 <? loops) && (accepted =? 0) && (duplicates =? 0) then LoopDetected loops
   else Taken accepted duplicates loops, p).

(** [Admitted]: what the sink did with the batch. *)
Inductive Sunk := SunkAccepted | SunkPending (ticket : Z) | SunkBusy.

(** [ingest], after the sink: a reply, or the ticket to wait for. *)
Definition ingest_sunk (answer : Sunk) (s : Sifted) (e : Ends) (has_acks : bool) (p : Peer) : (Reply + Z) * Peer :=
  let accepted := Z.of_nat (List.length (sf_keep s)) in
  match sf_keep s with
  | [] => let '(r, p) := ingest_done 0 (sf_duplicates s) (sf_loops s) p in (inl r, p)
  | _ =>
      match answer with
      | SunkAccepted =>
          let '(r, p) := ingest_done accepted (sf_duplicates s) (sf_loops s) (save_ids (List.map event_id (sf_keep s)) e p) in (inl r, p)
      | SunkPending ticket => if has_acks then (inr ticket, p) else (inl (ErrorReply 500 "internal" None), p)
      | SunkBusy => (inl (ErrorReply 503 "busy" (Some 1)), tally StBusy 1 p)
      end
  end.

(** A request that waits for its ticket. [pn_records] is what the batch held;
    only the theorems read it. *)
Record Pending := mkPending { pn_ids : list Id; pn_accepted : Z; pn_duplicates : Z; pn_loops : Z; pn_records : list LogRecord }.

(** One turn of the wait and, if it ends, the rest of [ingest]. *)
Definition ingest_wait (seq : Z) (q : Pending) (expired : bool) (us : Z) (e : Ends) (a : Acks) (p : Peer)
    : option Reply * Acks * Peer :=
  match wait seq expired a with
  | (None, a) => (None, a, p)
  | (Some Synced, a) =>
      let p := save_ids (pn_ids q) e (set_peer_stats (waited us (peer_stats p)) p) in
      let '(r, p) := ingest_done (pn_accepted q) (pn_duplicates q) (pn_loops q) p in
      (Some r, a, p)
  | (Some TimedOut, a) =>
      (Some (ErrorReply 503 "wal_slow" (Some (retry_after (ack_wait_secs p)))), abandon seq (pn_ids q) a,
       tally StWalTimeouts 1 (set_peer_stats (waited us (peer_stats p)) p))
  | (Some Closed, a) => (Some (ErrorReply 503 "shutting_down" (Some 1)), a, tally StWalClosed 1 p)
  end.
End Handler.

(** ** The agent around it *)

(** From the record path to the disk: the queue's capacity, its counters,
    what is in it, what the log has written of it since the start, in order,
    how much of that is on disk, and what the record path did not queue. *)
Record Pipe := mkPipe {
  capacity_ : nat; istats : Queue.IngestStats; queue : list LogRecord; written : list LogRecord;
  on_disk : nat; dropped : list LogRecord
}.

(** The writer takes [n] records and appends them. *)
Definition write_some (n : nat) (p : Pipe) : Pipe :=
  mkPipe (capacity_ p) (istats p) (skipn n (queue p)) (written p ++ firstn n (queue p)) (on_disk p) (dropped p).

(** What meets a record on the record path: the template the miner gives it,
    whether disk pressure is critical, whether the queue is gone, and how many
    records the writer takes while a record of a high level waits for room. *)
Record Fate := mkFate { fa_shape : option Z; fa_critical : bool; fa_disconnected : bool; fa_drained : nat }.

Definition set_template (id : option Z) (r : LogRecord) : LogRecord :=
  mkRecord (event_id r) (timestamp_unix_nano r) (observed_unix_nano r) (severity r) (severity_text r)
    (body r) (service r) (trace_id r) (span_id r) (attributes r) id.

Definition drop_record (r : LogRecord) (p : Pipe) : Pipe :=
  mkPipe (capacity_ p) (istats p) (queue p) (written p) (on_disk p) (dropped p ++ [r]).

(** [queue.submit]. *)
Definition submit_record (f : Fate) (r : LogRecord) (p : Pipe) : Pipe :=
  let full := (capacity_ p <=? List.length (queue p))%nat in
  let drained := Nat.min (fa_drained f) (List.length (queue p)) in
  let try := if fa_disconnected f then Queue.TryDisconnected else if full then Queue.TryFull else Queue.TryOk in
  let answer := if (drained =? 0)%nat then Queue.SendTimedOut else Queue.SendOk in
  let '(s, a) := Queue.submit (istats p) r try answer in
  let waits := full && negb (fa_disconnected f) && bool_decide (level_class r = WarnPlus) in
  let p := if waits then write_some drained p else p in
  match a with
  | Queue.Enqueued => mkPipe (capacity_ p) s (queue p ++ [r]) (written p) (on_disk p) (dropped p)
  | _ => mkPipe (capacity_ p) s (queue p) (written p) (on_disk p) (dropped p ++ [r])
  end.

(** Critical pressure stops DEBUG at the door. *)
Definition at_door (f : Fate) (r : LogRecord) (p : Pipe) : Pipe :=
  if fa_critical f && bool_decide (level_class r = Debug) then drop_record r p else submit_record f r p.

(** [process]: the routing and the template, then the door.  What it forwards
    on the way (see [Ring]) does not change the record. *)
Definition process (t : Tenancy) (f : Fate) (r : LogRecord) (p : Pipe) : Pipe :=
  let '(route, r) := route_record t ATTR_INDEX r in
  match route with
  | Refused => drop_record r p
  | _ =>
      let r := match template_id r with Some _ => r | None => set_template (fa_shape f) r end in
      at_door f r p
  end.

Fixpoint process_all (t : Tenancy) (fates : list Fate) (records : list LogRecord) (p : Pipe) : Pipe :=
  match fates, records with
  | f :: fates, r :: records => process_all t fates records (process t f r p)
  | _, _ => p
  end.

Definition PEER_PENDING_BATCHES : nat := 256.

Record Node := mkNode {
  peer : Peer; acks : Acks; chan : list (Z * list LogRecord); waiting : gmap Z Pending;
  pipe : Pipe; stored : list LogRecord
}.

Definition set_peer (p : Peer) (n : Node) : Node := mkNode p (acks n) (chan n) (waiting n) (pipe n) (stored n).
Definition set_acks (a : Acks) (n : Node) : Node := mkNode (peer n) a (chan n) (waiting n) (pipe n) (stored n).
Definition set_chan (c : list (Z * list LogRecord)) (n : Node) : Node := mkNode (peer n) (acks n) c (waiting n) (pipe n) (stored n).
Definition set_waiting (w : gmap Z Pending) (n : Node) : Node := mkNode (peer n) (acks n) (chan n) w (pipe n) (stored n).
Definition set_pipe (p : Pipe) (n : Node) : Node := mkNode (peer n) (acks n) (chan n) (waiting n) p (stored n).

(** The sink: room for all of it, a ticket, a place in the channel. *)
Definition peer_sink (records : list LogRecord) (n : Node) : Sunk * Node :=
  if (capacity_ (pipe n) - List.length (queue (pipe n)) <? List.length records)%nat then (SunkBusy, n)
  else
    let '(ticket, a) := issue (acks n) in
    if (List.length (chan n) <? PEER_PENDING_BATCHES)%nat
    then (SunkPending ticket, set_chan (chan n ++ [(ticket, records)]) (set_acks a n))
    else (SunkBusy, set_acks (forget ticket a) n).

(** The record path takes the next batch.  A batch at which the record cap was
    reached, with fewer fates than records or at its last record ([capped]), is
    not bound. *)
Definition take_batch (fates : list Fate) (capped : bool) (n : Node) : Node :=
  match chan n with
  | [] => n
  | (ticket, records) :: rest =>
      let t := tenancy (verifier (peer n)) in
      let p := process_all t fates records (pipe n) in
      let n := set_pipe p (set_chan rest n) in
      if (List.length fates <? List.length records)%nat || capped then n
      else set_acks (WalAcks.bind ticket (Queue.enqueued (istats p)) (acks n)) n
  end.

(** A restart after a crash: the log keeps what was on disk and any part of
    the rest, which is replayed into the store; the id log keeps what was
    synced and part of the rest. *)
Fixpoint masked {A} (keep : list bool) (l : list A) : list A :=
  match keep, l with
  | b :: keep, a :: l => (if b then [a] else []) ++ masked keep l
  | _, _ => []
  end.
Definition restart (keep : list bool) (id_bytes : bytes) (n : Node) : Node :=
  let p := peer n in let q := pipe n in
  let '(w, f) := window_open (capacity (dedupe p)) id_bytes in
  mkNode (mkPeer (instance p) (ack_wait_secs p) w f peer_stats0 (verifier p) (open_listener p))
    acks_new [] ∅
    (mkPipe (capacity_ q) Queue.stats0 [] [] 0 (dropped q))
    (stored n ++ firstn (on_disk q) (written q) ++ masked keep (skipn (on_disk q) (written q))).

Section Stepping.
Variable sha256 : bytes -> bytes.
Variable from_slice : bytes -> option Json.
Variable ed25519 : bytes -> bytes -> bytes -> bool.
Variable record_from_slice : bytes -> option LogRecord.

Inductive Step :=
| Request (c : Credential) (body : bytes) (settle_ends ends : Ends)   (* a request, up to its wait *)
| Turn (seq : Z) (expired : bool) (us : Z) (e : Ends)                 (* its wait wakes up *)
| TakeBatch (fates : list Fate) (capped : bool)
| Other (r : LogRecord) (f : Fate)                                    (* a record of another source *)
| Write (n : nat)
| Sync
| Publish                                                             (* the count last synced *)
| Stop
| Crash (keep : list bool) (unsynced_kept : nat)
| CrashSaving (seq : Z) (keep : list bool) (unsynced_kept : nat).     (* while the ids of a batch are saved *)

(** A step, and the answer it gives with what the request held. *)
Definition step (n : Node) (s : Step) : Node * option (list LogRecord * Reply) :=
  match s with
  | Request c body settle_ends ends =>
      match ingest_before sha256 from_slice ed25519 record_from_slice c body settle_ends (Some (acks n)) (peer n) with
      | (inl r, a, p) => (set_peer p (set_acks (default (acks n) a) n), Some ([], r))
      | (inr sf, a, p) =>
          let n := set_peer p (set_acks (default (acks n) a) n) in
          let '(answer, n) := match sf_keep sf with [] => (SunkBusy, n) | keep => peer_sink keep n end in
          match ingest_sunk answer sf ends true (peer n) with
          | (inl r, p) => (set_peer p n, Some (sf_records sf, r))
          | (inr ticket, p) =>
              (set_waiting (<[ticket := mkPending (List.map event_id (sf_keep sf)) (Z.of_nat (List.length (sf_keep sf)))
                                          (sf_duplicates sf) (sf_loops sf) (sf_records sf)]> (waiting n)) (set_peer p n), None)
          end
      end
  | Turn seq expired us e =>
      match waiting n !! seq with
      | None => (n, None)
      | Some q =>
          match ingest_wait seq q expired us e (acks n) (peer n) with
          | (None, a, p) => (set_peer p (set_acks a n), None)
          | (Some r, a, p) => (set_waiting (delete seq (waiting n)) (set_peer p (set_acks a n)), Some (pn_records q, r))
          end
      end
  | TakeBatch fates capped => (take_batch fates capped n, None)
  | Other r f => (set_pipe (process (tenancy (verifier (peer n))) f r (pipe n)) n, None)
  | Write k => (set_pipe (write_some k (pipe n)) n, None)
  | Sync => let q := pipe n in
      (set_pipe (mkPipe (capacity_ q) (istats q) (queue q) (written q) (List.length (written q)) (dropped q)) n, None)
  | Publish => (set_acks (publish (Z.of_nat (on_disk (pipe n))) (acks n)) n, None)
  | Stop => (set_acks (close (acks n)) n, None)
  | Crash keep k => (restart keep (power_loss k (id_file (peer n))) n, None)
  | CrashSaving seq keep k =>
      match waiting n !! seq with
      | Some q =>
          match wait seq false (acks n) with
          | (Some Synced, _) =>
              let f := id_file (peer n) in
              let bs := List.concat (fst (remember_all (pn_ids q) (dedupe (peer n)))) in
              (restart keep (power_loss k (mkFile (Dedupe.durable f) (unsynced f ++ bs))) n, None)
          | _ => (n, None)
          end
      | None => (n, None)
      end
  end.

(** The counters of one life stay within their width. *)
Definition fits (n : Node) : Prop :=
  next (acks n) < u64_max /\ Z.of_nat (List.length (written (pipe n) ++ queue (pipe n))) <= u64_max.

(** A step whose id saves lose nothing (see [short_write_scrambles_the_log]
    for one that does). *)
Definition saves_well (s : Step) : bool :=
  match s with Request _ _ a b => gentle a && gentle b | Turn _ _ _ e => gentle e | _ => true end.

Inductive reach (n0 : Node) : Node -> Prop :=
| reach_start : reach n0 n0
| reach_step n s : reach n0 n -> fits n -> saves_well s = true -> fits (fst (step n s)) -> reach n0 (fst (step n s)).
End Stepping.

(** What of the records there are, a crash keeps; and what was never queued. *)
Definition durable_ids (n : Node) : list Id := List.map event_id (stored n ++ firstn (on_disk (pipe n)) (written (pipe n))).
Definition dropped_ids (n : Node) : list Id := List.map event_id (dropped (pipe n)).
Definition accounted (n : Node) (id : Id) : Prop := id ∈ durable_ids n \/ id ∈ dropped_ids n.

Definition fresh_pipe (cap : nat) : Pipe := mkPipe cap Queue.stats0 [] [] 0 [].
Definition fresh_node (p : Peer) (cap : nat) : Node := mkNode p acks_new [] ∅ (fresh_pipe cap) [].
