(* ===== verification/PeerDurable.v ===== *)
(** What an acknowledged batch means: the invariant of the peer's node
    ([PeerIngest]) and the theorems that follow from it. *)

From S2P Require Import Prelude Text Lists Model Tenancy Json Jwt Auth Provenance Dedupe WalAcks PeerIngest.
From S2P Require Queue.
Open Scope string_scope.
Open Scope Z_scope.
Open Scope list_scope.

(** ** The pipe only grows *)

Definition submitted (p : Pipe) : list LogRecord := written p ++ queue p.
Definition ids_in (l : list LogRecord) : list Id := List.map event_id l.

Definition pipe_ok (p : Pipe) : Prop :=
  (on_disk p <= List.length (written p))%nat /\
  Queue.enqueued (istats p) = wrap64 (Z.of_nat (List.length (submitted p))).

Record Grows (p p' : Pipe) : Prop := {
  gr_submitted : exists ext, submitted p' = submitted p ++ ext;
  gr_written : exists w, written p' = written p ++ w;
  gr_dropped : exists d, dropped p' = dropped p ++ d;
  gr_disk : on_disk p' = on_disk p;
  gr_ok : pipe_ok p -> pipe_ok p'
}.

Lemma Grows_refl p : Grows p p.
Proof. constructor; [exists []; by rewrite app_nil_r|exists []; by rewrite app_nil_r|exists []; by rewrite app_nil_r|done|done]. Qed.

Lemma Grows_trans p q r : Grows p q -> Grows q r -> Grows p r.
Proof.
  intros [[e1 H1] [w1 H2] [d1 H3] H4 H5] [[e2 G1] [w2 G2] [d2 G3] G4 G5]. constructor.
  - exists (e1 ++ e2). by rewrite G1, H1, app_assoc.
  - exists (w1 ++ w2). by rewrite G2, H2, app_assoc.
  - exists (d1 ++ d2). by rewrite G3, H3, app_assoc.
  - by rewrite G4.
  - auto.
Qed.

(** The record ends up submitted or dropped. *)
Definition settled_in (p : Pipe) (id : Id) : Prop := id ∈ ids_in (submitted p) \/ id ∈ ids_in (dropped p).

Lemma ids_in_app a b : ids_in (a ++ b) = ids_in a ++ ids_in b.
Proof. apply List.map_app. Qed.

Lemma settled_grows p p' id : Grows p p' -> settled_in p id -> settled_in p' id.
Proof.
  intros [[e H1] _ [d H3] _ _] [H|H]; [left|right]; rewrite ?H1, ?H3, ids_in_app; apply elem_of_app; by left.
Qed.

Lemma drop_grows r p : Grows p (drop_record r p) /\ settled_in (drop_record r p) (event_id r).
Proof.
  split.
  - constructor; [exists []; by rewrite app_nil_r|exists []; by rewrite app_nil_r|by exists [r]|done|done].
  - right. unfold drop_record. cbn [dropped]. rewrite ids_in_app. apply elem_of_app. right. by left.
Qed.

Lemma write_some_grows n p : Grows p (write_some n p).
Proof.
  assert (submitted (write_some n p) = submitted p) as Hs.
  { unfold submitted, write_some. cbn [written queue]. by rewrite <- app_assoc, firstn_skipn. }
  constructor; [exists []; by rewrite app_nil_r|by eexists|exists []; by rewrite app_nil_r|done|].
  intros [Hd Hc]. split; [|by rewrite Hs]. unfold write_some. cbn [on_disk written]. rewrite length_app. lia.
Qed.

Definition push (s : Queue.IngestStats) (r : LogRecord) (p : Pipe) : Pipe :=
  mkPipe (capacity_ p) s (queue p ++ [r]) (written p) (on_disk p) (dropped p).

Lemma push_grows s r p : Queue.enqueued s = wadd64 (Queue.enqueued (istats p)) 1 ->
  Grows p (push s r p) /\ settled_in (push s r p) (event_id r).
Proof.
  intros He. assert (submitted (push s r p) = submitted p ++ [r]) as Hs.
  { unfold submitted, push. cbn [written queue]. by rewrite app_assoc. }
  split.
  - constructor; [by exists [r]|exists []; by rewrite app_nil_r|exists []; by rewrite app_nil_r|done|].
    intros [Hd Hc]. split; [done|]. rewrite Hs. cbn [push istats]. rewrite He, Hc, length_app. cbn [List.length].
    unfold wadd64. rewrite wrap64_add_l. f_equal. lia.
  - left. rewrite Hs, ids_in_app. apply elem_of_app. right. by left.
Qed.

Lemma lose_grows s r p : Queue.enqueued s = Queue.enqueued (istats p) ->
  Grows p (mkPipe (capacity_ p) s (queue p) (written p) (on_disk p) (dropped p ++ [r])) /\
  settled_in (mkPipe (capacity_ p) s (queue p) (written p) (on_disk p) (dropped p ++ [r])) (event_id r).
Proof.
  intros He. split.
  - constructor; [exists []; by rewrite app_nil_r|exists []; by rewrite app_nil_r|by exists [r]|done|].
    intros [Hd Hc]. split; [done|]. cbn [istats]. by rewrite He.
  - right. cbn [dropped]. rewrite ids_in_app. apply elem_of_app. right. by left.
Qed.

Lemma submit_counts s r try wait s' a : Queue.submit s r try wait = (s', a) ->
  Queue.enqueued s' = (match a with Queue.Enqueued => wadd64 (Queue.enqueued s) 1 | _ => Queue.enqueued s end).
Proof.
  unfold Queue.submit. destruct try; [by intros [= <- <-]| |by intros [= <- <-]].
  destruct (negb _); [|destruct wait]; intros [= <- <-]; try done.
  all: destruct (level_class r); done.
Qed.

Lemma submit_grows f r p : Grows p (submit_record f r p) /\ settled_in (submit_record f r p) (event_id r).
Proof.
  unfold submit_record. destruct (Queue.submit _ _ _ _) as [s a] eqn:E. apply submit_counts in E.
  match goal with |- context [if ?b then write_some ?k p else p] => set (q := if b then write_some k p else p) end.
  assert (Grows p q /\ istats q = istats p) as [Hq Hi].
  { unfold q. destruct (_ && _ && _); [split; [apply write_some_grows|done]|split; [apply Grows_refl|done]]. }
  clearbody q. rewrite <- Hi in E. clear Hi. destruct a; cbn in E.
  - destruct (push_grows s r q E) as [H1 H2]. split; [by eapply Grows_trans|exact H2].
  - destruct (lose_grows s r q E) as [H1 H2]. split; [by eapply Grows_trans|exact H2].
  - destruct (lose_grows s r q E) as [H1 H2]. split; [by eapply Grows_trans|exact H2].
Qed.

Lemma route_record_event_id t key r : event_id (snd (route_record t key r)) = event_id r.
Proof.
  unfold route_record. destruct (tenant_of t r); [|done]. by destruct (route_in _ _ _).
Qed.

Lemma process_grows t f r p : Grows p (process t f r p) /\ settled_in (process t f r p) (event_id r).
Proof.
  unfold process. pose proof (route_record_event_id t ATTR_INDEX r) as Hid.
  destruct (route_record t ATTR_INDEX r) as [route r1]. cbn [snd] in Hid. rewrite <- Hid.
  assert (forall r2, event_id r2 = event_id r1 -> Grows p (at_door f r2 p) /\ settled_in (at_door f r2 p) (event_id r1)) as Hgo.
  { intros r2 <-. unfold at_door. destruct (_ && _); [apply drop_grows|apply submit_grows]. }
  destruct route; [| |apply drop_grows].
  all: apply Hgo; by destruct (template_id r1).
Qed.

Lemma process_all_grows t records : forall fates p, Grows p (process_all t fates records p) /\
  ((List.length records <= List.length fates)%nat ->
   forall r, r ∈ records -> settled_in (process_all t fates records p) (event_id r)).
Proof.
  induction records as [|r records IH]; intros fates p.
  { destruct fates; (split; [apply Grows_refl|intros _ ? H; by apply not_elem_of_nil in H]). }
  destruct fates as [|f fates]; cbn [process_all].
  { split; [apply Grows_refl|]. cbn [List.length]. lia. }
  destruct (process_grows t f r p) as [H1 H2]. destruct (IH fates (process t f r p)) as [H3 H4].
  split; [by eapply Grows_trans|]. cbn [List.length]. intros Hl x [->|Hx]%elem_of_cons; [|apply H4; [lia|done]].
  by eapply settled_grows.
Qed.

(** ** The invariant *)

(** The ids of the batch a ticket is for. *)
Definition ids_of (n : Node) (seq : Z) : list Id :=
  match waiting n !! seq with Some q => pn_ids q | None => late_ids (acks n) seq end.

Record AcksInv (n : Node) : Prop := {
  ai_table : Table (acks n) (dom (waiting n));
  ai_synced : synced (acks n) <= Z.of_nat (on_disk (pipe n));
  ai_pipe : pipe_ok (pipe n);
  ai_bound : forall seq t w id, tickets (acks n) !! seq = Some t -> watermark t = Some w -> id ∈ ids_of n seq ->
    id ∈ ids_in (firstn (Z.to_nat w) (submitted (pipe n))) \/ id ∈ dropped_ids n;
  ai_chan : forall seq records, (seq, records) ∈ chan n ->
    seq < next (acks n) /\ (is_Some (tickets (acks n) !! seq) -> ids_in records = ids_of n seq);
  ai_ids : forall seq, Forall id_ok (ids_of n seq)
}.

Definition PeerOk (P : Id -> Prop) (p : Peer) : Prop :=
  exists l, Holds (dedupe p) (id_file p) l /\ Forall P (order (dedupe p)).
Definition PeerInv (n : Node) : Prop := PeerOk (accounted n) (peer n).

(** What a request's record came to. *)
Definition covered (n : Node) (ids : list Id) (r : LogRecord) : Prop :=
  is_loop r (instance (peer n)) = true \/ event_id r ∈ ids \/ accounted n (event_id r).

Definition WaitInv (n : Node) : Prop :=
  forall seq q, waiting n !! seq = Some q -> Forall (covered n (pn_ids q)) (pn_records q).

Definition Inv (n : Node) : Prop := AcksInv n /\ PeerInv n /\ WaitInv n.

Lemma ids_in_firstn a b l (id : Id) : (a <= b)%nat -> id ∈ ids_in (firstn a l) -> id ∈ ids_in (firstn b l).
Proof.
  intros Hab. rewrite <- (firstn_skipn a (firstn b l)), firstn_firstn, Nat.min_l, ids_in_app by done.
  intros H. apply elem_of_app. by left.
Qed.

Lemma firstn_app_le {A} k (a b : list A) : (k <= List.length a)%nat -> firstn k (a ++ b) = firstn k a.
Proof. intros H. rewrite firstn_app. replace (k - List.length a)%nat with O by lia. by rewrite firstn_O, app_nil_r. Qed.

(** A ticket the log has reached is for records that are on disk. *)
Lemma durable_accounted n seq t id : AcksInv n -> tickets (acks n) !! seq = Some t ->
  WalAcks.durable (synced (acks n)) t = true -> id ∈ ids_of n seq -> accounted n id.
Proof.
  intros Hi Ht Hd Hin. unfold WalAcks.durable in Hd. destruct (watermark t) as [w|] eqn:Ew; [|done]. apply Z.leb_le in Hd.
  pose proof (ai_synced _ Hi) as Hs. pose proof (ai_pipe _ Hi) as [Hdisk _].
  destruct (ai_bound _ Hi seq t w id Ht Ew Hin) as [H|H]; [|by right]. left.
  apply (ids_in_firstn _ (on_disk (pipe n))) in H; [|lia]. unfold submitted in H. rewrite firstn_app_le in H by done.
  unfold durable_ids. rewrite List.map_app. apply elem_of_app. by right.
Qed.

(** *** The pipe moves on *)

Record Extends (p p' : Pipe) : Prop := {
  ex_submitted : exists ext, submitted p' = submitted p ++ ext;
  ex_written : exists w, written p' = written p ++ w;
  ex_dropped : exists d, dropped p' = dropped p ++ d;
  ex_disk : (on_disk p <= on_disk p')%nat;
  ex_ok : pipe_ok p -> pipe_ok p'
}.

Lemma grows_extends p p' : Grows p p' -> Extends p p'.
Proof. intros [H1 H2 H3 H4 H5]. constructor; [done|done|done|by rewrite H4|done]. Qed.

Lemma extends_accounted n p' id : pipe_ok (pipe n) -> Extends (pipe n) p' -> accounted n id -> accounted (set_pipe p' n) id.
Proof.
  intros [Hd _] [_ [w Hw] [d He] Hk _] [H|H]; [left|right].
  - unfold durable_ids in *. cbn [stored pipe set_pipe]. rewrite List.map_app in *.
    apply elem_of_app in H as [H|H]; apply elem_of_app; [by left|right].
    rewrite Hw. apply (ids_in_firstn _ (on_disk p')) in H; [|done].
    destruct (decide (on_disk p' <= List.length (written (pipe n)))%nat) as [Hle|Hgt]; [by rewrite firstn_app_le|].
    rewrite firstn_app, firstn_all2 by lia. rewrite firstn_all2 in H by lia. fold (ids_in (written (pipe n) ++ firstn (on_disk p' - List.length (written (pipe n))) w)).
    rewrite ids_in_app. apply elem_of_app. by left.
  - unfold dropped_ids in *. cbn [pipe set_pipe]. rewrite He, List.map_app. apply elem_of_app. by left.
Qed.

Lemma firstn_submitted k a b (id : Id) : id ∈ ids_in (firstn k a) -> id ∈ ids_in (firstn k (a ++ b)).
Proof. rewrite firstn_app, ids_in_app. intros H. apply elem_of_app. by left. Qed.

(** What the invariant says of the requests and of the window only gets
    weaker as more is accounted for. *)
Lemma covered_later n n' ids r : instance (peer n') = instance (peer n) -> (forall id, accounted n id -> accounted n' id) ->
  covered n ids r -> covered n' ids r.
Proof. intros He Hm. unfold covered. rewrite He. intuition. Qed.

Lemma window_later n n' : dedupe (peer n') = dedupe (peer n) -> id_file (peer n') = id_file (peer n) ->
  (forall id, accounted n id -> accounted n' id) -> PeerInv n -> PeerInv n'.
Proof.
  intros Hw Hf Hm (l & Hh & Ha). exists l. rewrite Hw, Hf. split; [done|]. eapply Forall_impl; [exact Ha|done].
Qed.

Lemma pipe_inv n p' : Extends (pipe n) p' -> Inv n -> Inv (set_pipe p' n).
Proof.
  intros He (Ha & Hp & Hw). pose proof (fun id => extends_accounted n p' id (ai_pipe _ Ha) He) as Hm.
  destruct Ha as [H1 H2 H3 H4 H5 H6], He as [[e E1] _ [d E3] E4 E5]. split; [|split].
  - constructor; cbn [acks waiting pipe chan set_pipe]; [done|lia|auto| |done|done].
    intros seq t w id Ht Hwt Hin. destruct (H4 seq t w id Ht Hwt Hin) as [H|H]; [left|right].
    + rewrite E1. by apply firstn_submitted.
    + unfold dropped_ids in *. cbn [pipe set_pipe]. rewrite E3, List.map_app. apply elem_of_app. by left.
  - by apply (window_later n).
  - intros seq q Hq. eapply Forall_impl; [by apply (Hw seq)|]. intros r. by apply covered_later.
Qed.

(** *** The handler *)

Definition same_window (p p' : Peer) : Prop :=
  instance p' = instance p /\ dedupe p' = dedupe p /\ id_file p' = id_file p.

Lemma same_window_ok P p p' : same_window p p' -> PeerOk P p -> PeerOk P p'.
Proof. intros (_ & H1 & H2) (l & Hh & Ha). exists l. by rewrite H1, H2. Qed.

Lemma keep_ids_in cap ids : forall l x, x ∈ keep_ids cap ids l -> x ∈ l \/ x ∈ ids.
Proof.
  unfold keep_ids. induction ids as [|i ids IH]; intros l x; [by left|]. cbn [foldl]. intros H.
  apply IH in H as [H|H]; [|right; by right]. unfold keep_id in H. case_bool_decide; [by left|].
  unfold lastn in H. apply list_elem_of_In in H. assert (In x (l ++ [i])) as H'.
  { rewrite <- (firstn_skipn (List.length (l ++ [i]) - cap) (l ++ [i])). apply in_or_app. by right. }
  apply in_app_or in H' as [H'|[->|[]]]; [left; by apply list_elem_of_In|right; by left].
Qed.

Lemma save_ids_ok P ids e p : gentle e = true -> Forall id_ok ids -> Forall P ids -> PeerOk P p ->
  PeerOk P (save_ids ids e p) /\ instance (save_ids ids e p) = instance p.
Proof.
  intros He Hid Hp (l & Hh & Ha). unfold save_ids. destruct (insert_all ids e (dedupe p) (id_file p)) as [[ok w] f] eqn:E.
  eapply insert_holds in E as (_ & Ho & l' & Hh' & _); [|done..]. assert (PeerOk P (set_dedupe w f p)) as Hw.
  { exists l'. cbn [dedupe id_file set_dedupe]. split; [done|]. rewrite Ho. apply Forall_forall. intros x Hx.
    apply keep_ids_in in Hx as [Hx|Hx]; (rewrite Forall_forall in Ha; rewrite Forall_forall in Hp; auto). }
  destruct ok; (split; [|done]); [done|]. by eapply same_window_ok; [|exact Hw].
Qed.

Lemma sift_spec inst w records : members w = list_to_set (order w) ->
  forall seen keep d l, sift inst w seen records = (keep, d, l) ->
  sublist keep records /\ Z.of_nat (List.length keep) + d + l = Z.of_nat (List.length records) /\ 0 <= d /\ 0 <= l /\
  Forall (fun r => is_loop r inst = true \/ event_id r ∈ order w \/ event_id r ∈ seen \/ event_id r ∈ ids_in keep) records.
Proof.
  intros Hm. induction records as [|r records IH]; intros seen keep d l H; cbn [sift] in H.
  { injection H as <- <- <-. split; [constructor|]. split; [done|]. split; [lia|]. split; [lia|constructor]. }
  destruct (is_loop r inst) eqn:El; [|destruct (Dedupe.contains (event_id r) w || _) eqn:Ed].
  all: destruct (sift inst w _ records) as [[k d'] l'] eqn:E; injection H as <- <- <-;
    destruct (IH _ _ _ _ E) as (H1 & H2 & H3 & H4 & H5); cbn [List.length ids_in List.map].
  - split; [by apply sublist_cons|]. split; [lia|]. split; [lia|]. split; [lia|]. apply Forall_cons_2; [by left|done].
  - split; [by apply sublist_cons|]. split; [lia|]. split; [lia|]. split; [lia|].
    apply Forall_cons_2; [|done]. right. unfold Dedupe.contains in Ed. rewrite Hm in Ed.
    apply orb_true_iff in Ed as [Ed|Ed]; apply bool_decide_eq_true in Ed; [left; by apply elem_of_list_to_set in Ed|right; by left].
  - split; [by apply sublist_skip|]. split; [lia|]. split; [lia|]. split; [lia|].
    apply Forall_cons_2; [right; right; right; by left|]. eapply Forall_impl; [exact H5|]. intros x. cbv beta.
    rewrite elem_of_union, elem_of_singleton, elem_of_cons. intuition.
Qed.

Lemma retain_bound_ids (P : Id -> Prop) v p key records : forall chosen,
  Forall (fun r => P (event_id r)) records -> Forall (fun r => P (event_id r)) (retain_bound v p key chosen records).
Proof.
  induction records as [|r records IH]; intros chosen Hr; [by destruct chosen as [|[?|] ?]|].
  apply Forall_cons in Hr as [Hr Hrs]. destruct chosen as [|[i|] chosen]; cbn [retain_bound]; [constructor| |by apply IH].
  apply Forall_cons_2; [|by apply IH]. unfold bind_record. by destruct (negb (route_indexes v)).
Qed.

Lemma admit_ids (P : Id -> Prop) now who records key whole v out kept v' :
  admit_batch now who records key whole v = (inr (out, kept), v') ->
  Forall (fun r => P (event_id r)) records -> Forall (fun r => P (event_id r)) kept.
Proof.
  unfold admit_batch. destruct (choose _ _ _ _) as [[chosen o]|]; [|done]. destruct (whole && _); [done|].
  intros [= _ <- _]. apply retain_bound_ids.
Qed.

(** *** The tickets *)

Definition with_acks (p : Peer) (a : Acks) (w : gmap Z Pending) (n : Node) : Node :=
  mkNode p a (chan n) w (pipe n) (stored n).

Lemma not_held n seq : AcksInv n -> tickets (acks n) !! seq = None -> ids_of n seq = [].
Proof.
  intros Hi Hn. unfold ids_of. destruct (waiting n !! seq) as [q|] eqn:E.
  - assert (seq ∈ dom (tickets (acks n))) as H.
    { rewrite (ta_keys _ _ (ai_table _ Hi)). apply elem_of_union. left. apply elem_of_dom. by exists q. }
    apply elem_of_dom in H as [t H]. by rewrite H in Hn.
  - unfold late_ids. by rewrite Hn.
Qed.

(** Tickets only go, or keep what they cover. *)
Lemma acks_narrow n p a w : AcksInv n -> Table a (dom w) -> synced a <= Z.of_nat (on_disk (pipe n)) -> next (acks n) <= next a ->
  (forall seq t, tickets a !! seq = Some t -> (exists t0, tickets (acks n) !! seq = Some t0 /\ watermark t = watermark t0) /\
    ids_of (with_acks p a w n) seq = ids_of n seq) ->
  AcksInv (with_acks p a w n).
Proof.
  intros [H1 H2 H3 H4 H5 H6] Ht Hs Hx Hk. constructor; cbn [acks waiting pipe chan with_acks]; [done|done|done| | |].
  - intros seq t wm id Et Ew Hin. destruct (Hk seq t Et) as [(t0 & E0 & Hw) Hids]. rewrite Hids in Hin. rewrite Hw in Ew. by eapply H4.
  - intros seq records Hin. destruct (H5 seq records Hin) as [Hlt Hsame]. split; [lia|]. intros [t Et].
    destruct (Hk seq t Et) as [(t0 & E0 & _) Hids]. rewrite Hids. apply Hsame. by exists t0.
  - intros seq. destruct (tickets a !! seq) as [t|] eqn:Et; [destruct (Hk seq t Et) as [_ ->]; apply H6|].
    assert (w !! seq = None) as Hw.
    { destruct (w !! seq) as [q|] eqn:E; [|done]. assert (seq ∈ dom (tickets a)) as H.
      { rewrite (ta_keys _ _ Ht). apply elem_of_union. left. apply elem_of_dom. by exists q. }
      apply elem_of_dom in H as [t H]. by rewrite H in Et. }
    unfold ids_of, late_ids. cbn [waiting acks with_acks]. rewrite Hw, Et. constructor.
Qed.

Lemma settle_inv n p late a : AcksInv n -> settle (acks n) = (late, a) ->
  AcksInv (with_acks p a (waiting n) n) /\ Forall (accounted n) late /\ Forall id_ok late.
Proof.
  intros Hi E. pose proof (ai_table _ Hi) as Ht. pose proof (settle_table _ _ _ _ Ht E) as Ht'.
  pose proof (settle_spec _ _ _ _ Ht E) as (Hl & Hg & Hm & Hs & Hx & Hc).
  assert (forall seq t, tickets a !! seq = Some t -> tickets (acks n) !! seq = Some t) as Hsub.
  { intros seq t. rewrite Hm, foldr_delete_lookup. by case_bool_decide. }
  split.
  - apply acks_narrow; [done|done|rewrite Hs; apply Hi|lia|]. intros seq t Et. split; [exists t; auto|].
    unfold ids_of, late_ids. cbn [waiting acks with_acks]. by rewrite Et, (Hsub _ _ Et).
  - assert (forall id, id ∈ late -> exists seq t, tickets (acks n) !! seq = Some t /\
      WalAcks.durable (synced (acks n)) t = true /\ id ∈ ids_of n seq) as Hin.
    { intros id H. rewrite Hl in H. apply list_elem_of_In, in_flat_map in H as (seq & H1 & H2).
      apply filter_In in H1 as [H1 H3]. unfold settles in H3. destruct (tickets (acks n) !! seq) as [t|] eqn:Et; [|done].
      exists seq, t. split; [done|]. split; [done|]. unfold ids_of.
      destruct (waiting n !! seq) as [q|] eqn:Ew; [|by apply list_elem_of_In].
      exfalso. apply (ta_apart _ _ Ht seq); [apply elem_of_dom; by exists q|apply elem_of_list_to_set; by apply list_elem_of_In]. }
    split; apply Forall_forall; intros id (seq & t & H1 & H2 & H3)%Hin; [by eapply durable_accounted|].
    pose proof (ai_ids _ Hi seq) as Hok. rewrite Forall_forall in Hok. auto.
Qed.

(** A request that is answered gives its ticket back, or leaves it to be
    settled. *)
Lemma answer_inv n p seq a : AcksInv n -> is_Some (waiting n !! seq) ->
  a = forget seq (acks n) \/ a = abandon seq (ids_of n seq) (acks n) ->
  AcksInv (with_acks p a (delete seq (waiting n)) n).
Proof.
  intros Hi [q Eq] Ha. pose proof (ai_table _ Hi) as Ht.
  assert (seq ∈ dom (waiting n)) as Hin by (apply elem_of_dom; by exists q).
  assert (ids_of n seq = pn_ids q) as Hids by (unfold ids_of; by rewrite Eq).
  assert (Table a (dom (delete seq (waiting n)))) as Ht'.
  { rewrite dom_delete_L. destruct Ha as [->| ->]; [by apply forget_table|by apply abandon_table]. }
  destruct Ha as [->| ->].
  - apply acks_narrow; [done|done|apply Hi|done|]. intros s t. cbn [forget set_tickets tickets].
    intros [Hne Et]%lookup_delete_Some. split; [by exists t|].
    unfold ids_of, late_ids. cbn [waiting acks with_acks tickets forget set_tickets]. by rewrite !lookup_delete_ne.
  - remember (ids_of n seq) as ids eqn:Hid. revert Ht'. unfold abandon. assert (seq ∈ dom (tickets (acks n))) as Hd by (rewrite (ta_keys _ _ Ht); set_solver).
    apply elem_of_dom in Hd as [t0 Et0]. rewrite Et0.
    destruct (evict _ _) as [l m] eqn:Ee. intros Ht'.
    assert (base.NoDup (given_up (acks n) ++ [seq])) as Hnd.
    { apply NoDup_app. split; [apply Ht|]. split; [|apply NoDup_singleton]. intros x H1 H2%list_elem_of_singleton. subst x.
      apply (ta_apart _ _ Ht seq); [done|by apply elem_of_list_to_set]. }
    destruct (evict_spec _ (<[seq := mkTicket (watermark t0) (Some ids)]> (tickets (acks n))) Hnd) as (gone & _ & _ & _ & Hm).
    rewrite Ee in Hm. cbn [snd] in Hm.
    apply acks_narrow; [done|done|apply Hi|done|]. intros s t. cbn [tickets].
    rewrite Hm, foldr_delete_lookup. case_bool_decide; [done|]. rewrite lookup_insert_Some.
    intros [[<- <-]|[Hne Et]].
    + split; [by exists t0|]. rewrite <- Hid. unfold ids_of, late_ids. cbn [waiting acks with_acks tickets].
      by rewrite lookup_delete_eq, foldr_delete_lookup, bool_decide_eq_false_2, lookup_insert_eq.
    + split; [by exists t|]. unfold ids_of, late_ids. cbn [waiting acks with_acks tickets].
      rewrite foldr_delete_lookup, bool_decide_eq_false_2 by done. by rewrite lookup_delete_ne, lookup_insert_ne.
Qed.

Lemma enqueued_all p : pipe_ok p -> Z.of_nat (List.length (submitted p)) <= u64_max ->
  Z.to_nat (Queue.enqueued (istats p)) = List.length (submitted p).
Proof. intros [_ ->] H. rewrite wrap64_small by (unfold u64_range; lia). lia. Qed.

Lemma bind_inv n seq : AcksInv n -> fits n -> (forall id, id ∈ ids_of n seq -> settled_in (pipe n) id) ->
  AcksInv (set_acks (WalAcks.bind seq (Queue.enqueued (istats (pipe n))) (acks n)) n).
Proof.
  intros Hi [_ Hf] Hs. pose proof (bind_table _ _ seq (Queue.enqueued (istats (pipe n))) (ai_table _ Hi)) as Ht.
  pose proof (enqueued_all _ (ai_pipe _ Hi) Hf) as Hen. unfold WalAcks.bind in *.
  destruct (tickets (acks n) !! seq) as [t|] eqn:E; [|by destruct Hi].
  assert (forall s, ids_of (set_acks (set_tickets (<[seq:=mkTicket (Some (Queue.enqueued (istats (pipe n)))) (abandoned t)]> (tickets (acks n))) (acks n)) n) s = ids_of n s) as Hids.
  { intros s. unfold ids_of, late_ids. cbn [waiting acks set_acks tickets set_tickets]. destruct (waiting n !! s); [done|].
    destruct (decide (s = seq)) as [->|Hne]; [by rewrite lookup_insert_eq, E|by rewrite lookup_insert_ne]. }
  destruct Hi as [H1 H2 H3 H4 H5 H6]. constructor; [done|done|done| | |].
  - intros s t' w id. rewrite Hids. cbn [acks set_acks tickets set_tickets pipe].
    rewrite lookup_insert_Some. intros [[<- <-]|[Hne Et]]; [|by eapply H4]. cbn [watermark]. intros [= <-] Hin.
    rewrite Hen, firstn_all. by apply Hs.
  - intros s records Hin. rewrite Hids. cbn [acks set_acks tickets set_tickets chan] in *.
    destruct (H5 s records Hin) as [Hlt Hsame]. split; [done|]. intros Hs'. apply Hsame.
    destruct (decide (s = seq)) as [->|Hne]; [by exists t|by rewrite lookup_insert_ne in Hs'].
  - intros s. rewrite Hids. apply H6.
Qed.

Lemma publish_inv n : AcksInv n -> AcksInv (set_acks (publish (Z.of_nat (on_disk (pipe n))) (acks n)) n).
Proof.
  intros Hi. apply (acks_narrow n (peer n) _ (waiting n)); [done|apply publish_table, Hi|simpl; lia|simpl; lia|].
  intros seq t Et. split; [by exists t|done].
Qed.

Lemma close_inv n : AcksInv n -> AcksInv (set_acks (close (acks n)) n).
Proof.
  intros Hi. apply (acks_narrow n (peer n) _ (waiting n)); [done|apply close_table, Hi|apply Hi|simpl; lia|].
  intros seq t Et. split; [by exists t|done].
Qed.

Lemma chan_inv n rest : (forall x, x ∈ rest -> x ∈ chan n) -> AcksInv n -> AcksInv (set_chan rest n).
Proof. intros Hr [H1 H2 H3 H4 H5 H6]. constructor; [done..| |done]. intros seq records Hin. by apply H5, Hr. Qed.

Lemma pending_inv n p seq a records q : AcksInv n -> next (acks n) < u64_max -> issue (acks n) = (seq, a) ->
  pn_ids q = ids_in records -> Forall id_ok (pn_ids q) ->
  AcksInv (mkNode p a (chan n ++ [(seq, records)]) (<[seq := q]> (waiting n)) (pipe n) (stored n)).
Proof.
  intros Hi Hlt He Hids Hok. destruct (issue_table _ _ _ _ (ai_table _ Hi) Hlt He) as (Ht & Hnew & Hnt & Hx).
  unfold issue in He. injection He as <- <-. destruct Hi as [H1 H2 H3 H4 H5 H6].
  match goal with |- AcksInv ?m => set (n' := m) end.
  assert (ids_of n' (next (acks n)) = ids_in records) as Hself.
  { unfold ids_of, n'. cbn [waiting]. by rewrite lookup_insert_eq. }
  assert (forall s, s <> next (acks n) -> ids_of n' s = ids_of n s) as Hother.
  { intros s Hne. unfold ids_of, n', late_ids. cbn [waiting acks tickets]. by rewrite !lookup_insert_ne. }
  constructor; [| |done| | |]; unfold n' in *; cbn [acks waiting pipe chan tickets next synced] in *.
  - by rewrite dom_insert_L.
  - done.
  - intros s t w id. rewrite lookup_insert_Some. intros [[<- <-]|[Hne Et]] Hw Hin; [done|]. rewrite Hother in Hin by done. by eapply H4.
  - intros s rs [Hin|Hin%list_elem_of_singleton]%elem_of_app.
    + destruct (H5 s rs Hin) as [Hs Hsame]. split; [lia|]. assert (s <> next (acks n)) as Hne by lia.
      rewrite Hother, lookup_insert_ne by done. done.
    + injection Hin as -> ->. split; [lia|done].
  - intros s. destruct (decide (s = next (acks n))) as [->|Hne]; [by rewrite Hself, <- Hids|]. rewrite Hother by done. apply H6.
Qed.

Lemma forgotten_inv n p seq a : AcksInv n -> next (acks n) < u64_max -> issue (acks n) = (seq, a) ->
  AcksInv (with_acks p (forget seq a) (waiting n) n).
Proof.
  intros Hi Hlt He. destruct (issue_table _ _ _ _ (ai_table _ Hi) Hlt He) as (Ht & Hnew & Hnt & Hx).
  assert (tickets (forget seq a) = tickets (acks n)) as Hsame.
  { unfold issue in He. injection He as <- <-. cbn [tickets forget set_tickets]. apply delete_insert_id. by apply not_elem_of_dom. }
  assert (dom (waiting n) = ({[seq]} ∪ dom (waiting n)) ∖ {[seq]}) as Hd by set_solver.
  apply acks_narrow; [done| | | |].
  - rewrite Hd. apply forget_table; [done|set_solver].
  - unfold issue in He. injection He as <- <-. apply Hi.
  - cbn [next forget set_tickets]. lia.
  - intros s t. rewrite Hsame. intros Et. split; [by exists t|]. unfold ids_of, late_ids. cbn [waiting acks with_acks]. by rewrite Hsame.
Qed.

(** *** A restart *)

Lemma restart_accounted keep bs n id : pipe_ok (pipe n) -> accounted n id -> accounted (restart keep bs n) id.
Proof.
  intros _ [H|H]; [left|right]; unfold restart; destruct (window_open _ _) as [w f].
  - unfold durable_ids in *. cbn [stored pipe written on_disk]. rewrite firstn_nil, app_nil_r, !List.map_app in *.
    apply elem_of_app in H as [H|H]; apply elem_of_app; [by left|right; apply elem_of_app; by left].
  - exact H.
Qed.

Lemma restart_inv keep ids k n : Inv n -> Forall (accounted n) ids -> Forall id_ok ids ->
  let f := id_file (peer n) in
  Inv (restart keep (power_loss k (mkFile (Dedupe.durable f) (unsynced f ++ List.concat (fst (remember_all ids (dedupe (peer n))))))) n).
Proof.
  intros (Ha & (l & Hh & Hw) & Hq) Hacc Hid f. set (bs := power_loss _ _).
  destruct (event (dedupe (peer n), f) (CutSave ids k)) as [w' f'] eqn:E.
  pose proof (event_holds _ _ _ _ _ _ _ Hh eq_refl (Hid : event_ok (CutSave ids k)) E) as (_ & (m & Hm) & l' & Hh').
  cbn [event] in E. assert (forall id, accounted n id -> accounted (restart keep bs n) id) as Hlater.
  { intros id. apply restart_accounted, Ha. }
  assert (restart keep bs n = mkNode (mkPeer (instance (peer n)) (ack_wait_secs (peer n)) w' f' peer_stats0 (verifier (peer n)) (open_listener (peer n)))
    acks_new [] ∅ (mkPipe (capacity_ (pipe n)) Queue.stats0 [] [] 0 (dropped (pipe n)))
    (stored n ++ firstn (on_disk (pipe n)) (written (pipe n)) ++ masked keep (skipn (on_disk (pipe n)) (written (pipe n))))) as Hr.
  { unfold restart. fold f in E. unfold bs. by rewrite E. }
  split; [|split].
  - rewrite Hr. constructor; cbn [acks waiting pipe chan].
    + rewrite dom_empty_L. apply acks_new_table.
    + simpl; lia.
    + split; [simpl; lia|done].
    + intros seq t w id H. unfold acks_new in H. cbn [tickets] in H. by rewrite lookup_empty in H.
    + intros seq records H. by apply not_elem_of_nil in H.
    + intros seq. unfold ids_of, late_ids. cbn [waiting acks tickets acks_new]. rewrite !lookup_empty. constructor.
  - unfold PeerInv. exists l'. rewrite Hr. cbn [peer dedupe id_file]. split; [done|]. rewrite <- Hr, Hm.
    apply Forall_forall. intros x Hx. apply Hlater. apply keep_ids_in in Hx as [Hx|Hx].
    + rewrite Forall_forall in Hw. by apply Hw.
    + rewrite Forall_forall in Hacc. apply Hacc. rewrite <- (firstn_skipn m ids). apply elem_of_app. by left.
  - rewrite Hr. intros seq q H. cbn [waiting] in H. by rewrite lookup_empty in H.
Qed.

(** *** Every step keeps the invariant *)

Section Steps.
Variable sha256 : bytes -> bytes.
Variable from_slice : bytes -> option Json.
Variable ed25519 : bytes -> bytes -> bytes -> bool.
Variable record_from_slice : bytes -> option LogRecord.
(** A [Uuid] is 16 bytes. *)
Hypothesis record_ids : forall bs r, record_from_slice bs = Some r -> id_ok (event_id r).

Lemma parse_lines_ids lines : forall index records, parse_lines record_from_slice index lines = inr records ->
  Forall (fun r => id_ok (event_id r)) records.
Proof.
  induction lines as [|line lines IH]; intros index records; cbn [parse_lines]; [intros [= <-]; constructor|].
  destruct (forallb _ line); [apply IH|]. destruct (record_from_slice line) as [r|] eqn:E; [|done].
  destruct (parse_lines _ _ lines) as [|l] eqn:El; [done|]. intros [= <-]. apply Forall_cons_2; [by eapply record_ids|by eapply IH].
Qed.

Lemma authenticated_window c op p res p' : authenticated sha256 from_slice ed25519 c op p = (res, p') -> same_window p p'.
Proof. unfold authenticated. destruct (authorize _ _ _ _ _ _ _ _ _ _ _) as [[r|w] v]; by intros [= _ <-]. Qed.

Lemma before_inv n c body e res a p : Inv n -> gentle e = true ->
  ingest_before sha256 from_slice ed25519 record_from_slice c body e (Some (acks n)) (peer n) = (res, a, p) ->
  exists a', a = Some a' /\ AcksInv (with_acks p a' (waiting n) n) /\ PeerOk (accounted n) p /\
    instance p = instance (peer n) /\ next a' = next (acks n) /\
    match res with
    | inl r => acknowledges r = false
    | inr sf => Forall (covered n (ids_in (sf_keep sf))) (sf_records sf) /\ Forall id_ok (ids_in (sf_keep sf))
    end.
Proof.
  intros (Ha & Hp & Hw) He. unfold ingest_before.
  assert (forall q, AcksInv (with_acks q (acks n) (waiting n) n)) as Hsame by (intros q; by destruct Ha).
  destruct (authenticated _ _ _ c OpIngest _) as [[denied|who] p1] eqn:Eau; pose proof Eau as Hsw; apply authenticated_window in Hsw.
  { assert (acknowledges denied = false) as Hd.
    { unfold authenticated in Eau. destruct (authorize _ _ _ _ _ _ _ _ _ _ _) as [[r|?] v]; [|done]. injection Eau as <- _. by destruct r. }
    intros [= <- <- <-]. exists (acks n). split; [done|]. split; [done|]. split; [by eapply same_window_ok|]. split; [apply Hsw|done]. }
  destruct (parse_lines _ 0 _) as [line|records] eqn:El.
  { intros [= <- <- <-]. exists (acks n). split; [done|]. split; [done|]. split; [by eapply same_window_ok|]. split; [apply Hsw|done]. }
  apply parse_lines_ids in El. destruct (admit_batch _ _ _ _ _ _) as [[x|[out kept]] v] eqn:Ead.
  { intros [= <- <- <-]. exists (acks n). split; [done|]. split; [done|]. split; [by eapply same_window_ok|]. split; [apply Hsw|done]. }
  apply (admit_ids id_ok) in Ead; [|done]. cbn [settle_late].
  destruct (settle (acks n)) as [late a1] eqn:Es.
  set (p2 := set_verifier v _). assert (same_window (peer n) p2) as H2.
  { destruct Hsw as (G1 & G2 & G3). by split. }
  clearbody p2. pose proof (settle_spec _ _ _ _ (ai_table _ Ha) Es) as (_ & _ & _ & _ & Hx & _).
  destruct (settle_inv n p late a1 Ha Es) as (_ & Hlate & Hlid).
  set (p3 := match late with [] => p2 | _ => _ end).
  assert (PeerOk (accounted n) p3 /\ instance p3 = instance (peer n)) as [Hp3 Hi3].
  { unfold p3. destruct late as [|i0 late0]; [split; [by eapply same_window_ok|apply H2]|].
    destruct (save_ids_ok (accounted n) (i0 :: late0) e (tally StSettledLate (Z.of_nat (List.length (i0 :: late0))) p2)) as [G1 G2];
      [done|done|done|by eapply same_window_ok; [|exact Hp]|]. split; [done|]. rewrite G2. apply H2. }
  clearbody p3. destruct (sift _ _ _ _) as [[keep d] l] eqn:Esi. intros [= <- <- <-].
  exists a1. split; [done|]. split; [by apply settle_inv with (late := late)|]. split; [done|]. split; [done|]. split; [done|].
  cbn [sf_keep sf_records]. pose proof Hp3 as (lg & Hh & Hacc).
  destruct (sift_spec _ _ _ (wi_set _ (ho_inv _ _ _ Hh)) _ _ _ _ Esi) as (Hsub & _ & _ & _ & Hall). split.
  - eapply Forall_impl; [exact Hall|]. intros r. cbv beta. unfold covered. rewrite Hi3. rewrite Forall_forall in Hacc.
    intros [H|[H|[H|H]]]; [by left|right; right; by apply Hacc|by apply not_elem_of_empty in H|right; by left].
  - apply Forall_map. by eapply sublist_Forall.
Qed.

Abbreviation step := (step sha256 from_slice ed25519 record_from_slice).

Lemma accounted_eq n n' : stored n' = stored n -> pipe n' = pipe n -> forall id, accounted n id <-> accounted n' id.
Proof. intros H1 H2 id. unfold accounted, durable_ids, dropped_ids. by rewrite H1, H2. Qed.

Lemma covered_eq n n' ids r : stored n' = stored n -> pipe n' = pipe n -> instance (peer n') = instance (peer n) ->
  covered n ids r -> covered n' ids r.
Proof. intros H1 H2 H3. apply covered_later; [done|]. intros id. by apply accounted_eq. Qed.

(** A node whose handler and tickets moved on, its pipe untouched. *)
Lemma moved_inv n p a w : Inv n -> AcksInv (with_acks p a w n) -> PeerOk (accounted n) p -> instance p = instance (peer n) ->
  (forall seq q, w !! seq = Some q -> waiting n !! seq = Some q \/ Forall (covered n (pn_ids q)) (pn_records q)) ->
  Inv (with_acks p a w n).
Proof.
  intros (Ha & Hp & Hw) Ha' Hp' Hi Hw'. split; [done|]. split.
  - destruct Hp' as (l & Hh & Hacc). exists l. split; [done|]. eapply Forall_impl; [exact Hacc|]. intros id. by apply accounted_eq.
  - intros seq q Hq. assert (Forall (covered n (pn_ids q)) (pn_records q)) as Hc by (destruct (Hw' seq q Hq); [by apply (Hw seq)|done]).
    eapply Forall_impl; [exact Hc|]. intros r. by apply covered_eq.
Qed.

Lemma request_inv n c body e1 e2 : Inv n -> fits n -> gentle e1 = true -> gentle e2 = true ->
  let '(n', out) := step n (Request c body e1 e2) in Inv n' /\
    match out with
    | Some (records, r) => acknowledges r = true -> Forall (covered n' []) records
    | None => True
    end.
Proof.
  intros Hi [Hf _] He1 He2. cbn [PeerIngest.step]. pose proof Hi as (Ha & Hp & Hw).
  destruct (ingest_before _ _ _ _ c body e1 (Some (acks n)) (peer n)) as [[[r|sf] a] p] eqn:E;
    destruct (before_inv _ _ _ _ _ _ _ Hi He1 E) as (a' & -> & Ha' & Hp' & Hip & Hx & Hr); cbn [default].
  { split; [|by rewrite Hr]. apply (moved_inv n p a' (waiting n)); [done..|]. intros seq q Hq. by left. }
  destruct Hr as [Hcov Hid]. assert (Inv (with_acks p a' (waiting n) n)) as Hi1.
  { apply moved_inv; [done..|]. intros seq q Hq. by left. }
  change (set_peer p (set_acks (id a') n)) with (with_acks p a' (waiting n) n). remember (with_acks p a' (waiting n) n) as n1 eqn:En1.
  assert (acks n1 = a') as Hacks by (by rewrite En1).
  assert (Forall (covered n1 (ids_in (sf_keep sf))) (sf_records sf)) as Hcov1.
  { rewrite En1. eapply Forall_impl; [exact Hcov|]. intros r. by apply covered_eq. }
  clear En1 Hcov E Hp' Hip Ha'. assert (next (acks n1) < u64_max) as Hlt by (rewrite Hacks, Hx; done).
  clear - record_ids Hi1 Hid Hcov1 Hlt He2. rename n1 into n. pose proof Hi1 as (Ha & Hp & Hw).
  unfold ingest_sunk. destruct (sf_keep sf) as [|k0 ks] eqn:Ek.
  { unfold ingest_done. split.
    - apply (moved_inv n _ (acks n) (waiting n)); [done|by destruct Ha|by eapply same_window_ok; [|exact Hp]|done|]. intros seq q Hq. by left.
    - intros _. eapply Forall_impl; [exact Hcov1|]. intros r. by apply covered_eq. }
  rewrite <- Ek in *. clear Ek k0 ks. unfold peer_sink. destruct (_ <? _)%nat.
  { split; [|done]. apply (moved_inv n _ (acks n) (waiting n)); [done|by destruct Ha|by eapply same_window_ok; [|exact Hp]|done|]. intros seq q Hq. by left. }
  destruct (issue (acks n)) as [seq a] eqn:Ei. destruct (_ <? _)%nat.
  - split; [|done]. set (q := mkPending _ _ _ _ _).
    pose proof (pending_inv n (peer n) seq a (sf_keep sf) q Ha Hlt Ei eq_refl Hid) as Hn. split; [exact Hn|]. split.
    + destruct Hp as (l & Hh & Hacc). exists l. split; [done|]. eapply Forall_impl; [exact Hacc|]. intros id. by apply accounted_eq.
    + intros s q' Hq. cbn [waiting set_waiting set_peer set_chan set_acks] in Hq.
      assert (Forall (covered n (pn_ids q')) (pn_records q')) as Hc.
      { apply lookup_insert_Some in Hq as [[<- <-]|[_ Hq]]; [exact Hcov1|by apply (Hw s)]. }
      eapply Forall_impl; [exact Hc|]. intros r. by apply covered_eq.
  - split; [|done]. apply (moved_inv n _ (forget seq a) (waiting n)); [done|by apply forgotten_inv|by eapply same_window_ok; [|exact Hp]|done|].
    intros s q Hq. by left.
Qed.

(** What a waiting request that hears of the sync is owed. *)
Lemma synced_accounted n seq q a : Inv n -> waiting n !! seq = Some q -> forall x, wait seq x (acks n) = (Some Synced, a) ->
  a = forget seq (acks n) /\ Forall (accounted n) (pn_ids q) /\ Forall id_ok (pn_ids q).
Proof.
  intros (Ha & _ & _) Hq x. unfold wait. destruct (is_closed _); [done|].
  assert (ids_of n seq = pn_ids q) as Hids by (unfold ids_of; by rewrite Hq).
  destruct (tickets (acks n) !! seq) as [t|] eqn:Et; [|by destruct x]. destruct (WalAcks.durable _ t) eqn:Ed; [|by destruct x].
  intros [= <-]. split; [done|]. split; [|rewrite <- Hids; apply Ha].
  apply Forall_forall. intros id Hin. eapply durable_accounted; [done..|]. by rewrite Hids.
Qed.

Lemma turn_inv n seq x us e : Inv n -> gentle e = true ->
  let '(n', out) := step n (Turn seq x us e) in Inv n' /\
    match out with
    | Some (records, r) => acknowledges r = true -> Forall (covered n' []) records
    | None => True
    end.
Proof.
  intros Hi He. cbn [PeerIngest.step]. destruct (waiting n !! seq) as [q|] eqn:Eq; [|done]. unfold ingest_wait.
  pose proof Hi as (Ha & Hp & Hw). assert (ids_of n seq = pn_ids q) as Hids by (unfold ids_of; by rewrite Eq).
  assert (forall p a, a = forget seq (acks n) \/ a = abandon seq (ids_of n seq) (acks n) -> PeerOk (accounted n) p ->
    instance p = instance (peer n) -> Inv (with_acks p a (delete seq (waiting n)) n)) as Hanswer.
  { intros p a Hor Hp' Hip. apply moved_inv; [done|apply answer_inv; [done|by exists q|done]|done|done|].
    intros s q' [_ H]%lookup_delete_Some. by left. }
  assert (forall p, same_window (peer n) p -> PeerOk (accounted n) p) as Hsame by (intros p H; by eapply same_window_ok).
  destruct (wait seq x (acks n)) as [[[| |]|] a] eqn:Ew.
  - destruct (synced_accounted _ _ _ _ Hi Eq _ Ew) as (-> & Hacc & Hok). unfold ingest_done.
    destruct (save_ids_ok (accounted n) (pn_ids q) e (set_peer_stats (waited us (peer_stats (peer n))) (peer n)) He Hok Hacc) as [Hs1 Hs2]; [by apply Hsame|].
    set (p := save_ids _ _ _) in *. assert (Inv (with_acks (tally StAccepted (pn_accepted q) p) (forget seq (acks n)) (delete seq (waiting n)) n)) as Hn.
    { apply Hanswer; [by left|by eapply same_window_ok; [|exact Hs1]|exact Hs2]. }
    split; [exact Hn|]. intros _. apply Forall_forall. intros r Hr. pose proof (Hw seq q Eq) as Hc. rewrite Forall_forall in Hc. rewrite Forall_forall in Hacc.
    specialize (Hc r Hr). eapply (covered_eq n); [done|done|exact Hs2|].
    destruct Hc as [H|[H|H]]; [by left|right; right; by apply Hacc|by right; right].
  - assert (a = acks n) as ->.
    { revert Ew. unfold wait. destruct (is_closed _); [done|]. destruct (match _ with Some t => _ | None => false end); [done|]. destruct x; [by intros [= <-]|done]. }
    split; [|done]. rewrite <- Hids. apply Hanswer; [by right|by apply Hsame|done].
  - assert (a = forget seq (acks n)) as ->.
    { revert Ew. unfold wait. destruct (is_closed _); [by intros [= <-]|]. destruct (match _ with Some t => _ | None => false end); [done|]. by destruct x. }
    split; [|done]. apply Hanswer; [by left|by apply Hsame|done].
  - assert (a = acks n) as ->.
    { revert Ew. unfold wait. destruct (is_closed _); [done|]. destruct (match _ with Some t => _ | None => false end); [done|]. destruct x; [done|by intros [= <-]]. }
    split; [|done]. apply (moved_inv n _ (acks n) (waiting n)); [done|by destruct Ha|by apply Hsame|done|]. intros s q' H. by left.
Qed.

Lemma take_inv n fates capped : Inv n -> fits (take_batch fates capped n) -> Inv (take_batch fates capped n).
Proof.
  intros Hi Hf. unfold take_batch in *. destruct (chan n) as [|[seq records] rest] eqn:Ec; [done|].
  set (t := tenancy _) in *. destruct (process_all_grows t records fates (pipe n)) as [Hg Hall].
  set (p := process_all _ _ _ _) in *.
  assert (Inv (set_pipe p (set_chan rest n))) as Hi1.
  { apply (pipe_inv (set_chan rest n)); [by apply grows_extends|]. destruct Hi as (Ha & Hp & Hw). split; [|done].
    apply chan_inv; [|done]. intros y Hy. rewrite Ec. by right. }
  destruct (Nat.ltb_spec (List.length fates) (List.length records)) as [Hlt|Hge]; [done|]. destruct capped; [done|]. cbn [orb] in *.
  destruct Hi1 as (Ha1 & Hp1 & Hw1). split; [|done].
  apply (bind_inv (set_pipe p (set_chan rest n))); [done| |].
  - revert Hf. unfold fits. cbn [acks pipe set_acks set_pipe set_chan]. unfold WalAcks.bind.
    destruct (tickets (acks n) !! seq); done.
  - intros id Hin. destruct Hi as (Ha & _ & _).
    destruct (ai_chan _ Ha seq records) as [_ Hsame]; [rewrite Ec; by left|].
    destruct (tickets (acks n) !! seq) as [t0|] eqn:Et.
    + change (ids_of (set_pipe p (set_chan rest n)) seq) with (ids_of n seq) in Hin. rewrite <- Hsame in Hin by by eexists.
      apply list_elem_of_In, in_map_iff in Hin as (r & <- & Hr). apply Hall; [done|by apply list_elem_of_In].
    + change (ids_of (set_pipe p (set_chan rest n)) seq) with (ids_of n seq) in Hin.
      rewrite not_held in Hin by done. by apply not_elem_of_nil in Hin.
Qed.

Lemma sync_extends p : Extends p (mkPipe (capacity_ p) (istats p) (queue p) (written p) (List.length (written p)) (dropped p)) \/ ~ pipe_ok p.
Proof.
  destruct (decide (on_disk p <= List.length (written p))%nat) as [H|H]; [left|right; by intros [? _]].
  constructor; [exists []; by rewrite app_nil_r|exists []; by rewrite app_nil_r|exists []; by rewrite app_nil_r|done|].
  intros [_ Hc]. split; [done|exact Hc].
Qed.

Lemma step_inv n s : Inv n -> fits n -> saves_well s = true -> fits (fst (step n s)) -> Inv (fst (step n s)) /\
  match snd (step n s) with
  | Some (records, r) => acknowledges r = true -> Forall (covered (fst (step n s)) []) records
  | None => True
  end.
Proof.
  intros Hi Hf Hs Hf'. destruct s as [c body e1 e2|seq x us e|fates|r f|k| | | |keep k|seq keep k]; cbn [saves_well] in Hs.
  - apply andb_true_iff in Hs as [H1 H2]. pose proof (request_inv n c body e1 e2 Hi Hf H1 H2) as H. by destruct (step n _).
  - pose proof (turn_inv n seq x us e Hi Hs) as H. by destruct (step n _).
  - split; [|done]. by apply take_inv.
  - split; [|done]. apply pipe_inv; [apply grows_extends, process_grows|done].
  - split; [|done]. apply pipe_inv; [apply grows_extends, write_some_grows|done].
  - split; [|done]. destruct (sync_extends (pipe n)) as [H|H]; [by apply pipe_inv|]. destruct H. apply Hi.
  - split; [|done]. destruct Hi as (Ha & Hp & Hw). split; [by apply publish_inv|done].
  - split; [|done]. destruct Hi as (Ha & Hp & Hw). split; [by apply close_inv|done].
  - split; [|done]. cbn [PeerIngest.step fst]. pose proof (restart_inv keep [] k n Hi (List.Forall_nil _) (List.Forall_nil _)) as H. cbv zeta in H.
    cbn [remember_all fst List.concat] in H. rewrite app_nil_r in H. by destruct (id_file (peer n)).
  - cbn [PeerIngest.step]. destruct (waiting n !! seq) as [q|] eqn:Eq; [|done].
    destruct (wait seq false (acks n)) as [[[| |]|] a] eqn:Ew; [|done..].
    destruct (synced_accounted _ _ _ _ Hi Eq _ Ew) as (_ & Hacc & Hok). split; [|done]. by apply restart_inv.
Qed.

Lemma node_reach_inv n0 n : Inv n0 -> reach sha256 from_slice ed25519 record_from_slice n0 n -> Inv n.
Proof. intros Hi. induction 1 as [|n s _ IH Hf Hs Hf']; [done|]. by apply step_inv. Qed.

(** *** What is durable stays durable *)

Definition disk_ok (n : Node) : Prop := (on_disk (pipe n) <= List.length (written (pipe n)))%nat.

Lemma durable_keeps n p' id : disk_ok n -> (exists w, written p' = written (pipe n) ++ w) -> (on_disk (pipe n) <= on_disk p')%nat ->
  id ∈ durable_ids n -> id ∈ durable_ids (set_pipe p' n).
Proof.
  intros Hd [w Hw] Hk. unfold durable_ids. cbn [stored pipe set_pipe]. rewrite !List.map_app, !elem_of_app.
  intros [H|H]; [by left|right]. rewrite Hw. fold (ids_in (firstn (on_disk p') (written (pipe n) ++ w))).
  apply (ids_in_firstn (on_disk (pipe n))); [done|]. by rewrite firstn_app_le.
Qed.

Lemma grows_disk n p' : disk_ok n -> Grows (pipe n) p' ->
  disk_ok (set_pipe p' n) /\ forall id, id ∈ durable_ids n -> id ∈ durable_ids (set_pipe p' n).
Proof.
  intros Hd [_ [w Hw] _ Hk _]. split.
  - unfold disk_ok. cbn [pipe set_pipe]. unfold disk_ok in Hd. rewrite Hk, Hw, length_app. lia.
  - intros id. apply durable_keeps; [done|by exists w|lia].
Qed.

Lemma same_pipe n n' : pipe n' = pipe n -> stored n' = stored n -> disk_ok n ->
  disk_ok n' /\ forall id, id ∈ durable_ids n -> id ∈ durable_ids n'.
Proof. intros H1 H2 Hd. unfold disk_ok, durable_ids. by rewrite H1, H2. Qed.

Lemma restart_disk keep bs n : disk_ok n ->
  disk_ok (restart keep bs n) /\ forall id, id ∈ durable_ids n -> id ∈ durable_ids (restart keep bs n).
Proof.
  intros Hd. unfold restart. destruct (window_open _ _) as [w f]. split; [unfold disk_ok; simpl; lia|].
  intros id. unfold durable_ids. cbn [stored pipe written on_disk]. rewrite firstn_nil, app_nil_r, !List.map_app, !elem_of_app. tauto.
Qed.

Lemma step_durable n s : disk_ok n ->
  disk_ok (fst (step n s)) /\ forall id, id ∈ durable_ids n -> id ∈ durable_ids (fst (step n s)).
Proof.
  intros Hd. destruct s as [c body e1 e2|seq x us e|fates|r f|k| | | |keep k|seq keep k]; cbn [PeerIngest.step].
  - destruct (ingest_before _ _ _ _ _ _ _ _ _) as [[[r|sf] a] p]; [by apply same_pipe|].
    assert (exists answer n1, (match sf_keep sf with [] => (SunkBusy, set_peer p (set_acks (default (acks n) a) n)) | keep => peer_sink keep (set_peer p (set_acks (default (acks n) a) n)) end) = (answer, n1)
      /\ pipe n1 = pipe n /\ stored n1 = stored n) as (answer & n1 & -> & Hp & Hs).
    { destruct (sf_keep sf); [by eexists _, _|]. unfold peer_sink. destruct (_ <? _)%nat; [by eexists _, _|].
      destruct (issue _) as [t a']. destruct (_ <? _)%nat; by eexists _, _. }
    destruct (ingest_sunk _ _ _ _ _) as [[r|t] q]; by apply same_pipe.
  - destruct (waiting n !! seq) as [q|]; [|by apply same_pipe].
    destruct (ingest_wait _ _ _ _ _ _ _) as [[[r|] a] p]; by apply same_pipe.
  - unfold take_batch. destruct (chan n) as [|[seq records] rest]; [by apply same_pipe|].
    destruct (process_all_grows (tenancy (verifier (peer n))) records fates (pipe n)) as [Hg _].
    pose proof (grows_disk (set_chan rest n) _ Hd Hg) as H. destruct (_ || _); exact H.
  - apply grows_disk; [done|apply process_grows].
  - apply grows_disk; [done|apply write_some_grows].
  - cbn [fst]. unfold disk_ok in *. split; [done|]. intros id. apply durable_keeps; [done|exists []; by rewrite app_nil_r|done].
  - by apply same_pipe.
  - by apply same_pipe.
  - by apply restart_disk.
  - destruct (waiting n !! seq) as [q|]; [|by apply same_pipe].
    destruct (wait _ _ _) as [[[| |]|] a]; [by apply restart_disk|by apply same_pipe..].
Qed.

Definition run (n : Node) (l : list Step) : Node := foldl (fun n s => fst (step n s)) n l.

Lemma run_durable l : forall n, disk_ok n -> forall id, id ∈ durable_ids n -> id ∈ durable_ids (run n l).
Proof.
  induction l as [|s l IH]; intros n Hd id Hin; [done|]. destruct (step_durable n s Hd) as [H1 H2].
  apply (IH (fst (step n s))); auto.
Qed.

Lemma fresh_inv p cap wcap : (1 <= wcap)%nat -> window_open wcap [] = (dedupe p, id_file p) -> Inv (fresh_node p cap).
Proof.
  intros Hc Hw. destruct (open_spec wcap [] []) as (w0 & E & H1 & H2 & H3 & H4); [done|done|simpl; lia|constructor|].
  cbn [List.concat app] in E. rewrite E in Hw. injection Hw as Hw Hf. split; [|split].
  - constructor; cbn [acks waiting pipe chan fresh_node].
    + rewrite dom_empty_L. apply acks_new_table.
    + simpl; lia.
    + split; [simpl; lia|done].
    + intros seq t w id H. unfold acks_new in H. cbn [tickets] in H. by rewrite lookup_empty in H.
    + intros seq records H. by apply not_elem_of_nil in H.
    + intros seq. unfold ids_of, late_ids. cbn [waiting acks fresh_node tickets acks_new]. rewrite !lookup_empty. constructor.
  - exists []. cbn [peer fresh_node]. rewrite <- Hw, <- Hf. split; [|rewrite H2; constructor].
    constructor; [done|done|done|by rewrite H2, H3|done].
  - intros seq q H. cbn [waiting fresh_node] in H. by rewrite lookup_empty in H.
Qed.

(** A run, checked step by step. *)
Definition fitsb (n : Node) : bool :=
  (next (acks n) <? u64_max) && (Z.of_nat (List.length (written (pipe n) ++ queue (pipe n))) <=? u64_max).
Fixpoint run_ok (n : Node) (l : list Step) : bool :=
  match l with
  | [] => fitsb n
  | s :: l => fitsb n && saves_well s && run_ok (fst (step n s)) l
  end.

Lemma fitsb_fits n : fitsb n = true -> fits n.
Proof. unfold fitsb, fits. intros H. zbool. lia. Qed.

Lemma run_ok_fits n l : run_ok n l = true -> fits n.
Proof. destruct l; cbn [run_ok]; intros H; [by apply fitsb_fits|]. zbool. by apply fitsb_fits. Qed.

Lemma run_reach l : forall n0 n, reach sha256 from_slice ed25519 record_from_slice n0 n -> run_ok n l = true ->
  reach sha256 from_slice ed25519 record_from_slice n0 (run n l).
Proof.
  induction l as [|s l IH]; intros n0 n Hr Hk; [done|]. cbn [run_ok] in Hk. apply andb_prop in Hk as [Hk Hl].
  apply andb_prop in Hk as [Hn Hs]. apply (IH n0 (fst (step n s))); [|done].
  constructor; [done|by apply fitsb_fits|done|by eapply run_ok_fits].
Qed.

(** C23: What the sender is told is done is done.  Over any interleaving of
    requests, their waits and time-outs, the record path, the writer's appends
    and syncs, records of other sources, stops, crashes and restarts, when the
    peer answers 200 or 508 every record of the batch that its principal may
    store is a loop, or is on disk and stays there whatever follows, or is one
    the record path refused or shed; and the same holds of every id that would
    be answered as a duplicate. *)
Theorem acknowledged_is_durable p cap wcap n s records r :
  (1 <= wcap)%nat -> window_open wcap [] = (dedupe p, id_file p) ->
  reach sha256 from_slice ed25519 record_from_slice (fresh_node p cap) n -> fits n ->
  saves_well s = true -> fits (fst (step n s)) ->
  snd (step n s) = Some (records, r) -> acknowledges r = true ->
  let n' := fst (step n s) in
  Forall (fun rc => is_loop rc (instance (peer n')) = true \/ event_id rc ∈ dropped_ids n' \/
    forall later, event_id rc ∈ durable_ids (run n' later)) records /\
  Forall (fun id => id ∈ dropped_ids n' \/ forall later, id ∈ durable_ids (run n' later)) (order (dedupe (peer n'))).
Proof.
  intros Hc Hw Hr Hf Hs Hf' Ho Hack n'. pose proof (node_reach_inv _ _ (fresh_inv p cap wcap Hc Hw) Hr) as Hi.
  destruct (step_inv n s Hi Hf Hs Hf') as [Hi' Hcov]. rewrite Ho in Hcov. specialize (Hcov Hack). fold n' in Hi', Hcov.
  assert (disk_ok n') as Hd by apply Hi'.
  assert (forall id, accounted n' id -> id ∈ dropped_ids n' \/ forall later, id ∈ durable_ids (run n' later)) as Hacc.
  { intros id [H|H]; [right; intros later; by apply run_durable|by left]. }
  split.
  - eapply Forall_impl; [exact Hcov|]. intros rc [H|[H|H]]; [by left|by apply not_elem_of_nil in H|right; by apply Hacc].
  - destruct Hi' as (_ & (l & _ & Hall) & _). eapply Forall_impl; [exact Hall|exact Hacc].
Qed.

(** The tickets held are those of requests still waiting and at most
    [MAX_ABANDONED] of ones that were told to retry. *)
Theorem tickets_bounded p cap wcap n : (1 <= wcap)%nat -> window_open wcap [] = (dedupe p, id_file p) ->
  reach sha256 from_slice ed25519 record_from_slice (fresh_node p cap) n ->
  (outstanding (acks n) <= size (waiting n) + MAX_ABANDONED)%nat.
Proof.
  intros Hc Hw Hr. pose proof (node_reach_inv _ _ (fresh_inv p cap wcap Hc Hw) Hr) as (Ha & _ & _).
  destruct (ai_table _ Ha) as [Hk _ _ _ Hfew _ _]. unfold outstanding. rewrite <- !size_dom, Hk.
  rewrite size_union_alt. pose proof (size_list_to_set_le (given_up (acks n))) as Hl.
  assert (size ((list_to_set (given_up (acks n)) : gset Z) ∖ dom (waiting n)) <= size (list_to_set (given_up (acks n)) : gset Z))%nat
    by (apply subseteq_size; set_solver). lia.
Qed.
End Steps.

(** ** Witnesses *)

(** A line is a record with one byte, its id. *)
Definition line_record (line : bytes) : option LogRecord :=
  match line with [b] => Some (new_record (repeat b 16) 0 INFO "x") | _ => None end.

Lemma line_record_ids bs r : line_record bs = Some r -> id_ok (event_id r).
Proof. destruct bs as [|b [|]]; [done| |done]. by intros [= <-]. Qed.

Definition sample_window : Window * File := window_open 8 [].
Definition sample_peer : Peer :=
  mkPeer "central" 5 (fst sample_window) (snd sample_window) peer_stats0 (builder_new two_tenants) true.

Definition anyone : Credential := mkCredential None 100 (inl "down") false.
Definition send (body : bytes) : Step := Request anyone body all_well all_well.
Definition calm : Fate := mkFate None false false 0.

Abbreviation sample_step := (PeerIngest.step (fun b => b) sample_slice sample_ed25519 line_record).
Abbreviation sample_run := (run (fun b => b) sample_slice sample_ed25519 line_record).

Definition good_run : list Step :=
  [send [Byte.x31; Byte.x0a; Byte.x32; Byte.x0a; Byte.x31]; TakeBatch [calm; calm] false; Write 2; Sync; Publish].
Definition good_node : Node := sample_run (fresh_node sample_peer 4) good_run.
Definition good_turn : Step := Turn 1 false 7 all_well.
Definition good_reply : option (list LogRecord * Reply) := snd (sample_step good_node good_turn).

Lemma good_run_ok : run_ok (fun b => b) sample_slice sample_ed25519 line_record (fresh_node sample_peer 4) good_run = true.
Proof. vm_compute. reflexivity. Qed.
Lemma good_turn_fits : fitsb (fst (sample_step good_node good_turn)) = true.
Proof. vm_compute. reflexivity. Qed.
Definition one_two : list LogRecord :=
  [new_record (repeat Byte.x31 16) 0 INFO "x"; new_record (repeat Byte.x32 16) 0 INFO "x"; new_record (repeat Byte.x31 16) 0 INFO "x"].
Lemma good_reply_is : good_reply = Some (one_two, Taken 2 1 0).
Proof. vm_compute. reflexivity. Qed.

Lemma good_reach : reach (fun b => b) sample_slice sample_ed25519 line_record (fresh_node sample_peer 4) good_node.
Proof. apply run_reach; [constructor|exact good_run_ok]. Qed.

Lemma acknowledged_is_durable_witness :
  Forall (fun rc => is_loop rc "central" = true \/ event_id rc ∈ dropped_ids (fst (sample_step good_node good_turn)) \/
    forall later, event_id rc ∈ durable_ids (sample_run (fst (sample_step good_node good_turn)) later)) one_two.
Proof.
  destruct (acknowledged_is_durable (fun b => b) sample_slice sample_ed25519 line_record line_record_ids sample_peer 4 8
    good_node good_turn one_two (Taken 2 1 0)) as [H _].
  - lia.
  - exact (surjective_pairing sample_window).
  - exact good_reach.
  - apply fitsb_fits. vm_compute. reflexivity.
  - reflexivity.
  - apply fitsb_fits. exact good_turn_fits.
  - exact good_reply_is.
  - reflexivity.
  - exact H.
Defined.

Lemma tickets_bounded_witness : (outstanding (acks good_node) <= size (waiting good_node) + MAX_ABANDONED)%nat.
Proof.
  apply (tickets_bounded (fun b => b) sample_slice sample_ed25519 line_record line_record_ids sample_peer 4 8);
    [lia|exact (surjective_pairing sample_window)|exact good_reach].
Defined.

(** ** A batch that is acknowledged and shed *)

(** Two batches of two pass the check for room in a queue of two, one after
    the other, before the record path takes either. *)
Definition shed_run : list Step :=
  [send [Byte.x31; Byte.x0a; Byte.x32]; send [Byte.x33; Byte.x0a; Byte.x34]; TakeBatch [calm; calm] false; TakeBatch [calm; calm] false;
   Write 2; Sync; Publish].
Definition shed_node : Node := sample_run (fresh_node sample_peer 2) shed_run.
Definition shed_turn : Node * option (list LogRecord * Reply) := sample_step shed_node (Turn 2 false 7 all_well).
Definition resend : option (list LogRecord * Reply) := snd (sample_step (fst shed_turn) (send [Byte.x33; Byte.x0a; Byte.x34])).
Definition lost_ids : list Id := [repeat Byte.x33 16; repeat Byte.x34 16].

(** Finding: a 200 does not mean the log has the records.  The sink asks
    for room in the queue, but the batches ahead of it in the channel are not
    in the queue yet: the second of two batches that both fit alone is shed,
    its ticket is bound all the same, its request is answered 200, its ids are
    remembered, and the sender's resend would be answered as duplicates. *)
Theorem acknowledged_batch_was_shed :
  run_ok (fun b => b) sample_slice sample_ed25519 line_record (fresh_node sample_peer 2) shed_run = true /\
  snd <$> snd shed_turn = Some (Taken 2 0 0) /\
  (forall id, id ∈ lost_ids -> id ∉ durable_ids (fst shed_turn) /\ id ∈ dropped_ids (fst shed_turn)) /\
  snd <$> resend = Some (Taken 0 2 0).
Proof.
  split; [vm_compute; reflexivity|]. split; [vm_compute; reflexivity|]. split; [|vm_compute; reflexivity].
  assert (forallb (fun id => negb (bool_decide (id ∈ durable_ids (fst shed_turn))) && bool_decide (id ∈ dropped_ids (fst shed_turn))) lost_ids = true) as H
    by (vm_compute; reflexivity).
  intros id Hin. rewrite forallb_forall in H. specialize (H id ltac:(by apply list_elem_of_In)).
  apply andb_prop in H as [H1 H2]. apply negb_true_iff, bool_decide_eq_false in H1. by apply bool_decide_eq_true in H2.
Qed.
