(* ===== verification/Sync.v ===== *)
(** The sender ([crates/logless-core/src/sync.rs]): what the write path hands
    it becomes frames of a durable spool, and the frames go to the peer in
    order, each until it is answered for good.

    The planner is [SyncPolicy]'s, over any detector of its class; the spool is
    [Spool]'s.  [serde_json], CRC-32 and the peer's answers are parameters; a
    thread reads its clocks once a pass. *)

From S2P Require Import Prelude Text Lists Model Json Provenance.
From S2P Require SyncPolicy Spool.
Open Scope string_scope.
Open Scope Z_scope.
Open Scope list_scope.

Definition FRAME_BYTES : Z := 1024 * 1024.
Definition FRAMES_PER_PASS : nat := 8.
Definition MAX_BACKOFF_SECS : Z := 60.
Definition AUTH_RETRY_SECS : Z := 60.
Definition TAP_CAPACITY : nat := 256.

(** ** Settings *)

Record SyncTarget := mkTarget {
  url : string; token : option string; tg_min_severity : Z; tg_fidelity : Z; tg_anomaly_boost : bool
}.

Definition planner_config (t : SyncTarget) : SyncPolicy.PlannerConfig :=
  SyncPolicy.mkPlannerConfig (Z.max 1 (Z.min 100 (tg_fidelity t))) (tg_min_severity t) (tg_anomaly_boost t).

Definition url_end (c : ascii) : bool := Ascii.eqb c "/" || Ascii.eqb c "?" || Ascii.eqb c "#".
Definition authority (rest : string) : string := List.hd "" (split_on url_end rest).

(** [scheme://host[:port]]. *)
Definition display_target (u : string) : option string :=
  '(scheme, rest) ← split_once_str "://" (trim u);
  let host := authority rest in
  let host := match rsplit_once "@" host with Some (_, h) => h | None => host end in
  if String.eqb host "" then None else Some (String.append scheme (String.append "://" host)).

Inductive UrlProblem := UrlLength | UrlScheme | UrlHost | UrlUser.

Definition check_url (raw : string) : UrlProblem + string :=
  let u := trim raw in
  if String.eqb u "" || (2000 <? str_len u) then inl UrlLength
  else match split_once_str "://" u with
       | None => inl UrlScheme
       | Some (scheme, rest) =>
           if negb (String.eqb scheme "http" || String.eqb scheme "https") then inl UrlScheme
           else let authority := authority rest in
                if String.eqb authority "" then inl UrlHost
                else if str_has "@" authority then inl UrlUser
                else inr (trim_end_by (Ascii.eqb "/") u)
       end.

(** ** Status *)

Inductive SyncError :=
| CursorUnwritten | NotCompressed | CannotReach
| RefusedToken (status : Z) | RejectedBatch (status : Z) | NotAPeer (status : Z)
| PeerBusy (status : Z) | PeerAnswered (status : Z).

Record SyncCounts := mkCounts {
  sent_records : Z; sent_bytes : Z; duplicates : Z; loops : Z; rejected_batches : Z; busy_answers : Z; dropped_records : Z
}.
(** The part of [SyncStatus] the sender itself decides; the rest is copied
    from the spool, the planner and the jobs of a fetch. *)
Record SyncStatus := mkStatus {
  shown_peer : option string; st_min_severity : Z; st_fidelity : Z; st_anomaly_boost : bool; has_token : bool;
  last_ok_ms : option Z; last_error : option SyncError; last_error_ms : option Z; counts : SyncCounts
}.
Definition status0 : SyncStatus := mkStatus None 0 0 false false None None None (mkCounts 0 0 0 0 0 0 0).

Definition set_counts (c : SyncCounts) (s : SyncStatus) : SyncStatus :=
  mkStatus (shown_peer s) (st_min_severity s) (st_fidelity s) (st_anomaly_boost s) (has_token s)
    (last_ok_ms s) (last_error s) (last_error_ms s) c.
Definition note_error (e : SyncError) (now : Z) (s : SyncStatus) : SyncStatus :=
  mkStatus (shown_peer s) (st_min_severity s) (st_fidelity s) (st_anomaly_boost s) (has_token s)
    (last_ok_ms s) (Some e) (Some now) (counts s).
Definition note_ok (now : Z) (s : SyncStatus) : SyncStatus :=
  mkStatus (shown_peer s) (st_min_severity s) (st_fidelity s) (st_anomaly_boost s) (has_token s)
    (Some now) (last_error s) (last_error_ms s) (counts s).

Record Control := mkControl {
  ct_instance : string; target : option SyncTarget; status_ : SyncStatus; active : bool; tap_dropped : Z; epoch : Z
}.
Definition set_status (s : SyncStatus) (c : Control) : Control :=
  mkControl (ct_instance c) (target c) s (active c) (tap_dropped c) (epoch c).
Definition update (f : SyncStatus -> SyncStatus) (c : Control) : Control := set_status (f (status_ c)) c.

Definition set_target (t : option SyncTarget) (c : Control) : Control :=
  let s := status_ c in
  mkControl (ct_instance c) t
    (mkStatus (t ≫= fun t => display_target (url t))
       (match t with Some t => tg_min_severity t | None => 0 end) (match t with Some t => tg_fidelity t | None => 100 end)
       (match t with Some t => tg_anomaly_boost t | None => false end)
       (match t with Some t => bool_decide (is_Some (token t)) | None => false end)
       (last_ok_ms s) (match t with Some _ => last_error s | None => None end) (last_error_ms s) (counts s))
    (match t with Some _ => true | None => false end) (tap_dropped c) (wadd64 (epoch c) 1).

Definition control_new (instance : string) (initial : option SyncTarget) : Control :=
  set_target initial (mkControl instance None status0 false 0 0).

Inductive SyncState := SyncOff | SyncOk | SyncFailing.

(** [Option<u64>]'s order: nothing is before something. *)
Definition option_geb (a b : option Z) : bool :=
  match a, b with _, None => true | None, Some _ => false | Some x, Some y => y <=? x end.

Definition state_of (c : Control) : SyncState :=
  if negb (active c) then SyncOff
  else if bool_decide (is_Some (last_error (status_ c))) && option_geb (last_error_ms (status_ c)) (last_ok_ms (status_ c)) then SyncFailing
  else SyncOk.

(** ** The tap *)

Inductive Item := Live (batch : list LogRecord) | Backfill (records : list LogRecord).

(** [offer]: the channel is the items in it. *)
Definition offer (batch : list LogRecord) (c : Control) (chan : list Item) : Control * list Item :=
  if bool_decide (batch = []) || negb (active c) then (c, chan)
  else if (List.length chan <? TAP_CAPACITY)%nat then (c, chan ++ [Live batch])
  else (mkControl (ct_instance c) (target c) (status_ c) (active c)
          (wadd64 (tap_dropped c) (Z.of_nat (List.length batch))) (epoch c), chan).

(** ** Frames *)

Section Encoding.
Variable to_vec : LogRecord -> option bytes.   (* serde_json::to_vec *)

(** What is sent of a record: its line. *)
Definition line_of (instance : string) (min_severity : Z) (r : LogRecord) : option bytes :=
  if (severity r <? min_severity) || is_loop r instance then None
  else (fun line => line ++ [Byte.x0a]) <$> to_vec (stamp_for_send instance r).

Fixpoint encode_loop (instance : string) (min_severity : Z) (frames : list (bytes * Z)) (current : bytes)
    (in_current total : Z) (batch : list LogRecord) : list (bytes * Z) * Z :=
  match batch with
  | [] => (match current with [] => frames | _ => frames ++ [(current, in_current)] end, total)
  | r :: batch =>
      match line_of instance min_severity r with
      | None => encode_loop instance min_severity frames current in_current total batch
      | Some line =>
          if negb (bool_decide (current = [])) && (FRAME_BYTES <? Z.of_nat (List.length current + List.length line))
          then encode_loop instance min_severity (frames ++ [(current, in_current)]) line 1 (total + 1) batch
          else encode_loop instance min_severity frames (current ++ line) (in_current + 1) (total + 1) batch
      end
  end.

Definition encode_frames (instance : string) (min_severity : Z) (batch : list LogRecord) : list (bytes * Z) * Z :=
  encode_loop instance min_severity [] [] 0 0 batch.
End Encoding.

(** ** One request *)

(** What came of the POST of a frame. *)
Inductive Answer := CouldNotCompress | Unreachable | Http (status : Z) (reply : Json) (body_bytes : Z).

Inductive Outcome :=
| Delivered (accepted duplicates loops bytes : Z)
| RejectedFor (e : SyncError)
| RetryAfter (e : SyncError)
| BusyWith (e : SyncError)
| UnauthorizedBy (e : SyncError).

Definition number (name : string) (reply : Json) : Z := default 0 (get name reply ≫= as_u64).

Definition send_frame (a : Answer) : Outcome :=
  match a with
  | CouldNotCompress => RejectedFor NotCompressed
  | Unreachable => RetryAfter CannotReach
  | Http status reply body_bytes =>
      if (200 <=? status) && (status <=? 299)
      then Delivered (number "accepted" reply) (number "duplicates" reply) (number "loops" reply) body_bytes
      else if (status =? 401) || (status =? 403) then UnauthorizedBy (RefusedToken status)
      else if status =? 508 then Delivered 0 0 (number "loops" reply) body_bytes
      else if (status =? 400) || (status =? 413) || (status =? 415) || (status =? 422) then RejectedFor (RejectedBatch status)
      else if (status =? 404) || (status =? 405) then RetryAfter (NotAPeer status)
      else if (status =? 429) || (status =? 503) then BusyWith (PeerBusy status)
      else RetryAfter (PeerAnswered status)
  end.

(** The peer will not be asked about this frame again. *)
Definition for_good (o : Outcome) : bool :=
  match o with Delivered _ _ _ _ | RejectedFor _ => true | _ => false end.

Record Tuning := mkTuning { backoff_unit_ms : Z; auth_retry_ms : Z; spool_max_bytes : Z }.
Definition tuning_default : Tuning := mkTuning 1000 (AUTH_RETRY_SECS * 1000) (256 * 1024 * 1024).

Inductive Wait := Doubling | AuthWait.
Inductive Pass := Idle | Progress | Backoff (w : Wait).

(** The wait after the [failures]-th failure in a row, counted first. *)
Definition wait_ms (t : Tuning) (w : Wait) (failures : Z) : Z :=
  match w with
  | AuthWait => auth_retry_ms t
  | Doubling => backoff_unit_ms t * Z.min (Z.shiftl 1 (Z.min failures 6)) MAX_BACKOFF_SECS
  end.

(** What happened to the frames, in order: one put in the spool, or one sent,
    its outcome, and whether the cursor was moved past it. *)
Inductive Entry := Pushed (frame : bytes) | Asked (frame : bytes) (o : Outcome) (moved : bool).

Section Sending.
Context {Sg : Type} `{SyncPolicy.Signals Sg}.
Context (sha256 : bytes -> bytes) (now_v7 : Z -> bytes) (to_vec : LogRecord -> option bytes) (crc32 : bytes -> Z).

Record Sender := mkSender {
  control : Control; spool : Spool.Spool; planner : @SyncPolicy.Planner Sg;
  failures : Z; next_attempt : Z; seen_epoch : Z
}.

Definition count_dropped (n : Z) (s : SyncStatus) : SyncStatus :=
  let c := counts s in
  set_counts (mkCounts (sent_records c) (sent_bytes c) (duplicates c) (loops c) (rejected_batches c) (busy_answers c)
    (wadd64 (dropped_records c) n)) s.

(** The frames go to the spool one by one; one it has no room for is counted. *)
Fixpoint push_each (frames : list (bytes * Z)) (c : Control) (sp : Spool.Spool) : Control * Spool.Spool * list Entry :=
  match frames with
  | [] => (c, sp, [])
  | (payload, count) :: frames =>
      let '(r, sp) := Spool.push crc32 payload sp in
      match r with
      | inr true => let '(c, sp, log) := push_each frames c sp in (c, sp, Pushed payload :: log)
      | inr false | inl _ => push_each frames (update (count_dropped count) c) sp
      end
  end.

Definition push_frames (records : list LogRecord) (c : Control) (sp : Spool.Spool) : Control * Spool.Spool * list Entry :=
  match records with
  | [] => (c, sp, [])
  | _ => push_each (fst (encode_frames to_vec (ct_instance c) 0 records)) c sp
  end.

(** A record of a manual fetch, flagged where the dial had left it out. *)
Definition backfill_record (p : @SyncPolicy.Planner Sg) (r : LogRecord) : LogRecord :=
  if SyncPolicy.sent_live p r then r
  else with_attributes (attributes r ++ [mkAttr SyncPolicy.ATTR_SUPPLEMENT (AStr "backfill")]) r.

Definition enqueue (now : Z) (item : Item) (s : Sender) : Sender * list Entry :=
  match target (control s) with
  | None => (s, [])
  | Some t =>
      let '(records, p) :=
        match item with
        | Live batch => SyncPolicy.process now_v7 now batch (planner s)
        | Backfill records =>
            (List.map (backfill_record (planner s)) (List.filter (fun r => negb (severity r <? tg_min_severity t)) records), planner s)
        end in
      let '(c, sp, log) := push_frames records (control s) (spool s) in
      (mkSender c sp p (failures s) (next_attempt s) (seen_epoch s), log)
  end.

Fixpoint enqueue_all (now : Z) (items : list Item) (s : Sender) : Sender * list Entry :=
  match items with
  | [] => (s, [])
  | i :: items =>
      let '(s, log) := enqueue now i s in
      let '(s, log') := enqueue_all now items s in (s, log ++ log')
  end.

Definition count_delivered (accepted dup lp bytes now : Z) (s : SyncStatus) : SyncStatus :=
  let c := counts s in
  note_ok now (set_counts (mkCounts (wadd64 (sent_records c) accepted) (wadd64 (sent_bytes c) bytes)
    (wadd64 (duplicates c) dup) (wadd64 (loops c) lp) (rejected_batches c) (busy_answers c) (dropped_records c)) s).
Definition count_rejected (e : SyncError) (now : Z) (s : SyncStatus) : SyncStatus :=
  let c := counts s in
  note_error e now (set_counts (mkCounts (sent_records c) (sent_bytes c) (duplicates c) (loops c)
    (wadd64 (rejected_batches c) 1) (busy_answers c) (dropped_records c)) s).
Definition count_busy (e : SyncError) (now : Z) (s : SyncStatus) : SyncStatus :=
  let c := counts s in
  note_error e now (set_counts (mkCounts (sent_records c) (sent_bytes c) (duplicates c) (loops c)
    (rejected_batches c) (wadd64 (busy_answers c) 1) (dropped_records c)) s).

(** [commit]; [written] is whether the cursor's file could be replaced. *)
Definition commit (now : Z) (cursor : Spool.Cursor) (written : bool) (c : Control) (sp : Spool.Spool)
    : bool * Control * Spool.Spool :=
  if written then
    match Spool.commit cursor sp with
    | (inr _, sp) => (true, c, sp)
    | (inl _, sp) => (false, update (note_error CursorUnwritten now) c, sp)
    end
  else (false, update (note_error CursorUnwritten now) c, sp).

Fixpoint deliver_loop (now : Z) (frames : list (Spool.Cursor * bytes)) (i : nat) (answers : nat -> Answer * bool)
    (c : Control) (sp : Spool.Spool) : Pass * Control * Spool.Spool * list Entry :=
  match frames with
  | [] => (Progress, c, sp, [])
  | (cursor, payload) :: frames =>
      let '(answer, written) := answers i in
      let o := send_frame answer in
      let settle c :=
        match commit now cursor written c sp with
        | (true, c, sp) =>
            let '(pass, c, sp, log) := deliver_loop now frames (S i) answers c sp in (pass, c, sp, Asked payload o true :: log)
        | (false, c, sp) => (Backoff Doubling, c, sp, [Asked payload o false])
        end in
      match o with
      | Delivered accepted dup lp bytes => settle (update (count_delivered accepted dup lp bytes now) c)
      | RejectedFor e => settle (update (count_rejected e now) c)
      | RetryAfter e => (Backoff Doubling, update (note_error e now) c, sp, [Asked payload o false])
      | BusyWith e => (Backoff Doubling, update (count_busy e now) c, sp, [Asked payload o false])
      | UnauthorizedBy e => (Backoff AuthWait, update (note_error e now) c, sp, [Asked payload o false])
      end
  end.

Definition deliver (now : Z) (answers : nat -> Answer * bool) (c : Control) (sp : Spool.Spool)
    : Pass * Control * Spool.Spool * list Entry :=
  match target c with
  | None => (Idle, c, sp, [])
  | Some _ =>
      match Spool.peek crc32 sp FRAMES_PER_PASS with
      | [] => (Idle, c, sp, [])
      | frames => deliver_loop now frames 0 answers c sp
      end
  end.

(** ** The loop of the sender *)

(** One pass: the clocks, what came through the tap, whether it is the last,
    and how the peer answers. *)
Record Turn := mkTurn {
  now_ms : Z; instant_ms : Z; items : list Item; closing : bool; answers : nat -> Answer * bool; last_answers : nat -> Answer * bool
}.

Definition see_settings (instant : Z) (s : Sender) : Sender :=
  if epoch (control s) =? seen_epoch s then s
  else mkSender (control s) (spool s)
         (match target (control s) with Some t => SyncPolicy.set_config (planner_config t) (planner s) | None => planner s end)
         0 instant (epoch (control s)).

Definition tick_planner (now : Z) (force : bool) (s : Sender) : Sender * list Entry :=
  if active (control s) then
    let '(extra, p) := SyncPolicy.tick sha256 now_v7 now force (planner s) in
    let '(c, sp, log) := push_frames extra (control s) (spool s) in
    (mkSender c sp p (failures s) (next_attempt s) (seen_epoch s), log)
  else (s, []).

Definition try_deliver (u : Tuning) (t : Turn) (s : Sender) : Sender * list Entry :=
  if next_attempt s <=? instant_ms t then
    let '(pass, c, sp, log) := deliver (now_ms t) (answers t) (control s) (spool s) in
    match pass with
    | Idle | Progress => (mkSender c sp (planner s) 0 (next_attempt s) (seen_epoch s), log)
    | Backoff w =>
        let failures := (failures s + 1) mod 2 ^ 32 in
        (mkSender c sp (planner s) failures (instant_ms t + wait_ms u w failures) (seen_epoch s), log)
    end
  else (s, []).

Definition run_pass (u : Tuning) (t : Turn) (s : Sender) : Sender * list Entry :=
  let s := see_settings (instant_ms t) s in
  let '(s, l1) := enqueue_all (now_ms t) (items t) s in
  let '(s, l2) := tick_planner (now_ms t) (closing t) s in
  let '(s, l3) := try_deliver u t s in
  if closing t then
    let '(_, c, sp, l4) := deliver (now_ms t) (last_answers t) (control s) (spool s) in
    (mkSender c sp (planner s) (failures s) (next_attempt s) (seen_epoch s), l1 ++ l2 ++ l3 ++ l4)
  else (s, l1 ++ l2 ++ l3).

(** A sender that starts, on the spool an earlier one left. *)
Definition start (c : Control) (p : @SyncPolicy.Planner Sg) (now : Z) (sp : Spool.Spool) : Sender :=
  mkSender c sp p 0 now (epoch c).
End Sending.
