(* ===== verification/SyncDelivery.v ===== *)
(** What the sender ([Sync]) does with the frames: they leave in the order they
    were taken in, each asked about until it is answered for good, over any
    run of passes, changes of settings and restarts; and what the peer reads
    in a frame is what was put in it. *)

From S2P Require Import Prelude Text Lists Model Json Provenance Spool SpoolQueue Sync.
From S2P Require SyncPolicy PeerIngest.
Open Scope string_scope.
Open Scope Z_scope.
Open Scope list_scope.

(** ** A log of a queue at least once *)

(** [accounts q log q']: from the pending frames [q] the log leads to [q'].  A
    frame is only ever asked about at the head of the queue, and leaves it only
    when it was answered for good. *)
Inductive accounts : list bytes -> list Entry -> list bytes -> Prop :=
| acc_nil q : accounts q [] q
| acc_push q f log q' : accounts (q ++ [f]) log q' -> accounts q (Pushed f :: log) q'
| acc_move f q o log q' : for_good o = true -> accounts q log q' -> accounts (f :: q) (Asked f o true :: log) q'
| acc_stay f q o log q' : accounts (f :: q) log q' -> accounts (f :: q) (Asked f o false :: log) q'.

Lemma accounts_app a l b l' c : accounts a l b -> accounts b l' c -> accounts a (l ++ l') c.
Proof.
  induction 1; intros H'; cbn [app]; [done|apply acc_push; auto|apply acc_move; auto|apply acc_stay; auto].
Qed.

Definition pushed (log : list Entry) : list bytes :=
  List.flat_map (fun e => match e with Pushed f => [f] | Asked _ _ _ => [] end) log.
Definition settled (log : list Entry) : list bytes :=
  List.flat_map (fun e => match e with Asked f _ true => [f] | _ => [] end) log.

Lemma accounts_sum q log q' : accounts q log q' -> q ++ pushed log = settled log ++ q'.
Proof.
  induction 1 as [q|q f log q' _ IH|f q o log q' _ _ IH|f q o log q' _ IH].
  - apply app_nil_r.
  - change (pushed (Pushed f :: log)) with ([f] ++ pushed log). by rewrite app_assoc.
  - change (settled (Asked f o true :: log)) with (f :: settled log). cbn [app]. by rewrite <- IH.
  - exact IH.
Qed.

Section Delivery.
Context {Sg : Type} `{SyncPolicy.Signals Sg}.
Context (sha256 : bytes -> bytes) (now_v7 : Z -> bytes) (to_vec : LogRecord -> option bytes) (crc32 : bytes -> Z).
Hypothesis crc_range : forall p, u32_range (crc32 p).

Abbreviation represents := (SpoolQueue.represents crc32).
Abbreviation shows := (SpoolQueue.shows crc32).

(** A step from pending frames [q] to [q'] that wrote [log], within the room
    the segment numbers leave. *)
Record Moved (sp : Spool) (q : list bytes) (log : list Entry) (sp' : Spool) (q' : list bytes) : Prop := {
  mv_rep : represents sp' q';
  mv_log : accounts q log q';
  mv_cfg : config sp' = config sp;
  mv_seg : write_segment sp' <= write_segment sp + Z.of_nat (List.length log)
}.

Lemma moved_refl sp q : represents sp q -> Moved sp q [] sp q.
Proof. intros Hr. constructor; [done|constructor|done|simpl; lia]. Qed.

Lemma moved_trans sp q l sp1 q1 l1 sp2 q2 : Moved sp q l sp1 q1 -> Moved sp1 q1 l1 sp2 q2 -> Moved sp q (l ++ l1) sp2 q2.
Proof.
  intros [H1 H2 H3 H4] [G1 G2 G3 G4]. constructor; [done|by eapply accounts_app|congruence|].
  rewrite length_app. lia.
Qed.

Lemma represents_dropped sp q n : represents sp q -> represents (set_dropped_full n sp) q.
Proof.
  intros (others & before & sg & done_ & todo & after & [] & ->).
  exists others, before, sg, done_, todo, after. split; [|done]. by constructor.
Qed.

Lemma push_each_moved frames : forall c sp q c' sp' log, represents sp q -> config_ok (config sp) ->
  push_each crc32 frames c sp = (c', sp', log) -> write_segment sp + Z.of_nat (List.length log) + 1 <= u64_max ->
  exists q', Moved sp q log sp' q'.
Proof.
  induction frames as [|[payload count] frames IH]; intros c sp q c' sp' log Hr Hc E Hroom; cbn [push_each] in E.
  { injection E as <- <- <-. exists q. by apply moved_refl. }
  destruct (push_represents crc32 sp q payload Hr Hc ltac:(lia)) as (r & sp1 & Ep & Hcfg & Hws & Hcase).
  rewrite Ep in E. destruct r as [e|[|]].
  - destruct Hcase as (_ & -> & _). by eapply IH.
  - destruct Hcase as (Hr1 & _). destruct (push_each crc32 frames c sp1) as [[c1 sp2] log1] eqn:E1. injection E as <- <- <-.
    cbn [List.length] in Hroom. destruct (IH _ _ (q ++ [payload]) _ _ _ Hr1 ltac:(by rewrite Hcfg) E1 ltac:(lia)) as (q' & [H1 H2 H3 H4]).
    exists q'. constructor; [done|by apply acc_push|congruence|cbn [List.length]; lia].
  - destruct Hcase as (-> & _). apply IH with (q := q) in E as (q' & [H1 H2 H3 H4]); [|by apply represents_dropped|done|done].
    exists q'. by constructor.
Qed.

Lemma push_frames_moved records c sp q c' sp' log : represents sp q -> config_ok (config sp) ->
  push_frames to_vec crc32 records c sp = (c', sp', log) -> write_segment sp + Z.of_nat (List.length log) + 1 <= u64_max ->
  exists q', Moved sp q log sp' q'.
Proof.
  intros Hr Hc. unfold push_frames. destruct records; [|by eapply push_each_moved].
  intros [= <- <- <-] _. exists q. by apply moved_refl.
Qed.

Lemma commit_moved now cur written c sp l p rest ok c' sp' : shows sp l -> config_ok (config sp) -> l = (cur, p) :: rest ->
  commit now cur written c sp = (ok, c', sp') ->
  config sp' = config sp /\ write_segment sp' = write_segment sp /\ shows sp' (if ok then rest else l).
Proof.
  intros Hs Hc ->. unfold Sync.commit. destruct written; [|by intros [= <- <- <-]].
  destruct (commit_shows crc32 sp _ 0 cur p Hs Hc eq_refl) as (sp1 & -> & Hs1 & Hcfg & Hws & _). by intros [= <- <- <-].
Qed.

Lemma shows_represents sp l : shows sp l -> represents sp (List.map snd l).
Proof. intros Hs. apply (represents_shows crc32). by exists l. Qed.

Lemma deliver_loop_moved now frames : forall i answers c sp rest pass c' sp' log, shows sp (frames ++ rest) ->
  config_ok (config sp) -> deliver_loop now frames i answers c sp = (pass, c', sp', log) ->
  exists q', Moved sp (List.map snd (frames ++ rest)) log sp' q'.
Proof.
  induction frames as [|[cur payload] frames IH]; intros i answers c sp rest pass c' sp' log Hs Hc E; cbn [deliver_loop] in E.
  { injection E as <- <- <- <-. exists (List.map snd rest). apply moved_refl. by apply shows_represents. }
  assert (forall o, sp' = sp -> log = [Asked payload o false] ->
    exists q', Moved sp (List.map snd (((cur, payload) :: frames) ++ rest)) log sp' q') as Hstay.
  { intros o -> ->. eexists. constructor; [by apply shows_represents| |done|simpl; lia].
    cbn [app List.map snd]. apply acc_stay, acc_nil. }
  destruct (answers i) as [answer written]. cbv zeta in E.
  assert (forall c o, for_good o = true ->
    match commit now cur written c sp with
    | (true, c, sp) => let '(pass, c, sp, log) := deliver_loop now frames (S i) answers c sp in (pass, c, sp, Asked payload o true :: log)
    | (false, c, sp) => (Backoff Doubling, c, sp, [Asked payload o false])
    end = (pass, c', sp', log) ->
    exists q', Moved sp (List.map snd (((cur, payload) :: frames) ++ rest)) log sp' q') as Hsettle.
  { clear c E Hstay. intros c o Ho E. destruct (commit now cur written c sp) as [[ok c1] sp1] eqn:Ec.
    destruct (commit_moved _ _ _ _ _ _ _ _ _ _ _ Hs Hc eq_refl Ec) as (Hcfg & Hws & Hs1). destruct ok.
    - destruct (deliver_loop now frames (S i) answers c1 sp1) as [[[pass1 c2] sp2] log1] eqn:E1. injection E as <- <- <- <-.
      destruct (IH _ _ _ _ _ _ _ _ _ Hs1 ltac:(by rewrite Hcfg) E1) as (q' & [H1 H2 H3 H4]). exists q'.
      constructor; [done|cbn [app List.map snd]; by apply acc_move|congruence|cbn [List.length]; lia].
    - injection E as <- <- <- <-. eexists. constructor; [by apply shows_represents| |done|simpl; lia].
      cbn [app List.map snd]. apply acc_stay, acc_nil. }
  destruct (send_frame answer) as [a d l b|e|e|e|e] eqn:Eo.
  - by eapply Hsettle; [|exact E].
  - by eapply Hsettle; [|exact E].
  - injection E as <- <- <- <-. by eapply (Hstay _ eq_refl eq_refl).
  - injection E as <- <- <- <-. by eapply (Hstay _ eq_refl eq_refl).
  - injection E as <- <- <- <-. by eapply (Hstay _ eq_refl eq_refl).
Qed.

Lemma deliver_moved now answers c sp q pass c' sp' log : represents sp q -> config_ok (config sp) ->
  deliver crc32 now answers c sp = (pass, c', sp', log) -> exists q', Moved sp q log sp' q'.
Proof.
  intros Hr Hc. unfold deliver. destruct (target c) as [t|]; [|intros [= <- <- <- <-]; exists q; by apply moved_refl].
  pose proof Hr as (l & Hs & ->)%(represents_shows crc32). rewrite (peek_shows crc32 crc_range _ _ FRAMES_PER_PASS Hs).
  destruct (take FRAMES_PER_PASS l) as [|f fs] eqn:Et; [intros [= <- <- <- <-]; eexists; by apply moved_refl|].
  rewrite <- (take_drop FRAMES_PER_PASS l), Et in Hs. intros E. eapply deliver_loop_moved in E as (q1 & Hm); [|exact Hs|exact Hc].
  exists q1. by rewrite <- Et, take_drop in Hm.
Qed.

Abbreviation Sender := (@Sender Sg).

(** The same for a sender. *)
Definition MovedS (s : Sender) (q : list bytes) (log : list Entry) (s' : Sender) (q' : list bytes) : Prop :=
  Moved (spool s) q log (spool s') q'.

Definition room (s : Sender) (log : list Entry) : Prop := write_segment (spool s) + Z.of_nat (List.length log) + 1 <= u64_max.

Lemma enqueue_moved now item s q s' log : represents (spool s) q -> config_ok (config (spool s)) ->
  enqueue now_v7 to_vec crc32 now item s = (s', log) -> room s log -> exists q', MovedS s q log s' q'.
Proof.
  intros Hr Hc. unfold enqueue. destruct (target (control s)) as [t|]; [|intros [= <- <-] _; exists q; by apply moved_refl].
  destruct (match item with Live _ => _ | Backfill _ => _ end) as [records p].
  destruct (push_frames to_vec crc32 records (control s) (spool s)) as [[c sp] l] eqn:E. intros [= <- <-] Hroom.
  by eapply push_frames_moved in E as (q' & Hm); [exists q'|..].
Qed.

(** Two moves in a row, given that there is room for both. *)
Lemma room_app s l l' : room s (l ++ l') -> room s l.
Proof. unfold room. rewrite length_app. lia. Qed.

Lemma room_next s q l s1 q1 l' : MovedS s q l s1 q1 -> room s (l ++ l') -> room s1 l'.
Proof. intros [_ _ _ Hs] Hr. unfold room in *. rewrite length_app in Hr. lia. Qed.

Lemma enqueue_all_moved now items : forall s q s' log, represents (spool s) q -> config_ok (config (spool s)) ->
  enqueue_all now_v7 to_vec crc32 now items s = (s', log) -> room s log -> exists q', MovedS s q log s' q'.
Proof.
  induction items as [|i items IH]; intros s q s' log Hr Hc E Hroom; cbn [enqueue_all] in E.
  { injection E as <- <-. exists q. by apply moved_refl. }
  destruct (enqueue _ _ _ now i s) as [s1 l1] eqn:E1. destruct (enqueue_all _ _ _ now items s1) as [s2 l2] eqn:E2.
  injection E as <- <-. apply (enqueue_moved _ _ _ q) in E1 as (q1 & H1); [|done|done|by eapply room_app].
  apply (IH _ q1) in E2 as (q2 & H2); [|apply H1|by rewrite (mv_cfg _ _ _ _ _ H1)|by eapply room_next].
  exists q2. by eapply moved_trans.
Qed.

Lemma tick_moved now force s q s' log : represents (spool s) q -> config_ok (config (spool s)) ->
  tick_planner sha256 now_v7 to_vec crc32 now force s = (s', log) -> room s log -> exists q', MovedS s q log s' q'.
Proof.
  intros Hr Hc. unfold tick_planner. destruct (active _); [|intros [= <- <-] _; exists q; by apply moved_refl].
  destruct (SyncPolicy.tick _ _ _ _ _) as [extra p].
  destruct (push_frames to_vec crc32 extra (control s) (spool s)) as [[c sp] l] eqn:E. intros [= <- <-] Hroom.
  by eapply push_frames_moved in E as (q' & Hm); [exists q'|..].
Qed.

Lemma try_deliver_moved u t s q s' log : represents (spool s) q -> config_ok (config (spool s)) ->
  try_deliver crc32 u t s = (s', log) -> exists q', MovedS s q log s' q'.
Proof.
  intros Hr Hc. unfold try_deliver. destruct (_ <=? _); [|intros [= <- <-]; exists q; by apply moved_refl].
  destruct (deliver crc32 _ _ _ _) as [[[pass c] sp] l] eqn:E. apply (deliver_moved _ _ _ _ q) in E as (q' & Hm); [|done|done].
  destruct pass; intros [= <- <-]; by exists q'.
Qed.

Lemma run_pass_moved u t s q s' log : represents (spool s) q -> config_ok (config (spool s)) ->
  run_pass sha256 now_v7 to_vec crc32 u t s = (s', log) -> room s log -> exists q', MovedS s q log s' q'.
Proof.
  intros Hr Hc. unfold run_pass.
  assert (exists s0, see_settings (instant_ms t) s = s0 /\ spool s0 = spool s) as (s0 & -> & Hsp).
  { unfold see_settings. destruct (_ =? _); by eexists. }
  assert (forall log, room s log <-> room s0 log) as Hroom0 by (intros l0; unfold room; by rewrite Hsp).
  unfold MovedS. rewrite <- Hsp in Hr, Hc |- *. clear Hsp.
  destruct (enqueue_all _ _ _ _ _ s0) as [s1 l1] eqn:E1. destruct (tick_planner _ _ _ _ _ _ s1) as [s2 l2] eqn:E2.
  destruct (try_deliver crc32 u t s2) as [s3 l3] eqn:E3.
  assert (forall l4, room s0 (l1 ++ l2 ++ l3 ++ l4) -> exists q3, Moved (spool s0) q (l1 ++ l2 ++ l3) (spool s3) q3) as Hgo.
  { intros l4 Hroom. apply (enqueue_all_moved _ _ _ q) in E1 as (q1 & H1); [|done|done|by eapply room_app].
    pose proof (room_next _ _ _ _ _ _ H1 Hroom) as Hroom1.
    apply (tick_moved _ _ _ q1) in E2 as (q2 & H2); [|apply H1|by rewrite (mv_cfg _ _ _ _ _ H1)|by eapply room_app].
    apply (try_deliver_moved _ _ _ q2) in E3 as (q3 & H3); [|apply H2|by rewrite (mv_cfg _ _ _ _ _ H2), (mv_cfg _ _ _ _ _ H1)].
    exists q3. eapply moved_trans; [exact H1|]. by eapply moved_trans. }
  destruct (closing t).
  - destruct (deliver crc32 _ _ _ _) as [[[pass c] sp] l4] eqn:E4. intros [= <- <-] Hroom. apply Hroom0 in Hroom.
    destruct (Hgo l4 Hroom) as (q3 & H3). apply (deliver_moved _ _ _ _ q3) in E4 as (q4 & H4); [|apply H3|by rewrite (mv_cfg _ _ _ _ _ H3)].
    exists q4. cbn [spool]. replace (l1 ++ l2 ++ l3 ++ l4) with ((l1 ++ l2 ++ l3) ++ l4) by (by rewrite <- !app_assoc). by eapply moved_trans.
  - intros [= <- <-] Hroom. apply Hroom0 in Hroom. apply (Hgo []). by rewrite app_nil_r.
Qed.

(** ** Runs *)

Inductive SyncOp :=
| RunPass (u : Tuning) (t : Turn)
| Settings (t : option SyncTarget)
| RestartSender (c : Control) (p : @SyncPolicy.Planner Sg) (now : Z).

Definition exec (o : SyncOp) (s : Sender) : Sender * list Entry :=
  match o with
  | RunPass u t => run_pass sha256 now_v7 to_vec crc32 u t s
  | Settings t => (mkSender (set_target t (control s)) (spool s) (planner s) (failures s) (next_attempt s) (seen_epoch s), [])
  | RestartSender c p now =>
      match open (dir (spool s)) (config (spool s)) with
      | inr sp => (start c p now sp, [])
      | inl _ => (s, [])
      end
  end.

Fixpoint run (ops : list SyncOp) (s : Sender) : Sender * list Entry :=
  match ops with
  | [] => (s, [])
  | o :: ops => let '(s, l) := exec o s in let '(s, l') := run ops s in (s, l ++ l')
  end.

Lemma exec_moved o s q s' log : represents (spool s) q -> config_ok (config (spool s)) ->
  exec o s = (s', log) -> room s log -> exists q', MovedS s q log s' q'.
Proof.
  intros Hr Hc. destruct o as [u t|t|c p now]; cbn [exec]; [by apply run_pass_moved|..].
  - intros [= <- <-] _. exists q. by apply moved_refl.
  - destruct (reopen_represents crc32 (spool s) q Hr Hc) as (sp & -> & Hr' & Hcfg & Hws). intros [= <- <-] _. exists q.
    constructor; [done|constructor|done|cbn [spool start List.length]; lia].
Qed.

Lemma run_moved ops : forall s q s' log, represents (spool s) q -> config_ok (config (spool s)) ->
  run ops s = (s', log) -> room s log -> exists q', MovedS s q log s' q'.
Proof.
  induction ops as [|o ops IH]; intros s q s' log Hr Hc E Hroom; cbn [run] in E.
  { injection E as <- <-. exists q. by apply moved_refl. }
  destruct (exec o s) as [s1 l1] eqn:E1. destruct (run ops s1) as [s2 l2] eqn:E2. injection E as <- <-.
  apply (exec_moved _ _ q) in E1 as (q1 & H1); [|done|done|by eapply room_app].
  apply (IH _ q1) in E2 as (q2 & H2); [|apply H1|by rewrite (mv_cfg _ _ _ _ _ H1)|by eapply room_next].
  exists q2. by eapply moved_trans.
Qed.

(** C24: Frames leave in order and stay until they are answered.  From an empty
    directory, over any run of passes, changes of settings, peers that are
    down, busy, refusing or rejecting, cursors that cannot be written and
    restarts: a frame is asked about only when it is the oldest pending, it
    stops being pending only on an answer that is for good, and the frames
    taken in are those settled, in order and each once, followed by the ones
    the spool still shows. *)
Theorem frames_are_answered cfg sp c p now ops s log : config_ok cfg -> open [] cfg = inr sp ->
  run ops (start c p now sp) = (s, log) -> Z.of_nat (List.length log) + 2 <= u64_max ->
  exists q, accounts [] log q /\ pushed log = settled log ++ q /\
    forall n, List.map snd (peek crc32 (spool s) n) = take n q.
Proof.
  intros Hc Ho Hrun Hlen. destruct (open_fresh crc32 cfg Hc) as (sp0 & E & Hr & Hcfg & Hws). rewrite E in Ho. injection Ho as ->.
  apply (run_moved _ _ []) in Hrun as (q & [H1 H2 H3 H4]); [|done|by rewrite <- Hcfg in Hc|unfold room; cbn [spool start]; lia].
  exists q. split; [done|]. split; [by apply accounts_sum in H2|]. intros n. by apply peek_represents.
Qed.
End Delivery.

(** ** Witness *)

#[local] Instance no_signals : SyncPolicy.Signals unit :=
  {| SyncPolicy.sig_new _ _ := tt; SyncPolicy.sig_observe _ _ _ s := ([], s); SyncPolicy.sig_close_buckets _ s := ([], s) |}.

Definition sample_target : SyncTarget := mkTarget "http://central:4319" (Some "secret") 0 100 false.
Definition sample_planner : @SyncPolicy.Planner unit := SyncPolicy.new "edge" (planner_config sample_target) 0 [].
Definition sample_record (n : Z) : LogRecord := new_record (le_bytes 16 n) 0 INFO "x".
Definition sample_vec (r : LogRecord) : option bytes := Some (take 1 (event_id r)).
Definition down : nat -> Answer * bool := fun _ => (Unreachable, true).
Definition answers_200 : nat -> Answer * bool := fun _ => (Http 200 JNull 10, true).
Definition answers_400_unwritten : nat -> Answer * bool := fun i => (Http 400 JNull 10, (0 <? i)%nat).

Definition sample_ops : list (@SyncOp unit) :=
  [RunPass tuning_default (mkTurn 1000 0 [Live [sample_record 65; sample_record 66]] false down down);
   RunPass tuning_default (mkTurn 4000 3000 [Backfill [sample_record 67]] false answers_400_unwritten down);
   RestartSender (control_new "edge" (Some sample_target)) sample_planner 9000;
   RunPass tuning_default (mkTurn 9000 9000 [] true answers_200 down)].
Definition sample_sync_run : Sender * list Entry :=
  run (fun b => b) (fun _ => []) sample_vec len_crc sample_ops
    (start (control_new "edge" (Some sample_target)) sample_planner 0 fresh_spool).

Lemma sample_sync_log : snd sample_sync_run =
  [Pushed [Byte.x41; Byte.x0a; Byte.x42; Byte.x0a]; Asked [Byte.x41; Byte.x0a; Byte.x42; Byte.x0a] (RetryAfter CannotReach) false;
   Pushed [Byte.x43; Byte.x0a]; Asked [Byte.x41; Byte.x0a; Byte.x42; Byte.x0a] (RejectedFor (RejectedBatch 400)) false;
   Asked [Byte.x41; Byte.x0a; Byte.x42; Byte.x0a] (Delivered 0 0 0 10) true; Asked [Byte.x43; Byte.x0a] (Delivered 0 0 0 10) true].
Proof. vm_compute. reflexivity. Qed.

Lemma frames_are_answered_witness : exists q, accounts [] (snd sample_sync_run) q /\
  pushed (snd sample_sync_run) = settled (snd sample_sync_run) ++ q.
Proof.
  destruct (frames_are_answered (fun b => b) (fun _ => []) sample_vec len_crc len_crc_range small_config fresh_spool
    (control_new "edge" (Some sample_target)) sample_planner 0 sample_ops (fst sample_sync_run) (snd sample_sync_run)) as (q & H1 & H2 & _).
  - exact small_config_ok.
  - vm_compute. reflexivity.
  - apply surjective_pairing.
  - rewrite sample_sync_log. vm_compute. discriminate.
  - exists q. split; [exact H1|exact H2].
Defined.
