(* ===== verification/SyncFrames.v ===== *)
(** The frames of the sender ([Sync], [encode_frames]) and what the peer's
    handler ([PeerIngest], [parse_lines]) reads in them. *)

From Stdlib Require Import SpecFloat.
From S2P Require Import Prelude Text Lists Float Model Json Provenance Sync.
From S2P Require Dedupe PeerIngest.
Open Scope string_scope.
Open Scope Z_scope.
Open Scope list_scope.

Section Frames.
Variable to_vec : LogRecord -> option bytes.
Variable inst : string.

(** The records sent of a batch, as they are written. *)
Definition sendable (min_severity : Z) (r : LogRecord) : bool :=
  negb ((severity r <? min_severity) || is_loop r inst) && bool_decide (is_Some (to_vec (stamp_for_send inst r))).
Definition stamped (min_severity : Z) (batch : list LogRecord) : list LogRecord :=
  List.map (stamp_for_send inst) (List.filter (sendable min_severity) batch).

Definition text_of (r : LogRecord) : bytes := default [] (to_vec r) ++ [Byte.x0a].
Definition frame_of (g : list LogRecord) : bytes := List.concat (List.map text_of g).

(** A frame's share of the records: at least one, and no more than fits,
    unless it is one alone. *)
Definition share_ok (g : list LogRecord) : Prop :=
  g <> [] /\ (Z.of_nat (List.length (frame_of g)) <= FRAME_BYTES \/ List.length g = 1%nat).

Definition as_frame (g : list LogRecord) : bytes * Z := (frame_of g, Z.of_nat (List.length g)).

Lemma line_of_spec m r : line_of to_vec inst m r =
  if sendable m r then Some (text_of (stamp_for_send inst r)) else None.
Proof.
  unfold line_of, sendable, text_of. destruct (_ || _); [done|]. cbn [negb andb].
  by destruct (to_vec (stamp_for_send inst r)).
Qed.

Lemma text_nonempty r : text_of r <> [].
Proof. unfold text_of. by destruct (default [] (to_vec r)). Qed.

Lemma frame_of_app a b : frame_of (a ++ b) = frame_of a ++ frame_of b.
Proof. unfold frame_of. by rewrite List.map_app, concat_app. Qed.

Lemma frame_of_nil g : frame_of g = [] -> g = [].
Proof. destruct g as [|r g]; [done|]. unfold frame_of. cbn. intros [H _]%app_nil. by apply text_nonempty in H. Qed.

Lemma encode_loop_spec m batch : forall done_ cur total frames t, Forall share_ok done_ -> (cur = [] \/ share_ok cur) ->
  encode_loop to_vec inst m (List.map as_frame done_) (frame_of cur) (Z.of_nat (List.length cur)) total batch = (frames, t) ->
  exists groups, frames = List.map as_frame groups /\ Forall share_ok groups /\
    List.concat groups = List.concat done_ ++ cur ++ stamped m batch /\
    t = total + Z.of_nat (List.length (stamped m batch)).
Proof.
  induction batch as [|r batch IH]; intros done_ cur total frames t Hd Hc E; cbn [encode_loop] in E.
  { unfold stamped. cbn [List.filter List.map List.length]. rewrite app_nil_r, Z.add_0_r. destruct cur as [|r cur].
    - injection E as <- <-. exists done_. by rewrite app_nil_r.
    - destruct Hc as [?|Hc]; [done|]. destruct (frame_of (r :: cur)) as [|b bs] eqn:Ef; [by apply frame_of_nil in Ef|].
      injection E as <- <-. exists (done_ ++ [r :: cur]). rewrite <- Ef, List.map_app, concat_app.
      cbn [List.map List.concat]. rewrite app_nil_r. split; [done|]. split; [by apply Forall_app_2; [|constructor]|done]. }
  rewrite line_of_spec in E. unfold stamped. cbn [List.filter]. destruct (sendable m r); [|by eapply IH]. cbn [List.map List.length].
  fold (stamped m batch). set (r' := stamp_for_send inst r) in *.
  assert (forall g, frame_of (g ++ [r']) = frame_of g ++ text_of r') as Hsnoc.
  { intros g. rewrite frame_of_app. unfold frame_of at 2. cbn. by rewrite app_nil_r. }
  destruct (negb _ && _) eqn:Efull.
  - apply andb_prop in Efull as [Hne _]. apply negb_true_iff, bool_decide_eq_false in Hne.
    assert (cur <> []) as Hcur by (intros ->; by apply Hne). destruct Hc as [?|Hc]; [done|].
    destruct (IH (done_ ++ [cur]) [r'] (total + 1) frames t) as (groups & H1 & H2 & H3 & H4).
    + by apply Forall_app_2; [|constructor].
    + right. split; [done|by right].
    + rewrite List.map_app. cbn [List.map List.length]. change (frame_of [r']) with (frame_of ([] ++ [r'])). rewrite Hsnoc. exact E.
    + exists groups. split; [done|]. split; [done|]. rewrite H3, concat_app. cbn [List.concat app]. rewrite app_nil_r, <- !app_assoc.
      split; [done|lia].
  - destruct (IH done_ (cur ++ [r']) (total + 1) frames t) as (groups & H1 & H2 & H3 & H4).
    + done.
    + right. split; [by destruct cur|]. apply andb_false_iff in Efull as [Hcur|Hsize].
      * apply negb_false_iff, bool_decide_eq_true, frame_of_nil in Hcur. subst. by right.
      * apply Z.ltb_ge in Hsize. left. rewrite Hsnoc, length_app. exact Hsize.
    + rewrite Hsnoc, length_app. cbn [List.length]. rewrite Nat2Z.inj_add. exact E.
    + exists groups. split; [done|]. split; [done|]. rewrite H3, <- app_assoc. split; [done|lia].
Qed.

(** A batch is cut into frames, and nothing else happens to it. *)
Lemma encode_frames_spec m batch frames total : encode_frames to_vec inst m batch = (frames, total) ->
  exists groups, frames = List.map as_frame groups /\ Forall share_ok groups /\
    List.concat groups = stamped m batch /\ total = Z.of_nat (List.length (stamped m batch)).
Proof. intros E. apply (encode_loop_spec m batch [] [] 0) in E; [exact E|constructor|by left]. Qed.

(** ** What the peer reads *)

Variable record_from_slice : bytes -> option LogRecord.

(** A record whose line is one line, not blank, that reads back. *)
Record Readable (r : LogRecord) : Prop := {
  rd_line : exists line, to_vec r = Some line /\ ~ In Byte.x0a line /\
    forallb PeerIngest.is_ascii_whitespace line = false /\ record_from_slice line = Some r
}.

Lemma body_lines_line line rest : ~ In Byte.x0a line ->
  PeerIngest.body_lines (line ++ Byte.x0a :: rest) = line :: PeerIngest.body_lines rest.
Proof.
  induction line as [|b line IH]; intros Hn; cbn [app PeerIngest.body_lines]; [done|].
  destruct (N.eqb (Byte.to_N b) 10) eqn:Eb.
  - apply N.eqb_eq in Eb. destruct Hn. left. assert (Byte.of_N (Byte.to_N b) = Byte.of_N 10) as Hb by (by rewrite Eb).
    rewrite Byte.of_to_N in Hb. by injection Hb as ->.
  - rewrite IH; [done|]. intros H. apply Hn. by right.
Qed.

Lemma parse_frame g : forall i, Forall Readable g ->
  PeerIngest.parse_lines record_from_slice i (PeerIngest.body_lines (frame_of g)) = inr g.
Proof.
  induction g as [|r g IH]; intros i Hg; [done|]. apply Forall_cons in Hg as [[(line & Hv & Hn & Hw & Hr)] Hg].
  change (frame_of (r :: g)) with (text_of r ++ frame_of g). unfold text_of. rewrite Hv. cbn [default from_option id]. rewrite <- app_assoc.
  cbn [app]. rewrite body_lines_line by done. cbn [PeerIngest.parse_lines]. by rewrite Hw, Hr, IH.
Qed.

(** The peer reads what was sent.  The frames of a batch hold the lines of
    its records that are severe enough, not loops and writable, stamped, in
    order; each frame is at most [FRAME_BYTES] long or a single record, its
    count is right, and the peer's reader gets back exactly its records. *)
Theorem sent_frames_are_read m batch frames total : Forall Readable (stamped m batch) ->
  encode_frames to_vec inst m batch = (frames, total) ->
  exists groups,
    Forall2 (fun f g => PeerIngest.parse_lines record_from_slice 0 (PeerIngest.body_lines (fst f)) = inr g /\
               snd f = Z.of_nat (List.length g) /\ g <> [] /\
               (Z.of_nat (List.length (fst f)) <= FRAME_BYTES \/ List.length g = 1%nat)) frames groups /\
    List.concat groups = stamped m batch /\ total = Z.of_nat (List.length (stamped m batch)).
Proof.
  intros Hr E. apply encode_frames_spec in E as (groups & -> & Hs & Hc & Ht). exists groups. split; [|done].
  rewrite <- Hc in Hr. clear Hc Ht. induction Hs as [|g groups [Hg1 Hg2] _ IH]; [constructor|].
  cbn [List.concat] in Hr. apply Forall_app in Hr as [Hg Hr]. cbn [List.map]. constructor; [|by apply IH].
  cbn [as_frame fst snd]. split; [by apply parse_frame|done].
Qed.

(** A record whose line the peer cannot read, such as one with an attribute
    that is not a finite float: [serde_json] writes it as [null], which is not
    a float. *)
Record Unreadable (r : LogRecord) : Prop := {
  ur_line : exists line, to_vec r = Some line /\ ~ In Byte.x0a line /\
    forallb PeerIngest.is_ascii_whitespace line = false /\ record_from_slice line = None
}.

Lemma parse_unreadable before r after : Forall Readable before -> Unreadable r -> forall i,
  PeerIngest.parse_lines record_from_slice i (PeerIngest.body_lines (frame_of (before ++ r :: after))) =
    inl (i + Z.of_nat (List.length before) + 1).
Proof.
  intros Hb [(line & Hv & Hn & Hw & Hr)]. induction Hb as [|x before [(xl & Hxv & Hxn & Hxw & Hxr)] _ IH]; intros i.
  - cbn [app List.length]. change (frame_of (r :: after)) with (text_of r ++ frame_of after). unfold text_of. rewrite Hv.
    cbn [default from_option id]. rewrite <- app_assoc. cbn [app]. rewrite body_lines_line by done.
    cbn [PeerIngest.parse_lines]. rewrite Hw, Hr. f_equal. lia.
  - cbn [app List.length]. change (frame_of (x :: before ++ r :: after)) with (text_of x ++ frame_of (before ++ r :: after)).
    unfold text_of. rewrite Hxv. cbn [default from_option id]. rewrite <- app_assoc. cbn [app]. rewrite body_lines_line by done.
    cbn [PeerIngest.parse_lines]. rewrite Hxw, Hxr, IH. f_equal. lia.
Qed.

(** Finding: one record the peer cannot read costs every record of its
    frame.  The frame is refused with 400, the sender takes that as an answer
    for good, and none of the records around it, up to a megabyte of them, is
    ever sent again or counted as dropped. *)
Theorem unreadable_record_loses_its_frame before r after reply n c :
  Forall Readable before -> Unreadable r ->
  PeerIngest.parse_lines record_from_slice 0 (PeerIngest.body_lines (frame_of (before ++ r :: after))) =
    inl (Z.of_nat (List.length before) + 1) /\
  for_good (send_frame (Http 400 reply n)) = true /\
  dropped_records (counts (status_ (update (count_rejected (RejectedBatch 400) 0) c))) = dropped_records (counts (status_ c)).
Proof. intros Hb Hr. split; [by rewrite (parse_unreadable before r after Hb Hr)|done]. Qed.
End Frames.

(** ** Witnesses *)

(** A writer of three records, the last with an attribute that is not a
    finite float. *)
Definition plain (n : Z) : LogRecord := new_record (le_bytes 16 n) 0 INFO "x".
Definition with_nan : LogRecord := with_attributes [mkAttr "ratio" (AF64 S754_nan)] (plain 67).
Definition has_nan (r : LogRecord) : bool :=
  existsb (fun a => match attr_value a with AF64 f => negb (f64_finite f) | _ => false end) (attributes r).
Definition toy_vec (r : LogRecord) : option bytes :=
  Some (if has_nan r then [Byte.x6e] else take 1 (event_id r)).
Definition toy_slice (line : bytes) : option LogRecord :=
  match line with
  | [b] => if bool_decide (b = Byte.x6e) then None else Some (stamp_for_send "edge" (plain (byte_val b)))
  | _ => None
  end.

Lemma toy_readable n : n = 65 \/ n = 66 -> Readable toy_vec toy_slice (stamp_for_send "edge" (plain n)).
Proof.
  intros [->| ->]; constructor; eexists; (split; [reflexivity|]); (split; [intros [H|[]]; discriminate H|]); (split; reflexivity).
Qed.

Lemma toy_unreadable : Unreadable toy_vec toy_slice (stamp_for_send "edge" with_nan).
Proof. constructor. eexists. split; [reflexivity|]. split; [intros [H|[]]; discriminate H|]. split; reflexivity. Qed.

Lemma sent_frames_are_read_witness :
  exists groups, List.concat groups = stamped toy_vec "edge" 0 [plain 65; plain 66] /\ List.length groups = 1%nat.
Proof.
  destruct (sent_frames_are_read toy_vec "edge" toy_slice 0 [plain 65; plain 66]
    [([Byte.x41; Byte.x0a; Byte.x42; Byte.x0a], 2)] 2) as (groups & H1 & H2 & _).
  - apply Forall_cons_2; [apply toy_readable; by left|]. apply Forall_cons_2; [apply toy_readable; by right|constructor].
  - reflexivity.
  - exists groups. split; [exact H2|]. symmetry. exact (Forall2_length _ _ _ H1).
Defined.

Lemma unreadable_record_loses_its_frame_witness :
  PeerIngest.parse_lines toy_slice 0 (PeerIngest.body_lines
    (frame_of toy_vec [stamp_for_send "edge" (plain 65); stamp_for_send "edge" with_nan; stamp_for_send "edge" (plain 66)])) = inl 2.
Proof.
  destruct (unreadable_record_loses_its_frame toy_vec toy_slice [stamp_for_send "edge" (plain 65)]
    (stamp_for_send "edge" with_nan) [stamp_for_send "edge" (plain 66)] JNull 1 (control_new "edge" None)) as [H _].
  - apply Forall_cons_2; [apply toy_readable; by left|constructor].
  - exact toy_unreadable.
  - exact H.
Defined.
