(* ===== verification/Proto.v ===== *)
(** The protobuf wire-format reader ([crates/logless-core/src/otlp/proto.rs]),
    a cursor over a payload that comes from the network: what it reads, that it
    moves on with every field, that it reads back what an encoder wrote. *)

From S2P Require Import Prelude Text Float Bits.
From Stdlib Require Import SpecFloat.
Open Scope string_scope.
Open Scope Z_scope.
Open Scope list_scope.

(** ** Errors and results *)

Inductive ProtoError :=
| Truncated (at_ wanted left : Z)
| VarintOverflow (at_ : Z)
| UnsupportedWireType (at_ field wire_type : Z)
| ZeroFieldNumber (at_ : Z)
| TooDeep (limit : Z)
| InvalidUtf8 (at_ : Z).

(** A result that also tells a run that stopped for want of fuel. *)
Inductive Res (A : Type) :=
| Spent
| Err (e : ProtoError)
| Ok (a : A).
Arguments Spent {A}.
Arguments Err {A} e.
Arguments Ok {A} a.

#[export] Instance Res_ret : MRet Res := fun _ a => Ok a.
#[export] Instance Res_bind : MBind Res := fun _ _ k m =>
  match m with Spent => Spent | Err e => Err e | Ok a => k a end.

Definition lift {A} (r : ProtoError + A) : Res A := match r with inl e => Err e | inr a => Ok a end.

Definition MAX_DEPTH : nat := 16.

(** ** The reader *)

Record Reader := mkReader { buf : bytes; pos : nat; depth : nat }.

Definition new (b : bytes) : Reader := mkReader b 0 0.
Definition nested (b : bytes) (d : nat) : Reader := mkReader b 0 d.
Definition at_pos (r : Reader) : Z := Z.of_nat (pos r).
Definition left_over (r : Reader) : nat := (List.length (buf r) - pos r)%nat.
Definition advance (n : nat) (r : Reader) : Reader := mkReader (buf r) (pos r + n) (depth r).

Inductive Field :=
| Varint (v : Z)
| Fixed64 (v : Z)
| Fixed32 (v : Z)
| Bytes (b : bytes).

Definition is_empty (r : Reader) : bool := (List.length (buf r) <=? pos r)%nat.

(** [(0..64).step_by(7)]. *)
Definition shifts : list Z := [0; 7; 14; 21; 28; 35; 42; 49; 56; 63].

(** Seven bits of each byte while the eighth is set; [u64 << shift] drops what
    does not fit. *)
Fixpoint varint_loop (shs : list Z) (start value : Z) : SE Reader ProtoError Z :=
  match shs with
  | [] => fail (VarintOverflow start)
  | shift :: rest =>
      next ← gets (fun r => buf r !! pos r);
      match next with
      | None => fail (Truncated start 1 0)
      | Some b =>
          _ ← modify (advance 1);
          let value := Z.lor value (wrap64 (Z.shiftl (Z.land (byte_val b) 127) shift)) in
          if Z.land (byte_val b) 128 =? 0 then mret value else varint_loop rest start value
      end
  end.

Definition varint : SE Reader ProtoError Z :=
  start ← gets at_pos; varint_loop shifts start 0.

Definition take (len : Z) : SE Reader ProtoError bytes :=
  r ← gets id;
  let left := Z.of_nat (left_over r) in
  if left <? len then fail (Truncated (at_pos r) len left)
  else
    _ ← modify (advance (Z.to_nat len));
    mret (firstn (Z.to_nat len) (skipn (pos r) (buf r))).

Definition next_field : SE Reader ProtoError (option (Z * Field)) :=
  done ← gets is_empty;
  if done : bool then mret None
  else
    start ← gets at_pos;
    key ← varint;
    let field := wrap32 (Z.shiftr key 3) in
    let wire_type := Z.land key 7 in
    if field =? 0 then fail (ZeroFieldNumber start)
    else
      value ← (if wire_type =? 0 then v ← varint; mret (Varint v)
               else if wire_type =? 1 then b ← take 8; mret (Fixed64 (le_val b))
               else if wire_type =? 2 then len ← varint; b ← take len; mret (Bytes b)
               else if wire_type =? 5 then b ← take 4; mret (Fixed32 (le_val b))
               else fail (UnsupportedWireType start field wire_type));
      mret (Some (field, value)).

(** ** What a field holds *)

Definition message (f : Field) (parent : Reader) : ProtoError + Reader :=
  let d := S (depth parent) in
  if (MAX_DEPTH <? d)%nat then inl (TooDeep (Z.of_nat MAX_DEPTH))
  else inr (nested (match f with Bytes b => b | _ => [] end) d).

Definition field_bytes (f : Field) : bytes := match f with Bytes b => b | _ => [] end.

Definition cont (b : byte) : bool := Z.land (byte_val b) 192 =? 128.

(** [std::str::from_utf8]: the well-formed byte sequences of Unicode, table 3-7. *)
Fixpoint utf8 (bs : bytes) : bool :=
  match bs with
  | [] => true
  | a :: t1 =>
      let v := byte_val a in
      if v <? 128 then utf8 t1
      else match t1 with
      | [] => false
      | b :: t2 =>
          if (194 <=? v) && (v <=? 223) then cont b && utf8 t2
          else match t2 with
          | [] => false
          | c :: t3 =>
              let w := byte_val b in
              if (224 <=? v) && (v <=? 239) then
                ((if v =? 224 then 160 else 128) <=? w) && (w <=? (if v =? 237 then 159 else 191))
                && cont c && utf8 t3
              else match t3 with
              | [] => false
              | d :: t4 =>
                  (240 <=? v) && (v <=? 244)
                  && ((if v =? 240 then 144 else 128) <=? w) && (w <=? (if v =? 244 then 143 else 191))
                  && cont c && cont d && utf8 t4
              end
          end
      end
  end.

Definition field_string (f : Field) : ProtoError + string :=
  match f with
  | Bytes b => if utf8 b then inr (string_of_list_byte b) else inl (InvalidUtf8 0)
  | _ => inr ""
  end.

Definition as_u64 (f : Field) : Z :=
  match f with Varint v | Fixed64 v | Fixed32 v => v | Bytes _ => 0 end.
Definition as_i64 (f : Field) : Z := wrap_i64 (as_u64 f).

(** [from_bits] of a binary interchange format with [mw] bits of mantissa and
    [ew] of exponent; [f64::from(f32)] is exact. *)
Definition float_of_bits (mw ew v : Z) : f64 :=
  let s := Z.testbit v (mw + ew) in
  let e := Z.land (Z.shiftr v mw) (2 ^ ew - 1) in
  let m := Z.land v (2 ^ mw - 1) in
  let bias := 2 ^ (ew - 1) - 1 in
  if e =? 2 ^ ew - 1 then (if m =? 0 then S754_infinity s else S754_nan)
  else if e =? 0 then
    match m with
    | Zpos _ => let f := binary_normalize 53 1024 m (1 - bias - mw) s in if s then SFopp f else f
    | _ => S754_zero s
    end
  else let f := binary_normalize 53 1024 (m + 2 ^ mw) (e - bias - mw) s in if s then SFopp f else f.

Definition as_f64 (f : Field) : f64 :=
  match f with
  | Fixed64 v => float_of_bits 52 11 v
  | Fixed32 v => float_of_bits 23 8 v
  | other => f64_of_Z (as_u64 other)
  end.

Definition as_bool (f : Field) : bool := negb (as_u64 f =? 0).

Example float_bits_cases :
  List.map (float_of_bits 52 11) [4607182418800017408; 4611686018427387904; 13830554455654793216; 4591870180066957722; 1; 9218868437227405312]
  = [f64_of_Z 1; f64_of_Z 2; f64_of_Z (-1); f64_dec 1 1; S754_finite false 1 (-1074); S754_infinity false]
  /\ float_of_bits 23 8 1069547520 = f64_div (f64_of_Z 3) (f64_of_Z 2).
Proof. vm_compute. done. Qed.

(** The reading loop of every message: [while let Some((field, value)) =
    r.next_field()? { step }].  The code's loop has no bound; the fuel of
    [fields] is a step more than the message has bytes. *)
Fixpoint each_field {A} (step : Z -> Field -> A -> Res A) (fuel : nat) (r : Reader) (a : A) : Res A :=
  match fuel with
  | O => Spent
  | S fuel' =>
      match next_field r with
      | (inl e, _) => Err e
      | (inr None, _) => Ok a
      | (inr (Some (f, v)), r') => a' ← step f v a; each_field step fuel' r' a'
      end
  end.

Definition fields {A} (step : Z -> Field -> A -> Res A) (r : Reader) (a : A) : Res A :=
  each_field step (S (List.length (buf r))) r a.

(** ** A reference encoder, as a producer writes *)

Fixpoint enc_varint_loop (fuel : nat) (v : Z) : bytes :=
  match fuel with
  | O => []
  | S fuel' =>
      let b := Z.land v 127 in
      let v := Z.shiftr v 7 in
      if v =? 0 then [to_byte b] else to_byte (Z.lor b 128) :: enc_varint_loop fuel' v
  end.
Definition enc_varint : Z -> bytes := enc_varint_loop 10.

Definition enc_tag (field wire : Z) : bytes := enc_varint (Z.lor (Z.shiftl field 3) wire).

Definition enc_bytes (field : Z) (payload : bytes) : bytes :=
  enc_tag field 2 ++ enc_varint (Z.of_nat (List.length payload)) ++ payload.

Definition enc_field (f : Z * Field) : bytes :=
  match snd f with
  | Varint v => enc_tag (fst f) 0 ++ enc_varint v
  | Fixed64 v => enc_tag (fst f) 1 ++ le_bytes 8 v
  | Fixed32 v => enc_tag (fst f) 5 ++ le_bytes 4 v
  | Bytes b => enc_bytes (fst f) b
  end.
Definition enc_fields (fs : list (Z * Field)) : bytes := concat (List.map enc_field fs).

(** What a producer may write. *)
Definition field_ok (f : Z * Field) : Prop :=
  1 <= fst f <= u32_max /\
  match snd f with
  | Varint v | Fixed64 v => u64_range v
  | Fixed32 v => u32_range v
  | Bytes b => Z.of_nat (List.length b) <= u64_max
  end.

Fixpoint fold_steps {A} (step : Z -> Field -> A -> Res A) (fs : list (Z * Field)) (a : A) : Res A :=
  match fs with
  | [] => Ok a
  | (f, v) :: rest => a' ← step f v a; fold_steps step rest a'
  end.

(** ** The reader moves on *)

Definition moves (k : nat) (r r' : Reader) : Prop :=
  buf r' = buf r /\ depth r' = depth r /\ (pos r + k <= pos r' <= List.length (buf r))%nat.

Lemma moves_trans k1 k2 r1 r2 r3 : moves k1 r1 r2 -> moves k2 r2 r3 -> moves (k1 + k2) r1 r3.
Proof.
  unfold moves. intros (Hb & Hd & H1) (Hb' & Hd' & H2). rewrite Hb in *. split_and!; [congruence|congruence|lia|].
  lia.
Qed.

Lemma varint_loop_moves shs : forall start v r x r',
  varint_loop shs start v r = (inr x, r') -> moves 1 r r'.
Proof.
  induction shs as [|s shs IH]; intros start v r x r' H; [done|].
  cbn [varint_loop] in H. unfold mbind, SE_bind, gets at 1 in H.
  destruct (buf r !! pos r) as [b|] eqn:E; [|done].
  apply lookup_lt_Some in E. cbn in H.
  assert (moves 1 r (advance 1 r)) as Hm.
  { unfold moves, advance. cbn [buf pos depth]. split_and!; [done|done| |]. all: lia. }
  destruct (Z.land (byte_val b) 128 =? 0).
  - injection H as _ <-. done.
  - apply IH in H. destruct (moves_trans _ _ _ _ _ Hm H) as (? & ? & ?). split_and!; (done || lia).
Qed.

Lemma take_moves len r x r' :
  (pos r <= List.length (buf r))%nat -> take len r = (inr x, r') -> moves 0 r r'.
Proof.
  intros Hr H. unfold take, mbind, SE_bind, gets, left_over, id in H. cbv beta in H.
  destruct (_ <? _) eqn:E; [done|]. injection H as _ <-. zbool.
  unfold moves, advance. cbn [buf pos depth]. split_and!; [done|done| |]. all: lia.
Qed.

Lemma next_field_moves r x r' :
  next_field r = (inr (Some x), r') -> moves 1 r r'.
Proof.
  intros H. unfold next_field in H. apply SE_bind_ok in H as (done & r1 & [= <- <-] & H).
  destruct (is_empty r); [done|].
  apply SE_bind_ok in H as (start & r2 & [= <- <-] & H).
  apply SE_bind_ok in H as (key & r1 & E & H).
  apply varint_loop_moves in E.
  destruct (_ =? 0); [done|].
  apply SE_bind_ok in H as (value & r2 & Ev & [= <- <-]).
  enough (moves 0 r1 r2) as H2.
  { destruct (moves_trans _ _ _ _ _ E H2) as (? & ? & ?). split_and!; (done || lia). }
  assert (pos r1 <= List.length (buf r1))%nat as Hp by (destruct E as (-> & _ & ?); lia).
  assert (forall k q, moves k r1 q -> moves 0 r1 q) as Hw by (unfold moves; intros ?? (?&?&?); split_and!; (done || lia)).
  repeat (case_match; simplify_eq).
  - apply SE_bind_ok in Ev as (v & r3 & Ev & [= <- <-]). apply varint_loop_moves in Ev. exact (Hw _ _ Ev).
  - apply SE_bind_ok in Ev as (v & r3 & Ev & [= <- <-]). by eapply take_moves.
  - apply SE_bind_ok in Ev as (v & r3 & Ev & Ev2). apply SE_bind_ok in Ev2 as (b & r4 & E2 & [= <- <-]).
    apply varint_loop_moves in Ev. assert (moves 0 r3 r4) as H4.
    { eapply take_moves; [|exact E2]. destruct Ev as (-> & _ & ?). lia. }
    exact (Hw _ _ (moves_trans _ _ _ _ _ Ev H4)).
  - apply SE_bind_ok in Ev as (v & r3 & Ev & [= <- <-]). by eapply take_moves.
Qed.

Lemma each_field_ends {A} (step : Z -> Field -> A -> Res A) fuel : forall r a,
  (left_over r < fuel)%nat -> (forall f v a, step f v a <> Spent) -> each_field step fuel r a <> Spent.
Proof.
  induction fuel as [|fuel IH]; intros r a Hf Hs; [lia|].
  cbn [each_field]. destruct (next_field r) as [[e|[[f v]|]] r'] eqn:E; [done| |done].
  apply next_field_moves in E as (Hb & _ & Hp).
  unfold mbind, Res_bind. destruct (step f v a) eqn:E; [by apply Hs in E|done|].
  apply IH; [|done]. unfold left_over in *. rewrite Hb. lia.
Qed.

Lemma fields_end {A} (step : Z -> Field -> A -> Res A) r a :
  (forall f v a, step f v a <> Spent) -> fields step r a <> Spent.
Proof. intros Hs. apply each_field_ends; [unfold left_over; lia|done]. Qed.

(** More fuel changes nothing. *)
Lemma each_field_more {A} (step : Z -> Field -> A -> Res A) fuel : forall r a,
  each_field step fuel r a <> Spent -> forall more, (fuel <= more)%nat -> each_field step more r a = each_field step fuel r a.
Proof.
  induction fuel as [|fuel IH]; intros r a Hn more Hm; [done|].
  destruct more as [|more]; [lia|]. cbn [each_field] in *.
  destruct (next_field r) as [[e|[[f v]|]] r']; [done| |done].
  unfold mbind, Res_bind in *. destruct (step f v a); [done..|]. apply IH; [done|lia].
Qed.

(** ** It reads what was written *)

Definition rest (r : Reader) : bytes := skipn (pos r) (buf r).

Lemma rest_lookup r : buf r !! pos r = head (rest r).
Proof. unfold rest. rewrite head_lookup, lookup_drop. f_equal. lia. Qed.

Lemma rest_advance n r : rest (advance n r) = skipn n (rest r).
Proof. unfold rest, advance. cbn [buf pos]. by rewrite skipn_skipn, Nat.add_comm. Qed.

Lemma rest_app r (a b : bytes) : rest r = a ++ b -> rest (advance (List.length a) r) = b.
Proof. intros H. by rewrite rest_advance, H, skipn_app, skipn_all, Nat.sub_diag. Qed.

Lemma length_rest r : List.length (rest r) = left_over r.
Proof. apply length_skipn. Qed.

Lemma advance_advance a b r : advance b (advance a r) = advance (a + b) r.
Proof. unfold advance. cbn [buf pos depth]. f_equal. lia. Qed.

Lemma low_bits b :
  (Z.land (byte_val b) 128 =? 0) = (byte_val b <? 128) /\ Z.land (byte_val b) 127 = byte_val b mod 128.
Proof. by destruct b. Qed.

Definition varint_shifts (n : nat) : list Z := List.map (fun i => 7 * Z.of_nat i) (seq (10 - n) n).

Lemma varint_loop_enc n : (n <= 10)%nat -> forall v value start r post,
  let k := 7 * (10 - Z.of_nat n) in
  0 <= v < 2 ^ (64 - k) -> 0 <= value < 2 ^ k ->
  rest r = enc_varint_loop n v ++ post ->
  varint_loop (varint_shifts n) start value r
  = (inr (v * 2 ^ k + value), advance (List.length (enc_varint_loop n v)) r).
Proof.
  induction n as [|n IH]; intros Hn v value start r post k Hv Hval Hr.
  { exfalso. change (64 - k) with (-6) in Hv. simpl in Hv. lia. }
  assert (2 ^ 64 = 2 ^ (64 - k) * 2 ^ k) as Hpow.
  { rewrite <- Z.pow_add_r by lia. f_equal. lia. }
  assert (varint_shifts (S n) = k :: varint_shifts n) as ->.
  { unfold varint_shifts. cbn [seq List.map]. f_equal; [lia|].
    destruct n; [done|]. by replace (S (10 - S (S n))) with (10 - S n)%nat by lia. }
  cbn [enc_varint_loop] in Hr |- *. rewrite (land_mask v 7) in * by (done || lia).
  rewrite Z.shiftr_div_pow2 in * by lia. change (2 ^ 7) with 128 in *.
  pose proof (Z.mod_pos_bound v 128 ltac:(lia)) as Hm. pose proof (Z.div_mod v 128 ltac:(lia)) as Hd.
  assert (forall b, byte_val b mod 128 = v mod 128 ->
    Z.lor value (wrap64 (Z.shiftl (Z.land (byte_val b) 127) k)) = v mod 128 * 2 ^ k + value) as Hor.
  { intros b Hb. destruct (low_bits b) as [_ ->]. rewrite Hb, wrap64_small.
    - apply lor_low; [lia|done].
    - rewrite Z.shiftl_mul_pow2 by lia. unfold u64_range, u64_max. nia. }
  cbn [varint_loop]. unfold mbind, SE_bind, gets at 1. rewrite rest_lookup, Hr.
  destruct (v / 128 =? 0) eqn:E; zbool; cbn [app head List.length modify].
  - assert (byte_val (to_byte (v mod 128)) = v mod 128) as Hb by (rewrite byte_val_to_byte; apply Z.mod_small; lia).
    rewrite (proj1 (low_bits _)), Hor, Hb, (proj2 (Z.ltb_lt _ _)) by (rewrite ?Hb, ?Zmod_mod; lia).
    unfold mret, SE_ret. do 2 f_equal. lia.
  - assert (0 < v / 128) by (apply Z.le_neq; split; [apply Z.div_pos; lia|done]).
    assert (Z.lor (v mod 128) 128 = 128 + v mod 128) as Hl by (apply (lor_low _ 7 1); lia).
    assert (byte_val (to_byte (Z.lor (v mod 128) 128)) = v mod 128 + 1 * 128) as Hb
      by (rewrite byte_val_to_byte, Z.mod_small; lia).
    rewrite (proj1 (low_bits _)), Hor, Hb, (proj2 (Z.ltb_ge _ _)) by (rewrite ?Hb, ?Z.mod_add, ?Zmod_mod; lia).
    assert (n <> 0)%nat as Hn0.
    { intros ->. subst k. change (64 - 7 * (10 - Z.of_nat 1)) with 1 in Hv. lia. }
    assert (7 * (10 - Z.of_nat n) = k + 7) as Hk by lia.
    etransitivity; [apply (IH ltac:(lia) (v / 128) _ start (advance 1 r) post)|].
    + rewrite Hk. split; [lia|]. apply Z.div_lt_upper_bound; [lia|].
      change 128 with (2 ^ 7). rewrite <- Z.pow_add_r by lia. replace (7 + (64 - (k + 7))) with (64 - k) by lia. lia.
    + rewrite Hk, Z.pow_add_r by lia. change (2 ^ 7) with 128. nia.
    + exact (rest_app r [to_byte (Z.lor (v mod 128) 128)] _ Hr).
    + rewrite Hk, Z.pow_add_r by lia. rewrite advance_advance. change (2 ^ 7) with 128. f_equal. f_equal. nia.
Qed.

Lemma varint_enc v r post :
  u64_range v -> rest r = enc_varint v ++ post ->
  varint r = (inr v, advance (List.length (enc_varint v)) r).
Proof.
  unfold u64_range, u64_max. intros Hv Hr. unfold varint, mbind, SE_bind, gets.
  pose proof (varint_loop_enc 10 ltac:(lia) v 0 (at_pos r) r post) as H.
  cbv zeta in H. change (varint_shifts 10) with shifts in H. rewrite H; [|lia|lia|done].
  do 2 f_equal. change (7 * (10 - Z.of_nat 10)) with 0. lia.
Qed.

Lemma take_app r (b post : bytes) :
  rest r = b ++ post -> take (Z.of_nat (List.length b)) r = (inr b, advance (List.length b) r).
Proof.
  intros Hr. unfold take, mbind, SE_bind, gets, id. cbv beta.
  pose proof (length_rest r) as Hl. rewrite Hr, length_app in Hl.
  destruct (_ <? _) eqn:E; zbool; [lia|]. rewrite Nat2Z.id. cbn [modify].
  unfold modify, mret, SE_ret. do 2 f_equal. change (skipn (pos r) (buf r)) with (rest r).
  by rewrite Hr, firstn_app, firstn_all, Nat.sub_diag, app_nil_r.
Qed.

Lemma enc_varint_loop_some n v : (0 < n)%nat -> (0 < List.length (enc_varint_loop n v))%nat.
Proof. destruct n; [lia|]. simpl. destruct (_ =? 0); simpl; lia. Qed.

Lemma tag_key field wire : 1 <= field <= u32_max -> 0 <= wire < 8 ->
  let key := Z.lor (Z.shiftl field 3) wire in
  u64_range key /\ wrap32 (Z.shiftr key 3) = field /\ Z.land key 7 = wire.
Proof.
  unfold u32_max. intros Hf Hw. cbv zeta. rewrite lor_shift by (simpl; lia). change (2 ^ 3) with 8.
  unfold u64_range, u64_max. split; [lia|].
  rewrite Z.shiftr_div_pow2, (land_mask _ 3) by lia. change (2 ^ 3) with 8.
  rewrite Z.add_comm, Z.div_add, Z.div_small, Z.mod_add, Z.mod_small by lia.
  split; [|done]. apply Z.mod_small. lia.
Qed.

Lemma not_empty r (b post : bytes) : rest r = b ++ post -> (0 < List.length b)%nat -> is_empty r = false.
Proof.
  intros Hr Hb. pose proof (length_rest r) as Hl. rewrite Hr, length_app in Hl.
  unfold is_empty, left_over in *. apply Nat.leb_gt. lia.
Qed.

Lemma enc_field_some f : (0 < List.length (enc_field f))%nat.
Proof.
  unfold enc_field, enc_bytes, enc_tag, enc_varint.
  destruct (snd f); rewrite !length_app; pose proof (enc_varint_loop_some 10) as H;
    (eapply Nat.lt_le_trans; [apply H; lia|apply Nat.le_add_r]).
Qed.

Lemma field_read f v r post :
  field_ok (f, v) -> rest r = enc_field (f, v) ++ post ->
  next_field r = (inr (Some (f, v)), advance (List.length (enc_field (f, v))) r).
Proof.
  intros [Hf Hv] Hr. unfold next_field. cbn [fst snd] in *.
  unfold mbind at 1, SE_bind at 1, gets at 1.
  rewrite (not_empty r _ _ Hr) by apply enc_field_some.
  unfold mbind at 1, SE_bind at 1, gets at 1.
  unfold enc_field in Hr |- *. cbn [fst snd] in *.
  set (w := match v with Varint _ => 0 | Fixed64 _ => 1 | Fixed32 _ => 5 | Bytes _ => 2 end).
  set (tail := match v with Varint v => enc_varint v | Fixed64 v => le_bytes 8 v | Fixed32 v => le_bytes 4 v
               | Bytes b => enc_varint (Z.of_nat (List.length b)) ++ b end).
  assert (rest r = enc_tag f w ++ tail ++ post) as Hr2.
  { rewrite Hr. unfold enc_bytes. subst w tail. destruct v; by rewrite <- ?app_assoc. }
  destruct (tag_key f w Hf ltac:(subst w; destruct v; lia)) as (Hk & Hfield & Hwire).
  rewrite (SE_bind_run _ _ _ _ _ (varint_enc _ r _ Hk Hr2)). cbv beta zeta.
  fold (enc_tag f w). rewrite Hfield, Hwire. rewrite (proj2 (Z.eqb_neq f 0)) by lia.
  apply rest_app in Hr2. set (r2 := advance _ r) in *.
  replace (List.length _) with (List.length (enc_tag f w) + List.length tail)%nat
    by (subst w tail; destruct v; unfold enc_bytes; rewrite ?length_app; reflexivity).
  rewrite <- advance_advance. fold r2. subst w tail.
  destruct v as [v|v|v|b]; cbn [Z.eqb Pos.eqb].
  - by rewrite (SE_bind_run _ _ _ _ _ (SE_bind_run _ _ _ _ _ (varint_enc _ r2 _ Hv Hr2))).
  - pose proof (take_app r2 _ _ Hr2) as Ht. rewrite length_le_bytes in *. 
    rewrite (SE_bind_run _ _ _ _ _ (SE_bind_run _ _ _ _ _ Ht)).
    unfold mret, SE_ret. rewrite le_val_le_bytes, Z.mod_small; [done|]. unfold u64_range, u64_max in Hv. lia.
  - pose proof (take_app r2 _ _ Hr2) as Ht. rewrite length_le_bytes in *.
    rewrite (SE_bind_run _ _ _ _ _ (SE_bind_run _ _ _ _ _ Ht)).
    unfold mret, SE_ret. rewrite le4_small; [done|]. exact Hv.
  - rewrite <- app_assoc in Hr2. assert (u64_range (Z.of_nat (List.length b))) as Hl by (unfold u64_range; lia).
    pose proof (varint_enc _ r2 _ Hl Hr2) as H1. apply rest_app in Hr2. set (r3 := advance _ r2) in *.
    pose proof (take_app r3 _ _ Hr2) as H2.
    unfold mbind, SE_bind. rewrite H1, H2. by rewrite length_app, <- advance_advance.
Qed.

Lemma each_field_enc {A} (step : Z -> Field -> A -> Res A) fs : forall fuel r a,
  Forall field_ok fs -> rest r = enc_fields fs -> (List.length fs < fuel)%nat ->
  each_field step fuel r a = fold_steps step fs a.
Proof.
  induction fs as [|[f v] fs IH]; intros fuel r a Hok Hr Hf; (destruct fuel as [|fuel]; [simpl in Hf; lia|]); cbn [each_field].
  - pose proof (length_rest r) as Hl. rewrite Hr in Hl. simpl in Hl.
    unfold next_field, mbind, SE_bind, gets. unfold is_empty, left_over in *.
    by rewrite (proj2 (Nat.leb_le _ _)) by lia.
  - apply Forall_cons in Hok as [Hok1 Hok]. unfold enc_fields in Hr. cbn [List.map concat] in Hr.
    rewrite (field_read f v r _ Hok1 Hr). cbn [fold_steps].
    unfold mbind, Res_bind. destruct (step f v a); [done..|].
    apply IH; [done|by apply rest_app in Hr|simpl in Hf; lia].
Qed.

Lemma length_enc_fields fs : (List.length fs <= List.length (enc_fields fs))%nat.
Proof.
  induction fs as [|f fs IH]; [done|]. unfold enc_fields in *. cbn [List.map concat List.length].
  rewrite length_app. pose proof (enc_field_some f). lia.
Qed.

(** A message is read as the fields that were written, in order. *)
Lemma fields_enc {A} (step : Z -> Field -> A -> Res A) fs d a :
  Forall field_ok fs -> fields step (nested (enc_fields fs) d) a = fold_steps step fs a.
Proof.
  intros Hok. unfold fields. apply each_field_enc; [done|done|]. cbn [buf nested].
  pose proof (length_enc_fields fs). lia.
Qed.
