(* ===== verification/Utf8.v ===== *)
(** Text as the bytes of a Rust [String] or a file: the scalar values of UTF-8,
    and [String::from_utf8_lossy], which puts U+FFFD for every ill-formed piece. *)

From S2P Require Import Prelude Text Proto.
Open Scope string_scope.
Open Scope Z_scope.
Open Scope list_scope.

(** The scalar values of a string that is UTF-8. *)
Fixpoint scalars (bs : bytes) : list Z :=
  match bs with
  | [] => []
  | a :: t1 =>
      let v := byte_val a in
      let low b := Z.land (byte_val b) 63 in
      if v <? 128 then v :: scalars t1
      else match t1 with
      | [] => []
      | b :: t2 =>
          if v <? 224 then (Z.land v 31 * 64 + low b) :: scalars t2
          else match t2 with
          | [] => []
          | c :: t3 =>
              if v <? 240 then (Z.land v 15 * 4096 + low b * 64 + low c) :: scalars t3
              else match t3 with
              | [] => []
              | d :: t4 => (Z.land v 7 * 262144 + low b * 4096 + low c * 64 + low d) :: scalars t4
              end
          end
      end
  end.

(** The second byte a first byte of three or four allows. *)
Definition second3 (v w : Z) : bool := ((if v =? 224 then 160 else 128) <=? w) && (w <=? (if v =? 237 then 159 else 191)).
Definition second4 (v w : Z) : bool := ((if v =? 240 then 144 else 128) <=? w) && (w <=? (if v =? 244 then 143 else 191)).

Definition REPLACEMENT : bytes := List.map to_byte [239; 191; 189].

(** Each maximal piece that starts a character and does not end one becomes one U+FFFD. *)
Fixpoint lossy (bs : bytes) : bytes :=
  match bs with
  | [] => []
  | a :: t1 =>
      let v := byte_val a in
      if v <? 128 then a :: lossy t1
      else if (194 <=? v) && (v <=? 223) then
        match t1 with
        | b :: t2 => if cont b then a :: b :: lossy t2 else REPLACEMENT ++ lossy t1
        | [] => REPLACEMENT
        end
      else if (224 <=? v) && (v <=? 239) then
        match t1 with
        | b :: t2 =>
            if second3 v (byte_val b) then
              match t2 with
              | c :: t3 => if cont c then a :: b :: c :: lossy t3 else REPLACEMENT ++ lossy t2
              | [] => REPLACEMENT
              end
            else REPLACEMENT ++ lossy t1
        | [] => REPLACEMENT
        end
      else if (240 <=? v) && (v <=? 244) then
        match t1 with
        | b :: t2 =>
            if second4 v (byte_val b) then
              match t2 with
              | c :: t3 =>
                  if cont c then
                    match t3 with
                    | d :: t4 => if cont d then a :: b :: c :: d :: lossy t4 else REPLACEMENT ++ lossy t3
                    | [] => REPLACEMENT
                    end
                  else REPLACEMENT ++ lossy t2
              | [] => REPLACEMENT
              end
            else REPLACEMENT ++ lossy t1
        | [] => REPLACEMENT
        end
      else REPLACEMENT ++ lossy t1
  end.

Definition LF : ascii := ascii_of_N 10.
Definition CR : ascii := ascii_of_N 13.

(** [str::lines], and [BufRead::lines] of text that is UTF-8. *)
Definition unterminated (l : string) : string := match strip_suffix (String CR "") l with Some r => r | None => l end.
Fixpoint ended_lines (pieces : list string) : list string :=
  match pieces with
  | [] => []
  | [x] => if String.eqb x "" then [] else [x]
  | x :: r => unterminated x :: ended_lines r
  end.
Definition str_lines (text : string) : list string := ended_lines (split_char LF text).

Definition bytes_ind2 (P : bytes -> Prop) (H : forall bs, (forall bs', (List.length bs' < List.length bs)%nat -> P bs') -> P bs) (bs : bytes) : P bs :=
  well_founded_induction (Wf_nat.well_founded_ltof _ (@List.length byte)) P H bs.

(** What is UTF-8 already is left alone, whatever follows it. *)
Lemma lossy_app a b : utf8 a = true -> lossy (a ++ b) = a ++ lossy b.
Proof.
  induction a as [a IH] using bytes_ind2. destruct a as [|x t1]; [done|]. cbn [utf8 lossy app].
  set (v := byte_val x). destruct (v <? 128) eqn:E1.
  { intros H. by rewrite IH by (done || (cbn; lia)). }
  destruct t1 as [|y t2]; [done|]. cbn [app].
  destruct ((194 <=? v) && (v <=? 223)) eqn:E2.
  { rewrite andb_true_iff. intros [-> H]. by rewrite (IH t2) by (done || (cbn; lia)). }
  destruct t2 as [|z t3]; [done|]. cbn [app].
  destruct ((224 <=? v) && (v <=? 239)) eqn:E3.
  { fold (second3 v (byte_val y)). rewrite !andb_true_iff. intros [[H1 ->] H].
    rewrite H1. by rewrite (IH t3) by (done || (cbn; lia)). }
  destruct t3 as [|w t4]; [done|]. cbn [app]. rewrite !andb_true_iff.
  intros [[[[[[-> ->] H3] H4] ->] ->] H7]. unfold second4. rewrite H3, H4. cbn [andb].
  by rewrite (IH t4) by (done || (cbn; lia)).
Qed.

Lemma lossy_utf8 a : utf8 a = true -> lossy a = a.
Proof. intros H. rewrite <- (app_nil_r a) at 1. by rewrite (lossy_app a [] H), app_nil_r. Qed.

Lemma utf8_app a b : utf8 a = true -> utf8 (a ++ b) = utf8 b.
Proof.
  induction a as [a IH] using bytes_ind2. destruct a as [|x t1]; [done|]. cbn [utf8 app].
  set (v := byte_val x). destruct (v <? 128) eqn:E1.
  { intros H. apply IH; [cbn; lia|done]. }
  destruct t1 as [|y t2]; [done|]. cbn [app].
  destruct ((194 <=? v) && (v <=? 223)) eqn:E2.
  { rewrite andb_true_iff. intros [-> H]. rewrite IH by (done || (cbn; lia)). done. }
  destruct t2 as [|z t3]; [done|]. cbn [app].
  destruct ((224 <=? v) && (v <=? 239)) eqn:E3.
  { rewrite andb_true_iff. intros [-> H]. rewrite IH by (done || (cbn; lia)). done. }
  destruct t3 as [|w t4]; [done|]. cbn [app]. rewrite andb_true_iff. intros [-> H]. rewrite IH by (done || (cbn; lia)). done.
Qed.
