(* ===== verification/Otlp.v ===== *)
(** [ExportLogsServiceRequest] to log records
    ([crates/logless-core/src/otlp/logs.rs]): what a producer sent is decoded
    field by field from the reader of [Proto]; the identifiers of new records
    ([Uuid::now_v7]) are a stream [fresh].  The code recurses as deep as the
    payload nests, which [MAX_DEPTH] bounds: the fuel of the mutual functions
    is [NEST], one more. *)

From S2P Require Import Prelude Text Float Model Base64 Proto.
Open Scope string_scope.
Open Scope Z_scope.
Open Scope list_scope.

Definition DEFAULT_SEVERITY : Severity := INFO.

Record Decoded := mkDecoded { records : list LogRecord; dropped_upstream : Z }.
Definition decoded_default : Decoded := mkDecoded [] 0.

(** [out.dropped_upstream += n]. *)
Definition add_dropped (n : Z) (out : Decoded) : Decoded :=
  mkDecoded (records out) (wadd64 (dropped_upstream out) n).

(** An all-zero id means unset. *)
Definition fixed_id (n : nat) (bs : bytes) : option bytes :=
  if negb (List.length bs =? n)%nat || forallb (fun b => byte_val b =? 0) bs then None else Some bs.

(** ** [AnyValue] *)

Inductive Value :=
| VEmpty
| VStr (s : string)
| VBool (b : bool)
| VI64 (v : Z)
| VF64 (v : f64)
| VStructured (s : string).

Definition show_bool (b : bool) : string := if b then "true" else "false".

Definition render (v : Value) : string :=
  match v with
  | VEmpty => ""
  | VStr s | VStructured s => s
  | VBool b => show_bool b
  | VI64 z => show_int z
  | VF64 f => f64_display f
  end.

Definition into_attr (v : Value) : AttrValue :=
  match v with
  | VStr s | VStructured s => AStr s
  | VBool b => ABool b
  | VI64 z => AI64 z
  | VF64 f => AF64 f
  | VEmpty => AStr ""
  end.

(** How a key-value list renders the value of an attribute. *)
Definition render_attr (v : AttrValue) : string :=
  match v with
  | AStr s => s
  | AI64 z => show_int z
  | AF64 f => f64_display f
  | ABool b => show_bool b
  end.

Definition bracket (l r : string) (s : string) : string := String.append l (String.append s r).

Fixpoint any_value (n : nat) (r : Reader) {struct n} : Res Value :=
  match n with
  | O => Spent
  | S n' =>
      fields (fun field v out =>
        match field with
        | 1 => s ← lift (field_string v); mret (VStr s)
        | 2 => mret (VBool (as_bool v))
        | 3 => mret (VI64 (as_i64 v))
        | 4 => mret (VF64 (as_f64 v))
        | 5 => m ← lift (message v r); s ← array_value n' m; mret (VStructured s)
        | 6 => m ← lift (message v r); s ← kvlist_value n' m; mret (VStructured s)
        | 7 => mret (VStructured (hex (field_bytes v)))
        | _ => mret out
        end) r VEmpty
  end
with array_value (n : nat) (r : Reader) {struct n} : Res string :=
  match n with
  | O => Spent
  | S n' =>
      parts ← fields (fun field v parts =>
        if field =? 1 then
          m ← lift (message v r); x ← any_value n' m; mret (parts ++ [render x])
        else mret parts) r [];
      mret (bracket "[" "]" (str_join "," parts))
  end
with kvlist_value (n : nat) (r : Reader) {struct n} : Res string :=
  match n with
  | O => Spent
  | S n' =>
      parts ← fields (fun field v parts =>
        if field =? 1 then
          m ← lift (message v r); attr ← key_value n' m;
          mret (match attr with
                | Some a => parts ++ [String.append (attr_key a) (String.append "=" (render_attr (attr_value a)))]
                | None => parts
                end)
        else mret parts) r [];
      mret (bracket "{" "}" (str_join " " parts))
  end
with key_value (n : nat) (r : Reader) {struct n} : Res (option Attr) :=
  match n with
  | O => Spent
  | S n' =>
      kv ← fields (fun field v kv =>
        match field with
        | 1 => s ← lift (field_string v); mret (s, snd kv)
        | 2 => m ← lift (message v r); x ← any_value n' m; mret (fst kv, x)
        | _ => mret kv
        end) r ("", VEmpty);
      mret (if String.eqb (fst kv) "" then None else Some (mkAttr (fst kv) (into_attr (snd kv))))
  end.

Definition NEST : nat := S MAX_DEPTH.

(** ** Records *)

(** The variables of [log_record]. *)
Record Draft := mkDraft {
  d_time : Z;
  d_observed : Z;
  d_severity_number : Z;
  d_severity_text : option string;
  d_body : string;
  d_attributes : list Attr;
  d_trace_id : option bytes;
  d_span_id : option bytes;
  d_event_name : option string;
  d_out : Decoded
}.
Definition draft_new (out : Decoded) : Draft := mkDraft 0 0 0 None "" [] None None None out.

Definition set_d_time x d := mkDraft x (d_observed d) (d_severity_number d) (d_severity_text d) (d_body d) (d_attributes d) (d_trace_id d) (d_span_id d) (d_event_name d) (d_out d).
Definition set_d_observed x d := mkDraft (d_time d) x (d_severity_number d) (d_severity_text d) (d_body d) (d_attributes d) (d_trace_id d) (d_span_id d) (d_event_name d) (d_out d).
Definition set_d_severity_number x d := mkDraft (d_time d) (d_observed d) x (d_severity_text d) (d_body d) (d_attributes d) (d_trace_id d) (d_span_id d) (d_event_name d) (d_out d).
Definition set_d_severity_text x d := mkDraft (d_time d) (d_observed d) (d_severity_number d) x (d_body d) (d_attributes d) (d_trace_id d) (d_span_id d) (d_event_name d) (d_out d).
Definition set_d_body x d := mkDraft (d_time d) (d_observed d) (d_severity_number d) (d_severity_text d) x (d_attributes d) (d_trace_id d) (d_span_id d) (d_event_name d) (d_out d).
Definition set_d_attributes x d := mkDraft (d_time d) (d_observed d) (d_severity_number d) (d_severity_text d) (d_body d) x (d_trace_id d) (d_span_id d) (d_event_name d) (d_out d).
Definition set_d_trace_id x d := mkDraft (d_time d) (d_observed d) (d_severity_number d) (d_severity_text d) (d_body d) (d_attributes d) x (d_span_id d) (d_event_name d) (d_out d).
Definition set_d_span_id x d := mkDraft (d_time d) (d_observed d) (d_severity_number d) (d_severity_text d) (d_body d) (d_attributes d) (d_trace_id d) x (d_event_name d) (d_out d).
Definition set_d_event_name x d := mkDraft (d_time d) (d_observed d) (d_severity_number d) (d_severity_text d) (d_body d) (d_attributes d) (d_trace_id d) (d_span_id d) x (d_out d).
Definition set_d_out x d := mkDraft (d_time d) (d_observed d) (d_severity_number d) (d_severity_text d) (d_body d) (d_attributes d) (d_trace_id d) (d_span_id d) (d_event_name d) x.

(** A text that is not empty replaces what was there. *)
Definition keep_text (s : string) (old : option string) : option string :=
  if String.eqb s "" then old else Some s.

Definition record_field (r : Reader) (field : Z) (v : Field) (d : Draft) : Res Draft :=
  match field with
  | 1 => mret (set_d_time (as_u64 v) d)
  | 2 => mret (set_d_severity_number (as_u64 v) d)
  | 3 => text ← lift (field_string v); mret (set_d_severity_text (keep_text text (d_severity_text d)) d)
  | 5 => m ← lift (message v r); x ← any_value NEST m; mret (set_d_body (render x) d)
  | 6 =>
      m ← lift (message v r); attr ← key_value NEST m;
      mret (match attr with Some a => set_d_attributes (d_attributes d ++ [a]) d | None => d end)
  | 7 => mret (set_d_out (add_dropped (as_u64 v) (d_out d)) d)
  | 9 => mret (set_d_trace_id (fixed_id 16 (field_bytes v)) d)
  | 10 => mret (set_d_span_id (fixed_id 8 (field_bytes v)) d)
  | 11 => mret (set_d_observed (as_u64 v) d)
  | 12 => name ← lift (field_string v); mret (set_d_event_name (keep_text name (d_event_name d)) d)
  | _ => mret d
  end.

Definition severity_of (number : Z) (text : option string) : Severity :=
  if number =? 0 then
    match text with
    | Some t => default DEFAULT_SEVERITY (from_text t)
    | None => DEFAULT_SEVERITY
    end
  else Z.min number 24.

(** The record of the variables; zero timestamps fall back to the receive time. *)
Definition finish_record (uuid : bytes) (now : Z) (d : Draft) : LogRecord :=
  let attributes := d_attributes d ++ match d_event_name d with
                                      | Some name => [mkAttr "event.name" (AStr name)]
                                      | None => []
                                      end in
  let observed := if d_observed d =? 0 then now else d_observed d in
  let time := if d_time d =? 0 then observed else d_time d in
  mkRecord uuid time observed (severity_of (d_severity_number d) (d_severity_text d)) (d_severity_text d)
    (d_body d) None (d_trace_id d) (d_span_id d) attributes None.

Section Requests.
Variable fresh : nat -> bytes.
Variable now : Z.

Definition log_record (r : Reader) (out : Decoded) : Res (LogRecord * Decoded) :=
  d ← fields (record_field r) r (draft_new out);
  mret (finish_record (fresh (List.length (records out))) now d, d_out d).

(** ** Scopes and resources *)

Definition with_context (service : option string) (scope : option string) (resource : list Attr) (r : LogRecord) : LogRecord :=
  mkRecord (event_id r) (timestamp_unix_nano r) (observed_unix_nano r) (severity r) (severity_text r) (body r)
    service (trace_id r) (span_id r)
    (attributes r ++ match scope with Some name => [mkAttr "otel.scope.name" (AStr name)] | None => [] end ++ resource)
    (template_id r).

Definition scope_name_field (field : Z) (v : Field) (name : option string) : Res (option string) :=
  if field =? 1 then s ← lift (field_string v); mret (keep_text s name) else mret name.

Definition scope_field (r : Reader) (field : Z) (v : Field) (st : option string * list Reader)
  : Res (option string * list Reader) :=
  match field with
  | 1 => m ← lift (message v r); name ← fields scope_name_field m (fst st); mret (name, snd st)
  | 2 => m ← lift (message v r); mret (fst st, snd st ++ [m])
  | _ => mret st
  end.

Fixpoint pending_records (service scope : option string) (resource : list Attr) (pending : list Reader) (out : Decoded)
  : Res Decoded :=
  match pending with
  | [] => mret out
  | m :: rest =>
      x ← log_record m out;
      let out := snd x in
      pending_records service scope resource rest
        (mkDecoded (records out ++ [with_context service scope resource (fst x)]) (dropped_upstream out))
  end.

Definition scope_logs (resource : list Attr) (service : option string) (r : Reader) (out : Decoded) : Res Decoded :=
  st ← fields (scope_field r) r (None, []);
  pending_records service (fst st) resource (snd st) out.

Record Resource := mkResource {
  resource_attrs : list Attr;
  res_service : option string;
  pending_scopes : list Reader;
  res_out : Decoded
}.

(** Field 1 of a resource: an attribute, of which [service.name] is the service. *)
Definition add_resource_attr (attr : option Attr) (st : Resource) : Resource :=
  match attr with
  | None => st
  | Some a =>
      let service := match attr_value a with
                     | AStr s => if String.eqb (attr_key a) "service.name" then Some s else res_service st
                     | _ => res_service st
                     end in
      mkResource (resource_attrs st ++ [a]) service (pending_scopes st) (res_out st)
  end.

Definition resource_attr_field (r : Reader) (field : Z) (v : Field) (st : Resource) : Res Resource :=
  match field with
  | 1 => m ← lift (message v r); attr ← key_value NEST m; mret (add_resource_attr attr st)
  | 2 => mret (mkResource (resource_attrs st) (res_service st) (pending_scopes st) (add_dropped (as_u64 v) (res_out st)))
  | _ => mret st
  end.

Definition resource_field (r : Reader) (field : Z) (v : Field) (st : Resource) : Res Resource :=
  match field with
  | 1 => m ← lift (message v r); fields (resource_attr_field m) m st
  | 2 => m ← lift (message v r); mret (mkResource (resource_attrs st) (res_service st) (pending_scopes st ++ [m]) (res_out st))
  | _ => mret st
  end.

Fixpoint each_scope (resource : list Attr) (service : option string) (scopes : list Reader) (out : Decoded) : Res Decoded :=
  match scopes with
  | [] => mret out
  | m :: rest => out ← scope_logs resource service m out; each_scope resource service rest out
  end.

Definition resource_logs (r : Reader) (out : Decoded) : Res Decoded :=
  st ← fields (resource_field r) r (mkResource [] None [] out);
  each_scope (resource_attrs st) (res_service st) (pending_scopes st) (res_out st).

Definition decode_request (b : bytes) : Res Decoded :=
  let r := new b in
  fields (fun field v out =>
    if field =? 1 then m ← lift (message v r); resource_logs m out else mret out) r decoded_default.
End Requests.
