(* ===== verification/OtlpFacts.v ===== *)
(** What the decoding of a logs request promises: it returns whatever the
    payload holds, and of what a producer encoded it gives every record with
    the fields that were set. *)

From S2P Require Import Prelude Text Float Model Base64 Proto Otlp.
Open Scope string_scope.
Open Scope Z_scope.
Open Scope list_scope.

(** ** It returns *)

Lemma bind_ends {A B} (m : Res A) (k : A -> Res B) : m <> Spent -> (forall a, k a <> Spent) -> (m ≫= k) <> Spent.
Proof. unfold mbind, Res_bind. destruct m; [done|done|]. intros _ H. apply H. Qed.

Lemma lift_ends {A} (r : ProtoError + A) : lift r <> Spent.
Proof. by destruct r. Qed.

Lemma ret_ends {A} (a : A) : mret a <> (Spent : Res A).
Proof. done. Qed.

Lemma message_depth v r m : message v r = inr m -> depth m = S (depth r) /\ (depth m <= MAX_DEPTH)%nat.
Proof. unfold message. destruct (_ <? _)%nat eqn:E; [done|]. intros [= <-]. apply Nat.ltb_ge in E. done. Qed.

(** A step into a nested message, whose reader is one deeper. *)
Lemma message_ends {B} v r (k : Reader -> Res B) :
  (forall m, depth m = S (depth r) -> (depth m <= MAX_DEPTH)%nat -> k m <> Spent) -> (lift (message v r) ≫= k) <> Spent.
Proof.
  intros H. destruct (message v r) as [e|m] eqn:E; [done|]. destruct (message_depth v r m E). by apply H.
Qed.

Ltac ends :=
  repeat first
    [ match goal with |- forall _, _ <> _ => intros ? end
    | apply message_ends; intros ? ? ?
    | apply bind_ends; [apply lift_ends|intros ?]
    | apply ret_ends
    | case_match ].

Lemma values_end n : forall r,
  (depth r <= MAX_DEPTH)%nat -> (MAX_DEPTH < n + depth r)%nat ->
  any_value n r <> Spent /\ array_value n r <> Spent /\ kvlist_value n r <> Spent /\ key_value n r <> Spent.
Proof.
  induction n as [|n IH]; intros r Hd Hn; [lia|].
  assert (forall m, depth m = S (depth r) -> (depth m <= MAX_DEPTH)%nat ->
    any_value n m <> Spent /\ array_value n m <> Spent /\ kvlist_value n m <> Spent /\ key_value n m <> Spent) as Hin.
  { intros m H1 H2. apply IH; [done|lia]. }
  cbn [any_value array_value kvlist_value key_value]. split_and!.
  - apply fields_end. intros f v a. ends; (apply bind_ends; [by apply Hin|ends]).
  - apply bind_ends; [|ends]. apply fields_end. intros f v a. ends. apply bind_ends; [by apply Hin|ends].
  - apply bind_ends; [|ends]. apply fields_end. intros f v a. ends. apply bind_ends; [by apply Hin|ends].
  - apply bind_ends; [|ends]. apply fields_end. intros f v a. ends. apply bind_ends; [by apply Hin|ends].
Qed.

Lemma any_value_ends r : (depth r <= MAX_DEPTH)%nat -> any_value NEST r <> Spent.
Proof. intros H. apply values_end; [done|unfold NEST; lia]. Qed.
Lemma key_value_ends r : (depth r <= MAX_DEPTH)%nat -> key_value NEST r <> Spent.
Proof. intros H. apply values_end; [done|unfold NEST; lia]. Qed.

Section Ends.
Variable fresh : nat -> bytes.
Variable now : Z.

Lemma log_record_ends r out : log_record fresh now r out <> Spent.
Proof.
  apply bind_ends; [|ends]. apply fields_end. intros f v a. unfold record_field. ends.
  - apply bind_ends; [by apply any_value_ends|ends].
  - apply bind_ends; [by apply key_value_ends|ends].
Qed.

Lemma scope_logs_end resource service r out : scope_logs fresh now resource service r out <> Spent.
Proof.
  apply bind_ends.
  - apply fields_end. intros f v a. unfold scope_field. ends.
    apply bind_ends; [|ends]. apply fields_end. intros ???. unfold scope_name_field. ends.
  - intros [name pending]. cbn [fst snd]. revert out. induction pending as [|m pending IH]; intros out; [done|].
    cbn [pending_records]. apply bind_ends; [apply log_record_ends|intros x; apply IH].
Qed.

Lemma resource_logs_end r out : resource_logs fresh now r out <> Spent.
Proof.
  apply bind_ends.
  - apply fields_end. intros f v a. unfold resource_field. ends.
    apply fields_end. intros ???. unfold resource_attr_field. ends.
    apply bind_ends; [by apply key_value_ends|ends].
  - intros [attrs service scopes out']. cbn [resource_attrs res_service pending_scopes res_out].
    revert out'. induction scopes as [|m scopes IH]; intros out'; [done|].
    cbn [each_scope]. apply bind_ends; [apply scope_logs_end|apply IH].
Qed.
End Ends.

Lemma request_ends (fresh : nat -> bytes) (now : Z) (b : bytes) : decode_request fresh now b <> Spent.
Proof. apply fields_end. intros f v a. ends. apply resource_logs_end. Qed.

(** Decoding returns, with records or an error, whatever the bytes of the
    request: every field takes at least a byte and every nested message is one
    deeper, so the fuel is never spent. *)
Theorem decode_returns (fresh : nat -> bytes) (now : Z) (b : bytes) :
  decode_request fresh now b <> Spent.
Proof. apply request_ends. Qed.

(** ** What a producer encodes

    The message tree of a request, and its fields in the encoding; the resource
    block of a [ResourceLogs] may come before or after its scopes. *)

Inductive PValue :=
| PNone
| PStr (s : string)
| PBool (b : bool)
| PInt (z : Z)
| PDouble (bits : Z)
| PArr (items : list PValue)
| PKv (fields : list (string * PValue))
| PBytes (b : bytes).

Section PValueInd.
Variable P : PValue -> Prop.
Hypothesis HNone : P PNone.
Hypothesis HStr : forall s, P (PStr s).
Hypothesis HBool : forall b, P (PBool b).
Hypothesis HInt : forall z, P (PInt z).
Hypothesis HDouble : forall v, P (PDouble v).
Hypothesis HArr : forall l, Forall P l -> P (PArr l).
Hypothesis HKv : forall l, Forall (fun kv => P (snd kv)) l -> P (PKv l).
Hypothesis HBytes : forall b, P (PBytes b).
Fixpoint PValue_rect' (v : PValue) : P v :=
  match v with
  | PNone => HNone
  | PStr s => HStr s
  | PBool b => HBool b
  | PInt z => HInt z
  | PDouble x => HDouble x
  | PArr l => HArr l ((fix go l : Forall P l := match l with
                                   | [] => List.Forall_nil _
                                   | x :: r => List.Forall_cons _ _ _ (PValue_rect' x) (go r)
                                   end) l)
  | PKv l => HKv l ((fix go l : Forall (fun kv => P (snd kv)) l := match l with
                                 | [] => List.Forall_nil _
                                 | x :: r => List.Forall_cons _ _ _ (PValue_rect' (snd x)) (go r)
                                 end) l)
  | PBytes b => HBytes b
  end.
End PValueInd.

Definition text_field (n : Z) (s : string) : Z * Field := (n, Bytes (list_byte_of_string s)).
Definition msg_field (n : Z) (fs : list (Z * Field)) : Z * Field := (n, Bytes (enc_fields fs)).
Definition kv_fields (key : string) (value : list (Z * Field)) : list (Z * Field) :=
  [text_field 1 key; msg_field 2 value].

Fixpoint enc_any (v : PValue) : list (Z * Field) :=
  match v with
  | PNone => []
  | PStr s => [text_field 1 s]
  | PBool b => [(2, Varint (Z.b2z b))]
  | PInt z => [(3, Varint (wrap64 z))]
  | PDouble bits => [(4, Fixed64 bits)]
  | PArr l => [msg_field 5 (List.map (fun x => msg_field 1 (enc_any x)) l)]
  | PKv l => [msg_field 6 (List.map (fun kv => msg_field 1 (kv_fields (fst kv) (enc_any (snd kv)))) l)]
  | PBytes b => [(7, Bytes b)]
  end.

(** The value the store keeps of it. *)
Definition kv_text (key : string) (v : Value) : list string :=
  if String.eqb key "" then [] else [String.append key (String.append "=" (render v))].
Fixpoint value_of (v : PValue) : Value :=
  match v with
  | PNone => VEmpty
  | PStr s => VStr s
  | PBool b => VBool b
  | PInt z => VI64 z
  | PDouble bits => VF64 (float_of_bits 52 11 bits)
  | PArr l => VStructured (bracket "[" "]" (str_join "," (List.map (fun x => render (value_of x)) l)))
  | PKv l => VStructured (bracket "{" "}" (str_join " " (concat (List.map (fun kv => kv_text (fst kv) (value_of (snd kv))) l))))
  | PBytes b => VStructured (hex b)
  end.

Definition text_ok (s : string) : bool := utf8 (list_byte_of_string s).
Definition in_u64 (z : Z) : bool := (0 <=? z) && (z <=? u64_max).

(** Well-formed, and not too deep for a reader at depth [d]. *)
Fixpoint value_ok (d : nat) (v : PValue) : bool :=
  (d <=? MAX_DEPTH)%nat &&
  match v with
  | PStr s => text_ok s
  | PInt z => (i64_min <=? z) && (z <=? i64_max)
  | PDouble bits => in_u64 bits
  | PArr l => (S d <=? MAX_DEPTH)%nat && forallb (value_ok (S (S d))) l
  | PKv l => (S d <=? MAX_DEPTH)%nat &&
      forallb (fun kv => text_ok (fst kv) && ((S (S d)) <=? MAX_DEPTH)%nat && value_ok (S (S (S d))) (snd kv)) l
  | _ => true
  end.

Record PRecord := mkPRecord {
  p_time : Z;
  p_observed : Z;
  p_severity : Z;
  p_text : string;
  p_body : PValue;
  p_attrs : list (string * PValue);
  p_dropped : Z;
  p_trace : bytes;
  p_span : bytes;
  p_event : string
}.
Record PScope := mkPScope { ps_name : string; ps_records : list PRecord }.
Record PResource := mkPResource {
  pr_attrs : list (string * PValue);
  pr_dropped : Z;
  pr_scopes : list PScope;
  pr_last : bool
}.

Definition attr_fields (n : Z) (attrs : list (string * PValue)) : list (Z * Field) :=
  List.map (fun kv => msg_field n (kv_fields (fst kv) (enc_any (snd kv)))) attrs.

Definition enc_record (p : PRecord) : list (Z * Field) :=
  [(1, Fixed64 (p_time p)); (2, Varint (p_severity p)); text_field 3 (p_text p); msg_field 5 (enc_any (p_body p))]
  ++ attr_fields 6 (p_attrs p)
  ++ [(7, Varint (p_dropped p)); (9, Bytes (p_trace p)); (10, Bytes (p_span p)); (11, Fixed64 (p_observed p)); text_field 12 (p_event p)].

Definition enc_scope (s : PScope) : list (Z * Field) :=
  msg_field 1 [text_field 1 (ps_name s)] :: List.map (fun p => msg_field 2 (enc_record p)) (ps_records s).

Definition enc_resource (r : PResource) : list (Z * Field) :=
  let block := msg_field 1 (attr_fields 1 (pr_attrs r) ++ [(2, Varint (pr_dropped r))]) in
  let scopes := List.map (fun s => msg_field 2 (enc_scope s)) (pr_scopes r) in
  if pr_last r then scopes ++ [block] else block :: scopes.

Definition enc_request (req : list PResource) : bytes := enc_fields (List.map (fun r => msg_field 1 (enc_resource r)) req).

(** The records it stands for. *)
Definition attr_of (kv : string * PValue) : option Attr :=
  if String.eqb (fst kv) "" then None else Some (mkAttr (fst kv) (into_attr (value_of (snd kv)))).
Definition attrs_of : list (string * PValue) -> list Attr := omap attr_of.

Definition non_empty (s : string) : option string := if String.eqb s "" then None else Some s.
Definition attr_if (key : string) (s : option string) : list Attr :=
  match s with Some v => [mkAttr key (AStr v)] | None => [] end.

(** The last [service.name] that is a text. *)
Definition service_name (attrs : list Attr) : option string :=
  last (omap (fun a => match attr_value a with
                       | AStr s => if String.eqb (attr_key a) "service.name" then Some s else None
                       | _ => None
                       end) attrs).

Definition record_of (now : Z) (resource : list Attr) (scope : option string) (p : PRecord) (uuid : bytes) : LogRecord :=
  let observed := if p_observed p =? 0 then now else p_observed p in
  mkRecord uuid (if p_time p =? 0 then observed else p_time p) observed
    (severity_of (p_severity p) (non_empty (p_text p))) (non_empty (p_text p))
    (render (value_of (p_body p))) (service_name resource)
    (fixed_id 16 (p_trace p)) (fixed_id 8 (p_span p))
    ((attrs_of (p_attrs p) ++ attr_if "event.name" (non_empty (p_event p)))
     ++ attr_if "otel.scope.name" scope ++ resource) None.

Definition scope_records (now : Z) (resource : list Attr) (s : PScope) : list (bytes -> LogRecord) :=
  List.map (record_of now resource (non_empty (ps_name s))) (ps_records s).
Definition resource_records (now : Z) (r : PResource) : list (bytes -> LogRecord) :=
  concat (List.map (scope_records now (attrs_of (pr_attrs r))) (pr_scopes r)).
Definition request_records (now : Z) (req : list PResource) : list (bytes -> LogRecord) :=
  concat (List.map (resource_records now) req).

Definition sum_of {A} (f : A -> Z) (l : list A) : Z := foldr (fun a n => f a + n) 0 l.
Definition scope_dropped (s : PScope) : Z := sum_of p_dropped (ps_records s).
Definition resource_dropped (r : PResource) : Z := pr_dropped r + sum_of scope_dropped (pr_scopes r).

Definition attrs_ok (d : nat) (attrs : list (string * PValue)) : bool :=
  forallb (fun kv => text_ok (fst kv) && value_ok d (snd kv)) attrs.
Definition record_ok (p : PRecord) : bool :=
  in_u64 (p_time p) && in_u64 (p_observed p) && in_u64 (p_severity p) && in_u64 (p_dropped p)
  && text_ok (p_text p) && text_ok (p_event p) && value_ok 4 (p_body p) && attrs_ok 5 (p_attrs p).
Definition scope_ok (s : PScope) : bool := text_ok (ps_name s) && forallb record_ok (ps_records s).
Definition resource_ok (r : PResource) : bool :=
  attrs_ok 4 (pr_attrs r) && in_u64 (pr_dropped r) && forallb scope_ok (pr_scopes r).

(** ** Reading a message that was encoded *)

Definition small (fs : list (Z * Field)) : Prop := Z.of_nat (List.length (enc_fields fs)) <= u64_max.

Definition numbers_ok (f : Z * Field) : bool :=
  (1 <=? fst f) && (fst f <=? u32_max) &&
  match snd f with
  | Varint v | Fixed64 v => in_u64 v
  | Fixed32 v => (0 <=? v) && (v <=? u32_max)
  | Bytes _ => true
  end.

Lemma enc_fields_app a b : enc_fields (a ++ b) = enc_fields a ++ enc_fields b.
Proof. unfold enc_fields. by rewrite List.map_app, concat_app. Qed.

Lemma small_app a b : small (a ++ b) -> small a /\ small b.
Proof. unfold small. rewrite enc_fields_app, length_app. lia. Qed.

Lemma small_elem f fs : f ∈ fs -> small fs -> small [f].
Proof.
  intros Hf Hs. apply list_elem_of_split in Hf as (a & b & ->).
  apply small_app in Hs as [_ Hs]. by apply (small_app [f] b) in Hs as [? _].
Qed.

Lemma small_payload n b : small [(n, Bytes b)] -> Z.of_nat (List.length b) <= u64_max.
Proof.
  unfold small, enc_fields, enc_field, enc_bytes. cbn [List.map concat fst snd]. rewrite !length_app. lia.
Qed.

Lemma small_msg n fs : small [msg_field n fs] -> small fs.
Proof. apply small_payload. Qed.

Lemma fields_ok fs : small fs -> forallb numbers_ok fs = true -> Forall field_ok fs.
Proof.
  intros Hs Hn. rewrite forallb_forall in Hn. apply Forall_forall. intros [n v] Hin.
  pose proof (small_elem _ _ Hin Hs) as H1. apply list_elem_of_In, Hn in Hin.
  unfold numbers_ok, in_u64 in Hin. unfold field_ok, u64_range, u32_range. cbn [fst snd] in *.
  destruct v; zbool; split; try lia. by apply small_payload in H1.
Qed.

Lemma read_fields {A} (step : Z -> Field -> A -> Res A) fs d a :
  small fs -> forallb numbers_ok fs = true -> fields step (nested (enc_fields fs) d) a = fold_steps step fs a.
Proof. intros Hs Hn. by apply fields_enc, fields_ok. Qed.

Lemma message_msg b r : (S (depth r) <= MAX_DEPTH)%nat -> message (Bytes b) r = inr (nested b (S (depth r))).
Proof. intros H. unfold message. by rewrite (proj2 (Nat.ltb_ge _ _)). Qed.

Lemma text_read s : text_ok s = true -> field_string (Bytes (list_byte_of_string s)) = inr s.
Proof. intros H. unfold field_string. unfold text_ok in H. by rewrite H, string_of_list_byte_of_string. Qed.

Lemma Ok_bind {A B} (a : A) (k : A -> Res B) : (Ok a ≫= k) = k a.
Proof. done. Qed.

Lemma mret_bind {A B} (a : A) (k : A -> Res B) : (mret a ≫= k) = k a.
Proof. done. Qed.

(** Run the reads that succeeded. *)
Ltac run := repeat (cbn [lift fst snd depth nested]; first [rewrite mret_bind | rewrite Ok_bind]); cbn [lift fst snd depth nested].

Lemma fold_steps_app {A} (step : Z -> Field -> A -> Res A) l1 l2 a b :
  fold_steps step l1 a = Ok b -> fold_steps step (l1 ++ l2) a = fold_steps step l2 b.
Proof.
  revert a. induction l1 as [|[f v] l1 IH]; intros a H; [by injection H as ->|].
  cbn [app fold_steps] in *. unfold mbind, Res_bind in *. destruct (step f v a); [done..|]. by apply IH.
Qed.

(** A repeated field: each value read in turn. *)
Lemma fold_steps_map {A X} (step : Z -> Field -> A -> Res A) (g : X -> Z * Field) (h : A -> X -> A) l a :
  (forall x b, x ∈ l -> step (fst (g x)) (snd (g x)) b = Ok (h b x)) ->
  fold_steps step (List.map g l) a = Ok (foldl h a l).
Proof.
  revert a. induction l as [|x l IH]; intros a H; [done|].
  cbn [List.map fold_steps]. pose proof (H x a ltac:(left)) as Hx. destruct (g x) as [f v]. cbn [fst snd] in Hx.
  rewrite Hx, Ok_bind. apply IH. intros y b Hy. apply H. by right.
Qed.

Lemma foldl_concat {A B} (f : A -> list B) l acc :
  foldl (fun parts x => parts ++ f x) acc l = acc ++ concat (List.map f l).
Proof.
  revert acc. induction l as [|x l IH]; intros acc; simpl; [by rewrite app_nil_r|]. by rewrite IH, app_assoc.
Qed.

Lemma concat_single {A B} (f : A -> B) l : concat (List.map (fun x => [f x]) l) = List.map f l.
Proof. induction l as [|x l IH]; [done|]. simpl. by rewrite IH. Qed.

Lemma numbers_ok_map {X} (g : X -> Z * Field) l :
  (forall x, numbers_ok (g x) = true) -> forallb numbers_ok (List.map g l) = true.
Proof. intros H. apply forallb_forall. intros f Hf. apply in_map_iff in Hf as (x & <- & _). apply H. Qed.

Lemma render_into_attr v : render_attr (into_attr v) = render v.
Proof. by destruct v. Qed.

Lemma value_ok_numbers d v : value_ok d v = true -> forallb numbers_ok (enc_any v) = true.
Proof.
  destruct v; simpl; try done; intros H; zbool.
  - by destruct b.
  - unfold numbers_ok, in_u64. cbn [fst snd]. pose proof (wrap64_range z) as Hw. unfold u64_range in Hw.
    rewrite !andb_true_iff, !Z.leb_le. unfold u32_max. lia.
  - unfold numbers_ok. cbn [fst snd]. rewrite H0. done.
Qed.

Lemma value_ok_depth d v : value_ok d v = true -> (d <= MAX_DEPTH)%nat.
Proof. destruct v; cbn [value_ok]; intros [H _]%andb_prop; by apply Nat.leb_le. Qed.

Lemma wrap_i64_wrap z : i64_min <= z <= i64_max -> wrap_i64 (wrap64 z) = z.
Proof.
  intros H. rewrite <- (wrap_i64_small z H) at 2. unfold wrap_i64, wrap64, wrap. f_equal. by rewrite Zplus_mod_idemp_l.
Qed.

Definition any_reads (v : PValue) : Prop := forall n d,
  value_ok d v = true -> (MAX_DEPTH < n + d)%nat -> small (enc_any v) ->
  any_value n (nested (enc_fields (enc_any v)) d) = Ok (value_of v).

Definition kv_of (key : string) (v : PValue) : option Attr := attr_of (key, v).

(** One key and its value. *)
Lemma key_value_reads key v n d :
  any_reads v -> text_ok key = true -> (S d <= MAX_DEPTH)%nat -> value_ok (S d) v = true -> (MAX_DEPTH < n + d)%nat ->
  small (kv_fields key (enc_any v)) ->
  key_value n (nested (enc_fields (kv_fields key (enc_any v))) d) = Ok (kv_of key v).
Proof.
  intros Hv Hk Hd Hok Hn Hs. destruct n as [|n]; [lia|]. cbn [key_value].
  rewrite read_fields; [|done|done]. unfold kv_fields, text_field, msg_field. cbn [fold_steps].
  rewrite (text_read key Hk). run.
  rewrite message_msg by done. run.
  assert (small (enc_any v)) as Hsv.
  { eapply small_msg, small_elem; [|exact Hs]. right. left. }
  rewrite (Hv n (S d) Hok ltac:(lia) Hsv). done.
Qed.

Lemma any_value_reads v : any_reads v.
Proof.
  induction v as [|s|b|z|bits|l IH|l IH|b] using PValue_rect'; intros n d Hok Hn Hs;
    (destruct n as [|n]; [apply value_ok_depth in Hok; lia|]); cbn [any_value];
    (rewrite read_fields; [|done|by apply (value_ok_numbers d)]); cbn [enc_any fold_steps text_field value_of]; try done.
  - cbn [value_ok] in Hok. zbool. by rewrite text_read.
  - by destruct b.
  - cbn [value_ok] in Hok. zbool. unfold as_i64. cbn [as_u64]. by rewrite wrap_i64_wrap.
  - cbn [value_ok] in Hok. apply andb_prop in Hok as [_ [H1%Nat.leb_le H2]%andb_prop]. unfold msg_field at 1. cbn [fold_steps].
    rewrite message_msg by done. run.
    destruct n as [|n]; [lia|]. cbn [array_value].
    pose proof (small_msg 5 _ Hs) as Hsl.
    rewrite read_fields; [|done|by apply numbers_ok_map].
    rewrite (fold_steps_map _ _ (fun parts x => parts ++ [render (value_of x)])).
    + rewrite !Ok_bind, foldl_concat, concat_single. done.
    + intros x parts Hx. cbn [fst snd msg_field Z.eqb Pos.eqb].
      rewrite forallb_forall in H2. specialize (H2 x ltac:(by apply list_elem_of_In)).
      pose proof (value_ok_depth _ _ H2). rewrite message_msg by done. run.
      rewrite Forall_forall in IH. rewrite (IH x Hx n _ H2); [done|lia|].
      eapply small_msg, small_elem; [|exact Hsl]. apply list_elem_of_In, (in_map (fun x => msg_field 1 (enc_any x))). by apply list_elem_of_In.
  - cbn [value_ok] in Hok. apply andb_prop in Hok as [_ [H1%Nat.leb_le H2]%andb_prop]. unfold msg_field at 1. cbn [fold_steps].
    rewrite message_msg by done. run.
    destruct n as [|n]; [lia|]. cbn [kvlist_value].
    pose proof (small_msg 6 _ Hs) as Hsl.
    rewrite read_fields; [|done|by apply numbers_ok_map].
    rewrite (fold_steps_map _ _ (fun parts kv => parts ++ kv_text (fst kv) (value_of (snd kv)))).
    + rewrite !Ok_bind, foldl_concat. done.
    + intros [k x] parts Hx. cbn [fst snd msg_field Z.eqb Pos.eqb].
      rewrite forallb_forall in H2. specialize (H2 _ (proj1 (list_elem_of_In _ _) Hx)). cbn [fst snd] in H2.
      apply andb_prop in H2 as [[Hk H3%Nat.leb_le]%andb_prop H0].
      rewrite message_msg by done. run.
      rewrite Forall_forall in IH. rewrite key_value_reads; [|by apply (IH (k, x))|done| |done|lia|].
      * rewrite Ok_bind. unfold kv_of, attr_of, kv_text. cbn [fst snd].
        destruct (String.eqb k ""); [by rewrite app_nil_r|]. cbn [attr_key attr_value]. by rewrite render_into_attr.
      * by pose proof (value_ok_depth _ _ H0).
      * eapply small_msg, small_elem; [|exact Hsl]. apply list_elem_of_In, (in_map (fun kv => msg_field 1 (kv_fields (fst kv) (enc_any (snd kv)))) l (k, x)). by apply list_elem_of_In.
Qed.

(** ** Records, scopes, resources *)

Lemma attr_reads key v d :
  text_ok key = true -> (S d <= MAX_DEPTH)%nat -> value_ok (S d) v = true -> (1 <= d)%nat ->
  small (kv_fields key (enc_any v)) ->
  key_value NEST (nested (enc_fields (kv_fields key (enc_any v))) d) = Ok (attr_of (key, v)).
Proof. intros. apply key_value_reads; [apply any_value_reads|done..|unfold NEST; lia|done]. Qed.

(** A repeated attribute field, by what is done with each attribute. *)
Lemma attrs_fold {A} (step : Z -> Field -> A -> Res A) (add : option Attr -> A -> A) n r attrs a :
  (forall v b, step n v b = (m ← lift (message v r); attr ← key_value NEST m; mret (add attr b))) ->
  (S (S (depth r)) <= MAX_DEPTH)%nat -> attrs_ok (S (S (depth r))) attrs = true -> small (attr_fields n attrs) ->
  fold_steps step (attr_fields n attrs) a = Ok (foldl (fun b kv => add (attr_of kv) b) a attrs).
Proof.
  intros Hstep Hd Hok Hs. apply fold_steps_map. intros [k v] b Hx. cbn [fst snd msg_field].
  unfold attrs_ok in Hok. rewrite forallb_forall in Hok. specialize (Hok _ (proj1 (list_elem_of_In _ _) Hx)).
  cbn [fst snd] in Hok. apply andb_prop in Hok as [Hk Hv].
  rewrite Hstep, message_msg by lia. run. rewrite attr_reads; [done|done|done|done|lia|].
  eapply small_msg, small_elem; [|exact Hs]. apply list_elem_of_In.
  apply (in_map (fun kv => msg_field n (kv_fields (fst kv) (enc_any (snd kv)))) attrs (k, v)). by apply list_elem_of_In.
Qed.

Lemma add_attrs attrs d :
  foldl (fun b kv => match attr_of kv with Some a => set_d_attributes (d_attributes b ++ [a]) b | None => b end) d attrs
  = set_d_attributes (d_attributes d ++ attrs_of attrs) d.
Proof.
  revert d. induction attrs as [|kv attrs IH]; intros d; [simpl; rewrite app_nil_r; by destruct d|].
  cbn [foldl]. rewrite IH. unfold attrs_of. cbn [omap list_omap].
  destruct (attr_of kv) as [a|]; [|done]. cbn [set_d_attributes d_attributes]. by rewrite <- app_assoc.
Qed.

Lemma keep_text_new s : keep_text s None = non_empty s.
Proof. done. Qed.

Lemma attr_numbers n attrs : 1 <= n <= 15 -> forallb numbers_ok (attr_fields n attrs) = true.
Proof. intros H. apply numbers_ok_map. intros kv. unfold numbers_ok, u32_max. cbn [msg_field fst snd]. lia. Qed.

Lemma record_ok_spec p : record_ok p = true ->
  (in_u64 (p_time p) = true /\ in_u64 (p_observed p) = true /\ in_u64 (p_severity p) = true /\ in_u64 (p_dropped p) = true)
  /\ text_ok (p_text p) = true /\ text_ok (p_event p) = true /\ value_ok 4 (p_body p) = true /\ attrs_ok 5 (p_attrs p) = true.
Proof. unfold record_ok. rewrite !andb_true_iff. tauto. Qed.

Lemma record_numbers p : record_ok p = true -> forallb numbers_ok (enc_record p) = true.
Proof.
  intros ((H1 & H2 & H3 & H4) & _)%record_ok_spec.
  unfold enc_record. rewrite !forallb_app, attr_numbers by lia. cbn [forallb]. unfold numbers_ok at 1 2 5 8. cbn [fst snd].
  rewrite H1, H2, H3, H4. done.
Qed.

Lemma foldl_pending {A B X} (f : X -> B) (l : list X) (st : A * list B) :
  foldl (fun st x => (fst st, snd st ++ [f x])) st l = (fst st, snd st ++ List.map f l).
Proof.
  revert st. induction l as [|x l IH]; intros [a b]; [simpl; by rewrite app_nil_r|].
  cbn [foldl List.map fst snd]. rewrite IH. cbn [fst snd]. by rewrite <- app_assoc.
Qed.

Section Decode.
Variable fresh : nat -> bytes.
Variable now : Z.

Lemma record_reads p out :
  record_ok p = true -> small (enc_record p) ->
  exists d, fields (record_field (nested (enc_fields (enc_record p)) 3)) (nested (enc_fields (enc_record p)) 3) (draft_new out) = Ok d /\
    d_out d = add_dropped (p_dropped p) out /\
    forall uuid service scope resource, service = service_name resource ->
      with_context service scope resource (finish_record uuid now d) = record_of now resource scope p uuid.
Proof.
  intros Hok Hs. rewrite read_fields; [|done|by apply record_numbers].
  set (r := nested _ 3). apply record_ok_spec in Hok as (_ & ? & ? & ? & ?).
  unfold enc_record at 1. pose proof Hs as Hs'. unfold enc_record in Hs'.
  apply small_app in Hs' as [Hs1 Hs2]. apply small_app in Hs2 as [Hs2 _].
  assert (small (enc_any (p_body p))) as Hb.
  { eapply small_msg, small_elem; [|exact Hs1]. right. right. right. left. }
  set (d1 := set_d_body (render (value_of (p_body p))) (set_d_severity_text (non_empty (p_text p))
    (set_d_severity_number (p_severity p) (set_d_time (p_time p) (draft_new out))))).
  rewrite (fold_steps_app _ _ _ _ d1).
  2:{ unfold text_field, msg_field. cbn [fold_steps record_field as_u64]. run.
      rewrite text_read by done. run. rewrite message_msg by (cbn; unfold MAX_DEPTH; lia). run.
      rewrite any_value_reads; [done|done|unfold NEST; lia|done]. }
  erewrite fold_steps_app.
  2:{ apply (attrs_fold _ (fun attr d => match attr with Some a => set_d_attributes (d_attributes d ++ [a]) d | None => d end) _ r);
        [done|simpl; unfold MAX_DEPTH; lia|done|done]. }
  rewrite add_attrs. unfold text_field. cbn [fold_steps record_field as_u64 field_bytes]. run.
  rewrite text_read by done. run. eexists. split; [done|]. split; [done|].
  intros uuid service scope resource ->. unfold with_context, finish_record, record_of. cbn.
  rewrite !keep_text_new. reflexivity.
Qed.

(** The records decoded so far, and how many the producer dropped. *)
Definition decoded (l : list (bytes -> LogRecord)) (dropped : Z) : Decoded :=
  mkDecoded (imap (fun i mk => mk (fresh i)) l) (wrap64 dropped).

Lemma decoded_dropped l n k : add_dropped k (decoded l n) = decoded l (n + k).
Proof. unfold add_dropped, decoded. cbn [records dropped_upstream]. f_equal. unfold wadd64. apply wrap64_add_l. Qed.

Lemma decoded_push l n mk :
  mkDecoded (records (decoded l n) ++ [mk (fresh (List.length (records (decoded l n))))]) (dropped_upstream (decoded l n))
  = decoded (l ++ [mk]) n.
Proof.
  unfold decoded. cbn [records dropped_upstream]. rewrite imap_app, length_imap. f_equal.
  cbn [imap]. by rewrite Nat.add_0_r.
Qed.

Lemma records_read ps : forall l n resource scope,
  forallb record_ok ps = true -> Forall (fun p => small (enc_record p)) ps ->
  pending_records fresh now (service_name resource) scope resource
    (List.map (fun p => nested (enc_fields (enc_record p)) 3) ps) (decoded l n)
  = Ok (decoded (l ++ List.map (record_of now resource scope) ps) (n + sum_of p_dropped ps)).
Proof.
  induction ps as [|p ps IH]; intros l n resource scope Hok Hs.
  { simpl. rewrite app_nil_r, Z.add_0_r. done. }
  cbn [forallb] in Hok. apply andb_prop in Hok as [Hp Hok]. apply Forall_cons in Hs as [Hsp Hs].
  cbn [List.map pending_records]. unfold log_record.
  destruct (record_reads p (decoded l n) Hp Hsp) as (d & -> & Ho & Hrec). run. rewrite Ho.
  rewrite (Hrec _ _ scope resource eq_refl), decoded_dropped.
  change (records (decoded l n)) with (records (decoded l (n + p_dropped p))).
  rewrite (decoded_push l (n + p_dropped p) (record_of now resource scope p)).
  rewrite IH by done. rewrite <- app_assoc. cbn [sum_of foldr]. do 2 f_equal. unfold sum_of. lia.
Qed.

Lemma scope_reads sc l n resource d :
  d = 2%nat -> scope_ok sc = true -> small (enc_scope sc) ->
  scope_logs fresh now resource (service_name resource) (nested (enc_fields (enc_scope sc)) d) (decoded l n)
  = Ok (decoded (l ++ scope_records now resource sc) (n + scope_dropped sc)).
Proof.
  intros -> [Hname Hps]%andb_prop Hs. unfold scope_logs.
  rewrite read_fields; [|done|cbn; by apply numbers_ok_map].
  set (r := nested _ 2). pose proof Hs as Hs2. apply (small_app [_]) in Hs2 as [_ Hs2].
  cbn [enc_scope fold_steps]. unfold msg_field at 1. cbn [scope_field].
  rewrite message_msg by (cbn; unfold MAX_DEPTH; lia). run.
  rewrite read_fields; [|eapply small_msg, small_elem; [|exact Hs]; left|done].
  unfold text_field. cbn [fold_steps scope_name_field Z.eqb Pos.eqb]. rewrite text_read by done. run.
  rewrite (fold_steps_map _ _ (fun st p => (fst st, snd st ++ [nested (enc_fields (enc_record p)) 3]))).
  2:{ intros p st _. cbn [fst snd msg_field scope_field]. by rewrite message_msg by (cbn; unfold MAX_DEPTH; lia). }
  run.
  rewrite foldl_pending.
  cbn [fst snd app]. rewrite keep_text_new. apply records_read; [done|].
  apply Forall_forall. intros p Hp. eapply small_msg, small_elem; [|exact Hs2].
  apply list_elem_of_In, (in_map (fun p => msg_field 2 (enc_record p))). by apply list_elem_of_In.
Qed.

Lemma scopes_read scs : forall l n resource,
  forallb scope_ok scs = true -> Forall (fun sc => small (enc_scope sc)) scs ->
  each_scope fresh now resource (service_name resource)
    (List.map (fun sc => nested (enc_fields (enc_scope sc)) 2) scs) (decoded l n)
  = Ok (decoded (l ++ concat (List.map (scope_records now resource) scs)) (n + sum_of scope_dropped scs)).
Proof.
  induction scs as [|sc scs IH]; intros l n resource Hok Hs.
  { simpl. rewrite app_nil_r, Z.add_0_r. done. }
  cbn [forallb] in Hok. apply andb_prop in Hok as [Hp Hok]. apply Forall_cons in Hs as [Hsp Hs].
  cbn [List.map each_scope]. rewrite scope_reads by done. run. rewrite IH by done.
  cbn [List.map concat]. rewrite <- app_assoc. do 2 f_equal. unfold sum_of. simpl. lia.
Qed.

Lemma add_resource_attrs attrs st :
  foldl (fun st kv => add_resource_attr (attr_of kv) st) st attrs
  = mkResource (resource_attrs st ++ attrs_of attrs)
      (match service_name (attrs_of attrs) with Some s => Some s | None => res_service st end)
      (pending_scopes st) (res_out st).
Proof.
  revert st. induction attrs as [|kv attrs IH]; intros st.
  { simpl. rewrite app_nil_r. by destruct st. }
  cbn [foldl]. rewrite IH. unfold attrs_of. cbn [omap list_omap]. destruct (attr_of kv) as [a|]; [|done].
  unfold add_resource_attr. cbn [resource_attrs res_service pending_scopes res_out]. rewrite <- app_assoc.
  f_equal. unfold service_name. cbn [omap list_omap].
  destruct (attr_value a) as [s| | |]; try done. destruct (String.eqb (attr_key a) "service.name"); [|done].
  rewrite last_cons. by destruct (last _).
Qed.

(** The block of the resource, and its scopes, each read whatever was read before. *)
Lemma block_reads r st rd :
  depth rd = 1%nat -> attrs_ok 4 (pr_attrs r) = true -> in_u64 (pr_dropped r) = true ->
  small (attr_fields 1 (pr_attrs r) ++ [(2, Varint (pr_dropped r))]) ->
  fold_steps (resource_field rd) [msg_field 1 (attr_fields 1 (pr_attrs r) ++ [(2, Varint (pr_dropped r))])] st
  = Ok (mkResource (resource_attrs st ++ attrs_of (pr_attrs r))
      (match service_name (attrs_of (pr_attrs r)) with Some s => Some s | None => res_service st end)
      (pending_scopes st) (add_dropped (pr_dropped r) (res_out st))).
Proof.
  intros Hd Hok Hn Hs. unfold msg_field at 1. cbn [fold_steps resource_field].
  rewrite message_msg by (rewrite Hd; unfold MAX_DEPTH; lia). rewrite Hd. run.
  rewrite read_fields; [|done|].
  2:{ rewrite forallb_app, attr_numbers by lia. unfold numbers_ok. cbn [forallb fst snd]. by rewrite Hn. }
  set (m := nested _ 2). erewrite fold_steps_app.
  2:{ apply (attrs_fold _ add_resource_attr _ m); [done|simpl; unfold MAX_DEPTH; lia|done|by apply small_app in Hs as [? _]]. }
  rewrite add_resource_attrs. cbn [fold_steps resource_attr_field as_u64]. by run.
Qed.

Lemma scope_blocks_read (scs : list PScope) (st : Resource) (rd : Reader) :
  depth rd = 1%nat ->
  fold_steps (resource_field rd) (List.map (fun s => msg_field 2 (enc_scope s)) scs) st
  = Ok (mkResource (resource_attrs st) (res_service st)
      (pending_scopes st ++ List.map (fun sc => nested (enc_fields (enc_scope sc)) 2) scs) (res_out st)).
Proof.
  intros Hd. revert st. induction scs as [|sc scs IH]; intros st.
  { simpl. rewrite app_nil_r. by destruct st. }
  cbn [List.map fold_steps]. unfold msg_field at 1. cbn [resource_field].
  rewrite message_msg by (rewrite Hd; unfold MAX_DEPTH; lia). rewrite Hd. run. rewrite IH.
  cbn [resource_attrs res_service pending_scopes res_out]. by rewrite <- app_assoc.
Qed.

Lemma resource_numbers r : forallb numbers_ok (enc_resource r) = true.
Proof.
  unfold enc_resource. destruct (pr_last r); rewrite ?forallb_app; cbn [forallb];
    rewrite (numbers_ok_map (fun s => msg_field 2 (enc_scope s))) by done; done.
Qed.

Lemma resource_reads r l n d :
  d = 1%nat -> resource_ok r = true -> small (enc_resource r) ->
  resource_logs fresh now (nested (enc_fields (enc_resource r)) d) (decoded l n)
  = Ok (decoded (l ++ resource_records now r) (n + resource_dropped r)).
Proof.
  intros -> [[Ha Hn]%andb_prop Hsc]%andb_prop Hs. unfold resource_logs.
  rewrite read_fields; [|done|apply resource_numbers]. set (rd := nested _ 1).
  assert (small (attr_fields 1 (pr_attrs r) ++ [(2, Varint (pr_dropped r))]) /\
    Forall (fun sc => small (enc_scope sc)) (pr_scopes r)) as [Hb Hscs].
  { split.
    - eapply small_msg, small_elem; [|exact Hs]. unfold enc_resource. destruct (pr_last r); [|left].
      apply elem_of_app. right. left.
    - apply Forall_forall. intros sc Hin. eapply small_msg, small_elem; [|exact Hs]. unfold enc_resource.
      assert (msg_field 2 (enc_scope sc) ∈ List.map (fun s => msg_field 2 (enc_scope s)) (pr_scopes r)) as Hx.
      { apply list_elem_of_In, (in_map (fun s => msg_field 2 (enc_scope s))). by apply list_elem_of_In. }
      destruct (pr_last r); [apply elem_of_app; by left|by right]. }
  assert (fold_steps (resource_field rd) (enc_resource r) (mkResource [] None [] (decoded l n))
    = Ok (mkResource (attrs_of (pr_attrs r)) (service_name (attrs_of (pr_attrs r)))
            (List.map (fun sc => nested (enc_fields (enc_scope sc)) 2) (pr_scopes r)) (decoded l (n + pr_dropped r)))) as ->.
  { unfold enc_resource. destruct (pr_last r).
    - erewrite fold_steps_app by by apply scope_blocks_read.
      rewrite block_reads by done. cbn [resource_attrs res_service pending_scopes res_out app]. rewrite decoded_dropped.
      by destruct (service_name _).
    - etransitivity; [exact (fold_steps_app _ _ _ _ _ (block_reads r _ rd eq_refl Ha Hn Hb))|].
      rewrite scope_blocks_read by done. cbn [resource_attrs res_service pending_scopes res_out app]. rewrite decoded_dropped.
      by destruct (service_name _). }
  run. cbn [resource_attrs res_service pending_scopes res_out]. rewrite scopes_read by done.
  unfold resource_dropped. by rewrite Z.add_assoc.
Qed.

Lemma requests_read rd req l n :
  depth rd = 0%nat -> forallb resource_ok req = true -> Forall (fun r => small (enc_resource r)) req ->
  fold_steps (fun field v out =>
      if field =? 1 then m ← lift (message v rd); resource_logs fresh now m out else mret out)
    (List.map (fun r => msg_field 1 (enc_resource r)) req) (decoded l n)
  = Ok (decoded (l ++ request_records now req) (n + sum_of resource_dropped req)).
Proof.
  intros Hd. revert l n. induction req as [|r req IH]; intros l n Hok Hs.
  { simpl. by rewrite app_nil_r, Z.add_0_r. }
  cbn [forallb] in Hok. apply andb_prop in Hok as [Hr Hok]. apply Forall_cons in Hs as [Hsr Hs].
  cbn [List.map fold_steps msg_field Z.eqb Pos.eqb].
  rewrite message_msg by (rewrite Hd; unfold MAX_DEPTH; lia). rewrite Hd. run.
  rewrite resource_reads by done. run. rewrite IH by done.
  unfold request_records. cbn [List.map concat]. rewrite <- app_assoc. do 2 f_equal. unfold sum_of. simpl. lia.
Qed.
End Decode.

Definition request_ok (req : list PResource) : bool := forallb resource_ok req.

Lemma decode_enc (fresh : nat -> bytes) (now : Z) (req : list PResource)
    (Hok : request_ok req = true) (Hlen : Z.of_nat (List.length (enc_request req)) <= u64_max) :
  decode_request fresh now (enc_request req)
  = Ok (mkDecoded (imap (fun i mk => mk (fresh i)) (request_records now req)) (wrap64 (sum_of resource_dropped req))).
Proof.
  unfold decode_request. change (new (enc_request req)) with (nested (enc_request req) 0).
  unfold enc_request at 2. cbv zeta. rewrite (read_fields _ _ 0); [|exact Hlen|by apply numbers_ok_map].
  apply (requests_read fresh now (nested _ 0) req [] 0); [done|done|].
  apply Forall_forall. intros r Hr. eapply small_msg, small_elem; [|exact Hlen].
  apply list_elem_of_In, (in_map (fun r => msg_field 1 (enc_resource r))). by apply list_elem_of_In.
Qed.

(** An encoded request is decoded to the records it stands for, in order,
    each under the next fresh identifier, with its values, the attributes of its
    scope and resource, the service of the resource wherever its block is, and
    the receive time where the producer set none; and with the number of records
    the producer dropped. *)
Theorem decode_encoded (fresh : nat -> bytes) (now : Z) (req : list PResource)
    (Hok : request_ok req = true) (Hlen : Z.of_nat (List.length (enc_request req)) <= u64_max) :
  decode_request fresh now (enc_request req)
  = Ok (mkDecoded (imap (fun i mk => mk (fresh i)) (request_records now req)) (wrap64 (sum_of resource_dropped req))).
Proof. by apply decode_enc. Qed.

Definition sample_request : list PResource :=
  [mkPResource [("service.name", PStr "checkout"); ("host.cpus", PInt (-4))] 2
     [mkPScope "app"
        [mkPRecord 1700000000000000000 0 17 "ERROR"
           (PArr [PStr "payment"; PKv [("attempt", PInt 3); ("ok", PBool false)]; PDouble 4607182418800017408])
           [("http.method", PStr "POST"); ("", PBool true); ("raw", PBytes [Byte.x00; Byte.xff])] 1
           (repeat Byte.x01 16) (repeat Byte.x00 8) "declined"];
      mkPScope "" [mkPRecord 0 0 0 "critical" (PStr "no time") [] 0 [] [] ""]]
     true].

Definition sample_fresh (i : nat) : bytes := [to_byte (Z.of_nat i)].

Theorem decode_encoded_witness :
  exists a b, decode_request sample_fresh 7 (enc_request sample_request) = Ok (mkDecoded [a; b] 3)
    /\ body a = "[payment,{attempt=3 ok=false},1]" /\ span_id a = None /\ timestamp_unix_nano b = 7
    /\ severity b = FATAL /\ service b = Some "checkout".
Proof.
  eexists _, _. split; [|split; [|split; [|split; [|split]]]].
  - etransitivity; [apply decode_encoded; [vm_compute; reflexivity|apply Z.leb_le; vm_compute; reflexivity]|].
    unfold request_records, resource_records, sample_request. cbn [List.map concat pr_scopes scope_records ps_records app imap].
    reflexivity.
  - vm_compute. reflexivity.
  - vm_compute. reflexivity.
  - vm_compute. reflexivity.
  - vm_compute. reflexivity.
  - vm_compute. reflexivity.
Defined.
