(* ===== verification/OtlpJson.v ===== *)
(** OTLP/JSON, the second encoding of the same request
    ([crates/logless-core/src/otlp/json.rs]), over the JSON values that
    [serde_json] parses; [print_json] is its printer.  The theorem: a request
    decodes to the same records over either encoding. *)

From S2P Require Import Prelude Text Float Partition Model Base64 Proto Otlp OtlpFacts Json.
Open Scope string_scope.
Open Scope Z_scope.
Open Scope list_scope.

Inductive JsonError := NotJson | NotAnObject.

(** [object.get(camel).or_else(|| object.get(snake))]. *)
Definition either (camel snake : string) (fields : list (string * Json)) : option Json :=
  match field camel fields with Some v => Some v | None => field snake fields end.
Definition get_either (camel snake : string) (v : Json) : option Json :=
  as_object v ≫= either camel snake.

Definition array (fields : list (string * Json)) (camel snake : string) : list Json :=
  default [] (either camel snake fields ≫= as_array).

Definition as_i64 (j : Json) : option Z :=
  match j with JInt z => within i64_min i64_max (Some z) | _ => None end.
Definition as_bool (j : Json) : option bool := match j with JBool b => Some b | _ => None end.
Definition str_or_empty (j : Json) : string := default "" (as_str j).

(** A 64-bit field: a decimal string, or a number. *)
Definition u64_of (j : Json) : option Z :=
  match j with
  | JStr s => parse_uint u64_max s
  | JInt _ | JFloat _ =>
      match as_u64 j with Some n => Some n | None => f64_as_u64 <$> as_f64 j end
  | _ => None
  end.
Definition u64_field (fields : list (string * Json)) (camel snake : string) : option Z :=
  either camel snake fields ≫= u64_of.

(** ** Severities *)

Definition to_upper (c : ascii) : ascii := if is_lower c then ascii_of_N (Z.to_N (chr c - 32)) else c.
Definition str_upper : string -> string := str_map to_upper.

(** The text before the first digit, and from there on. *)
Fixpoint at_digit (s : string) : string * string :=
  match s with
  | EmptyString => ("", "")
  | String c r => if is_digit c then ("", s) else let '(a, b) := at_digit r in (String c a, b)
  end.

Definition enum_base (word : string) : option Z :=
  if String.eqb word "TRACE" then Some 1
  else if String.eqb word "DEBUG" then Some 5
  else if String.eqb word "INFO" then Some 9
  else if String.eqb word "WARN" then Some 13
  else if String.eqb word "ERROR" then Some 17
  else if String.eqb word "FATAL" then Some 21
  else None.

(** The number after the name counts from one: the subtraction wraps at zero. *)
Definition severity_from_enum_name (name : string) : option Z :=
  let name := str_upper (trim name) in
  let suffix := default name (strip_prefix "SEVERITY_NUMBER_" name) in
  let '(word, digits) := at_digit suffix in
  offset ← (if String.eqb digits "" then Some 0
            else n ← parse_uint u64_max digits; Some (wrap64 (n - 1)));
  base ← enum_base word;
  Some (wadd64 base offset).

(** ** Identifiers *)

Definition hex_bytes (n : nat) (text : string) : option bytes :=
  if negb (str_len text =? 2 * Z.of_nat n) || negb (str_all is_hexdigit text) then None
  else
    out ← unhex_loop text;
    if forallb (fun b => byte_val b =? 0) out then None else Some out.

(** ** Values

    The recursion goes down the JSON value; [jsize] bounds it. *)

Fixpoint jsize (j : Json) : nat :=
  match j with
  | JArr l => S (list_sum (List.map jsize l))
  | JObj l => S (list_sum (List.map (fun kv => jsize (snd kv)) l))
  | _ => 1
  end.

Section Values.
Variable print_json : Json -> string.

Fixpoint text_loop (fuel : nat) (value : Json) : string :=
  match fuel with
  | O => ""
  | S fuel' =>
      match get_either "stringValue" "string_value" value with
      | Some v => str_or_empty v
      | None =>
      match get_either "boolValue" "bool_value" value with
      | Some v => show_bool (default false (as_bool v))
      | None =>
      match get_either "intValue" "int_value" value with
      | Some (JStr s) => s
      | Some other => print_json other
      | None =>
      match get_either "doubleValue" "double_value" value with
      | Some v => default "" (f64_display <$> as_f64 v)
      | None =>
      match get_either "arrayValue" "array_value" value with
      | Some v =>
          let items := List.map (text_loop fuel') (default [] (get "values" v ≫= as_array)) in
          bracket "[" "]" (str_join "," items)
      | None =>
      match get_either "kvlistValue" "kvlist_value" value with
      | Some v =>
          let items := omap (fun kv =>
            key ← get "key" kv ≫= as_str;
            Some (String.append key (String.append "=" (default "" (text_loop fuel' <$> get "value" kv)))))
            (default [] (get "values" v ≫= as_array)) in
          bracket "{" "}" (str_join " " items)
      | None =>
      match get_either "bytesValue" "bytes_value" value with
      | Some v => str_or_empty v
      | None => ""
      end end end end end end end
  end.

Definition any_value_to_string (value : Json) : string := text_loop (jsize value) value.

Definition any_value (value : Json) : AttrValue :=
  match get_either "stringValue" "string_value" value with
  | Some v => AStr (str_or_empty v)
  | None =>
  match get_either "boolValue" "bool_value" value with
  | Some v => ABool (default false (as_bool v))
  | None =>
  match get_either "intValue" "int_value" value with
  | Some v =>
      AI64 (default 0 (match v with
                       | JStr s => parse_int i64_min i64_max s
                       | _ => as_i64 v
                       end))
  | None =>
  match get_either "doubleValue" "double_value" value with
  | Some v => AF64 (default f64_zero (as_f64 v))
  | None => AStr (any_value_to_string value)
  end end end end.

Definition key_value (value : Json) : option Attr :=
  key ← get "key" value ≫= as_str;
  if String.eqb key "" then None
  else Some (mkAttr key (default (AStr "") (any_value <$> get "value" value))).

(** ** Requests *)

Section Requests.
Variable fresh : nat -> bytes.
Variable now : Z.

Definition dropped_count (fields : list (string * Json)) : Z :=
  default 0 (either "droppedAttributesCount" "dropped_attributes_count" fields ≫= as_u64).

Definition severity_number (record : list (string * Json)) : Z :=
  match either "severityNumber" "severity_number" record with
  | Some (JStr s) => default 0 (severity_from_enum_name s)
  | Some v => default 0 (as_u64 v)
  | None => 0
  end.

Definition nonzero (o : option Z) : option Z := opt_filter (fun t => negb (t =? 0)) o.

Definition log_record (record : list (string * Json)) (out : Decoded) : LogRecord * Decoded :=
  let observed := default now (nonzero (u64_field record "observedTimeUnixNano" "observed_time_unix_nano")) in
  let time := default observed (nonzero (u64_field record "timeUnixNano" "time_unix_nano")) in
  let severity_text := opt_filter Json.non_empty (either "severityText" "severity_text" record ≫= as_str) in
  let severity := severity_of (severity_number record) severity_text in
  let body := default "" (any_value_to_string <$> field "body" record) in
  let attributes := omap key_value (array record "attributes" "attributes") in
  let attributes := attributes ++ attr_if "event.name" (opt_filter Json.non_empty (either "eventName" "event_name" record ≫= as_str)) in
  (mkRecord (fresh (List.length (records out))) time observed severity severity_text body None
     ((either "traceId" "trace_id" record ≫= as_str) ≫= hex_bytes 16)
     ((either "spanId" "span_id" record ≫= as_str) ≫= hex_bytes 8) attributes None,
   add_dropped (dropped_count record) out).

Definition scope_records (service : option string) (resource : list Attr) (scope_logs : Json) (out : Decoded) : Decoded :=
  match as_object scope_logs with
  | None => out
  | Some fields =>
      let name := opt_filter Json.non_empty ((field "scope" fields ≫= get "name") ≫= as_str) in
      foldl (fun out record =>
        match as_object record with
        | None => out
        | Some record =>
            let '(log, out) := log_record record out in
            mkDecoded (records out ++ [with_context service name resource log]) (dropped_upstream out)
        end) out (array fields "logRecords" "log_records")
  end.

(** Field [attributes] of a resource: the attributes, and the last [service.name]. *)
Definition add_attribute (st : list Attr * option string) (j : Json) : list Attr * option string :=
  match key_value j with
  | None => st
  | Some a =>
      (fst st ++ [a],
       match attr_value a with
       | AStr s => if String.eqb (attr_key a) "service.name" then Some s else snd st
       | _ => snd st
       end)
  end.
Definition resource_attributes (resource : list (string * Json)) : list Attr * option string :=
  foldl add_attribute ([], None) (array resource "attributes" "attributes").

Definition resource_records (resource_logs : Json) (out : Decoded) : Decoded :=
  let resource := get "resource" resource_logs ≫= as_object in
  let '(attrs, service) := match resource with Some r => resource_attributes r | None => ([], None) end in
  let out := match resource with Some r => add_dropped (dropped_count r) out | None => out end in
  match as_object resource_logs with
  | None => out
  | Some fields => foldl (fun out s => scope_records service attrs s out) out (array fields "scopeLogs" "scope_logs")
  end.

(** The request, parsed. *)
Definition decode_root (parsed : option Json) : JsonError + Decoded :=
  match parsed with
  | None => inl NotJson
  | Some (JObj root) => inr (foldl (fun out r => resource_records r out) decoded_default (array root "resourceLogs" "resource_logs"))
  | Some _ => inl NotAnObject
  end.
End Requests.
End Values.

(** [decode_request], with [serde_json::from_slice] as [parse_json]. *)
Definition decode_request (parse_json : bytes -> option Json) (print_json : Json -> string)
    (fresh : nat -> bytes) (now : Z) (b : bytes) : JsonError + Decoded :=
  decode_root print_json fresh now (parse_json b).

(** ** The same request in JSON *)

Lemma parse_int_show z : i64_min <= z <= i64_max -> parse_int i64_min i64_max (show_int z) = Some z.
Proof.
  intros Hz. unfold show_int. destruct (z <? 0) eqn:E; zbool.
  - unfold parse_int. rewrite parse_digits_show by lia. cbn [option_map]. unfold within.
    rewrite Z.opp_involutive. by rewrite (proj2 (Z.leb_le _ _)), (proj2 (Z.leb_le _ _)) by lia.
  - rewrite parse_int_digits; [|by apply show_Z_digits]. rewrite parse_digits_show by lia. unfold within.
    by rewrite (proj2 (Z.leb_le _ _)), (proj2 (Z.leb_le _ _)) by lia.
Qed.

Lemma parse_u64_show z : in_u64 z = true -> parse_uint u64_max (show_Z z) = Some z.
Proof.
  unfold in_u64. intros Hz. zbool. rewrite parse_uint_digits; [|by apply show_Z_digits]. rewrite parse_digits_show by lia. unfold within.
  by rewrite (proj2 (Z.leb_le _ _)), (proj2 (Z.leb_le _ _)) by lia.
Qed.

Lemma hex_hexdigits bs : str_all is_hexdigit (hex bs) = true.
Proof. induction bs as [|b bs IH]; [done|]. cbn [hex foldr]. rewrite str_all_app. fold (hex bs). rewrite IH. by destruct b. Qed.

Lemma hex_bytes_hex n bs : hex_bytes n (hex bs) = fixed_id n bs.
Proof.
  unfold hex_bytes, fixed_id. rewrite hex_hexdigits, hex_length, unhex_hex.
  assert ((2 * Z.of_nat (List.length bs) =? 2 * Z.of_nat n) = (List.length bs =? n)%nat) as ->.
  { destruct (List.length bs =? n)%nat eqn:E.
    - apply Nat.eqb_eq in E. apply Z.eqb_eq. lia.
    - apply Nat.eqb_neq in E. apply Z.eqb_neq. lia. }
  by destruct (List.length bs =? n)%nat; simpl; [destruct (forallb _ bs)|].
Qed.

Section Encode.
Variable snake : bool.    (* the original field names, or their camel case *)
Definition nm (camel original : string) : string := if snake then original else camel.

Fixpoint json_value (v : PValue) : Json :=
  match v with
  | PNone => JObj []
  | PStr s => JObj [(nm "stringValue" "string_value", JStr s)]
  | PBool b => JObj [(nm "boolValue" "bool_value", JBool b)]
  | PInt z => JObj [(nm "intValue" "int_value", JStr (show_int z))]
  | PDouble bits => JObj [(nm "doubleValue" "double_value", JFloat (float_of_bits 52 11 bits))]
  | PArr l => JObj [(nm "arrayValue" "array_value", JObj [("values", JArr (List.map json_value l))])]
  | PKv l => JObj [(nm "kvlistValue" "kvlist_value",
      JObj [("values", JArr (List.map (fun kv => JObj [("key", JStr (fst kv)); ("value", json_value (snd kv))]) l))])]
  | PBytes b => JObj [(nm "bytesValue" "bytes_value", JStr (b64 b))]
  end.

Definition json_attr (kv : string * PValue) : Json := JObj [("key", JStr (fst kv)); ("value", json_value (snd kv))].
Definition json_attrs (attrs : list (string * PValue)) : string * Json := ("attributes", JArr (List.map json_attr attrs)).
Definition json_dropped (n : Z) : string * Json := (nm "droppedAttributesCount" "dropped_attributes_count", JInt n).

Definition record_fields (p : PRecord) : list (string * Json) :=
  [(nm "timeUnixNano" "time_unix_nano", JStr (show_Z (p_time p)));
   (nm "observedTimeUnixNano" "observed_time_unix_nano", JStr (show_Z (p_observed p)));
   (nm "severityNumber" "severity_number", JInt (p_severity p));
   (nm "severityText" "severity_text", JStr (p_text p));
   ("body", json_value (p_body p));
   json_attrs (p_attrs p); json_dropped (p_dropped p);
   (nm "traceId" "trace_id", JStr (hex (p_trace p)));
   (nm "spanId" "span_id", JStr (hex (p_span p)));
   (nm "eventName" "event_name", JStr (p_event p))].
Definition json_record (p : PRecord) : Json := JObj (record_fields p).

Definition json_scope (s : PScope) : Json := JObj
  [("scope", JObj [("name", JStr (ps_name s))]);
   (nm "logRecords" "log_records", JArr (List.map json_record (ps_records s)))].

Definition json_resource (r : PResource) : Json := JObj
  [("resource", JObj [json_attrs (pr_attrs r); json_dropped (pr_dropped r)]);
   (nm "scopeLogs" "scope_logs", JArr (List.map json_scope (pr_scopes r)))].

Definition json_request (req : list PResource) : Json := JObj
  [(nm "resourceLogs" "resource_logs", JArr (List.map json_resource req))].
End Encode.

(** The values both encodings carry alike: no byte strings, and no pair of a
    list without a key. *)
Fixpoint plain (v : PValue) : bool :=
  match v with
  | PBytes _ => false
  | PDouble bits => f64_finite (float_of_bits 52 11 bits)
  | PArr l => forallb plain l
  | PKv l => forallb (fun kv => negb (String.eqb (fst kv) "") && plain (snd kv)) l
  | _ => true
  end.
Definition plain_attrs (attrs : list (string * PValue)) : bool := forallb (fun kv => plain (snd kv)) attrs.
Definition plain_record (p : PRecord) : bool := plain (p_body p) && plain_attrs (p_attrs p).
Definition plain_resource (r : PResource) : bool :=
  plain_attrs (pr_attrs r) && forallb (fun s => forallb plain_record (ps_records s)) (pr_scopes r).
Definition plain_request (req : list PResource) : bool := forallb plain_resource req.

Section Same.
Variable print_json : Json -> string.
Variable snake : bool.

Lemma jsize_in x l : x ∈ l -> (jsize x <= list_sum (List.map jsize l))%nat.
Proof. intros H. apply list_elem_of_split in H as (a & b & ->). rewrite List.map_app, list_sum_app. simpl. lia. Qed.

Ltac lookup := cbv [get_either either get field as_object as_array as_str mbind option_bind fmap option_fmap option_map nm
  List.find fst snd String.eqb Ascii.eqb Bool.eqb].

Lemma text_value v : forall n,
  plain v = true -> (jsize (json_value snake v) <= n)%nat -> text_loop print_json n (json_value snake v) = render (value_of v).
Proof.
  induction v as [|s|b|z|bits|l IH|l IH|b] using PValue_rect'; intros n Hp Hn; try done;
    (destruct n as [|n]; [simpl in Hn; lia|]); cbn [text_loop json_value].
  - done.
  - by destruct snake; lookup.
  - by destruct snake; lookup.
  - by destruct snake; lookup.
  - by destruct snake; lookup.
  - assert (List.map (text_loop print_json n) (List.map (json_value snake) l) = List.map (fun x => render (value_of x)) l) as E.
    { rewrite List.map_map. apply List.map_ext_in. intros x Hx%list_elem_of_In.
      rewrite Forall_forall in IH. apply (IH x Hx).
      - cbn [plain] in Hp. rewrite forallb_forall in Hp. apply Hp. by apply list_elem_of_In.
      - cbn [json_value jsize List.map snd] in Hn. fold jsize in Hn.
        assert (json_value snake x ∈ List.map (json_value snake) l) as Hj by (apply list_elem_of_In, in_map; by apply list_elem_of_In).
        pose proof (jsize_in _ _ Hj). simpl in Hn. lia. }
    destruct snake; lookup; cbn [default]; unfold id; cbn [value_of render]; by rewrite <- E.
  - set (item := fun kv : string * PValue => JObj [("key", JStr (fst kv)); ("value", json_value snake (snd kv))]) in *.
    assert (forall kv, kv ∈ l -> text_loop print_json n (json_value snake (snd kv)) = render (value_of (snd kv)) /\ String.eqb (fst kv) "" = false) as E.
    { intros kv Hx. cbn [plain] in Hp. rewrite forallb_forall in Hp. specialize (Hp kv (proj1 (list_elem_of_In _ _) Hx)). zbool.
      split; [|done]. rewrite Forall_forall in IH. apply (IH kv Hx); [done|].
      cbn [json_value jsize List.map snd] in Hn. fold jsize item in Hn.
      assert (item kv ∈ List.map item l) as Hj by (apply list_elem_of_In, in_map; by apply list_elem_of_In).
      pose proof (jsize_in _ _ Hj) as Hs. simpl in Hn, Hs. lia. }
    assert (omap (fun kv => key ← get "key" kv ≫= as_str;
              Some (String.append key (String.append "=" (default "" (text_loop print_json n <$> get "value" kv))))) (List.map item l)
      = concat (List.map (fun kv => kv_text (fst kv) (value_of (snd kv))) l)) as El.
    { clear -E. induction l as [|kv l IHl]; [done|]. cbn [List.map omap list_omap concat].
      destruct (E kv ltac:(left)) as [E1 E2]. unfold kv_text at 1. rewrite E2, <- E1.
      unfold item at 1 2. lookup. cbn [default app]. unfold id. f_equal. apply IHl. intros x Hx. apply E. by right. }
    destruct snake; lookup; cbn [default]; unfold id; cbn [value_of render]; by rewrite <- El.
Qed.

Lemma text_value_of v : plain v = true -> any_value_to_string print_json (json_value snake v) = render (value_of v).
Proof. intros H. by apply text_value. Qed.

Lemma any_value_of d v : plain v = true -> value_ok d v = true ->
  any_value print_json (json_value snake v) = into_attr (value_of v).
Proof.
  intros Hp Hok. pose proof (text_value_of v Hp) as Ht. unfold any_value.
  destruct v; cbn [json_value] in *; try (by destruct snake; lookup);
    try (destruct snake; lookup; exact (f_equal AStr Ht)).
  cbn [value_ok] in Hok. zbool. destruct snake; lookup; by rewrite parse_int_show.
Qed.

Lemma key_value_of d kv : plain (snd kv) = true -> value_ok d (snd kv) = true ->
  key_value print_json (json_attr snake kv) = attr_of kv.
Proof.
  intros Hp Hok. unfold key_value, json_attr, attr_of. lookup. cbn [default]. unfold id.
  by rewrite (any_value_of d).
Qed.

Lemma attrs_of_json d attrs : plain_attrs attrs = true -> attrs_ok d attrs = true ->
  omap (key_value print_json) (List.map (json_attr snake) attrs) = attrs_of attrs.
Proof.
  unfold plain_attrs, attrs_ok, attrs_of. induction attrs as [|kv attrs IH]; intros Hp Hok; [done|].
  cbn [forallb] in *. zbool. cbn [List.map omap list_omap]. rewrite (key_value_of d) by done. by rewrite IH.
Qed.

Lemma dropped_read fields n :
  either "droppedAttributesCount" "dropped_attributes_count" fields = Some (JInt n) -> in_u64 n = true -> dropped_count fields = n.
Proof. intros H Hn. unfold dropped_count. rewrite H. cbn. unfold in_u64 in Hn. by rewrite Hn. Qed.

Lemma time_read fields camel original z :
  either camel original fields = Some (JStr (show_Z z)) -> in_u64 z = true ->
  nonzero (u64_field fields camel original) = if z =? 0 then None else Some z.
Proof.
  intros H Hz. unfold u64_field. rewrite H. cbn [mbind option_bind u64_of]. rewrite parse_u64_show by done.
  cbn. by destruct (z =? 0).
Qed.

Lemma text_field_read s : opt_filter Json.non_empty (Some s) = OtlpFacts.non_empty s.
Proof. unfold opt_filter, Json.non_empty, OtlpFacts.non_empty. by destruct (String.eqb s ""). Qed.

Section Decode.
Variable fresh : nat -> bytes.
Variable now : Z.
Abbreviation out_of := (decoded fresh).

Lemma record_of_json p l n service scope resource :
  record_ok p = true -> plain_record p = true -> service = service_name resource ->
  exists log, log_record print_json fresh now (record_fields snake p) (out_of l n) = (log, out_of l (n + p_dropped p)) /\
    with_context service scope resource log = record_of now resource scope p (fresh (List.length (records (out_of l n)))).
Proof.
  intros Hok [Hb Ha]%andb_prop ->. pose proof (record_ok_spec p Hok) as ((Ht & Ho & Hs & Hd) & _ & _ & Hbody & Hattrs).
  eexists. unfold log_record. rewrite (dropped_read _ (p_dropped p)) by (done || by destruct snake; lookup).
  rewrite decoded_dropped. split; [reflexivity|].
  rewrite (time_read _ _ _ (p_observed p)), (time_read _ _ _ (p_time p)) by (done || by destruct snake; lookup).
  assert (severity_number (record_fields snake p) = p_severity p) as ->.
  { unfold severity_number. replace (either _ _ _) with (Some (JInt (p_severity p))) by by destruct snake; lookup.
    cbn. unfold in_u64 in Hs. by rewrite Hs. }
  replace (either "severityText" "severity_text" (record_fields snake p) ≫= as_str) with (Some (p_text p)) by by destruct snake; lookup.
  replace (either "eventName" "event_name" (record_fields snake p) ≫= as_str) with (Some (p_event p)) by by destruct snake; lookup.
  replace (either "traceId" "trace_id" (record_fields snake p) ≫= as_str) with (Some (hex (p_trace p))) by by destruct snake; lookup.
  replace (either "spanId" "span_id" (record_fields snake p) ≫= as_str) with (Some (hex (p_span p))) by by destruct snake; lookup.
  replace (field "body" (record_fields snake p)) with (Some (json_value snake (p_body p))) by by destruct snake; lookup.
  replace (array (record_fields snake p) "attributes" "attributes") with (List.map (json_attr snake) (p_attrs p))
    by by unfold array; destruct snake; lookup.
  rewrite !text_field_read, (attrs_of_json 5) by done. rewrite !bind_some, !hex_bytes_hex.
  unfold with_context, record_of. cbn [event_id timestamp_unix_nano observed_unix_nano severity severity_text body trace_id span_id attributes template_id].
  cbn [fmap option_fmap option_map default]. unfold id. rewrite text_value_of by done.
  unfold decoded. cbn [records]. rewrite length_imap.
  by destruct (p_observed p =? 0), (p_time p =? 0).
Qed.

Lemma scope_of_json service resource sc l n :
  scope_ok sc = true -> forallb plain_record (ps_records sc) = true -> service = service_name resource ->
  scope_records print_json fresh now service resource (json_scope snake sc) (out_of l n)
  = out_of (l ++ OtlpFacts.scope_records now resource sc) (n + scope_dropped sc).
Proof.
  intros [_ Hok]%andb_prop Hp ->. unfold scope_records. cbn [json_scope as_object].
  replace (opt_filter _ _) with (OtlpFacts.non_empty (ps_name sc)) by by destruct snake; lookup; rewrite text_field_read.
  replace (array _ _ _) with (List.map (json_record snake) (ps_records sc)) by by unfold array; destruct snake; lookup.
  unfold OtlpFacts.scope_records, scope_dropped. set (name := OtlpFacts.non_empty _).
  revert l n. induction (ps_records sc) as [|p ps IH]; intros l n; [simpl; by rewrite app_nil_r, Z.add_0_r|].
  cbn [forallb] in Hok, Hp. apply andb_prop in Hok as [Hok1 Hok]. apply andb_prop in Hp as [Hp1 Hp].
  cbn [List.map foldl as_object json_record].
  destruct (record_of_json p l n _ name resource Hok1 Hp1 eq_refl) as (log & -> & ->).
  change (records (out_of l n)) with (records (out_of l (n + p_dropped p))).
  rewrite (decoded_push fresh l (n + p_dropped p) (record_of now resource name p)), IH by done.
  rewrite <- app_assoc. f_equal. unfold sum_of. simpl. lia.
Qed.

Lemma resource_attributes_of attrs rest :
  plain_attrs attrs = true -> attrs_ok 4 attrs = true ->
  resource_attributes print_json (json_attrs snake attrs :: rest) = (attrs_of attrs, service_name (attrs_of attrs)).
Proof.
  intros Hp Hok. unfold resource_attributes.
  replace (array _ _ _) with (List.map (json_attr snake) attrs) by done.
  enough (forall acc s, foldl (add_attribute print_json) (acc, s) (List.map (json_attr snake) attrs)
    = (acc ++ attrs_of attrs, match service_name (attrs_of attrs) with Some x => Some x | None => s end)) as H.
  { rewrite H. by destruct (service_name _). }
  unfold plain_attrs, attrs_ok in *. induction attrs as [|kv attrs IH]; intros acc s; [simpl; by rewrite app_nil_r|].
  cbn [forallb] in *. zbool. cbn [List.map foldl]. unfold add_attribute at 2. rewrite (key_value_of 4) by done. cbn [fst snd].
  unfold attrs_of. cbn [omap list_omap]. destruct (attr_of kv) as [a|]; [|by apply IH].
  rewrite IH by done. rewrite <- app_assoc. f_equal. unfold service_name. cbn [omap list_omap].
  destruct (attr_value a) as [x| | |]; try done. destruct (String.eqb (attr_key a) "service.name"); [|done].
  rewrite last_cons. by destruct (last _).
Qed.

Lemma resource_of_json r l n : resource_ok r = true -> plain_resource r = true ->
  resource_records print_json fresh now (json_resource snake r) (out_of l n)
  = out_of (l ++ OtlpFacts.resource_records now r) (n + resource_dropped r).
Proof.
  intros [[Ha Hn]%andb_prop Hsc]%andb_prop [Hpa Hps]%andb_prop. unfold resource_records.
  replace (get "resource" (json_resource snake r) ≫= as_object)
    with (Some [json_attrs snake (pr_attrs r); json_dropped snake (pr_dropped r)]) by done.
  rewrite resource_attributes_of by done. cbn [json_resource as_object].
  rewrite (dropped_read _ (pr_dropped r)) by (done || by destruct snake; lookup).
  rewrite decoded_dropped.
  replace (array _ "scopeLogs" "scope_logs") with (List.map (json_scope snake) (pr_scopes r)) by by unfold array; destruct snake; lookup.
  unfold OtlpFacts.resource_records, resource_dropped. rewrite Z.add_assoc. generalize (n + pr_dropped r). clear n Hn. revert l.
  induction (pr_scopes r) as [|sc scs IH]; intros l n; [simpl; by rewrite app_nil_r, Z.add_0_r|].
  cbn [forallb] in *. apply andb_prop in Hsc as [Hsc1 Hsc]. apply andb_prop in Hps as [Hps1 Hps].
  cbn [List.map foldl concat]. rewrite scope_of_json by done. rewrite IH by done.
  rewrite <- app_assoc. f_equal. unfold sum_of. simpl. lia.
Qed.

Lemma request_of_json req : request_ok req = true -> plain_request req = true ->
  decode_root print_json fresh now (Some (json_request snake req))
  = inr (out_of (request_records now req) (sum_of resource_dropped req)).
Proof.
  intros Hok Hp. unfold decode_root, json_request. f_equal.
  replace (array _ _ _) with (List.map (json_resource snake) req) by by unfold array; destruct snake; lookup.
  change decoded_default with (out_of [] 0).
  enough (forall l n, foldl (fun out r => resource_records print_json fresh now r out) (out_of l n) (List.map (json_resource snake) req)
    = out_of (l ++ request_records now req) (n + sum_of resource_dropped req)) as H by apply (H [] 0).
  unfold request_ok, plain_request, request_records in *.
  induction req as [|r req IH]; intros l n; [simpl; by rewrite app_nil_r, Z.add_0_r|].
  cbn [forallb] in *. zbool. cbn [List.map foldl concat]. rewrite resource_of_json by done. rewrite IH by done.
  rewrite <- app_assoc. f_equal. unfold sum_of. simpl. lia.
Qed.
End Decode.
End Same.

(** C34: Sent as OTLP/JSON, under either spelling of its field names, a request decodes
    to exactly what its protobuf encoding decodes to, and both to the records it stands for,
    in order, each with its fields, and to the number the producer dropped. It is for
    requests within the widths of the wire and its depth, with text in UTF-8, whose values
    both encodings carry alike: no byte strings, no list entries without a key and no
    doubles that are not finite (on those they differ: encodings_differ). *)
Theorem encodings_agree (parse_json : bytes -> option Json) (print_json : Json -> string) (fresh : nat -> bytes) (now : Z)
    (snake : bool) (req : list PResource) (text : bytes)
    (Hparse : parse_json text = Some (json_request snake req))
    (Hok : request_ok req = true) (Hplain : plain_request req = true)
    (Hlen : Z.of_nat (List.length (enc_request req)) <= u64_max) :
  let out := mkDecoded (imap (fun i of_id => of_id (fresh i)) (request_records now req)) (wrap64 (sum_of resource_dropped req)) in
  Otlp.decode_request fresh now (enc_request req) = Ok out /\
  decode_request parse_json print_json fresh now text = inr out.
Proof.
  cbv zeta. split; [by apply decode_enc|]. unfold decode_request. rewrite Hparse. by apply request_of_json.
Qed.

Definition plain_sample : list PResource :=
  [mkPResource [("service.name", PStr "checkout"); ("host.cpus", PInt (-4))] 2
     [mkPScope "app"
        [mkPRecord 1700000000000000000 0 17 "ERROR"
           (PArr [PStr "payment"; PKv [("attempt", PInt 3); ("ok", PBool false)]; PDouble 4607182418800017408])
           [("http.method", PStr "POST"); ("", PBool true)] 1 (repeat Byte.x01 16) (repeat Byte.x00 8) "declined"]]
     true].

Theorem encodings_agree_witness :
  exists a, Otlp.decode_request sample_fresh 7 (enc_request plain_sample) = Ok (mkDecoded [a] 3) /\
    decode_request (fun _ => Some (json_request true plain_sample)) (fun _ => "") sample_fresh 7 [] = inr (mkDecoded [a] 3) /\
    body a = "[payment,{attempt=3 ok=false},1]" /\ severity a = 17 /\ service a = Some "checkout".
Proof.
  destruct (encodings_agree (fun _ => Some (json_request true plain_sample)) (fun _ => "") sample_fresh 7 true plain_sample [])
    as [H1 H2]; [reflexivity|vm_compute; reflexivity|vm_compute; reflexivity|apply Z.leb_le; vm_compute; reflexivity|].
  eexists. split; [rewrite H1; vm_compute; reflexivity|]. split; [rewrite H2; vm_compute; reflexivity|].
  split; [|split]; vm_compute; reflexivity.
Defined.

(** Finding: a byte string is rendered in hexadecimal from protobuf, and left
    in base64 from JSON, so the two encodings of one event template differently;
    and a key-value pair without a key is left out by one and kept by the other. *)
Theorem encodings_differ :
  let event v := [mkPResource [] 0 [mkPScope "" [mkPRecord 1 1 9 "" v [] 0 [] [] ""]] false] in
  let bodies v := (match Otlp.decode_request sample_fresh 7 (enc_request (event v)) with Ok out => List.map body (records out) | _ => [] end,
                   match decode_root (fun _ => "") sample_fresh 7 (Some (json_request false (event v))) with inr out => List.map body (records out) | _ => [] end) in
  bodies (PBytes [Byte.x00; Byte.x10; Byte.x83]) = (["001083"], ["ABCD"]) /\
  bodies (PKv [("", PStr "v")]) = (["{}"], ["{=v}"]).
Proof. split; vm_compute; reflexivity. Qed.

(** Finding: the name of a severity may end in its number from one; with a
    zero the subtraction wraps (and panics where overflow is checked), and the
    record is filed a level below the one it names. *)
Theorem zero_suffix_lowers_the_level :
  severity_from_enum_name "SEVERITY_NUMBER_WARN2" = Some 14 /\
  severity_from_enum_name "SEVERITY_NUMBER_WARN0" = Some 12 /\ class 12 = Info /\ class WARN = WarnPlus.
Proof. repeat split; vm_compute; reflexivity. Qed.
