(* ===== verification/H2.v ===== *)
(** The frames of HTTP/2 that gRPC needs
    ([crates/logless-core/src/otlp/h2.rs]): headers, padding, settings and
    window updates.  HPACK belongs to [fluke-hpack]. *)

From S2P Require Import Prelude Text Bits.
Open Scope string_scope.
Open Scope Z_scope.
Open Scope list_scope.

Definition PREFACE : bytes :=
  list_byte_of_string "PRI * HTTP/2.0" ++ [Byte.x0d; Byte.x0a; Byte.x0d; Byte.x0a] ++ list_byte_of_string "SM" ++ [Byte.x0d; Byte.x0a; Byte.x0d; Byte.x0a].

Definition DEFAULT_MAX_FRAME_SIZE : Z := 16384.
Definition INITIAL_CONNECTION_WINDOW : Z := 65535.

Module kind.
Definition DATA : Z := 0.
Definition HEADERS : Z := 1.
Definition PRIORITY : Z := 2.
Definition RST_STREAM : Z := 3.
Definition SETTINGS : Z := 4.
Definition PUSH_PROMISE : Z := 5.
Definition PING : Z := 6.
Definition GOAWAY : Z := 7.
Definition WINDOW_UPDATE : Z := 8.
Definition CONTINUATION : Z := 9.
End kind.

Module flag.
Definition END_STREAM : Z := 1.
Definition ACK : Z := 1.
Definition END_HEADERS : Z := 4.
Definition PADDED : Z := 8.
Definition PRIORITY : Z := 32.
End flag.

Module setting.
Definition HEADER_TABLE_SIZE : Z := 1.
Definition ENABLE_PUSH : Z := 2.
Definition MAX_CONCURRENT_STREAMS : Z := 3.
Definition INITIAL_WINDOW_SIZE : Z := 4.
Definition MAX_FRAME_SIZE : Z := 5.
Definition MAX_HEADER_LIST_SIZE : Z := 6.
End setting.

Module error_code.
Definition NO_ERROR : Z := 0.
Definition PROTOCOL_ERROR : Z := 1.
Definition INTERNAL_ERROR : Z := 2.
Definition FLOW_CONTROL_ERROR : Z := 3.
Definition FRAME_SIZE_ERROR : Z := 6.
Definition REFUSED_STREAM : Z := 7.
Definition COMPRESSION_ERROR : Z := 9.
Definition ENHANCE_YOUR_CALM : Z := 11.
End error_code.

Inductive H2Error :=
| Io
| BadPreface
| Protocol (code : Z) (reason : string).

Definition error_code_of (e : H2Error) : Z :=
  match e with
  | Protocol code _ => code
  | BadPreface => error_code.PROTOCOL_ERROR
  | Io => error_code.INTERNAL_ERROR
  end.

Record FrameHeader := mkFrameHeader { length : Z; kind_of : Z; flags : Z; stream_id : Z }.

Definition has (h : FrameHeader) (f : Z) : bool := negb (Z.land (flags h) f =? 0).

(** [u32::from_be_bytes(..) & 0x7fff_ffff]: the top bit is reserved. *)
Definition id31 (bs : bytes) : Z := Z.land (be_val bs) 2147483647.

(** Splits the nine bytes of a frame's header. *)
Definition parse_frame_header (head : bytes) : FrameHeader :=
  match head with
  | [a; b; c; k; f; d; e; g; h] => mkFrameHeader (be_val [Byte.x00; a; b; c]) (byte_val k) (byte_val f) (id31 [d; e; g; h])
  | _ => mkFrameHeader 0 0 0 0
  end.

(** A frame as it is written. *)
Record Frame := mkFrame { f_kind : Z; f_flags : Z; f_stream : Z; f_payload : bytes }.

Definition frame_head (f : Frame) : bytes :=
  let len := Z.of_nat (List.length (f_payload f)) in
  [to_byte (Z.shiftr len 16); to_byte (Z.shiftr len 8); to_byte len; to_byte (f_kind f); to_byte (f_flags f);
   to_byte (Z.shiftr (f_stream f) 24); to_byte (Z.shiftr (f_stream f) 16); to_byte (Z.shiftr (f_stream f) 8); to_byte (f_stream f)].
Definition write_frame (f : Frame) : bytes := frame_head f ++ f_payload f.

Definition settings_frame (settings : list (Z * Z)) : Frame :=
  mkFrame kind.SETTINGS 0 0 (concat (List.map (fun s => be_bytes 2 (fst s) ++ be_bytes 4 (snd s)) settings)).
Definition window_update (stream increment : Z) : Frame := mkFrame kind.WINDOW_UPDATE 0 stream (be_bytes 4 increment).
Definition goaway (last code : Z) (debug : string) : Frame :=
  mkFrame kind.GOAWAY 0 0 (be_bytes 4 last ++ be_bytes 4 code ++ list_byte_of_string debug).
Definition rst_stream (stream code : Z) : Frame := mkFrame kind.RST_STREAM 0 stream (be_bytes 4 code).

(** Strips padding and the priority block. *)
Definition strip_padding (payload : bytes) (flags : Z) (has_priority_field : bool) : H2Error + bytes :=
  let padded := negb (Z.land flags flag.PADDED =? 0) in
  match (if padded then match payload with [] => None | first :: rest => Some (Z.to_nat (byte_val first), rest) end
         else Some (0%nat, payload)) with
  | None => inl (Protocol error_code.PROTOCOL_ERROR "padded frame is empty")
  | Some (pad_len, body) =>
      let priority := has_priority_field && negb (Z.land flags flag.PRIORITY =? 0) in
      if priority && (List.length body <? 5)%nat then inl (Protocol error_code.PROTOCOL_ERROR "priority block truncated")
      else
        let body := if priority then skipn 5 body else body in
        if (List.length body <? pad_len)%nat then inl (Protocol error_code.PROTOCOL_ERROR "padding longer than the frame")
        else inr (firstn (List.length body - pad_len) body)
  end.

Fixpoint chunks6 (bs : bytes) : list (Z * Z) :=
  match bs with
  | a :: b :: c :: d :: e :: f :: rest => (be_val [a; b], be_val [c; d; e; f]) :: chunks6 rest
  | _ => []
  end.

Definition parse_settings (payload : bytes) : H2Error + list (Z * Z) :=
  if negb (Z.of_nat (List.length payload) mod 6 =? 0)
  then inl (Protocol error_code.FRAME_SIZE_ERROR "SETTINGS payload is not a multiple of 6")
  else inr (chunks6 payload).

Definition parse_window_update (payload : bytes) : H2Error + Z :=
  if negb (List.length payload =? 4)%nat then inl (Protocol error_code.FRAME_SIZE_ERROR "WINDOW_UPDATE payload must be 4 bytes")
  else inr (id31 payload).

(** ** What is written is read *)

Lemma byte_of_shift z k : 0 <= k -> byte_val (to_byte (Z.shiftr z k)) = z / 2 ^ k mod 256.
Proof. intros H. by rewrite byte_val_to_byte, Z.shiftr_div_pow2. Qed.

Lemma be_val4 a b c d : be_val [a; b; c; d] = ((byte_val a * 256 + byte_val b) * 256 + byte_val c) * 256 + byte_val d.
Proof. unfold be_val. cbn. lia. Qed.

Lemma frame_head_read f :
  Z.of_nat (List.length (f_payload f)) < 2 ^ 24 -> 0 <= f_kind f < 256 -> 0 <= f_flags f < 256 -> 0 <= f_stream f < 2 ^ 31 ->
  parse_frame_header (frame_head f) = mkFrameHeader (Z.of_nat (List.length (f_payload f))) (f_kind f) (f_flags f) (f_stream f).
Proof.
  intros Hl Hk Hf Hs. unfold frame_head, parse_frame_header. cbv zeta. set (len := Z.of_nat _) in *.
  assert (0 <= len) by lia. unfold id31. rewrite !be_val4, !byte_of_shift, !byte_val_to_byte by lia.
  f_equal; try (apply Z.mod_small; lia).
  - change (byte_val Byte.x00) with 0. change (2 ^ 16) with 65536. change (2 ^ 8) with 256. dlia.
  - rewrite (land_mask _ 31) by (done || lia). rewrite <- (Z.mod_small (f_stream f) (2 ^ 31)) at 5 by done. f_equal.
    change (2 ^ 24) with 16777216. change (2 ^ 16) with 65536. change (2 ^ 8) with 256. dlia.
Qed.

(** Padding is taken off whatever its length. *)
Definition padded (body pad : bytes) : bytes := to_byte (Z.of_nat (List.length pad)) :: body ++ pad.

Lemma strip_padded body pad fl :
  (List.length pad < 256)%nat -> negb (Z.land fl flag.PADDED =? 0) = true -> strip_padding (padded body pad) fl false = inr body.
Proof.
  intros Hp Hf. unfold strip_padding, padded. rewrite Hf. cbn [andb].
  rewrite byte_val_to_byte, Z.mod_small, Nat2Z.id by lia. rewrite length_app.
  rewrite (proj2 (Nat.ltb_ge _ _)) by lia. f_equal.
  by rewrite Nat.add_sub, firstn_app, firstn_all, Nat.sub_diag, app_nil_r.
Qed.

Lemma strip_plain body fl prio :
  Z.land fl flag.PADDED = 0 -> Z.land fl flag.PRIORITY = 0 -> strip_padding body fl prio = inr body.
Proof.
  intros H1 H2. unfold strip_padding. rewrite H1, H2. cbn [negb Z.eqb andb]. rewrite andb_false_r. cbn [andb].
  by rewrite Nat.sub_0_r, firstn_all.
Qed.
