(* ===== verification/Grpc.v ===== *)
(** OTLP over gRPC ([crates/logless-core/src/otlp/grpc.rs]): a connection as
    the frames it reads and writes.  The sink of the pipeline is an oracle of
    the batches it was offered before; HPACK and gzip are parameters.  Reads are
    the bytes that arrived; that a write fails is not modelled (it ends the
    connection), nor are threads and timeouts. *)

From S2P Require Import Prelude Text Model Base64 Proto Otlp H2.
Open Scope string_scope.
Open Scope Z_scope.
Open Scope list_scope.

Module status.
Definition OK : Z := 0.
Definition INVALID_ARGUMENT : Z := 3.
Definition RESOURCE_EXHAUSTED : Z := 8.
Definition UNIMPLEMENTED : Z := 12.
Definition UNAVAILABLE : Z := 14.
End status.

Definition EXPORT_PATH : string := "/opentelemetry.proto.collector.logs.v1.LogsService/Export".
Definition WINDOW : Z := 8388608.
Definition MAX_CONCURRENT_STREAMS : Z := 128.

Record GrpcConfig := mkGrpcConfig {
  enabled : bool;
  addr : string;
  max_connections : Z;
  max_message_bytes : Z;
  max_decompressed_bytes : Z
}.

Inductive Accepted := All | Rejected.

Record ReceiverStats := mkStats {
  requests : Z;
  accepted_records : Z;
  accepted : Z;
  rejected : Z;
  bad_request : Z;
  too_large_count : Z;
  dropped : Z
}.
Definition stats_new : ReceiverStats := mkStats 0 0 0 0 0 0 0.
Definition count_request s := mkStats (wadd64 (requests s) 1) (accepted_records s) (accepted s) (rejected s) (bad_request s) (too_large_count s) (dropped s).
Definition count_accepted n s := mkStats (requests s) (wadd64 (accepted_records s) n) (wadd64 (accepted s) 1) (rejected s) (bad_request s) (too_large_count s) (dropped s).
Definition count_rejected s := mkStats (requests s) (accepted_records s) (accepted s) (wadd64 (rejected s) 1) (bad_request s) (too_large_count s) (dropped s).
Definition count_bad s := mkStats (requests s) (accepted_records s) (accepted s) (rejected s) (wadd64 (bad_request s) 1) (too_large_count s) (dropped s).
Definition count_too_large s := mkStats (requests s) (accepted_records s) (accepted s) (rejected s) (bad_request s) (wadd64 (too_large_count s) 1) (dropped s).
Definition count_dropped n s := mkStats (requests s) (accepted_records s) (accepted s) (rejected s) (bad_request s) (too_large_count s) (wadd64 (dropped s) n).

(** [StatsSnapshot::accounts_for_everything]. *)
Definition accounts_for_everything (s : ReceiverStats) : bool :=
  requests s =? wrap64 (accepted s + rejected s + bad_request s + too_large_count s).

Record Stream := mkStream {
  path : string;
  content_type : string;
  grpc_encoding : string;
  header_fragment : bytes;
  headers_done : bool;
  s_body : bytes;
  too_large : bool
}.
Definition stream_default : Stream := mkStream "" "" "" [] false [] false.
Definition set_fragment b s := mkStream (path s) (content_type s) (grpc_encoding s) b (headers_done s) (s_body s) (too_large s).
Definition set_done s := mkStream (path s) (content_type s) (grpc_encoding s) [] true (s_body s) (too_large s).
Definition set_body b s := mkStream (path s) (content_type s) (grpc_encoding s) (header_fragment s) (headers_done s) b (too_large s).
Definition set_too_large s := mkStream (path s) (content_type s) (grpc_encoding s) (header_fragment s) (headers_done s) [] true.

(** ** Text *)

Definition replacement : bytes := [Byte.xef; Byte.xbf; Byte.xbd].

(** [String::from_utf8_lossy]: each maximal ill-formed part becomes U+FFFD. *)
Fixpoint lossy (bs : bytes) : bytes :=
  match bs with
  | [] => []
  | a :: t1 =>
      let v := byte_val a in
      if v <? 128 then a :: lossy t1
      else match t1 with
      | [] => replacement
      | b :: t2 =>
          let w := byte_val b in
          if (194 <=? v) && (v <=? 223) then
            if cont b then a :: b :: lossy t2 else replacement ++ lossy t1
          else if (224 <=? v) && (v <=? 239) then
            if ((if v =? 224 then 160 else 128) <=? w) && (w <=? (if v =? 237 then 159 else 191)) then
              match t2 with
              | c :: t3 => if cont c then a :: b :: c :: lossy t3 else replacement ++ lossy t2
              | [] => replacement
              end
            else replacement ++ lossy t1
          else if (240 <=? v) && (v <=? 244) then
            if ((if v =? 240 then 144 else 128) <=? w) && (w <=? (if v =? 244 then 143 else 191)) then
              match t2 with
              | c :: t3 =>
                  if cont c then
                    match t3 with
                    | d :: t4 => if cont d then a :: b :: c :: d :: lossy t4 else replacement ++ lossy t3
                    | [] => replacement
                    end
                  else replacement ++ lossy t2
              | [] => replacement
              end
            else replacement ++ lossy t1
          else replacement ++ lossy t1
      end
  end.

Definition lossy_text (bs : bytes) : string := string_of_list_byte (lossy bs).

(** [{byte:02X}]. *)
Definition upper_hex (d : Z) : ascii := ascii_of_N (Z.to_N (if d <? 10 then 48 + d else 55 + d)).
Fixpoint percent_encode (message : string) : string :=
  match message with
  | EmptyString => ""
  | String c r =>
      if (32 <=? chr c) && (chr c <=? 126) && negb (Ascii.eqb c "%") then String c (percent_encode r)
      else String "%" (String (upper_hex (chr c / 16)) (String (upper_hex (chr c mod 16)) (percent_encode r)))
  end.

Definition show_proto_error (e : ProtoError) : string :=
  let join := foldr String.append "" in
  match e with
  | Truncated at_ wanted rest =>
      join ["truncated: wanted "; show_Z wanted; " bytes at offset "; show_Z at_; ", "; show_Z rest; " left"]
  | VarintOverflow at_ => join ["varint at offset "; show_Z at_; " exceeds 64 bits"]
  | UnsupportedWireType at_ field wire_type =>
      join ["unsupported wire type "; show_Z wire_type; " for field "; show_Z field; " at offset "; show_Z at_]
  | ZeroFieldNumber at_ => join ["field number 0 is not valid (offset "; show_Z at_; ")"]
  | TooDeep limit => join ["nested message deeper than "; show_Z limit; " levels"]
  | InvalidUtf8 at_ => join ["invalid utf-8 in string field at offset "; show_Z at_]
  end.

(** ** Connections *)

Section Connections.
Context {D E : Type}.    (* the tables of the HPACK decoder and encoder *)
Variable hpack_decode : D -> bytes -> (string + list (bytes * bytes)) * D.
Variable hpack_encode : E -> list (string * string) -> bytes * E.
Variable set_max_table_size : Z -> E -> E.
Variable gunzip : Z -> bytes -> string + bytes.      (* at most that many bytes *)
Variable fresh : Z -> nat -> bytes.                  (* identifiers, by request *)
Variable clock : Z -> Z.                             (* receive time, by request *)
Variable sink : list (list LogRecord) -> list LogRecord -> Accepted.
Variable config : GrpcConfig.

Record Conn := mkConn {
  streams : gmap Z Stream;
  decoder : D;
  encoder : E;
  written : list Frame;
  connection_credit_used : Z;
  stats : ReceiverStats;
  offered : list (list LogRecord)
}.
Definition set_streams x c := mkConn x (decoder c) (encoder c) (written c) (connection_credit_used c) (stats c) (offered c).
Definition set_decoder x c := mkConn (streams c) x (encoder c) (written c) (connection_credit_used c) (stats c) (offered c).
Definition set_encoder x c := mkConn (streams c) (decoder c) x (written c) (connection_credit_used c) (stats c) (offered c).
Definition write f c := mkConn (streams c) (decoder c) (encoder c) (written c ++ [f]) (connection_credit_used c) (stats c) (offered c).
Definition set_credit x c := mkConn (streams c) (decoder c) (encoder c) (written c) x (stats c) (offered c).
Definition on_stats (f : ReceiverStats -> ReceiverStats) c := mkConn (streams c) (decoder c) (encoder c) (written c) (connection_credit_used c) (f (stats c)) (offered c).
Definition offer b c := mkConn (streams c) (decoder c) (encoder c) (written c) (connection_credit_used c) (stats c) (offered c ++ [b]).

Abbreviation M := (SE Conn H2Error).
Definition emit (f : Frame) : M unit := modify (write f).
Definition count (f : ReceiverStats -> ReceiverStats) : M unit := modify (on_stats f).

Definition write_headers (id : Z) (headers : list (string * string)) (end_stream : bool) : M unit :=
  e ← gets encoder;
  let (block, e) := hpack_encode e headers in
  _ ← modify (set_encoder e);
  emit (mkFrame kind.HEADERS (if end_stream then Z.lor flag.END_HEADERS flag.END_STREAM else flag.END_HEADERS) id block).

Definition grpc_ok_headers : list (string * string) := [(":status", "200"); ("content-type", "application/grpc")].

(** An error is an HTTP 200 whose only frame of headers carries the status. *)
Definition trailers_only (id code : Z) (message : string) : M unit :=
  write_headers id (grpc_ok_headers ++ [("grpc-status", show_Z code); ("grpc-message", percent_encode message)]) true.

(** One byte for compression, four for the length, and the message. *)
Definition unframe (body : bytes) (encoding : string) : string + bytes :=
  match body with
  | [] => inl "empty request body"
  | compressed :: a :: b :: c :: d :: payload =>
      let length := be_val [a; b; c; d] in
      if Z.of_nat (List.length payload) <? length then
        inl (foldr String.append "" ["gRPC frame claims "; show_Z length; " bytes, got "; show_Z (Z.of_nat (List.length payload))])
      else
        let payload := firstn (Z.to_nat length) payload in
        if byte_val compressed =? 0 then inr payload
        else if byte_val compressed =? 1 then
          if negb (String.eqb encoding "gzip") then
            inl (foldr String.append "" ["compressed message with unsupported encoding '"; encoding; "'"])
          else
            match gunzip (max_decompressed_bytes config + 1) payload with
            | inl e => inl (String.append "bad gzip: " e)
            | inr out =>
                if max_decompressed_bytes config <? Z.of_nat (List.length out)
                then inl "decompressed message exceeds the configured limit" else inr out
            end
        else inl (String.append "unknown compressed-flag " (show_Z (byte_val compressed)))
  | _ => inl "truncated gRPC frame header"
  end.

(** The answer to a stream whose last frame arrived. *)
Definition answer (id : Z) (s : Stream) : M unit :=
  if too_large s then
    _ ← count count_too_large;
    trailers_only id status.RESOURCE_EXHAUSTED "message exceeds max_message_bytes"
  else if negb (starts_with "application/grpc" (content_type s)) then
    _ ← count count_bad;
    trailers_only id status.INVALID_ARGUMENT "content-type must be application/grpc"
  else if negb (String.eqb (path s) EXPORT_PATH) then
    _ ← count count_bad;
    trailers_only id status.UNIMPLEMENTED "only LogsService/Export is implemented"
  else match unframe (s_body s) (grpc_encoding s) with
  | inl reason => _ ← count count_bad; trailers_only id status.INVALID_ARGUMENT reason
  | inr message =>
      n ← gets (fun c => requests (stats c));
      match decode_request (fresh n) (clock n) message with
      | Err e => _ ← count count_bad; trailers_only id status.INVALID_ARGUMENT (String.append "malformed OTLP: " (show_proto_error e))
      | Spent => mret tt    (* never *)
      | Ok out =>
          _ ← count (count_dropped (dropped_upstream out));
          before ← gets offered;
          _ ← modify (offer (records out));
          match sink before (records out) with
          | All =>
              _ ← count (count_accepted (Z.of_nat (List.length (records out))));
              _ ← write_headers id grpc_ok_headers false;
              _ ← emit (mkFrame kind.DATA 0 id [Byte.x00; Byte.x00; Byte.x00; Byte.x00; Byte.x00]);
              write_headers id [("grpc-status", show_Z status.OK)] true
          | Rejected =>
              _ ← count count_rejected;
              trailers_only id status.UNAVAILABLE "pipeline full, retry"
          end
      end
  end.

Definition finish_stream (id : Z) : M unit :=
  s ← gets (fun c => streams c !! id);
  match s with
  | None => mret tt
  | Some s =>
      _ ← modify (fun c => set_streams (delete id (streams c)) c);
      if negb (headers_done s) then fail (Protocol error_code.PROTOCOL_ERROR "stream ended mid-headers")
      else _ ← count count_request; answer id s
  end.

(** The headers a stream keeps. *)
Definition keep_header (s : Stream) (h : bytes * bytes) : Stream :=
  let name := str_lower (lossy_text (fst h)) in
  let value := lossy_text (snd h) in
  if String.eqb name ":path" then mkStream value (content_type s) (grpc_encoding s) (header_fragment s) (headers_done s) (s_body s) (too_large s)
  else if String.eqb name "content-type" then mkStream (path s) (str_lower value) (grpc_encoding s) (header_fragment s) (headers_done s) (s_body s) (too_large s)
  else if String.eqb name "grpc-encoding" then mkStream (path s) (content_type s) (str_lower value) (header_fragment s) (headers_done s) (s_body s) (too_large s)
  else s.

Definition put_stream (id : Z) (s : Stream) : M unit := modify (fun c => set_streams (<[id := s]> (streams c)) c).

Definition lift_h2 {A} (r : H2Error + A) : M A := match r with inl e => fail e | inr a => mret a end.

Definition handle_headers (h : FrameHeader) (payload : bytes) : M unit :=
  let id := stream_id h in
  if id =? 0 then fail (Protocol error_code.PROTOCOL_ERROR "HEADERS on stream 0")
  else
    open ← gets (fun c => Z.of_nat (size (streams c)));
    if (kind_of h =? kind.HEADERS) && (MAX_CONCURRENT_STREAMS <=? open)
    then emit (rst_stream id error_code.REFUSED_STREAM)
    else
      fragment ← lift_h2 (strip_padding payload (flags h) (kind_of h =? kind.HEADERS));
      s ← gets (fun c => default stream_default (streams c !! id));
      let s := set_fragment (header_fragment s ++ fragment) s in
      _ ← put_stream id s;
      _ ← when (has h flag.END_HEADERS)
            (d ← gets decoder;
             let (r, d) := hpack_decode d (header_fragment s) in
             _ ← modify (set_decoder d);
             match r with
             | inl e => fail (Protocol error_code.COMPRESSION_ERROR e)
             | inr decoded => put_stream id (foldl keep_header (set_done s) decoded)
             end);
      when (has h flag.END_STREAM) (finish_stream id).

Definition handle_data (h : FrameHeader) (payload : bytes) : M unit :=
  let id := stream_id h in
  body ← lift_h2 (strip_padding payload (flags h) false);
  _ ← modify (fun c => set_credit (wrap32 (connection_credit_used c + length h)) c);
  used ← gets connection_credit_used;
  _ ← when (WINDOW / 2 <=? used) (_ ← emit (window_update 0 used); modify (set_credit 0));
  s ← gets (fun c => streams c !! id);
  _ ← match s with
      | None => mret tt
      | Some s =>
          _ ← put_stream id
                (if max_message_bytes config <? Z.of_nat (List.length (s_body s) + List.length body) then set_too_large s
                 else if too_large s then s else set_body (s_body s ++ body) s);
          when (0 <? length h) (emit (window_update id (length h)))
      end;
  when (has h flag.END_STREAM) (finish_stream id).

Definition handle_frame (h : FrameHeader) (payload : bytes) : M unit :=
  match kind_of h with
  | 4 (* SETTINGS *) =>
      if has h flag.ACK then mret tt
      else
        pairs ← lift_h2 (parse_settings payload);
        _ ← modify (fun c => set_encoder
              (foldl (fun e p => if fst p =? setting.HEADER_TABLE_SIZE then set_max_table_size (snd p) e else e) (encoder c) pairs) c);
        emit (mkFrame kind.SETTINGS flag.ACK 0 [])
  | 6 (* PING *) => when (negb (has h flag.ACK)) (emit (mkFrame kind.PING flag.ACK 0 payload))
  | 8 (* WINDOW_UPDATE *) => _ ← lift_h2 (parse_window_update payload); mret tt
  | 7 (* GOAWAY *) => fail (Protocol error_code.NO_ERROR "client sent GOAWAY")
  | 3 (* RST_STREAM *) => modify (fun c => set_streams (delete (stream_id h) (streams c)) c)
  | 2 (* PRIORITY *) => mret tt
  | 5 (* PUSH_PROMISE *) => fail (Protocol error_code.PROTOCOL_ERROR "clients must not push")
  | 1 | 9 (* HEADERS, CONTINUATION *) => handle_headers h payload
  | 0 (* DATA *) => handle_data h payload
  | _ => mret tt
  end.

(** ** The connection's loop *)

(** The next frame of what arrived: none when the connection was closed. *)
Definition read_frame (input : bytes) : option (H2Error + (FrameHeader * bytes * bytes)) :=
  if (List.length input <? 9)%nat then None
  else
    let h := parse_frame_header (firstn 9 input) in
    let input := skipn 9 input in
    if DEFAULT_MAX_FRAME_SIZE <? length h
    then Some (inl (Protocol error_code.FRAME_SIZE_ERROR (foldr String.append "" ["frame of "; show_Z (length h); " bytes exceeds max_frame_size"])))
    else if Z.of_nat (List.length input) <? length h then None
    else Some (inr (h, firstn (Z.to_nat (length h)) input, skipn (Z.to_nat (length h)) input)).

Variable stop : nat -> bool.    (* the stop flag, at each turn *)

Fixpoint frames_loop (fuel turn : nat) (input : bytes) : M unit :=
  match fuel with
  | O => mret tt
  | S fuel' =>
      if stop turn then mret tt
      else match read_frame input with
      | None => mret tt
      | Some (inl e) => fail e
      | Some (inr (h, payload, input)) => _ ← handle_frame h payload; frames_loop fuel' (S turn) input
      end
  end.

Definition show_h2_error (e : H2Error) : string :=
  match e with
  | Io => "io"
  | BadPreface => "not an HTTP/2 connection preface"
  | Protocol code reason => foldr String.append "" ["protocol error ("; show_Z code; "): "; reason]
  end.

(** Our settings, and credit for the connection. *)
Definition greeting : list Frame :=
  [settings_frame [(setting.MAX_CONCURRENT_STREAMS, MAX_CONCURRENT_STREAMS); (setting.INITIAL_WINDOW_SIZE, WINDOW);
     (setting.MAX_FRAME_SIZE, DEFAULT_MAX_FRAME_SIZE); (setting.ENABLE_PUSH, 0)];
   window_update 0 WINDOW].

Definition conn_new (d : D) (e : E) (s : ReceiverStats) (o : list (list LogRecord)) : Conn :=
  mkConn ∅ d e greeting 0 s o.

Definition serve_connection (d : D) (e : E) (s : ReceiverStats) (o : list (list LogRecord)) (input : bytes) : (H2Error + unit) * Conn :=
  if (List.length input <? List.length PREFACE)%nat then (inl Io, mkConn ∅ d e [] 0 s o)
  else if negb (bool_decide (firstn (List.length PREFACE) input = PREFACE)) then (inl BadPreface, mkConn ∅ d e [] 0 s o)
  else
    let '(r, c) := frames_loop (S (List.length input)) 0 (skipn (List.length PREFACE) input) (conn_new d e s o) in
    (r, write (match r with
               | inr _ => goaway 0 error_code.NO_ERROR "shutting down"
               | inl e => goaway 0 (error_code_of e) (show_h2_error e)
               end) c).
End Connections.
