(* ===== verification/Hoare.v ===== *)
(** A program logic for methods that read and write a state and may fail
    ([SE] of the prelude): what holds before, after an ordinary return and after
    an error, which may depend on the error. *)

From S2P Require Import Prelude.

Section Hoare.
Context {S E : Type}.

(** From a state of [P], [m] returns in a state of [Q] or fails in one of [X]. *)
Definition hoare {A} (P : S -> Prop) (m : SE S E A) (Q : A -> S -> Prop) (X : E -> S -> Prop) : Prop :=
  forall s, P s -> match m s with (inr a, s') => Q a s' | (inl e, s') => X e s' end.

Lemma h_bind {A B} P (m : SE S E A) Q (k : A -> SE S E B) R X :
  hoare P m Q X -> (forall a, hoare (Q a) (k a) R X) -> hoare P (m ≫= k) R X.
Proof.
  intros Hm Hk s Hs. specialize (Hm s Hs). unfold mbind, SE_bind. destruct (m s) as [[e|a] s']; [done|]. by apply Hk.
Qed.

Lemma h_weak {A} (P P' : S -> Prop) (m : SE S E A) (Q Q' : A -> S -> Prop) (X X' : E -> S -> Prop) :
  hoare P' m Q' X' -> (forall s, P s -> P' s) -> (forall a s, Q' a s -> Q a s) -> (forall e s, X' e s -> X e s) -> hoare P m Q X.
Proof. intros H HP HQ HX s Hs. specialize (H s (HP s Hs)). destruct (m s) as [[e|a] s']; auto. Qed.

Lemma h_pre {A} (P P' : S -> Prop) (m : SE S E A) Q X : hoare P' m Q X -> (forall s, P s -> P' s) -> hoare P m Q X.
Proof. intros H HP s Hs. by apply H, HP. Qed.

Lemma h_and {A} (P P' : S -> Prop) (m : SE S E A) (Q Q' : A -> S -> Prop) (X X' : E -> S -> Prop) :
  hoare P m Q X -> hoare P' m Q' X' -> hoare (fun s => P s /\ P' s) m (fun a s => Q a s /\ Q' a s) (fun e s => X e s /\ X' e s).
Proof. intros H H' s [Hs Hs']. specialize (H s Hs). specialize (H' s Hs'). by destruct (m s) as [[e|a] s']. Qed.

Lemma h_ret {A} (P : S -> Prop) (a : A) X : hoare P (mret a : SE S E A) (fun _ => P) X.
Proof. by intros s Hs. Qed.
Lemma h_gets {A} (P : S -> Prop) (f : S -> A) X : hoare P (gets f : SE S E A) (fun a s => P s /\ a = f s) X.
Proof. by intros s Hs. Qed.
Lemma h_modify (P Q : S -> Prop) (f : S -> S) X : (forall s, P s -> Q (f s)) -> hoare P (modify f : SE S E unit) (fun _ => Q) X.
Proof. intros H s Hs. by apply H. Qed.
Lemma h_fail {A} (P : S -> Prop) (X : E -> S -> Prop) (e : E) (Q : A -> S -> Prop) : (forall s, P s -> X e s) -> hoare P (fail e) Q X.
Proof. intros H s Hs. by apply H. Qed.

(** A method that keeps [P], whether it fails or not. *)
Definition keeps {A} (P : S -> Prop) (m : SE S E A) : Prop := hoare P m (fun _ => P) (fun _ => P).

Lemma k_bind {A B} P (m : SE S E A) (k : A -> SE S E B) : keeps P m -> (forall a, keeps P (k a)) -> keeps P (m ≫= k).
Proof. intros. eapply h_bind; [done|]. auto. Qed.
Lemma k_gets {A} P (f : S -> A) : keeps P (gets f : SE S E A).
Proof. by intros s Hs. Qed.
Lemma k_ret {A} P (a : A) : keeps P (mret a : SE S E A).
Proof. by intros s Hs. Qed.
Lemma k_fail {A} P (e : E) : keeps P (fail e : SE S E A).
Proof. by intros s Hs. Qed.
Lemma k_modify P (f : S -> S) : (forall s, P s -> P (f s)) -> keeps P (modify f : SE S E unit).
Proof. intros H s Hs. by apply H. Qed.
Lemma k_when P b (m : SE S E unit) : keeps P m -> keeps P (when b m).
Proof. intros H. destruct b; [done|apply k_ret]. Qed.
End Hoare.
