(* ===== verification/GrpcFacts.v ===== *)
(** What a gRPC connection promises: its credit never runs out, what it holds
    of a message is bounded, every request is counted under one answer, and a
    call however cut into frames reaches the sink as the records it encodes. *)

From S2P Require Import Prelude Text Model Base64 Proto Otlp OtlpFacts H2 Grpc Hoare.
Open Scope string_scope.
Open Scope Z_scope.
Open Scope list_scope.

Section Facts.
Context {D E : Type}.
Variable hpack_decode : D -> bytes -> (string + list (bytes * bytes)) * D.
Variable hpack_encode : E -> list (string * string) -> bytes * E.
Variable set_max_table_size : Z -> E -> E.
Variable gunzip : Z -> bytes -> string + bytes.
Variable fresh : Z -> nat -> bytes.
Variable clock : Z -> Z.
Variable sink : list (list LogRecord) -> list LogRecord -> Accepted.
Variable config : GrpcConfig.
Hypothesis Hmax : 0 <= max_message_bytes config.

Abbreviation conn := (@Conn D E).
Abbreviation handle := (handle_frame hpack_decode hpack_encode set_max_table_size gunzip fresh clock sink config).

(** ** The credit of the connection *)

(** The credit a list of written frames gives the connection. *)
Definition granted (fs : list Frame) : Z :=
  sum_of (fun f => if (f_kind f =? kind.WINDOW_UPDATE) && (f_stream f =? 0) then be_val (f_payload f) else 0) fs.

Lemma granted_app a b : granted (a ++ b) = granted a + granted b.
Proof. unfold granted, sum_of. induction a as [|f a IH]; [done|]. cbn [app foldr]. rewrite IH. lia. Qed.

Lemma granted_other f : f_kind f <> kind.WINDOW_UPDATE \/ f_stream f <> 0 -> granted [f] = 0.
Proof. intros H. unfold granted, sum_of. cbn [foldr]. destruct (_ =? _) eqn:E1, (f_stream f =? 0) eqn:E2; zbool; simpl; lia. Qed.

Lemma granted_update n : 0 <= n < 2 ^ 32 -> granted [window_update 0 n] = n.
Proof.
  intros H. unfold granted, sum_of, window_update. cbn [foldr f_kind f_stream f_payload]. rewrite !Z.eqb_refl.
  cbn [andb]. rewrite be_val_be_bytes, Z.mod_small by (simpl; lia). lia.
Qed.

Definition stream_ok (id : Z) (s : Stream) : Prop :=
  id <> 0 /\ Z.of_nat (List.length (s_body s)) <= max_message_bytes config.
Definition bodies_bounded (c : conn) : Prop :=
  forall id s, streams c !! id = Some s -> stream_ok id s.

Definition counted (s : ReceiverStats) : Prop := accounts_for_everything s = true.

(** [data] bytes of DATA frames arrived. *)
Record Inv (data : Z) (c : conn) : Prop := {
  inv_credit : 0 <= connection_credit_used c < WINDOW / 2;
  inv_granted : granted (written c) + connection_credit_used c = WINDOW + data;
  inv_bodies : bodies_bounded c;
  inv_counted : counted (stats c)
}.

Lemma inv_write f data c : granted [f] = 0 -> Inv data c -> Inv data (write f c).
Proof. intros Hf [H1 H2 H3 H4]. split; [done| |done|done]. cbn. rewrite granted_app, Hf. cbn in *. lia. Qed.

Lemma emit_keeps f data : granted [f] = 0 -> keeps (Inv data) (emit f : SE conn H2Error unit).
Proof. intros H. apply k_modify. intros c. by apply inv_write. Qed.

Lemma write_headers_keeps id hs last data : keeps (Inv data) (write_headers hpack_encode id hs last : SE conn H2Error unit).
Proof.
  unfold write_headers. apply k_bind; [apply k_gets|]. intros e. destruct (hpack_encode e hs) as [block e'].
  apply k_bind; [by apply k_modify; intros c []|]. intros _. apply emit_keeps. by apply granted_other; left.
Qed.

Lemma trailers_keep id code m data : keeps (Inv data) (trailers_only hpack_encode id code m : SE conn H2Error unit).
Proof. apply write_headers_keeps. Qed.

(** While a request is counted and its answer is not. *)
Definition counting (data : Z) (c : conn) : Prop :=
  Inv data (on_stats (fun _ => stats_new) c) /\
  requests (stats c) = wrap64 (accepted (stats c) + rejected (stats c) + bad_request (stats c) + too_large_count (stats c) + 1).

Lemma counting_start data c : Inv data c -> counting data (on_stats count_request c).
Proof.
  intros [H1 H2 H3 H4]. split; [by split|]. cbn. unfold counted, accounts_for_everything in H4. zbool.
  rewrite H4. unfold wadd64. apply wrap64_add_l.
Qed.

Lemma counted_answer (f : ReceiverStats -> ReceiverStats) data c :
  (f = count_too_large \/ f = count_bad \/ f = count_rejected \/ exists n, f = count_accepted n) ->
  counting data c -> Inv data (on_stats f c).
Proof.
  intros Hf [[H1 H2 H3 _] H4]. split; [exact H1|exact H2|exact H3|].
  unfold counted, accounts_for_everything. apply Z.eqb_eq.
  assert (forall x y z, wrap64 (x + wrap64 y + z) = wrap64 (x + y + z)) as W.
  { intros x y z. by rewrite <- wrap64_add_l, wrap64_add_r, wrap64_add_l. }
  destruct Hf as [->|[->|[->|[n ->]]]];
    cbn [on_stats stats count_too_large count_bad count_rejected count_accepted requests accepted rejected bad_request too_large_count] in *;
    rewrite H4; unfold wadd64; symmetry.
  - rewrite wrap64_add_r. f_equal. lia.
  - rewrite W. f_equal. lia.
  - rewrite <- (Z.add_assoc _ (bad_request _)), W. f_equal. lia.
  - rewrite <- 2!(Z.add_assoc (wrap64 _)), wrap64_add_l. f_equal. lia.
Qed.

Definition answer_count (f : ReceiverStats -> ReceiverStats) : Prop :=
  f = count_too_large \/ f = count_bad \/ f = count_rejected \/ exists n, f = count_accepted n.

Lemma count_answers (f : ReceiverStats -> ReceiverStats) (m : SE conn H2Error unit) data :
  answer_count f -> keeps (Inv data) m -> hoare (counting data) (_ ← count f; m) (fun _ => Inv data) (fun _ => Inv data).
Proof.
  intros Hf Hk. eapply h_bind; [apply (h_modify _ (Inv data))|intros u; exact Hk].
  intros c. by apply counted_answer.
Qed.

Lemma answer_ok id st data :
  hoare (counting data) (answer hpack_encode gunzip fresh clock sink config id st) (fun _ => Inv data) (fun _ => Inv data).
Proof.
  unfold answer.
  destruct (too_large st); [apply count_answers; [by left|apply trailers_keep]|].
  destruct (negb (starts_with _ _)); [apply count_answers; [by right; left|apply trailers_keep]|].
  destruct (negb _); [apply count_answers; [by right; left|apply trailers_keep]|].
  destruct (unframe _ _ _ _) as [e|m]; [apply count_answers; [by right; left|apply trailers_keep]|].
  eapply h_bind; [apply h_gets|intros n].
  eapply h_weak with (P' := counting data) (Q' := fun _ => Inv data) (X' := fun _ => Inv data); [|by intros ? [? _]|done|done].
  destruct (decode_request (fresh n) (clock n) m) as [|e|out] eqn:Ed; [by destruct (request_ends (fresh n) (clock n) m)| |].
  { apply count_answers; [by right; left|apply trailers_keep]. }
  eapply (h_bind _ _ (fun _ => counting data)).
  { apply h_modify. intros c [[H1 H2 H3 H4] H5]. split; [by split|]. exact H5. }
  intros _. eapply h_bind; [apply h_gets|intros before].
  eapply h_weak with (P' := counting data) (Q' := fun _ => Inv data) (X' := fun _ => Inv data); [|by intros ? [? _]|done|done].
  eapply (h_bind _ _ (fun _ => counting data)).
  { apply h_modify. intros c [[H1 H2 H3 H4] H5]. split; [by split|]. exact H5. }
  intros _. destruct (sink before (records out)).
  - apply count_answers; [by right; right; right; eexists|].
    apply k_bind; [apply write_headers_keeps|intros _].
    apply k_bind; [apply emit_keeps, granted_other; by left|intros _; apply write_headers_keeps].
  - apply count_answers; [by right; right; left|apply trailers_keep].
Qed.

Lemma set_streams_inv m data c :
  (forall id s, m !! id = Some s -> stream_ok id s) -> Inv data c -> Inv data (set_streams m c).
Proof. intros Hm [H1 H2 H3 H4]. by split. Qed.

Lemma finish_keeps id data : keeps (Inv data) (finish_stream hpack_encode gunzip fresh clock sink config id).
Proof.
  unfold finish_stream. apply k_bind; [apply k_gets|]. intros [st|]; [|apply k_ret].
  apply k_bind.
  { apply k_modify. intros c Hc. apply set_streams_inv; [|done]. intros i s Hs.
    apply lookup_delete_Some in Hs as [_ Hs]. by apply (inv_bodies _ _ Hc i s). }
  intros _. destruct (negb (headers_done st)); [apply k_fail|].
  eapply h_bind; [apply (h_modify _ (counting data)); intros c; apply counting_start|intros u; apply answer_ok].
Qed.

Lemma put_keeps id st data :
  stream_ok id st -> keeps (Inv data) (put_stream id st : SE conn H2Error unit).
Proof.
  intros Hb. apply k_modify. intros c Hc. apply set_streams_inv; [|done]. intros i s Hs.
  apply lookup_insert_Some in Hs as [[<- <-]|[_ Hs]]; [done|]. by apply (inv_bodies _ _ Hc i s).
Qed.

Lemma lift_keeps {A} (r : H2Error + A) data : keeps (Inv data) (lift_h2 r : SE conn H2Error A).
Proof. destruct r; [apply k_fail|apply k_ret]. Qed.

Lemma keep_header_body st hs : s_body (foldl keep_header st hs) = s_body st.
Proof.
  revert st. induction hs as [|h hs IH]; intros st; [done|]. cbn [foldl]. rewrite IH. unfold keep_header.
  by repeat case_match.
Qed.

Lemma stream_body (c : conn) id data : Inv data c ->
  Z.of_nat (List.length (s_body (default stream_default (streams c !! id)))) <= max_message_bytes config.
Proof. intros Hc. destruct (streams c !! id) as [s|] eqn:Es; [by apply (inv_bodies _ _ Hc id s)|exact Hmax]. Qed.

(** A bind on a value read from the state, of which [Hv] holds. *)
Lemma k_gets_with {A B} (P : conn -> Prop) (f : conn -> A) (k : A -> SE conn H2Error B) (R : A -> Prop) :
  (forall c, P c -> R (f c)) -> (forall a, R a -> keeps P (k a)) -> keeps P (gets f ≫= k).
Proof. intros HR Hk c Hc. exact (Hk (f c) (HR c Hc) c Hc). Qed.

Lemma headers_keep h payload data :
  keeps (Inv data) (handle_headers hpack_decode hpack_encode gunzip fresh clock sink config h payload).
Proof.
  unfold handle_headers. destruct (_ =? 0) eqn:Eid; [apply k_fail|]. zbool.
  apply k_bind; [apply k_gets|intros open]. destruct (_ && _); [apply emit_keeps, granted_other; by left|].
  apply k_bind; [apply lift_keeps|intros fragment].
  apply (k_gets_with _ _ _ (fun s => Z.of_nat (List.length (s_body s)) <= max_message_bytes config)); [intros c; apply stream_body|].
  intros s Hs. cbv zeta. set (s' := set_fragment _ s). assert (s_body s' = s_body s) as Hb by done.
  apply k_bind; [apply put_keeps; split; [done|by rewrite Hb]|intros _].
  apply k_bind; [|intros _; apply k_when, finish_keeps].
  apply k_when. apply k_bind; [apply k_gets|intros d]. destruct (hpack_decode d (header_fragment s')) as [r d'].
  apply k_bind; [by apply k_modify; intros c []|intros _].
  destruct r as [e|hs]; [apply k_fail|]. apply put_keeps. split; [done|]. by rewrite keep_header_body.
Qed.

(** Credit is returned for the whole frame, before it can run out. *)
Lemma data_credit h payload data :
  0 <= length h <= DEFAULT_MAX_FRAME_SIZE ->
  hoare (Inv data) (handle_data hpack_encode gunzip fresh clock sink config h payload)
    (fun _ => Inv (data + length h)) (fun _ c => Inv data c \/ Inv (data + length h) c).
Proof.
  intros Hh. unfold handle_data. eapply h_bind with (Q := fun _ => Inv data).
  { eapply h_weak; [apply lift_keeps|done|done|by left]. }
  intros body. unfold DEFAULT_MAX_FRAME_SIZE in Hh.
  eapply (h_bind _ _ (fun _ c => granted (written c) + connection_credit_used c = WINDOW + (data + length h) /\
    0 <= connection_credit_used c < WINDOW /\ bodies_bounded c /\ counted (stats c))).
  { apply h_modify. intros c [H1 H2 H3 H4]. change (WINDOW / 2) with 4194304 in H1.
    assert (wrap32 (connection_credit_used c + length h) = connection_credit_used c + length h) as Hw
      by (unfold wrap32, wrap; apply Z.mod_small; lia).
    cbn [set_credit written connection_credit_used streams stats]. rewrite Hw. change WINDOW with 8388608 in *. split_and!; [lia|lia|lia|done|done]. }
  intros _. eapply h_bind; [apply h_gets|intros used]. cbv beta.
  eapply (h_bind _ _ (fun _ => Inv (data + length h))).
  { intros c [(H1 & H2 & H3 & H4) ->]. change (WINDOW / 2) with 4194304. change WINDOW with 8388608 in *.
    destruct (4194304 <=? connection_credit_used c) eqn:Eu; zbool; cbn [when].
    - unfold mbind, SE_bind, emit, modify. cbn [set_credit write]. split; cbn [written connection_credit_used stats streams]; [done| |done|done].
      cbn [set_credit write written connection_credit_used]. rewrite granted_app, granted_update by lia. change WINDOW with 8388608. lia.
    - split; [change (WINDOW / 2) with 4194304; lia|change WINDOW with 8388608; lia|done|done]. }
  intros _. eapply h_weak with (P' := Inv (data + length h)) (Q' := fun _ => Inv (data + length h)) (X' := fun _ => Inv (data + length h));
    [|done|done|by right].
  apply (k_gets_with _ _ _ (fun o => forall s, o = Some s -> stream_ok (stream_id h) s)).
  { intros c Hc s Hs. by apply (inv_bodies _ _ Hc (stream_id h)). }
  intros [s|] Hs; (apply k_bind; [|intros _; apply k_when, finish_keeps]); [|apply k_ret].
  specialize (Hs s eq_refl) as [Hid Hs]. apply k_bind.
  - apply put_keeps. split; [done|]. destruct (_ <? _) eqn:El; [done|]. zbool. destruct (too_large s); [done|].
    cbn [set_body s_body]. rewrite length_app. lia.
  - intros _. apply k_when, emit_keeps, granted_other. by right.
Qed.

Definition data_len (h : FrameHeader) : Z := if kind_of h =? kind.DATA then length h else 0.
Definition frame_ok (f : FrameHeader * bytes) : Prop := 0 <= length (fst f) <= DEFAULT_MAX_FRAME_SIZE.

Lemma keeps_data {A} (m : SE conn H2Error A) data d :
  keeps (Inv data) m -> d = 0 -> hoare (Inv data) m (fun _ => Inv (data + d)) (fun _ c => exists n, Inv n c).
Proof. intros H ->. rewrite Z.add_0_r. eapply h_weak; [exact H|done|done|by eexists]. Qed.

Lemma handle_data_inv h payload data :
  frame_ok (h, payload) -> hoare (Inv data) (handle h payload) (fun _ => Inv (data + data_len h)) (fun _ c => exists n, Inv n c).
Proof.
  intros Hf. unfold handle_frame, data_len. destruct (kind_of h =? kind.DATA) eqn:Ek; zbool.
  { rewrite Ek. eapply h_weak; [apply (data_credit h payload data Hf)|done|done|]. intros e' c [Hc|Hc]; by eexists. }
  assert (keeps (Inv data) (lift_h2 (parse_window_update payload) ≫= fun _ => mret tt)) as Hw
    by (apply k_bind; [apply lift_keeps|intros _; apply k_ret]).
  assert (keeps (Inv data) (modify (fun c => set_streams (delete (stream_id h) (streams c)) c) : SE conn H2Error unit)) as Hr.
  { apply k_modify. intros c Hc. apply set_streams_inv; [|done]. intros i s Hs.
    apply lookup_delete_Some in Hs as [_ Hs]. by apply (inv_bodies _ _ Hc i s). }
  repeat case_match; try done; (apply keeps_data; [|done]);
    first [exact Hw | exact Hr | apply k_fail | apply k_ret | apply headers_keep | idtac].
  - apply k_when, emit_keeps, granted_other. by left.
  - apply k_bind; [apply lift_keeps|intros pairs]. apply k_bind; [by apply k_modify; intros c []|intros _].
    apply emit_keeps, granted_other. by left.
Qed.

(** The frames of a connection, one after the other. *)
Fixpoint run (fs : list (FrameHeader * bytes)) : SE conn H2Error unit :=
  match fs with
  | [] => mret tt
  | f :: rest => _ ← handle (fst f) (snd f); run rest
  end.

Definition data_bytes (fs : list (FrameHeader * bytes)) : Z := sum_of (fun f => data_len (fst f)) fs.

Lemma run_inv fs : forall data, Forall frame_ok fs ->
  hoare (Inv data) (run fs) (fun _ => Inv (data + data_bytes fs)) (fun _ c => exists n, Inv n c).
Proof.
  induction fs as [|[h p] fs IH]; intros data Hf.
  { cbn [run]. unfold data_bytes. cbn. rewrite Z.add_0_r. apply h_ret. }
  apply Forall_cons in Hf as [Hf1 Hf]. cbn [run fst snd].
  eapply h_bind; [by apply handle_data_inv|intros u]. cbv beta.
  replace (data + data_bytes ((h, p) :: fs)) with (data + data_len h + data_bytes fs) by (unfold data_bytes, sum_of; simpl; lia).
  by apply IH.
Qed.

Lemma conn_new_inv d e s o : counted s -> Inv 0 (conn_new d e s o).
Proof.
  intros Hs. split; cbn [conn_new connection_credit_used written streams stats]; [done| | |done]; [|intros id st Hl; change (streams (conn_new d e s o)) with (∅ : gmap Z Stream) in Hl; by rewrite lookup_empty in Hl].
  vm_compute. reflexivity.
Qed.

(** ** A call *)

(** The frames after the headers: the body in any pieces, of which the last
    ends the stream. *)
Fixpoint data_frames (id : Z) (chunks : list bytes) : list (FrameHeader * bytes) :=
  match chunks with
  | [] => []
  | [b] => [(mkFrameHeader (Z.of_nat (List.length b)) kind.DATA flag.END_STREAM id, b)]
  | b :: rest => (mkFrameHeader (Z.of_nat (List.length b)) kind.DATA 0 id, b) :: data_frames id rest
  end.

Definition call_frames (id : Z) (block : bytes) (chunks : list bytes) : list (FrameHeader * bytes) :=
  (mkFrameHeader (Z.of_nat (List.length block)) kind.HEADERS flag.END_HEADERS id, block) :: data_frames id chunks.

Definition framed (message : bytes) : bytes := Byte.x00 :: be_bytes 4 (Z.of_nat (List.length message)) ++ message.

Lemma unframe_framed m enc : Z.of_nat (List.length m) <= u32_max -> unframe gunzip config (framed m) enc = inr m.
Proof.
  intros Hm. unfold u32_max in Hm. unfold framed.
  pose proof (be_val_be_bytes 4 (Z.of_nat (List.length m))) as Hb.
  pose proof (length_be_bytes 4 (Z.of_nat (List.length m))) as Hl.
  destruct (be_bytes 4 _) as [|a [|b [|c [|d [|]]]]]; try done. cbn [app unframe].
  rewrite Z.mod_small in Hb by (simpl; lia). rewrite Hb, Z.ltb_irrefl, Nat2Z.id, firstn_all. done.
Qed.

(** Updates of the two windows: all that reading a body writes. *)
Definition updates (fs : list Frame) : Prop := Forall (fun f => f_kind f = kind.WINDOW_UPDATE) fs.

(** A piece of the body: it is kept, and credit may be returned. *)
Lemma piece_kept id b fl c st :
  streams c !! id = Some st -> Z.land fl flag.PADDED = 0 -> Z.land fl flag.PRIORITY = 0 -> too_large st = false ->
  Z.of_nat (List.length (s_body st) + List.length b) <= max_message_bytes config ->
  exists ups credit, updates ups /\
    handle (mkFrameHeader (Z.of_nat (List.length b)) kind.DATA fl id) b c
    = when (negb (Z.land fl flag.END_STREAM =? 0)) (finish_stream hpack_encode gunzip fresh clock sink config id)
        (mkConn (<[id := set_body (s_body st ++ b) st]> (streams c)) (decoder c) (encoder c) (written c ++ ups) credit (stats c) (offered c)).
Proof.
  intros Hs Hp Hq Ht Hl. unfold handle_frame, handle_data. cbn [kind_of kind.DATA flags stream_id length].
  rewrite strip_plain by done. cbn [lift_h2]. unfold mret, SE_ret. unfold mbind at 1, SE_bind at 1.
  unfold mbind at 1, SE_bind at 1, modify at 1. unfold mbind at 1, SE_bind at 1, gets at 1.
  set (c1 := set_credit _ c). assert (streams c1 !! id = Some st) as Hs1 by done.
  unfold mbind at 1, SE_bind at 1.
  assert (exists ups1 credit, updates ups1 /\ when (WINDOW / 2 <=? connection_credit_used c1)
      (_ ← emit (window_update 0 (connection_credit_used c1)); modify (set_credit 0)) c1
      = (inr tt : H2Error + unit, mkConn (streams c) (decoder c) (encoder c) (written c ++ ups1) credit (stats c) (offered c))) as (ups1 & credit & Hu1 & ->).
  { destruct (WINDOW / 2 <=? _).
    - by exists [window_update 0 (connection_credit_used c1)], 0; split; [constructor|].
    - exists [], (connection_credit_used c1). split; [constructor|]. cbn [when]. by rewrite app_nil_r. }
  unfold mbind at 1, SE_bind at 1, gets at 1. cbn [streams]. rewrite Hs.
  destruct (max_message_bytes config <? _) eqn:El; zbool; [lia|]. rewrite Ht.
  unfold mbind at 1, SE_bind at 1. unfold mbind at 1, SE_bind at 1, put_stream, modify at 1. cbn [set_streams streams decoder encoder written connection_credit_used stats offered].
  destruct (0 <? Z.of_nat (List.length b)); cbn [when].
  - exists (ups1 ++ [window_update id (Z.of_nat (List.length b))]), credit. split; [apply Forall_app; split; [done|by constructor]|].
    by rewrite app_assoc.
  - exists ups1, credit. by split.
Qed.

(** The pieces of the body, then the end of the stream. *)
Lemma pieces_kept id chunks : forall c st,
  chunks <> [] -> streams c !! id = Some st -> too_large st = false ->
  Z.of_nat (List.length (s_body st) + List.length (concat chunks)) <= max_message_bytes config ->
  exists ups credit, updates ups /\
    run (data_frames id chunks) c
    = finish_stream hpack_encode gunzip fresh clock sink config id
        (mkConn (<[id := set_body (s_body st ++ concat chunks) st]> (streams c)) (decoder c) (encoder c) (written c ++ ups) credit (stats c) (offered c)).
Proof.
  induction chunks as [|b rest IH]; intros c st Hne Hs Ht Hl; [done|]. cbn [concat] in Hl. rewrite length_app in Hl.
  destruct rest as [|b2 rest].
  - cbn [data_frames run fst snd]. 
    destruct (piece_kept id b flag.END_STREAM c st Hs eq_refl eq_refl Ht ltac:(lia)) as (ups & credit & Hu & Hrun).
    exists ups, credit. split; [done|]. unfold mbind, SE_bind. rewrite Hrun. cbn [when negb]. change (Z.land flag.END_STREAM flag.END_STREAM =? 0) with false.
    cbn [negb when concat]. rewrite app_nil_r. by destruct (finish_stream _ _ _ _ _ _ _ _) as [[e|[]] c'].
  - change (data_frames id (b :: b2 :: rest)) with ((mkFrameHeader (Z.of_nat (List.length b)) kind.DATA 0 id, b) :: data_frames id (b2 :: rest)).
    cbn [run fst snd].
    destruct (piece_kept id b 0 c st Hs eq_refl eq_refl Ht ltac:(lia)) as (ups & credit & Hu & Hrun).
    unfold mbind, SE_bind. rewrite Hrun. change (negb (Z.land 0 flag.END_STREAM =? 0)) with false. cbn [when]. unfold mret, SE_ret.
    set (c1 := mkConn _ _ _ _ _ _ _). set (st1 := set_body (s_body st ++ b) st).
    destruct (IH c1 st1) as (ups2 & credit2 & Hu2 & Hrun2).
    { done. }
    { apply lookup_insert_eq. }
    { done. }
    { cbn [st1 set_body s_body]. rewrite length_app. lia. }
    exists (ups ++ ups2), credit2. split; [by apply Forall_app|]. rewrite Hrun2. f_equal.
    cbn [c1 st1 set_body s_body streams decoder encoder written stats offered path content_type grpc_encoding header_fragment headers_done too_large].
    rewrite insert_insert_eq. unfold set_body. cbn [path content_type grpc_encoding header_fragment headers_done too_large].
    by rewrite <- !app_assoc.
Qed.

(** What the client reads: the message of an empty response and an OK status,
    or a status to retry on. *)
Definition header_frame (id : Z) (block : bytes) (last : bool) : Frame :=
  mkFrame kind.HEADERS (if last then Z.lor flag.END_HEADERS flag.END_STREAM else flag.END_HEADERS) id block.
Definition response (id : Z) (e : E) (a : Accepted) : list Frame :=
  match a with
  | All =>
      let (head, e) := hpack_encode e grpc_ok_headers in
      [header_frame id head false; mkFrame kind.DATA 0 id (repeat Byte.x00 5);
       header_frame id (fst (hpack_encode e [("grpc-status", "0")])) true]
  | Rejected =>
      [header_frame id (fst (hpack_encode e (grpc_ok_headers ++ [("grpc-status", "14"); ("grpc-message", "pipeline full, retry")]))) true]
  end.

Lemma answer_served id st (c : conn) req :
  too_large st = false -> starts_with "application/grpc" (content_type st) = true -> path st = EXPORT_PATH ->
  s_body st = framed (enc_request req) -> request_ok req = true ->
  Z.of_nat (List.length (enc_request req)) <= u32_max ->
  let batch := imap (fun i mk => mk (fresh (requests (stats c)) i)) (request_records (clock (requests (stats c))) req) in
  exists c', answer hpack_encode gunzip fresh clock sink config id st c = (inr tt, c') /\
    offered c' = offered c ++ [batch] /\ streams c' = streams c /\ decoder c' = decoder c /\
    written c' = written c ++ response id (encoder c) (sink (offered c) batch).
Proof.
  intros Ht Hct Hp Hb Hok Hlen batch. unfold answer. rewrite Ht, Hct, Hp, Hb, String.eqb_refl. cbn [negb].
  rewrite unframe_framed by done. unfold mbind at 1, SE_bind at 1, gets at 1.
  rewrite decode_enc by (done || unfold u32_max, u64_max in *; lia).
  cbn [records dropped_upstream]. fold batch.
  unfold mbind at 1, SE_bind at 1, count at 1, modify at 1. unfold mbind at 1, SE_bind at 1, gets at 1.
  unfold mbind at 1, SE_bind at 1, modify at 1. cbn [on_stats offered].
  unfold response. destruct (sink (offered c) batch).
  - unfold count, write_headers, emit, mbind, SE_bind, gets, modify. cbn [on_stats offer encoder].
    destruct (hpack_encode (encoder c) grpc_ok_headers) as [head e1]. cbn [set_encoder write encoder].
    change (show_Z status.OK) with "0". destruct (hpack_encode e1 [("grpc-status", "0")]) as [tail e2].
    eexists. split; [reflexivity|]. cbn. do 3 (split; [done|]). by rewrite <- !app_assoc.
  - unfold count, trailers_only, write_headers, emit, mbind, SE_bind, gets, modify. cbn [on_stats offer encoder].
    change (show_Z status.UNAVAILABLE) with "14". change (percent_encode "pipeline full, retry") with "pipeline full, retry".
    destruct (hpack_encode (encoder c) _) as [head e1].
    eexists. split; [reflexivity|]. cbn. done.
Qed.

Lemma headers_read sid block (c : conn) hdrs d' :
  sid <> 0 -> streams c !! sid = None -> Z.of_nat (size (streams c)) < MAX_CONCURRENT_STREAMS ->
  hpack_decode (decoder c) block = (inr hdrs, d') ->
  handle (mkFrameHeader (Z.of_nat (List.length block)) kind.HEADERS flag.END_HEADERS sid) block c
  = (inr tt, mkConn (<[sid := foldl keep_header (set_done stream_default) hdrs]> (streams c)) d' (encoder c) (written c)
       (connection_credit_used c) (stats c) (offered c)).
Proof.
  intros Hid Hs Hroom Hd. unfold handle_frame, handle_headers. cbn [kind_of kind.HEADERS flags stream_id length].
  rewrite (proj2 (Z.eqb_neq sid 0)) by done. unfold mbind at 1, SE_bind at 1, gets at 1.
  destruct (MAX_CONCURRENT_STREAMS <=? _) eqn:El; zbool; [lia|]. rewrite andb_false_r.
  rewrite strip_plain by done. cbn [lift_h2]. unfold mret, SE_ret. unfold mbind at 1, SE_bind at 1.
  unfold mbind at 1, SE_bind at 1, gets at 1. rewrite Hs. cbn [default]. unfold id. cbv zeta.
  unfold mbind at 1, SE_bind at 1, put_stream at 1, modify at 1.
  unfold mbind at 1, SE_bind at 1. change (has _ flag.END_HEADERS) with true. cbn [when].
  unfold mbind at 1, SE_bind at 1, gets at 1. cbn [set_streams decoder set_fragment header_fragment stream_default app].
  rewrite Hd. unfold mbind at 1, SE_bind at 1, modify at 1, put_stream, modify at 1. change (has _ flag.END_STREAM) with false. cbn [when].
  unfold mret, SE_ret. cbn [set_streams set_decoder streams decoder encoder written connection_credit_used stats offered].
  by rewrite insert_insert_eq.
Qed.
End Facts.

(** ** Properties *)

(** C36: the connection's credit never runs out: after any frames that were
    handled, what the client may still send is more than the first window and
    half of ours, and at most the first window and ours, however much it sent;
    and of each stream no more is held than a message may have, and every request
    was counted under exactly one answer, even when a frame ended the connection. *)
Theorem connection_is_sustained {D E : Type}
    (hpack_decode : D -> bytes -> (string + list (bytes * bytes)) * D) (hpack_encode : E -> list (string * string) -> bytes * E)
    (set_max : Z -> E -> E) (gunzip : Z -> bytes -> string + bytes) (fresh : Z -> nat -> bytes) (clock : Z -> Z)
    (sink : list (list LogRecord) -> list LogRecord -> Accepted) (config : GrpcConfig) (d : D) (e : E) (s : ReceiverStats)
    (o : list (list LogRecord)) (fs : list (FrameHeader * bytes))
    (Hmax : 0 <= max_message_bytes config) (Hs : accounts_for_everything s = true) (Hfs : Forall frame_ok fs) :
  let '(r, c) := run hpack_decode hpack_encode set_max gunzip fresh clock sink config fs (conn_new d e s o) in
  accounts_for_everything (stats c) = true /\
  (forall id st, streams c !! id = Some st -> Z.of_nat (List.length (s_body st)) <= max_message_bytes config) /\
  (r = inr tt ->
     let window := INITIAL_CONNECTION_WINDOW + granted (written c) - data_bytes fs in
     INITIAL_CONNECTION_WINDOW + WINDOW / 2 < window <= INITIAL_CONNECTION_WINDOW + WINDOW).
Proof.
  pose proof (run_inv hpack_decode hpack_encode set_max gunzip fresh clock sink config Hmax fs 0 Hfs _ (conn_new_inv config d e s o Hs)) as H.
  destruct (run _ _ _ _ _ _ _ _ fs _) as [[err|[]] c].
  - destruct H as [n [H1 H2 H3 H4]]. split; [done|]. split; [|done]. intros id st Hst. by apply (H3 id st).
  - destruct H as [H1 H2 H3 H4]. split; [done|]. split; [intros id st Hst; by apply (H3 id st)|].
    intros _. cbv zeta. change (WINDOW / 2) with 4194304 in *. change WINDOW with 8388608 in *. lia.
Qed.

(** C35: a call is served: its headers, and the gRPC-framed request in any pieces
    within the limits, on any open connection with room for it, are offered to
    the sink as the records the request encodes, once; the answer is OK when the
    sink took them all and a status to retry on when it did not, preceded by
    nothing but credit; and the stream is forgotten. *)
Theorem call_is_served {D E : Type}
    (hpack_decode : D -> bytes -> (string + list (bytes * bytes)) * D) (hpack_encode : E -> list (string * string) -> bytes * E)
    (set_max : Z -> E -> E) (gunzip : Z -> bytes -> string + bytes) (fresh : Z -> nat -> bytes) (clock : Z -> Z)
    (sink : list (list LogRecord) -> list LogRecord -> Accepted) (config : GrpcConfig) (c : Conn) (id : Z)
    (block : bytes) (hdrs : list (bytes * bytes)) (d' : D) (chunks : list bytes) (req : list PResource)
    (Hid : id <> 0) (Hnew : streams c !! id = None) (Hroom : Z.of_nat (size (streams c)) < MAX_CONCURRENT_STREAMS)
    (Hblock : hpack_decode (decoder c) block = (inr hdrs, d'))
    (Hpath : path (foldl keep_header (set_done stream_default) hdrs) = EXPORT_PATH)
    (Htype : starts_with "application/grpc" (content_type (foldl keep_header (set_done stream_default) hdrs)) = true)
    (Hchunks : chunks <> []) (Hbody : concat chunks = framed (enc_request req))
    (Hok : request_ok req = true) (Hlen : Z.of_nat (List.length (enc_request req)) <= u32_max)
    (Hmax : Z.of_nat (List.length (framed (enc_request req))) <= max_message_bytes config) :
  let n := wadd64 (requests (stats c)) 1 in
  let batch := imap (fun i mk => mk (fresh n i)) (request_records (clock n) req) in
  exists c' ups,
    run hpack_decode hpack_encode set_max gunzip fresh clock sink config (call_frames id block chunks) c = (inr tt, c') /\
    offered c' = offered c ++ [batch] /\ streams c' = streams c /\ decoder c' = d' /\
    updates ups /\ written c' = written c ++ ups ++ response hpack_encode id (encoder c) (sink (offered c) batch).
Proof.
  intros n batch. unfold call_frames. cbn [run fst snd]. unfold mbind at 1, SE_bind at 1.
  rewrite (headers_read _ _ _ _ _ _ _ _ id block c hdrs d') by done.
  set (st := foldl keep_header (set_done stream_default) hdrs). set (c1 := mkConn _ d' _ _ _ _ _).
  assert (s_body st = []) as Hb by (unfold st; by rewrite keep_header_body).
  assert (too_large st = false /\ headers_done st = true) as [Hlarge Hdone].
  { unfold st. clear. generalize (set_done stream_default) (eq_refl : too_large (set_done stream_default) = false) (eq_refl : headers_done (set_done stream_default) = true).
    induction hdrs as [|h hdrs IH]; intros st H1 H2; [done|]. cbn [foldl]. apply IH; unfold keep_header; by repeat case_match. }
  destruct (pieces_kept hpack_decode hpack_encode set_max gunzip fresh clock sink config id chunks c1 st) as (ups & credit & Hu & ->).
  { done. } { apply lookup_insert_eq. } { done. } { rewrite Hb, Hbody. cbn [List.length] in *. lia. }
  set (st2 := set_body _ st). set (c2 := mkConn _ _ _ _ _ _ _).
  unfold finish_stream. unfold mbind at 1, SE_bind at 1, gets at 1.
  assert (streams c2 !! id = Some st2) as -> by apply lookup_insert_eq.
  unfold mbind at 1, SE_bind at 1, modify at 1. cbn [set_body headers_done st2]. rewrite Hdone. cbn [negb].
  unfold mbind at 1, SE_bind at 1, count, modify at 1.
  set (c3 := on_stats _ _).
  destruct (answer_served hpack_encode gunzip fresh clock sink config id st2 c3 req) as (c' & Ha & Ho & Hs & Hdec & Hw); try done.
  { cbn [st2 set_body s_body]. by rewrite Hb, Hbody. }
  exists c', ups. split; [exact Ha|]. split; [exact Ho|].
  split; [rewrite Hs; cbn [c3 c2 c1 on_stats set_streams streams]; rewrite insert_insert_eq; by apply delete_insert_id|].
  split; [by rewrite Hdec|]. split; [done|]. rewrite Hw. cbn [c3 c2 c1 on_stats set_streams written encoder offered]. by rewrite <- app_assoc.
Qed.

(** ** A concrete connection

    A decoder with a table: [1] and a text is a header of that path, which the
    table keeps; [2] is the header kept last, and the type; [3] is the type. *)
Definition grpc_type : bytes * bytes := (list_byte_of_string "content-type", list_byte_of_string "application/grpc").
Definition toy_decode (d : bytes) (block : bytes) : (string + list (bytes * bytes)) * bytes :=
  match block with
  | Byte.x01 :: text => (inr [(list_byte_of_string ":path", text); grpc_type], text)
  | [Byte.x02] => (inr [(list_byte_of_string ":path", d); grpc_type], d)
  | _ => (inl "bad block", d)
  end.
Definition toy_encode (e : nat) (hs : list (string * string)) : bytes * nat := ([Byte.x03], S e).
Definition toy_config : GrpcConfig := mkGrpcConfig true "127.0.0.1:4317" 64 65536 65536.
Definition toy_sink (before : list (list LogRecord)) (batch : list LogRecord) : Accepted :=
  if (List.length before <? 2)%nat then All else Rejected.
Definition toy_run (fs : list (FrameHeader * bytes)) : Conn -> (H2Error + unit) * Conn :=
  run toy_decode toy_encode (fun _ e => e) (fun _ _ => inl "") (fun n i => [to_byte n; to_byte (Z.of_nat i)]) (fun _ => 7) toy_sink toy_config fs.
Definition export_block : bytes := Byte.x01 :: list_byte_of_string EXPORT_PATH.
Definition toy_conn : Conn := conn_new ([] : bytes) 0%nat stats_new [].

Theorem call_is_served_witness :
  exists c' ups,
    toy_run (call_frames 1 export_block [firstn 9 (framed (enc_request sample_request)); []; skipn 9 (framed (enc_request sample_request))]) toy_conn = (inr tt, c') /\
    offered c' = [] ++ [imap (fun i mk => mk ([to_byte 1; to_byte (Z.of_nat i)])) (request_records 7 sample_request)] /\ streams c' = ∅ /\
    decoder c' = list_byte_of_string EXPORT_PATH /\
    updates ups /\ written c' = greeting ++ ups ++ response toy_encode 1 0%nat All.
Proof.
  apply (call_is_served toy_decode toy_encode (fun _ e => e) (fun _ _ => inl "") (fun n i => [to_byte n; to_byte (Z.of_nat i)])
    (fun _ => 7) toy_sink toy_config toy_conn 1 export_block [(list_byte_of_string ":path", list_byte_of_string EXPORT_PATH); grpc_type]).
  - done.
  - reflexivity.
  - vm_compute. reflexivity.
  - reflexivity.
  - vm_compute. reflexivity.
  - vm_compute. reflexivity.
  - done.
  - cbn [concat]. rewrite app_nil_r. apply firstn_skipn.
  - vm_compute. reflexivity.
  - apply Z.leb_le. vm_compute. reflexivity.
  - apply Z.leb_le. vm_compute. reflexivity.
Defined.

Theorem connection_is_sustained_witness :
  let '(r, c) := toy_run (call_frames 1 export_block [framed (enc_request sample_request)]) toy_conn in
  accounts_for_everything (stats c) = true /\
  (forall id st, streams c !! id = Some st -> Z.of_nat (List.length (s_body st)) <= 65536) /\
  (r = inr tt ->
     let window := INITIAL_CONNECTION_WINDOW + granted (written c) - data_bytes (call_frames 1 export_block [framed (enc_request sample_request)]) in
     INITIAL_CONNECTION_WINDOW + WINDOW / 2 < window <= INITIAL_CONNECTION_WINDOW + WINDOW).
Proof.
  apply (connection_is_sustained toy_decode toy_encode _ _ _ _ _ toy_config); [done|done|].
  repeat constructor; apply Z.leb_le; vm_compute; reflexivity.
Defined.

(** The calls of [n] clients that sent their headers, each of which keeps the
    path of its own; then one stream over the limit, whose block is the first to
    name the export; then a call, on a stream that is free again, that refers to it. *)
Definition headers_of (id : Z) (block : bytes) : FrameHeader * bytes :=
  (mkFrameHeader (Z.of_nat (List.length block)) kind.HEADERS flag.END_HEADERS id, block).
Definition crowd (n : nat) : list (FrameHeader * bytes) :=
  List.map (fun i => headers_of (2 * Z.of_nat i + 1) [Byte.x01; Byte.x2f]) (seq 0 n).
Definition reset (id : Z) : FrameHeader * bytes := (mkFrameHeader 4 kind.RST_STREAM 0 id, be_bytes 4 8).

(** Finding: a stream that is refused for the limit is refused before its
    block of headers is decoded; the table of the decoder, which is the state of
    the connection, then lacks what the block put there, and a later call that
    refers to it is taken for another: it is answered as not implemented instead
    of served. *)
Theorem refused_stream_desynchronises :
  let late := [headers_of 1001 export_block; reset 1] ++ call_frames 1003 [Byte.x02] [framed (enc_request sample_request)] in
  let served n := let '(r, c) := toy_run (crowd n ++ late) toy_conn in
                  (match r with inr _ => true | inl _ => false end, List.length (offered c), bad_request (stats c)) in
  served 127%nat = (true, 1%nat, 0) /\ served 128%nat = (true, 0%nat, 1).
Proof. split; vm_compute; reflexivity. Qed.

(** Finding: the limit on streams is asked of HEADERS frames only: streams
    that are opened by CONTINUATION frames are held without a bound. *)
Theorem continuation_escapes_the_limit :
  let open_by k := List.map (fun i => (mkFrameHeader 1 k 0 (2 * Z.of_nat i + 1), [Byte.x00])) (seq 0 300) in
  let held k := size (streams (snd (toy_run (open_by k) toy_conn))) in
  held kind.HEADERS = 128%nat /\ held kind.CONTINUATION = 300%nat.
Proof. split; vm_compute; reflexivity. Qed.
