(* ===== verification/Policy.v ===== *)
(** The runtime policy ([crates/logless-core/src/policy.rs]): the document an
    operator tunes, its validation, the difference of two documents, the keys by
    which one overrides the configuration file, and the overlay of those keys on
    a later file.  Documents go through [serde_json] values, whose objects are
    sorted by key. *)

From stdpp Require Import sorting.
From S2P Require Import Prelude Text Float Model Lists Partition Tenancy Budget Json.
Open Scope string_scope.
Open Scope Z_scope.
Open Scope list_scope.

Definition MAX_SEVERITY : Z := 24.
Definition MAX_RETENTION_SECS : Z := 100 * 365 * 24 * 3600.
Definition MAX_QUEUE_CAPACITY : Z := 1048576.
Definition MAX_CRITICAL_TIMEOUT_MS : Z := 60000.
Definition MIN_SAFE_QUEUE_CAPACITY : Z := 1024.

Record RetentionRule := mkRule { rr_name : string; rr_min_severity : Z; rr_secs : Z }.
Record StoragePolicy := mkStorage { disk_budget_bytes : Z; high_water : f64; critical_water : f64; reclaim_water : f64 }.
Record IngestPolicy := mkIngest { critical_enqueue_timeout_ms : Z; queue_capacity : Z }.
Record PushdownPolicy := mkPushdown { pushdown_enabled : bool; trigger_severity : Z }.
Record Policies := mkPolicies {
  p_retention : list RetentionRule;
  p_storage : StoragePolicy;
  p_ingest : IngestPolicy;
  p_pushdown : PushdownPolicy
}.

#[export] Instance RetentionRule_eq_dec : EqDecision RetentionRule.
Proof. solve_decision. Defined.
#[export] Instance StoragePolicy_eq_dec : EqDecision StoragePolicy.
Proof. solve_decision. Defined.
#[export] Instance IngestPolicy_eq_dec : EqDecision IngestPolicy.
Proof. solve_decision. Defined.
#[export] Instance PushdownPolicy_eq_dec : EqDecision PushdownPolicy.
Proof. solve_decision. Defined.
#[export] Instance Policies_eq_dec : EqDecision Policies.
Proof. solve_decision. Defined.

Record Problem := mkProblem { pr_path : string; pr_message : string }.

Inductive Apply := Hot | Restart.
Definition apply_mode (path : string) : Apply :=
  if String.eqb path "ingest.queue_capacity" then Restart else Hot.

Record DiffEntry := mkDiff { de_path : string; de_from : Json; de_to : Json; de_apply : Apply }.

Definition cat (l : list string) : string := foldr String.append "" l.

(** ** To and from the configuration

    The fields of [Config] a policy reads and writes; the buckets are those of
    the default index.  A [Duration] is its nanoseconds. *)

Record Config := mkConfig {
  c_buckets : LevelBuckets;
  c_disk_budget_bytes : Z;
  c_high_water : f64;
  c_critical_water : f64;
  c_reclaim_target : f64;
  c_critical_enqueue_timeout : Z;
  c_queue_capacity : Z;
  c_pushdown_enabled : bool;
  c_trigger_severity : Z
}.

Definition from_config (c : Config) : Policies :=
  mkPolicies
    (List.map (fun b => mkRule (lb_name b) (lb_min_severity b) (as_secs (lb_retention b))) (c_buckets c))
    (mkStorage (c_disk_budget_bytes c) (c_high_water c) (c_critical_water c) (c_reclaim_target c))
    (mkIngest (c_critical_enqueue_timeout c / 1000000) (c_queue_capacity c))
    (mkPushdown (c_pushdown_enabled c) (c_trigger_severity c)).

Definition bucket_of (r : RetentionRule) : LevelBucket :=
  mkLevelBucket (rr_name r) (Z.min (rr_min_severity r) 255) (rr_secs r * 1000000000).

Definition policy_buckets (p : Policies) : ConfigError + LevelBuckets :=
  level_buckets_new (List.map bucket_of (p_retention p)).

Definition apply_to_config (p : Policies) (base : Config) : ConfigError + Config :=
  match policy_buckets p with
  | inl e => inl e
  | inr b =>
      inr (mkConfig b (disk_budget_bytes (p_storage p)) (high_water (p_storage p)) (critical_water (p_storage p))
             (reclaim_water (p_storage p)) (critical_enqueue_timeout_ms (p_ingest p) * 1000000) (queue_capacity (p_ingest p))
             (pushdown_enabled (p_pushdown p)) (wrap8 (trigger_severity (p_pushdown p))))
  end.

Definition watermarks (p : Policies) : Watermarks :=
  mkWatermarks (high_water (p_storage p)) (critical_water (p_storage p)) (reclaim_water (p_storage p)).

(** ** Validation *)

(** [{:?}] of a name: quotes, backslashes and control characters escaped. *)
Definition hex_digits (n : Z) : string :=
  let d x := String (ascii_of_N (Z.to_N (if x <? 10 then 48 + x else 87 + x))) "" in
  if n <? 16 then d n else String.append (d (n / 16)) (d (n mod 16)).
Fixpoint debug_chars (s : string) : string :=
  match s with
  | EmptyString => ""
  | String c r =>
      let n := chr c in
      let e := if n =? 34 then String "\" (String c "")
               else if n =? 92 then "\\"
               else if n =? 0 then "\0"
               else if n =? 9 then "\t"
               else if n =? 10 then "\n"
               else if n =? 13 then "\r"
               else if (n <? 32) || (n =? 127) then cat ["\u{"; hex_digits n; "}"]
               else String c "" in
      String.append e (debug_chars r)
  end.
Definition quote : string := String (ascii_of_nat 34) "".
Definition debug_str (s : string) : string := cat [quote; debug_chars s; quote].

Definition same_name (a b : string) : bool := String.eqb (str_lower a) (str_lower b).
Definition at_rule (i : nat) (field : string) : string := cat ["retention["; show_Z (Z.of_nat i); "]."; field].

(** What is wrong with the rule at [i], after [before]. *)
Definition rule_problems (before : list RetentionRule) (i : nat) (r : RetentionRule) : list Problem :=
  match bucket_name_problem (rr_name r) with
  | Some why => [mkProblem (at_rule i "name") (cat [why; "; name "; debug_str (rr_name r); " cannot be used"])]
  | None => []
  end
  ++ (if MAX_SEVERITY <? rr_min_severity r
      then [mkProblem (at_rule i "min_severity") (cat ["must be 0 to "; show_Z MAX_SEVERITY])] else [])
  ++ (if (rr_secs r =? 0) || (MAX_RETENTION_SECS <? rr_secs r)
      then [mkProblem (at_rule i "retention_secs")
              (cat ["must be between 1 and "; show_Z MAX_RETENTION_SECS; " seconds; to stop keeping a level, remove the bucket instead"])] else [])
  ++ match last before with
     | None =>
         if negb (rr_min_severity r =? 0)
         then [mkProblem (at_rule i "min_severity") "the first bucket must start at severity 0 so every record has a bucket"] else []
     | Some prev =>
         if rr_min_severity r <=? rr_min_severity prev
         then [mkProblem (at_rule i "min_severity")
                 (cat ["must be greater than retention["; show_Z (Z.of_nat i - 1); "].min_severity; list buckets in ascending severity order"])] else []
     end
  ++ match Tenancy.position (fun p => same_name (rr_name p) (rr_name r)) before with
     | Some j =>
         [mkProblem (at_rule i "name")
            (cat ["duplicates retention["; show_Z (Z.of_nat j); "].name (names are compared ignoring case: they are directories, and INFO and info are one directory on macOS and Windows)"])]
     | None => []
     end.

Fixpoint rules_problems (before rules : list RetentionRule) : list Problem :=
  match rules with
  | [] => []
  | r :: rest => rule_problems before (List.length before) r ++ rules_problems (before ++ [r]) rest
  end.

(** The text of a [ConfigError]. *)
Definition show_error (e : ConfigError) : string :=
  match e with
  | NoBuckets => "retention must define at least one level bucket"
  | UncoveredSeverity s => cat ["severity "; show_Z s; " is not covered by any level bucket; the lowest bucket must start at 0"]
  | DuplicateMinSeverity s => cat ["two level buckets share min_severity "; show_Z s]
  | DuplicateBucketName => "two level buckets share a name"
  | BadBucketName n =>
      cat ["level bucket name "; debug_str n; " is not a safe directory name (1 to 64 ASCII letters, digits, _ - +; no Windows device names)"]
  | ZeroRetention n => cat ["level bucket "; debug_str n; " has zero retention; remove the bucket instead"]
  | NoTenants => "configure at least one [[tenants]] entry, or none at all for the single tenant `default`"
  | NoIndexes t => cat ["tenant "; debug_str t; " has no indexes; give it at least one [[tenants.indexes]]"]
  | BadIdent what value =>
      cat [what; " "; debug_str value; " is not usable: 1 to 64 of A-Za-z0-9._-, not starting with a dot, with at least one letter (it is a directory name, and a number-only name is read back as a number)"]
  | DuplicateIdent what value => cat [what; " "; debug_str value; " is used twice (names are compared ignoring case: they are directories)"]
  end.

Definition validate_retention (p : Policies) : list Problem :=
  match p_retention p with
  | [] => [mkProblem "retention" "define at least one bucket"]
  | rules =>
      match rules_problems [] rules with
      | [] =>
          match policy_buckets p with
          | inl e => [mkProblem "retention" (show_error e)]
          | inr _ => []
          end
      | problems => problems
      end
  end.

Definition validate_storage (p : Policies) : list Problem :=
  let s := p_storage p in
  (if disk_budget_bytes s =? 0 then [mkProblem "storage.disk_budget_bytes" "must be greater than 0"] else [])
  ++ (if negb (f64_finite (reclaim_water s) && f64_gt (reclaim_water s) f64_zero)
      then [mkProblem "storage.reclaim_target" "must be greater than 0"]
      else if f64_ge (reclaim_water s) (high_water s)
      then [mkProblem "storage.reclaim_target" "must be below high_water, or reclaim would re-trigger on every pass"] else [])
  ++ (if negb (f64_finite (high_water s) && f64_lt (high_water s) (critical_water s))
      then [mkProblem "storage.high_water" "must be below critical_water"] else [])
  ++ (if negb (f64_finite (critical_water s) && f64_le (critical_water s) (f64_of_Z 1))
      then [mkProblem "storage.critical_water" "must be at most 1"] else []).

Definition validate (p : Policies) : list Problem :=
  validate_retention p ++ validate_storage p
  ++ (if (queue_capacity (p_ingest p) =? 0) || (MAX_QUEUE_CAPACITY <? queue_capacity (p_ingest p))
      then [mkProblem "ingest.queue_capacity" (cat ["must be between 1 and "; show_Z MAX_QUEUE_CAPACITY; " records"])] else [])
  ++ (if MAX_CRITICAL_TIMEOUT_MS <? critical_enqueue_timeout_ms (p_ingest p)
      then [mkProblem "ingest.critical_enqueue_timeout_ms"
              (cat ["at most "; show_Z MAX_CRITICAL_TIMEOUT_MS; " ms: the wait is bounded so a stalled disk cannot stall the application"])] else [])
  ++ (if MAX_SEVERITY <? trigger_severity (p_pushdown p)
      then [mkProblem "pushdown.trigger_severity" (cat ["must be 0 to "; show_Z MAX_SEVERITY])] else []).

(** ** The document as a value *)

Definition num (f : f64) : Json := if f64_finite f then JFloat f else JNull.

Definition rule_value (r : RetentionRule) : Json :=
  JObj [("min_severity", JInt (rr_min_severity r)); ("name", JStr (rr_name r)); ("retention_secs", JInt (rr_secs r))].

Definition to_value (p : Policies) : Json :=
  JObj [("ingest", JObj [("critical_enqueue_timeout_ms", JInt (critical_enqueue_timeout_ms (p_ingest p)));
                         ("queue_capacity", JInt (queue_capacity (p_ingest p)))]);
        ("pushdown", JObj [("enabled", JBool (pushdown_enabled (p_pushdown p)));
                           ("trigger_severity", JInt (trigger_severity (p_pushdown p)))]);
        ("retention", JArr (List.map rule_value (p_retention p)));
        ("storage", JObj [("critical_water", num (critical_water (p_storage p)));
                          ("disk_budget_bytes", JInt (disk_budget_bytes (p_storage p)));
                          ("high_water", num (high_water (p_storage p)));
                          ("reclaim_target", num (reclaim_water (p_storage p)))])].

(** [serde_json::from_value], with [deny_unknown_fields]. *)
Definition only (known : list string) (fields : list (string * Json)) : bool :=
  forallb (fun kv => in_words (fst kv) known) fields.
Definition strict (known : list string) (j : Json) : option (list (string * Json)) :=
  opt_filter (only known) (as_object j).
Definition need {A} (read : Json -> option A) (name : string) (fields : list (string * Json)) : option A :=
  field name fields ≫= read.
Definition as_bool (j : Json) : option bool := match j with JBool b => Some b | _ => None end.

Definition rule_of (j : Json) : option RetentionRule :=
  fields ← strict ["name"; "min_severity"; "retention_secs"] j;
  n ← need as_str "name" fields; m ← need as_u64 "min_severity" fields; s ← need as_u64 "retention_secs" fields;
  Some (mkRule n m s).
Fixpoint rules_of (l : list Json) : option (list RetentionRule) :=
  match l with
  | [] => Some []
  | j :: rest => r ← rule_of j; rs ← rules_of rest; Some (r :: rs)
  end.
Definition storage_of (j : Json) : option StoragePolicy :=
  fields ← strict ["disk_budget_bytes"; "high_water"; "critical_water"; "reclaim_target"] j;
  b ← need as_u64 "disk_budget_bytes" fields; h ← need as_f64 "high_water" fields;
  c ← need as_f64 "critical_water" fields; r ← need as_f64 "reclaim_target" fields;
  Some (mkStorage b h c r).
Definition ingest_of (j : Json) : option IngestPolicy :=
  fields ← strict ["critical_enqueue_timeout_ms"; "queue_capacity"] j;
  t ← need as_u64 "critical_enqueue_timeout_ms" fields; q ← need as_u64 "queue_capacity" fields;
  Some (mkIngest t q).
Definition pushdown_of (j : Json) : option PushdownPolicy :=
  fields ← strict ["enabled"; "trigger_severity"] j;
  e ← need as_bool "enabled" fields; t ← need as_u64 "trigger_severity" fields;
  Some (mkPushdown e t).
Definition policies_of (j : Json) : option Policies :=
  fields ← strict ["retention"; "storage"; "ingest"; "pushdown"] j;
  r ← need (fun j => as_array j ≫= rules_of) "retention" fields; s ← need storage_of "storage" fields;
  i ← need ingest_of "ingest" fields; d ← need pushdown_of "pushdown" fields;
  Some (mkPolicies r s i d).

(** ** Leaves *)

Fixpoint flatten (prefix : string) (v : Json) : list (string * Json) :=
  match v with
  | JObj fields =>
      concat (List.map (fun kv => flatten (if String.eqb prefix "" then fst kv else cat [prefix; "."; fst kv]) (snd kv)) fields)
  | JArr items =>
      (fix go (i : Z) (l : list Json) : list (string * Json) :=
         match l with
         | [] => []
         | child :: rest => flatten (cat [prefix; "["; show_Z i; "]"]) child ++ go (i + 1) rest
         end) 0 items
  | other => [(prefix, other)]
  end.

Definition leaves (p : Policies) : list (string * Json) := flatten "" (to_value p).

(** A [BTreeMap]: sorted by key. *)
Definition by_key {A} (a b : string * A) : bool := String.leb (fst a) (fst b).
Definition leaf_map (p : Policies) : list (string * Json) := stable_sort by_key (leaves p).
Definition leaf (path : string) (m : list (string * Json)) : option Json := field path m.

Definition apply_modes (p : Policies) : list (string * Apply) := List.map (fun kv => (fst kv, apply_mode (fst kv))) (leaf_map p).

(** Equality of [Value]s that are leaves: floats as floats. *)
Definition leaf_eqb (a b : Json) : bool :=
  match a, b with
  | JNull, JNull => true
  | JBool x, JBool y => Bool.eqb x y
  | JInt x, JInt y => x =? y
  | JFloat x, JFloat y => f64_eq x y
  | JStr x, JStr y => String.eqb x y
  | _, _ => false
  end.
Definition opt_eqb (a b : option Json) : bool :=
  match a, b with Some x, Some y => leaf_eqb x y | None, None => true | _, _ => false end.

(** ** The difference of two documents *)

Definition natural_key (s : string) : list (string * Z) :=
  List.map (fun p => match parse_uint u64_max p with Some n => ("", n) | None => (p, 0) end)
    (List.filter Json.non_empty (split_on (one_of ".[]") s)).
Definition part_compare (a b : string * Z) : comparison :=
  match String.compare (fst a) (fst b) with Eq => Z.compare (snd a) (snd b) | c => c end.
Fixpoint parts_compare (a b : list (string * Z)) : comparison :=
  match a, b with
  | [], [] => Eq
  | [], _ => Lt
  | _, [] => Gt
  | x :: a, y :: b => match part_compare x y with Eq => parts_compare a b | c => c end
  end.
Definition natural_le (a b : string) : bool :=
  match parts_compare (natural_key a) (natural_key b) with Gt => false | _ => true end.

Definition diff (old new : Policies) : list DiffEntry :=
  let a := leaf_map old in
  let b := leaf_map new in
  let paths := dedup String.eqb (stable_sort natural_le (List.map fst a ++ List.map fst b)) in
  omap (fun p =>
    let from := default JNull (leaf p a) in
    let to := default JNull (leaf p b) in
    if leaf_eqb from to then None else Some (mkDiff p from to (apply_mode p))) paths.

(** ** Overrides of the configuration file *)

Definition same_bucket_structure (a b : Policies) : bool :=
  (List.length (p_retention a) =? List.length (p_retention b))%nat
  && forallb (fun xy => String.eqb (rr_name (fst xy)) (rr_name (snd xy)) && (rr_min_severity (fst xy) =? rr_min_severity (snd xy)))
       (combine (p_retention a) (p_retention b)).

Fixpoint changed_secs (i : nat) (f d : list RetentionRule) : list string :=
  match f, d with
  | x :: f, y :: d => (if rr_secs x =? rr_secs y then [] else [at_rule i "retention_secs"]) ++ changed_secs (S i) f d
  | _, _ => []
  end.

Definition overrides_between (file doc : Policies) : list string :=
  (if same_bucket_structure file doc then changed_secs 0 (p_retention file) (p_retention doc) else ["retention"])
  ++ omap (fun kv =>
       if negb (starts_with "retention[" (fst kv)) && negb (opt_eqb (leaf (fst kv) (leaf_map file)) (Some (snd kv)))
       then Some (fst kv) else None) (leaf_map doc).

Definition parse_retention_key (key : string) : option (nat * string) :=
  rest ← strip_prefix "retention[" key;
  '(idx, name) ← split_once_str "]." rest;
  i ← parse_uint u64_max idx;
  Some (Z.to_nat i, name).

(** [v[name] = value] of an object. *)
Fixpoint set_field (name : string) (value : Json) (fields : list (string * Json)) : list (string * Json) :=
  match fields with
  | [] => [(name, value)]
  | kv :: rest => if String.eqb (fst kv) name then (name, value) :: rest else kv :: set_field name value rest
  end.
Definition set_key (name : string) (value v : Json) : Json :=
  match v with JObj fields => JObj (set_field name value fields) | _ => v end.

Definition item (i : nat) (v : Json) : option Json := as_array v ≫= (fun l => nth_error l i).
Definition set_item (i : nat) (value v : Json) : Json :=
  match v with JArr l => JArr (<[i := value]> l) | _ => v end.

(** One override laid on the file's value [v]. *)
Definition overlay_key (file stored : Policies) (s v : Json) (key : string) : string + Json :=
  match parse_retention_key key with
  | Some (i, name) =>
      let file_has := match nth_error (p_retention stored) i, nth_error (p_retention file) i with
                      | Some r, Some f => String.eqb (rr_name f) (rr_name r)
                      | _, _ => false
                      end in
      if negb file_has then inr v
      else
        match get "retention" s ≫= item i, get "retention" v ≫= item i with
        | Some from, Some to =>
            match get name from with
            | None => inl (cat ["override "; debug_str key; " is not part of the policy document"])
            | Some value =>
                inr (set_key "retention" (set_item i (set_key name value to) (default JNull (get "retention" v))) v)
            end
        | _, _ => inr v    (* both documents have a rule there *)
        end
  | None =>
      if String.eqb key "retention" then inr (set_key "retention" (default JNull (get "retention" s)) v)
      else
        match split_once "." key with
        | Some (group, name) =>
            match get group s ≫= get name with
            | None => inl (cat ["override "; debug_str key; " is not part of the policy document"])
            | Some value => inr (set_key group (set_key name value (default JNull (get group v))) v)
            end
        | None => inl (cat ["unknown override key "; debug_str key])
        end
  end.

Fixpoint overlay_keys (file stored : Policies) (s v : Json) (keys : list string) : string + Json :=
  match keys with
  | [] => inr v
  | key :: rest =>
      match overlay_key file stored s v key with
      | inl e => inl e
      | inr v => overlay_keys file stored s v rest
      end
  end.

Definition overlay (file stored : Policies) (overrides : list string) : string + Policies :=
  match overlay_keys file stored (to_value stored) (to_value file) overrides with
  | inl e => inl e
  | inr v => match policies_of v with Some p => inr p | None => inl "not a policy document" end
  end.

(** Which leaf comes from where. *)
Definition sources (effective : Policies) (overrides : list string) : list (string * string) :=
  let whole := in_words "retention" overrides in
  List.map (fun kv =>
    let path := fst kv in
    let runtime := if starts_with "retention[" path then whole || in_words path overrides else in_words path overrides in
    (path, if runtime then "runtime" else "file")) (leaf_map effective).

Definition pending_restart (effective running : Policies) : list string :=
  omap (fun kv => match apply_mode (fst kv) with
                  | Restart => if opt_eqb (leaf (fst kv) (leaf_map running)) (Some (snd kv)) then None else Some (fst kv)
                  | Hot => None
                  end) (leaf_map effective).

Definition running_values (effective running : Policies) : list (string * Json) :=
  List.map (fun p => (p, default JNull (leaf p (leaf_map running)))) (pending_restart effective running).

Definition lossy_settings (current proposed : Policies) : list Problem :=
  (if (queue_capacity (p_ingest proposed) <? MIN_SAFE_QUEUE_CAPACITY)
      && negb (queue_capacity (p_ingest proposed) =? queue_capacity (p_ingest current))
   then [mkProblem "ingest.queue_capacity"
           (cat ["below "; show_Z MIN_SAFE_QUEUE_CAPACITY; " records the queue overflows on ordinary bursts and DEBUG/INFO records are dropped"])] else [])
  ++ (if (critical_enqueue_timeout_ms (p_ingest proposed) =? 0) && negb (critical_enqueue_timeout_ms (p_ingest current) =? 0)
      then [mkProblem "ingest.critical_enqueue_timeout_ms"
              "0 ms drops WARN and above immediately when the queue is full instead of waiting for room"] else [])
  ++ (if pushdown_enabled (p_pushdown current) && negb (pushdown_enabled (p_pushdown proposed))
      then [mkProblem "pushdown.enabled" "disabling pushdown stops forwarding errors as they arrive; they are only kept in the store"] else []).

(** ** What the process enforces *)

Record Runtime := mkRuntime { rt_buckets : LevelBuckets; rt_disk_budget_bytes : Z; rt_watermarks : Watermarks }.

Definition runtime_tenancy (r : Runtime) (base : Tenancy) : option Tenancy := set_default_buckets (rt_buckets r) base.

Record PolicyHandle := mkHandle {
  h_runtime : Runtime;
  h_pushdown_enabled : bool;
  h_pushdown_trigger : Z;
  h_critical_timeout_ms : Z;
  h_running : Policies
}.

Definition runtime_of (p : Policies) : ConfigError + Runtime :=
  match policy_buckets p with
  | inl e => inl e
  | inr b => inr (mkRuntime b (disk_budget_bytes (p_storage p)) (watermarks p))
  end.

Definition handle_new (startup : Policies) : ConfigError + PolicyHandle :=
  match runtime_of startup with
  | inl e => inl e
  | inr r =>
      inr (mkHandle r (pushdown_enabled (p_pushdown startup)) (wrap8 (trigger_severity (p_pushdown startup)))
             (critical_enqueue_timeout_ms (p_ingest startup)) startup)
  end.

Definition handle_apply (p : Policies) (h : PolicyHandle) : ConfigError + PolicyHandle :=
  match runtime_of p with
  | inl e => inl e
  | inr r =>
      inr (mkHandle r (pushdown_enabled (p_pushdown p)) (wrap8 (trigger_severity (p_pushdown p)))
             (critical_enqueue_timeout_ms (p_ingest p)) (h_running h))
  end.
