(* ===== verification/PolicyFacts.v ===== *)
(** What the runtime policy promises: the overrides taken of a document, laid
    on any configuration file, give that file with what the operator changed, but
    for a bucket that moved;
    and a document without problems can be enforced. *)

From stdpp Require Import sorting.
From S2P Require Import Prelude Text Float Model Lists Partition Tenancy Budget Json Policy.
Open Scope string_scope.
Open Scope Z_scope.
Open Scope list_scope.

(** ** Through a value and back *)

(** What a [Policies] of Rust holds, with floats that JSON can hold. *)
Definition rule_sound (r : RetentionRule) : bool := (0 <=? rr_min_severity r) && (rr_min_severity r <=? u64_max) && (0 <=? rr_secs r) && (rr_secs r <=? u64_max).
Definition fits_u64 (z : Z) : bool := (0 <=? z) && (z <=? u64_max).
Definition sound (p : Policies) : bool :=
  forallb rule_sound (p_retention p)
  && fits_u64 (disk_budget_bytes (p_storage p)) && f64_finite (high_water (p_storage p))
  && f64_finite (critical_water (p_storage p)) && f64_finite (reclaim_water (p_storage p))
  && fits_u64 (critical_enqueue_timeout_ms (p_ingest p)) && fits_u64 (queue_capacity (p_ingest p))
  && fits_u64 (trigger_severity (p_pushdown p))
  && (Z.of_nat (List.length (p_retention p)) <=? u64_max).

Record Sound (p : Policies) : Prop := {
  so_rules : forallb rule_sound (p_retention p) = true;
  so_budget : fits_u64 (disk_budget_bytes (p_storage p)) = true;
  so_high : f64_finite (high_water (p_storage p)) = true;
  so_critical : f64_finite (critical_water (p_storage p)) = true;
  so_reclaim : f64_finite (reclaim_water (p_storage p)) = true;
  so_timeout : fits_u64 (critical_enqueue_timeout_ms (p_ingest p)) = true;
  so_queue : fits_u64 (queue_capacity (p_ingest p)) = true;
  so_trigger : fits_u64 (trigger_severity (p_pushdown p)) = true;
  so_length : Z.of_nat (List.length (p_retention p)) <= u64_max
}.

Lemma sound_spec p : sound p = true <-> Sound p.
Proof.
  unfold sound. rewrite !andb_true_iff, Z.leb_le. split.
  - intros ((((((((?&?)&?)&?)&?)&?)&?)&?)&?). by split.
  - intros []. tauto.
Qed.

Lemma fits_read z : fits_u64 z = true -> as_u64 (JInt z) = Some z.
Proof. unfold fits_u64. intros H. cbn. by rewrite H. Qed.

Lemma num_read f : f64_finite f = true -> as_f64 (num f) = Some f.
Proof. unfold num. by intros ->. Qed.

Lemma rule_read r : rule_sound r = true -> rule_of (rule_value r) = Some r.
Proof.
  unfold rule_sound. intros H. zbool. unfold rule_of, rule_value, strict, need. cbn -[as_u64].
  rewrite !fits_read by (unfold fits_u64; rewrite andb_true_iff, !Z.leb_le; lia). cbn. by destruct r.
Qed.

Lemma rules_read l : forallb rule_sound l = true -> rules_of (List.map rule_value l) = Some l.
Proof.
  induction l as [|r l IH]; [done|]. cbn [forallb]. intros [Hr Hl]%andb_prop.
  cbn [List.map rules_of]. rewrite rule_read by done. cbn. by rewrite IH.
Qed.

Lemma policies_read p : Sound p -> policies_of (to_value p) = Some p.
Proof.
  intros []. unfold policies_of, to_value, strict, need. cbn -[rules_of storage_of ingest_of pushdown_of].
  rewrite rules_read by done. cbn -[storage_of ingest_of pushdown_of].
  assert (storage_of (JObj [("critical_water", num (critical_water (p_storage p))); ("disk_budget_bytes", JInt (disk_budget_bytes (p_storage p)));
    ("high_water", num (high_water (p_storage p))); ("reclaim_target", num (reclaim_water (p_storage p)))]) = Some (p_storage p)) as ->.
  { unfold storage_of, strict, need. cbn -[as_u64 as_f64 num]. rewrite fits_read by done. cbn -[as_f64 num].
    rewrite !num_read by done. cbn. by destruct (p_storage p). }
  cbn -[ingest_of pushdown_of].
  assert (ingest_of (JObj [("critical_enqueue_timeout_ms", JInt (critical_enqueue_timeout_ms (p_ingest p)));
    ("queue_capacity", JInt (queue_capacity (p_ingest p)))]) = Some (p_ingest p)) as ->.
  { unfold ingest_of, strict, need. cbn -[as_u64]. rewrite !fits_read by done. cbn. by destruct (p_ingest p). }
  cbn -[pushdown_of].
  assert (pushdown_of (JObj [("enabled", JBool (pushdown_enabled (p_pushdown p))); ("trigger_severity", JInt (trigger_severity (p_pushdown p)))])
    = Some (p_pushdown p)) as ->.
  { unfold pushdown_of, strict, need. cbn -[as_u64]. rewrite !fits_read by done. cbn. by destruct (p_pushdown p). }
  cbn. by destruct p.
Qed.

(** ** The leaves, sorted *)

Section Sorting.
Context {A : Type} (le : A -> A -> bool).

Lemma insert_front x l : Forall (fun y => le x y = true) l -> insert_sorted le x l = x :: l.
Proof. intros H. destruct l as [|y l]; [done|]. apply Forall_cons in H as [H _]. simpl. by rewrite H. Qed.

Lemma insert_before x l b : Forall (fun y => le x y = true) b -> insert_sorted le x (l ++ b) = insert_sorted le x l ++ b.
Proof.
  intros H. induction l as [|y l IH]; [by apply insert_front|]. simpl. destruct (le x y); [done|]. by rewrite IH.
Qed.

Lemma sort_before l b : Forall (fun x => Forall (fun y => le x y = true) b) l -> stable_sort le b = b ->
  stable_sort le (l ++ b) = stable_sort le l ++ b.
Proof.
  intros H Hb. induction l as [|x l IH]; [done|]. apply Forall_cons in H as [Hx H].
  cbn [app stable_sort foldr] in *. fold (stable_sort le (l ++ b)). rewrite IH by done. by apply insert_before.
Qed.
End Sorting.

Definition head_leaves (p : Policies) : list (string * Json) :=
  [("ingest.critical_enqueue_timeout_ms", JInt (critical_enqueue_timeout_ms (p_ingest p)));
   ("ingest.queue_capacity", JInt (queue_capacity (p_ingest p)));
   ("pushdown.enabled", JBool (pushdown_enabled (p_pushdown p)));
   ("pushdown.trigger_severity", JInt (trigger_severity (p_pushdown p)))].
Definition storage_leaves (p : Policies) : list (string * Json) :=
  [("storage.critical_water", num (critical_water (p_storage p)));
   ("storage.disk_budget_bytes", JInt (disk_budget_bytes (p_storage p)));
   ("storage.high_water", num (high_water (p_storage p)));
   ("storage.reclaim_target", num (reclaim_water (p_storage p)))].
Definition retention_leaves (p : Policies) : list (string * Json) := flatten "retention" (JArr (List.map rule_value (p_retention p))).

Definition of_retention (kv : string * Json) : Prop := exists rest, fst kv = String.append "retention[" rest.

Lemma retention_paths p : Forall of_retention (retention_leaves p).
Proof.
  unfold retention_leaves. cbn [flatten]. generalize 0. induction (p_retention p) as [|r l IH]; intros i; [constructor|].
  cbn [List.map]. apply Forall_app. split; [|apply IH].
  cbn -[show_Z]. repeat constructor; eexists; cbn -[show_Z]; reflexivity.
Qed.

Lemma flatten_num prefix f : flatten prefix (num f) = [(prefix, num f)].
Proof. unfold num. by destruct (f64_finite f). Qed.

Lemma leaves_of p : leaves p = head_leaves p ++ retention_leaves p ++ storage_leaves p.
Proof.
  unfold leaves, to_value, retention_leaves. cbn -[num]. rewrite !flatten_num. cbn -[num].
  reflexivity.
Qed.

Lemma leaf_map_of p : leaf_map p = head_leaves p ++ stable_sort by_key (retention_leaves p) ++ storage_leaves p.
Proof.
  unfold leaf_map. rewrite leaves_of. pose proof (retention_paths p) as Hr.
  assert (stable_sort by_key (retention_leaves p ++ storage_leaves p) = stable_sort by_key (retention_leaves p) ++ storage_leaves p) as Hb.
  { apply sort_before; [|done]. eapply Forall_impl; [exact Hr|]. intros [k v] [rest Hk]. cbn [fst] in Hk. subst k.
    by repeat constructor. }
  assert (Forall of_retention (stable_sort by_key (retention_leaves p))) as Hs by by rewrite stable_sort_perm.
  change (head_leaves p ++ retention_leaves p ++ storage_leaves p) with
    ([("ingest.critical_enqueue_timeout_ms", JInt (critical_enqueue_timeout_ms (p_ingest p)));
      ("ingest.queue_capacity", JInt (queue_capacity (p_ingest p)));
      ("pushdown.enabled", JBool (pushdown_enabled (p_pushdown p)));
      ("pushdown.trigger_severity", JInt (trigger_severity (p_pushdown p)))] ++ (retention_leaves p ++ storage_leaves p)).
  unfold stable_sort. rewrite foldr_app. fold (stable_sort by_key (retention_leaves p ++ storage_leaves p)). rewrite Hb.
  set (l := stable_sort by_key (retention_leaves p)) in *. cbn [foldr].
  assert (forall k v, String.leb k "retention[" = true -> (forall x, String.leb k (String.append "retention[" x) = true) ->
    Forall (fun y => by_key (k, v) y = true) l) as Hl.
  { intros k v _ Hk. eapply Forall_impl; [exact Hs|]. intros [k' v'] [x Hx]. cbn [fst] in Hx. subst k'. apply Hk. }
  rewrite (insert_front _ ("pushdown.trigger_severity", _)) by (apply Forall_app; split; [by apply Hl|by repeat constructor]).
  rewrite (insert_front _ ("pushdown.enabled", _))
    by (apply Forall_cons; split; [done|]; apply Forall_app; split; [by apply Hl|by repeat constructor]).
  rewrite (insert_front _ ("ingest.queue_capacity", _))
    by (do 2 (apply Forall_cons; split; [done|]); apply Forall_app; split; [by apply Hl|by repeat constructor]).
  rewrite (insert_front _ ("ingest.critical_enqueue_timeout_ms", _))
    by (do 3 (apply Forall_cons; split; [done|]); apply Forall_app; split; [by apply Hl|by repeat constructor]).
  done.
Qed.

Lemma find_none_iff_all {A} (f : A -> bool) l : (forall x, In x l -> f x = false) -> List.find f l = None.
Proof. induction l as [|x l IH]; intros H; [done|]. cbn [List.find]. rewrite (H x) by by left. apply IH. intros y Hy. apply H. by right. Qed.

Lemma in_leaf_map path p :
  (forall rest, path <> String.append "retention[" rest) ->
  leaf path (leaf_map p) = field path (head_leaves p ++ storage_leaves p).
Proof.
  intros Hp. unfold leaf. rewrite leaf_map_of.
  assert (Forall of_retention (stable_sort by_key (retention_leaves p))) as Hs by (rewrite stable_sort_perm; apply retention_paths).
  assert (List.find (fun kv => String.eqb (fst kv) path) (stable_sort by_key (retention_leaves p)) = None) as Hn.
  { apply find_none_iff_all. intros [k v] Hin. rewrite Forall_forall in Hs. destruct (Hs (k, v)) as [rest Hk]; [by apply list_elem_of_In|].
    cbn [fst] in *. apply String.eqb_neq. intros ->. exact (Hp rest Hk). }
  unfold field. by rewrite !find_app, Hn.
Qed.

(** ** One override *)

Definition set_rules x p := mkPolicies x (p_storage p) (p_ingest p) (p_pushdown p).
Definition set_storage x p := mkPolicies (p_retention p) x (p_ingest p) (p_pushdown p).
Definition set_ingest x p := mkPolicies (p_retention p) (p_storage p) x (p_pushdown p).
Definition set_pushdown x p := mkPolicies (p_retention p) (p_storage p) (p_ingest p) x.
Definition set_secs (s : Z) (r : RetentionRule) : RetentionRule := mkRule (rr_name r) (rr_min_severity r) s.

Lemma split_digits n rest : 0 <= n -> split_once_str "]." (String.append (show_Z n) (String.append "]." rest)) = Some (show_Z n, rest).
Proof.
  intros Hn. pose proof (show_Z_digits n Hn) as Hd. generalize dependent (show_Z n). clear. intros s.
  induction s as [|c s IH]; intros Hd; [done|]. cbn [str_all] in Hd. apply andb_prop in Hd as [Hc Hd].
  cbn [String.append split_once_str strip_prefix]. destruct (Ascii.eqb "]" c) eqn:E.
  - apply Ascii.eqb_eq in E. subst c. done.
  - specialize (IH Hd). cbn [String.append] in IH. by rewrite IH.
Qed.

Lemma parse_at_rule i name : Z.of_nat i <= u64_max -> parse_retention_key (at_rule i name) = Some (i, name).
Proof.
  intros Hi. unfold parse_retention_key, at_rule, cat. cbn [foldr]. rewrite strip_prefix_app, bind_some.
  rewrite str_app_nil_r. rewrite (split_digits (Z.of_nat i) name) by lia. rewrite bind_some. cbn beta.
  rewrite parse_uint_digits by (apply show_Z_digits; lia). rewrite parse_digits_show by lia. unfold within.
  rewrite (proj2 (Z.leb_le _ _)), (proj2 (Z.leb_le _ _)) by lia. cbn. by rewrite Nat2Z.id.
Qed.

Lemma map_rules_nth l i : nth_error (List.map rule_value l) i = rule_value <$> nth_error l i.
Proof. rewrite nth_error_map. by destruct (nth_error l i). Qed.

Lemma overlay_rule file doc q i f d r :
  Z.of_nat i <= u64_max -> nth_error (p_retention doc) i = Some d -> nth_error (p_retention file) i = Some f ->
  nth_error (p_retention q) i = Some r ->
  overlay_key file doc (to_value doc) (to_value q) (at_rule i "retention_secs")
  = inr (to_value (if String.eqb (rr_name f) (rr_name d) then set_rules (<[i := set_secs (rr_secs d) r]> (p_retention q)) q else q)).
Proof.
  intros Hi Hd Hf Hr. unfold overlay_key. rewrite parse_at_rule by done. rewrite Hd, Hf.
  destruct (String.eqb (rr_name f) (rr_name d)); [|done]. cbn [negb].
  change (get "retention" (to_value doc)) with (Some (JArr (List.map rule_value (p_retention doc)))).
  change (get "retention" (to_value q)) with (Some (JArr (List.map rule_value (p_retention q)))).
  rewrite !bind_some. unfold item. cbn [as_array]. rewrite !bind_some, !map_rules_nth, Hd, Hr. cbn [fmap option_fmap option_map].
  change (get "retention_secs" (rule_value d)) with (Some (JInt (rr_secs d))).
  change (set_key "retention_secs" (JInt (rr_secs d)) (rule_value r)) with (rule_value (set_secs (rr_secs d) r)).
  f_equal. cbn [default]. unfold id. cbn [set_item]. unfold set_rules, to_value at 2. cbn [p_retention p_storage p_ingest p_pushdown].
  rewrite list_fmap_insert. reflexivity.
Qed.

Lemma overlay_keys_app file doc s v l1 l2 v1 :
  overlay_keys file doc s v l1 = inr v1 -> overlay_keys file doc s v (l1 ++ l2) = overlay_keys file doc s v1 l2.
Proof.
  revert v. induction l1 as [|k l1 IH]; intros v H; [by injection H as ->|].
  cbn [app overlay_keys] in *. destruct (overlay_key file doc s v k); [done|]. by apply IH.
Qed.

(** ** The overlay as a merge of three documents

    The document [overlay] gives, in closed form: of the file the document was made
    against, the document, and the file now.  A bucket's override is matched as the
    code matches it, by its place and its name; what that means for the operator is
    stated apart, with [overlay_is_a_merge]. *)

Fixpoint merge_rules (f d now : list RetentionRule) : list RetentionRule :=
  match f, d, now with
  | x :: f, y :: d, z :: now =>
      (if negb (rr_secs x =? rr_secs y) && String.eqb (rr_name z) (rr_name y) then set_secs (rr_secs y) z else z) :: merge_rules f d now
  | _, _, _ => now
  end.

Definition follow {A} (eqb : A -> A -> bool) (file doc now : A) : A := if eqb file doc then now else doc.

Definition merged (file doc now : Policies) : Policies :=
  mkPolicies
    (if same_bucket_structure file doc then merge_rules (p_retention file) (p_retention doc) (p_retention now) else p_retention doc)
    (mkStorage (follow Z.eqb (disk_budget_bytes (p_storage file)) (disk_budget_bytes (p_storage doc)) (disk_budget_bytes (p_storage now)))
       (follow f64_eq (high_water (p_storage file)) (high_water (p_storage doc)) (high_water (p_storage now)))
       (follow f64_eq (critical_water (p_storage file)) (critical_water (p_storage doc)) (critical_water (p_storage now)))
       (follow f64_eq (reclaim_water (p_storage file)) (reclaim_water (p_storage doc)) (reclaim_water (p_storage now))))
    (mkIngest (follow Z.eqb (critical_enqueue_timeout_ms (p_ingest file)) (critical_enqueue_timeout_ms (p_ingest doc)) (critical_enqueue_timeout_ms (p_ingest now)))
       (follow Z.eqb (queue_capacity (p_ingest file)) (queue_capacity (p_ingest doc)) (queue_capacity (p_ingest now))))
    (mkPushdown (follow Bool.eqb (pushdown_enabled (p_pushdown file)) (pushdown_enabled (p_pushdown doc)) (pushdown_enabled (p_pushdown now)))
       (follow Z.eqb (trigger_severity (p_pushdown file)) (trigger_severity (p_pushdown doc)) (trigger_severity (p_pushdown now)))).

Lemma same_structure_length a b : same_bucket_structure a b = true -> List.length (p_retention a) = List.length (p_retention b).
Proof. unfold same_bucket_structure. intros [H _]%andb_prop. by apply Nat.eqb_eq. Qed.

Lemma nth_error_after {A} (pre post : list A) : nth_error (pre ++ post) (List.length pre) = head post.
Proof. rewrite nth_error_app2, Nat.sub_diag by lia. by destruct post. Qed.

(** The changed seconds, from rule [List.length pre] on. *)
Lemma overlay_secs now doc q : forall f d rest pre dpre npre,
  p_retention doc = dpre ++ d -> p_retention now = npre ++ rest -> p_retention q = pre ++ rest ->
  List.length dpre = List.length pre -> List.length npre = List.length pre -> List.length f = List.length d ->
  Z.of_nat (List.length pre + List.length d) <= u64_max ->
  overlay_keys now doc (to_value doc) (to_value q) (changed_secs (List.length pre) f d)
  = inr (to_value (set_rules (pre ++ merge_rules f d rest) q)).
Proof.
  intros f. revert q. induction f as [|x f IH]; intros q d rest pre dpre npre Hd Hn Hq Hl1 Hl2 Hf Hlen.
  { destruct d; [|done]. cbn [changed_secs overlay_keys merge_rules]. rewrite <- Hq. by destruct q. }
  destruct d as [|y d]; [done|]. cbn [List.length] in *. cbn [changed_secs].
  destruct rest as [|z rest].
  { (* the file now has no such rule: nothing to attach to *)
    rewrite !app_nil_r in *. replace (merge_rules (x :: f) (y :: d) []) with (@nil RetentionRule) by done. rewrite ?app_nil_r, <- Hq.
    replace (set_rules (p_retention q) q) with q by by destruct q.
    assert (forall i l1 l2, (List.length (p_retention now) <= i)%nat -> Z.of_nat (i + List.length l2) <= u64_max ->
      overlay_keys now doc (to_value doc) (to_value q) (changed_secs i l1 l2) = inr (to_value q)) as Hno.
    { clear. intros i l1. revert i. induction l1 as [|a l1 IH]; intros i [|b l2] Hi Hu; try done. cbn [changed_secs List.length] in *.
      assert (forall tail, overlay_keys now doc (to_value doc) (to_value q) (at_rule i "retention_secs" :: tail)
        = overlay_keys now doc (to_value doc) (to_value q) tail) as Hk.
      { intros tail. cbn [overlay_keys]. unfold overlay_key. rewrite parse_at_rule by lia.
        rewrite (proj2 (nth_error_None (p_retention now) i)) by done. by destruct (nth_error (p_retention doc) i). }
      destruct (rr_secs a =? rr_secs b); cbn [app]; rewrite ?Hk; apply IH; lia. }
    apply (Hno _ (x :: f) (y :: d)); [rewrite Hn, Hq; lia|rewrite Hq; cbn [List.length]; lia]. }
  assert (forall q2, p_retention q2 = (pre ++ [if negb (rr_secs x =? rr_secs y) && String.eqb (rr_name z) (rr_name y) then set_secs (rr_secs y) z else z]) ++ rest ->
    q2 = set_rules (p_retention q2) q ->
    overlay_keys now doc (to_value doc) (to_value q2) (changed_secs (S (List.length pre)) f d)
    = inr (to_value (set_rules (pre ++ merge_rules (x :: f) (y :: d) (z :: rest)) q))) as Hrest.
  { intros q2 Hq2 E. set (z' := if negb (rr_secs x =? rr_secs y) && String.eqb (rr_name z) (rr_name y) then set_secs (rr_secs y) z else z) in *.
    replace (S (List.length pre)) with (List.length (pre ++ [z'])) by (rewrite length_app; simpl; lia).
    rewrite (IH q2 d rest (pre ++ [z']) (dpre ++ [y]) (npre ++ [z])); rewrite <- ?app_assoc, ?length_app; cbn [List.length app]; try (done || lia).
    - do 2 f_equal. rewrite E. reflexivity.
    - by rewrite Hq2, <- app_assoc. }
  destruct (rr_secs x =? rr_secs y) eqn:Es; cbn [app negb andb] in *.
  { apply Hrest; [by rewrite Hq, <- app_assoc|by destruct q]. }
  cbn [overlay_keys]. rewrite (overlay_rule now doc q (List.length pre) z y z); [|lia| | |].
  - apply Hrest.
    + destruct (String.eqb (rr_name z) (rr_name y)); [|by rewrite Hq, <- app_assoc].
      cbn [set_rules p_retention]. rewrite Hq, insert_app_r_alt, Nat.sub_diag by lia. by rewrite <- app_assoc.
    + destruct (String.eqb (rr_name z) (rr_name y)); by destruct q.
  - by rewrite Hd, <- Hl1, nth_error_after.
  - by rewrite Hn, <- Hl2, nth_error_after.
  - by rewrite Hq, nth_error_after.
Qed.

(** One leaf outside retention. *)
Definition changed (file : Policies) (kv : string * Json) : list string :=
  if opt_eqb (leaf (fst kv) (leaf_map file)) (Some (snd kv)) then [] else [fst kv].

Lemma overrides_of file doc : overrides_between file doc =
  (if same_bucket_structure file doc then changed_secs 0 (p_retention file) (p_retention doc) else ["retention"])
  ++ concat (List.map (changed file) (head_leaves doc ++ storage_leaves doc)).
Proof.
  unfold overrides_between. f_equal. rewrite (leaf_map_of doc).
  set (g := fun kv : string * Json => if negb (starts_with "retention[" (fst kv)) && negb (opt_eqb (leaf (fst kv) (leaf_map file)) (Some (snd kv))) then Some (fst kv) else None).
  assert (Forall of_retention (stable_sort by_key (retention_leaves doc))) as Hs by (rewrite stable_sort_perm; apply retention_paths).
  assert (forall l, Forall (fun kv => starts_with "retention[" (fst kv) = false) l -> omap g l = concat (List.map (changed file) l)) as Hg.
  { clear. intros l H. induction H as [|kv l H _ IH]; [done|]. cbn [omap list_omap List.map concat]. fold (omap g l). rewrite <- IH.
    unfold g at 1, changed. rewrite H. cbn [negb andb]. by destruct (opt_eqb _ _). }
  assert (omap g (stable_sort by_key (retention_leaves doc)) = []) as Hnone.
  { induction Hs as [|[k v] l [rest Hk] Hs IH]; [done|]. cbn [omap list_omap]. fold (omap g l). rewrite IH. unfold g. cbn [fst] in *.
    subst k. unfold starts_with. by rewrite strip_prefix_app. }
  rewrite !omap_app, Hnone, Hg, Hg, List.map_app, concat_app by by repeat constructor. done.
Qed.

Lemma leaf_head file path v : field path (head_leaves file ++ storage_leaves file) = Some v ->
  (forall rest, path <> String.append "retention[" rest) -> leaf path (leaf_map file) = Some v.
Proof. intros H Hp. by rewrite in_leaf_map. Qed.

Section Leaves.
Variables file doc now : Policies.
Hypothesis Hfile : Sound file.
Hypothesis Hdoc : Sound doc.

Abbreviation laid q kv := (overlay_keys now doc (to_value doc) (to_value q) (changed file kv)).

(** A leaf is changed exactly when the values differ. *)
Lemma changed_spec path v w :
  field path (head_leaves file ++ storage_leaves file) = Some v -> (forall rest, path <> String.append "retention[" rest) ->
  changed file (path, w) = if leaf_eqb v w then [] else [path].
Proof. intros H Hp. unfold changed. cbn [fst snd]. by rewrite (leaf_head file path v). Qed.

Lemma num_eqb a b : f64_finite a = true -> f64_finite b = true -> leaf_eqb (num a) (num b) = f64_eq a b.
Proof. unfold num. by intros -> ->. Qed.

Ltac leaf_step :=
  erewrite changed_spec; [|reflexivity|by intros ? ?];
  cbn [snd]; rewrite ?num_eqb by first [apply Hfile|apply Hdoc];
  cbn [leaf_eqb]; unfold follow; case_match; cbn [overlay_keys]; [by match goal with q : Policies |- _ => destruct q as [? [] [] []] end|reflexivity].

Definition with_timeout x q := set_ingest (mkIngest x (queue_capacity (p_ingest q))) q.
Definition with_queue x q := set_ingest (mkIngest (critical_enqueue_timeout_ms (p_ingest q)) x) q.
Definition with_enabled x q := set_pushdown (mkPushdown x (trigger_severity (p_pushdown q))) q.
Definition with_trigger x q := set_pushdown (mkPushdown (pushdown_enabled (p_pushdown q)) x) q.
Definition with_critical x q := set_storage (mkStorage (disk_budget_bytes (p_storage q)) (high_water (p_storage q)) x (reclaim_water (p_storage q))) q.
Definition with_budget x q := set_storage (mkStorage x (high_water (p_storage q)) (critical_water (p_storage q)) (reclaim_water (p_storage q))) q.
Definition with_high x q := set_storage (mkStorage (disk_budget_bytes (p_storage q)) x (critical_water (p_storage q)) (reclaim_water (p_storage q))) q.
Definition with_reclaim x q := set_storage (mkStorage (disk_budget_bytes (p_storage q)) (high_water (p_storage q)) (critical_water (p_storage q)) x) q.

Lemma laid_timeout q : laid q ("ingest.critical_enqueue_timeout_ms", JInt (critical_enqueue_timeout_ms (p_ingest doc)))
  = inr (to_value (with_timeout (follow Z.eqb (critical_enqueue_timeout_ms (p_ingest file)) (critical_enqueue_timeout_ms (p_ingest doc)) (critical_enqueue_timeout_ms (p_ingest q))) q)).
Proof. leaf_step. Qed.
Lemma laid_queue q : laid q ("ingest.queue_capacity", JInt (queue_capacity (p_ingest doc)))
  = inr (to_value (with_queue (follow Z.eqb (queue_capacity (p_ingest file)) (queue_capacity (p_ingest doc)) (queue_capacity (p_ingest q))) q)).
Proof. leaf_step. Qed.
Lemma laid_enabled q : laid q ("pushdown.enabled", JBool (pushdown_enabled (p_pushdown doc)))
  = inr (to_value (with_enabled (follow Bool.eqb (pushdown_enabled (p_pushdown file)) (pushdown_enabled (p_pushdown doc)) (pushdown_enabled (p_pushdown q))) q)).
Proof. leaf_step. Qed.
Lemma laid_trigger q : laid q ("pushdown.trigger_severity", JInt (trigger_severity (p_pushdown doc)))
  = inr (to_value (with_trigger (follow Z.eqb (trigger_severity (p_pushdown file)) (trigger_severity (p_pushdown doc)) (trigger_severity (p_pushdown q))) q)).
Proof. leaf_step. Qed.
Lemma laid_critical q : laid q ("storage.critical_water", num (critical_water (p_storage doc)))
  = inr (to_value (with_critical (follow f64_eq (critical_water (p_storage file)) (critical_water (p_storage doc)) (critical_water (p_storage q))) q)).
Proof. leaf_step. Qed.
Lemma laid_budget q : laid q ("storage.disk_budget_bytes", JInt (disk_budget_bytes (p_storage doc)))
  = inr (to_value (with_budget (follow Z.eqb (disk_budget_bytes (p_storage file)) (disk_budget_bytes (p_storage doc)) (disk_budget_bytes (p_storage q))) q)).
Proof. leaf_step. Qed.
Lemma laid_high q : laid q ("storage.high_water", num (high_water (p_storage doc)))
  = inr (to_value (with_high (follow f64_eq (high_water (p_storage file)) (high_water (p_storage doc)) (high_water (p_storage q))) q)).
Proof. leaf_step. Qed.
Lemma laid_reclaim q : laid q ("storage.reclaim_target", num (reclaim_water (p_storage doc)))
  = inr (to_value (with_reclaim (follow f64_eq (reclaim_water (p_storage file)) (reclaim_water (p_storage doc)) (reclaim_water (p_storage q))) q)).
Proof. leaf_step. Qed.

Lemma merged_laid : overlay_keys now doc (to_value doc) (to_value now) (overrides_between file doc) = inr (to_value (merged file doc now)).
Proof.
  rewrite overrides_of.
  set (rules := if same_bucket_structure file doc then merge_rules (p_retention file) (p_retention doc) (p_retention now) else p_retention doc).
  rewrite (overlay_keys_app _ _ _ _ _ _ (to_value (set_rules rules now))).
  2:{ unfold rules. destruct (same_bucket_structure file doc) eqn:E.
      - apply (overlay_secs now doc now (p_retention file) (p_retention doc) (p_retention now) [] [] []); try done.
        + by apply same_structure_length.
        + cbn. apply Hdoc.
      - reflexivity. }
  cbn [List.map concat head_leaves storage_leaves app].
  rewrite (overlay_keys_app _ _ _ _ _ _ _ (laid_timeout _)), (overlay_keys_app _ _ _ _ _ _ _ (laid_queue _)),
    (overlay_keys_app _ _ _ _ _ _ _ (laid_enabled _)), (overlay_keys_app _ _ _ _ _ _ _ (laid_trigger _)),
    (overlay_keys_app _ _ _ _ _ _ _ (laid_critical _)), (overlay_keys_app _ _ _ _ _ _ _ (laid_budget _)),
    (overlay_keys_app _ _ _ _ _ _ _ (laid_high _)), (overlay_keys_app _ _ _ _ _ _ _ (laid_reclaim _)).
  reflexivity.
Qed.
End Leaves.

Lemma merge_rules_sound f d now : forallb rule_sound d = true -> forallb rule_sound now = true -> forallb rule_sound (merge_rules f d now) = true.
Proof.
  revert d now. induction f as [|x f IH]; intros d now Hd Hn; [done|].
  destruct d as [|y d]; [done|]. destruct now as [|z now]; [done|].
  cbn [forallb] in Hd, Hn. apply andb_prop in Hd as [Hy Hd], Hn as [Hz Hn].
  cbn [merge_rules forallb]. rewrite IH, andb_true_r by done. destruct (_ && _); [|done].
  unfold rule_sound, set_secs in *. cbn [rr_min_severity rr_secs]. zbool. rewrite !andb_true_iff, !Z.leb_le. lia.
Qed.

Lemma merge_rules_length f d now : List.length (merge_rules f d now) = List.length now.
Proof.
  revert d now. induction f as [|x f IH]; intros [|y d] [|z now]; try done. cbn [merge_rules List.length]. by rewrite IH.
Qed.

Lemma follow_cases {A} (P : A -> Prop) eqb (f d n : A) : P d -> P n -> P (follow eqb f d n).
Proof. unfold follow. by destruct (eqb f d). Qed.

Lemma merged_sound file doc now : Sound doc -> Sound now -> Sound (merged file doc now).
Proof.
  intros [] []. unfold merged. split; cbn [p_retention p_storage p_ingest p_pushdown disk_budget_bytes high_water critical_water reclaim_water
    critical_enqueue_timeout_ms queue_capacity trigger_severity].
  1: destruct (same_bucket_structure file doc); [by apply merge_rules_sound|done].
  8: destruct (same_bucket_structure file doc); [by rewrite merge_rules_length|done].
  all: by apply (follow_cases (fun x => _ x = true)).
Qed.

Lemma overlay_merged file doc now : Sound file -> Sound doc -> Sound now ->
  overlay now doc (overrides_between file doc) = inr (merged file doc now).
Proof. intros Hf Hd Hn. unfold overlay. rewrite merged_laid by done. by rewrite policies_read by by apply merged_sound. Qed.

(** With the file it was made against, the document itself comes back. *)
Lemma f64_eq_spec a b : f64_eq a b = true -> a = b \/ (f64_gt b f64_zero = false).
Proof.
  unfold f64_eq, SpecFloat.SFeqb, SpecFloat.SFcompare, f64_gt, f64_lt, SpecFloat.SFltb, SpecFloat.SFcompare, f64_zero.
  destruct a as [sa|sa| |sa ma ea], b as [sb|sb| |sb mb eb]; try done; try (by destruct sa); try (by destruct sb).
  - right. by destruct sb.
  - destruct sa, sb; try done; by left.
  - destruct sa, sb; try done; left;
      (destruct (Z.compare ea eb) eqn:E; try done; apply Z.compare_eq_iff in E; subst eb;
       match goal with H : context [Pos.compare_cont Eq ma mb] |- _ => idtac | _ => idtac end;
       destruct (Pos.compare_cont Eq ma mb) eqn:Em; try done; apply Pos.compare_eq_iff in Em; by subst).
Qed.

(** ** Validation *)

Lemma app_nil_both {A} (a b : list A) : a ++ b = [] -> a = [] /\ b = [].
Proof. apply app_eq_nil. Qed.

(** A rule without a problem, after [before]. *)
Record RuleOk (before : list RetentionRule) (r : RetentionRule) : Prop := {
  ro_name : bucket_name_problem (rr_name r) = None;
  ro_severity : rr_min_severity r <= MAX_SEVERITY;
  ro_secs : rr_secs r <> 0 /\ rr_secs r <= MAX_RETENTION_SECS;
  ro_first : before = [] -> rr_min_severity r = 0;
  ro_above : forall prev, last before = Some prev -> rr_min_severity prev < rr_min_severity r;
  ro_unique : ~ In (str_lower (rr_name r)) (List.map (fun b => str_lower (rr_name b)) before)
}.

Lemma position_none {A} (p : A -> bool) l : Tenancy.position p l = None -> forall x, In x l -> p x = false.
Proof.
  induction l as [|a l IH]; intros H x Hx; [done|]. simpl in H. destruct (p a) eqn:E; [done|].
  destruct (Tenancy.position p l) eqn:Ep; [done|]. destruct Hx as [->|Hx]; [done|]. by apply IH.
Qed.

Lemma rule_ok before i r : rule_problems before i r = [] -> RuleOk before r.
Proof.
  unfold rule_problems. intros H. apply app_nil_both in H as [H1 H]. apply app_nil_both in H as [H2 H].
  apply app_nil_both in H as [H3 H]. apply app_nil_both in H as [H4 H5]. split.
  - by destruct (bucket_name_problem (rr_name r)).
  - destruct (_ <? _) eqn:E in H2; [done|]. by zbool.
  - destruct (_ || _) eqn:E in H3; [done|]. zbool. lia.
  - intros ->. cbn [last] in H4. destruct (rr_min_severity r =? 0) eqn:E; [by zbool|done].
  - intros prev Hp. rewrite Hp in H4. destruct (_ <=? _) eqn:E in H4; [done|]. zbool. lia.
  - destruct (Tenancy.position _ before) eqn:E; [done|]. intros Hin. apply in_map_iff in Hin as (b & Hb & Hin).
    pose proof (position_none _ _ E b Hin) as Hs. unfold same_name in Hs. apply String.eqb_neq in Hs. congruence.
Qed.

Abbreviation lower_names l := (List.map (fun r => str_lower (rr_name r)) l).
Abbreviation ascending := (StronglySorted (fun a b => rr_min_severity a < rr_min_severity b)).

Lemma ascending_snoc l r : ascending l -> (forall prev, last l = Some prev -> rr_min_severity prev < rr_min_severity r) -> ascending (l ++ [r]).
Proof.
  induction 1 as [|a l Hl IH Ha]; intros Hr; [by repeat constructor|]. cbn [app].
  destruct l as [|b l]; [by repeat constructor; apply Hr|].
  constructor; [by apply IH|]. apply Forall_app. split; [done|]. constructor; [|constructor].
  assert (exists z, last (b :: l) = Some z /\ rr_min_severity a < rr_min_severity z) as (z & Hz & Haz).
  { destruct (last (b :: l)) as [z|] eqn:Ez; [|by apply last_None in Ez].
    exists z. split; [done|]. rewrite Forall_forall in Ha. apply Ha. by apply last_Some_elem_of. }
  specialize (Hr z Hz). lia.
Qed.

Lemma rules_ok rules : forall before, rules_problems before rules = [] -> ascending before -> List.NoDup (lower_names before) ->
  ascending (before ++ rules) /\ List.NoDup (lower_names (before ++ rules)) /\
  Forall (fun r => bucket_name_problem (rr_name r) = None /\ rr_min_severity r <= MAX_SEVERITY /\ rr_secs r <> 0 /\ rr_secs r <= MAX_RETENTION_SECS) rules /\
  (before = [] -> forall r rest, rules = r :: rest -> rr_min_severity r = 0).
Proof.
  induction rules as [|r rules IH]; intros before H Ha Hn; [rewrite app_nil_r; by repeat split; try constructor|].
  cbn [rules_problems] in H. apply app_nil_both in H as [Hr H]. apply rule_ok in Hr as [].
  destruct (IH (before ++ [r])) as (H1 & H2 & H3 & _).
  { done. }
  { by apply ascending_snoc. }
  { rewrite List.map_app. apply NoDup_ListNoDup. apply NoDup_app. split; [by apply NoDup_ListNoDup|]. split.
    - intros x Hx Hx2. apply list_elem_of_singleton in Hx2. subst x. apply ro_unique0. by apply list_elem_of_In.
    - apply NoDup_singleton. }
  rewrite <- app_assoc in H1, H2. split; [done|]. split; [done|]. split; [by constructor|].
  intros Hb r' rest [= <- <-]. by apply ro_first0.
Qed.

Lemma check_buckets_none l : Forall (fun b => bucket_name_problem (lb_name b) = None /\ lb_retention b <> 0) l -> check_buckets l = None.
Proof.
  induction 1 as [|b l [Hb Hr] _ IH]; [done|]. simpl. rewrite Hb. rewrite bool_decide_eq_false_2 by by intros [? [=]].
  by rewrite (proj2 (Z.eqb_neq _ _)).
Qed.

Lemma adjacent_none_sorted (l : list LevelBucket) : StronglySorted (fun a b => lb_min_severity a < lb_min_severity b) l ->
  adjacent (fun a b => lb_min_severity a =? lb_min_severity b) l = None /\ stable_sort bucket_le l = l.
Proof.
  induction 1 as [|a l Hl [IH1 IH2] Ha]; [done|]. cbn [stable_sort foldr] in *. fold (stable_sort bucket_le l). split.
  - destruct l as [|b l]; [done|]. cbn [adjacent]. apply Forall_cons in Ha as [Hab _].
    by rewrite (proj2 (Z.eqb_neq _ _)) by lia.
  - change (foldr (insert_sorted bucket_le) [] l) with (stable_sort bucket_le l) in *. rewrite IH2.
    apply insert_front. eapply Forall_impl; [exact Ha|]. intros b Hb. unfold bucket_le. cbn in Hb. apply Z.leb_le. lia.
Qed.

Lemma adjacent_none_nodup l : List.NoDup l -> adjacent String.eqb l = None.
Proof.
  induction 1 as [|a l Hin Hn IH]; [done|]. destruct l as [|b l]; [done|]. cbn [adjacent].
  destruct (String.eqb a b) eqn:E; [|exact IH]. apply String.eqb_eq in E. subst. exfalso. apply Hin. by left.
Qed.

(** The checks with a path leave nothing for the buckets to refuse, and keep their order. *)
Lemma checked_buckets p : p_retention p <> [] -> rules_problems [] (p_retention p) = [] ->
  policy_buckets p = inr (List.map bucket_of (p_retention p)).
Proof.
  intros Hne H. destruct (rules_ok _ [] H) as (Ha & Hn & Hf & H0); [constructor|constructor|]. cbn [app] in Ha, Hn.
  assert (Forall (fun r => rr_min_severity r <= 255) (p_retention p)) as Hcap.
  { eapply Forall_impl; [exact Hf|]. unfold MAX_SEVERITY. intros r (_ & ? & _). lia. }
  assert (StronglySorted (fun a b => lb_min_severity a < lb_min_severity b) (List.map bucket_of (p_retention p))) as Hs.
  { clear -Ha Hcap. induction Ha as [|a l Hl IH Ha]; [constructor|]. apply Forall_cons in Hcap as [Hc Hcap].
    cbn [List.map]. constructor; [by apply IH|]. apply Forall_map. rewrite Forall_forall in *. intros b Hb. cbn.
    specialize (Ha b Hb). specialize (Hcap b Hb). cbn in *. lia. }
  destruct (adjacent_none_sorted _ Hs) as [Hadj Hsort].
  unfold policy_buckets, level_buckets_new. destruct (p_retention p) as [|r rest] eqn:Er; [done|].
  rewrite Hsort. cbn [List.map] in *. cbn [bucket_of lb_min_severity].
  rewrite (H0 eq_refl r rest eq_refl). change (negb (Z.min 0 255 =? 0)) with false. cbn iota. rewrite Hadj.
  rewrite check_buckets_none.
  - rewrite adjacent_none_nodup; [done|]. rewrite (stable_sort_perm String.leb).
    change (bucket_of r :: List.map bucket_of rest) with (List.map bucket_of (r :: rest)). rewrite List.map_map. exact Hn.
  - change (bucket_of r :: List.map bucket_of rest) with (List.map bucket_of (r :: rest)). apply Forall_map.
    eapply Forall_impl; [exact Hf|]. intros b (? & _ & ? & _). cbn. split; [done|]. lia.
Qed.

(** ** What validation is for *)

(** The document the checks leave alone. *)
Record Enforceable (p : Policies) : Prop := {
  en_rules : p_retention p <> [] /\ rules_problems [] (p_retention p) = [];
  en_budget : disk_budget_bytes (p_storage p) <> 0;
  en_reclaim : f64_gt (reclaim_water (p_storage p)) f64_zero = true;
  en_below : f64_ge (reclaim_water (p_storage p)) (high_water (p_storage p)) = false;
  en_high : f64_lt (high_water (p_storage p)) (critical_water (p_storage p)) = true;
  en_critical : f64_le (critical_water (p_storage p)) (f64_of_Z 1) = true;
  en_finite : f64_finite (reclaim_water (p_storage p)) = true /\ f64_finite (high_water (p_storage p)) = true
    /\ f64_finite (critical_water (p_storage p)) = true;
  en_queue : queue_capacity (p_ingest p) <> 0 /\ queue_capacity (p_ingest p) <= MAX_QUEUE_CAPACITY;
  en_timeout : critical_enqueue_timeout_ms (p_ingest p) <= MAX_CRITICAL_TIMEOUT_MS;
  en_trigger : trigger_severity (p_pushdown p) <= MAX_SEVERITY
}.

Lemma one_problem (c : bool) (x : Problem) : (if c then [x] else []) = [] <-> c = false.
Proof. by destruct c. Qed.

Lemma retention_checked p : validate_retention p = [] <-> p_retention p <> [] /\ rules_problems [] (p_retention p) = [].
Proof.
  unfold validate_retention. split.
  - intros H. destruct (p_retention p); [done|]. split; [done|]. by destruct (rules_problems _ _).
  - intros [Hne H]. destruct (p_retention p) eqn:E; [done|]. rewrite H, <- E in *.
    rewrite (checked_buckets p); [done|by rewrite E|done].
Qed.

Lemma validate_spec p : validate p = [] <-> Enforceable p.
Proof.
  unfold validate, validate_storage. split.
  - intros H. apply app_nil_both in H as [Hr H]. apply app_nil_both in H as [Hs H].
    apply app_nil_both in H as [Hq H]. apply app_nil_both in H as [Ht Hp].
    apply app_nil_both in Hs as [Hb Hs]. apply app_nil_both in Hs as [Hw Hs]. apply app_nil_both in Hs as [Hh Hc].
    apply retention_checked in Hr. apply one_problem in Hb, Hq, Ht, Hp, Hh, Hc.
    apply negb_false_iff, andb_prop in Hh as [Hh1 Hh2], Hc as [Hc1 Hc2].
    destruct (negb _) eqn:E in Hw; [done|]. apply one_problem in Hw. apply negb_false_iff, andb_prop in E as [E1 E2].
    split; try done; zbool; lia.
  - intros [[Hr1 Hr2] Hb Hw1 Hw2 Hh Hc (F1 & F2 & F3) [Hq1 Hq2] Ht Hp].
    rewrite (proj2 (retention_checked p)) by done. cbv zeta. rewrite F1, F2, F3, Hw1, Hw2, Hh, Hc. cbn [andb negb app].
    rewrite (proj2 (Z.eqb_neq _ _) Hb), (proj2 (Z.eqb_neq _ _) Hq1). cbn [app orb].
    by rewrite !(proj2 (Z.ltb_ge _ _)).
Qed.

(** ** The theorems *)

(** A policy that reads as the process enforces it. *)
Record Enforced (p : Policies) (h : PolicyHandle) : Prop := {
  ef_buckets : rt_buckets (h_runtime h) = List.map bucket_of (p_retention p);
  ef_budget : rt_disk_budget_bytes (h_runtime h) = disk_budget_bytes (p_storage p);
  ef_marks : rt_watermarks (h_runtime h) = watermarks p;
  ef_pushdown : h_pushdown_enabled h = pushdown_enabled (p_pushdown p) /\ h_pushdown_trigger h = trigger_severity (p_pushdown p);
  ef_timeout : h_critical_timeout_ms h = critical_enqueue_timeout_ms (p_ingest p)
}.

Lemma trigger_kept p : Sound p -> Enforceable p -> wrap8 (trigger_severity (p_pushdown p)) = trigger_severity (p_pushdown p).
Proof.
  intros [] []. unfold fits_u64, MAX_SEVERITY, wrap8, wrap in *. zbool. apply Z.mod_small. lia.
Qed.

Lemma enforceable_runtime p : Enforceable p ->
  runtime_of p = inr (mkRuntime (List.map bucket_of (p_retention p)) (disk_budget_bytes (p_storage p)) (watermarks p)).
Proof. intros []. unfold runtime_of. by rewrite checked_buckets by apply en_rules0. Qed.

Lemma rules_return l : forallb rule_sound l = true ->
  Forall (fun r => rr_min_severity r <= 255) l ->
  List.map (fun b => mkRule (lb_name b) (lb_min_severity b) (as_secs (lb_retention b))) (List.map bucket_of l) = l.
Proof.
  induction l as [|r l IH]; intros Hs Hc; [done|]. apply Forall_cons in Hc as [Hr Hc].
  cbn [forallb] in Hs. apply andb_prop in Hs as [Hrs Hs]. cbn [List.map]. rewrite (IH Hs Hc). f_equal.
  destruct r as [n m s]. unfold bucket_of, as_secs. cbn [lb_name lb_min_severity lb_retention rr_name rr_min_severity rr_secs] in *.
  rewrite Z.div_mul by done. by rewrite Z.min_l.
Qed.

Lemma rules_capped p : Enforceable p -> Forall (fun r => rr_min_severity r <= 255) (p_retention p).
Proof.
  intros []. destruct en_rules0 as [_ H]. destruct (rules_ok _ [] H) as (_ & _ & Hf & _); [constructor|constructor|].
  eapply Forall_impl; [exact Hf|]. unfold MAX_SEVERITY. intros r (_ & ? & _). lia.
Qed.

(** A policy document that validates is one the process enforces as written. The startup
    policy and every change applied later build their buckets without an error, in the
    document's order, and carry its budget, watermarks, pushdown rule and timeout; the
    configuration made from it reads back as the same document; and the watermarks it sets are
    ordered, 0 < reclaim < high < critical <= 1, as the disk budget's passes rely on. *)
Theorem validated_is_enforced p base h : Sound p -> validate p = [] ->
  (exists h0, handle_new p = inr h0 /\ Enforced p h0 /\ h_running h0 = p) /\
  (exists h1, handle_apply p h = inr h1 /\ Enforced p h1 /\ h_running h1 = h_running h) /\
  (exists c, apply_to_config p base = inr c /\ from_config c = p) /\
  f64_gt (reclaim_target (watermarks p)) f64_zero = true /\
  f64_ge (reclaim_target (watermarks p)) (high (watermarks p)) = false /\
  f64_lt (high (watermarks p)) (critical (watermarks p)) = true /\
  f64_le (critical (watermarks p)) (f64_of_Z 1) = true.
Proof.
  intros Hs He%validate_spec. pose proof (trigger_kept p Hs He) as Ht.
  unfold handle_new, handle_apply, apply_to_config. rewrite (enforceable_runtime p He), (checked_buckets p) by apply He. rewrite Ht.
  split; [by eexists|]. split; [by eexists|]. split; [|split; [apply He|split; [apply He|split; apply He]]].
  eexists. split; [done|]. unfold from_config.
  cbn [c_buckets c_disk_budget_bytes c_high_water c_critical_water c_reclaim_target c_critical_enqueue_timeout c_queue_capacity
    c_pushdown_enabled c_trigger_severity].
  rewrite (rules_return (p_retention p)) by (by apply Hs || by apply rules_capped). rewrite Z.div_mul by done.
  by destruct p as [? [] [] []].
Qed.

(** *** The merge, setting by setting and bucket by bucket *)

(** A setting the operator left as the file of the day had it follows the file
    now; one that was changed keeps the operator's value. *)
Definition three_way {A} (same : A -> A -> Prop) (file doc now out : A) : Prop :=
  (same file doc -> out = now) /\ (~ same file doc -> out = doc).

Definition buckets_of (p : Policies) : list (string * Z) := List.map (fun r => (rr_name r, rr_min_severity r)) (p_retention p).
Definition bucket_names (p : Policies) : list string := List.map rr_name (p_retention p).

(** The operator gave bucket [i] other seconds than the file of the day. *)
Definition retuned (file doc : Policies) (i : nat) (y : RetentionRule) : Prop :=
  p_retention doc !! i = Some y /\ exists x, p_retention file !! i = Some x /\ rr_secs x <> rr_secs y.

(** Every bucket the operator changed stands where it stood, or nowhere. *)
Definition in_place (file doc now : Policies) : Prop :=
  forall i y, retuned file doc i y ->
    (exists z, p_retention now !! i = Some z /\ rr_name z = rr_name y) \/ ~ In (rr_name y) (bucket_names now).

(** A bucket of the file now, and what becomes of it, given the operator's
    rules that are about it. *)
Definition bucket_merged (about : RetentionRule -> Prop) (z r : RetentionRule) : Prop :=
  rr_name r = rr_name z /\ rr_min_severity r = rr_min_severity z /\
  (forall y, about y -> rr_secs r = rr_secs y) /\ ((forall y, ~ about y) -> rr_secs r = rr_secs z).

Lemma follow_three_way {A} (eqb : A -> A -> bool) file doc now :
  three_way (fun a b => eqb a b = true) file doc now (follow eqb file doc now).
Proof. unfold three_way, follow. destruct (eqb file doc); split; intros; congruence. Qed.

Lemma follow_eq {A} (eqb : A -> A -> bool) file doc now : (forall a b, eqb a b = true <-> a = b) ->
  three_way eq file doc now (follow eqb file doc now).
Proof. intros H. destruct (follow_three_way eqb file doc now) as [H1 H2]. split; rewrite <- H; auto. Qed.

Lemma same_structure_buckets a b : same_bucket_structure a b = true <-> buckets_of a = buckets_of b.
Proof.
  unfold same_bucket_structure, buckets_of. generalize (p_retention a), (p_retention b). intros l.
  induction l as [|x l IH]; intros [|y k]; cbn [List.length combine forallb List.map fst snd Nat.eqb]; try done.
  specialize (IH k). rewrite !andb_true_iff, String.eqb_eq, Z.eqb_eq in *. split.
  - intros (Hl & (Hn & Hs) & H). rewrite Hn, Hs. f_equal. by apply IH.
  - intros [= Hn Hs H]. apply IH in H as [? ?]. by split_and!.
Qed.

Lemma merge_rules_at f : forall d now i z, List.length f = List.length d -> now !! i = Some z ->
  exists r, merge_rules f d now !! i = Some r /\
    bucket_merged (fun y => (d !! i = Some y /\ exists x, f !! i = Some x /\ rr_secs x <> rr_secs y) /\ rr_name y = rr_name z) z r.
Proof.
  unfold bucket_merged. induction f as [|x f IH]; intros [|y d] now i z Hl Hz; try done.
  { cbn [merge_rules]. exists z. split; [done|]. repeat (split; [done|]). split; [|done]. intros y ((Hy & _) & _). done. }
  destruct now as [|z0 now]; [done|]. injection Hl as Hl. cbn [merge_rules]. destruct i as [|i]; [|by apply IH].
  injection Hz as ->. eexists. split; [reflexivity|].
  destruct (Z.eqb_spec (rr_secs x) (rr_secs y)) as [Es|Es]; cbn [negb andb].
  { split; [done|]. split; [done|]. split; [|done]. intros y' (([= <-] & x' & [= <-] & Hn) & _). congruence. }
  destruct (String.eqb_spec (rr_name z) (rr_name y)) as [En|En].
  - split; [done|]. split; [done|]. split; [by intros y' (([= <-] & _) & _)|].
    intros H. destruct (H y). split; [|done]. split; [done|]. by exists x.
  - split; [done|]. split; [done|]. split; [|done]. intros y' (([= <-] & _) & Hn). congruence.
Qed.

Lemma length_merge_rules f : forall d now, List.length (merge_rules f d now) = List.length now.
Proof. induction f as [|x f IH]; intros [|y d] [|z now]; try done. cbn. by rewrite IH. Qed.

(** With every changed bucket in its place, looking buckets up by their place
    is looking them up by their name. *)
Lemma merged_by_name file doc now i z r : List.NoDup (bucket_names now) -> in_place file doc now -> p_retention now !! i = Some z ->
  bucket_merged (fun y => retuned file doc i y /\ rr_name y = rr_name z) z r ->
  bucket_merged (fun y => (exists j, retuned file doc j y) /\ rr_name y = rr_name z) z r.
Proof.
  intros Hd Hp Hz (H1 & H2 & H3 & H4). split; [done|]. split; [done|].
  assert (forall j y, retuned file doc j y -> rr_name y = rr_name z -> j = i) as Hj.
  { intros j y Hc Hn. destruct (Hp j y Hc) as [(z' & Hz' & Hn')|Hno].
    - apply NoDup_ListNoDup in Hd. apply (NoDup_lookup (bucket_names now) j i (rr_name z) Hd).
      + unfold bucket_names. rewrite list_lookup_fmap, Hz'. cbn. congruence.
      + unfold bucket_names. by rewrite list_lookup_fmap, Hz.
    - destruct Hno. rewrite Hn. apply in_map. apply list_elem_of_In. by eapply list_elem_of_lookup_2. }
  split.
  - intros y [[j Hc] Hn]. apply H3. split; [|done]. by rewrite <- (Hj j y Hc Hn).
  - intros Hno. apply H4. intros y [Hc Hn]. apply (Hno y). split; [by exists i|done].
Qed.

(** C33: Laying a document's overrides, all settings within their types, on the
    configuration file of a later day is a three-way merge: a setting the operator changed
    keeps the operator's value, every other follows the file. Buckets the operator
    restructured are the document's whole. Otherwise the file's buckets stand, and one keeps
    the operator's retention if the bucket of that place and name was changed; by name
    alone, wherever no changed bucket has moved to another place. (One that moved loses its
    override: a finding.) *)
Theorem overlay_is_a_merge file doc now : Sound file -> Sound doc -> Sound now ->
  exists out, overlay now doc (overrides_between file doc) = inr out /\
    (let by_setting {A} (same : A -> A -> Prop) (f : Policies -> A) := three_way same (f file) (f doc) (f now) (f out) in
     by_setting eq (fun p => disk_budget_bytes (p_storage p)) /\
     by_setting (fun a b => f64_eq a b = true) (fun p => high_water (p_storage p)) /\
     by_setting (fun a b => f64_eq a b = true) (fun p => critical_water (p_storage p)) /\
     by_setting (fun a b => f64_eq a b = true) (fun p => reclaim_water (p_storage p)) /\
     by_setting eq (fun p => critical_enqueue_timeout_ms (p_ingest p)) /\
     by_setting eq (fun p => queue_capacity (p_ingest p)) /\
     by_setting eq (fun p => pushdown_enabled (p_pushdown p)) /\
     by_setting eq (fun p => trigger_severity (p_pushdown p))) /\
    (buckets_of file <> buckets_of doc -> p_retention out = p_retention doc) /\
    (buckets_of file = buckets_of doc ->
     List.length (p_retention out) = List.length (p_retention now) /\
     forall i z, p_retention now !! i = Some z -> exists r, p_retention out !! i = Some r /\
       bucket_merged (fun y => retuned file doc i y /\ rr_name y = rr_name z) z r /\
       (List.NoDup (bucket_names now) -> in_place file doc now ->
        bucket_merged (fun y => (exists j, retuned file doc j y) /\ rr_name y = rr_name z) z r)).
Proof.
  intros Hf Hd Hn. exists (merged file doc now). split; [by apply overlay_merged|]. split; [|split].
  - cbv zeta. unfold merged. cbn [p_storage p_ingest p_pushdown disk_budget_bytes high_water critical_water reclaim_water
      critical_enqueue_timeout_ms queue_capacity pushdown_enabled trigger_severity].
    split_and!; first [apply follow_three_way|apply follow_eq, Z.eqb_eq|apply follow_eq, Bool.eqb_true_iff].
  - intros Hb. unfold merged. cbn [p_retention]. destruct (same_bucket_structure file doc) eqn:E; [|done].
    by apply same_structure_buckets in E.
  - intros Hb. apply same_structure_buckets in Hb. unfold merged. cbn [p_retention]. rewrite Hb.
    split; [apply length_merge_rules|]. intros i z Hz.
    destruct (merge_rules_at _ _ _ i z (same_structure_length _ _ Hb) Hz) as (r & Hr & Hm).
    exists r. split; [done|]. split; [exact Hm|]. intros Hnd Hp. by apply (merged_by_name file doc now i).
Qed.

Lemma follow_self {A} (eqb : A -> A -> bool) x y : (eqb x y = true -> x = y) -> follow eqb x y x = y.
Proof. unfold follow. destruct (eqb x y); auto. Qed.

Lemma merge_rules_self f d : List.length f = List.length d ->
  forallb (fun xy => String.eqb (rr_name (fst xy)) (rr_name (snd xy)) && (rr_min_severity (fst xy) =? rr_min_severity (snd xy))) (combine f d) = true ->
  merge_rules f d f = d.
Proof.
  revert d. induction f as [|x f IH]; intros [|y d] Hl H; try done. cbn [combine forallb fst snd] in H.
  apply andb_prop in H as [[Hn Hm]%andb_prop H]. apply String.eqb_eq in Hn. apply Z.eqb_eq in Hm.
  cbn [merge_rules]. injection Hl as Hl. rewrite (IH d Hl H). f_equal. rewrite Hn, String.eqb_refl, andb_true_r.
  destruct x as [nx mx sx], y as [ny my sy]. unfold set_secs. cbn [rr_name rr_min_severity rr_secs] in *. subst.
  destruct (sx =? sy) eqn:E; [|done]. apply Z.eqb_eq in E. by subst.
Qed.

Lemma above_positive a b : f64_finite a = true -> f64_finite b = true -> f64_gt a f64_zero = true -> f64_ge a b = false -> f64_gt b f64_zero = true.
Proof.
  unfold f64_ge, f64_gt, f64_zero, SpecFloat.SFltb, SpecFloat.SFleb. intros Ha Hb.
  destruct a as [sa|sa| |sa ma ea], b as [sb|sb| |sb mb eb]; try done; by destruct sa, sb.
Qed.
Lemma below_positive a b : f64_gt a f64_zero = true -> f64_lt a b = true -> f64_gt b f64_zero = true.
Proof.
  unfold f64_lt, f64_gt, f64_zero, SpecFloat.SFltb.
  destruct a as [sa|sa| |sa ma ea], b as [sb|sb| |sb mb eb]; try done; by destruct sa, sb.
Qed.

Lemma follow_Z x y : follow Z.eqb x y x = y.
Proof. apply follow_self. by intros H%Z.eqb_eq. Qed.
Lemma follow_bool x y : follow Bool.eqb x y x = y.
Proof. apply follow_self. by intros H%Bool.eqb_prop. Qed.
Lemma follow_positive x y : f64_gt y f64_zero = true -> follow f64_eq x y x = y.
Proof. intros Hy. apply follow_self. intros [?|Hz]%f64_eq_spec; [done|congruence]. Qed.

(** Laid on the file it was made against, the document comes back. *)
Lemma merged_self file doc : Enforceable doc -> merged file doc file = doc.
Proof.
  intros []. destruct en_finite0 as (F1 & F2 & F3).
  pose proof (above_positive _ _ F1 F2 en_reclaim0 en_below0) as Hp.
  pose proof (below_positive _ _ Hp en_high0) as Hp2.
  unfold merged. rewrite !follow_Z, follow_bool, !follow_positive by done.
  replace (if same_bucket_structure file doc then _ else _) with (p_retention doc); [by destruct doc as [? [] [] []]|].
  destruct (same_bucket_structure file doc) eqn:E; [|done].
  unfold same_bucket_structure in E. apply andb_prop in E as [El E]. apply Nat.eqb_eq in El. by rewrite merge_rules_self.
Qed.

(** ** At concrete documents *)

Definition test_policies : Policies :=
  mkPolicies [mkRule "debug" 0 86400; mkRule "info" 9 604800; mkRule "warn_plus" 13 2592000]
    (mkStorage 1073741824 (f64_dec 8 1) (f64_dec 95 2) (f64_dec 7 1)) (mkIngest 250 65536) (mkPushdown true 17).
(** The operator keeps [info] a day and halves the budget ... *)
Definition tuned : Policies :=
  with_budget 536870912 (set_rules [mkRule "debug" 0 86400; mkRule "info" 9 86400; mkRule "warn_plus" 13 2592000] test_policies).
(** ... and the file is edited later. *)
Definition edited : Policies := with_trigger 21 (with_budget 999 test_policies).

Lemma sound_by p : sound p = true -> Sound p.
Proof. apply sound_spec. Qed.

Lemma validated_is_enforced_witness :
  exists h, handle_apply tuned (mkHandle (mkRuntime [] 0 watermarks_default) false 0 0 test_policies) = inr h /\
    rt_disk_budget_bytes (h_runtime h) = 536870912.
Proof.
  destruct (validated_is_enforced tuned (mkConfig [] 0 f64_zero f64_zero f64_zero 0 0 false 0)
    (mkHandle (mkRuntime [] 0 watermarks_default) false 0 0 test_policies)) as (_ & (h & Hh & He & _) & _).
  - apply sound_by. vm_compute. reflexivity.
  - vm_compute. reflexivity.
  - exists h. split; [exact Hh|]. destruct He. rewrite ef_budget0. reflexivity.
Defined.

Lemma overlay_is_a_merge_witness :
  exists out, overlay edited tuned (overrides_between test_policies tuned) = inr out /\
    trigger_severity (p_pushdown out) = 21 /\ disk_budget_bytes (p_storage out) = 536870912 /\
    exists r, p_retention out !! 1%nat = Some r /\ rr_secs r = 86400.
Proof.
  destruct (overlay_is_a_merge test_policies tuned edited) as (out & Ho & Hs & _ & Hr);
    [apply sound_by; vm_compute; reflexivity..|].
  exists out. split; [exact Ho|]. destruct Hs as ([_ Hs1] & _ & _ & _ & _ & _ & _ & [Hs2 _]).
  split; [exact (Hs2 eq_refl)|]. split; [apply Hs1; vm_compute; discriminate|].
  destruct (Hr eq_refl) as [_ Hb]. destruct (Hb 1%nat (mkRule "info" 9 604800) eq_refl) as (r & H1 & (_ & _ & H2 & _) & _).
  exists r. split; [exact H1|]. apply (H2 (mkRule "info" 9 86400)). split; [|reflexivity]. split; [reflexivity|].
  exists (mkRule "info" 9 604800). split; [reflexivity|discriminate].
Defined.

(** An override of one bucket's seconds is attached by position and name: a bucket inserted
    before it in the file drops the override although the file still defines the bucket. *)
Theorem inserted_bucket_drops_the_override :
  let now := set_rules [mkRule "debug" 0 86400; mkRule "notice" 5 86400; mkRule "info" 9 604800; mkRule "warn_plus" 13 2592000] test_policies in
  let doc := set_rules [mkRule "debug" 0 86400; mkRule "info" 9 86400; mkRule "warn_plus" 13 2592000] test_policies in
  overrides_between test_policies doc = ["retention[1].retention_secs"] /\
  overlay now doc (overrides_between test_policies doc) = inr now /\ validate now = [].
Proof. vm_compute. split; [reflexivity|split; reflexivity]. Qed.
