(* ===== verification/PolicyStore.v ===== *)
(** The persisted runtime policy ([crates/logless-core/src/policy_store.rs]):
    [policy.json], replaced whole, and [policy-audit.jsonl], appended to and
    cut back to its newest entries; and what a start makes of them.

    An effect on the data directory is done, fails, or the process dies in it;
    of a write that fails or dies a first part may be in the file.  A name that
    was renamed stays renamed.  How [serde_json] writes and reads the two kinds
    of document is an argument. *)

From S2P Require Import Prelude Text Float Model Lists Tenancy Json Proto Policy PolicyFacts.
Open Scope string_scope.
Open Scope Z_scope.
Open Scope list_scope.

Definition POLICY_SCHEMA_VERSION : Z := 1.
Definition AUDIT_COMPACT_BYTES : Z := 8 * 1024 * 1024.
Definition AUDIT_KEEP : nat := 500.

Record PolicyFile := mkPolicyFile {
  schema_version : Z;
  pf_version : Z;
  pf_updated_at_ms : Z;
  pf_updated_by : string;
  pf_overrides : list string;
  document : Policies
}.

Record AuditEntry := mkAudit {
  ts_ms : Z;
  actor : string;
  ae_version : Z;
  ae_diff : list DiffEntry;
  impact_summary : Json;
  policies : Policies
}.

(** [Io] names the file, not the error of the system. *)
Inductive Name := PolicyName | PolicyTmp | AuditName | AuditTmp.
Inductive StoreError := Io (path : Name) | Corrupt (message : string) | Schema (found : Z) | Invalid (problem : string).

Record Disk := mkDisk {
  d_policy : option bytes;
  d_policy_tmp : option bytes;
  d_audit : option bytes;
  d_audit_tmp : option bytes
}.
Definition set_policy (v : option bytes) (d : Disk) : Disk := mkDisk v (d_policy_tmp d) (d_audit d) (d_audit_tmp d).
Definition set_policy_tmp (v : option bytes) (d : Disk) : Disk := mkDisk (d_policy d) v (d_audit d) (d_audit_tmp d).
Definition set_audit (v : option bytes) (d : Disk) : Disk := mkDisk (d_policy d) (d_policy_tmp d) v (d_audit_tmp d).
Definition set_audit_tmp (v : option bytes) (d : Disk) : Disk := mkDisk (d_policy d) (d_policy_tmp d) (d_audit d) v.

(** ** Effects *)

(** [Fails n] and [Dies n] leave the first [n] bytes of a write. *)
Inductive Outcome := Done | Fails (n : nat) | Dies (n : nat).
Inductive Stop := Failed (e : StoreError) | Died.
Definition M (A : Type) : Type := SE (Disk * list Outcome) Stop A.

Definition take_outcome : M Outcome := fun s =>
  match snd s with
  | [] => (inr Done, s)
  | o :: rest => (inr o, (fst s, rest))
  end.
Definition update (f : Disk -> Disk) : M unit := modify (fun s => (f (fst s), snd s)).

(** [full] is what the effect does, [part n] what is left when it does not come to its end. *)
Definition effect (name : Name) (part : nat -> Disk -> Disk) (full : Disk -> Disk) : M unit :=
  o ← take_outcome;
  match o with
  | Done => update full
  | Fails n => update (part n);; fail (Failed (Io name))
  | Dies n => update (part n);; fail Died
  end.
Definition nothing (n : nat) (d : Disk) : Disk := d.
(** An effect whose failure is not looked at. *)
Definition attempt : M bool :=
  o ← take_outcome;
  match o with Done => mret true | Fails _ => mret false | Dies _ => fail Died end.

(** Appending to a file that is open. *)
Definition appended (b : bytes) (c : option bytes) : option bytes := Some (default [] c ++ b).

(** The lines of [BufRead::lines]: ended by a newline, or by the end of the file. *)
Fixpoint raw_lines (body : bytes) : list bytes :=
  match body with
  | [] => []
  | b :: rest =>
      if N.eqb (Byte.to_N b) 10 then [] :: raw_lines rest
      else match raw_lines rest with
           | line :: lines => (b :: line) :: lines
           | [] => [[b]]
           end
  end.
Definition newline : byte := Byte.x0a.
Definition ends_line (body : bytes) : bool := match last body with Some b => N.eqb (Byte.to_N b) 10 | None => true end.

Definition blank (line : bytes) : bool := String.eqb (trim (string_of_list_byte line)) "".

Section Serde.
Context (file_text : PolicyFile -> bytes) (file_of : bytes -> string + PolicyFile).
Context (entry_text : AuditEntry -> bytes) (entry_of : bytes -> option AuditEntry).

Definition read_policy_file : M (option PolicyFile) :=
  o ← take_outcome;
  match o with
  | Dies _ => fail Died
  | Fails _ => fail (Failed (Io PolicyName))
  | Done =>
      text ← gets (fun s : Disk * list Outcome => d_policy (fst s));
      match text with
      | None => mret None
      | Some body =>
          if negb (utf8 body) then fail (Failed (Io PolicyName))
          else match file_of body with
               | inl message => fail (Failed (Corrupt message))
               | inr file =>
                   if negb (schema_version file =? POLICY_SCHEMA_VERSION) then fail (Failed (Schema (schema_version file)))
                   else if pf_version file =? u64_max
                   then fail (Failed (Corrupt "version is at its maximum, so no further version can be written"))
                   else mret (Some file)
               end
      end
  end.

Definition write_policy_file (file : PolicyFile) : M unit :=
  let body := file_text file in
  effect PolicyTmp nothing (set_policy_tmp (Some []));;
  effect PolicyTmp (fun n => set_policy_tmp (Some (firstn n body))) (set_policy_tmp (Some body));;
  effect PolicyTmp nothing (fun d => d);;
  effect PolicyName nothing (fun d => set_policy_tmp None (set_policy (d_policy_tmp d) d));;
  attempt;;
  mret tt.

(** Entries oldest first; a line that does not parse is left out. *)
Fixpoint parse_audit (lines : list bytes) : option (list AuditEntry) :=
  match lines with
  | [] => Some []
  | line :: rest =>
      if negb (utf8 line) then None
      else
        entries ← parse_audit rest;
        Some (if blank line then entries
              else match entry_of line with Some e => e :: entries | None => entries end)
  end.

Definition read_audit : M (list AuditEntry) :=
  o ← take_outcome;
  match o with
  | Dies _ => fail Died
  | Fails _ => fail (Failed (Io AuditName))
  | Done =>
      text ← gets (fun s : Disk * list Outcome => d_audit (fst s));
      match parse_audit (raw_lines (default [] text)) with
      | Some entries => mret entries
      | None => fail (Failed (Io AuditName))
      end
  end.

Definition entry_line (e : AuditEntry) : bytes := entry_text e ++ [newline].

(** One write for each entry kept. *)
Fixpoint write_lines (entries : list AuditEntry) : M unit :=
  match entries with
  | [] => mret tt
  | e :: rest =>
      effect AuditTmp (fun n d => set_audit_tmp (appended (firstn n (entry_line e)) (d_audit_tmp d)) d)
        (fun d => set_audit_tmp (appended (entry_line e) (d_audit_tmp d)) d);;
      write_lines rest
  end.

Definition newest (entries : list AuditEntry) : list AuditEntry := drop (List.length entries - AUDIT_KEEP) entries.

Definition compact_audit : M unit :=
  entries ← read_audit;
  effect AuditTmp nothing (set_audit_tmp (Some []));;
  write_lines (newest entries);;
  effect AuditTmp nothing (fun d => d);;
  effect AuditName nothing (fun d => set_audit_tmp None (set_audit (d_audit_tmp d) d)).

Definition append_audit (e : AuditEntry) : M unit :=
  effect AuditName nothing (fun d => set_audit (Some (default [] (d_audit d))) d);;
  effect AuditName (fun n d => set_audit (appended (firstn n (entry_line e)) (d_audit d)) d)
    (fun d => set_audit (appended (entry_line e) (d_audit d)) d);;
  effect AuditName nothing (fun d => d);;
  found ← attempt;
  len ← gets (fun s : Disk * list Outcome => Z.of_nat (List.length (default [] (d_audit (fst s)))));
  if AUDIT_COMPACT_BYTES <? (if found : bool then len else 0) then compact_audit else mret tt.

Definition recovered_entry (file : PolicyFile) : AuditEntry :=
  mkAudit (pf_updated_at_ms file) (pf_updated_by file) (pf_version file) []
    (JObj [("note", JStr "audit line was lost to a crash; diff unknown"); ("recovered", JBool true)]) (document file).

Definition reconcile_audit (file : PolicyFile) : M bool :=
  entries ← read_audit;
  if existsb (fun e => ae_version e =? pf_version file) entries then mret false
  else append_audit (recovered_entry file);; mret true.

Definition load_effective (file_defaults : Policies) : M (Policies * option PolicyFile) :=
  found ← read_policy_file;
  match found with
  | None => mret (file_defaults, None)
  | Some file =>
      match overlay file_defaults (document file) (pf_overrides file) with
      | inl problem => fail (Failed (Invalid problem))
      | inr effective =>
          match validate effective with
          | p :: _ => fail (Failed (Invalid (cat [pr_path p; ": "; pr_message p])))
          | [] => reconcile_audit file;; mret (effective, Some file)
          end
      end
  end.
End Serde.
