(* ===== verification/PolicyStoreFacts.v ===== *)
(** What the persisted policy promises: [policy.json] is the old document or
    the new one whatever fails, a start reads back what was written, and the
    audit log goes on reading unless a line is cut inside a character. *)

From S2P Require Import Prelude Text Float Model Lists Tenancy Json Proto Utf8 Hoare Policy PolicyFacts PolicyStore.
Open Scope string_scope.
Open Scope Z_scope.
Open Scope list_scope.

(** A property of the disk, whatever is to come. *)
Definition on (P : Disk -> Prop) : Disk * list Outcome -> Prop := fun s => P (fst s).
Abbreviation dhoare P m Q X := (hoare (on P) m (fun a => on (Q a)) (fun e => on (X e))).
Abbreviation dkeeps P m := (keeps (on P) m).

Lemma h_take {A} P X (k : Outcome -> M A) (Q : A -> Disk -> Prop) :
  (forall o, dhoare P (k o) Q X) -> dhoare P (o ← take_outcome; k o) Q X.
Proof.
  intros H. eapply h_bind with (Q := fun _ => on P); [|exact H].
  intros [d [|o os]] Hs; exact Hs.
Qed.

Lemma h_update (P Q : Disk -> Prop) (f : Disk -> Disk) (X : Stop -> Disk -> Prop) : (forall d, P d -> Q (f d)) ->
  dhoare P (update f) (fun _ => Q) X.
Proof. intros H [d os] Hs. by apply H. Qed.

Lemma h_effect name part full (P : Disk -> Prop) (Q : Disk -> Prop) (X : Stop -> Disk -> Prop) :
  (forall d, P d -> Q (full d)) -> (forall n d, P d -> X (Failed (Io name)) (part n d)) -> (forall n d, P d -> X Died (part n d)) ->
  dhoare P (effect name part full) (fun _ => Q) X.
Proof.
  intros Hf Hp Hd. unfold effect. apply h_take. intros [|n|n].
  - by apply (h_update P Q full X).
  - eapply h_bind; [apply (h_update P (X (Failed (Io name))) _ X); auto|intros u; by apply h_fail].
  - eapply h_bind; [apply (h_update P (X Died) _ X); auto|intros u; by apply h_fail].
Qed.

Lemma h_attempt (P : Disk -> Prop) (X : Stop -> Disk -> Prop) : (forall d, P d -> X Died d) ->
  dhoare P attempt (fun _ => P) X.
Proof. intros H [d [|[] os]] Hs; [exact Hs..|by apply H]. Qed.

Lemma hoare_eq {A B} (x y : B) P (m : M A) Q X : (x = y -> dhoare P m Q X) -> dhoare (fun d => x = y /\ P d) m Q X.
Proof. intros H s [E Hs]. by apply H. Qed.

Lemma k_effect (P : Disk -> Prop) name part full :
  (forall d, P d -> P (full d)) -> (forall n d, P d -> P (part n d)) -> dkeeps P (effect name part full).
Proof. intros. apply (h_effect _ _ _ P P (fun _ => P)); auto. Qed.
Lemma k_take {A} (P : Disk -> Prop) (k : Outcome -> M A) : (forall o, dkeeps P (k o)) -> dkeeps P (o ← take_outcome; k o).
Proof. intros H. apply k_bind; [|exact H]. intros [d [|o os]] Hs; exact Hs. Qed.
Lemma k_attempt (P : Disk -> Prop) : dkeeps P attempt.
Proof. by apply h_attempt. Qed.

(** A run in which nothing fails. *)
Definition calm (P : Disk -> Prop) : Disk * list Outcome -> Prop := fun s => P (fst s) /\ snd s = [].
Abbreviation runs P m Q := (hoare (calm P) m (fun a => calm (Q a)) (fun _ _ => False)).

Section Document.
Context (file_text : PolicyFile -> bytes).

(** ** The document *)

(** Replacing the document: on success it is the new one, on an error the old
    one, and a process that dies leaves one of the two; the audit log is not touched. *)
Lemma write_atomic file old audit :
  dhoare (fun d => d_policy d = old /\ d_audit d = audit) (write_policy_file file_text file)
    (fun _ d => d_policy d = Some (file_text file) /\ d_audit d = audit)
    (fun e d => (d_policy d = old \/ e = Died /\ d_policy d = Some (file_text file)) /\ d_audit d = audit).
Proof.
  unfold write_policy_file. cbv zeta.
  eapply h_bind; [apply (h_effect _ _ _ _ (fun d => d_policy d = old /\ d_audit d = audit)); naive_solver|intros u1].
  eapply h_bind; [apply (h_effect _ _ _ _ (fun d => (d_policy d = old /\ d_audit d = audit) /\ d_policy_tmp d = Some (file_text file))); naive_solver|intros u2].
  eapply h_bind; [apply (h_effect _ _ _ _ (fun d => (d_policy d = old /\ d_audit d = audit) /\ d_policy_tmp d = Some (file_text file))); naive_solver|intros u3].
  eapply h_bind; [apply (h_effect _ _ _ _ (fun d => d_policy d = Some (file_text file) /\ d_audit d = audit)); naive_solver|intros u4].
  eapply h_bind; [apply h_attempt; naive_solver|intros u5]. intros s Hs. exact Hs.
Qed.

End Document.

Section Appending.
Context (entry_text : AuditEntry -> bytes) (entry_of : bytes -> option AuditEntry).

Lemma write_lines_policy old es : dkeeps (fun d => d_policy d = old) (write_lines entry_text es).
Proof.
  induction es as [|e es IH]; [apply k_ret|]. cbn [write_lines]. apply k_bind; [by apply k_effect|]. intros u. exact IH.
Qed.

Lemma read_audit_keeps P : dkeeps P (read_audit entry_of).
Proof.
  apply k_take. intros [| |]; try apply k_fail. apply k_bind; [apply k_gets|]. intros text.
  destruct (parse_audit _ _); [apply k_ret|apply k_fail].
Qed.

Lemma append_policy old e : dkeeps (fun d => d_policy d = old) (append_audit entry_text entry_of e).
Proof.
  unfold append_audit, compact_audit. repeat (apply k_bind; [by (apply k_effect || apply k_attempt || apply k_gets)|intros ?]).
  destruct (_ <? _); [|apply k_ret].
  apply k_bind; [apply read_audit_keeps|intros es].
  apply k_bind; [by apply k_effect|intros ?]. apply k_bind; [apply write_lines_policy|intros ?].
  apply k_bind; [by apply k_effect|intros ?]. by apply k_effect.
Qed.

End Appending.

Section Loading.
Context (file_text : PolicyFile -> bytes) (file_of : bytes -> string + PolicyFile).
Context (entry_text : AuditEntry -> bytes) (entry_of : bytes -> option AuditEntry).

(** A document that reads back as it was written. *)
Record Readable (f : PolicyFile) : Prop := {
  rd_parse : file_of (file_text f) = inr f;
  rd_utf8 : utf8 (file_text f) = true;
  rd_schema : schema_version f = POLICY_SCHEMA_VERSION;
  rd_version : pf_version f <> u64_max
}.

(** What a start makes of the data directory: nothing is made up.  It goes on with the file's
    defaults, or with the document found laid on them, or it stops. *)
Lemma load_finds f defaults p : Readable f -> overlay defaults (document f) (pf_overrides f) = inr p -> validate p = [] ->
  dhoare (fun d => d_policy d = Some (file_text f)) (load_effective file_of entry_text entry_of defaults)
    (fun r d => r = (p, Some f) /\ d_policy d = Some (file_text f)) (fun e d => d_policy d = Some (file_text f)).
Proof.
  intros [Rp Ru Rs Rv] Ho Hv. unfold load_effective.
  eapply h_bind with (Q := fun r => on (fun d => r = Some f /\ d_policy d = Some (file_text f))).
  - unfold read_policy_file. apply h_take. intros [| |]; try by apply h_fail.
    eapply h_bind; [apply h_gets|intros text]. intros s [Hs ->]. unfold on in Hs. rewrite Hs, Ru, Rp, Rs, Z.eqb_refl.
    cbn [negb]. by rewrite (proj2 (Z.eqb_neq _ _) Rv).
  - intros r s [-> Hs]. rewrite Ho, Hv. revert s Hs.
    eapply h_bind with (Q := fun _ => on (fun d => d_policy d = Some (file_text f))); [|by intros ? s Hs].
    unfold reconcile_audit. apply k_bind; [apply read_audit_keeps|intros es].
    destruct (existsb _ es); [apply k_ret|]. apply k_bind; [apply append_policy|intros ?; apply k_ret].
Qed.
End Loading.

(** ** The audit log *)

Section Log.
Context (entry_text : AuditEntry -> bytes) (entry_of : bytes -> option AuditEntry).


Abbreviation history b := (parse_audit entry_of (raw_lines b)).
Definition log_of (d : Disk) : bytes := default [] (d_audit d).

Definition is_newline (b : byte) : bool := N.eqb (Byte.to_N b) 10.

Lemma raw_lines_line t : forallb (fun b => negb (is_newline b)) t = true -> raw_lines (t ++ [newline]) = [t].
Proof.
  induction t as [|x t IH]; [done|]. cbn [forallb app]. intros [Hx Ht]%andb_prop. apply negb_true_iff in Hx.
  cbn [raw_lines]. unfold is_newline in Hx. rewrite Hx. by rewrite IH.
Qed.

Lemma raw_lines_nil b : raw_lines b = [] -> b = [].
Proof. destruct b as [|x b]; [done|]. cbn [raw_lines]. destruct (N.eqb _ _); [done|]. by destruct (raw_lines b). Qed.

Lemma raw_lines_app a b : ends_line a = true -> raw_lines (a ++ b) = raw_lines a ++ raw_lines b.
Proof.
  induction a as [|x a IH]; intros H; [done|]. cbn [app raw_lines].
  destruct a as [|y a]; [unfold ends_line in H; cbn in H; by rewrite H|].
  rewrite IH by exact H. destruct (N.eqb _ _); [done|].
  destruct (raw_lines (y :: a)) eqn:E; [by apply raw_lines_nil in E|done].
Qed.

Lemma ends_line_app a b : ends_line (a ++ b ++ [newline]) = true.
Proof. unfold ends_line. by rewrite app_assoc, last_snoc. Qed.

(** The temporary file grows line by line; the log itself stays. *)
Lemma write_lines_grow b : forall es done_,
  dhoare (fun d => d_audit d = b /\ d_audit_tmp d = Some done_) (write_lines entry_text es)
    (fun _ d => d_audit d = b /\ d_audit_tmp d = Some (done_ ++ concat (List.map (entry_line entry_text) es)))
    (fun _ d => d_audit d = b).
Proof.
  induction es as [|e es IH]; intros done_.
  - cbn [write_lines List.map concat]. rewrite app_nil_r. intros s Hs. exact Hs.
  - cbn [write_lines]. eapply h_bind.
    + apply (h_effect _ _ _ _ (fun d => d_audit d = b /\ d_audit_tmp d = Some (done_ ++ entry_line entry_text e)));
        [|naive_solver..].
      intros d [Hd Ht]. split; [done|]. cbn. by rewrite Ht.
    + intros u. cbn [List.map concat]. rewrite app_assoc. apply IH.
Qed.

(** ** A start on a disk that works *)

Lemma r_effect name part full (P Q : Disk -> Prop) : (forall d, P d -> Q (full d)) -> runs P (effect name part full) (fun _ => Q).
Proof. intros H [d os] [Hd E]. cbn in E. subst os. by split; [apply H|]. Qed.
Lemma r_attempt (P : Disk -> Prop) : runs P attempt (fun _ => P).
Proof. intros [d os] [Hd E]. cbn in E. by subst os. Qed.
Lemma r_ret {A} (P : Disk -> Prop) (a : A) : runs P (mret a : M A) (fun _ => P).
Proof. by intros s Hs. Qed.
Lemma r_read (P : Disk -> Prop) : (forall d, P d -> exists es, history (log_of d) = Some es) -> runs P (read_audit entry_of) (fun _ => P).
Proof.
  intros H [d os] [Hd E]. cbn in E, Hd. subst os. destruct (H d Hd) as [es Hes]. unfold log_of in Hes.
  unfold read_audit, mbind, SE_bind, take_outcome, gets. cbn [fst snd]. by rewrite Hes.
Qed.

(** What [serde_json] writes is UTF-8 on one line. *)
Hypothesis text_utf8 : forall e, utf8 (entry_text e) = true.
Hypothesis text_line : forall e, forallb (fun b => negb (is_newline b)) (entry_text e) = true.

(** What a text of one line adds to the lines before it: it goes on the last
    of them when that one was not ended. *)
Lemma raw_lines_behind b t line : raw_lines t = [line] -> exists ls l, raw_lines (b ++ t) = ls ++ [l ++ line] /\
  (raw_lines b = ls ++ [l] \/ raw_lines b = ls /\ l = []).
Proof.
  intros Ht. induction b as [|x b (ls & l & H & Hb)]; cbn [app raw_lines].
  - exists [], []. split; [done|by right].
  - destruct (N.eqb _ _).
    + exists ([] :: ls), l. rewrite H. split; [done|]. destruct Hb as [->|[-> ->]]; [by left|by right].
    + rewrite H. destruct Hb as [Hb|[Hb ->]].
      * rewrite Hb. destruct ls as [|l0 ls]; cbn [app]; [exists [], (x :: l)|exists ((x :: l0) :: ls), l]; (split; [done|by left]).
      * destruct ls as [|l0 ls]; cbn [app] in *.
        -- exists [], [x]. split; [done|]. left. by rewrite Hb.
        -- exists ((x :: l0) :: ls), []. split; [done|]. right. by rewrite Hb.
Qed.

Lemma raw_lines_one t : forallb (fun b => negb (is_newline b)) t = true -> t <> [] -> raw_lines t = [t].
Proof.
  induction t as [|x t IH]; [done|]. cbn [forallb]. intros [Hx Ht]%andb_prop _. apply negb_true_iff in Hx.
  cbn [raw_lines]. unfold is_newline in Hx. rewrite Hx. destruct t as [|y t]; [done|]. by rewrite IH.
Qed.

Lemma forallb_firstn {A} (p : A -> bool) n l : forallb p l = true -> forallb p (firstn n l) = true.
Proof. revert n. induction l as [|x l IH]; intros [|n]; try done. cbn. intros [-> H]%andb_prop. by rewrite IH. Qed.

Lemma parse_some ls : (exists es, parse_audit entry_of ls = Some es) <-> Forall (fun l => utf8 l = true) ls.
Proof.
  induction ls as [|l ls IH]; cbn [parse_audit]; [split; [constructor|by eexists]|]. rewrite Forall_cons, <-IH.
  destruct (utf8 l); cbn [negb]; [|split; [by intros []|by intros [? _]]].
  destruct (parse_audit entry_of ls); cbn; split; naive_solver.
Qed.

(** A log that reads goes on reading when a text of whole characters on one
    line is added, whatever its last line. *)
Lemma readable_text b t line : raw_lines t = [line] -> utf8 line = true ->
  (exists es, history b = Some es) -> exists es, history (b ++ t) = Some es.
Proof.
  rewrite !parse_some. intros Ht Hu. destruct (raw_lines_behind b t line Ht) as (ls & l & -> & [->|[-> ->]]).
  - rewrite !Forall_app, !Forall_singleton. intros [H Hl]. split; [done|]. by rewrite utf8_app.
  - rewrite !Forall_app, !Forall_singleton. intros H. by split.
Qed.

Lemma readable_line b e : (exists es, history b = Some es) -> exists es, history (b ++ entry_line entry_text e) = Some es.
Proof. apply (readable_text b _ (entry_text e)); [by apply raw_lines_line|done]. Qed.

(** Of a line that was cut the log holds whole characters, or it does not. *)
Definition cut_inside (text before after : bytes) : Prop :=
  exists n, utf8 (firstn n text) = false /\ after = before ++ firstn n text.

Lemma readable_part b e n : (exists es, history b = Some es) ->
  (exists es, history (b ++ firstn n (entry_line entry_text e)) = Some es) \/
  cut_inside (entry_text e) b (b ++ firstn n (entry_line entry_text e)).
Proof.
  intros Hb. unfold entry_line. destruct (decide (n <= List.length (entry_text e))%nat) as [Hn|Hn].
  - rewrite firstn_app. replace (n - List.length (entry_text e))%nat with 0%nat by lia. rewrite firstn_O, app_nil_r.
    destruct (utf8 (firstn n (entry_text e))) eqn:Eu; [left|right; by exists n].
    destruct (firstn n (entry_text e)) as [|x t] eqn:E; [by rewrite app_nil_r|]. rewrite <- E in *.
    apply (readable_text b _ (firstn n (entry_text e))); [|done|done].
    apply raw_lines_one; [by apply forallb_firstn|by rewrite E].
  - left. rewrite firstn_all2 by (rewrite length_app; cbn [List.length]; lia). by apply readable_line.
Qed.

Lemma lines_readable es : Forall (fun l => utf8 l = true) (raw_lines (concat (List.map (entry_line entry_text) es))).
Proof.
  induction es as [|e es IH]; [constructor|]. cbn [List.map concat]. rewrite raw_lines_app by apply (ends_line_app []).
  apply Forall_app. split; [|done]. unfold entry_line. rewrite raw_lines_line by done. constructor; [done|constructor].
Qed.

Definition readable (pol : option bytes) (d : Disk) : Prop := d_policy d = pol /\ exists es, history (log_of d) = Some es.

Lemma r_write_lines pol b : forall es done_,
  runs (fun d => d_policy d = pol /\ d_audit d = b /\ d_audit_tmp d = Some done_) (write_lines entry_text es)
    (fun _ d => d_policy d = pol /\ d_audit_tmp d = Some (done_ ++ concat (List.map (entry_line entry_text) es))).
Proof.
  induction es as [|e es IH]; intros done_.
  - cbn [write_lines List.map concat]. rewrite app_nil_r. intros s [(?&?&?) ?]. by repeat split.
  - cbn [write_lines]. eapply h_bind.
    + apply (r_effect _ _ _ _ (fun d => d_policy d = pol /\ d_audit d = b /\ d_audit_tmp d = Some (done_ ++ entry_line entry_text e))).
      intros d (? & ? & Ht). cbn. by rewrite Ht.
    + intros u. cbn [List.map concat]. rewrite app_assoc. apply IH.
Qed.

Lemma r_append pol e : runs (readable pol) (append_audit entry_text entry_of e) (fun _ => readable pol).
Proof.
  unfold append_audit.
  eapply h_bind; [apply (r_effect _ _ _ _ (fun d => d_policy d = pol /\ exists b, d_audit d = Some b /\ exists es, history b = Some es))|intros u1].
  { intros d [Hp He]. split; [done|]. by exists (log_of d). }
  eapply h_bind; [apply (r_effect _ _ _ _ (readable pol))|intros u2].
  { intros d (Hp & b & Hb & He). split; [done|]. unfold log_of. cbn. rewrite Hb. by apply readable_line. }
  eapply h_bind; [by apply (r_effect _ _ _ _ (readable pol))|intros u3].
  eapply h_bind; [apply r_attempt|intros found].
  eapply h_bind; [apply h_gets|intros len]. eapply h_pre with (P' := calm (readable pol)); [|by intros s [? _]].
  destruct (_ <? _); [|apply r_ret]. unfold compact_audit.
  eapply h_bind; [apply r_read; by intros d []|intros es].
  eapply h_bind; [apply (r_effect _ _ _ _ (fun d => d_policy d = pol /\ d_audit_tmp d = Some []))|intros u4].
  { by intros d []. }
  intros s [[Hp Ht] Hs].
  pose proof (r_write_lines pol (d_audit (fst s)) (newest es) [] s (conj (conj Hp (conj eq_refl Ht)) Hs)) as H.
  unfold mbind, SE_bind. destruct (write_lines _ _ s) as [[er|u] s1]; [done|]. revert s1 H.
  eapply h_bind; [apply (r_effect _ _ _ _ (fun d => d_policy d = pol /\ d_audit_tmp d = Some (concat (List.map (entry_line entry_text) (newest es)))))|intros u5].
  { by intros d []. }
  apply r_effect. intros d [Hp' Hd]. split; [done|]. unfold log_of. cbn. rewrite Hd. apply parse_some, lines_readable.
Qed.

(** ** An append that fails *)

Abbreviation reads := (fun b => exists es, history b = Some es).

(** Cutting the log back leaves a log that reads, or the log as it was. *)
Lemma compact_reads b : reads b ->
  dhoare (fun d => d_audit d = Some b) (compact_audit entry_text entry_of) (fun _ d => reads (log_of d)) (fun _ d => d_audit d = Some b).
Proof.
  intros Hb. unfold compact_audit. eapply h_bind; [apply read_audit_keeps|intros es].
  eapply h_bind; [apply (h_effect _ _ _ _ (fun d => d_audit d = Some b /\ d_audit_tmp d = Some [])); naive_solver|intros u1].
  eapply h_bind; [eapply h_weak; [apply (write_lines_grow (Some b) (newest es) [])|done|done|done]|intros u2]. cbn [app].
  eapply h_bind; [apply (h_effect _ _ _ _ (fun d => d_audit d = Some b /\ d_audit_tmp d = Some (concat (List.map (entry_line entry_text) (newest es))))); naive_solver|intros u3].
  apply (h_effect _ _ _ _ (fun d => reads (log_of d))); [|naive_solver..].
  intros d [_ Hd]. unfold log_of. cbn. rewrite Hd. apply parse_some, lines_readable.
Qed.

(** Adding an entry, whatever fails or dies in it: the log still reads, or the
    entry's line was cut inside a character. *)
Lemma append_reads b e : reads b ->
  dhoare (fun d => log_of d = b) (append_audit entry_text entry_of e) (fun _ d => reads (log_of d))
    (fun _ d => reads (log_of d) \/ cut_inside (entry_text e) b (log_of d)).
Proof.
  intros Hb. unfold append_audit.
  eapply h_bind; [apply (h_effect _ _ _ _ (fun d => d_audit d = Some b))|intros u1].
  { intros d <-. done. }
  1, 2: intros n d Hd; left; unfold nothing; by rewrite Hd.
  set (whole := fun d => exists c, d_audit d = Some c /\ reads c).
  assert (forall d, whole d -> reads (log_of d)) as Hwhole by (intros d (c & Hd & Hc); unfold log_of; by rewrite Hd).
  eapply h_bind; [apply (h_effect _ _ _ _ whole)|intros u2].
  { intros d Hd. eexists. split; [cbn; by rewrite Hd|]. by apply readable_line. }
  1, 2: intros n d Hd; unfold log_of; cbn; rewrite Hd; cbn [default]; by apply readable_part.
  eapply h_bind; [apply (h_effect _ _ _ _ whole); auto|intros u3].
  eapply h_bind; [apply (h_attempt whole); auto|intros found].
  eapply h_bind; [apply (h_gets (on whole))|intros len]. destruct (_ <? _).
  - intros s [(c & Hd & Hc) _]. pose proof (compact_reads c Hc s Hd) as H.
    destruct (compact_audit entry_text entry_of s) as [[er|u] s']; [|exact H].
    left. unfold on in H. unfold log_of. by rewrite H.
  - intros s [Hs _]. by apply Hwhole.
Qed.

End Log.

Section Start.
Context (file_text : PolicyFile -> bytes) (file_of : bytes -> string + PolicyFile).
Context (entry_text : AuditEntry -> bytes) (entry_of : bytes -> option AuditEntry).
Hypothesis text_utf8 : forall e, utf8 (entry_text e) = true.
Hypothesis text_line : forall e, forallb (fun b => negb (is_newline b)) (entry_text e) = true.
Abbreviation kept pol := (readable entry_of pol).

(** A start with nothing failing goes on with what it finds. *)
Lemma r_load f defaults p : Readable file_text file_of f -> overlay defaults (document f) (pf_overrides f) = inr p -> validate p = [] ->
  runs (kept (Some (file_text f))) (load_effective file_of entry_text entry_of defaults)
    (fun r d => r = (p, Some f) /\ kept (Some (file_text f)) d).
Proof.
  intros [Rp Ru Rs Rv] Ho Hv s [[Hd He] Hs]. destruct s as [d os]. cbn in Hs, Hd. subst os.
  unfold load_effective, read_policy_file, mbind, SE_bind, take_outcome, gets. cbn [fst snd].
  rewrite Hd, Ru, Rp, Rs, Z.eqb_refl, (proj2 (Z.eqb_neq _ _) Rv). cbn [negb]. unfold mret, SE_ret. rewrite Ho, Hv.
  assert (runs (kept (Some (file_text f))) (reconcile_audit entry_text entry_of f) (fun _ => kept (Some (file_text f)))) as Hr.
  { unfold reconcile_audit. eapply h_bind; [apply r_read; by intros d' []|intros es].
    destruct (existsb _ es); [apply r_ret|]. eapply h_bind; [by apply r_append|intros u; apply r_ret]. }
  specialize (Hr (d, []) ltac:(by repeat split)). destruct (reconcile_audit _ _ _ _) as [[er|u] s1]; [done|]. by destruct Hr.
Qed.

Lemma r_load_none defaults : runs (kept None) (load_effective file_of entry_text entry_of defaults)
  (fun r d => r = (defaults, None) /\ kept None d).
Proof.
  intros [d os] [[Hd He] Hs]. cbn in Hs, Hd. subst os.
  unfold load_effective, read_policy_file, mbind, SE_bind, take_outcome, gets. cbn [fst snd]. rewrite Hd. by repeat split.
Qed.
End Start.
