(* ===== verification/PolicyImpact.v ===== *)
(** What a policy would delete ([crates/logless-core/src/policy_impact.rs]): the
    plan of a maintenance pass under a policy, made with retention's dry run and
    relief's own order; what a change deletes beyond the policy in force; the
    token a confirmation carries; and the buckets a change would strand.

    The digest is an argument; so is which statement of the catalog fails. *)

From stdpp Require Import sorting.
From S2P Require Import Prelude Text Float Model Lists Base64 Partition Tenancy PartsEdge Retention Budget Json Policy.
From S2P Require Catalog.
Open Scope string_scope.
Open Scope Z_scope.
Open Scope list_scope.

Inductive PlanError := CatalogFailed (message : string) | BadPolicy (message : string) | NoTenant.

(** The store directory and what is in it, and the bytes of the log directories. *)
Record Locations := mkLocations { store_dir : path; store : option Node; wal : Z; late : Z; base : Tenancy }.

(** [set_default_buckets] panics on a tenancy with no tenant; the configuration has one. *)
Definition tenancy_under (loc : Locations) (p : Policies) : PlanError + Tenancy :=
  match policy_buckets p with
  | inl e => inl (BadPolicy (show_error e))
  | inr b => match set_default_buckets b (base loc) with Some t => inr t | None => inl NoTenant end
  end.

Record Plan := mkPlan {
  pl_expired : list ExpiredPartition;
  expired_files : gmap string Z;
  pl_reclaim : ReclaimReport;
  used_before : Z;
  budget : Z;
  doomed_paths : gset path
}.

Record BucketImpact := mkBucketImpact { bi_name : string; bi_files : Z; bi_bytes : Z }.
Record RetentionImpact := mkRetentionImpact { would_expire_files : Z; would_expire_bytes : Z; per_bucket : list BucketImpact }.
Record DiskImpact := mkDiskImpact { used_bytes : Z; di_budget_bytes : Z; fraction_after : f64; would_reclaim : Z }.
Record Impact := mkImpact { im_retention : RetentionImpact; im_disk : DiskImpact }.
Record Preview := mkPreview { impact : Impact; destructive : bool; lossy : list Problem; impact_token : string }.

Definition sum64 {A} (f : A -> Z) (l : list A) : Z := foldl (fun acc x => wadd64 acc (f x)) 0 l.

Fixpoint count_files (x : Node) : Z :=
  match x with
  | File _ => 0
  | Dir es => foldl (fun acc e => wadd64 acc (match snd e with File _ => 1 | Dir _ => count_files (snd e) end)) 0 es
  end.

(** The dry run looks at the store only. *)
Definition dry_run (loc : Locations) (t : Tenancy) (now : Z) : RetentionReport :=
  fst (enforce_pinned (fun _ _ => None) (fun _ => None) (fun _ => true) t now true pins_default "not a directory" (store_dir loc) (store loc)).

Definition node_in (loc : Locations) (p : path) : Z :=
  match store loc ≫= (fun x => node_at x (drop (List.length (store_dir loc)) p)) with Some x => count_files x | None => 0 end.

Definition count_expired (loc : Locations) (m : gmap string Z) (e : ExpiredPartition) : gmap string Z :=
  <[bucket (e_key e) := wadd64 (default 0 (m !! bucket (e_key e))) (node_in loc (e_path e))]> m.

Section Plan.
Context (db : DbCall -> option string).

Definition plan (loc : Locations) (catalog : Budget.Catalog) (policies : Policies) (now : Z) : PlanError + Plan :=
  match tenancy_under loc policies with
  | inl e => inl e
  | inr t =>
      let wm := watermarks policies in
      let report := dry_run loc t now in
      match db ListForReclaim with
      | Some e => inl (CatalogFailed e)
      | None =>
          let remaining := List.filter (fun f => negb (existsb (fun e => starts_with_path (e_path e) (f_path f)) (expired report)))
                             (list_files catalog) in
          let files := foldl (count_expired loc) ∅ (expired report) in
          let wal_bytes := wadd64 (wal loc) (late loc) in
          match db Totals, totals catalog with
          | Some e, _ => inl (CatalogFailed e)
          | None, None => inl (CatalogFailed "integer overflow")
          | None, Some (_, store_bytes_all) =>
              let usage_after := mkUsage wal_bytes (sum64 (fun f => st_bytes (f_stats f)) remaining) (disk_budget_bytes (p_storage policies)) in
              let reclaim :=
                if bool_decide (pressure usage_after wm = NormalP) then reclaim_default
                else fst (reclaim_files (fun _ w => (true, w)) remaining (store_dir loc) t usage_after wm tt) in
              inr (mkPlan (expired report) files reclaim (wadd64 wal_bytes store_bytes_all) (disk_budget_bytes (p_storage policies))
                     (list_to_set (List.map e_path (expired report)) ∪ list_to_set (files_dropped reclaim)))
          end
      end
  end.

Definition plan_impact (pl : Plan) (policies : Policies) : Impact :=
  let retention_bytes := sum64 e_bytes (pl_expired pl) in
  let of_bucket r := List.filter (fun e => String.eqb (bucket (e_key e)) (rr_name r)) (pl_expired pl) in
  let would := wadd64 retention_bytes (rc_bytes (pl_reclaim pl)) in
  let after := sat_sub (used_before pl) would in
  mkImpact
    (mkRetentionImpact (sum64 snd (map_to_list (expired_files pl))) retention_bytes
       (List.map (fun r => mkBucketImpact (rr_name r) (default 0 (expired_files pl !! rr_name r)) (sum64 e_bytes (of_bucket r))) (p_retention policies)))
    (mkDiskImpact (used_before pl) (budget pl)
       (if budget pl =? 0 then f64_zero else f64_div (f64_of_Z after) (f64_of_Z (budget pl))) would).

(** [Path::ancestors]: the path itself and every directory above it. *)
Definition under (doomed : gset path) (p : path) : bool :=
  bool_decide (set_Exists (fun a => is_prefix a p = true) doomed).

(** What this plan deletes and [baseline] does not, sorted. *)
Definition beyond (pl baseline : Plan) : list path :=
  stable_sort path_leb (List.filter (fun p => negb (under (doomed_paths baseline) p)) (elements (doomed_paths pl))).

Context (sha256 : bytes -> bytes).

Definition token_input (paths : list path) (lossy : list Problem) : bytes :=
  concat (List.map (fun p => list_byte_of_string (Catalog.path_text p) ++ [Byte.x00]) paths)
  ++ concat (List.map (fun l => list_byte_of_string (pr_path l) ++ [Byte.x01]) lossy).
Definition token (paths : list path) (lossy : list Problem) : string := hex (firstn 16 (sha256 (token_input paths lossy))).

Definition preview (loc : Locations) (catalog : Budget.Catalog) (current proposed : Policies) (now : Z) : PlanError + Preview :=
  match plan loc catalog current now with
  | inl e => inl e
  | inr baseline =>
      match plan loc catalog proposed now with
      | inl e => inl e
      | inr next =>
          let more := beyond next baseline in
          let lossy := lossy_settings current proposed in
          inr (mkPreview (plan_impact next proposed) (negb (bool_decide (more = [])) || negb (match lossy with [] => true | _ => false end))
                 lossy (token more lossy))
      end
  end.
End Plan.

(** Buckets in use today, missing from the proposal, that still have
    partitions under the default index. *)
Definition stranded (loc : Locations) (current : Policies) (k : PartitionKey) : bool :=
  bool_decide (Some (tenant k) = own_tenant (base loc)) && bool_decide (Some (index k) = default_index (base loc))
  && existsb (fun r => String.eqb (rr_name r) (bucket k)) (p_retention current).

Definition count_stranded (m : gmap string Z) (k : PartitionKey) : gmap string Z :=
  <[bucket k := default 0 (m !! bucket k) + 1]> m.

Definition orphan_problem (current : Policies) (nc : string * Z) : Problem :=
  let name := fst nc in
  let i := default 0%nat (Tenancy.position (fun r => String.eqb (rr_name r) name) (p_retention current)) in
  mkProblem "retention"
    (cat ["bucket "; debug_str name; " (currently retention["; show_Z (Z.of_nat i); "]) still has "; show_Z (snd nc);
          " partition(s) on disk and cannot be renamed or removed. Keep a bucket named "; debug_str name;
          " until its partitions have expired, or shorten its retention_secs so they expire sooner."]).

Definition orphan_problems (loc : Locations) (current proposed : Policies) (now : Z) : list Problem :=
  match tenancy_under loc proposed with
  | inl _ => []
  | inr t =>
      let orphans := List.filter (stranded loc current) (orphan_buckets (dry_run loc t now)) in
      let counts := foldl count_stranded ∅ orphans in
      List.map (orphan_problem current) (stable_sort by_key (map_to_list counts))
  end.
