(* ===== verification/PolicyImpactFacts.v ===== *)
(** A change of policy that asks for no confirmation deletes nothing: every
    file that retention or relief would take under the proposal goes under the
    policy in force as well. *)

From stdpp Require Import sorting.
From S2P Require Import Prelude Text Float Model Lists Base64 Partition Tenancy PartsEdge Retention Budget Json Policy PolicyFacts PolicyImpact.
Open Scope string_scope.
Open Scope Z_scope.
Open Scope list_scope.

Lemma dropped_rows files sd t u wm f :
  f ∈ files_dropped (fst (reclaim_files (fun _ w => (true, w)) files sd t u wm tt)) -> exists row, row ∈ files /\ f_path row = f.
Proof.
  unfold reclaim_files. destruct (_ <=? _); [by intros ?%not_elem_of_nil|]. cbn [fst files_dropped].
  set (fs := stable_sort (cost_leb t) files). set (s0 := mkLoop _ _ _ _ _).
  pose proof (reclaim_loop_world (fun _ (w : unit) => (true, w)) sd (target_bytes u wm) (fun d _ => Forall (fun f => f ∈ files) d) fs s0) as H.
  cbv zeta in H. intros Hf. apply list_elem_of_fmap in Hf as (row & -> & Hrow). exists row. split; [|done].
  assert (Forall (fun f => f ∈ files) (lp_dropped (reclaim_loop (fun _ w => (true, w)) sd (target_bytes u wm) fs s0))) as Hall.
  { apply H; [|constructor]. intros d w r Hr Hd. apply Forall_app. split; [done|]. constructor; [|constructor].
    unfold fs in Hr. by rewrite stable_sort_perm in Hr. }
  rewrite Forall_forall in Hall. by apply Hall.
Qed.

Section Plans.
Context (db : DbCall -> option string) (loc : Locations) (catalog : Budget.Catalog) (now : Z).

(** What a plan is made of. *)
Lemma plan_spec p pl : plan db loc catalog p now = inr pl ->
  exists t, tenancy_under loc p = inr t /\ pl_expired pl = expired (dry_run loc t now) /\
    (forall x, x ∈ doomed_paths pl <-> x ∈ List.map e_path (pl_expired pl) \/ x ∈ files_dropped (pl_reclaim pl)) /\
    (forall x, x ∈ files_dropped (pl_reclaim pl) -> exists row, row ∈ catalog /\ f_path row = x).
Proof.
  unfold plan. destruct (tenancy_under loc p) as [e|t]; [done|]. cbv zeta. destruct (db ListForReclaim); [done|].
  destruct (db Totals); [by destruct (totals catalog)|]. destruct (totals catalog) as [[rows bytes]|]; [|done]. intros [= <-].
  exists t. cbn [pl_expired pl_reclaim doomed_paths]. split; [done|]. split; [done|]. split.
  - intros x. rewrite elem_of_union, !elem_of_list_to_set. done.
  - intros x. case_bool_decide; [by intros ?%not_elem_of_nil|]. intros (row & Hrow & Hx)%dropped_rows. exists row. split; [|done].
    apply list_elem_of_In, filter_In in Hrow as [Hrow _]. apply list_elem_of_In in Hrow. unfold list_files in Hrow.
    by rewrite stable_sort_perm in Hrow.
Qed.

Lemma beyond_nil next baseline : beyond next baseline = [] -> forall x, x ∈ doomed_paths next -> under (doomed_paths baseline) x = true.
Proof.
  unfold beyond. intros H x Hx. destruct (under _ x) eqn:E; [done|]. exfalso.
  assert (x ∈ stable_sort path_leb (List.filter (fun p => negb (under (doomed_paths baseline) p)) (elements (doomed_paths next)))) as Hin.
  { rewrite stable_sort_perm. apply list_elem_of_In, filter_In. rewrite E. split; [|done]. by apply list_elem_of_In, elem_of_elements. }
  rewrite H in Hin. by apply not_elem_of_nil in Hin.
Qed.
(** *** Files *)

Lemma app4 {A} (l : list A) a b c d : (((l ++ [a]) ++ [b]) ++ [c]) ++ [d] = l ++ [a; b; c; d].
Proof. by rewrite <-!app_assoc. Qed.

Lemma prefix_same (l a b : path) : List.length a = List.length b -> is_prefix (l ++ a) (l ++ b) = true -> a = b.
Proof.
  unfold is_prefix. intros Hl H. apply bool_decide_eq_true in H. rewrite firstn_all2 in H by (rewrite !length_app; lia).
  by apply app_inv_head in H.
Qed.

Lemma prefix_shorter (l a b : path) : (List.length b < List.length a)%nat -> is_prefix (l ++ a) (l ++ b) = false.
Proof.
  intros Hl. apply not_true_iff_false. unfold is_prefix. intros H. apply bool_decide_eq_true in H.
  apply (f_equal List.length) in H. rewrite firstn_all2 in H by (rewrite !length_app; lia). rewrite !length_app in H. lia.
Qed.

(** A row's path is deeper than a partition. *)
Lemma placed_deep f : row_placed (store_dir loc) f -> exists q, f_path f = store_dir loc ++ q /\ (4 < List.length q)%nat.
Proof. intros (hs & name & rest & E & _). eexists. split; [exact E|]. cbn. lia. Qed.

Context (st : Node) (st_here : store loc = Some st) (st_wf : wf st).
Context (st_small : tree_bytes (fun _ => true) (store_dir loc) st < 2 ^ 64).
Context (placed : Forall (row_placed (store_dir loc)) catalog).

Abbreviation goes t q := (doomed t now pins_default (store_dir loc) q).

(** The plan names the partition of every file retention takes ... *)
Lemma plan_covers p pl t q n : plan db loc catalog p now = inr pl -> tenancy_under loc p = inr t ->
  file_at st q = Some n -> 0 < n -> goes t q = true ->
  exists tm im hm lm e r, q = tm :: im :: hm :: lm :: e :: r /\ store_dir loc ++ [tm; im; hm; lm] ∈ doomed_paths pl.
Proof.
  intros Hpl Ht Hq Hn Hd. destruct (plan_spec p pl Hpl) as (t0 & Ht0 & He & Hin & _). rewrite Ht in Ht0. injection Ht0 as <-.
  destruct (enforce_reports (fun _ _ => None) (fun _ => None) (fun _ => true) t now true pins_default ltac:(by split)
    "not a directory" (store_dir loc) st q n st_wf st_small Hq Hn Hd)
    as (tm & tn & im & ix & hm & hs & h & lm & level & e & r & -> & _ & _ & _ & _ & _ & (ex & Hex & _ & Hp)).
  exists tm, im, hm, lm, e, r. split; [done|]. rewrite app4 in Hp. apply Hin. left. rewrite He, <-Hp. apply list_elem_of_fmap_2.
  unfold dry_run. by rewrite st_here.
Qed.

(** ... and only partitions that are overdue. *)
Lemma plan_sound p pl t tm im hm lm e r : plan db loc catalog p now = inr pl -> tenancy_under loc p = inr t ->
  under (doomed_paths pl) (store_dir loc ++ [tm; im; hm; lm]) = true -> goes t (tm :: im :: hm :: lm :: e :: r) = true.
Proof.
  intros Hpl Ht Hu. destruct (plan_spec p pl Hpl) as (t0 & Ht0 & He & Hin & Hrows). rewrite Ht in Ht0. injection Ht0 as <-.
  unfold under in Hu. apply bool_decide_eq_true in Hu as (a & Ha & Hpre). apply Hin in Ha as [Ha|Ha].
  - apply list_elem_of_fmap in Ha as (ex & -> & Hex). rewrite He in Hex.
    pose proof (enforce_sound (fun _ _ => None) (fun _ => None) (fun _ => true) t now true pins_default (store_dir loc)
      "not a directory" (store loc)) as Hs.
    rewrite Forall_forall in Hs. destruct (Hs ex Hex) as (tm' & tn & im' & ix & hm' & hs & h & lm' & level & Hp & E1 & E2 & E3 & E4 & E5 & V1 & V2 & Hl & Ho).
    rewrite Hp, app4 in Hpre. apply prefix_same in Hpre; [|done]. injection Hpre as -> -> -> ->.
    unfold doomed. rewrite E1, E2, E3, E5. cbn [mbind option_bind]. rewrite E4, V1, V2, Ho. apply String.eqb_neq in Hl. rewrite Hl.
    cbn [negb andb]. unfold contains, pins_default. cbn [pinned]. by rewrite bool_decide_eq_false_2 by apply not_elem_of_empty.
  - destruct (Hrows a Ha) as (row & Hrow & <-). rewrite Forall_forall in placed. destruct (placed_deep row (placed row Hrow)) as (q & E & Hq).
    rewrite E, prefix_shorter in Hpre by exact Hq. done.
Qed.

(** Nothing the dry run calls lossy is in a change. *)
Lemma lossy_none current proposed : lossy_settings current proposed = [] ->
  (queue_capacity (p_ingest proposed) < MIN_SAFE_QUEUE_CAPACITY ->
   queue_capacity (p_ingest proposed) = queue_capacity (p_ingest current)) /\
  (critical_enqueue_timeout_ms (p_ingest proposed) = 0 -> critical_enqueue_timeout_ms (p_ingest current) = 0) /\
  (pushdown_enabled (p_pushdown current) = true -> pushdown_enabled (p_pushdown proposed) = true).
Proof.
  unfold lossy_settings. intros [H1 [H2 H3]%app_eq_nil]%app_eq_nil.
  apply one_problem in H1, H2, H3. apply andb_false_iff in H1, H2, H3. split; [|split].
  - destruct H1 as [H1|H1]; [apply Z.ltb_ge in H1; lia|]. intros _. by apply negb_false_iff, Z.eqb_eq in H1.
  - destruct H2 as [H2|H2]; [by apply Z.eqb_neq in H2|]. intros _. by apply negb_false_iff, Z.eqb_eq in H2.
  - destruct H3 as [H3|H3]; [congruence|]. intros _. by apply negb_false_iff in H3.
Qed.

(** C32: A change that needs no confirmation deletes nothing: every file retention would
    take or relief drop under the proposal goes under the policy in force too. Nor does it
    loosen what loses records: no queue below the safe capacity other than the one in force,
    no new zero time-out for critical records, and no pushdown switched off. *)
Theorem unconfirmed_is_harmless sha256 current proposed pv :
  preview db sha256 loc catalog current proposed now = inr pv -> destructive pv = false ->
  exists t t' baseline next, tenancy_under loc current = inr t /\ tenancy_under loc proposed = inr t' /\
    plan db loc catalog current now = inr baseline /\ plan db loc catalog proposed now = inr next /\
    (forall q n, file_at st q = Some n -> 0 < n -> goes t' q = true -> goes t q = true) /\
    (forall f, f ∈ files_dropped (pl_reclaim next) -> under (doomed_paths baseline) f = true) /\
    lossy_settings current proposed = [] /\
    (queue_capacity (p_ingest proposed) < MIN_SAFE_QUEUE_CAPACITY ->
     queue_capacity (p_ingest proposed) = queue_capacity (p_ingest current)) /\
    (critical_enqueue_timeout_ms (p_ingest proposed) = 0 -> critical_enqueue_timeout_ms (p_ingest current) = 0) /\
    (pushdown_enabled (p_pushdown current) = true -> pushdown_enabled (p_pushdown proposed) = true).
Proof.
  unfold preview. destruct (plan db loc catalog current now) as [er|baseline] eqn:Eb; [done|].
  destruct (plan db loc catalog proposed now) as [er|next] eqn:En; [done|]. intros [= <-] Hd. cbn [destructive] in Hd.
  apply orb_false_iff in Hd as [Hd Hl]. apply negb_false_iff, bool_decide_eq_true in Hd. pose proof (beyond_nil next baseline Hd) as Hin.
  destruct (plan_spec current baseline Eb) as (t & Ht & _). destruct (plan_spec proposed next En) as (t' & Ht' & _ & Hn & _).
  exists t, t', baseline, next. do 4 (split; [done|]). split; [|split].
  - intros q n Hq Hpos Hg. destruct (plan_covers proposed next t' q n En Ht' Hq Hpos Hg) as (tm & im & hm & lm & e & r & -> & Hx).
    apply Hin in Hx. by apply (plan_sound current baseline t tm im hm lm e r Eb Ht).
  - intros f Hf. apply Hin, Hn. by right.
  - assert (lossy_settings current proposed = []) as Hnone by (by destruct (lossy_settings current proposed)).
    split; [done|]. by apply lossy_none.
Qed.
End Plans.

(** ** The token of a confirmation *)

Definition free_of (z : byte) (b : bytes) : Prop := z ∉ b.

Lemma first_block z (a b r1 r2 : bytes) : free_of z a -> free_of z b -> a ++ z :: r1 = b ++ z :: r2 -> a = b /\ r1 = r2.
Proof.
  unfold free_of. revert b. induction a as [|x a IH]; intros [|y b] Ha Hb H; cbn [app] in H.
  - by injection H.
  - injection H as -> _. exfalso. apply Hb. by left.
  - injection H as -> _. exfalso. apply Ha. by left.
  - injection H as -> H. destruct (IH b) as [-> ->]; [..|done]; [| |done]; intros Hin; [apply Ha|apply Hb]; by right.
Qed.

(** Blocks ended by [z], and a rest without it, are read back from their concatenation. *)
Lemma blocks_back z l1 : forall l2 r1 r2, Forall (free_of z) l1 -> Forall (free_of z) l2 -> free_of z r1 -> free_of z r2 ->
  concat (List.map (fun t => t ++ [z]) l1) ++ r1 = concat (List.map (fun t => t ++ [z]) l2) ++ r2 -> l1 = l2 /\ r1 = r2.
Proof.
  assert (forall (a b r : bytes), free_of z r -> (a ++ [z]) ++ b = r -> False) as Hno.
  { unfold free_of. intros a b r Hr <-. apply Hr. apply elem_of_app. left. apply elem_of_app. right. by left. }
  induction l1 as [|a l1 IH]; intros [|b l2] r1 r2 H1 H2 Hr1 Hr2 H; cbn [List.map concat] in H.
  - done.
  - rewrite <-app_assoc in H. cbn [app] in H. symmetry in H. by apply Hno in H.
  - rewrite <-app_assoc in H. cbn [app] in H. by apply Hno in H.
  - apply Forall_cons in H1 as [Ha H1], H2 as [Hb H2]. rewrite <-!app_assoc in H. cbn [app] in H.
    apply first_block in H as [-> H]; [|done..]. by destruct (IH l2 r1 r2 H1 H2 Hr1 Hr2 H) as [-> ->].
Qed.

Definition plain (t : string) : Prop := free_of Byte.x00 (list_byte_of_string t).

Lemma lossy_paths current proposed : Forall (fun l => In (pr_path l) ["ingest.queue_capacity"; "ingest.critical_enqueue_timeout_ms"; "pushdown.enabled"])
  (lossy_settings current proposed).
Proof.
  unfold lossy_settings. repeat (apply Forall_app; split); destruct (_ && _); repeat (apply Forall_cons; split); try apply Forall_nil_2; cbn; auto.
Qed.

Lemma bytes_back l1 l2 : List.map list_byte_of_string l1 = List.map list_byte_of_string l2 -> l1 = l2.
Proof.
  revert l2. induction l1 as [|a l1 IH]; intros [|b l2] H; try done. cbn [List.map] in H. injection H as H Hl.
  apply (f_equal string_of_list_byte) in H. rewrite !string_of_list_byte_of_string in H. by rewrite H, (IH l2 Hl).
Qed.

Lemma token_input_back ps1 ps2 cur1 cur2 prop1 prop2 :
  Forall plain (List.map Catalog.path_text ps1) -> Forall plain (List.map Catalog.path_text ps2) ->
  token_input ps1 (lossy_settings cur1 prop1) = token_input ps2 (lossy_settings cur2 prop2) ->
  List.map Catalog.path_text ps1 = List.map Catalog.path_text ps2 /\
  List.map pr_path (lossy_settings cur1 prop1) = List.map pr_path (lossy_settings cur2 prop2).
Proof.
  unfold token_input. intros Hp1 Hp2 Hc.
  set (texts l := List.map (fun l => list_byte_of_string (pr_path l)) l).
  assert (forall l, concat (List.map (fun l => list_byte_of_string (pr_path l) ++ [Byte.x01]) l) = concat (List.map (fun t => t ++ [Byte.x01]) (texts l))) as El
    by (intros l; unfold texts; by rewrite List.map_map).
  assert (forall l, concat (List.map (fun p => list_byte_of_string (Catalog.path_text p) ++ [Byte.x00]) l)
    = concat (List.map (fun t => t ++ [Byte.x00]) (List.map list_byte_of_string (List.map Catalog.path_text l)))) as Ep
    by (intros l; by rewrite !List.map_map).
  rewrite !El, !Ep in Hc.
  assert (forall l, Forall plain l -> Forall (free_of Byte.x00) (List.map list_byte_of_string l)) as Hplain by (intros l Hl; apply Forall_map; exact Hl).
  assert (forall c p z, (z = Byte.x00 \/ z = Byte.x01) -> Forall (free_of z) (texts (lossy_settings c p))) as Htexts.
  { intros c p z Hz. unfold texts. apply Forall_map. eapply Forall_impl; [apply lossy_paths|]. intros l Hl. cbn in Hl.
    unfold free_of, compose. destruct Hz as [-> | ->]; destruct Hl as [<-|[<-|[<-|[]]]]; by apply (bool_decide_unpack _). }
  assert (forall c p, free_of Byte.x00 (concat (List.map (fun t => t ++ [Byte.x01]) (texts (lossy_settings c p))))) as Hrest.
  { intros c p Hin. apply list_elem_of_In, in_concat in Hin as (t & Ht' & Hx). apply in_map_iff in Ht' as (t0 & <- & Ht0).
    pose proof (Htexts c p Byte.x00 (or_introl eq_refl)) as Hf. rewrite Forall_forall in Hf. apply list_elem_of_In in Ht0. apply (Hf t0 Ht0).
    apply in_app_iff in Hx as [Hx|[Hx|[]]]; [by apply list_elem_of_In|done]. }
  apply blocks_back in Hc as [Hpaths Hl]; [|by apply Hplain|by apply Hplain|apply Hrest|apply Hrest].
  split; [by apply bytes_back|]. apply bytes_back. rewrite !List.map_map.
  assert (texts (lossy_settings cur1 prop1) = texts (lossy_settings cur2 prop2)) as Hsame; [|exact Hsame].
  apply (blocks_back Byte.x01 _ _ [] []); try (apply Htexts; by right); [apply not_elem_of_nil..|by rewrite !app_nil_r].
Qed.

(** A confirmation is bound to what was reviewed. Let two previews, made at any two times
    over any two states of the store, carry the same token, and let the digest not have
    collided on the two: then the change newly deletes the same partitions and files in both,
    and loosens the same settings, so that a stale yes authorises nothing more. *)
Theorem token_binds db sha256 loc1 loc2 cat1 cat2 now1 now2 cur1 cur2 prop1 prop2 b1 b2 n1 n2 pv1 pv2 :
  plan db loc1 cat1 cur1 now1 = inr b1 -> plan db loc1 cat1 prop1 now1 = inr n1 ->
  plan db loc2 cat2 cur2 now2 = inr b2 -> plan db loc2 cat2 prop2 now2 = inr n2 ->
  preview db sha256 loc1 cat1 cur1 prop1 now1 = inr pv1 -> preview db sha256 loc2 cat2 cur2 prop2 now2 = inr pv2 ->
  impact_token pv1 = impact_token pv2 ->
  (token sha256 (beyond n1 b1) (lossy pv1) = token sha256 (beyond n2 b2) (lossy pv2) ->
   token_input (beyond n1 b1) (lossy pv1) = token_input (beyond n2 b2) (lossy pv2)) ->
  Forall plain (List.map Catalog.path_text (beyond n1 b1)) -> Forall plain (List.map Catalog.path_text (beyond n2 b2)) ->
  List.map Catalog.path_text (beyond n1 b1) = List.map Catalog.path_text (beyond n2 b2) /\
  List.map pr_path (lossy pv1) = List.map pr_path (lossy pv2).
Proof.
  unfold preview. intros Hb1 Hn1 Hb2 Hn2. rewrite Hb1, Hn1, Hb2, Hn2. intros [= <-] [= <-]. cbn [impact_token lossy]. intros Ht Hc Hp1 Hp2.
  apply token_input_back; auto.
Qed.

(** ** At a concrete store *)

Definition policy1 : Policies :=
  mkPolicies [mkRule "debug" 0 86400; mkRule "info" 9 604800; mkRule "warn_plus" 13 2592000]
    (mkStorage 1000000 (f64_dec 8 1) (f64_dec 95 2) (f64_dec 7 1)) (mkIngest 250 65536) (mkPushdown true 17).
(** Debug records kept three days, which spares the partition that is overdue. *)
Definition longer : Policies :=
  mkPolicies [mkRule "debug" 0 259200; mkRule "info" 9 604800; mkRule "warn_plus" 13 2592000] (p_storage policy1) (p_ingest policy1) (p_pushdown policy1).
Definition at_store1 : Locations := mkLocations ["s"] (Some store1) 0 0 (single level_buckets_default).
Definition two_days : Z := 101 * 3600 + 2 * 86400.

Lemma store1_placed : Forall (row_placed ["s"]) store1_rows.
Proof.
  repeat constructor; exists "1970-01-05T04"; eexists _, [_]; (split; [reflexivity|split; [vm_compute; reflexivity|]]);
    apply (bool_decide_eq_true_1 _); vm_compute; reflexivity.
Qed.

Lemma unconfirmed_is_harmless_witness :
  exists pv, preview (fun _ => None) (fun b => b) at_store1 store1_rows policy1 longer two_days = inr pv /\ destructive pv = false /\
    lossy_settings policy1 longer = [].
Proof.
  destruct (preview (fun _ => None) (fun b => b) at_store1 store1_rows policy1 longer two_days) as [er|pv] eqn:E.
  - exfalso. apply (f_equal (fun x => match x with inl _ => true | inr _ => false end)) in E. vm_compute in E. discriminate E.
  - assert (destructive pv = false) as Hd.
    { apply (f_equal (fun x => match x with inl _ => true | inr p => destructive p end)) in E. vm_compute in E. exact (eq_sym E). }
    destruct (unconfirmed_is_harmless (fun _ => None) at_store1 store1_rows two_days store1 eq_refl store1_wf ltac:(vm_compute; reflexivity)
      store1_placed (fun b => b) policy1 longer pv E Hd) as (t & t' & b & n & _ & _ & _ & _ & _ & _ & Hl & _).
    exists pv. split; [reflexivity|split; [exact Hd|exact Hl]].
Defined.

Lemma token_binds_witness :
  exists b n pv, plan (fun _ => None) at_store1 store1_rows longer two_days = inr b /\
    plan (fun _ => None) at_store1 store1_rows policy1 two_days = inr n /\
    preview (fun _ => None) (fun b => b) at_store1 store1_rows longer policy1 two_days = inr pv /\ beyond n b <> [] /\
    List.map Catalog.path_text (beyond n b) = List.map Catalog.path_text (beyond n b).
Proof.
  destruct (plan (fun _ => None) at_store1 store1_rows longer two_days) as [er|b] eqn:Eb.
  { exfalso. apply (f_equal (fun x => match x with inl _ => true | inr _ => false end)) in Eb. vm_compute in Eb. discriminate Eb. }
  destruct (plan (fun _ => None) at_store1 store1_rows policy1 two_days) as [er|n] eqn:En.
  { exfalso. apply (f_equal (fun x => match x with inl _ => true | inr _ => false end)) in En. vm_compute in En. discriminate En. }
  destruct (preview (fun _ => None) (fun b => b) at_store1 store1_rows longer policy1 two_days) as [er|pv] eqn:E.
  { exfalso. apply (f_equal (fun x => match x with inl _ => true | inr _ => false end)) in E. vm_compute in E. discriminate E. }
  assert (List.map Catalog.path_text (beyond n b) = ["s/tenant=default/index=default/hour=1970-01-05T04/level=debug"]) as Hb.
  { assert (match plan (fun _ => None) at_store1 store1_rows policy1 two_days, plan (fun _ => None) at_store1 store1_rows longer two_days with
      | inr n, inr b => List.map Catalog.path_text (beyond n b) | _, _ => [] end
      = ["s/tenant=default/index=default/hour=1970-01-05T04/level=debug"]) as H by (vm_compute; reflexivity).
    by rewrite En, Eb in H. }
  exists b, n, pv. do 3 (split; [reflexivity|]). split; [intros Hn; rewrite Hn in Hb; discriminate Hb|].
  assert (Forall plain (List.map Catalog.path_text (beyond n b))) as Hp.
  { rewrite Hb. constructor; [|constructor]. apply (bool_decide_unpack _). vm_compute. exact I. }
  destruct (token_binds (fun _ => None) (fun b => b) at_store1 at_store1 store1_rows store1_rows two_days two_days longer longer policy1 policy1
    b b n n pv pv Eb En Eb En E E eq_refl (fun _ => eq_refl) Hp Hp) as [H _].
  exact H.
Defined.
