(* ===== verification/Glob.v ===== *)
(** The file patterns of the tailer ([crates/logless-core/src/tail.rs]): matching
    a name against a pattern by iterative backtracking, the expansion of a path
    pattern over a directory tree, and the exclusions.

    A name is the list of its characters' scalar values.  The tree holds
    directories and files; symbolic links are not modelled. *)

From S2P Require Import Prelude Text Lists Proto Utf8 Retention.
Open Scope string_scope.
Open Scope Z_scope.
Open Scope list_scope.

(** The scalar values of a name or of a pattern. *)
Abbreviation chars := (list Z).

Definition STAR : Z := 42.
Definition QUESTION : Z := 63.
Definition OPEN : Z := 91.
Definition CLOSE : Z := 93.

Definition is_pattern_segment (segment : chars) : bool := existsb (fun c => (c =? STAR) || (c =? QUESTION) || (c =? OPEN)) segment.

(** ** One component *)

Fixpoint find_close (l : chars) : option nat :=
  match l with
  | [] => None
  | c :: r => if c =? CLOSE then Some O else option_map S (find_close r)
  end.

Fixpoint class_body (body : chars) (c : Z) : bool :=
  match body with
  | [] => false
  | a :: t =>
      match t with
      | d :: b :: rest => if d =? 45 then ((a <=? c) && (c <=? b)) || class_body rest c else (a =? c) || class_body t c
      | _ => (a =? c) || class_body t c
      end
  end.

(** The class at the start of the pattern: whether it has the character, and its length. *)
Definition class_match (pattern : chars) (c : Z) : option (bool * nat) :=
  match find_close pattern with
  | None | Some O => None
  | Some close =>
      let body := firstn (close - 1) (skipn 1 pattern) in
      let '(negated, body) := match body with
                              | x :: r => if (x =? 33) || (x =? 94) then (true, r) else (false, body)
                              | [] => (false, [])
                              end in
      Some (negb (Bool.eqb (class_body body c) negated), S close)
  end.

(** The loop: what is left of the pattern and of the name, and, after a star,
    the pattern behind it and the name where it was last tried. *)
Fixpoint glob_loop (fuel : nat) (p n : chars) (star : option (chars * chars)) : option bool :=
  match fuel with
  | O => None
  | S fuel =>
      match n with
      | [] => Some (forallb (Z.eqb STAR) p)
      | c :: n' =>
          let back := match star with
                      | Some (ps, ns) => glob_loop fuel ps (tl ns) (Some (ps, tl ns))
                      | None => Some false
                      end in
          match p with
          | [] => back
          | x :: p' =>
              if x =? STAR then glob_loop fuel p' n (Some (p', n))
              else if (x =? QUESTION) || (x =? c) then glob_loop fuel p' n' star
              else if x =? OPEN then
                match class_match p c with
                | Some (true, len) => glob_loop fuel (skipn len p) n' star
                | _ => back
                end
              else back
          end
      end
  end.

(** Every backtrack moves the star, every other step takes a piece of the pattern. *)
Definition glob_fuel (p n : chars) : nat := S (S (List.length n) * S (List.length p) + List.length p).

Definition glob_match (pattern name : chars) : bool :=
  match glob_loop (glob_fuel pattern name) pattern name None with Some b => b | None => false end.

(** ** Paths *)

Definition is_doublestar (s : chars) : bool := bool_decide (s = [STAR; STAR]).

Fixpoint segments_match (pattern path : list chars) : bool :=
  match pattern with
  | [] => match path with [] => true | _ => false end
  | s :: rest =>
      if is_doublestar s then
        (fix skips (path : list chars) : bool :=
           segments_match rest path || match path with [] => false | _ :: t => skips t end) path
      else
        match path with
        | h :: t => glob_match s h && segments_match rest t
        | [] => false
        end
  end.

Definition chars_of (s : string) : chars := scalars (list_byte_of_string s).
Definition is_text (s : string) : bool := utf8 (list_byte_of_string s).

(** [walk_glob] below a directory: the matching files, as paths below it. *)
Fixpoint walk_glob (segments : list chars) : Node -> list (list string) :=
  match segments with
  | [] => fun _ => []
  | segment :: rest =>
      if is_doublestar segment then
        fix anywhere (x : Node) : list (list string) :=
          walk_glob rest x ++
          match x with
          | File _ => []
          | Dir es => concat (List.map (fun e => match snd e with
                                                 | File _ => []
                                                 | Dir _ => List.map (cons (fst e)) (anywhere (snd e))
                                                 end) es)
          end
      else fun x =>
        let down (e : string * Node) :=
          match rest with
          | [] => if is_dir (snd e) then [] else [[fst e]]
          | _ => if is_dir (snd e) then List.map (cons (fst e)) (walk_glob rest (snd e)) else []
          end in
        let found (e : string * Node) :=
          is_text (fst e) &&
          (if is_pattern_segment segment then glob_match segment (chars_of (fst e)) else bool_decide (chars_of (fst e) = segment)) in
        concat (List.map (fun e => if found e then down e else []) (entries x))
  end.

Inductive Component := Normal (s : string) | RootDir | CurDir | ParentDir.
#[export] Instance Component_eq_dec : EqDecision Component.
Proof. solve_decision. Defined.

(** The names of a pattern, and the rest of it, which is where the walk begins. *)
Definition normals (pattern : list Component) : list chars := omap (fun c => match c with Normal s => Some (chars_of s) | _ => None end) pattern.
Definition root_of (pattern : list Component) : list Component :=
  match List.filter (fun c => match c with Normal _ => false | _ => true end) pattern with [] => [CurDir] | r => r end.

(** A trailing [**] means every file below. *)
Definition pattern_segments (segments : list chars) : list chars :=
  match last segments with
  | Some s => if is_doublestar s then segments ++ [[STAR]] else segments
  | None => segments
  end.

(** What [read_dir] finds is an argument: the directory at a root. *)
Definition glob_paths (dir_at : list Component -> option Node) (pattern : list Component) : list (list Component * list string) :=
  match dir_at (root_of pattern) with
  | Some dir => List.map (fun p => (root_of pattern, p)) (walk_glob (pattern_segments (normals pattern)) dir)
  | None => []
  end.

(** ** Exclusions *)

Definition nonempty (s : string) : bool := negb (String.eqb s "").

Definition file_name (path : string) : option string :=
  match last (List.filter (fun s => nonempty s && negb (String.eqb s ".")) (split_char "/" path)) with
  | Some n => if String.eqb n ".." then None else Some n
  | None => None
  end.

(** A pattern with a slash is matched against the whole path, another against the name. *)
Definition excluded (patterns : list string) (path : string) : bool :=
  existsb (fun pattern =>
    if str_has "/" pattern then
      segments_match (List.map chars_of (List.filter nonempty (split_char "/" pattern)))
                     (List.map chars_of (List.filter nonempty (split_char "/" path)))
    else match file_name path with Some n => is_text n && glob_match (chars_of pattern) (chars_of n) | None => false end) patterns.
