(* ===== verification/GlobFacts.v ===== *)
(** What the patterns of the tailer mean: the backtracking loop ends and decides
    the matching relation of a glob, and the walk over a directory tree finds the
    files whose paths match. *)

From S2P Require Import Prelude Text Lists Proto Utf8 Retention Glob.
Open Scope Z_scope.
Open Scope list_scope.

(** ** The meaning of a pattern *)






(** ** The pieces, as the matcher takes them *)

(** The pattern after its first piece, which is not a star, has taken a character. *)
Definition one (p : list Z) (c : Z) : option (list Z) :=
  match p with
  | [] => None
  | x :: p' =>
      if x =? STAR then None
      else if (x =? QUESTION) || (x =? c) then Some p'
      else if x =? OPEN then match class_match p c with Some (true, len) => Some (skipn len p) | _ => None end
      else None
  end.












(** ** The loop ends *)



(** The loop by its cases. *)
Lemma glob_loop_step fuel p c n star :
  glob_loop (S fuel) p (c :: n) star =
  match one p c with
  | Some p' => glob_loop fuel p' n star
  | None => match p with
            | x :: p' => if x =? STAR then glob_loop fuel p' (c :: n) (Some (p', c :: n))
                         else match star with Some (ps, ns) => glob_loop fuel ps (tl ns) (Some (ps, tl ns)) | None => Some false end
            | [] => match star with Some (ps, ns) => glob_loop fuel ps (tl ns) (Some (ps, tl ns)) | None => Some false end
            end
  end.
Proof.
  destruct p as [|x p]; cbn [one glob_loop]; [done|]. destruct (x =? STAR) eqn:E1; [done|].
  destruct ((x =? QUESTION) || (x =? c)); [done|]. destruct (x =? OPEN); [|done].
  destruct (class_match (x :: p) c) as [[[|] len]|]; done.
Qed.

Definition suffix_of (n ns : list Z) : Prop := exists k, n = skipn k ns.



(** ** The loop decides the relation *)


















(** ** Paths *)

(** The files of a tree, by path. *)
Inductive FileIn : Node -> list string -> Prop :=
| in_here es n x : In (n, x) es -> is_dir x = false -> FileIn (Dir es) [n]
| in_below es n x p : In (n, x) es -> is_dir x = true -> FileIn x p -> FileIn (Dir es) (n :: p).

Lemma FileIn_nonempty x p : FileIn x p -> p <> [].
Proof. by destruct 1. Qed.

Lemma segments_match_skips rest path : segments_match ([STAR; STAR] :: rest) path = true <->
  exists k, (k <= List.length path)%nat /\ segments_match rest (skipn k path) = true.
Proof.
  cbn [segments_match]. change (is_doublestar [STAR; STAR]) with true. cbv iota.
  induction path as [|h t IH].
  - rewrite orb_true_iff. split; [intros [H|]; [by exists O|done]|]. intros ([|k] & Hk & H); [by left|cbn in Hk; lia].
  - rewrite orb_true_iff, IH. split.
    + intros [H|(k & Hk & H)]; [exists O; split; [lia|done]|exists (S k); split; [cbn; lia|done]].
    + intros ([|k] & Hk & H); [by left|right; exists k; split; [cbn in Hk; lia|done]].
Qed.

Lemma literal_loop s : is_pattern_segment s = false -> forall fuel n, (List.length n < fuel)%nat ->
  glob_loop fuel s n None = Some (bool_decide (s = n)).
Proof.
  intros Hs fuel. revert s Hs. induction fuel as [|fuel IH]; intros s Hs n Hf; [lia|].
  destruct n as [|c n]; [destruct s as [|x s]; [done|]|].
  - cbn [glob_loop forallb]. unfold is_pattern_segment in Hs. cbn [existsb] in Hs.
    rewrite Z.eqb_sym. destruct (x =? STAR); [done|]. by rewrite bool_decide_eq_false_2.
  - rewrite glob_loop_step. destruct s as [|x s]; [by rewrite bool_decide_eq_false_2|].
    unfold is_pattern_segment in Hs. cbn [existsb] in Hs. apply orb_false_iff in Hs as [Hx Hs].
    apply orb_false_iff in Hx as [Hx Ho]. apply orb_false_iff in Hx as [Hx Hq].
    cbn [one]. rewrite Hx, Hq. cbn [orb]. destruct (Z.eqb_spec x c) as [->|Hn].
    + rewrite IH by (cbn in Hf; try done; lia). f_equal. apply bool_decide_ext. split; [by intros ->|by intros [= ->]].
    + rewrite Ho, bool_decide_eq_false_2; [done|]. by intros [= -> _].
Qed.

Lemma glob_literal s n : is_pattern_segment s = false -> glob_match s n = bool_decide (s = n).
Proof. intros H. unfold glob_match. rewrite literal_loop; [done|done|]. unfold glob_fuel. nia. Qed.

Definition below (x : Node) (p : list string) : Prop := match p with [] => is_dir x = false | _ => FileIn x p end.

Definition ends_in_name (segments : list (list Z)) : Prop := match last segments with Some s => is_doublestar s = false | None => True end.

Lemma ends_in_name_nil segments : ends_in_name segments -> segments <> [] -> segments_match segments [] = false.
Proof.
  induction segments as [|s rest IH]; [done|]. intros He _. cbn [segments_match].
  destruct (is_doublestar s) eqn:E; [|done]. rewrite orb_false_r. apply IH.
  - by destruct rest.
  - intros ->. unfold ends_in_name in He. cbn in He. congruence.
Qed.

Lemma below_entry es n p : FileIn (Dir es) (n :: p) <-> exists x, In (n, x) es /\ below x p /\ (p <> [] -> is_dir x = true).
Proof.
  split.
  - intros H. inversion H as [es1 n1 x Hi Hd|es1 n1 x p1 Hi Hd Hf]; subst; exists x; [done|].
    split; [done|]. split; [|done]. destruct p; [by apply FileIn_nonempty in Hf|done].
  - intros (x & Hi & Hb & Hd). destruct p as [|m p]; [by apply (in_here _ _ x)|].
    apply (in_below _ _ x); [done|by apply Hd|done].
Qed.

Definition texts (p : list string) : Prop := Forall (fun n => is_text n = true) p.

Lemma walk_glob_name segment rest x p : is_doublestar segment = false -> texts p -> is_dir x = true ->
  (forall y q, is_dir y = true -> texts q -> rest <> [] -> In q (walk_glob rest y) <-> FileIn y q /\ segments_match rest (List.map chars_of q) = true) ->
  ends_in_name (segment :: rest) ->
  In p (walk_glob (segment :: rest) x) <-> FileIn x p /\ segments_match (segment :: rest) (List.map chars_of p) = true.
Proof.
  intros Hs Ht Hx IH He. cbn [walk_glob segments_match]. rewrite Hs. destruct x as [|es]; [done|]. cbn [entries].
  assert (Hfound : forall n, is_text n = true -> (is_text n && (if is_pattern_segment segment then glob_match segment (chars_of n) else bool_decide (chars_of n = segment)))
                           = glob_match segment (chars_of n)).
  { intros n ->. cbn [andb]. destruct (is_pattern_segment segment) eqn:E; [done|]. rewrite (glob_literal _ _ E). apply bool_decide_ext. by split. }
  rewrite in_concat. setoid_rewrite in_map_iff. split.
  - intros (l & ([n y] & <- & Hin) & Hp). cbn [fst snd] in Hp.
    destruct (is_text n) eqn:En; [|done]. pose proof (Hfound n En) as Hf. rewrite En in Hf. rewrite Hf in Hp. clear Hf.
    destruct (glob_match segment (chars_of n)) eqn:Em; [|done].
    destruct (is_dir y) eqn:Ed; destruct rest as [|s2 rest]; try done.
    + apply in_map_iff in Hp as (q & <- & Hq). apply Forall_cons in Ht as [_ Ht].
      apply IH in Hq as [Hq Hm]; [|done|done|done]. split; [by apply (in_below _ _ y)|]. cbn [List.map]. by rewrite Em, Hm.
    + destruct Hp as [<-|[]]. split; [by apply (in_here _ _ y)|]. cbn [List.map segments_match]. by rewrite Em.
  - intros [Hf Hm]. destruct p as [|n p]; [by apply FileIn_nonempty in Hf|]. apply below_entry in Hf as (y & Hin & Hb & Hd).
    apply Forall_cons in Ht as [Hn Ht]. cbn [List.map] in Hm. apply andb_true_iff in Hm as [Hm1 Hm2].
    eexists. split; [exists (n, y); split; [reflexivity|done]|]. cbn [fst snd]. rewrite (Hfound n Hn), Hm1.
    destruct rest as [|s2 rest].
    + destruct p as [|m p]; [|done]. unfold below in Hb. rewrite Hb. by left.
    + destruct p as [|m p].
      { assert (E := ends_in_name_nil (s2 :: rest)). cbn [List.map] in Hm2. rewrite E in Hm2; [done| |done].
        unfold ends_in_name in *. by cbn in He. }
      rewrite Hd by done. apply in_map_iff. exists (m :: p). split; [done|]. apply IH; auto.
Qed.

Lemma walk_glob_any segment rest x : is_doublestar segment = true ->
  walk_glob (segment :: rest) x = walk_glob rest x ++
    concat (List.map (fun e => if is_dir (snd e) then List.map (cons (fst e)) (walk_glob (segment :: rest) (snd e)) else []) (entries x)).
Proof.
  intros Hs. destruct x as [|es]; cbn [walk_glob entries]; rewrite Hs; [done|]. f_equal. f_equal. apply List.map_ext.
  intros [n y]. cbn [fst snd]. by destruct y.
Qed.

Lemma segments_match_any rest n p : segments_match ([STAR; STAR] :: rest) (n :: p) = segments_match rest (n :: p) || segments_match ([STAR; STAR] :: rest) p.
Proof. cbn [segments_match]. change (is_doublestar [STAR; STAR]) with true. done. Qed.

(** The walk below any directory of the tree finds the matching files. *)
Lemma walk_glob_files segments : segments <> [] -> ends_in_name segments -> forall x p, is_dir x = true -> texts p ->
  In p (walk_glob segments x) <-> FileIn x p /\ segments_match segments (List.map chars_of p) = true.
Proof.
  induction segments as [|s rest IH]; [done|]. intros _ He x p Hx Ht.
  destruct (is_doublestar s) eqn:Es.
  2: { apply (walk_glob_name s rest x p Es Ht Hx); [|done]. intros y q Hy Hq Hr. apply IH; [done| |done|done].
       unfold ends_in_name in *. by destruct rest. }
  assert (rest <> [] /\ ends_in_name rest) as [Hr He'].
  { unfold ends_in_name in *. destruct rest; [cbn in He; congruence|done]. }
  specialize (IH Hr He'). assert (s = [STAR; STAR]) as -> by (by apply bool_decide_eq_true in Es).
  revert p Hx Ht. induction x as [|es IHx] using Node_ind'; intros p Hx Ht; [done|].
  rewrite (walk_glob_any _ _ _ Es), in_app_iff, (IH (Dir es) p Hx Ht), in_concat. setoid_rewrite in_map_iff. cbn [entries]. split.
  - intros [[Hf Hm]|(l & ([n y] & <- & Hin) & Hp)].
    + split; [done|]. destruct p as [|n p]; [by apply FileIn_nonempty in Hf|]. cbn [List.map] in *. by rewrite segments_match_any, Hm.
    + cbn [fst snd] in Hp. destruct (is_dir y) eqn:Ed; [|done]. apply in_map_iff in Hp as (q & <- & Hq).
      apply Forall_cons in Ht as [_ Ht]. rewrite List.Forall_forall in IHx.
      apply (IHx _ Hin) in Hq as [Hq Hm]; [|done|done]. split; [by apply (in_below _ _ y)|].
      cbn [List.map]. by rewrite segments_match_any, Hm, orb_true_r.
  - intros [Hf Hm]. destruct p as [|n p]; [by apply FileIn_nonempty in Hf|].
    cbn [List.map] in Hm. rewrite segments_match_any in Hm. apply orb_true_iff in Hm as [Hm|Hm]; [by left|right].
    apply below_entry in Hf as (y & Hin & Hb & Hd). apply Forall_cons in Ht as [_ Ht].
    destruct p as [|m p].
    { cbn [List.map segments_match] in Hm. rewrite Es, orb_false_r in Hm.
      by rewrite (ends_in_name_nil rest He' Hr) in Hm. }
    eexists. split; [exists (n, y); split; [reflexivity|done]|]. cbn [fst snd]. rewrite Hd by done.
    apply in_map_iff. exists (m :: p). split; [done|]. rewrite List.Forall_forall in IHx. apply (IHx _ Hin); [by apply Hd|done|done].
Qed.

Lemma pattern_segments_end segments : ends_in_name (pattern_segments segments).
Proof.
  unfold pattern_segments, ends_in_name. destruct (last segments) as [s|] eqn:E; [|by rewrite E].
  destruct (is_doublestar s) eqn:Es; [by rewrite last_snoc|by rewrite E].
Qed.

(** Expanding a pattern finds the files of the directory it begins at, and
    only those, whose path matches it: every star, class and [**] as in the
    matching of an exclusion, which is checked without a tree. *)
Theorem glob_paths_exact dir_at (pattern : list Component) (x : Node) (p : list string) :
  normals pattern <> [] -> dir_at (root_of pattern) = Some x -> is_dir x = true -> Forall (fun n => is_text n = true) p ->
  In (root_of pattern, p) (glob_paths dir_at pattern) <->
  FileIn x p /\ segments_match (pattern_segments (normals pattern)) (List.map chars_of p) = true.
Proof.
  intros Hn Hx Hd Ht. unfold glob_paths. rewrite Hx, in_map_iff.
  rewrite <- (walk_glob_files (pattern_segments (normals pattern)));
    [|unfold pattern_segments; destruct (normals pattern); [done|]; destruct (last _) as [s|]; [by destruct (is_doublestar s)|done]|apply pattern_segments_end|done|done].
  split; [by intros (q & [= <-] & Hq)|]. intros H. by exists p.
Qed.

Definition a_tree : Node :=
  Dir [("app", Dir [("api.log", File 10); ("old", Dir [("api.log", File 3)])]); ("notes.txt", File 1)]%string.
Definition a_pattern : list Component := [RootDir; Normal "**"; Normal "a?i.log"]%string.

Lemma glob_paths_exact_witness :
  In ([RootDir], ["app"; "old"; "api.log"])%string (glob_paths (fun _ => Some a_tree) a_pattern) /\
  FileIn a_tree ["app"; "old"; "api.log"]%string.
Proof.
  assert (H : In ([RootDir], ["app"; "old"; "api.log"])%string (glob_paths (fun _ => Some a_tree) a_pattern))
    by (vm_compute; tauto).
  split; [exact H|].
  assert (Ht : Forall (fun n => is_text n = true) ["app"; "old"; "api.log"]%string) by (repeat constructor).
  assert (Hn : normals a_pattern <> []) by discriminate.
  exact (proj1 (proj1 (glob_paths_exact (fun _ => Some a_tree) a_pattern a_tree _ Hn eq_refl eq_refl Ht) H)).
Defined.

(** A parent directory inside a pattern is moved to its front: the directory
    [logs/..] of the pattern [logs/../app/*.log] becomes [../logs]. *)
Theorem parent_directory_moves_to_the_front :
  root_of [Normal "logs"; ParentDir; Normal "app"; Normal "*.log"]%string = [ParentDir] /\
  normals [Normal "logs"; ParentDir; Normal "app"; Normal "*.log"]%string = List.map chars_of ["logs"; "app"; "*.log"]%string.
Proof. by split. Qed.
