(* ===== verification/Tail.v ===== *)
(** File tailing ([crates/logless-core/src/tail.rs]): the paths and patterns of the
    sources, the cursor of each file, one poll, and the checkpoint.

    What the operating system answers is an argument.  A poll makes its calls one
    after the other while files move underneath it, so each call has its own
    answers: [os 0] for the metadata of the path, [os 1] for opening it, [os 2] for
    draining the handle of a file rotated away, [os 3] for opening the path again,
    [os 4] for the last drain.  A handle is the file it was opened on.  Text is
    bytes; the counters are not bounded. *)

From stdpp Require Import sorting.
From S2P Require Import Prelude Text Lists Proto Utf8 Retention Glob.
Open Scope string_scope.
Open Scope Z_scope.
Open Scope list_scope.

(** ** State *)

Record FileId := mkFileId { device : Z; inode : Z }.
#[export] Instance FileId_eq_dec : EqDecision FileId.
Proof. solve_decision. Defined.

(** The file an open descriptor reads, whatever its name has become. *)
Definition Handle : Type := FileId.

Record Cursor := mkCursor { c_id : FileId; c_offset : Z; c_partial : bytes; c_handle : option Handle }.

Record TailStats := mkTailStats {
  lines_read : Z; bytes_read : Z; rotations : Z; truncations : Z; disappeared : Z; read_errors : Z }.

Definition no_stats : TailStats := mkTailStats 0 0 0 0 0 0.
Definition lines_more (n : Z) (s : TailStats) : TailStats :=
  mkTailStats (lines_read s + n) (bytes_read s) (rotations s) (truncations s) (disappeared s) (read_errors s).
Definition bytes_more (n : Z) (s : TailStats) : TailStats :=
  mkTailStats (lines_read s) (bytes_read s + n) (rotations s) (truncations s) (disappeared s) (read_errors s).
Definition one_rotation (s : TailStats) : TailStats :=
  mkTailStats (lines_read s) (bytes_read s) (rotations s + 1) (truncations s) (disappeared s) (read_errors s).
Definition one_truncation (s : TailStats) : TailStats :=
  mkTailStats (lines_read s) (bytes_read s) (rotations s) (truncations s + 1) (disappeared s) (read_errors s).
Definition one_disappeared (s : TailStats) : TailStats :=
  mkTailStats (lines_read s) (bytes_read s) (rotations s) (truncations s) (disappeared s + 1) (read_errors s).
Definition one_read_error (s : TailStats) : TailStats :=
  mkTailStats (lines_read s) (bytes_read s) (rotations s) (truncations s) (disappeared s) (read_errors s + 1).

(** ** What the operating system answers *)

Record Sys := mkSys {
  s_metadata : string -> option (bool * FileId * Z);  (* whether a regular file, which, how long *)
  s_open : string -> option Handle;
  s_len : Handle -> option Z;
  s_seek : Handle -> Z -> bool;
  s_read : Handle -> Z -> Z -> option bytes }.         (* at most so many bytes from there *)

(** ** Lines *)

Definition NL : byte := Byte.x0a.
Definition is_nl (b : byte) : bool := Byte.eqb b NL.

(** [rfind('\n')]: the text before the last newline and the text after it. *)
Fixpoint cut_last (t : bytes) : option (bytes * bytes) :=
  match t with
  | [] => None
  | c :: r =>
      match cut_last r with
      | Some (a, b) => Some (c :: a, b)
      | None => if is_nl c then Some ([], r) else None
      end
  end.

(** [split('\n')]. *)
Fixpoint split_nl (t : bytes) : list bytes :=
  match t with
  | [] => [[]]
  | c :: r => if is_nl c then [] :: split_nl r
              else match split_nl r with l :: ls => (c :: l) :: ls | [] => [[c]] end
  end.

Definition has_bytes (l : bytes) : bool := match l with [] => false | _ => true end.
Definition full_lines (t : bytes) : list bytes := List.filter has_bytes (split_nl t).

(** Reads what the handle has beyond the offset; the whole lines go out. *)
Definition drain_handle (sys : Sys) (cursor : Cursor) (stats : TailStats) : Cursor * TailStats * list bytes :=
  match c_handle cursor with
  | None => (cursor, stats, [])
  | Some file =>
      match s_len sys file with
      | None => (cursor, one_read_error stats, [])
      | Some len =>
          if len <=? c_offset cursor then (cursor, stats, [])
          else if negb (s_seek sys file (c_offset cursor)) then (cursor, one_read_error stats, [])
          else match s_read sys file (c_offset cursor) (len - c_offset cursor) with
          | None => (cursor, one_read_error stats, [])
          | Some [] => (cursor, stats, [])
          | Some buffer =>
              let read := Z.of_nat (List.length buffer) in
              let text := c_partial cursor ++ lossy buffer in
              let '(complete, remainder) := match cut_last text with Some ab => ab | None => ([], text) end in
              let lines := full_lines complete in
              (mkCursor (c_id cursor) (c_offset cursor + read) remainder (c_handle cursor),
               lines_more (Z.of_nat (List.length lines)) (bytes_more read stats), lines)
          end
      end
  end.

(** ** One file *)

Section Poll.
Context (os : nat -> Sys) (path : string).

(** A cursor without a handle: the file is opened, and read from its start when
    it is not the file the cursor was about. *)
Definition open_cursor (id : FileId) (c : Cursor) : Cursor :=
  match c_handle c with
  | Some _ => c
  | None =>
      let h := s_open (os 1) path in
      if bool_decide (c_id c = id) then mkCursor (c_id c) (c_offset c) (c_partial c) h
      else mkCursor id 0 [] h
  end.

(** Another file has taken the name, or this one was cut short. *)
Definition follow (id : FileId) (len : Z) (c : Cursor) (stats : TailStats) : Cursor * TailStats * list bytes :=
  if negb (bool_decide (c_id c = id)) then
    let '(c, stats, lines) := drain_handle (os 2) c (one_rotation stats) in
    let leftover := c_partial c in
    let '(stats, last_) := if has_bytes leftover then (lines_more 1 stats, [leftover]) else (stats, []) in
    (mkCursor id 0 [] (s_open (os 3) path), stats, lines ++ last_)
  else if len <? c_offset c then (mkCursor (c_id c) 0 [] (s_open (os 3) path), one_truncation stats, [])
  else (c, stats, []).

Definition poll_one (start_at_end : bool) (cursors : gmap string Cursor) (stats : TailStats)
  : gmap string Cursor * TailStats * list bytes :=
  match s_metadata (os 0) path with
  | None => (cursors, match cursors !! path with Some _ => one_disappeared stats | None => stats end, [])
  | Some (is_file, id, len) =>
      if negb is_file then (cursors, stats, [])
      else
        let cursor := match cursors !! path with
                      | Some c => c
                      | None => mkCursor id (if start_at_end then len else 0) [] None
                      end in
        let '(c1, s1, l1) := follow id len (open_cursor id cursor) stats in
        let '(c2, s2, l2) := drain_handle (os 4) c1 s1 in
        (<[path := c2]> cursors, s2, l1 ++ l2)
  end.
End Poll.

(** ** The tailer *)

Record TailSource := mkTailSource { ts_paths : list string; ts_exclude : list string; ts_from_end : bool;
                                    ts_service : option string; ts_index : option string }.

Record Source := mkSource { patterns : list string; exclude : list string; from_end : bool;
                            service : option string; index : option string }.

Record Tailer := mkTailer {
  sources : list Source; paths : list string; origin : gmap string nat;
  last_expansion : option Z; cursors : gmap string Cursor; checkpoint_path : option string; started : bool; stats : TailStats }.

Definition with_tail (cursors : gmap string Cursor) (stats : TailStats) (t : Tailer) : Tailer :=
  mkTailer (sources t) (paths t) (origin t) (last_expansion t) cursors (checkpoint_path t) (started t) stats.

Definition is_pattern (path : string) : bool := is_pattern_segment (chars_of path).

(** [claim]: the first source to name a path has it. *)
Definition claim (source : nat) (path : string) (t : Tailer) : Tailer :=
  match origin t !! path with
  | Some _ => t
  | None =>
      if match sources t !! source with Some s => excluded (exclude s) path | None => false end then t
      else mkTailer (sources t) (paths t ++ [path]) (<[path := source]> (origin t)) (last_expansion t)
                    (cursors t) (checkpoint_path t) (started t) (stats t)
  end.

Definition add_source (t : Tailer) (s : TailSource) : Tailer :=
  let i := List.length (sources t) in
  let t := mkTailer (sources t ++ [mkSource (List.filter is_pattern (ts_paths s)) (ts_exclude s) (ts_from_end s) (ts_service s) (ts_index s)])
                    (paths t) (origin t) (last_expansion t) (cursors t) (checkpoint_path t) (started t) (stats t) in
  foldl (fun t p => claim i p t) t (List.filter (fun p => negb (is_pattern p)) (ts_paths s)).

Definition from_sources (ss : list TailSource) : Tailer :=
  foldl add_source (mkTailer [] [] ∅ None ∅ None false no_stats) ss.

Definition new (paths : list string) (start_at_end : bool) : Tailer :=
  from_sources [mkTailSource paths [] start_at_end None None].

(** [Path::components], and a path with a component pushed onto it. *)
Definition component (s : string) : Component := if String.eqb s ".." then ParentDir else Normal s.
Definition components (path : string) : list Component :=
  let parts := split_char "/" path in
  (if starts_with "/" path then [RootDir] else match parts with "." :: _ => [CurDir] | _ => [] end)
  ++ List.map component (List.filter (fun s => nonempty s && negb (String.eqb s ".")) parts).

Definition component_str (c : Component) : string :=
  match c with Normal s => s | RootDir => "/" | CurDir => "." | ParentDir => ".." end.
Definition push (base s : string) : string :=
  if starts_with "/" s then s
  else if String.eqb base "" then s
  else if ends_with "/" base then String.append base s
  else String.append base (String "/" s).
Definition path_string (found : list Component * list string) : string :=
  foldl push (foldl push "" (List.map component_str (fst found))) (snd found).

(** In seconds. *)
Definition REDISCOVER_INTERVAL : Z := 5.

(** [expand_patterns]: at most once in the interval, and only ever adding. *)
Definition expand_patterns (dir_at : list Component -> option Node) (now : Z) (t : Tailer) : Tailer :=
  if forallb (fun s => match patterns s with [] => true | _ => false end) (sources t) then t
  else if match last_expansion t with Some l => now - l <? REDISCOVER_INTERVAL | None => false end then t
  else
    let found := concat (imap (fun i s =>
      concat (List.map (fun pattern => List.map (fun p => (i, path_string p)) (glob_paths dir_at (components pattern))) (patterns s))) (sources t)) in
    let t := mkTailer (sources t) (paths t) (origin t) (Some now) (cursors t) (checkpoint_path t) (started t) (stats t) in
    foldl (fun t ip => claim (fst ip) (snd ip) t) t found.

(** A line with the file, the service and the index it goes to. *)
Definition Routed : Type := string * option string * option string * bytes.

(** [self.sources[self.origin[&path]]]. *)
Definition source_of (t : Tailer) (path : string) : option Source := origin t !! path ≫= fun i => sources t !! i.

(** One file of the poll; [initial] is whether it is the first poll. *)
Definition poll_path (os : string -> nat -> Sys) (initial : bool) (tl : Tailer * list Routed) (path : string) : Tailer * list Routed :=
  let '(t, out) := tl in
  match source_of t path with
  | None => (t, out)
  | Some s =>
      let '(cs, st, lines) := poll_one (os path) path (from_end s && initial) (cursors t) (stats t) in
      (with_tail cs st t, out ++ List.map (fun l => (path, service s, index s, l)) lines)
  end.

(** [poll_routed] before the checkpoint is saved. *)
Definition poll_routed (dir_at : list Component -> option Node) (now : Z) (os : string -> nat -> Sys) (t : Tailer) : Tailer * list Routed :=
  let t := expand_patterns dir_at now t in
  let initial := negb (started t) in
  let t := mkTailer (sources t) (paths t) (origin t) (last_expansion t) (cursors t) (checkpoint_path t) true (stats t) in
  foldl (poll_path os initial) (t, []) (paths t).

(** ** The checkpoint *)

Definition HT : ascii := ascii_of_N 9.
Definition tab_free (name : string) : bool := negb (str_has HT name || str_has LF name).

Definition checkpoint_line (file : string) (c : Cursor) : string :=
  str_join (String HT "") [file; show_Z (device (c_id c)); show_Z (inode (c_id c)); show_Z (c_offset c)].

(** The text, in the order the map is walked in. *)
Definition checkpoint_text (cursors : list (string * Cursor)) : string :=
  fold_right (fun l t => String.append l (String LF t)) ""
    (omap (fun fc => if tab_free (fst fc) then Some (checkpoint_line (fst fc) (snd fc)) else None) cursors).

(** The file after a save: [written] and [renamed] are what the two calls say. *)
Definition save_checkpoint (written renamed : bool) (cursors : gmap string Cursor) (file : option string) : option string :=
  if written && renamed then Some (checkpoint_text (map_to_list cursors)) else file.

Definition checkpoint_entry (line : string) : option (string * Cursor) :=
  match split_char HT line with
  | [file; device; inode; offset] =>
      d ← parse_uint u64_max device;
      i ← parse_uint u64_max inode;
      o ← parse_uint u64_max offset;
      Some (file, mkCursor (mkFileId d i) o [] None)
  | _ => None
  end.

(** [load_checkpoint] of a file, or of none: the last line about a path counts. *)
Definition load_checkpoint (file : option string) : gmap string Cursor :=
  match file with
  | None => ∅
  | Some text => foldl (fun m e => <[fst e := snd e]> m) ∅ (omap checkpoint_entry (str_lines text))
  end.

Definition with_checkpoint (file : option string) (path : string) (t : Tailer) : Tailer :=
  mkTailer (sources t) (paths t) (origin t) (last_expansion t) (load_checkpoint file) (Some path) (started t) (stats t).

(** The whole of [poll_routed]: with a checkpoint configured it is saved last. *)
Definition poll_and_save (dir_at : list Component -> option Node) (now : Z) (os : string -> nat -> Sys) (written renamed : bool)
    (t : Tailer) (file : option string) : Tailer * list Routed * option string :=
  let '(t, out) := poll_routed dir_at now os t in
  (t, out, match checkpoint_path t with Some _ => save_checkpoint written renamed (cursors t) file | None => file end).
