(* ===== verification/TailFacts.v ===== *)
(** What the tailer promises: over appends, rotations, polls and restarts every
    line of every generation of a file goes out once and in order, and a restart
    resumes from its checkpoint. *)

From stdpp Require Import sorting.
From S2P Require Import Prelude Text Lists Proto Utf8 Retention Glob Tail.
Open Scope string_scope.
Open Scope Z_scope.
Open Scope list_scope.

(** ** Lines *)

(** The lines of a text that are ended, and the fragment behind them. *)
Definition whole (t : bytes) : list bytes := match cut_last t with Some (a, _) => full_lines a | None => [] end.
Definition rest (t : bytes) : bytes := match cut_last t with Some (_, b) => b | None => t end.

Lemma cut_last_app a b :
  cut_last (a ++ b) = match cut_last b with
                      | Some (x, y) => Some (a ++ x, y)
                      | None => match cut_last a with Some (x, y) => Some (x, y ++ b) | None => None end
                      end.
Proof.
  induction a as [|c a IH]; cbn [app cut_last]; [by destruct (cut_last b) as [[x y]|]|].
  rewrite IH. destruct (cut_last b) as [[x y]|]; [done|]. destruct (cut_last a) as [[x y]|]; [done|]. by destruct (is_nl c).
Qed.

Lemma cut_last_some t : forall a b, cut_last t = Some (a, b) -> t = a ++ NL :: b /\ cut_last b = None.
Proof.
  induction t as [|c t IH]; intros a b; cbn [cut_last]; [done|]. destruct (cut_last t) as [[x y]|] eqn:Et.
  - intros [= <- <-]. destruct (IH x y eq_refl) as [-> ?]. by split.
  - destruct (is_nl c) eqn:E; [|done]. intros [= <- <-]. by apply Byte.byte_dec_bl in E as ->.
Qed.

Lemma cut_last_none t : cut_last t = None <-> existsb is_nl t = false.
Proof.
  induction t as [|c t IH]; cbn [cut_last existsb]; [done|].
  destruct (cut_last t) as [[x y]|]; destruct (is_nl c); cbn [orb]; try (by split); tauto || (split; [done|intros H; by apply IH in H]).
Qed.

Lemma split_nl_app a b : split_nl (a ++ NL :: b) = split_nl a ++ split_nl b.
Proof.
  induction a as [|c a IH]; cbn [app split_nl]; [done|]. rewrite IH. destruct (is_nl c); [done|].
  assert (split_nl a <> []) as Hn by (destruct a as [|d a]; cbn; [done|]; destruct (is_nl d); [done|]; by destruct (split_nl a)).
  by destruct (split_nl a).
Qed.

Lemma full_lines_app a b : full_lines (a ++ NL :: b) = full_lines a ++ full_lines b.
Proof. unfold full_lines. by rewrite split_nl_app, List.filter_app. Qed.

Lemma rest_more a b : rest (a ++ b) = rest (rest a ++ b).
Proof.
  unfold rest. rewrite !cut_last_app. destruct (cut_last b) as [[x y]|] eqn:Eb; [done|].
  destruct (cut_last a) as [[x y]|] eqn:Ea; [|by rewrite Ea].
  by destruct (cut_last_some _ _ _ Ea) as [_ ->].
Qed.

Lemma whole_app a b : whole (a ++ b) = whole a ++ whole (rest a ++ b).
Proof.
  unfold whole, rest. destruct (cut_last a) as [[x y]|] eqn:Ea; [|done].
  destruct (cut_last_some _ _ _ Ea) as [Et Ey]. rewrite !cut_last_app, Ea, Ey. destruct (cut_last b) as [[u v]|].
  - rewrite Et, <- app_assoc. cbn [app]. by rewrite full_lines_app.
  - by rewrite app_nil_r.
Qed.

Lemma split_nl_none t : existsb is_nl t = false -> split_nl t = [t].
Proof.
  induction t as [|c t IH]; cbn [existsb split_nl]; [done|]. destruct (is_nl c); [done|]. intros H. by rewrite IH.
Qed.

(** Every line of a text: those that are ended, and the fragment when there is one. *)
Lemma full_lines_split t : full_lines t = whole t ++ (if has_bytes (rest t) then [rest t] else []).
Proof.
  assert (H : forall b, cut_last b = None -> full_lines b = if has_bytes b then [b] else []).
  { intros b Hb. apply cut_last_none in Hb. unfold full_lines. rewrite split_nl_none by done. cbn. by destruct (has_bytes b). }
  unfold whole, rest. destruct (cut_last t) as [[a b]|] eqn:E; [|by apply H].
  destruct (cut_last_some _ _ _ E) as [-> Eb]. by rewrite full_lines_app, (H b Eb).
Qed.

(** ** A log file and its generations *)

(** The file of the k-th generation; the last one has the name. *)
Definition gid (k : nat) : FileId := mkFileId 0 (Z.of_nat k).
Definition generation (gens : list bytes) (h : Handle) : option bytes := gens !! Z.to_nat (inode h).

Lemma generation_gid gens k : generation gens (gid k) = gens !! k.
Proof. unfold generation, gid. cbn. by rewrite Nat2Z.id. Qed.

(** The system while nothing moves during a poll. *)
Definition quiet (gens : list bytes) : Sys :=
  let top := (List.length gens - 1)%nat in
  mkSys (fun _ => option_map (fun g => (true, gid top, Z.of_nat (List.length g))) (gens !! top))
        (fun _ => option_map (fun _ => gid top) (gens !! top))
        (fun h => option_map (fun g => Z.of_nat (List.length g)) (generation gens h))
        (fun _ _ => true)
        (fun h off n => option_map (fun g => firstn (Z.to_nat n) (skipn (Z.to_nat off) g)) (generation gens h)).

Lemma drain_quiet gens k id seen new stats :
  gens !! k = Some (seen ++ new) -> utf8 new = true ->
  exists stats' lines,
    drain_handle (quiet gens) (mkCursor id (Z.of_nat (List.length seen)) (rest seen) (Some (gid k))) stats
    = (mkCursor id (Z.of_nat (List.length (seen ++ new))) (rest (seen ++ new)) (Some (gid k)), stats', lines) /\
    whole (seen ++ new) = whole seen ++ lines /\ lines_read stats' = lines_read stats + Z.of_nat (List.length lines).
Proof.
  intros Hk Hu. unfold drain_handle. cbn [c_handle c_offset c_partial c_id quiet s_len s_seek s_read]. rewrite generation_gid, Hk.
  cbn [option_map]. rewrite length_app. destruct new as [|b new].
  { rewrite Nat.add_0_r, app_nil_r, (proj2 (Z.leb_le _ _)) by lia. exists stats, []. rewrite app_nil_r. cbn [List.length]. split_and!; [done|done|lia]. }
  rewrite (proj2 (Z.leb_gt _ _)) by (cbn [List.length]; lia). cbn [negb].
  rewrite Nat2Z.id, skipn_app, skipn_all, Nat.sub_diag. cbn [app skipn].
  rewrite firstn_all2 by lia. rewrite (lossy_utf8 _ Hu). rewrite <- Nat2Z.inj_add, (whole_app seen), (rest_more seen).
  set (text := rest seen ++ b :: new). unfold whole, rest. destruct (cut_last text) as [[x y]|].
  - do 2 eexists. split; [reflexivity|]. split; [done|]. done.
  - do 2 eexists. split; [reflexivity|]. by split.
Qed.

(** ** The checkpoint *)

Lemma unterminated_number a n : 0 <= n -> unterminated (String.append a (show_Z n)) = String.append a (show_Z n).
Proof.
  intros Hn. unfold unterminated, strip_suffix. rewrite str_rev_concat.
  pose proof (show_Z_digits n Hn) as Hd. rewrite <- str_all_rev in Hd. pose proof (show_Z_nonempty n) as He.
  destruct (str_rev (show_Z n)) as [|c s] eqn:E.
  { exfalso. apply He. by rewrite <- (str_rev_rev (show_Z n)), E. }
  cbn in Hd. apply andb_true_iff in Hd as [Hd _]. change (str_rev (String CR "")) with (String CR "").
  cbn [String.append strip_prefix option_map]. destruct (Ascii.eqb_spec CR c) as [<-|]; [done|done].
Qed.

Lemma omap_if {A B} (p : A -> bool) (f : A -> B) l : omap (fun a => if p a then Some (f a) else None) l = List.map f (List.filter p l).
Proof. induction l as [|a l IH]; [done|]. cbn. destruct (p a); [cbn; f_equal|]; exact IH. Qed.

Definition in_u64 (c : Cursor) : Prop := u64_range (device (c_id c)) /\ u64_range (inode (c_id c)) /\ u64_range (c_offset c).

Lemma digits_no (a : ascii) s : is_digit a = false -> str_all is_digit s = true -> str_all (fun c => negb (Ascii.eqb a c)) s = true.
Proof. intros Ha. apply str_all_impl. intros c Hc. apply negb_true_iff. apply Ascii.eqb_neq. intros ->. congruence. Qed.

Lemma parse_show n : u64_range n -> parse_uint u64_max (show_Z n) = Some n.
Proof. exact (parse_uint_pad0 u64_max 0 n). Qed.

Definition forget (c : Cursor) : Cursor := mkCursor (c_id c) (c_offset c) [] None.

Lemma checkpoint_entry_line file c : tab_free file = true -> in_u64 c ->
  checkpoint_entry (checkpoint_line file c) = Some (file, forget c).
Proof.
  unfold tab_free. rewrite negb_true_iff, orb_false_iff. intros [Ht _] (Hd & Hi & Ho). unfold checkpoint_entry, checkpoint_line, split_char.
  cbn [str_join String.append]. rewrite split_on_app by (done || by apply str_any_none).
  rewrite !split_on_app by (reflexivity || (apply digits_no; [reflexivity|apply show_Z_digits; unfold u64_range in *; lia])).
  rewrite split_on_none by (apply digits_no; [reflexivity|apply show_Z_digits; unfold u64_range in *; lia]).
  rewrite !parse_show by done. by destruct c as [[d i] o p h].
Qed.

Lemma str_app_cons a s t : String.append (String a s) t = String a (String.append s t).
Proof. done. Qed.

Lemma checkpoint_line_whole file c : tab_free file = true -> in_u64 c ->
  str_all (fun x => negb (Ascii.eqb LF x)) (checkpoint_line file c) = true /\ unterminated (checkpoint_line file c) = checkpoint_line file c.
Proof.
  unfold tab_free. rewrite negb_true_iff, orb_false_iff. intros [_ Hl] (Hd & Hi & Ho). unfold checkpoint_line. cbn [str_join String.append].
  assert (Hn : forall n, u64_range n -> str_all (fun c => negb (Ascii.eqb LF c)) (show_Z n) = true).
  { intros n Hn. apply digits_no; [reflexivity|]. apply show_Z_digits. unfold u64_range in Hn. lia. }
  split.
  - repeat (rewrite str_all_app; cbn [str_all]). by rewrite (str_any_none _ _ Hl), !Hn.
  - set (a := show_Z (device _)). set (b := show_Z (inode _)).
    replace (String.append file (String HT (String.append a (String HT (String.append b (String HT (show_Z (c_offset c))))))))
      with (String.append (String.append file (String HT (String.append a (String HT (String.append b (String HT "")))))) (show_Z (c_offset c))).
    + apply unterminated_number. unfold u64_range in Ho. lia.
    + by repeat (rewrite str_app_assoc || rewrite str_app_cons).
Qed.

Lemma str_lines_text ls : Forall (fun l => str_all (fun x => negb (Ascii.eqb LF x)) l = true /\ unterminated l = l) ls ->
  str_lines (fold_right (fun l t => String.append l (String LF t)) "" ls) = ls.
Proof.
  unfold str_lines, split_char. induction 1 as [|l ls [Hl Hu] _ IH]; [done|]. cbn [fold_right].
  rewrite split_on_app by done. cbn [ended_lines]. rewrite IH, Hu.
  destruct (split_on (Ascii.eqb LF) _) as [|x r] eqn:E; [|done].
  exfalso. by apply split_on_nonempty in E.
Qed.

Lemma foldl_insert_map (l : list (string * Cursor)) : forall (m : gmap string Cursor), NoDup l.*1 ->
  foldl (fun m e => <[fst e := snd e]> m) m l = list_to_map l ∪ m.
Proof.
  induction l as [|[k c] l IH]; intros m Hn; cbn [foldl fst snd]; [by rewrite list_to_map_nil, (left_id_L ∅ (∪))|].
  apply NoDup_cons in Hn as [Hk Hn]. rewrite (IH _ Hn). cbn [list_to_map].
  rewrite list_to_map_cons, <- insert_union_l. cbn [fst snd]. rewrite insert_union_r; [done|]. by apply not_elem_of_list_to_map_1.
Qed.

(** A checkpoint read back, in whatever order the map was written, gives
    every file its identity and offset, without the fragment and the handle; a
    path with a tab or a newline in it is the only one left out. *)
Theorem checkpoint_roundtrip (m : gmap string Cursor) (order : list (string * Cursor)) :
  Permutation order (map_to_list m) -> (forall p c, m !! p = Some c -> in_u64 c) ->
  load_checkpoint (Some (checkpoint_text order)) = forget <$> filter (fun pc => tab_free (fst pc) = true) m.
Proof.
  intros Hp Hu. unfold load_checkpoint, checkpoint_text.
  assert (Hall : Forall (fun e => in_u64 (snd e)) order).
  { rewrite Hp. apply Forall_forall. intros [p c] Hin. apply elem_of_map_to_list in Hin. by apply (Hu p). }
  assert (Hnd : NoDup order.*1) by (rewrite Hp; apply NoDup_fst_map_to_list).
  set (kept := List.filter (fun e => tab_free (fst e)) order).
  assert (Hlines : omap (fun fc => if tab_free (fst fc) then Some (checkpoint_line (fst fc) (snd fc)) else None) order
                   = List.map (fun e => checkpoint_line (fst e) (snd e)) kept).
  { apply (omap_if (fun e => tab_free (fst e))). }
  rewrite Hlines, str_lines_text.
  2: { apply List.Forall_forall. intros l (e & <- & He)%in_map_iff. apply filter_In in He as [He Ht].
       apply checkpoint_line_whole; [done|]. rewrite List.Forall_forall in Hall. by apply Hall. }
  assert (Hentries : omap checkpoint_entry (List.map (fun e => checkpoint_line (fst e) (snd e)) kept) = List.map (fun e => (fst e, forget (snd e))) kept).
  { rewrite omap_map. apply omap_all. apply List.Forall_forall. intros e He. apply filter_In in He as [He Ht].
    rewrite List.Forall_forall in Hall. by apply checkpoint_entry_line; [|apply Hall]. }
  assert (Hk : NoDup (List.map (fun e => (fst e, forget (snd e))) kept).*1).
  { replace (List.map (fun e => (fst e, forget (snd e))) kept).*1 with (List.map fst kept) by (clear; unfold fmap; induction kept as [|e l IH]; cbn; [done|by rewrite <- IH]).
    apply (sublist_NoDup _ order.*1); [done|]. apply sublist_map. apply sublist_filter_bool. }
  rewrite Hentries, foldl_insert_map, (right_id_L ∅ (∪)) by done. apply map_eq. intros p. apply option_eq. intros c.
  rewrite <- elem_of_list_to_map by done. rewrite list_elem_of_In, in_map_iff, lookup_fmap, fmap_Some. setoid_rewrite map_lookup_filter_Some.
  unfold kept. setoid_rewrite filter_In. split.
  - intros ([q d] & [= -> <-] & Hin & Ht). exists d. split; [|done]. split; [|done].
    apply elem_of_map_to_list. apply list_elem_of_In. by rewrite <- Hp.
  - intros (d & [Hd Ht] & ->). exists (p, d). split; [done|]. split; [|done]. rewrite Hp. by apply list_elem_of_In, elem_of_map_to_list.
Qed.

Definition two_files : gmap string Cursor :=
  list_to_map [("/var/log/app.log", mkCursor (mkFileId 1 7) 120 (list_byte_of_string "frag") (Some (mkFileId 1 7))); ("/var/log/b.log", mkCursor (mkFileId 1 9) 0 [] None)].

Lemma checkpoint_roundtrip_witness :
  load_checkpoint (Some (checkpoint_text (map_to_list two_files))) = forget <$> filter (fun pc => tab_free (fst pc) = true) two_files /\
  load_checkpoint (Some (checkpoint_text (map_to_list two_files))) !! "/var/log/app.log" = Some (mkCursor (mkFileId 1 7) 120 [] None).
Proof.
  split; [|vm_compute; reflexivity]. apply (checkpoint_roundtrip two_files); [reflexivity|].
  intros p c Hc. unfold two_files in Hc. apply elem_of_list_to_map_2 in Hc. apply list_elem_of_In in Hc.
  destruct Hc as [[= _ <-]|[[= _ <-]|[]]]; repeat split; cbn; unfold u64_max; lia.
Defined.

(** ** Over rotations and restarts *)

(** What is on the disk under one path, and the tailer that follows it. *)
Record World := mkWorld { gens : list bytes; w_cursors : gmap string Cursor; w_stats : TailStats; w_out : list bytes }.

Section Follow.
Context (path : string).

(** A program appends whole characters to the file that has the name, or the
    file is rotated away while the tailer has it open; the tailer polls; or it
    stops and starts again with what its checkpoint says. *)
Inductive tail_step : World -> World -> Prop :=
| ts_append gs g b cs st o : utf8 b = true ->
    tail_step (mkWorld (gs ++ [g]) cs st o) (mkWorld (gs ++ [g ++ b]) cs st o)
| ts_rotate gs g cs st o c : cs !! path = Some c -> c_handle c = Some (gid (List.length gs)) ->
    tail_step (mkWorld (gs ++ [g]) cs st o) (mkWorld ((gs ++ [g]) ++ [[]]) cs st o)
| ts_poll gs cs st o cs' st' lines : poll_one (fun _ => quiet gs) path false cs st = (cs', st', lines) ->
    tail_step (mkWorld gs cs st o) (mkWorld gs cs' st' (o ++ lines))
| ts_restart gs cs st o c order : cs !! path = Some c -> c_partial c = [] -> c_handle c = Some (gid (List.length gs - 1)) ->
    Permutation order (map_to_list cs) -> (forall p c, cs !! p = Some c -> in_u64 c) ->
    tail_step (mkWorld gs cs st o) (mkWorld gs (load_checkpoint (Some (checkpoint_text order))) st o).

(** The specification: the lines of the generations that are closed, each with
    its fragment, and the ended lines of the one that has the name. *)
Definition delivered (gs : list bytes) : list bytes :=
  concat (List.map full_lines (removelast gs)) ++ match last gs with Some g => whole g | None => [] end.

Record Following (w : World) (c : Cursor) (before : list bytes) (seen new : bytes) (later : list bytes) : Prop := mkFollowing {
  fo_gens : gens w = before ++ (seen ++ new) :: later;
  fo_new : utf8 new = true;
  fo_later : later = [] \/ exists l, later = [l] /\ utf8 l = true;
  fo_id : c_id c = gid (List.length before);
  fo_offset : c_offset c = Z.of_nat (List.length seen);
  fo_partial : c_partial c = rest seen;
  fo_handle : c_handle c = Some (gid (List.length before)) \/ (c_handle c = None /\ later = []);
  fo_out : w_out w = concat (List.map full_lines before) ++ whole seen }.

Definition Tailed (w : World) : Prop :=
  lines_read (w_stats w) = Z.of_nat (List.length (w_out w)) /\
  match w_cursors w !! path with
  | None => exists g, gens w = [g] /\ utf8 g = true /\ w_out w = []
  | Some c => exists before seen new later, Following w c before seen new later
  end.

Lemma gid_inj a b : gid a = gid b -> a = b.
Proof. intros [= H]. lia. Qed.

Lemma delivered_snoc before g : delivered (before ++ [g]) = concat (List.map full_lines before) ++ whole g.
Proof. unfold delivered. by rewrite removelast_last, last_snoc. Qed.

Lemma quiet_top before g : quiet (before ++ [g]) = mkSys (fun _ => Some (true, gid (List.length before), Z.of_nat (List.length g)))
  (fun _ => Some (gid (List.length before))) (s_len (quiet (before ++ [g]))) (fun _ _ => true) (s_read (quiet (before ++ [g]))).
Proof.
  unfold quiet at 1. rewrite length_app. cbn [List.length]. rewrite Nat.add_sub, list_lookup_middle by done. done.
Qed.

Lemma nth_here before (g : bytes) later : (before ++ g :: later) !! List.length before = Some g.
Proof. by rewrite list_lookup_middle. Qed.

(** The poll of a file that is still the one the cursor reads. *)
Lemma poll_same before seen new cs st o c cs' st' lines :
  Following (mkWorld (before ++ [seen ++ new]) cs st o) c before seen new [] -> cs !! path = Some c ->
  poll_one (fun _ => quiet (before ++ [seen ++ new])) path false cs st = (cs', st', lines) ->
  whole (seen ++ new) = whole seen ++ lines /\ lines_read st' = lines_read st + Z.of_nat (List.length lines) /\
  cs' = <[path := mkCursor (gid (List.length before)) (Z.of_nat (List.length (seen ++ new))) (rest (seen ++ new)) (Some (gid (List.length before)))]> cs.
Proof.
  intros [_ Hu _ Hi Ho Hp Hh _] Hc. destruct c as [id off part h]. cbn [c_id c_offset c_partial c_handle] in *. subst id off part.
  unfold poll_one. rewrite Hc. rewrite quiet_top at 1. cbn [s_metadata negb].
  replace (open_cursor _ _ _ _) with (mkCursor (gid (List.length before)) (Z.of_nat (List.length seen)) (rest seen) (Some (gid (List.length before)))).
  2: { unfold open_cursor. cbn [c_id c_handle c_offset c_partial]. destruct Hh as [->|[-> _]]; [done|].
       rewrite quiet_top. cbn [s_open]. by rewrite bool_decide_true. }
  unfold follow. cbn [c_id c_offset]. rewrite bool_decide_true by done. cbn [negb].
  rewrite (proj2 (Z.ltb_ge _ _)) by (rewrite length_app; lia).
  destruct (drain_quiet (before ++ [seen ++ new]) (List.length before) (gid (List.length before)) seen new st) as (s2 & ls & -> & Hw & Hr);
    [apply nth_here|done|]. intros [= <- <- <-]. by split_and!.
Qed.

(** The poll of a file that has been rotated: the old file to its end, its
    fragment, and the new file from its start. *)
Lemma poll_rotated before seen new l cs st o c cs' st' lines :
  Following (mkWorld (before ++ [seen ++ new] ++ [l]) cs st o) c before seen new [l] -> cs !! path = Some c -> utf8 l = true ->
  poll_one (fun _ => quiet ((before ++ [seen ++ new]) ++ [l])) path false cs st = (cs', st', lines) ->
  full_lines (seen ++ new) ++ whole l = whole seen ++ lines /\ lines_read st' = lines_read st + Z.of_nat (List.length lines) /\
  cs' = <[path := mkCursor (gid (S (List.length before))) (Z.of_nat (List.length l)) (rest l) (Some (gid (S (List.length before))))]> cs.
Proof.
  intros [_ Hu _ Hi Ho Hp Hh _] Hc Hul. destruct c as [id off part h]. cbn [c_id c_offset c_partial c_handle] in *. subst id off part.
  destruct Hh as [->|[_ ?]]; [|done]. set (gs := (before ++ [seen ++ new]) ++ [l]).
  assert (Hlen : List.length (before ++ [seen ++ new]) = S (List.length before)) by (rewrite length_app; cbn; lia).
  unfold poll_one. rewrite Hc. unfold gs at 1. rewrite quiet_top at 1. cbn [s_metadata negb]. rewrite Hlen.
  unfold open_cursor. cbn [c_handle]. unfold follow. cbn [c_id c_offset c_handle c_partial].
  rewrite bool_decide_false by (intros H; apply gid_inj in H; lia). cbn [negb].
  destruct (drain_quiet gs (List.length before) (gid (List.length before)) seen new (one_rotation st)) as (s2 & ls & -> & Hw & Hr);
    [unfold gs; rewrite <- app_assoc; apply nth_here|done|]. cbn [c_partial].
  destruct (drain_quiet gs (S (List.length before)) (gid (S (List.length before))) [] l
    (if has_bytes (rest (seen ++ new)) then lines_more 1 s2 else s2)) as (s3 & ls3 & Hd & Hw3 & Hr3);
    [unfold gs; rewrite <- Hlen; apply nth_here|done|]. cbn [List.length] in Hd. change (rest []) with (@nil byte) in Hd. change (Z.of_nat 0) with 0 in Hd.
  cbn [app] in Hd, Hw3. unfold gs at 1. rewrite quiet_top. cbn [s_open]. rewrite Hlen.
  rewrite full_lines_split, Hw. destruct (has_bytes (rest (seen ++ new))); rewrite Hd; intros [= <- <- <-];
    rewrite Hr3; cbn [lines_more lines_read one_rotation] in *; rewrite !length_app; cbn [List.length];
    (split_and!; [by rewrite <- !app_assoc, Hw3|lia|done]).
Qed.

(** A poll of a tailed file: what is out is what the generations say. *)
Lemma poll_delivers gs cs st o cs' st' lines : Tailed (mkWorld gs cs st o) -> tab_free path = true ->
  poll_one (fun _ => quiet gs) path false cs st = (cs', st', lines) ->
  Tailed (mkWorld gs cs' st' (o ++ lines)) /\ o ++ lines = delivered gs.
Proof.
  intros [Hr HT] _ Hp. cbn [w_stats w_out w_cursors gens] in *. unfold Tailed. cbn [w_stats w_out w_cursors gens].
  destruct (cs !! path) as [c|] eqn:Hc.
  - destruct HT as (before & seen & new & later & HF). pose proof HF as [Hg Hu Hl _ _ _ _ Ho]. cbn [gens w_out] in *.
    destruct Hl as [->|(l & -> & Hul)].
    + subst gs. destruct (poll_same _ _ _ _ _ _ _ _ _ _ HF Hc Hp) as (Hw & Hs & ->).
      assert (Hd : o ++ lines = delivered (before ++ [seen ++ new])) by (by rewrite delivered_snoc, Hw, app_assoc, <- Ho).
      split; [|done]. split; [rewrite length_app; lia|]. rewrite lookup_insert_eq.
      exists before, (seen ++ new), [], []. constructor; cbn; try done; [by rewrite app_nil_r|by left|by left|].
      by rewrite Hd, delivered_snoc.
    + change (before ++ (seen ++ new) :: [l]) with (before ++ [seen ++ new] ++ [l]) in Hg. subst gs.
      rewrite app_assoc in Hp. destruct (poll_rotated _ _ _ _ _ _ _ _ _ _ _ HF Hc Hul Hp) as (Hw & Hs & ->).
      assert (Hd : o ++ lines = delivered (before ++ [seen ++ new] ++ [l])).
      { rewrite app_assoc, delivered_snoc, map_app, concat_app. cbn [List.map concat]. by rewrite app_nil_r, Ho, <- !app_assoc, <- Hw. }
      split; [|done]. split; [rewrite length_app; lia|]. rewrite lookup_insert_eq.
      assert (Hlen : List.length (before ++ [seen ++ new]) = S (List.length before)) by (rewrite length_app; cbn; lia).
      exists (before ++ [seen ++ new]), l, [], []. constructor; cbn [gens c_id c_offset c_partial c_handle w_out]; try done; rewrite ?Hlen; try done.
      * by rewrite app_nil_r, <- app_assoc.
      * by left.
      * by left.
      * by rewrite Hd, app_assoc, delivered_snoc.
  - destruct HT as (g & -> & Hu & ->). change [g] with ([] ++ [[] ++ g]) in Hp |- *.
    set (c := mkCursor (gid 0) 0 [] None).
    assert (HF : Following (mkWorld ([] ++ [[] ++ g]) (<[path := c]> cs) st []) c [] [] g []) by (constructor; cbn; try done; [by left|by right]).
    assert (Hp' : poll_one (fun _ => quiet ([] ++ [[] ++ g])) path false (<[path := c]> cs) st = (cs', st', lines)).
    { assert (Hm : s_metadata (quiet ([] ++ [[] ++ g])) path = Some (true, gid 0, Z.of_nat (List.length g))) by done.
      revert Hp. unfold poll_one. rewrite !Hm, Hc, lookup_insert_eq. cbn [negb]. fold c. destruct (follow _ _ _ _ _ _) as [[c1 s1] l1].
      destruct (drain_handle _ _ _) as [[c2 s2] l2]. by rewrite insert_insert_eq. }
    destruct (poll_same _ _ _ _ _ _ _ _ _ _ HF ltac:(apply lookup_insert_eq) Hp') as (Hw & Hs & ->).
    assert (Hd : [] ++ lines = delivered ([] ++ [[] ++ g])) by (by rewrite delivered_snoc, Hw).
    split; [|done]. split; [cbn [List.length] in Hr; cbn [app]; lia|]. rewrite lookup_insert_eq.
    exists [], g, [], []. constructor; cbn [app gens w_out c_partial c_id c_offset c_handle]; try done; [by rewrite app_nil_r|by left|by left].
Qed.

Lemma tail_step_tailed w w' : tab_free path = true -> Tailed w -> tail_step w w' -> Tailed w'.
Proof.
  intros Hpath HT Hs. inversion Hs as [gs g b cs st o Hb E1 E2|gs g cs st o c Hc Hh E1 E2|gs cs st o cs' st' lines Hp E1 E2|gs cs st o c order Hc Hpa Hh Hpe Hu E1 E2]; subst.
  - destruct HT as [Hr HT]. split; [done|]. cbn [w_cursors gens w_out] in *. destruct (cs !! path) as [c|].
    + destruct HT as (before & seen & new & later & [Hg Hun Hl Hi Ho Hp Hh Hout]). cbn [gens w_out] in *.
      destruct Hl as [->|(l & -> & Hul)].
      * apply app_inj_tail in Hg as [<- ->]. exists gs, seen, (new ++ b), []. constructor; cbn; try done; [by rewrite <- app_assoc| |by left].
        by rewrite utf8_app.
      * change (before ++ (seen ++ new) :: [l]) with (before ++ [seen ++ new] ++ [l]) in Hg. rewrite app_assoc in Hg.
        apply app_inj_tail in Hg as [-> ->]. exists before, seen, new, [l ++ b]. constructor; cbn; try done; [by rewrite <- app_assoc| |].
        -- right. exists (l ++ b). split; [done|]. by rewrite utf8_app.
        -- destruct Hh as [?|[_ ?]]; [by left|done].
    + destruct HT as (g0 & Hg & Hu & Hout). destruct gs as [|x gs]; [|by destruct gs]. injection Hg as ->.
      exists (g0 ++ b). split; [done|]. split; [by rewrite utf8_app|done].
  - destruct HT as [Hr HT]. split; [done|]. cbn [w_cursors gens w_out] in *. rewrite Hc in *.
    destruct HT as (before & seen & new & later & [Hg Hun Hl Hi Ho Hp Hh' Hout]). cbn [gens w_out] in *.
    assert (Hlen : List.length before = List.length gs).
    { destruct Hh' as [H|[H _]]; rewrite Hh in H; [|done]. injection H as H. lia. }
    destruct Hl as [->|(l & -> & _)].
    + apply app_inj_tail in Hg as [<- ->]. exists gs, seen, new, [[]]. constructor; cbn; try done; [by rewrite <- app_assoc| |by left].
      right. by exists [].
    + apply (f_equal (@List.length bytes)) in Hg. rewrite !length_app in Hg. cbn in Hg. lia.
  - by apply (poll_delivers _ _ _ _ _ _ _ HT Hpath Hp).
  - destruct HT as [Hr HT]. split; [done|]. cbn [w_cursors gens w_out] in *. rewrite Hc in HT.
    rewrite (checkpoint_roundtrip cs order Hpe Hu), lookup_fmap.
    rewrite (proj2 (map_lookup_filter_Some _ _ _ _) (conj Hc Hpath)). cbn [fmap option_fmap option_map].
    destruct HT as (before & seen & new & later & [Hg Hun Hl Hi Ho Hp Hh' Hout]). cbn [gens w_out] in *.
    exists before, seen, new, later. constructor; cbn; try done; [congruence|]. right. split; [done|].
    destruct Hl as [->|(l & -> & _)]; [done|]. exfalso.
    destruct Hh' as [H|[H _]]; rewrite Hh in H; [|done]. injection H as H. subst gs. rewrite length_app in H. cbn in H. lia.
Qed.
End Follow.

Definition fresh_world (g : bytes) : World := mkWorld [g] ∅ no_stats [].

(** C16: A file that is appended to in whole characters, rotated at most once
    between two polls and never while the tailer is down, and a tailer that may be
    restarted from its checkpoint between two lines: at every poll what has gone
    out is every line of every generation, once and in order, with the fragment a
    rotated file ends in, and the ended lines of the current one. *)
Theorem tail_delivers (path : string) (g : bytes) (w : World) :
  tab_free path = true -> utf8 g = true -> rtc (tail_step path) (fresh_world g) w ->
  (forall cs st lines, poll_one (fun _ => quiet (gens w)) path false (w_cursors w) (w_stats w) = (cs, st, lines) ->
    w_out w ++ lines = delivered (gens w) /\ lines_read st = Z.of_nat (List.length (delivered (gens w)))).
Proof.
  intros Hpath Hg Hr cs st lines Hp.
  assert (HT : Tailed path w).
  { assert (H0 : Tailed path (fresh_world g)) by (split; [done|]; cbn; rewrite lookup_empty; by exists g).
    revert H0. clear Hp. induction Hr as [|x y z Hs _ IH]; [done|]. intros H0. apply IH. by apply (tail_step_tailed path x). }
  destruct w as [gs cs0 st0 o]. cbn [gens w_cursors w_stats w_out] in *.
  destruct (poll_delivers path _ _ _ _ _ _ _ HT Hpath Hp) as [[Hs _] Hd]. split; [done|]. cbn [w_stats w_out] in Hs. by rewrite <- Hd.
Qed.

(** ** Who owns a path *)

(** Every path once, with the source that claimed it, which does not exclude it. *)
Record Claims (t : Tailer) : Prop := mkClaims {
  cl_nodup : NoDup (paths t);
  cl_origin : forall p, p ∈ paths t <-> is_Some (origin t !! p);
  cl_source : forall p i, origin t !! p = Some i -> exists s, sources t !! i = Some s /\ excluded (exclude s) p = false }.

Lemma claim_claims i p t : Claims t -> (i < List.length (sources t))%nat -> Claims (claim i p t).
Proof.
  intros [Hn Ho Hs] Hi. unfold claim. destruct (origin t !! p) as [j|] eqn:Ep; [done|].
  destruct (lookup_lt_is_Some_2 (sources t) i Hi) as [s Es]. rewrite Es.
  destruct (excluded (exclude s) p) eqn:Ex; [done|]. constructor; cbn [paths origin sources].
  - apply NoDup_app. split; [done|]. split; [|apply NoDup_singleton]. intros q Hq ->%list_elem_of_singleton. apply Ho in Hq. rewrite Ep in Hq. by destruct Hq.
  - intros q. rewrite elem_of_app, list_elem_of_singleton, Ho. destruct (decide (p = q)) as [<-|Hne].
    + rewrite lookup_insert_eq. split; [by eexists|by right].
    + rewrite lookup_insert_ne by done. split; [by intros [?|?]|by left].
  - intros q j. destruct (decide (p = q)) as [<-|Hne]; [rewrite lookup_insert_eq; intros [= <-]; by exists s|rewrite lookup_insert_ne by done; apply Hs].
Qed.

Lemma claim_sources i p t : sources (claim i p t) = sources t.
Proof. unfold claim. destruct (origin t !! p); [done|]. by destruct (match sources t !! i with Some s => _ | None => _ end). Qed.

Lemma claims_claims (l : list (nat * string)) : forall t, Claims t -> Forall (fun ip => (fst ip < List.length (sources t))%nat) l ->
  Claims (foldl (fun t ip => claim (fst ip) (snd ip) t) t l) /\
  sources (foldl (fun t ip => claim (fst ip) (snd ip) t) t l) = sources t.
Proof.
  induction l as [|[i p] l IH]; intros t Ht Hl; [done|]. apply Forall_cons in Hl as [Hi Hl]. cbn [foldl fst snd] in *.
  destruct (IH (claim i p t)) as [H1 H2]; [by apply claim_claims|by rewrite claim_sources|]. split; [done|]. by rewrite H2, claim_sources.
Qed.

Lemma foldl_pair i (l : list string) : forall t,
  foldl (fun t ip => claim (fst ip) (snd ip) t) t (List.map (fun p => (i, p)) l) = foldl (fun t p => claim i p t) t l.
Proof. induction l as [|p l IH]; intros t; [done|apply IH]. Qed.

Lemma claims_expand dir_at now t : Claims t -> Claims (expand_patterns dir_at now t).
Proof.
  intros Ht. unfold expand_patterns. destruct (forallb _ _); [done|]. destruct (match last_expansion t with Some _ => _ | None => _ end); [done|].
  apply claims_claims; [by destruct Ht|]. cbn [sources]. apply Forall_concat. apply Forall_forall. intros l Hl.
  apply elem_of_lookup_imap in Hl as (i & s & -> & Hs). apply Forall_concat, Forall_forall. intros l2 Hl2.
  apply list_elem_of_In, in_map_iff in Hl2 as (pat & <- & _). apply Forall_forall. intros ip Hip.
  apply list_elem_of_In, in_map_iff in Hip as (q & <- & _). by apply lookup_lt_Some in Hs.
Qed.

Lemma claims_paths os initial l : forall out t, Claims t -> Claims (fst (foldl (poll_path os initial) (t, out) l)).
Proof.
  induction l as [|p l IH]; intros out t H; [done|]. cbn [foldl]. unfold poll_path at 2. destruct (source_of t p) as [s|]; [|by apply IH].
  destruct (poll_one _ _ _ _ _) as [[cs st] ls]. apply IH. by destruct H.
Qed.

Lemma claims_poll dir_at now os t : Claims t -> Claims (fst (poll_routed dir_at now os t)).
Proof. intros Ht. unfold poll_routed. apply claims_paths. by destruct (claims_expand dir_at now t Ht). Qed.

Lemma claims_add t s : Claims t -> Claims (add_source t s).
Proof.
  intros [Hn Ho Hs]. unfold add_source.
  rewrite <- (foldl_pair (List.length (sources t)) (List.filter (fun p => negb (is_pattern p)) (ts_paths s))).
  apply claims_claims; cbn [sources].
  - constructor; cbn [paths origin sources]; [done|done|]. intros p i Hp. destruct (Hs p i Hp) as (x & Hx & Hex). exists x.
    split; [by apply lookup_app_l_Some|done].
  - apply List.Forall_forall. intros ip (q & <- & _)%in_map_iff. cbn [fst]. rewrite length_app. cbn. lia.
Qed.

(** From the configuration on, over any number of polls, every tailed path is
    tailed once and belongs to one source, which names it and does not exclude it. *)
Theorem claims_kept (ss : list TailSource) (polls : list ((list Component -> option Node) * Z * (string -> nat -> Sys))) :
  Claims (foldl (fun t p => let '(dir_at, now, os) := p in fst (poll_routed dir_at now os t)) (from_sources ss) polls).
Proof.
  apply (foldl_preserves Claims).
  - intros t [[d n] os] Ht. by apply claims_poll.
  - unfold from_sources. apply (foldl_preserves Claims); [apply claims_add|].
    constructor; cbn; [constructor| |done]. intros p. rewrite lookup_empty. split; [by intros ?%elem_of_nil|by intros [? ?]].
Qed.

(** ** A run *)

Definition b (s : string) : bytes := list_byte_of_string s.
Definition log_path : string := "/var/log/app.log".
Definition nl : string := String LF "".
Definition lines_of (s : string) : bytes := b (String.append s nl).

Definition poll_world (w : World) : World :=
  let '(cs, st, lines) := poll_one (fun _ => quiet (gens w)) log_path false (w_cursors w) (w_stats w) in
  mkWorld (gens w) cs st (w_out w ++ lines).
Definition restart_world (w : World) : World :=
  mkWorld (gens w) (load_checkpoint (Some (checkpoint_text (map_to_list (w_cursors w))))) (w_stats w) (w_out w).

Lemma poll_world_step w : tail_step log_path w (poll_world w).
Proof.
  destruct w as [gs cs st o]. unfold poll_world. cbn [gens w_cursors w_stats w_out].
  destruct (poll_one _ _ _ _ _) as [[cs' st'] lines] eqn:E. by constructor.
Qed.

(** Half a line is read, the file is rotated, the new one gets a line. *)
Definition rotated_run : World :=
  mkWorld [lines_of "one" ++ b "tw"; lines_of "three"] (w_cursors (poll_world (fresh_world (lines_of "one" ++ b "tw"))))
    (w_stats (poll_world (fresh_world (lines_of "one" ++ b "tw")))) [b "one"].

Lemma rotated_run_reachable : rtc (tail_step log_path) (fresh_world (lines_of "one" ++ b "tw")) rotated_run.
Proof.
  eapply rtc_l; [apply poll_world_step|]. eapply rtc_l.
  { refine (ts_rotate log_path [] (lines_of "one" ++ b "tw") _ _ _ (mkCursor (gid 0) 6 (b "tw") (Some (gid 0))) _ _); vm_compute; reflexivity. }
  eapply rtc_l; [refine (ts_append log_path [lines_of "one" ++ b "tw"] [] (lines_of "three") _ _ _ _); vm_compute; reflexivity|].
  apply rtc_refl.
Qed.

Lemma tail_delivers_witness : w_out (poll_world rotated_run) = [b "one"; b "tw"; b "three"] /\
  w_out rotated_run ++ [b "tw"; b "three"] = delivered (gens rotated_run) /\ lines_read (w_stats (poll_world rotated_run)) = 3.
Proof.
  split; [vm_compute; reflexivity|].
  destruct (tail_delivers log_path (lines_of "one" ++ b "tw") rotated_run eq_refl eq_refl rotated_run_reachable
    (w_cursors (poll_world rotated_run)) (w_stats (poll_world rotated_run)) [b "tw"; b "three"]) as [H1 H2].
  { unfold poll_world. destruct (poll_one (fun _ => quiet (gens rotated_run)) log_path false (w_cursors rotated_run) (w_stats rotated_run))
      as [[cs st] lines] eqn:E. cbn [w_cursors w_stats]. f_equal.
    change lines with (snd (cs, st, lines)). rewrite <- E. vm_compute. reflexivity. }
  split; [exact H1|]. rewrite H2. vm_compute. reflexivity.
Defined.

(** ** What it does not keep *)

(** The checkpoint's offset is behind the fragment held back, and the fragment is
    not in it: after a restart in the middle of a line, its beginning is gone. *)
Theorem restart_loses_the_fragment :
  let w := restart_world (poll_world (fresh_world (lines_of "one" ++ b "tw"))) in
  let w' := poll_world (mkWorld [lines_of "one" ++ b "tw" ++ lines_of "o"] (w_cursors w) (w_stats w) (w_out w)) in
  w_out w' = [b "one"; b "o"] /\ delivered (gens w') = [b "one"; b "two"].
Proof. split; vm_compute; reflexivity. Qed.

(** Each read is made text on its own: a character of which one poll sees the
    first byte and the next poll the second comes out as two replacement characters. *)
Theorem split_character_is_replaced :
  let e_acute := List.map to_byte [195; 169] in
  let w := poll_world (fresh_world (firstn 1 e_acute)) in
  let w' := poll_world (mkWorld [e_acute ++ b nl] (w_cursors w) (w_stats w) (w_out w)) in
  w_out w' = [REPLACEMENT ++ REPLACEMENT] /\ delivered (gens w') = [e_acute].
Proof. split; vm_compute; reflexivity. Qed.

(** When draining a rotated file fails, the cursor still moves to the new one. *)
Theorem failed_drain_loses_the_rest :
  let w := poll_world (fresh_world (lines_of "one")) in
  let failing := mkSys (s_metadata (quiet [lines_of "one" ++ lines_of "two"; lines_of "three"])) (s_open (quiet [lines_of "one" ++ lines_of "two"; lines_of "three"]))
                       (s_len (quiet [lines_of "one" ++ lines_of "two"; lines_of "three"])) (fun _ _ => true) (fun _ _ _ => None) in
  let os i := if (i =? 2)%nat then failing else quiet [lines_of "one" ++ lines_of "two"; lines_of "three"] in
  let r := poll_one os log_path false (w_cursors w) (w_stats w) in
  snd r = [b "three"] /\ read_errors (snd (fst r)) = 1 /\ c_offset <$> fst (fst r) !! log_path = Some 6.
Proof. split_and!; vm_compute; reflexivity. Qed.
