(* ===== verification/Admin.v ===== *)
(** The admin API's policy endpoints ([crates/logless-core/src/admin_api.rs]):
    reading the policy and its history, previewing a change, and the one write
    path behind PUT and restore; and in front of them the checks of a request:
    host, credential, method and path.

    A handler reads and writes the service's state and the data directory; a
    response ends it, and so does the death of the process.  The writers queue
    behind one gate, so a write is a step of its own.  How a body parses is
    [serde]'s and an argument, with the clock, the catalog and the endpoints of
    other parts. *)

From stdpp Require Import sorting.
From S2P Require Import Prelude Text Float Model Lists Partition Tenancy PartsEdge Retention Budget Json Proto Utf8 Policy PolicyStore PolicyImpact.
Open Scope string_scope.
Open Scope Z_scope.
Open Scope list_scope.

Definition DEFAULT_HISTORY_LIMIT : Z := 50.
Definition MAX_HISTORY_LIMIT : Z := 1000.

Definition Resp : Type := Z * Json.

Definition err (status : Z) (code message : string) : Resp :=
  (status, JObj [("error", JStr code); ("message", JStr message)]).

Definition problem_json (p : Problem) : Json := JObj [("message", JStr (pr_message p)); ("path", JStr (pr_path p))].
Definition problems_json (ps : list Problem) : Json := JArr (List.map problem_json ps).
Definition problems_resp (ps : list Problem) : Resp :=
  (422, JObj [("error", JStr "validation_failed"); ("problems", problems_json ps)]).
Definition busy : Resp := err 429 "busy" "another preview or policy write is scanning the store; retry in a moment".
Definition stale (current_version : Z) : Resp :=
  (409, JObj [("current_version", JInt current_version); ("error", JStr "version_conflict");
              ("message", JStr "the policy changed since you read it; re-read and retry")]).

(** ** What a request says *)

Definition between (lo hi c : Z) : bool := (lo <=? c) && (c <=? hi).
Definition is_control (c : Z) : bool := between 0 31 c || between 127 159 c.
Definition is_spoofing (c : Z) : bool :=
  (c =? 1564) || between 8203 8207 c || between 8232 8238 c || between 8288 8292 c || between 8294 8303 c || (c =? 65279).

Definition check_actor (actor : string) : option Problem :=
  let ok := negb (String.eqb (trim actor) "") && (str_len actor <=? 128)
            && negb (existsb (fun c => is_control c || is_spoofing c) (scalars (list_byte_of_string actor))) in
  if ok then None
  else Some (mkProblem "actor" "must be 1 to 128 characters with no control, line-separator or bidirectional-formatting characters; it is written to the audit log").

Definition is_quote (c : ascii) : bool := chr c =? 34.

Definition parse_if_match (raw : option string) : Resp + Z :=
  match raw with
  | None => inl (err 400 "if_match_required" "send the policy version you read as If-Match")
  | Some raw =>
      match parse_uint u64_max (trim_by is_quote (trim raw)) with
      | Some v => inr v
      | None => inl (err 400 "bad_if_match" "If-Match must be the integer policy version")
      end
  end.

Fixpoint limit_of (pairs : list string) : Resp + Z :=
  match pairs with
  | [] => inr DEFAULT_HISTORY_LIMIT
  | kv :: rest =>
      match strip_prefix "limit=" kv with
      | Some v =>
          match parse_uint u64_max v with
          | Some n => if between 1 MAX_HISTORY_LIMIT n then inr n
                      else inl (err 400 "bad_limit" (cat ["limit must be 1 to "; show_Z MAX_HISTORY_LIMIT]))
          | None => inl (err 400 "bad_limit" (cat ["limit must be 1 to "; show_Z MAX_HISTORY_LIMIT]))
          end
      | None => limit_of rest
      end
  end.
Definition query_limit (query : string) : Resp + Z := limit_of (split_on (one_of "&") query).

(** [Ipv4Addr::from_str]: four numbers of at most three digits, no leading zero, at most 255. *)
Definition octet (s : string) : option Z :=
  if (str_len s <=? 3) && negb (starts_with "0" s && (1 <? str_len s)) && negb (starts_with "+" s) then parse_uint 255 s else None.
Definition loopback_v4 (host : string) : bool :=
  match List.map octet (split_on (one_of ".") host) with
  | [Some a; Some _; Some _; Some _] => a =? 127
  | _ => false
  end.

Definition alnum (c : ascii) : bool := is_digit c || between 97 122 (chr c) || between 65 90 (chr c).
Definition port_ok (p : string) : bool := String.eqb p "" || ((str_len p <=? 5) && str_all is_digit p).

(** The host of a [Host] header that is exactly [host[:port]] or [[v6][:port]]. *)
Definition host_of (value : string) : option string :=
  match strip_prefix "[" value with
  | Some rest =>
      '(inner, tail) ← split_once "]" rest;
      let tail_ok := String.eqb tail "" || match strip_prefix ":" tail with Some p => port_ok p | None => false end in
      if negb tail_ok || negb (str_all (fun c => is_hexdigit c || one_of ":." c) inner) then None else Some inner
  | None =>
      let '(h, p) := match split_once ":" value with Some hp => hp | None => (value, "") end in
      if negb (port_ok p) || negb (str_all (fun c => alnum c || one_of ".-" c) h) then None else Some h
  end.

Definition host_allowed (host_header : option string) (allowed : list string) : bool :=
  match host_header with
  | None => false
  | Some value =>
      match host_of (str_lower (trim value)) with
      | None => false
      | Some host => String.eqb host "localhost" || String.eqb host "::1" || loopback_v4 host || in_words host allowed
      end
  end.

(** ** The service *)

Record State := mkState {
  version : Z;
  updated_at_ms : Z;
  updated_by : string;
  overrides : list string;
  effective : Policies
}.

Record Service := mkService { sv_disk : Disk; sv_state : State; sv_handle : PolicyHandle }.
Definition set_disk (v : Disk) (s : Service) : Service := mkService v (sv_state s) (sv_handle s).
Definition set_state (v : State) (s : Service) : Service := mkService (sv_disk s) v (sv_handle s).
Definition set_handle (v : PolicyHandle) (s : Service) : Service := mkService (sv_disk s) (sv_state s) v.

(** What a start gives the service. *)
Definition state_of (effective : Policies) (meta : option PolicyFile) : State :=
  match meta with
  | Some f => mkState (pf_version f) (pf_updated_at_ms f) (pf_updated_by f) (pf_overrides f) effective
  | None => mkState 0 0 "file" [] effective
  end.

(** A response returned early, or the end of the process. *)
Inductive Exit := Early (r : Resp) | Killed.
Definition SM (A : Type) : Type := SE (Service * list Outcome) Exit A.

Definition look {A} (f : Service -> A) : SM A := gets (fun s => f (fst s)).
Definition change (f : Service -> Service) : SM unit := modify (fun s => (f (fst s), snd s)).
Definition early {A} (r : Resp) : SM A := fail (Early r).

(** An operation of the store, its error handed over. *)
Definition on_disk {A} (m : PolicyStore.M A) : SM (StoreError + A) := fun s =>
  match m (sv_disk (fst s), snd s) with
  | (inr a, (d, os)) => (inr (inr a), (set_disk d (fst s), os))
  | (inl (Failed e), (d, os)) => (inr (inl e), (set_disk d (fst s), os))
  | (inl Died, (d, os)) => (inl Killed, (set_disk d (fst s), os))
  end.

Record WriteBody := mkWrite { wb_policies : Policies; wb_confirm : bool; wb_token : option string; wb_actor : string }.
Record RestoreBody := mkRestore { rb_version : Z; rb_confirm : bool; rb_token : option string; rb_actor : string }.

(** A body that is not JSON, or JSON of another shape. *)
Inductive BodyError := NotJson (why : string) | NotShape (why : string).
Definition body_error (e : BodyError) : Resp :=
  match e with
  | NotShape why => problems_resp [mkProblem "body" why]
  | NotJson why => err 400 "bad_request" (cat ["body is not valid JSON: "; why])
  end.

Definition apply_json (a : Apply) : Json := JStr (match a with Hot => "hot" | Restart => "restart" end).
Definition diff_json (d : DiffEntry) : Json :=
  JObj [("apply", apply_json (de_apply d)); ("from", de_from d); ("path", JStr (de_path d)); ("to", de_to d)].

Definition policies_json (running : Policies) (st : State) : Json :=
  JObj [("apply", JObj (List.map (fun kv => (fst kv, apply_json (snd kv))) (apply_modes (effective st))));
        ("effective", to_value (effective st));
        ("pending_restart", JArr (List.map JStr (pending_restart (effective st) running)));
        ("running", JObj (running_values (effective st) running));
        ("sources", JObj (List.map (fun kv => (fst kv, JStr (snd kv))) (sources (effective st) (overrides st))));
        ("updated_at_ms", JInt (updated_at_ms st));
        ("updated_by", JStr (updated_by st));
        ("version", JInt (version st))].

Definition bucket_json (b : BucketImpact) : Json :=
  JObj [("bytes", JInt (bi_bytes b)); ("files", JInt (bi_files b)); ("name", JStr (bi_name b))].
Definition impact_json (i : Impact) : Json :=
  let r := im_retention i in
  let d := im_disk i in
  JObj [("disk", JObj [("budget_bytes", JInt (di_budget_bytes d)); ("fraction_after", num (fraction_after d));
                       ("used_bytes", JInt (used_bytes d)); ("would_reclaim", JInt (would_reclaim d))]);
        ("retention", JObj [("per_bucket", JArr (List.map bucket_json (per_bucket r)));
                            ("would_expire_bytes", JInt (would_expire_bytes r)); ("would_expire_files", JInt (would_expire_files r))])].

Definition preview_json (diff : list DiffEntry) (p : Preview) : Json :=
  JObj [("destructive", JBool (destructive p)); ("diff", JArr (List.map diff_json diff)); ("impact", impact_json (impact p));
        ("impact_token", JStr (impact_token p)); ("lossy_settings", problems_json (lossy p)); ("problems", JArr []); ("valid", JBool true)].
Definition refused_json (diff : list DiffEntry) (problems : Json) : Json :=
  JObj [("destructive", JBool false); ("diff", JArr (List.map diff_json diff)); ("impact", JNull); ("impact_token", JNull);
        ("lossy_settings", JArr []); ("problems", problems); ("valid", JBool false)].
Definition unconfirmed_resp (code message : string) (diff : list DiffEntry) (p : Preview) : Resp :=
  (428, JObj [("destructive", JBool true); ("diff", JArr (List.map diff_json diff)); ("error", JStr code); ("impact", impact_json (impact p));
              ("impact_token", JStr (impact_token p)); ("lossy_settings", problems_json (lossy p)); ("message", JStr message);
              ("problems", JArr []); ("valid", JBool true)]).

Definition impact_summary_json (p : Preview) (confirm : bool) : Json :=
  let i := impact p in
  JObj [("confirmed_destructive", JBool (destructive p && confirm)); ("destructive", JBool (destructive p));
        ("fraction_after", num (fraction_after (im_disk i)));
        ("lossy_settings", JArr (List.map (fun l => JStr (pr_path l)) (lossy p)));
        ("would_expire_bytes", JInt (would_expire_bytes (im_retention i)));
        ("would_expire_files", JInt (would_expire_files (im_retention i)));
        ("would_reclaim", JInt (would_reclaim (im_disk i)))].

Definition history_json (e : AuditEntry) : Json :=
  JObj [("actor", JStr (actor e)); ("diff", JArr (List.map diff_json (ae_diff e))); ("impact_summary", impact_summary e);
        ("ts_ms", JInt (ts_ms e)); ("version", JInt (ae_version e))].

Section Service.
Context (file_text : PolicyFile -> bytes) (file_of : bytes -> string + PolicyFile).
Context (entry_text : AuditEntry -> bytes) (entry_of : bytes -> option AuditEntry).
Context (read_write : bytes -> BodyError + WriteBody) (read_restore : bytes -> BodyError + RestoreBody)
  (read_preview : bytes -> BodyError + Policies).
Context (show_store : StoreError -> string).
Context (db : DbCall -> option string) (sha256 : bytes -> bytes).
Context (file_defaults : Policies).

(** What the handlers look at outside the service: the store, the catalog if
    it opens, the clock in seconds when the store is read for stranded buckets
    and when it is read for the impact, and in milliseconds. *)
Context (loc : Locations) (catalog : string + Budget.Catalog) (clock later now_ms : Z).

(** [NoTenant] is a panic of the code: a configuration has a tenant. *)
Definition plan_message (e : PlanError) : string :=
  match e with
  | CatalogFailed m => m
  | BadPolicy m => cat ["policy cannot be converted to buckets: "; m]
  | NoTenant => ""
  end.

Definition evaluate (current proposed : Policies) : Resp + Preview :=
  let problems := match validate proposed with [] => orphan_problems loc current proposed clock | ps => ps end in
  match problems with
  | _ :: _ => inl (problems_resp problems)
  | [] =>
      match catalog with
      | inl message => inl (err 500 "catalog_unavailable" message)
      | inr rows =>
          match preview db sha256 loc rows current proposed later with
          | inl e => inl (err 500 "preview_failed" (plan_message e))
          | inr p => inr p
          end
      end
  end.

Definition respond_policies : SM Resp :=
  look (fun s => (200, policies_json (h_running (sv_handle s)) (sv_state s))).

(** The answer of an unconfirmed destructive change, if it is one. *)
Definition unconfirmed (p : Preview) (confirm : bool) (token : option string) (diff : list DiffEntry) : option Resp :=
  if negb (destructive p) then None
  else if negb confirm
  then Some (unconfirmed_resp "destructive_unconfirmed"
    "applying this policy deletes data the current policy would keep, or loses data; resend with confirm_destructive: true and the impact_token of the preview you reviewed" diff p)
  else if negb (bool_decide (token = Some (impact_token p)))
  then Some (unconfirmed_resp "impact_changed"
    "what this change would delete differs from the preview you confirmed (or no impact_token was sent); review the impact below and confirm again with its impact_token" diff p)
  else None.

Definition new_file (version : Z) (actor : string) (proposed : Policies) : PolicyFile :=
  mkPolicyFile POLICY_SCHEMA_VERSION version now_ms actor (overrides_between file_defaults proposed) proposed.

Definition new_entry (version : Z) (actor : string) (diff : list DiffEntry) (p : Preview) (confirm : bool) (proposed : Policies) : AuditEntry :=
  mkAudit now_ms actor version diff (impact_summary_json p confirm) proposed.

(** Publishing to the running process; an error is only logged. *)
Definition publish (p : Policies) : SM unit :=
  change (fun s => match handle_apply p (sv_handle s) with inr h => set_handle h s | inl _ => s end).

(** Persist, audit, publish. *)
Definition commit (version : Z) (actor : string) (diff : list DiffEntry) (p : Preview) (confirm : bool) (proposed : Policies) : SM Resp :=
  let file := new_file version actor proposed in
  written ← on_disk (write_policy_file file_text file);
  match written with
  | inl e => early (err 500 "persist_failed" (cat ["nothing was applied: "; show_store e]))
  | inr _ =>
      on_disk (append_audit entry_text entry_of (new_entry version actor diff p confirm proposed));;
      publish proposed;;
      change (set_state (mkState version now_ms actor (pf_overrides file) proposed));;
      respond_policies
  end.

Definition apply (expected : Z) (proposed : Policies) (confirm : bool) (token : option string) (actor : string) : SM Resp :=
  match check_actor actor with
  | Some p => early (problems_resp [p])
  | None =>
      st ← look sv_state;
      if negb (version st =? expected) then early (stale (version st))
      else
        match evaluate (effective st) proposed with
        | inl r => early r
        | inr p =>
            let d := diff (effective st) proposed in
            match d with
            | [] => respond_policies
            | _ =>
                match unconfirmed p confirm token d with
                | Some r => early r
                | None =>
                    if version st =? u64_max
                    then early (err 500 "version_exhausted" "the policy version counter is at its maximum; nothing was applied")
                    else commit (version st + 1) actor d p confirm proposed
                end
            end
        end
  end.

Definition put (if_match : option string) (body : bytes) : SM Resp :=
  match parse_if_match if_match with
  | inl r => early r
  | inr expected =>
      match read_write body with
      | inl e => early (body_error e)
      | inr b => apply expected (wb_policies b) (wb_confirm b) (wb_token b) (wb_actor b)
      end
  end.

Definition restore (if_match : option string) (body : bytes) : SM Resp :=
  match parse_if_match if_match with
  | inl r => early r
  | inr expected =>
      match read_restore body with
      | inl e => early (body_error e)
      | inr b =>
          entries ← on_disk (read_audit entry_of);
          match entries with
          | inl e => early (err 500 "audit_unreadable" (show_store e))
          | inr entries =>
              match List.find (fun e => ae_version e =? rb_version b) (rev entries) with
              | None =>
                  early (err 404 "unknown_version"
                    (cat ["no recorded policy version "; show_Z (rb_version b); "; GET /admin/v1/policies/history lists them"]))
              | Some entry => apply expected (policies entry) (rb_confirm b) (rb_token b) (rb_actor b)
              end
          end
      end
  end.

Definition get_policies : SM Resp := respond_policies.

Definition history (limit : Z) : SM Resp :=
  entries ← on_disk (read_audit entry_of);
  mret (match entries with
        | inl e => err 500 "audit_unreadable" (show_store e)
        | inr entries => (200, JArr (List.map history_json (firstn (Z.to_nat limit) (rev entries))))
        end).

(** [scanning]: another preview or a writer holds the gate. *)
Definition preview_change (scanning : bool) (body : bytes) : SM Resp :=
  match read_preview body with
  | inl e => early (body_error e)
  | inr proposed =>
      if scanning then early busy
      else
        st ← look sv_state;
        let d := diff (effective st) proposed in
        match evaluate (effective st) proposed with
        | inr p => mret (200, preview_json d p)
        | inl (status, v) =>
            if status =? 422 then mret (200, refused_json d (default JNull (get "problems" v)))
            else early (status, v)
        end
  end.

(** A start, and the service it makes. *)
Definition startup (os : list Outcome) (d : Disk) : (Stop + Service) * (Disk * list Outcome) :=
  match load_effective file_of entry_text entry_of file_defaults (d, os) with
  | (inl e, s) => (inl e, s)
  | (inr (eff, meta), s) =>
      match handle_new eff with
      | inr h => (inr (mkService (fst s) (state_of eff meta) h), s)
      | inl e => (inl (Failed (Invalid (show_error e))), s)
      end
  end.
End Service.

(** ** The listener *)

Inductive Method := Get | Put | Post | OtherMethod.
#[export] Instance Method_eq_dec : EqDecision Method.
Proof. solve_decision. Defined.

Inductive Endpoint :=
  | Info | TypedColumns | GetPolicies | PutPolicies | PreviewPolicies | RestorePolicies | MergeSuggestions | PartsList | PartsAudit
  | PartsSweep | PartsReplicateStatus | PartsReplicateStart | SyncGet | SyncPut | SyncTest | SyncBackfill | SyncBackfillCancel
  | SyncParts | SyncPartsCancel | History.

Definition admin_paths : list string :=
  ["/admin/v1/info"; "/admin/v1/typed-columns"; "/admin/v1/policies"; "/admin/v1/policies/preview"; "/admin/v1/policies/restore";
   "/admin/v1/policies/history"; "/admin/v1/sync"; "/admin/v1/parts"; "/admin/v1/parts/audit"; "/admin/v1/parts/sweep";
   "/admin/v1/parts/replicate"; "/admin/v1/templates/merge-suggestions"; "/admin/v1/sync/test"; "/admin/v1/sync/backfill";
   "/admin/v1/sync/backfill/cancel"; "/admin/v1/sync/parts"; "/admin/v1/sync/parts/cancel"].

Definition endpoint (m : Method) (p : string) : option Endpoint :=
  let at_ s := String.eqb p s in
  match m with
  | Get =>
      if at_ "/admin/v1/info" then Some Info
      else if at_ "/admin/v1/typed-columns" then Some TypedColumns
      else if at_ "/admin/v1/policies" then Some GetPolicies
      else if at_ "/admin/v1/templates/merge-suggestions" then Some MergeSuggestions
      else if at_ "/admin/v1/parts" then Some PartsList
      else if at_ "/admin/v1/parts/audit" then Some PartsAudit
      else if at_ "/admin/v1/parts/replicate" then Some PartsReplicateStatus
      else if at_ "/admin/v1/sync" then Some SyncGet
      else if at_ "/admin/v1/policies/history" then Some History
      else None
  | Put =>
      if at_ "/admin/v1/policies" then Some PutPolicies
      else if at_ "/admin/v1/sync" then Some SyncPut
      else None
  | Post =>
      if at_ "/admin/v1/policies/preview" then Some PreviewPolicies
      else if at_ "/admin/v1/policies/restore" then Some RestorePolicies
      else if at_ "/admin/v1/parts/sweep" then Some PartsSweep
      else if at_ "/admin/v1/parts/replicate" then Some PartsReplicateStart
      else if at_ "/admin/v1/sync/test" then Some SyncTest
      else if at_ "/admin/v1/sync/backfill" then Some SyncBackfill
      else if at_ "/admin/v1/sync/backfill/cancel" then Some SyncBackfillCancel
      else if at_ "/admin/v1/sync/parts" then Some SyncParts
      else if at_ "/admin/v1/sync/parts/cancel" then Some SyncPartsCancel
      else None
  | OtherMethod => None
  end.

Definition route (m : Method) (p : string) : Resp + Endpoint :=
  match endpoint m p with
  | Some e => inr e
  | None => inl (if in_words p admin_paths then err 405 "method_not_allowed" "wrong method for this path"
                 else err 404 "not_found" "no such admin endpoint")
  end.

(** A head: the values of each header the listener looks at. *)
Record Head := mkHead { hosts : list string; authorizations : list string; method : Method; hd_path : string }.

(** The credential of exactly one [Authorization] header. *)
Definition presented (h : Head) : option string :=
  match authorizations h with
  | [v] => trim <$> match strip_prefix "Bearer " (trim v) with Some t => Some t | None => strip_prefix "bearer " (trim v) end
  | _ => None
  end.

(** What comes before a handler: host, then credential, then method and path.
    [authorized] is the verifier's answer for the credential presented. *)
Definition front (allowed_hosts : list string) (authorized : option string -> bool) (h : Head) : Resp + Endpoint :=
  if negb (List.length (hosts h) =? 1)%nat || negb (host_allowed (head (hosts h)) allowed_hosts)
  then inl (err 403 "forbidden_host" "Host header is not loopback and not in [admin].allowed_hosts")
  else if negb (authorized (presented h)) then inl (err 401 "unauthorized" "a valid bearer token is required")
  else route (method h) (hd_path h).
