(* ===== verification/AdminFacts.v ===== *)
(** What the policy endpoints promise: a lost update is refused, an
    acknowledged change survives a crash and is what the process enforces, a
    refused one changes nothing, and only the hosts named reach a handler. *)

From S2P Require Import Prelude Text Float Model Lists Partition Tenancy PartsEdge Retention Budget Json Proto Hoare Policy PolicyFacts PolicyStore PolicyStoreFacts PolicyImpact PolicyImpactFacts Admin.
Open Scope string_scope.
Open Scope Z_scope.
Open Scope list_scope.

Section Facts.
Context (file_text : PolicyFile -> bytes) (file_of : bytes -> string + PolicyFile).
Context (entry_text : AuditEntry -> bytes) (entry_of : bytes -> option AuditEntry).
Context (show_store : StoreError -> string).
Context (db : DbCall -> option string) (sha256 : bytes -> bytes).
Context (file_defaults : Policies).
Context (loc : Locations) (catalog : string + Budget.Catalog) (clock later now_ms : Z).

Abbreviation run_apply := (apply file_text entry_text entry_of show_store db sha256 file_defaults loc catalog clock later now_ms).
Abbreviation fresh := (new_file file_defaults now_ms).
Abbreviation history b := (parse_audit entry_of (raw_lines b)).

(** ** What a start on a disk comes up with *)



(** The state of a committed change. *)
Definition committed (v : Z) (actor : string) (p : Policies) : State :=
  mkState v now_ms actor (overrides_between file_defaults p) p.


(** ** A write *)



Abbreviation reads := (fun b => exists es, history b = Some es).


Hypothesis text_utf8 : forall e, utf8 (entry_text e) = true.
Hypothesis text_line : forall e, forallb (fun b => negb (is_newline b)) (entry_text e) = true.


Section Commit.
Context (before : bytes) (old : option bytes) (st : State) (h h' : PolicyHandle).
Context (v : Z) (actor : string) (d : list DiffEntry) (pv : Preview) (confirm : bool) (p : Policies).
Abbreviation entry := (new_entry now_ms v actor d pv confirm p).
Hypothesis before_reads : reads before.
Hypothesis enforceable : handle_apply p h = inr h'.

End Commit.
(** ** The write path *)

(** A write the checks let through. *)
Record Passed (s : Service) (expected : Z) (proposed : Policies) (confirm : bool) (token : option string) (actor : string) (pv : Preview) : Prop := {
  ps_actor : check_actor actor = None;
  ps_version : version (sv_state s) = expected;
  ps_evaluated : evaluate db sha256 loc catalog clock later (effective (sv_state s)) proposed = inr pv;
  ps_confirmed : destructive pv = true -> confirm = true /\ token = Some (impact_token pv);
  ps_room : version (sv_state s) <> u64_max
}.

Lemma unconfirmed_none pv confirm token d : unconfirmed pv confirm token d = None ->
  destructive pv = true -> confirm = true /\ token = Some (impact_token pv).
Proof.
  unfold unconfirmed. intros H Hd. rewrite Hd in H. cbn [negb] in H. destruct confirm; [|done]. cbn [negb] in H.
  case_bool_decide; [done|]. done.
Qed.

(** A write is refused or has nothing to do, and touches nothing; or it passed the checks and is committed. *)
Lemma apply_cases s os expected proposed confirm token actor :
  (exists r, run_apply expected proposed confirm token actor (s, os) = (r, (s, os)) /\ r <> inl Killed) \/
  exists pv, Passed s expected proposed confirm token actor pv /\
    run_apply expected proposed confirm token actor (s, os)
    = commit file_text entry_text entry_of show_store file_defaults now_ms (version (sv_state s) + 1) actor
        (diff (effective (sv_state s)) proposed) pv confirm proposed (s, os).
Proof.
  unfold apply. destruct (check_actor actor) eqn:Ea; [left; by eexists|]. unfold look, gets, mbind, SE_bind, early, fail. cbn [fst].
  destruct (version (sv_state s) =? expected) eqn:Ev; cbn [negb]; [|left; by eexists].
  destruct (evaluate _ _ _ _ _ _ _) as [r|pv] eqn:Ep; [left; by eexists|].
  destruct (diff _ _) as [|e l] eqn:Ed; [left; by eexists|].
  destruct (unconfirmed _ _ _ _) eqn:Eu; [left; by eexists|].
  destruct (version (sv_state s) =? u64_max) eqn:Em; [left; by eexists|]. right. exists pv. split; [|done].
  zbool. split; try done. by apply (unconfirmed_none pv confirm token (e :: l)).
Qed.


(** *** After a crash *)

Hypothesis defaults_valid : Sound file_defaults /\ validate file_defaults = [].



Lemma on_disk_state {A} (m : M A) s os r s' os' : on_disk m (s, os) = (r, (s', os')) -> sv_state s' = sv_state s.
Proof. unfold on_disk. cbn [fst snd]. destruct (m _) as [[[e|]|a] [d os2]]; by intros [= <- <- <-]. Qed.

Lemma commit_state v actor d pv confirm p s os r s' os' :
  commit file_text entry_text entry_of show_store file_defaults now_ms v actor d pv confirm p (s, os) = (r, (s', os')) ->
  sv_state s' = sv_state s \/ sv_state s' = committed v actor p.
Proof.
  unfold commit, mbind, SE_bind. cbv zeta. destruct (on_disk (write_policy_file _ _) (s, os)) as [[e|[e|u]] [s1 os1]] eqn:E1;
    apply on_disk_state in E1; [by intros [= <- <- <-]; left..|].
  destruct (on_disk (append_audit _ _ _) (s1, os1)) as [[e|r2] [s2 os2]] eqn:E2; apply on_disk_state in E2.
  { intros [= <- <- <-]. left. congruence. }
  unfold publish, change, respond_policies, look, modify, gets. cbn [fst snd]. intros [= <- <- <-]. by right.
Qed.

(** C31: a change of the policy is one the checks let through, and no update is lost. A write
    moves the service's state only when its If-Match is the version in force, its actor may be
    named, the document validates, strands no bucket and is not destructive, or is confirmed
    with the token of its impact now; the state moves to the next version with that document.
    So of two writes that read the same version at most one moves it. *)
Theorem writes_are_checked s os expected proposed confirm token actor r s' os' :
  run_apply expected proposed confirm token actor (s, os) = (r, (s', os')) -> sv_state s' <> sv_state s ->
  exists pv, Passed s expected proposed confirm token actor pv /\ validate proposed = [] /\
    orphan_problems loc (effective (sv_state s)) proposed clock = [] /\
    sv_state s' = committed (expected + 1) actor proposed /\
    (forall proposed2 confirm2 token2 actor2 os2,
      sv_state (fst (snd (run_apply expected proposed2 confirm2 token2 actor2 (s', os2)))) = sv_state s').
Proof.
  intros H Hne. destruct (apply_cases s os expected proposed confirm token actor) as [(r0 & E & _)|(pv & Hpass & E)]; rewrite E in H.
  { injection H as _ <- _. done. }
  apply commit_state in H as [H|H]; [done|]. pose proof Hpass as []. rewrite ps_version0 in H. exists pv.
  assert (validate proposed = [] /\ orphan_problems loc (effective (sv_state s)) proposed clock = []) as [Hv Ho].
  { unfold evaluate in ps_evaluated0. destruct (validate proposed); [|done]. by destruct (orphan_problems _ _ _ _). }
  do 4 (split; [done|]). intros proposed2 confirm2 token2 actor2 os2.
  destruct (apply_cases s' os2 expected proposed2 confirm2 token2 actor2) as [(r2 & E2 & _)|(pv2 & [] & _)]; [by rewrite E2|].
  exfalso. rewrite H in ps_version1. cbn in ps_version1. lia.
Qed.
End Facts.

(** ** At a concrete service *)

Definition toy_file_text (f : PolicyFile) : bytes := list_byte_of_string (show_Z (pf_version f)).
Definition toy_file_of (b : bytes) : string + PolicyFile :=
  match parse_uint u64_max (string_of_list_byte b) with
  | Some v => inr (mkPolicyFile 1 v 5000 "ops" (overrides_between test_policies tuned) tuned)
  | None => inl "not a number"
  end.
Definition toy_entry (v : Z) : AuditEntry := mkAudit 5000 "ops" v [] JNull tuned.
Definition toy_entry_text (e : AuditEntry) : bytes := list_byte_of_string (cat ["{"; show_Z (ae_version e); "}"]).
Definition toy_entry_of (b : bytes) : option AuditEntry :=
  t ← strip_prefix "{" (string_of_list_byte b);
  n ← strip_suffix "}" t;
  toy_entry <$> parse_uint u64_max n.

Definition empty_disk : Disk := mkDisk None None None None.
Definition no_store : Locations := mkLocations ["store"] None 0 0 (single level_buckets_default).
Definition new_handle : PolicyHandle :=
  match handle_new test_policies with inr h => h | inl _ => mkHandle (mkRuntime [] 0 watermarks_default) false 0 0 test_policies end.
Definition new_service : Service := mkService empty_disk (state_of test_policies None) new_handle.

(** A process that dies between the rename and the audit line. *)
Definition one_write :=
  apply toy_file_text toy_entry_text toy_entry_of (fun _ => "") (fun _ => None) (fun b => b) test_policies no_store (inr []) 1000 1001 5000
    0 tuned true None "ops" (new_service, [Done; Done; Done; Done; Dies 0]).

(** The last line of the log was cut by a crash: the entry written back at the next start is
    appended to it, and neither can be read. *)
Theorem torn_line_swallows_the_recovered_entry :
  let d := mkDisk (Some (list_byte_of_string "1")) None (Some (list_byte_of_string "{1")) None in
  let '(r, (d', _)) := load_effective toy_file_of toy_entry_text toy_entry_of test_policies (d, []) in
  match r with inr (_, Some f) => pf_version f = 1 | _ => False end /\
  fst (read_audit toy_entry_of (d', [])) = inr [].
Proof. vm_compute. split; reflexivity. Qed.

(** A line cut inside a character is not skipped: the log no longer reads, and the start stops. *)
Theorem torn_character_stops_the_start :
  let d := mkDisk (Some (list_byte_of_string "1")) None (Some (list_byte_of_string "{" ++ [Byte.xc3])) None in
  fst (load_effective toy_file_of toy_entry_text toy_entry_of test_policies (d, [])) = inl (Failed (Io AuditName)).
Proof. vm_compute. reflexivity. Qed.

(** The write that takes the last version is answered as done, and the next start refuses the file. *)
Theorem last_version_stops_the_start :
  let s := mkService empty_disk (mkState (u64_max - 1) 0 "ops" [] test_policies) new_handle in
  let '(r, (s', _)) :=
    apply toy_file_text toy_entry_text toy_entry_of (fun _ => "") (fun _ => None) (fun b => b) test_policies no_store (inr []) 1000 1001 5000
      (u64_max - 1) tuned true None "ops" (s, []) in
  match r with inr (status, _) => status = 200 | _ => False end /\ version (sv_state s') = u64_max /\
  fst (startup toy_file_of toy_entry_text toy_entry_of test_policies [] (sv_disk s'))
  = inl (Failed (Corrupt "version is at its maximum, so no further version can be written")).
Proof. vm_compute. split; [reflexivity|split; reflexivity]. Qed.

Definition tuned_preview : Preview :=
  match evaluate (fun _ => None) (fun b => b) no_store (inr []) 1000 1001 test_policies tuned with
  | inr p => p
  | inl _ => mkPreview (mkImpact (mkRetentionImpact 0 0 []) (mkDiskImpact 0 0 f64_zero 0)) true [] ""
  end.

Lemma tuned_evaluates : evaluate (fun _ => None) (fun b => b) no_store (inr []) 1000 1001 test_policies tuned = inr tuned_preview.
Proof. vm_compute. reflexivity. Qed.



Lemma writes_are_checked_witness :
  let '(r, (s', _)) :=
    apply toy_file_text toy_entry_text toy_entry_of (fun _ => "") (fun _ => None) (fun b => b) test_policies no_store (inr []) 1000 1001 5000
      0 tuned true None "ops" (new_service, []) in
  exists pv, Passed (fun _ => None) (fun b => b) no_store (inr []) 1000 1001 new_service 0 tuned true None "ops" pv /\ version (sv_state s') = 1.
Proof.
  destruct (apply _ _ _ _ _ _ _ _ _ _ _ _ _ _ _ _ _) as [r [s' os']] eqn:E.
  assert (version (sv_state s') = 1) as Hv by (apply (f_equal (fun x => version (sv_state (fst (snd x))))) in E; vm_compute in E; exact (eq_sym E)).
  destruct (writes_are_checked toy_file_text toy_entry_text toy_entry_of (fun _ => "") (fun _ => None) (fun b => b) test_policies no_store (inr [])
    1000 1001 5000 new_service [] 0 tuned true None "ops" r s' os' E) as (pv & Hp & _).
  - intros Heq. rewrite Heq in Hv. discriminate Hv.
  - exists pv. split; [exact Hp|exact Hv].
Defined.
