(* ===== verification/Httpd.v ===== *)
(** The HTTP listener the receivers share ([crates/logless-core/src/httpd.rs] and
    [bounded_http.rs]): reading a request within its limits from a socket, the
    handler, and the reply.

    A socket is the list of what its reads return, in whatever pieces; a read past
    the end of the list is one that the request's deadline ends.  A handler keeps a
    state and may panic, which ends the process.  Threads, the connection cap and a
    body handed to [Handler::stream] are not modelled; gzip is an argument. *)

From S2P Require Import Prelude Text Lists Proto Utf8.
Open Scope string_scope.
Open Scope Z_scope.
Open Scope list_scope.

(** ** The shapes ([httpd.rs]) *)

Record Limits := mkLimits { max_body_bytes : Z; max_decompressed_bytes : Z }.

Inductive Method := Get | Post | Put | Head | Other.
#[export] Instance Method_eq_dec : EqDecision Method.
Proof. solve_decision. Defined.

Record Incoming := mkIncoming {
  method : Method; method_name : string; rq_path : string; query : string; headers : list (string * string); rq_body : bytes }.

(** [eq_ignore_ascii_case]. *)
Definition same_name (a b : string) : bool := String.eqb (str_lower a) (str_lower b).

Definition header_count (name : string) (r : Incoming) : nat := List.length (List.filter (fun h => same_name (fst h) name) (headers r)).
Definition header (name : string) (r : Incoming) : option string := snd <$> List.find (fun h => same_name (fst h) name) (headers r).
Definition content_type (r : Incoming) : string :=
  str_lower (trim (default "" (head (split_char ";" (default "" (header "content-type" r)))))).

Inductive Reject := TooLarge | Unreadable.

Record Reply := mkReply { status : Z; rp_type : string; rp_body : string; rp_headers : list (string * string) }.
Definition json_reply (status : Z) (body : string) : Reply := mkReply status "application/json" body [].
Definition with_header (name value : string) (r : Reply) : Reply :=
  mkReply (status r) (rp_type r) (rp_body r) (rp_headers r ++ [(name, value)]).

(** A handler over its state; [None] is a panic. *)
Class Handler (A : Type) := {
  preflight : Incoming -> A -> option (option Reply * A);
  handle : Incoming -> A -> option (Reply * A);
  reject : Reject -> A -> option (Reply * A) }.

(** ** The listener ([bounded_http.rs]) *)

Record HeadLimits := mkHeadLimits {
  max_head_bytes : Z; max_headers : Z; request_timeout : Z; max_connections : Z; gzip : bool; chunked : bool; min_stream_bytes_per_sec : Z }.
Definition DEFAULT_MIN_STREAM_BYTES_PER_SEC : Z := 64 * 1024.
Definition default_head : HeadLimits := mkHeadLimits (16 * 1024) 64 10 64 false false DEFAULT_MIN_STREAM_BYTES_PER_SEC.
Definition ingest_limits (workers : Z) : HeadLimits :=
  mkHeadLimits (16 * 1024) 64 30 (Z.max (workers * 32) 64) true true DEFAULT_MIN_STREAM_BYTES_PER_SEC.

Definition encoding_accepted (r : Incoming) : bool :=
  match header_count "content-encoding" r with
  | O => true
  | S O => match header "content-encoding" r with
           | Some v => existsb (String.eqb (str_lower (trim v))) [""; "identity"; "gzip"]
           | None => false
           end
  | _ => false
  end.

Inductive Bad := BadRequest (why : string) | HeadTooLarge | Unsupported (why : string) | Timeout | Closed.

(** What one read gives: bytes (none when it is interrupted), the end, or no more in time. *)
Inductive Event := Got (b : bytes) | Eof | Stalled.
Definition Socket : Type := list Event.

Definition fill (s : Socket) : Bad + bytes * Socket :=
  match s with
  | [] | Stalled :: _ => inl Timeout
  | Eof :: _ => inl Closed
  | Got b :: s => inr (b, s)
  end.

Definition CR_ : byte := Byte.x0d.
Definition LF_ : byte := Byte.x0a.

(** The position of a piece in the bytes. *)
Fixpoint is_prefix_of (w b : bytes) : bool :=
  match w, b with
  | [], _ => true
  | x :: w', y :: b' => Byte.eqb x y && is_prefix_of w' b'
  | _ :: _, [] => false
  end.
Fixpoint find_in (w b : bytes) : option nat :=
  if is_prefix_of w b then Some O
  else match b with [] => None | _ :: b' => option_map S (find_in w b') end.
Definition crlf : bytes := [CR_; LF_].
Definition find_head_end (b : bytes) : option nat := find_in (crlf ++ crlf) b.

Definition blen (b : bytes) : Z := Z.of_nat (List.length b).

(** Reads on until the end of the head is there. *)
Fixpoint read_head (max : Z) (buf : bytes) (s : Socket) : Bad + nat * bytes * Socket :=
  match find_head_end buf with
  | Some i => inr (i, buf, s)
  | None =>
      if max <? blen buf then inl HeadTooLarge
      else match s with
           | [] | Stalled :: _ => inl Timeout
           | Eof :: _ => inl Closed
           | Got b :: s' => read_head max (buf ++ b) s'
           end
  end.

(** Reads on until so many bytes are there. *)
Fixpoint fill_to (n : Z) (buf : bytes) (s : Socket) : Bad + bytes * Socket :=
  if blen buf <? n then
    match s with
    | [] | Stalled :: _ => inl Timeout
    | Eof :: _ => inl Closed
    | Got b :: s' => fill_to n (buf ++ b) s'
    end
  else inr (buf, s).

(** [split("\r\n")]. *)
Fixpoint split_crlf (t : string) : list string :=
  match t with
  | "" => [""]
  | String a r =>
      match r with
      | String b r' =>
          if (chr a =? 13) && (chr b =? 10) then "" :: split_crlf r'
          else match split_crlf r with l :: ls => String a l :: ls | [] => [String a ""] end
      | "" => [String a ""]
      end
  end.

Definition method_of (m : string) : Method :=
  if String.eqb m "GET" then Get else if String.eqb m "POST" then Post else if String.eqb m "PUT" then Put
  else if String.eqb m "HEAD" then Head else Other.

(** The request line: method, target, version. *)
Definition parse_line (l : string) : Bad + string * string * string :=
  match split_char " " l with
  | [m; target; version] =>
      if negb (String.eqb version "HTTP/1.1") && negb (String.eqb version "HTTP/1.0") then inl (BadRequest "unsupported HTTP version")
      else let '(p, q) := match split_once "?" target with Some pq => pq | None => (target, "") end in inr (m, p, q)
  | _ => inl (BadRequest "malformed request line")
  end.

Fixpoint parse_headers (max : Z) (lines : list string) (acc : list (string * string)) : Bad + list (string * string) :=
  match lines with
  | [] => inr acc
  | line :: rest =>
      if max <=? Z.of_nat (List.length acc) then inl HeadTooLarge
      else if match line with String c _ => (chr c =? 32) || (chr c =? 9) | "" => false end then inl (BadRequest "folded headers are not accepted")
      else match split_once ":" line with
           | None => inl (BadRequest "malformed header")
           | Some (name, value) =>
               if String.eqb name "" || str_any (fun c => (chr c <=? 32) || (chr c =? 127)) name then inl (BadRequest "malformed header name")
               else parse_headers max rest (acc ++ [(name, trim value)])
           end
  end.

Definition values_of (name : string) (hs : list (string * string)) : list string :=
  List.map snd (List.filter (fun h => same_name (fst h) name) hs).

(** Whether the body is chunked, and its declared length. *)
Definition framing (allow_chunked : bool) (hs : list (string * string)) : Bad + bool * Z :=
  let coding := match values_of "transfer-encoding" hs with
                | [] => inr false
                | [v] => if allow_chunked && same_name v "chunked" then inr true
                         else inl (Unsupported (if allow_chunked then "the only transfer coding accepted is a single chunked"
                                                else "send a Content-Length body; chunked requests are not accepted"))
                | _ => inl (Unsupported (if allow_chunked then "the only transfer coding accepted is a single chunked"
                                         else "send a Content-Length body; chunked requests are not accepted"))
                end in
  match coding with
  | inl b => inl b
  | inr is_chunked =>
      let lengths := values_of "content-length" hs in
      if is_chunked && negb (match lengths with [] => true | _ => false end) then inl (BadRequest "Content-Length and Transfer-Encoding together")
      else match lengths with
           | [] => inr (is_chunked, 0)
           | [v] => match parse_uint u64_max v with
                    | Some n => if str_all is_digit v then inr (is_chunked, n) else inl (BadRequest "bad Content-Length")
                    | None => inl (BadRequest "bad Content-Length")
                    end
           | _ => inl (BadRequest "duplicate Content-Length")
           end
  end.

(** Why there is no request: worded by the listener, or by the handler. *)
Inductive Refused := Worded (b : Bad) | Rejected (r : Reject) | Early (r : Reply).

(** The next line that ends in CRLF, and what is behind it. *)
Fixpoint take_line (max_line : Z) (buf : bytes) (s : Socket) : Bad + bytes * bytes * Socket :=
  match find_in crlf buf with
  | Some i => inr (firstn i buf, skipn (i + 2) buf, s)
  | None =>
      if max_line <? blen buf then inl (BadRequest "chunk line too long")
      else match s with
           | [] | Stalled :: _ => inl Timeout
           | Eof :: _ => inl Closed
           | Got b :: s' => take_line max_line (buf ++ b) s'
           end
  end.

Definition hex_digit (b : byte) : option Z :=
  let v := byte_val b in
  if (48 <=? v) && (v <=? 57) then Some (v - 48)
  else if (97 <=? v) && (v <=? 102) then Some (v - 87)
  else if (65 <=? v) && (v <=? 70) then Some (v - 55)
  else None.
Fixpoint hex_from (acc : Z) (b : bytes) : option Z :=
  match b with
  | [] => Some acc
  | x :: r => match hex_digit x with Some d => hex_from (16 * acc + d) r | None => None end
  end.
Fixpoint until (stop : byte) (b : bytes) : bytes :=
  match b with [] => [] | x :: r => if Byte.eqb x stop then [] else x :: until stop r end.

(** The size of a chunk, from its line. *)
Definition chunk_size (line : bytes) : option Z :=
  let digits := until Byte.x3b line in
  if (blen digits =? 0) || (15 <? blen digits) then None else hex_from 0 digits.

(** The lines behind the last chunk, dropped. *)
Fixpoint read_trailers (fuel : nat) (max_line : Z) (trailers : Z) (buf : bytes) (s : Socket) : option (Bad + unit) :=
  match fuel with
  | O => None
  | S fuel =>
      match take_line max_line buf s with
      | inl b => Some (inl b)
      | inr (line, buf, s) =>
          match line with
          | [] => Some (inr tt)
          | _ => let trailers := trailers + blen line + 2 in
                 if max_line <? trailers then Some (inl HeadTooLarge) else read_trailers fuel max_line trailers buf s
          end
      end
  end.

Fixpoint chunks_loop (fuel : nat) (max_body max_line : Z) (body buf : bytes) (s : Socket) : option (Refused + bytes) :=
  match fuel with
  | O => None
  | S fuel =>
      match take_line max_line buf s with
      | inl b => Some (inl (Worded b))
      | inr (line, buf, s) =>
          match chunk_size line with
          | None => Some (inl (Worded (BadRequest "malformed chunk size")))
          | Some size =>
              if size =? 0 then
                match read_trailers fuel max_line 0 buf s with
                | None => None
                | Some (inl b) => Some (inl (Worded b))
                | Some (inr _) => Some (inr body)
                end
              else if max_body <? Z.min u64_max (blen body + size) then Some (inl (Rejected TooLarge))
              else match fill_to (size + 2) buf s with
              | inl b => Some (inl (Worded b))
              | inr (buf, s) =>
                  let n := Z.to_nat size in
                  if negb (bool_decide (firstn 2 (skipn n buf) = crlf)) then Some (inl (Worded (BadRequest "chunk data does not end with CRLF")))
                  else chunks_loop fuel max_body max_line (body ++ firstn n buf) (skipn (n + 2) buf) s
              end
          end
      end
  end.

(** The bytes a socket will still give. *)
Fixpoint promised (s : Socket) : bytes :=
  match s with [] => [] | Got b :: s' => b ++ promised s' | _ :: _ => [] end.

(** Every line takes at least the two bytes it ends in. *)
Definition read_chunked (max_body max_line : Z) (buf : bytes) (s : Socket) : option (Refused + bytes) :=
  chunks_loop (S (List.length buf + List.length (promised s))) max_body max_line [] buf s.

Definition concat_str (l : list string) : string := fold_right String.append "" l.

(** JSON written with backquotes for its quotes. *)
Definition DQUOTE : ascii := ascii_of_N 34.
Definition quoted (s : string) : string := str_map (fun c => if Ascii.eqb c "`" then DQUOTE else c) s.

Section Serve.
Context {A : Type} `{Handler A}.
(** At most so many bytes of what a gzip stream decodes to; [None] when it is not one. *)
Context (gunzip : bytes -> nat -> option bytes).

Definition inflate (gz : bytes) (limit : Z) : Refused + bytes :=
  match gunzip gz (Z.to_nat (limit + 1)) with
  | None => inl (Rejected Unreadable)
  | Some out => if limit <? blen out then inl (Rejected TooLarge) else inr out
  end.

(** The head as a request without a body, with how its body is framed. *)
Definition parse_head (head_ : HeadLimits) (bs : bytes) : Bad + Incoming * bool * Z :=
  if negb (utf8 bs) then inl (BadRequest "request head is not UTF-8")
  else match split_crlf (string_of_list_byte bs) with
  | [] => inl (BadRequest "malformed request line")
  | request_line :: lines =>
      match parse_line request_line with
      | inl b => inl b
      | inr (m, p, q) =>
          match parse_headers (max_headers head_) lines [] with
          | inl b => inl b
          | inr hs =>
              match framing (chunked head_) hs with
              | inl b => inl b
              | inr (is_chunked, declared) => inr (mkIncoming (method_of m) m p q hs [], is_chunked, declared)
              end
          end
      end
  end.

Definition with_body (b : bytes) (r : Incoming) : Incoming := mkIncoming (method r) (method_name r) (rq_path r) (query r) (headers r) b.

(** The body of a request whose head was let through. *)
Definition read_body (limits : Limits) (head_ : HeadLimits) (r : Incoming) (is_chunked : bool) (declared : Z) (buf : bytes) (s : Socket)
  : option (Refused + bytes) :=
  if max_body_bytes limits <? declared then Some (inl (Rejected TooLarge))
  else
    let whole := if is_chunked then read_chunked (max_body_bytes limits) (max_head_bytes head_) buf s
                 else Some (match fill_to declared buf s with
                            | inl b => inl (Worded b)
                            | inr (body, _) => inr (firstn (Z.to_nat declared) body)
                            end) in
    match whole with
    | Some (inr body) =>
        if gzip head_ && existsb (fun h => same_name (fst h) "content-encoding" && same_name (snd h) "gzip") (headers r)
        then Some (inflate body (max_decompressed_bytes limits)) else Some (inr body)
    | other => other
    end.

(** [read_request]: [None] when the handler panics. *)
Definition read_request (limits : Limits) (head_ : HeadLimits) (s : Socket) (a : A) : option ((Refused + Incoming) * A) :=
  match read_head (max_head_bytes head_) [] s with
  | inl b => Some (inl (Worded b), a)
  | inr (end_, buf, s) =>
      if max_head_bytes head_ <? Z.of_nat end_ then Some (inl (Worded HeadTooLarge), a)
      else match parse_head head_ (firstn end_ buf) with
      | inl b => Some (inl (Worded b), a)
      | inr (r, is_chunked, declared) =>
          '(early, a) ← preflight r a;
          match early with
          | Some reply => Some (inl (Early reply), a)
          | None =>
              got ← read_body limits head_ r is_chunked declared (skipn (end_ + 4) buf) s;
              Some (match got with inl x => inl x | inr body => inr (with_body body r) end, a)
          end
      end
  end.

Definition bad_reply (b : Bad) : option Reply :=
  match b with
  | Closed => None
  | HeadTooLarge => Some (json_reply 431 (quoted "{`error`:`headers_too_large`}"))
  | BadRequest why => Some (json_reply 400 (quoted (concat_str ["{`error`:`bad_request`,`message`:`"; why; "`}"])))
  | Unsupported why => Some (json_reply 501 (quoted (concat_str ["{`error`:`unsupported`,`message`:`"; why; "`}"])))
  | Timeout => Some (json_reply 408 (quoted "{`error`:`request_timeout`}"))
  end.

(** [serve]: one request and at most one reply. *)
Definition serve (limits : Limits) (head_ : HeadLimits) (s : Socket) (a : A) : option (option Reply * A) :=
  '(got, a) ← read_request limits head_ s a;
  match got with
  | inr r => '(reply, a) ← handle r a; Some (Some reply, a)
  | inl (Rejected why) => '(reply, a) ← reject why a; Some (Some reply, a)
  | inl (Early reply) => Some (Some reply, a)
  | inl (Worded b) => Some (bad_reply b, a)
  end.
End Serve.

Definition reason (status : Z) : string :=
  match List.find (fun r => fst r =? status)
    [(200, "OK"); (206, "Partial Content"); (304, "Not Modified"); (400, "Bad Request"); (401, "Unauthorized"); (403, "Forbidden");
     (404, "Not Found"); (405, "Method Not Allowed"); (408, "Request Timeout"); (409, "Conflict"); (412, "Precondition Failed");
     (413, "Payload Too Large"); (415, "Unsupported Media Type"); (422, "Unprocessable Content"); (428, "Precondition Required");
     (416, "Range Not Satisfiable"); (429, "Too Many Requests"); (431, "Request Header Fields Too Large");
     (500, "Internal Server Error"); (501, "Not Implemented"); (503, "Service Unavailable"); (507, "Insufficient Storage"); (508, "Loop Detected")] with
  | Some r => snd r
  | None => "Status"
  end.

Definition CRLF : string := String (ascii_of_N 13) (String (ascii_of_N 10) "").
Definition one_line (s : string) : bool := negb (str_any (fun c => (chr c =? 13) || (chr c =? 10)) s).

(** [write_reply] of a reply that is not a stream: the head, then the body. *)
Definition reply_head (r : Reply) : string :=
  concat_str ([ "HTTP/1.1 "; show_Z (status r); " "; reason (status r); CRLF ]
    ++ (if String.eqb (rp_type r) "" then [] else ["Content-Type: "; rp_type r; CRLF])
    ++ ["Content-Length: "; show_Z (str_len (rp_body r)); CRLF; "Connection: close"; CRLF]
    ++ concat (List.map (fun h => if one_line (fst h) && one_line (snd h) then [fst h; ": "; snd h; CRLF] else []) (rp_headers r))
    ++ [CRLF]).
