(* ===== verification/HttpdFacts.v ===== *)
(** What the listener guarantees: a request is read the same however its bytes are
    cut into packets, within its limits, with one reading of where its body ends;
    every read loop ends; and no header of a reply starts a line of its own. *)

From S2P Require Import Prelude Text Lists Proto Utf8 Httpd.
Open Scope string_scope.
Open Scope Z_scope.
Open Scope list_scope.

(** ** Finding a piece *)

Lemma is_prefix_of_app w b c : is_prefix_of w b = true -> is_prefix_of w (b ++ c) = true.
Proof.
  revert b. induction w as [|x w IH]; intros b; [done|]. destruct b as [|y b]; [done|]. cbn. rewrite !andb_true_iff.
  intros [-> H]. split; [done|]. by apply IH.
Qed.

Lemma is_prefix_spec w b : is_prefix_of w b = true -> b = w ++ skipn (List.length w) b.
Proof.
  revert b. induction w as [|x w IH]; intros b; [done|]. destruct b as [|y b]; [done|]. cbn. rewrite andb_true_iff.
  intros [E H]. apply Byte.byte_dec_bl in E as <-. by rewrite <- (IH b H).
Qed.

Lemma byte_eqb_refl (x : byte) : Byte.eqb x x = true.
Proof. by apply Byte.byte_dec_lb. Qed.

Lemma is_prefix_firstn n l : is_prefix_of (firstn n l) l = true.
Proof. revert n. induction l as [|x l IH]; intros [|n]; cbn; try done. by rewrite byte_eqb_refl, IH. Qed.

Lemma find_in_spec w b : forall i, find_in w b = Some i ->
  b = firstn i b ++ w ++ skipn (i + List.length w) b /\ (i + List.length w <= List.length b)%nat.
Proof.
  induction b as [|y b IH]; intros i.
  - cbn [find_in]. destruct (is_prefix_of w []) eqn:E; [|done]. intros [= <-]. apply is_prefix_spec in E.
    destruct w; [split; [done|cbn; lia]|done].
  - cbn [find_in]. destruct (is_prefix_of w (y :: b)) eqn:E.
    + intros [= <-]. cbn [firstn app Nat.add]. split; [by apply is_prefix_spec|].
      apply is_prefix_spec in E. rewrite E, length_app. lia.
    + destruct (find_in w b) as [j|]; [|done]. intros [= <-]. destruct (IH j eq_refl) as [H Hl]. cbn [firstn app Nat.add skipn List.length].
      split; [by rewrite <- H|lia].
Qed.

(** More bytes behind it do not move the first occurrence. *)
Lemma find_in_more w a b : forall i, find_in w a = Some i -> find_in w (a ++ b) = Some i.
Proof.
  induction a as [|y a IH]; intros i.
  - cbn [find_in]. destruct (is_prefix_of w []) eqn:E; [|done]. intros [= <-]. destruct w; [|done]. by destruct b.
  - cbn [find_in app]. destruct (is_prefix_of w (y :: a)) eqn:E.
    + intros [= <-]. by rewrite (is_prefix_of_app w (y :: a) b E : is_prefix_of w (y :: a ++ b) = true).
    + destruct (find_in w a) as [j|] eqn:Ea; [|done]. intros [= <-]. destruct (is_prefix_of w (y :: a ++ b)) eqn:E2.
      * exfalso. destruct (find_in_spec w a j Ea) as [_ Hl]. apply is_prefix_spec in E2.
        assert (is_prefix_of w (y :: a) = true); [|congruence].
        assert (firstn (List.length w) (y :: a ++ b) = w) as Hw by (by rewrite E2, firstn_app, Nat.sub_diag, firstn_all, app_nil_r).
        rewrite (firstn_app (List.length w) (y :: a) b : firstn (List.length w) (y :: a ++ b) = _) in Hw.
        replace (List.length w - List.length (y :: a))%nat with O in Hw by (cbn; lia). cbn [firstn] in Hw. rewrite app_nil_r in Hw.
        rewrite <- Hw at 1. apply is_prefix_firstn.
      * by rewrite (IH j eq_refl).
Qed.

Lemma find_in_short w buf rest i : find_in w (buf ++ rest) = Some i -> find_in w buf = None -> (List.length buf < i + List.length w)%nat.
Proof.
  intros H Hn. destruct (decide (List.length buf < i + List.length w)%nat) as [|Hge]; [done|]. exfalso.
  destruct (find_in_spec _ _ _ H) as [E _].
  assert (Hb : firstn (i + List.length w) (buf ++ rest) = firstn i (buf ++ rest) ++ w).
  { rewrite E at 1. rewrite app_assoc, firstn_app. rewrite firstn_all2.
    2: { rewrite length_app, length_firstn. lia. }
    replace (i + List.length w - _)%nat with O; [by rewrite app_nil_r|]. rewrite length_app, length_firstn, length_app. lia. }
  rewrite firstn_app in Hb. replace (i + List.length w - List.length buf)%nat with O in Hb by lia. cbn [firstn] in Hb. rewrite app_nil_r in Hb.
  assert (Hf : exists j, find_in w buf = Some j).
  { rewrite <- (firstn_skipn (i + List.length w) buf), Hb. rewrite <- app_assoc. clear.
    generalize (firstn i (buf ++ rest)) as l, (skipn (i + List.length w) buf) as t. intros l t.
    induction l as [|x l IHl]; cbn [app].
    - exists O. destruct w as [|y w]; [by destruct t|]. cbn [app find_in].
      enough (is_prefix_of (y :: w) (y :: w ++ t) = true) as -> by done.
      change (y :: w ++ t) with ((y :: w) ++ t). apply is_prefix_of_app. rewrite <- (firstn_all (y :: w)) at 1. apply is_prefix_firstn.
    - destruct IHl as [j Hj]. cbn [find_in]. rewrite Hj. destruct (is_prefix_of w _); by eexists. }
  destruct Hf as [j Hj]. congruence.
Qed.

(** A line without CRLF ends at the CRLF behind it. *)
Lemma find_crlf l r : find_in crlf l = None -> find_in crlf (l ++ crlf ++ r) = Some (List.length l).
Proof.
  induction l as [|x l IH]; [done|]. cbn [find_in app]. destruct (is_prefix_of crlf (x :: l)) eqn:E; [done|].
  destruct (find_in crlf l) as [j|] eqn:El; [done|]. intros _. rewrite (IH eq_refl). cbn [List.length option_map].
  destruct (is_prefix_of crlf (x :: l ++ crlf ++ r)) eqn:E2; [|done]. exfalso.
  destruct l as [|y l]; [|cbn [app is_prefix_of crlf] in *; congruence]. cbn [app is_prefix_of crlf] in E2.
  rewrite !andb_true_iff in E2. by destruct E2 as (_ & E2 & _).
Qed.

(** ** Reading from a socket *)

(** What is in hand and what the socket still gives. *)
Definition coming (buf : bytes) (s : Socket) : bytes := buf ++ promised s.

Lemma coming_got buf b s : coming (buf ++ b) s = coming buf (Got b :: s).
Proof. unfold coming. cbn. by rewrite app_assoc. Qed.

Lemma found_now w buf s i j : find_in w (coming buf s) = Some i -> find_in w buf = Some j -> j = i /\ (i + List.length w <= List.length buf)%nat.
Proof.
  intros Hi Hj. pose proof (find_in_more _ _ (promised s) _ Hj) as Hm. unfold coming in Hi. rewrite Hi in Hm. injection Hm as ->.
  split; [done|]. by destruct (find_in_spec _ _ _ Hj).
Qed.

Lemma coming_nil buf : coming buf [] = buf.
Proof. apply app_nil_r. Qed.

Lemma firstn_coming i buf s : (i <= List.length buf)%nat -> firstn i (coming buf s) = firstn i buf.
Proof. intros H. unfold coming. rewrite firstn_app. replace (i - List.length buf)%nat with O by lia. apply app_nil_r. Qed.

Lemma skipn_coming i buf s : (i <= List.length buf)%nat -> skipn i (coming buf s) = coming (skipn i buf) s.
Proof. intros H. unfold coming. rewrite skipn_app. by replace (i - List.length buf)%nat with O by lia. Qed.

Lemma take_line_delivered max s : forall buf i, find_in crlf (coming buf s) = Some i -> Z.of_nat i + 1 <= max ->
  exists buf' s', take_line max buf s = inr (firstn i (coming buf s), buf', s') /\ coming buf' s' = skipn (i + 2) (coming buf s).
Proof.
  induction s as [|e s IH]; intros buf i Hi Hmax; cbn [take_line]; destruct (find_in crlf buf) as [j|] eqn:Ej.
  1, 3: destruct (found_now _ _ _ _ _ Hi Ej) as [-> Hl]; cbn [List.length crlf] in Hl;
    do 2 eexists; (split; [by rewrite firstn_coming by lia|by rewrite skipn_coming by lia]).
  all: pose proof (find_in_short _ _ _ _ Hi Ej) as Hs; cbn [List.length crlf] in Hs; unfold blen; rewrite (proj2 (Z.ltb_ge _ _)) by lia.
  - exfalso. rewrite coming_nil in Hi; congruence.
  - destruct e as [b| |]; try (exfalso; change (coming buf (_ :: s)) with (coming buf []) in Hi; rewrite coming_nil in Hi; congruence).
    rewrite <- coming_got in Hi |- *. by apply IH.
Qed.

Lemma fill_to_delivered n s : forall buf, n <= blen (coming buf s) ->
  exists buf' s', fill_to n buf s = inr (buf', s') /\ coming buf' s' = coming buf s /\ n <= blen buf'.
Proof.
  induction s as [|e s IH]; intros buf Hn; cbn [fill_to]; destruct (Z.ltb_spec (blen buf) n) as [Hlt|Hge];
    try (do 2 eexists; split; [reflexivity|by split]).
  - exfalso. unfold coming in Hn. cbn in Hn. rewrite app_nil_r in Hn. lia.
  - destruct e as [b| |]; try (exfalso; unfold coming in Hn; cbn in Hn; rewrite app_nil_r in Hn; lia).
    rewrite <- coming_got in Hn |- *. by apply IH.
Qed.

Lemma read_head_delivered max s : forall buf i, find_head_end (coming buf s) = Some i -> Z.of_nat i + 3 <= max ->
  exists buf' s', read_head max buf s = inr (i, buf', s') /\ coming buf' s' = coming buf s /\ (i + 4 <= List.length buf')%nat.
Proof.
  unfold find_head_end. induction s as [|e s IH]; intros buf i Hi Hmax; cbn [read_head]; unfold find_head_end; destruct (find_in (crlf ++ crlf) buf) as [j|] eqn:Ej.
  1, 3: destruct (found_now _ _ _ _ _ Hi Ej) as [-> Hl]; by do 2 eexists.
  all: pose proof (find_in_short _ _ _ _ Hi Ej) as Hs; cbn [List.length crlf app] in Hs; unfold blen; rewrite (proj2 (Z.ltb_ge _ _)) by lia.
  - exfalso. rewrite coming_nil in Hi; congruence.
  - destruct e as [b| |]; try (exfalso; change (coming buf (_ :: s)) with (coming buf []) in Hi; rewrite coming_nil in Hi; congruence).
    rewrite <- coming_got in Hi |- *. by apply IH.
Qed.

(** What a read loop returns is what came. *)
Lemma take_line_takes max s : forall buf line buf' s', take_line max buf s = inr (line, buf', s') ->
  coming buf s = line ++ crlf ++ coming buf' s'.
Proof.
  induction s as [|e s IH]; intros buf line buf' s'; cbn [take_line]; destruct (find_in crlf buf) as [j|] eqn:Ej.
  1, 3: intros [= <- <- <-]; destruct (find_in_spec _ _ _ Ej) as [E _]; unfold coming; rewrite E at 1; cbn [List.length crlf]; by rewrite <- !app_assoc.
  all: destruct (max <? blen buf); try done. destruct e as [b| |]; try done. intros H. rewrite <- coming_got. by apply IH.
Qed.

Lemma fill_to_takes n s : forall buf buf' s', fill_to n buf s = inr (buf', s') -> coming buf s = coming buf' s' /\ n <= blen buf'.
Proof.
  induction s as [|e s IH]; intros buf buf' s'; cbn [fill_to]; destruct (Z.ltb_spec (blen buf) n); try done; try (by intros [= <- <-]).
  destruct e as [b| |]; try done. intros Hf. rewrite <- coming_got. by apply IH.
Qed.

(** ** The chunked loop ends *)

Definition left (buf : bytes) (s : Socket) : nat := List.length (coming buf s).

Lemma take_line_left max s buf line buf' s' : take_line max buf s = inr (line, buf', s') -> (left buf' s' + 2 <= left buf s)%nat.
Proof. intros H. unfold left. rewrite (take_line_takes _ _ _ _ _ _ H), !length_app. cbn. lia. Qed.

Lemma read_trailers_end max fuel : forall n buf s, (left buf s < fuel)%nat -> read_trailers fuel max n buf s <> None.
Proof.
  induction fuel as [|fuel IH]; intros n buf s Hf; [lia|]. cbn [read_trailers].
  destruct (take_line max buf s) as [b|[[line buf'] s']] eqn:E; [done|]. apply take_line_left in E.
  destruct line; [done|]. destruct (max <? _); [done|]. apply IH. lia.
Qed.

Lemma chunks_end max_body max fuel : forall body buf s, (left buf s < fuel)%nat -> chunks_loop fuel max_body max body buf s <> None.
Proof.
  induction fuel as [|fuel IH]; intros body buf s Hf; [lia|]. cbn [chunks_loop].
  destruct (take_line max buf s) as [b|[[line buf'] s']] eqn:E; [done|]. apply take_line_left in E.
  destruct (chunk_size line) as [size|]; [|done]. destruct (size =? 0).
  { pose proof (read_trailers_end max fuel 0 buf' s') as Ht. destruct (read_trailers fuel max 0 buf' s') as [[?|?]|]; [done|done|].
    exfalso. apply Ht; [lia|done]. }
  destruct (max_body <? _); [done|]. destruct (fill_to (size + 2) buf' s') as [b|[buf2 s2]] eqn:Ef; [done|].
  destruct (negb _); [done|]. apply IH. apply fill_to_takes in Ef as [Ec _]. unfold left in *. rewrite Ec in E.
  unfold coming in *. rewrite !length_app, length_skipn in *. lia.
Qed.

Lemma read_chunked_ends max_body max buf s : read_chunked max_body max buf s <> None.
Proof. apply chunks_end. unfold left, coming. rewrite length_app. lia. Qed.

(** ** A chunked body *)

(** A chunk: its size line, with any extension, and its data. *)
Record Chunk := mkChunk { ck_line : bytes; ck_data : bytes }.
Definition chunk_ok (max_line : Z) (c : Chunk) : Prop :=
  chunk_size (ck_line c) = Some (blen (ck_data c)) /\ find_in crlf (ck_line c) = None /\ blen (ck_line c) < max_line /\ ck_data c <> [].
Definition enc_chunk (c : Chunk) : bytes := ck_line c ++ crlf ++ ck_data c ++ crlf.
Definition enc_trailers (ls : list bytes) : bytes := concat (List.map (fun l => l ++ crlf) ls) ++ crlf.
Definition trailer_ok (l : bytes) : Prop := find_in crlf l = None /\ l <> [].
Definition trailers_len (ls : list bytes) : Z := sumZ (fun l => blen l + 2) ls.

Lemma take_line_line max l r buf s : find_in crlf l = None -> blen l < max -> coming buf s = l ++ crlf ++ r ->
  exists buf' s', take_line max buf s = inr (l, buf', s') /\ coming buf' s' = r.
Proof.
  intros Hl Hm Hc. pose proof (find_crlf l r Hl) as Hf. rewrite <- Hc in Hf.
  destruct (take_line_delivered max s buf _ Hf) as (buf' & s' & -> & Hc'); [unfold blen in Hm; lia|]. rewrite Hc in *.
  exists buf', s'. rewrite firstn_app, Nat.sub_diag, firstn_all, app_nil_r. split; [done|]. rewrite Hc'.
  rewrite skipn_app, skipn_all2 by lia. by replace (List.length l + 2 - List.length l)%nat with 2%nat by lia.
Qed.

Lemma trailers_read max fuel ls : forall n buf s extra, Forall trailer_ok ls -> 0 < max -> 0 <= n -> n + trailers_len ls <= max ->
  coming buf s = enc_trailers ls ++ extra -> (left buf s < fuel)%nat -> read_trailers fuel max n buf s = Some (inr tt).
Proof.
  revert fuel. induction ls as [|l ls IH]; intros [|fuel] n buf s extra Hok Hpos Hn Hmax Hc Hf; try lia; cbn [read_trailers].
  - destruct (take_line_line max [] extra buf s eq_refl) as (buf' & s' & -> & _); [unfold blen; cbn; lia|by rewrite Hc|done].
  - apply Forall_cons in Hok as [[Hl Hne] Hok]. unfold trailers_len in *. cbn [sumZ foldr] in Hmax. fold (sumZ (fun l => blen l + 2) ls) in Hmax.
    assert (0 <= sumZ (fun l => blen l + 2) ls) by (apply sumZ_nonneg, Forall_true; intros x; unfold blen; cbv beta; lia).
    unfold enc_trailers in Hc. cbn [List.map concat] in Hc. rewrite <- !app_assoc in Hc.
    destruct (take_line_line max l _ buf s Hl ltac:(lia) Hc) as (buf' & s' & E & Hc'). rewrite E. apply take_line_left in E.
    destruct l as [|x l]; [done|]. rewrite (proj2 (Z.ltb_ge _ _)) by lia.
    apply (IH fuel _ buf' s' extra); [done|done|unfold blen in *; lia|lia|unfold enc_trailers; by rewrite Hc', <- app_assoc|lia].
Qed.

Lemma chunks_read max_body max cs : forall fuel body buf s last_ ls extra,
  Forall (chunk_ok max) cs -> chunk_size last_ = Some 0 -> find_in crlf last_ = None -> blen last_ < max ->
  Forall trailer_ok ls -> trailers_len ls <= max ->
  blen body + blen (concat (List.map ck_data cs)) <= max_body -> max_body <= u64_max ->
  coming buf s = concat (List.map enc_chunk cs) ++ (last_ ++ crlf ++ enc_trailers ls) ++ extra -> (left buf s < fuel)%nat ->
  chunks_loop fuel max_body max body buf s = Some (inr (body ++ concat (List.map ck_data cs))).
Proof.
  induction cs as [|c cs IH]; intros [|fuel] body buf s last_ ls extra Hok H0 Hl Hll Ht Htl Hmax Hu Hc Hf; try lia; cbn [chunks_loop].
  - cbn [List.map concat app] in Hc. rewrite <- !app_assoc in Hc.
    destruct (take_line_line max last_ _ buf s Hl Hll Hc) as (buf' & s' & E & Hc'). rewrite E, H0. apply take_line_left in E. cbn [Z.eqb].
    rewrite (trailers_read max fuel ls 0 buf' s' extra Ht) by (done || unfold blen in *; lia). cbn. by rewrite app_nil_r.
  - apply Forall_cons in Hok as [(Hs & Hcl & Hm & Hne) Hok]. cbn [List.map concat] in Hc, Hmax |- *.
    unfold enc_chunk in Hc at 1. rewrite <- !app_assoc in Hc.
    destruct (take_line_line max (ck_line c) _ buf s Hcl Hm Hc) as (buf' & s' & E & Hc'). rewrite E, Hs. apply take_line_left in E.
    set (data := ck_data c) in *. unfold blen in Hmax. rewrite length_app in Hmax. unfold blen at 1.
    rewrite (proj2 (Z.eqb_neq _ _)) by (destruct data; [done|cbn; lia]).
    rewrite (proj2 (Z.ltb_ge _ _)) by (unfold blen; lia).
    destruct (fill_to_delivered (blen data + 2) s' buf') as (buf2 & s2 & Ef & Hc2 & Hb2).
    { rewrite Hc'. unfold blen. rewrite !length_app. cbn [List.length crlf]. lia. }
    rewrite Ef. cbv zeta. replace (Z.to_nat (blen data)) with (List.length data) by (unfold blen; lia). unfold blen in Hb2. rewrite Hc' in Hc2. unfold coming in Hc2.
    assert (Hbuf : buf2 = data ++ crlf ++ skipn (List.length data + 2) buf2).
    { assert (Hfst : firstn (List.length data + 2) buf2 = data ++ crlf).
      { assert (firstn (List.length data + 2) (buf2 ++ promised s2) = data ++ crlf) as Hx.
        { rewrite Hc2, app_assoc, firstn_app. rewrite firstn_all2 by (rewrite length_app; cbn; lia).
          replace (_ - _)%nat with O by (rewrite length_app; cbn; lia). by rewrite app_nil_r. }
        rewrite firstn_app in Hx. replace (List.length data + 2 - List.length buf2)%nat with O in Hx by lia. by rewrite app_nil_r in Hx. }
      rewrite app_assoc, <- Hfst. by rewrite firstn_skipn. }
    set (more := skipn (List.length data + 2) buf2) in *. rewrite Hbuf.
    rewrite skipn_app, skipn_all, Nat.sub_diag. cbn [app skipn]. rewrite bool_decide_true by done. cbn [negb].
    rewrite firstn_app, firstn_all, Nat.sub_diag, app_nil_r.
    assert (Hcoming : coming more s2 = concat (List.map enc_chunk cs) ++ (last_ ++ crlf ++ enc_trailers ls) ++ extra).
    { unfold coming. rewrite Hbuf in Hc2. rewrite <- !app_assoc in Hc2. apply app_inv_head in Hc2. apply app_inv_head in Hc2. by rewrite Hc2, <- !app_assoc. }
    rewrite app_assoc.
    apply (IH fuel (body ++ data) more s2 last_ ls extra); try done.
    + unfold blen. rewrite length_app. lia.
    + unfold left in *. rewrite Hcoming. rewrite Hc' in E. rewrite !length_app in *. lia.
Qed.

(** ** A request *)

(** How a body goes on the wire under a head: as it is, or in chunks. *)
Inductive on_wire (limits : Limits) (head_ : HeadLimits) (body : bytes) : bool -> Z -> bytes -> Prop :=
| as_it_is : blen body <= max_body_bytes limits -> on_wire limits head_ body false (blen body) body
| in_chunks cs last_ ls : body = concat (List.map ck_data cs) -> blen body <= max_body_bytes limits -> max_body_bytes limits <= u64_max ->
    Forall (chunk_ok (max_head_bytes head_)) cs -> chunk_size last_ = Some 0 -> find_in crlf last_ = None -> blen last_ < max_head_bytes head_ ->
    Forall trailer_ok ls -> trailers_len ls <= max_head_bytes head_ ->
    on_wire limits head_ body true 0 (concat (List.map enc_chunk cs) ++ last_ ++ crlf ++ enc_trailers ls).

Definition gzipped (head_ : HeadLimits) (r : Incoming) : bool :=
  gzip head_ && existsb (fun h => same_name (fst h) "content-encoding" && same_name (snd h) "gzip") (headers r).

Section Requests.
Context {A : Type} {H : Handler A} (gunzip : bytes -> nat -> option bytes) (limits : Limits) (head_ : HeadLimits).

Lemma body_read r is_chunked declared body wire extra buf s : on_wire limits head_ body is_chunked declared wire ->
  coming buf s = wire ++ extra ->
  read_body gunzip limits head_ r is_chunked declared buf s =
    Some (if gzipped head_ r then inflate gunzip body (max_decompressed_bytes limits) else inr body).
Proof.
  intros Hw Hc. unfold read_body, gzipped. destruct Hw as [Hm|cs last_ ls Hb Hm Hu Hcs H0 Hl Hll Ht Htl].
  - rewrite (proj2 (Z.ltb_ge _ _)) by lia.
    destruct (fill_to_delivered (blen body) s buf) as (buf' & s' & -> & Hc' & Hn); [rewrite Hc; unfold blen; rewrite length_app; lia|].
    assert (firstn (Z.to_nat (blen body)) buf' = body) as ->.
    { unfold blen in *. rewrite Nat2Z.id. rewrite Hc in Hc'. rewrite <- (firstn_coming _ buf' s') by lia. rewrite Hc'.
      by rewrite firstn_app, firstn_all, Nat.sub_diag, app_nil_r. }
    by destruct (gzip head_ && _).
  - rewrite (proj2 (Z.ltb_ge _ _)) by (unfold blen in Hm; lia). unfold read_chunked.
    rewrite (chunks_read _ _ cs _ [] buf s last_ ls extra); try done.
    + cbn [app]. rewrite <- Hb. by destruct (gzip head_ && _).
    + rewrite <- Hb. unfold blen at 1. cbn. lia.
    + by rewrite Hc, <- !app_assoc.
    + unfold left, coming. rewrite length_app. lia.
Qed.

(** C15: however a request is cut into packets, and whatever follows it on the
    connection, the handler is given the head as parsed and the body as sent,
    plain or in chunks with extensions and trailers. *)
Theorem request_is_read (hd wire extra : bytes) (s : Socket) (r : Incoming) (is_chunked : bool) (declared : Z) (body : bytes) (a a' : A) :
  promised s = hd ++ (crlf ++ crlf) ++ wire ++ extra ->
  find_head_end (promised s) = Some (List.length hd) -> blen hd + 3 <= max_head_bytes head_ ->
  parse_head head_ hd = inr (r, is_chunked, declared) -> preflight r a = Some (None, a') ->
  on_wire limits head_ body is_chunked declared wire ->
  read_request gunzip limits head_ s a =
    Some (match (if gzipped head_ r then inflate gunzip body (max_decompressed_bytes limits) else inr body) with
          | inl x => inl x | inr b => inr (with_body b r) end, a').
Proof.
  intros Hs He Hm Hp Hpre Hw. unfold read_request. unfold blen in Hm.
  destruct (read_head_delivered (max_head_bytes head_) s [] (List.length hd)) as (buf' & s' & -> & Hc & Hl); [done|lia|].
  rewrite (proj2 (Z.ltb_ge _ _)) by lia.
  assert (Hcoming : coming buf' s' = hd ++ (crlf ++ crlf) ++ wire ++ extra) by (rewrite Hc; exact Hs).
  assert (firstn (List.length hd) buf' = hd) as ->.
  { rewrite <- (firstn_coming _ buf' s') by lia. rewrite Hcoming. by rewrite firstn_app, firstn_all, Nat.sub_diag, app_nil_r. }
  rewrite Hp, Hpre. cbn [mbind option_bind].
  rewrite (body_read r is_chunked declared body wire extra (skipn (List.length hd + 4) buf') s' Hw); [done|].
  rewrite <- skipn_coming by done. rewrite Hcoming, skipn_app, skipn_all2 by lia.
  by replace (List.length hd + 4 - List.length hd)%nat with 4%nat by lia.
Qed.

(** ** Limits *)

Lemma chunks_bounded max_body max fuel : max_body < u64_max -> forall body buf s b,
  blen body <= max_body -> chunks_loop fuel max_body max body buf s = Some (inr b) -> blen b <= max_body.
Proof.
  intros Hu. induction fuel as [|fuel IH]; intros body buf s b Hb; [done|]. cbn [chunks_loop].
  destruct (take_line max buf s) as [?|[[line buf'] s']]; [done|]. destruct (chunk_size line) as [size|]; [|done].
  destruct (size =? 0); [destruct (read_trailers fuel max 0 buf' s') as [[?|?]|]; try done; by intros [= <-]|].
  destruct (Z.ltb_spec max_body (Z.min u64_max (blen body + size))) as [|Hs]; [done|].
  destruct (fill_to (size + 2) buf' s') as [?|[buf2 s2]]; [done|]. destruct (negb _); [done|]. apply IH.
  unfold blen in *. rewrite length_app, length_firstn. lia.
Qed.

Lemma body_bounded r is_chunked declared buf s b : 0 <= max_body_bytes limits < u64_max -> 0 <= declared ->
  read_body gunzip limits head_ r is_chunked declared buf s = Some (inr b) ->
  blen b <= if gzipped head_ r then max_decompressed_bytes limits else max_body_bytes limits.
Proof.
  intros Hu Hd. unfold read_body, gzipped. destruct (Z.ltb_spec (max_body_bytes limits) declared) as [|Hm]; [done|].
  set (whole := if is_chunked then _ else _). assert (Hw : forall x, whole = Some (inr x) -> blen x <= max_body_bytes limits).
  { intros x. unfold whole. destruct is_chunked.
    - apply chunks_bounded; [lia|unfold blen; cbn; lia].
    - destruct (fill_to declared buf s) as [?|[body ?]]; [done|]. intros [= <-]. unfold blen. rewrite length_firstn. lia. }
  clearbody whole. destruct whole as [[x|x]|]; [done| |done]. destruct (gzip head_ && _); [|by intros [= <-]; apply Hw].
  unfold inflate. destruct (gunzip x _) as [out|]; [|done]. destruct (Z.ltb_spec (max_decompressed_bytes limits) (blen out)); [done|]. by intros [= <-].
Qed.

Lemma headers_bounded max lines : forall acc hs, Z.of_nat (List.length acc) <= Z.max 0 max ->
  parse_headers max lines acc = inr hs -> Z.of_nat (List.length hs) <= Z.max 0 max.
Proof.
  induction lines as [|l lines IH]; intros acc hs Ha; cbn [parse_headers]; [by intros [= <-]|].
  destruct (Z.leb_spec max (Z.of_nat (List.length acc))); [done|]. destruct (match l with String _ _ => _ | "" => _ end); [done|].
  destruct (split_once ":" l) as [[n v]|]; [|done]. destruct (_ || _); [done|]. apply IH. rewrite length_app. cbn. lia.
Qed.

Definition one_framing (r : Incoming) (is_chunked : bool) : Prop :=
  match values_of "transfer-encoding" (headers r), values_of "content-length" (headers r) with
  | [], [] => is_chunked = false
  | [], [v] => is_chunked = false /\ str_all is_digit v = true
  | [v], [] => is_chunked = true /\ same_name v "chunked" = true
  | _, _ => False
  end.

Lemma framing_one m n p q hs is_chunked declared : framing (chunked head_) hs = inr (is_chunked, declared) ->
  one_framing (mkIncoming m n p q hs []) is_chunked /\ 0 <= declared.
Proof.
  unfold framing, one_framing. cbn [headers]. destruct (values_of "transfer-encoding" hs) as [|v [|v2 vs]]; cbn [negb andb].
  - destruct (values_of "content-length" hs) as [|w [|w2 ws]]; [by intros [= <- <-]| |done].
    destruct (parse_uint u64_max w) as [k|] eqn:E; [|done]. apply parse_uint_range in E. destruct (str_all is_digit w); [|done]. intros [= <- <-]. by split; [|lia].
  - destruct (chunked head_ && same_name v "chunked") eqn:E; [|done]. apply andb_true_iff in E as [_ E].
    destruct (values_of "content-length" hs) as [|w ws]; cbn [negb andb]; [by intros [= <- <-]|done].
  - done.
Qed.

(** Whatever arrives, a request that reaches the handler has at most the
    configured number of headers and bytes of body, decompressed or not, and one
    reading of where the body ends: never both a length and a transfer coding, never
    one of them twice, never a coding but chunked. *)
Theorem handled_request_is_bounded (s : Socket) (a a' : A) (r : Incoming) :
  0 <= max_body_bytes limits < u64_max -> 0 <= max_headers head_ ->
  read_request gunzip limits head_ s a = Some (inr r, a') ->
  Z.of_nat (List.length (headers r)) <= max_headers head_ /\
  blen (rq_body r) <= (if gzipped head_ r then max_decompressed_bytes limits else max_body_bytes limits) /\
  exists is_chunked, one_framing r is_chunked.
Proof.
  intros Hu Hh. unfold read_request. destruct (read_head (max_head_bytes head_) [] s) as [?|[[end_ buf] s']]; [done|].
  destruct (max_head_bytes head_ <? Z.of_nat end_); [done|]. unfold parse_head. destruct (negb _); [done|].
  destruct (split_crlf _) as [|line lines]; [done|]. destruct (parse_line line) as [?|[[m p] q]]; [done|].
  destruct (parse_headers (max_headers head_) lines []) as [?|hs] eqn:Eh; [done|].
  destruct (framing (chunked head_) hs) as [?|[is_chunked declared]] eqn:Ef; [done|].
  destruct (framing_one (method_of m) m p q hs _ _ Ef) as [Hone Hd].
  set (r0 := mkIncoming (method_of m) m p q hs []) in *. destruct (preflight r0 a) as [[[early|] a1]|]; [done| |done]. cbn [mbind option_bind].
  destruct (read_body gunzip limits head_ r0 is_chunked declared (skipn (end_ + 4) buf) s') as [[?|body]|] eqn:Eb; [done| |done].
  cbn [mbind option_bind]. intros [= <- <-]. split; [|split].
  - apply headers_bounded in Eh; [|cbn; lia]. cbn. lia.
  - by apply (body_bounded _ _ _ _ _ _ Hu Hd) in Eb.
  - by exists is_chunked.
Qed.
End Requests.

(** ** Replies *)

Lemma split_crlf_line l rest_ : one_line l = true -> split_crlf (String.append l (String.append CRLF rest_)) = l :: split_crlf rest_.
Proof.
  unfold one_line. rewrite negb_true_iff. induction l as [|c l IH]; [done|]. cbn [str_any]. rewrite orb_false_iff. intros [Hc Hl].
  apply orb_false_iff in Hc as [Hc _]. specialize (IH Hl).
  change (String.append (String c l) (String.append CRLF rest_)) with (String c (String.append l (String.append CRLF rest_))).
  destruct (String.append l (String.append CRLF rest_)) as [|d t] eqn:E; [by destruct l|].
  cbn [split_crlf]. rewrite Hc. cbn [andb]. cbn [split_crlf] in IH. by rewrite IH.
Qed.

Lemma concat_str_app a b : concat_str (a ++ b) = String.append (concat_str a) (concat_str b).
Proof. induction a as [|x a IH]; cbn; [done|]. fold (concat_str a) (concat_str (a ++ b)). by rewrite IH, str_app_assoc. Qed.

Definition kept_headers (r : Reply) : list (string * string) := List.filter (fun h => one_line (fst h) && one_line (snd h)) (rp_headers r).
Definition type_lines (r : Reply) : list string := if String.eqb (rp_type r) "" then [] else [String.append "Content-Type: " (rp_type r)].
Definition reply_lines (r : Reply) : list string :=
  [concat_str ["HTTP/1.1 "; show_Z (status r); " "; reason (status r)]] ++ type_lines r
  ++ [String.append "Content-Length: " (show_Z (str_len (rp_body r))); "Connection: close"]
  ++ List.map (fun h => concat_str [fst h; ": "; snd h]) (kept_headers r).

Definition ended (l : string) : string := String.append l CRLF.

Lemma split_crlf_lines ls : Forall (fun l => one_line l = true) ls -> forall rest_,
  split_crlf (String.append (concat_str (List.map ended ls)) rest_) = ls ++ split_crlf rest_.
Proof.
  induction 1 as [|l ls Hl _ IH]; intros rest_; [done|]. cbn [List.map concat_str fold_right]. fold (concat_str (List.map ended ls)).
  unfold ended at 1. rewrite !str_app_assoc, split_crlf_line by done. by rewrite IH.
Qed.

Lemma one_line_app a b : one_line (String.append a b) = one_line a && one_line b.
Proof.
  unfold one_line. induction a as [|c a IH]; [done|]. change (String.append (String c a) b) with (String c (String.append a b)).
  cbn [str_any]. rewrite !negb_orb, IH. by rewrite andb_assoc.
Qed.

Lemma one_line_show n : 0 <= n -> one_line (show_Z n) = true.
Proof.
  intros Hn. pose proof (show_Z_digits n Hn) as Hd. unfold one_line. apply negb_true_iff.
  induction (show_Z n) as [|c s IH]; [done|]. cbn in *. apply andb_true_iff in Hd as [Hc Hd]. rewrite (IH Hd), orb_false_r.
  unfold is_digit, in_range in Hc. destruct (chr c =? 13) eqn:E1, (chr c =? 10) eqn:E2; zbool; lia || done.
Qed.

Lemma one_line_reason n : one_line (reason n) = true.
Proof.
  unfold reason. cbn [List.find]. repeat (match goal with |- context [if ?b then Some _ else _] => destruct b end; [done|]). done.
Qed.

Lemma header_lines hs :
  concat_str (concat (List.map (fun h => if one_line (fst h) && one_line (snd h) then [fst h; ": "; snd h; CRLF] else []) hs))
  = concat_str (List.map ended (List.map (fun h => concat_str [fst h; ": "; snd h]) (List.filter (fun h => one_line (fst h) && one_line (snd h)) hs))).
Proof.
  induction hs as [|[k v] hs IH]; [done|]. cbn [List.map concat List.filter fst snd]. rewrite concat_str_app, IH.
  destruct (one_line k && one_line v); [|done]. cbn [List.map fst snd]. cbn [concat_str fold_right]. unfold ended.
  rewrite ?str_app_assoc, ?str_app_nil_r. done.
Qed.

Lemma reply_head_is r : reply_head r = String.append (concat_str (List.map ended (reply_lines r))) CRLF.
Proof.
  unfold reply_head, reply_lines. rewrite !map_app, !concat_str_app, header_lines. fold (kept_headers r). unfold type_lines.
  destruct (String.eqb (rp_type r) ""); cbn [List.map concat_str fold_right]; unfold ended; rewrite ?str_app_nil_r, ?str_app_assoc; done.
Qed.

(** The head of a reply is read back as its lines and nothing else: a header
    whose name or value has a line break in it is left out, so that no value starts a
    line, or a reply, of its own. *)
Theorem reply_is_not_split (r : Reply) : 0 <= status r -> one_line (rp_type r) = true ->
  split_crlf (reply_head r) = reply_lines r ++ [""; ""].
Proof.
  intros Hs Ht. rewrite reply_head_is, split_crlf_lines; [done|]. unfold reply_lines. rewrite !Forall_app. repeat split.
  - constructor; [|done]. cbn [concat_str fold_right]. rewrite !one_line_app, one_line_show, one_line_reason by done. done.
  - unfold type_lines. destruct (String.eqb (rp_type r) ""); constructor; [|done]. by rewrite one_line_app, Ht.
  - repeat constructor. rewrite one_line_app, one_line_show by (unfold str_len; lia). done.
  - unfold kept_headers. apply List.Forall_forall. intros l (h & <- & Hh)%in_map_iff. apply filter_In in Hh as [_ Hh].
    apply andb_true_iff in Hh as [Hk Hv]. cbn [concat_str fold_right]. by rewrite !one_line_app, Hk, Hv.
Qed.

(** ** A request in pieces *)

Definition counting : Handler Z := {|
  preflight := fun _ n => Some (None, n);
  handle := fun r n => Some (json_reply 200 "{}", n + blen (rq_body r));
  reject := fun _ n => Some (json_reply 413 "{}", n) |}.

Definition text (s : string) : bytes := list_byte_of_string s.
Definition a_head : bytes := text (concat_str ["POST /v1/logs?x=1 HTTP/1.1"; CRLF; "Host: h"; CRLF; "Transfer-Encoding: chunked"]).
Definition a_wire : bytes := text (concat_str ["5;ext=1"; CRLF; "hello"; CRLF; "1"; CRLF; "!"; CRLF; "0"; CRLF; "T: v"; CRLF; CRLF]).
Definition a_stream : bytes := a_head ++ (crlf ++ crlf) ++ a_wire ++ text "GET / HTTP/1.1".
(** The same bytes, seven at a time. *)
Fixpoint in_pieces (fuel : nat) (b : bytes) : Socket :=
  match fuel with O => [] | S f => match b with [] => [Eof] | _ => Got (firstn 7 b) :: in_pieces f (skipn 7 b) end end.
Definition a_socket : Socket := in_pieces 100 a_stream.
Definition a_request : Incoming := mkIncoming Post "POST" "/v1/logs" "x=1" [("Host", "h"); ("Transfer-Encoding", "chunked")] [].
Definition a_limits : Limits := mkLimits 1024 4096.
Definition no_gunzip (b : bytes) (n : nat) : option bytes := None.

Lemma request_is_read_witness :
  promised a_socket = a_stream /\
  read_request (H := counting) no_gunzip a_limits (ingest_limits 2) a_socket 0 = Some (inr (with_body (text "hello!") a_request), 0).
Proof.
  assert (Hp : promised a_socket = a_stream) by (vm_compute; reflexivity). split; [exact Hp|].
  assert (Hf : find_head_end (promised a_socket) = Some (List.length a_head)) by (vm_compute; reflexivity).
  assert (Hh : parse_head (ingest_limits 2) a_head = inr (a_request, true, 0)) by (vm_compute; reflexivity).
  assert (Hw : on_wire a_limits (ingest_limits 2) (text "hello!") true 0 a_wire).
  { refine (in_chunks a_limits (ingest_limits 2) (text "hello!") [mkChunk (text "5;ext=1") (text "hello"); mkChunk (text "1") (text "!")] (text "0") [text "T: v"] _ _ _ _ _ _ _ _ _);
      try (vm_compute; reflexivity); try (vm_compute; discriminate).
    - repeat constructor; try (vm_compute; reflexivity); discriminate.
    - repeat constructor; discriminate. }
  exact (request_is_read (H := counting) no_gunzip a_limits (ingest_limits 2) a_head a_wire (text "GET / HTTP/1.1") a_socket a_request true 0 (text "hello!") 0 0
    Hp Hf ltac:(vm_compute; discriminate) Hh eq_refl Hw).
Defined.

Lemma handled_request_is_bounded_witness :
  read_request (H := counting) no_gunzip a_limits (ingest_limits 2) a_socket 0 = Some (inr (with_body (text "hello!") a_request), 0) /\
  exists is_chunked, one_framing (with_body (text "hello!") a_request) is_chunked.
Proof.
  assert (E : read_request (H := counting) no_gunzip a_limits (ingest_limits 2) a_socket 0 = Some (inr (with_body (text "hello!") a_request), 0))
    by (vm_compute; reflexivity).
  split; [exact E|].
  exact (proj2 (proj2 (handled_request_is_bounded (H := counting) no_gunzip a_limits (ingest_limits 2) a_socket 0 0 (with_body (text "hello!") a_request)
    ltac:(split; vm_compute; [discriminate|reflexivity]) ltac:(vm_compute; discriminate) E))).
Defined.

Lemma reply_is_not_split_witness :
  split_crlf (reply_head (mkReply 200 "text/plain" "hi" [("X-A", "1"); ("X-B", String.append "2" (String.append CRLF "Set-Cookie: s"))]))
  = ["HTTP/1.1 200 OK"; "Content-Type: text/plain"; "Content-Length: 2"; "Connection: close"; "X-A: 1"; ""; ""].
Proof.
  rewrite (reply_is_not_split (mkReply 200 "text/plain" "hi" [("X-A", "1"); ("X-B", String.append "2" (String.append CRLF "Set-Cookie: s"))]));
    [vm_compute; reflexivity|discriminate|reflexivity].
Defined.
