(* ===== verification/HecEvent.v ===== *)
(** Splunk HEC payloads ([crates/logless-core/src/hec/event.rs]): the query
    parameters, the two body formats, and the level of an event.

    A slice of a string that does not fall between characters panics, which ends the
    process; such a result is [None].  Parsing and printing JSON, fresh record ids
    and which characters beyond ASCII are alphanumeric are arguments. *)

From S2P Require Import Prelude Text Float Model Proto Utf8 Httpd Json.
Open Scope string_scope.
Open Scope Z_scope.
Open Scope list_scope.

Definition DEFAULT_SEVERITY : Severity := INFO.

Inductive EventError := InvalidFormat | EventRequired | EventBlank | NoData.
#[export] Instance EventError_eq_dec : EqDecision EventError.
Proof. solve_decision. Defined.

Record Metadata := mkMetadata { md_host : option string; md_source : option string; md_sourcetype : option string; md_index : option string }.
Definition no_metadata : Metadata := mkMetadata None None None None.

(** ** The query *)

(** [u8::from_str_radix(_, 16)] of two bytes: a plus sign may stand for the first. *)
Definition hex_pair (a b : byte) : option Z :=
  match hex_digit a, hex_digit b with
  | Some x, Some y => Some (16 * x + y)
  | None, Some y => if Byte.eqb a Byte.x2b then Some y else None
  | _, _ => None
  end.

Fixpoint percent_bytes (bs : bytes) : option bytes :=
  match bs with
  | [] => Some []
  | c :: r =>
      if Byte.eqb c Byte.x25 then
        match r with
        | a :: b :: t =>
            if match t with x :: _ => cont x | [] => false end then None
            else match hex_pair a b with
                 | Some v => cons (to_byte v) <$> percent_bytes t
                 | None => cons c <$> percent_bytes r
                 end
        | _ => cons c <$> percent_bytes r
        end
      else cons (if Byte.eqb c Byte.x2b then Byte.x20 else c) <$> percent_bytes r
  end.

Definition percent_decode (s : string) : option string :=
  (fun bs => string_of_list_byte (lossy bs)) <$> percent_bytes (list_byte_of_string s).

Fixpoint decode_pairs (l : list string) : option (list (string * string)) :=
  match l with
  | [] => Some []
  | kv :: rest =>
      let '(k, v) := match split_once "=" kv with Some p => p | None => (kv, "") end in
      k ← percent_decode k; v ← percent_decode v; r ← decode_pairs rest; Some ((k, v) :: r)
  end.
Definition query_pairs (query : string) : option (list (string * string)) :=
  decode_pairs (List.filter non_empty (split_char "&" query)).

Definition set_meta (m : Metadata) (kv : string * string) : Metadata :=
  let '(k, v) := kv in
  if String.eqb k "host" then mkMetadata (Some v) (md_source m) (md_sourcetype m) (md_index m)
  else if String.eqb k "source" then mkMetadata (md_host m) (Some v) (md_sourcetype m) (md_index m)
  else if String.eqb k "sourcetype" then mkMetadata (md_host m) (md_source m) (Some v) (md_index m)
  else if String.eqb k "index" then mkMetadata (md_host m) (md_source m) (md_sourcetype m) (Some v)
  else m.
Definition from_query (query : string) : option Metadata := foldl set_meta no_metadata <$> query_pairs query.

(** ** A record *)

Definition set_attrs (l : list Attr) (r : LogRecord) : LogRecord :=
  mkRecord (event_id r) (timestamp_unix_nano r) (observed_unix_nano r) (severity r) (severity_text r) (body r) (service r) (trace_id r) (span_id r) l (template_id r).
Definition set_service (s : option string) (r : LogRecord) : LogRecord :=
  mkRecord (event_id r) (timestamp_unix_nano r) (observed_unix_nano r) (severity r) (severity_text r) (body r) s (trace_id r) (span_id r) (attributes r) (template_id r).
Definition set_observed (t : Z) (r : LogRecord) : LogRecord :=
  mkRecord (event_id r) (timestamp_unix_nano r) t (severity r) (severity_text r) (body r) (service r) (trace_id r) (span_id r) (attributes r) (template_id r).
Definition set_level (s : Severity) (t : option string) (r : LogRecord) : LogRecord :=
  mkRecord (event_id r) (timestamp_unix_nano r) (observed_unix_nano r) s t (body r) (service r) (trace_id r) (span_id r) (attributes r) (template_id r).

Fixpoint put_attr (key : string) (v : AttrValue) (l : list Attr) : list Attr :=
  match l with
  | [] => [mkAttr key v]
  | a :: r => if String.eqb (attr_key a) key then mkAttr (attr_key a) v :: r else a :: put_attr key v r
  end.
Definition set_attr (key : string) (v : AttrValue) (r : LogRecord) : LogRecord := set_attrs (put_attr key v (attributes r)) r.
Definition set_str (key : string) (v : option string) (r : LogRecord) : LogRecord :=
  match v with Some v => set_attr key (AStr v) r | None => r end.

Definition apply_metadata (m : Metadata) (r : LogRecord) : LogRecord :=
  let r := set_str "index" (md_index m) (set_str "sourcetype" (md_sourcetype m) (set_str "source" (md_source m) (set_str "host" (md_host m) r))) in
  match md_sourcetype m with Some s => set_service (Some s) r | None => r end.

Definition LEVEL_KEYS : list string := ["severity"; "level"; "log_level"; "loglevel"].
Definition LEVEL_SCAN_TOKENS : nat := 12.
Definition META_KEYS : list string := ["host"; "source"; "sourcetype"; "index"].

(** [1.0e11], [1.0e6], [1.0e9]. *)
Definition MILLIS_THRESHOLD : f64 := f64_of_Z 100000000000.
Definition hec_time_to_nanos (value : Json) : option Z :=
  seconds ← match value with
            | JInt _ | JFloat _ => as_f64 value
            | JStr s => parse_f64 (trim s)
            | _ => None
            end;
  if f64_le seconds f64_zero then None
  else Some (f64_as_u64 (if f64_ge seconds MILLIS_THRESHOLD then f64_mul seconds (f64_of_Z 1000000) else f64_mul seconds (f64_of_Z 1000000000))).

(** The characters of a text, each with its bytes. *)
Fixpoint char_list (bs : bytes) : list bytes :=
  match bs with
  | [] => []
  | a :: t1 =>
      if byte_val a <? 128 then [a] :: char_list t1
      else match t1 with
      | [] => [bs]
      | b :: t2 =>
          if byte_val a <? 224 then [a; b] :: char_list t2
          else match t2 with
          | [] => [bs]
          | c :: t3 =>
              if byte_val a <? 240 then [a; b; c] :: char_list t3
              else match t3 with [] => [bs] | d :: t4 => [a; b; c; d] :: char_list t4 end
          end
      end
  end.

Fixpoint drop_while {A} (p : A -> bool) (l : list A) : list A :=
  match l with [] => [] | x :: r => if p x then drop_while p r else l end.
Fixpoint take_while {A} (p : A -> bool) (l : list A) : list A :=
  match l with [] => [] | x :: r => if p x then x :: take_while p r else [] end.
Fixpoint find_map {A B} (f : A -> option B) (l : list A) : option B :=
  match l with [] => None | x :: r => match f x with Some y => Some y | None => find_map f r end end.

(** A key, then an equals sign. *)
Definition is_key_value (token : string) : bool :=
  match split_once "=" token with Some (k, _) => non_empty k | None => false end.

Section Events.
Context (alnum_beyond : Z -> bool) (json_text : Json -> string) (json_stream : bytes -> list (option Json)) (fresh : nat -> bytes).

Definition is_alphanumeric (c : bytes) : bool :=
  match scalars c with
  | [v] => if v <? 128 then ((48 <=? v) && (v <=? 57)) || ((65 <=? v) && (v <=? 90)) || ((97 <=? v) && (v <=? 122)) else alnum_beyond v
  | _ => false
  end.

(** [trim_matches] of what is not alphanumeric. *)
Definition trim_punctuation (token : string) : string :=
  let drop_ := drop_while (fun c => negb (is_alphanumeric c)) in
  string_of_list_byte (concat (rev (drop_ (rev (drop_ (char_list (list_byte_of_string token))))))).

Definition severity_in_line (line : string) : option Severity :=
  find_map (fun token => from_text (trim_punctuation token))
    (take_while (fun token => negb (is_key_value token)) (firstn LEVEL_SCAN_TOKENS (split_whitespace line))).
Definition severity_of_line (line : string) : Severity := default DEFAULT_SEVERITY (severity_in_line line).

Definition json_to_attr (value : Json) : AttrValue :=
  match value with
  | JStr s => AStr s
  | JBool b => ABool b
  | JInt z => if (i64_min <=? z) && (z <=? i64_max) then AI64 z else AF64 (f64_of_Z z)
  | JFloat f => AF64 f
  | other => AStr (json_text other)
  end.

(** The text of a level in an attribute, or in a field of a structured event. *)
Definition attr_level (r : LogRecord) (key : string) : option string :=
  a ← List.find (fun a => same_name (attr_key a) key) (attributes r);
  match attr_value a with AStr v => if from_text v then Some v else None | _ => None end.
Definition field_level (event : list (string * Json)) (key : string) : option string :=
  match field key event with Some (JStr v) => if from_text v then Some v else None | _ => None end.

Definition infer_severity (object : list (string * Json)) (r : LogRecord) : option Severity :=
  match find_map (attr_level r) LEVEL_KEYS with
  | Some v => from_text v
  | None =>
      match field "event" object with
      | Some (JObj event) => find_map (field_level event) LEVEL_KEYS ≫= from_text
      | Some (JStr _) => severity_in_line (body r)
      | _ => None
      end
  end.

Definition level_text (object : list (string * Json)) (r : LogRecord) : option string :=
  match find_map (attr_level r) LEVEL_KEYS with
  | Some v => Some v
  | None => match field "event" object with Some (JObj event) => find_map (field_level event) LEVEL_KEYS | _ => None end
  end.

(** The event's own host, source, sourcetype and index. *)
Definition event_meta (object : list (string * Json)) (r : LogRecord) (key : string) : LogRecord :=
  match field key object with
  | Some (JStr v) =>
      let r := set_attr key (AStr v) r in
      if String.eqb key "sourcetype" then set_service (Some v) r else r
  | _ => r
  end.

Definition record_from_object (id : bytes) (object : list (string * Json)) (defaults : Metadata) (now : Z) : EventError + LogRecord :=
  match field "event" object with
  | None => inl EventRequired
  | Some event =>
      let text := match event with
                  | JStr s => if String.eqb s "" then None else Some s
                  | JNull => None
                  | other => Some (json_text other)
                  end in
      match text with
      | None => inl EventBlank
      | Some text =>
          let timestamp := default now (field "time" object ≫= hec_time_to_nanos) in
          let r := set_observed now (new_record id timestamp DEFAULT_SEVERITY text) in
          let r := foldl (event_meta object) (apply_metadata defaults r) META_KEYS in
          let r := match field "fields" object with
                   | Some (JObj fields) => foldl (fun r kv => set_attr (fst kv) (json_to_attr (snd kv)) r) r fields
                   | _ => r
                   end in
          let r := set_level (default DEFAULT_SEVERITY (infer_severity object r)) (severity_text r) r in
          inr (set_level (severity r) (level_text object r) r)
      end
  end.

Fixpoint parse_objects (n : nat) (values : list (option Json)) (defaults : Metadata) (now : Z) : EventError + list LogRecord :=
  match values with
  | [] => inr []
  | Some (JObj object) :: rest =>
      match record_from_object (fresh n) object defaults now with
      | inl e => inl e
      | inr r => match parse_objects (S n) rest defaults now with inl e => inl e | inr rs => inr (r :: rs) end
      end
  | _ => inl InvalidFormat
  end.

(** [u8::is_ascii_whitespace]. *)
Definition ascii_space (b : byte) : bool := existsb (Z.eqb (byte_val b)) [32; 9; 10; 12; 13].

Definition parse_event_body (bs : bytes) (defaults : Metadata) (now : Z) : EventError + list LogRecord :=
  if forallb ascii_space bs then inl NoData
  else match parse_objects 0 (json_stream bs) defaults now with
       | inl e => inl e
       | inr [] => inl NoData
       | inr records => inr records
       end.

Definition raw_record (id : bytes) (defaults : Metadata) (now : Z) (line : string) : LogRecord :=
  apply_metadata defaults (new_record id now (severity_of_line line) line).

Definition parse_raw_body (bs : bytes) (defaults : Metadata) (now : Z) : EventError + list LogRecord :=
  let lines := List.filter (fun line => negb (String.eqb (trim line) "")) (str_lines (string_of_list_byte (lossy bs))) in
  match imap (fun n line => raw_record (fresh n) defaults now line) lines with
  | [] => inl NoData
  | records => inr records
  end.
End Events.
