(* ===== verification/HecEventFacts.v ===== *)
(** HEC payloads: what is encoded into a query is read from it, a query can end the
    process, and an event becomes one record whose attributes are named once, the
    event's own before the request's. *)

From S2P Require Import Prelude Text Lists Float Model Proto Utf8 Httpd Json HecEvent.
Open Scope string_scope.
Open Scope Z_scope.
Open Scope list_scope.

(** ** The query *)

Definition unreserved (b : byte) : bool :=
  let v := byte_val b in
  ((48 <=? v) && (v <=? 57)) || ((65 <=? v) && (v <=? 90)) || ((97 <=? v) && (v <=? 122)) || existsb (Z.eqb v) [45; 46; 95; 126].

Definition hex_upper (d : Z) : byte := to_byte (if d <? 10 then 48 + d else 55 + d).

(** What a client writes for a byte. *)
Definition enc_byte (b : byte) : bytes :=
  if unreserved b then [b] else [Byte.x25; hex_upper (byte_val b / 16); hex_upper (byte_val b mod 16)].
Definition enc_bytes (bs : bytes) : bytes := concat (List.map enc_byte bs).
Definition percent_encode (s : string) : string := string_of_list_byte (enc_bytes (list_byte_of_string s)).

Lemma hex_pair_upper b : hex_pair (hex_upper (byte_val b / 16)) (hex_upper (byte_val b mod 16)) = Some (byte_val b).
Proof. by destruct b. Qed.

Lemma unreserved_plain b : unreserved b = true -> Byte.eqb b Byte.x25 = false /\ Byte.eqb b Byte.x2b = false.
Proof. by destruct b. Qed.

Lemma enc_head bs : match enc_bytes bs with x :: _ => cont x | [] => false end = false.
Proof.
  destruct bs as [|b bs]; [done|]. unfold enc_bytes. cbn [List.map concat]. unfold enc_byte.
  destruct (unreserved b) eqn:E; cbn [app]; [|done]. revert E. by destruct b.
Qed.

Lemma percent_bytes_enc bs : percent_bytes (enc_bytes bs) = Some bs.
Proof.
  induction bs as [|b bs IH]; [done|]. unfold enc_bytes. cbn [List.map concat]. fold (enc_bytes bs). unfold enc_byte.
  destruct (unreserved b) eqn:E; cbn [app percent_bytes].
  - destruct (unreserved_plain b E) as [-> ->]. by rewrite IH.
  - rewrite enc_head, hex_pair_upper. cbn [Byte.eqb]. by rewrite IH, to_byte_val.
Qed.

Lemma percent_roundtrip s : utf8 (list_byte_of_string s) = true -> percent_decode (percent_encode s) = Some s.
Proof.
  intros Hu. unfold percent_decode, percent_encode. rewrite list_byte_of_string_of_list_byte, percent_bytes_enc. cbn [fmap option_fmap option_map].
  by rewrite lossy_utf8, string_of_list_byte_of_string.
Qed.

Definition encode_query (kvs : list (string * string)) : string :=
  str_join "&" (List.map (fun kv => String.append (percent_encode (fst kv)) (String "=" (percent_encode (snd kv)))) kvs).

Lemma enc_no (c : ascii) s : unreserved (byte_of_ascii c) = false -> Ascii.eqb c "%" = false -> is_alnum c = false ->
  str_all (fun x => negb (Ascii.eqb c x)) (percent_encode s) = true.
Proof.
  intros Hc Hp Ha. unfold percent_encode. induction (list_byte_of_string s) as [|b bs IH]; [done|].
  assert (Hb : forall x, In x (enc_byte b) -> negb (Ascii.eqb c (ascii_of_byte x)) = true).
  { intros x Hx. apply negb_true_iff, Ascii.eqb_neq. intros ->. revert Hx. unfold enc_byte. rewrite byte_of_ascii_of_byte in Hc.
    destruct (unreserved b) eqn:E; [intros [->|[]]; congruence|]. intros [<-|[<-|[<-|[]]]]; [done| |]; revert Ha; clear; by destruct b. }
  unfold enc_bytes. cbn [List.map concat]. fold (enc_bytes bs). revert Hb. generalize (enc_byte b) as l. intros l Hb.
  induction l as [|x l IHl]; [exact IH|]. cbn [app string_of_list_byte]. 
  cbn. rewrite (Hb x (or_introl eq_refl) : negb _ = true). cbn [andb]. apply IHl. intros y Hy. apply Hb. by right.
Qed.

Lemma split_join_char (c : ascii) l : l <> [] -> Forall (fun s => str_all (fun x => negb (Ascii.eqb c x)) s = true) l ->
  split_char c (str_join (String c "") l) = l.
Proof.
  intros Hl. induction 1 as [|s l Hs Hall IH]; [done|]. destruct l as [|t l]; [by apply split_on_none|].
  change (str_join (String c "") (s :: t :: l)) with (String.append s (String c (str_join (String c "") (t :: l)))).
  unfold split_char. rewrite split_on_app; [|done|by apply Ascii.eqb_eq]. f_equal. by apply IH.
Qed.

Lemma no_flip (c : ascii) s : str_all (fun x => negb (Ascii.eqb c x)) s = true -> str_all (fun x => negb (Ascii.eqb x c)) s = true.
Proof. apply str_all_impl. intros x. by rewrite Ascii.eqb_sym. Qed.

(** Whatever bytes of UTF-8 the names and values are made of, separators, percent
    and plus signs included, a query that encodes them is read back as they were. *)
Theorem query_roundtrip (kvs : list (string * string)) :
  Forall (fun kv => utf8 (list_byte_of_string (fst kv)) = true /\ utf8 (list_byte_of_string (snd kv)) = true) kvs ->
  query_pairs (encode_query kvs) = Some kvs.
Proof.
  intros Hu. unfold query_pairs, encode_query. set (f := fun kv : string * string => _).
  assert (Hf : List.filter non_empty (split_char "&" (str_join "&" (List.map f kvs))) = List.map f kvs).
  { destruct kvs as [|kv0 kvs]; [done|]. rewrite split_join_char; [|done|].
    - clear. induction (kv0 :: kvs) as [|kv l IH]; [done|]. cbn [List.map List.filter]. rewrite IH.
      unfold f at 1, non_empty. by destruct (percent_encode (fst kv)).
    - apply List.Forall_forall. intros s (kv & <- & _)%in_map_iff. unfold f. rewrite str_all_app. cbn [str_all].
      by rewrite !enc_no. }
  rewrite Hf. clear Hf. induction Hu as [|[k v] kvs [Hk Hv] _ IH]; [done|]. cbn [List.map decode_pairs]. unfold f at 1. cbn [fst snd] in *.
  rewrite split_once_app by (apply no_flip; by rewrite enc_no). rewrite !percent_roundtrip by done. cbn [mbind option_bind]. by rewrite IH.
Qed.

Lemma query_roundtrip_witness :
  Forall (fun kv => utf8 (list_byte_of_string (fst kv)) = true /\ utf8 (list_byte_of_string (snd kv)) = true) [("host", "a&b=c d%2+"); ("sourcetype", "")] /\
  query_pairs (encode_query [("host", "a&b=c d%2+"); ("sourcetype", "")]) = Some [("host", "a&b=c d%2+"); ("sourcetype", "")].
Proof.
  assert (H : Forall (fun kv => utf8 (list_byte_of_string (fst kv)) = true /\ utf8 (list_byte_of_string (snd kv)) = true)
    [("host", "a&b=c d%2+"); ("sourcetype", "")]) by (repeat constructor).
  split; [exact H|exact (query_roundtrip _ H)].
Defined.

(** A query of ASCII never panics. *)
Lemma ascii_query_returns bs : Forall (fun b => byte_val b < 128) bs -> percent_bytes bs <> None.
Proof.
  intros Ha. assert (H : forall n bs, (List.length bs < n)%nat -> Forall (fun b => byte_val b < 128) bs -> exists r, percent_bytes bs = Some r).
  { clear. induction n as [|n IH]; intros bs Hl Ha; [lia|]. destruct bs as [|c r]; [by eexists|]. apply Forall_cons in Ha as [_ Ha]. cbn [List.length] in Hl.
    destruct (IH r ltac:(lia) Ha) as [r' Hr]. cbn [percent_bytes]. rewrite Hr. destruct (Byte.eqb c Byte.x25); [|by eexists].
    destruct r as [|a [|b t]]; try by eexists. apply Forall_cons in Ha as [_ Ha]. apply Forall_cons in Ha as [_ Ha].
    assert (match t with x :: _ => cont x | [] => false end = false) as ->.
    { destruct t as [|x t]; [done|]. apply Forall_cons in Ha as [Hx _]. revert Hx. clear. by destruct x. }
    destruct (hex_pair a b); [|by eexists]. cbn [List.length] in Hl. destruct (IH t ltac:(lia) Ha) as [t' ->]. by eexists. }
  destruct (H (S (List.length bs)) bs ltac:(lia) Ha) as [r ->]. done.
Qed.

(** A percent sign, a digit and a character of two bytes: the slice ends inside the
    character. *)
Definition aborting_query : string := String.append "token=%a" (string_of_list_byte (List.map to_byte [195; 169])).

Lemma aborting_query_panics : utf8 (list_byte_of_string aborting_query) = true /\ query_pairs aborting_query = None.
Proof. split; vm_compute; reflexivity. Qed.

(** A plus sign stands for a hexadecimal digit. *)
Lemma plus_is_a_digit : percent_decode "%+F" = Some (String (ascii_of_N 15) "").
Proof. vm_compute. reflexivity. Qed.

(** ** Times *)

(** A time that is not a number, or too small, is the epoch and not the time of receipt. *)
Theorem nan_time_is_the_epoch : hec_time_to_nanos (JStr "NaN") = Some 0 /\ hec_time_to_nanos (JFloat (f64_dec 1 300)) = Some 0.
Proof. split; vm_compute; reflexivity. Qed.

(** ** Attributes *)

Definition attr_of (key : string) (l : list Attr) : option AttrValue := attr_value <$> List.find (fun a => String.eqb (attr_key a) key) l.

Lemma put_attr_of key v l k : attr_of k (put_attr key v l) = if String.eqb key k then Some v else attr_of k l.
Proof.
  unfold attr_of. induction l as [|a l IH]; cbn [put_attr List.find attr_key]; [by destruct (String.eqb key k)|].
  destruct (String.eqb_spec (attr_key a) key) as [->|Hn]; cbn [List.find attr_key].
  - by destruct (String.eqb key k).
  - destruct (String.eqb_spec (attr_key a) k) as [<-|]; [|exact IH]. by rewrite (proj2 (String.eqb_neq key (attr_key a))) by congruence.
Qed.

Lemma put_attr_in key v x l : In x (List.map attr_key (put_attr key v l)) -> x = key \/ In x (List.map attr_key l).
Proof.
  induction l as [|a l IH]; cbn [put_attr]; [intros [<-|[]]; by left|].
  destruct (String.eqb (attr_key a) key); cbn [List.map attr_key In]; [by right|].
  intros [H|H]; [right; by left|]. destruct (IH H); [by left|right; by right].
Qed.

Lemma put_attr_keys key v l : List.NoDup (List.map attr_key l) -> List.NoDup (List.map attr_key (put_attr key v l)).
Proof.
  induction l as [|a l IH]; cbn [put_attr]; intros Hd; [constructor; [by intros []|constructor]|]. cbn [List.map] in Hd.
  inversion Hd as [|x y Hn Hd' Heq]; subst. destruct (String.eqb_spec (attr_key a) key) as [He|Hne]; cbn [List.map attr_key]; [done|].
  constructor; [|by apply IH]. intros [H|H]%put_attr_in; [congruence|done].
Qed.

(** What a step on a record adds to its attributes. *)
Definition sets (f : LogRecord -> LogRecord) (key : string) (o : option AttrValue) : Prop := forall r,
  attr_of key (attributes (f r)) = match o with Some v => Some v | None => attr_of key (attributes r) end.
Definition keeps_names (f : LogRecord -> LogRecord) : Prop := forall r,
  List.NoDup (List.map attr_key (attributes r)) -> List.NoDup (List.map attr_key (attributes (f r))).

Lemma set_str_sets name v key : sets (set_str name v) key (if String.eqb name key then AStr <$> v else None).
Proof. intros r. destruct v as [v|]; cbn [set_str]; [unfold set_attr; cbn [attributes set_attrs]; rewrite put_attr_of|]; by destruct (String.eqb name key). Qed.

Lemma set_str_names name v : keeps_names (set_str name v).
Proof. intros r Hr. destruct v as [v|]; cbn [set_str]; [by apply put_attr_keys|done]. Qed.

(** What the request says for an attribute, and what the event says. *)
Definition default_of (m : Metadata) (key : string) : option AttrValue :=
  AStr <$> (if String.eqb "index" key then md_index m else if String.eqb "sourcetype" key then md_sourcetype m
            else if String.eqb "source" key then md_source m else if String.eqb "host" key then md_host m else None).
Definition meta_of (object : list (string * Json)) (key : string) : option AttrValue :=
  if existsb (String.eqb key) META_KEYS then AStr <$> (field key object ≫= as_str) else None.
Definition last_field (key : string) (fields : list (string * Json)) : option Json :=
  foldl (fun o kv => if String.eqb (fst kv) key then Some (snd kv) else o) None fields.

Lemma apply_metadata_attrs m r : attributes (apply_metadata m r) =
  attributes (set_str "index" (md_index m) (set_str "sourcetype" (md_sourcetype m) (set_str "source" (md_source m) (set_str "host" (md_host m) r)))).
Proof. unfold apply_metadata. by destruct (md_sourcetype m). Qed.

Lemma apply_metadata_sets m key : sets (apply_metadata m) key (default_of m key).
Proof.
  intros r. rewrite apply_metadata_attrs, !set_str_sets. unfold default_of.
  destruct (String.eqb_spec "index" key) as [<-|]; [by destruct (md_index m)|].
  destruct (String.eqb_spec "sourcetype" key) as [<-|]; [by destruct (md_sourcetype m)|].
  destruct (String.eqb_spec "source" key) as [<-|]; [by destruct (md_source m)|].
  destruct (String.eqb_spec "host" key) as [<-|]; [by destruct (md_host m)|done].
Qed.

Lemma apply_metadata_names m : keeps_names (apply_metadata m).
Proof. intros r Hr. rewrite apply_metadata_attrs. by repeat apply set_str_names. Qed.

Lemma event_meta_attrs object r k : attributes (event_meta object r k) = attributes (set_str k (field k object ≫= as_str) r).
Proof. unfold event_meta. destruct (field k object) as [[]|]; try done. cbn. by destruct (String.eqb k "sourcetype"). Qed.

Lemma event_meta_sets object key ks : sets (fun r => foldl (event_meta object) r ks) key
  (if existsb (String.eqb key) ks then AStr <$> (field key object ≫= as_str) else None).
Proof.
  induction ks as [|k ks IH]; intros r; [done|]. cbn [foldl existsb]. rewrite IH, event_meta_attrs, set_str_sets.
  rewrite (String.eqb_sym key k). destruct (String.eqb_spec k key) as [->|]; cbn [orb]; [|done].
  by destruct (existsb _ ks), (field key object ≫= as_str).
Qed.

Lemma event_meta_names object ks : keeps_names (fun r => foldl (event_meta object) r ks).
Proof. induction ks as [|k ks IH]; intros r Hr; [done|]. cbn [foldl]. apply IH. rewrite event_meta_attrs. by apply set_str_names. Qed.

Definition set_field (json_text : Json -> string) (r : LogRecord) (kv : string * Json) : LogRecord := set_attr (fst kv) (json_to_attr json_text (snd kv)) r.

Lemma fields_set json_text key fields : forall r o,
  attr_of key (attributes r) = o ->
  attr_of key (attributes (foldl (set_field json_text) r fields)) =
  match last_field key fields with Some v => Some (json_to_attr json_text v) | None => o end.
Proof.
  unfold last_field. intros r o Ho.
  assert (H : forall f r acc, attr_of key (attributes r) = match acc with Some v => Some (json_to_attr json_text v) | None => o end ->
    attr_of key (attributes (foldl (set_field json_text) r f)) =
    match foldl (fun o kv => if String.eqb (fst kv) key then Some (snd kv) else o) acc f with Some v => Some (json_to_attr json_text v) | None => o end).
  { clear. induction f as [|[k v] f IH]; intros r acc H; [done|]. cbn [foldl fst snd]. apply IH. unfold set_field, set_attr. cbn [attributes set_attrs fst snd].
    rewrite put_attr_of. by destruct (String.eqb k key). }
  by apply (H fields r None).
Qed.

Lemma fields_names json_text fields : keeps_names (fun r => foldl (set_field json_text) r fields).
Proof. induction fields as [|kv f IH]; intros r Hr; [done|]. cbn [foldl]. apply IH. by apply put_attr_keys. Qed.

(** The rest of a record, which the attributes leave alone. *)
Definition rest_of (r : LogRecord) : bytes * Z * Z * string := (event_id r, timestamp_unix_nano r, observed_unix_nano r, body r).

Lemma rest_foldl {X} (f : LogRecord -> X -> LogRecord) l : (forall r x, rest_of (f r x) = rest_of r) -> forall r, rest_of (foldl f r l) = rest_of r.
Proof. intros Hf. induction l as [|x l IH]; intros r; [done|]. cbn [foldl]. by rewrite IH. Qed.

Lemma rest_meta m r : rest_of (apply_metadata m r) = rest_of r.
Proof. destruct m as [[h|] [s|] [t|] [i|]]; done. Qed.

Lemma rest_event object r k : rest_of (event_meta object r k) = rest_of r.
Proof. unfold event_meta. destruct (field k object) as [[]|]; try done. by destruct (String.eqb k "sourcetype"). Qed.

(** An event's attributes are named once; an indexed field has its last value,
    before the event's own host, source, sourcetype and index, before the request's.
    The body is the event's text, the observed time is now, and so is the time of an
    event that has none. *)
Theorem event_attributes alnum_beyond (json_text : Json -> string) (id : bytes) (object : list (string * Json)) (defaults : Metadata) (now : Z) (r : LogRecord) :
  record_from_object alnum_beyond json_text id object defaults now = inr r ->
  List.NoDup (List.map attr_key (attributes r)) /\
  (forall key, attr_of key (attributes r) =
     match (field "fields" object ≫= as_object) ≫= last_field key with
     | Some v => Some (json_to_attr json_text v)
     | None => match meta_of object key with Some v => Some v | None => default_of defaults key end
     end) /\
  (exists event, field "event" object = Some event /\
     rest_of r = (id, default now (field "time" object ≫= hec_time_to_nanos), now, match event with JStr s => s | other => json_text other end)).
Proof.
  unfold record_from_object. destruct (field "event" object) as [event|]; [|done].
  set (text := match event with JStr _ => _ | _ => _ end).
  assert (Ht : forall t, text = Some t -> t = match event with JStr s => s | other => json_text other end).
  { intros t. unfold text. destruct event; try done; try (by intros [= <-]). by destruct (String.eqb s ""); [|intros [= <-]]. }
  destruct text as [t|]; [|done]. rewrite (Ht t eq_refl). clear t Ht.
  set (r0 := set_observed now _). set (r1 := foldl (event_meta object) (apply_metadata defaults r0) META_KEYS).
  set (r2 := match field "fields" object with Some (JObj fields) => _ | _ => _ end). intros [= <-].
  cbn [set_level attributes]. change (rest_of (set_level _ _ _)) with (rest_of r2).
  assert (H1 : rest_of r1 = rest_of r0) by (unfold r1; rewrite rest_foldl by apply rest_event; apply rest_meta).
  assert (Hn1 : List.NoDup (List.map attr_key (attributes r1))) by (apply event_meta_names, apply_metadata_names; constructor).
  assert (Ha1 : forall key, attr_of key (attributes r1) = match meta_of object key with Some v => Some v | None => default_of defaults key end).
  { intros key. unfold r1. rewrite event_meta_sets, apply_metadata_sets. unfold meta_of. by destruct (default_of defaults key). }
  assert (H2 : r2 = match field "fields" object ≫= as_object with Some fields => foldl (set_field json_text) r1 fields | None => r1 end)
    by (unfold r2; by destruct (field "fields" object) as [[]|]).
  clearbody r1 r2. subst r2. destruct (field "fields" object ≫= as_object) as [fields|]; cbn [mbind option_bind].
  - split; [by apply fields_names|]. split; [intros key; by rewrite (fields_set json_text key fields r1 _ (Ha1 key))|].
    exists event. split; [done|]. rewrite rest_foldl by done. by rewrite H1.
  - split; [done|]. split; [done|]. exists event. split; [done|]. by rewrite H1.
Qed.

(** Every line that is not blank is one record, in order; its time is the time of receipt. *)
Theorem raw_lines_are_records alnum_beyond (fresh : nat -> bytes) (bs : bytes) (defaults : Metadata) (now : Z) (rs : list LogRecord) :
  parse_raw_body alnum_beyond fresh bs defaults now = inr rs ->
  List.map body rs = List.filter (fun line => negb (String.eqb (trim line) "")) (str_lines (string_of_list_byte (lossy bs))) /\
  Forall (fun r => timestamp_unix_nano r = now /\ observed_unix_nano r = now) rs.
Proof.
  unfold parse_raw_body. set (lines := List.filter _ _). set (f := fun n line => raw_record alnum_beyond (fresh n) defaults now line).
  assert (Hf : forall n l, body (f n l) = l /\ timestamp_unix_nano (f n l) = now /\ observed_unix_nano (f n l) = now).
  { intros n l. pose proof (rest_meta defaults (new_record (fresh n) now (severity_of_line alnum_beyond l) l)) as H.
    unfold f, raw_record. by injection H as _ -> -> ->. }
  assert (H : List.map body (imap f lines) = lines /\ Forall (fun r => timestamp_unix_nano r = now /\ observed_unix_nano r = now) (imap f lines)).
  { clearbody f. revert f Hf. induction lines as [|l ls IH]; intros f Hf; [by split|]. cbn [imap List.map].
    destruct (IH (f ∘ S)) as [H1 H2]; [intros n k; apply Hf|]. split; [by rewrite H1; f_equal; apply Hf|]. constructor; [apply Hf|done]. }
  destruct (imap f lines); [done|]. by intros [= <-].
Qed.

(** ** An event *)

Definition an_event : list (string * Json) :=
  [("event", JStr "2015-07-29 17:41:41,648 - ERROR - boom"); ("fields", JObj [("level", JStr "debug"); ("host", JStr "h3")]); ("host", JStr "h2"); ("sourcetype", JStr "pay")].
Definition a_query : Metadata := mkMetadata (Some "h1") (Some "file") None (Some "main").
Definition an_id : bytes := repeat Byte.x01 16.
Definition the_record : LogRecord :=
  mkRecord an_id 7 7 DEBUG (Some "debug") "2015-07-29 17:41:41,648 - ERROR - boom" (Some "pay") None None
    [mkAttr "host" (AStr "h3"); mkAttr "source" (AStr "file"); mkAttr "index" (AStr "main"); mkAttr "sourcetype" (AStr "pay"); mkAttr "level" (AStr "debug")] None.

Lemma event_attributes_witness :
  record_from_object (fun _ => false) (fun _ => "") an_id an_event a_query 7 = inr the_record /\
  attr_of "host" (attributes the_record) = Some (AStr "h3").
Proof.
  assert (E : record_from_object (fun _ => false) (fun _ => "") an_id an_event a_query 7 = inr the_record) by (vm_compute; reflexivity).
  split; [exact E|]. rewrite (proj1 (proj2 (event_attributes (fun _ => false) (fun _ => "") an_id an_event a_query 7 the_record E)) "host"). reflexivity.
Defined.
