(* ===== verification/Hec.v ===== *)
(** The Splunk HEC receiver ([crates/logless-core/src/hec.rs]): who a request is
    from, its channel, ingesting a batch, polling acknowledgements, what is refused
    from the head, and the counters.

    A handler's early return is a reply; a panic, which ends the process, is no
    reply.  The clocks, a key set fetched meanwhile, fresh record ids and what the
    pipeline answers for a batch are the environment of a request. *)

From S2P Require Import Prelude Text Float Model Tenancy Jwt Auth Admin HecAck Proto Utf8 Httpd Json HecEvent.
Open Scope string_scope.
Open Scope Z_scope.
Open Scope list_scope.

(** ** Codes and configuration *)

Definition SUCCESS : Z := 0.
Definition TOKEN_REQUIRED : Z := 2.
Definition INVALID_AUTHORIZATION : Z := 3.
Definition INVALID_TOKEN : Z := 4.
Definition NO_DATA : Z := 5.
Definition INVALID_DATA_FORMAT : Z := 6.
Definition INCORRECT_INDEX : Z := 7.
Definition SERVER_BUSY : Z := 9.
Definition DATA_CHANNEL_MISSING : Z := 10.
Definition INVALID_DATA_CHANNEL : Z := 11.
Definition EVENT_FIELD_REQUIRED : Z := 12.
Definition EVENT_FIELD_BLANK : Z := 13.
Definition ACK_DISABLED : Z := 14.
Definition HEALTHY : Z := 17.

Record HecConfig := mkHecConfig {
  hc_enabled : bool; hc_addr : string; hc_workers : Z; hc_tokens : list string; hc_require_auth : bool; ack_enabled : bool;
  hc_max_body : Z; hc_max_decompressed : Z }.

Inductive Admitted_ := Accepted | Busy | IncorrectIndex.

(** [HecStats], all [u64]. *)
Record HecStats := mkHecStats {
  n_requests : Z; n_records : Z; n_accepted : Z; n_busy : Z; n_unauthorized : Z; n_bad_request : Z; n_too_large : Z; n_ack_queries : Z }.
Definition no_hec_stats : HecStats := mkHecStats 0 0 0 0 0 0 0 0.

Inductive Counter := CRequests | CRecords | CAccepted | CBusy | CUnauthorized | CBadRequest | CTooLarge | CAckQueries.
#[export] Instance Counter_eq_dec : EqDecision Counter.
Proof. solve_decision. Defined.

(** [fetch_add]. *)
Definition add_to (c : Counter) (n : Z) (s : HecStats) : HecStats :=
  let up d v := if bool_decide (c = d) then wadd64 v n else v in
  mkHecStats (up CRequests (n_requests s)) (up CRecords (n_records s)) (up CAccepted (n_accepted s)) (up CBusy (n_busy s))
    (up CUnauthorized (n_unauthorized s)) (up CBadRequest (n_bad_request s)) (up CTooLarge (n_too_large s)) (up CAckQueries (n_ack_queries s)).

Definition accounts_for_everything (s : HecStats) : bool :=
  n_requests s =? wrap64 (n_accepted s + n_busy s + n_unauthorized s + n_bad_request s + n_too_large s).

Record Batch := mkBatch { bt_seq : Z; bt_records : list LogRecord }.

(** The handler's cells, with every batch the pipeline was offered. *)
Record HecState := mkHecState { hec_stats : HecStats; hec_acks : AckTable; hec_auth : Verifier; offered : list (Batch * Admitted_) }.

Definition on_stats (f : HecStats -> HecStats) (s : HecState) : HecState := mkHecState (f (hec_stats s)) (hec_acks s) (hec_auth s) (offered s).
Definition on_acks (t : AckTable) (s : HecState) : HecState := mkHecState (hec_stats s) t (hec_auth s) (offered s).
Definition on_auth (v : Verifier) (s : HecState) : HecState := mkHecState (hec_stats s) (hec_acks s) v (offered s).
Definition on_offer (b : Batch * Admitted_) (s : HecState) : HecState := mkHecState (hec_stats s) (hec_acks s) (hec_auth s) (offered s ++ [b]).

(** What ends a handler: a reply, or a panic. *)
Inductive Exit := Answer (r : Reply) | Abort_.
Definition M : Type -> Type := SE HecState Exit.

Definition bump (c : Counter) : M unit := modify (on_stats (add_to c 1)).
Definition bump_by (c : Counter) (n : Z) : M unit := modify (on_stats (add_to c n)).
Definition or_abort {A} (o : option A) : M A := match o with Some a => mret a | None => fail Abort_ end.

Definition hec_reply (status code : Z) (text : string) : Reply :=
  json_reply status (quoted (concat_str ["{`text`:`"; text; "`,`code`:"; show_Z code; "}"])).
Definition answer {A} (status code : Z) (text : string) : M A := fail (Answer (hec_reply status code text)).
Definition refuse_with {A} (c : Counter) (status code : Z) (text : string) : M A := _ ← bump c; answer status code text.

Definition server_busy : Reply := with_header "Retry-After" "1" (hec_reply 503 SERVER_BUSY "Server is busy").

Definition loopback_host (r : Incoming) : bool := (header_count "host" r =? 1)%nat && host_allowed (header "host" r) [].

(** ** The handler *)

Record Env := mkEnv {
  now_nanos : Z; now_secs : Z; fetched : string + Fetched; saved : bool; fresh_ids : nat -> bytes; sink : Batch -> Admitted_ }.

Section Handler_.
Context (sha256 : bytes -> bytes) (from_slice : bytes -> option Json) (ed25519 : bytes -> bytes -> bytes -> bool).
Context (alnum_beyond : Z -> bool) (json_text : Json -> string) (json_stream : bytes -> list (option Json)).
Context (config : HecConfig) (open_ : bool) (env : Env).

Definition check_token (token : option string) : M Principal :=
  v ← gets hec_auth;
  let '(who, v) := authorize sha256 from_slice ed25519 AtHec OpIngest (negb open_) token (now_secs env) (fetched env) (saved env) v in
  _ ← modify (on_auth v);
  match who with
  | inr p => mret p
  | inl _ => refuse_with CUnauthorized 403 INVALID_TOKEN "Invalid token"
  end.

Definition splunk_token (header_ : string) : option string :=
  trim <$> match strip_prefix "Splunk " header_ with Some t => Some t | None => strip_prefix "splunk " header_ end.

Definition query_tokens (r : Incoming) : M (list string) :=
  kvs ← or_abort (query_pairs (Httpd.query r));
  mret (List.map snd (List.filter (fun kv => String.eqb (fst kv) "token") kvs)).

Definition authorized (r : Incoming) : M Principal :=
  let header_ := trim (default "" (header "authorization" r)) in
  from_query ← (if String.eqb header_ "" then query_tokens r else mret []);
  if open_ then
    let one := (header_count "authorization" r <=? 1)%nat in
    check_token (match (if one then splunk_token header_ else None) with
                 | Some t => Some t
                 | None => match from_query with [t] => Some t | _ => None end
                 end)
  else if (1 <? header_count "authorization" r)%nat then refuse_with CUnauthorized 401 INVALID_AUTHORIZATION "Invalid authorization"
  else if String.eqb header_ "" then
    match from_query with
    | [token] => check_token (Some token)
    | [] => _ ← bump CUnauthorized;
            _ ← modify (fun s => on_auth (refuse (now_secs env) Missing (hec_auth s)) s);
            answer 401 TOKEN_REQUIRED "Token is required"
    | _ => refuse_with CUnauthorized 401 INVALID_AUTHORIZATION "Invalid authorization"
    end
  else match splunk_token header_ with
       | None => refuse_with CUnauthorized 401 INVALID_AUTHORIZATION "Invalid authorization"
       | Some token => check_token (Some token)
       end.

Definition channel (r : Incoming) : M (option string) :=
  c ← match header "x-splunk-request-channel" r with
      | Some c => mret (Some c)
      | None => kvs ← or_abort (query_pairs (Httpd.query r));
                mret (snd <$> List.find (fun kv => String.eqb (fst kv) "channel") kvs)
      end;
  mret (match c with Some c => if non_empty c then Some c else None | None => None end).

(** A failure still counts the request. *)
Definition counting_request {A} (m : M A) : M A := fun s =>
  match m s with
  | (inr a, s) => (inr a, on_stats (add_to CRequests 1) s)
  | (inl (Answer r), s) => (inl (Answer r), on_stats (add_to CRequests 1) s)
  | (inl Abort_, s) => (inl Abort_, s)
  end.

Definition event_refusal (e : EventError) : Z * string :=
  match e with
  | NoData => (NO_DATA, "No data")
  | InvalidFormat => (INVALID_DATA_FORMAT, "Invalid data format")
  | EventRequired => (EVENT_FIELD_REQUIRED, "Event field is required")
  | EventBlank => (EVENT_FIELD_BLANK, "Event field cannot be blank")
  end.

Definition ack_reply (id : Z) : Reply := json_reply 200 (quoted (concat_str ["{`text`:`Success`,`code`:0,`ackId`:"; show_Z id; "}"])).

(** The batch is offered under a sequence of its own; only what is accepted is acknowledged. *)
Definition offer (channel_ : option string) (records : list LogRecord) : M Reply :=
  t ← gets hec_acks;
  let '(seq, t) := next_batch_seq t in
  _ ← modify (on_acks t);
  let batch := mkBatch seq records in
  _ ← modify (on_offer (batch, sink env batch));
  match sink env batch with
  | Accepted =>
      _ ← bump CAccepted;
      _ ← bump_by CRecords (Z.of_nat (List.length records));
      match (if ack_enabled config then channel_ else None) with
      | Some c =>
          t ← gets hec_acks;
          let '(id, t) := HecAck.issue c seq t in
          _ ← modify (on_acks t);
          mret (ack_reply id)
      | None => mret (hec_reply 200 SUCCESS "Success")
      end
  | Busy => _ ← bump CBusy; mret server_busy
  | IncorrectIndex => _ ← bump CBadRequest; mret (hec_reply 400 INCORRECT_INDEX "Incorrect index")
  end.

Definition hec_ingest (r : Incoming) (raw : bool) : M Reply :=
  principal ← counting_request (authorized r);
  channel_ ← channel r;
  defaults ← or_abort (from_query (Httpd.query r));
  let parsed := if raw then parse_raw_body alnum_beyond (fresh_ids env) (rq_body r) defaults (now_nanos env)
                else parse_event_body alnum_beyond json_text json_stream (fresh_ids env) (rq_body r) defaults (now_nanos env) in
  match parsed with
  | inl e => let '(code, text) := event_refusal e in refuse_with CBadRequest 400 code text
  | inr records =>
      v ← gets hec_auth;
      let '(admitted, v) := admit_batch (now_secs env) principal records "index" true v in
      _ ← modify (on_auth v);
      match admitted with
      | inl IndexRefused => refuse_with CBadRequest 400 INCORRECT_INDEX "Incorrect index"
      | inl OtherTenant =>
          _ ← bump CUnauthorized;
          _ ← modify (fun s => on_auth (refuse (now_secs env) WrongTenant (hec_auth s)) s);
          answer 403 INVALID_AUTHORIZATION "Forbidden"
      | inr (_, records) =>
          t ← gets hec_acks;
          _ ← (match (if ack_enabled config then channel_ else None) with
               | Some c => if has_capacity c t then mret tt else _ ← bump CBusy; fail (Answer server_busy)
               | None => mret tt
               end : M unit);
          offer channel_ records
      end
  end.

Definition acks_body (resolved : list (Z * bool)) : string :=
  quoted (concat_str ["{`acks`:{"; str_join "," (List.map (fun a : Z * bool => concat_str ["`"; show_Z (fst a); "`:"; if snd a then "true" else "false"]) resolved); "}}"]).

Definition ack_query (r : Incoming) : M Reply :=
  _ ← authorized r;
  if negb (ack_enabled config) then answer 400 ACK_DISABLED "ACK is disabled"
  else
    c ← channel r;
    match c with
    | None => answer 400 DATA_CHANNEL_MISSING "Data channel is missing"
    | Some c =>
        _ ← bump CAckQueries;
        match from_slice (rq_body r) ≫= get "acks" with
        | Some (JArr items) =>
            t ← gets hec_acks;
            mret (json_reply 200 (acks_body (HecAck.query c (omap Json.as_u64 items) t)))
        | _ => answer 400 INVALID_DATA_FORMAT "Invalid data format"
        end
    end.

Definition event_paths : list string := ["/services/collector"; "/services/collector/event"; "/services/collector/event/1.0"].

Definition hec_route (r : Incoming) : M Reply :=
  match Httpd.method r with
  | Httpd.Get =>
      if in_words (rq_path r) ["/services/collector/health"; "/services/collector/health/1.0"] then mret (hec_reply 200 HEALTHY "HEC is healthy")
      else mret (hec_reply 405 INVALID_DATA_FORMAT "Only POST is supported")
  | Httpd.Post =>
      if String.eqb (rq_path r) "/services/collector/ack" then ack_query r
      else if String.eqb (rq_path r) "/services/collector/raw" then hec_ingest r true
      else if in_words (rq_path r) event_paths then hec_ingest r false
      else mret (hec_reply 404 INVALID_DATA_FORMAT "Not found")
  | _ => mret (hec_reply 405 INVALID_DATA_FORMAT "Only POST is supported")
  end.

(** The refusals that need only the head; [true] with the counter they take. *)
Definition hec_refusal (r : Incoming) : M (option (Reply * option Counter)) :=
  let browser := bool_decide (is_Some (header "origin" r)) || bool_decide (is_Some (header "sec-fetch-site" r)) in
  if open_ && (browser || negb (loopback_host r)) then mret (Some (hec_reply 403 INVALID_AUTHORIZATION "Forbidden", Some CUnauthorized))
  else fun s =>
    match authorized r s with
    | (inl (Answer denied), s) => (inr (Some (denied, None)), s)
    | (inl Abort_, s) => (inl Abort_, s)
    | (inr _, s) =>
        (inr (if (1 <? header_count "x-splunk-request-channel" r)%nat
              then Some (hec_reply 400 INVALID_DATA_CHANNEL "Invalid data channel", Some CBadRequest)
              else if negb (encoding_accepted r)
              then Some (hec_reply 415 INVALID_DATA_FORMAT "Content-Encoding must be gzip or absent", Some CBadRequest)
              else None), s)
    end.

Definition hec_preflight (r : Incoming) : M (option Reply) :=
  let ingest := if bool_decide (Httpd.method r = Httpd.Post) then
                  if String.eqb (rq_path r) "/services/collector/ack" then Some false
                  else if in_words (rq_path r) (event_paths ++ ["/services/collector/raw"]) then Some true else None
                else None in
  match ingest with
  | None => mret None
  | Some ingest =>
      refused ← hec_refusal r;
      match refused with
      | None => mret None
      | Some (reply, counter) =>
          _ ← (if ingest then _ ← bump CRequests; match counter with Some c => bump c | None => mret tt end else mret tt : M unit);
          mret (Some reply)
      end
  end.

Definition hec_reject (why : Reject) : M Reply :=
  _ ← bump CRequests;
  match why with
  | TooLarge => _ ← bump CTooLarge; mret (hec_reply 413 INVALID_DATA_FORMAT "Request body exceeds the configured limit")
  | Unreadable => _ ← bump CBadRequest; mret (hec_reply 400 INVALID_DATA_FORMAT "Invalid data format")
  end.

(** A method of the handler as the listener sees it. *)
Definition run {A} (f : A -> option Reply) (m : M A) (s : HecState) : option (option Reply * HecState) :=
  match m s with
  | (inr a, s) => Some (f a, s)
  | (inl (Answer r), s) => Some (Some r, s)
  | (inl Abort_, _) => None
  end.
Definition run_reply (m : M Reply) (s : HecState) : option (Reply * HecState) :=
  match m s with
  | (inr r, s) | (inl (Answer r), s) => Some (r, s)
  | (inl Abort_, _) => None
  end.

Definition HecHandler : Handler HecState := {|
  preflight := fun r => run id (hec_preflight r);
  handle := fun r => run_reply (hec_route r);
  reject := fun why => run_reply (hec_reject why) |}.
End Handler_.

(** [Receiver::start]: an empty token list is open on loopback only. *)
Definition hec_open (loopback : bool) (c : HecConfig) : bool :=
  match hc_tokens c with [] => negb (hc_require_auth c) && loopback | _ => false end.
Definition start_refused (loopback : bool) (c : HecConfig) (v : Verifier) : bool :=
  negb (hec_open loopback c) && negb (can_authenticate AtHec OpIngest v).
Definition receiver_limits (c : HecConfig) : Limits * HeadLimits := (mkLimits (hc_max_body c) (hc_max_decompressed c), ingest_limits (hc_workers c)).
