(* ===== verification/HecFacts.v ===== *)
(** The HEC receiver: its counters balance but for the polls it refuses, a request is
    answered 200 exactly when all its events were taken by the pipeline under the
    principal its credential names, a poll says of each id of its channel whether the
    batch it was given out for is on disk, and one request ends the process. *)

From S2P Require Import Prelude Text Lists Float Model Partition Tenancy Jwt Auth Admin HecAck Proto Utf8 Httpd Json HecEvent HecEventFacts Hoare Hec.
Open Scope string_scope.
Open Scope Z_scope.
Open Scope list_scope.

(** ** What the verifier keeps *)

Definition same_setup (v v' : Verifier) : Prop := tenancy v' = tenancy v /\ route_indexes v' = route_indexes v.

Lemma count_setup now p f v : same_setup v (count now p f v).
Proof. done. Qed.

Lemma authorize_setup sha256 from_slice ed25519 at_ op closed presented now fetched saved v who v' :
  authorize sha256 from_slice ed25519 at_ op closed presented now fetched saved v = (who, v') ->
  same_setup v v' /\ match who with inr p => may (p_kind p) op = true | inl _ => True end.
Proof.
  unfold authorize. set (first := match presented with Some _ => _ | None => _ end).
  assert (Hf : same_setup v (snd first)).
  { unfold first. destruct presented as [value|]; [|done]. destruct (MAX_TOKEN_LEN <? str_len value); [done|].
    unfold verify_at. destruct (static_principal _ _ _ v); [done|]. destruct (opt_filter _ (jwt v)) as [j|]; [|by destruct (_ && _)].
    destruct (jwt_verify_at _ _ _ _ _ _ j) as [[r|c] j']; [by destruct (_ && _)|]. destruct (has_tenant _ _); [done|]. by destruct (_ && _). }
  destruct first as [[r|p] v1]; cbn [snd] in Hf.
  - intros [= <- <-]. by split.
  - destruct (may (p_kind p) op) eqn:Em; intros [= <- <-]; [by split|]. split; [|done].
    destruct Hf as [H1 H2]. by split; [exact H1|exact H2].
Qed.

(** ** The accounts *)

Definition exits (s : HecStats) : Z := n_accepted s + n_busy s + n_unauthorized s + n_bad_request s + n_too_large s.
Definition gap (s : HecState) : Z := wrap64 (exits (hec_stats s) - n_requests (hec_stats s)).
Definition at_gap (g : Z) (s : HecState) : Prop := gap s = wrap64 g.

Definition weight (c : Counter) : Z := match c with CRequests => -1 | CRecords | CAckQueries => 0 | _ => 1 end.

Lemma wrap64_eq a b k : a = b + k * 2 ^ 64 -> wrap64 a = wrap64 b.
Proof. intros ->. unfold wrap64, wrap. apply Z_mod_plus_full. Qed.

Lemma wadd64_eq v n : exists k, wadd64 v n = v + n + k * 2 ^ 64.
Proof. exists (- ((v + n) / 2 ^ 64)). unfold wadd64, wrap64, wrap. rewrite Z.mod_eq by done. lia. Qed.

(** A counter moves the gap by its weight; nothing else moves it. *)
Lemma gap_bump c n s : n = 1 \/ weight c = 0 -> gap (on_stats (add_to c n) s) = wrap64 (gap s + weight c).
Proof.
  intros Hn. destruct s as [[q r a b u d t k] acks v o]. unfold gap at 2. rewrite wrap64_add_l. unfold gap, exits, on_stats, add_to.
  cbn [hec_stats n_requests n_accepted n_busy n_unauthorized n_bad_request n_too_large].
  cbv beta zeta. destruct c; cbn [weight] in *; repeat ((rewrite bool_decide_true by done) || (rewrite bool_decide_false by done));
    (destruct Hn as [->|Hn]; [|try discriminate]); try (f_equal; lia);
    match goal with |- context [wadd64 ?v 1] => destruct (wadd64_eq v 1) as [j ->] end;
    first [apply (wrap64_eq _ _ j); lia | apply (wrap64_eq _ _ (- j)); lia].
Qed.

Lemma at_gap_bump c n g s : n = 1 \/ weight c = 0 -> at_gap g s -> at_gap (g + weight c) (on_stats (add_to c n) s).
Proof. unfold at_gap. intros Hn Hg. by rewrite gap_bump, Hg, wrap64_add_l. Qed.

(** A method that moves the gap by [a] when it returns and by [b] when it answers early. *)
Definition moves {A} (a b : Z) (m : M A) : Prop := forall g,
  hoare (at_gap g) m (fun _ => at_gap (g + a)) (fun e s => match e with Answer _ => at_gap (g + b) s | Abort_ => True end).

Lemma mv_bind {A B} a c f f' (m : M A) (k : A -> M B) : moves a f m -> (forall x, moves c f' (k x)) -> f = a + f' -> moves (a + c) f (m ≫= k).
Proof.
  intros Hm Hk -> g. apply (h_bind _ _ _ _ _ _ (Hm g)). intros x s Hs. specialize (Hk x (g + a) s Hs).
  destruct (k x s) as [[[r|]|y] s']; [by rewrite Z.add_assoc|done|by rewrite Z.add_assoc].
Qed.

Lemma mv_weak {A} a b a' b' (m : M A) : moves a b m -> a = a' -> b = b' -> moves a' b' m.
Proof. by intros H <- <-. Qed.

Lemma mv_ret {A} (x : A) b : moves 0 b (mret x : M A).
Proof. intros g s Hs. cbn. by rewrite Z.add_0_r. Qed.
Lemma mv_gets {A} (f : HecState -> A) b : moves 0 b (gets f : M A).
Proof. intros g s Hs. cbn. by rewrite Z.add_0_r. Qed.
Lemma mv_modify (f : HecState -> HecState) b : (forall s, hec_stats (f s) = hec_stats s) -> moves 0 b (modify f : M unit).
Proof. intros Hf g s Hs. cbn. unfold at_gap, gap in *. rewrite Hf, Z.add_0_r. exact Hs. Qed.
Lemma mv_bump c b : moves (weight c) b (bump c).
Proof. intros g s Hs. cbn. apply at_gap_bump; [by left|done]. Qed.
Lemma mv_bump_by c n b : weight c = 0 -> moves 0 b (bump_by c n).
Proof. intros Hc g s Hs. cbn. rewrite <- Hc at 1. apply at_gap_bump; [by right|done]. Qed.
Lemma mv_answer {A} a status code text : moves a 0 (answer status code text : M A).
Proof. intros g s Hs. cbn. by rewrite Z.add_0_r. Qed.
Lemma mv_abort {A} (o : option A) b : moves 0 b (or_abort o).
Proof. intros g s Hs. destruct o; cbn; [by rewrite Z.add_0_r|done]. Qed.
Lemma mv_refuse {A} a c status code text : weight c = 1 -> moves a 1 (refuse_with c status code text : M A).
Proof.
  intros Hc g s Hs. unfold refuse_with, bump, modify, answer, fail, mbind, SE_bind. cbn beta iota.
  pose proof (at_gap_bump c 1 g s (or_introl eq_refl) Hs) as H. by rewrite Hc in H.
Qed.


Section Counting.
Context (sha256 : bytes -> bytes) (from_slice : bytes -> option Json) (ed25519 : bytes -> bytes -> bytes -> bool).
Context (alnum_beyond : Z -> bool) (json_text : Json -> string) (json_stream : bytes -> list (option Json)).
Context (config : HecConfig) (open_ : bool).

Abbreviation authorized_ := (authorized sha256 from_slice ed25519 open_).

Lemma mv_check_token o env t : moves 0 1 (check_token sha256 from_slice ed25519 o env t).
Proof.
  unfold check_token. eapply mv_weak; [eapply (mv_bind 0 0 1 1)|done|done]; [apply mv_gets| |done].
  intros v. destruct (authorize _ _ _ _ _ _ _ _ _ _ v) as [who v'].
  eapply mv_weak; [eapply (mv_bind 0 0 1 1)|done|done]; [by apply mv_modify| |done]. intros _.
  destruct who; [by apply mv_refuse|apply mv_ret].
Qed.

Lemma mv_query_tokens r b : moves 0 b (query_tokens r).
Proof. eapply mv_weak; [eapply (mv_bind 0 0 b b)|done|done]; [apply mv_abort|intros; apply mv_ret|lia]. Qed.

Lemma mv_authorized env r : moves 0 1 (authorized_ env r).
Proof.
  unfold authorized. eapply mv_weak; [eapply (mv_bind 0 0 1 1)|done|done]; [| |done].
  { destruct (String.eqb _ ""); [apply mv_query_tokens|apply mv_ret]. }
  intros q. destruct open_; [apply mv_check_token|]. destruct (1 <? _)%nat; [by apply mv_refuse|].
  destruct (String.eqb _ "").
  - destruct q as [|t [|t2 q]]; [|apply mv_check_token|by apply mv_refuse].
    eapply mv_weak; [eapply (mv_bind 1 (-1) 1 0)|done|done]; [apply (mv_bump CUnauthorized)| |done]. intros _.
    eapply mv_weak; [eapply (mv_bind 0 (-1) 0 0)|done|done]; [by apply mv_modify|intros; apply mv_answer|done].
  - destruct (splunk_token _); [apply mv_check_token|by apply mv_refuse].
Qed.

Lemma mv_counting {A} (m : M A) : moves 0 1 m -> moves (-1) 0 (counting_request m).
Proof.
  intros H g s Hs. specialize (H g s Hs). unfold counting_request. destruct (m s) as [[[r|]|a] s']; [|done|].
  - pose proof (at_gap_bump CRequests 1 _ s' (or_introl eq_refl) H) as H'. cbn [weight] in H'. by replace (g + 0) with (g + 1 + -1) by lia.
  - pose proof (at_gap_bump CRequests 1 _ s' (or_introl eq_refl) H) as H'. cbn [weight] in H'. by replace (g + -1) with (g + 0 + -1) by lia.
Qed.

Lemma mv_channel r b : moves 0 b (channel r).
Proof.
  unfold channel. eapply mv_weak; [eapply (mv_bind 0 0 b b)|done|done]; [|intros; apply mv_ret|lia].
  destruct (header _ r); [apply mv_ret|]. eapply mv_weak; [eapply (mv_bind 0 0 b b)|done|done]; [apply mv_abort|intros; apply mv_ret|lia].
Qed.

Lemma mv_offer env ch records b : moves 1 b (offer config env ch records).
Proof.
  unfold offer. eapply mv_weak; [eapply (mv_bind 0 1 b b)|done|done]; [apply mv_gets| |lia]. intros t.
  destruct (next_batch_seq t) as [seq t'].
  eapply mv_weak; [eapply (mv_bind 0 1 b b)|done|done]; [by apply mv_modify| |lia]. intros _.
  eapply mv_weak; [eapply (mv_bind 0 1 b b)|done|done]; [by apply mv_modify| |lia]. intros _.
  destruct (sink env _).
  - eapply mv_weak; [eapply (mv_bind 1 0 b (b - 1))|done|done]; [apply (mv_bump CAccepted)| |lia]. intros _.
    eapply mv_weak; [eapply (mv_bind 0 0 (b - 1) (b - 1))|done|done]; [by apply mv_bump_by| |lia]. intros _.
    destruct (if ack_enabled config then ch else None); [|apply mv_ret].
    eapply mv_weak; [eapply (mv_bind 0 0 (b - 1) (b - 1))|done|done]; [apply mv_gets| |lia]. intros t2.
    destruct (issue _ _ t2). eapply mv_weak; [eapply (mv_bind 0 0 (b - 1) (b - 1))|done|done]; [by apply mv_modify|intros; apply mv_ret|lia].
  - eapply mv_weak; [eapply (mv_bind 1 0 b (b - 1))|done|done]; [apply (mv_bump CBusy)|intros; apply mv_ret|lia].
  - eapply mv_weak; [eapply (mv_bind 1 0 b (b - 1))|done|done]; [apply (mv_bump CBadRequest)|intros; apply mv_ret|lia].
Qed.

Lemma mv_ingest env r raw : moves 0 0 (hec_ingest sha256 from_slice ed25519 alnum_beyond json_text json_stream config open_ env r raw).
Proof.
  unfold hec_ingest. eapply mv_weak; [eapply (mv_bind (-1) 1 0 1)|done|done]; [apply mv_counting, mv_authorized| |done]. intros p.
  eapply mv_weak; [eapply (mv_bind 0 1 1 1)|done|done]; [apply mv_channel| |done]. intros ch.
  eapply mv_weak; [eapply (mv_bind 0 1 1 1)|done|done]; [apply mv_abort| |done]. intros defaults. cbv zeta.
  destruct (if raw then _ else _) as [e|records]; [destruct (event_refusal e); by apply mv_refuse|].
  eapply mv_weak; [eapply (mv_bind 0 1 1 1)|done|done]; [apply mv_gets| |done]. intros v.
  destruct (admit_batch _ _ _ _ _ v) as [admitted v'].
  eapply mv_weak; [eapply (mv_bind 0 1 1 1)|done|done]; [by apply mv_modify| |done]. intros _.
  destruct admitted as [[]|[out kept]]; [|by apply mv_refuse|].
  - eapply mv_weak; [eapply (mv_bind 1 0 1 0)|done|done]; [apply (mv_bump CUnauthorized)| |done]. intros _.
    eapply mv_weak; [eapply (mv_bind 0 0 0 0)|done|done]; [by apply mv_modify|intros; apply mv_answer|done].
  - eapply mv_weak; [eapply (mv_bind 0 1 1 1)|done|done]; [apply mv_gets| |done]. intros t.
    eapply mv_weak; [eapply (mv_bind 0 1 1 1)|done|done]; [|intros; apply mv_offer|done].
    destruct (if ack_enabled config then ch else None); [|apply mv_ret]. destruct (has_capacity _ t); [apply mv_ret|].
    eapply mv_weak; [eapply (mv_bind 1 (-1) 1 0)|done|done]; [apply (mv_bump CBusy)| |done]. intros _ g st Hs. cbn. by rewrite Z.add_0_r.
Qed.

(** Whether a poll is turned away for its credential. *)
Definition denied (env : Env) (r : Incoming) (s : HecState) : Z :=
  match authorized_ env r s with (inl (Answer _), _) => 1 | _ => 0 end.

(** The state a method leaves, by what it exits with. *)
Definition left_at {A} (g : Z) (out : (Exit + A) * HecState) : Prop :=
  match out with (inl Abort_, _) => True | (_, s) => at_gap g s end.

Lemma moves_left {A} a (m : M A) g s : moves a a m -> at_gap g s -> left_at (g + a) (m s).
Proof. intros Hm Hs. specialize (Hm g s Hs). unfold left_at. by destruct (m s) as [[[]|] s']. Qed.

Lemma poll_left env r g s : at_gap g s -> left_at (g + denied env r s) (ack_query sha256 from_slice ed25519 config open_ env r s).
Proof.
  intros Hs. unfold ack_query, denied, mbind at 1, SE_bind at 1. pose proof (mv_authorized env r g s Hs) as Ha.
  destruct (authorized_ env r s) as [[[]|p] s']; [done|done|]. apply moves_left; [|by rewrite Z.add_0_r in Ha].
  destruct (negb _); [apply mv_answer|]. eapply mv_weak; [eapply (mv_bind 0 0 0 0)|done|done]; [apply mv_channel| |done].
  intros [c|]; [|apply mv_answer]. eapply mv_weak; [eapply (mv_bind 0 0 0 0)|done|done]; [apply (mv_bump CAckQueries)| |done]. intros _.
  destruct (from_slice _ ≫= _) as [[]|]; try apply mv_answer.
  eapply mv_weak; [eapply (mv_bind 0 0 0 0)|done|done]; [apply mv_gets|intros; apply mv_ret|done].
Qed.

Definition is_poll (r : Incoming) : bool := bool_decide (Httpd.method r = Httpd.Post) && String.eqb (rq_path r) "/services/collector/ack".

(** A page of a browser, or a host that is not loopback, is turned away first. *)
Definition page (r : Incoming) : bool :=
  open_ && (bool_decide (is_Some (header "origin" r)) || bool_decide (is_Some (header "sec-fetch-site" r)) || negb (loopback_host r)).

Lemma refusal_left env r g s : at_gap g s ->
  match hec_refusal sha256 from_slice ed25519 open_ env r s with
  | (inr (Some (_, None)), s') => at_gap (g + 1) s' /\ page r = false /\ denied env r s = 1
  | (inr (Some (_, Some c)), s') => at_gap g s' /\ weight c = 1 /\ (page r = true \/ denied env r s = 0)
  | (inr None, s') => at_gap g s' /\ (page r = true \/ denied env r s = 0)
  | (inl (Answer _), _) => False
  | (inl Abort_, _) => True
  end.
Proof.
  intros Hs. unfold hec_refusal, page. cbv zeta. destruct (open_ && _) eqn:Ep; [by cbn; split_and!; [..|left]|].
  pose proof (mv_authorized env r g s Hs) as Ha. unfold denied. destruct (authorized_ env r s) as [[[]|p] s']; [done|done|]. rewrite Z.add_0_r in Ha.
  destruct (1 <? _)%nat; [by cbn; split_and!; [..|right]|]. destruct (encoding_accepted r); cbn; split_and!; try done; by right.
Qed.

Lemma preflight_left env r g s : at_gap g s ->
  left_at (g + if is_poll r && negb (page r) then denied env r s else 0) (hec_preflight sha256 from_slice ed25519 open_ env r s).
Proof.
  intros Hs. unfold hec_preflight, is_poll. destruct (bool_decide (Httpd.method r = Httpd.Post)); cbn [andb]; [|cbn; by rewrite Z.add_0_r].
  pose proof (refusal_left env r g s Hs) as Hr. destruct (String.eqb (rq_path r) "/services/collector/ack"); cbn [andb].
  - unfold mbind, SE_bind. destruct (hec_refusal _ _ _ _ env r s) as [[[]|[[reply [c|]]|]] s']; try done.
    + destruct Hr as (Hg & _ & Hd). cbn. destruct Hd as [->| ->]; cbn [negb]; [by rewrite Z.add_0_r|]. destruct (page r); by rewrite Z.add_0_r.
    + destruct Hr as (Hg & -> & ->). done.
    + destruct Hr as [Hg Hd]. cbn. destruct Hd as [->| ->]; cbn [negb]; [by rewrite Z.add_0_r|]. destruct (page r); by rewrite Z.add_0_r.
  - rewrite Z.add_0_r. destruct (in_words _ _); [|done]. unfold mbind, SE_bind, bump, modify. 
    destruct (hec_refusal _ _ _ _ env r s) as [[[]|[[reply [c|]]|]] s']; try done.
    + destruct Hr as (Hg & Hc & _). cbn. apply (at_gap_bump CRequests 1) in Hg; [|by left]. apply (at_gap_bump c 1) in Hg; [|by left].
      rewrite Hc in Hg. cbn [weight] in Hg. by replace g with (g + -1 + 1) by lia.
    + destruct Hr as (Hg & _). cbn. apply (at_gap_bump CRequests 1) in Hg; [|by left]. cbn [weight] in Hg. by replace g with (g + 1 + -1) by lia.
    + by destruct Hr.
Qed.

Lemma route_left env r g s : at_gap g s ->
  left_at (g + if is_poll r then denied env r s else 0) (hec_route sha256 from_slice ed25519 alnum_beyond json_text json_stream config open_ env r s).
Proof.
  intros Hs. unfold hec_route, is_poll. destruct (Httpd.method r) eqn:Em; try (rewrite bool_decide_false by done; cbn; by rewrite Z.add_0_r).
  - rewrite bool_decide_false by done. cbn [andb]. destruct (in_words _ _); cbn; by rewrite Z.add_0_r.
  - rewrite bool_decide_true by done. cbn [andb]. destruct (String.eqb (rq_path r) "/services/collector/ack"); [by apply poll_left|].
    destruct (String.eqb _ _); [by apply moves_left; [apply mv_ingest|]|]. destruct (in_words _ _); [by apply moves_left; [apply mv_ingest|]|].
    cbn. by rewrite Z.add_0_r.
Qed.

Lemma reject_left why g s : at_gap g s -> left_at g (hec_reject why s).
Proof.
  intros Hs. apply (at_gap_bump CRequests 1) in Hs; [|by left].
  destruct why; [apply (at_gap_bump CTooLarge 1) in Hs; [|by left]|apply (at_gap_bump CBadRequest 1) in Hs; [|by left]]; cbn [weight] in Hs;
    unfold left_at; cbn; by replace g with (g + -1 + 1) by lia.
Qed.
End Counting.

(** ** The counters of a receiver *)

(** What the listener asks of the handler, each in its environment. *)
Inductive Call := CallPreflight (env : Env) (r : Incoming) | CallHandle (env : Env) (r : Incoming) | CallReject (why : Reject).

Section Calls.
Context (sha256 : bytes -> bytes) (from_slice : bytes -> option Json) (ed25519 : bytes -> bytes -> bytes -> bool).
Context (alnum_beyond : Z -> bool) (json_text : Json -> string) (json_stream : bytes -> list (option Json)).
Context (config : HecConfig) (open_ : bool).

Definition hec_at (env : Env) : Handler HecState := HecHandler sha256 from_slice ed25519 alnum_beyond json_text json_stream config open_ env.

Definition call (c : Call) (s : HecState) : option (option Reply * HecState) :=
  match c with
  | CallPreflight env r => preflight (Handler := hec_at env) r s
  | CallHandle env r => '(reply, s) ← handle (Handler := hec_at env) r s; Some (Some reply, s)
  | CallReject why => '(reply, s) ← run_reply (hec_reject why) s; Some (Some reply, s)
  end.

(** Whether the call turns an acknowledgement poll away for its credential. *)
Definition turned_away (c : Call) (s : HecState) : Z :=
  match c with
  | CallPreflight env r => if is_poll r && negb (page open_ r) then denied sha256 from_slice ed25519 open_ env r s else 0
  | CallHandle env r => if is_poll r then denied sha256 from_slice ed25519 open_ env r s else 0
  | CallReject _ => 0
  end.

(** A run of calls that does not end the process, and the polls it turned away. *)
Fixpoint calls (cs : list Call) (s : HecState) : option (Z * HecState) :=
  match cs with
  | [] => Some (0, s)
  | c :: cs => '(_, s') ← call c s; '(n, s'') ← calls cs s'; Some (turned_away c s + n, s'')
  end.

Lemma left_run {A} (f : A -> option Reply) (m : M A) g s reply s' : left_at g (m s) -> run f m s = Some (reply, s') -> at_gap g s'.
Proof. unfold left_at, run. by destruct (m s) as [[[]|] ?]; intros ? [= <- <-]. Qed.
Lemma left_run_reply (m : M Reply) g s reply s' : left_at g (m s) -> run_reply m s = Some (reply, s') -> at_gap g s'.
Proof. unfold left_at, run_reply. by destruct (m s) as [[[]|] ?]; intros ? [= <- <-]. Qed.

Lemma call_gap c g s reply s' : at_gap g s -> call c s = Some (reply, s') -> at_gap (g + turned_away c s) s'.
Proof.
  intros Hs. destruct c as [env r|env r|why]; cbn [call turned_away preflight handle hec_at HecHandler].
  - apply left_run. by apply preflight_left.
  - destruct (run_reply _ s) as [[r1 s1]|] eqn:E; [|done]. intros [= <- <-]. revert E. apply left_run_reply. by apply route_left.
  - destruct (run_reply _ s) as [[r1 s1]|] eqn:E; [|done]. intros [= <- <-]. revert E. apply left_run_reply. rewrite Z.add_0_r. by apply reject_left.
Qed.

(** C9: whatever the requests, the answers of the pipeline and the state of the keys,
    every event request took exactly one exit: the requests counted are accepted,
    busy, unauthorized, bad or too large, but that every acknowledgement poll turned
    away for its credential is counted as unauthorized and not as a request. *)
Theorem exits_account (cs : list Call) (s s' : HecState) (n : Z) :
  wrap64 (n_requests (hec_stats s)) = wrap64 (exits (hec_stats s)) -> calls cs s = Some (n, s') ->
  wrap64 (n_requests (hec_stats s') + n) = wrap64 (exits (hec_stats s')).
Proof.
  intros H0 Hc.
  assert (Hgap : forall cs g s s' n, at_gap g s -> calls cs s = Some (n, s') -> at_gap (g + n) s').
  { clear. induction cs as [|c cs IH]; intros g s s' n Hg; cbn [calls]; [intros [= <- <-]; by rewrite Z.add_0_r|].
    destruct (call c s) as [[r s1]|] eqn:E; [|done]. cbn [mbind option_bind]. destruct (calls cs s1) as [[k s2]|] eqn:E2; [|done].
    intros [= <- <-]. rewrite Z.add_assoc. by apply (IH _ s1); [apply (call_gap c g s r)|]. }
  assert (Hs : at_gap 0 s).
  { unfold at_gap, gap, wrap64, wrap in *. by rewrite Zminus_mod, <- H0, <- Zminus_mod, Z.sub_diag. }
  specialize (Hgap cs 0 s s' n Hs Hc). unfold at_gap, gap in Hgap. rewrite Z.add_0_l in Hgap.
  rewrite <- wrap64_add_r, <- Hgap, wrap64_add_r. f_equal. lia.
Qed.
End Calls.

(** ** All or nothing *)

Section Whole.
Context (sha256 : bytes -> bytes) (from_slice : bytes -> option Json) (ed25519 : bytes -> bytes -> bytes -> bool).
Context (alnum_beyond : Z -> bool) (json_text : Json -> string) (json_stream : bytes -> list (option Json)).
Context (config : HecConfig) (open_ : bool) (env : Env) (V : Verifier) (o : list (Batch * Admitted_)).

(** Nothing was offered yet, under the tenants of the verifier at the call. *)
Definition before (s : HecState) : Prop := offered s = o /\ tenancy (hec_auth s) = tenancy V /\ route_indexes (hec_auth s) = true.
Definition at_call (s : HecState) : Prop := before s /\ hec_auth s = V.
Definition refused_at (e : Exit) (s : HecState) : Prop := match e with Answer r => status r <> 200 /\ before s | Abort_ => True end.
Definition harmless {A} (Q : A -> Prop) (m : M A) : Prop := hoare before m (fun a s => Q a /\ before s) refused_at.
Definition anything {A} (a : A) : Prop := True.

Lemma hl_bind {A B} (Q : A -> Prop) (R : B -> Prop) (m : M A) (k : A -> M B) : harmless Q m -> (forall a, Q a -> harmless R (k a)) -> harmless R (m ≫= k).
Proof. intros Hm Hk. eapply h_bind; [apply Hm|]. intros a s [Ha Hs]. by apply Hk. Qed.
Lemma hl_ret {A} (Q : A -> Prop) (a : A) : Q a -> harmless Q (mret a : M A).
Proof. intros Ha s Hs. by split. Qed.
Lemma hl_stats f : harmless anything (modify (on_stats f) : M unit).
Proof. intros s Hs. by split. Qed.
Lemma hl_auth v : tenancy v = tenancy V -> route_indexes v = true -> harmless anything (modify (on_auth v) : M unit).
Proof. intros Ht Hr s [Ho _]. by split. Qed.
Lemma hl_refuse_cell reason : harmless anything (modify (fun s => on_auth (refuse (now_secs env) reason (hec_auth s)) s) : M unit).
Proof. intros s (Ho & Ht & Hr). by split. Qed.
Lemma hl_gets {A} (f : HecState -> A) : harmless anything (gets f : M A).
Proof. intros s Hs. by split. Qed.
Lemma hl_abort {A} (x : option A) : harmless (fun a => x = Some a) (or_abort x).
Proof. intros s Hs. by destruct x. Qed.
Lemma hl_answer {A} (Q : A -> Prop) st code text : st <> 200 -> harmless Q (answer st code text : M A).
Proof. intros H s Hs. by split. Qed.
Lemma hl_refuse {A} (Q : A -> Prop) c st code text : st <> 200 -> harmless Q (refuse_with c st code text : M A).
Proof. intros H. eapply hl_bind; [apply hl_stats|]. intros _ _. by apply hl_answer. Qed.

(** The token a request carries: after Splunk's scheme in its one [Authorization]
    header, or, without one, as its one query parameter of that name. *)
Definition auth_text (r : Incoming) : string := trim (default "" (header "authorization" r)).
Definition carries (r : Incoming) (t : string) : Prop :=
  ((header_count "authorization" r <= 1)%nat /\
    exists x, (auth_text r = String.append "Splunk " x \/ auth_text r = String.append "splunk " x) /\ t = trim x) \/
  (auth_text r = "" /\ (open_ = true \/ (header_count "authorization" r <= 1)%nat) /\
    exists kvs, query_pairs (Httpd.query r) = Some kvs /\ List.filter (fun kv => String.eqb (fst kv) "token") kvs = [("token", t)]).

(** The credential of a request; only an open listener takes one without any. *)
Definition presents (r : Incoming) (presented : option string) : Prop :=
  match presented with Some t => carries r t | None => open_ = true /\ forall t, ~ carries r t end.

(** The principal of a request: who its credential was judged to be, by the keys and
    tokens as they stood at the call, and one that may ingest. *)
Definition entitled (r : Incoming) (p : Principal) : Prop :=
  exists presented, presents r presented /\
    judged sha256 from_slice ed25519 AtHec (negb open_) (now_secs env) (fetched env) (saved env) V presented (inr p) /\
    may (p_kind p) OpIngest = true.

Lemma hl_check_token o_ r t : open_ = o_ -> presents r t ->
  hoare at_call (check_token sha256 from_slice ed25519 o_ env t) (fun p s => entitled r p /\ before s) refused_at.
Proof.
  intros <- Hp s [(Ho & Ht & Hr) HV]. unfold check_token, mbind, SE_bind, gets. cbn beta iota.
  pose proof (authorize_decided sha256 from_slice ed25519 AtHec OpIngest (negb open_) t (now_secs env) (fetched env) (saved env) V) as Hd.
  rewrite HV in *. destruct (authorize _ _ _ _ _ _ _ _ _ _ V) as [who v] eqn:E. apply authorize_setup in E as [[H1 H2] H3].
  assert (Hb : before (on_auth v s)) by (unfold before; cbn; by rewrite H1, H2).
  destruct who as [e|p]; [by split|]. destruct Hd as (Hd & _). split; [|exact Hb]. by exists t.
Qed.

Lemma splunk_token_spec h t : splunk_token h = Some t ->
  exists x, (h = String.append "Splunk " x \/ h = String.append "splunk " x) /\ t = trim x.
Proof.
  unfold splunk_token. destruct (strip_prefix "Splunk " h) as [x|] eqn:E1; [|destruct (strip_prefix "splunk " h) as [x|] eqn:E2; [|done]].
  - intros [= <-]. apply strip_prefix_inv in E1. exists x. by split; [left|].
  - intros [= <-]. apply strip_prefix_inv in E2. exists x. by split; [right|].
Qed.

Lemma splunk_token_none h x : splunk_token h = None -> h <> String.append "Splunk " x /\ h <> String.append "splunk " x.
Proof. intros H. split; intros ->; by cbn in H. Qed.

Lemma only_tokens (kvs : list (string * string)) :
  List.filter (fun kv => String.eqb (fst kv) "token") kvs = List.map (fun t => ("token", t)) (List.map snd (List.filter (fun kv => String.eqb (fst kv) "token") kvs)).
Proof.
  induction kvs as [|[k v] kvs IH]; [done|]. cbn [List.filter fst]. destruct (String.eqb_spec k "token") as [->|]; [|done]. cbn [List.map snd]. by rewrite <- IH.
Qed.

(** What the query holds, read only where the header is empty. *)
Definition query_read (r : Incoming) (q : list string) : Prop :=
  if String.eqb (auth_text r) "" then
    exists kvs, query_pairs (Httpd.query r) = Some kvs /\ List.filter (fun kv => String.eqb (fst kv) "token") kvs = List.map (fun t => ("token", t)) q
  else q = [].

Lemma query_reads r : hoare at_call (if String.eqb (auth_text r) "" then query_tokens r else mret [])
  (fun q s => query_read r q /\ at_call s) refused_at.
Proof.
  intros s Hs. unfold query_read. destruct (String.eqb _ ""); [|by split]. unfold query_tokens, or_abort, mbind, SE_bind.
  destruct (query_pairs _) as [kvs|]; [|done]. cbn. split; [|done]. exists kvs. split; [done|]. apply only_tokens.
Qed.

(** A request whose header is no token presents what its query holds, if that is one. *)
Lemma presents_query r q : query_read r q -> (open_ = true \/ (header_count "authorization" r <= 1)%nat) ->
  auth_text r = "" ->
  match q with [t] => carries r t | _ => forall t, ~ carries r t end.
Proof.
  unfold query_read. intros Hq Hone Hh. rewrite Hh in Hq. cbn in Hq. destruct Hq as (kvs & Hk & Hf).
  assert (Hn : q <> [default "" (List.head q)] -> forall t, ~ carries r t).
  { intros Hne t [(_ & x & [Hx|Hx] & _)|(_ & _ & kvs' & Hk' & Hf')]; [by rewrite Hh in Hx..|]. rewrite Hk in Hk'. injection Hk' as <-.
    rewrite Hf in Hf'. destruct q as [|a [|]]; [done| |done]. by apply Hne. }
  destruct q as [|t [|t2 q]]; [by apply Hn| |by apply Hn]. right. split; [done|]. split; [done|]. by exists kvs.
Qed.

Lemma hl_authorized r : hoare at_call (authorized sha256 from_slice ed25519 open_ env r) (fun p s => entitled r p /\ before s) refused_at.
Proof.
  unfold authorized. fold (auth_text r). eapply h_bind; [apply query_reads|]. intros q. cbv beta.
  assert (Hsplit : forall B (m : M B) R, (query_read r q -> hoare at_call m R refused_at) -> hoare (fun s => query_read r q /\ at_call s) m R refused_at)
    by (intros B m R Hm s [Hq Hs]; by apply Hm).
  apply Hsplit. clear Hsplit. intros Hq. set (h := auth_text r) in *.
  assert (Hh : h <> "" -> q = []) by (intros Hne; unfold query_read in Hq; fold h in Hq; by destruct (String.eqb_spec h "")).
  assert (Hrefuse : forall c st code text, st <> 200 -> hoare at_call (refuse_with c st code text : M Principal) (fun p s => entitled r p /\ before s) refused_at).
  { intros c st code text Hst. eapply h_pre; [by apply (hl_refuse (entitled r))|by intros s [? _]]. }
  destruct open_ eqn:Eo.
  - apply hl_check_token; [done|]. unfold presents. destruct (Nat.leb_spec (header_count "authorization" r) 1) as [H1|H1].
    + destruct (splunk_token h) as [t|] eqn:Et; [left; split; [done|by apply splunk_token_spec]|].
      destruct (decide (h = "")) as [He|He].
      * pose proof (presents_query r q Hq (or_introl Eo) He) as Hp. by destruct q as [|t [|]].
      * rewrite (Hh He). split; [done|]. intros t [(_ & x & Hx & _)|(He' & _)]; [|done]. destruct (splunk_token_none h x Et). naive_solver.
    + destruct (decide (h = "")) as [He|He].
      * pose proof (presents_query r q Hq (or_introl Eo) He) as Hp. by destruct q as [|t [|]].
      * rewrite (Hh He). split; [done|]. intros t [(H & _)|(He' & _)]; [lia|done].
  - destruct (Nat.ltb_spec 1 (header_count "authorization" r)) as [H1|H1]; [by apply Hrefuse|].
    destruct (String.eqb_spec h "") as [He|He].
    + pose proof (presents_query r q Hq (or_intror H1) He) as Hp.
      destruct q as [|t [|t2 q]]; [|by apply (hl_check_token false)|by apply Hrefuse].
      apply (h_pre _ before); [|by intros s [Hs _]].
      eapply (hl_bind anything); [apply hl_stats|]. intros _ _. eapply hl_bind; [apply hl_refuse_cell|]. intros _ _. by apply hl_answer.
    + destruct (splunk_token h) as [t|] eqn:Et; [|by apply Hrefuse].
      apply hl_check_token; [done|]. left. split; [done|]. by apply splunk_token_spec.
Qed.

Lemma hl_counting {A} P (Q : A -> Prop) (m : M A) : hoare P m (fun a s => Q a /\ before s) refused_at ->
  hoare P (counting_request m) (fun a s => Q a /\ before s) refused_at.
Proof. intros H s Hs. specialize (H s Hs). unfold counting_request. by destruct (m s) as [[[]|] s']. Qed.

Lemma hl_channel r : harmless anything (channel r).
Proof.
  unfold channel. eapply (hl_bind anything); [|intros c _; by apply hl_ret].
  destruct (header _ r); [by apply hl_ret|]. eapply hl_bind; [apply hl_abort|]. intros kvs _. by apply hl_ret.
Qed.

(** The records of a body, as they are parsed. *)
Definition body_records (r : Incoming) (raw : bool) : option (EventError + list LogRecord) :=
  defaults ← from_query (Httpd.query r);
  Some (if raw then parse_raw_body alnum_beyond (fresh_ids env) (rq_body r) defaults (now_nanos env)
        else parse_event_body alnum_beyond json_text json_stream (fresh_ids env) (rq_body r) defaults (now_nanos env)).

(** The batch that holds them, each record in the place the index it names sends it to
    under the principal. *)
Definition holds (p : Principal) (records kept : list LogRecord) : Prop :=
  Forall2 (fun r k => exists i moved, lands V p (asked "index" r) (Some i) moved /\ stored_as V p "index" (r, i) k) records kept.

Definition nothing_taken (s : HecState) : Prop := exists extra, offered s = o ++ extra /\ Forall (fun b => snd b <> Accepted) extra.
Definition taken (r : Incoming) (raw : bool) (s : HecState) : Prop :=
  exists p records kept seq, entitled r p /\ body_records r raw = Some (inr records) /\ holds p records kept /\
    offered s = o ++ [(mkBatch seq kept, Accepted)].

(** A place depends on the tenants alone. *)
Lemma lands_setup v p a i d : tenancy v = tenancy V -> lands v p a i d -> lands V p a i d.
Proof.
  intros Ht H. assert (Hw : forall x, writable v p x <-> writable V p x) by (intros x; unfold writable; by rewrite Ht).
  destruct H as [|i H1|i d H1 H2 H3|i H1 H2].
  - rewrite Ht. apply lands_unasked.
  - apply lands_asked. by apply Hw.
  - rewrite Ht in H2, H3. apply lands_moved; [by rewrite <- Hw|done|done].
  - rewrite Ht in H2. apply lands_nowhere; [by rewrite <- Hw|done].
Qed.

Lemma stored_setup v p key from k : tenancy v = tenancy V -> stored_as v p key from k -> stored_as V p key from k.
Proof. unfold stored_as, writable. by intros ->. Qed.

Lemma placed_whole p key records marks : Forall2 (fun r m => lands V p (asked key r) (fst m) (snd m)) records marks ->
  number (fun m : option string * bool => bool_decide (fst m = None)) marks = 0 -> forall kept, Forall2 (stored_as V p key) (placed records marks) kept ->
  Forall2 (fun r k => exists i moved, lands V p (asked key r) (Some i) moved /\ stored_as V p key (r, i) k) records kept.
Proof.
  intros H. induction H as [|r [[i|] d] records marks Hl _ IH]; intros Hn kept Hk.
  - inversion Hk. constructor.
  - change (placed (r :: records) ((Some i, d) :: marks)) with ((r, i) :: placed records marks) in Hk.
    apply Forall2_cons_inv_l in Hk as (k & ks & Hk & Hks & ->). constructor; [by exists i, d|by apply IH].
  - unfold number in Hn. cbn in Hn. lia.
Qed.

Lemma admit_whole now p records v out kept v' : tenancy_ok (tenancy v) -> route_indexes v = true ->
  admit_batch now p records "index" true v = (inr (out, kept), v') -> tenancy v = tenancy V -> holds p records kept.
Proof.
  intros Hok Hr. unfold admit_batch. destruct (choose v p "index" records) as [[chosen o']|] eqn:E; [|done].
  cbn [andb]. destruct (Z.ltb_spec 0 (a_refused o')); [done|]. intros [= <- <- _] HT.
  apply (choose_marks _ _ _ _ Hr) in E as (marks & -> & Hm & _ & Hf).
  pose proof (retain_stored v p "index" Hok Hr records marks Hm) as Hs. apply (placed_whole _ _ _ marks).
  - eapply Forall2_impl; [exact Hm|]. intros r m. by apply lands_setup.
  - unfold number in *. lia.
  - eapply Forall2_impl; [exact Hs|]. intros from k. by apply stored_setup.
Qed.

Lemma offer_run ch records s : before s ->
  match offer config env ch records s with
  | (inr reply, s') => (status reply = 200 /\ exists seq, offered s' = o ++ [(mkBatch seq records, Accepted)]) \/ (status reply <> 200 /\ nothing_taken s')
  | (inl _, _) => False
  end.
Proof.
  intros [Ho _]. unfold offer, mbind, SE_bind, gets, modify. cbn beta iota. destruct (next_batch_seq (hec_acks s)) as [seq t]. cbn beta iota.
  destruct (sink env (mkBatch seq records)) eqn:Es.
  - unfold bump, bump_by, modify. cbn beta iota. destruct (if ack_enabled config then ch else None) as [c|].
    + destruct (issue c seq _) as [id t2]. cbn. left. split; [done|]. exists seq. by rewrite Ho.
    + cbn. left. split; [done|]. exists seq. by rewrite Ho.
  - cbn. right. split; [done|]. exists [(mkBatch seq records, Busy)]. split; [by cbn; rewrite Ho|by repeat constructor].
  - cbn. right. split; [done|]. exists [(mkBatch seq records, IncorrectIndex)]. split; [by cbn; rewrite Ho|by repeat constructor].
Qed.

Lemma hl_then {A B} (Q : A -> Prop) (m : M A) (k : A -> M B) R : harmless Q m -> (forall a, Q a -> hoare before (k a) R refused_at) ->
  hoare before (m ≫= k) R refused_at.
Proof. intros Hm Hk. eapply h_bind; [apply Hm|]. intros a s [Ha Hs]. by apply (Hk a Ha). Qed.

Lemma admit_setup now p records key whole v out v' : admit_batch now p records key whole v = (out, v') -> same_setup v v'.
Proof.
  unfold admit_batch. destruct (choose v p key records) as [[chosen o']|]; [|by intros [= _ <-]].
  destruct (whole && _); by intros [= _ <-].
Qed.

Lemma ingest_run r raw s : tenancy_ok (tenancy V) -> at_call s ->
  match hec_ingest sha256 from_slice ed25519 alnum_beyond json_text json_stream config open_ env r raw s with
  | (inr reply, s') => (status reply = 200 /\ taken r raw s') \/ (status reply <> 200 /\ nothing_taken s')
  | (inl (Answer reply), s') => status reply <> 200 /\ nothing_taken s'
  | (inl Abort_, _) => True
  end.
Proof.
  intros HT Hs.
  assert (H : hoare at_call (hec_ingest sha256 from_slice ed25519 alnum_beyond json_text json_stream config open_ env r raw)
    (fun reply s' => (status reply = 200 /\ taken r raw s') \/ (status reply <> 200 /\ nothing_taken s')) refused_at).
  { unfold hec_ingest. eapply h_bind; [apply hl_counting, hl_authorized|]. intros p. cbv beta.
    assert (Hsplit : forall B (m : M B) R, (entitled r p -> hoare before m R refused_at) -> hoare (fun s => entitled r p /\ before s) m R refused_at)
      by (intros B m R Hm s1 [Hp Hs1]; by apply Hm).
    apply Hsplit. clear Hsplit. intros Hp.
    eapply hl_then; [apply hl_channel|]. intros ch _. eapply hl_then; [apply hl_abort|]. intros defaults Hq. cbv zeta.
    assert (Hb : body_records r raw = Some (if raw then parse_raw_body alnum_beyond (fresh_ids env) (rq_body r) defaults (now_nanos env)
      else parse_event_body alnum_beyond json_text json_stream (fresh_ids env) (rq_body r) defaults (now_nanos env))).
    { unfold body_records. by rewrite Hq. }
    destruct (if raw then _ else _) as [e|records].
    { destruct (event_refusal e). eapply h_weak; [by apply (hl_refuse (fun _ => False))|done|by intros ? ? [[] _]|done]. }
    intros s0 Hs0. pose proof Hs0 as (_ & Ht & Hr). unfold mbind at 1, SE_bind at 1, gets at 1. cbn beta iota.
    destruct (admit_batch _ _ _ _ _ (hec_auth s0)) as [admitted v'] eqn:Ea. pose proof (admit_setup _ _ _ _ _ _ _ _ Ea) as [Ht' Hr'].
    assert (Hk : forall out kept, admitted = inr (out, kept) -> holds p records kept).
    { intros out kept ->. eapply admit_whole; [|exact Hr|exact Ea|exact Ht]. by rewrite Ht. }
    assert (Hv : tenancy v' = tenancy V /\ route_indexes v' = true) by (split; congruence). clear Ea Ht Hr Ht' Hr'. destruct Hv as [Ht Hr].
    revert s0 Hs0. eapply hl_then; [by apply hl_auth|]. intros _ _.
    destruct admitted as [[]|[out kept]].
    - eapply hl_then; [apply hl_stats|]. intros _ _. eapply hl_then; [apply hl_refuse_cell|]. intros _ _.
      eapply h_weak; [by apply (hl_answer (fun _ => False))|done|by intros ? ? [[] _]|done].
    - eapply h_weak; [by apply (hl_refuse (fun _ => False))|done|by intros ? ? [[] _]|done].
    - specialize (Hk out kept eq_refl). eapply hl_then; [apply hl_gets|]. intros t _.
      eapply hl_then; [|].
      { instantiate (1 := anything). destruct (if ack_enabled config then ch else None); [|by apply hl_ret]. destruct (has_capacity _ t); [by apply hl_ret|].
        eapply hl_bind; [apply hl_stats|]. intros _ _ s1 Hs1. by split. }
      intros _ _ s1 Hs1. pose proof (offer_run ch kept s1 Hs1) as Ho. destruct (offer config env ch kept s1) as [[?|reply] s2]; [done|].
      destruct Ho as [[Hst [seq Ho]]|Ho]; [left|by right]. split; [done|]. by exists p, records, kept, seq. }
  specialize (H s Hs). destruct (hec_ingest _ _ _ _ _ _ _ _ _ r raw s) as [[[reply|]|reply] s']; [|done|done].
  destruct H as [H1 [H2 _]]. split; [done|]. exists []. by rewrite app_nil_r.
Qed.
End Whole.

Definition ingests (r : Incoming) : option bool :=
  if negb (bool_decide (Httpd.method r = Httpd.Post)) then None
  else if String.eqb (rq_path r) "/services/collector/raw" then Some true
  else if in_words (rq_path r) event_paths then Some false else None.

Lemma route_ingest sha256 from_slice ed25519 alnum_beyond json_text json_stream config open_ env r raw : ingests r = Some raw ->
  hec_route sha256 from_slice ed25519 alnum_beyond json_text json_stream config open_ env r =
  hec_ingest sha256 from_slice ed25519 alnum_beyond json_text json_stream config open_ env r raw.
Proof.
  unfold ingests, hec_route. case_bool_decide as Hm; [|done]. rewrite Hm. cbn [negb].
  destruct (String.eqb_spec (rq_path r) "/services/collector/raw") as [->|]; [by intros [= <-]|].
  destruct (String.eqb_spec (rq_path r) "/services/collector/ack") as [->|]; [done|]. destruct (in_words _ _); [by intros [= <-]|done].
Qed.

(** C8: Where indexes are routed, over a validated tenancy, an HEC event request is
    answered 200 exactly when the pipeline accepted one batch with every event of the body,
    in order: each with the tenant of the principal its credential was judged to be (the
    Splunk token of its one header, or its one query token, by the keys, tokens and openness
    of the listener at the call), who may ingest, and in the index the event names or its
    tenant's rule sends it to, its other attributes untouched. On any other answer nothing
    of the request was accepted. *)
Theorem accepted_is_whole sha256 from_slice ed25519 alnum_beyond json_text json_stream config open_ env (r : Incoming) (raw : bool) (s s' : HecState) (reply : Reply) :
  ingests r = Some raw -> tenancy_ok (tenancy (hec_auth s)) -> route_indexes (hec_auth s) = true ->
  handle (Handler := hec_at sha256 from_slice ed25519 alnum_beyond json_text json_stream config open_ env) r s = Some (reply, s') ->
  (status reply = 200 /\ taken sha256 from_slice ed25519 alnum_beyond json_text json_stream open_ env (hec_auth s) (offered s) r raw s') \/
  (status reply <> 200 /\ nothing_taken (offered s) s').
Proof.
  intros Hi HT Hr. cbn [handle hec_at HecHandler]. rewrite (route_ingest _ _ _ _ _ _ _ _ _ _ _ Hi). unfold run_reply.
  pose proof (ingest_run sha256 from_slice ed25519 alnum_beyond json_text json_stream config open_ env (hec_auth s) (offered s) r raw s HT
    ltac:(done)) as H.
  destruct (hec_ingest _ _ _ _ _ _ _ _ _ r raw s) as [[[reply'|]|reply'] s1]; [|done|]; intros [= <- <-]; [by right|done].
Qed.

(** ** What an acknowledgement stands for *)

(** The channel of a request: its header, or without one the first parameter of its
    query with that name; an empty one is none. *)
Definition on_channel (r : Incoming) (ch : string) : Prop :=
  ch <> "" /\
  (header "x-splunk-request-channel" r = Some ch \/
   header "x-splunk-request-channel" r = None /\
   exists before after, query_pairs (Httpd.query r) = Some (before ++ ("channel", ch) :: after) /\
     Forall (fun kv => fst kv <> "channel") before).

Lemma find_param (kvs : list (string * string)) v :
  snd <$> List.find (fun kv => String.eqb (fst kv) "channel") kvs = Some v <->
  exists before after, kvs = before ++ ("channel", v) :: after /\ Forall (fun kv => fst kv <> "channel") before.
Proof.
  induction kvs as [|[k x] kvs IH]; cbn [List.find fst].
  { split; [done|]. by intros ([] & ? & ? & _). }
  destruct (String.eqb_spec k "channel") as [->|Hk].
  - split; [intros [= ->]; by exists [], kvs|]. intros ([|[k' y] before] & after & H & Hb); [cbn in *; congruence|].
    injection H as <- <- ->. by apply Forall_cons_1 in Hb as [Hb _].
  - rewrite IH. split.
    + intros (before & after & -> & Hb). exists ((k, x) :: before), after. split; [done|by constructor].
    + intros ([|[k' y] before] & after & H & Hb); [cbn in H; congruence|]. injection H as <- <- ->.
      apply Forall_cons_1 in Hb as [_ Hb]. by exists before, after.
Qed.

Lemma on_channel_inj r a b : on_channel r a -> on_channel r b -> a = b.
Proof.
  intros [_ [Ha|(Ha & x & y & Hx & Hb)]] [_ [Hc|(Hc & x' & y' & Hx' & Hb')]]; try congruence.
  pose proof (proj2 (find_param _ a) (ex_intro _ x (ex_intro _ y (conj eq_refl Hb)))) as E.
  pose proof (proj2 (find_param _ b) (ex_intro _ x' (ex_intro _ y' (conj eq_refl Hb')))) as E'.
  rewrite Hx in Hx'. injection Hx' as Hx'. rewrite Hx' in E. congruence.
Qed.

(** *** The replies that give an id *)

Lemma str_map_app f a b : str_map f (String.append a b) = String.append (str_map f a) (str_map f b).
Proof. induction a as [|c a IH]; [done|]. cbn. by rewrite IH. Qed.

Lemma str_map_same f p s : (forall c, p c = true -> f c = c) -> str_all p s = true -> str_map f s = s.
Proof. intros Hf. induction s as [|c s IH]; [done|]. intros [Hc Hs]%andb_true_iff. cbn [str_map]. by rewrite Hf, IH. Qed.

Lemma quoted_digits n : 0 <= n -> quoted (show_Z n) = show_Z n.
Proof.
  intros Hn. apply (str_map_same _ is_digit); [|by apply show_Z_digits]. intros c Hc. by destruct (Ascii.eqb_spec c "`") as [->|].
Qed.

Lemma ack_body_eq a : 0 <= a -> rp_body (ack_reply a) =
  String.append (quoted "{`text`:`Success`,`code`:0,`ackId`:") (String.append (show_Z a) "}").
Proof.
  intros Ha. unfold ack_reply, json_reply. cbn [rp_body concat_str fold_right]. unfold quoted at 1.
  rewrite !str_map_app. fold quoted. f_equal. f_equal. by apply quoted_digits.
Qed.

Lemma ack_reply_inj a b : 0 <= a -> 0 <= b -> ack_reply a = ack_reply b -> a = b.
Proof.
  intros Ha Hb H. apply (f_equal rp_body) in H. rewrite !ack_body_eq in H by done.
  apply (f_equal (strip_prefix (quoted "{`text`:`Success`,`code`:0,`ackId`:"))) in H. rewrite !strip_prefix_app in H. injection H as H.
  apply (f_equal (strip_suffix "}")) in H. rewrite !strip_suffix_app in H. injection H as H.
  apply (f_equal parse_digits) in H. rewrite !parse_digits_show in H by done. congruence.
Qed.

Lemma success_is_no_ack a : 0 <= a -> hec_reply 200 SUCCESS "Success" <> ack_reply a.
Proof. intros Ha H. apply (f_equal rp_body) in H. by rewrite ack_body_eq in H. Qed.

(** What is about the acknowledgements and the batches alone. *)
Definition about_acks (I : HecState -> Prop) : Prop := forall s s', hec_acks s' = hec_acks s -> offered s' = offered s -> I s -> I s'.

Section Acks.
Context (sha256 : bytes -> bytes) (from_slice : bytes -> option Json) (ed25519 : bytes -> bytes -> bytes -> bool).
Context (alnum_beyond : Z -> bool) (json_text : Json -> string) (json_stream : bytes -> list (option Json)).
Context (config : HecConfig) (I : HecState -> Prop) (HI : about_acks I).

(** A method that leaves the table and the batches, and does not answer 200 early. *)
Definition not_ok (e : Exit) (s : HecState) : Prop := I s /\ match e with Answer r => status r <> 200 | Abort_ => True end.
Definition quiet {A} (Q : A -> Prop) (m : M A) : Prop := hoare I m (fun a s => Q a /\ I s) not_ok.

(** From there on, what a method may leave. *)
Lemma qt_then {A B} (Q : A -> Prop) (m : M A) (k : A -> M B) R :
  quiet Q m -> (forall a, Q a -> hoare I (k a) R not_ok) -> hoare I (m ≫= k) R not_ok.
Proof. intros Hm Hk. eapply h_bind; [apply Hm|]. intros a s [Ha Hs]. by apply (Hk a Ha). Qed.
Lemma qt_ret {A} (Q : A -> Prop) (a : A) : Q a -> quiet Q (mret a : M A).
Proof. by intros Ha s Hs. Qed.
Lemma qt_gets {A} (f : HecState -> A) : quiet anything (gets f : M A).
Proof. by intros s Hs. Qed.
Lemma qt_stats f : quiet anything (modify (on_stats f) : M unit).
Proof. intros s Hs. split; [done|]. by apply (HI s). Qed.
Lemma qt_auth f : quiet anything (modify (fun s => on_auth (f s) s) : M unit).
Proof. intros s Hs. split; [done|]. by apply (HI s). Qed.
Lemma qt_abort {A} (o : option A) : quiet (fun a => o = Some a) (or_abort o).
Proof. intros s Hs. by destruct o. Qed.
Lemma qt_answer {A} st code text R : st <> 200 -> hoare I (answer st code text : M A) R not_ok.
Proof. intros H s Hs. by split. Qed.
Lemma qt_refuse {A} c st code text R : st <> 200 -> hoare I (refuse_with c st code text : M A) R not_ok.
Proof. intros H. eapply qt_then; [apply qt_stats|]. intros _ _. by apply qt_answer. Qed.

Lemma qt_check_token o env t : quiet anything (check_token sha256 from_slice ed25519 o env t).
Proof.
  eapply qt_then; [apply qt_gets|]. intros v _. destruct (authorize _ _ _ _ _ _ _ _ _ _ v) as [who v'].
  eapply qt_then; [apply (qt_auth (fun _ => v'))|]. intros _ _. destruct who; [by apply qt_refuse|by apply qt_ret].
Qed.

Lemma qt_authorized o env r : quiet anything (authorized sha256 from_slice ed25519 o env r).
Proof.
  eapply (qt_then anything).
  { destruct (String.eqb _ ""); [|by apply qt_ret]. eapply qt_then; [apply qt_abort|]. intros kvs _. by apply qt_ret. }
  intros q _. destruct o; [apply qt_check_token|]. destruct (1 <? _)%nat; [by apply qt_refuse|]. destruct (String.eqb _ "").
  - destruct q as [|t [|]]; [|apply qt_check_token|by apply qt_refuse]. eapply qt_then; [apply qt_stats|]. intros _ _.
    eapply qt_then; [apply qt_auth|]. intros _ _. by apply qt_answer.
  - destruct (splunk_token _); [apply qt_check_token|by apply qt_refuse].
Qed.

(** The channel a method reads is the request's. *)
Lemma qt_channel r : quiet (fun c => forall ch, c = Some ch -> on_channel r ch) (channel r).
Proof.
  eapply (qt_then (fun c => forall ch, c = Some ch -> ch <> "" -> on_channel r ch)).
  - destruct (header _ r) as [c|] eqn:Eh.
    + apply qt_ret. intros ch [= ->] Hne. split; [done|]. by left.
    + eapply qt_then; [apply qt_abort|]. intros kvs Hk. cbv beta in Hk. apply qt_ret. intros ch Hc Hne. split; [done|]. right. split; [done|].
      apply find_param in Hc as (before & after & -> & Hb). by exists before, after.
  - intros [c|] Hc; apply qt_ret; [|done]. unfold non_empty. destruct (String.eqb_spec c ""); intros ch; [done|]. intros [= <-]. by apply Hc.
Qed.

Lemma qt_counting {A} (Q : A -> Prop) (m : M A) : quiet Q m -> quiet Q (counting_request m).
Proof.
  intros H s Hs. specialize (H s Hs). unfold counting_request. destruct (m s) as [[[]|a] s']; [|done|].
  - destruct H as [H1 H2]. split; [|done]. by apply (HI s').
  - destruct H as [H1 H2]. split; [done|]. by apply (HI s').
Qed.

(** An event request does what its batch does, offered with the request's channel. *)
Lemma qt_ingest (J : Reply -> HecState -> Prop) o env r raw :
  (forall c records, (forall ch, c = Some ch -> on_channel r ch) -> hoare I (offer config env c records) J not_ok) ->
  hoare I (hec_ingest sha256 from_slice ed25519 alnum_beyond json_text json_stream config o env r raw) J not_ok.
Proof.
  intros Hoff. unfold hec_ingest. eapply qt_then; [apply qt_counting, qt_authorized|]. intros p _.
  eapply qt_then; [apply qt_channel|]. intros c Hc. eapply qt_then; [apply qt_abort|]. intros d _. cbv zeta.
  destruct (if raw then _ else _); [destruct (event_refusal _); by apply qt_refuse|]. eapply qt_then; [apply qt_gets|]. intros v _.
  destruct (admit_batch _ _ _ _ _ v) as [admitted v']. eapply qt_then; [apply (qt_auth (fun _ => v'))|]. intros _ _.
  destruct admitted as [[]|[out kept]]; [|by apply qt_refuse|].
  - eapply qt_then; [apply qt_stats|]. intros _ _. eapply qt_then; [apply qt_auth|]. intros _ _. by apply qt_answer.
  - eapply qt_then; [apply qt_gets|]. intros t _. eapply (qt_then anything); [|intros _ _; by apply Hoff].
    destruct (if ack_enabled config then c else None); [|by apply qt_ret]. destruct (has_capacity _ t); [by apply qt_ret|].
    eapply qt_then; [apply qt_stats|]. intros _ _ s1 Hs1. by split.
Qed.

(** A poll that is answered 200: its channel, the ids of its body, and what the table
    says of them. *)
Definition polled (r : Incoming) (reply : Reply) (s : HecState) : Prop :=
  exists ch items, on_channel r ch /\ from_slice (rq_body r) ≫= get "acks" = Some (JArr items) /\
    reply = json_reply 200 (acks_body (HecAck.query ch (omap Json.as_u64 items) (hec_acks s))).

Lemma qt_poll o env r : hoare I (ack_query sha256 from_slice ed25519 config o env r) (fun reply s => polled r reply s /\ I s) not_ok.
Proof.
  eapply qt_then; [apply qt_authorized|]. intros _ _. destruct (negb _); [by apply qt_answer|]. eapply qt_then; [apply qt_channel|].
  intros [ch|] Hc; [|by apply qt_answer]. eapply qt_then; [apply qt_stats|]. intros _ _.
  destruct (from_slice _ ≫= _) as [[| | | | |items|]|] eqn:Ef; try by apply qt_answer.
  intros s Hs. cbn. split; [|done]. exists ch, items. split; [by apply Hc|]. by rewrite Ef.
Qed.

Lemma qt_preflight o env r : quiet anything (hec_preflight sha256 from_slice ed25519 o env r).
Proof.
  unfold hec_preflight. destruct (if bool_decide _ then _ else None) as [b|]; [|by apply qt_ret]. eapply (qt_then anything).
  { intros s Hs. unfold hec_refusal. cbv zeta. destruct (o && _); [done|]. pose proof (qt_authorized o env r s Hs) as H.
    destruct (authorized _ _ _ o env r s) as [[[]|] s']; [by destruct H|done|by destruct H]. }
  intros [[reply c]|] _; [|by apply qt_ret]. eapply (qt_then anything); [|intros; by apply qt_ret]. destruct b; [|by apply qt_ret].
  eapply qt_then; [apply qt_stats|]. intros _ _. destruct c; [apply qt_stats|by apply qt_ret].
Qed.

Lemma qt_reject why : quiet anything (hec_reject why).
Proof.
  eapply qt_then; [apply qt_stats|]. intros _ _. destruct why; (eapply qt_then; [apply qt_stats|intros; by apply qt_ret]).
Qed.
End Acks.

(** *** What one call does to the table and the batches *)

Section Effects.
Context (sha256 : bytes -> bytes) (from_slice : bytes -> option Json) (ed25519 : bytes -> bytes -> bytes -> bool).
Context (alnum_beyond : Z -> bool) (json_text : Json -> string) (json_stream : bytes -> list (option Json)).
Context (config : HecConfig) (open_ : bool) (A : AckTable) (O : list (Batch * Admitted_)).

Definition stands (s : HecState) : Prop := hec_acks s = A /\ offered s = O.
Lemma stands_about : about_acks stands.
Proof. intros s s' Ha Ho [H1 H2]. split; congruence. Qed.

(** A batch was offered under the next number: it was taken and an id of the request's
    channel answered for it, or no id was. *)
Definition offers (env : Env) (r : Incoming) (reply : Reply) (s : HecState) : Prop :=
  exists records, let b := mkBatch (next_batch A) records in let t := snd (next_batch_seq A) in
    offered s = O ++ [(b, sink env b)] /\
    (hec_acks s = t /\ (forall id, 0 <= id -> reply <> ack_reply id) \/
     sink env b = Accepted /\ exists ch, on_channel r ch /\ hec_acks s = snd (issue ch (next_batch A) t) /\ reply = ack_reply (fst (issue ch (next_batch A) t))).

Lemma offer_offers env r c records : (forall ch, c = Some ch -> on_channel r ch) ->
  hoare stands (offer config env c records) (offers env r) (not_ok stands).
Proof.
  intros Hc [st ak au of'] [Ha Ho]. cbn in Ha, Ho. subst ak of'. unfold offer, bump, bump_by, mbind, SE_bind, gets, modify, on_stats, on_acks, on_offer.
  cbn [next_batch_seq hec_acks hec_stats hec_auth offered]. unfold offers. cbv zeta.
  destruct (sink env _) eqn:Es; cbn beta iota; [|exists records; rewrite Es; cbn; split; [done|by left]..].
  destruct (if ack_enabled config then c else None) as [ch|] eqn:Ec.
  - assert (Hch : on_channel r ch) by (apply Hc; by destruct (ack_enabled config)).
    destruct (issue ch _ _) as [id t2] eqn:Ei. exists records. rewrite Es. split; [done|]. right. split; [done|]. exists ch.
    cbn [next_batch_seq snd hec_acks] in *. by rewrite Ei.
  - exists records. rewrite Es. split; [done|]. left. split; [done|]. intros id. apply success_is_no_ack.
Qed.

Definition effect (c : Call) (reply : option Reply) (s : HecState) : Prop :=
  stands s \/ exists env r a, c = CallHandle env r /\ reply = Some a /\ offers env r a s.

Lemma route_effect env r s reply s' : stands s ->
  run_reply (hec_route sha256 from_slice ed25519 alnum_beyond json_text json_stream config open_ env r) s = Some (reply, s') ->
  (stands s' /\ (is_poll r = true -> status reply = 200 -> polled from_slice r reply s')) \/ (is_poll r = false /\ offers env r reply s').
Proof.
  intros Hs.
  assert (H : hoare stands (hec_route sha256 from_slice ed25519 alnum_beyond json_text json_stream config open_ env r)
    (fun reply s' => (stands s' /\ (is_poll r = true -> polled from_slice r reply s')) \/ (is_poll r = false /\ offers env r reply s')) (not_ok stands)).
  { assert (Hi : forall raw, is_poll r = false -> hoare stands (hec_ingest sha256 from_slice ed25519 alnum_beyond json_text json_stream config open_ env r raw)
      (fun reply s' => (stands s' /\ (is_poll r = true -> polled from_slice r reply s')) \/ (is_poll r = false /\ offers env r reply s')) (not_ok stands)).
    { intros raw Hp. apply qt_ingest; [apply stands_about|]. intros c records Hc.
      eapply h_weak; [by apply offer_offers|done|intros; by right|done]. }
    assert (Hret : is_poll r = false -> forall a, hoare stands (mret a : M Reply)
      (fun reply s' => (stands s' /\ (is_poll r = true -> polled from_slice r reply s')) \/ (is_poll r = false /\ offers env r reply s')) (not_ok stands)).
    { intros Hp a s1 Hs1. left. split; [done|]. by rewrite Hp. }
    unfold is_poll in *. unfold hec_route. destruct (Httpd.method r) eqn:Em; try (apply Hret; by rewrite bool_decide_false).
    - rewrite bool_decide_false in Hret by done. destruct (in_words _ _); by apply Hret.
    - rewrite bool_decide_true in * by done. cbn [andb] in *. destruct (String.eqb (rq_path r) "/services/collector/ack").
      + clear Hi Hret. eapply h_weak; [apply (qt_poll _ _ _ _ stands stands_about)|done| |done]. intros a s1 [H1 H2]. left. by split.
      + destruct (String.eqb _ _); [by apply Hi|]. destruct (in_words _ _); [by apply Hi|by apply Hret]. }
  specialize (H s Hs). unfold run_reply. destruct (hec_route _ _ _ _ _ _ _ _ _ r s) as [[[a|]|a] s1]; [|done|]; intros [= <- <-].
  - destruct H as [H1 H2]. by left.
  - destruct H as [[H1 H2]|H]; [left|by right]. split; [done|]. intros Hp _. by apply H2.
Qed.

Lemma call_effect c s reply s' : stands s ->
  call sha256 from_slice ed25519 alnum_beyond json_text json_stream config open_ c s = Some (reply, s') -> effect c reply s'.
Proof.
  intros Hs. unfold effect. destruct c as [env r|env r|why]; cbn [call preflight handle hec_at HecHandler].
  - unfold run. pose proof (qt_preflight sha256 from_slice ed25519 stands stands_about open_ env r s Hs) as H.
    destruct (hec_preflight _ _ _ _ env r s) as [[[]|] ?]; intros [= _ <-]; left; by destruct H.
  - destruct (run_reply _ s) as [[a s1]|] eqn:E; [|done]. cbn. intros [= <- <-].
    apply route_effect in E as [[H _]|[_ H]]; [by left| |done]. right. by exists env, r, a.
  - unfold run_reply. pose proof (qt_reject stands stands_about why s Hs) as H.
    destruct (hec_reject why s) as [[[]|] ?]; cbn; intros [= _ <-]; left; by destruct H.
Qed.
End Effects.

(** *** The ids that were given out *)

(** What happened at the listener, in order: each call, its reply and the batches it
    offered with the pipeline's answers. *)
Abbreviation Trace := (list (Call * option Reply * list (Batch * Admitted_))).

(** A client was given [id_] on channel [ch] for [batch]. *)
Definition told (tr : Trace) (ch : string) (id_ : Z) (batch : Batch) : Prop :=
  0 <= id_ /\ exists env r, In (CallHandle env r, Some (ack_reply id_), [(batch, Accepted)]) tr /\ on_channel r ch.

Lemma told_snoc tr e ch id_ batch : told (tr ++ [e]) ch id_ batch <->
  told tr ch id_ batch \/ 0 <= id_ /\ exists env r, e = (CallHandle env r, Some (ack_reply id_), [(batch, Accepted)]) /\ on_channel r ch.
Proof.
  unfold told. setoid_rewrite in_app_iff. cbn [In]. split.
  - intros (H0 & env & r & [H|[->|[]]] & Hc); [left|right]; (split; [done|]); by exists env, r.
  - intros [(H0 & env & r & H & Hc)|(H0 & env & r & -> & Hc)]; (split; [done|]); exists env, r; (split; [|done]); [by left|by right; left].
Qed.

Lemma told_offered tr ch id_ batch : told tr ch id_ batch -> In (batch, Accepted) (List.concat (List.map snd tr)).
Proof.
  intros (_ & env & r & H & _). apply in_concat. exists [(batch, Accepted)]. split; [by apply (in_map snd) in H|by left].
Qed.

(** An id is new on its channel. *)
Lemma issue_fresh t h ch seq : reach t h -> issued h !! (ch, fst (issue ch seq t)) = None /\ 0 <= fst (issue ch seq t).
Proof.
  intros Hr. apply reach_inv in Hr as [Hc Ha _ _ _]. unfold issue. destruct (retire_durable_prefix _ _ _) as [c2 wm]. cbn [fst].
  change (issued h !! (ch, ?i)) with (ids_of h ch i). destruct (channels t !! ch) as [c|] eqn:E; cbn [default from_option id].
  - specialize (Hc _ _ E). pose proof (ci_floor _ _ _ _ Hc). split; [|lia].
    destruct (ids_of h ch (next_id c)) as [x|] eqn:Ei; [|done].
    pose proof (proj1 (ci_issued _ _ _ _ Hc (next_id c)) (ex_intro _ x Ei)). lia.
  - split; [by apply Ha|cbn; lia].
Qed.

(** The table against what really happened: every batch is the only one of its number,
    the records each reached the log with are in [bd], and the ids are those that were
    given out. *)
Definition AckOk (bd : gmap Z Z) (tr : Trace) (s : HecState) : Prop :=
  exists h, bound h = bd /\ reach (hec_acks s) h /\ 0 < next_batch (hec_acks s) /\
    offered s = List.concat (List.map snd tr) /\
    NoDup (List.map (fun b => bt_seq (fst b)) (offered s)) /\
    Forall (fun b => bt_seq (fst b) < next_batch (hec_acks s)) (offered s) /\
    forall ch id_ seq, issued h !! (ch, id_) = Some seq <-> exists batch, told tr ch id_ batch /\ bt_seq batch = seq.

Lemma next_after A s : next_batch A < u64_max -> 0 < next_batch A ->
  hec_acks s = snd (next_batch_seq A) \/ (exists ch, hec_acks s = snd (issue ch (next_batch A) (snd (next_batch_seq A)))) ->
  next_batch (hec_acks s) = next_batch A + 1.
Proof.
  intros Hmax Hpos H. assert (Hw : wadd64 (next_batch A) 1 = next_batch A + 1) by (apply wadd64_small; unfold u64_range; lia).
  destruct H as [->|[ch ->]]; [by cbn|]. unfold issue. destruct (retire_durable_prefix _ _ _). by cbn.
Qed.

(** A call that offered nothing gives no id. *)
Lemma ack_ok_stands bd tr s s' c reply : AckOk bd tr s -> stands (hec_acks s) (offered s) s' ->
  AckOk bd (tr ++ [(c, reply, skipn (List.length (offered s)) (offered s'))]) s'.
Proof.
  intros (h & Hbd & Hr & Hpos & Ho & Hnd & Hlt & Hi) [Ha Hs]. exists h. rewrite Ha, Hs, skipn_all. split_and!; try done.
  - by rewrite Ho, map_app, concat_app, app_nil_r.
  - intros ch id_ seq. rewrite Hi. split; intros (b & Hb & Hq); exists b; (split; [|done]); [apply told_snoc; by left|].
    by apply told_snoc in Hb as [Hb|(_ & env & r & [=] & _)].
Qed.

Lemma ack_ok_offers bd tr s s' env r reply : AckOk bd tr s -> next_batch (hec_acks s) < u64_max ->
  offers (hec_acks s) (offered s) env r reply s' ->
  AckOk bd (tr ++ [(CallHandle env r, Some reply, skipn (List.length (offered s)) (offered s'))]) s'.
Proof.
  intros (h & Hbd & Hr & Hpos & Ho & Hnd & Hlt & Hi) Hmax (records & Hoff & Hcase). cbv zeta in Hoff, Hcase.
  set (b := mkBatch (next_batch (hec_acks s)) records) in *.
  assert (Hnext : next_batch (hec_acks s') = next_batch (hec_acks s) + 1).
  { apply next_after; [done|done|]. destruct Hcase as [[-> _]|(_ & ch & _ & -> & _)]; [by left|right; by exists ch]. }
  assert (Hskip : skipn (List.length (offered s)) (offered s') = [(b, sink env b)]) by (rewrite Hoff; by apply skipn_all_app || by rewrite drop_app_length).
  assert (Hnew : forall x, In x (offered s) -> bt_seq (fst x) <> bt_seq b).
  { intros x Hx. rewrite List.Forall_forall in Hlt. specialize (Hlt x Hx). cbn. lia. }
  assert (Hrest : offered s' = List.concat (List.map snd (tr ++ [(CallHandle env r, Some reply, [(b, sink env b)])])) /\
    NoDup (List.map (fun b => bt_seq (fst b)) (offered s')) /\ Forall (fun b => bt_seq (fst b) < next_batch (hec_acks s')) (offered s')).
  { rewrite Hnext. rewrite Hoff at 2 3. split_and!.
    - by rewrite map_app, concat_app, <- Ho.
    - rewrite map_app. apply NoDup_app. split_and!; [done| |by apply NoDup_singleton].
      intros x Hx. cbn. rewrite list_elem_of_singleton. intros ->. apply list_elem_of_In, in_map_iff in Hx as (y & Hy & Hin). by apply (Hnew y).
    - apply Forall_app. split; [eapply Forall_impl; [exact Hlt|]; cbn; lia|]. repeat constructor. cbn. lia. }
  rewrite Hskip. destruct Hrest as (H1 & H2 & H3).
  destruct Hcase as [[Ht Hno]|(Hs & c & Hc & Ht & ->)].
  - exists h. rewrite Ht at 1. split_and!; try done; [by apply reach_seq|lia|]. intros ch id_ seq. rewrite Hi.
    split; intros (x & Hx & Hq); exists x; (split; [|done]); [apply told_snoc; by left|].
    apply told_snoc in Hx as [Hx|(H0 & env' & r' & E & _)]; [done|]. destruct (Hno id_ H0). congruence.
  - set (t := snd (next_batch_seq (hec_acks s))) in *. set (i := fst (issue c (next_batch (hec_acks s)) t)) in *.
    pose proof (reach_seq _ _ Hr) as Hr'. destruct (issue_fresh t h c (next_batch (hec_acks s)) Hr') as [Hfresh Hpos']. fold i in Hfresh, Hpos'.
    exists (mkHistory (<[(c, i) := next_batch (hec_acks s)]> (issued h)) (bound h)). split_and!; try done; [|lia|].
    + rewrite Ht. apply reach_issue; [done|]. intros [ch k] q Hk ->. apply Hi in Hk as (x & Hx & Hq).
      apply told_offered in Hx. rewrite <- Ho in Hx. by apply (Hnew _ Hx).
    + intros ch id_ seq. cbn [issued]. rewrite lookup_insert_Some. split.
      * intros [[[= <- <-] <-]|[_ Hk]].
        -- exists b. split; [|done]. apply told_snoc. right. split; [done|]. exists env, r. by rewrite Hs.
        -- apply Hi in Hk as (x & Hx & Hq). exists x. split; [|done]. apply told_snoc. by left.
      * intros (x & Hx & Hq). apply told_snoc in Hx as [Hx|(H0 & env' & r' & E & Hc')].
        -- right. assert (Hk : issued h !! (ch, id_) = Some seq) by (apply Hi; by exists x). split; [|done]. intros E. rewrite <- E in Hk. congruence.
        -- left. assert (r' = r /\ ack_reply i = ack_reply id_ /\ x = b) as (-> & Hid & ->) by (split_and!; congruence).
           by rewrite (on_channel_inj r ch c), (ack_reply_inj i id_).
Qed.

(** ** A receiver beside the pipeline and the log *)

Section Runs.
Context (sha256 : bytes -> bytes) (from_slice : bytes -> option Json) (ed25519 : bytes -> bytes -> bytes -> bool).
Context (alnum_beyond : Z -> bool) (json_text : Json -> string) (json_stream : bytes -> list (option Json)).
Context (config : HecConfig) (open_ : bool).

Abbreviation call_ := (call sha256 from_slice ed25519 alnum_beyond json_text json_stream config open_).

(** Any interleaving of requests, of batches that reach the log and of the log
    telling how many records are on disk. *)
Inductive hec_run : HecState -> Trace -> gmap Z Z -> Prop :=
| hr_new v : hec_run (mkHecState no_hec_stats new_table v []) [] ∅
| hr_call s tr bd c reply s' : hec_run s tr bd -> next_batch (hec_acks s) < u64_max -> call_ c s = Some (reply, s') ->
    hec_run s' (tr ++ [(c, reply, skipn (List.length (offered s)) (offered s'))]) bd
| hr_bind s tr bd seq w : hec_run s tr bd -> bd !! seq = None -> hec_run (on_acks (bind seq w (hec_acks s)) s) tr (<[seq := w]> bd)
| hr_publish s tr bd n : hec_run s tr bd -> synced_records (hec_acks s) <= n -> hec_run (on_acks (publish n (hec_acks s)) s) tr bd.

Lemma run_acks s tr bd : hec_run s tr bd -> AckOk bd tr s.
Proof.
  induction 1 as [v|s tr bd c reply s' _ IH Hmax Hc|s tr bd seq w _ (h & <- & Hh) Hn|s tr bd n _ (h & Hb & Hr & H) Hn].
  - exists (mkHistory ∅ ∅). split_and!; cbn; [done|constructor|lia|done|constructor|constructor|]. intros ch id_ seq. rewrite lookup_empty.
    split; [done|]. by intros (b & (_ & env & r & [] & _) & _).
  - eapply (call_effect _ _ _ _ _ _ _ _ (hec_acks s) (offered s)) in Hc; [|by split].
    destruct Hc as [Hc|(env & r & a & -> & -> & Hc)]; [by apply ack_ok_stands|by apply ack_ok_offers].
  - exists (mkHistory (issued h) (<[seq := w]> (bound h))). destruct Hh as (Hr & H). split; [done|]. split; [by apply reach_bind|exact H].
  - exists h. split; [done|]. split; [by apply reach_publish|exact H].
Qed.

(** An accepted batch is the only one of its number. *)
Lemma only_batch tr s bd batch : AckOk bd tr s -> In (batch, Accepted) (offered s) ->
  forall b out, In (b, out) (offered s) -> bt_seq b = bt_seq batch -> b = batch /\ out = Accepted.
Proof.
  intros (h & _ & _ & _ & _ & Hnd & _) Hb b out Hb' Hs.
  apply list_elem_of_In, list_elem_of_lookup in Hb as [x Hx]. apply list_elem_of_In, list_elem_of_lookup in Hb' as [y Hy].
  rewrite NoDup_alt in Hnd. assert (y = x) as ->.
  { apply (Hnd y x (bt_seq batch)); change (List.map ?f ?l) with (f <$> l); rewrite list_lookup_fmap; [by rewrite Hy; cbn; rewrite Hs|by rewrite Hx]. }
  rewrite Hx in Hy. by injection Hy as -> ->.
Qed.

(** The batch an id was given out for is on disk. *)
Definition on_disk_for (tr : Trace) (bd : gmap Z Z) (s : HecState) (ch : string) (id_ : Z) : Prop :=
  exists batch w, told tr ch id_ batch /\ bd !! bt_seq batch = Some w /\ w <= synced_records (hec_acks s).

Lemma query_on_disk s tr bd ch ids : AckOk bd tr s -> Forall (fun i => 0 <= i) ids ->
  Forall2 (fun i a => fst a = i /\ (snd a = true <-> on_disk_for tr bd s ch i)) ids (HecAck.query ch ids (hec_acks s)).
Proof.
  intros (h & <- & Hr & _ & _ & _ & _ & Hi) Hids. rewrite (query_exact _ h) by done.
  change (List.map ?f ?l) with (f <$> l). apply Forall2_fmap_r, Forall_Forall2_diag, Forall_true. intros i. split; [done|]. cbn [snd]. unfold durable, on_disk_for.
  destruct (issued h !! (ch, i)) as [seq|] eqn:E.
  - apply Hi in E as E'. destruct E' as (b & Hb & <-). unfold reached. split.
    + destruct (bound h !! bt_seq b) as [w|] eqn:Ew; [|done]. intros Hw%Z.leb_le. by exists b, w.
    + intros (b' & w & Hb' & Hw & Hle). assert (Hs : issued h !! (ch, i) = Some (bt_seq b')) by (apply Hi; by exists b').
      rewrite E in Hs. injection Hs as Hs. rewrite Hs, Hw. by apply Z.leb_le.
  - split; [done|]. intros (b & w & Hb & _). assert (Hs : issued h !! (ch, i) = Some (bt_seq b)) by (apply Hi; by exists b). congruence.
Qed.

(** C7: Over any interleaving of requests to the HEC receiver (of fewer than 2^64
    batches), of batches that reach the log and of syncs, a poll answered 200 tells, for
    each id of its body that is a number, in order, true exactly when an earlier call was
    answered with that id on the channel the poll names, and the one batch that call
    offered, which the pipeline accepted, is in the log within the records on disk; for
    every other id it tells false. An id given out stands for one batch only, and an
    accepted batch is the only one of its number. *)
Theorem acknowledged_is_on_disk (s s' : HecState) (tr : Trace) (bd : gmap Z Z) (env : Env) (r : Incoming) (reply : Reply) :
  hec_run s tr bd -> is_poll r = true -> call_ (CallHandle env r) s = Some (Some reply, s') -> status reply = 200 ->
  (exists ch items answers, on_channel r ch /\ from_slice (rq_body r) ≫= get "acks" = Some (JArr items) /\
    reply = json_reply 200 (acks_body answers) /\
    Forall2 (fun i a => fst a = i /\ (snd a = true <-> on_disk_for tr bd s ch i)) (omap Json.as_u64 items) answers) /\
  (forall ch i batch, told tr ch i batch -> In (batch, Accepted) (offered s) /\
    (forall b out, In (b, out) (offered s) -> bt_seq b = bt_seq batch -> b = batch /\ out = Accepted) /\
    forall b, told tr ch i b -> b = batch).
Proof.
  intros Hrun Hp Hc Hst. pose proof (run_acks s tr bd Hrun) as Hok. split.
  - cbn [call handle hec_at HecHandler] in Hc. destruct (run_reply _ s) as [[a s1]|] eqn:E; [|done]. cbn in Hc. injection Hc as -> ->.
    apply (route_effect _ _ _ _ _ _ _ _ (hec_acks s) (offered s)) in E; [|by split].
    assert (polled from_slice r reply s' /\ hec_acks s' = hec_acks s) as [(ch & items & Hch & Hit & ->) ->].
    { destruct E as [[[Ha _] E]|E]; [by split; [apply E|]|]. destruct E as [E _]. congruence. }
    eexists ch, items, _. split_and!; [done|done|done|]. apply query_on_disk; [done|].
    apply Forall_forall. intros i (j & _ & Hj)%list_elem_of_omap. unfold Json.as_u64 in Hj. destruct j; try done. unfold within in Hj. cbn in Hj.
    destruct (_ && _) eqn:Eb; [|done]. injection Hj as <-. apply andb_true_iff in Eb as [Eb _]. by apply Z.leb_le.
  - intros ch i batch Hb. pose proof Hok as (h & _ & _ & _ & Ho & _ & _ & Hi). 
    assert (Hin : In (batch, Accepted) (offered s)) by (rewrite Ho; by eapply told_offered).
    split; [done|]. split; [by apply (only_batch tr s bd)|]. intros b Hb'. apply (only_batch tr s bd batch Hok Hin b Accepted).
    + rewrite Ho. by eapply told_offered.
    + assert (H1 : issued h !! (ch, i) = Some (bt_seq batch)) by (apply Hi; by exists batch).
      assert (H2 : issued h !! (ch, i) = Some (bt_seq b)) by (apply Hi; by exists b). congruence.
Qed.
End Runs.

(** ** One request ends the process *)

(** A poll, an event or a raw request whose query holds a percent sign, one character
    and a character of two bytes. *)
Definition aborting_request : bytes :=
  list_byte_of_string (concat_str ["POST /services/collector?"; aborting_query; " HTTP/1.1"; CRLF; "Host: 127.0.0.1"; CRLF; CRLF]).

(** C18: a request of one line ends the process before any credential is looked at,
    whatever the receiver's state, its tokens and its keys: the query is split where a
    character is not, the slice panics, and a release is built to abort. *)
Theorem one_request_ends_the_process sha256 from_slice ed25519 alnum_beyond json_text json_stream config open_ env gunzip
    (limits : Limits) (workers : Z) (s : HecState) :
  serve (H := hec_at sha256 from_slice ed25519 alnum_beyond json_text json_stream config open_ env) gunzip limits (ingest_limits workers)
    [Got aborting_request] s = None.
Proof.
  unfold serve, read_request.
  replace (read_head _ [] [Got aborting_request]) with (inr (List.length aborting_request - 4, aborting_request, []) : Bad + nat * bytes * Socket)%nat
    by (vm_compute; reflexivity).
  destruct open_; vm_compute; reflexivity.
Qed.

(** ** Samples *)

Definition open_config (acks : bool) : HecConfig := mkHecConfig true "127.0.0.1:8088" 2 [] false acks 1024 4096.
Definition a_verifier : Verifier := builder_new two_tenants.
Definition a_state : HecState := mkHecState no_hec_stats new_table a_verifier [].
Definition a_body : bytes := list_byte_of_string (concat_str ["first"; CRLF; CRLF; "second"]).
Definition raw_request : Incoming :=
  mkIncoming Httpd.Post "POST" "/services/collector/raw" "" [("Host", "127.0.0.1"); ("X-Splunk-Request-Channel", "ch")] a_body.
Definition a_poll : Incoming := mkIncoming Httpd.Post "POST" "/services/collector/ack" "" [("Host", "127.0.0.1")] [].
Definition an_env (answer : Admitted_) : Env := mkEnv 1700000000000000000 1700000000 (inl "down") false (fun n => [to_byte (Z.of_nat n)]) (fun _ => answer).
Definition no_slice (b : bytes) : option Json := None.
Definition no_sign (a b c : bytes) : bool := false.
Definition a_call (o : bool) (c : Call) (s : HecState) : option (option Reply * HecState) :=
  call (fun b => b) no_slice no_sign (fun _ => false) (fun _ => "") (fun _ => []) (open_config true) o c s.
Definition then_state (x : option (option Reply * HecState)) : HecState := match x with Some (_, s) => s | None => a_state end.

(** A poll that is turned away is counted as unauthorized and not as a request: the
    accounts of the receiver then do not balance. *)
Lemma refused_poll_breaks_the_accounts :
  accounts_for_everything (hec_stats a_state) = true /\
  accounts_for_everything (hec_stats (then_state (a_call false (CallHandle (an_env Accepted) a_poll) a_state))) = false.
Proof. split; vm_compute; reflexivity. Qed.

Definition two_calls : list Call := [CallHandle (an_env Accepted) raw_request; CallHandle (an_env Accepted) a_poll].
Definition after_two : option (Z * HecState) :=
  calls (fun b => b) no_slice no_sign (fun _ => false) (fun _ => "") (fun _ => []) (open_config true) false two_calls a_state.
Definition two_refused : HecState := match after_two with Some (_, s) => s | None => a_state end.

Lemma exits_account_witness :
  n_requests (hec_stats two_refused) = 1 /\ exits (hec_stats two_refused) = 2 /\
  wrap64 (n_requests (hec_stats two_refused) + 1) = wrap64 (exits (hec_stats two_refused)).
Proof.
  split; [vm_compute; reflexivity|]. split; [vm_compute; reflexivity|].
  apply (exits_account (fun b => b) no_slice no_sign (fun _ => false) (fun _ => "") (fun _ => []) (open_config true) false two_calls a_state two_refused 1);
    vm_compute; reflexivity.
Defined.

Definition after_raw : HecState := then_state (a_call true (CallHandle (an_env Accepted) raw_request) a_state).
Definition a_reply : Reply := ack_reply 0.

Lemma accepted_is_whole_witness :
  List.map (fun b => List.map body (bt_records (fst b))) (offered after_raw) = [["first"; "second"]] /\
  (200 = 200 /\ taken (fun b => b) no_slice no_sign (fun _ => false) (fun _ => "") (fun _ => []) true (an_env Accepted) a_verifier [] raw_request true after_raw \/
   200 <> 200 /\ nothing_taken [] after_raw).
Proof.
  split; [vm_compute; reflexivity|].
  exact (accepted_is_whole (fun b => b) no_slice no_sign (fun _ => false) (fun _ => "") (fun _ => []) (open_config true) true (an_env Accepted)
    raw_request true a_state after_raw a_reply ltac:(vm_compute; reflexivity) two_tenants_ok ltac:(vm_compute; reflexivity) ltac:(vm_compute; reflexivity)).
Defined.

Definition on_disk : HecState :=
  on_acks (publish 2 (bind 1 2 (hec_acks after_raw))) (on_acks (bind 1 2 (hec_acks after_raw)) after_raw).

Definition two_ids (b : bytes) : option Json := Some (JObj [("acks", JArr [JInt 0; JInt 1])]).
Definition ids_poll : Incoming :=
  mkIncoming Httpd.Post "POST" "/services/collector/ack" "" [("Host", "127.0.0.1"); ("X-Splunk-Request-Channel", "ch")] [].
Definition ids_call : Call -> HecState -> option (option Reply * HecState) :=
  call (fun b => b) two_ids no_sign (fun _ => false) (fun _ => "") (fun _ => []) (open_config true) true.
Definition disk_trace : Trace := [(CallHandle (an_env Accepted) raw_request, Some a_reply, offered after_raw)].
Definition polled_state : HecState := then_state (ids_call (CallHandle (an_env Accepted) ids_poll) on_disk).
Definition polled_reply : Reply := json_reply 200 (acks_body [(0, true); (1, false)]).

Lemma disk_run : hec_run (fun b => b) two_ids no_sign (fun _ => false) (fun _ => "") (fun _ => []) (open_config true) true on_disk disk_trace (<[1 := 2]> ∅).
Proof.
  refine (hr_publish _ _ _ _ _ _ _ _ _ _ _ 2 _ _); [|vm_compute; discriminate].
  refine (hr_bind _ _ _ _ _ _ _ _ _ _ _ 1 2 _ _); [|reflexivity].
  refine (hr_call _ _ _ _ _ _ _ _ a_state [] ∅ (CallHandle (an_env Accepted) raw_request) (Some a_reply) after_raw _ _ _);
    [apply hr_new|vm_compute; reflexivity|vm_compute; reflexivity].
Qed.

Lemma acknowledged_is_on_disk_witness :
  exists ch items answers, on_channel ids_poll ch /\ two_ids (rq_body ids_poll) ≫= get "acks" = Some (JArr items) /\
    polled_reply = json_reply 200 (acks_body answers) /\
    Forall2 (fun i a => fst a = i /\ (snd a = true <-> on_disk_for disk_trace (<[1 := 2]> ∅) on_disk ch i)) (omap Json.as_u64 items) answers.
Proof.
  exact (proj1 (acknowledged_is_on_disk (fun b => b) two_ids no_sign (fun _ => false) (fun _ => "") (fun _ => []) (open_config true) true
    on_disk polled_state disk_trace (<[1 := 2]> ∅) (an_env Accepted) ids_poll polled_reply disk_run eq_refl
    ltac:(vm_compute; reflexivity) eq_refl)).
Defined.
