(* ===== verification/Sigv4.v ===== *)
(** Signatures of S3 requests ([crates/logless-core/src/s3_sigv4.rs]): the check of
    an [Authorization] header, and a presigned query.

    SHA-256 and HMAC-SHA-256 are parameters.  The facts: one signature is for one
    request, a request signed as clients sign is accepted, and a presigned address
    reads back to the parameters it was made from. *)

From S2P Require Import Prelude Text Lists Civil Base64 Jwt Proto Utf8 Httpd.
From Stdlib Require Import Permutation.
Open Scope string_scope.
Open Scope Z_scope.
Open Scope list_scope.

Definition ALGORITHM : string := "AWS4-HMAC-SHA256".
Definition MAX_SKEW_SECS : Z := 900.

Record Credentials := mkCredentials { access_key : string; secret_key : string }.

Inductive AuthError := Missing | Malformed | UnknownKey | Expired | BadSignature.
#[export] Instance AuthError_eq_dec : EqDecision AuthError.
Proof. solve_decision. Defined.

(** [Result<A, AuthError>]. *)
#[export] Instance auth_bind : MBind (sum AuthError) := fun _ _ k m => match m with inl e => inl e | inr a => k a end.
Definition ok_or {A} (e : AuthError) (o : option A) : AuthError + A := match o with Some a => inr a | None => inl e end.

Record Parsed := mkParsed { ps_access_key : string; ps_date : string; ps_region : string; ps_signed : list string; ps_signature : bytes }.

Definition Headers := list (string * string).
Definition header (hs : Headers) (name : string) : option string := snd <$> List.find (fun h => same_name (fst h) name) hs.

(** Reads all of both. *)
Definition ct_eq (a b : string) : bool :=
  foldl (fun diff xy => Z.lor diff (Z.lxor (byte_val (fst xy)) (byte_val (snd xy))))
    (if (String.length a =? String.length b)%nat then 0 else 1) (combine (str_bytes a) (str_bytes b)) =? 0.

(** ** Hexadecimal and percent *)

Fixpoint hex_pairs (s : string) : option bytes :=
  match s with
  | "" => Some []
  | String a (String b r) => x ← Base64.hex_digit a; y ← Base64.hex_digit b; t ← hex_pairs r; Some (to_byte (x * 16 + y) :: t)
  | String _ "" => None
  end.
Definition hex_decode (s : string) : option bytes := match s with "" => None | _ => hex_pairs s end.

Fixpoint pct_decode (s : string) : option string :=
  match s with
  | "" => Some ""
  | String c r =>
      if Ascii.eqb c "%" then
        match r with
        | String a (String b r') => v ← Base64.hex_pair a b; t ← pct_decode r'; Some (String (Ascii.ascii_of_byte v) t)
        | _ => None
        end
      else t ← pct_decode r; Some (String (if Ascii.eqb c "+" then " "%char else c) t)
  end.

Definition unreserved (c : ascii) : bool := is_alnum c || one_of "-_.~" c.
Definition hex_upper (d : Z) : ascii := ascii_of_N (Z.to_N (if d <? 10 then 48 + d else 55 + d)).
Fixpoint aws_encode (s : string) : string :=
  match s with
  | "" => ""
  | String c r => if unreserved c then String c (aws_encode r)
                  else String "%" (String (hex_upper (chr c / 16)) (String (hex_upper (chr c mod 16)) (aws_encode r)))
  end.

(** ** Times *)

Definition num (s : string) : option Z :=
  if String.eqb s "" || negb (str_all is_digit s) then None else parse_uint u64_max s.

(** No step leaves [u64]. *)
Definition to_unix (y mo d h mi s : Z) : option Z :=
  if negb ((1970 <=? y) && (y <=? 9999)) || negb ((1 <=? mo) && (mo <=? 12)) || negb ((1 <=? d) && (d <=? 31)) then None
  else if (23 <? h) || (59 <? mi) || (60 <? s) then None
  else
    let '(y, m) := if mo <=? 2 then (y - 1, mo + 9) else (y, mo - 3) in
    let era := y / 400 in
    let yoe := y - era * 400 in
    let doy := (153 * m + 2) / 5 + d - 1 in
    let doe := yoe * 365 + yoe / 4 - yoe / 100 + doy in
    let days := era * 146097 + doe - 719468 in
    Some (days * 86400 + h * 3600 + mi * 60 + s).

(** [v[lo..lo + len]] of ASCII. *)
Definition slice (lo len : nat) (v : string) : string := str_take len (str_drop lo v).
Definition at_is (n : nat) (c : ascii) (v : string) : bool := String.eqb (slice n 1 v) (String c "").
Definition is_ascii_str (v : string) : bool := str_all (fun c => chr c <? 128) v.

Definition parse_iso_basic (v : string) : option Z :=
  if negb (str_len v =? 16) || negb (is_ascii_str v) || negb (at_is 8 "T" v) || negb (at_is 15 "Z" v) then None
  else
    y ← num (slice 0 4 v); mo ← num (slice 4 2 v); d ← num (slice 6 2 v);
    h ← num (slice 9 2 v); mi ← num (slice 11 2 v); s ← num (slice 13 2 v);
    to_unix y mo d h mi s.

Definition MONTHS : list string := ["Jan"; "Feb"; "Mar"; "Apr"; "May"; "Jun"; "Jul"; "Aug"; "Sep"; "Oct"; "Nov"; "Dec"].

Definition parse_rfc1123 (v : string) : option Z :=
  if negb (is_ascii_str v) then None
  else match split_whitespace v with
  | [_; d; mon; y; hms; gmt] =>
      d ← num d;
      y ← num y;
      if negb (String.eqb gmt "GMT") then None
      else
        mo ← position (fun m => same_name m mon) MONTHS;
        match split_char ":" hms with
        | [h; mi; s] => h ← num h; mi ← num mi; s ← num s; to_unix y (Z.of_nat mo + 1) d h mi s
        | _ => None
        end
  | _ => None
  end.

Definition format_iso_basic (secs : Z) : string :=
  let days := secs / 86400 in
  let rem := secs mod 86400 in
  let z := days + 719468 in
  let era := z / 146097 in
  let doe := z mod 146097 in
  let yoe := (doe - doe / 1460 + doe / 36524 - doe / 146096) / 365 in
  let doy := doe - (365 * yoe + yoe / 4 - yoe / 100) in
  let mp := (5 * doy + 2) / 153 in
  let d := doy - (153 * mp + 2) / 5 + 1 in
  let m := if mp <? 10 then mp + 3 else mp - 9 in
  let y := yoe + era * 400 + (if m <=? 2 then 1 else 0) in
  concat_str [pad0 4 y; pad0 2 m; pad0 2 d; "T"; pad0 2 (rem / 3600); pad0 2 (rem mod 3600 / 60); pad0 2 (rem mod 60); "Z"].

(** The time as text, and in seconds. *)
Definition request_time (hs : Headers) : AuthError + string * Z :=
  match header hs "x-amz-date" with
  | Some v => let v := trim v in secs ← ok_or Malformed (parse_iso_basic v); inr (v, secs)
  | None =>
      v ← ok_or Malformed (header hs "date");
      secs ← ok_or Malformed (parse_rfc1123 (trim v));
      inr (format_iso_basic secs, secs)
  end.

(** ** The [Authorization] header *)

Record Fields := mkFields { f_cred : option string; f_signed : option string; f_sig : option string }.
Definition read_field (f : Fields) (part : string) : Fields :=
  let part := trim part in
  match strip_prefix "Credential=" part, strip_prefix "SignedHeaders=" part, strip_prefix "Signature=" part with
  | Some v, _, _ => mkFields (Some v) (f_signed f) (f_sig f)
  | None, Some v, _ => mkFields (f_cred f) (Some v) (f_sig f)
  | None, None, Some v => mkFields (f_cred f) (f_signed f) (Some v)
  | None, None, None => f
  end.

Definition starts_blank (s : string) : bool := match s with String c _ => (chr c =? 32) || (chr c =? 9) | "" => false end.

Definition parse_authorization (auth : string) : AuthError + Parsed :=
  rest ← ok_or Malformed (strip_prefix ALGORITHM (trim auth));
  if negb (starts_blank rest) then inl Malformed
  else match foldl read_field (mkFields None None None) (split_char "," rest) with
  | mkFields (Some cred) (Some signed) (Some sig) =>
      match split_char "/" cred with
      | [key; date; region; service; end_] =>
          if String.eqb region "" || negb (str_len date =? 8) then inl Malformed
          else if negb (str_all is_digit date) then inl Malformed
          else if negb (String.eqb service "s3") || negb (String.eqb end_ "aws4_request") then inl Malformed
          else
            let signed := List.map (fun h => str_lower (trim h)) (split_char ";" signed) in
            if existsb (String.eqb "") signed then inl Malformed
            else signature ← ok_or Malformed (hex_decode sig); inr (mkParsed key date region signed signature)
      | _ => inl Malformed
      end
  | _ => inl Malformed
  end.

Definition access_key_id (hs : Headers) : AuthError + string :=
  auth ← ok_or Missing (header hs "authorization");
  p ← parse_authorization auth;
  inr (ps_access_key p).

(** ** The canonical request *)

Definition lf : string := String (ascii_of_N 10) "".

Definition pair_leb (a b : string * string) : bool :=
  if String.eqb (fst a) (fst b) then String.leb (snd a) (snd b) else String.leb (fst a) (fst b).

Fixpoint decoded_pairs (raw : list string) : option (list (string * string)) :=
  match raw with
  | [] => Some []
  | kv :: rest =>
      let '(k, v) := match split_once "=" kv with Some kv => kv | None => (kv, "") end in
      k ← pct_decode k; v ← pct_decode v; t ← decoded_pairs rest; Some ((k, v) :: t)
  end.
Definition query_parts (raw : string) : list string := List.filter (fun s => negb (String.eqb s "")) (split_char "&" raw).
Definition encoded_pair (kv : string * string) : string := concat_str [aws_encode (fst kv); "="; aws_encode (snd kv)].

Definition canonical_query (raw : string) : AuthError + string :=
  pairs ← ok_or Malformed (decoded_pairs (query_parts raw));
  inr (str_join "&" (List.map encoded_pair (stable_sort pair_leb pairs))).

Definition values_for (hs : Headers) (name : string) : list string :=
  List.map (fun h => str_join " " (split_whitespace (snd h))) (List.filter (fun h => same_name (fst h) name) hs).

Fixpoint canon_headers (hs : Headers) (names : list string) : option string :=
  match names with
  | [] => Some ""
  | name :: names =>
      match values_for hs name with
      | [] => None
      | vals => rest ← canon_headers hs names; Some (concat_str [name; ":"; str_join "," vals; lf; rest])
      end
  end.

Definition sorted_names (signed : list string) : list string := dedup String.eqb (stable_sort String.leb signed).

Definition canonical_request (method raw_path raw_query : string) (hs : Headers) (signed : list string) (payload_hash : string)
  : AuthError + string :=
  heads ← ok_or Malformed (canon_headers hs (sorted_names signed));
  let path := if String.eqb raw_path "" then "/" else raw_path in
  q ← canonical_query raw_query;
  inr (concat_str [method; lf; path; lf; q; lf; heads; lf; str_join ";" signed; lf; payload_hash]).

Definition abs_diff (a b : Z) : Z := Z.abs (a - b).

Section Sign.
Context (sha256 : bytes -> bytes) (hmac : bytes -> bytes -> bytes).

Record Derived := mkDerived { dv_key : bytes; string_to_sign : string }.

Definition signature_for (secret amz_date date region canonical : string) : Derived :=
  let k := hmac (str_bytes (String.append "AWS4" secret)) (str_bytes date) in
  let k := hmac k (str_bytes region) in
  let k := hmac k (str_bytes "s3") in
  let key := hmac k (str_bytes "aws4_request") in
  mkDerived key (concat_str [ALGORITHM; lf; amz_date; lf; date; "/"; region; "/s3/aws4_request"; lf; hex (sha256 (str_bytes canonical))]).

Definition verify (creds : Credentials) (method raw_path raw_query : string) (hs : Headers) (now : Z) : AuthError + unit :=
  auth ← ok_or Missing (header hs "authorization");
  p ← parse_authorization auth;
  let key_known := ct_eq (ps_access_key p) (access_key creds) in
  '(amz_date, request_secs) ← request_time hs;
  if (str_len amz_date <? 8) || negb (String.eqb (str_take 8 amz_date) (ps_date p)) then inl Malformed
  else if MAX_SKEW_SECS <? abs_diff now request_secs then inl Expired
  else
    let has h := existsb (String.eqb h) (ps_signed p) in
    if negb (has "host") || negb (has "x-amz-date" || has "date") then inl Malformed
    else
      payload_hash ← ok_or Malformed (header hs "x-amz-content-sha256");
      canonical ← canonical_request method raw_path raw_query hs (ps_signed p) (trim payload_hash);
      let expected := signature_for (secret_key creds) amz_date (ps_date p) (ps_region p) canonical in
      let signed_ok := bool_decide (hmac (dv_key expected) (str_bytes (string_to_sign expected)) = ps_signature p) in
      match key_known, signed_ok with
      | true, true => inr tt
      | true, false => inl BadSignature
      | false, _ => inl UnknownKey
      end.

(** ** Presigning *)

(** The query in front of its signature: the first five names, the algorithm, the
    date and the seconds are written as they are. *)
Definition presigned_query (creds : Credentials) (amz_date region : string) (expires_secs : Z) (signed : list string)
    (extra : list (string * string)) : string :=
  foldl (fun q kv => concat_str [q; "&"; aws_encode (fst kv); "="; aws_encode (snd kv)])
    (concat_str ["X-Amz-Algorithm="; ALGORITHM; "&X-Amz-Credential=";
       aws_encode (concat_str [access_key creds; "/"; str_take 8 amz_date; "/"; region; "/s3/aws4_request"]);
       "&X-Amz-Date="; amz_date; "&X-Amz-Expires="; show_Z expires_secs; "&X-Amz-SignedHeaders="; aws_encode (str_join ";" signed)])
    extra.

(** [None] is the [expect] that would panic. *)
Definition presign_with_query (creds : Credentials) (method host raw_path region : string) (now expires_secs : Z)
    (hs : Headers) (extra : list (string * string)) : option string :=
  let amz_date := format_iso_basic now in
  let all := ("host", host) :: List.map (fun h => (str_lower (fst h), snd h)) hs in
  let signed := dedup String.eqb (stable_sort String.leb (List.map fst all)) in
  let query := presigned_query creds amz_date region expires_secs signed extra in
  match canonical_request method raw_path query all signed "UNSIGNED-PAYLOAD" with
  | inl _ => None
  | inr canonical =>
      let d := signature_for (secret_key creds) amz_date (str_take 8 amz_date) region canonical in
      let signature := hex (hmac (dv_key d) (str_bytes (string_to_sign d))) in
      let path := if String.eqb raw_path "" then "/" else raw_path in
      Some (concat_str [path; "?"; query; "&X-Amz-Signature="; signature])
  end.

Definition presign (creds : Credentials) (method host raw_path region : string) (now expires_secs : Z) (hs : Headers) : option string :=
  presign_with_query creds method host raw_path region now expires_secs hs [].
End Sign.

Definition encode_segment (segment : string) : string := aws_encode segment.


(** ** Texts *)

Definition lacks (c : ascii) (s : string) : bool := str_all (fun a => negb (Ascii.eqb a c)) s.
Definition LF : ascii := ascii_of_N 10.

Lemma lacks_app c a b : lacks c (String.append a b) = lacks c a && lacks c b.
Proof. apply str_all_app. Qed.

Lemma split_once_at c a b : lacks c a = true -> split_once c (String.append a (String c b)) = Some (a, b).
Proof.
  induction a as [|x a IH]; cbn [String.append split_once].
  - by rewrite Ascii.eqb_refl.
  - cbn. intros [Hx Ha]%andb_prop. apply negb_true_iff in Hx. rewrite Hx. by rewrite (IH Ha).
Qed.

(** Two texts cut at the first occurrence of a character. *)
Lemma cut_inj c a b a' b' : lacks c a = true -> lacks c a' = true ->
  String.append a (String c b) = String.append a' (String c b') -> a = a' /\ b = b'.
Proof. intros Ha Ha' E. pose proof (split_once_at c a b Ha) as H. rewrite E, (split_once_at c a' b' Ha') in H. by injection H as -> ->. Qed.

Lemma app_inj_l a b b' : String.append a b = String.append a b' -> b = b'.
Proof. induction a as [|c a IH]; cbn; [done|]. intros [= E]. auto. Qed.

Lemma lacks_join c sep l : lacks c sep = true -> Forall (fun w => lacks c w = true) l -> lacks c (str_join sep l) = true.
Proof.
  intros Hs. induction 1 as [|w [|w2 l] Hw _ IH]; [done|done|]. cbn [str_join] in *. by rewrite !lacks_app, Hw, Hs, IH.
Qed.

(** A word holds no blank. *)
Lemma ws_split_lf s : forall skip, Forall (fun w => lacks LF w = true) (ws_split skip s).
Proof.
  induction s as [|c s IH]; intros skip; [by repeat constructor|]. cbn [ws_split]. destruct skip as [|k]; [|apply IH].
  destruct (ws_len (String c s)) eqn:E; [|constructor; [done|apply IH]].
  assert (Hc : Ascii.eqb c LF = false).
  { destruct (Ascii.eqb_spec c LF) as [->|]; [|done]. by vm_compute in E. }
  specialize (IH 0%nat). destruct (ws_split 0 s) as [|w ws]; [apply Forall_singleton; unfold lacks; cbn [str_all]; by rewrite Hc|].
  apply Forall_cons in IH as [Hw Hws]. constructor; [|done]. unfold lacks in *. cbn [str_all]. by rewrite Hc.
Qed.

Lemma split_whitespace_lf s : Forall (fun w => lacks LF w = true) (split_whitespace s).
Proof. apply List.Forall_forall. intros w Hw. apply filter_In in Hw as [Hw _]. revert w Hw. apply List.Forall_forall, (ws_split_lf s 0). Qed.

(** ** Percent encoding *)

Definition plain_char (c : ascii) : bool := unreserved c || Ascii.eqb c "%".

Lemma hex_upper_plain d : 0 <= d < 16 -> plain_char (hex_upper d) = true.
Proof. intros H. assert (Hd : In d (List.map Z.of_nat (seq 0 16))) by (apply in_map_iff; exists (Z.to_nat d); split; [lia|apply in_seq; lia]).
  revert d Hd H. apply (List.Forall_forall (fun d => 0 <= d < 16 -> plain_char (hex_upper d) = true)). repeat constructor. Qed.

Lemma chr_range c : 0 <= chr c < 256.
Proof. unfold chr. pose proof (N_ascii_bounded c). lia. Qed.

Lemma aws_encode_plain s : str_all plain_char (aws_encode s) = true.
Proof.
  induction s as [|c s IH]; [done|]. cbn [aws_encode]. destruct (unreserved c) eqn:E; cbn [str_all].
  - unfold plain_char at 1. by rewrite E, IH.
  - pose proof (chr_range c). rewrite IH, (hex_upper_plain (chr c / 16)), (hex_upper_plain (chr c mod 16)); [done|by apply Z.mod_pos_bound|dlia].
Qed.

Lemma plain_lacks c s : plain_char c = false -> str_all plain_char s = true -> lacks c s = true.
Proof. intros Hc. apply str_all_impl. intros a Ha. destruct (Ascii.eqb_spec a c) as [->|]; [congruence|done]. Qed.

Lemma pair_of_upper c : Base64.hex_pair (hex_upper (chr c / 16)) (hex_upper (chr c mod 16)) = Some (Ascii.byte_of_ascii c).
Proof. destruct c as [[] [] [] [] [] [] [] []]; vm_compute; reflexivity. Qed.

(** A byte comes back however it was written. *)
Lemma pct_decode_char c r : pct_decode (if unreserved c then String c r else String "%" (String (hex_upper (chr c / 16)) (String (hex_upper (chr c mod 16)) r)))
  = String c <$> pct_decode r.
Proof.
  destruct (unreserved c) eqn:E.
  - cbn [pct_decode]. assert (Ascii.eqb c "%" = false /\ Ascii.eqb c "+" = false) as [-> ->].
    { split; apply Ascii.eqb_neq; intros ->; by vm_compute in E. }
    by destruct (pct_decode r).
  - cbn [pct_decode]. rewrite Ascii.eqb_refl, pair_of_upper. cbn [mbind option_bind]. rewrite Ascii.ascii_of_byte_of_ascii. by destruct (pct_decode r).
Qed.

Lemma pct_decode_app a b : pct_decode (String.append (aws_encode a) b) = String.append a <$> pct_decode b.
Proof.
  induction a as [|c a IH]; [cbn; by destruct (pct_decode b)|]. cbn [aws_encode].
  pose proof (pct_decode_char c (String.append (aws_encode a) b)) as H. destruct (unreserved c); cbn [String.append] in *; rewrite H, IH; by destruct (pct_decode b).
Qed.

Lemma pct_decode_encode s : pct_decode (aws_encode s) = Some s.
Proof. pose proof (pct_decode_app s "") as H. rewrite !str_app_nil_r in H. cbn in H. by rewrite str_app_nil_r in H. Qed.

(** ** Queries *)

Lemma encoded_pair_lacks c kv : plain_char c = false -> c <> "="%char -> lacks c (encoded_pair kv) = true.
Proof.
  intros Hc Hne. unfold encoded_pair. cbn [concat_str fold_right]. rewrite !lacks_app. rewrite (plain_lacks c (aws_encode (fst kv)) Hc), (plain_lacks c (aws_encode (snd kv)) Hc) by apply aws_encode_plain.
  unfold lacks. cbn [str_all]. destruct (Ascii.eqb_spec "=" c) as [E|E]; [by subst|reflexivity].
Qed.

Lemma split_char_cons c a b : lacks c a = true -> split_char c (String.append a (String c b)) = a :: split_char c b.
Proof.
  intros Ha. unfold split_char. induction a as [|x a IH]; cbn [String.append split_on].
  - by rewrite Ascii.eqb_refl.
  - cbn in Ha. apply andb_prop in Ha as [Hx Ha]. rewrite (IH Ha). rewrite Ascii.eqb_sym. apply negb_true_iff in Hx. by rewrite Hx.
Qed.

Lemma split_char_one c a : lacks c a = true -> split_char c a = [a].
Proof. intros Ha. apply split_on_none. revert Ha. apply str_all_impl. intros x. by rewrite Ascii.eqb_sym. Qed.

Lemma split_char_join c sep l : sep = String c "" -> l <> [] -> Forall (fun w => lacks c w = true) l -> split_char c (str_join sep l) = l.
Proof.
  intros -> Hl. induction 1 as [|w [|w2 l] Hw _ IH]; [done|by apply split_char_one|]. cbn [str_join String.append] in *. rewrite split_char_cons by done.
  f_equal. by apply IH.
Qed.

Lemma decoded_pair kv rest : decoded_pairs (encoded_pair kv :: rest) = cons kv <$> decoded_pairs rest.
Proof.
  destruct kv as [k v]. cbn [decoded_pairs encoded_pair fst snd concat_str fold_right]. rewrite str_app_nil_r.
  change (String.append "=" (aws_encode v)) with (String "="%char (aws_encode v)).
  rewrite split_once_at by (apply plain_lacks; [done|apply aws_encode_plain]). rewrite !pct_decode_encode. cbn [mbind option_bind]. by destruct (decoded_pairs rest).
Qed.

Lemma decoded_encoded l : decoded_pairs (List.map encoded_pair l) = Some l.
Proof. induction l as [|kv l IH]; [done|]. cbn [List.map]. by rewrite decoded_pair, IH. Qed.

Lemma encoded_nonempty kv : String.eqb (encoded_pair kv) "" = false.
Proof. unfold encoded_pair. cbn [concat_str fold_right]. destruct (aws_encode (fst kv)); done. Qed.

(** A query written in canonical form reads back as its pairs. *)
Lemma query_reads_back l : decoded_pairs (query_parts (str_join "&" (List.map encoded_pair l))) = Some l.
Proof.
  destruct l as [|kv l]; [done|]. unfold query_parts. rewrite (split_char_join "&" "&"); [|done|done|].
  - rewrite filter_true; [apply decoded_encoded|]. apply List.Forall_forall. intros w Hw. apply in_map_iff in Hw as (x & <- & _). by rewrite encoded_nonempty.
  - apply List.Forall_forall. intros w Hw. apply in_map_iff in Hw as (x & <- & _). by apply encoded_pair_lacks.
Qed.

(** One canonical query, one collection of parameters. *)
Lemma canonical_query_inj q q' c : canonical_query q = inr c -> canonical_query q' = inr c ->
  exists pairs pairs', decoded_pairs (query_parts q) = Some pairs /\ decoded_pairs (query_parts q') = Some pairs' /\ Permutation pairs pairs'.
Proof.
  unfold canonical_query. destruct (decoded_pairs (query_parts q)) as [l|]; [|done]. destruct (decoded_pairs (query_parts q')) as [l'|]; [|done].
  cbn. intros [= <-] [= E]. exists l, l'. split_and!; [done..|].
  pose proof (query_reads_back (stable_sort pair_leb l)) as H. rewrite <- E, query_reads_back in H. injection H as H.
  rewrite <- (stable_sort_perm pair_leb l), <- (stable_sort_perm pair_leb l'). by rewrite H.
Qed.

Lemma canonical_query_lf q c : canonical_query q = inr c -> lacks LF c = true.
Proof.
  unfold canonical_query. destruct (decoded_pairs _) as [l|]; [|done]. cbn. intros [= <-]. apply lacks_join; [done|].
  apply List.Forall_forall. intros w Hw. apply in_map_iff in Hw as (x & <- & _). by apply encoded_pair_lacks.
Qed.

(** ** Times *)

Definition iso_text (y m d h mi s : Z) : string := concat_str [pad0 4 y; pad0 2 m; pad0 2 d; "T"; pad0 2 h; pad0 2 mi; pad0 2 s; "Z"].

Lemma format_civil secs : 0 <= secs < 2 ^ 60 -> format_iso_basic secs =
  let '(y, m, d) := Civil.civil_from_days (secs / 86400) in iso_text y m d (secs mod 86400 / 3600) (secs mod 86400 mod 3600 / 60) (secs mod 86400 mod 60).
Proof.
  intros Hs. assert (0 <= secs / 86400 < 2 ^ 61) by dlia. rewrite civil_from_days_of by lia. unfold format_iso_basic, civil_of, month_day.
  set (z := secs / 86400 + 719468). fold (year_num (z mod 146097)). change (year_num (z mod 146097) / 365) with (year_of (z mod 146097)).
  set (doe := z mod 146097). set (yoe := year_of doe). cbv zeta.
  replace (doe - (365 * yoe + yoe / 4 - yoe / 100)) with (doe - year_start yoe) by (unfold year_start; lia). reflexivity.
Qed.

Lemma to_unix_civil y mo d h mi s : 1970 <= y <= 9999 -> 1 <= mo <= 12 -> 1 <= d <= 31 -> 0 <= h <= 23 -> 0 <= mi <= 59 -> 0 <= s <= 60 ->
  to_unix y mo d h mi s = Some (Civil.days_from_civil y mo d * 86400 + h * 3600 + mi * 60 + s).
Proof.
  intros Hy Hm Hd Hh Hmi Hs. unfold to_unix.
  replace (negb _ || negb _ || negb _) with false by (symmetry; rewrite !orb_false_iff, !negb_false_iff, !andb_true_iff, !Z.leb_le; lia).
  replace ((23 <? h) || (59 <? mi) || (60 <? s)) with false by (symmetry; rewrite !orb_false_iff, !Z.ltb_ge; lia).
  rewrite days_from_civil_closed by lia. unfold days_before, day_of.
  destruct (Z.leb_spec mo 2); destruct (Z.ltb_spec 2 mo); try lia; f_equal.
  - replace (y - 1 - (y - 1) / 400 * 400) with ((y - 1) mod 400) by dlia.
    replace ((y - 1) / 4) with (100 * ((y - 1) / 400) + (y - 1) mod 400 / 4) by dlia.
    replace ((y - 1) / 100) with (4 * ((y - 1) / 400) + (y - 1) mod 400 / 100) by dlia. pose proof (Z.div_mod (y - 1) 400). lia.
  - replace (y - y / 400 * 400) with (y mod 400) by dlia.
    replace (y / 4) with (100 * (y / 400) + y mod 400 / 4) by dlia.
    replace (y / 100) with (4 * (y / 400) + y mod 400 / 100) by dlia. pose proof (Z.div_mod y 400). lia.
Qed.

Lemma num_pad0 w n : 0 <= n <= u64_max -> num (pad0 w n) = Some n.
Proof.
  intros Hn. unfold num. destruct (String.eqb_spec (pad0 w n) "") as [E|_]; [by destruct (pad0_nonempty w n)|].
  rewrite pad0_digits by lia. cbn [negb orb]. by apply parse_uint_pad0.
Qed.

Lemma two_chars n : 0 <= n < 100 -> exists a b, pad0 2 n = String a (String b "") /\ is_digit a = true /\ is_digit b = true.
Proof.
  intros Hn. pose proof (length_pad0 2 n ltac:(lia)) as Hl. pose proof (pad0_digits 2 n ltac:(lia)) as Hd.
  destruct (pad0 2 n) as [|a [|b [|c r]]]; cbn in Hl; try lia. exists a, b. cbn in Hd. apply andb_prop in Hd as [Ha Hd]. apply andb_prop in Hd as [Hb _]. done.
Qed.

Lemma four_chars n : 0 <= n < 10000 ->
  exists a b c d, pad0 4 n = String a (String b (String c (String d ""))) /\ is_digit a = true /\ is_digit b = true /\ is_digit c = true /\ is_digit d = true.
Proof.
  intros Hn. pose proof (length_pad0 4 n ltac:(lia)) as Hl. pose proof (pad0_digits 4 n ltac:(lia)) as Hd.
  destruct (pad0 4 n) as [|a [|b [|c [|d [|e r]]]]]; cbn in Hl; try lia. exists a, b, c, d. cbn in Hd.
  apply andb_prop in Hd as [Ha Hd]. apply andb_prop in Hd as [Hb Hd]. apply andb_prop in Hd as [Hc Hd]. apply andb_prop in Hd as [Hdd _]. done.
Qed.

Lemma digit_ascii c : is_digit c = true -> (chr c <? 128) = true.
Proof. unfold is_digit, in_range. intros H. zbool. apply Z.ltb_lt. lia. Qed.

Lemma parse_iso_text y m d h mi s : 0 <= y < 10000 -> 0 <= m < 100 -> 0 <= d < 100 -> 0 <= h < 100 -> 0 <= mi < 100 -> 0 <= s < 100 ->
  parse_iso_basic (iso_text y m d h mi s) = to_unix y m d h mi s.
Proof.
  intros Hy Hm Hd Hh Hmi Hs. unfold u64_max.
  pose proof (num_pad0 4 y ltac:(unfold u64_max; lia)) as Ny. pose proof (num_pad0 2 m ltac:(unfold u64_max; lia)) as Nm.
  pose proof (num_pad0 2 d ltac:(unfold u64_max; lia)) as Nd. pose proof (num_pad0 2 h ltac:(unfold u64_max; lia)) as Nh.
  pose proof (num_pad0 2 mi ltac:(unfold u64_max; lia)) as Nmi. pose proof (num_pad0 2 s ltac:(unfold u64_max; lia)) as Ns. revert Ny Nm Nd Nh Nmi Ns.
  unfold iso_text.
  destruct (four_chars y Hy) as (y1 & y2 & y3 & y4 & -> & Y1 & Y2 & Y3 & Y4). destruct (two_chars m Hm) as (m1 & m2 & -> & M1 & M2).
  destruct (two_chars d Hd) as (d1 & d2 & -> & D1 & D2). destruct (two_chars h Hh) as (h1 & h2 & -> & H1 & H2).
  destruct (two_chars mi Hmi) as (i1 & i2 & -> & I1 & I2). destruct (two_chars s Hs) as (s1 & s2 & -> & S1 & S2). intros Ny Nm Nd Nh Nmi Ns.
  cbn [concat_str fold_right String.append]. unfold parse_iso_basic, slice, at_is. cbn [str_take str_drop]. unfold is_ascii_str. cbn [str_all].
  change (chr "T" <? 128) with true. change (chr "Z" <? 128) with true. rewrite !digit_ascii by done. change (str_len _ =? 16) with true. cbn [negb orb andb]. rewrite !String.eqb_refl.
  rewrite Ny, Nm, Nd, Nh, Nmi, Ns. reflexivity.
Qed.

(** The seconds of the year 9999 end here. *)
Definition iso_end : Z := 253402300800.

Lemma format_fields secs : 0 <= secs < iso_end -> exists y m d h mi s, format_iso_basic secs = iso_text y m d h mi s /\ to_unix y m d h mi s = Some secs /\
  1970 <= y <= 9999 /\ 1 <= m <= 12 /\ 1 <= d <= 31 /\ 0 <= h <= 23 /\ 0 <= mi <= 59 /\ 0 <= s <= 59.
Proof.
  unfold iso_end. intros Hs. rewrite format_civil by lia. set (day := secs / 86400). assert (Hd : 0 <= day < 2932897) by (unfold day; dlia).
  pose proof (days_from_civil_from_days day ltac:(lia)) as Hc. destruct (Civil.civil_from_days day) as [[y m] d]. destruct Hc as (Hv & Hy & Hy1 & Hdays).
  assert (Hyr : 1970 <= y <= 9999).
  { apply (civil_year_bounds y m d 1970 9999); [exact Hv|lia|lia|lia| |lia]. rewrite Hdays.
    assert (Civil.days_from_civil 1970 1 1 = 0 /\ Civil.days_from_civil (9999 + 1) 1 1 = 2932897) as [-> ->] by (split; vm_compute; reflexivity). lia. }
  destruct Hv as [Hm Hdd]. pose proof (month_len_range (is_leap y) m).
  eexists y, m, d, _, _, _. split; [reflexivity|]. rewrite to_unix_civil by dlia. split; [|dlia]. rewrite Hdays. unfold day. f_equal. dlia.
Qed.

(** A time of the years 1970 to 9999 is read back as it was written. *)
Lemma iso_roundtrip secs : 0 <= secs < iso_end -> parse_iso_basic (format_iso_basic secs) = Some secs.
Proof.
  intros Hs. destruct (format_fields secs Hs) as (y & m & d & h & mi & s & -> & Hu & Hr). rewrite parse_iso_text by lia. done.
Qed.

(** What is read as a time holds no line feed. *)
Lemma num_digits s v : num s = Some v -> str_all is_digit s = true.
Proof. unfold num. destruct (_ || _) eqn:E; [done|]. apply orb_false_iff in E as [_ E]. intros _. by apply negb_false_iff in E. Qed.

Lemma digits_lack_lf s : str_all is_digit s = true -> lacks LF s = true.
Proof. apply str_all_impl. intros c Hc. destruct (Ascii.eqb_spec c LF) as [->|]; [by vm_compute in Hc|done]. Qed.

Lemma lacks_lf_list l : Forall (fun w => lacks LF w = true) l -> lacks LF (concat_str l) = true.
Proof. induction 1 as [|w l Hw _ IH]; [done|]. unfold concat_str in *. cbn [fold_right]. by rewrite lacks_app, Hw, IH. Qed.

Lemma sixteen v : str_len v = 16 -> v = concat_str [slice 0 4 v; slice 4 2 v; slice 6 2 v; slice 8 1 v; slice 9 2 v; slice 11 2 v; slice 13 2 v; slice 15 1 v].
Proof.
  unfold str_len. intros Hl. do 16 (destruct v as [|? v]; [cbn in Hl; lia|]). destruct v; [reflexivity|cbn [String.length] in Hl; lia].
Qed.

Lemma iso_lacks v secs : parse_iso_basic v = Some secs -> lacks LF v = true.
Proof.
  unfold parse_iso_basic. destruct (_ || _ || _ || _) eqn:E; [done|]. rewrite !orb_false_iff, !negb_false_iff in E. destruct E as [[[E1 _] E2] E3].
  apply Z.eqb_eq in E1. apply String.eqb_eq in E2, E3. intros H. bind_inv H y Ey. bind_inv H mo Em. bind_inv H d Ed. bind_inv H h Eh. bind_inv H mi Ei. bind_inv H s Es.
  rewrite (sixteen v E1). apply lacks_lf_list. rewrite E2, E3. repeat (apply List.Forall_cons); try (by eapply digits_lack_lf, num_digits); try done.
Qed.

Lemma num_range s v : num s = Some v -> 0 <= v.
Proof. unfold num. destruct (_ || _); [done|]. intros H. apply parse_uint_range in H. lia. Qed.

Lemma to_unix_range y mo d h mi s v : 0 <= h -> 0 <= mi -> 0 <= s -> to_unix y mo d h mi s = Some v -> 0 <= v < 2 ^ 60.
Proof.
  intros Hh Hmi Hs. unfold to_unix. destruct (_ || _ || _) eqn:E; [done|]. rewrite !orb_false_iff, !negb_false_iff in E. destruct E as [[E1 E2] E3].
  destruct (_ || _) eqn:E'; [done|]. rewrite !orb_false_iff in E'. destruct E' as [[F1 F2] F3]. zbool.
  destruct (Z.leb_spec mo 2); intros [= <-]; dlia.
Qed.

Lemma bind_inr {A B} (m : AuthError + A) (k : A -> AuthError + B) b : (m ≫= k) = inr b -> exists a, m = inr a /\ k a = inr b.
Proof. destruct m as [e|a]; [done|]. by exists a. Qed.
Lemma ok_or_inr {A} e (o : option A) a : ok_or e o = inr a -> o = Some a.
Proof. destruct o; [by intros [= <-]|done]. Qed.

Lemma rfc1123_range v secs : parse_rfc1123 v = Some secs -> 0 <= secs < 2 ^ 60.
Proof.
  unfold parse_rfc1123. destruct (negb _); [done|]. destruct (split_whitespace v) as [|a [|d [|mon [|y [|hms [|gmt [|]]]]]]]; try done.
  intros H. bind_inv H d' Ed. bind_inv H y' Ey. destruct (negb _); [done|]. bind_inv H mo Em.
  destruct (split_char ":" hms) as [|h [|mi [|s [|]]]]; try done. bind_inv H h' Eh. bind_inv H mi' Ei. bind_inv H s' Es.
  revert H. apply to_unix_range; by eapply num_range.
Qed.

Lemma format_lacks secs : 0 <= secs < 2 ^ 60 -> lacks LF (format_iso_basic secs) = true.
Proof.
  intros Hs. rewrite format_civil by done. assert (0 <= secs / 86400 < 2 ^ 59) by dlia.
  pose proof (days_from_civil_from_days (secs / 86400) ltac:(lia)) as Hc. destruct (Civil.civil_from_days (secs / 86400)) as [[y m] d].
  destruct Hc as ([Hm Hd] & Hy & _). apply lacks_lf_list.
  repeat (apply List.Forall_cons); try done; apply digits_lack_lf, pad0_digits; dlia.
Qed.

Lemma request_time_lacks hs amz secs : request_time hs = inr (amz, secs) -> lacks LF amz = true.
Proof.
  unfold request_time. destruct (header hs "x-amz-date") as [v|].
  - cbv zeta. intros H. apply bind_inr in H as (s & H & [= <- _]). apply ok_or_inr in H. by eapply iso_lacks.
  - intros H. apply bind_inr in H as (v & _ & H). apply bind_inr in H as (s & H & [= <- _]). apply ok_or_inr in H. by eapply format_lacks, rfc1123_range.
Qed.

(** ** What a canonical request was made from *)

Fixpoint lfs (s : string) : nat := match s with "" => 0 | String c r => (if Ascii.eqb c LF then 1 else 0) + lfs r end.

Lemma lfs_app a b : lfs (String.append a b) = (lfs a + lfs b)%nat.
Proof. induction a as [|c a IH]; [done|]. cbn [String.append lfs]. rewrite IH. lia. Qed.

Lemma lfs_lacks s : lfs s = 0%nat <-> lacks LF s = true.
Proof.
  induction s as [|c s IH]; [done|]. unfold lacks in *. cbn [lfs str_all]. rewrite andb_true_iff, negb_true_iff, <- IH. destruct (Ascii.eqb c LF); split; intros; lia || done || (split; [done|lia]).
Qed.

Definition signed_value (hs : Headers) (name : string) : string := str_join "," (values_for hs name).

Lemma signed_value_lacks hs name : lacks LF (signed_value hs name) = true.
Proof.
  apply lacks_join; [done|]. apply List.Forall_forall. intros w Hw. apply in_map_iff in Hw as (h & <- & _). apply lacks_join; [done|]. apply split_whitespace_lf.
Qed.

Lemma canon_headers_cons hs name names s : canon_headers hs (name :: names) = Some s ->
  exists rest, canon_headers hs names = Some rest /\ s = concat_str [name; ":"; signed_value hs name; lf; rest].
Proof.
  cbn [canon_headers]. unfold signed_value. destruct (values_for hs name) as [|v vs]; [done|]. intros H. bind_inv H tail_ E. injection H as <-. by exists tail_.
Qed.

Lemma canon_headers_lfs hs names s : canon_headers hs names = Some s -> lfs s = (list_sum (List.map lfs names) + List.length names)%nat.
Proof.
  revert s. induction names as [|n names IH]; intros s; [by intros [= <-]|]. intros H. apply canon_headers_cons in H as (rest & H & ->).
  specialize (IH rest H). cbn [concat_str fold_right]. rewrite !lfs_app, IH. rewrite (proj2 (lfs_lacks _) (signed_value_lacks hs n)). cbn [List.map list_sum fold_right List.length].
  change (lfs lf) with 1%nat. change (lfs ":") with 0%nat. change (lfs "") with 0%nat. unfold list_sum. lia.
Qed.

(** The same names in the same order: the values can be read off. *)
Lemma canon_headers_inj hs hs' names : forall s s' t t', canon_headers hs names = Some s -> canon_headers hs' names = Some s' ->
  String.append s t = String.append s' t' -> (forall n, In n names -> signed_value hs n = signed_value hs' n) /\ t = t'.
Proof.
  induction names as [|n names IH]; intros s s' t t'; [by intros [= <-] [= <-]|]. intros H H'.
  apply canon_headers_cons in H as (r & H & ->). apply canon_headers_cons in H' as (r' & H' & ->). cbn [concat_str fold_right]. rewrite !str_app_nil_r, !str_app_assoc.
  intros E. apply app_inj_l in E. apply app_inj_l in E. unfold lf in E. cbn [String.append] in E.
  apply cut_inj in E as [Ev E]; [|apply signed_value_lacks..]. destruct (IH _ _ _ _ H H' E) as [Hn Ht]. split; [|done]. intros m [<-|Hm]; [done|by apply Hn].
Qed.

Lemma dedup_from_in x l : forall y, In y (x :: l) -> In y (x :: dedup_from String.eqb x l).
Proof.
  revert x. induction l as [|z l IH]; intros x y H; [done|]. cbn [dedup_from]. destruct (String.eqb_spec x z) as [->|Hne].
  - destruct H as [<-|H]; [by left|]. apply IH in H. done.
  - destruct H as [<-|H]; [by left|]. right. by apply IH.
Qed.

Lemma sorted_names_in n signed : In n signed -> In n (sorted_names signed).
Proof.
  intros H. unfold sorted_names. assert (Hs : In n (stable_sort String.leb signed)) by (eapply Permutation_in; [symmetry; apply stable_sort_perm|done]).
  destruct (stable_sort String.leb signed) as [|x l]; [done|]. by apply dedup_from_in.
Qed.

Definition canonical_path (p : string) : string := if String.eqb p "" then "/" else p.

Lemma canonical_parts m p q hs signed payload c : canonical_request m p q hs signed payload = inr c ->
  exists heads q', canon_headers hs (sorted_names signed) = Some heads /\ canonical_query q = inr q' /\
    c = concat_str [m; lf; canonical_path p; lf; q'; lf; heads; lf; str_join ";" signed; lf; payload].
Proof.
  unfold canonical_request. intros H. apply bind_inr in H as (heads & Hh & H). apply ok_or_inr in Hh. cbv zeta in H.
  apply bind_inr in H as (q' & Hq & [= <-]). by exists heads, q'.
Qed.

(** The same canonical request under the same list of signed headers: when one of
    the two is of a request without line feeds, they are of one request. *)
Lemma canonical_binds m p q hs m' p' q' hs' signed payload payload' c :
  lacks LF m = true -> lacks LF p = true -> lacks LF payload = true ->
  canonical_request m p q hs signed payload = inr c -> canonical_request m' p' q' hs' signed payload' = inr c ->
  m = m' /\ canonical_path p = canonical_path p' /\ payload = payload' /\
  (forall n, In n signed -> signed_value hs n = signed_value hs' n) /\
  exists pairs pairs', decoded_pairs (query_parts q) = Some pairs /\ decoded_pairs (query_parts q') = Some pairs' /\ Permutation pairs pairs'.
Proof.
  intros Hm Hp Hl H H'. apply canonical_parts in H as (heads & cq & Hh & Hq & ->). apply canonical_parts in H' as (heads' & cq' & Hh' & Hq' & E).
  assert (Hp0 : lacks LF (canonical_path p) = true) by (unfold canonical_path; by destruct (String.eqb p "")).
  assert (Hz : lfs m' = 0%nat /\ lfs (canonical_path p') = 0%nat /\ lfs payload' = 0%nat).
  { pose proof (f_equal lfs E) as El. cbn [concat_str fold_right] in El. rewrite !lfs_app in El. rewrite (canon_headers_lfs _ _ _ Hh), (canon_headers_lfs _ _ _ Hh') in El.
    pose proof (proj2 (lfs_lacks _) (canonical_query_lf _ _ Hq)). pose proof (proj2 (lfs_lacks _) (canonical_query_lf _ _ Hq')).
    apply lfs_lacks in Hm, Hp0, Hl. change (lfs "") with 0%nat in El. lia. }
  destruct Hz as (Hm' & Hp' & Hl'). apply lfs_lacks in Hm', Hp', Hl'.
  cbn [concat_str fold_right] in E. unfold lf in E. rewrite !str_app_nil_r in E. cbn [String.append] in E.
  apply cut_inj in E as [-> E]; [|done..]. apply cut_inj in E as [Ep E]; [|done..].
  apply cut_inj in E as [<- E]; [|by eapply canonical_query_lf..].
  destruct (canon_headers_inj hs hs' _ _ _ _ _ Hh Hh' E) as [Hn Ht]. injection Ht as Ht. apply app_inj_l in Ht. injection Ht as Ht.
  split_and!; [done|done|done| |by eapply canonical_query_inj]. intros n Hin. by apply Hn, sorted_names_in.
Qed.

(** ** The header a client writes *)

Definition printable (c : ascii) : bool := (31 <? chr c) && (chr c <? 128).

Lemma printable_blank c : printable c = true -> graphic c = true \/ c = " "%char.
Proof.
  unfold printable, graphic. intros H. zbool. destruct (Z.eq_dec (chr c) 32) as [E|]; [right; by apply chr_inj|left]. rewrite andb_true_iff, !Z.ltb_lt. lia.
Qed.

Lemma trim_start_blank s : trim_start (String " " s) = trim_start s.
Proof. reflexivity. Qed.

Lemma trim_start_to s d : str_all printable s = true -> graphic d = true -> trim_start (String.append s (String d "")) <> "".
Proof.
  intros Hs Hd. induction s as [|c s IH].
  - unfold trim_start. cbn [String.append trim_start_aux]. by rewrite ws_len_graphic.
  - cbn [str_all] in Hs. apply andb_prop in Hs as [Hc Hs]. destruct (printable_blank c Hc) as [Hg| ->]; [|cbn [String.append]; rewrite trim_start_blank; auto].
    unfold trim_start. cbn [String.append trim_start_aux]. by rewrite ws_len_graphic.
Qed.

Lemma trim_end_to s d : str_all printable s = true -> graphic d = true -> trim_end (String.append s (String d "")) = String.append s (String d "").
Proof.
  intros Hs Hd. induction s as [|c s IH].
  - cbn [String.append trim_end]. rewrite trim_start_graphic by (cbn; by rewrite Hd). done.
  - pose proof (trim_start_to (String c s) d Hs Hd) as Hne. cbn [String.append] in *. cbn [trim_end]. apply String.eqb_neq in Hne. rewrite Hne.
    cbn [str_all] in Hs. apply andb_prop in Hs as [_ Hs]. by rewrite IH.
Qed.

(** A text between two characters that are no blanks. *)
Lemma trim_between c s d : graphic c = true -> str_all printable s = true -> graphic d = true ->
  trim (String c (String.append s (String d ""))) = String c (String.append s (String d "")).
Proof.
  intros Hc Hs Hd. unfold trim. replace (trim_start _) with (String c (String.append s (String d ""))).
  - apply (trim_end_to (String c s) d); [|done]. cbn [str_all]. rewrite Hs, andb_true_r. unfold graphic in Hc. unfold printable. zbool. rewrite andb_true_iff, !Z.ltb_lt. lia.
  - unfold trim_start. cbn [trim_start_aux]. by rewrite ws_len_graphic.
Qed.

Lemma trim_blank_graphic s : str_all graphic s = true -> trim (String " " s) = s.
Proof. intros Hs. unfold trim. rewrite trim_start_blank. by apply trim_graphic. Qed.

Lemma graphic_printable s : str_all graphic s = true -> str_all printable s = true.
Proof. apply str_all_impl. intros c. unfold graphic, printable. intros H. zbool. rewrite andb_true_iff, !Z.ltb_lt. lia. Qed.

Lemma last_char s : s <> "" -> exists t d, s = String.append t (String d "").
Proof.
  induction s as [|c s IH]; [done|]. intros _. destruct s as [|c2 s]; [by exists "", c|]. destruct IH as (t & d & ->); [done|]. by exists (String c t), d.
Qed.

Lemma hex_pairs_byte b : Base64.hex_digit (hex_char (byte_val b / 16)) = Some (byte_val b / 16) /\
  Base64.hex_digit (hex_char (byte_val b mod 16)) = Some (byte_val b mod 16).
Proof. destruct b; split; vm_compute; reflexivity. Qed.

Lemma hex_decode_hex bs : bs <> [] -> hex_decode (hex bs) = Some bs.
Proof.
  intros Hne. assert (H : hex_pairs (hex bs) = Some bs).
  { clear. induction bs as [|b bs IH]; [done|]. cbn [hex foldr]. fold (hex bs). unfold hex_byte. cbn [String.append hex_pairs].
    destruct (hex_pairs_byte b) as [-> ->]. rewrite IH. cbn [mbind option_bind]. repeat f_equal.
    pose proof (byte_val_range b). replace (byte_val b / 16 * 16 + byte_val b mod 16) with (byte_val b) by dlia. apply to_byte_val. }
  unfold hex_decode. destruct bs; [done|]. cbn [hex foldr] in *. unfold hex_byte in *. cbn [String.append] in *. done.
Qed.

Definition authorization_of (key date region : string) (names : list string) (signature : bytes) : string :=
  concat_str [ALGORITHM; " Credential="; key; "/"; date; "/"; region; "/s3/aws4_request, SignedHeaders="; str_join ";" names; ", Signature="; hex signature].

(** What the parts may be made of. *)
Definition part_ok (s : string) : bool := str_all (fun c => graphic c && negb (Ascii.eqb c ",") && negb (Ascii.eqb c "/")) s.
Definition name_ok (s : string) : bool :=
  negb (String.eqb s "") && String.eqb (str_lower s) s && str_all (fun c => graphic c && negb (Ascii.eqb c ",") && negb (Ascii.eqb c ";")) s.

Lemma part_ok_spec s : part_ok s = true -> str_all graphic s = true /\ lacks "," s = true /\ lacks "/" s = true.
Proof.
  unfold part_ok, lacks. intros H. split_and!; revert H; apply str_all_impl; intros c; rewrite !andb_true_iff; by intros [[? ?] ?].
Qed.
Lemma name_ok_spec s : name_ok s = true -> s <> "" /\ str_lower s = s /\ str_all graphic s = true /\ lacks "," s = true /\ lacks ";" s = true.
Proof.
  unfold name_ok, lacks. rewrite !andb_true_iff, negb_true_iff, String.eqb_neq, String.eqb_eq. intros [[H1 H2] H]. split; [done|]. split; [done|].
  split_and!; revert H; apply str_all_impl; intros c; rewrite !andb_true_iff; by intros [[? ?] ?].
Qed.

Lemma all_join p sep l : str_all p sep = true -> Forall (fun w => str_all p w = true) l -> str_all p (str_join sep l) = true.
Proof. intros Hs. induction 1 as [|w [|w2 l] Hw _ IH]; [done|done|]. cbn [str_join] in *. by rewrite !str_all_app, Hw, Hs, IH. Qed.

Lemma hex_lacks_comma bs : lacks "," (hex bs) = true.
Proof.
  assert (H : forall b, lacks "," (hex_byte b) = true) by (intros b; destruct b; reflexivity).
  induction bs as [|b bs IH]; [done|]. cbn [hex foldr]. fold (hex bs). by rewrite lacks_app, H, IH.
Qed.

(** The header a client writes is read as its parts. *)
Lemma authorization_reads_back key date region names signature :
  part_ok key = true -> part_ok region = true -> region <> "" -> str_all is_digit date = true -> str_len date = 8 ->
  names <> [] -> Forall (fun n => name_ok n = true) names -> signature <> [] ->
  parse_authorization (authorization_of key date region names signature) = inr (mkParsed key date region names signature).
Proof.
  intros Hk Hr Hrne Hd Hdl Hn Hns Hs. destruct (part_ok_spec _ Hk) as (Kg & Kc & Kl). destruct (part_ok_spec _ Hr) as (Rg & Rc & Rl).
  assert (Dg : str_all graphic date = true) by (by apply digits_graphic).
  assert (Dc : lacks "," date = true /\ lacks "/" date = true).
  { split; revert Hd; apply str_all_impl; intros c Hc; (destruct (Ascii.eqb_spec c ",") as [->|]; [by vm_compute in Hc|]); by destruct (Ascii.eqb_spec c "/") as [->|]; [vm_compute in Hc|]. }
  assert (Ng : str_all graphic (str_join ";" names) = true).
  { apply all_join; [done|]. eapply Forall_impl; [exact Hns|]. intros n H. by apply name_ok_spec in H as (_ & _ & H & _). }
  assert (Nc : lacks "," (str_join ";" names) = true).
  { apply lacks_join; [done|]. eapply Forall_impl; [exact Hns|]. intros n H. by apply name_ok_spec in H as (_ & _ & _ & H & _). }
  set (cred := concat_str [key; "/"; date; "/"; region; "/s3/aws4_request"]).
  assert (Cg : str_all graphic cred = true) by (unfold cred; cbn [concat_str fold_right]; rewrite !str_all_app, Kg, Dg, Rg; reflexivity).
  assert (Cc : lacks "," cred = true) by (unfold cred; cbn [concat_str fold_right]; rewrite !lacks_app, Kc, (proj1 Dc), Rc; reflexivity).
  set (rest := String.append " Credential=" (String.append cred (String.append ", SignedHeaders=" (String.append (str_join ";" names) (String.append ", Signature=" (hex signature)))))).
  assert (Ea : authorization_of key date region names signature = String.append ALGORITHM rest).
  { unfold authorization_of, rest, cred. cbn [concat_str fold_right]. rewrite !str_app_nil_r, !str_app_assoc. reflexivity. }
  unfold parse_authorization. rewrite Ea.
  assert (Et : trim (String.append ALGORITHM rest) = String.append ALGORITHM rest).
  { destruct (last_char (hex signature)) as (t & d & Eh); [destruct signature; done|].
    pose proof (hex_graphic signature) as Hg. rewrite Eh, str_all_app in Hg. apply andb_prop in Hg as [Hg1 Hg2]. cbn in Hg2. rewrite andb_true_r in Hg2.
    unfold rest. rewrite Eh. change (String.append ALGORITHM ?x) with (String "A" (String.append "WS4-HMAC-SHA256" x)). rewrite <- !str_app_assoc. apply trim_between; [done| |done].
    rewrite !str_all_app. rewrite (graphic_printable _ Cg), (graphic_printable _ Ng), (graphic_printable _ Hg1). reflexivity. }
  rewrite Et, strip_prefix_app. cbn [ok_or mbind auth_bind]. replace (starts_blank rest) with true by reflexivity. cbn [negb].
  assert (Es : split_char "," rest = [String " " (String.append "Credential=" cred); String " " (String.append "SignedHeaders=" (str_join ";" names)); String " " (String.append "Signature=" (hex signature))]).
  { unfold rest. rewrite <- (str_app_assoc " Credential="). change (String.append ", SignedHeaders=" ?x) with (String "," (String.append " SignedHeaders=" x)).
    rewrite split_char_cons by (by rewrite lacks_app, Cc). rewrite <- (str_app_assoc " SignedHeaders="). change (String.append ", Signature=" ?x) with (String "," (String.append " Signature=" x)).
    rewrite split_char_cons by (by rewrite lacks_app, Nc). rewrite split_char_one by (by rewrite lacks_app, hex_lacks_comma). reflexivity. }
  rewrite Es. cbn [foldl]. unfold read_field at 3. rewrite (trim_blank_graphic (String.append "Credential=" cred)) by (by rewrite str_all_app, Cg). rewrite strip_prefix_app.
  unfold read_field at 2. rewrite (trim_blank_graphic (String.append "SignedHeaders=" _)) by (by rewrite str_all_app, Ng).
  replace (strip_prefix "Credential=" (String.append "SignedHeaders=" (str_join ";" names))) with (@None string) by reflexivity. rewrite strip_prefix_app.
  unfold read_field at 1. rewrite (trim_blank_graphic (String.append "Signature=" _)) by (by rewrite str_all_app, hex_graphic).
  replace (strip_prefix "Credential=" (String.append "Signature=" (hex signature))) with (@None string) by reflexivity.
  replace (strip_prefix "SignedHeaders=" (String.append "Signature=" (hex signature))) with (@None string) by reflexivity. rewrite strip_prefix_app. cbn [f_cred f_signed f_sig].
  assert (Esl : split_char "/" cred = [key; date; region; "s3"; "aws4_request"]).
  { unfold cred. cbn [concat_str fold_right]. change (String.append "/" (String.append region ?x)) with (String "/" (String.append region x)).
    change (String.append "/" ?x) with (String "/" x). rewrite split_char_cons by done. rewrite split_char_cons by apply Dc.
    change (String.append "/s3/aws4_request" "") with (String "/" "s3/aws4_request"). by rewrite split_char_cons by done. }
  rewrite Esl. apply String.eqb_neq in Hrne. rewrite Hrne, Hdl, Hd. cbn [negb orb String.eqb]. rewrite !Z.eqb_refl. cbn [negb orb].
  rewrite (split_char_join ";" ";"); [|done|done|eapply Forall_impl; [exact Hns|]; intros n H; by apply name_ok_spec in H as (_ & _ & _ & _ & H)].
  assert (Em : List.map (fun h => str_lower (trim h)) names = names).
  { rewrite <- (List.map_id names) at 2. apply map_ext_in. intros n Hin. rewrite List.Forall_forall in Hns. specialize (Hns n Hin).
    apply name_ok_spec in Hns as (_ & Hl & Hg & _). by rewrite trim_graphic. }
  rewrite Em. replace (existsb _ names) with false.
  - rewrite hex_decode_hex by done. reflexivity.
  - symmetry. apply not_true_iff_false. rewrite existsb_exists. intros ([|c n] & Hin & He); [|done].
    rewrite List.Forall_forall in Hns. by specialize (Hns _ Hin).
Qed.

(** ** What is accepted *)

Section Facts.
Context (sha256 : bytes -> bytes) (hmac : bytes -> bytes -> bytes).

Abbreviation verify_ := (verify sha256 hmac).
Abbreviation signature_for_ := (signature_for sha256 hmac).

(** All that an accepted request has to be. *)
Record Accepted (creds : Credentials) (m p q : string) (hs : Headers) (now : Z) (ps : Parsed) (amz : string) (secs : Z) (payload canonical : string) : Prop := {
  ac_auth : header hs "authorization" ≫= (fun a => match parse_authorization a with inr ps => Some ps | inl _ => None end) = Some ps;
  ac_key : ps_access_key ps = access_key creds;
  ac_time : request_time hs = inr (amz, secs);
  ac_date : str_take 8 amz = ps_date ps;
  ac_skew : abs_diff now secs <= MAX_SKEW_SECS;
  ac_host : In "host" (ps_signed ps);
  ac_dated : In "x-amz-date" (ps_signed ps) \/ In "date" (ps_signed ps);
  ac_payload : trim <$> header hs "x-amz-content-sha256" = Some payload;
  ac_canonical : canonical_request m p q hs (ps_signed ps) payload = inr canonical;
  ac_mac : let d := signature_for_ (secret_key creds) amz (ps_date ps) (ps_region ps) canonical in
           hmac (dv_key d) (str_bytes (string_to_sign d)) = ps_signature ps
}.

Lemma byte_lxor_zero a b : Z.lxor (byte_val a) (byte_val b) = 0 -> a = b.
Proof. intros H. apply Z.lxor_eq in H. by rewrite <- (to_byte_val a), <- (to_byte_val b), H. Qed.

Lemma ct_fold l k : forall d, 0 <= d -> 
  foldl (fun diff xy => Z.lor diff (Z.lxor (byte_val (fst xy)) (byte_val (snd xy)))) d (combine l k) = 0 -> d = 0 /\ (List.length l = List.length k -> l = k).
Proof.
  revert k. induction l as [|a l IH]; intros [|b k] d Hd; cbn [combine foldl]; try (intros ->; split; [done|done]).
  intros H. cbn [fst snd] in H. pose proof (byte_val_range a). pose proof (byte_val_range b).
  assert (0 <= Z.lxor (byte_val a) (byte_val b)) by (apply Z.lxor_nonneg; lia).
  apply IH in H as [H Hl]; [|by apply Z.lor_nonneg]. apply Z.lor_eq_0_iff in H as [-> H]. split; [done|]. intros [= E]. f_equal; [by apply byte_lxor_zero|by apply Hl].
Qed.

Lemma ct_same l : forall d, foldl (fun diff xy => Z.lor diff (Z.lxor (byte_val (fst xy)) (byte_val (snd xy)))) d (combine l l) = d.
Proof. induction l as [|a l IH]; intros d; [done|]. cbn [combine foldl fst snd]. by rewrite Z.lxor_nilpotent, Z.lor_0_r, IH. Qed.

Lemma str_bytes_inj a b : str_bytes a = str_bytes b -> a = b.
Proof. unfold str_bytes. intros H. by rewrite <- (string_of_list_byte_of_string a), <- (string_of_list_byte_of_string b), H. Qed.

Lemma length_str_bytes s : List.length (str_bytes s) = String.length s.
Proof. induction s as [|c s IH]; [done|]. change (S (List.length (str_bytes s)) = S (String.length s)). by rewrite IH. Qed.

(** The comparison that reads everything is equality. *)
Lemma ct_eq_spec a b : ct_eq a b = true <-> a = b.
Proof.
  unfold ct_eq. rewrite Z.eqb_eq. split.
  - destruct (Nat.eqb_spec (String.length a) (String.length b)) as [E|]; intros H; apply ct_fold in H as [H Hl]; try lia.
    apply str_bytes_inj, Hl. by rewrite !length_str_bytes.
  - intros ->. rewrite Nat.eqb_refl. apply ct_same.
Qed.

Lemma existsb_in h l : existsb (String.eqb h) l = true <-> In h l.
Proof. rewrite existsb_exists. split; [by intros (x & Hx & ->%String.eqb_eq)|]. intros H. exists h. by rewrite String.eqb_refl. Qed.

Lemma accepted_spec creds m p q hs now : verify_ creds m p q hs now = inr tt <->
  exists ps amz secs payload canonical, Accepted creds m p q hs now ps amz secs payload canonical /\ 8 <= str_len amz.
Proof.
  unfold verify. split.
  - intros H. apply bind_inr in H as (auth & Ha & H). apply ok_or_inr in Ha. apply bind_inr in H as (ps & Hp & H). cbv zeta in H.
    apply bind_inr in H as ([amz secs] & Ht & H). destruct ((str_len amz <? 8) || _) eqn:E1; [done|]. destruct (MAX_SKEW_SECS <? _) eqn:E2; [done|]. destruct (negb (existsb _ _) || _) eqn:E3; [done|].
    apply bind_inr in H as (payload & Hpl & H). apply ok_or_inr in Hpl. apply bind_inr in H as (canonical & Hc & H).
    destruct (ct_eq _ _) eqn:Ek; [|done]. case_bool_decide as Em; [|done].
    rewrite orb_false_iff, negb_false_iff in E1. destruct E1 as [E1 Ed]. rewrite !orb_false_iff, !negb_false_iff in E3. destruct E3 as [Eh Edt].
    exists ps, amz, secs, (trim payload), canonical. split; [|apply Z.ltb_ge in E1; lia]. constructor; try done.
    + rewrite Ha. cbn. by rewrite Hp.
    + by apply ct_eq_spec.
    + by apply String.eqb_eq.
    + by apply Z.ltb_ge.
    + by apply existsb_in.
    + apply orb_true_iff in Edt. by rewrite !existsb_in in Edt.
    + by rewrite Hpl.
  - intros (ps & amz & secs & payload & canonical & [] & Hl).
    destruct (header hs "authorization") as [auth|]; [|done]. cbn in ac_auth0. destruct (parse_authorization auth) as [?|ps'] eqn:Hp; [done|]. injection ac_auth0 as ->.
    cbn [ok_or mbind auth_bind]. rewrite Hp, ac_time0. cbv zeta. cbn [mbind auth_bind]. rewrite (proj2 (Z.ltb_ge _ _)) by lia. rewrite ac_date0, String.eqb_refl.
    cbn [negb orb]. rewrite (proj2 (Z.ltb_ge _ _)) by lia. rewrite (proj2 (existsb_in _ _) ac_host0). cbn [negb orb].
    replace (existsb _ _ || existsb _ _) with true.
    2:{ symmetry. apply orb_true_iff. by rewrite !existsb_in. }
    cbn [negb]. destruct (header hs "x-amz-content-sha256") as [pl|]; [|done]. cbn in ac_payload0. injection ac_payload0 as <-. cbn [ok_or mbind auth_bind].
    rewrite ac_canonical0. cbn [mbind auth_bind]. rewrite (proj2 (ct_eq_spec _ _) ac_key0). by rewrite bool_decide_true.
Qed.

Definition collision {A B} (f : A -> B) : Prop := exists x y, x <> y /\ f x = f y.

Lemma hex_inj a b : hex a = hex b -> a = b.
Proof. intros H. pose proof (unhex_hex a) as Ha. rewrite H, unhex_hex in Ha. by injection Ha. Qed.

(** C14: one [Authorization] header is good for one request.  Take a request that was
    accepted under it, whose method, path and payload hash hold no line feed (what a
    client sends), and any other, of any bytes, that is accepted under the same
    header: they have the same method and path, the same parameters up to order, the
    same value of every signed header, the same payload hash and the same time,
    unless SHA-256 or HMAC under one key has a collision. *)
Theorem one_signature_one_request (creds : Credentials) (m p q m' p' q' : string) (hs hs' : Headers) (now now' : Z) (payload : string) :
  header hs "authorization" = header hs' "authorization" ->
  lacks LF m = true -> lacks LF p = true -> header hs "x-amz-content-sha256" = Some payload -> lacks LF (trim payload) = true ->
  verify_ creds m p q hs now = inr tt -> verify_ creds m' p' q' hs' now' = inr tt ->
  (exists ps payload', header hs "authorization" ≫= (fun a => match parse_authorization a with inr ps => Some ps | inl _ => None end) = Some ps /\
    m = m' /\ canonical_path p = canonical_path p' /\
    (exists pairs pairs', decoded_pairs (query_parts q) = Some pairs /\ decoded_pairs (query_parts q') = Some pairs' /\ Permutation pairs pairs') /\
    (forall n, In n (ps_signed ps) -> signed_value hs n = signed_value hs' n) /\
    header hs' "x-amz-content-sha256" = Some payload' /\ trim payload = trim payload' /\
    exists amz secs secs', request_time hs = inr (amz, secs) /\ request_time hs' = inr (amz, secs')) \/
  collision sha256 \/ exists key, collision (hmac key).
Proof.
  intros Ha Hm Hp Hpl Hlf H H'. apply accepted_spec in H as (ps & amz & secs & pl & can & [] & _). apply accepted_spec in H' as (ps' & amz' & secs' & pl' & can' & [] & _).
  pose proof ac_auth0 as Hps. rewrite Ha, ac_auth1 in ac_auth0. injection ac_auth0 as <-. cbv zeta in *.
  rewrite Hpl in ac_payload0. cbn in ac_payload0. injection ac_payload0 as <-.
  pose proof (eq_trans ac_mac0 (eq_sym ac_mac1)) as E. unfold signature_for in E. cbn [dv_key string_to_sign] in E.
  match type of E with hmac ?k (str_bytes ?a) = hmac ?k (str_bytes ?b) => set (key := k) in E; set (sts := a) in E; set (sts' := b) in E end.
  destruct (decide (sts = sts')) as [Es|Hne]; [|right; right; exists key, (str_bytes sts), (str_bytes sts'); split; [by intros ?%str_bytes_inj|done]].
  unfold sts, sts' in Es. cbn [concat_str fold_right] in Es. apply app_inj_l in Es. apply app_inj_l in Es. unfold lf in Es. cbn [String.append] in Es.
  apply cut_inj in Es as [<- Es]; [|by eapply request_time_lacks..].
  apply app_inj_l in Es. injection Es as Es. apply app_inj_l in Es. injection Es as Es. rewrite !str_app_nil_r in Es. apply hex_inj in Es.
  destruct (decide (can = can')) as [<-|Hne]; [|right; left; exists (str_bytes can), (str_bytes can'); split; [by intros ?%str_bytes_inj|done]].
  left. destruct (header hs' "x-amz-content-sha256") as [pl''|] eqn:Hpl'; [|done]. cbn in ac_payload1. injection ac_payload1 as <-.
  destruct (canonical_binds m p q hs m' p' q' hs' _ _ _ can Hm Hp Hlf ac_canonical0 ac_canonical1) as (H1 & H2 & H3 & H4 & H5).
  eexists _, pl''. split; [exact Hps|]. split_and!; try done. by exists amz, secs, secs'.
Qed.

Lemma header_cons_ne name value hs h : same_name name h = false -> header ((name, value) :: hs) h = header hs h.
Proof. intros H. unfold header. cbn [List.find fst]. by rewrite H. Qed.

Lemma values_cons_ne name value hs h : same_name name h = false -> values_for ((name, value) :: hs) h = values_for hs h.
Proof. intros H. unfold values_for. cbn [List.filter fst]. by rewrite H. Qed.

Lemma canon_headers_ext hs hs' names : (forall n, In n names -> values_for hs n = values_for hs' n) -> canon_headers hs names = canon_headers hs' names.
Proof.
  induction names as [|n names IH]; intros H; [done|]. cbn [canon_headers]. rewrite (H n) by by left. rewrite IH; [done|]. intros m Hm. apply H. by right.
Qed.

Lemma sorted_names_sub n signed : In n (sorted_names signed) -> In n signed.
Proof.
  unfold sorted_names. intros H. apply (Permutation_in _ (stable_sort_perm String.leb signed)). revert H.
  generalize (stable_sort String.leb signed). intros [|x l]; [done|]. cbn [dedup]. intros [->|H]; [by left|].
  right. revert x H. induction l as [|y l IH]; intros x H; [done|]. cbn [dedup_from] in H. destruct (String.eqb x y); [right; by apply (IH x)|].
  destruct H as [->|H]; [by left|right; by apply (IH y)].
Qed.

(** The digits of the date. *)
Lemma date_of_format secs : 0 <= secs < iso_end -> str_all is_digit (str_take 8 (format_iso_basic secs)) = true /\ str_len (str_take 8 (format_iso_basic secs)) = 8 /\
  8 <= str_len (format_iso_basic secs) /\ trim (format_iso_basic secs) = format_iso_basic secs.
Proof.
  intros Hs. destruct (format_fields secs Hs) as (y & m & d & h & mi & s & -> & _ & Hr). unfold iso_text.
  destruct (four_chars y ltac:(lia)) as (y1 & y2 & y3 & y4 & -> & Y1 & Y2 & Y3 & Y4). destruct (two_chars m ltac:(lia)) as (m1 & m2 & -> & M1 & M2).
  destruct (two_chars d ltac:(lia)) as (d1 & d2 & -> & D1 & D2). destruct (two_chars h ltac:(lia)) as (h1 & h2 & -> & H1 & H2).
  destruct (two_chars mi ltac:(lia)) as (i1 & i2 & -> & I1 & I2). destruct (two_chars s ltac:(lia)) as (s1 & s2 & -> & S1 & S2).
  cbn [concat_str fold_right String.append str_take str_all]. rewrite Y1, Y2, Y3, Y4, M1, M2, D1, D2. split_and!; [done|done|by unfold str_len; cbn [String.length]; lia|].
  assert (Hg : forall c, is_digit c = true -> graphic c = true) by (intros c; unfold is_digit, graphic, in_range; intros H; zbool; rewrite andb_true_iff, !Z.ltb_lt; lia).
  apply trim_graphic. cbn [str_all]. change (graphic "T") with true. change (graphic "Z") with true. rewrite !Hg by done. reflexivity.
Qed.

(** What a client signs is accepted.  For any method, path, query and headers, a
    request that carries the time it was signed at and its payload's hash, signed
    over at least its host and that time with the key and secret of [creds], is
    accepted at any moment within the allowed skew. *)
Theorem signed_request_is_accepted (creds : Credentials) (m p q region payload canonical : string) (hs : Headers) (names : list string) (secs now : Z) :
  0 <= secs < iso_end -> abs_diff now secs <= MAX_SKEW_SECS ->
  part_ok (access_key creds) = true -> part_ok region = true -> region <> "" ->
  Forall (fun n => name_ok n = true) names -> In "host" names -> In "x-amz-date" names -> Forall (fun n => same_name "authorization" n = false) names ->
  header hs "x-amz-date" = Some (format_iso_basic secs) -> header hs "x-amz-content-sha256" = Some payload ->
  canonical_request m p q hs names (trim payload) = inr canonical ->
  let date := str_take 8 (format_iso_basic secs) in
  let d := signature_for_ (secret_key creds) (format_iso_basic secs) date region canonical in
  let signature := hmac (dv_key d) (str_bytes (string_to_sign d)) in
  signature <> [] ->
  verify_ creds m p q (("Authorization", authorization_of (access_key creds) date region names signature) :: hs) now = inr tt.
Proof.
  intros Hs Hskew Hk Hr Hrne Hns Hhost Hdt Hna Hd Hpl Hc date d signature Hne. destruct (date_of_format secs Hs) as (D1 & D2 & D3 & D4).
  apply accepted_spec. exists (mkParsed (access_key creds) date region names signature), (format_iso_basic secs), secs, (trim payload), canonical. split; [|done].
  assert (Hnn : names <> []) by (intros ->; done).
  constructor; cbn [ps_access_key ps_date ps_region ps_signed ps_signature]; try done.
  - change (header (("Authorization", ?v) :: hs) "authorization") with (Some v). cbn [mbind option_bind]. by rewrite authorization_reads_back.
  - unfold request_time. rewrite header_cons_ne, Hd by done. cbv zeta. rewrite D4, iso_roundtrip by done. reflexivity.
  - by left.
  - rewrite header_cons_ne, Hpl by done. done.
  - rewrite <- Hc. unfold canonical_request. f_equal. f_equal. apply canon_headers_ext. intros n Hn. apply values_cons_ne.
    apply sorted_names_sub in Hn. rewrite List.Forall_forall in Hna. by apply (Hna n).
Qed.
End Facts.

(** ** Presigning *)

Definition presigned_params (creds : Credentials) (amz_date region : string) (expires_secs : Z) (signed : list string)
    (extra : list (string * string)) : list (string * string) :=
  [("X-Amz-Algorithm", ALGORITHM);
   ("X-Amz-Credential", concat_str [access_key creds; "/"; str_take 8 amz_date; "/"; region; "/s3/aws4_request"]);
   ("X-Amz-Date", amz_date); ("X-Amz-Expires", show_Z expires_secs); ("X-Amz-SignedHeaders", str_join ";" signed)] ++ extra.

Lemma aws_encode_id s : str_all unreserved s = true -> aws_encode s = s.
Proof. induction s as [|c s IH]; [done|]. cbn [str_all aws_encode]. intros [-> H]%andb_prop. by rewrite IH. Qed.

Lemma digits_unreserved s : str_all is_digit s = true -> str_all unreserved s = true.
Proof. apply str_all_impl. intros c Hc. unfold unreserved, is_alnum. by rewrite Hc, orb_true_r. Qed.

Lemma hex_unreserved bs : str_all unreserved (hex bs) = true.
Proof.
  assert (H : forall b, str_all unreserved (hex_byte b) = true) by (intros b; destruct b; reflexivity).
  induction bs as [|b bs IH]; [done|]. cbn [hex foldr]. fold (hex bs). by rewrite str_all_app, H, IH.
Qed.

Lemma unreserved_list l : Forall (fun w => str_all unreserved w = true) l -> str_all unreserved (concat_str l) = true.
Proof. induction 1 as [|w l Hw _ IH]; [done|]. unfold concat_str in *. cbn [fold_right]. by rewrite str_all_app, Hw, IH. Qed.

Lemma format_unreserved secs : 0 <= secs < 2 ^ 60 -> str_all unreserved (format_iso_basic secs) = true.
Proof.
  intros Hs. rewrite format_civil by done. assert (0 <= secs / 86400 < 2 ^ 59) by dlia.
  pose proof (days_from_civil_from_days (secs / 86400) ltac:(lia)) as Hc. destruct (Civil.civil_from_days (secs / 86400)) as [[y m] d].
  destruct Hc as ([Hm Hd] & Hy & _). apply unreserved_list.
  repeat (apply List.Forall_cons); try done; apply digits_unreserved, pad0_digits; dlia.
Qed.

Lemma join_snoc sep l w : l <> [] -> str_join sep (l ++ [w]) = String.append (str_join sep l) (String.append sep w).
Proof.
  induction l as [|a [|b l] IH]; intros H; [done|done|]. cbn [app str_join] in *. rewrite IH by done. by rewrite !str_app_assoc.
Qed.

Lemma join_more l extra : l <> [] ->
  foldl (fun q kv => concat_str [q; "&"; aws_encode (fst kv); "="; aws_encode (snd kv)]) (str_join "&" l) extra = str_join "&" (l ++ List.map encoded_pair extra).
Proof.
  revert l. induction extra as [|kv extra IH]; intros l Hl; [by rewrite app_nil_r|]. cbn [foldl List.map].
  replace (concat_str _) with (str_join "&" (l ++ [encoded_pair kv])).
  - rewrite IH by (by destruct l). by rewrite <- app_assoc.
  - by rewrite join_snoc.
Qed.

Lemma presigned_query_params creds now region expires signed extra : 0 <= now < 2 ^ 60 -> 0 <= expires ->
  presigned_query creds (format_iso_basic now) region expires signed extra =
  str_join "&" (List.map encoded_pair (presigned_params creds (format_iso_basic now) region expires signed extra)).
Proof.
  intros Hn He. unfold presigned_params. rewrite map_app. rewrite <- join_more by done. unfold presigned_query. f_equal.
  cbn [List.map str_join]. unfold encoded_pair. cbn [fst snd]. rewrite (aws_encode_id (format_iso_basic now)) by (by apply format_unreserved).
  rewrite (aws_encode_id (show_Z expires)) by (by apply digits_unreserved, show_Z_digits).
  rewrite (aws_encode_id ALGORITHM) by reflexivity. cbn [concat_str fold_right]. rewrite !str_app_nil_r, !str_app_assoc. reflexivity.
Qed.

Lemma values_of_own hs names : (forall n, In n names -> In n (List.map fst hs)) -> exists s, canon_headers hs names = Some s.
Proof.
  induction names as [|n names IH]; intros H; [by exists ""|]. destruct IH as [s Hs]; [intros m Hm; apply H; by right|]. cbn [canon_headers].
  destruct (values_for hs n) as [|v vs] eqn:E.
  - exfalso. assert (Hin : In n (List.map fst hs)) by (apply H; by left). apply in_map_iff in Hin as (h & <- & Hin).
    unfold values_for in E. apply map_eq_nil in E. assert (Hf : In h (List.filter (fun h' => same_name (fst h') (fst h)) hs)); [|by rewrite E in Hf].
    apply filter_In. split; [done|]. unfold same_name. apply String.eqb_refl.
  - rewrite Hs. by eexists.
Qed.

Lemma signature_pair bs : encoded_pair ("X-Amz-Signature", hex bs) = String.append "X-Amz-Signature=" (hex bs).
Proof. unfold encoded_pair. cbn [fst snd]. rewrite (aws_encode_id (hex bs)) by apply hex_unreserved. cbn [concat_str fold_right]. by rewrite str_app_nil_r. Qed.

(** Presigning always gives an address, whatever the key, host, path, region,
    headers and parameters: the step the code expects to succeed does, and the query
    of the address reads back as the parameters of the scheme, those asked for, and
    the signature of the request they make. *)
Theorem presigned_address_reads_back sha256 hmac (creds : Credentials) (method host raw_path region : string) (now expires : Z)
    (hs : Headers) (extra : list (string * string)) : 0 <= now < 2 ^ 60 -> 0 <= expires ->
  let all := ("host", host) :: List.map (fun h => (str_lower (fst h), snd h)) hs in
  let signed := sorted_names (List.map fst all) in
  let amz := format_iso_basic now in
  let params := presigned_params creds amz region expires signed extra in
  exists query canonical,
    canonical_request method raw_path (str_join "&" (List.map encoded_pair params)) all signed "UNSIGNED-PAYLOAD" = inr canonical /\
    let d := signature_for sha256 hmac (secret_key creds) amz (str_take 8 amz) region canonical in
    presign_with_query sha256 hmac creds method host raw_path region now expires hs extra = Some (concat_str [canonical_path raw_path; "?"; query]) /\
    decoded_pairs (query_parts query) = Some (params ++ [("X-Amz-Signature", hex (hmac (dv_key d) (str_bytes (string_to_sign d))))]).
Proof.
  intros Hn He all signed amz params.
  assert (Hq : canonical_query (str_join "&" (List.map encoded_pair params)) = inr (str_join "&" (List.map encoded_pair (stable_sort pair_leb params)))).
  { unfold canonical_query. by rewrite query_reads_back. }
  destruct (values_of_own all (sorted_names signed)) as [heads Hh].
  { intros n H. by apply sorted_names_sub, sorted_names_sub in H. }
  eexists (str_join "&" (List.map encoded_pair (params ++ [("X-Amz-Signature", _)]))), _. split.
  { unfold canonical_request. rewrite Hh. cbn [ok_or mbind auth_bind]. cbv zeta. rewrite Hq. cbn [mbind auth_bind]. reflexivity. }
  cbv zeta. split; [|by rewrite query_reads_back].
  unfold presign_with_query. cbv zeta. fold all. fold (sorted_names (List.map fst all)). fold signed. fold amz. pose proof (presigned_query_params creds now region expires signed extra Hn He) as Hpq. fold amz in Hpq. fold params in Hpq. rewrite !Hpq.
  unfold canonical_request. rewrite Hh. cbn [ok_or mbind auth_bind]. rewrite Hq. cbn [mbind auth_bind]. f_equal. rewrite map_app. cbn [List.map].
  rewrite join_snoc, signature_pair by done. cbn [concat_str fold_right]. rewrite !str_app_nil_r. reflexivity.
Qed.

(** ** Samples *)

Definition toy_sha (b : bytes) : bytes := firstn 8 (rev b).
Definition toy_hmac (k b : bytes) : bytes := firstn 4 (rev b) ++ firstn 2 k.
Definition some_creds : Credentials := mkCredentials "AKIDEXAMPLE" "secret".
Definition some_headers : Headers := [("Host", "logs.example"); ("X-Amz-Date", "20130524T000000Z"); ("X-Amz-Content-Sha256", "UNSIGNED-PAYLOAD")].
Definition some_names : list string := ["host"; "x-amz-content-sha256"; "x-amz-date"].
Definition some_time : Z := 1369353600.
Definition some_canonical : string :=
  match canonical_request "GET" "/b/k" "b=2&a=%2f" some_headers some_names "UNSIGNED-PAYLOAD" with inr c => c | inl _ => "" end.
Definition some_signature : bytes :=
  let d := signature_for toy_sha toy_hmac "secret" "20130524T000000Z" "20130524" "eu" some_canonical in toy_hmac (dv_key d) (str_bytes (string_to_sign d)).
Definition some_authorization : string := authorization_of "AKIDEXAMPLE" "20130524" "eu" some_names some_signature.

Lemma signed_request_is_accepted_witness :
  some_canonical <> "" /\ verify toy_sha toy_hmac some_creds "GET" "/b/k" "b=2&a=%2f" (("Authorization", some_authorization) :: some_headers) (some_time + 60) = inr tt.
Proof.
  split; [vm_compute; discriminate|].
  exact (signed_request_is_accepted toy_sha toy_hmac some_creds "GET" "/b/k" "b=2&a=%2f" "eu" "UNSIGNED-PAYLOAD" some_canonical some_headers some_names some_time (some_time + 60)
    ltac:(vm_compute; split; [discriminate|reflexivity]) ltac:(vm_compute; discriminate) eq_refl eq_refl ltac:(discriminate)
    ltac:(repeat constructor) ltac:(by left) ltac:(cbn; tauto) ltac:(repeat constructor) ltac:(vm_compute; reflexivity) eq_refl ltac:(vm_compute; reflexivity) ltac:(vm_compute; discriminate)).
Defined.

Lemma one_signature_one_request_witness :
  signed_value some_headers "host" = "logs.example" /\
  ((exists ps payload', header (("Authorization", some_authorization) :: some_headers) "authorization" ≫=
      (fun a => match parse_authorization a with inr ps => Some ps | inl _ => None end) = Some ps /\
    "GET" = "GET" /\ canonical_path "/b/k" = canonical_path "/b/k" /\
    (exists pairs pairs', decoded_pairs (query_parts "b=2&a=%2f") = Some pairs /\ decoded_pairs (query_parts "a=%2F&&b=2") = Some pairs' /\ Permutation pairs pairs') /\
    (forall n, In n (ps_signed ps) -> signed_value (("Authorization", some_authorization) :: some_headers) n =
      signed_value (("authorization", some_authorization) :: ("user-agent", "x") :: some_headers) n) /\
    header (("authorization", some_authorization) :: ("user-agent", "x") :: some_headers) "x-amz-content-sha256" = Some payload' /\ trim "UNSIGNED-PAYLOAD" = trim payload' /\
    exists amz secs secs', request_time (("Authorization", some_authorization) :: some_headers) = inr (amz, secs) /\
      request_time (("authorization", some_authorization) :: ("user-agent", "x") :: some_headers) = inr (amz, secs')) \/
  collision toy_sha \/ exists key, collision (toy_hmac key)).
Proof.
  split; [vm_compute; reflexivity|].
  apply (one_signature_one_request toy_sha toy_hmac some_creds "GET" "/b/k" "b=2&a=%2f" "GET" "/b/k" "a=%2F&&b=2"
    (("Authorization", some_authorization) :: some_headers) (("authorization", some_authorization) :: ("user-agent", "x") :: some_headers)
    (some_time + 60) (some_time - 60) "UNSIGNED-PAYLOAD"); vm_compute; reflexivity.
Defined.

Lemma presigned_address_reads_back_witness :
  exists query, presign toy_sha toy_hmac some_creds "PUT" "h" "/b/k" "eu" some_time 60 [("If-None-Match", "*")] = Some (concat_str ["/b/k"; "?"; query]).
Proof.
  destruct (presigned_address_reads_back toy_sha toy_hmac some_creds "PUT" "h" "/b/k" "eu" some_time 60 [("If-None-Match", "*")] []
    ltac:(vm_compute; split; [discriminate|reflexivity]) ltac:(lia)) as (query & canonical & _ & H & _).
  exists query. exact H.
Defined.
