(* ===== verification/S3List.v ===== *)
(** What an S3 listing walks ([crates/logless-core/src/s3_serve.rs], the second half):
    the keys that are served, the depth-first walk of a page and its delimiter,
    tokens, and the texts a reply is written with.

    A directory is what reading it gives: its names, in any order, each with what
    it is without following a link.  The walk of a child is part of its entry, so
    that the recursion follows the tree while the entries are sorted.

    The facts: the walk is the sorted list of what a reader may see, cut to a page,
    and following the tokens gives all of it, each once. *)

From S2P Require Import Prelude Text Lists Civil Base64 TemplateDict Proto Utf8 Httpd Jwt Auth AuthS3.
From Stdlib Require Import Permutation Sorted.
Open Scope string_scope.
Open Scope Z_scope.
Open Scope list_scope.

Definition MAX_KEYS_CAP : Z := 1000.

(** ** Texts *)

Fixpoint show_hex_aux (fuel : nat) (n : Z) (acc : string) : string :=
  match fuel with
  | O => acc
  | S fuel => let acc := String (hex_char (n mod 16)) acc in if n / 16 =? 0 then acc else show_hex_aux fuel (n / 16) acc
  end.
(** [{:x}]: a step for each binary digit is more than enough. *)
Definition show_hex (n : Z) : string := show_hex_aux (S (Z.to_nat (Z.log2 n))) n "".

Definition dquote : string := String DQUOTE "".

(** A time is its nanoseconds since the epoch, which may be before it. *)
Definition etag (len mtime : Z) : string := concat_str [dquote; show_hex len; "-"; show_hex (Z.max 0 mtime); dquote].
Definition unix_secs (t : Z) : Z := Z.max 0 t / 1000000000.

Fixpoint xml_escape (s : string) : string :=
  match s with
  | "" => ""
  | String c r =>
      String.append (if Ascii.eqb c "&" then "&amp;" else if Ascii.eqb c "<" then "&lt;" else if Ascii.eqb c ">" then "&gt;"
                     else if Ascii.eqb c DQUOTE then "&quot;" else if Ascii.eqb c "'" then "&apos;" else String c "") (xml_escape r)
  end.

Definition iso_date (t : Z) : string :=
  let nanos := Z.max 0 t in
  let secs := nanos / 1000000000 in
  let '(y, m, day) := Civil.civil_from_days (secs / 86400) in
  let rem := secs mod 86400 in
  concat_str [pad0 4 y; "-"; pad0 2 m; "-"; pad0 2 day; "T"; pad0 2 (rem / 3600); ":"; pad0 2 (rem mod 3600 / 60); ":"; pad0 2 (rem mod 60);
              "."; pad0 3 (nanos mod 1000000000 / 1000000); "Z"].

(** Decodes [%XX] once; [None] on a malformed escape or when the result is no text. *)
Fixpoint percent_bytes (plus_is_space : bool) (s : string) : option bytes :=
  match s with
  | "" => Some []
  | String c r =>
      if Ascii.eqb c "%" then
        match r with
        | String a (String b r') => v ← Base64.hex_pair a b; t ← percent_bytes plus_is_space r'; Some (v :: t)
        | _ => None
        end
      else t ← percent_bytes plus_is_space r; Some ((if Ascii.eqb c "+" && plus_is_space then Byte.x20 else Ascii.byte_of_ascii c) :: t)
  end.
Definition percent_decode (s : string) (plus_is_space : bool) : option string :=
  bs ← percent_bytes plus_is_space s; if utf8 bs then Some (string_of_list_byte bs) else None.

Definition parse_query (raw : string) : list (string * string) :=
  omap (fun pair_ => let '(k, v) := match split_once "=" pair_ with Some kv => kv | None => (pair_, "") end in
                     k ← percent_decode k true; v ← percent_decode v true; Some (k, v))
       (List.filter (fun p => negb (String.eqb p "")) (split_char "&" raw)).

Definition url_safe (c : ascii) : bool := is_alnum c || one_of "-_.~/" c.
Definition hex_upper (d : Z) : ascii := ascii_of_N (Z.to_N (if d <? 10 then 48 + d else 55 + d)).
Fixpoint url_encode_key (s : string) : string :=
  match s with
  | "" => ""
  | String c r => if url_safe c then String c (url_encode_key r)
                  else String "%" (String (hex_upper (chr c / 16)) (String (hex_upper (chr c mod 16)) (url_encode_key r)))
  end.

Definition encode_token (key : string) : string := hex (list_byte_of_string key).
Definition decode_token (token : string) : option string :=
  if String.eqb token "" || negb (str_len token mod 2 =? 0) || negb (str_all (fun c => chr c <? 128) token) then None
  else
    bs ← unhex_loop token;
    if utf8 bs then Some (string_of_list_byte bs) else None.

(** ** What is served *)

Definition has_segment (key segment : string) : bool := existsb (String.eqb segment) (split_char "/" key).
Definition servable (key : string) : bool := ends_with ".parquet" key || (ends_with ".pq" key && has_segment key META_DIR).

Definition bad_segment (s : string) : bool :=
  String.eqb s "" || starts_with "." s || str_any (fun c => Ascii.eqb c "\" || (chr c =? 0)) s.
Definition safe_segments (key : string) : option (list string) :=
  if String.eqb key "" then None
  else let segments := split_char "/" key in if existsb bad_segment segments then None else Some segments.

(** ** The disk *)

(** What a name is, links not followed; a file with its length and time. *)
Inductive Node := NFile (size mtime : Z) | NDir (entries : list (string * Node)) | NOther.

Definition child (n : Node) (name : string) : option Node :=
  match n with NDir es => snd <$> List.find (fun e => String.eqb (fst e) name) es | _ => None end.
Definition is_dir (n : Node) : bool := match n with NDir _ => true | _ => false end.
Definition is_file (n : Node) : bool := match n with NFile _ _ => true | _ => false end.

(** Down real directories to a file. *)
Fixpoint descend (root : Node) (segments : list string) : option Node :=
  match segments with
  | [] => None
  | [s] => n ← child root s; if is_file n then Some n else None
  | s :: rest => n ← child root s; if is_dir n then descend n rest else None
  end.
Definition resolve (root : Node) (key : string) : option (list string) :=
  segments ← safe_segments key;
  if negb (servable key) then None else _ ← descend root segments; Some segments.

(** ** The walk *)

Record ListParams := mkListParams { lp_prefix : string; lp_delimiter : option string; lp_max_keys : Z; lp_marker : option string }.
Inductive Unit_ := UKey (key : string) (size mtime : Z) | UPrefix (p : string).
Definition unit_key (u : Unit_) : string := match u with UKey k _ _ => k | UPrefix p => p end.

Record Walker := mkWalker { out : list Unit_; truncated : bool; last_prefix : option string }.

Definition str_lt (a b : string) : bool := String.ltb a b.

(** The first occurrence of [d], as a position. *)
Fixpoint str_find (d s : string) : option nat :=
  if starts_with d s then Some O
  else match s with "" => None | String _ r => S <$> str_find d r end.

Section Walk.
Context (p : ListParams) (scope : ReadScope).

Definition common_prefix (key : string) : option string :=
  d ← lp_delimiter p;
  let n := String.length (lp_prefix p) in
  i ← str_find d (str_drop n key);
  Some (str_take (n + i + String.length d) key).

(** [false] once the page is full. *)
Definition push (u : Unit_) (w : Walker) : Walker * bool :=
  if match lp_marker p with Some m => negb (str_lt m (unit_key u)) | None => false end then (w, true)
  else if match u with UPrefix x => bool_decide (last_prefix w = Some x) | UKey _ _ _ => false end then (w, true)
  else if lp_max_keys p <=? Z.of_nat (List.length (out w)) then (mkWalker (out w) true (last_prefix w), false)
  else (mkWalker (out w ++ [u]) (truncated w) (match u with UPrefix x => Some x | UKey _ _ _ => last_prefix w end), true).

Definition Step : Type := Walker -> Walker * bool.

(** An entry of a directory that is looked at: what it sorts by, and the child. *)
Definition entry_key (key_prefix name : string) (n : Node) : option string :=
  if negb (utf8 (list_byte_of_string name)) || starts_with "." name then None
  else match n with
  | NDir _ => if reaches scope (concat_str [key_prefix; name; "/"]) then Some (String.append name "/") else None
  | NFile _ _ =>
      let key := String.append key_prefix name in
      if servable key && starts_with (lp_prefix p) key && scope_allows scope key then Some name else None
  | NOther => None
  end.

(** One sorted entry, its subtree being walked by [sub]. *)
Definition visit (key : string) (n : Node) (sub : Step) : Step := fun w =>
  match n with
  | NDir _ =>
      if negb (starts_with (lp_prefix p) key || starts_with key (lp_prefix p)) then (w, true)
      else if match lp_marker p with Some m => str_lt key m && negb (starts_with key m) | None => false end then (w, true)
      else match (if starts_with (lp_prefix p) key then common_prefix key else None) with
           | Some cp => push (UPrefix cp) w
           | None => sub w
           end
  | NFile size mtime =>
      if match lp_marker p with Some m => negb (str_lt m key) | None => false end then (w, true)
      else push (match common_prefix key with Some cp => UPrefix cp | None => UKey key size mtime end) w
  | NOther => (w, true)
  end.

Fixpoint run_entries (l : list (string * Step)) : Step := fun w =>
  match l with
  | [] => (w, true)
  | (_, f) :: l => let '(w, more) := f w in if more then run_entries l w else (w, false)
  end.

Definition by_sort_key {A} (a b : string * A) : bool := String.leb (fst a) (fst b).

Fixpoint walk (n : Node) (key_prefix : string) : Step :=
  match n with
  | NDir entries =>
      let visits := (fix visits (l : list (string * Node)) : list (string * Step) :=
        match l with
        | [] => []
        | (name, c) :: l =>
            match entry_key key_prefix name c with
            | Some sort_key =>
                let key := String.append key_prefix sort_key in
                (sort_key, visit key c (walk c key)) :: visits l
            | None => visits l
            end
        end) entries in
      run_entries (stable_sort by_sort_key visits)
  | _ => fun w => (w, true)
  end.

(** Up to the last slash of the prefix; [None] lists as empty. *)
Definition last_slash (s : string) : string := match rsplit_once "/" s with Some (a, _) => String.append a "/" | None => "" end.
Fixpoint down (root : Node) (segments : list string) : option Node :=
  match segments with
  | [] => Some root
  | s :: rest => n ← child root s; if is_dir n then down n rest else None
  end.
Definition list_base (root : Node) : option (Node * string) :=
  let base := last_slash (lp_prefix p) in
  match rsplit_once "/" (lp_prefix p) with
  | None => Some (root, base)
  | Some (dir, _) => segments ← safe_segments dir; n ← down root segments; Some (n, base)
  end.

Definition list_page (root : Node) : Walker :=
  let w := mkWalker [] false None in
  if 0 <? lp_max_keys p then
    match list_base root with Some (dir, base) => fst (walk dir base w) | None => w end
  else w.
End Walk.


(** ** Texts in order, and their beginnings *)

Lemma lt_cons a s b t : str_lt (String a s) (String b t) = true <-> (N_of_ascii a < N_of_ascii b)%N \/ (a = b /\ str_lt s t = true).
Proof.
  unfold str_lt, String.ltb. cbn [String.compare]. unfold Ascii.compare. destruct (N.compare_spec (N_of_ascii a) (N_of_ascii b)) as [He|Hl|Hg].
  - assert (a = b) as -> by (rewrite <- (ascii_N_embedding a), <- (ascii_N_embedding b); by rewrite He).
    split; [by right|]. intros [?|[_ ?]]; [lia|done].
  - split; [by left|done].
  - split; [done|]. intros [?|[-> _]]; lia.
Qed.

Lemma lt_nil_r s : str_lt s "" = false.
Proof. by destruct s. Qed.

Lemma lt_irrefl s : str_lt s s = false.
Proof. induction s as [|c s IH]; [done|]. apply not_true_iff_false. rewrite lt_cons, IH. intros [?|[_ ?]]; [lia|done]. Qed.

Lemma lt_trans a b c : str_lt a b = true -> str_lt b c = true -> str_lt a c = true.
Proof.
  revert b c. induction a as [|x a IH]; intros b c.
  - destruct b; [done|]. by destruct c.
  - destruct b as [|y b]; [by rewrite lt_nil_r|]. destruct c as [|z c]; [by rewrite lt_nil_r|]. rewrite !lt_cons.
    intros [H1|[-> H1]] [H2|[-> H2]]; [left; lia|by left|by left|right]. split; [done|]. by eapply IH.
Qed.

Lemma lt_total a b : str_lt a b = true \/ a = b \/ str_lt b a = true.
Proof.
  revert b. induction a as [|x a IH]; intros [|y b]; [by right; left|by left|by right; right|]. rewrite !lt_cons.
  destruct (N.lt_trichotomy (N_of_ascii x) (N_of_ascii y)) as [H|[H|H]]; [by left; left| |by right; right; left].
  assert (x = y) as -> by (rewrite <- (ascii_N_embedding x), <- (ascii_N_embedding y); by rewrite H).
  destruct (IH b) as [H'|[->|H']]; [left; right|right; left|right; right; right]; done.
Qed.

Lemma leb_lt a b : String.leb a b = negb (str_lt b a).
Proof. unfold str_lt, String.leb, String.ltb. rewrite (String.compare_antisym a b). by destruct (String.compare b a). Qed.

Lemma starts_iff a s : starts_with a s = true <-> exists r, s = String.append a r.
Proof.
  unfold starts_with. split.
  - destruct (strip_prefix a s) as [r|] eqn:E; [|done]. intros _. exists r. by apply strip_prefix_inv.
  - intros [r ->]. by rewrite strip_prefix_app.
Qed.

Lemma starts_refl a : starts_with a a = true.
Proof. apply starts_iff. exists "". by rewrite str_app_nil_r. Qed.
Lemma starts_app a b : starts_with a (String.append a b) = true.
Proof. apply starts_iff. by exists b. Qed.
Lemma starts_trans a b c : starts_with a b = true -> starts_with b c = true -> starts_with a c = true.
Proof. rewrite !starts_iff. intros [r ->] [t ->]. exists (String.append r t). by rewrite str_app_assoc. Qed.

Lemma starts_cons a s b t : starts_with (String a s) (String b t) = true <-> a = b /\ starts_with s t = true.
Proof.
  rewrite !starts_iff. split.
  - intros [r [= -> ->]]. split; [done|]. by exists r.
  - intros [-> [r ->]]. by exists r.
Qed.

(** Two beginnings of one text. *)
Lemma starts_both a b s : starts_with a s = true -> starts_with b s = true -> starts_with a b = true \/ starts_with b a = true.
Proof.
  revert a b. induction s as [|c s IH]; intros [|x a] [|y b] Ha Hb; try (by left; apply starts_iff; exists ""); try (by left; apply starts_iff; eexists); try (by right; apply starts_iff; eexists); try done.
  apply starts_cons in Ha as [-> Ha]. apply starts_cons in Hb as [-> Hb]. destruct (IH a b Ha Hb) as [H|H]; [left|right]; by apply starts_cons.
Qed.

Lemma starts_not_gt a s : starts_with a s = true -> str_lt s a = false.
Proof.
  intros [r ->]%starts_iff. induction a as [|c a IH]; [apply lt_nil_r|]. apply not_true_iff_false. cbn [String.append]. rewrite lt_cons, IH. intros [?|[_ ?]]; [lia|done].
Qed.

(** What begins with [a] is below what [a] is below and does not begin with it. *)
Lemma below a m s : str_lt a m = true -> starts_with a m = false -> starts_with a s = true -> str_lt s m = true.
Proof.
  intros Hl Hn [r ->]%starts_iff. revert m Hl Hn. induction a as [|c a IH]; intros m Hl Hn; [by destruct m|].
  destruct m as [|d m]; [by rewrite lt_nil_r in Hl|]. cbn [String.append]. apply lt_cons in Hl. apply lt_cons. destruct Hl as [Hl|[-> Hl]]; [by left|right].
  split; [done|]. apply IH; [done|]. apply not_true_iff_false. intros H. apply not_true_iff_false in Hn. apply Hn. by apply starts_cons.
Qed.

(** Everything under one name is below everything under a later one. *)
Lemma apart a b x y : str_lt a b = true -> starts_with a b = false -> starts_with a x = true -> starts_with b y = true -> str_lt x y = true.
Proof.
  intros Hl Hn Hx Hy. pose proof (below a b x Hl Hn Hx) as H. apply starts_not_gt in Hy. destruct (lt_total b y) as [H'|[<-|H']]; [by eapply lt_trans|done|congruence].
Qed.

Lemma not_lt_le a b c : str_lt a b = true -> str_lt c b = false -> str_lt a c = true.
Proof. intros H1 H2. destruct (lt_total b c) as [H|[->|H]]; [by eapply lt_trans|done|congruence]. Qed.
Lemma le_lt a b c : str_lt b a = false -> str_lt b c = true -> str_lt a c = true.
Proof. intros H1 H2. destruct (lt_total a b) as [H|[->|H]]; [by eapply lt_trans|done|congruence]. Qed.

(** ** Positions *)

Lemma str_drop_past a r : str_drop (String.length a) (String.append a r) = r.
Proof. induction a as [|c a IH]; [by destruct r|done]. Qed.

Lemma str_take_app2 a k r : str_take (String.length a + k) (String.append a r) = String.append a (str_take k r).
Proof. induction a as [|c a IH]; [done|]. cbn. by rewrite IH. Qed.

Lemma str_find_spec d s i : str_find d s = Some i -> exists a b, s = String.append a (String.append d b) /\ String.length a = i /\
  forall r, str_find d (String.append a (String.append d r)) = Some i.
Proof.
  revert i. induction s as [|c s IH]; intros i; cbn [str_find].
  - destruct (starts_with d "") eqn:E; [|done]. intros [= <-]. apply starts_iff in E as [r E]. exists "", r. split; [done|]. split; [done|].
    intros t. cbn [String.append]. destruct d; [|done]. by destruct t.
  - destruct (starts_with d (String c s)) eqn:E.
    + intros [= <-]. apply starts_iff in E as [r E]. exists "", r. split; [done|]. split; [done|]. intros t. cbn [String.append].
      pose proof (starts_app d t) as Ht. destruct (String.append d t) as [|x y]; cbn [str_find]; by rewrite Ht.
    + destruct (str_find d s) as [j|] eqn:Ej; [|done]. intros [= <-]. destruct (IH j eq_refl) as (a & b & -> & <- & H). exists (String c a), b.
      split; [done|]. split; [done|]. intros r. cbn [String.append str_find]. rewrite H. destruct (starts_with d (String c (String.append a (String.append d r)))) eqn:E'; [|done].
      exfalso. apply not_true_iff_false in E. apply E. clear E IH Ej H. revert E'. rewrite !starts_iff. intros [t E']. 
      assert (Hl : (String.length d <= String.length (String.append (String c a) d))%nat) by (rewrite length_str_app; lia).
      assert (Hpre : starts_with d (String.append (String c a) d) = true).
      { assert (G : forall u v w t, String.append u v = String.append w t -> (String.length w <= String.length u)%nat -> starts_with w u = true).
        { induction u as [|x u IHu]; intros v w t0 Eq Hlen; destruct w as [|y w]; try (apply starts_iff; eexists; reflexivity); [cbn in Hlen; lia|].
          cbn [String.append] in Eq. injection Eq as -> Eq. apply starts_cons. split; [done|]. apply (IHu v w t0 Eq). cbn in Hlen. lia. }
        apply (G _ r d t); [|exact Hl]. rewrite <- E'. cbn [String.append]. by rewrite str_app_assoc. }
      apply starts_iff in Hpre as [q Hq]. exists (String.append q b). cbn [String.append] in Hq |- *. rewrite <- (str_app_assoc d q b), <- Hq. cbn [String.append]. by rewrite str_app_assoc.
Qed.

(** ** The list a walk is of *)

Section Listing.
Context (p : ListParams) (scope : ReadScope).
Abbreviation prefix := (lp_prefix p).

Lemma common_prefix_spec key cp : starts_with prefix key = true -> common_prefix p key = Some cp ->
  starts_with cp key = true /\ starts_with prefix cp = true /\ forall r, common_prefix p (String.append cp r) = Some cp.
Proof.
  intros [t ->]%starts_iff. unfold common_prefix. destruct (lp_delimiter p) as [d|]; [|done]. cbn [mbind option_bind]. rewrite str_drop_past.
  destruct (str_find d t) as [i|] eqn:E; [|done]. cbn [mbind option_bind]. intros [= <-]. destruct (str_find_spec d t i E) as (a & b & -> & <- & H).
  assert (Hcp : forall r, str_take (String.length prefix + String.length a + String.length d) (String.append prefix (String.append a (String.append d r))) = String.append prefix (String.append a d)).
  { intros r. rewrite <- Nat.add_assoc, str_take_app2, str_take_app2. f_equal. f_equal. rewrite <- (Nat.add_0_r (String.length d)), str_take_app2. cbn. apply str_app_nil_r. }
  rewrite Hcp. split_and!.
  - apply starts_iff. exists b. by rewrite !str_app_assoc.
  - apply starts_app.
  - intros r. rewrite !str_app_assoc, str_drop_past, H. cbn [mbind option_bind]. by rewrite Hcp.
Qed.

(** What is below a name that is rolled up is rolled up with it. *)
Lemma common_prefix_below key cp s : starts_with prefix key = true -> common_prefix p key = Some cp -> starts_with key s = true ->
  common_prefix p s = Some cp.
Proof.
  intros Hp Hc Hs. destruct (common_prefix_spec key cp Hp Hc) as (H1 & _ & H3). pose proof (starts_trans _ _ _ H1 Hs) as [r ->]%starts_iff. apply H3.
Qed.

(** An entry a reader may see, whatever the prefix. *)
Definition seen (key_prefix name : string) (n : Node) : option string :=
  if negb (utf8 (list_byte_of_string name)) || starts_with "." name then None
  else match n with
  | NDir _ => if reaches scope (concat_str [key_prefix; name; "/"]) then Some (String.append name "/") else None
  | NFile _ _ => let key := String.append key_prefix name in if servable key && scope_allows scope key then Some name else None
  | NOther => None
  end.

Definition Mark : Type := string * Node.

(** All of a directory in key order, a directory in front of what it holds. *)
Fixpoint flatten (n : Node) (key_prefix : string) : list Mark :=
  match n with
  | NDir entries =>
      let below := (fix below (l : list (string * Node)) : list (string * list Mark) :=
        match l with
        | [] => []
        | (name, c) :: l =>
            match seen key_prefix name c with
            | Some sort_key => let key := String.append key_prefix sort_key in (sort_key, (key, c) :: flatten c key) :: below l
            | None => below l
            end
        end) entries in
      concat (List.map snd (stable_sort by_sort_key below))
  | _ => []
  end.

Definition unit_of (m : Mark) : option Unit_ :=
  if negb (starts_with prefix (fst m)) then None
  else match snd m with
  | NDir _ => UPrefix <$> common_prefix p (fst m)
  | NFile size mtime => Some (match common_prefix p (fst m) with Some cp => UPrefix cp | None => UKey (fst m) size mtime end)
  | NOther => None
  end.

Fixpoint push_all (us : list Unit_) (w : Walker) : Walker * bool :=
  match us with
  | [] => (w, true)
  | u :: us => let '(w, more) := push p u w in if more then push_all us w else (w, false)
  end.

Lemma push_all_app us vs w : push_all (us ++ vs) w = (let '(w', more) := push_all us w in if more then push_all vs w' else (w', false)).
Proof.
  revert w. induction us as [|u us IH]; intros w; [by cbn; destruct (push_all vs w)|]. cbn [app push_all]. destruct (push p u w) as [w' [|]]; [apply IH|done].
Qed.

(** Units at or below the marker change nothing. *)
Definition behind (u : Unit_) : Prop := exists m, lp_marker p = Some m /\ str_lt m (unit_key u) = false.

Lemma push_behind u w : behind u -> push p u w = (w, true).
Proof. intros (m & Hm & Hl). unfold push. by rewrite Hm, Hl. Qed.

Lemma push_all_behind us w : Forall behind us -> push_all us w = (w, true).
Proof. induction 1 as [|u us Hu _ IH]; [done|]. cbn [push_all]. by rewrite push_behind. Qed.

(** A prefix again changes nothing. *)
Lemma push_again cp us w : Forall (eq (UPrefix cp)) us -> push_all (UPrefix cp :: us) w = push p (UPrefix cp) w.
Proof.
  intros H. cbn [push_all]. destruct (push p (UPrefix cp) w) as [w1 more] eqn:E. destruct more; [|done].
  assert (Hagain : push p (UPrefix cp) w1 = (w1, true)).
  { revert E. unfold push. destruct (match lp_marker p with Some m => _ | None => false end) eqn:Em; [by intros [= <-]|].
    case_bool_decide as Hl; [intros [= <-]; by rewrite bool_decide_true|]. destruct (_ <=? _); [done|]. intros [= <-]. cbn [last_prefix]. by rewrite bool_decide_true. }
  clear E. induction H as [|u us <- _ IH]; [done|]. cbn [push_all]. by rewrite Hagain.
Qed.

(** Keys below [key], in a subtree. *)
Definition under (key : string) (ms : list Mark) : Prop := Forall (fun m => starts_with key (fst m) = true) ms.

Section NodeInd.
Context (P : Node -> Prop) (Hfile : forall s t, P (NFile s t)) (Hother : P NOther)
        (Hdir : forall es, Forall (fun e => P (snd e)) es -> P (NDir es)).
Fixpoint node_ind' (n : Node) : P n :=
  match n with
  | NFile s t => Hfile s t
  | NOther => Hother
  | NDir es => Hdir es ((fix go l : Forall (fun e => P (snd e)) l := match l with [] => @List.Forall_nil _ _ | (name, c) :: l => @List.Forall_cons _ _ (name, c) l (node_ind' c) (go l) end) es)
  end.
End NodeInd.

Definition visits_of (key_prefix : string) (es : list (string * Node)) : list (string * Step) :=
  omap (fun e => sort_key ← entry_key p scope key_prefix (fst e) (snd e);
                 Some (sort_key, visit p (String.append key_prefix sort_key) (snd e) (walk p scope (snd e) (String.append key_prefix sort_key)))) es.
Definition below_of (key_prefix : string) (es : list (string * Node)) : list (string * list Mark) :=
  omap (fun e => sort_key ← seen key_prefix (fst e) (snd e);
                 Some (sort_key, (String.append key_prefix sort_key, snd e) :: flatten (snd e) (String.append key_prefix sort_key))) es.

Lemma walk_dir es kp : walk p scope (NDir es) kp = run_entries (stable_sort by_sort_key (visits_of kp es)).
Proof.
  cbn [walk]. f_equal. f_equal. unfold visits_of. induction es as [|[name c] es IH]; [done|]. cbn [omap list_omap fst snd].
  destruct (entry_key p scope kp name c); cbn [mbind option_bind]; by rewrite IH.
Qed.
Lemma flatten_dir es kp : flatten (NDir es) kp = concat (List.map snd (stable_sort by_sort_key (below_of kp es))).
Proof.
  cbn [flatten]. f_equal. f_equal. f_equal. unfold below_of. induction es as [|[name c] es IH]; [done|]. cbn [omap list_omap fst snd].
  destruct (seen kp name c); cbn [mbind option_bind]; by rewrite IH.
Qed.

Lemma flatten_under n kp : under kp (flatten n kp).
Proof.
  revert kp. induction n as [| |es IH] using node_ind'; intros kp; try constructor. rewrite flatten_dir. apply List.Forall_forall. intros m Hm.
  apply in_concat in Hm as (l & Hl & Hm). apply in_map_iff in Hl as ([sk l'] & <- & Hl). cbn [snd] in Hm.
  apply (Permutation_in _ (stable_sort_perm _ _)) in Hl. apply list_elem_of_In, list_elem_of_omap in Hl as ([name c] & Hin & Hl). cbn [fst snd] in Hl. bind_inv Hl k Ek. injection Hl as <- <-.
  destruct Hm as [<-|Hm]; [apply starts_app|]. apply list_elem_of_In in Hin. rewrite List.Forall_forall in IH. specialize (IH _ Hin (String.append kp k)). 
  unfold under in IH. rewrite List.Forall_forall in IH. eapply starts_trans; [apply starts_app|by apply IH].
Qed.

Lemma flatten_under_key n key : under key ((key, n) :: flatten n key).
Proof. constructor; [apply starts_refl|apply flatten_under]. Qed.

Lemma lt_asym a b : str_lt a b = true -> str_lt b a = false.
Proof. intros H. apply not_true_iff_false. intros H'. pose proof (lt_trans _ _ _ H H') as E. by rewrite lt_irrefl in E. Qed.

Lemma unit_key_le m u : unit_of m = Some u -> str_lt (fst m) (unit_key u) = false.
Proof.
  unfold unit_of. destruct (negb (starts_with prefix (fst m))) eqn:Ep; [done|]. apply negb_false_iff in Ep.
  assert (Hcp : forall cp, common_prefix p (fst m) = Some cp -> str_lt (fst m) cp = false).
  { intros cp Hc. apply starts_not_gt. by destruct (common_prefix_spec _ _ Ep Hc). }
  destruct (snd m); [|intros H; destruct (common_prefix p (fst m)) eqn:E; [|done]; injection H as <-; by apply Hcp|done].
  destruct (common_prefix p (fst m)) eqn:E; intros [= <-]; [by apply Hcp|apply lt_irrefl].
Qed.

Lemma units_behind key m ms : lp_marker p = Some m -> str_lt key m = true -> starts_with key m = false -> under key ms -> Forall behind (omap unit_of ms).
Proof.
  intros Hm Hl Hn Hu. apply List.Forall_forall. intros u Hin. apply list_elem_of_In, list_elem_of_omap in Hin as (k & Hk & Hu'). exists m. split; [done|].
  unfold under in Hu. rewrite List.Forall_forall in Hu. apply list_elem_of_In in Hk. pose proof (below _ _ _ Hl Hn (Hu _ Hk)) as Hlt.
  apply lt_asym. eapply le_lt; [|exact Hlt]. by apply unit_key_le.
Qed.

Lemma units_rolled key cp ms : starts_with prefix key = true -> common_prefix p key = Some cp -> under key ms -> Forall (eq (UPrefix cp)) (omap unit_of ms).
Proof.
  intros Hp Hc Hu. apply List.Forall_forall. intros u Hin. apply list_elem_of_In, list_elem_of_omap in Hin as (k & Hk & Hu').
  unfold under in Hu. rewrite List.Forall_forall in Hu. apply list_elem_of_In in Hk. specialize (Hu _ Hk). unfold unit_of in Hu'.
  rewrite (starts_trans _ _ _ Hp Hu), (common_prefix_below key cp (fst k) Hp Hc Hu) in Hu'. cbn [negb] in Hu'. destruct (snd k); cbn in Hu'; by simplify_eq.
Qed.

Lemma units_elsewhere key ms : starts_with prefix key = false -> starts_with key prefix = false -> under key ms -> omap unit_of ms = [].
Proof.
  intros H1 H2 Hu. induction Hu as [|m ms Hm _ IH]; [done|]. cbn [omap list_omap]. unfold unit_of at 1.
  destruct (starts_with prefix (fst m)) eqn:E; [|by apply IH]. destruct (starts_both _ _ _ E Hm) as [H|H]; congruence.
Qed.

(** One entry of a directory: as if all below it were pushed. *)
Lemma visit_is key n w : (forall w, walk p scope n key w = push_all (omap unit_of (flatten n key)) w) ->
  is_dir n = true \/ starts_with prefix key = true -> visit p key n (walk p scope n key) w = push_all (omap unit_of ((key, n) :: flatten n key)) w.
Proof.
  intros IH Hw. pose proof (flatten_under_key n key) as Hu. destruct n as [s t|es|]; cbn [visit]; [|clear Hw|unfold unit_of; cbn; by destruct (negb _)].
  - destruct Hw as [?|Hp]; [done|]. cbn [flatten omap list_omap fst snd]. unfold unit_of. cbn [fst snd]. rewrite Hp. cbn [negb].
    destruct (match lp_marker p with Some m => _ | None => false end) eqn:Em.
    + destruct (lp_marker p) as [m|] eqn:E; [|done]. apply negb_true_iff in Em. rewrite push_all_behind; [done|]. constructor; [|constructor]. exists m. split; [done|].
      pose proof (unit_key_le (key, NFile s t)) as Hk. unfold unit_of in Hk. cbn [fst snd] in Hk. rewrite Hp in Hk. specialize (Hk _ eq_refl).
      apply not_true_iff_false. intros Hl. destruct (lt_total key m) as [H|[->|H]]; [|congruence|congruence].
      pose proof (lt_trans _ _ _ H Hl). congruence.
    + cbn [push_all]. by destruct (push p _ w) as [w' []].
  - destruct (starts_with prefix key || starts_with key prefix) eqn:Epk; cbn [negb].
    2:{ apply orb_false_iff in Epk as [H1 H2]. by rewrite (units_elsewhere key). }
    destruct (match lp_marker p with Some m => _ | None => false end) eqn:Em.
    { destruct (lp_marker p) as [m|] eqn:E; [|done]. apply andb_true_iff in Em as [Hl Hn]. apply negb_true_iff in Hn. by rewrite push_all_behind by (by eapply units_behind). }
    destruct (starts_with prefix key) eqn:Ep.
    + cbn [omap list_omap]. unfold unit_of at 1. cbn [fst snd]. rewrite Ep. cbn [negb]. destruct (common_prefix p key) as [cp|] eqn:Ec; cbn [fmap option_fmap option_map].
      * rewrite push_again; [done|]. apply List.Forall_inv_tail in Hu. by apply (units_rolled key cp).
      * apply IH.
    + cbn [omap list_omap]. unfold unit_of at 1. cbn [fst snd]. rewrite Ep. cbn [negb]. apply IH.
Qed.

(** ** The entries, sorted *)

Definition keyed (kp : string) (es : list (string * Node)) : list (string * Node) :=
  omap (fun e => (fun k => (k, snd e)) <$> seen kp (fst e) (snd e)) es.
Definition wanted (kp : string) (e : string * Node) : bool := is_dir (snd e) || starts_with prefix (String.append kp (fst e)).

Lemma visits_keyed kp es : visits_of kp es =
  List.map (fun e => (fst e, visit p (String.append kp (fst e)) (snd e) (walk p scope (snd e) (String.append kp (fst e))))) (List.filter (wanted kp) (keyed kp es)).
Proof.
  unfold visits_of, keyed. induction es as [|[name c] es IH]; [done|]. cbn [omap list_omap fst snd]. unfold entry_key at 1, seen at 1.
  destruct (negb (utf8 _) || _); [exact IH|]. destruct c as [s t|es'|].
  - destruct (servable _); cbn [andb]; [|exact IH]. destruct (scope_allows scope _); [|rewrite andb_false_r; exact IH]. rewrite andb_true_r.
    destruct (starts_with prefix (String.append kp name)) eqn:E; cbn [mbind option_bind fmap option_fmap option_map List.filter]; unfold wanted at 1; cbn [fst snd is_dir orb]; rewrite E; [|exact IH].
    cbn [List.map fst snd]. by rewrite IH.
  - destruct (reaches scope _); cbn [mbind option_bind fmap option_fmap option_map List.filter]; [|exact IH]. unfold wanted at 1. cbn [fst snd is_dir orb List.map]. by rewrite IH.
  - exact IH.
Qed.

Lemma below_keyed kp es : below_of kp es = List.map (fun e => (fst e, (String.append kp (fst e), snd e) :: flatten (snd e) (String.append kp (fst e)))) (keyed kp es).
Proof.
  unfold below_of, keyed. induction es as [|[name c] es IH]; [done|]. cbn [omap list_omap fst snd]. destruct (seen kp name c); cbn [mbind option_bind fmap option_fmap option_map List.map fst snd]; by rewrite IH.
Qed.

Lemma keyed_in kp es k c : In (k, c) (keyed kp es) -> exists name, In (name, c) es /\ seen kp name c = Some k.
Proof.
  intros H. apply list_elem_of_In, list_elem_of_omap in H as ([name c'] & Hin & H). cbn [fst snd] in H. destruct (seen kp name c') as [k'|] eqn:E; [|done].
  injection H as -> ->. exists name. split; [by apply list_elem_of_In|done].
Qed.
End Listing.

Section SortMaps.
Context {A B : Type} (f : string * A -> B).

Lemma insert_map (x : string * A) l : insert_sorted by_sort_key (fst x, f x) (List.map (fun e => (fst e, f e)) l) = List.map (fun e => (fst e, f e)) (insert_sorted by_sort_key x l).
Proof. induction l as [|y l IH]; [done|]. cbn [List.map insert_sorted]. unfold by_sort_key at 1 3. cbn [fst]. destruct (String.leb (fst x) (fst y)); [done|]. cbn [List.map]. by rewrite IH. Qed.

Lemma sort_map (l : list (string * A)) : stable_sort by_sort_key (List.map (fun e => (fst e, f e)) l) = List.map (fun e => (fst e, f e)) (stable_sort by_sort_key l).
Proof. induction l as [|x l IH]; [done|]. cbn [List.map]. unfold stable_sort in *. cbn [foldr]. by rewrite IH, insert_map. Qed.
End SortMaps.

Lemma by_key_total {A} (x y : string * A) : by_sort_key x y = true \/ by_sort_key y x = true.
Proof. apply str_leb_total. Qed.
Lemma by_key_trans {A} (x y z : string * A) : by_sort_key x y = true -> by_sort_key y z = true -> by_sort_key x z = true.
Proof. apply str_leb_trans. Qed.

Lemma insert_filter {A} (q : string * A -> bool) x l : sorted_by by_sort_key l ->
  List.filter q (insert_sorted by_sort_key x l) = if q x then insert_sorted by_sort_key x (List.filter q l) else List.filter q l.
Proof.
  induction 1 as [|y l Hs IH Hy]; [cbn; by destruct (q x)|]. cbn [insert_sorted]. destruct (by_sort_key x y) eqn:E.
  - cbn [List.filter]. destruct (q x), (q y); cbn [insert_sorted]; rewrite ?E; try done.
    assert (Hall : Forall (fun z => by_sort_key x z = true) (List.filter q l)).
    { apply List.Forall_forall. intros z Hz. apply filter_In in Hz as [Hz _]. rewrite List.Forall_forall in Hy. eapply by_key_trans; [exact E|by apply Hy]. }
    destruct (List.filter q l) as [|z r]; [done|]. apply Forall_cons in Hall as [Hz _]. cbn [insert_sorted]. by rewrite Hz.
  - cbn [List.filter]. rewrite IH. destruct (q x), (q y); cbn [insert_sorted]; rewrite ?E; done.
Qed.

Lemma sort_filter {A} (q : string * A -> bool) l : stable_sort by_sort_key (List.filter q l) = List.filter q (stable_sort by_sort_key l).
Proof.
  induction l as [|x l IH]; [done|]. change (stable_sort by_sort_key (x :: l)) with (insert_sorted by_sort_key x (stable_sort by_sort_key l)).
  rewrite insert_filter by (apply stable_sort_sorted; [apply by_key_total|apply by_key_trans]). cbn [List.filter]. destruct (q x); [|done].
  change (stable_sort by_sort_key (x :: List.filter q l)) with (insert_sorted by_sort_key x (stable_sort by_sort_key (List.filter q l))). by rewrite IH.
Qed.

(** The walk pushes the units of the sorted list, and skips only what would change nothing. *)
Lemma walk_is p scope n : forall kp w, walk p scope n kp w = push_all p (omap (unit_of p) (flatten scope n kp)) w.
Proof.
  induction n as [s t| |es IH] using node_ind'; intros kp w; [done|done|].
  rewrite walk_dir, flatten_dir, visits_keyed, below_keyed, !sort_map, sort_filter.
  assert (Hin : forall e, In e (stable_sort by_sort_key (keyed scope kp es)) -> exists name, In (name, snd e) es).
  { intros [k c] H. apply (Permutation_in _ (stable_sort_perm _ _)) in H. destruct (keyed_in _ _ _ _ _ H) as (name & Hn & _). by exists name. }
  revert w Hin. generalize (stable_sort by_sort_key (keyed scope kp es)) as l. clear -IH. induction l as [|e l IHl]; intros w Hin; [done|].
  assert (Hl : forall w, run_entries (List.map (fun e => (fst e, visit p (String.append kp (fst e)) (snd e) (walk p scope (snd e) (String.append kp (fst e))))) (List.filter (wanted p kp) l)) w =
    push_all p (omap (unit_of p) (concat (List.map snd (List.map (fun e => (fst e, (String.append kp (fst e), snd e) :: flatten scope (snd e) (String.append kp (fst e)))) l)))) w).
  { intros w'. apply IHl. intros e' He'. apply Hin. by right. }
  cbn [List.filter List.map concat snd]. rewrite omap_app, push_all_app. destruct (wanted p kp e) eqn:Ew.
  - cbn [List.map run_entries]. rewrite visit_is.
    + destruct (push_all p _ w) as [w' [|]]; [apply Hl|done].
    + destruct (Hin e (or_introl eq_refl)) as [name Hn]. rewrite List.Forall_forall in IH. intros w'. apply (IH _ Hn).
    + unfold wanted in Ew. by apply orb_true_iff in Ew.
  - unfold wanted in Ew. apply orb_false_iff in Ew as [Ed Ep]. destruct (snd e) as [s t|es'|]; [|done|].
    + cbn [flatten omap list_omap]. unfold unit_of at 1. cbn [fst]. rewrite Ep. cbn [negb push_all]. apply Hl.
    + cbn [flatten omap list_omap]. unfold unit_of at 1. cbn [fst]. rewrite Ep. cbn [negb push_all]. apply Hl.
Qed.

(** ** In order *)

Definition mark_lt (a b : Mark) : Prop := str_lt (fst a) (fst b) = true.

(** A directory as a disk keeps it. *)
Definition name_ok (name : string) : Prop := name <> "" /\ str_has "/" name = false.
Inductive tree_ok : Node -> Prop :=
| ok_file s t : tree_ok (NFile s t)
| ok_other : tree_ok NOther
| ok_dir es : List.NoDup (List.map fst es) -> Forall (fun e => name_ok (fst e) /\ tree_ok (snd e)) es -> tree_ok (NDir es).

Lemma lt_prefix a b c : str_lt (String.append a b) (String.append a c) = str_lt b c.
Proof. induction a as [|x a IH]; [done|]. cbn [String.append]. apply eq_true_iff_eq. rewrite lt_cons, IH. split; [intros [?|[_ ?]]; [lia|done]|by right]. Qed.
Lemma starts_prefix a b c : starts_with (String.append a b) (String.append a c) = starts_with b c.
Proof. induction a as [|x a IH]; [done|]. cbn [String.append]. apply eq_true_iff_eq. rewrite starts_cons, IH. split; [by intros [_ ?]|done]. Qed.

Lemma app_inj_r a b c : String.append a c = String.append b c -> a = b.
Proof.
  revert b. induction a as [|x a IH]; intros [|y b] H; [done| | |].
  - exfalso. pose proof (f_equal String.length H) as E. cbn in E. rewrite length_str_app in E. lia.
  - exfalso. pose proof (f_equal String.length H) as E. cbn in E. rewrite length_str_app in E. lia.
  - injection H as -> H. f_equal. by apply IH.
Qed.

Lemma no_slash_cut a r b : str_has "/" b = false -> String.append a (String "/" r) = String.append b "/" -> a = b /\ r = "".
Proof.
  revert b. induction a as [|x a IH]; intros [|y b] Hb H.
  - by injection H as ->.
  - cbn in H. injection H as <- H. by vm_compute in Hb.
  - exfalso. injection H as -> H. by destruct a.
  - cbn in Hb. injection H as -> H. apply orb_false_iff in Hb as [_ Hb]. destruct (IH b Hb H) as [-> ->]. done.
Qed.
Lemma no_slash_has a r b : str_has "/" b = false -> String.append a (String "/" r) = b -> False.
Proof.
  intros Hb <-. induction a as [|x a IH]; [by vm_compute in Hb|]. cbn in Hb. apply orb_false_iff in Hb as [_ Hb]. auto.
Qed.

(** What a name sorts by. *)
Definition sort_key_of (name : string) (n : Node) : string := if is_dir n then String.append name "/" else name.

Lemma seen_key scope kp name n k : seen scope kp name n = Some k -> k = sort_key_of name n /\ n <> NOther.
Proof.
  unfold seen, sort_key_of. destruct (_ || _); [done|]. destruct n; cbn [is_dir]; [destruct (_ && _)|destruct (reaches _ _)|done]; by intros [= <-].
Qed.

Lemma sort_keys_apart a n b m : name_ok a -> name_ok b -> a <> b -> sort_key_of a n <> sort_key_of b m /\
  (is_dir n = true -> starts_with (sort_key_of a n) (sort_key_of b m) = false).
Proof.
  intros [_ Ha] [_ Hb] Hne. unfold sort_key_of. split.
  - destruct (is_dir n), (is_dir m); [by intros ?%app_inj_r| | |done].
    + intros E. symmetry in E. change (String.append a "/") with (String.append a (String "/" "")) in E. by eapply (no_slash_has a "" b).
    + intros E. by eapply (no_slash_has b "" a).
  - intros ->. apply not_true_iff_false. intros [r E]%starts_iff. rewrite str_app_assoc in E. cbn [String.append] in E. destruct (is_dir m).
    + symmetry in E. apply no_slash_cut in E as [E _]; [by apply Hne|done].
    + symmetry in E. by eapply no_slash_has.
Qed.

Lemma sorted_strict {A} (l : list (string * A)) : sorted_by by_sort_key l -> List.NoDup (List.map fst l) ->
  StronglySorted (fun a b => str_lt (fst a) (fst b) = true) l.
Proof.
  induction 1 as [|x l Hs IH Hx]; [constructor|]. cbn [List.map]. intros Hn. apply List.NoDup_cons_iff in Hn as [Hni Hn]. constructor; [by apply IH|].
  apply List.Forall_forall. intros y Hy. rewrite List.Forall_forall in Hx. specialize (Hx y Hy). unfold by_sort_key in Hx. rewrite leb_lt in Hx. apply negb_true_iff in Hx.
  destruct (lt_total (fst x) (fst y)) as [H|[H|H]]; [done| |congruence]. exfalso. apply Hni. rewrite H. by apply in_map.
Qed.

Lemma sorted_app {A} (R : A -> A -> Prop) l k : StronglySorted R l -> StronglySorted R k -> (forall a b, In a l -> In b k -> R a b) -> StronglySorted R (l ++ k).
Proof.
  induction 1 as [|a l Hl IH Ha]; intros Hk H; [done|]. cbn [app]. constructor; [apply IH; [done|intros; apply H; [by right|done]]|].
  apply Forall_app. split; [done|]. apply List.Forall_forall. intros b Hb. apply H; [by left|done].
Qed.

(** The groups of a directory: an entry's key, and all at or under it. *)
Lemma below_in scope kp es k ms : In (k, ms) (below_of scope kp es) ->
  exists name c, In (name, c) es /\ k = sort_key_of name c /\ ms = (String.append kp k, c) :: flatten scope c (String.append kp k).
Proof.
  intros H. apply list_elem_of_In, list_elem_of_omap in H as ([name c] & Hin & H). cbn [fst snd] in H. bind_inv H k' Ek. injection H as <- <-.
  apply list_elem_of_In in Hin. exists name, c. split; [done|]. by destruct (seen_key _ _ _ _ _ Ek) as [-> _].
Qed.

Lemma below_nodup scope kp es : List.NoDup (List.map fst es) -> Forall (fun e => name_ok (fst e) /\ tree_ok (snd e)) es ->
  List.NoDup (List.map fst (below_of scope kp es)).
Proof.
  induction es as [|[name c] es IHe]; intros Hnd Hall; [constructor|]. cbn [List.map fst] in Hnd. apply List.NoDup_cons_iff in Hnd as [Hni Hnd].
  apply Forall_cons in Hall as [[Hn _] Hall]. unfold below_of in *. cbn [omap list_omap fst snd]. destruct (seen scope kp name c) as [k|] eqn:E; cbn [mbind option_bind]; [|by apply IHe].
  cbn [List.map fst]. constructor; [|by apply IHe]. intros Hin. apply in_map_iff in Hin as ([k2 ms] & Hk & Hin). cbn [fst] in Hk. subst k2.
  destruct (below_in _ _ _ _ _ Hin) as (name2 & c2 & Hin2 & E2 & _). destruct (seen_key _ _ _ _ _ E) as [-> _].
  rewrite List.Forall_forall in Hall. destruct (Hall _ Hin2) as [Hn2 _]. destruct (decide (name = name2)) as [->|Hne]; [apply Hni; change name2 with (fst (name2, c2)); by apply in_map|].
  by destruct (sort_keys_apart name c name2 c2 Hn Hn2 Hne) as [? _].
Qed.

Lemma marks_under scope c key m : In m ((key, c) :: flatten scope c key) -> starts_with key (fst m) = true.
Proof. intros H. pose proof (flatten_under_key scope c key) as Hu. unfold under in Hu. rewrite List.Forall_forall in Hu. by apply Hu. Qed.

(** Below a directory every key is longer than its own. *)
Lemma flatten_above scope c key m : tree_ok c -> In m (flatten scope c key) -> str_lt key (fst m) = true.
Proof.
  destruct c as [s t|es|]; [done| |done]. intros Htree Hm. rewrite flatten_dir in Hm. apply in_concat in Hm as (ms & Hms & Hm). apply in_map_iff in Hms as ([k ms'] & <- & Hms). cbn [snd] in Hm.
  apply (Permutation_in _ (stable_sort_perm _ _)) in Hms. destruct (below_in _ _ _ _ _ Hms) as (n2 & c2 & Hin2 & -> & ->).
  inversion Htree as [| |es'' _ Hall2]; subst es''. rewrite List.Forall_forall in Hall2. destruct (Hall2 _ Hin2) as [[Hn2 _] _]. cbn [fst] in Hn2.
  apply marks_under in Hm. eapply not_lt_le; [|by apply starts_not_gt]. rewrite <- (str_app_nil_r key) at 1. rewrite lt_prefix.
  unfold sort_key_of. destruct n2; [done|]. by destruct (is_dir c2).
Qed.

(** One entry against a later one. *)
Lemma entries_apart scope kp name c name2 c2 m1 m2 : name_ok name -> name_ok name2 -> name <> name2 ->
  str_lt (sort_key_of name c) (sort_key_of name2 c2) = true ->
  In m1 ((String.append kp (sort_key_of name c), c) :: flatten scope c (String.append kp (sort_key_of name c))) ->
  In m2 ((String.append kp (sort_key_of name2 c2), c2) :: flatten scope c2 (String.append kp (sort_key_of name2 c2))) -> mark_lt m1 m2.
Proof.
  intros Hn Hn2 Hne Hlt Hm1 Hm2. unfold mark_lt. pose proof (marks_under _ _ _ _ Hm2) as H2. destruct (is_dir c) eqn:Ed.
  - apply (apart (String.append kp (sort_key_of name c)) (String.append kp (sort_key_of name2 c2))); [by rewrite lt_prefix| |by eapply marks_under|done].
    rewrite starts_prefix. by apply (sort_keys_apart name c name2 c2 Hn Hn2 Hne).
  - assert (m1 = (String.append kp (sort_key_of name c), c)) as ->. { destruct Hm1 as [<-|Hm1]; [done|]. by destruct c. }
    cbn [fst]. eapply not_lt_le; [|by apply starts_not_gt]. by rewrite lt_prefix.
Qed.

Lemma flatten_sorted scope n : tree_ok n -> forall kp, StronglySorted mark_lt (flatten scope n kp).
Proof.
  induction n as [s t| |es IH] using node_ind'; intros Hok kp; [constructor|constructor|]. inversion Hok as [| |es' Hnd Hall]; subst es'. rewrite flatten_dir.
  assert (Hs : StronglySorted (fun a b => str_lt (fst a) (fst b) = true) (stable_sort by_sort_key (below_of scope kp es))).
  { apply sorted_strict; [apply stable_sort_sorted; [apply by_key_total|apply by_key_trans]|].
    eapply Permutation_NoDup; [|by apply (below_nodup scope kp es)]. symmetry. apply Permutation_map, stable_sort_perm. }
  assert (Hin : forall e, In e (stable_sort by_sort_key (below_of scope kp es)) -> In e (below_of scope kp es)) by (intros e; apply Permutation_in, stable_sort_perm).
  revert Hs Hin. generalize (stable_sort by_sort_key (below_of scope kp es)) as l. induction l as [|[k ms] l IHl]; intros Hs Hin; [constructor|]. cbn [List.map concat snd].
  apply StronglySorted_inv in Hs as [Hs Hk]. destruct (below_in _ _ _ _ _ (Hin _ (or_introl eq_refl))) as (name & c & Hc & -> & ->).
  pose proof Hall as Hall'. rewrite List.Forall_forall in Hall'. destruct (Hall' _ Hc) as [Hname Htree]. cbn [fst snd] in Hname, Htree.
  apply sorted_app.
  - rewrite List.Forall_forall in IH. specialize (IH _ Hc). cbn [snd] in IH. constructor; [by apply IH|]. apply List.Forall_forall. intros m Hm. by eapply flatten_above.
  - apply IHl; [done|]. intros e He. apply Hin. by right.
  - intros m1 m2 Hm1 Hm2. apply in_concat in Hm2 as (ms2 & Hms2 & Hm2). apply in_map_iff in Hms2 as ([k2 ms'] & <- & Hl2). cbn [snd] in Hm2.
    rewrite List.Forall_forall in Hk. pose proof (Hk _ Hl2) as Hlt. cbn [fst] in Hlt. destruct (below_in _ _ _ _ _ (Hin _ (or_intror Hl2))) as (name2 & c2 & Hc2 & -> & ->).
    destruct (Hall' _ Hc2) as [Hname2 _]. cbn [fst] in Hname2.
    apply (entries_apart scope kp name c name2 c2); try done. intros <-. assert (E : (name, c) = (name, c2)) by (by apply (NoDup_map_inj fst es)).
    injection E as <-. by rewrite lt_irrefl in Hlt.
Qed.

(** ** The units, and one page of them *)

Definition same_prefix (u v : Unit_) : bool := match u, v with UPrefix x, UPrefix y => String.eqb x y | _, _ => false end.
Definition unit_le (u v : Unit_) : Prop := str_lt (unit_key u) (unit_key v) = true \/ (same_prefix u v = true /\ u = v).
Definition unit_lt (u v : Unit_) : Prop := str_lt (unit_key u) (unit_key v) = true.

Section Units.
Context (p : ListParams).
Abbreviation prefix := (lp_prefix p).

Lemma unit_cases m u : unit_of p m = Some u ->
  (u = UKey (fst m) (match snd m with NFile s _ => s | _ => 0 end) (match snd m with NFile _ t => t | _ => 0 end) /\ common_prefix p (fst m) = None) \/
  (exists cp, u = UPrefix cp /\ starts_with cp (fst m) = true /\ starts_with prefix cp = true /\ forall r, common_prefix p (String.append cp r) = Some cp).
Proof.
  unfold unit_of. destruct (starts_with prefix (fst m)) eqn:E; cbn [negb]; [|done]. destruct (snd m) as [s t|es|]; [| |done].
  - destruct (common_prefix p (fst m)) as [cp|] eqn:Ec; intros [= <-]; [right|by left]. exists cp. split; [done|]. by apply (common_prefix_spec p (fst m)).
  - destruct (common_prefix p (fst m)) as [cp|] eqn:Ec; cbn; [intros [= <-]; right|done]. exists cp. split; [done|]. by apply (common_prefix_spec p (fst m)).
Qed.

Lemma cp_of cp s : (forall r, common_prefix p (String.append cp r) = Some cp) -> starts_with cp s = true -> common_prefix p s = Some cp.
Proof. intros H [r ->]%starts_iff. apply H. Qed.

(** Roll-ups keep the order. *)
Lemma units_in_order m1 m2 u1 u2 : mark_lt m1 m2 -> unit_of p m1 = Some u1 -> unit_of p m2 = Some u2 -> unit_le u1 u2.
Proof.
  unfold mark_lt. intros Hlt H1 H2. pose proof H2 as H2'. apply unit_cases in H1, H2.
  destruct H1 as [[-> N1]|(c1 & -> & S1 & P1 & A1)], H2 as [[-> N2]|(c2 & -> & S2 & P2 & A2)]; cbn [unit_key].
  - by left.
  - left. cbn. destruct (starts_with c2 (fst m1)) eqn:E; [by rewrite (cp_of c2 _ A2 E) in N1|].
    destruct (lt_total (fst m1) c2) as [H|[H|H]]; [done|by rewrite <- H, starts_refl in E|].
    pose proof (below _ _ _ H E S2) as Hb. by rewrite (lt_asym _ _ Hb) in Hlt.
  - left. cbn. eapply le_lt; [|exact Hlt]. by apply starts_not_gt.
  - destruct (starts_with c1 (fst m2)) eqn:E.
    + pose proof (cp_of c1 _ A1 E) as Ec. rewrite (cp_of c2 _ A2 S2) in Ec. injection Ec as ->. right. split; [apply String.eqb_refl|done].
    + left. cbn. assert (Hn : starts_with c2 c1 = false).
      { apply not_true_iff_false. intros H. pose proof (cp_of c2 _ A2 (starts_trans _ _ _ H S1)) as Ec. rewrite (cp_of c1 _ A1 S1) in Ec. injection Ec as ->. congruence. }
      destruct (lt_total c1 c2) as [H|[->|H]]; [done|by rewrite starts_refl in Hn|].
      pose proof (below _ _ _ H Hn S2) as Hb. apply starts_not_gt in S1. pose proof (not_lt_le _ _ _ Hb S1) as Hb'. by rewrite (lt_asym _ _ Hb') in Hlt.
Qed.

Lemma units_sorted ms : StronglySorted mark_lt ms -> StronglySorted unit_le (omap (unit_of p) ms).
Proof.
  induction 1 as [|m ms Hs IH Hm]; [constructor|]. cbn [omap list_omap]. destruct (unit_of p m) as [u|] eqn:E; [|done]. constructor; [done|].
  apply List.Forall_forall. intros v Hv. apply list_elem_of_In, list_elem_of_omap in Hv as (m' & Hin & Hv). apply list_elem_of_In in Hin.
  rewrite List.Forall_forall in Hm. by apply (units_in_order m m'); [apply Hm| |].
Qed.

Definition ahead (u : Unit_) : bool := match lp_marker p with Some m => str_lt m (unit_key u) | None => true end.

(** Each prefix once: what is new behind a prefix. *)
Fixpoint distinct_from (last : option string) (us : list Unit_) : list Unit_ :=
  match us with
  | [] => []
  | u :: us =>
      match u with
      | UPrefix x => if bool_decide (last = Some x) then distinct_from last us else u :: distinct_from (Some x) us
      | UKey _ _ _ => u :: distinct_from last us
      end
  end.

(** A walker takes what is ahead of the marker and new, until its page is full. *)
Lemma push_all_takes us w : Z.of_nat (List.length (out w)) <= lp_max_keys p ->
  let room := Z.to_nat (lp_max_keys p - Z.of_nat (List.length (out w))) in
  let r := distinct_from (last_prefix w) (List.filter ahead us) in
  out (fst (push_all p us w)) = out w ++ firstn room r /\
  truncated (fst (push_all p us w)) = truncated w || (room <? List.length r)%nat.
Proof.
  cbv zeta. revert w. induction us as [|u us IH]; intros w Hw; [cbn; by rewrite firstn_nil, app_nil_r, orb_false_r|].
  cbn [push_all List.filter]. unfold push.
  replace (match lp_marker p with Some m => negb (str_lt m (unit_key u)) | None => false end) with (negb (ahead u)) by (unfold ahead; by destruct (lp_marker p)).
  destruct (ahead u); cbn [negb]; [|by apply IH].
  assert (Hstep : forall last', let w' := mkWalker (out w ++ [u]) (truncated w) last' in
    ~ lp_max_keys p <= Z.of_nat (List.length (out w)) ->
    out (fst (push_all p us w')) = out w ++ firstn (Z.to_nat (lp_max_keys p - Z.of_nat (List.length (out w)))) (u :: distinct_from last' (List.filter ahead us)) /\
    truncated (fst (push_all p us w')) = truncated w || (Z.to_nat (lp_max_keys p - Z.of_nat (List.length (out w))) <? List.length (u :: distinct_from last' (List.filter ahead us)))%nat).
  { intros last' w' Hroom. destruct (IH w') as [H1 H2]; [unfold w'; cbn [out]; rewrite length_app; cbn; lia|]. unfold w' in H1, H2. cbn [out truncated last_prefix] in H1, H2. rewrite length_app in H1, H2. cbn [List.length] in H1, H2.
    replace (Z.to_nat (lp_max_keys p - Z.of_nat (List.length (out w)))) with (S (Z.to_nat (lp_max_keys p - Z.of_nat (List.length (out w) + 1)))) by lia.
    fold w' in H1, H2 |- *. rewrite H1, H2, <- app_assoc. by split. }
  assert (Hfull : lp_max_keys p <= Z.of_nat (List.length (out w)) -> forall u' r', out w = out w ++ firstn (Z.to_nat (lp_max_keys p - Z.of_nat (List.length (out w)))) (u' :: r') /\
    true = truncated w || (Z.to_nat (lp_max_keys p - Z.of_nat (List.length (out w))) <? List.length (u' :: r' : list Unit_))%nat).
  { intros Hf u' r'. replace (Z.to_nat _) with 0%nat by lia. cbn. by rewrite app_nil_r, orb_true_r. }
  destruct u as [k s t|x]; cbn [distinct_from].
  - destruct (Z.leb_spec (lp_max_keys p) (Z.of_nat (List.length (out w)))); [by apply Hfull|apply Hstep; lia].
  - case_bool_decide; [by apply IH|]. destruct (Z.leb_spec (lp_max_keys p) (Z.of_nat (List.length (out w)))); [by apply Hfull|apply Hstep; lia].
Qed.

Lemma unit_le_not_lt u v : unit_le u v -> str_lt (unit_key v) (unit_key u) = false.
Proof. intros [H|[_ ->]]; [by apply lt_asym|apply lt_irrefl]. Qed.

Lemma ahead_mono u v : unit_le u v -> ahead u = true -> ahead v = true.
Proof.
  unfold ahead. intros Hle. destruct (lp_marker p) as [m|]; [|done]. intros H. eapply not_lt_le; [exact H|]. by apply unit_le_not_lt.
Qed.

(** All of it comes at or behind [last]. *)
Definition after (last : option string) (us : list Unit_) : Prop := match last with Some x => Forall (unit_le (UPrefix x)) us | None => True end.

Lemma after_tail last u us : after last (u :: us) -> after last us.
Proof. destruct last as [x|]; [|done]. intros H. by apply Forall_cons in H as [_ H]. Qed.

Lemma distinct_elsewhere x us : ~ In (UPrefix x) us -> distinct_from (Some x) us = distinct_from None us.
Proof.
  induction us as [|u us IH]; intros Hn; [done|]. assert (Hn' : ~ In (UPrefix x) us) by (intros H; apply Hn; by right). destruct u as [k s t|y]; cbn [distinct_from]; [by rewrite IH|].
  rewrite (bool_decide_false (Some x = Some y)) by (intros [= ->]; apply Hn; by left). by rewrite bool_decide_false by done.
Qed.

Lemma distinct_ahead us : StronglySorted unit_le us -> forall last, after last us ->
  List.filter ahead (distinct_from last us) = distinct_from last (List.filter ahead us).
Proof.
  induction us as [|u us IH]; intros Hs last Hl; [done|]. apply StronglySorted_inv in Hs as [Hs Hu].
  assert (Hno : forall x, ahead (UPrefix x) = false -> ~ In (UPrefix x) (List.filter ahead us)) by (intros x Hx [_ H]%filter_In; congruence).
  destruct u as [k s t|x]; cbn [distinct_from List.filter].
  - destruct (ahead (UKey k s t)); cbn [distinct_from]; by rewrite (IH Hs last (after_tail _ _ _ Hl)).
  - case_bool_decide as Hx.
    + rewrite (IH Hs last (after_tail _ _ _ Hl)). destruct (ahead (UPrefix x)); [|done]. cbn [distinct_from]. by rewrite bool_decide_true.
    + cbn [List.filter]. rewrite (IH Hs (Some x) Hu). destruct (ahead (UPrefix x)) eqn:Ea; [cbn [distinct_from]; by rewrite bool_decide_false|].
      rewrite (distinct_elsewhere x) by (by apply Hno). destruct last as [y|]; [|done]. rewrite distinct_elsewhere; [done|]. apply Hno.
      apply Forall_cons in Hl as [Hl _]. apply not_true_iff_false. intros Hy. by rewrite (ahead_mono _ _ Hl Hy) in Ea.
Qed.

Lemma distinct_in u us : forall last, In u (distinct_from last us) -> In u us.
Proof.
  induction us as [|v us IH]; intros last H; [done|]. cbn [distinct_from] in H. destruct v as [k s t|x].
  - destruct H as [<-|H]; [by left|right; by eapply IH].
  - case_bool_decide; [right; by eapply IH|]. destruct H as [<-|H]; [by left|right; by eapply IH].
Qed.

Lemma distinct_sorted us : StronglySorted unit_le us -> forall last, after last us ->
  StronglySorted unit_lt (distinct_from last us) /\ match last with Some x => Forall (unit_lt (UPrefix x)) (distinct_from last us) | None => True end.
Proof.
  induction us as [|u us IH]; intros Hs last Hl; [split; [constructor|by destruct last]|]. apply StronglySorted_inv in Hs as [Hs Hu].
  destruct (IH Hs last (after_tail _ _ _ Hl)) as [I1 I2]. cbn [distinct_from]. destruct u as [k s t|x].
  - assert (Hk : Forall (unit_lt (UKey k s t)) (distinct_from last us)).
    { apply List.Forall_forall. intros v Hv. apply distinct_in in Hv. rewrite List.Forall_forall in Hu. destruct (Hu v Hv) as [H|[? _]]; [done|done]. }
    split; [by constructor|]. destruct last as [y|]; [|done]. constructor; [|done]. apply Forall_cons in Hl as [[Hl|[? _]] _]; [done|done].
  - case_bool_decide as Hx; [done|]. destruct (IH Hs (Some x) Hu) as [J1 J2]. split; [by constructor|]. destruct last as [y|]; [|done].
    apply Forall_cons in Hl as [[Hl|[_ Hl]] _]; [|by injection Hl as ->]. constructor; [done|].
    eapply Forall_impl; [exact J2|]. intros v Hv. unfold unit_lt in *. cbn [unit_key] in *. by eapply lt_trans.
Qed.
End Units.

(** ** Pages *)

(** All that a listing is of: it does not depend on the page. *)
Definition all_units (prefix : string) (delimiter : option string) (scope : ReadScope) (root : Node) : list Unit_ :=
  let p := mkListParams prefix delimiter 0 None in
  match list_base p root with
  | Some (dir, base) => distinct_from None (omap (unit_of p) (flatten scope dir base))
  | None => []
  end.

Definition beyond (marker : option string) (u : Unit_) : bool := match marker with Some m => str_lt m (unit_key u) | None => true end.

Lemma child_ok n name c : tree_ok n -> child n name = Some c -> tree_ok c.
Proof.
  intros Hok H. destruct n as [| es|]; [done| |done]. cbn [child] in H. destruct (List.find _ es) as [[nm c']|] eqn:E; [|done]. injection H as <-.
  apply find_some in E as [Hin _]. inversion Hok as [| |? _ Hall]; subst. rewrite List.Forall_forall in Hall. by apply (Hall (nm, c')).
Qed.

Lemma down_ok segments : forall n d, tree_ok n -> down n segments = Some d -> tree_ok d.
Proof.
  induction segments as [|s segs IH]; intros n d Hok; cbn [down]; [by intros [= <-]|]. intros H. bind_inv H c Ec. destruct (is_dir c); [|done].
  eapply IH; [|exact H]. by eapply child_ok.
Qed.

Lemma list_base_ok p root dir base : tree_ok root -> list_base p root = Some (dir, base) -> tree_ok dir.
Proof.
  unfold list_base. intros Hok. destruct (rsplit_once "/" (lp_prefix p)) as [[d r]|]; [|by intros [= <- _]].
  intros H. bind_inv H segs Es. bind_inv H n En. injection H as <- _. by eapply down_ok.
Qed.

Lemma all_units_sorted prefix delimiter scope root : tree_ok root -> StronglySorted unit_lt (all_units prefix delimiter scope root).
Proof.
  intros Hok. unfold all_units. destruct (list_base _ root) as [[dir base]|] eqn:E; [|constructor].
  apply (distinct_sorted (omap (unit_of (mkListParams prefix delimiter 0 None)) (flatten scope dir base))) with (last := None); [|done].
  apply units_sorted, flatten_sorted. by eapply list_base_ok.
Qed.

(** A page is the listing behind its marker, cut to its size. *)
Lemma page_is prefix delimiter max_keys marker scope root : tree_ok root -> 0 <= max_keys ->
  let us := List.filter (beyond marker) (all_units prefix delimiter scope root) in
  let w := list_page (mkListParams prefix delimiter max_keys marker) scope root in
  out w = firstn (Z.to_nat max_keys) us /\ truncated w = (0 <? max_keys) && (Z.to_nat max_keys <? List.length us)%nat.
Proof.
  intros Hok Hmax. cbv zeta. unfold list_page. cbn [lp_max_keys]. destruct (Z.ltb_spec 0 max_keys) as [Hpos|Hz].
  2:{ replace (Z.to_nat max_keys) with 0%nat by lia. by split. }
  unfold all_units. change (list_base (mkListParams prefix delimiter max_keys marker) root) with (list_base (mkListParams prefix delimiter 0 None) root).
  destruct (list_base _ root) as [[dir base]|] eqn:E; [|cbn; by rewrite firstn_nil].
  rewrite walk_is. set (p := mkListParams prefix delimiter max_keys marker).
  destruct (push_all_takes p (omap (unit_of p) (flatten scope dir base)) (mkWalker [] false None)) as [H1 H2]; [cbn; lia|].
  cbn [out truncated last_prefix app List.length orb] in H1, H2. rewrite <- distinct_ahead in H1, H2; [|apply units_sorted, flatten_sorted; by eapply list_base_ok|done|apply units_sorted, flatten_sorted; by eapply list_base_ok|done].
  replace (lp_max_keys p - Z.of_nat 0) with max_keys in H1, H2 by (cbn; lia). cbn [andb]. split; [exact H1|exact H2].
Qed.

(** What a client sees that follows the tokens from [marker] on. *)
Fixpoint pages (fuel : nat) (prefix : string) (delimiter : option string) (max_keys : Z) (scope : ReadScope) (root : Node) (marker : option string) : list Unit_ :=
  match fuel with
  | O => []
  | S fuel =>
      let w := list_page (mkListParams prefix delimiter max_keys marker) scope root in
      out w ++ match (if truncated w then last (out w) else None) with
               | Some u => match decode_token (encode_token (unit_key u)) with
                           | Some m => pages fuel prefix delimiter max_keys scope root (Some m)
                           | None => []
                           end
               | None => []
               end
  end.

Lemma token_roundtrip key : key <> "" -> utf8 (list_byte_of_string key) = true -> decode_token (encode_token key) = Some key.
Proof.
  intros Hne Hu. unfold decode_token, encode_token. set (bs := list_byte_of_string key) in *.
  assert (Hbs : bs <> []) by (unfold bs; by destruct key).
  destruct (String.eqb_spec (hex bs) "") as [E|_]; [by destruct bs|]. rewrite hex_length.
  replace (2 * Z.of_nat (List.length bs) mod 2) with 0 by (rewrite Z.mul_comm, Z.mod_mul by lia; lia). cbn [Z.eqb negb orb].
  replace (str_all _ (hex bs)) with true.
  2:{ symmetry. generalize (hex_graphic bs). apply str_all_impl. intros c. unfold graphic. intros H. zbool. by apply Z.ltb_lt. }
  cbn [negb]. rewrite unhex_hex. cbn [mbind option_bind]. rewrite Hu. unfold bs. by rewrite string_of_list_byte_of_string.
Qed.

Lemma filter_beyond_split us : StronglySorted unit_lt us -> forall n u r, firstn n us = r ++ [u] -> List.filter (beyond (Some (unit_key u))) us = skipn n us.
Proof.
  induction 1 as [|v us Hs IH Hv]; intros n u r Hf; [by rewrite firstn_nil in Hf; destruct r|]. destruct n as [|n]; [by destruct r|]. cbn [firstn skipn] in *.
  destruct r as [|v' r]; cbn [app] in Hf.
  - injection Hf as -> Hf. cbn [List.filter beyond]. rewrite lt_irrefl. destruct n as [|n]; [|by destruct us; [rewrite skipn_nil|]].
    cbn [skipn]. by apply filter_true.
  - injection Hf as -> Hf. cbn [List.filter beyond]. rewrite (IH n u r Hf). assert (Hin : In u us).
    { rewrite <- (firstn_skipn n us), Hf. apply in_app_iff. left. apply in_app_iff. right. by left. }
    rewrite List.Forall_forall in Hv. by rewrite (lt_asym _ _ (Hv u Hin)).
Qed.

Lemma sorted_filter {A} (R : A -> A -> Prop) q l : StronglySorted R l -> StronglySorted R (List.filter q l).
Proof.
  induction 1 as [|u us Hs IH Hu]; [constructor|]. cbn [List.filter]. destruct (q u); [|done].
  constructor; [done|]. apply List.Forall_forall. intros v [Hv _]%filter_In. rewrite List.Forall_forall in Hu. by apply Hu.
Qed.

Lemma filter_filter_and {A} (q r : A -> bool) l : List.filter q (List.filter r l) = List.filter (fun x => q x && r x) l.
Proof. induction l as [|x l IH]; [done|]. cbn [List.filter]. destruct (r x); cbn [List.filter]; [|by rewrite andb_false_r, IH]. rewrite andb_true_r. by rewrite IH. Qed.

(** Every name of a listing is a text, as the names it is made of are. *)
Definition texts (us : list Unit_) : Prop := Forall (fun u => utf8 (list_byte_of_string (unit_key u)) = true) us.

Lemma beyond_key marker u : beyond marker u = true -> is_Some marker -> unit_key u <> "".
Proof. intros H [m ->]. cbn in H. intros E. by rewrite E, lt_nil_r in H. Qed.

Lemma unit_key_nonempty prefix delimiter scope root u : tree_ok root -> delimiter <> Some "" -> In u (all_units prefix delimiter scope root) -> unit_key u <> "".
Proof.
  intros Hok Hd. unfold all_units. set (p := mkListParams prefix delimiter 0 None). destruct (list_base p root) as [[dir base]|] eqn:E; [|done].
  intros H. apply distinct_in in H. apply list_elem_of_In, list_elem_of_omap in H as (m & Hm & Hu). apply list_elem_of_In in Hm.
  assert (Hk : fst m <> "") by (intros Em; pose proof (flatten_above scope dir base m (list_base_ok _ _ _ _ Hok E) Hm) as Hl; by rewrite Em, lt_nil_r in Hl).
  destruct (unit_cases p m u Hu) as [[-> _]|(cp & -> & _ & _ & Hcp)]; [done|]. cbn [unit_key]. intros ->. specialize (Hcp ""). unfold common_prefix in Hcp. cbn [lp_delimiter p] in Hcp.
  destruct delimiter as [d|]; [|done]. cbn [mbind option_bind String.append] in Hcp. replace (str_drop _ "") with "" in Hcp by (by destruct (String.length _)).
  cbn [str_find] in Hcp. destruct d; [done|done].
Qed.

(** C12: a client that follows the continuation tokens of a listing, of whatever page
    size, prefix, delimiter and start, sees every key and every rolled-up prefix that
    is behind the start, in order, each exactly once. *)
Theorem pages_are_the_listing (prefix : string) (delimiter : option string) (max_keys : Z) (scope : ReadScope) (root : Node) (start : option string) :
  tree_ok root -> delimiter <> Some "" -> 0 < max_keys -> texts (all_units prefix delimiter scope root) ->
  let us := List.filter (beyond start) (all_units prefix delimiter scope root) in
  StronglySorted unit_lt us /\ forall fuel, (List.length us < fuel)%nat -> pages fuel prefix delimiter max_keys scope root start = us.
Proof.
  intros Hok Hd Hmax Htext. pose proof (all_units_sorted prefix delimiter scope root Hok) as Hs. cbv zeta. split.
  { by apply sorted_filter. }
  intros fuel. revert start. induction fuel as [|fuel IH]; intros start Hlen; [lia|]. cbn [pages].
  destruct (page_is prefix delimiter max_keys start scope root Hok ltac:(lia)) as [Hout Htr]. rewrite Hout, Htr. set (us := List.filter (beyond start) _) in *.
  replace (0 <? max_keys) with true by (symmetry; by apply Z.ltb_lt). cbn [andb]. destruct (Nat.ltb_spec (Z.to_nat max_keys) (List.length us)) as [Hmore|Hall]; [|by rewrite app_nil_r, firstn_all2].
  destruct (last_snoc_or_nil (firstn (Z.to_nat max_keys) us)) as [E|(r & u & E)].
  { exfalso. pose proof (f_equal (@List.length Unit_) E) as El. rewrite length_firstn in El. cbn in El. lia. }
  rewrite E, last_snoc. assert (Hin : In u us) by (rewrite <- (firstn_skipn (Z.to_nat max_keys) us), E; apply in_app_iff; left; apply in_app_iff; right; by left).
  unfold us in Hin. apply filter_In in Hin as [Hin Hb]. rewrite token_roundtrip; [|by eapply unit_key_nonempty|unfold texts in Htext; rewrite List.Forall_forall in Htext; by apply Htext].
  assert (Hrest : List.filter (beyond (Some (unit_key u))) (all_units prefix delimiter scope root) = skipn (Z.to_nat max_keys) us).
  { unfold us in E |- *. rewrite <- (filter_beyond_split _ (sorted_filter _ _ _ Hs) _ _ _ E). rewrite filter_filter_and. apply filter_ext_in. intros v Hv.
    destruct start as [m|]; [|cbn [beyond]; by rewrite andb_true_r]. cbn [beyond] in *. destruct (str_lt (unit_key u) (unit_key v)) eqn:Ev; [|done]. by rewrite (lt_trans _ _ _ Hb Ev). }
  rewrite IH; rewrite Hrest; [by rewrite <- E, firstn_skipn|]. rewrite length_skipn. lia.
Qed.

(** A store of two directories, with a name that sorts between them. *)
Definition small_store : Node :=
  NDir [("b", NDir [("x.parquet", NFile 4 0); ("y.parquet", NFile 5 0); ("skip.txt", NFile 1 0)]);
        ("a", NDir [("c", NDir [("1.parquet", NFile 1 0)]); ("d", NDir [("2.parquet", NFile 2 0)])]);
        ("a.parquet", NFile 3 0); (".hidden", NDir [("z.parquet", NFile 9 0)]); ("link", NOther)].

Lemma pages_are_the_listing_witness :
  pages 5 "a" (Some "/") 1 whole small_store None = [UKey "a.parquet" 3 0; UPrefix "a/"] /\
  pages 9 "" None 2 whole small_store (Some "a/") =
    [UKey "a/c/1.parquet" 1 0; UKey "a/d/2.parquet" 2 0; UKey "b/x.parquet" 4 0; UKey "b/y.parquet" 5 0].
Proof.
  split.
  - transitivity (List.filter (beyond None) (all_units "a" (Some "/") whole small_store)); [|by vm_compute].
    apply (pages_are_the_listing "a" (Some "/") 1 whole small_store None); [|done|lia|by repeat constructor|by vm_compute; lia].
    repeat constructor; cbn; set_solver.
  - transitivity (List.filter (beyond (Some "a/")) (all_units "" None whole small_store)); [|by vm_compute].
    apply (pages_are_the_listing "" None 2 whole small_store (Some "a/")); [|done|lia|by repeat constructor|by vm_compute; lia].
    repeat constructor; cbn; set_solver.
Defined.
