(* ===== verification/S3Serve.v ===== *)
(** The S3 server ([crates/logless-core/src/s3_serve.rs], the first half): who a
    request is from, what it may read, the object it gets and of it which range, the
    XML of a listing, and the start of the listener.

    A directory is a tree of names ([S3List.Node]); opening a file is asked of the
    disk again, as it may be gone by then.  An open file keeps its bytes.  The
    clock, the resolver and the address bound are arguments; log lines are not
    modelled, and what they alone are told ([Meta]) neither.

    The facts: what lies outside a reader's scope never shows in a reply; what is
    served is the file that was asked for, to someone entitled to it; ranges put a
    file together again, and only of one version. *)

From S2P Require Import Prelude Text Lists Partition Civil Base64 TemplateDict Json Proto Utf8 Httpd Jwt Auth AuthS3 Admin Sigv4 S3List.
From Stdlib Require Import Permutation.
Open Scope string_scope.
Open Scope Z_scope.
Open Scope list_scope.

Definition XMLNS : string := "http://s3.amazonaws.com/doc/2006-03-01/".
Definition REGION : string := "us-east-1".
Definition CONNECTIONS_PER_WORKER : Z := 16.
Definition MIN_CONNECTIONS : Z := 64.
Definition REQUEST_TIMEOUT : Z := 15.
Definition MAX_BODY_BYTES : Z := 64 * 1024.
Definition SESSION_TOKEN_HEADER : string := "x-amz-security-token".

Record S3ServeConfig := mkS3Config {
  sc_enabled : bool; sc_addr : string; sc_bucket : string; sc_workers : Z; sc_access_key : option string; sc_secret_key : option string;
  sc_allowed_hosts : list string; sc_parts_bucket : string }.
Definition default_s3_config : S3ServeConfig := mkS3Config false "127.0.0.1:9000" "logs" 8 None None [] "parts".

Inductive S3ServeError := HttpFailed | OpenOnPublicAddress (addr : string) | PartialCredentials (present : string) | SameBucket (name : string).

Record S3Stats := mkS3Stats { requests : Z; range_requests : Z; bytes_served : Z }.

(** What of [Inner] a start fixes: the parts bucket when there is one, and the
    sessions of its verifier. *)
Record Inner := mkInner { bucket : string; parts : option string; closed : bool; in_hosts : list string; sessions : option (Sessions * Z) }.
(** Its cells. *)
Record S3State := mkS3State { s3_stats : S3Stats; s3_auth : Verifier }.

Definition on_auth (f : Verifier -> Verifier) (s : S3State) : S3State := mkS3State (s3_stats s) (f (s3_auth s)).
Definition count_request (s : S3State) : S3State :=
  let c := s3_stats s in mkS3State (mkS3Stats (wadd64 (requests c) 1) (range_requests c) (bytes_served c)) (s3_auth s).
Definition count_range (s : S3State) : S3State :=
  let c := s3_stats s in mkS3State (mkS3Stats (requests c) (wadd64 (range_requests c) 1) (bytes_served c)) (s3_auth s).
Definition count_bytes (n : Z) (s : S3State) : S3State :=
  let c := s3_stats s in mkS3State (mkS3Stats (requests c) (range_requests c) (wadd64 (bytes_served c) n)) (s3_auth s).

(** ** Dates *)

(** In [i64], which a year of a header can leave. *)
Definition s3_days_from_civil (y m d : Z) : Z :=
  let y := if m <=? 2 then wrap_i64 (y - 1) else y in
  let era := Z.quot (if 0 <=? y then y else wrap_i64 (y - 399)) 400 in
  let yoe := wrap_i64 (y - wrap_i64 (era * 400)) in
  let mp := (m + 9) mod 12 in
  let doy := (153 * mp + 2) / 5 + d - 1 in
  let doe := wrap_i64 (wrap_i64 (wrap_i64 (wrap_i64 (yoe * 365) + Z.quot yoe 4) - Z.quot yoe 100) + doy) in
  wrap_i64 (wrap_i64 (wrap_i64 (era * 146097) + doe) - 719468).

Definition parse_http_date (v : string) : option Z :=
  match split_whitespace v with
  | [_; day; month; year; time; gmt] =>
      if negb (String.eqb gmt "GMT") then None
      else
        month ← position (String.eqb month) MONTHS;
        day ← parse_uint u32_max day;
        if negb ((1 <=? day) && (day <=? 31)) then None
        else
          year ← parse_int i64_min i64_max year;
          match List.map (parse_uint u64_max) (split_char ":" time) with
          | [Some h; Some m; Some s] =>
              if (23 <? h) || (59 <? m) || (60 <? s) then None
              else
                let days := s3_days_from_civil year (Z.of_nat month + 1) day in
                if days <? 0 then None else Some (wrap64 (wrap64 (days * 86400) + h * 3600 + m * 60 + s))
          | _ => None
          end
  | _ => None
  end.

Definition DAYS : list string := ["Sun"; "Mon"; "Tue"; "Wed"; "Thu"; "Fri"; "Sat"].
Definition http_date (secs : Z) : string :=
  let days := secs / 86400 in
  let '(y, m, d) := Civil.civil_from_days days in
  let rem := secs mod 86400 in
  concat_str [nth (Z.to_nat ((days + 4) mod 7)) DAYS ""; ", "; pad0 2 d; " "; nth (Z.to_nat (m - 1)) MONTHS ""; " "; pad0 4 y; " ";
              pad0 2 (rem / 3600); ":"; pad0 2 (rem mod 3600 / 60); ":"; pad0 2 (rem mod 60); " GMT"].

(** ** Ranges *)

Inductive RangeOutcome := Satisfiable (first last : Z) | Unsatisfiable | Ignore.

Definition parse_range (value : string) (len : Z) : RangeOutcome :=
  match strip_prefix "bytes=" (trim value) with
  | None => Ignore
  | Some spec =>
      if str_has "," spec then Ignore
      else match split_once "-" spec with
      | None => Ignore
      | Some (first, last) =>
          let a := trim first in
          let b := trim last in
          if String.eqb a "" then
            match Sigv4.num b with
            | None => Ignore
            | Some n => if (n =? 0) || (len =? 0) then Unsatisfiable else Satisfiable (sat_sub len n) (len - 1)
            end
          else if String.eqb b "" then
            match Sigv4.num a with
            | None => Ignore
            | Some a => if len <=? a then Unsatisfiable else Satisfiable a (len - 1)
            end
          else match Sigv4.num a, Sigv4.num b with
          | Some a, Some b => if b <? a then Ignore else if len <=? a then Unsatisfiable else Satisfiable a (Z.min b (len - 1))
          | _, _ => Ignore
          end
      end
  end.

(** ** Replies *)

(** Text; what a file still has to give, at most [len] of it; or a length alone. *)
Inductive Body := Text (b : string) | Stream (rest : bytes) (len : Z) | HeadOnly (len : Z).
Record S3Reply := mkS3Reply { s3_status : Z; s3_headers : list (string * string); s3_body : Body }.

Definition xml (status : Z) (body : string) : S3Reply := mkS3Reply status [("Content-Type", "application/xml")] (Text body).
Definition hex16 (id : Z) : string := String.append (zeros (16 - String.length (show_hex id))) (show_hex id).
Definition xml_decl : string := String.append (quoted "<?xml version=`1.0` encoding=`UTF-8`?>") lf.
Definition error (id status : Z) (code message : string) : S3Reply :=
  xml status (concat_str [xml_decl; "<Error><Code>"; xml_escape code; "</Code><Message>"; xml_escape message; "</Message><RequestId>"; hex16 id;
                          "</RequestId></Error>"]).
Definition with_ (name value : string) (r : S3Reply) : S3Reply := mkS3Reply (s3_status r) (s3_headers r ++ [(name, value)]) (s3_body r).

(** What the listener is handed: the reply and, when its body is not in it, how long
    that is and what it is read from. *)
Record Handed := mkHanded { handed : Httpd.Reply; streamed : option (option bytes * Z) }.
Definition into_http (id : Z) (head : bool) (r : S3Reply) : Handed :=
  let r := with_ "x-amz-id-2" (String.append "log-less/" (hex16 id)) (with_ "x-amz-request-id" (hex16 id) r) in
  let is_type h := same_name (fst h) "content-type" in
  let content_type := default "" (snd <$> List.find is_type (s3_headers r)) in
  let hs := List.filter (fun h => negb (is_type h)) (s3_headers r) in
  let '(body, stream) := match s3_body r with
                         | Text v => if head then ("", Some (None, str_len v)) else (v, None)
                         | Stream rest len => ("", Some (Some (firstn (Z.to_nat len) rest), len))
                         | HeadOnly len => ("", Some (None, len))
                         end in
  mkHanded (Httpd.mkReply (s3_status r) content_type body hs) stream.

(** [Counting::read] of at most [n] bytes. *)
Definition counting_read (n : nat) (rest : bytes) (s : S3State) : bytes * bytes * S3State :=
  let got := firstn n rest in (got, skipn n rest, count_bytes (blen got) s).

(** ** The disk *)

(** What opening a file gives: not there; another error; no regular file; its bytes,
    when it was changed, and whether it can be sought in. *)
Inductive Opened := NotFound | OpenFailed | NoRegular | IsFile (content : bytes) (mtime : Z) (seeks : bool).
Record Disk := mkDisk { tree : Node; created : Z; opens : list string -> Opened }.
Record Env := mkEnv { now : Z; store_dir : Disk; parts_dir : Disk }.

Record Access := mkAccess { principal : option Principal; scope : ReadScope }.

(** ** The gate *)

Definition first_piece (c : ascii) (s : string) : string := default "" (head (split_char c s)).

Definition host_allowed (inner : Inner) (hs : Headers) : bool :=
  if bool_decide (in_hosts inner = []) && closed inner then true
  else match Sigv4.header hs "host" with
  | None => false
  | Some v =>
      let value := str_lower (trim v) in
      let host := match strip_prefix "[" value with Some rest => first_piece "]" rest | None => first_piece ":" value end in
      if bool_decide (in_hosts inner = []) then String.eqb host "localhost" || String.eqb host "::1" || loopback_v4 host
      else existsb (fun h => String.eqb h host) (in_hosts inner)
  end.

Definition refusal_of (e : AuthError) : Refusal :=
  match e with
  | Sigv4.Missing => Jwt.Missing
  | Sigv4.Malformed => Jwt.Malformed
  | Sigv4.Expired => Jwt.Expired
  | Sigv4.UnknownKey => Jwt.UnknownKey
  | BadSignature => Signature
  end.
Definition denied_reply (id : Z) (e : AuthError) : S3Reply :=
  match e with
  | Sigv4.Missing | Sigv4.Malformed => error id 403 "AccessDenied" "Access Denied"
  | Sigv4.Expired => error id 403 "AccessDenied" "Request has expired"
  | Sigv4.UnknownKey | BadSignature =>
      error id 403 "SignatureDoesNotMatch" "The request signature we calculated does not match the signature you provided"
  end.

(** A key nobody holds. *)
Definition stand_in : Credentials := let nul := String (ascii_of_N 0) "" in mkCredentials nul nul.

Section Serve.
Context (sha256 : bytes -> bytes) (hmac : bytes -> bytes -> bytes) (from_slice : bytes -> option Json) (inner : Inner).

(** Who a closed listener's request names, with the secret it must be signed with. *)
Definition named_reader (hs : Headers) (v : Verifier) : option Principal * Credentials :=
  match Sigv4.access_key_id hs with
  | inr id => match s3_reader id v with
              | Some (p, secret) => (Some p, mkCredentials (p_id p) secret)
              | None => (None, stand_in)
              end
  | inl _ => (None, stand_in)
  end.

Definition judge (id now_ : Z) (who : option Principal * Credentials) (method raw_path raw_query : string) (hs : Headers) (s : S3State)
  : (S3Reply + Access) * S3State :=
  let '(principal, creds) := who in
  let denied e :=
    (inl (denied_reply id e),
     on_auth (match principal with Some p => refuse_principal now_ p (refusal_of e) | None => refuse now_ (refusal_of e) end) s) in
  match Sigv4.verify sha256 hmac creds method raw_path raw_query hs now_, principal with
  | inr _, Some p => (inr (mkAccess (Some p) (scope_of p)), s)
  | inr _, None => denied Sigv4.UnknownKey
  | inl e, _ => denied e
  end.

Definition gate (id now_ : Z) (method raw_path raw_query : string) (hs : Headers) (s : S3State) : (S3Reply + Access) * S3State :=
  if negb (host_allowed inner hs) then (inl (error id 403 "AccessDenied" "Invalid Host header"), s)
  else match Sigv4.header hs SESSION_TOKEN_HEADER with
  | Some token =>
      match s3_session hmac from_slice (sessions inner) (trim token) now_ with
      | inr (p, (access, secret)) => judge id now_ (Some p, mkCredentials access secret) method raw_path raw_query hs s
      | inl reason =>
          (inl match reason with
               | Jwt.Expired => error id 400 "ExpiredToken" "The provided token has expired."
               | _ => error id 400 "InvalidToken" "The provided token is malformed or otherwise invalid."
               end, on_auth (refuse now_ reason) s)
      end
  | None =>
      if negb (closed inner) then (inr (mkAccess None whole), s)
      else judge id now_ (named_reader hs (s3_auth s)) method raw_path raw_query hs s
  end.

(** ** Objects *)

Definition no_such_key (id : Z) : S3Reply := error id 404 "NoSuchKey" "The specified key does not exist.".
Definition internal (id : Z) : S3Reply := error id 500 "InternalError" "We encountered an internal error.".
Definition precondition_failed (id : Z) : S3Reply :=
  error id 412 "PreconditionFailed" "At least one of the pre-conditions you specified did not hold".

Fixpoint trim_weak (s : string) : string :=
  match s with
  | String a (String b r) => if Ascii.eqb a "W" && Ascii.eqb b "/" then trim_weak r else s
  | _ => s
  end.

Definition tags (v : string) : list string := List.map trim (split_char "," v).

(** [if-match] before [if-unmodified-since], [if-none-match] before [if-modified-since]. *)
Definition precondition_holds (hs : Headers) (tag : string) (mtime_secs : Z) : bool :=
  match Sigv4.header hs "if-match" with
  | Some v => existsb (fun t => String.eqb t "*" || String.eqb t tag) (tags v)
  | None => match Sigv4.header hs "if-unmodified-since" ≫= parse_http_date with
            | Some since => mtime_secs <=? since
            | None => true
            end
  end.
Definition unmodified (hs : Headers) (tag : string) (mtime_secs : Z) : bool :=
  match Sigv4.header hs "if-none-match" with
  | Some v => existsb (fun t => String.eqb t "*" || String.eqb (trim_weak t) tag) (tags v)
  | None => match Sigv4.header hs "if-modified-since" ≫= parse_http_date with
            | Some since => mtime_secs <=? since
            | None => false
            end
  end.
Definition range_current (hs : Headers) (tag : string) (mtime_secs : Z) : bool :=
  match Sigv4.header hs "if-range" with
  | None => true
  | Some v =>
      let v := trim v in
      if starts_with dquote v || starts_with "W/" v then String.eqb v tag else bool_decide (parse_http_date v = Some mtime_secs)
  end.

Definition object_headers (tag : string) (mtime : Z) : list (string * string) :=
  [("Content-Type", "application/octet-stream"); ("ETag", tag); ("Last-Modified", http_date (unix_secs mtime)); ("Accept-Ranges", "bytes")].
Definition not_modified (hs : list (string * string)) : S3Reply :=
  mkS3Reply 304 (List.filter (fun h => negb (String.eqb (fst h) "Content-Type")) hs) (Text "").

(** An open file, of which a range may be asked. *)
Definition send (id : Z) (head : bool) (content : bytes) (mtime : Z) (seeks : bool) (hs : Headers) (s : S3State) : S3Reply * S3State :=
  let len := blen content in
  let tag := etag len mtime in
  let out := object_headers tag mtime in
  let mtime_secs := unix_secs mtime in
  if negb (precondition_holds hs tag mtime_secs) then (precondition_failed id, s)
  else if unmodified hs tag mtime_secs then (not_modified out, s)
  else
    let range_header := if range_current hs tag mtime_secs then Sigv4.header hs "range" else None in
    let body status out start n s :=
      if head then (mkS3Reply status out (HeadOnly n), s)
      else if (0 <? start) && negb seeks then (internal id, s)
      else (mkS3Reply status out (Stream (skipn (Z.to_nat start) content) n), s) in
    match (fun h => parse_range h len) <$> range_header with
    | Some (Satisfiable a b) =>
        body 206 (out ++ [("Content-Range", concat_str ["bytes "; show_Z a; "-"; show_Z b; "/"; show_Z len])]) a (b - a + 1) (count_range s)
    | Some Unsatisfiable =>
        let r := error id 416 "InvalidRange" "The requested range is not satisfiable" in
        (with_ "ETag" tag (with_ "Accept-Ranges" "bytes" (with_ "Content-Range" (String.append "bytes */" (show_Z len)) r)), count_range s)
    | Some Ignore | None => body 200 out 0 len s
    end.

Definition object (id : Z) (head : bool) (root : Disk) (key_raw : string) (hs : Headers) (s : S3State) : S3Reply * S3State :=
  match percent_decode key_raw false with
  | None => (no_such_key id, s)
  | Some key =>
      match resolve (tree root) key with
      | None => (no_such_key id, s)
      | Some path =>
          match opens root path with
          | NotFound | NoRegular => (no_such_key id, s)
          | OpenFailed => (internal id, s)
          | IsFile content mtime seeks => send id head content mtime seeks hs s
          end
      end
  end.

(** ** Listings *)

Definition q_ : string -> string := quoted.
Definition bucket_xml (name : string) (created : Z) : string :=
  concat_str ["<Bucket><Name>"; xml_escape name; "</Name><CreationDate>"; iso_date created; "</CreationDate></Bucket>"].

Definition list_buckets (env : Env) (scope : ReadScope) : S3Reply :=
  let buckets := String.append (bucket_xml (bucket inner) (created (store_dir env)))
                   match opt_filter (fun _ => is_whole scope) (parts inner) with
                   | Some name => bucket_xml name (created (parts_dir env))
                   | None => ""
                   end in
  xml 200 (concat_str [xml_decl; q_ "<ListAllMyBucketsResult xmlns=`"; XMLNS; q_ "`><Owner><ID>log-less</ID><DisplayName>log-less</DisplayName></Owner><Buckets>";
                       buckets; "</Buckets></ListAllMyBucketsResult>"]).

Definition param (query : list (string * string)) (name : string) : option string :=
  snd <$> List.find (fun kv => String.eqb (fst kv) name) query.
Definition show_bool (b : bool) : string := if b then "true" else "false".
Definition opt_str {A} (f : A -> string) (o : option A) : string := match o with Some a => f a | None => "" end.

(** What a listing was asked for: the page, and how it is written. *)
Record ListQuery := mkListQuery { lq_params : ListParams; lq_v2 : bool; lq_url : bool; lq_query : list (string * string) }.

Definition invalid (id : Z) (msg : string) : S3Reply := error id 400 "InvalidArgument" msg.
Definition one_value (query : list (string * string)) (name value : string) : option bool :=
  match param query name with None => Some false | Some v => if String.eqb v value then Some true else None end.

Definition list_query (id : Z) (raw_query : string) : S3Reply + ListQuery :=
  let query := parse_query raw_query in
  let get := param query in
  match one_value query "list-type" "2" with
  | None => inl (invalid id "Invalid list-type specified in Request")
  | Some v2 =>
  match one_value query "encoding-type" "url" with
  | None => inl (invalid id "Invalid Encoding Method specified in Request")
  | Some url =>
  match (match get "max-keys" with
         | None => Some MAX_KEYS_CAP
         | Some v => n ← parse_int i64_min i64_max v; if 0 <=? n then Some (Z.min n MAX_KEYS_CAP) else None
         end) with
  | None => inl (invalid id "Provided max-keys not an integer or within integer range")
  | Some max_keys =>
  match (match opt_filter (fun _ => v2) (get "continuation-token") with
         | None => Some None
         | Some t => Some <$> decode_token t
         end) with
  | None => inl (invalid id "The continuation token provided is incorrect")
  | Some token =>
      let marker := if v2 then match token with Some k => Some k | None => get "start-after" end else get "marker" in
      let delimiter := opt_filter (fun d => negb (String.eqb d "")) (get "delimiter") in
      inr (mkListQuery (mkListParams (default "" (get "prefix")) delimiter max_keys marker) v2 url query)
  end end end end.

Definition list_xml (bucket : string) (q : ListQuery) (w : Walker) : string :=
  let p := lq_params q in
  let get := param (lq_query q) in
  let enc s := xml_escape (if lq_url q then url_encode_key s else s) in
  let max_keys := show_Z (lp_max_keys p) in
  let cut := show_bool (truncated w) in
  let last_out := if truncated w then last (out w) else None in
  concat_str
    [xml_decl; q_ "<ListBucketResult xmlns=`"; XMLNS; q_ "`><Name>"; xml_escape bucket; "</Name><Prefix>"; enc (lp_prefix p); "</Prefix>";
     opt_str (fun d => concat_str ["<Delimiter>"; enc d; "</Delimiter>"]) (lp_delimiter p);
     if lq_url q then "<EncodingType>url</EncodingType>" else "";
     if lq_v2 q then
       concat_str
         ["<KeyCount>"; show_Z (Z.of_nat (List.length (out w))); "</KeyCount><MaxKeys>"; max_keys; "</MaxKeys><IsTruncated>"; cut; "</IsTruncated>";
          opt_str (fun t => concat_str ["<ContinuationToken>"; xml_escape t; "</ContinuationToken>"]) (get "continuation-token");
          opt_str (fun s => concat_str ["<StartAfter>"; enc s; "</StartAfter>"]) (get "start-after");
          opt_str (fun u => concat_str ["<NextContinuationToken>"; encode_token (unit_key u); "</NextContinuationToken>"]) last_out]
     else
       concat_str
         ["<Marker>"; enc (default "" (get "marker")); "</Marker><MaxKeys>"; max_keys; "</MaxKeys><IsTruncated>"; cut; "</IsTruncated>";
          opt_str (fun u => concat_str ["<NextMarker>"; enc (unit_key u); "</NextMarker>"]) (if lp_delimiter p then last_out else None)];
     concat_str (List.map (fun u => match u with
       | UKey key size mtime =>
           concat_str ["<Contents><Key>"; enc key; "</Key><LastModified>"; iso_date mtime; "</LastModified><ETag>"; xml_escape (etag size mtime); "</ETag><Size>";
                       show_Z size; "</Size><StorageClass>STANDARD</StorageClass></Contents>"]
       | UPrefix _ => ""
       end) (out w));
     concat_str (List.map (fun u => match u with
       | UKey _ _ _ => ""
       | UPrefix p => concat_str ["<CommonPrefixes><Prefix>"; enc p; "</Prefix></CommonPrefixes>"]
       end) (out w));
     "</ListBucketResult>"].

Definition list_objects (id : Z) (bucket : string) (root : Disk) (raw_query : string) (scope : ReadScope) : S3Reply :=
  match list_query id raw_query with
  | inl r => r
  | inr q => xml 200 (list_xml bucket q (list_page (lq_params q) scope (tree root)))
  end.

(** ** A request *)

Definition out_of_scope (id now_ : Z) (access : Access) (s : S3State) : S3Reply * S3State :=
  (error id 403 "AccessDenied" "Access Denied",
   on_auth (match principal access with Some p => refuse_principal now_ p OutOfScope | None => refuse now_ OutOfScope end) s).

Definition count_read (now_ : Z) (p : Principal) : Verifier -> Verifier :=
  count now_ p (fun e => mkCounters (c_kind e) (c_source e) (wadd64 (c_requests e) 1) (c_records e)
                           (c_index_defaulted e) (c_index_refused e) (c_refused e) (c_last_seen e)).

(** The bucket a path names, and its directory. *)
Definition bucket_of (env : Env) (bucket_raw : string) : option (string * Disk) :=
  b ← percent_decode bucket_raw false;
  if String.eqb b (bucket inner) then Some (b, store_dir env)
  else if bool_decide (parts inner = Some b) then Some (b, parts_dir env) else None.

(** What is asked of whom is known. *)
Definition answer (id : Z) (env : Env) (access : Access) (method raw_path raw_query : string) (hs : Headers) (s : S3State) : S3Reply * S3State :=
  if negb (String.eqb method "GET" || String.eqb method "HEAD")
  then (with_ "Allow" "GET, HEAD" (error id 405 "MethodNotAllowed" "The specified method is not allowed against this resource"), s)
  else
    let head := String.eqb method "HEAD" in
    match strip_prefix "/" raw_path with
    | None => (error id 400 "InvalidURI" "Couldn't parse the specified URI", s)
    | Some rest =>
        if String.eqb rest "" then (if head then xml 200 "" else list_buckets env (scope access), s)
        else
          let '(bucket_raw, key_raw) := match split_once "/" rest with Some bk => bk | None => (rest, "") end in
          match bucket_of env bucket_raw with
          | None => (error id 404 "NoSuchBucket" "The specified bucket does not exist", s)
          | Some (b, root) =>
              if negb (String.eqb b (bucket inner)) && negb (is_whole (scope access)) then out_of_scope id (now env) access s
              else if String.eqb key_raw "" then
                let reply :=
                  if head then xml 200 ""
                  else if existsb (fun kv => String.eqb (fst kv) "location") (parse_query raw_query)
                  then xml 200 (concat_str [xml_decl; q_ "<LocationConstraint xmlns=`"; XMLNS; q_ "`>"; REGION; "</LocationConstraint>"])
                  else list_objects id b root raw_query (scope access) in
                (with_ "x-amz-bucket-region" REGION reply, s)
              else if negb (is_whole (scope access)) && negb (match percent_decode key_raw false with Some key => scope_allows (scope access) key | None => false end)
              then out_of_scope id (now env) access s
              else object id head root key_raw hs s
          end
    end.

Definition route (id : Z) (env : Env) (method raw_path raw_query : string) (hs : Headers) (s : S3State) : S3Reply * S3State :=
  match gate id (now env) method raw_path raw_query hs s with
  | (inl denied, s) => (denied, s)
  | (inr access, s) =>
      let s := match principal access with Some p => on_auth (count_read (now env) p) s | None => s end in
      answer id env access method raw_path raw_query hs s
  end.

Definition next_id (s : S3State) : Z := wadd64 (requests (s3_stats s)) 1.

Definition handle (env : Env) (r : Incoming) (s : S3State) : Handed * S3State :=
  let id := next_id s in
  let '(reply, s) := route id env (method_name r) (rq_path r) (query r) (headers r) (count_request s) in
  (into_http id (bool_decide (Httpd.method r = Httpd.Head)) reply, s).

Definition preflight (env : Env) (r : Incoming) (s : S3State) : option Handed * S3State :=
  let id := next_id s in
  match gate id (now env) (method_name r) (rq_path r) (query r) (headers r) s with
  | (inl denied, s) => (Some (into_http id (bool_decide (Httpd.method r = Httpd.Head)) denied), count_request s)
  | (inr _, s) => (None, s)
  end.

Definition reject (reason : Reject) (s : S3State) : Handed * S3State :=
  let id := next_id s in
  let reply := match reason with
               | TooLarge => error id 413 "EntityTooLarge" "Your proposed upload exceeds the maximum allowed size"
               | Unreadable => error id 400 "BadRequest" "The request could not be read"
               end in
  (into_http id false reply, count_request s).
End Serve.

(** ** The start *)

Definition filled (o : option string) : option string := opt_filter (fun s => negb (String.eqb s "")) o.
Definition or_else {A} (a b : option A) : option A := match a with Some _ => a | None => b end.

Definition resolve_credentials (cfg : S3ServeConfig) (env_access env_secret : option string) : S3ServeError + option Credentials :=
  match or_else (filled (sc_access_key cfg)) (filled env_access), or_else (filled (sc_secret_key cfg)) (filled env_secret) with
  | Some a, Some s => inr (Some (mkCredentials a s))
  | None, None => inr None
  | Some _, None => inl (PartialCredentials "access key")
  | None, Some _ => inl (PartialCredentials "secret key")
  end.
Definition configured_credentials (cfg : S3ServeConfig) (env_access env_secret : option string) : option (string * string) :=
  match resolve_credentials cfg env_access env_secret with inr (Some c) => Some (access_key c, secret_key c) | _ => None end.

(** The limits of its listener. *)
Definition s3_head_limits (workers : Z) : HeadLimits :=
  mkHeadLimits (max_head_bytes default_head) (max_headers default_head) REQUEST_TIMEOUT (Z.max (workers * CONNECTIONS_PER_WORKER) MIN_CONNECTIONS)
    (gzip default_head) (chunked default_head) (min_stream_bytes_per_sec default_head).
Definition s3_limits : Limits := mkLimits MAX_BODY_BYTES 0.

(** [resolved]: of each address the name stands for, whether it is loopback; [bound]:
    whether the listener could be opened. *)
Definition start_with_auth (cfg : S3ServeConfig) (with_parts : bool) (auth : Verifier) (sessions : option (Sessions * Z))
    (env_access env_secret : option string) (resolved : option (list bool)) (bound : bool) : S3ServeError + (Inner * S3State) :=
  match resolve_credentials cfg env_access env_secret with
  | inl e => inl e
  | inr _ =>
      let has_readers := negb (bool_decide (readers auth = [])) in
      if with_parts && String.eqb (sc_parts_bucket cfg) (sc_bucket cfg) then inl (SameBucket (sc_bucket cfg))
      else match resolved with
      | None | Some [] => inl HttpFailed
      | Some addrs =>
          let loopback := forallb (fun a => a) addrs in
          if negb has_readers && negb loopback && negb (bool_decide (is_Some sessions)) then inl (OpenOnPublicAddress (sc_addr cfg))
          else if negb bound then inl HttpFailed
          else inr (mkInner (sc_bucket cfg) (if with_parts then Some (sc_parts_bucket cfg) else None) (has_readers || negb loopback)
                      (List.map str_lower (sc_allowed_hosts cfg)) sessions,
                    mkS3State (mkS3Stats 0 0 0) auth)
      end
  end.

(** With the one key pair of the configuration as its only reader. *)
Definition start_with_parts (tenancy : Tenancy.Tenancy) (cfg : S3ServeConfig) (with_parts : bool)
    (env_access env_secret : option string) (resolved : option (list bool)) (bound : bool) : S3ServeError + (Inner * S3State) :=
  match resolve_credentials cfg env_access env_secret with
  | inl e => inl e
  | inr creds =>
      let v := standalone tenancy in
      let v := match creds with Some c => builder_s3 (access_key c) (secret_key c) v | None => v end in
      start_with_auth cfg with_parts v None env_access env_secret resolved bound
  end.


(** ** What of a tree lies within a scope *)

Section Within.
Context (scope : ReadScope).

Definition kept (key_prefix name : string) (c : Node) : bool :=
  let key := String.append key_prefix (sort_key_of name c) in if is_dir c then reaches scope key else scope_allows scope key.

Fixpoint within (n : Node) (key_prefix : string) : Node :=
  match n with
  | NDir es =>
      NDir ((fix go (l : list (string * Node)) : list (string * Node) :=
        match l with
        | [] => []
        | (name, c) :: l =>
            if kept key_prefix name c then (name, within c (String.append key_prefix (sort_key_of name c))) :: go l else go l
        end) es)
  | n => n
  end.

Definition keep_entry (key_prefix : string) (e : string * Node) : option (string * Node) :=
  if kept key_prefix (fst e) (snd e) then Some (fst e, within (snd e) (String.append key_prefix (sort_key_of (fst e) (snd e)))) else None.

Lemma within_dir es kp : within (NDir es) kp = NDir (omap (keep_entry kp) es).
Proof.
  cbn [within]. f_equal. induction es as [|[name c] es IH]; [done|]. cbn [omap list_omap]. unfold keep_entry at 1. cbn [fst snd]. by destruct (kept kp name c); rewrite IH.
Qed.

Lemma within_dirness n kp : is_dir (within n kp) = is_dir n.
Proof. by destruct n. Qed.
Lemma within_fileness n kp : is_file (within n kp) = is_file n.
Proof. by destruct n. Qed.

Lemma allows_reaches a b : scope_allows scope b = true -> starts_with a b = true -> reaches scope a = true.
Proof.
  unfold scope_allows, reaches. rewrite !existsb_exists. intros (r & Hr & Hb) Ha. exists r. split; [done|]. apply orb_true_iff. by apply (starts_both _ _ b).
Qed.

Lemma unreached a b : reaches scope a = false -> starts_with a b = true -> reaches scope b = false /\ scope_allows scope b = false.
Proof.
  intros H Hs. split; apply not_true_iff_false; intros Hb.
  - apply not_true_iff_false in H. apply H. revert Hb. unfold reaches. rewrite !existsb_exists. intros (r & Hr & Hb). exists r. split; [done|]. apply orb_true_iff.
    apply orb_true_iff in Hb as [Hb|Hb]; [by apply (starts_both _ _ b)|right; by eapply starts_trans].
  - apply not_true_iff_false in H. apply H. by eapply allows_reaches.
Qed.

Lemma seen_kept kp name c k : seen scope kp name c = Some k -> kept kp name c = true.
Proof.
  unfold seen, kept, sort_key_of. destruct (_ || _); [done|]. destruct c as [s t|es|]; cbn [is_dir concat_str fold_right]; [|rewrite str_app_nil_r; by destruct (reaches _ _)|done].
  destruct (servable _); cbn [andb]; [|done]. by destruct (scope_allows _ _).
Qed.
Lemma seen_within kp name c key : seen scope kp name (within c key) = seen scope kp name c.
Proof. unfold seen. by destruct c. Qed.

(** A mark says of a directory only that it is one. *)
Definition surface (m : Mark) : Mark := (fst m, match snd m with NDir _ => NDir [] | n => n end).
Lemma unit_of_surface p m : unit_of p (surface m) = unit_of p m.
Proof. unfold unit_of, surface. cbn [fst snd]. by destruct (snd m). Qed.

Definition on_surface (e : string * list Mark) : string * list Mark := (fst e, List.map surface (snd e)).
Lemma surface_sorted (l : list (string * list Mark)) :
  List.map surface (concat (List.map snd (stable_sort by_sort_key l))) = concat (List.map snd (stable_sort by_sort_key (List.map on_surface l))).
Proof.
  unfold on_surface. rewrite (sort_map (fun e => List.map surface (snd e))), List.map_map, concat_map, List.map_map. done.
Qed.

Lemma flatten_within n : forall kp, List.map surface (flatten scope (within n kp) kp) = List.map surface (flatten scope n kp).
Proof.
  induction n as [s t| |es IH] using node_ind'; intros kp; [done|done|]. rewrite within_dir, !flatten_dir, !surface_sorted. f_equal. f_equal. f_equal.
  unfold below_of. induction IH as [|[name c] es Hc Hes IHes]; [done|]. cbn [omap list_omap]. unfold keep_entry at 1. cbn [fst snd].
  destruct (kept kp name c) eqn:Ek.
  - cbn [omap list_omap fst snd]. rewrite seen_within. destruct (seen scope kp name c) as [k|] eqn:Es; cbn [mbind option_bind List.map]; [|exact IHes].
    rewrite IHes. f_equal. unfold on_surface. cbn [fst snd List.map]. f_equal. destruct (seen_key _ _ _ _ _ Es) as [-> _]. rewrite Hc. f_equal.
    unfold surface. cbn [fst snd]. by destruct c.
  - destruct (seen scope kp name c) as [k|] eqn:Es; [by rewrite (seen_kept _ _ _ _ Es) in Ek|]. cbn [mbind option_bind]. exact IHes.
Qed.

(** Nothing is seen below a directory the scope does not reach. *)
Lemma flatten_unreached n kp : reaches scope kp = false -> flatten scope n kp = [].
Proof.
  intros H. destruct n as [| es|]; [done| |done]. rewrite flatten_dir. replace (below_of scope kp es) with (@nil (string * list Mark)); [done|].
  symmetry. unfold below_of. apply omap_none. apply List.Forall_forall. intros [name c] _. cbn [fst snd].
  destruct (seen scope kp name c) as [k|] eqn:Es; [|done]. exfalso. pose proof (seen_kept _ _ _ _ Es) as Hk. unfold kept in Hk.
  destruct (unreached kp (String.append kp (sort_key_of name c)) H (starts_app _ _)) as [H1 H2]. by destruct (is_dir c); congruence.
Qed.

(** ** Looking down *)

Lemma child_within es kp s : List.NoDup (List.map fst es) ->
  child (within (NDir es) kp) s = (c ← child (NDir es) s; snd <$> keep_entry kp (s, c)).
Proof.
  rewrite within_dir. cbn [child]. induction es as [|[name c] es IH]; [done|]. cbn [List.map fst]. intros [Hni Hnd]%List.NoDup_cons_iff. specialize (IH Hnd).
  cbn [omap list_omap List.find fst]. destruct (String.eqb_spec name s) as [->|Hne].
  - cbn [fmap option_fmap option_map snd mbind option_bind]. destruct (keep_entry kp (s, c)) as [[s' c']|] eqn:Ek.
    + unfold keep_entry in Ek. cbn [fst snd] in Ek. destruct (kept kp s c); [|done]. injection Ek as <- <-. cbn [List.find fst]. by rewrite String.eqb_refl.
    + rewrite IH. destruct (List.find _ es) as [[s' c']|] eqn:Ef; [|done]. exfalso. apply find_some in Ef as [Hin E]. cbn [fst] in E. apply String.eqb_eq in E as ->.
      apply Hni. change s with (fst (s, c')). by apply in_map.
  - destruct (keep_entry kp (name, c)) as [[s' c']|] eqn:Ek; [|exact IH]. unfold keep_entry in Ek. cbn [fst snd] in Ek. destruct (kept kp name c); [|done]. injection Ek as <- <-.
    cbn [List.find fst]. destruct (String.eqb_spec name s); [done|]. exact IH.
Qed.

Lemma tree_names n : tree_ok n -> match n with NDir es => List.NoDup (List.map fst es) | _ => True end.
Proof. by destruct 1. Qed.

Fixpoint path_of (segments : list string) : string :=
  match segments with [] => "" | s :: rest => String.append s (String "/" (path_of rest)) end.

Lemma down_within segments : forall n kp, tree_ok n ->
  match down n segments, down (within n kp) segments with
  | Some d, Some d' => d' = within d (String.append kp (path_of segments))
  | Some d, None => flatten scope d (String.append kp (path_of segments)) = []
  | None, o => o = None
  end.
Proof.
  induction segments as [|s segs IH]; intros n kp Hok; cbn [down path_of]; [by rewrite str_app_nil_r|].
  destruct n as [|es|]; [done| |done]. rewrite child_within by exact (tree_names _ Hok). destruct (child (NDir es) s) as [c|] eqn:Ec; cbn [mbind option_bind]; [|done].
  unfold keep_entry. cbn [fst snd]. destruct (is_dir c) eqn:Ed; cycle 1.
  { destruct (kept kp s c); [|done]. cbn [fmap option_fmap option_map snd mbind option_bind]. by rewrite within_dirness, Ed. }
  assert (Hkey : String.append kp (sort_key_of s c) = String.append kp (String.append s "/")) by (unfold sort_key_of; by rewrite Ed).
  assert (Hpath : String.append kp (String.append s (String "/" (path_of segs))) = String.append (String.append kp (String.append s "/")) (path_of segs)) by (rewrite !str_app_assoc; done).
  rewrite Hpath. destruct (kept kp s c) eqn:Ek; cbn [fmap option_fmap option_map snd mbind option_bind].
  - rewrite within_dirness, Ed, Hkey. apply IH. by eapply child_ok.
  - destruct (down c segs) as [d|]; [|done]. apply flatten_unreached. unfold kept in Ek. rewrite Ed, Hkey in Ek. by apply (unreached _ _ Ek), starts_app.
Qed.

Lemma descend_cons s s2 segs n : descend n (s :: s2 :: segs) = (c ← child n s; if is_dir c then descend c (s2 :: segs) else None).
Proof. done. Qed.

Lemma descend_within segments : forall n kp, tree_ok n -> scope_allows scope (String.append kp (str_join "/" segments)) = true ->
  descend (within n kp) segments = descend n segments.
Proof.
  induction segments as [|s segs IH]; intros n kp Hok Hal; [done|]. destruct n as [| es|]; [by destruct segs| |by destruct segs].
  destruct segs as [|s2 segs].
  - cbn [descend str_join] in *. rewrite child_within by exact (tree_names _ Hok). destruct (child (NDir es) s) as [c|]; [|done]. cbn [mbind option_bind].
    unfold keep_entry, kept. cbn [fst snd]. destruct c as [sz t| es'|]; unfold sort_key_of; cbn [is_dir is_file].
    + rewrite Hal. done.
    + by destruct (reaches _ _).
    + by destruct (scope_allows _ _).
  - rewrite !descend_cons, child_within by exact (tree_names _ Hok). destruct (child (NDir es) s) as [c|] eqn:Ec; [|done]. cbn [mbind option_bind].
    unfold keep_entry, kept. cbn [fst snd]. destruct (is_dir c) eqn:Ed; unfold sort_key_of; rewrite Ed; cycle 1.
    { destruct (scope_allows scope (String.append kp s)); [|done]. cbn [fmap option_fmap option_map snd mbind option_bind]. by rewrite within_dirness, Ed. }
    assert (Hsplit : String.append kp (str_join "/" (s :: s2 :: segs)) = String.append (String.append kp (String.append s "/")) (str_join "/" (s2 :: segs))).
    { rewrite !str_app_assoc. done. }
    rewrite Hsplit in Hal. rewrite (allows_reaches (String.append kp (String.append s "/")) _ Hal (starts_app _ _)).
    cbn [fmap option_fmap option_map snd mbind option_bind]. rewrite within_dirness, Ed. apply IH; [by eapply child_ok|done].
Qed.
End Within.

Lemma path_of_join l : l <> [] -> path_of l = String.append (str_join "/" l) "/".
Proof.
  induction l as [|s [|s2 l] IH]; intros H; [done|done|]. change (path_of (s :: s2 :: l)) with (String.append s (String "/" (path_of (s2 :: l)))). rewrite IH by done.
  change (str_join "/" (s :: s2 :: l)) with (String.append s (String.append "/" (str_join "/" (s2 :: l)))). by rewrite !str_app_assoc.
Qed.

Lemma safe_segments_split key segments : safe_segments key = Some segments -> segments = split_char "/" key.
Proof. unfold safe_segments. destruct (String.eqb key ""); [done|]. cbv zeta. destruct (existsb _ _); [done|]. by intros [= <-]. Qed.
Lemma safe_path key segments : safe_segments key = Some segments -> path_of segments = String.append key "/" /\ str_join "/" segments = key.
Proof.
  intros H. apply safe_segments_split in H as ->. split; [|apply join_split_char]. rewrite path_of_join; [by rewrite join_split_char|apply split_on_nonempty].
Qed.

(** What a listing walks, and where from. *)
Definition marks_of (p : ListParams) (scope : ReadScope) (root : Node) : list Mark :=
  match list_base p root with Some (dir, base) => flatten scope dir base | None => [] end.

Lemma list_page_marks p scope root : list_page p scope root =
  if 0 <? lp_max_keys p then fst (push_all p (omap (unit_of p) (marks_of p scope root)) (mkWalker [] false None)) else mkWalker [] false None.
Proof. unfold list_page, marks_of. destruct (_ <? _); [|done]. destruct (list_base p root) as [[dir base]|]; [|done]. by rewrite walk_is. Qed.

Lemma marks_within p scope root : tree_ok root -> List.map surface (marks_of p scope (within scope root "")) = List.map surface (marks_of p scope root).
Proof.
  intros Hok. unfold marks_of, list_base, last_slash. destruct (rsplit_once "/" (lp_prefix p)) as [[d r]|]; [|apply flatten_within].
  destruct (safe_segments d) as [segments|] eqn:Es; [|done]. cbn [mbind option_bind]. pose proof (down_within scope segments root "" Hok) as H.
  destruct (safe_path _ _ Es) as [Hp _]. rewrite Hp in H. change (String.append "" (String.append d "/")) with (String.append d "/") in H.
  destruct (down root segments) as [n|]; [|by rewrite H]. destruct (down (within scope root "") segments) as [n'|]; cbn [mbind option_bind].
  - rewrite H. apply flatten_within.
  - by rewrite H.
Qed.

(** A page is of the part of the store that lies within the scope. *)
Lemma list_page_within p scope root : tree_ok root -> list_page p scope (within scope root "") = list_page p scope root.
Proof.
  intros Hok. rewrite !list_page_marks. destruct (_ <? _); [|done]. f_equal. f_equal.
  assert (H : forall ms, omap (unit_of p) ms = omap (unit_of p) (List.map surface ms)).
  { intros ms. rewrite omap_map. induction ms as [|m ms IH]; [done|]. cbn [omap list_omap]. by rewrite unit_of_surface, IH. }
  by rewrite H, (H (marks_of p scope root)), marks_within.
Qed.

Lemma resolve_within scope root key : tree_ok root -> scope_allows scope key = true -> resolve (within scope root "") key = resolve root key.
Proof.
  intros Hok Hal. unfold resolve. destruct (safe_segments key) as [segments|] eqn:Es; [|done]. cbn [mbind option_bind]. destruct (negb (servable key)); [done|].
  destruct (safe_path _ _ Es) as [_ Hj]. rewrite descend_within; [done|done|]. cbn [String.append]. by rewrite Hj.
Qed.

Lemma resolve_path root key path : resolve root key = Some path -> str_join "/" path = key.
Proof.
  unfold resolve. intros H. bind_inv H segments Es. destruct (negb (servable key)); [done|]. bind_inv H n En. injection H as <-. by apply (safe_path _ _ Es).
Qed.

(** Two disks that differ at most outside a scope. *)
Record same_within (scope : ReadScope) (d1 d2 : Disk) : Prop := {
  same_tree : within scope (tree d1) "" = within scope (tree d2) "";
  same_opens : forall path, scope_allows scope (str_join "/" path) = true -> opens d1 path = opens d2 path;
  same_created : created d1 = created d2;
  whole_tree_1 : tree_ok (tree d1);
  whole_tree_2 : tree_ok (tree d2) }.

Lemma object_within scope id head d1 d2 key_raw hs s : same_within scope d1 d2 ->
  match percent_decode key_raw false with Some key => scope_allows scope key | None => false end = true ->
  object id head d1 key_raw hs s = object id head d2 key_raw hs s.
Proof.
  intros [Ht Ho _ H1 H2] Hal. unfold object. destruct (percent_decode key_raw false) as [key|]; [|done].
  rewrite <- (resolve_within scope (tree d1) key H1 Hal), Ht, (resolve_within scope (tree d2) key H2 Hal).
  destruct (resolve (tree d2) key) as [path|] eqn:Er; [|done]. rewrite Ho; [done|]. by rewrite (resolve_path _ _ _ Er).
Qed.

(** The environments of two requests, as far as a scope tells. *)
Definition alike (scope : ReadScope) (e1 e2 : Env) : Prop :=
  now e1 = now e2 /\ same_within scope (store_dir e1) (store_dir e2) /\ (is_whole scope = true -> same_within scope (parts_dir e1) (parts_dir e2)).

Lemma whole_allows scope key : is_whole scope = true -> scope_allows scope key = true.
Proof. unfold is_whole, scope_allows. rewrite !existsb_exists. intros (r & Hr & E). apply String.eqb_eq in E as <-. by exists "". Qed.

Section Silent.
Context (sha256 : bytes -> bytes) (hmac : bytes -> bytes -> bytes) (from_slice : bytes -> option Json) (inner : Inner).

Lemma list_objects_within id bucket d1 d2 raw_query scope : same_within scope d1 d2 -> list_objects id bucket d1 raw_query scope = list_objects id bucket d2 raw_query scope.
Proof.
  intros [Ht _ _ H1 H2]. unfold list_objects. destruct (list_query id raw_query) as [r|q]; [done|].
  by rewrite <- (list_page_within (lq_params q) scope (tree d1) H1), Ht, (list_page_within (lq_params q) scope (tree d2) H2).
Qed.

Lemma bucket_within access e1 e2 bucket_raw : alike (scope access) e1 e2 ->
  match bucket_of inner e1 bucket_raw, bucket_of inner e2 bucket_raw with
  | Some (b1, d1), Some (b2, d2) => b1 = b2 /\ (negb (String.eqb b1 (bucket inner)) && negb (is_whole (scope access)) = false -> same_within (scope access) d1 d2)
  | None, None => True
  | _, _ => False
  end.
Proof.
  intros (_ & Hs & Hp). unfold bucket_of. destruct (percent_decode bucket_raw false) as [b|]; [|done]. cbn [mbind option_bind].
  destruct (String.eqb b (bucket inner)) eqn:E; [by rewrite E|]. case_bool_decide; [|done]. split; [done|]. rewrite E. cbn [negb andb]. intros Hw. apply Hp. by apply negb_false_iff.
Qed.

(** Who may read what is known: the reply does not depend on the rest of the store. *)
Lemma answer_within id access method raw_path raw_query hs s e1 e2 : alike (scope access) e1 e2 ->
  answer inner id e1 access method raw_path raw_query hs s = answer inner id e2 access method raw_path raw_query hs s.
Proof.
  intros Hal. pose proof Hal as (Hnow & Hs & Hp). unfold answer. destruct (negb (String.eqb method "GET" || String.eqb method "HEAD")); [done|]. cbv zeta.
  destruct (strip_prefix "/" raw_path) as [rest|]; [|done]. destruct (String.eqb rest "").
  { destruct (String.eqb method "HEAD"); [done|]. unfold list_buckets. rewrite (same_created _ _ _ Hs). destruct (parts inner) as [name|]; [|done].
    cbn [opt_filter]. destruct (is_whole (scope access)); [|done]. by rewrite (same_created _ _ _ (Hp eq_refl)). }
  destruct (match split_once "/" rest with Some bk => bk | None => (rest, "") end) as [bucket_raw key_raw].
  pose proof (bucket_within access e1 e2 bucket_raw Hal) as Hb. destruct (bucket_of inner e1 bucket_raw) as [[b1 d1]|], (bucket_of inner e2 bucket_raw) as [[b2 d2]|]; try done.
  destruct Hb as [<- Hsame]. rewrite Hnow. destruct (negb (String.eqb b1 (bucket inner)) && negb (is_whole (scope access))); [done|]. specialize (Hsame eq_refl).
  destruct (String.eqb key_raw ""); [by rewrite (list_objects_within _ _ _ _ _ _ Hsame)|].
  destruct (is_whole (scope access)) eqn:Ew; cbn [negb andb].
  - destruct (percent_decode key_raw false) as [key|] eqn:Ek; [|unfold object; by rewrite Ek].
    apply (object_within (scope access)); [done|]. rewrite Ek. by apply whole_allows.
  - destruct (match percent_decode key_raw false with Some key => scope_allows (scope access) key | None => false end) eqn:Ea; cbn [negb]; [|done].
    by apply (object_within (scope access)).
Qed.
End Silent.

(** C10: what lies outside the scope of whoever a request is from never shows: over two
    stores that differ only there, in names, directories or contents, any request of
    any form, an object, a listing or the list of buckets, gets the same reply and
    leaves the same counters; and a request that is denied is denied without the disk. *)
Theorem outside_never_shows sha256 hmac from_slice (inner : Inner) (id : Z) (e1 e2 : Env) (method raw_path raw_query : string) (hs : Headers) (s : S3State) :
  match fst (gate sha256 hmac from_slice inner id (now e1) method raw_path raw_query hs s) with
  | inr access => alike (scope access) e1 e2
  | inl _ => now e1 = now e2
  end ->
  route sha256 hmac from_slice inner id e1 method raw_path raw_query hs s = route sha256 hmac from_slice inner id e2 method raw_path raw_query hs s.
Proof.
  unfold route. intros H. assert (Hnow : now e1 = now e2) by (destruct (fst _); [done|apply H]). rewrite <- Hnow in *.
  destruct (gate _ _ _ _ _ _ _ _ _ _ _) as [[denied|access] s']; [done|]. cbn [fst] in H. by apply answer_within.
Qed.

(** ** Who is served *)

Section Entitled.
Context (sha256 : bytes -> bytes) (hmac : bytes -> bytes -> bytes) (from_slice : bytes -> option Json) (inner : Inner).
Abbreviation signed_ := (Sigv4.verify sha256 hmac).

(** What entitles a request to a scope: an open listener; a signature with the secret
    of a reader; or one with the secret a session token stands for. *)
Inductive entitled (now_ : Z) (method raw_path raw_query : string) (hs : Headers) (v : Verifier) : option Principal -> ReadScope -> Prop :=
| by_nothing : closed inner = false -> Sigv4.header hs SESSION_TOKEN_HEADER = None -> entitled now_ method raw_path raw_query hs v None whole
| by_reader p secret : In (p, secret) (readers v) -> Sigv4.header hs SESSION_TOKEN_HEADER = None ->
    signed_ (mkCredentials (p_id p) secret) method raw_path raw_query hs now_ = inr tt ->
    entitled now_ method raw_path raw_query hs v (Some p) (scope_of p)
| by_session token p access secret : Sigv4.header hs SESSION_TOKEN_HEADER = Some token ->
    s3_session hmac from_slice (sessions inner) (trim token) now_ = inr (p, (access, secret)) ->
    signed_ (mkCredentials access secret) method raw_path raw_query hs now_ = inr tt ->
    entitled now_ method raw_path raw_query hs v (Some p) (scope_of p).

Lemma judge_grants id now_ who method raw_path raw_query hs s access s' :
  judge sha256 hmac id now_ who method raw_path raw_query hs s = (inr access, s') ->
  s' = s /\ exists p, fst who = Some p /\ access = mkAccess (Some p) (scope_of p) /\ signed_ (snd who) method raw_path raw_query hs now_ = inr tt.
Proof.
  unfold judge. destruct who as [[p|] creds]; cbn [fst snd]; destruct (signed_ _ _ _ _ _ _) as [e|[]]; try done. intros [= <- <-]. split; [done|]. by exists p.
Qed.

Lemma gate_grants id now_ method raw_path raw_query hs s access s' :
  gate sha256 hmac from_slice inner id now_ method raw_path raw_query hs s = (inr access, s') ->
  s' = s /\ host_allowed inner hs = true /\ entitled now_ method raw_path raw_query hs (s3_auth s) (principal access) (scope access).
Proof.
  unfold gate. destruct (host_allowed inner hs); [|done]. cbn [negb]. destruct (Sigv4.header hs SESSION_TOKEN_HEADER) as [token|] eqn:Et.
  - destruct (s3_session _ _ _ _ _) as [reason|[p [access_ secret]]] eqn:Ev; [done|]. intros H. destruct (judge_grants _ _ _ _ _ _ _ _ _ _ H) as (-> & p' & [= <-] & -> & Hs).
    split_and!; [done|done|]. by eapply by_session.
  - destruct (closed inner) eqn:Ec; cbn [negb]; [|intros [= <- <-]; split_and!; [done|done|by apply by_nothing]].
    intros H. destruct (judge_grants _ _ _ _ _ _ _ _ _ _ H) as (-> & p & Hp & -> & Hs). split_and!; [done|done|].
    unfold named_reader in Hp, Hs. destruct (Sigv4.access_key_id hs) as [|id']; [done|]. unfold s3_reader in *. destruct (List.find _ _) as [[p' secret]|] eqn:Ef; [|done].
    cbn [fst snd] in *. injection Hp as ->. apply find_some in Ef as [Hin _]. by eapply by_reader.
Qed.
End Entitled.

(** ** Ranges *)

Lemma parse_range_ok value len a b : 0 <= len -> parse_range value len = Satisfiable a b -> 0 <= a <= b /\ b < len.
Proof.
  unfold parse_range. intros Hlen. destruct (strip_prefix _ _) as [spec|]; [|done]. destruct (str_has "," spec); [done|]. destruct (split_once "-" spec) as [[first last]|]; [|done]. cbv zeta.
  destruct (String.eqb (trim first) "").
  - destruct (Sigv4.num (trim last)) as [n|] eqn:En; [|done]. pose proof (num_range _ _ En). destruct ((n =? 0) || (len =? 0)) eqn:E; [done|]. intros [= <- <-]. zbool. unfold sat_sub. lia.
  - destruct (String.eqb (trim last) "").
    + destruct (Sigv4.num (trim first)) as [n|] eqn:En; [|done]. pose proof (num_range _ _ En). destruct (len <=? n) eqn:E; [done|]. intros [= <- <-]. zbool. lia.
    + destruct (Sigv4.num (trim first)) as [n|] eqn:En; [|done]. destruct (Sigv4.num (trim last)) as [m|] eqn:Em; [|done]. pose proof (num_range _ _ En).
      destruct (m <? n) eqn:E1; [done|]. destruct (len <=? n) eqn:E2; [done|]. intros [= <- <-]. zbool. lia.
Qed.

Definition range_text (a b : Z) : string := concat_str ["bytes="; show_Z a; "-"; show_Z b].

Lemma num_show n : 0 <= n <= u64_max -> Sigv4.num (show_Z n) = Some n.
Proof. intros H. replace (show_Z n) with (pad0 0 n) by done. by apply num_pad0. Qed.

Lemma digits_are (p : ascii -> bool) n : 0 <= n -> (forall c, is_digit c = true -> p c = true) -> str_all p (show_Z n) = true.
Proof. intros Hn H. eapply str_all_impl; [exact H|]. by apply show_Z_digits. Qed.

Lemma digit_not c d : is_digit d = false -> is_digit c = true -> negb (Ascii.eqb c d) = true.
Proof. intros Hd Hc. apply negb_true_iff. apply not_true_iff_false. intros E. apply Ascii.eqb_eq in E as ->. congruence. Qed.

Lemma str_has_lacks c s : str_all (fun x => negb (Ascii.eqb c x)) s = true -> str_has c s = false.
Proof. unfold str_has. induction s as [|x s IH]; [done|]. cbn [str_all str_any]. intros [Hx Hs]%andb_true_iff. apply negb_true_iff in Hx. by rewrite Hx, IH. Qed.

(** A range as clients write it. *)
Lemma range_reads_back a b len : 0 <= a <= b -> b <= u64_max -> a < len -> parse_range (range_text a b) len = Satisfiable a (Z.min b (len - 1)).
Proof.
  intros Hab Hb Hlen. unfold parse_range, range_text. cbn [concat_str fold_right]. rewrite str_app_nil_r.
  assert (Hg : forall n, 0 <= n -> str_all graphic (show_Z n) = true) by (intros; apply digits_graphic; by apply show_Z_digits).
  rewrite trim_graphic by (rewrite !str_all_app, !Hg by lia; done). rewrite strip_prefix_app.
  replace (str_has "," _) with false; [|symmetry; apply str_has_lacks; rewrite !str_all_app, !digits_are; [done|lia|intros c Hc; rewrite Ascii.eqb_sym; by apply digit_not|lia|intros c Hc; rewrite Ascii.eqb_sym; by apply digit_not]].
  change (String.append (show_Z a) (String.append "-" (show_Z b))) with (String.append (show_Z a) (String "-" (show_Z b))).
  rewrite split_once_app by (apply digits_are; [lia|intros c; by apply digit_not]). cbv zeta. rewrite !trim_graphic by (apply Hg; lia).
  destruct (String.eqb_spec (show_Z a) "") as [E|_]; [by apply show_Z_nonempty in E|]. destruct (String.eqb_spec (show_Z b) "") as [E|_]; [by apply show_Z_nonempty in E|].
  rewrite !num_show by lia. destruct (Z.ltb_spec b a); [lia|]. destruct (Z.leb_spec len a); [lia|]. done.
Qed.

Definition content_range (a n len : Z) : string := concat_str ["bytes "; show_Z a; "-"; show_Z (a + n - 1); "/"; show_Z len].

(** What is said of the piece of a file that a reply carries. *)
Definition piece_said (content : bytes) (mtime a n : Z) (status : Z) (headers : list (string * string)) : Prop :=
  0 <= a /\ 0 <= n /\ a + n <= blen content /\ In ("ETag", etag (blen content) mtime) headers /\
  (status = 200 /\ a = 0 /\ n = blen content \/ status = 206 /\ 0 < n /\ In ("Content-Range", content_range a n (blen content)) headers).

Lemma blen_nonneg (b : bytes) : 0 <= blen b.
Proof. unfold blen. lia. Qed.

Lemma send_streams id head content mtime seeks hs s r s' rest n : send id head content mtime seeks hs s = (r, s') -> s3_body r = Stream rest n ->
  exists a, rest = skipn (Z.to_nat a) content /\ piece_said content mtime a n (s3_status r) (s3_headers r).
Proof.
  unfold send. cbv zeta. pose proof (blen_nonneg content) as Hlen. destruct (precondition_holds _ _ _); cbn [negb]; [|by intros [= <- <-]]. destruct (unmodified _ _ _); [by intros [= <- <-]|].
  destruct (if range_current hs _ _ then _ else None) as [h|]; cbn [fmap option_fmap option_map].
  - destruct (parse_range h (blen content)) as [a b| |] eqn:Er.
    + destruct (parse_range_ok _ _ _ _ Hlen Er) as [Ha Hb]. destruct head; [by intros [= <- <-]|]. destruct (_ && _); [by intros [= <- <-]|]. intros [= <- <-]. cbn [s3_body]. intros [= <- <-].
      exists a. split; [done|]. unfold piece_said. cbn [s3_status s3_headers object_headers app]. split_and!; try lia; [right; by left|]. right. split_and!; [done|lia|].
      do 4 right. left. unfold content_range. by replace (a + (b - a + 1) - 1) with b by lia.
    + by intros [= <- <-].
    + destruct head; [by intros [= <- <-]|]. cbn. intros [= <- <-]. cbn. intros [= <- <-]. exists 0. split; [done|]. unfold piece_said. cbn. split_and!; [lia|lia|lia|right; by left|by left].
  - destruct head; [by intros [= <- <-]|]. cbn. intros [= <- <-]. cbn. intros [= <- <-]. exists 0. split; [done|]. unfold piece_said. cbn. split_and!; [lia|lia|lia|right; by left|by left].
Qed.

(** A name that is served: no part of it empty, hidden or odd, down real directories
    to a regular file. *)
Definition served_name (root : Node) (key : string) : Prop :=
  servable key = true /\ existsb bad_segment (split_char "/" key) = false /\ exists size mtime, descend root (split_char "/" key) = Some (NFile size mtime).

Lemma resolve_served root key path : resolve root key = Some path -> path = split_char "/" key /\ served_name root key.
Proof.
  unfold resolve, served_name. destruct (safe_segments key) as [segments|] eqn:Es; [|done]. cbn [mbind option_bind]. destruct (servable key); [|done]. cbn [negb].
  destruct (descend root segments) as [n|] eqn:Ed; [|done]. cbn [mbind option_bind]. intros [= <-]. pose proof (safe_segments_split _ _ Es) as ->. split_and!; [done|done| |].
  - revert Es. unfold safe_segments. destruct (String.eqb key ""); [done|]. cbv zeta. by destruct (existsb _ _).
  - assert (Hf : forall segs root n, descend root segs = Some n -> exists size mtime, n = NFile size mtime).
    { clear. induction segs as [|s [|s2 segs] IH]; intros root n; [done| |].
      - cbn [descend]. intros H. bind_inv H c Ec. destruct c; [|done|done]. injection H as <-. by eauto.
      - rewrite descend_cons. intros H. bind_inv H c Ec. destruct (is_dir c); [|done]. by eapply IH. }
    destruct (Hf _ _ _ Ed) as (size & mtime & ->). by exists size, mtime.
Qed.

Lemma list_objects_text id bucket root raw_query scope : exists t, s3_body (list_objects id bucket root raw_query scope) = Text t.
Proof.
  unfold list_objects. destruct (list_query id raw_query) as [r|q] eqn:E; [|by eexists]. revert E. unfold list_query. cbv zeta.
  repeat (case_match; try (intros [= <-]; by eexists)); done.
Qed.

Lemma page_text name value (c1 c2 : bool) page id bucket root raw_query scope rest n :
  s3_body (with_ name value (if c1 then xml 200 "" else if c2 then xml 200 page else list_objects id bucket root raw_query scope)) = Stream rest n -> False.
Proof. destruct c1; [done|]. destruct c2; [done|]. cbn [with_ s3_body]. destruct (list_objects_text id bucket root raw_query scope) as [t ->]. done. Qed.

Section Serving.
Context (sha256 : bytes -> bytes) (hmac : bytes -> bytes -> bytes) (from_slice : bytes -> option Json) (inner : Inner).

(** The object a path names, for someone who may read so much. *)
Definition names_object (env : Env) (scope : ReadScope) (raw_path : string) (root : Disk) (key : string) : Prop :=
  exists bucket_raw key_raw b,
    raw_path = String.append "/" (String.append bucket_raw (String "/" key_raw)) /\ bucket_of inner env bucket_raw = Some (b, root) /\
    percent_decode key_raw false = Some key /\ scope_allows scope key = true /\ (b = bucket inner \/ is_whole scope = true).

Lemma answer_streams id env access method raw_path raw_query hs s r s' rest n :
  answer inner id env access method raw_path raw_query hs s = (r, s') -> s3_body r = Stream rest n ->
  method = "GET" /\ exists root key content mtime seeks a, names_object env (scope access) raw_path root key /\ served_name (tree root) key /\
    opens root (split_char "/" key) = IsFile content mtime seeks /\ rest = skipn (Z.to_nat a) content /\
    piece_said content mtime a n (s3_status r) (s3_headers r).
Proof.
  unfold answer. destruct (negb (String.eqb method "GET" || String.eqb method "HEAD")) eqn:Em; [by intros [= <- <-]|]. cbv zeta.
  destruct (strip_prefix "/" raw_path) as [path|] eqn:Ep; [|by intros [= <- <-]]. apply strip_prefix_inv in Ep as ->.
  destruct (String.eqb path ""); [destruct (String.eqb method "HEAD"); by intros [= <- <-]|].
  destruct (split_once "/" path) as [[bucket_raw key_raw]|] eqn:Es; cycle 1.
  { destruct (bucket_of inner env path) as [[b root]|]; [|by intros [= <- <-]]. destruct (_ && _); [by intros [= <- <-]|]. cbn [String.eqb].
    intros [= <- <-] H. by apply page_text in H. }
  apply split_once_sound in Es as ->. destruct (bucket_of inner env bucket_raw) as [[b root]|] eqn:Eb; [|by intros [= <- <-]].
  destruct (negb (String.eqb b (bucket inner)) && negb (is_whole (scope access))) eqn:Ew; [by intros [= <- <-]|].
  destruct (String.eqb key_raw "").
  { intros [= <- <-] H. by apply page_text in H. }
  destruct (negb (is_whole (scope access)) && _) eqn:Ea; [by intros [= <- <-]|].
  unfold object. destruct (percent_decode key_raw false) as [key|] eqn:Ek; [|by intros [= <- <-]]. destruct (resolve (tree root) key) as [p|] eqn:Er; [|by intros [= <- <-]].
  destruct (resolve_served _ _ _ Er) as [-> Hn]. destruct (opens root _) as [| | |content mtime seeks] eqn:Eo; try (by intros [= <- <-]).
  intros Hsend Hbody. assert (Hm : method = "GET").
  { destruct (String.eqb_spec method "GET") as [|_]; [done|]. destruct (String.eqb_spec method "HEAD") as [->|_]; [|done]. exfalso. revert Hsend Hbody. unfold send. cbv zeta.
    repeat case_match; intros; simplify_eq; done. }
  subst method. destruct (send_streams _ _ _ _ _ _ _ _ _ _ _ Hsend Hbody) as (a & Hrest & Hsaid). split; [done|]. exists root, key, content, mtime, seeks, a. split_and!; try done.
  exists bucket_raw, key_raw, b. split_and!; try done.
  - destruct (is_whole (scope access)) eqn:Ew'; [by apply whole_allows|]. cbn [negb andb] in Ea. by apply negb_false_iff in Ea.
  - destruct (String.eqb_spec b (bucket inner)); [by left|right]. cbn [negb andb] in Ew. by apply negb_false_iff.
Qed.
End Serving.

Lemma firstn_length_exact {A} (n : Z) (l : list A) : 0 <= n <= Z.of_nat (List.length l) -> Z.of_nat (List.length (firstn (Z.to_nat n) l)) = n.
Proof. intros H. rewrite length_firstn. lia. Qed.

(** C11: every byte of a file that is handed to a listener's client is a byte of the object
    it asked for.  Such a reply answers a [GET] of a path that names a bucket and a key;
    the requester is entitled, by an open listener or by a valid signature with the
    secret of a reader or a session, to a scope that holds the key, and to the whole
    store for a bucket of parts; the name is served, without hidden or empty parts and
    down real directories to a regular file; and what is sent is, at its stated length,
    the whole file or the range the reply says, with the tag of that version. *)
Theorem sent_bytes_are_the_object sha256 hmac from_slice (inner : Inner) (env : Env) (r : Incoming) (s s' : S3State) (h : Handed) (data : bytes) (n : Z) :
  handle sha256 hmac from_slice inner env r s = (h, s') -> streamed h = Some (Some data, n) ->
  method_name r = "GET" /\ host_allowed inner (headers r) = true /\
  exists who scope root key content mtime seeks a,
    entitled sha256 hmac from_slice inner (now env) "GET" (rq_path r) (query r) (headers r) (s3_auth s) who scope /\
    names_object inner env scope (rq_path r) root key /\ served_name (tree root) key /\ opens root (split_char "/" key) = IsFile content mtime seeks /\
    blen data = n /\ data = firstn (Z.to_nat n) (skipn (Z.to_nat a) content) /\ piece_said content mtime a n (status (handed h)) (rp_headers (handed h)).
Proof.
  unfold handle, route. destruct (gate _ _ _ _ _ _ _ _ _ _ _) as [[denied|access] s1] eqn:Eg.
  - intros [= <- <-]. unfold into_http. cbn [with_ s3_body]. intros Hst. exfalso. revert Eg Hst. unfold gate.
    destruct (negb _); [intros [= <- <-]; cbn; by destruct (bool_decide _)|]. destruct (Sigv4.header _ _) as [token|].
    + destruct (s3_session _ _ _ _ _) as [reason|[p [a b]]]; [intros [= <- <-]; destruct reason; cbn; by destruct (bool_decide _)|].
      unfold judge. destruct (Sigv4.verify _ _ _ _ _ _ _ _) as [e|]; [|done]. intros [= <- <-]. destruct e; cbn; by destruct (bool_decide _).
    + destruct (negb _); [done|]. destruct (named_reader _ _) as [[p|] creds]; cbn [judge]; destruct (Sigv4.verify _ _ _ _ _ _ _ _) as [e|]; try done; intros [= <- <-];
        try (destruct e; cbn; by destruct (bool_decide _)); cbn; by destruct (bool_decide _).
  - destruct (gate_grants _ _ _ _ _ _ _ _ _ _ _ _ _ Eg) as (-> & Hhost & Hent). destruct (answer _ _ _ _ _ _ _ _ _) as [reply s2] eqn:Ea. intros [= <- <-].
    unfold into_http. cbn [with_ s3_body s3_status s3_headers]. intros Hst.
    destruct (s3_body reply) as [t|rest len|len] eqn:Eb; [cbn in Hst; by destruct (bool_decide _)| |done]. cbn [streamed] in Hst. injection Hst as <- <-.
    destruct (answer_streams _ _ _ _ _ _ _ _ _ _ _ _ _ Ea Eb) as (Hm & root & key & content & mtime & seeks & a & Hnames & Hserved & Hopens & -> & Hsaid).
    rewrite Hm in *. split; [done|]. split; [done|]. exists (principal access), (scope access), root, key, content, mtime, seeks, a.
    destruct Hsaid as (Ha & Hn & Hlen & Htag & Hst). split_and!; try done.
    + unfold blen in *. apply firstn_length_exact. rewrite length_skipn. lia.
    + unfold piece_said. cbn [handed status rp_headers]. split_and!; try done.
      * apply filter_In. split; [|done]. apply in_app_iff. left. apply in_app_iff. by left.
      * destruct Hst as [?|(? & ? & Hin)]; [by left|right]. split_and!; [done|done|]. apply filter_In. split; [|done]. apply in_app_iff. left. apply in_app_iff. by left.
Qed.

(** ** Versions *)

Fixpoint hex_value (a : Z) (s : string) : Z :=
  match s with "" => a | String c r => hex_value (16 * a + default 0 (Base64.hex_digit c)) r end.

Lemma hex_char_value d : 0 <= d < 16 -> Base64.hex_digit (hex_char d) = Some d.
Proof. intros H. assert (E : d = 0 \/ d = 1 \/ d = 2 \/ d = 3 \/ d = 4 \/ d = 5 \/ d = 6 \/ d = 7 \/ d = 8 \/ d = 9 \/ d = 10 \/ d = 11 \/ d = 12 \/ d = 13 \/ d = 14 \/ d = 15) by lia. by destruct_or! E; subst. Qed.

Lemma show_hex_value fuel : forall n acc, 0 <= n < 16 ^ Z.of_nat fuel -> (0 < fuel)%nat -> hex_value 0 (show_hex_aux fuel n acc) = hex_value n acc.
Proof.
  induction fuel as [|fuel IH]; intros n acc Hn Hf; [lia|]. cbn [show_hex_aux]. pose proof (Z.mod_pos_bound n 16 ltac:(lia)) as Hm. pose proof (Z.div_mod n 16 ltac:(lia)) as Hd.
  destruct (Z.eqb_spec (n / 16) 0) as [E|E].
  - cbn [hex_value]. rewrite hex_char_value by lia. cbn [default]. f_equal. unfold id. lia.
  - rewrite IH.
    + cbn [hex_value]. rewrite hex_char_value by lia. cbn [default]. f_equal. unfold id. lia.
    + split; [apply Z.div_pos; lia|]. apply Z.div_lt_upper_bound; [lia|]. rewrite Nat2Z.inj_succ, Z.pow_succ_r in Hn by lia. lia.
    + destruct fuel as [|fuel]; [|lia]. change (16 ^ Z.of_nat 1) with 16 in Hn. exfalso. apply E. apply Z.div_small. lia.
Qed.

Lemma show_hex_inj a b : 0 <= a -> 0 <= b -> show_hex a = show_hex b -> a = b.
Proof.
  intros Ha Hb H. assert (V : forall n, 0 <= n -> hex_value 0 (show_hex n) = n).
  { intros n Hn. unfold show_hex. rewrite show_hex_value; [done| |lia]. split; [done|]. destruct (decide (n = 0)) as [->|]; [done|].
    pose proof (Z.log2_spec n ltac:(lia)) as [_ Hl]. pose proof (Z.log2_nonneg n). rewrite Nat2Z.inj_succ, Z2Nat.id by lia. eapply Z.lt_le_trans; [exact Hl|]. apply Z.pow_le_mono_l. lia. }
  rewrite <- (V a Ha), <- (V b Hb). by rewrite H.
Qed.

Lemma show_hex_aux_all fuel n acc : str_all is_hexdigit acc = true -> str_all is_hexdigit (show_hex_aux fuel n acc) = true.
Proof.
  revert n acc. induction fuel as [|fuel IH]; intros n acc H; [done|]. cbn [show_hex_aux]. pose proof (Z.mod_pos_bound n 16 ltac:(lia)) as Hm.
  assert (Hc : str_all is_hexdigit (String (hex_char (n mod 16)) acc) = true).
  { cbn [str_all]. rewrite H, andb_true_r. set (d := n mod 16) in *. clearbody d. assert (E : d = 0 \/ d = 1 \/ d = 2 \/ d = 3 \/ d = 4 \/ d = 5 \/ d = 6 \/ d = 7 \/ d = 8 \/ d = 9 \/ d = 10 \/ d = 11 \/ d = 12 \/ d = 13 \/ d = 14 \/ d = 15) by lia. by destruct_or! E; subst. }
  destruct (n / 16 =? 0); [done|]. by apply IH.
Qed.
Lemma show_hex_all (p : ascii -> bool) n : (forall c, is_hexdigit c = true -> p c = true) -> str_all p (show_hex n) = true.
Proof. intros H. eapply str_all_impl; [exact H|]. by apply show_hex_aux_all. Qed.

Definition tag_text (a b : string) : string := concat_str [dquote; a; "-"; b; dquote].
Lemma etag_text len mtime : etag len mtime = tag_text (show_hex len) (show_hex (Z.max 0 mtime)).
Proof. done. Qed.

(** A version's tag tells its length and its time. *)
Lemma etag_inj l1 t1 l2 t2 : 0 <= l1 -> 0 <= l2 -> etag l1 t1 = etag l2 t2 -> l1 = l2 /\ Z.max 0 t1 = Z.max 0 t2.
Proof.
  intros H1 H2. rewrite !etag_text. unfold tag_text, dquote. cbn [concat_str fold_right String.append]. intros [= H].
  assert (Hl : forall n, lacks "-" (show_hex n) = true) by (intros n; apply show_hex_all; intros c; by destruct c as [[] [] [] [] [] [] [] []]).
  apply cut_inj in H as [Ha Hb]; [|apply Hl|apply Hl]. apply app_inj_r in Hb. split; apply show_hex_inj; try done; lia.
Qed.

Lemma etag_graphic len mtime : str_all graphic (etag len mtime) = true /\ lacks "," (etag len mtime) = true.
Proof.
  rewrite etag_text. unfold tag_text, dquote, lacks. cbn [concat_str fold_right]. rewrite !str_all_app, !show_hex_all; [done|..]; intros c; by destruct c as [[] [] [] [] [] [] [] []].
Qed.

Lemma own_tag len mtime : tags (etag len mtime) = [etag len mtime].
Proof. destruct (etag_graphic len mtime) as [Hg Hc]. unfold tags. rewrite split_char_one by done. cbn [List.map]. by rewrite trim_graphic. Qed.

Lemma tag_not_star len mtime : String.eqb (etag len mtime) "*" = false.
Proof. done. Qed.

Lemma weak_tag len mtime : trim_weak (etag len mtime) = etag len mtime.
Proof. rewrite etag_text. unfold tag_text, dquote. cbn [concat_str fold_right String.append trim_weak]. by destruct (String.append (show_hex len) _). Qed.

(** A request for a range of one version of an object. *)
Definition pins (hs : Headers) (tag : string) (a b : Z) : Prop :=
  Sigv4.header hs "if-match" = Some tag /\ Sigv4.header hs "range" = Some (range_text a b) /\
  Sigv4.header hs "if-none-match" = None /\ Sigv4.header hs "if-modified-since" = None /\ Sigv4.header hs "if-range" = None.

Definition body_bytes (r : S3Reply) : bytes := match s3_body r with Stream rest n => firstn (Z.to_nat n) rest | _ => [] end.

Lemma pinned_range id content0 mtime0 content mtime seeks hs s a b :
  pins hs (etag (blen content0) mtime0) a b -> 0 <= a <= b -> b <= u64_max -> a < blen content0 ->
  (blen content = blen content0 -> Z.max 0 mtime = Z.max 0 mtime0 -> content = content0) ->
  let r := fst (send id false content mtime seeks hs s) in
  s3_status r = 206 /\ body_bytes r = firstn (Z.to_nat (b - a + 1)) (skipn (Z.to_nat a) content0) \/ s3_status r = 412 \/ s3_status r = 500.
Proof.
  intros (Hm & Hr & Hn & Hs & Hi) Hab Hb Ha Hver. cbv zeta. unfold send, precondition_holds, unmodified, range_current. cbv zeta. rewrite Hm, Hr, Hn, Hs, Hi, own_tag.
  cbn [existsb mbind option_bind negb]. rewrite tag_not_star. cbn [orb]. destruct (String.eqb_spec (etag (blen content0) mtime0) (etag (blen content) mtime)) as [E|_]; cbn [orb negb]; [|by right; left].
  apply etag_inj in E as [E1 E2]; [|apply blen_nonneg|apply blen_nonneg]. rewrite (Hver (eq_sym E1) (eq_sym E2)). cbn [fmap option_fmap option_map]. rewrite range_reads_back by lia.
  destruct ((0 <? a) && negb seeks); [by right; right|]. left. split; [done|]. unfold body_bytes. cbn [fst s3_body].
  unfold blen in *. set (l := skipn (Z.to_nat a) content0). assert (Hl : Z.of_nat (List.length l) = Z.of_nat (List.length content0) - a) by (unfold l; rewrite length_skipn; lia).
  destruct (Z.min_spec b (Z.of_nat (List.length content0) - 1)) as [[? ->]|[? ->]]; [done|]. rewrite !firstn_all2; [done| |]; lia.
Qed.

Lemma chunks_make (k : nat) count : (0 < k)%nat -> forall (l : bytes), (List.length l <= count * k)%nat ->
  concat (List.map (fun i => firstn k (skipn (i * k) l)) (seq 0 count)) = l.
Proof.
  intros Hk. induction count as [|count IH]; intros l Hl; [destruct l; [done|cbn in Hl; lia]|]. cbn [seq List.map concat]. cbn [Nat.mul skipn].
  rewrite <- seq_shift, List.map_map. transitivity (firstn k l ++ skipn k l); [|apply firstn_skipn]. f_equal. transitivity (concat (List.map (fun i => firstn k (skipn (i * k) (skipn k l))) (seq 0 count))).
  - f_equal. apply map_ext. intros i. rewrite skipn_skipn. do 2 f_equal. lia.
  - apply IH. rewrite length_skipn. lia.
Qed.

(** C13: ranges, one after the other and each pinned to a tag, put together that version of
    the file or show that it is gone.  Whatever the file has become by each request (its
    length and time identify its bytes), a request of a range that is within the pinned
    version is answered with 206, 412 or, when the file cannot be sought in, 500; and if
    all are answered with 206 then the bodies make up the version's bytes. *)
Theorem pinned_ranges_make_the_file (content : bytes) (mtime chunk : Z) (count : nat) (id : nat -> Z) (version : nat -> bytes * Z * bool) (hs : nat -> Headers) (st : nat -> S3State) :
  0 < chunk -> Z.of_nat count * chunk <= u64_max -> (Z.of_nat count - 1) * chunk < blen content <= Z.of_nat count * chunk ->
  (forall i, blen (fst (fst (version i))) = blen content -> Z.max 0 (snd (fst (version i))) = Z.max 0 mtime -> fst (fst (version i)) = content) ->
  (forall i, pins (hs i) (etag (blen content) mtime) (Z.of_nat i * chunk) (Z.of_nat i * chunk + chunk - 1)) ->
  let reply i := let '(c, t, seeks) := version i in fst (send (id i) false c t seeks (hs i) (st i)) in
  (forall i, (i < count)%nat -> s3_status (reply i) ∈ [206; 412; 500]) /\
  ((forall i, (i < count)%nat -> s3_status (reply i) = 206) -> concat (List.map (fun i => body_bytes (reply i)) (seq 0 count)) = content).
Proof.
  intros Hchunk Hmax Hlen Hver Hpins. cbv zeta.
  assert (Hone : forall i, (i < count)%nat -> let '(c, t, seeks) := version i in let r := fst (send (id i) false c t seeks (hs i) (st i)) in
    s3_status r = 206 /\ body_bytes r = firstn (Z.to_nat chunk) (skipn (i * Z.to_nat chunk) content) \/ s3_status r = 412 \/ s3_status r = 500).
  { intros i Hi. specialize (Hver i). specialize (Hpins i). destruct (version i) as [[c t] seeks]. cbn [fst snd] in Hver.
    pose proof (pinned_range (id i) content mtime c t seeks (hs i) (st i) _ _ Hpins) as H. cbv zeta in H.
    destruct (H ltac:(nia) ltac:(nia) ltac:(nia) Hver) as [[H1 H2]|H']; [|by right].
    left. split; [done|]. rewrite H2. f_equal; [lia|]. f_equal. rewrite Z2Nat.inj_mul, Nat2Z.id by lia. lia. }
  split.
  - intros i Hi. specialize (Hone i Hi). destruct (version i) as [[c t] seeks]. destruct Hone as [[-> _]|[->| ->]]; set_solver.
  - intros Hall. transitivity (concat (List.map (fun i => firstn (Z.to_nat chunk) (skipn (i * Z.to_nat chunk) content)) (seq 0 count))).
    + f_equal. apply map_ext_in. intros i Hi. apply in_seq in Hi. specialize (Hone i ltac:(lia)). specialize (Hall i ltac:(lia)). destruct (version i) as [[c t] seeks].
      destruct Hone as [[_ ?]|[E|E]]; [done| |]; by rewrite E in Hall.
    + apply chunks_make; [lia|]. unfold blen in Hlen. nia.
Qed.

(** ** Dates *)

Lemma s3_days_civil y m d : 1970 <= y <= 9999 -> 1 <= m <= 12 -> 1 <= d <= 31 -> s3_days_from_civil y m d = Civil.days_from_civil y m d.
Proof.
  intros Hy Hm Hd. rewrite days_from_civil_closed by (unfold i64_min, i64_max; lia). unfold s3_days_from_civil, days_before, day_of.
  set (y' := if m <=? 2 then y - 1 else y). assert (Hy' : 1969 <= y' <= 9999) by (unfold y'; destruct (m <=? 2); lia).
  replace (if m <=? 2 then wrap_i64 (y - 1) else y) with y' by (unfold y'; destruct (m <=? 2); [by rewrite wrap_i64_small by (unfold i64_min, i64_max; lia)|done]). cbv zeta.
  replace (if 0 <=? y' then y' else wrap_i64 (y' - 399)) with y' by (destruct (Z.leb_spec 0 y'); [done|lia]). rewrite (Z.quot_div_nonneg y' 400) by (unfold i64_min, i64_max; lia).
  rewrite (wrap_i64_small (y' / 400 * 400)), (wrap_i64_small (y' - y' / 400 * 400)) by (unfold i64_min, i64_max; dlia). rewrite !Z.quot_div_nonneg by (unfold i64_min, i64_max; dlia).
  set (yoe := y' - y' / 400 * 400). assert (Hyoe : 0 <= yoe < 400) by (unfold yoe; dlia). assert (Hq : 0 <= yoe / 4 <= 100 /\ 0 <= yoe / 100 <= 4) by (unfold i64_min, i64_max; dlia).
  assert (Hmp : (m + 9) mod 12 = if 2 <? m then m - 3 else m + 9) by (destruct (Z.ltb_spec 2 m); dlia).
  assert (Hdoy : 0 <= (153 * ((m + 9) mod 12) + 2) / 5 + d - 1 <= 400) by (unfold i64_min, i64_max; dlia). set (doy := _ / 5 + d - 1) in *.
  assert (He : 0 <= y' / 400 <= 25) by (unfold i64_min, i64_max; dlia).
  rewrite (wrap_i64_small (yoe * 365)), (wrap_i64_small (yoe * 365 + yoe / 4)), (wrap_i64_small (yoe * 365 + yoe / 4 - yoe / 100)), (wrap_i64_small (_ + doy)) by (unfold i64_min, i64_max; lia).
  rewrite (wrap_i64_small (y' / 400 * 146097)), (wrap_i64_small (_ + _)), (wrap_i64_small (_ - 719468)) by (unfold i64_min, i64_max; lia). unfold doy. rewrite Hmp. unfold yoe, y'.
  destruct (Z.leb_spec m 2); destruct (Z.ltb_spec 2 m); try lia.
  - replace ((y - 1 - (y - 1) / 400 * 400) / 4) with ((y - 1) / 4 - 100 * ((y - 1) / 400)) by (unfold i64_min, i64_max; dlia).
    replace ((y - 1 - (y - 1) / 400 * 400) / 100) with ((y - 1) / 100 - 4 * ((y - 1) / 400)) by (unfold i64_min, i64_max; dlia). lia.
  - replace ((y - y / 400 * 400) / 4) with (y / 4 - 100 * (y / 400)) by (unfold i64_min, i64_max; dlia). replace ((y - y / 400 * 400) / 100) with (y / 100 - 4 * (y / 400)) by (unfold i64_min, i64_max; dlia). lia.
Qed.

Lemma ws_word a s : str_all graphic a = true -> ws_split 0 (String.append a (String " " s)) = a :: ws_split 0 s.
Proof.
  induction a as [|c a IH]; cbn [String.append str_all]; [done|]. intros [Hc Ha]%andb_true_iff. cbn [ws_split]. rewrite ws_len_graphic by done. by rewrite IH.
Qed.
Lemma ws_last a : str_all graphic a = true -> a <> "" -> ws_split 0 a = [a].
Proof.
  induction a as [|c a IH]; [done|]. cbn [str_all]. intros [Hc Ha]%andb_true_iff _. cbn [ws_split]. rewrite ws_len_graphic by done. destruct a as [|c2 a]; [done|]. by rewrite IH.
Qed.

Lemma two_digits n : 0 <= n < 100 -> str_all graphic (pad0 2 n) = true /\ parse_uint u64_max (pad0 2 n) = Some n /\ parse_uint u32_max (pad0 2 n) = Some n /\ lacks ":" (pad0 2 n) = true.
Proof.
  intros H. split_and!.
  - apply digits_graphic. apply pad0_digits. lia.
  - apply parse_uint_pad0. unfold u64_max. lia.
  - apply parse_uint_pad0. unfold u32_max. lia.
  - eapply str_all_impl; [|apply pad0_digits; lia]. intros c. by apply digit_not.
Qed.

Lemma http_date_reads_back secs : 0 <= secs < iso_end -> parse_http_date (http_date secs) = Some secs.
Proof.
  unfold iso_end. intros Hs. unfold http_date. cbv zeta. set (day := secs / 86400). assert (Hd : 0 <= day < 2932897) by (unfold day; dlia).
  pose proof (days_from_civil_from_days day ltac:(lia)) as Hc. destruct (Civil.civil_from_days day) as [[y m] d]. destruct Hc as (Hv & Hy & Hy1 & Hdays).
  assert (Hyr : 1970 <= y <= 9999).
  { apply (civil_year_bounds y m d 1970 9999); [exact Hv|lia|lia|lia| |lia]. rewrite Hdays.
    assert (Civil.days_from_civil 1970 1 1 = 0 /\ Civil.days_from_civil (9999 + 1) 1 1 = 2932897) as [-> ->] by (split; vm_compute; reflexivity). lia. }
  destruct Hv as [Hm Hdd]. pose proof (month_len_range (is_leap y) m).
  set (rem := secs mod 86400). assert (Hrem : 0 <= rem < 86400) by (unfold rem; dlia).
  destruct (two_digits d ltac:(lia)) as (G1 & _ & P1 & _). destruct (two_digits (rem / 3600) ltac:(dlia)) as (G2 & P2 & _ & L2).
  destruct (two_digits (rem mod 3600 / 60) ltac:(dlia)) as (G3 & P3 & _ & L3). destruct (two_digits (rem mod 60) ltac:(dlia)) as (G4 & P4 & _ & L4).
  assert (Hday : exists w, nth (Z.to_nat ((day + 4) mod 7)) DAYS "" = w /\ str_all graphic w = true /\ w <> "").
  { assert (E : (day + 4) mod 7 = 0 \/ (day + 4) mod 7 = 1 \/ (day + 4) mod 7 = 2 \/ (day + 4) mod 7 = 3 \/ (day + 4) mod 7 = 4 \/ (day + 4) mod 7 = 5 \/ (day + 4) mod 7 = 6) by dlia.
    destruct_or! E; rewrite E; eexists; by split. }
  assert (Hmon : let w := nth (Z.to_nat (m - 1)) MONTHS "" in str_all graphic w = true /\ w <> "" /\ position (String.eqb w) MONTHS = Some (Z.to_nat (m - 1))).
  { assert (E : m = 1 \/ m = 2 \/ m = 3 \/ m = 4 \/ m = 5 \/ m = 6 \/ m = 7 \/ m = 8 \/ m = 9 \/ m = 10 \/ m = 11 \/ m = 12) by lia. by destruct_or! E; subst m. }
  destruct Hday as (wd & -> & Gd & Nd). destruct Hmon as (Gm & Nm & Pm). set (wm := nth (Z.to_nat (m - 1)) MONTHS "") in *.
  assert (Gy : str_all graphic (pad0 4 y) = true) by (apply digits_graphic, pad0_digits; lia).
  assert (Hwords : split_whitespace (concat_str [wd; ", "; pad0 2 d; " "; wm; " "; pad0 4 y; " "; pad0 2 (rem / 3600); ":"; pad0 2 (rem mod 3600 / 60); ":"; pad0 2 (rem mod 60); " GMT"])
    = [String.append wd ","; pad0 2 d; wm; pad0 4 y; concat_str [pad0 2 (rem / 3600); ":"; pad0 2 (rem mod 3600 / 60); ":"; pad0 2 (rem mod 60)]; "GMT"]).
  { cbn [concat_str fold_right]. rewrite !str_app_nil_r. unfold split_whitespace.
    replace (String.append wd (String.append ", " _)) with (String.append (String.append wd ",") (String " " (String.append (pad0 2 d) (String " " (String.append wm (String " " (String.append (pad0 4 y) (String " "
      (String.append (concat_str [pad0 2 (rem / 3600); ":"; pad0 2 (rem mod 3600 / 60); ":"; pad0 2 (rem mod 60)]) (String " " "GMT")))))))))).
    2:{ cbn [concat_str fold_right]. by rewrite !str_app_nil_r, !str_app_assoc. }
    rewrite !ws_word; [|cbn [concat_str fold_right]; by rewrite !str_all_app, G2, G3, G4|done|done|done|by rewrite str_all_app, Gd]. rewrite ws_last by done. cbn [List.filter].
    assert (Hne : forall w, w <> "" -> String.eqb w "" = false) by (intros w Hw; by destruct (String.eqb_spec w "")).
    rewrite (Hne (String.append wd ",")) by (by destruct wd). rewrite (Hne (pad0 2 d)), (Hne (pad0 4 y)) by apply pad0_nonempty. rewrite (Hne wm) by done.
    rewrite Hne by (cbn [concat_str fold_right]; pose proof (pad0_nonempty 2 (rem / 3600)); by destruct (pad0 2 (rem / 3600))). cbn [concat_str fold_right negb String.eqb]. by rewrite ?str_app_nil_r. }
  unfold parse_http_date. rewrite Hwords. cbn [String.eqb Ascii.eqb negb]. rewrite Pm. cbn [mbind option_bind]. rewrite P1. cbn [mbind option_bind].
  replace ((1 <=? d) && (d <=? 31)) with true by (symmetry; apply andb_true_iff; rewrite !Z.leb_le; lia). cbn [negb].
  rewrite parse_int_pad0 by (unfold i64_min, i64_max; lia). cbn [mbind option_bind concat_str fold_right]. rewrite str_app_nil_r.
  cbn [String.append].
  rewrite !split_char_cons by done. rewrite split_char_one by done. cbn [List.map]. rewrite P2, P3, P4.
  replace (_ || _ || _) with false by (symmetry; rewrite !orb_false_iff, !Z.ltb_ge; dlia). cbv zeta.
  replace (Z.of_nat (Z.to_nat (m - 1)) + 1) with m by lia. rewrite s3_days_civil, Hdays by lia. destruct (Z.ltb_spec day 0); [lia|]. f_equal.
  unfold wrap64, wrap. rewrite (Z.mod_small (day * 86400)), Z.mod_small by (unfold day, rem in *; dlia). unfold day, rem. dlia.
Qed.

(** What a reply says of a version is enough to ask again: sent back as
    [If-None-Match] the tag, or as [If-Modified-Since] the date, gets 304 and no byte
    of the file, and sent back as [If-Match] the tag, or as [If-Unmodified-Since] the
    date, never gets 412. *)
Theorem validators_read_back (id : Z) (head : bool) (content : bytes) (mtime : Z) (seeks : bool) (hs : Headers) (s : S3State) :
  unix_secs mtime < iso_end ->
  let tag := etag (blen content) mtime in
  let date := http_date (unix_secs mtime) in
  let r := fst (send id head content mtime seeks hs s) in
  let given name := Sigv4.header hs name in
  (given "if-match" = Some tag \/ given "if-match" = None /\ given "if-unmodified-since" = Some date -> s3_status r <> 412) /\
  (given "if-match" = None -> given "if-unmodified-since" = None ->
   given "if-none-match" = Some tag \/ given "if-none-match" = None /\ given "if-modified-since" = Some date -> s3_status r = 304 /\ s3_body r = Text "").
Proof.
  intros Hend. cbv zeta. set (tag := etag (blen content) mtime). set (date := http_date (unix_secs mtime)).
  assert (Hdate : parse_http_date date = Some (unix_secs mtime)) by (apply http_date_reads_back; split; [unfold unix_secs; dlia|done]).
  assert (Htag : String.eqb tag tag = true) by apply String.eqb_refl. split.
  - intros H. assert (Hp : precondition_holds hs tag (unix_secs mtime) = true).
    { unfold precondition_holds. destruct H as [->|[-> ->]]; [unfold tag; by rewrite own_tag; cbn [existsb]; fold tag; rewrite Htag, orb_true_r|].
      cbn [mbind option_bind]. rewrite Hdate. by apply Z.leb_refl. }
    unfold send. cbv zeta. fold tag. rewrite Hp. cbn [negb]. destruct (unmodified _ _ _); [done|]. destruct ((fun h => parse_range h _) <$> _) as [[a b| |]|]; destruct head; try done; by destruct (_ && _).
  - intros H1 H2 H. assert (Hu : unmodified hs tag (unix_secs mtime) = true).
    { unfold unmodified. destruct H as [->|[-> ->]]; [unfold tag; by rewrite own_tag; cbn [existsb]; rewrite weak_tag; fold tag; rewrite Htag, orb_true_r|].
      cbn [mbind option_bind]. rewrite Hdate. by apply Z.leb_refl. }
    unfold send. cbv zeta. fold tag. unfold precondition_holds. rewrite H1, H2. cbn [mbind option_bind negb]. by rewrite Hu.
Qed.

(** A listener that serves without credentials is one that has no reader and is bound
    to loopback addresses only. *)
Theorem open_is_loopback (cfg : S3ServeConfig) (with_parts : bool) (auth : Verifier) (sessions : option (Sessions * Z))
    (env_access env_secret : option string) (resolved : option (list bool)) (bound : bool) (inner : Inner) (s : S3State) :
  start_with_auth cfg with_parts auth sessions env_access env_secret resolved bound = inr (inner, s) ->
  (closed inner = false <-> readers auth = [] /\ exists addrs, resolved = Some addrs /\ addrs <> [] /\ Forall (eq true) addrs) /\ parts inner <> Some (bucket inner).
Proof.
  unfold start_with_auth. destruct (resolve_credentials _ _ _) as [e|creds]; [done|]. cbv zeta. destruct (with_parts && _) eqn:Ep; [done|].
  destruct resolved as [[|a addrs]|]; [done| |done]. destruct (negb _ && negb _ && negb _); [done|]. destruct (negb bound); [done|]. intros [= <- <-]. cbn [closed parts bucket]. split.
  - rewrite orb_false_iff, negb_false_iff, negb_false_iff, bool_decide_eq_true. change (a && forallb (fun a => a) addrs) with (forallb (fun a => a) (a :: addrs)). rewrite forallb_forall. split.
    + intros [Hr H]. split; [done|]. eexists. split; [done|]. split; [done|]. apply List.Forall_forall. intros x Hx. symmetry. by apply H.
    + intros [Hr (l & [= <-] & _ & H)]. split; [done|]. intros x Hx. rewrite List.Forall_forall in H. symmetry. by apply H.
  - destruct with_parts; [|done]. cbn [andb] in Ep. intros [= E]. by rewrite E, String.eqb_refl in Ep.
Qed.

(** ** A small store *)

Definition toy_opens (path : list string) : Opened :=
  if bool_decide (path = ["tenant=acme"; "index=app"; "x.parquet"]) then IsFile (str_bytes "PAR1 hello PAR1") 1000000000 true else NotFound.
Definition acme_tree (others : list (string * Node)) : Node :=
  NDir (("tenant=acme", NDir [("index=app", NDir [("x.parquet", NFile 15 1000000000)])]) :: others).
Definition toy_env (others : list (string * Node)) : Env :=
  mkEnv some_time (mkDisk (acme_tree others) 0 toy_opens) (mkDisk (NDir []) 0 (fun _ => NotFound)).

Definition acme : Principal := mkPrincipal "AKIDEXAMPLE" KReader "acme" AllIndexes [] [] Static None None.
Definition toy_state : S3State := mkS3State (mkS3Stats 0 0 0) (set_readers [(acme, secret_key some_creds)] (standalone two_tenants)).
Definition toy_inner (closed : bool) : Inner := mkInner "logs" None closed [] None.

(** A signed request for a path and a query. *)
Definition signed_headers (path query : string) : Headers :=
  match canonical_request "GET" path query some_headers some_names "UNSIGNED-PAYLOAD" with
  | inr c =>
      let d := signature_for toy_sha toy_hmac "secret" "20130524T000000Z" "20130524" "eu" c in
      ("Authorization", authorization_of "AKIDEXAMPLE" "20130524" "eu" some_names (toy_hmac (dv_key d) (str_bytes (string_to_sign d)))) :: some_headers
  | inl _ => []
  end.
Definition acme_key : string := "/logs/tenant%3Dacme/index=app/x.parquet".
Definition toy_route (others : list (string * Node)) (path query : string) (extra : Headers) : S3Reply * S3State :=
  route toy_sha toy_hmac (fun _ => None) (toy_inner true) 1 (toy_env others) "GET" path query (extra ++ signed_headers path query) toy_state.
Definition beta_tree : list (string * Node) := [("tenant=beta", NDir [("index=app", NDir [("y.parquet", NFile 7 0)])])].

Lemma acme_alike others : within ["tenant=acme/"] (acme_tree others) "" = acme_tree [] -> tree_ok (acme_tree others) ->
  alike ["tenant=acme/"] (toy_env []) (toy_env others).
Proof.
  intros Hw Hok. split; [done|]. assert (H0 : tree_ok (acme_tree [])) by (repeat constructor; cbn; set_solver). split.
  - split; [change (within ["tenant=acme/"] (acme_tree []) "" = within ["tenant=acme/"] (acme_tree others) ""); by rewrite Hw|done|done|exact H0|exact Hok].
  - intros Ew. by vm_compute in Ew.
Qed.

Lemma outside_never_shows_witness :
  toy_route [] "/logs" "" [] = toy_route beta_tree "/logs" "" [] /\ s3_status (fst (toy_route [] "/logs" "" [])) = 200 /\
  toy_route [] "/logs/tenant=beta/index=app/y.parquet" "" [] = toy_route beta_tree "/logs/tenant=beta/index=app/y.parquet" "" [] /\
  s3_status (fst (toy_route beta_tree "/logs/tenant=beta/index=app/y.parquet" "" [])) = 403.
Proof.
  assert (Hw : within ["tenant=acme/"] (acme_tree beta_tree) "" = acme_tree []) by (vm_compute; reflexivity).
  assert (Hok : tree_ok (acme_tree beta_tree)) by (repeat constructor; cbn; set_solver).
  split_and!; [|vm_compute; reflexivity| |vm_compute; reflexivity].
  - apply (outside_never_shows toy_sha toy_hmac (fun _ => None) (toy_inner true) 1 (toy_env []) (toy_env beta_tree) "GET" "/logs" "" (signed_headers "/logs" "") toy_state).
    replace (fst (gate _ _ _ _ _ _ _ _ _ _ _)) with (inr (mkAccess (Some acme) ["tenant=acme/"]) : S3Reply + Access) by (vm_compute; reflexivity). by apply acme_alike.
  - apply (outside_never_shows toy_sha toy_hmac (fun _ => None) (toy_inner true) 1 (toy_env []) (toy_env beta_tree) "GET" "/logs/tenant=beta/index=app/y.parquet" ""
      (signed_headers "/logs/tenant=beta/index=app/y.parquet" "") toy_state).
    replace (fst (gate _ _ _ _ _ _ _ _ _ _ _)) with (inr (mkAccess (Some acme) ["tenant=acme/"]) : S3Reply + Access) by (vm_compute; reflexivity). by apply acme_alike.
Defined.

Definition toy_request : Incoming :=
  mkIncoming Httpd.Get "GET" acme_key "" (("Range", "bytes=5-9") :: signed_headers acme_key "") [].
Definition toy_handled : Handed * S3State := handle toy_sha toy_hmac (fun _ => None) (toy_inner true) (toy_env beta_tree) toy_request toy_state.

Lemma sent_bytes_are_the_object_witness :
  streamed (fst toy_handled) = Some (Some (str_bytes "hello"), 5) /\ method_name toy_request = "GET" /\ host_allowed (toy_inner true) (headers toy_request) = true.
Proof.
  assert (H : streamed (fst toy_handled) = Some (Some (str_bytes "hello"), 5)) by (vm_compute; reflexivity).
  destruct (sent_bytes_are_the_object toy_sha toy_hmac (fun _ => None) (toy_inner true) (toy_env beta_tree) toy_request toy_state (snd toy_handled) (fst toy_handled)
    (str_bytes "hello") 5 (surjective_pairing toy_handled) H) as (H1 & H2 & _). split_and!; [exact H|exact H1|exact H2].
Defined.

Definition pinned_headers (i : nat) : Headers :=
  [("if-match", etag 15 1000000000); ("range", range_text (Z.of_nat i * 4) (Z.of_nat i * 4 + 4 - 1))].
Lemma pinned_ranges_make_the_file_witness :
  concat (List.map (fun i => body_bytes (fst (send 1 false (str_bytes "PAR1 hello PAR1") 1000000000 true (pinned_headers i) toy_state))) (seq 0 4)) = str_bytes "PAR1 hello PAR1".
Proof.
  refine (proj2 (pinned_ranges_make_the_file (str_bytes "PAR1 hello PAR1") 1000000000 4 4 (fun _ => 1) (fun _ => (str_bytes "PAR1 hello PAR1", 1000000000, true)) pinned_headers (fun _ => toy_state) _ _ _ _ _) _);
    [lia|vm_compute; discriminate|vm_compute; split; congruence|done|done|].
  intros i Hi. do 4 (destruct i as [|i]; [vm_compute; reflexivity|]). lia.
Defined.

Lemma validators_read_back_witness :
  s3_status (fst (send 1 false (str_bytes "PAR1") 1000000000 true [("If-Modified-Since", "Thu, 01 Jan 1970 00:00:01 GMT")] toy_state)) = 304.
Proof.
  refine (proj1 (proj2 (validators_read_back 1 false (str_bytes "PAR1") 1000000000 true [("If-Modified-Since", "Thu, 01 Jan 1970 00:00:01 GMT")] toy_state _) _ _ _));
    [vm_compute; reflexivity|reflexivity|reflexivity|right; split; vm_compute; reflexivity].
Defined.

Lemma open_is_loopback_witness :
  exists inner s, start_with_auth default_s3_config false (standalone two_tenants) None None None (Some [true; true]) true = inr (inner, s) /\ closed inner = false.
Proof.
  eexists _, _. split; [reflexivity|]. eapply (proj1 (open_is_loopback default_s3_config false (standalone two_tenants) None None None (Some [true; true]) true _ _ eq_refl)).
  split; [reflexivity|]. exists [true; true]. split_and!; [reflexivity|discriminate|repeat constructor].
Defined.

(** [from_str_radix] takes a sign, so a malformed escape is read as a byte. *)
Lemma signed_escape_is_read : S3List.percent_decode "%+5" false = Some (String (ascii_of_N 5) "") /\ decode_token "+5" = Some (String (ascii_of_N 5) "").
Proof. by vm_compute. Qed.
